(* ===== verification/_CoqProject ===== *)
-Q . S2P
Prelude.v
Rangeset.v
RadixTree.v
RadixTreeInv.v
RadixTreeOps.v
RadixTreeDel.v
RadixTreeScan.v
RadixTreeDestroy.v
RadixTreeProps.v
TimerHeap.v
Timer.v
TimerInv.v
TimerOps.v
TimerSoftirq.v
TimerHotplug.v
EvtChn.v
EvtChnInv.v
EvtChnOps.v
EvtChnPirq.v
EvtChnClose.v
EvtChnLife.v
EvtChnSend.v
EvtChnProps.v
PageList.v
BootMem.v
PageAlloc.v
PageAllocInv.v
PageAllocOps.v
PageAllocProps.v
PageOffline.v
PageDomheap.v
Tlsf.v
TlsfMap.v
TlsfLists.v
TlsfBlocks.v
TlsfInv.v
TlsfAlloc.v
TlsfFree.v
HeapSpec.v
TlsfProps.v
Xmalloc.v
XmallocPages.v
XmallocInv.v
XmallocOps.v
XmallocHeap.v
XmallocProps.v
Bits.v
RbTree.v
RbTreeRep.v
RbTreeOps.v
RbTreeInsert.v
RbTreeErase.v
RbTreeWalk.v
RbTreeRemove.v
RbTreeProps.v
Sort.v
SortProps.v
SortBytes.v
Extable.v
ExtableProps.v
Bitmap.v
BitmapWords.v
BitmapWeight.v
BitmapWrites.v
BitmapProps.v
BitmapRegions.v
Rcu.v
RcuList.v
RcuSpec.v
RcuSim.v
RcuInv.v
RcuWorld.v
RcuProg.v
RcuProps.v
RcuDrain.v
RcuBarrier.v
ListHead.v
ListHeadProps.v
