(* ===== verification/Prelude.v ===== *)
(** * A verification development for the Xen 4.2.2 hypervisor

    ** What is modelled

    Xen's common code keeps its data in a few sub-systems that the rest of the
    hypervisor calls. This library models twelve of them function by function:

    - range sets, xen/common/rangeset.c ([Rangeset]): sorted disjoint ranges
      with the permissions of a domain's I/O ports, memory and interrupts;
    - radix trees, xen/common/radix-tree.c: maps from indices to pointers
      ([RadixTree] has the definitions; [RadixTreeInv] the shape of a tree,
      [RadixTreeOps], [RadixTreeDel], [RadixTreeScan] and [RadixTreeDestroy]
      the operations; [RadixTreeProps] the theorems);
    - timers, xen/common/timer.c ([TimerHeap], [Timer], [TimerInv],
      [TimerOps], [TimerSoftirq], [TimerHotplug]): per-CPU binary heaps with an
      overflow list and an inactive list, the softirq that runs the timers and
      the migration of a CPU's timers when it goes down;
    - event channels, xen/common/event_channel.c ([EvtChn], [EvtChnInv],
      [EvtChnOps], [EvtChnPirq], [EvtChnClose], [EvtChnLife], [EvtChnSend],
      [EvtChnProps]), with the domain look-ups of xen/common/domain.c and the
      physical interrupt tables they use;
    - page lists, xen/include/xen/mm.h ([PageList]): lists of pages linked
      through the frame table;
    - the page allocator, xen/common/page_alloc.c: the boot-time allocator
      ([BootMem], with the number parser of xen/common/vsprintf.c), then the
      buddy heap, the Xen heap, the domain heap, the low-memory notice and page
      offlining ([PageAlloc] has the definitions; [PageAllocInv] the invariant
      and the block steps; [PageAllocOps] allocation and freeing;
      [PageAllocProps], [PageOffline] and [PageDomheap] the theorems);
    - the memory allocator xen/common/xmalloc_tlsf.c: pools of blocks in two
      levels of segregated lists ([Tlsf] has the definitions; [TlsfMap] the
      mapping of sizes to lists, [TlsfLists] the free lists and their bitmaps,
      [TlsfBlocks] the blocks of a region, [TlsfInv] the invariant, [TlsfAlloc]
      and [TlsfFree] the operations, [TlsfProps] the theorems), and [xmalloc]
      and [xfree] on a pool and on whole pages ([Xmalloc] has the definitions;
      [XmallocPages], [XmallocInv] and [XmallocOps] the specifications,
      [XmallocHeap] the page allocator below, [XmallocProps] the theorems).
      [HeapSpec] says what an allocator promises;
    - red-black trees, xen/common/rbtree.c ([RbTree] has the definitions;
      [RbTreeRep] ties pointers to trees, [RbTreeOps] rotations,
      [RbTreeInsert], [RbTreeErase], [RbTreeRemove] and [RbTreeWalk] the
      operations, [RbTreeProps] the theorems);
    - sorting, xen/common/sort.c ([Sort], [SortProps], [SortBytes]), and its
      user, the exception tables of xen/arch/x86/extable.c ([Extable],
      [ExtableProps]);
    - bitmaps, xen/common/bitmap.c with the inline parts of
      xen/include/xen/bitmap.h ([Bits] has facts on bits; [Bitmap] the
      definitions; [BitmapWords], [BitmapWeight] and [BitmapWrites] words,
      counting and writing; [BitmapProps] and [BitmapRegions] the theorems);
    - read-copy-update, xen/common/rcupdate.c ([Rcu] has the definitions;
      [RcuList] the linked lists of callbacks, [RcuSpec] the same steps on
      sequences and [RcuSim] that the code follows them; [RcuInv] the readers
      and the invariant, [RcuWorld] the events around the code, [RcuProg] that
      no batch is lost; [RcuProps], [RcuDrain] and [RcuBarrier] the theorems);
    - doubly linked lists, xen/include/xen/list.h ([ListHead] and
      [ListHeadProps]).

    They meet in the page allocator: the heap's lists are the lists that
    [PageList] refines, [end_boot_allocator] hands the regions of [BootMem] to
    the heap, and the heap raises the global virtual interrupt that
    [send_global_virq] of the event channels delivers. [xmalloc] is proved
    against the interface [XenHeap], which the Xen heap of [PageAlloc]
    implements, and its pool against the interface [PoolMemory].

    ** How the code is translated

    The models are shallow and executable. A [struct] is a [Record], a tagged
    union an [Inductive], a C integer a [Z] with its wrap-around written out
    ([u8], [u16], [u32], [u64], [s32]); a union whose members share storage and
    are both used (the order and the owner of a page) is one field. A pointer
    is the key of the map its target lives in, and [deref] stands for following
    it. Functions pass the state explicitly in the [outcome] monad: [Bug] is a
    failed [BUG_ON] or [ASSERT], a NULL dereference, an access out of bounds or
    the removal of an element from a list that it is not on; error returns are
    ordinary results. Code that a component calls but that is not modelled is
    an argument (the records [env] and [machine], with arbitrary functions) or
    is logged in the state as an event. Locked sections are single steps; where
    the code drops a lock, as [__evtchn_close] does between its two passes, the
    model lets the environment act. Read-copy-update is different: there every
    access to shared memory is a step of its own, and the steps of all CPUs
    interleave with each other, with readers and with CPUs coming and going;
    memory is sequentially consistent and batch numbers do not wrap.

    Loops are structural on the list or on a count where the C loop is bounded
    by one; otherwise they take fuel and running out of it is [Bug], so that the
    theorems, which exclude [Bug], prove termination. The fuel is 258 for the
    boot regions (an array of at most 256), 200 for the search over nodes (each
    of 64 nodes is visited at most once for the mask given and once for its
    complement), one more than the pages for populating the heap, the number
    of ports for the walks over event channels, 13 levels for a radix tree (11
    hold any 64-bit index), and a parameter for the softirq and the gang
    look-ups of a radix tree, whose theorems say how much is enough: one more
    than the timers due, or than the indices to scan. A pool grows at most once
    per allocation, so 3 rounds of its search are enough; the bits of a page
    count are walked with fuel 64 where 19 are enough. The loops of a red-black
    tree have more fuel than the tree has nodes (a logarithmic fuel is enough),
    those of the sort one more than its elements, the search for a free region
    one more than the bits.

    ** What is proved

    - Range sets: adding, removing, testing and reporting ranges against the
      set of numbers a range set denotes; destroying a domain's sets never
      trips an assertion. Two places where the code does less than it says are
      stated exactly.
    - Timers: the array heap stays a heap and keeps its indices; every sequence
      of the operations on timers refines a map from timers to expiry times and
      loses no wake-up. The softirq executes exactly the timers that are due,
      each once, and arms the hardware for the next one; its callbacks are any
      instance of the class [TimerCallbacks]. A CPU that goes down leaves all
      its timers, armed, on another one.
    - Radix trees: every history of calls has the results of a finite map; the
      scans enumerate in order; nodes are freed exactly once.
    - Event channels: an invariant that pairs inter-domain ports and ties the
      virtual and physical interrupt tables to the ports; every operation keeps
      it and no [BUG_ON] fires; what closing, resetting, destroying, binding,
      sending, unmasking and interrupts do, errors included.
    - Page lists: every operation refines one on lists of pages.
    - Boot allocator: adding, zapping and allocating against the set of free
      pages.
    - Buddy heap: the free pages are partitioned into aligned blocks, each on
      the list of its node, zone and order, and the counters count them.
      Allocation finds a block whenever there is one and takes exactly its
      pages; freeing merges and returns exactly its pages; any history of calls
      keeps this; populating works on any range, also for the first node. These
      theorems assume transcendent memory off and requests that name an existing
      node, which the code does not check.
    - Domain heap: ownership, page list and charge of an allocation, the
      failure paths, and that freeing undoes it.
    - Pools and [xmalloc]: every history of allocations, frees and accesses by
      the owners is one of an abstract allocator of disjoint, aligned blocks
      that keep their contents, whatever fresh pages contain; allocations
      succeed when memory can be had; the memory of a pool is tiled by its block
      headers, and its bitmaps and lists index exactly the free blocks; when all
      is freed only pages on the pool's list of free pages are left; large
      requests take and return exactly their pages; on the page allocator no
      page in use is ever free.
    - Red-black trees: every history of insertions, erasures and replacements
      keeps a red-black tree and has the sequence of the same history on a list;
      walks enumerate that sequence; depth and rounds of the loops are
      logarithmic.
    - Sorting: the array is permuted into order for any comparison that is a
      total preorder, and nothing else is written; after sorting, a look-up in
      an exception table finds what the unsorted table had.
    - Bitmaps: queries, writes and shifts bit by bit, whatever the unused bits
      hold; regions held by users never overlap.
    - Read-copy-update: no callback runs before the readers that were active when
      it was queued are gone; queues are first in, first out, and lose and
      duplicate nothing, also when a CPU takes over from one that left; without
      new work all callbacks run after finitely many turns, and work left is
      always noticed; a barrier returns after all earlier callbacks have run.
    - Doubly linked lists: every history of operations is one on sequences, and
      no assertion fails.
    - Defects, each with a theorem: sizes that wrap in [xmalloc], requests that
      index a pool's bitmaps out of bounds, pools that cannot be destroyed, the
      boot allocator's underflow, a node number from a guest used unchecked,
      offlining that misaligns blocks, onlining of broken pages, a disabled
      notice that fires, a shift that brings in unused bits of a bitmap, and a
      search that returns a free region reaching past the end of the bitmap.

    ** What is not modelled

    Architecture code, drivers, schedulers, grant tables, memory and control
    hypercalls, transcendent memory, tracing, libraries for images and device
    trees, security modules, and everything outside the hypervisor (tools,
    stub domains, firmware). Contents of memory are modelled for [xmalloc], by
    8-byte cells; elsewhere copying from and to guests, and scrubbing, are an
    input, a result or an event. Of the allocator the debug keys are left out,
    and so is the 32-bit Xen heap; of the bitmaps, printing and the
    conversion to bytes.
    Interleavings inside a locked section and weak memory are not modelled;
    [stop_machine_run], under which [rcu_barrier] runs, is what the theorem on
    the barrier assumes of it.

    This file has what all others share: the [outcome] monad, machine integers,
    tactics, hint databases and lemmas on lists. *)

From stdpp Require Export prelude gmap fin_maps numbers.
From stdpp Require Export list.
Global Open Scope Z_scope.

(** ** Notation scope of the development

    [Ok x] is a normal return; [Bug] is the hypervisor panicking in a [BUG()],
    a failed [BUG_ON()] or a failed [ASSERT()]. *)

Declare Scope xen_scope.
Delimit Scope xen_scope with xen.

Inductive outcome (A : Type) : Type :=
| Ok (a : A)
| Bug.
Arguments Ok {A} _.
Arguments Bug {A}.

#[export] Instance outcome_ret : MRet outcome := λ A, Ok.
#[export] Instance outcome_bind : MBind outcome := λ A B f m,
  match m with Ok a => f a | Bug => Bug end.

(** [BUG_ON(b) ;; k] *)
Definition BUG_ON {A} (b : bool) (k : outcome A) : outcome A :=
  if b then Bug else k.

(** Dereference of a pointer to an object that may not exist. *)
Definition deref {A B} (x : option A) (k : A → outcome B) : outcome B :=
  match x with Some a => k a | None => Bug end.

Notation "'let!' p := m 'in' k" :=
  (mbind (M:=outcome) (λ x, match x with p => k end) m)
  (at level 10, p pattern, k at level 200) : xen_scope.

#[export] Instance outcome_eq_dec {A} `{EqDecision A} : EqDecision (outcome A).
Proof. solve_decision. Defined.

Lemma Ok_bind_inv {A B} (f : A → outcome B) (m : outcome A) (b : B) :
  mbind f m = Ok b → ∃ a, m = Ok a ∧ f a = Ok b.
Proof. destruct m as [a|]; simpl; [eauto|discriminate]. Qed.

Lemma BUG_ON_inv {A} b (k : outcome A) r :
  BUG_ON b k = Ok r → b = false ∧ k = Ok r.
Proof. destruct b; simpl; [discriminate|auto]. Qed.

(** ** Machine integers

    Integers are kept in [Z]; these functions are the wrap-around of the C
    types of an x86_64 build. *)

Definition ULONG_MAX : Z := 2 ^ 64 - 1.
Definition u8 (x : Z) : Z := x mod 2 ^ 8.
Definition u16 (x : Z) : Z := x mod 2 ^ 16.
Definition u32 (x : Z) : Z := x mod 2 ^ 32.
Definition u64 (x : Z) : Z := x mod 2 ^ 64.

Lemma u16_small x : 0 ≤ x < 2 ^ 16 → u16 x = x.
Proof. apply Z.mod_small. Qed.

Lemma u32_small x : 0 ≤ x < 2 ^ 32 → u32 x = x.
Proof. apply Z.mod_small. Qed.

Lemma u64_small x : 0 ≤ x < 2 ^ 64 → u64 x = x.
Proof. apply Z.mod_small. Qed.

Lemma u64_range x : 0 ≤ u64 x < 2 ^ 64.
Proof. apply Z.mod_pos_bound. lia. Qed.

(** ** Error numbers (xen/include/xen/errno.h) *)

Definition EPERM : Z := 1.
Definition ENOENT : Z := 2.
Definition ESRCH : Z := 3.
Definition ENOMEM : Z := 12.
Definition EFAULT : Z := 14.
Definition EBUSY : Z := 16.
Definition EEXIST : Z := 17.
Definition EINVAL : Z := 22.
Definition ENOSPC : Z := 28.
Definition ENOSYS : Z := 38.

(** ** Generic tactics *)

(** Case analysis on every boolean comparison of [Z] in the goal. *)
Ltac case_Z :=
  repeat match goal with
  | |- context [Z.ltb ?a ?b] => destruct (Z.ltb_spec a b)
  | |- context [Z.leb ?a ?b] => destruct (Z.leb_spec a b)
  | |- context [Z.eqb ?a ?b] => destruct (Z.eqb_spec a b)
  | |- context [Z.gtb ?a ?b] => rewrite (Z.gtb_ltb a b)
  | |- context [Z.geb ?a ?b] => rewrite (Z.geb_leb a b)
  end.

(** Turn boolean comparisons in hypotheses into propositions. *)
Ltac b2p :=
  repeat match goal with
  | H : _ && _ = true |- _ => apply andb_true_iff in H; destruct H
  | H : _ || _ = false |- _ => apply orb_false_iff in H; destruct H
  | H : negb _ = true |- _ => apply negb_true_iff in H
  | H : negb _ = false |- _ => apply negb_false_iff in H
  | H : Z.gtb _ _ = _ |- _ => rewrite Z.gtb_ltb in H
  | H : Z.geb _ _ = _ |- _ => rewrite Z.geb_leb in H
  | H : Z.ltb _ _ = true |- _ => apply Z.ltb_lt in H
  | H : Z.ltb _ _ = false |- _ => apply Z.ltb_ge in H
  | H : Z.leb _ _ = true |- _ => apply Z.leb_le in H
  | H : Z.leb _ _ = false |- _ => apply Z.leb_gt in H
  | H : Z.eqb _ _ = true |- _ => apply Z.eqb_eq in H
  | H : Z.eqb _ _ = false |- _ => apply Z.eqb_neq in H
  | H : bool_decide _ = true |- _ => apply bool_decide_eq_true in H
  | H : bool_decide _ = false |- _ => apply bool_decide_eq_false in H
  end.

(** ** Lists split at a position *)

Lemma lookup_split_at {A} (a b : list A) (x : A) :
  (a ++ x :: b) !! length a = Some x.
Proof. by rewrite lookup_app_r, Nat.sub_diag by lia. Qed.

Lemma lookup_split_next {A} (a b : list A) (x : A) :
  (a ++ x :: b) !! S (length a) = head b.
Proof.
  rewrite lookup_app_r by lia.
  replace (S (length a) - length a)%nat with 1%nat by lia. by destruct b.
Qed.

Lemma insert_split_at {A} (a b : list A) (x y : A) :
  <[length a := y]> (a ++ x :: b) = a ++ y :: b.
Proof. by rewrite insert_app_r_alt, Nat.sub_diag by lia. Qed.

Lemma delete_split_at {A} (a b : list A) (x : A) :
  delete (length a) (a ++ x :: b) = a ++ b.
Proof. by rewrite delete_middle. Qed.

Lemma split_at_lookup {A} (l : list A) i x :
  l !! i = Some x → ∃ a b, l = a ++ x :: b ∧ length a = i.
Proof. intros H. apply list_elem_of_split_length in H as (a & b & -> & ->). by exists a, b. Qed.

Create HintDb xen.
Create Rewrite HintDb xen.
#[export] Hint Rewrite @lookup_split_at @lookup_split_next @insert_split_at
  @delete_split_at : xen.

(** Conversion of an [unsigned int] to [int]. *)
Definition s32 (x : Z) : Z := if x <? 2 ^ 31 then x else x - 2 ^ 32.

Lemma s32_small x : 0 ≤ x < 2 ^ 31 → s32 x = x.
Proof. unfold s32. case_Z; lia. Qed.

(** Filters that agree on the elements. *)
Lemma filter_ext_in {A} (P Q : A → Prop) `{∀ x, Decision (P x), ∀ x, Decision (Q x)} (l : list A) :
  (∀ x, x ∈ l → P x ↔ Q x) → filter P l = filter Q l.
Proof.
  induction l as [|x l IH]; intros Hl; [done|]. rewrite !filter_cons, IH by set_solver.
  destruct (Hl x) as [H1 H2]; [set_solver|]. repeat case_decide; tauto.
Qed.

(** A list has no more distinct elements than entries. *)
Lemma size_list_to_set_le {A} `{Countable A} (l : list A) :
  (size (list_to_set l : gset A) ≤ length l)%nat.
Proof.
  induction l as [|x l IH]; cbn [list_to_set length]; [done|].
  pose proof (size_union_alt {[x]} (list_to_set l : gset A)) as E. rewrite E, size_singleton.
  assert (size ((list_to_set l : gset A) ∖ {[x]}) ≤ size (list_to_set l : gset A))%nat; [|lia].
  apply subseteq_size. set_solver.
Qed.
