(* ===== verification/Rangeset.v ===== *)
(** * Range sets (xen/common/rangeset.c)

    A range set is a doubly linked list of inclusive ranges in ascending
    order. The list is modelled as a Rocq list; a [struct range *] into it is
    the position of its node ([option nat], [None] is [NULL]), so that the
    pointer comparisons of the code are comparisons of positions. Whether
    [xmalloc] succeeds is an argument of the operations that allocate. *)

From S2P Require Import Prelude.

(** ** Data *)

Record range := mk_range { rg_s : Z; rg_e : Z }.

#[export] Instance range_eq_dec : EqDecision range.
Proof. solve_decision. Defined.

Definition set_s (x : range) (s : Z) : range := mk_range s (rg_e x).
Definition set_e (x : range) (e : Z) : range := mk_range (rg_s x) e.

(** ** Private range functions *)

(** The walk of [find_range] from node [i], with [x] the last node kept. *)
Fixpoint find_range_from (l : list range) (i : nat) (x : option nat) (s : Z)
    : option nat :=
  match l with
  | [] => x
  | y :: l' => if rg_s y >? s then x else find_range_from l' (S i) (Some i) s
  end.

Definition find_range (r : list range) (s : Z) : option nat :=
  find_range_from r 0 None s.

Definition first_range (r : list range) : option nat :=
  match r with [] => None | _ => Some 0%nat end.

Definition next_range (r : list range) (x : nat) : option nat :=
  if bool_decide (S x < length r)%nat then Some (S x) else None.

(** [insert_range r x y]: the new list and the position of [y] in it. *)
Definition insert_range (r : list range) (x : option nat) (y : range)
    : list range * nat :=
  match x with
  | Some i => (take (S i) r ++ y :: drop (S i) r, S i)
  | None => (y :: r, 0%nat)
  end.

Definition destroy_range (r : list range) (x : nat) : list range := delete x r.

(** Field reads and writes through a node pointer. *)
Definition node (r : list range) (x : nat) : range :=
  default (mk_range 0 0) (r !! x).
Definition write_s (r : list range) (x : nat) (s : Z) : list range :=
  <[x := set_s (node r x) s]> r.
Definition write_e (r : list range) (x : nat) (e : Z) : list range :=
  <[x := set_e (node r x) e]> r.

(** ** rangeset_add_range *)

(** The [for ( ; ; )] loop that destroys the successors [x] now covers. *)
Fixpoint absorb (fuel : nat) (r : list range) (x : nat) : list range :=
  match fuel with
  | O => r
  | S fuel' =>
      match next_range r x with
      | None => r
      | Some y =>
          if rg_e (node r y) >? rg_e (node r x) then r
          else absorb fuel' (destroy_range r y) x
      end
  end.

(** The code after the two branches: merge [x] with an adjacent successor. *)
Definition merge_next (r : list range) (x : nat) : list range :=
  match next_range r x with
  | None => r
  | Some y =>
      if u64 (rg_e (node r x) + 1) =? rg_s (node r y)
      then destroy_range (write_e r x (rg_e (node r y))) y
      else r
  end.

(** The [else] branch, [x != y]: grow one range and absorb the ones it now
    covers. [y] is never [NULL] there; the list is returned as it is if it
    were. *)
Definition add_spanning (r : list range) (x y : option nat) (s e : Z)
    : list range :=
  match y with
  | None => r
  | Some y =>
      let ye := rg_e (node r y) in
      let '(r1, x1) :=
        match x with
        | None => (write_s r 0 s, 0%nat)
        | Some x =>
            if (rg_e (node r x) <? s) && negb (u64 (rg_e (node r x) + 1) =? s)
            then (write_s r (S x) s, S x)
            else (r, x)
        end in
      let r2 := write_e r1 x1 (if ye >? e then ye else e) in
      merge_next (absorb (length r2) r2 x1) x1
  end.

Definition rangeset_add_range (alloc_ok : bool) (r : list range) (s e : Z)
    : Z * list range :=
  let x := find_range r s in
  let y := find_range r e in
  if bool_decide (x = y) then
    let fresh :=
      match x with
      | None => true
      | Some x => (rg_e (node r x) <? s) && negb (u64 (rg_e (node r x) + 1) =? s)
      end in
    if fresh then
      if alloc_ok then
        let '(r1, x1) := insert_range r y (mk_range s e) in
        (0, merge_next r1 x1)
      else (- ENOMEM, r)
    else
      match x with
      | None => (0, r)
      | Some x =>
          let r1 := if rg_e (node r x) <? e then write_e r x e else r in
          (0, merge_next r1 x)
      end
  else (0, add_spanning r x y s e).

(** ** rangeset_remove_range *)

(** [while ( x != y ) { t = x; x = next_range(r, x); destroy_range(t); }]:
    destroying the node at [x] moves both [next_range x] and [y] one position
    down, so [x] keeps its position and [y] loses one. *)
Fixpoint destroy_until (r : list range) (x : nat) (n : nat) : list range :=
  match n with
  | O => r
  | S n' => destroy_until (destroy_range r x) x n'
  end.

Definition rangeset_remove_range (alloc_ok : bool) (r : list range) (s e : Z)
    : Z * list range :=
  let x := find_range r s in
  let y := find_range r e in
  if bool_decide (x = y) then
    match x with
    | None => (0, r)
    | Some x =>
        let nx := node r x in
        if rg_e nx <? s then (0, r)
        else if (rg_s nx <? s) && (rg_e nx >? e) then
          if alloc_ok then
            let y := mk_range (u64 (e + 1)) (rg_e nx) in
            (0, fst (insert_range (write_e r x (u64 (s - 1))) (Some x) y))
          else (- ENOMEM, r)
        else if (rg_s nx =? s) && (rg_e nx <=? e) then (0, destroy_range r x)
        else if rg_s nx =? s then (0, write_s r x (u64 (e + 1)))
        else if rg_e nx <=? e then (0, write_e r x (u64 (s - 1)))
        else (0, r)
    end
  else
    let x := match x with None => first_range r | _ => x end in
    match x, y with
    | Some x, Some y =>
        let '(r1, x1) :=
          if rg_s (node r x) <? s then (write_e r x (u64 (s - 1)), S x)
          else (r, x) in
        let r2 := destroy_until r1 x1 (y - x1) in
        let r3 := write_s r2 x1 (u64 (e + 1)) in
        (0, if rg_s (node r3 x1) >? rg_e (node r3 x1)
            then destroy_range r3 x1 else r3)
    | _, _ => (0, r)
    end.

(** ** Queries *)

Definition rangeset_contains_range (r : list range) (s e : Z) : bool :=
  match find_range r s with
  | None => false
  | Some x => rg_e (node r x) >=? e
  end.

Definition rangeset_overlaps_range (r : list range) (s e : Z) : bool :=
  match find_range r e with
  | None => false
  | Some x => s <=? rg_e (node r x)
  end.

(** The callback of [rangeset_report_ranges] threads a context [ctxt]. *)
Fixpoint report_loop {C} (cb : Z → Z → C → Z * C) (fuel : nat) (r : list range)
    (x : option nat) (s e rc : Z) (ctxt : C) : Z * C :=
  match fuel with
  | O => (rc, ctxt)
  | S fuel' =>
      match x with
      | None => (rc, ctxt)
      | Some x =>
          let nx := node r x in
          if (rg_s nx <=? e) && (rc =? 0) then
            let '(rc', ctxt') :=
              if rg_e nx >=? s
              then cb (Z.max (rg_s nx) s) (Z.min (rg_e nx) e) ctxt
              else (rc, ctxt) in
            report_loop cb fuel' r (next_range r x) s e rc' ctxt'
          else (rc, ctxt)
      end
  end.

Definition rangeset_report_ranges {C} (cb : Z → Z → C → Z * C)
    (r : list range) (s e : Z) (ctxt : C) : Z * C :=
  report_loop cb (S (length r)) r (find_range r s) s e 0 ctxt.

Definition rangeset_add_singleton (alloc_ok : bool) (r : list range) (s : Z) :=
  rangeset_add_range alloc_ok r s s.
Definition rangeset_remove_singleton (alloc_ok : bool) (r : list range) (s : Z) :=
  rangeset_remove_range alloc_ok r s s.
Definition rangeset_contains_singleton (r : list range) (s : Z) : bool :=
  rangeset_contains_range r s s.
Definition rangeset_is_empty (r : option (list range)) : bool :=
  match r with None => true | Some [] => true | Some _ => false end.

(** ** Well-formed lists and the set they denote *)

(** [wf_from lo l]: ascending, non-empty, in the machine's range, starting at
    or above [lo], with at least one value missing between two ranges. *)
Fixpoint wf_from (lo : Z) (l : list range) : Prop :=
  match l with
  | [] => True
  | x :: l' => lo ≤ rg_s x ∧ rg_s x ≤ rg_e x ∧ rg_e x ≤ ULONG_MAX ∧
               wf_from (rg_e x + 2) l'
  end.

Definition rangeset_wf (l : list range) : Prop := wf_from 0 l.

#[export] Instance wf_from_dec lo l : Decision (wf_from lo l).
Proof. revert lo. induction l; simpl; intros; apply _. Defined.

Definition in_range (x : range) (v : Z) : Prop := rg_s x ≤ v ≤ rg_e x.

(** The abstract value of a range set: a set of machine integers. *)
Definition in_set (l : list range) (v : Z) : Prop := Exists (λ x, in_range x v) l.

(** The first value a range may start at after the ranges of [l]. *)
Fixpoint next_lo (lo : Z) (l : list range) : Z :=
  match l with [] => lo | x :: l' => next_lo (rg_e x + 2) l' end.

Lemma in_set_nil v : in_set [] v ↔ False.
Proof. apply Exists_nil. Qed.

Lemma in_set_cons x l v : in_set (x :: l) v ↔ in_range x v ∨ in_set l v.
Proof. apply Exists_cons. Qed.

Lemma in_set_app a b v : in_set (a ++ b) v ↔ in_set a v ∨ in_set b v.
Proof. apply Exists_app. Qed.

Create Rewrite HintDb rangeset.
#[export] Hint Rewrite in_set_nil in_set_cons in_set_app : rangeset.

Lemma wf_from_weaken lo lo' l : lo' ≤ lo → wf_from lo l → wf_from lo' l.
Proof. destruct l; simpl; [done|]. intros ? (? & ? & ? & ?). repeat split; (lia || done). Qed.

Lemma wf_from_app lo a b :
  wf_from lo (a ++ b) ↔ wf_from lo a ∧ wf_from (next_lo lo a) b.
Proof. revert lo. induction a as [|x a IH]; simpl; intros lo; [tauto|]. rewrite IH. tauto. Qed.

Lemma next_lo_app lo a b : next_lo lo (a ++ b) = next_lo (next_lo lo a) b.
Proof. revert lo. induction a; simpl; auto. Qed.

Lemma next_lo_le lo a : wf_from lo a → lo ≤ next_lo lo a.
Proof.
  revert lo. induction a as [|x a IH]; simpl; intros lo; [lia|].
  intros (? & ? & ? & H). apply IH in H. lia.
Qed.

Lemma in_set_bounds lo l v :
  wf_from lo l → in_set l v → lo ≤ v ∧ v ≤ ULONG_MAX ∧ v + 2 ≤ next_lo lo l.
Proof.
  revert lo. induction l as [|x l IH]; simpl; intros lo; rewrite ?in_set_nil, ?in_set_cons; [done|].
  intros (? & ? & ? & H) [[? ?]|Hin].
  - apply next_lo_le in H. lia.
  - destruct (IH _ H Hin). lia.
Qed.

(** [find_range] splits a list at the last range that starts at or below [s]. *)
Lemma find_range_from_spec lo l i x0 s :
  wf_from lo l →
  match find_range_from l i x0 s with
  | r => (r = x0 ∧ Forall (λ y, s < rg_s y) l) ∨
         ∃ a x b, l = a ++ x :: b ∧ r = Some (i + length a)%nat ∧
                  rg_s x ≤ s ∧ Forall (λ y, s < rg_s y) b
  end.
Proof.
  revert lo i x0. induction l as [|y l IH]; intros lo i x0; simpl; [left; split; auto|].
  intros (? & ? & ? & Hwf). case_Z.
  - left. split; [done|]. constructor; [done|].
    clear IH. assert (s < rg_e y + 2) as Hs by lia. revert Hwf Hs.
    generalize (rg_e y + 2). clear. induction l as [|z l IH]; intros lo; simpl; [constructor|].
    intros (? & ? & ? & H) ?. constructor; [lia|]. apply (IH _ H). lia.
  - right. destruct (IH _ (S i) (Some i) Hwf) as [[-> Hall]|(a & x & b & -> & -> & ? & ?)].
    + exists [], y, l. rewrite Nat.add_0_r. auto.
    + exists (y :: a), x, b. simpl. rewrite Nat.add_succ_r. auto.
Qed.

Lemma find_range_spec l s :
  rangeset_wf l →
  (find_range l s = None ∧ Forall (λ y, s < rg_s y) l) ∨
  ∃ a x b, l = a ++ x :: b ∧ find_range l s = Some (length a) ∧
           rg_s x ≤ s ∧ Forall (λ y, s < rg_s y) b.
Proof.
  intros Hwf. destruct (find_range_from_spec _ _ 0 None s Hwf) as [[? ?]|(a & x & b & ? & ? & ?)].
  - by left.
  - right. exists a, x, b. auto.
Qed.

Lemma node_split a x b : node (a ++ x :: b) (length a) = x.
Proof. unfold node. by rewrite lookup_split_at. Qed.

Lemma next_range_split a x b :
  next_range (a ++ x :: b) (length a) =
  match b with [] => None | _ => Some (S (length a)) end.
Proof.
  unfold next_range. rewrite length_app. simpl.
  destruct b; simpl; case_bool_decide; try done; lia.
Qed.

Lemma node_next a x y b : node (a ++ x :: y :: b) (S (length a)) = y.
Proof. unfold node. by rewrite lookup_split_next. Qed.

Lemma node_mid a x m y b : node (a ++ x :: m ++ y :: b) (length a + S (length m)) = y.
Proof.
  replace (a ++ x :: m ++ y :: b) with ((a ++ x :: m) ++ y :: b) by by rewrite <- app_assoc.
  replace (length a + S (length m))%nat with (length (a ++ x :: m))
    by (rewrite length_app; simpl; lia).
  apply node_split.
Qed.

Lemma destroy_next a x y b :
  destroy_range (a ++ x :: y :: b) (S (length a)) = a ++ x :: b.
Proof.
  unfold destroy_range. replace (a ++ x :: y :: b) with ((a ++ [x]) ++ y :: b) by by rewrite <- app_assoc.
  replace (S (length a)) with (length (a ++ [x])) by (rewrite length_app; simpl; lia).
  rewrite delete_split_at. by rewrite <- app_assoc.
Qed.

Lemma write_e_split a x b e :
  write_e (a ++ x :: b) (length a) e = a ++ set_e x e :: b.
Proof. unfold write_e. by rewrite node_split, insert_split_at. Qed.

Lemma write_s_split a x b s :
  write_s (a ++ x :: b) (length a) s = a ++ set_s x s :: b.
Proof. unfold write_s. by rewrite node_split, insert_split_at. Qed.

#[export] Hint Rewrite node_split next_range_split node_next destroy_next
  write_e_split write_s_split : rangeset.

(** ** What the shared steps of [rangeset_add_range] do to a split list *)

Definition merged (x : range) (b : list range) : list range :=
  match b with
  | [] => [x]
  | y :: b' => if u64 (rg_e x + 1) =? rg_s y then set_e x (rg_e y) :: b'
               else x :: y :: b'
  end.

Lemma merge_next_split a x b : merge_next (a ++ x :: b) (length a) = a ++ merged x b.
Proof.
  unfold merge_next. autorewrite with rangeset. destruct b as [|y b]; [done|].
  autorewrite with rangeset. simpl. by case_match.
Qed.

Lemma merged_spec lo x b :
  lo ≤ rg_s x → rg_s x ≤ rg_e x → rg_e x ≤ ULONG_MAX → 0 ≤ rg_s x →
  wf_from (rg_e x + 1) b →
  wf_from lo (merged x b) ∧ (∀ v, in_set (merged x b) v ↔ in_range x v ∨ in_set b v).
Proof.
  intros ? ? ? ? Hb. destruct b as [|y b]; simpl in *.
  - autorewrite with rangeset. repeat split; auto; intros; autorewrite with rangeset in *; tauto.
  - destruct Hb as (? & ? & ? & Hb). unfold ULONG_MAX in *.
    assert (u64 (rg_e x + 1) = rg_e x + 1) as Hu by (apply u64_small; lia).
    rewrite Hu. case_Z; simpl; unfold ULONG_MAX.
    + split; [repeat split; auto; lia|]. intros v. autorewrite with rangeset.
      unfold in_range; simpl. intuition lia.
    + split; [repeat split; auto; lia|]. intros v. autorewrite with rangeset. tauto.
Qed.

Lemma absorb_split fuel a x m b :
  (length m ≤ fuel)%nat → Forall (λ z, rg_e z ≤ rg_e x) m →
  match b with [] => True | z :: _ => rg_e x < rg_e z end →
  absorb fuel (a ++ x :: m ++ b) (length a) = a ++ x :: b.
Proof.
  intros Hf Hm Hb. revert m Hf Hm. induction fuel as [|fuel IH]; intros m Hf Hm.
  - destruct m; [done|simpl in Hf; lia].
  - simpl. rewrite next_range_split. destruct Hm as [|y m Hy Hm]; simpl.
    + destruct b as [|z b]; [done|]. autorewrite with rangeset. simpl in Hb.
      case_Z; [done|lia].
    + autorewrite with rangeset. case_Z; [lia|]. apply IH; [simpl in Hf; lia|done].
Qed.

Lemma wf_from_head lo l k :
  wf_from lo l → Forall (λ y, k < rg_s y) l → wf_from (k + 1) l.
Proof.
  destruct l as [|y l]; simpl; [done|]. intros (? & ? & ? & ?) Hf.
  apply Forall_cons_1 in Hf as [? _]. repeat split; auto; lia.
Qed.

Lemma Forall_gt_set lo l k v :
  wf_from lo l → Forall (λ y, k < rg_s y) l → in_set l v → k < v.
Proof.
  intros Hw Hf Hv. pose proof (in_set_bounds _ _ _ (wf_from_head _ _ _ Hw Hf) Hv). lia.
Qed.

Lemma ULONG_MAX_eq : ULONG_MAX = 2 ^ 64 - 1.
Proof. reflexivity. Qed.

(** A range that ends at or above its predecessor's end by [find_range]: the
    guard [(x->e < s) && (x->e + 1 != s)] is a gap of at least one value. *)
Lemma gap_guard x s :
  0 ≤ rg_e x ≤ ULONG_MAX → 0 ≤ s ≤ ULONG_MAX →
  (rg_e x <? s) && negb (u64 (rg_e x + 1) =? s) = bool_decide (rg_e x + 2 ≤ s).
Proof.
  rewrite ULONG_MAX_eq. intros ? ?. case_Z; simpl; case_bool_decide; try done; try lia.
  - rewrite u64_small in * by lia. lia.
  - rewrite u64_small in * by lia. lia.
Qed.

(** Same range found for both ends: the [x == y] branch. *)
Lemma add_range_same alloc_ok a x b s e :
  rangeset_wf (a ++ x :: b) → 0 ≤ s ≤ e → e ≤ ULONG_MAX → rg_s x ≤ s →
  Forall (λ y, e < rg_s y) b →
  (rg_e x + 2 ≤ s → alloc_ok = true) →
  let l' := a ++ (if bool_decide (rg_e x + 2 ≤ s)
                  then x :: merged (mk_range s e) b
                  else merged (if rg_e x <? e then set_e x e else x) b) in
  rangeset_wf l' ∧ ∀ v, in_set l' v ↔ in_set (a ++ x :: b) v ∨ s ≤ v ≤ e.
Proof.
  unfold rangeset_wf. rewrite wf_from_app. simpl. intros [Ha (? & ? & ? & Hb)] ? ? ? Hbe _.
  pose proof (next_lo_le _ _ Ha) as Hlo. rewrite wf_from_app.
  pose proof (wf_from_head _ _ _ Hb Hbe) as Hb'.
  case_bool_decide; [|destruct (Z.ltb_spec (rg_e x) e)].
  - destruct (merged_spec (rg_e x + 2) (mk_range s e) b) as [Hw Hin]; simpl; try lia; [done|].
    split; [tauto|]. intros v. autorewrite with rangeset. rewrite Hin.
    unfold in_range; simpl. tauto.
  - destruct (merged_spec (next_lo 0 a) (set_e x e) b) as [Hw Hin]; simpl; try lia; [done|].
    split; [tauto|]. intros v. autorewrite with rangeset. rewrite Hin.
    unfold in_range; simpl. intuition lia.
  - destruct (merged_spec (next_lo 0 a) x b) as [Hw Hin]; simpl; try lia.
    { eapply wf_from_weaken, Hb. lia. }
    split; [tauto|]. intros v. autorewrite with rangeset. rewrite Hin.
    unfold in_range; simpl. intuition lia.
Qed.

(** The positions [find_range] returns for the two ends of [s..e]. *)
Inductive find_pair (l : list range) (s e : Z) : Prop :=
| fp_none :
    find_range l s = None → find_range l e = None →
    Forall (λ y, e < rg_s y) l → find_pair l s e
| fp_same a x b :
    l = a ++ x :: b → find_range l s = Some (length a) →
    find_range l e = Some (length a) → rg_s x ≤ s →
    Forall (λ y, e < rg_s y) b → find_pair l s e
| fp_below m y b :
    l = m ++ y :: b → find_range l s = None → find_range l e = Some (length m) →
    Forall (λ z, s < rg_s z) (m ++ [y]) → rg_s y ≤ e →
    Forall (λ y, e < rg_s y) b → find_pair l s e
| fp_span a x m y b :
    l = a ++ x :: m ++ y :: b → find_range l s = Some (length a) →
    find_range l e = Some (length a + S (length m))%nat → rg_s x ≤ s →
    Forall (λ z, s < rg_s z) (m ++ [y]) → rg_s y ≤ e →
    Forall (λ y, e < rg_s y) b → find_pair l s e.

Lemma Forall_app_mid {A} (P : A → Prop) m y b :
  Forall P (m ++ y :: b) → Forall P (m ++ [y]) ∧ P y.
Proof.
  rewrite !Forall_app, !Forall_cons. intros (? & ? & ?). repeat split; auto.
Qed.

Lemma find_pair_spec l s e : rangeset_wf l → s ≤ e → find_pair l s e.
Proof.
  intros Hwf Hse.
  destruct (find_range_spec _ s Hwf) as [[Hs Hall]|(a & x & b & Hl & Hs & Hx & Hb)],
    (find_range_spec _ e Hwf) as [[He Hall']|(a' & x' & b' & Hl' & He & Hx' & Hb')].
  - by apply fp_none.
  - apply (fp_below _ _ _ a' x' b'); auto. subst. by apply Forall_app_mid in Hall as [? _].
  - subst l. apply Forall_app in Hall' as [_ [? _]%Forall_cons_1]. lia.
  - rewrite Hl in Hl'. apply app_eq_inv in Hl' as [([|z k] & Hk1 & Hk2)|([|z k] & Hk1 & Hk2)];
      rewrite ?app_nil_r in *; simpl in *; simplify_eq.
    + by eapply fp_same.
    + apply Forall_app in Hb' as [_ [? _]%Forall_cons_1]. lia.
    + by eapply fp_same.
    + apply Forall_app_mid in Hb as [? _].
      eapply (fp_span _ _ _ a z k x' b'); auto.
      rewrite He, length_app. done.
Qed.

Lemma merge_absorb_split a z m b E :
  Forall (λ t, rg_e t ≤ E) m → Forall (λ t, E < rg_s t) b →
  Forall (λ t, rg_s t ≤ rg_e t) b → rg_e z = E →
  let r := a ++ z :: m ++ b in
  merge_next (absorb (length r) r (length a)) (length a) = a ++ merged z b.
Proof.
  intros Hm Hb Hb' Hz r. unfold r. rewrite absorb_split.
  - apply merge_next_split.
  - rewrite length_app; simpl; rewrite length_app; lia.
  - by rewrite Hz.
  - destruct b; [done|]. apply Forall_cons_1 in Hb as [? _].
    apply Forall_cons_1 in Hb' as [? _]. lia.
Qed.

Lemma wf_from_Forall lo l : wf_from lo l → Forall (λ t, lo ≤ rg_s t ≤ rg_e t ∧ rg_e t ≤ ULONG_MAX) l.
Proof.
  revert lo. induction l as [|x l IH]; intros lo; simpl; [constructor|].
  intros (? & ? & ? & H). constructor; [lia|]. eapply Forall_impl; [apply (IH _ H)|].
  simpl. intros. lia.
Qed.

(** In a well-formed [m ++ y :: b], nothing before [y] ends above it. *)
Lemma wf_before lo m y b :
  wf_from lo (m ++ y :: b) → Forall (λ t, rg_e t ≤ rg_e y) (m ++ [y]).
Proof.
  rewrite wf_from_app. simpl. intros [Hm (Hy & ? & ? & _)].
  apply Forall_app. split; [|by repeat constructor].
  apply Forall_forall. intros t Ht.
  assert (in_set m (rg_e t)) as Hin.
  { apply Exists_exists. exists t. split; [done|]. pose proof (wf_from_Forall _ _ Hm) as Hf.
    rewrite Forall_forall in Hf. specialize (Hf t Ht). unfold in_range. lia. }
  pose proof (in_set_bounds _ _ _ Hm Hin). lia.
Qed.

(** Growing [z] to [sz..E] over the nodes [m] up to [y]. *)
Lemma span_spec a z m b sz E :
  rangeset_wf (a ++ z :: m ++ b) →
  next_lo 0 a ≤ sz → sz ≤ rg_s z → E ≤ ULONG_MAX →
  Forall (λ t, rg_e t ≤ E) (z :: m) → Forall (λ t, E < rg_s t) b →
  let r := a ++ mk_range sz E :: m ++ b in
  let l' := merge_next (absorb (length r) r (length a)) (length a) in
  rangeset_wf l' ∧ ∀ v, in_set l' v ↔ in_set a v ∨ sz ≤ v ≤ E ∨ in_set b v.
Proof.
  unfold rangeset_wf. rewrite wf_from_app. simpl. rewrite wf_from_app.
  intros [Ha (? & ? & ? & Hm & Hb)] Hsz ? ? [? Hm']%Forall_cons_1 Hb'.
  pose proof (next_lo_le _ _ Ha) as Hlo.
  pose proof (wf_from_Forall _ _ Hb) as Hb''.
  rewrite (merge_absorb_split a (mk_range sz E) m b E); try done.
  2: { eapply Forall_impl; [apply Hb''|]. simpl. intros. lia. }
  destruct (merged_spec (next_lo 0 a) (mk_range sz E) b) as [Hw Hin]; simpl; try lia.
  { by eapply wf_from_head. }
  rewrite wf_from_app. split; [tauto|]. intros v. autorewrite with rangeset.
  rewrite Hin. unfold in_range. simpl. tauto.
Qed.

(** Everything in [m ++ [y]] starts at or above [s] and ends at or below [E]. *)
Lemma in_set_between m s E v :
  Forall (λ z, s < rg_s z) m → Forall (λ t, rg_e t ≤ E) m →
  in_set m v → s ≤ v ≤ E.
Proof.
  intros H1 H2 (t & Ht & ? & ?)%Exists_exists.
  rewrite Forall_forall in H1, H2. specialize (H1 _ Ht). specialize (H2 _ Ht). simpl in *. lia.
Qed.

Lemma span_bound lo m y b e :
  wf_from lo (m ++ y :: b) → Forall (λ t, e < rg_s t) b → e ≤ ULONG_MAX →
  let E := Z.max (rg_e y) e in
  Forall (λ t, rg_e t ≤ E) (m ++ [y]) ∧ Forall (λ t, E < rg_s t) b ∧ E ≤ ULONG_MAX.
Proof.
  intros Hwf Hb He. pose proof (wf_before _ _ _ _ Hwf) as Hby.
  rewrite wf_from_app in Hwf. simpl in Hwf. destruct Hwf as [_ (? & ? & ? & Hwb)].
  split; [|split; [|lia]].
  - eapply Forall_impl; [apply Hby|]. simpl; intros; lia.
  - pose proof (wf_from_Forall _ _ Hwb) as Hb2. rewrite Forall_forall in Hb, Hb2 |- *.
    intros t Ht. specialize (Hb t Ht). specialize (Hb2 t Ht). simpl in *. lia.
Qed.

Lemma app_last_cons {A} (m : list A) y : ∃ z m', m ++ [y] = z :: m'.
Proof. destruct m; simpl; eauto. Qed.

Lemma write_split a z b n s e :
  n = length a →
  write_e (write_s (a ++ z :: b) n s) n e = a ++ mk_range s e :: b.
Proof. intros ->. by rewrite write_s_split, write_e_split. Qed.

Lemma max_if a b : (if a >? b then a else b) = Z.max a b.
Proof. case_Z; lia. Qed.

(** The state of the two lists around the first node of [m ++ [y]]. *)
Lemma span_first a m y b s e :
  rangeset_wf (a ++ m ++ y :: b) → next_lo 0 a ≤ s → 
  Forall (λ z, s < rg_s z) (m ++ [y]) → rg_s y ≤ e → Forall (λ t, e < rg_s t) b →
  s ≤ e → e ≤ ULONG_MAX →
  let E := Z.max (rg_e y) e in
  let r := write_e (write_s (a ++ m ++ y :: b) (length a) s) (length a) E in
  let l' := merge_next (absorb (length r) r (length a)) (length a) in
  rangeset_wf l' ∧ ∀ v, in_set l' v ↔ in_set (a ++ m ++ y :: b) v ∨ s ≤ v ≤ e.
Proof.
  intros Hwf Hlo Hm Hy Hb Hse He E r. unfold r. clear r.
  pose proof Hwf as Hwf'. unfold rangeset_wf in Hwf'. rewrite wf_from_app in Hwf'.
  destruct Hwf' as [Ha Hmb]. destruct (span_bound _ _ _ _ e Hmb Hb He) as (HmE & HbE & HE).
  fold E in HmE, HbE, HE.
  replace (m ++ y :: b) with ((m ++ [y]) ++ b) in * by by rewrite <- app_assoc.
  assert (Hcov : ∀ v, s ≤ v ≤ E → in_set (m ++ [y]) v ∨ s ≤ v ≤ e).
  { intros v ?. destruct (decide (v ≤ e)); [right; lia|left].
    apply in_set_app. right. apply Exists_cons_hd. unfold in_range. lia. }
  assert (Hin : ∀ v, in_set (m ++ [y]) v → s ≤ v ≤ E) by (intros; by eapply in_set_between).
  destruct (app_last_cons m y) as (z & m' & Hz). rewrite Hz in *. simpl app in *.
  rewrite write_split by done.
  destruct (span_spec a z m' b s E) as [Hw Hsem]; auto.
  { apply Forall_cons_1 in Hm as [? _]. lia. }
  split; [done|]. intros v. rewrite Hsem. rewrite in_set_app.
  change (z :: m' ++ b) with ((z :: m') ++ b). rewrite in_set_app.
  specialize (Hcov v). specialize (Hin v). destruct (decide (s ≤ v ≤ E)); [tauto|].
  split; [tauto|]. intros [[?|[?|?]]|?]; try tauto. lia.
Qed.

Lemma add_spanning_spec l s e :
  rangeset_wf l → 0 ≤ s ≤ e → e ≤ ULONG_MAX →
  find_range l s ≠ find_range l e →
  let l' := add_spanning l (find_range l s) (find_range l e) s e in
  rangeset_wf l' ∧ ∀ v, in_set l' v ↔ in_set l v ∨ s ≤ v ≤ e.
Proof.
  intros Hwf Hs He Hne.
  destruct (find_pair_spec l s e Hwf ltac:(lia))
    as [Hf1 Hf2 _|? ? ? _ Hf1 Hf2|m y b Hl Hf1 Hf2 Hm Hy Hb|a x m y b Hl Hf1 Hf2 Hx Hm Hy Hb];
    rewrite Hf1, Hf2 in *; try done; clear Hne Hf1 Hf2; subst l; unfold add_spanning.
  - rewrite node_split, max_if. apply (span_first [] m y b); try done; simpl; lia.
  - rewrite node_mid, node_split, max_if.
    pose proof Hwf as Hwf'. unfold rangeset_wf in Hwf'. rewrite wf_from_app in Hwf'.
    destruct Hwf' as [Ha Hmb]. pose proof Hmb as (? & ? & ? & _).
    pose proof (next_lo_le _ _ Ha). rewrite gap_guard by lia. case_bool_decide.
    + replace (a ++ x :: m ++ y :: b) with ((a ++ [x]) ++ m ++ y :: b) in *
        by by rewrite <- app_assoc.
      replace (S (length a)) with (length (a ++ [x])) by (rewrite length_app; simpl; lia).
      apply span_first; try done; try lia. by rewrite next_lo_app.
    + rewrite write_e_split.
      destruct (span_bound _ (x :: m) _ _ e Hmb Hb He) as (HmE & HbE & HE).
      set (E := Z.max (rg_e y) e) in *. simpl in HmE.
      replace (m ++ y :: b) with ((m ++ [y]) ++ b) in * by by rewrite <- app_assoc.
      destruct (span_spec a x (m ++ [y]) b (rg_s x) E) as [Hw Hsem]; auto; try lia.
      split; [done|]. intros v. rewrite Hsem, in_set_app, in_set_cons, in_set_app.
      apply Forall_cons_1 in HmE as [HxE HmE].
      pose proof (in_set_between _ s E v Hm HmE) as Hbetween.
      rewrite in_set_app, in_set_cons, in_set_nil in *. unfold in_range in *.
      destruct (decide (v ≤ e)), (decide (rg_s x ≤ v)); intuition lia.
Qed.

Lemma insert_range_split (a : list range) x b y :
  take (S (length a)) (a ++ x :: b) ++ y :: drop (S (length a)) (a ++ x :: b) =
  a ++ x :: y :: b.
Proof.
  replace (a ++ x :: b) with ((a ++ [x]) ++ b) by by rewrite <- app_assoc.
  rewrite take_app_length', drop_app_length' by (rewrite length_app; simpl; lia).
  by rewrite <- app_assoc.
Qed.

(** C29: adding a range to a well-formed set gives a well-formed set that holds
    exactly the old values and the new ones; the only failure is an allocation
    failure, which leaves the set as it was. *)
Theorem rangeset_add_range_correct alloc_ok l s e :
  rangeset_wf l → 0 ≤ s ≤ e → e ≤ ULONG_MAX →
  match rangeset_add_range alloc_ok l s e with
  | (rc, l') =>
      (rc = 0 ∧ rangeset_wf l' ∧ ∀ v, in_set l' v ↔ in_set l v ∨ s ≤ v ≤ e) ∨
      (rc = - ENOMEM ∧ alloc_ok = false ∧ l' = l)
  end.
Proof.
  intros Hwf Hs He. unfold rangeset_add_range.
  destruct (decide (find_range l s = find_range l e)) as [Heq|Hne].
  2: { rewrite bool_decide_eq_false_2 by done. left.
       destruct (add_spanning_spec l s e); auto. }
  rewrite bool_decide_eq_true_2 by done.
  destruct (find_pair_spec l s e Hwf ltac:(lia))
    as [Hf1 Hf2 Hall|a x b Hl Hf1 Hf2 Hx Hb|m y b Hl Hf1 Hf2|a x m y b Hl Hf1 Hf2];
    rewrite Hf1, Hf2 in *; [| | done | injection Heq; lia].
  - destruct alloc_ok; [left|by right]. simpl.
    pose proof (merge_next_split [] (mk_range s e) l) as Hm. simpl in Hm. rewrite Hm.
    destruct (merged_spec 0 (mk_range s e) l) as [Hw Hin]; simpl; try lia.
    { by eapply wf_from_head. }
    split; [done|]. split; [done|]. intros v. rewrite Hin. unfold in_range. simpl. tauto.
  - subst l. rewrite node_split.
    pose proof Hwf as Hwf'. unfold rangeset_wf in Hwf'. rewrite wf_from_app in Hwf'.
    destruct Hwf' as [Ha (? & ? & ? & _)]. pose proof (next_lo_le _ _ Ha).
    pose proof (add_range_same true a x b s e Hwf Hs He Hx Hb ltac:(done)) as Hsame.
    rewrite gap_guard by lia. case_bool_decide.
    + destruct alloc_ok; [left|by right]. rewrite insert_range_split.
      pose proof (merge_next_split (a ++ [x]) (mk_range s e) b) as Hm.
      rewrite length_app, <- !app_assoc in Hm. simpl in Hm. rewrite Nat.add_1_r in Hm. by rewrite Hm.
    + left. destruct (rg_e x <? e); rewrite ?write_e_split, merge_next_split; done.
Qed.

(** ** Removal *)

Definition trimmed (y : range) (e : Z) (b : list range) : list range :=
  if e + 1 >? rg_e y then b else set_s y (e + 1) :: b.

Lemma destroy_until_split a m b :
  destroy_until (a ++ m ++ b) (length a) (length m) = a ++ b.
Proof.
  induction m as [|x m IH]; simpl; [done|].
  unfold destroy_range. by rewrite delete_split_at.
Qed.

Lemma trimmed_spec lo y b e :
  wf_from lo (y :: b) → rg_s y ≤ e → Forall (λ t, e < rg_s t) b →
  wf_from (e + 1) (trimmed y e b) ∧
  ∀ v, in_set (trimmed y e b) v ↔ in_set (y :: b) v ∧ e < v.
Proof.
  intros (? & ? & ? & Hb) Hy Hbe. pose proof (wf_from_head _ _ _ Hb Hbe) as Hb'.
  assert (∀ v, in_set b v → e < v) by (intros v; by eapply Forall_gt_set).
  unfold trimmed. case_Z; simpl.
  - split; [done|]. intros v. rewrite in_set_cons. unfold in_range. specialize (H2 v). intuition lia.
  - split; [repeat split; auto; lia|].
    intros v. rewrite !in_set_cons. unfold in_range; simpl. specialize (H2 v). intuition lia.
Qed.

(** The part of the [else] branch after the first node has been dealt with. *)
Lemma remove_tail a m y b e :
  e < ULONG_MAX → 0 ≤ e →
  let r2 := destroy_until (a ++ m ++ y :: b) (length a) (length m) in
  let r3 := write_s r2 (length a) (u64 (e + 1)) in
  (if rg_s (node r3 (length a)) >? rg_e (node r3 (length a))
   then destroy_range r3 (length a) else r3) = a ++ trimmed y e b.
Proof.
  intros He ? r2 r3. unfold r3, r2. rewrite ULONG_MAX_eq in He.
  rewrite destroy_until_split, write_s_split, node_split, u64_small by lia. simpl.
  unfold trimmed. case_match; [|done]. unfold destroy_range. by rewrite delete_split_at.
Qed.

Lemma above_set lo y b : wf_from lo (y :: b) → ∀ v, in_set (y :: b) v → rg_s y ≤ v.
Proof.
  intros (? & ? & ? & Hb) v [[? ?]|Hv]%in_set_cons; [lia|].
  pose proof (in_set_bounds _ _ _ Hb Hv). lia.
Qed.

Lemma below_set lo m s k :
  wf_from lo m → Forall (λ z, s < rg_s z) m → next_lo lo m ≤ k →
  ∀ v, in_set m v → s < v < k.
Proof.
  intros Hm Hf Hk v Hv. pose proof (in_set_bounds _ _ _ Hm Hv).
  pose proof (Forall_gt_set _ _ _ _ Hm Hf Hv). lia.
Qed.

Lemma remove_below_spec alloc_ok m y b s e :
  let l := m ++ y :: b in
  rangeset_wf l → 0 ≤ s ≤ e → e < ULONG_MAX →
  find_range l s = None → find_range l e = Some (length m) →
  Forall (λ z, s < rg_s z) (m ++ [y]) → rg_s y ≤ e → Forall (λ y, e < rg_s y) b →
  ∃ l', rangeset_remove_range alloc_ok l s e = (0, l') ∧ rangeset_wf l' ∧
        ∀ v, in_set l' v ↔ in_set l v ∧ ¬ s ≤ v ≤ e.
Proof.
  intros l Hwf Hs He Hf1 Hf2 Hm Hy Hb. unfold rangeset_remove_range.
  rewrite Hf1, Hf2, bool_decide_eq_false_2 by done.
  destruct (app_last_cons m y) as (z & m' & Hz).
  assert (Hzs : s < rg_s z) by (rewrite Hz in Hm; by apply Forall_cons_1 in Hm as [? _]).
  assert (Hl : l = z :: m' ++ b).
  { unfold l. replace (m ++ y :: b) with ((m ++ [y]) ++ b) by by rewrite <- app_assoc.
    by rewrite Hz. }
  replace (first_range l) with (Some 0%nat) by (by rewrite Hl).
  replace (node l 0) with z by (by rewrite Hl).
  destruct (Z.ltb_spec (rg_s z) s); [lia|]. rewrite Nat.sub_0_r.
  pose proof (remove_tail [] m y b e He ltac:(lia)) as Ht. simpl in Ht. fold l in Ht. rewrite Ht.
  unfold rangeset_wf, l in Hwf. rewrite wf_from_app in Hwf. destruct Hwf as [Hwm Hwy].
  destruct (trimmed_spec _ _ _ _ Hwy Hy Hb) as [Hw Hin].
  eexists. split; [done|]. split; [eapply wf_from_weaken, Hw; lia|].
  assert (Hys : s < rg_s y) by (by apply Forall_app in Hm as [_ [? _]%Forall_cons_1]).
  apply Forall_app in Hm as [Hm _]. intros v. rewrite Hin. unfold l. rewrite in_set_app.
  pose proof (below_set 0 m s (rg_s y) Hwm Hm ltac:(destruct Hwy; lia) v) as HmE.
  pose proof (above_set _ _ _ Hwy v) as HyE. split.
  - intros [? ?]. split; [tauto|lia].
  - intros [[Hv|Hv] ?]; [specialize (HmE Hv); lia|]. specialize (HyE Hv). split; [done|lia].
Qed.

(** The list left by the [else] branch when [x] is not [NULL]. *)
Lemma remove_span_eq alloc_ok a x m y b s e :
  let l := a ++ x :: m ++ y :: b in
  0 ≤ s ≤ e → e < ULONG_MAX → rg_s x ≤ s → 0 ≤ rg_s x →
  find_range l s = Some (length a) →
  find_range l e = Some (length a + S (length m))%nat →
  rangeset_remove_range alloc_ok l s e =
  (0, a ++ (if rg_s x <? s then [set_e x (s - 1)] else []) ++ trimmed y e b).
Proof.
  intros l Hs He Hx Hx0 Hf1 Hf2. unfold rangeset_remove_range.
  rewrite Hf1, Hf2, bool_decide_eq_false_2 by (intros [=]; lia).
  unfold l. rewrite node_split. destruct (Z.ltb_spec (rg_s x) s).
  - rewrite write_e_split, u64_small by (rewrite ULONG_MAX_eq in *; lia).
    pose proof (remove_tail (a ++ [set_e x (s - 1)]) m y b e He ltac:(lia)) as Ht.
    rewrite length_app, <- !app_assoc in Ht. simpl in Ht. rewrite Nat.add_1_r in Ht.
    replace (length a + S (length m) - S (length a))%nat with (length m) by lia. by rewrite Ht.
  - pose proof (remove_tail a (x :: m) y b e He ltac:(lia)) as Ht. simpl length in Ht.
    replace (length a + S (length m) - length a)%nat with (S (length m)) by lia.
    change ((x :: m) ++ y :: b) with (x :: m ++ y :: b) in Ht. by rewrite Ht.
Qed.

Lemma remove_span_spec alloc_ok a x m y b s e :
  let l := a ++ x :: m ++ y :: b in
  rangeset_wf l → 0 ≤ s ≤ e → e < ULONG_MAX → rg_s x ≤ s →
  find_range l s = Some (length a) →
  find_range l e = Some (length a + S (length m))%nat →
  Forall (λ z, s < rg_s z) (m ++ [y]) → rg_s y ≤ e → Forall (λ y, e < rg_s y) b →
  ∃ l', rangeset_remove_range alloc_ok l s e = (0, l') ∧ rangeset_wf l' ∧
        ∀ v, in_set l' v ↔ (in_set l v ∧ ¬ s ≤ v ≤ e) ∨ rg_e x < v < s.
Proof.
  intros l Hwf Hs He Hx Hf1 Hf2 Hm Hy Hb.
  unfold rangeset_wf, l in Hwf. rewrite wf_from_app in Hwf. destruct Hwf as [Hwa Hwx].
  pose proof Hwx as (? & ? & ? & Hwm). rewrite wf_from_app in Hwm. destruct Hwm as [Hwm Hwy].
  pose proof (next_lo_le _ _ Hwa) as Hna. pose proof (next_lo_le _ _ Hwm) as Hnm.
  unfold l in *. rewrite remove_span_eq by (done || lia).
  destruct (trimmed_spec _ _ _ _ Hwy Hy Hb) as [Hw Hin].
  assert (Hys : s < rg_s y) by (by apply Forall_app in Hm as [_ [? _]%Forall_cons_1]).
  apply Forall_app in Hm as [Hm _].
  eexists. split; [done|]. split.
  { unfold rangeset_wf. rewrite wf_from_app. split; [done|].
    case_Z; simpl; [|eapply wf_from_weaken, Hw; lia].
    repeat split; auto; try lia. eapply wf_from_weaken, Hw. lia. }
  intros v. rewrite !in_set_app, in_set_cons, in_set_app, Hin.
  pose proof (below_set _ m s (rg_s y) Hwm Hm ltac:(destruct Hwy; lia) v) as HmE.
  pose proof (above_set _ _ _ Hwy v) as HyE. pose proof (in_set_bounds _ a v Hwa) as HaE.
  assert (Hhead : in_set (if rg_s x <? s then [set_e x (s - 1)] else []) v ↔ rg_s x ≤ v < s).
  { case_Z; rewrite ?in_set_cons, ?in_set_nil; unfold in_range; simpl; intuition lia. }
  rewrite Hhead. unfold in_range. destruct Hwy as (? & _). split.
  - intros [Hv|[?|[? ?]]]; [specialize (HaE Hv); left; split; [tauto|lia]| |left; split; [tauto|lia]].
    destruct (decide (v ≤ rg_e x)); [left; split; [right; left|]; lia|lia].
  - intros [[[?|[?|[Hv|Hv]]] ?]|?]; [tauto|lia| | |lia].
    + specialize (HmE Hv). lia.
    + specialize (HyE Hv). right; right. split; [done|lia].
Qed.

Lemma remove_same_spec alloc_ok a x b s e :
  let l := a ++ x :: b in
  rangeset_wf l → 0 ≤ s ≤ e → e ≤ ULONG_MAX → rg_s x ≤ s →
  find_range l s = Some (length a) → find_range l e = Some (length a) →
  Forall (λ y, e < rg_s y) b →
  match rangeset_remove_range alloc_ok l s e with
  | (rc, l') =>
      (rc = 0 ∧ rangeset_wf l' ∧ ∀ v, in_set l' v ↔ in_set l v ∧ ¬ s ≤ v ≤ e) ∨
      (rc = - ENOMEM ∧ alloc_ok = false ∧ l' = l)
  end.
Proof.
  intros l Hwf Hs He Hx Hf1 Hf2 Hb. unfold rangeset_remove_range.
  rewrite Hf1, Hf2, bool_decide_eq_true_2 by done. unfold l.
  rewrite node_split. pose proof Hwf as Hwf'.
  unfold rangeset_wf, l in Hwf. rewrite wf_from_app in Hwf. destruct Hwf as [Hwa Hwx].
  pose proof Hwx as (? & ? & ? & Hwb). pose proof (next_lo_le _ _ Hwa) as Hna.
  pose proof (wf_from_head _ _ _ Hwb Hb) as Hwb'. rewrite ULONG_MAX_eq in *.
  assert (HaE : ∀ v, in_set a v → v < rg_s x).
  { intros v Hv. pose proof (in_set_bounds _ a v Hwa Hv). lia. }
  assert (HbE : ∀ v, in_set b v → e < v).
  { intros v Hv. pose proof (in_set_bounds _ b v Hwb' Hv). lia. }
  assert (Hgoal : ∀ mid,
    wf_from (next_lo 0 a) (mid ++ b) →
    (∀ v, in_set mid v ↔ in_range x v ∧ ¬ s ≤ v ≤ e) →
    (0 = 0 ∧ rangeset_wf (a ++ mid ++ b) ∧
      ∀ v, in_set (a ++ mid ++ b) v ↔ in_set (a ++ x :: b) v ∧ ¬ s ≤ v ≤ e)).
  { intros mid Hmid Hv. split; [done|]. split; [unfold rangeset_wf; by rewrite wf_from_app|].
    intros v. specialize (HaE v). specialize (HbE v).
    rewrite !in_set_app, in_set_cons, Hv. unfold in_range.
    split; [intros [Hi|[?|Hi]]|].
    - specialize (HaE Hi). split; [tauto|lia].
    - tauto.
    - specialize (HbE Hi). split; [tauto|lia].
    - intros [[Hi|[?|Hi]] ?]; tauto. }
  destruct (Z.ltb_spec (rg_e x) s).
  { left. apply (Hgoal [x]); [done|]. intros v. rewrite in_set_cons, in_set_nil.
    unfold in_range. intuition lia. }
  destruct (Z.ltb_spec (rg_s x) s), (Z.gtb_spec (rg_e x) e); simpl.
  - destruct alloc_ok; [left|by right].
    rewrite write_e_split, insert_range_split, !u64_small by lia.
    apply (Hgoal [set_e x (s - 1); mk_range (e + 1) (rg_e x)]); simpl; unfold ULONG_MAX.
    + repeat split; auto; lia.
    + intros v. rewrite !in_set_cons, in_set_nil. unfold in_range; simpl. intuition lia.
  - destruct (Z.eqb_spec (rg_s x) s); [lia|]. simpl. destruct (Z.leb_spec (rg_e x) e); [|lia].
    rewrite write_e_split, u64_small by lia. left.
    apply (Hgoal [set_e x (s - 1)]); simpl; unfold ULONG_MAX.
    + repeat split; auto; try lia. eapply wf_from_weaken, Hwb'; lia.
    + intros v. rewrite !in_set_cons, in_set_nil. unfold in_range; simpl. intuition lia.
  - destruct (Z.eqb_spec (rg_s x) s); [|lia]. simpl. destruct (Z.leb_spec (rg_e x) e); [lia|].
    rewrite write_s_split, u64_small by lia. left.
    apply (Hgoal [set_s x (e + 1)]); simpl; unfold ULONG_MAX.
    + repeat split; auto; lia.
    + intros v. rewrite !in_set_cons, in_set_nil. unfold in_range; simpl. intuition lia.
  - destruct (Z.eqb_spec (rg_s x) s); [|lia]. simpl. destruct (Z.leb_spec (rg_e x) e); [|lia].
    left. unfold destroy_range. rewrite delete_split_at.
    apply (Hgoal []); [eapply wf_from_weaken, Hwb; lia|].
    intros v. rewrite in_set_nil. unfold in_range; simpl. intuition lia.
Qed.

(** The condition under which [rangeset_remove_range] removes exactly [s..e]:
    one range (or none) is found for both ends, or [s] touches the range found
    for it and [e + 1] does not overflow. *)
Definition remove_precise (l : list range) (s e : Z) : Prop :=
  find_range l s = find_range l e ∨
  (e < ULONG_MAX ∧
   match find_range l s with
   | None => True
   | Some i => s ≤ rg_e (node l i) + 1
   end).

#[export] Instance remove_precise_dec l s e : Decision (remove_precise l s e).
Proof. unfold remove_precise. destruct (find_range l s); apply _. Defined.

(** C37: when the range is [remove_precise], removal leaves a well-formed set of
    exactly the values outside [s..e]; the only failure is an allocation
    failure (a range had to be split), which leaves the set as it was. *)
Theorem rangeset_remove_range_correct alloc_ok l s e :
  rangeset_wf l → 0 ≤ s ≤ e → e ≤ ULONG_MAX → remove_precise l s e →
  match rangeset_remove_range alloc_ok l s e with
  | (rc, l') =>
      (rc = 0 ∧ rangeset_wf l' ∧ ∀ v, in_set l' v ↔ in_set l v ∧ ¬ s ≤ v ≤ e) ∨
      (rc = - ENOMEM ∧ alloc_ok = false ∧ l' = l)
  end.
Proof.
  intros Hwf Hs He Hp. unfold remove_precise in Hp.
  destruct (find_pair_spec l s e Hwf ltac:(lia))
    as [Hf1 Hf2 Hall|a x b -> Hf1 Hf2 Hx Hb|m y b -> Hf1 Hf2 Hm Hy Hb
       |a x m y b -> Hf1 Hf2 Hx Hm Hy Hb].
  - unfold rangeset_remove_range. rewrite Hf1, Hf2, bool_decide_eq_true_2 by done. left.
    split; [done|]. split; [done|]. intros v.
    pose proof (Forall_gt_set _ _ _ v Hwf Hall). split; [|tauto].
    intros Hv. split; [done|]. specialize (H Hv). lia.
  - by apply remove_same_spec.
  - rewrite Hf1, Hf2 in Hp. destruct Hp as [[=]|[? _]].
    destruct (remove_below_spec alloc_ok m y b s e) as (l' & -> & ?); auto.
  - rewrite Hf1, Hf2, node_split in Hp. destruct Hp as [[=]|[? ?]]; [lia|].
    destruct (remove_span_spec alloc_ok a x m y b s e) as (l' & -> & ? & Hin); auto.
    left. split; [done|]. split; [done|]. intros v. rewrite Hin. intuition lia.
Qed.

Lemma rangeset_remove_range_correct_witness :
  rangeset_wf [mk_range 1 4; mk_range 10 20; mk_range 30 40] ∧
  match rangeset_remove_range true [mk_range 1 4; mk_range 10 20; mk_range 30 40] 3 35 with
  | (rc, l') =>
      (rc = 0 ∧ rangeset_wf l' ∧
       ∀ v, in_set l' v ↔ in_set [mk_range 1 4; mk_range 10 20; mk_range 30 40] v ∧ ¬ 3 ≤ v ≤ 35) ∨
      (rc = - ENOMEM ∧ true = false ∧ l' = [mk_range 1 4; mk_range 10 20; mk_range 30 40])
  end.
Proof.
  split; [vm_compute; intuition discriminate|].
  apply rangeset_remove_range_correct; vm_compute; intuition discriminate.
Defined.

Lemma rangeset_add_range_correct_witness :
  rangeset_wf [mk_range 1 4; mk_range 10 20] ∧
  match rangeset_add_range true [mk_range 1 4; mk_range 10 20] 5 9 with
  | (rc, l') =>
      (rc = 0 ∧ rangeset_wf l' ∧
       ∀ v, in_set l' v ↔ in_set [mk_range 1 4; mk_range 10 20] v ∨ 5 ≤ v ≤ 9) ∨
      (rc = - ENOMEM ∧ true = false ∧ l' = [mk_range 1 4; mk_range 10 20])
  end.
Proof.
  split; [vm_compute; intuition discriminate|].
  apply rangeset_add_range_correct; vm_compute; intuition discriminate.
Defined.

(** What removal does outside [remove_precise]. When [s] lies in the gap
    after the range found for it and another range is found for [e], the
    assignment [x->e = s - 1] extends that range: every value between its old
    end and [s], none of which was in the set, is in the set afterwards. *)
Theorem rangeset_remove_range_gap alloc_ok l s e i :
  rangeset_wf l → 0 ≤ s ≤ e → e < ULONG_MAX →
  find_range l s = Some i → find_range l e ≠ Some i →
  match rangeset_remove_range alloc_ok l s e with
  | (rc, l') => rc = 0 ∧
      ∀ v, rg_e (node l i) < v < s → ¬ in_set l v ∧ in_set l' v
  end.
Proof.
  intros Hwf Hs He Hfi Hne.
  destruct (find_pair_spec l s e Hwf ltac:(lia))
    as [Hf1 Hf2 Hall|a x b Hl Hf1 Hf2 Hx Hb|m y b Hl Hf1 Hf2 Hm Hy Hb
       |a x m y b Hl Hf1 Hf2 Hx Hm Hy Hb]; rewrite Hf1 in Hfi; try congruence.
  injection Hfi as <-. subst l.
  destruct (remove_span_spec alloc_ok a x m y b s e) as (l' & -> & ? & Hin); auto.
  split; [done|]. rewrite node_split. intros v Hv. split; [|apply Hin; by right].
  unfold rangeset_wf in Hwf. rewrite wf_from_app in Hwf. destruct Hwf as [Hwa Hwx].
  replace (m ++ y :: b) with ((m ++ [y]) ++ b) in * by by rewrite <- app_assoc.
  rewrite !in_set_app, in_set_cons, in_set_app. unfold in_range.
  destruct Hwx as (? & ? & ? & Hwm). rewrite wf_from_app in Hwm. destruct Hwm as [Hwm Hwb].
  intros [Hi|[?|[Hi|Hi]]].
  - apply (in_set_bounds _ _ _ Hwa) in Hi. lia.
  - lia.
  - pose proof (Forall_gt_set _ _ _ _ Hwm Hm Hi). lia.
  - pose proof (Forall_gt_set _ _ _ _ Hwb Hb Hi). lia.
Qed.

Lemma rangeset_remove_range_gap_witness :
  let l := [mk_range 1 2; mk_range 10 20] in
  match rangeset_remove_range true l 5 12 with
  | (rc, l') => rc = 0 ∧ ∀ v, 2 < v < 5 → ¬ in_set l v ∧ in_set l' v
  end.
Proof.
  apply (rangeset_remove_range_gap true [mk_range 1 2; mk_range 10 20] 5 12 0); vm_compute; intuition discriminate.
Defined.

(** ** Queries *)

(** On a well-formed set, [rangeset_contains_range] decides that every
    value of [s..e] is in the set, and [rangeset_overlaps_range] that some
    value is; the first relies on ranges never being adjacent. *)
Theorem rangeset_queries_correct l s e :
  rangeset_wf l → 0 ≤ s ≤ e →
  (rangeset_contains_range l s e = true ↔ ∀ v, s ≤ v ≤ e → in_set l v) ∧
  (rangeset_overlaps_range l s e = true ↔ ∃ v, s ≤ v ≤ e ∧ in_set l v).
Proof.
  intros Hwf Hs. unfold rangeset_contains_range, rangeset_overlaps_range. split.
  - destruct (find_range_spec _ s Hwf) as [[-> Hall]|(a & x & b & -> & -> & Hx & Hb)].
    + split; [done|]. intros Hv. specialize (Hv s ltac:(lia)).
      apply (Forall_gt_set _ _ _ _ Hwf Hall) in Hv. lia.
    + rewrite node_split, Z.geb_leb, Z.leb_le. split.
      * intros ? v ?. rewrite in_set_app, in_set_cons. unfold in_range. lia.
      * intros Hv. unfold rangeset_wf in Hwf. rewrite wf_from_app in Hwf.
        destruct Hwf as [Hwa Hwx]. pose proof Hwx as (? & ? & ? & Hwb).
        destruct (decide (e ≤ rg_e x)); [done|].
        specialize (Hv (Z.max s (rg_e x + 1)) ltac:(lia)).
        rewrite in_set_app, in_set_cons in Hv. unfold in_range in Hv. destruct Hv as [Hv|[Hv|Hv]].
        -- apply (in_set_bounds _ _ _ Hwa) in Hv. lia.
        -- lia.
        -- pose proof (Forall_gt_set _ _ _ _ Hwb Hb Hv). apply (in_set_bounds _ _ _ Hwb) in Hv. lia.
  - destruct (find_range_spec _ e Hwf) as [[-> Hall]|(a & x & b & -> & -> & Hx & Hb)].
    + split; [done|]. intros (v & ? & Hv). apply (Forall_gt_set _ _ _ _ Hwf Hall) in Hv. lia.
    + rewrite node_split, Z.leb_le. unfold rangeset_wf in Hwf. rewrite wf_from_app in Hwf.
      destruct Hwf as [Hwa Hwx]. pose proof Hwx as (? & ? & ? & Hwb). split.
      * intros ?. exists (Z.max s (rg_s x)). rewrite in_set_app, in_set_cons. unfold in_range. lia.
      * intros (v & ? & Hv). rewrite in_set_app, in_set_cons in Hv. unfold in_range in Hv.
        destruct Hv as [Hv|[Hv|Hv]].
        -- apply (in_set_bounds _ _ _ Hwa) in Hv. lia.
        -- lia.
        -- pose proof (Forall_gt_set _ _ _ _ Hwb Hb Hv). lia.
Qed.

Lemma rangeset_queries_correct_witness :
  let l := [mk_range 1 4; mk_range 10 20] in
  (rangeset_contains_range l 11 15 = true ↔ ∀ v, 11 ≤ v ≤ 15 → in_set l v) ∧
  (rangeset_overlaps_range l 11 15 = true ↔ ∃ v, 11 ≤ v ≤ 15 ∧ in_set l v).
Proof. apply rangeset_queries_correct; vm_compute; intuition discriminate. Defined.

(** The parts of the set inside [s..e], in ascending order. *)
Definition clip (s e : Z) (l : list range) : list (Z * Z) :=
  (λ x, (Z.max (rg_s x) s, Z.min (rg_e x) e)) <$>
    filter (λ x, s ≤ rg_e x ∧ rg_s x ≤ e) l.

(** Call the callback on each piece until it returns non-zero. *)
Fixpoint run_callback {C} (cb : Z → Z → C → Z * C) (ps : list (Z * Z)) (ctxt : C)
    : Z * C :=
  match ps with
  | [] => (0, ctxt)
  | (s, e) :: ps' =>
      let '(rc, ctxt') := cb s e ctxt in
      if rc =? 0 then run_callback cb ps' ctxt' else (rc, ctxt')
  end.

Lemma report_loop_tail {C} (cb : Z → Z → C → Z * C) fuel a b s e ctxt :
  wf_from (next_lo 0 a) b → (length b < fuel)%nat →
  report_loop cb fuel (a ++ b)
    (match b with [] => None | _ => Some (length a) end) s e 0 ctxt =
  run_callback cb (clip s e b) ctxt.
Proof.
  revert a b ctxt. induction fuel as [|fuel IH]; intros a b ctxt Hwf Hf; [lia|].
  destruct b as [|x b]; [done|]. cbn [report_loop]. rewrite node_split.
  unfold clip. rewrite filter_cons. destruct Hwf as (? & ? & ? & Hwf).
  assert (Hnext : ∀ ctxt',
    report_loop cb fuel (a ++ x :: b) (next_range (a ++ x :: b) (length a)) s e 0 ctxt' =
    run_callback cb (clip s e b) ctxt').
  { intros ctxt'. rewrite next_range_split. specialize (IH (a ++ [x]) b ctxt').
    rewrite next_lo_app, length_app, <- app_assoc in IH. simpl in IH.
    rewrite Nat.add_1_r in IH. rewrite <- IH; [by destruct b|done|simpl in Hf; lia]. }
  destruct (Z.leb_spec (rg_s x) e); simpl.
  - destruct (Z.geb_spec (rg_e x) s); simpl.
    + rewrite decide_True by lia. simpl.
      destruct (cb _ _ ctxt) as [rc ctxt']. case_Z; [subst rc; apply Hnext|].
      destruct fuel; simpl; [done|]. destruct (next_range _ _); [|done].
      by rewrite (proj2 (Z.eqb_neq rc 0)), andb_false_r.
    + rewrite decide_False by lia. apply Hnext.
  - rewrite decide_False by lia.
    assert (filter (λ x, s ≤ rg_e x ∧ rg_s x ≤ e) b = []) as ->; [|done].
    pose proof (wf_from_Forall _ _ Hwf) as HF. clear -H2 H0 HF. induction b as [|z b IH]; [done|].
    apply Forall_cons_1 in HF as [? HF]. rewrite filter_cons_False by lia. auto.
Qed.

(** [rangeset_report_ranges] calls the callback, in ascending order and
    until it returns non-zero, on exactly the parts of the set inside [s..e],
    provided some range starts at or below [s]. *)
Theorem rangeset_report_ranges_correct {C} (cb : Z → Z → C → Z * C) l s e ctxt :
  rangeset_wf l → s ≤ e → find_range l s ≠ None →
  rangeset_report_ranges cb l s e ctxt = run_callback cb (clip s e l) ctxt.
Proof.
  intros Hwf Hs Hne. unfold rangeset_report_ranges.
  destruct (find_range_spec _ s Hwf) as [[? Hall]|(a & x & b & -> & -> & Hx & Hb)]; [done|].
  unfold rangeset_wf in Hwf. rewrite wf_from_app in Hwf. destruct Hwf as [Hwa Hwx].
  rewrite (report_loop_tail cb _ a (x :: b)); [|done|rewrite length_app; lia].
  f_equal. unfold clip. rewrite filter_app, fmap_app.
  assert (filter (λ x, s ≤ rg_e x ∧ rg_s x ≤ e) a = []) as ->; [|done].
  destruct Hwx as [Hlo _]. assert (next_lo 0 a ≤ s) as Hns by lia. clear -Hwa Hns.
  revert Hwa Hns. generalize 0 as lo. induction a as [|z a IH]; intros lo; [done|].
  simpl. intros (? & ? & ? & Hwa) Hns. pose proof (next_lo_le _ _ Hwa).
  rewrite filter_cons_False by lia. eauto.
Qed.

Lemma rangeset_report_ranges_correct_witness :
  rangeset_report_ranges (λ s e (c : list (Z * Z)), (0, (s, e) :: c))
    [mk_range 1 4; mk_range 10 20; mk_range 30 40] 2 33 [] =
  run_callback (λ s e (c : list (Z * Z)), (0, (s, e) :: c))
    (clip 2 33 [mk_range 1 4; mk_range 10 20; mk_range 30 40]) [].
Proof. apply rangeset_report_ranges_correct; vm_compute; intuition discriminate. Defined.

(** When every range starts above [s], [rangeset_report_ranges] reports
    nothing, whatever lies inside [s..e]: the loop starts at the range found
    for [s], and there is none. *)
Theorem rangeset_report_ranges_below {C} (cb : Z → Z → C → Z * C) x l s e ctxt :
  rangeset_wf (x :: l) → s < rg_s x → rg_s x ≤ e →
  rangeset_report_ranges cb (x :: l) s e ctxt = (0, ctxt) ∧ clip s e (x :: l) ≠ [].
Proof.
  intros (? & ? & ? & _) Hs He. split.
  - unfold rangeset_report_ranges, find_range. simpl. by destruct (Z.gtb_spec (rg_s x) s); [|lia].
  - unfold clip. rewrite filter_cons_True by lia. done.
Qed.

Lemma rangeset_report_ranges_below_witness :
  rangeset_report_ranges (λ s e (c : list (Z * Z)), (0, (s, e) :: c))
    [mk_range 5 9; mk_range 20 30] 0 65536 [] = (0, []) ∧
  clip 0 65536 [mk_range 5 9; mk_range 20 30] ≠ [].
Proof.
  apply (rangeset_report_ranges_below _ (mk_range 5 9) [mk_range 20 30]);
    vm_compute; intuition discriminate.
Defined.

(** ** Range sets of a domain *)

(** A range set object. Its address (a [positive]) stands for the pointer to
    it; [rs_domain] is the owning domain, [rs_name] the printing name. *)
Record rangeset := mk_rangeset {
  rs_domain : option Z;
  rs_ranges : list range;
  rs_name : list Z;
  rs_flags : Z;
}.

(** [rst_sets]: the live range sets by address; [rst_domains]: the
    [d->rangesets] list of each domain. *)
Record rs_state := mk_rs_state {
  rst_sets : gmap positive rangeset;
  rst_domains : gmap Z (list positive);
}.

Definition RANGESETF_prettyprint_hex : Z := 1.

(** The bytes of "(no name)". *)
Definition no_name : list Z := [40; 110; 111; 32; 110; 97; 109; 101; 41].

(** [addr] is the address [xmalloc] returns, [None] when it fails. A name of 32
    or more bytes is cut to 31 by [safe_strcpy]. *)
Definition rangeset_new (addr : option positive) (d : option Z)
    (name : option (list Z)) (flags : Z) (st : rs_state)
    : outcome (option positive * rs_state) :=
  match addr with
  | None => Ok (None, st)
  | Some p =>
      BUG_ON (negb (Z.land flags (Z.lnot RANGESETF_prettyprint_hex) =? 0))
        (let r := mk_rangeset d [] (match name with
                                    | Some n => take 31 n
                                    | None => no_name
                                    end) flags in
         let sets := <[p := r]> (rst_sets st) in
         match d with
         | Some d => Ok (Some p, mk_rs_state sets (alter (cons p) d (rst_domains st)))
         | None => Ok (Some p, mk_rs_state sets (rst_domains st))
         end)
  end.

(** Unlink a node from a list it is on. *)
Definition list_del (p : positive) (l : list positive) : list positive :=
  filter (λ q, q ≠ p) l.

(** The range nodes belong to the object's list and go with it. *)
Definition rangeset_destroy (r : option positive) (st : rs_state) : rs_state :=
  match r with
  | None => st
  | Some p =>
      match rst_sets st !! p with
      | None => st
      | Some rs =>
          let doms := match rs_domain rs with
                      | Some d => alter (list_del p) d (rst_domains st)
                      | None => rst_domains st
                      end in
          mk_rs_state (delete p (rst_sets st)) doms
      end
  end.

Definition rangeset_domain_initialise (d : Z) (st : rs_state) : rs_state :=
  mk_rs_state (rst_sets st) (<[d := []]> (rst_domains st)).

Fixpoint rangeset_domain_destroy_loop (fuel : nat) (d : Z) (st : rs_state)
    : outcome rs_state :=
  match fuel, default [] (rst_domains st !! d) with
  | _, [] => Ok st
  | O, _ => Ok st
  | S fuel', p :: _ =>
      match rst_sets st !! p with
      | None => Bug
      | Some r =>
          BUG_ON (negb (bool_decide (rs_domain r = Some d)))
            (let r' := mk_rangeset None (rs_ranges r) (rs_name r) (rs_flags r) in
             let st1 := mk_rs_state (<[p := r']> (rst_sets st))
                          (alter (list_del p) d (rst_domains st)) in
             rangeset_domain_destroy_loop fuel' d (rangeset_destroy (Some p) st1))
      end
  end.

Definition rangeset_domain_destroy (d : Z) (st : rs_state) : outcome rs_state :=
  rangeset_domain_destroy_loop
    (length (default [] (rst_domains st !! d))) d st.

(** Each domain's list holds exactly the live range sets it owns, once each. *)
Record rs_inv (st : rs_state) : Prop := {
  rsi_owned d ids : rst_domains st !! d = Some ids →
    NoDup ids ∧ ∀ p, p ∈ ids ↔ ∃ r, rst_sets st !! p = Some r ∧ rs_domain r = Some d;
  rsi_known p r d : rst_sets st !! p = Some r → rs_domain r = Some d →
    is_Some (rst_domains st !! d);
}.

Lemma elem_of_list_del p q l : q ∈ list_del p l ↔ q ≠ p ∧ q ∈ l.
Proof. unfold list_del. by rewrite list_elem_of_filter. Qed.

Lemma NoDup_list_del p l : NoDup l → NoDup (list_del p l).
Proof. apply NoDup_filter. Qed.

Lemma list_del_notin p l : p ∉ l → list_del p l = l.
Proof.
  unfold list_del. induction l as [|q l IH]; [done|]. rewrite not_elem_of_cons. intros [? ?].
  rewrite filter_cons_True by naive_solver. f_equal. auto.
Qed.

Lemma rangeset_destroy_inv p st : rs_inv st → rs_inv (rangeset_destroy p st).
Proof.
  intros [Ho Hk]. unfold rangeset_destroy. destruct p as [p|]; [|done].
  destruct (rst_sets st !! p) as [rs|] eqn:Hp; [|done]. split; simpl.
  - intros d ids Hd.
    assert (∃ ids0, rst_domains st !! d = Some ids0 ∧
      ids = if decide (rs_domain rs = Some d) then list_del p ids0 else ids0) as (ids0 & Hd0 & ->).
    { destruct (decide (rs_domain rs = Some d)) as [E|E].
      - rewrite E, lookup_alter_eq in Hd. apply fmap_Some in Hd. naive_solver.
      - exists ids. split; [|done].
        destruct (rs_domain rs); [rewrite lookup_alter_ne in Hd by congruence|]; done. }
    destruct (Ho _ _ Hd0) as [Hnd Hin]. case_decide; (split; [by try apply NoDup_list_del|]).
    + intros q. rewrite elem_of_list_del, Hin. split.
      * intros [? (r & ? & ?)]. exists r. by rewrite lookup_delete_ne.
      * intros (r & [? ?]%lookup_delete_Some & ?). split; [done|eauto].
    + intros q. rewrite Hin. split.
      * intros (r & ? & ?). exists r. rewrite lookup_delete_ne by congruence. done.
      * intros (r & [? ?]%lookup_delete_Some & ?). eauto.
  - intros q r d [? Hq]%lookup_delete_Some Hd. specialize (Hk _ _ _ Hq Hd).
    destruct (rs_domain rs); [|done]. rewrite lookup_alter.
    case_decide; [subst; by apply fmap_is_Some|done].
Qed.

Lemma rangeset_new_inv p d name flags st r' st' :
  rs_inv st → rst_sets st !! p = None →
  match d with Some d => is_Some (rst_domains st !! d) | None => True end →
  rangeset_new (Some p) d name flags st = Ok (r', st') → rs_inv st'.
Proof.
  intros [Ho Hk] Hp Hd [_ Hnew]%BUG_ON_inv.
  set (rs := mk_rangeset _ _ _ _) in Hnew.
  assert (st' = mk_rs_state (<[p := rs]> (rst_sets st))
    (match d with Some d => alter (cons p) d (rst_domains st) | None => rst_domains st end)) as ->.
  { destruct d; injection Hnew as _ <-; reflexivity. }
  split; simpl.
  - intros d' ids Hd'.
    assert (∃ ids0, rst_domains st !! d' = Some ids0 ∧
      ids = if decide (d = Some d') then p :: ids0 else ids0) as (ids0 & Hd0 & ->).
    { destruct (decide (d = Some d')) as [->|E].
      - rewrite lookup_alter_eq in Hd'. apply fmap_Some in Hd'. naive_solver.
      - exists ids. split; [|done].
        destruct d; [rewrite lookup_alter_ne in Hd' by congruence|]; done. }
    destruct (Ho _ _ Hd0) as [Hnd Hin].
    assert (p ∉ ids0) by (rewrite Hin; naive_solver).
    split; [case_decide; [by constructor|done]|].
    intros q. transitivity (q ∈ ids0 ∨ (q = p ∧ d = Some d')).
    { case_decide; rewrite ?elem_of_cons; naive_solver. }
    rewrite Hin. setoid_rewrite lookup_insert_Some. subst rs. naive_solver.
  - intros q r d' Hq Hd'.
    assert (is_Some (rst_domains st !! d')) as His.
    { apply lookup_insert_Some in Hq as [[<- <-]|[_ Hq]]; [by simpl in Hd'; subst d|eauto]. }
    destruct d; [|done]. rewrite lookup_alter. case_decide; [subst; by apply fmap_is_Some|done].
Qed.

Lemma domain_destroy_loop_spec fuel d st ids :
  rs_inv st → rst_domains st !! d = Some ids → (length ids ≤ fuel)%nat →
  ∃ st', rangeset_domain_destroy_loop fuel d st = Ok st' ∧ rs_inv st' ∧
    rst_domains st' !! d = Some [] ∧
    rst_sets st' = filter (λ pr, rs_domain (snd pr) ≠ Some d) (rst_sets st).
Proof.
  revert st ids. induction fuel as [|fuel IH]; intros st ids Hinv Hd Hf;
    destruct Hinv as [Ho Hk] eqn:E; destruct (Ho _ _ Hd) as [Hnd Hin]; clear E.
  all: destruct ids as [|p ids]; [|try (simpl in Hf; lia)].
  1,2: exists st; simpl; rewrite Hd; simpl; repeat split_and; auto; symmetry;
       apply map_filter_id; intros p r Hp Hr; apply (not_elem_of_nil p), Hin; eauto.
  destruct (proj1 (Hin p)) as (r & Hp & Hr); [by left|].
  simpl. rewrite Hd. simpl. rewrite Hp. unfold BUG_ON.
  rewrite bool_decide_eq_true_2 by done. simpl.
  set (r' := mk_rangeset None _ _ _).
  unfold rangeset_destroy. simpl. rewrite lookup_insert_eq. simpl. rewrite delete_insert_eq.
  pose proof (rangeset_destroy_inv (Some p) st Hinv) as Hinv'.
  unfold rangeset_destroy in Hinv'. rewrite Hp, Hr in Hinv'.
  apply NoDup_cons in Hnd as [Hpi Hnd].
  destruct (IH _ ids Hinv') as (st' & -> & Hinv'' & Hd' & Hs'); simpl.
  - rewrite lookup_alter_eq, Hd. simpl. f_equal. unfold list_del.
    rewrite filter_cons_False by naive_solver. by apply list_del_notin.
  - simpl in Hf. lia.
  - exists st'. repeat split_and; auto. rewrite Hs'. simpl.
    rewrite map_filter_delete. apply delete_id. apply map_lookup_filter_None.
    right. intros r0 ?. simplify_eq. naive_solver.
Qed.

(** Destroying a domain's range sets never trips the [BUG_ON] on the owner,
    empties the domain's list, and destroys exactly the range sets the domain
    owns: every other range set is left as it was. *)
Theorem rangeset_domain_destroy_correct d st ids :
  rs_inv st → rst_domains st !! d = Some ids →
  ∃ st', rangeset_domain_destroy d st = Ok st' ∧ rs_inv st' ∧
    rst_domains st' !! d = Some [] ∧
    rst_sets st' = filter (λ pr, rs_domain (snd pr) ≠ Some d) (rst_sets st).
Proof.
  intros Hinv Hd. unfold rangeset_domain_destroy. rewrite Hd. simpl.
  by eapply domain_destroy_loop_spec.
Qed.

Definition rs_example : rs_state :=
  mk_rs_state {[ 1%positive := mk_rangeset (Some 5) [mk_range 1 2] no_name 0;
                 2%positive := mk_rangeset None [] no_name 0 ]} {[ 5 := [1%positive] ]}.

Lemma rs_example_inv : rs_inv rs_example.
Proof.
  split; simpl.
  - intros d ids [<- <-]%lookup_singleton_Some. split; [repeat constructor; set_solver|].
    intros p. rewrite list_elem_of_singleton. setoid_rewrite lookup_insert_Some.
    setoid_rewrite lookup_singleton_Some. split; [|naive_solver].
    intros ->. eexists. split; [by left|done].
  - intros p r d. rewrite lookup_insert_Some, lookup_singleton_Some.
    intros [[<- <-]|[_ [<- <-]]]; simpl; [|done]. intros [= <-]. rewrite lookup_singleton_eq. eauto.
Qed.

Lemma rangeset_domain_destroy_correct_witness :
  ∃ st', rangeset_domain_destroy 5 rs_example = Ok st' ∧ rs_inv st' ∧
    rst_domains st' !! 5 = Some [] ∧
    rst_sets st' = filter (λ pr, rs_domain (snd pr) ≠ Some 5) (rst_sets rs_example).
Proof.
  apply (rangeset_domain_destroy_correct 5 rs_example [1%positive]);
    [exact rs_example_inv|reflexivity].
Defined.
