(* ===== verification/RadixTree.v ===== *)
(** * Radix trees (xen/common/radix-tree.c)

    A tree maps an [unsigned long] index to an item pointer. Nodes live in a
    memory keyed by address; pointers are the C values, so that the low bit
    tags the root pointer of a tree of height above 0 and 0 is [NULL]. A tree
    carries its memory, the results its [node_alloc] callback will give (0 is a
    failure) and the log of what it freed. *)

From S2P Require Import Prelude.
Local Open Scope xen_scope.

Definition RADIX_TREE_INDIRECT_PTR : Z := 1.
Definition RADIX_TREE_MAP_SHIFT : Z := 6.
Definition RADIX_TREE_MAP_SIZE : Z := Z.shiftl 1 RADIX_TREE_MAP_SHIFT.
Definition RADIX_TREE_MAP_MASK : Z := RADIX_TREE_MAP_SIZE - 1.
Definition RADIX_TREE_INDEX_BITS : Z := 64.
Definition RADIX_TREE_MAX_PATH : Z :=
  (RADIX_TREE_INDEX_BITS + RADIX_TREE_MAP_SHIFT - 1) / RADIX_TREE_MAP_SHIFT.

(** ** Nodes and trees *)

(** [slots] maps the indices of the slots that are not [NULL]. *)
Record rnode := mk_rnode {
  n_height : Z;
  n_count : Z;
  n_slots : gmap Z Z;
}.

Definition get_slot (n : rnode) (i : Z) : Z := default 0 (n_slots n !! i).
Definition set_slot (i v : Z) (n : rnode) : rnode :=
  mk_rnode (n_height n) (n_count n) (if v =? 0 then delete i (n_slots n) else <[i := v]> (n_slots n)).
Definition set_height (h : Z) (n : rnode) : rnode := mk_rnode h (n_count n) (n_slots n).
Definition set_count (c : Z) (n : rnode) : rnode := mk_rnode (n_height n) (u32 c) (n_slots n).

(** [struct radix_tree_root] with the memory its nodes live in. *)
Record radix := mk_radix {
  rt_height : Z;
  rt_rnode : Z;
  rt_mem : gmap Z rnode;
  rt_allocs : list Z;
  rt_freed : list Z;
}.

Definition upd_rnode (p : Z) (r : radix) : radix :=
  mk_radix (rt_height r) p (rt_mem r) (rt_allocs r) (rt_freed r).
Definition upd_height (h : Z) (r : radix) : radix :=
  mk_radix h (rt_rnode r) (rt_mem r) (rt_allocs r) (rt_freed r).
Definition upd_mem (m : gmap Z rnode) (r : radix) : radix :=
  mk_radix (rt_height r) (rt_rnode r) m (rt_allocs r) (rt_freed r).
Definition put_allocs (l : list Z) (r : radix) : radix :=
  mk_radix (rt_height r) (rt_rnode r) (rt_mem r) l (rt_freed r).

(** [node->field = ...] *)
Definition upd_node (a : Z) (f : rnode → rnode) (r : radix) : outcome radix :=
  deref (rt_mem r !! a) (λ n, Ok (upd_mem (<[a := f n]> (rt_mem r)) r)).

Definition radix_tree_is_indirect_ptr (p : Z) : bool := negb (Z.land p RADIX_TREE_INDIRECT_PTR =? 0).
Definition ptr_to_indirect (p : Z) : Z := Z.lor p RADIX_TREE_INDIRECT_PTR.
Definition indirect_to_ptr (p : Z) : Z := Z.ldiff p RADIX_TREE_INDIRECT_PTR.

Definition radix_tree_node_alloc (r : radix) : Z * radix :=
  match rt_allocs r with
  | [] => (0, r)
  | a :: l =>
      if a =? 0 then (0, put_allocs l r)
      else (a, put_allocs l (upd_mem (<[a := mk_rnode 0 0 ∅]> (rt_mem r)) r))
  end.

(** Freeing a node that is not allocated is a [Bug]. *)
Definition radix_tree_node_free (a : Z) (r : radix) : outcome radix :=
  deref (rt_mem r !! a) (λ _,
    Ok (mk_radix (rt_height r) (rt_rnode r) (delete a (rt_mem r)) (rt_allocs r) (a :: rt_freed r))).

(** ** Heights *)

Definition __maxindex (height : Z) : Z :=
  let width := u32 (height * RADIX_TREE_MAP_SHIFT) in
  let shift := RADIX_TREE_INDEX_BITS - width in
  if shift <? 0 then ULONG_MAX
  else if 64 <=? shift then 0
  else Z.shiftr ULONG_MAX shift.

(** Filled in by [radix_tree_init_maxindex]. *)
Definition height_to_maxindex : list Z := __maxindex <$> seqZ 0 (RADIX_TREE_MAX_PATH + 1).

Definition radix_tree_maxindex (height : Z) : outcome Z :=
  deref (height_to_maxindex !! Z.to_nat height) Ok.

(** [while (index > radix_tree_maxindex(height)) height++;] *)
Fixpoint fit_height (fuel : nat) (height index : Z) : outcome Z :=
  match fuel with
  | O => Bug
  | S fuel' =>
      let! m := radix_tree_maxindex height in
      if m <? index then fit_height fuel' (height + 1) index else Ok height
  end.

(** The [do ... while (height > root->height)] of [radix_tree_extend]. *)
Fixpoint extend_loop (fuel : nat) (height : Z) (r : radix) : outcome (Z * radix) :=
  match fuel with
  | O => Bug
  | S fuel' =>
      let '(node, r1) := radix_tree_node_alloc r in
      if node =? 0 then Ok (- ENOMEM, r1)
      else
        let newheight := u32 (rt_height r1 + 1) in
        let! r2 := upd_node node (λ n, set_count 1 (set_height newheight
                     (set_slot 0 (indirect_to_ptr (rt_rnode r1)) n))) r1 in
        let r3 := upd_height newheight (upd_rnode (ptr_to_indirect node) r2) in
        if rt_height r3 <? height then extend_loop fuel' height r3 else Ok (0, r3)
  end.

Definition radix_tree_extend (r : radix) (index : Z) : outcome (Z * radix) :=
  let! height := fit_height 13 (u32 (rt_height r + 1)) index in
  if rt_rnode r =? 0 then Ok (0, upd_height height r)
  else extend_loop 13 height r.

(** ** Insertion *)

(** The offset of [index] at a level. *)
Definition slot_offset (index shift : Z) : Z := Z.land (Z.shiftr index shift) RADIX_TREE_MAP_MASK.

(** [while (height > 0)] of [radix_tree_insert]; [n] is [height]. The result is
    an error or the last [node], [slot] and [offset]. *)
Fixpoint insert_loop (n : nat) (index node slot shift offset : Z) (r : radix)
    : outcome ((Z + Z * Z * Z) * radix) :=
  match n with
  | O => Ok (inr (node, slot, offset), r)
  | S n' =>
      let! (err, slot, r) :=
        (if slot =? 0 then
           let '(slot, r1) := radix_tree_node_alloc r in
           if slot =? 0 then Ok (true, slot, r1)
           else
             let! r2 := upd_node slot (set_height (Z.of_nat n)) r1 in
             let! r3 :=
               (if negb (node =? 0) then
                  upd_node node (λ x, set_count (n_count x + 1) (set_slot offset slot x)) r2
                else Ok (upd_rnode (ptr_to_indirect slot) r2)) in
             Ok (false, slot, r3)
         else Ok (false, slot, r)) in
      if (err : bool) then Ok (inl (- ENOMEM), r)
      else
        let offset := slot_offset index shift in
        deref (rt_mem r !! slot) (λ x,
          insert_loop n' index slot (get_slot x offset) (u32 (shift - RADIX_TREE_MAP_SHIFT)) offset r)
  end.

Definition radix_tree_insert (r : radix) (index item : Z) : outcome (Z * radix) :=
  BUG_ON (radix_tree_is_indirect_ptr item)
    (let! maxi := radix_tree_maxindex (rt_height r) in
     let! (error, r1) := (if maxi <? index then radix_tree_extend r index else Ok (0, r)) in
     if negb (error =? 0) then Ok (error, r1)
     else
       let slot := indirect_to_ptr (rt_rnode r1) in
       let height := rt_height r1 in
       let shift := u32 ((height - 1) * RADIX_TREE_MAP_SHIFT) in
       let! (res, r2) := insert_loop (Z.to_nat height) index 0 slot shift 0 r1 in
       match res with
       | inl err => Ok (err, r2)
       | inr (node, slot, offset) =>
           if negb (slot =? 0) then Ok (- EEXIST, r2)
           else if negb (node =? 0) then
             let! r3 := upd_node node (λ x, set_slot offset item (set_count (n_count x + 1) x)) r2 in
             Ok (0, r3)
           else Ok (0, upd_rnode item r2)
       end).

(** ** Look-up *)

(** A [void **]: the root pointer or a slot of a node. *)
Inductive slotref := RootSlot | NodeSlot (a i : Z).

Definition radix_tree_deref_slot (r : radix) (s : slotref) : outcome Z :=
  match s with
  | RootSlot => Ok (rt_rnode r)
  | NodeSlot a i => deref (rt_mem r !! a) (λ n, Ok (get_slot n i))
  end.

Definition radix_tree_replace_slot (r : radix) (s : slotref) (item : Z) : outcome radix :=
  BUG_ON (radix_tree_is_indirect_ptr item)
    (match s with
     | RootSlot => Ok (upd_rnode item r)
     | NodeSlot a i => upd_node a (set_slot i item) r
     end).

(** A reader that dereferences a slot of a node freed by a shrink must look up
    again. *)
Definition radix_tree_deref_retry (arg : Z) : bool := negb (Z.land arg RADIX_TREE_INDIRECT_PTR =? 0).

(** [do ... while (height > 0)]; [n] is [height]. *)
Fixpoint lookup_loop (n : nat) (index node shift : Z) (r : radix) : outcome (option (slotref * Z)) :=
  match n with
  | O => Bug
  | S n' =>
      deref (rt_mem r !! node) (λ x,
        let i := slot_offset index shift in
        let next := get_slot x i in
        if next =? 0 then Ok None
        else match n' with
             | O => Ok (Some (NodeSlot node i, next))
             | _ => lookup_loop n' index next (u32 (shift - RADIX_TREE_MAP_SHIFT)) r
             end)
  end.

(** Both results at once: the slot ([is_slot]) and the item. *)
Definition radix_tree_lookup_element (r : radix) (index : Z) : outcome (option (slotref * Z)) :=
  let node := rt_rnode r in
  if node =? 0 then Ok None
  else if negb (radix_tree_is_indirect_ptr node) then
    Ok (if 0 <? index then None else Some (RootSlot, node))
  else
    let node := indirect_to_ptr node in
    deref (rt_mem r !! node) (λ x,
      let height := n_height x in
      let! maxi := radix_tree_maxindex height in
      if maxi <? index then Ok None
      else
        let! res := lookup_loop (Z.to_nat height) index node
                      (u32 ((height - 1) * RADIX_TREE_MAP_SHIFT)) r in
        Ok (match res with Some (s, v) => Some (s, indirect_to_ptr v) | None => None end)).

Definition radix_tree_lookup_slot (r : radix) (index : Z) : outcome (option slotref) :=
  let! res := radix_tree_lookup_element r index in Ok (fst <$> res).

(** The item, [NULL] if there is none. *)
Definition radix_tree_lookup (r : radix) (index : Z) : outcome Z :=
  let! res := radix_tree_lookup_element r index in Ok (from_option snd 0 res).

(** [n] is [max_scan] minus the iterations done. *)
Fixpoint next_hole_loop (n : nat) (r : radix) (index : Z) : outcome Z :=
  match n with
  | O => Ok index
  | S n' =>
      let! item := radix_tree_lookup r index in
      if item =? 0 then Ok index
      else let index := u64 (index + 1) in
           if index =? 0 then Ok index else next_hole_loop n' r index
  end.

Definition radix_tree_next_hole (r : radix) (index max_scan : Z) : outcome Z :=
  next_hole_loop (Z.to_nat max_scan) r index.

Fixpoint prev_hole_loop (n : nat) (r : radix) (index : Z) : outcome Z :=
  match n with
  | O => Ok index
  | S n' =>
      let! item := radix_tree_lookup r index in
      if item =? 0 then Ok index
      else let index := u64 (index - 1) in
           if index =? ULONG_MAX then Ok index else prev_hole_loop n' r index
  end.

Definition radix_tree_prev_hole (r : radix) (index max_scan : Z) : outcome Z :=
  prev_hole_loop (Z.to_nat max_scan) r index.

(** ** Scans *)

(** The [for (;;)] of [__lookup]: the next non-empty slot of a node from [i]
    on, or the index to continue at. [n] is the number of slots left. *)
Fixpoint scan_slots (n : nat) (x : rnode) (index shift i : Z) : Z + Z * Z :=
  match n with
  | O => inl index
  | S n' =>
      if negb (get_slot x i =? 0) then inr (index, i)
      else
        let index := Z.ldiff index (Z.shiftl 1 shift - 1) in
        let index := u64 (index + Z.shiftl 1 shift) in
        if index =? 0 then inl index else scan_slots n' x index shift (i + 1)
  end.

(** [for ( ; height > 1; height--)]; [n] is [height - 1]. *)
Fixpoint scan_down (n : nat) (slot index shift : Z) (r : radix) : outcome (Z + Z * Z) :=
  match n with
  | O => Ok (inr (slot, index))
  | S n' =>
      deref (rt_mem r !! slot) (λ x,
        let i := slot_offset index shift in
        match scan_slots (Z.to_nat (RADIX_TREE_MAP_SIZE - i)) x index shift i with
        | inl index => Ok (inl index)
        | inr (index, i) =>
            let shift := u32 (shift - RADIX_TREE_MAP_SHIFT) in
            let slot := get_slot x i in
            if slot =? 0 then Ok (inl index) else scan_down n' slot index shift r
        end)
  end.

(** The bottom level: collect up to [max_items] slots. *)
Fixpoint grab_slots (n : nat) (a : Z) (x : rnode) (index i max_items : Z) (found : list slotref)
    : Z * list slotref :=
  match n with
  | O => (index, found)
  | S n' =>
      let index := u64 (index + 1) in
      if negb (get_slot x i =? 0) then
        let found := found ++ [NodeSlot a i] in
        if Z.of_nat (length found) =? max_items then (index, found)
        else grab_slots n' a x index (i + 1) max_items found
      else grab_slots n' a x index (i + 1) max_items found
  end.

(** The next index and the slots found. *)
Definition __lookup (r : radix) (slot index max_items : Z) : outcome (Z * list slotref) :=
  deref (rt_mem r !! slot) (λ x,
    let height := n_height x in
    if height =? 0 then Ok (index, [])
    else
      let shift := u32 ((height - 1) * RADIX_TREE_MAP_SHIFT) in
      let! down := scan_down (Z.to_nat (height - 1)) slot index shift r in
      match down with
      | inl index => Ok (index, [])
      | inr (slot, index) =>
          deref (rt_mem r !! slot) (λ x,
            let i := Z.land index RADIX_TREE_MAP_MASK in
            Ok (grab_slots (Z.to_nat (RADIX_TREE_MAP_SIZE - i)) slot x index i max_items []))
      end).

(** [*(((void *** )results)[ret + i])] for the slots found. *)
Fixpoint deref_slots (r : radix) (l : list slotref) : outcome (list Z) :=
  match l with
  | [] => Ok []
  | s :: l' =>
      let! v := radix_tree_deref_slot r s in
      let! vs := deref_slots r l' in
      Ok (if v =? 0 then vs else indirect_to_ptr v :: vs)
  end.

(** The [while (ret < max_items)] of the two gang look-ups; [conv] turns the
    slots found into results. *)
Fixpoint gang_loop {A} (conv : list slotref → outcome (list A)) (fuel : nat) (r : radix)
    (node max_index cur_index max_items : Z) (results : list A) : outcome (list A) :=
  match fuel with
  | O => Bug
  | S fuel' =>
      let ret := Z.of_nat (length results) in
      if ret <? max_items then
        if max_index <? cur_index then Ok results
        else
          let! (next_index, slots) := __lookup r node cur_index (max_items - ret) in
          let! found := conv slots in
          let results := results ++ found in
          if next_index =? 0 then Ok results
          else gang_loop conv fuel' r node max_index next_index max_items results
      else Ok results
  end.

Definition gang_lookup {A} (conv : list slotref → outcome (list A)) (direct : A) (fuel : nat)
    (r : radix) (first_index max_items : Z) : outcome (list A) :=
  let node := rt_rnode r in
  if node =? 0 then Ok []
  else if negb (radix_tree_is_indirect_ptr node) then
    Ok (if 0 <? first_index then [] else [direct])
  else
    let node := indirect_to_ptr node in
    deref (rt_mem r !! node) (λ x,
      let! max_index := radix_tree_maxindex (n_height x) in
      gang_loop conv fuel r node max_index first_index max_items []).

Definition radix_tree_gang_lookup (fuel : nat) (r : radix) (first_index max_items : Z)
    : outcome (list Z) :=
  gang_lookup (deref_slots r) (rt_rnode r) fuel r first_index max_items.

Definition radix_tree_gang_lookup_slot (fuel : nat) (r : radix) (first_index max_items : Z)
    : outcome (list slotref) :=
  gang_lookup Ok RootSlot fuel r first_index max_items.

(** ** Deletion *)

(** [while (root->height > 0)]; [n] is [root->height]. The tag put on the slot
    of the node that is about to be freed is for concurrent readers. *)
Fixpoint radix_tree_shrink (n : nat) (r : radix) : outcome radix :=
  match n with
  | O => Ok r
  | S n' =>
      BUG_ON (negb (radix_tree_is_indirect_ptr (rt_rnode r)))
        (let to_free := indirect_to_ptr (rt_rnode r) in
         deref (rt_mem r !! to_free) (λ x,
           if negb (n_count x =? 1) then Ok r
           else if get_slot x 0 =? 0 then Ok r
           else
             let newptr := get_slot x 0 in
             let newptr := if 1 <? rt_height r then ptr_to_indirect newptr else newptr in
             let r1 := upd_height (rt_height r - 1) (upd_rnode newptr r) in
             let! r2 := (if rt_height r1 =? 0
                         then upd_node to_free (λ x, set_slot 0 (ptr_to_indirect (get_slot x 0)) x) r1
                         else Ok r1) in
             let! r3 := radix_tree_node_free to_free r2 in
             radix_tree_shrink n' r3))
  end.

(** The descent of [radix_tree_delete]; [n] is [height], the path is kept from
    the bottom. *)
Fixpoint delete_path (n : nat) (index slot shift : Z) (path : list (Z * Z)) (r : radix)
    : outcome (option (list (Z * Z)) * Z) :=
  match n with
  | O => Ok (Some path, slot)
  | S n' =>
      if slot =? 0 then Ok (None, 0)
      else
        deref (rt_mem r !! slot) (λ x,
          let offset := slot_offset index shift in
          delete_path n' index (get_slot x offset) (u32 (shift - RADIX_TREE_MAP_SHIFT))
            ((slot, offset) :: path) r)
  end.

(** [if (to_free) radix_tree_node_free(root, to_free);] *)
Definition free_if (to_free : Z) (r : radix) : outcome radix :=
  if negb (to_free =? 0) then radix_tree_node_free to_free r else Ok r.

(** [while (pathp->node)] and what follows it. *)
Fixpoint delete_up (path : list (Z * Z)) (to_free : Z) (r : radix) : outcome radix :=
  match path with
  | [] => free_if to_free (upd_rnode 0 (upd_height 0 r))
  | (node, offset) :: path' =>
      let! r1 := upd_node node (λ x, set_count (n_count x - 1) (set_slot offset 0 x)) r in
      let! r2 := free_if to_free r1 in
      deref (rt_mem r2 !! node) (λ x,
        if negb (n_count x =? 0) then
          if node =? indirect_to_ptr (rt_rnode r2) then radix_tree_shrink (Z.to_nat (rt_height r2)) r2
          else Ok r2
        else delete_up path' node r2)
  end.

(** The item deleted, [NULL] if there was none. *)
Definition radix_tree_delete (r : radix) (index : Z) : outcome (Z * radix) :=
  let height := rt_height r in
  let! maxi := radix_tree_maxindex height in
  if maxi <? index then Ok (0, r)
  else if height =? 0 then Ok (rt_rnode r, upd_rnode 0 r)
  else
    let! (path, slot) := delete_path (Z.to_nat height) index (indirect_to_ptr (rt_rnode r))
                           (u32 ((height - 1) * RADIX_TREE_MAP_SHIFT)) [] r in
    match path with
    | None => Ok (slot, r)
    | Some path =>
        if slot =? 0 then Ok (slot, r)
        else let! r' := delete_up path 0 r in Ok (slot, r')
    end.

(** ** Destruction *)

(** [radix_tree_node_destroy] with the items given to [slot_free], which is
    called when it is not [NULL]. *)
Fixpoint radix_tree_node_destroy (fuel : nat) (slot_free : bool) (node : Z) (r : radix)
    : outcome (list Z * radix) :=
  match fuel with
  | O => Bug
  | S fuel' =>
      let! (items, r') :=
        foldl (λ acc i,
          let! (items, r) := acc in
          deref (rt_mem r !! node) (λ x,
            let slot := get_slot x i in
            BUG_ON (radix_tree_is_indirect_ptr slot)
              (if slot =? 0 then Ok (items, r)
               else if n_height x =? 1 then Ok (if slot_free then items ++ [slot] else items, r)
               else
                 let! (l, r1) := radix_tree_node_destroy fuel' slot_free slot r in
                 Ok (items ++ l, r1))))
          (Ok ([], r)) (seqZ 0 RADIX_TREE_MAP_SIZE) in
      let! r'' := radix_tree_node_free node r' in
      Ok (items, r'')
  end.

Definition radix_tree_init (r : radix) : radix :=
  mk_radix 0 0 (rt_mem r) (rt_allocs r) (rt_freed r).

(** A new allocation callback is one that will give other results. *)
Definition radix_tree_set_alloc_callbacks (allocs : list Z) (r : radix) : radix := put_allocs allocs r.

Definition radix_tree_destroy (r : radix) (slot_free : bool) : outcome (list Z * radix) :=
  let node := rt_rnode r in
  if node =? 0 then Ok ([], r)
  else if negb (radix_tree_is_indirect_ptr node) then
    Ok (if slot_free then [node] else [], radix_tree_init r)
  else
    let! (items, r') :=
      radix_tree_node_destroy (S (Z.to_nat RADIX_TREE_MAX_PATH)) slot_free (indirect_to_ptr node) r in
    Ok (items, radix_tree_init r').

(** ** Integers in slots *)

Definition radix_tree_int_to_ptr (val : Z) : outcome Z :=
  let ptr := Z.lor (Z.shiftl val 2) 2 in
  BUG_ON (negb (Z.shiftr ptr 2 =? val)) (Ok ptr).

(** The conversion to [int] keeps the low 32 bits, as a signed number. *)
Definition radix_tree_ptr_to_int (ptr : Z) : outcome Z :=
  BUG_ON (negb (Z.land ptr 3 =? 2)) (Ok (s32 (u32 (Z.shiftr ptr 2)))).
