(* ===== verification/RadixTreeInv.v ===== *)
(** * The radix tree invariant (xen/common/radix-tree.c)

    [at_ mem root H n idx] is the pointer found after [n] steps down from the
    root of a tree of height [H] on the way to index [idx]. The tree is well
    formed when the nodes met this way have the right height and count, are
    met by one path only, and are all the nodes of the memory. A tree
    represents a finite map from indices to items. *)

From S2P Require Import Prelude RadixTree.
Local Open Scope xen_scope.

(** ** Indices *)

Definition prefix (k : nat) (idx : Z) : Z := Z.shiftr idx (6 * Z.of_nat k).
Definition digit (k : nat) (idx : Z) : Z := slot_offset idx (6 * Z.of_nat k).
Definition span (H : nat) : Z := 2 ^ (6 * Z.of_nat H).
Definition in_range (H : nat) (idx : Z) : Prop := 0 ≤ idx < span H.

Lemma prefix_div k idx : prefix k idx = idx / span k.
Proof. unfold prefix, span. by rewrite Z.shiftr_div_pow2 by lia. Qed.

Lemma span_pos k : 0 < span k.
Proof. unfold span. lia. Qed.

Lemma span_S k : span (S k) = span k * 64.
Proof.
  unfold span. replace (6 * Z.of_nat (S k)) with (6 * Z.of_nat k + 6) by lia.
  by rewrite Z.pow_add_r by lia.
Qed.

Lemma digit_mod k idx : digit k idx = prefix k idx mod 64.
Proof.
  unfold digit, slot_offset, prefix. change RADIX_TREE_MAP_MASK with (Z.ones 6).
  by rewrite Z.land_ones by lia.
Qed.

Lemma digit_range k idx : 0 ≤ digit k idx < 64.
Proof. rewrite digit_mod. apply Z.mod_pos_bound. lia. Qed.

Lemma prefix_step k idx : prefix k idx = 64 * prefix (S k) idx + digit k idx.
Proof.
  rewrite digit_mod, !prefix_div, span_S. pose proof (span_pos k).
  rewrite <- Z.div_div by lia. apply Z.div_mod. lia.
Qed.

Lemma prefix_split k a b :
  prefix k a = prefix k b ↔ prefix (S k) a = prefix (S k) b ∧ digit k a = digit k b.
Proof.
  pose proof (digit_range k a). pose proof (digit_range k b).
  rewrite (prefix_step k a), (prefix_step k b). lia.
Qed.

Lemma prefix_mono k k' a b : (k ≤ k')%nat → prefix k a = prefix k b → prefix k' a = prefix k' b.
Proof. induction 1 as [|k' _ IH]; [done|]. intros E. by apply IH, prefix_split in E as [? _]. Qed.

Lemma prefix_0 idx : prefix 0 idx = idx.
Proof. unfold prefix. simpl. apply Z.shiftr_0_r. Qed.

Lemma prefix_in_range H idx : 0 ≤ idx → prefix H idx = 0 ↔ in_range H idx.
Proof.
  intros Hi. unfold in_range. rewrite prefix_div. pose proof (span_pos H).
  rewrite Z.div_small_iff by lia. lia.
Qed.

Lemma in_range_top H idx : in_range (S H) idx → digit H idx = prefix H idx.
Proof.
  intros [? ?]. assert (prefix (S H) idx = 0) by (by apply prefix_in_range).
  pose proof (prefix_step H idx). lia.
Qed.

Lemma in_range_0 H : in_range H 0.
Proof. split; [lia|apply span_pos]. Qed.

Lemma in_range_mono H idx : in_range H idx → in_range (S H) idx.
Proof. unfold in_range. rewrite span_S. pose proof (span_pos H). lia. Qed.

(** ** Paths *)

Definition slot_of (mem : gmap Z rnode) (p i : Z) : Z := from_option (λ x, get_slot x i) 0 (mem !! p).

Fixpoint at_ (mem : gmap Z rnode) (root : Z) (H n : nat) (idx : Z) : Z :=
  match n with
  | O => root
  | S n' => slot_of mem (at_ mem root H n' idx) (digit (H - S n') idx)
  end.

Record node_ok (h : nat) (x : rnode) : Prop := {
  no_height : n_height x = Z.of_nat h;
  no_count : n_count x = Z.of_nat (size (n_slots x));
  no_slots i v : n_slots x !! i = Some v → 0 ≤ i < 64 ∧ v ≠ 0;
}.

Record tree_wf (mem : gmap Z rnode) (root : Z) (H : nat) : Prop := {
  tw_null : mem !! 0 = None;
  tw_node n idx : (n < H)%nat → in_range H idx → at_ mem root H n idx ≠ 0 →
    ∃ x, mem !! at_ mem root H n idx = Some x ∧ node_ok (H - n) x;
  tw_inj n a b : (n < H)%nat → in_range H a → in_range H b → at_ mem root H n a ≠ 0 →
    at_ mem root H n a = at_ mem root H n b → prefix (H - n) a = prefix (H - n) b;
  tw_even n idx : (n ≤ H)%nat → in_range H idx → Z.even (at_ mem root H n idx) = true;
  tw_own a : is_Some (mem !! a) → ∃ n idx, (n < H)%nat ∧ in_range H idx ∧ at_ mem root H n idx = a;
}.

Lemma slot_of_node mem p x i : mem !! p = Some x → slot_of mem p i = get_slot x i.
Proof. unfold slot_of. by intros ->. Qed.

Lemma slot_of_null mem i : mem !! 0 = None → slot_of mem 0 i = 0.
Proof. unfold slot_of. by intros ->. Qed.

(** A pointer depends only on the digits above it. *)
Lemma at_prefix mem root H n a b :
  (n ≤ H)%nat → prefix (H - n) a = prefix (H - n) b → at_ mem root H n a = at_ mem root H n b.
Proof.
  induction n as [|n IH]; intros Hn E; [done|]. simpl.
  replace (H - n)%nat with (S (H - S n)) in IH by lia. apply prefix_split in E as [E1 E2].
  by rewrite IH, E2 by (lia || done).
Qed.

Lemma at_null mem root H n m idx :
  mem !! 0 = None → (n ≤ m)%nat → at_ mem root H n idx = 0 → at_ mem root H m idx = 0.
Proof.
  intros H0. induction 1 as [|m _ IH]; intros E; [done|]. simpl. rewrite IH by done. by apply slot_of_null.
Qed.

(** The level of a node is its height. *)
Lemma at_level mem root H n m a b :
  tree_wf mem root H → (n < H)%nat → (m < H)%nat → in_range H a → in_range H b →
  at_ mem root H n a ≠ 0 → at_ mem root H n a = at_ mem root H m b → n = m.
Proof.
  intros [_ Hn _ _ _] ? ? Ha Hb Hp E. destruct (Hn n a) as (x & Hx & [Hh _ _]); auto.
  rewrite E in Hp. destruct (Hn m b) as (y & Hy & [Hh' _ _]); auto. rewrite E in Hx. simplify_eq. lia.
Qed.

Section update.
(** Node [p] at depth [n0] on the way to [idx0], whose slot for [idx0]
    becomes [v]. *)
Context (mem mem' : gmap Z rnode) (root : Z) (H n0 : nat) (idx0 v : Z).
Context (Hwf : tree_wf mem root H) (Hn0 : (n0 < H)%nat) (Hidx0 : in_range H idx0).

Abbreviation k := (H - S n0)%nat.
Abbreviation p := (at_ mem root H n0 idx0).

Context (Hp : p ≠ 0) (H0 : mem' !! 0 = None).
Context (Hslot : ∀ i, slot_of mem' p i = if decide (i = digit k idx0) then v else slot_of mem p i).

(** The changed subtree. *)
Definition below (n : nat) (idx : Z) : Prop := (n0 < n)%nat ∧ prefix k idx = prefix k idx0.

Context (Hrest : ∀ n idx, (n < H)%nat → in_range H idx → at_ mem root H n idx ≠ 0 →
  at_ mem root H n idx ≠ p → ¬ below n idx → mem' !! at_ mem root H n idx = mem !! at_ mem root H n idx).

Lemma at_update_here idx : prefix k idx = prefix k idx0 →
  at_ mem' root H n0 idx = p → at_ mem' root H (S n0) idx = v.
Proof.
  intros E Hat. simpl. rewrite Hat, Hslot. replace k with k in E by done.
  destruct (proj1 (prefix_split k idx idx0) E) as [_ ->]. by rewrite decide_True.
Qed.

Lemma at_update_above n idx : (n ≤ n0)%nat → in_range H idx → at_ mem' root H n idx = at_ mem root H n idx.
Proof.
  intros Hn Hi. induction n as [|n IH]; [done|]. simpl. rewrite IH by lia.
  destruct (decide (at_ mem root H n idx = 0)) as [E|E]; [rewrite E, !slot_of_null; auto; apply Hwf|].
  unfold slot_of. rewrite Hrest; [done|lia|done|done| |unfold below; lia].
  intros Eq. assert (n = n0); [|lia]. by eapply (at_level mem root H n n0 idx idx0); eauto; lia.
Qed.

Lemma at_update_other n idx : (n ≤ H)%nat → in_range H idx → prefix k idx ≠ prefix k idx0 →
  at_ mem' root H n idx = at_ mem root H n idx.
Proof.
  intros Hn Hi Hne. induction n as [|n IH]; [done|]. simpl. rewrite IH by lia.
  destruct (decide (at_ mem root H n idx = 0)) as [E|E]; [rewrite E, !slot_of_null; auto; apply Hwf|].
  destruct (decide (at_ mem root H n idx = p)) as [Eq|Eq].
  - assert (n = n0) as -> by (eapply (at_level mem root H n n0 idx idx0); eauto; lia).
    rewrite Eq, Hslot. rewrite decide_False; [done|]. intros Ed. apply Hne, prefix_split.
    split; [|done]. replace (S k) with (H - n0)%nat by lia. eapply (tw_inj _ _ _ Hwf); eauto.
  - unfold slot_of. rewrite Hrest; [done|lia|done|done|done|]. unfold below. intros [_ ?]. done.
Qed.

Lemma at_update_child idx : in_range H idx → prefix k idx = prefix k idx0 → at_ mem' root H (S n0) idx = v.
Proof.
  intros Hi E. apply at_update_here; [done|]. rewrite at_update_above by done.
  apply at_prefix; [lia|]. eapply prefix_mono, E. lia.
Qed.
End update.

(** ** Replacing a child *)

Definition empty_node (k : nat) : rnode := mk_rnode (Z.of_nat k) 0 ∅.

(** A child without items below it, but for the item it may be itself. *)
Definition simple (mem : gmap Z rnode) (k : nat) (v : Z) : Prop :=
  v ≠ 0 → (0 < k)%nat → mem !! v = Some (empty_node k).

Lemma empty_node_ok k : node_ok k (empty_node k).
Proof. by split. Qed.

(** The memory after slot [digit k idx0] of node [p] changed from [v0] to [v],
    [v0] having been freed or [v] allocated if they are nodes. *)
Record plugged (mem mem' : gmap Z rnode) (k : nat) (p d v0 v : Z) : Prop := {
  pl_node : ∃ x x', mem !! p = Some x ∧ mem' !! p = Some x' ∧ get_slot x d = v0 ∧
    node_ok (S k) x' ∧ (∀ i, get_slot x' i = if decide (i = d) then v else get_slot x i);
  pl_old : simple mem k v0;
  pl_new : simple mem' k v;
  pl_fresh : (0 < k)%nat → v ≠ 0 → mem !! v = None;
  pl_freed : (0 < k)%nat → v0 ≠ 0 → mem' !! v0 = None;
  pl_one : (0 < k)%nat → v0 = 0 ∨ v = 0;
  pl_rest a : a ≠ p → ((0 < k)%nat → a ≠ 0 → a ≠ v ∧ a ≠ v0) → mem' !! a = mem !! a;
  pl_even : Z.even v = true;
}.

Section plug.
Context (mem mem' : gmap Z rnode) (root : Z) (H n0 : nat) (idx0 v0 v : Z).
Context (Hwf : tree_wf mem root H) (Hn0 : (n0 < H)%nat) (Hidx0 : in_range H idx0).

Abbreviation k := (H - S n0)%nat.
Abbreviation p := (at_ mem root H n0 idx0).

Context (Hp : p ≠ 0) (Hpl : plugged mem mem' k p (digit k idx0) v0 v).

Lemma plug_null : mem' !! 0 = None.
Proof. rewrite (pl_rest _ _ _ _ _ _ _ Hpl); [apply Hwf|done|done]. Qed.

Lemma plug_old_child : at_ mem root H (S n0) idx0 = v0.
Proof. destruct (pl_node _ _ _ _ _ _ _ Hpl) as (x & _ & Hx & _ & <- & _). simpl. by apply slot_of_node. Qed.

Lemma plug_slot i : slot_of mem' p i = if decide (i = digit k idx0) then v else slot_of mem p i.
Proof.
  destruct (pl_node _ _ _ _ _ _ _ Hpl) as (x & x' & Hx & Hx' & _ & _ & Hs).
  by rewrite (slot_of_node _ _ _ _ Hx), (slot_of_node _ _ _ _ Hx').
Qed.

Lemma plug_rest n idx : (n < H)%nat → in_range H idx → at_ mem root H n idx ≠ 0 →
  at_ mem root H n idx ≠ p → ¬ below H n0 idx0 n idx → mem' !! at_ mem root H n idx = mem !! at_ mem root H n idx.
Proof.
  intros Hn Hi Ha Hap Hb. apply (pl_rest _ _ _ _ _ _ _ Hpl); [done|]. intros Hk _.
  destruct (tw_node _ _ _ Hwf n idx Hn Hi Ha) as (x & Hx & _). split.
  - intros E. rewrite E in *. by rewrite (pl_fresh _ _ _ _ _ _ _ Hpl Hk Ha) in Hx.
  - intros E. apply Hb. rewrite <- plug_old_child in E.
    assert (n = S n0) as -> by (apply (at_level mem root H n (S n0) idx idx0); auto; lia).
    split; [lia|]. eapply (tw_inj _ _ _ Hwf); eauto.
Qed.

Lemma plug_at_other n idx : (n ≤ H)%nat → in_range H idx → ¬ below H n0 idx0 n idx →
  at_ mem' root H n idx = at_ mem root H n idx.
Proof.
  intros Hn Hi Hb. destruct (decide (n ≤ n0)%nat) as [Hle|Hgt].
  - by eapply (at_update_above mem mem' root H n0 idx0); eauto using plug_null, plug_rest.
  - eapply (at_update_other mem mem' root H n0 idx0 v); eauto using plug_null, plug_slot, plug_rest.
    intros E. apply Hb. split; [lia|done].
Qed.

Lemma plug_at_below n idx : (n ≤ H)%nat → in_range H idx → below H n0 idx0 n idx →
  at_ mem' root H n idx = if decide (n = S n0) then v else 0.
Proof.
  intros Hn Hi [Hgt E].
  assert (Hc : at_ mem' root H (S n0) idx = v)
    by (eapply (at_update_child mem mem' root H n0 idx0 v); eauto using plug_null, plug_slot, plug_rest).
  case_decide as Hd; [by subst|]. apply (at_null _ _ _ (S (S n0))); [apply plug_null|lia|].
  change (at_ mem' root H (S (S n0)) idx) with (slot_of mem' (at_ mem' root H (S n0) idx) (digit (H - S (S n0)) idx)).
  pose proof plug_null as Hnull.
  rewrite Hc. destruct (decide (v = 0)) as [->|Hv]; [by apply slot_of_null|].
  rewrite (slot_of_node _ _ _ _ (pl_new _ _ _ _ _ _ _ Hpl Hv ltac:(lia))). done.
Qed.

Lemma plug_old_below n idx : (n ≤ H)%nat → in_range H idx → below H n0 idx0 n idx →
  at_ mem root H n idx = if decide (n = S n0) then v0 else 0.
Proof.
  intros Hn Hi [Hgt E]. assert (Hc : at_ mem root H (S n0) idx = v0).
  { rewrite <- plug_old_child. apply at_prefix; [lia|done]. }
  case_decide as Hd; [by subst|]. destruct Hwf as [H0 _ _ _ _]. apply (at_null _ _ _ (S (S n0))); [done|lia|].
  change (at_ mem root H (S (S n0)) idx) with (slot_of mem (at_ mem root H (S n0) idx) (digit (H - S (S n0)) idx)).
  rewrite Hc. destruct (decide (v0 = 0)) as [->|Hv]; [by apply slot_of_null|].
  rewrite (slot_of_node _ _ _ _ (pl_old _ _ _ _ _ _ _ Hpl Hv ltac:(lia))). done.
Qed.

#[local] Instance below_dec n idx : Decision (below H n0 idx0 n idx).
Proof. unfold below. apply _. Defined.

Lemma plug_at n idx : (n ≤ H)%nat → in_range H idx →
  at_ mem' root H n idx =
    if decide (below H n0 idx0 n idx) then (if decide (n = S n0) then v else 0) else at_ mem root H n idx.
Proof. intros. case_decide; [by apply plug_at_below|by apply plug_at_other]. Qed.

Lemma plug_wf_node n idx : (n < H)%nat → in_range H idx → at_ mem' root H n idx ≠ 0 →
  ∃ x, mem' !! at_ mem' root H n idx = Some x ∧ node_ok (H - n) x.
Proof.
  intros Hn Hi. rewrite plug_at by (lia || done). case_decide as Hb.
  - case_decide as Hd; [subst n|done]. intros Hv. exists (empty_node k). split; [|apply empty_node_ok].
    apply (pl_new _ _ _ _ _ _ _ Hpl Hv). lia.
  - intros Ha. destruct (decide (at_ mem root H n idx = p)) as [E|E].
    + assert (n = n0) as -> by (apply (at_level mem root H n n0 idx idx0); auto; lia). rewrite E.
      destruct (pl_node _ _ _ _ _ _ _ Hpl) as (x & x' & _ & Hx' & _ & Hok & _). exists x'.
      split; [done|]. by replace (H - n0)%nat with (S k) by lia.
    + rewrite plug_rest by done. by apply Hwf.
Qed.

Lemma plug_wf_own a : is_Some (mem' !! a) → ∃ n idx, (n < H)%nat ∧ in_range H idx ∧ at_ mem' root H n idx = a.
Proof.
  intros [y Hy]. destruct (decide (a = p)) as [->|Hap].
  { exists n0, idx0. split; [done|]. split; [done|]. apply plug_at_other; [lia|done|]. unfold below. lia. }
  destruct (decide (a = 0)) as [->|Ha0]; [by rewrite plug_null in Hy|].
  destruct (decide ((0 < k)%nat ∧ a = v)) as [[Hk ->]|Hv].
  { exists (S n0), idx0. split; [lia|]. split; [done|]. rewrite plug_at_below; [by rewrite decide_True|lia|done|].
    split; [lia|done]. }
  destruct (decide ((0 < k)%nat ∧ a = v0)) as [[Hk ->]|Hv0].
  { by rewrite (pl_freed _ _ _ _ _ _ _ Hpl) in Hy. }
  rewrite (pl_rest _ _ _ _ _ _ _ Hpl) in Hy; [|done|intuition].
  destruct (tw_own _ _ _ Hwf a) as (n & idx & Hn & Hi & E); [by eexists|].
  exists n, idx. split; [done|]. split; [done|]. rewrite plug_at_other; [done|lia|done|].
  intros Hb. rewrite plug_old_below in E by (lia || done). case_decide; [|congruence]. apply Hv0. split; [lia|done].
Qed.

Lemma plug_wf : tree_wf mem' root H.
Proof.
  split.
  - apply plug_null.
  - apply plug_wf_node.
  - intros n a b Hn Ha Hb. rewrite !plug_at by (lia || done).
    destruct (decide (below H n0 idx0 n a)) as [Ba|Ba]; [case_decide as Hd; [subst n|done]|].
    + destruct (decide (below H n0 idx0 (S n0) b)) as [Bb|Bb]; intros Hv E.
      * by rewrite (proj2 Ba), (proj2 Bb).
      * destruct (tw_node _ _ _ Hwf (S n0) b) as (x & Hx & _); [done|done|by rewrite <- E|].
        rewrite <- E, (pl_fresh _ _ _ _ _ _ _ Hpl) in Hx; [done|lia|done].
    + destruct (decide (below H n0 idx0 n b)) as [Bb|Bb]; [case_decide as Hd; [subst n|done]|by apply Hwf].
      intros Hv E. destruct (tw_node _ _ _ Hwf (S n0) a) as (x & Hx & _); [done|done|done|].
      rewrite E, (pl_fresh _ _ _ _ _ _ _ Hpl) in Hx; [done|lia|congruence].
  - intros n idx Hn Hi. rewrite plug_at by done. case_decide; [|by apply Hwf].
    case_decide; [apply Hpl|done].
  - apply plug_wf_own.
Qed.

(** The effect on the items. *)
Lemma plug_items idx : in_range H idx →
  at_ mem' root H H idx =
    if decide (prefix k idx = prefix k idx0) then (if decide (k = 0%nat) then v else 0) else at_ mem root H H idx.
Proof.
  intros Hi. rewrite plug_at by done. unfold below. repeat case_decide; try done; try lia; tauto || intuition lia.
Qed.
End plug.

(** ** Changes of the root *)

Lemma at_zero mem H n idx : mem !! 0 = None → at_ mem 0 H n idx = 0.
Proof. intros H0. eapply (at_null _ _ _ 0); [done|lia|done]. Qed.

Lemma null_tree mem H : tree_wf mem 0 H → mem = ∅.
Proof.
  intros [H0 _ _ _ Hown]. apply map_empty. intros a. destruct (mem !! a) eqn:E; [|done].
  destruct (Hown a) as (n & idx & _ & _ & Ha); [by eexists|]. rewrite at_zero in Ha by done. congruence.
Qed.

Lemma null_tree_wf H : tree_wf ∅ 0 H.
Proof.
  split; try done.
  - intros n idx _ _ E. by rewrite at_zero in E.
  - intros n a b _ _ _ E. by rewrite at_zero in E.
  - intros n idx _ _. by rewrite at_zero.
  - intros a [x Hx]. done.
Qed.

Lemma flat_tree mem v : tree_wf mem v 0 → mem = ∅ ∧ Z.even v = true.
Proof.
  intros [_ _ _ He Hown]. split; [|by apply (He 0%nat 0); [lia|apply in_range_0]].
  apply map_empty. intros a. destruct (mem !! a) eqn:E; [|done].
  destruct (Hown a) as (n & idx & ? & _); [by eexists|lia].
Qed.

Lemma flat_tree_wf v : Z.even v = true → tree_wf ∅ v 0.
Proof.
  intros He. split; try done; try lia.
  - intros n idx Hn _. by destruct n; [|lia].
  - intros a [x Hx]. done.
Qed.

Lemma root_node mem root H :
  tree_wf mem root H → (0 < H)%nat → root ≠ 0 → ∃ x, mem !! root = Some x ∧ node_ok H x.
Proof.
  intros Hwf HH Hr. destruct (tw_node _ _ _ Hwf 0 0 HH (in_range_0 _) Hr) as (x & Hx & Hok).
  exists x. by rewrite Nat.sub_0_r in Hok.
Qed.

(** A new root node above an existing tree, or alone. *)
Definition root_over (H : nat) (root : Z) : rnode :=
  mk_rnode (Z.of_nat (S H)) (if root =? 0 then 0 else 1) (if root =? 0 then ∅ else {[0 := root]}).

Lemma get_root_over H root i : get_slot (root_over H root) i = if decide (i = 0) then root else 0.
Proof.
  unfold get_slot, root_over. simpl. destruct (Z.eqb_spec root 0) as [->|].
  - rewrite lookup_empty. simpl. by case_decide.
  - case_decide; [subst; by rewrite lookup_singleton_eq|by rewrite lookup_singleton_ne].
Qed.

Lemma root_over_ok H root : node_ok (S H) (root_over H root).
Proof.
  split; simpl; [done|destruct (Z.eqb_spec root 0); [done|by rewrite map_size_singleton]|].
  intros i v. destruct (Z.eqb_spec root 0); [done|]. rewrite lookup_singleton_Some. intros [<- <-]. lia.
Qed.

Section raise.
Context (mem : gmap Z rnode) (root a : Z) (H : nat).
Context (Hwf : tree_wf mem root H) (Ha : mem !! a = None) (Ha0 : a ≠ 0) (Hae : Z.even a = true).

Abbreviation mem' := (<[a := root_over H root]> mem).

Lemma raise_at n idx : (n ≤ H)%nat → in_range (S H) idx →
  at_ mem' a (S H) (S n) idx = if decide (prefix H idx = 0) then at_ mem root H n idx else 0.
Proof.
  intros Hn Hi. induction n as [|n IH].
  - cbn [at_]. rewrite (slot_of_node _ _ (root_over H root)) by apply lookup_insert_eq.
    rewrite get_root_over. replace (S H - 1)%nat with H by lia. by rewrite (in_range_top _ _ Hi).
  - change (at_ mem' a (S H) (S (S n)) idx) with (slot_of mem' (at_ mem' a (S H) (S n) idx) (digit (S H - S (S n)) idx)).
    rewrite IH by lia. assert (mem' !! 0 = None) as H0' by (rewrite lookup_insert_ne by done; apply Hwf).
    case_decide as E; [|by apply slot_of_null]. simpl.
    destruct (decide (at_ mem root H n idx = 0)) as [E0|E0]; [rewrite E0, !slot_of_null; auto; apply Hwf|].
    unfold slot_of. rewrite lookup_insert_ne; [done|]. intros Ea.
    destruct (tw_node _ _ _ Hwf n idx) as (x & Hx & _); [lia| |done|congruence].
    apply prefix_in_range; [apply Hi|done].
Qed.

Lemma raise_wf : tree_wf mem' a (S H).
Proof.
  assert (H0' : mem' !! 0 = None) by (rewrite lookup_insert_ne by done; apply Hwf).
  assert (Hr : ∀ idx, in_range (S H) idx → prefix H idx = 0 → in_range H idx)
    by (intros idx [? ?]; by apply prefix_in_range).
  assert (Hat : ∀ n idx, (n < H)%nat → in_range H idx → at_ mem root H n idx ≠ 0 → at_ mem root H n idx ≠ a).
  { intros n idx Hn Hi E Ea. destruct (tw_node _ _ _ Hwf n idx) as (x & Hx & _); [done..|congruence]. }
  split; [done| | | |].
  - intros [|n] idx Hn Hi.
    + intros _. exists (root_over H root). split; [apply lookup_insert_eq|apply root_over_ok].
    + rewrite raise_at by (lia || done). case_decide as E; [|done]. intros Hne. replace (S H - S n)%nat with (H - n)%nat by lia.
      rewrite lookup_insert_ne by (apply not_eq_sym, Hat; [lia|auto|done]). apply Hwf; [lia|auto|done].
  - intros [|n] b c Hn Hb Hc.
    + intros _ _. rewrite Nat.sub_0_r. transitivity 0; [|symmetry]; apply prefix_in_range; (apply Hb || apply Hc || done).
    + rewrite !raise_at by (lia || done). case_decide as Eb; [|done]. case_decide as Ec; [|done].
      intros Hne E. replace (S H - S n)%nat with (H - n)%nat by lia. apply (tw_inj _ _ _ Hwf); auto; lia.
  - intros [|n] idx Hn Hi; [done|]. rewrite raise_at by (lia || done). case_decide; [|done].
    apply Hwf; [lia|auto].
  - intros b [x Hx]. apply lookup_insert_Some in Hx as [[<- _]|[Hne Hx]].
    + exists 0%nat, 0. split; [lia|]. split; [apply in_range_0|done].
    + destruct (tw_own _ _ _ Hwf b) as (n & idx & Hn & Hi & E); [by eexists|]. exists (S n), idx.
      split; [lia|]. split; [by apply in_range_mono|]. rewrite raise_at; [|lia|by apply in_range_mono].
      rewrite decide_True; [done|]. apply prefix_in_range; [apply Hi|done].
Qed.
End raise.

(** Removing a root node whose only child is in slot 0. *)
Section lower.
Context (mem : gmap Z rnode) (root c : Z) (H : nat) (x : rnode).
Context (Hwf : tree_wf mem root (S H)) (Hr : root ≠ 0) (Hx : mem !! root = Some x).
Context (Hs : ∀ i, get_slot x i = if decide (i = 0) then c else 0).

Abbreviation mem' := (delete root mem).

Lemma lower_old n idx : (n ≤ H)%nat → in_range (S H) idx → prefix H idx ≠ 0 → at_ mem root (S H) (S n) idx = 0.
Proof.
  intros Hn Hi E. eapply (at_null _ _ _ 1); [apply Hwf|lia|]. simpl. rewrite (slot_of_node _ _ _ _ Hx), Hs.
  replace (H - 0)%nat with H by lia. by rewrite (in_range_top _ _ Hi), decide_False.
Qed.

Lemma lower_at n idx : (n ≤ H)%nat → in_range H idx → at_ mem' c H n idx = at_ mem root (S H) (S n) idx.
Proof.
  intros Hn Hi. pose proof (in_range_mono _ _ Hi) as Hi'. induction n as [|n IH].
  - simpl. rewrite (slot_of_node _ _ _ _ Hx), Hs. replace (H - 0)%nat with H by lia.
    rewrite (in_range_top _ _ Hi'). rewrite decide_True; [done|]. apply prefix_in_range; [apply Hi|done].
  - cbn [at_]. cbn [at_] in IH. rewrite IH by lia. fold (at_ mem root (S H) (S n) idx).
    change (slot_of mem (at_ mem root (S H) n idx) (digit (S H - S n) idx)) with (at_ mem root (S H) (S n) idx).
    replace (S H - S (S n))%nat with (H - S n)%nat by lia.
    destruct (decide (at_ mem root (S H) (S n) idx = root)) as [E|E].
    + assert (S n = 0)%nat; [|lia]. apply (at_level mem root (S H) (S n) 0 idx 0); auto using in_range_0; lia || congruence.
    + unfold slot_of. by rewrite lookup_delete_ne.
Qed.

Lemma lower_wf : tree_wf mem' c H.
Proof.
  split.
  - rewrite lookup_delete_ne by done. apply Hwf.
  - intros n idx Hn Hi. rewrite lower_at by (lia || done). intros Hne.
    pose proof (in_range_mono _ _ Hi) as Hi'. rewrite lookup_delete_ne.
    + replace (H - n)%nat with (S H - S n)%nat by lia. apply Hwf; [lia|done|done].
    + intros E. assert (S n = 0)%nat; [|lia].
      apply (at_level mem root (S H) (S n) 0 idx 0); auto using in_range_0; lia.
  - intros n a b Hn Ha Hb. rewrite !lower_at by (lia || done). replace (H - n)%nat with (S H - S n)%nat by lia.
    intros ? ?. apply (tw_inj _ _ _ Hwf); auto using in_range_mono. lia.
  - intros n idx Hn Hi. rewrite lower_at by done. apply Hwf; [lia|by apply in_range_mono].
  - intros a [y Hy]. apply lookup_delete_Some in Hy as [Hne Hy].
    destruct (tw_own _ _ _ Hwf a) as (n & idx & Hn & Hi & E); [by eexists|].
    destruct n as [|n]; [by simpl in E|]. exists n, idx.
    assert (a ≠ 0) by (intros ->; by rewrite (tw_null _ _ _ Hwf) in Hy).
    assert (prefix H idx = 0) as E0.
    { destruct (decide (prefix H idx = 0)) as [|E0]; [done|]. rewrite lower_old in E by (lia || done). congruence. }
    assert (in_range H idx) by (apply prefix_in_range; [apply Hi|done]).
    split; [lia|]. split; [done|]. rewrite lower_at by (lia || done). done.
Qed.
End lower.
