(* ===== verification/RadixTreeOps.v ===== *)
(** * Look-up and insertion (xen/common/radix-tree.c)

    [rep r m]: tree [r] is well formed and represents the finite map [m] from
    indices to items. *)

From S2P Require Import Prelude RadixTree RadixTreeInv.
Local Open Scope xen_scope.

(** ** Tagged pointers *)

Lemma is_indirect_odd p : radix_tree_is_indirect_ptr p = Z.odd p.
Proof.
  unfold radix_tree_is_indirect_ptr, RADIX_TREE_INDIRECT_PTR. change 1 with (Z.ones 1).
  rewrite Z.land_ones, Zmod_odd by lia. by destruct (Z.odd p).
Qed.

Lemma untag_even p : Z.even p = true → indirect_to_ptr p = p.
Proof.
  intros He. unfold indirect_to_ptr, RADIX_TREE_INDIRECT_PTR. change 1 with (Z.ones 1).
  rewrite Z.ldiff_ones_r, Z.shiftl_mul_pow2, Z.shiftr_div_pow2 by lia.
  apply Z.even_spec in He as [q ->]. change (2 ^ 1) with 2. rewrite (Z.mul_comm 2 q), Z.div_mul by lia. done.
Qed.

Lemma tag_even p : Z.even p = true → ptr_to_indirect p = p + 1.
Proof. intros [q ->]%Z.even_spec. unfold ptr_to_indirect, RADIX_TREE_INDIRECT_PTR. destruct q as [|[]|[]]; done. Qed.

Lemma untag_tag p : Z.even p = true → indirect_to_ptr (ptr_to_indirect p) = p.
Proof.
  intros He. rewrite tag_even by done. unfold indirect_to_ptr, RADIX_TREE_INDIRECT_PTR. change 1 with (Z.ones 1) at 2.
  rewrite Z.ldiff_ones_r, Z.shiftl_mul_pow2, Z.shiftr_div_pow2 by lia.
  apply Z.even_spec in He as [q ->]. change (2 ^ 1) with 2. rewrite (Z.mul_comm 2 q), Z.div_add_l by lia. change (1 / 2) with 0. lia.
Qed.

Lemma tag_odd p : Z.even p = true → Z.odd (ptr_to_indirect p) = true.
Proof. intros He. rewrite tag_even, Z.odd_add by done. by rewrite <- Z.negb_even, He. Qed.

Lemma untag_null p : Z.odd p = true → p ≠ 0.
Proof. by intros H ->. Qed.

(** ** Representation *)

Definition root (r : radix) : Z := indirect_to_ptr (rt_rnode r).
Definition hgt (r : radix) : nat := Z.to_nat (rt_height r).

(** The pointer on the way to [idx] after [n] steps. *)
Definition at_r (r : radix) (n : nat) (idx : Z) : Z := at_ (rt_mem r) (root r) (hgt r) n idx.

Definition nonnull (v : Z) : option Z := if v =? 0 then None else Some v.

Definition item (r : radix) (idx : Z) : Z :=
  if decide (idx < span (hgt r)) then at_r r (hgt r) idx else 0.

Record rep (r : radix) (m : gmap Z Z) : Prop := {
  rp_height : 0 ≤ rt_height r ≤ 11;
  rp_tag : rt_rnode r ≠ 0 → Z.odd (rt_rnode r) = (0 <? rt_height r);
  rp_null : root r = 0 → rt_rnode r = 0;
  rp_wf : tree_wf (rt_mem r) (root r) (hgt r);
  rp_map idx : 0 ≤ idx → m !! idx = nonnull (item r idx);
  rp_keys idx : is_Some (m !! idx) → 0 ≤ idx < 2 ^ 64;
}.

Lemma maxindex_spec h idx :
  0 ≤ h ≤ 11 → 0 ≤ idx < 2 ^ 64 →
  ∃ m, radix_tree_maxindex h = Ok m ∧ (m <? idx) = negb (bool_decide (idx < span (Z.to_nat h))).
Proof.
  intros Hh Hi. exists (Z.min (span (Z.to_nat h)) (2 ^ 64) - 1). split.
  - assert (h = 0 ∨ h = 1 ∨ h = 2 ∨ h = 3 ∨ h = 4 ∨ h = 5 ∨ h = 6 ∨ h = 7 ∨ h = 8 ∨ h = 9 ∨ h = 10 ∨ h = 11)
      as E by lia. repeat (destruct E as [->|E]; [reflexivity|]). by subst.
  - case_bool_decide; case_Z; simpl; lia || done.
Qed.

Lemma rep_even r m n idx : rep r m → (n ≤ hgt r)%nat → in_range (hgt r) idx → Z.even (at_r r n idx) = true.
Proof. intros Hr Hn Hi. by apply (rp_wf _ _ Hr). Qed.

Lemma root_null r m : rep r m → (rt_rnode r =? 0) = (root r =? 0).
Proof.
  intros Hr. pose proof (rp_null _ _ Hr). destruct (Z.eqb_spec (rt_rnode r) 0) as [E|E].
  - unfold root. by rewrite E.
  - symmetry. apply Z.eqb_neq. tauto.
Qed.

Lemma root_indirect r m : rep r m → rt_rnode r ≠ 0 →
  radix_tree_is_indirect_ptr (rt_rnode r) = bool_decide (0 < hgt r)%nat.
Proof.
  intros Hr Hn. rewrite is_indirect_odd, (rp_tag _ _ Hr Hn). unfold hgt. pose proof (rp_height _ _ Hr).
  case_bool_decide; case_Z; lia || done.
Qed.

Lemma root_direct r m : rep r m → rt_height r = 0 → root r = rt_rnode r.
Proof.
  intros Hr Hh. unfold root. destruct (decide (rt_rnode r = 0)) as [E|E]; [by rewrite E|].
  apply untag_even. rewrite <- Z.negb_odd, (rp_tag _ _ Hr E), Hh. done.
Qed.

Lemma rep_node r m n idx :
  rep r m → (n < hgt r)%nat → in_range (hgt r) idx → at_r r n idx ≠ 0 →
  ∃ x, rt_mem r !! at_r r n idx = Some x ∧ node_ok (hgt r - n) x ∧
       get_slot x (digit (hgt r - S n) idx) = at_r r (S n) idx.
Proof.
  intros Hr Hn Hi Ha. destruct (tw_node _ _ _ (rp_wf _ _ Hr) n idx Hn Hi Ha) as (x & Hx & Hok).
  exists x. split; [done|]. split; [done|]. unfold at_r. simpl. symmetry. by apply slot_of_node.
Qed.

(** ** Look-up *)

(** The slot of [idx], whether or not it is reached. *)
Definition slot_ref (r : radix) (idx : Z) : slotref :=
  match hgt r with O => RootSlot | S h => NodeSlot (at_r r h idx) (digit 0 idx) end.

Lemma shift_next n : (0 < n)%nat → u32 (6 * Z.of_nat n - RADIX_TREE_MAP_SHIFT) = 6 * Z.of_nat (n - 1) ∨ (11 < n)%nat.
Proof.
  intros Hn. destruct (decide (11 < n)%nat); [by right|left]. unfold RADIX_TREE_MAP_SHIFT.
  rewrite u32_small by lia. lia.
Qed.

Lemma shift_top h : 1 ≤ h ≤ 11 → u32 ((h - 1) * RADIX_TREE_MAP_SHIFT) = 6 * Z.of_nat (Z.to_nat h - 1).
Proof. intros Hh. unfold RADIX_TREE_MAP_SHIFT. rewrite u32_small by lia. lia. Qed.

Lemma hgt_bound r m : rep r m → (hgt r ≤ 11)%nat ∧ rt_height r = Z.of_nat (hgt r).
Proof. intros Hr. pose proof (rp_height _ _ Hr). unfold hgt. lia. Qed.

Lemma lookup_loop_spec r m n idx :
  rep r m → (S n ≤ hgt r)%nat → in_range (hgt r) idx → at_r r (hgt r - S n) idx ≠ 0 →
  lookup_loop (S n) idx (at_r r (hgt r - S n) idx) (6 * Z.of_nat n) r =
    Ok (if at_r r (hgt r) idx =? 0 then None else Some (slot_ref r idx, at_r r (hgt r) idx)).
Proof.
  intros Hr Hn Hi. destruct (hgt_bound _ _ Hr) as [H11 _]. induction n as [|n IH]; intros Ha.
  - destruct (rep_node r m (hgt r - 1) idx Hr ltac:(lia) Hi Ha) as (x & Hx & Hok & Hs).
    replace (hgt r - S (hgt r - 1))%nat with 0%nat in Hs by lia.
    replace (S (hgt r - 1)) with (hgt r) in Hs by lia.
    cbn [lookup_loop]. rewrite Hx. simpl. fold (digit 0 idx). rewrite Hs. unfold slot_ref.
    destruct (hgt r) as [|h] eqn:E; [lia|]. replace (S h - 1)%nat with h by lia.
    by destruct (at_r r (S h) idx =? 0).
  - destruct (rep_node r m (hgt r - S (S n)) idx Hr ltac:(lia) Hi Ha) as (x & Hx & Hok & Hs).
    replace (hgt r - S (hgt r - S (S n)))%nat with (S n) in Hs by lia.
    replace (S (hgt r - S (S n))) with (hgt r - S n)%nat in Hs by lia.
    cbn [lookup_loop]. rewrite Hx. cbn [deref]. fold (digit (S n) idx). rewrite Hs.
    destruct (Z.eqb_spec (at_r r (hgt r - S n) idx) 0) as [E|E].
    + assert (at_r r (hgt r) idx = 0) as ->; [|done]. eapply (at_null _ _ _ (hgt r - S n)); [apply Hr|lia|done].
    + destruct (shift_next (S n)) as [->|]; [lia| |lia]. replace (S n - 1)%nat with n by lia. apply IH; [lia|done].
Qed.

Lemma item_in r idx : 0 ≤ idx → idx < span (hgt r) → in_range (hgt r) idx.
Proof. by split. Qed.

Lemma lookup_element_spec r m idx :
  rep r m → 0 ≤ idx < 2 ^ 64 →
  radix_tree_lookup_element r idx = Ok (match m !! idx with Some v => Some (slot_ref r idx, v) | None => None end).
Proof.
  intros Hr Hi. rewrite (rp_map _ _ Hr) by lia. unfold radix_tree_lookup_element, item.
  rewrite (root_null _ _ Hr). pose proof (tw_null _ _ _ (rp_wf _ _ Hr)) as H0.
  destruct (Z.eqb_spec (root r) 0) as [E|E].
  { case_decide; [|done]. unfold at_r. by rewrite E, at_zero. }
  assert (rt_rnode r ≠ 0) as Hn by (intros E'; apply E; unfold root; by rewrite E').
  rewrite (root_indirect _ _ Hr Hn). destruct (hgt_bound _ _ Hr) as [H11 Hh].
  case_bool_decide as HH; cbn [negb].
  - fold (root r). destruct (root_node _ _ _ (rp_wf _ _ Hr) HH E) as (x & Hx & [Hxh _ _]).
    rewrite Hx. cbn [deref]. rewrite Hxh.
    destruct (maxindex_spec (Z.of_nat (hgt r)) idx) as (mi & -> & Hmi); [lia|done|]. cbn [mbind outcome_bind].
    rewrite Hmi, Nat2Z.id. destruct (decide (idx < span (hgt r))) as [Hs|Hs]; [rewrite bool_decide_eq_true_2 by done|by rewrite bool_decide_eq_false_2].
    cbn [negb].
    destruct (hgt r) as [|h] eqn:Eh; [lia|]. rewrite shift_top, Nat2Z.id by lia. replace (S h - 1)%nat with h by lia.
    pose proof (lookup_loop_spec r m h idx Hr) as Hl. rewrite Eh in Hl. replace (S h - S h)%nat with 0%nat in Hl by lia.
    change (at_r r 0 idx) with (root r) in Hl. assert (in_range (S h) idx) as Hir by (split; [lia|done]).
    rewrite Hl by done. simpl. unfold nonnull. case_match; [done|]. do 3 f_equal.
    apply untag_even. rewrite <- Eh. apply (rep_even r m); [done|lia|by rewrite Eh].
  - assert (hgt r = 0)%nat as E0 by lia. unfold slot_ref. rewrite E0. change (span 0) with 1.
    assert (rt_height r = 0) as Hh0 by lia. unfold at_r. simpl. rewrite (root_direct _ _ Hr Hh0).
    unfold nonnull. destruct (Z.eqb_spec (rt_rnode r) 0); [done|]. case_Z; case_decide; try done; lia.
Qed.

Lemma radix_tree_lookup_spec r m idx :
  rep r m → 0 ≤ idx < 2 ^ 64 → radix_tree_lookup r idx = Ok (default 0 (m !! idx)).
Proof.
  intros Hr Hi. unfold radix_tree_lookup. rewrite (lookup_element_spec _ _ _ Hr Hi). simpl. by destruct (m !! idx).
Qed.

(** ** Changes of the representation *)

(** The map after a child at height [k] on the way to [idx0] became [v]. *)
Definition plug_map (k : nat) (idx0 v : Z) (m : gmap Z Z) : gmap Z Z :=
  if decide (k = 0%nat) then partial_alter (λ _, nonnull v) idx0 m else m.

Lemma rep_plug r r' m n0 idx0 v0 v :
  rep r m → (n0 < hgt r)%nat → in_range (hgt r) idx0 → idx0 < 2 ^ 64 → at_r r n0 idx0 ≠ 0 →
  plugged (rt_mem r) (rt_mem r') (hgt r - S n0) (at_r r n0 idx0) (digit (hgt r - S n0) idx0) v0 v →
  rt_height r' = rt_height r → rt_rnode r' = rt_rnode r →
  rep r' (plug_map (hgt r - S n0) idx0 v m).
Proof.
  intros Hr Hn Hi Hi64 Hp Hpl Hh Hrn. pose proof Hr as [R1 R2 R3 R4 R5 R6].
  assert (root r' = root r) as Eroot by (unfold root; by rewrite Hrn).
  assert (hgt r' = hgt r) as Ehgt by (unfold hgt; by rewrite Hh).
  pose proof (plug_wf _ _ _ _ _ _ _ _ R4 Hn Hi Hp Hpl) as Hwf'.
  split; rewrite ?Hh, ?Hrn, ?Eroot, ?Ehgt; auto.
  - intros idx Hidx. unfold item, at_r. rewrite Eroot, Ehgt. case_decide as Hs.
    + assert (in_range (hgt r) idx) as Hir by (split; [lia|done]).
      rewrite (plug_items _ _ _ _ _ _ _ _ R4 Hn Hi Hp Hpl) by done. unfold plug_map.
      destruct (decide (hgt r - S n0 = 0)%nat) as [Ek|Ek].
      * rewrite Ek, !prefix_0. rewrite lookup_partial_alter. case_decide as E1; case_decide as E2; try congruence.
        rewrite (R5 _ Hidx). unfold item, at_r. by rewrite decide_True.
      * rewrite (R5 _ Hidx). unfold item, at_r. rewrite decide_True by done. case_decide as E1; [|done].
        f_equal. rewrite (plug_old_below _ _ _ _ _ _ _ _ R4 Hn Hpl); [|done|done|split; [lia|done]].
        rewrite decide_False; [done|lia].
    + unfold plug_map. assert (idx ≠ idx0) by (destruct Hi; intros ->; lia).
      case_decide; rewrite ?lookup_partial_alter_ne by done; rewrite (R5 _ Hidx); unfold item; by rewrite decide_False.
  - intros idx. unfold plug_map. case_decide; [|apply R6]. rewrite lookup_partial_alter. case_decide; [|apply R6].
    subst. destruct Hi. lia.
Qed.

Lemma nonnull_ne v : v ≠ 0 → nonnull v = Some v.
Proof. unfold nonnull. intros Hv%Z.eqb_neq. by rewrite Hv. Qed.

Lemma node_ok_size h x : node_ok h x → (size (n_slots x) ≤ 64)%nat.
Proof.
  intros [_ _ Hs]. rewrite <- size_dom. transitivity (size (list_to_set (seqZ 0 64) : gset Z)).
  - apply subseteq_size. intros i [v Hv]%elem_of_dom. apply elem_of_list_to_set, elem_of_seqZ.
    destruct (Hs i v Hv). lia.
  - etransitivity; [apply size_list_to_set_le|]. by rewrite length_seqZ.
Qed.

Lemma get_set_slot i j v x : get_slot (set_slot i v x) j = if decide (j = i) then v else get_slot x j.
Proof.
  unfold get_slot, set_slot. simpl. destruct (Z.eqb_spec v 0) as [->|Hv].
  - destruct (decide (j = i)) as [->|]; [by rewrite lookup_delete_eq|by rewrite lookup_delete_ne].
  - destruct (decide (j = i)) as [->|]; [by rewrite lookup_insert_eq|by rewrite lookup_insert_ne].
Qed.

(** Filling an empty slot, and emptying a full one, with the count kept. *)
Lemma fill_slot_ok h x i v :
  node_ok h x → get_slot x i = 0 → 0 ≤ i < 64 → v ≠ 0 →
  node_ok h (set_count (n_count x + 1) (set_slot i v x)).
Proof.
  intros Hok Hg Hi Hv. pose proof (node_ok_size _ _ Hok) as Hsz. pose proof Hok as [H1 H2 H3].
  assert (n_slots x !! i = None) as Hn.
  { unfold get_slot in Hg. destruct (n_slots x !! i) as [w|] eqn:E; [|done]. simpl in Hg. subst.
    by destruct (H3 i 0 E). }
  apply Z.eqb_neq in Hv as Hv'. split; unfold set_slot, set_count; simpl; rewrite ?Hv'; [done| |].
  - rewrite u32_small, map_size_insert_None by (lia || done). lia.
  - intros j w. rewrite lookup_insert_Some. intros [[<- <-]|[_ ?]]; [done|eauto].
Qed.

Lemma clear_slot_ok h x i :
  node_ok h x → get_slot x i ≠ 0 → node_ok h (set_count (n_count x - 1) (set_slot i 0 x)).
Proof.
  intros Hok Hg. pose proof (node_ok_size _ _ Hok) as Hsz. pose proof Hok as [H1 H2 H3].
  assert (is_Some (n_slots x !! i)) as Hn.
  { unfold get_slot in Hg. destruct (n_slots x !! i) as [w|] eqn:E; [by eexists|done]. }
  assert (size (n_slots x) ≠ 0)%nat.
  { intros E%map_size_empty_inv. rewrite E in Hn. by destruct Hn. }
  split; unfold set_slot, set_count; simpl; [done| |].
  - rewrite u32_small, map_size_delete_Some by (lia || done). lia.
  - intros j w [_ ?]%lookup_delete_Some. eauto.
Qed.

(** ** Allocation *)

(** The nodes the callback will give are new, distinct and aligned. *)
Definition allocs_ok (r : radix) : Prop :=
  NoDup (filter (λ a, a ≠ 0) (rt_allocs r)) ∧
  ∀ a, a ∈ rt_allocs r → a ≠ 0 → Z.even a = true ∧ rt_mem r !! a = None.

(** At least [k] allocations will succeed. *)
Definition plenty (k : nat) (r : radix) : Prop := (k ≤ length (rt_allocs r))%nat ∧ 0 ∉ rt_allocs r.

(** Only the memory and the allocations differ. *)
Definition same_root (r r' : radix) : Prop :=
  rt_height r' = rt_height r ∧ rt_rnode r' = rt_rnode r ∧ rt_freed r' = rt_freed r.

Lemma node_alloc_spec r :
  allocs_ok r →
  let '(a, r') := radix_tree_node_alloc r in
  same_root r r' ∧
  (∀ k, plenty (S k) r → a ≠ 0 ∧ plenty k r') ∧
  (a = 0 ∧ rt_mem r' = rt_mem r ∧ allocs_ok r' ∨
   a ≠ 0 ∧ Z.even a = true ∧ rt_mem r !! a = None ∧ rt_mem r' = <[a := mk_rnode 0 0 ∅]> (rt_mem r) ∧
   (∀ r'', rt_allocs r'' = rt_allocs r' → (∀ b, b ≠ a → rt_mem r !! b = None → rt_mem r'' !! b = None) → allocs_ok r'')).
Proof.
  intros [Hnd Hok]. unfold radix_tree_node_alloc. destruct (rt_allocs r) as [|a l] eqn:El.
  { split; [done|]. split; [intros k [Hk _]; rewrite El in Hk; simpl in Hk; lia|]. left.
    split; [done|]. split; [done|]. unfold allocs_ok. by rewrite El. }
  destruct (Z.eqb_spec a 0) as [->|Ha].
  - split; [done|]. split; [intros k [_ Hk]; rewrite El in Hk; set_solver|]. left. split; [done|]. split; [done|].
    rewrite filter_cons_False in Hnd by naive_solver. split; simpl; [done|]. intros b Hb. apply Hok. by right.
  - split; [done|]. split.
    { intros k [Hk1 Hk2]. rewrite El in Hk1, Hk2. split; [done|]. split; simpl in *; [lia|set_solver]. }
    right. destruct (Hok a) as [He Hm]; [by left|done|]. split; [done|]. split; [done|]. split; [done|]. split; [done|].
    rewrite filter_cons_True in Hnd by done. apply NoDup_cons in Hnd as [Hnin Hnd].
    intros r'' Er Hmem. split; rewrite Er; simpl; [done|]. intros b Hb Hb0. destruct (Hok b) as [? ?]; [by right|done|].
    split; [done|]. apply Hmem; [|done]. intros ->. apply Hnin, list_elem_of_filter. done.
Qed.

(** ** Extension *)

Lemma rep_null_height r m h :
  rep r m → rt_rnode r = 0 → 0 ≤ h ≤ 11 → rep (upd_height h r) m.
Proof.
  intros Hr Hn Hh. pose proof Hr as [R1 R2 R3 R4 R5 R6].
  assert (root r = 0) as E0 by (unfold root; by rewrite Hn).
  rewrite E0 in R4. pose proof (null_tree _ _ R4) as Em.
  assert (∀ r', rt_mem r' = ∅ → root r' = 0 → ∀ idx, item r' idx = 0) as Hit.
  { intros r' E1 E2 idx. unfold item, at_r. rewrite E1, E2. case_decide; [|done]. by apply at_zero. }
  split; simpl; auto; [done|..].
  - change (root (upd_height h r)) with (root r). rewrite E0, Em. apply null_tree_wf.
  - intros idx Hi. rewrite R5 by lia. by rewrite !Hit.
Qed.

(** A node [a] with the old root in slot 0 becomes the root. *)
Lemma rep_raise r r' m a :
  rep r m → a ≠ 0 → Z.even a = true → rt_mem r !! a = None → (hgt r < 11)%nat →
  rt_mem r' = <[a := root_over (hgt r) (root r)]> (rt_mem r) → rt_height r' = rt_height r + 1 →
  rt_rnode r' = ptr_to_indirect a → rep r' m.
Proof.
  intros Hr Ha Hae Hm HH Em Eh Er. pose proof Hr as [R1 R2 R3 R4 R5 R6].
  assert (root r' = a) as Eroot by (unfold root; rewrite Er; by apply untag_tag).
  assert (hgt r' = S (hgt r)) as Ehgt by (unfold hgt; lia).
  pose proof (raise_wf _ _ _ _ R4 Hm Ha Hae) as Hwf'.
  split; rewrite ?Eroot, ?Ehgt, ?Em; auto.
  - unfold hgt in HH. lia.
  - intros _. rewrite Er, tag_odd by done. symmetry. apply Z.ltb_lt. lia.
  - intros E. congruence.
  - intros idx Hi. rewrite R5 by lia. unfold item, at_r. rewrite Eroot, Ehgt, Em, span_S.
    pose proof (span_pos (hgt r)). assert (Hp := prefix_in_range (hgt r) idx ltac:(lia)). unfold in_range in Hp.
    destruct (decide (idx < span (hgt r) * 64)) as [Hs|Hs].
    + rewrite (raise_at _ _ _ _ R4 Hm Ha) by (lia || (unfold in_range; rewrite span_S; lia)).
      destruct (decide (prefix (hgt r) idx = 0)) as [E|E]; destruct (decide (idx < span (hgt r))); tauto || lia.
    + rewrite decide_False by lia. done.
Qed.

Lemma fit_height_spec fuel h idx :
  0 ≤ h ≤ 11 → 0 ≤ idx < 2 ^ 64 → (Z.to_nat (12 - h) ≤ fuel)%nat →
  ∃ h', fit_height fuel h idx = Ok h' ∧ h ≤ h' ≤ 11 ∧ idx < span (Z.to_nat h').
Proof.
  revert h. induction fuel as [|fuel IH]; intros h Hh Hi Hf; [lia|]. cbn [fit_height].
  destruct (maxindex_spec h idx Hh Hi) as (mi & -> & Hmi). cbn [mbind outcome_bind]. rewrite Hmi.
  destruct (decide (idx < span (Z.to_nat h))) as [Hs|Hs].
  - rewrite bool_decide_eq_true_2 by done. simpl. exists h. split; [done|]. split; [lia|done].
  - rewrite bool_decide_eq_false_2 by done. cbn [negb].
    assert (h ≠ 11) by (intros ->; apply Hs; change (span (Z.to_nat 11)) with (2 ^ 66); lia).
    destruct (IH (h + 1)) as (h' & -> & ? & ?); [lia|done|lia|]. exists h'. split; [done|]. split; [lia|done].
Qed.

Lemma extend_loop_spec fuel height r m k :
  rep r m → allocs_ok r → rt_rnode r ≠ 0 → rt_height r < height ≤ 11 → (Z.to_nat (height - rt_height r) ≤ fuel)%nat →
  ∃ err r', extend_loop fuel height r = Ok (err, r') ∧ rep r' m ∧ allocs_ok r' ∧ rt_freed r' = rt_freed r ∧
    (err = 0 ∧ rt_height r' = height ∨ err = - ENOMEM) ∧
    (plenty (Z.to_nat (height - rt_height r) + k) r → err = 0 ∧ plenty k r').
Proof.
  revert r. induction fuel as [|fuel IH]; intros r Hr Hal Hn Hh Hf; [lia|]. cbn [extend_loop].
  pose proof (rp_height _ _ Hr) as Hh0. pose proof (node_alloc_spec r Hal) as Ha.
  destruct (radix_tree_node_alloc r) as [a r1].
  destruct Ha as ((Eh1 & Er1 & Ef1) & Hpl & [(-> & Em & Hal1)|(Ha & Hae & Hfresh & Em & Hal1)]).
  - exists (- ENOMEM), r1. split; [done|]. repeat split_and; auto.
    + destruct Hr as [R1 R2 R3 R4 R5 R6]. unfold item, at_r, root, hgt in *.
      split; unfold item, at_r, root, hgt; rewrite ?Eh1, ?Er1, ?Em; auto.
    + intros Hp. destruct (Hpl (Z.to_nat (height - rt_height r) + k - 1)%nat) as [? _]; [|done].
      by replace (S (Z.to_nat (height - rt_height r) + k - 1)) with (Z.to_nat (height - rt_height r) + k)%nat by lia.
  - apply Z.eqb_neq in Ha as Ha'. rewrite Ha'. unfold upd_node. rewrite Em, lookup_insert_eq. cbn [deref mbind outcome_bind].
    set (r3 := upd_height _ _).
    assert (rt_height r3 = rt_height r + 1) as Eh3 by (unfold r3; simpl; rewrite u32_small; lia).
    assert (rep r3 m) as Hr3.
    { apply (rep_raise r r3 m a); [done|done|done|done|unfold hgt; lia| |done|done].
      unfold r3. simpl. rewrite insert_insert_eq. f_equal. unfold root_over, set_count, set_height, set_slot. simpl. rewrite Er1. fold (root r).
      pose proof (root_null _ _ Hr) as En. apply Z.eqb_neq in Hn as Hn'. rewrite Hn' in En.
      rewrite <- En, Eh1. f_equal. unfold hgt. rewrite u32_small by lia. lia. }
    assert (allocs_ok r3) as Hal3.
    { apply Hal1; [done|]. intros b Hb Hbn. unfold r3. simpl. by rewrite !lookup_insert_ne. }
    assert (rt_rnode r3 ≠ 0) as Hn3 by (apply untag_null; by apply tag_odd).
    change (rt_height (upd_height _ _)) with (rt_height r3). fold r3.
    destruct (Z.ltb_spec (rt_height r3) height) as [Hlt|Hge].
    + destruct (IH r3) as (err & r' & -> & ? & ? & Ef & ? & Hpl'); [done|done|done|lia|lia|].
      exists err, r'. split; [done|]. repeat split_and; auto; [by rewrite Ef|].
      intros Hp. apply Hpl'. destruct (Hpl (Z.to_nat (height - rt_height r3) + k)%nat) as [_ Hp3]; [|done].
      by replace (S (Z.to_nat (height - rt_height r3) + k)) with (Z.to_nat (height - rt_height r) + k)%nat by lia.
    + exists 0, r3. split; [done|]. repeat split_and; auto; [left; split; [done|lia]|].
      intros Hp. split; [done|]. destruct (Hpl k) as [_ Hp3]; [|done].
      by replace (S k) with (Z.to_nat (height - rt_height r) + k)%nat by lia.
Qed.

Lemma radix_tree_extend_spec r m idx k :
  rep r m → allocs_ok r → 0 ≤ idx < 2 ^ 64 → ¬ idx < span (hgt r) →
  ∃ err r', radix_tree_extend r idx = Ok (err, r') ∧ rep r' m ∧ allocs_ok r' ∧ rt_freed r' = rt_freed r ∧
    (err = 0 ∧ idx < span (hgt r') ∨ err = - ENOMEM) ∧ (plenty (11 + k) r → err = 0 ∧ plenty k r').
Proof.
  intros Hr Hal Hi Hs. pose proof (rp_height _ _ Hr) as Hh. unfold radix_tree_extend.
  assert (rt_height r ≠ 11) by (intros E; apply Hs; unfold hgt; rewrite E; change (span (Z.to_nat 11)) with (2 ^ 66); lia).
  rewrite u32_small by lia.
  destruct (fit_height_spec 13 (rt_height r + 1) idx) as (h & -> & Hh' & Hsp); [lia|done|lia|]. cbn [mbind outcome_bind].
  destruct (Z.eqb_spec (rt_rnode r) 0) as [E|E].
  - eexists 0, _. split; [done|]. split; [apply rep_null_height; auto; lia|]. repeat split_and; auto.
    intros [Hp1 Hp2]. split; [done|]. split; simpl; [lia|done].
  - destruct (extend_loop_spec 13 h r m (11 - Z.to_nat (h - rt_height r) + k)) as (err & r' & -> & ? & ? & ? & Hres & Hpl); auto; [lia|lia|].
    exists err, r'. split; [done|]. repeat split_and; auto.
    + destruct Hres as [[-> Eh]| ->]; [left|by right]. split; [done|]. unfold hgt. by rewrite Eh.
    + intros Hp. destruct Hpl as [? [? ?]].
      { by replace (Z.to_nat (h - rt_height r) + (11 - Z.to_nat (h - rt_height r) + k))%nat with (11 + k)%nat by lia. }
      split; [done|]. split; [lia|done].
Qed.

(** ** Insertion *)

(** [node] and [offset] name the slot that points to height [n] on the way to
    [idx]; [node] is [NULL] at the root. *)
Definition parent (r : radix) (n : nat) (idx node offset : Z) : Prop :=
  if decide (n = hgt r) then node = 0
  else node ≠ 0 ∧ node = at_r r (hgt r - S n) idx ∧ offset = digit n idx.

(** Linking a fresh node as the root of an empty tree of some height. *)
Lemma rep_first_node r r' m a :
  rep r m → rt_rnode r = 0 → (0 < hgt r)%nat → a ≠ 0 → Z.even a = true →
  rt_mem r' = <[a := empty_node (hgt r)]> (rt_mem r) → rt_height r' = rt_height r →
  rt_rnode r' = ptr_to_indirect a → rep r' m.
Proof.
  intros Hr Hn HH Ha Hae Em Eh Er. pose proof Hr as [R1 R2 R3 R4 R5 R6].
  assert (root r = 0) as E0 by (unfold root; by rewrite Hn). rewrite E0 in R4. pose proof (null_tree _ _ R4) as Emm.
  set (r0 := mk_radix (rt_height r - 1) 0 ∅ (rt_allocs r) (rt_freed r)).
  assert (rep r0 m) as Hr0.
  { pose proof (rep_null_height r m (rt_height r - 1) Hr Hn ltac:(unfold hgt in HH; lia)) as Hr0.
    unfold upd_height in Hr0. by rewrite Hn, Emm in Hr0. }
  assert (hgt r = S (hgt r0)) as Eh0 by (unfold hgt in *; simpl; lia).
  apply (rep_raise r0 r' m a); auto; [unfold hgt in *; simpl; lia| |simpl; lia].
  rewrite Em, Emm, Eh0. unfold root_over, empty_node. done.
Qed.

(** Linking a fresh node below a node. *)
Lemma rep_link_node r r' m n idx node a x :
  rep r m → (n < hgt r)%nat → (0 < n)%nat → in_range (hgt r) idx → idx < 2 ^ 64 →
  node = at_r r (hgt r - S n) idx → node ≠ 0 → rt_mem r !! node = Some x → at_r r (hgt r - n) idx = 0 →
  a ≠ 0 → Z.even a = true → rt_mem r !! a = None →
  rt_mem r' = <[node := set_count (n_count x + 1) (set_slot (digit n idx) a x)]> (<[a := empty_node n]> (rt_mem r)) →
  rt_height r' = rt_height r → rt_rnode r' = rt_rnode r →
  rep r' m ∧ at_r r' (hgt r - n) idx = a ∧ at_r r' (hgt r - S n) idx = node.
Proof.
  intros Hr Hn Hn0 Hi Hi64 -> Hnode Hx Hz Ha Hae Hfresh Em Eh Er.
  destruct (rep_node r m (hgt r - S n) idx Hr ltac:(lia) Hi Hnode) as (x' & Hx' & Hok & Hs).
  assert (x' = x) as -> by congruence.
  replace (hgt r - S (hgt r - S n))%nat with n in Hs by lia. replace (S (hgt r - S n)) with (hgt r - n)%nat in Hs by lia.
  rewrite Hz in Hs. assert (a ≠ at_r r (hgt r - S n) idx) as Hane by congruence.
  replace (hgt r - (hgt r - S n))%nat with (S n) in Hok by lia.
  assert (plugged (rt_mem r) (rt_mem r') (hgt r - S (hgt r - S n)) (at_r r (hgt r - S n) idx)
            (digit (hgt r - S (hgt r - S n)) idx) 0 a) as Hpl.
  { replace (hgt r - S (hgt r - S n))%nat with n by lia. rewrite Em. split.
    - eexists x, _. split; [done|]. split; [apply lookup_insert_eq|]. split; [done|].
      split; [apply fill_slot_ok; auto using digit_range|]. intros i. apply get_set_slot.
    - by intros ?.
    - intros _ _. rewrite lookup_insert_ne, lookup_insert_eq by done. done.
    - done.
    - by intros _ ?.
    - by left.
    - intros b Hb Hb2. rewrite lookup_insert_ne by done. destruct (decide (b = a)) as [->|]; [|by rewrite lookup_insert_ne].
      destruct (Hb2 Hn0 Ha) as [? _]. done.
    - done. }
  assert (hgt r - S n < hgt r)%nat as Hlt by lia.
  pose proof (rep_plug r r' m _ idx 0 a Hr Hlt Hi Hi64 Hnode Hpl Eh Er) as Hr'.
  unfold plug_map in Hr'. rewrite decide_False in Hr' by lia. split; [done|].
  assert (root r' = root r) as Eroot by (unfold root; by rewrite Er).
  assert (hgt r' = hgt r) as Ehgt by (unfold hgt; by rewrite Eh).
  unfold at_r in *. rewrite Eroot, Ehgt. split.
  - rewrite (plug_at _ _ _ _ _ _ _ _ (rp_wf _ _ Hr) Hlt Hi Hnode Hpl) by (lia || done).
    rewrite decide_True by (split; [lia|done]). rewrite decide_True by lia. done.
  - rewrite (plug_at _ _ _ _ _ _ _ _ (rp_wf _ _ Hr) Hlt Hi Hnode Hpl) by (lia || done).
    rewrite decide_False; [done|]. intros [? _]. lia.
Qed.

(** One pass through the loop's body up to the step down. *)
Lemma insert_step r m n idx node offset :
  rep r m → allocs_ok r → (S n ≤ hgt r)%nat → in_range (hgt r) idx → idx < 2 ^ 64 →
  parent r (S n) idx node offset → at_r r (hgt r - S n) idx = 0 →
  let '(a, r1) := radix_tree_node_alloc r in
  (a = 0 ∧ rep r1 m ∧ allocs_ok r1 ∨
   a ≠ 0 ∧ ∃ r2 r3, upd_node a (set_height (Z.of_nat (S n))) r1 = Ok r2 ∧
     (if negb (node =? 0) then upd_node node (λ x, set_count (n_count x + 1) (set_slot offset a x)) r2
      else Ok (upd_rnode (ptr_to_indirect a) r2)) = Ok r3 ∧
     rep r3 m ∧ allocs_ok r3 ∧ hgt r3 = hgt r ∧ at_r r3 (hgt r - S n) idx = a ∧
     rt_freed r3 = rt_freed r ∧ rt_allocs r3 = rt_allocs r1) ∧
  rt_freed r1 = rt_freed r ∧ hgt r1 = hgt r ∧ (∀ k, plenty (S k) r → a ≠ 0 ∧ plenty k r1).
Proof.
  intros Hr Hal Hn Hi Hi64 Hpar Hz. pose proof (node_alloc_spec r Hal) as Ha.
  destruct (radix_tree_node_alloc r) as [a r1].
  destruct Ha as ((Eh1 & Er1 & Ef1) & Hpl & [(-> & Em & Hal1)|(Ha & Hae & Hfresh & Em & Hal1)]);
    (split; [|split; [done|split; [unfold hgt; by rewrite Eh1|done]]]).
  { left. split; [done|]. split; [|done]. destruct Hr as [R1 R2 R3 R4 R5 R6].
    split; unfold item, at_r, root, hgt in *; rewrite ?Eh1, ?Er1, ?Em; auto. }
  right. split; [done|]. unfold upd_node at 1. rewrite Em, lookup_insert_eq. cbn [deref]. rewrite insert_insert_eq.
  change (set_height (Z.of_nat (S n)) (mk_rnode 0 0 ∅)) with (empty_node (S n)).
  set (r2 := upd_mem _ r1). exists r2. unfold parent in Hpar. case_decide as Hd.
  - subst node. exists (upd_rnode (ptr_to_indirect a) r2). split; [done|]. split; [done|].
    assert (rt_rnode r = 0) as En.
    { apply (rp_null _ _ Hr). rewrite Hd in Hz. by rewrite Nat.sub_diag in Hz. }
    split; [apply (rep_first_node r _ m a); auto; [lia|by rewrite <- Hd]|].
    split; [apply Hal1; [done|]; intros b Hb Hbn; simpl; by rewrite lookup_insert_ne|].
    assert (hgt (upd_rnode (ptr_to_indirect a) r2) = hgt r) as Eh by (unfold hgt; simpl; by rewrite Eh1).
    split; [done|]. split; [|done]. unfold at_r. rewrite Hd, Nat.sub_diag. simpl. unfold root. simpl. by apply untag_tag.
  - destruct Hpar as (Hnode & Enode & Eoff). apply Z.eqb_neq in Hnode as Hnode'. rewrite Hnode'. cbn [negb].
    destruct (rep_node r m (hgt r - S (S n)) idx Hr ltac:(lia) Hi) as (x & Hx & _ & _); [by rewrite <- Enode|].
    rewrite <- Enode in Hx. assert (a ≠ node) as Hane by congruence.
    unfold upd_node. change (rt_mem r2) with (<[a := empty_node (S n)]> (rt_mem r)).
    rewrite lookup_insert_ne, Hx by done. cbn [deref]. set (r3 := upd_mem _ r2). exists r3. split; [done|]. split; [done|].
    destruct (rep_link_node r r3 m (S n) idx node a x) as (Hr3 & Hat & _); auto; [lia|lia|by subst offset|].
    split; [done|]. split; [|split; [unfold hgt; simpl; by rewrite Eh1|done]].
    apply Hal1; [done|]. intros b Hb Hbn. unfold r3. simpl. rewrite !lookup_insert_ne; [done|done|congruence].
Qed.

(** Stepping down. *)
Lemma parent_down r m n idx :
  rep r m → (S n ≤ hgt r)%nat → in_range (hgt r) idx → at_r r (hgt r - S n) idx ≠ 0 →
  ∃ x, rt_mem r !! at_r r (hgt r - S n) idx = Some x ∧ get_slot x (digit n idx) = at_r r (hgt r - n) idx ∧
    parent r n idx (at_r r (hgt r - S n) idx) (digit n idx).
Proof.
  intros Hr Hn Hi Ha. destruct (rep_node r m (hgt r - S n) idx Hr ltac:(lia) Hi Ha) as (x & Hx & _ & Hs).
  replace (hgt r - S (hgt r - S n))%nat with n in Hs by lia. replace (S (hgt r - S n)) with (hgt r - n)%nat in Hs by lia.
  exists x. split; [done|]. split; [done|]. unfold parent. rewrite decide_False by lia. done.
Qed.

(** What the loop returns: it links only empty nodes. *)
Record insert_post (m : gmap Z Z) (idx : Z) (n k : nat) (r : radix) (res : Z + Z * Z * Z) (r' : radix) : Prop := {
  ip_rep : rep r' m;
  ip_allocs : allocs_ok r';
  ip_height : hgt r' = hgt r;
  ip_freed : rt_freed r' = rt_freed r;
  ip_res : match res with
           | inl err => err = - ENOMEM
           | inr (node, slot, offset) => slot = at_r r' (hgt r') idx ∧ parent r' 0 idx node offset
           end;
  ip_plenty : plenty (n + k) r → plenty k r' ∧ ∀ err, res ≠ inl err;
}.

Lemma insert_loop_spec n r m idx node offset k :
  rep r m → allocs_ok r → (n ≤ hgt r)%nat → in_range (hgt r) idx → idx < 2 ^ 64 → parent r n idx node offset →
  ∃ res r', insert_loop n idx node (at_r r (hgt r - n) idx) (u32 (6 * (Z.of_nat n - 1))) offset r = Ok (res, r') ∧
    insert_post m idx n k r res r'.
Proof.
  revert r node offset. induction n as [|n IH]; intros r node offset Hr Hal Hn Hi Hi64 Hpar; cbn [insert_loop].
  { eexists (inr _), r. split; [done|]. rewrite Nat.sub_0_r. split; auto. }
  destruct (hgt_bound _ _ Hr) as [H11 _].
  replace (u32 (6 * (Z.of_nat (S n) - 1))) with (6 * Z.of_nat n) by (rewrite u32_small; lia).
  assert (Hdown : ∀ r1, rep r1 m → allocs_ok r1 → hgt r1 = hgt r → rt_freed r1 = rt_freed r →
    (plenty (S n + k) r → plenty (n + k) r1) → at_r r1 (hgt r - S n) idx ≠ 0 →
    ∃ res r', deref (rt_mem r1 !! at_r r1 (hgt r - S n) idx) (λ x,
        insert_loop n idx (at_r r1 (hgt r - S n) idx) (get_slot x (slot_offset idx (6 * Z.of_nat n)))
          (u32 (6 * Z.of_nat n - RADIX_TREE_MAP_SHIFT)) (slot_offset idx (6 * Z.of_nat n)) r1)
      = Ok (res, r') ∧ insert_post m idx (S n) k r res r').
  { intros r1 Hr1 Hal1 Eh Ef Hp1. rewrite <- Eh in Hn, Hi |- *. intros Ha.
    destruct (parent_down r1 m n idx Hr1 Hn Hi Ha) as (x & Hx & Hs & Hpar1). rewrite Hx. cbn [deref].
    fold (digit n idx). rewrite Hs. unfold RADIX_TREE_MAP_SHIFT. replace (6 * Z.of_nat n - 6) with (6 * (Z.of_nat n - 1)) by lia.
    destruct (IH r1 (at_r r1 (hgt r1 - S n) idx) (digit n idx)) as (res & r' & Hrun & [P1 P2 P3 P4 P5 P6]); [done|done|lia|done..|].
    exists res, r'. split; [done|]. split; auto; congruence. }
  destruct (Z.eqb_spec (at_r r (hgt r - S n) idx) 0) as [Hz|Hnz].
  - pose proof (insert_step r m n idx node offset Hr Hal Hn Hi Hi64 Hpar Hz) as Hst.
    destruct (radix_tree_node_alloc r) as [a r1].
    destruct Hst as ([(-> & Hr1 & Hal1)|(Ha & r2 & r3 & E2 & E3 & Hr3 & Hal3 & Eh3 & Hat & Ef3 & Ea3)] & Ef1 & Eh1 & Hpl).
    + cbn. eexists (inl _), r1. split; [done|]. split; auto.
      intros Hp. destruct (Hpl (n + k)%nat Hp) as [? _]. done.
    + apply Z.eqb_neq in Ha as Ha'. rewrite Ha'. rewrite E2. cbn [mbind outcome_bind]. rewrite E3. cbn [mbind outcome_bind].
      rewrite <- Hat. apply Hdown; auto; [|by rewrite Hat].
      intros Hp. destruct (Hpl (n + k)%nat Hp) as [_ [? ?]]. split; by rewrite Ea3.
  - cbn [mbind outcome_bind]. apply Hdown; auto. intros [? ?]. split; [lia|done].
Qed.

(** Writing the slot of [idx] in a tree of height above 0. *)
Lemma rep_write r r' m idx x x' v :
  rep r m → (0 < hgt r)%nat → in_range (hgt r) idx → idx < 2 ^ 64 → at_r r (hgt r - 1) idx ≠ 0 →
  rt_mem r !! at_r r (hgt r - 1) idx = Some x → node_ok 1 x' →
  (∀ i, get_slot x' i = if decide (i = digit 0 idx) then v else get_slot x i) → Z.even v = true →
  rt_mem r' = <[at_r r (hgt r - 1) idx := x']> (rt_mem r) →
  rt_height r' = rt_height r → rt_rnode r' = rt_rnode r →
  rep r' (partial_alter (λ _, nonnull v) idx m).
Proof.
  intros Hr HH Hi Hi64 Hnode Hx Hok' Hg Hev Em Eh Er.
  assert (Ek : (hgt r - S (hgt r - 1) = 0)%nat) by lia.
  assert (plugged (rt_mem r) (rt_mem r') (hgt r - S (hgt r - 1)) (at_r r (hgt r - 1) idx)
            (digit (hgt r - S (hgt r - 1)) idx) (get_slot x (digit 0 idx)) v) as Hpl.
  { rewrite Ek, Em. split; try lia.
    - exists x, x'. split; [done|]. split; [apply lookup_insert_eq|]. by repeat split_and.
    - unfold simple. lia.
    - unfold simple. lia.
    - intros a Ha _. by apply lookup_insert_ne, not_eq_sym.
    - done. }
  assert (hgt r - 1 < hgt r)%nat as Hlt by lia.
  pose proof (rep_plug r r' m _ idx _ v Hr Hlt Hi Hi64 Hnode Hpl Eh Er) as Hr'.
  unfold plug_map in Hr'. by rewrite decide_True in Hr'.
Qed.

(** Writing the root pointer of a tree of height 0. *)
Lemma rep_write_root r m v :
  rep r m → hgt r = 0%nat → Z.even v = true → rep (upd_rnode v r) (partial_alter (λ _, nonnull v) 0 m).
Proof.
  intros Hr H0 Hv. pose proof Hr as [R1 R2 R3 R4 R5 R6]. rewrite H0 in R4. destruct (flat_tree _ _ R4) as [Em _].
  assert (rt_height r = 0) as Eh by (unfold hgt in H0; lia).
  assert (root (upd_rnode v r) = v) as Eroot by (unfold root; simpl; by apply untag_even).
  assert (hgt (upd_rnode v r) = 0%nat) as Ehgt by done.
  split; rewrite ?Eroot, ?Ehgt; simpl; auto.
  - intros _. rewrite Eh, <- Z.negb_even, Hv. done.
  - rewrite Em. by apply flat_tree_wf.
  - intros idx Hi. unfold item, at_r. rewrite Ehgt, Eroot. change (span 0) with 1.
    destruct (decide (idx = 0)) as [->|Hne]; [by rewrite lookup_partial_alter_eq|].
    rewrite lookup_partial_alter_ne, R5 by done. unfold item. rewrite H0. change (span 0) with 1.
    by rewrite !decide_False by lia.
  - intros idx. rewrite lookup_partial_alter. case_decide; [subst; lia|apply R6].
Qed.

Lemma write_Some idx v (m : gmap Z Z) : v ≠ 0 → partial_alter (λ _, nonnull v) idx m = <[idx := v]> m.
Proof. intros Hv. rewrite nonnull_ne by done. done. Qed.

(** The last step: the item goes into the empty slot. *)
Lemma insert_put r m idx v node offset :
  rep r m → in_range (hgt r) idx → idx < 2 ^ 64 → v ≠ 0 → Z.even v = true →
  parent r 0 idx node offset → at_r r (hgt r) idx = 0 →
  ∃ r', (if negb (node =? 0) then
           let! r3 := upd_node node (λ x, set_slot offset v (set_count (n_count x + 1) x)) r in Ok (0, r3)
         else Ok (0, upd_rnode v r)) = Ok (0, r') ∧ rep r' (<[idx := v]> m) ∧ rt_freed r' = rt_freed r.
Proof.
  intros Hr Hir Hi64 Hv Hev Hpar E. unfold parent in Hpar. case_decide as Hd.
  - subst node. eexists. split; [done|]. split; [|done]. assert (idx = 0) as ->.
    { destruct Hir as [? Hlt]. rewrite <- Hd in Hlt. change (span 0) with 1 in Hlt. lia. }
    rewrite <- write_Some by done. by apply rep_write_root.
  - destruct Hpar as (Hnode & Enode & ->). apply Z.eqb_neq in Hnode as Hnode'. rewrite Hnode'. cbn [negb].
    destruct (rep_node r m (hgt r - 1) idx Hr ltac:(lia) Hir ltac:(congruence)) as (x & Hx & Hok & Hsl).
    replace (hgt r - (hgt r - 1))%nat with 1%nat in Hok by lia. replace (hgt r - S (hgt r - 1))%nat with 0%nat in Hsl by lia.
    replace (S (hgt r - 1)) with (hgt r) in Hsl by lia. rewrite E in Hsl.
    unfold upd_node. rewrite Enode, Hx. cbn [deref mbind outcome_bind].
    eexists. split; [done|]. split; [|done]. rewrite <- write_Some by done.
    apply (rep_write r _ m idx x (set_count (n_count x + 1) (set_slot (digit 0 idx) v x)) v); auto; [lia|congruence| |].
    + apply fill_slot_ok; auto using digit_range.
    + intros i. apply get_set_slot.
Qed.

(** Making the tree high enough. *)
Lemma insert_extend r m idx :
  rep r m → allocs_ok r → 0 ≤ idx < 2 ^ 64 →
  ∃ mi err r1, radix_tree_maxindex (rt_height r) = Ok mi ∧
    (if mi <? idx then radix_tree_extend r idx else Ok (0, r)) = Ok (err, r1) ∧
    rep r1 m ∧ allocs_ok r1 ∧ rt_freed r1 = rt_freed r ∧ (err = 0 ∧ idx < span (hgt r1) ∨ err = - ENOMEM) ∧
    (plenty 22 r → err = 0 ∧ plenty 11 r1).
Proof.
  intros Hr Hal Hi. destruct (maxindex_spec (rt_height r) idx (rp_height _ _ Hr) Hi) as (mi & E & Hmi). fold (hgt r) in Hmi.
  exists mi. rewrite Hmi. destruct (decide (idx < span (hgt r))) as [Hs|Hs].
  - rewrite bool_decide_eq_true_2 by done. exists 0, r. repeat split_and; auto. intros [? ?]. split; [done|]. split; [lia|done].
  - rewrite bool_decide_eq_false_2 by done.
    destruct (radix_tree_extend_spec r m idx 11 Hr Hal Hi Hs) as (err & r1 & ? & H). by exists err, r1.
Qed.

(** [radix_tree_insert] refines the insertion of an absent key. *)
Lemma radix_tree_insert_spec r m idx v :
  rep r m → allocs_ok r → 0 ≤ idx < 2 ^ 64 → v ≠ 0 → Z.even v = true →
  ∃ err r', radix_tree_insert r idx v = Ok (err, r') ∧ rt_freed r' = rt_freed r ∧
    (err = 0 ∧ m !! idx = None ∧ rep r' (<[idx := v]> m) ∨
     err = - EEXIST ∧ is_Some (m !! idx) ∧ rep r' m ∨ err = - ENOMEM ∧ rep r' m) ∧
    (plenty 22 r → err ≠ - ENOMEM).
Proof.
  intros Hr Hal Hi Hv Hev. unfold radix_tree_insert. rewrite is_indirect_odd, <- Z.negb_even, Hev. cbn [negb BUG_ON].
  destruct (insert_extend r m idx Hr Hal Hi) as (mi & err & r1 & -> & E1 & Hr1 & Hal1 & Ef1 & Hres & Hp1).
  cbn [mbind outcome_bind]. rewrite E1. cbn [mbind outcome_bind]. destruct Hres as [[-> Hs]| ->].
  2: { simpl. exists (- ENOMEM), r1. repeat split_and; auto. intros Hp. by destruct (Hp1 Hp). }
  cbn [Z.eqb negb]. fold (root r1) (hgt r1). destruct (hgt_bound _ _ Hr1) as [H11 Hh1].
  assert (in_range (hgt r1) idx) as Hir by (split; [lia|done]).
  replace (u32 ((rt_height r1 - 1) * RADIX_TREE_MAP_SHIFT)) with (u32 (6 * (Z.of_nat (hgt r1) - 1)))
    by (unfold RADIX_TREE_MAP_SHIFT; f_equal; lia).
  destruct (insert_loop_spec (hgt r1) r1 m idx 0 0 0) as (res & r2 & Hrun & [P1 P2 P3 P4 P5 P6]);
    [done|done|lia|done|lia|unfold parent; by rewrite decide_True|].
  rewrite Nat.sub_diag in Hrun. change (at_r r1 0 idx) with (root r1) in Hrun. rewrite Hrun. cbn [mbind outcome_bind].
  assert (Hnom : plenty 22 r → ∀ e, res ≠ inl e).
  { intros Hp. apply P6. destruct (Hp1 Hp) as [_ [? ?]]. split; [lia|done]. }
  destruct res as [e|[[node slot] offset]].
  { subst e. eexists _, r2. split; [done|]. split; [congruence|]. split; [auto|]. intros Hp. by destruct (Hnom Hp (- ENOMEM)). }
  destruct P5 as [-> Hpar]. rewrite <- P3 in Hir.
  assert (m !! idx = nonnull (at_r r2 (hgt r2) idx)) as Hm.
  { rewrite (rp_map _ _ P1) by lia. unfold item. rewrite decide_True; [done|apply Hir]. }
  destruct (Z.eqb_spec (at_r r2 (hgt r2) idx) 0) as [E|E]; cbn [negb].
  - destruct (insert_put r2 m idx v node offset) as (r' & Hput & Hr' & Ef'); [done|done|lia|done..|].
    eexists 0, r'. split; [exact Hput|]. split; [congruence|]. split; [|done]. left. by rewrite Hm, E.
  - eexists _, r2. split; [done|]. split; [congruence|]. split; [|done]. right. left. split; [done|].
    rewrite Hm, nonnull_ne by done. split; [by eexists|done].
Qed.
