(* ===== verification/RadixTreeDel.v ===== *)
(** * Deletion (xen/common/radix-tree.c)

    Deleting an item clears its slot and frees the nodes on the path that
    become empty; a root node whose only child is the leftmost is removed. *)

From S2P Require Import Prelude RadixTree RadixTreeInv RadixTreeOps.
Local Open Scope xen_scope.

(** ** Shrinking *)

Lemma single_slot h x c :
  node_ok h x → n_count x = 1 → get_slot x 0 = c → c ≠ 0 →
  ∀ i, get_slot x i = if decide (i = 0) then c else 0.
Proof.
  intros [_ Hc _] H1 Hg Hne i. assert (n_slots x !! 0 = Some c) as E0.
  { unfold get_slot in Hg. destruct (n_slots x !! 0); simplify_eq/=; done. }
  case_decide as Hi; [by subst|]. unfold get_slot.
  destruct (n_slots x !! i) as [v|] eqn:Ei; [|done]. exfalso.
  assert (size (delete 0 (n_slots x)) = 0%nat) as Hz%map_size_empty_inv
    by (rewrite map_size_delete_Some by eauto; lia).
  assert (delete 0 (n_slots x) !! i = Some v) as E by by rewrite lookup_delete_ne.
  by rewrite Hz in E.
Qed.

(** Removing a root node with one child, in slot 0. *)
Lemma rep_lower r r' m x c :
  rep r m → (0 < hgt r)%nat → root r ≠ 0 → rt_mem r !! root r = Some x → c ≠ 0 →
  (∀ i, get_slot x i = if decide (i = 0) then c else 0) →
  rt_mem r' = delete (root r) (rt_mem r) → rt_height r' = rt_height r - 1 →
  rt_rnode r' = (if 1 <? rt_height r then ptr_to_indirect c else c) → rep r' m ∧ root r' = c.
Proof.
  intros Hr HH Hroot Hx Hc Hs Em Eh Er. pose proof Hr as [R1 R2 R3 R4 R5 R6].
  destruct (hgt r) as [|h] eqn:Ehr; [lia|]. assert (hgt r' = h) as Eh' by (unfold hgt in *; lia).
  pose proof (lower_wf _ _ _ _ _ R4 Hroot Hx Hs) as Hwf.
  assert (Z.even c = true) as Hce.
  { pose proof (tw_even _ _ _ Hwf 0 0 ltac:(lia) (in_range_0 _)) as He. done. }
  assert (root r' = c) as Eroot.
  { unfold root. rewrite Er. case_match; [by apply untag_tag|by apply untag_even]. }
  split; [|done]. split; rewrite ?Eh', ?Eroot, ?Em; auto.
  - unfold hgt in Ehr. lia.
  - intros _. rewrite Er, Eh. destruct (Z.ltb_spec 1 (rt_height r)).
    + rewrite tag_odd by done. symmetry. apply Z.ltb_lt. lia.
    + rewrite <- Z.negb_even, Hce. symmetry. apply Z.ltb_ge. lia.
  - intros E. congruence.
  - intros idx Hi. rewrite R5 by lia. unfold item, at_r. rewrite Eh', Eroot, Em, Ehr.
    destruct (decide (idx < span h)) as [Hlt|Hge].
    + assert (in_range h idx) as Hir by (split; [lia|done]).
      rewrite (lower_at _ _ _ _ _ R4 Hroot Hx Hs) by (lia || done).
      rewrite decide_True; [done|]. rewrite span_S. pose proof (span_pos h). lia.
    + destruct (decide (idx < span (S h))) as [Hlt'|]; [|done]. f_equal.
      assert (in_range (S h) idx) as Hir by (split; [lia|done]).
      apply (lower_old _ _ _ _ _ R4 Hx Hs); [lia|done|]. intros E. apply prefix_in_range in E as [_ E]; lia.
Qed.

Lemma radix_tree_shrink_spec n r m :
  rep r m → n = hgt r → root r ≠ 0 → ∃ r', radix_tree_shrink n r = Ok r' ∧ rep r' m.
Proof.
  revert r. induction n as [|n IH]; intros r Hr En Hroot; cbn [radix_tree_shrink]; [by exists r|].
  assert (rt_rnode r ≠ 0) as Hn by (intros E; apply Hroot; unfold root; by rewrite E).
  rewrite (root_indirect _ _ Hr Hn), bool_decide_eq_true_2 by lia. cbn [negb BUG_ON]. fold (root r).
  destruct (root_node _ _ _ (rp_wf _ _ Hr) ltac:(lia) Hroot) as (x & Hx & Hok). rewrite Hx. cbn [deref].
  destruct (Z.eqb_spec (n_count x) 1) as [Hc|]; cbn [negb]; [|by exists r].
  destruct (Z.eqb_spec (get_slot x 0) 0) as [|Hs0]; [by exists r|].
  pose proof (single_slot _ _ _ Hok Hc eq_refl Hs0) as Hs. destruct (hgt_bound _ _ Hr) as [_ Hh].
  set (r1 := upd_height _ _).
  assert (∃ r2 x2, (if rt_height r1 =? 0 then upd_node (root r) (λ x, set_slot 0 (ptr_to_indirect (get_slot x 0)) x) r1 else Ok r1) = Ok r2 ∧
    rt_height r2 = rt_height r - 1 ∧ rt_rnode r2 = rt_rnode r1 ∧ rt_mem r2 = <[root r := x2]> (rt_mem r)) as (r2 & x2 & -> & Eh2 & Er2 & Em2).
  { destruct (rt_height r1 =? 0); [|exists r1, x; by rewrite insert_id].
    unfold upd_node. change (rt_mem r1) with (rt_mem r). rewrite Hx. cbn [deref]. eexists _, _. split; [done|]. done. }
  cbn [mbind outcome_bind]. unfold radix_tree_node_free. rewrite Em2, lookup_insert_eq. cbn [deref mbind outcome_bind].
  rewrite delete_insert_eq. set (r3 := mk_radix _ _ _ _ _).
  destruct (rep_lower r r3 m x (get_slot x 0)) as [Hr3 Eroot]; auto; [lia|].
  apply IH; [done|unfold hgt in *; simpl; lia|congruence].
Qed.

(** ** The path *)

(** The path from depth [n - 1] up to the root. *)
Fixpoint up_path (r : radix) (n : nat) (idx : Z) : list (Z * Z) :=
  match n with
  | O => []
  | S n' => (at_r r n' idx, digit (hgt r - S n') idx) :: up_path r n' idx
  end.

Lemma delete_path_spec r m n idx :
  rep r m → (n ≤ hgt r)%nat → in_range (hgt r) idx → (∀ j, (j < hgt r - n)%nat → at_r r j idx ≠ 0) →
  ∃ p, delete_path n idx (at_r r (hgt r - n) idx) (u32 (6 * (Z.of_nat n - 1))) (up_path r (hgt r - n) idx) r =
    Ok (p, at_r r (hgt r) idx) ∧
    match p with
    | None => at_r r (hgt r) idx = 0
    | Some l => l = up_path r (hgt r) idx ∧ ∀ j, (j < hgt r)%nat → at_r r j idx ≠ 0
    end.
Proof.
  intros Hr. destruct (hgt_bound _ _ Hr) as [H11 _]. induction n as [|n IH]; intros Hn Hi Hnz; cbn [delete_path].
  { rewrite Nat.sub_0_r in *. eexists. split; [done|]. done. }
  destruct (Z.eqb_spec (at_r r (hgt r - S n) idx) 0) as [E|E].
  { assert (at_r r (hgt r) idx = 0) as Ez by (eapply (at_null _ _ _ (hgt r - S n)); [apply Hr|lia|done]).
    rewrite Ez. by exists None. }
  destruct (parent_down r m n idx Hr Hn Hi E) as (x & Hx & Hs & _). rewrite Hx. cbn [deref].
  replace (u32 (6 * (Z.of_nat (S n) - 1))) with (6 * Z.of_nat n) by (rewrite u32_small; lia).
  fold (digit n idx). rewrite Hs. unfold RADIX_TREE_MAP_SHIFT. replace (6 * Z.of_nat n - 6) with (6 * (Z.of_nat n - 1)) by lia.
  replace ((at_r r (hgt r - S n) idx, digit n idx) :: up_path r (hgt r - S n) idx) with (up_path r (hgt r - n) idx).
  - apply IH; [lia|done|]. intros j Hj. destruct (decide (j = hgt r - S n)%nat) as [->|]; [done|]. apply Hnz. lia.
  - replace (hgt r - n)%nat with (S (hgt r - S n)) by lia. simpl. by replace (hgt r - S (hgt r - S n))%nat with n by lia.
Qed.

(** ** Clearing slots upwards *)

(** The child at depth [n]: the item, or the node just emptied. *)
Definition doomed (r : radix) (n : nat) (idx to_free : Z) : Prop :=
  at_r r n idx ≠ 0 ∧
  (n = hgt r ∧ to_free = 0 ∨
   (n < hgt r)%nat ∧ to_free = at_r r n idx ∧ rt_mem r !! to_free = Some (empty_node (hgt r - n))).

(** One step of the loop: the slot is cleared and the child freed. *)
Lemma delete_step r m n idx to_free x :
  rep r m → (S n ≤ hgt r)%nat → in_range (hgt r) idx → idx < 2 ^ 64 → at_r r n idx ≠ 0 → doomed r (S n) idx to_free →
  rt_mem r !! at_r r n idx = Some x →
  ∃ r1 r2 x', upd_node (at_r r n idx) (λ x, set_count (n_count x - 1) (set_slot (digit (hgt r - S n) idx) 0 x)) r = Ok r1 ∧
    free_if to_free r1 = Ok r2 ∧ rep r2 (plug_map (hgt r - S n) idx 0 m) ∧ hgt r2 = hgt r ∧ root r2 = root r ∧
    rt_mem r2 !! at_r r n idx = Some x' ∧ node_ok (hgt r - n) x' ∧ (∀ j, (j ≤ n)%nat → at_r r2 j idx = at_r r j idx).
Proof.
  intros Hr Hn Hi Hi64 Hnz [Hc Hdoom] Hx.
  destruct (rep_node r m n idx Hr ltac:(lia) Hi Hnz) as (x0 & Hx0 & Hok & Hs). assert (x0 = x) as -> by congruence.
  set (x' := set_count (n_count x - 1) (set_slot (digit (hgt r - S n) idx) 0 x)).
  assert (node_ok (hgt r - n) x') as Hok' by (apply clear_slot_ok; [done|by rewrite Hs]).
  unfold upd_node. rewrite Hx. cbn [deref]. fold x'. set (r1 := upd_mem _ r).
  assert (∃ r2, free_if to_free r1 = Ok r2 ∧ rt_height r2 = rt_height r ∧ rt_rnode r2 = rt_rnode r ∧
    rt_mem r2 = (if decide (S n < hgt r)%nat then delete (at_r r (S n) idx) (rt_mem r1) else rt_mem r1)) as (r2 & Ef & Eh & Er & Em).
  { unfold free_if. destruct Hdoom as [[Hd ->]|(Hd & -> & Hmem)].
    - exists r1. rewrite decide_False by lia. done.
    - apply Z.eqb_neq in Hc as Hc'. rewrite Hc'. cbn [negb]. unfold radix_tree_node_free.
      assert (is_Some (rt_mem r1 !! at_r r (S n) idx)) as [y ->].
      { unfold r1. simpl. rewrite lookup_insert. case_decide; [eauto|by eexists]. }
      cbn [deref]. eexists. rewrite decide_True by done. done. }
  assert (at_r r (S n) idx ≠ at_r r n idx ∨ S n = hgt r) as Hne.
  { destruct (decide (S n = hgt r)) as [|Hd]; [by right|left]. intros E. assert (S n = n); [|lia].
    apply (at_level (rt_mem r) (root r) (hgt r) (S n) n idx idx); [apply Hr|lia|lia|done..]. }
  assert (plugged (rt_mem r) (rt_mem r2) (hgt r - S n) (at_r r n idx) (digit (hgt r - S n) idx) (at_r r (S n) idx) 0) as Hpl.
  { rewrite Em. replace (hgt r - n)%nat with (S (hgt r - S n)) in Hok' by lia. split.
    - exists x, x'. split; [done|]. split.
      + case_decide; [rewrite lookup_delete_ne by (destruct Hne; [done|lia])|]; apply lookup_insert_eq.
      + split; [done|]. split; [done|]. intros i. apply get_set_slot.
    - intros _ Hk. destruct Hdoom as [[? _]|(_ & -> & ->)]; [lia|done].
    - by intros ?.
    - by intros _ ?.
    - intros Hk _. rewrite decide_True by lia. apply lookup_delete_eq.
    - by right.
    - intros a Ha Hrest. case_decide as Hd; [|by apply lookup_insert_ne, not_eq_sym].
      destruct (decide (a = 0)) as [->|Ha0].
      + rewrite lookup_delete_ne by done. by apply lookup_insert_ne, not_eq_sym.
      + rewrite lookup_delete_ne by (apply not_eq_sym, Hrest; [lia|done]). by apply lookup_insert_ne, not_eq_sym.
    - done. }
  assert (n < hgt r)%nat as Hlt by lia.
  assert (hgt r2 = hgt r) as Ehgt by (unfold hgt; by rewrite Eh). assert (root r2 = root r) as Eroot by (unfold root; by rewrite Er).
  exists r1, r2, x'. split; [done|]. split; [done|]. split; [by apply (rep_plug r r2 m n idx (at_r r (S n) idx) 0)|].
  split; [done|]. split; [done|]. split; [|split; [done|]].
  - rewrite Em. case_decide; [rewrite lookup_delete_ne by (destruct Hne; [done|lia])|]; apply lookup_insert_eq.
  - intros j Hj. unfold at_r. rewrite Ehgt, Eroot.
    rewrite (plug_at _ _ _ _ _ _ _ _ (rp_wf _ _ Hr) Hlt Hi Hnz Hpl) by (lia || done).
    rewrite decide_False; [done|]. intros [? _]. lia.
Qed.

(** A tree whose root is an empty node. *)
Lemma empty_root r m x :
  rep r m → (0 < hgt r)%nat → root r ≠ 0 → rt_mem r !! root r = Some x → n_slots x = ∅ →
  m = ∅ ∧ delete (root r) (rt_mem r) = ∅.
Proof.
  intros Hr HH Hroot Hx Hs.
  assert (Hz : ∀ n idx, (0 < n)%nat → at_r r n idx = 0).
  { intros n idx Hn. eapply (at_null _ _ _ 1); [apply Hr|lia|]. simpl. rewrite (slot_of_node _ _ _ _ Hx).
    unfold get_slot. by rewrite Hs. }
  split; apply map_empty; intros a.
  - destruct (m !! a) as [v|] eqn:E; [|done]. assert (0 ≤ a < 2 ^ 64) as Ha by (eapply (rp_keys _ _ Hr); eauto).
    rewrite (rp_map _ _ Hr) in E by lia. unfold item in E. case_decide; [|done]. by rewrite Hz in E.
  - destruct (delete (root r) (rt_mem r) !! a) eqn:E; [|done]. apply lookup_delete_Some in E as [Hne E].
    destruct (tw_own _ _ _ (rp_wf _ _ Hr) a) as ([|n] & idx & _ & _ & Ea); [by eexists|done|].
    change (at_r r (S n) idx = a) in Ea. rewrite Hz in Ea by lia. subst a. by rewrite (tw_null _ _ _ (rp_wf _ _ Hr)) in E.
Qed.

Lemma up_path_ext r r' n idx :
  hgt r' = hgt r → (∀ j, (j < n)%nat → at_r r' j idx = at_r r j idx) → up_path r' n idx = up_path r n idx.
Proof.
  intros Eh. induction n as [|n IH]; intros Hat; [done|]. simpl. rewrite Eh, Hat, IH by (auto with lia). done.
Qed.

Lemma delete_up_spec n r m idx to_free :
  rep r m → (0 < hgt r)%nat → (n ≤ hgt r)%nat → in_range (hgt r) idx → idx < 2 ^ 64 →
  (∀ j, (j ≤ n)%nat → at_r r j idx ≠ 0) → doomed r n idx to_free →
  ∃ r', delete_up (up_path r n idx) to_free r = Ok r' ∧ rep r' (plug_map (hgt r - n) idx 0 m).
Proof.
  revert r m to_free. induction n as [|n IH]; intros r m to_free Hr HH Hn Hi Hi64 Hnz Hdoom; cbn [up_path delete_up].
  - destruct Hdoom as [Hroot [[? _]|(_ & -> & Hmem)]]; [lia|]. change (at_r r 0 idx) with (root r) in *.
    unfold free_if. apply Z.eqb_neq in Hroot as Hroot'. rewrite Hroot'. cbn [negb]. unfold radix_tree_node_free. simpl. rewrite Hmem.
    destruct (empty_root r m _ Hr HH Hroot Hmem eq_refl) as [-> Hd]. rewrite Hd. eexists. split; [done|].
    unfold plug_map. rewrite decide_False by lia. split; simpl; try done; try lia.
    + apply (flat_tree_wf 0). done.
    + intros idx0 _. rewrite lookup_empty. unfold item, at_r. simpl. by case_decide.
    + intros idx0 [v Hv]. done.
  - pose proof (Hnz n ltac:(lia)) as Hp. destruct (rep_node r m n idx Hr ltac:(lia) Hi Hp) as (x & Hx & _ & _).
    destruct (delete_step r m n idx to_free x Hr Hn Hi Hi64 Hp Hdoom Hx)
      as (r1 & r2 & x' & -> & E2 & Hr2 & Ehgt & Eroot & Hx2 & Hok2 & Hat2).
    cbn [mbind outcome_bind]. rewrite E2. cbn [mbind outcome_bind]. rewrite Hx2. cbn [deref].
    destruct (Z.eqb_spec (n_count x') 0) as [Hc|Hc]; cbn [negb].
    + assert (x' = empty_node (hgt r - n)) as ->.
      { destruct Hok2 as [O1 O2 _]. destruct x' as [h c sl]. simpl in *. subst h c. unfold empty_node. f_equal; [lia|].
        apply map_size_empty_inv. lia. }
      rewrite <- (up_path_ext r r2) by (done || (intros j Hj; apply Hat2; lia)).
      destruct (IH r2 (plug_map (hgt r - S n) idx 0 m) (at_r r n idx)) as (r' & -> & Hr'); rewrite ?Ehgt; auto; try lia.
      * intros j Hj. rewrite Hat2 by lia. apply Hnz. lia.
      * split; [rewrite Hat2 by lia; done|]. right. rewrite Ehgt, Hat2 by lia. done.
      * exists r'. split; [done|]. rewrite Ehgt in Hr'. unfold plug_map at 1 in Hr'. by rewrite decide_False in Hr' by lia.
    + fold (root r2). destruct (Z.eqb_spec (at_r r n idx) (root r2)) as [E|E]; [|by exists r2].
      fold (hgt r2). apply radix_tree_shrink_spec; [done|done|]. rewrite Eroot. apply (Hnz 0%nat). lia.
Qed.

(** [radix_tree_delete] refines deletion. *)
Lemma radix_tree_delete_spec r m idx :
  rep r m → 0 ≤ idx < 2 ^ 64 →
  ∃ r', radix_tree_delete r idx = Ok (default 0 (m !! idx), r') ∧ rep r' (delete idx m).
Proof.
  intros Hr Hi. unfold radix_tree_delete. destruct (hgt_bound _ _ Hr) as [H11 Hh].
  destruct (maxindex_spec (rt_height r) idx (rp_height _ _ Hr) Hi) as (mi & -> & Hmi). fold (hgt r) in Hmi.
  cbn [mbind outcome_bind]. rewrite Hmi, (rp_map _ _ Hr) by lia. unfold item.
  assert (Hnone : m !! idx = None → delete idx m = m) by apply delete_id.
  destruct (decide (idx < span (hgt r))) as [Hs|Hs].
  2: { rewrite bool_decide_eq_false_2 by done. simpl. exists r. split; [done|]. rewrite Hnone; [done|].
       rewrite (rp_map _ _ Hr) by lia. unfold item. by rewrite decide_False. }
  rewrite bool_decide_eq_true_2 by done. cbn [negb]. assert (in_range (hgt r) idx) as Hir by (split; [lia|done]).
  assert (Hv : default 0 (nonnull (at_r r (hgt r) idx)) = at_r r (hgt r) idx).
  { unfold nonnull. destruct (Z.eqb_spec (at_r r (hgt r) idx) 0) as [E|]; [by rewrite E|done]. }
  rewrite Hv. destruct (Z.eqb_spec (rt_height r) 0) as [E0|E0].
  - assert (hgt r = 0%nat) as Eh by lia. rewrite Eh in *. change (span 0) with 1 in Hs. assert (idx = 0) as -> by lia.
    exists (upd_rnode 0 r). split; [unfold at_r; simpl; by rewrite (root_direct _ _ Hr E0)|].
    by apply (rep_write_root r m 0).
  - destruct (delete_path_spec r m (hgt r) idx Hr ltac:(lia) Hir) as (p & Hrun & Hp); [intros; lia|].
    rewrite Nat.sub_diag in Hrun. fold (root r) (hgt r). change (at_r r 0 idx) with (root r) in Hrun.
    replace (u32 ((rt_height r - 1) * RADIX_TREE_MAP_SHIFT)) with (u32 (6 * (Z.of_nat (hgt r) - 1)))
      by (unfold RADIX_TREE_MAP_SHIFT; f_equal; lia).
    change (up_path r 0 idx) with (@nil (Z * Z)) in Hrun. rewrite Hrun. cbn [mbind outcome_bind].
    assert (at_r r (hgt r) idx = 0 → rep r (delete idx m)) as Hz.
    { intros E. rewrite Hnone; [done|]. rewrite (rp_map _ _ Hr) by lia. unfold item. by rewrite decide_True, E by done. }
    destruct p as [l|]; [|exists r; split; [done|by apply Hz]]. destruct Hp as [-> Hnz].
    destruct (Z.eqb_spec (at_r r (hgt r) idx) 0) as [E|E]; [exists r; split; [done|by apply Hz]|].
    destruct (delete_up_spec (hgt r) r m idx 0) as (r' & -> & Hr'); auto; try lia.
    + intros j Hj. destruct (decide (j = hgt r)) as [->|]; [done|]. apply Hnz. lia.
    + split; [done|]. by left.
    + cbn [mbind outcome_bind]. exists r'. split; [done|]. rewrite Nat.sub_diag in Hr'. done.
Qed.
