(* ===== verification/RadixTreeScan.v ===== *)
(** * Scans (xen/common/radix-tree.c)

    The gang look-ups collect items in ascending order of index; the hole
    searches walk over present items. *)

From stdpp Require Import sorting.
From S2P Require Import Prelude RadixTree RadixTreeInv RadixTreeOps.
Local Open Scope xen_scope.

(** ** Enumerations *)

(** [l] lists the entries of [m] with indices in [a .. b - 1], ascending. *)
Definition enumerates (l : list (Z * Z)) (m : gmap Z Z) (a b : Z) : Prop :=
  StronglySorted Z.lt l.*1 ∧ ∀ idx v, (idx, v) ∈ l ↔ m !! idx = Some v ∧ a ≤ idx < b.

Definition empty_between (m : gmap Z Z) (a b : Z) : Prop := ∀ idx, a ≤ idx < b → m !! idx = None.

Lemma enumerates_nil m a b : empty_between m a b → enumerates [] m a b.
Proof.
  intros He. split; [constructor|]. intros idx v. rewrite elem_of_nil. split; [done|].
  intros [E Hi]. by rewrite He in E.
Qed.

Lemma StronglySorted_app {A} (R : A → A → Prop) l1 l2 :
  StronglySorted R l1 → StronglySorted R l2 → (∀ x y, x ∈ l1 → y ∈ l2 → R x y) → StronglySorted R (l1 ++ l2).
Proof.
  intros H1 H2. induction H1 as [|x l1 H1 IH Hf]; intros Hx; [done|]. simpl. constructor.
  - apply IH. intros y z ? ?. apply Hx; [by right|done].
  - apply Forall_app. split; [done|]. apply Forall_forall. intros y Hy. apply Hx; [by left|done].
Qed.

Lemma enumerates_app l1 l2 m a b c :
  enumerates l1 m a b → enumerates l2 m b c → a ≤ b ≤ c → enumerates (l1 ++ l2) m a c.
Proof.
  intros [S1 I1] [S2 I2] Hab. split.
  - rewrite fmap_app. apply StronglySorted_app; [done|done|]. intros x y Hx Hy.
    apply list_elem_of_fmap in Hx as ([x' v] & -> & Hx), Hy as ([y' w] & -> & Hy).
    apply I1 in Hx as [_ ?]. apply I2 in Hy as [_ ?]. simpl. lia.
  - intros idx v. rewrite elem_of_app, I1, I2. split; [intros [[? ?]|[? ?]]; (split; [done|lia])|].
    intros [E Hi]. destruct (decide (idx < b)); [left|right]; (split; [done|lia]).
Qed.

Lemma enumerates_singleton m a v : m !! a = Some v → enumerates [(a, v)] m a (a + 1).
Proof.
  intros E. split; [repeat constructor|]. intros idx w. rewrite list_elem_of_singleton. split.
  - intros [= -> ->]. split; [done|lia].
  - intros [E' Hi]. assert (idx = a) as -> by lia. congruence.
Qed.

(** ** One level *)

Lemma ldiff_prefix k index : Z.ldiff index (Z.shiftl 1 (6 * Z.of_nat k) - 1) = prefix k index * span k.
Proof.
  unfold prefix, span. replace (Z.shiftl 1 (6 * Z.of_nat k) - 1) with (Z.ones (6 * Z.of_nat k))
    by (unfold Z.ones; lia).
  by rewrite Z.ldiff_ones_r, Z.shiftl_mul_pow2 by lia.
Qed.

Lemma prefix_bounds k idx : prefix k idx * span k ≤ idx < (prefix k idx + 1) * span k.
Proof.
  rewrite prefix_div. pose proof (span_pos k). pose proof (Z.div_mod idx (span k) ltac:(lia)).
  pose proof (Z.mod_pos_bound idx (span k) ltac:(lia)). lia.
Qed.

Lemma prefix_eq k q idx : q * span k ≤ idx < (q + 1) * span k → prefix k idx = q.
Proof.
  intros H. rewrite prefix_div. pose proof (span_pos k). symmetry. apply (Z.div_unique idx (span k) q (idx - q * span k)); lia.
Qed.

(** The next multiple of [span k] does not pass the end of the index space. *)
Lemma next_multiple k index :
  (k ≤ 10)%nat → 0 ≤ index < 2 ^ 64 → index < (prefix k index + 1) * span k ≤ 2 ^ 64.
Proof.
  intros Hk Hi. pose proof (prefix_bounds k index) as Hb. split; [lia|].
  assert (2 ^ 64 = 2 ^ (64 - 6 * Z.of_nat k) * span k) as E by (unfold span; rewrite <- Z.pow_add_r by lia; f_equal; lia).
  pose proof (span_pos k). rewrite E. apply Z.mul_le_mono_nonneg_r; [lia|].
  assert (prefix k index < 2 ^ (64 - 6 * Z.of_nat k)); [|lia].
  rewrite prefix_div. apply Z.div_lt_upper_bound; lia.
Qed.

(** [scan_slots] moves over empty slots only. *)
Lemma scan_slots_spec m x k P n index i :
  (k ≤ 10)%nat → 0 ≤ index < 2 ^ 64 → 0 ≤ i < 64 → n = Z.to_nat (64 - i) → prefix k index = 64 * P + i →
  (∀ idx j, 0 ≤ idx < 2 ^ 64 → prefix k idx = 64 * P + j → 0 ≤ j < 64 → get_slot x j = 0 → m !! idx = None) →
  match scan_slots n x index (6 * Z.of_nat k) i with
  | inl nx => ∃ nx', nx = u64 nx' ∧ index < nx' ≤ 2 ^ 64 ∧ empty_between m index nx'
  | inr (ix, j) => index ≤ ix < 2 ^ 64 ∧ empty_between m index ix ∧ i ≤ j < 64 ∧
                   prefix k ix = 64 * P + j ∧ get_slot x j ≠ 0
  end.
Proof.
  intros Hk. revert index i. induction n as [|n IH]; intros index i Hi Hii Hn Hpre Hx; [lia|]. cbn [scan_slots].
  destruct (Z.eqb_spec (get_slot x i) 0) as [E|E]; cbn [negb].
  2: { split; [lia|]. split; [intros idx ?; lia|]. split; [lia|]. done. }
  rewrite ldiff_prefix. change (Z.shiftl 1 (6 * Z.of_nat k)) with (Z.shiftl 1 (6 * Z.of_nat k)).
  replace (Z.shiftl 1 (6 * Z.of_nat k)) with (span k) by (unfold span; rewrite Z.shiftl_1_l; done).
  replace (prefix k index * span k + span k) with ((prefix k index + 1) * span k) by lia.
  pose proof (next_multiple k index Hk Hi) as Hnx. set (nx := (prefix k index + 1) * span k) in *.
  assert (empty_between m index nx) as He.
  { intros idx Hidx. apply (Hx idx i); [lia| |lia|done]. rewrite <- Hpre. apply prefix_eq.
    pose proof (prefix_bounds k index). unfold nx in Hidx. lia. }
  destruct (decide (nx = 2 ^ 64)) as [Eq|Hne].
  { assert (u64 nx = 0) as -> by (by rewrite Eq). simpl. exists nx. split; [by rewrite Eq|]. split; [lia|done]. }
  rewrite u64_small by lia. destruct (Z.eqb_spec nx 0) as [|_]; [lia|].
  destruct (decide (i = 63)) as [->|Hi63].
  { assert (n = 0%nat) as -> by lia. simpl. exists nx. rewrite u64_small by lia. split; [done|]. split; [lia|done]. }
  assert (prefix k nx = 64 * P + (i + 1)) as Hpn.
  { replace (64 * P + (i + 1)) with (prefix k index + 1) by lia. apply prefix_eq. pose proof (span_pos k). unfold nx. lia. }
  specialize (IH nx (i + 1) ltac:(lia) ltac:(lia) ltac:(lia) Hpn Hx).
  destruct (scan_slots n x nx (6 * Z.of_nat k) (i + 1)) as [nx2|[ix j]].
  - destruct IH as (nx' & -> & ? & He2). exists nx'. split; [done|]. split; [lia|].
    intros idx ?. destruct (decide (idx < nx)); [apply He; lia|apply He2; lia].
  - destruct IH as (? & He2 & ? & ? & ?). split; [lia|]. split; [|split; [lia|done]].
    intros idx ?. destruct (decide (idx < nx)); [apply He; lia|apply He2; lia].
Qed.

(** ** The descent *)

Lemma rep_item r m idx :
  rep r m → 0 ≤ idx < 2 ^ 64 → in_range (hgt r) idx → m !! idx = nonnull (at_r r (hgt r) idx).
Proof.
  intros Hr Hi [_ Hs]. rewrite (rp_map _ _ Hr) by lia. unfold item. by rewrite decide_True.
Qed.

Lemma rep_none r m n idx :
  rep r m → 0 ≤ idx < 2 ^ 64 → in_range (hgt r) idx → (n ≤ hgt r)%nat → at_r r n idx = 0 → m !! idx = None.
Proof.
  intros Hr Hi Hir Hn E. rewrite (rep_item r m) by done.
  assert (at_r r (hgt r) idx = 0) as ->; [|done]. by eapply (at_null _ _ _ n); [apply Hr|..].
Qed.

Lemma at_r_S r n idx : at_r r (S n) idx = slot_of (rt_mem r) (at_r r n idx) (digit (hgt r - S n) idx).
Proof. done. Qed.

(** Indices with the same prefix are in range together. *)
Lemma in_range_prefix H k a b :
  (k ≤ H)%nat → 0 ≤ b → prefix k a = prefix k b → in_range H a → in_range H b.
Proof.
  intros Hk Hb E Ha. apply prefix_in_range; [done|]. rewrite <- (prefix_mono k H a b) by done.
  apply prefix_in_range; [apply Ha|done].
Qed.

Lemma scan_down_spec r m n index :
  rep r m → (S n ≤ hgt r)%nat → 0 ≤ index < 2 ^ 64 → in_range (hgt r) index → at_r r (hgt r - S n) index ≠ 0 →
  ∃ res, scan_down n (at_r r (hgt r - S n) index) index (6 * Z.of_nat n) r = Ok res ∧
  match res with
  | inl nx => ∃ nx', nx = u64 nx' ∧ index < nx' ≤ 2 ^ 64 ∧ empty_between m index nx'
  | inr (slot, ix) => index ≤ ix < 2 ^ 64 ∧ in_range (hgt r) ix ∧ empty_between m index ix ∧
      slot = at_r r (hgt r - 1) ix ∧ slot ≠ 0
  end.
Proof.
  intros Hr. destruct (hgt_bound _ _ Hr) as [H11 _]. revert index.
  induction n as [|n IH]; intros index Hn Hi Hir Ha; cbn [scan_down].
  { eexists (inr _). split; [done|]. split; [lia|]. split; [done|]. split; [intros ? ?; lia|done]. }
  destruct (rep_node r m (hgt r - S (S n)) index Hr ltac:(lia) Hir Ha) as (x & Hx & Hok & _).
  rewrite Hx. cbn [deref]. fold (digit (S n) index). pose proof (digit_range (S n) index) as Hd.
  set (P := prefix (S (S n)) index).
  assert (Hslot : ∀ idx j, 0 ≤ idx < 2 ^ 64 → prefix (S n) idx = 64 * P + j → 0 ≤ j < 64 →
    in_range (hgt r) idx ∧ get_slot x j = at_r r (hgt r - S n) idx).
  { intros idx j Hidx Hp Hj. pose proof (prefix_step (S n) idx) as Hst. pose proof (digit_range (S n) idx).
    assert (prefix (S (S n)) idx = P ∧ digit (S n) idx = j) as [E1 E2] by lia.
    split; [apply (in_range_prefix _ (S (S n)) index); auto; lia|].
    replace (hgt r - S n)%nat with (S (hgt r - S (S n))) by lia. unfold at_r. simpl.
    fold (at_r r (hgt r - S (S n)) idx). replace (hgt r - S (hgt r - S (S n)))%nat with (S n) by lia. rewrite E2.
    assert (at_r r (hgt r - S (S n)) idx = at_r r (hgt r - S (S n)) index) as ->.
    { apply at_prefix; [lia|]. by replace (hgt r - (hgt r - S (S n)))%nat with (S (S n)) by lia. }
    symmetry. by apply slot_of_node. }
  pose proof (scan_slots_spec m x (S n) P (Z.to_nat (RADIX_TREE_MAP_SIZE - digit (S n) index)) index (digit (S n) index)
    ltac:(lia) Hi Hd eq_refl (prefix_step (S n) index)) as Hscan.
  destruct (scan_slots _ x index _ _) as [nx|[ix j]].
  - eexists (inl nx). split; [done|]. apply Hscan. intros idx j Hidx Hp Hj E. destruct (Hslot idx j Hidx Hp Hj) as [? E'].
    eapply (rep_none r m (hgt r - S n)); auto; [lia|congruence].
  - destruct Hscan as (Hix & He & Hj & Hp & Hne).
    { intros idx j' Hidx Hp Hj E. destruct (Hslot idx j' Hidx Hp Hj) as [? E'].
      eapply (rep_none r m (hgt r - S n)); auto; [lia|congruence]. }
    destruct (Hslot ix j ltac:(lia) Hp ltac:(lia)) as [Hirx Eslot]. apply Z.eqb_neq in Hne as Hne'. rewrite Hne', Eslot.
    destruct (shift_next (S n)) as [->|]; [lia| |lia]. replace (S n - 1)%nat with n by lia.
    destruct (IH ix) as (res & -> & Hres); [lia|lia|done|congruence|]. exists res. split; [done|].
    destruct res as [nx|[slot ix2]].
    + destruct Hres as (nx' & ? & ? & He2). exists nx'. split; [done|]. split; [lia|].
      intros idx ?. destruct (decide (idx < ix)); [apply He; lia|apply He2; lia].
    + destruct Hres as (? & ? & He2 & ? & ?). split; [lia|]. split; [done|]. split; [|done].
      intros idx ?. destruct (decide (idx < ix)); [apply He; lia|apply He2; lia].
Qed.

(** ** The bottom level *)

Lemma grab_slots_spec m a x P n i max found :
  0 ≤ P → 64 * P + 64 ≤ 2 ^ 64 → 0 ≤ i ≤ 64 → n = Z.to_nat (64 - i) → Z.of_nat (length found) < max →
  (∀ j, 0 ≤ j < 64 → nonnull (get_slot x j) = m !! (64 * P + j)) →
  ∃ nx l, grab_slots n a x (u64 (64 * P + i)) i max found =
      (u64 nx, found ++ ((λ e : Z * Z, NodeSlot a (e.1 - 64 * P)) <$> l)) ∧
    64 * P + i ≤ nx ≤ 64 * P + 64 ∧ (i < 64 → 64 * P + i < nx) ∧ enumerates l m (64 * P + i) nx ∧
    Z.of_nat (length found) + Z.of_nat (length l) ≤ max.
Proof.
  intros HP0 HP. revert i found. induction n as [|n IH]; intros i found Hi Hn Hlen Hx; cbn [grab_slots].
  { exists (64 * P + i), []. rewrite app_nil_r. split; [done|]. split; [lia|]. split; [lia|].
    split; [apply enumerates_nil; intros idx ?; lia|simpl; lia]. }
  rewrite (u64_small (64 * P + i)) by lia. replace (64 * P + i + 1) with (64 * P + (i + 1)) by lia.
  pose proof (Hx i ltac:(lia)) as Hxi. unfold nonnull in Hxi.
  destruct (Z.eqb_spec (get_slot x i) 0) as [E|E]; cbn [negb].
  - destruct (IH (i + 1) found) as (nx & l & -> & ? & ? & Hen & ?); [lia|lia|done|done|].
    exists nx, l. split; [done|]. split; [lia|]. split; [lia|]. split; [|done].
    change l with ([] ++ l). eapply (enumerates_app _ _ _ _ (64 * P + (i + 1))); [|done|lia].
    apply enumerates_nil. intros idx Hidx. by replace idx with (64 * P + i) by lia.
  - assert (Hs : enumerates [(64 * P + i, get_slot x i)] m (64 * P + i) (64 * P + (i + 1))).
    { replace (64 * P + (i + 1)) with (64 * P + i + 1) by lia. by apply enumerates_singleton. }
    assert (Hf : found ++ [NodeSlot a i] = found ++ ((λ e : Z * Z, NodeSlot a (e.1 - 64 * P)) <$> [(64 * P + i, get_slot x i)])).
    { simpl. by replace (64 * P + i - 64 * P) with i by lia. }
    destruct (Z.eqb_spec (Z.of_nat (length (found ++ [NodeSlot a i]))) max) as [El|El]; rewrite length_app in El; simpl in El.
    + eexists (64 * P + (i + 1)), [_]. split; [by rewrite Hf|]. split; [lia|]. split; [lia|]. split; [exact Hs|simpl; lia].
    + destruct (IH (i + 1) (found ++ [NodeSlot a i])) as (nx & l & -> & ? & ? & Hen & Hl); [lia|lia|rewrite length_app; simpl; lia|done|].
      exists nx, ((64 * P + i, get_slot x i) :: l). split; [rewrite Hf, <- app_assoc; done|]. split; [lia|]. split; [lia|].
      split; [eapply (enumerates_app [_]); [exact Hs|done|lia]|]. rewrite length_app in Hl. simpl in *. lia.
Qed.

(** The last node on the way holds the items. *)
Lemma bottom_slots r m ix j x :
  rep r m → (0 < hgt r)%nat → 0 ≤ ix < 2 ^ 64 → in_range (hgt r) ix → at_r r (hgt r - 1) ix ≠ 0 →
  rt_mem r !! at_r r (hgt r - 1) ix = Some x → 0 ≤ j < 64 →
  nonnull (get_slot x j) = m !! (64 * prefix 1 ix + j) ∧
  slot_ref r (64 * prefix 1 ix + j) = NodeSlot (at_r r (hgt r - 1) ix) j.
Proof.
  intros Hr HH Hi Hir Ha Hx Hj. pose proof (prefix_step 0 ix) as Hst. rewrite prefix_0 in Hst.
  pose proof (digit_range 0 ix) as Hd. set (idx := 64 * prefix 1 ix + j).
  assert (prefix 1 idx = prefix 1 ix ∧ digit 0 idx = j) as [E1 E2].
  { pose proof (prefix_step 0 idx) as Hst'. rewrite prefix_0 in Hst'. pose proof (digit_range 0 idx). unfold idx in *. lia. }
  assert (0 ≤ idx < 2 ^ 64) as Hidx.
  { pose proof (next_multiple 1 ix ltac:(lia) Hi) as Hn. change (span 1) with 64 in Hn.
    assert (0 ≤ prefix 1 ix) by (rewrite prefix_div; apply Z.div_pos; [lia|apply span_pos]). unfold idx. lia. }
  assert (in_range (hgt r) idx) as Hidr by (apply (in_range_prefix _ 1 ix); [lia|lia|done|done]).
  assert (at_r r (hgt r - 1) idx = at_r r (hgt r - 1) ix) as Eat.
  { apply at_prefix; [lia|]. by replace (hgt r - (hgt r - 1))%nat with 1%nat by lia. }
  split.
  - rewrite (rep_item r m) by done. f_equal. replace (at_r r (hgt r) idx) with (at_r r (S (hgt r - 1)) idx) by (f_equal; lia).
    rewrite at_r_S, Eat. replace (hgt r - S (hgt r - 1))%nat with 0%nat by lia. rewrite E2.
    symmetry. by apply slot_of_node.
  - unfold slot_ref. destruct (hgt r) as [|h] eqn:Eh; [lia|]. replace (S h - 1)%nat with h in * by lia.
    by rewrite Eat, E2.
Qed.

(** ** [__lookup] enumerates an initial part of what is left. *)
Lemma __lookup_spec r m index max :
  rep r m → (0 < hgt r)%nat → root r ≠ 0 → 0 ≤ index < 2 ^ 64 → in_range (hgt r) index → 0 < max →
  ∃ nx l, __lookup r (root r) index max = Ok (u64 nx, (λ e : Z * Z, slot_ref r e.1) <$> l) ∧
    index < nx ≤ 2 ^ 64 ∧ enumerates l m index nx ∧ Z.of_nat (length l) ≤ max.
Proof.
  intros Hr HH Hroot Hi Hir Hmax. destruct (hgt_bound _ _ Hr) as [H11 _].
  destruct (root_node _ _ _ (rp_wf _ _ Hr) HH Hroot) as (x & Hx & [Hxh _ _]).
  unfold __lookup. rewrite Hx. cbn [deref]. rewrite Hxh. destruct (Z.eqb_spec (Z.of_nat (hgt r)) 0) as [|_]; [lia|].
  rewrite shift_top, Nat2Z.id by lia. replace (Z.to_nat (Z.of_nat (hgt r) - 1)) with (hgt r - 1)%nat by lia.
  pose proof (scan_down_spec r m (hgt r - 1) index Hr ltac:(lia) Hi Hir) as Hscan.
  replace (hgt r - S (hgt r - 1))%nat with 0%nat in Hscan by lia. change (at_r r 0 index) with (root r) in Hscan.
  destruct (Hscan Hroot) as (res & -> & Hres). cbn [mbind outcome_bind]. destruct res as [nx|[slot ix]].
  - destruct Hres as (nx' & -> & ? & He). exists nx', []. split; [done|]. split; [done|].
    split; [by apply enumerates_nil|simpl; lia].
  - destruct Hres as (Hix & Hirx & He & -> & Hne).
    destruct (rep_node r m (hgt r - 1) ix Hr ltac:(lia) Hirx Hne) as (y & Hy & _ & _). rewrite Hy. cbn [deref].
    change (Z.land ix RADIX_TREE_MAP_MASK) with (Z.land (Z.shiftr ix (6 * Z.of_nat 0)) RADIX_TREE_MAP_MASK).
    fold (slot_offset ix (6 * Z.of_nat 0)). fold (digit 0 ix). pose proof (digit_range 0 ix) as Hd.
    pose proof (prefix_step 0 ix) as Hst. rewrite prefix_0 in Hst. pose proof (next_multiple 1 ix ltac:(lia) ltac:(lia)) as Hn.
    change (span 1) with 64 in Hn. assert (0 ≤ prefix 1 ix) by (rewrite prefix_div; apply Z.div_pos; [lia|apply span_pos]).
    destruct (grab_slots_spec m (at_r r (hgt r - 1) ix) y (prefix 1 ix) (Z.to_nat (RADIX_TREE_MAP_SIZE - digit 0 ix)) (digit 0 ix) max [])
      as (nx & l & Hg & Hnx & Hlt & Hen & Hl); [lia|lia|lia|done|simpl; lia| |].
    { intros j Hj. by apply (bottom_slots r m ix j y); [..|lia|done|done|done|done]. }
    rewrite <- Hst, u64_small in Hg by lia. rewrite Hg. simpl app. exists nx, l.
    split; [|split; [lia|split; [|done]]].
    + do 2 f_equal. apply list_fmap_ext. intros k [e v] Hk. simpl. apply list_elem_of_lookup_2 in Hk. apply Hen in Hk as [_ Hk].
      destruct (bottom_slots r m ix (e - 64 * prefix 1 ix) y) as [_ E]; [done|done|lia|done|done|done|lia|].
      by replace (64 * prefix 1 ix + (e - 64 * prefix 1 ix)) with e in E by lia.
    + rewrite <- Hst in Hen. change l with ([] ++ l). eapply enumerates_app; [by apply enumerates_nil|done|lia].
Qed.

(** ** Gang look-ups *)

(** [l] is the beginning of the entries from [first] on: all of them, or as
    many as asked for. *)
Definition first_entries (m : gmap Z Z) (first max : Z) (l : list (Z * Z)) : Prop :=
  ∃ b, enumerates l m first b ∧ first ≤ b ≤ 2 ^ 64 ∧ Z.of_nat (length l) ≤ max ∧
       (Z.of_nat (length l) = max ∨ b = 2 ^ 64).

Section gang.
Context {A : Type} (conv : list slotref → outcome (list A)) (f : Z * Z → A) (r : radix) (m : gmap Z Z).
Context (Hr : rep r m) (HH : (0 < hgt r)%nat) (Hroot : root r ≠ 0).
Context (Hconv : ∀ l, (∀ e, e ∈ l → m !! e.1 = Some e.2) →
  conv ((λ e : Z * Z, slot_ref r e.1) <$> l) = Ok (f <$> l)).

(** No item lies beyond the height of the tree. *)
Lemma beyond_height cur : span (hgt r) ≤ cur → empty_between m cur (2 ^ 64).
Proof.
  intros Hc idx Hi. pose proof (span_pos (hgt r)). rewrite (rp_map _ _ Hr) by lia. unfold item.
  by rewrite decide_False by lia.
Qed.

Lemma gang_loop_spec mi first max fuel cur l :
  (∀ idx, 0 ≤ idx < 2 ^ 64 → (mi <? idx) = negb (bool_decide (idx < span (hgt r)))) →
  0 ≤ first ≤ cur → cur < 2 ^ 64 → enumerates l m first cur → Z.of_nat (length l) ≤ max →
  (Z.to_nat (Z.min (span (hgt r)) (2 ^ 64) - cur) < fuel)%nat →
  ∃ l', gang_loop conv fuel r (root r) mi cur max (f <$> l) = Ok (f <$> l') ∧ first_entries m first max l'.
Proof.
  intros Hmi. revert cur l. induction fuel as [|fuel IH]; intros cur l Hc Hc64 Hen Hl Hf; [lia|]. cbn [gang_loop].
  rewrite length_fmap. destruct (Z.ltb_spec (Z.of_nat (length l)) max) as [Hlt|Hge].
  2: { exists l. split; [done|]. exists cur. split; [done|]. split; [lia|]. split; [done|]. left. lia. }
  rewrite Hmi by lia. destruct (decide (cur < span (hgt r))) as [Hs|Hs].
  2: { rewrite bool_decide_eq_false_2 by done. simpl. exists l. split; [done|]. exists (2 ^ 64).
       split; [|split; [lia|split; [done|by right]]]. rewrite <- (app_nil_r l). eapply enumerates_app; [done| |lia].
       apply enumerates_nil, beyond_height. lia. }
  rewrite bool_decide_eq_true_2 by done. cbn [negb].
  destruct (__lookup_spec r m cur (max - Z.of_nat (length l)) Hr HH Hroot) as (nx & l1 & -> & Hnx & Hen1 & Hl1);
    [lia|split; [lia|done]|lia|]. cbn [mbind outcome_bind].
  rewrite Hconv by (intros [e v] [? _]%Hen1; done). cbn [mbind outcome_bind]. rewrite <- fmap_app.
  assert (enumerates (l ++ l1) m first nx) as Hen2 by (eapply enumerates_app; [done|done|lia]).
  destruct (decide (nx = 2 ^ 64)) as [->|Hne].
  - change (u64 (2 ^ 64)) with 0. simpl. exists (l ++ l1). split; [done|]. exists (2 ^ 64). split; [done|].
    split; [lia|]. split; [rewrite length_app; lia|by right].
  - rewrite u64_small by lia. destruct (Z.eqb_spec nx 0) as [|_]; [lia|].
    apply IH; [lia|lia|done|rewrite length_app; lia|lia].
Qed.

Lemma gang_lookup_tree direct fuel first max :
  0 ≤ first < 2 ^ 64 → 0 < max → (Z.to_nat (Z.min (span (hgt r)) (2 ^ 64) - first) < fuel)%nat →
  ∃ l, gang_lookup conv direct fuel r first max = Ok (f <$> l) ∧ first_entries m first max l.
Proof.
  intros Hfi Hmax Hfuel. unfold gang_lookup. rewrite (root_null _ _ Hr).
  apply Z.eqb_neq in Hroot as Hroot'. rewrite Hroot'.
  assert (rt_rnode r ≠ 0) as Hn by (intros E; apply Hroot; unfold root; by rewrite E).
  rewrite (root_indirect _ _ Hr Hn), bool_decide_eq_true_2 by done. cbn [negb]. fold (root r).
  destruct (root_node _ _ _ (rp_wf _ _ Hr) HH Hroot) as (x & -> & [Hxh _ _]). cbn [deref]. rewrite Hxh.
  destruct (hgt_bound _ _ Hr) as [H11 _].
  destruct (maxindex_spec (Z.of_nat (hgt r)) 0 ltac:(lia) ltac:(lia)) as (mi & E & _). rewrite E. cbn [mbind outcome_bind].
  apply (gang_loop_spec mi first max fuel first []); auto; [|lia|lia|apply enumerates_nil; intros ? ?; lia|simpl; lia].
  intros idx Hi. destruct (maxindex_spec (Z.of_nat (hgt r)) idx ltac:(lia) Hi) as (mi' & E' & Hmi).
  rewrite Nat2Z.id in Hmi. congruence.
Qed.
End gang.

(** The whole function, for trees of any height. *)
Lemma gang_lookup_spec {A} (conv : list slotref → outcome (list A)) (f : Z * Z → A) r m fuel first max :
  rep r m → 0 ≤ first < 2 ^ 64 → 0 < max → (Z.to_nat (Z.min (span (hgt r)) (2 ^ 64) - first) < fuel)%nat →
  (∀ l, (∀ e, e ∈ l → m !! e.1 = Some e.2) → conv ((λ e : Z * Z, slot_ref r e.1) <$> l) = Ok (f <$> l)) →
  ∃ l, gang_lookup conv (f (0, rt_rnode r)) fuel r first max = Ok (f <$> l) ∧ first_entries m first max l.
Proof.
  intros Hr Hfi Hmax Hfuel Hconv. destruct (decide (root r = 0)) as [E0|E0].
  - assert (empty_between m first (2 ^ 64)) as He.
    { intros idx Hi. rewrite (rp_map _ _ Hr) by lia. unfold item, at_r. rewrite E0.
      rewrite at_zero by apply Hr. by case_decide. }
    exists []. split; [unfold gang_lookup; by rewrite (root_null _ _ Hr), E0|].
    exists (2 ^ 64). split; [by apply enumerates_nil|]. split; [lia|]. split; [simpl; lia|by right].
  - destruct (decide (hgt r = 0)%nat) as [H0|HH]; [|by apply gang_lookup_tree; auto; lia].
    destruct (hgt_bound _ _ Hr) as [_ Hh]. pose proof (root_direct _ _ Hr ltac:(lia)) as Ed.
    assert (Hm : ∀ idx, 0 ≤ idx < 2 ^ 64 → m !! idx = if decide (idx = 0) then Some (rt_rnode r) else None).
    { intros idx Hi. rewrite (rp_map _ _ Hr) by lia. unfold item, at_r. rewrite H0. change (span 0) with 1. simpl.
      rewrite Ed. destruct (decide (idx = 0)) as [->|]; [by rewrite decide_True, nonnull_ne by (lia || congruence)|].
      by rewrite decide_False by lia. }
    unfold gang_lookup. rewrite (root_null _ _ Hr). apply Z.eqb_neq in E0 as E0'. rewrite E0'.
    rewrite (root_indirect _ _ Hr), bool_decide_eq_false_2 by (lia || congruence). cbn [negb].
    assert (He : ∀ a, 0 < a → empty_between m a (2 ^ 64)) by (intros a ? idx Hi; rewrite Hm, decide_False by lia; done).
    destruct (Z.ltb_spec 0 first).
    + exists []. split; [done|]. exists (2 ^ 64). split; [by apply enumerates_nil, He|]. split; [lia|]. split; [simpl; lia|by right].
    + exists [(0, rt_rnode r)]. split; [done|]. exists (2 ^ 64). assert (first = 0) as -> by lia.
      split; [|split; [lia|split; [simpl; lia|by right]]].
      apply (enumerates_app [_] [] m 0 (0 + 1)); [|by apply enumerates_nil, He|lia].
      apply enumerates_singleton. by rewrite Hm.
Qed.

Lemma deref_slots_spec r m l :
  rep r m → (∀ e, e ∈ l → m !! e.1 = Some e.2) →
  deref_slots r ((λ e : Z * Z, slot_ref r e.1) <$> l) = Ok (snd <$> l) ∧
  ∀ e, e ∈ l → radix_tree_deref_slot r (slot_ref r e.1) = Ok e.2.
Proof.
  intros Hr Hl.
  assert (Hd : ∀ e, e ∈ l → radix_tree_deref_slot r (slot_ref r e.1) = Ok e.2 ∧ e.2 ≠ 0 ∧ Z.even e.2 = true).
  { intros [idx v] He. pose proof (Hl _ He) as Hv. simpl in *.
    pose proof (rp_keys _ _ Hr idx ltac:(eauto)) as Hi. rewrite (rp_map _ _ Hr) in Hv by lia.
    unfold item in Hv. destruct (decide (idx < span (hgt r))) as [Hs|Hs]; [|done].
    assert (in_range (hgt r) idx) as Hir by (split; [lia|done]). unfold nonnull in Hv.
    destruct (Z.eqb_spec (at_r r (hgt r) idx) 0) as [|Hne]; [done|]. injection Hv as <-.
    split; [|split; [done|by apply (rep_even r m)]].
    unfold slot_ref. destruct (hgt r) as [|h] eqn:Eh; simpl.
    - destruct (hgt_bound _ _ Hr) as [_ Hh]. unfold at_r. rewrite Eh. simpl. by rewrite (root_direct _ _ Hr) by lia.
    - assert (at_r r h idx ≠ 0) as Hne'.
      { intros E. apply Hne. eapply (at_null _ _ _ h); [apply Hr|lia|done]. }
      destruct (rep_node r m h idx Hr ltac:(lia) ltac:(by rewrite Eh) Hne') as (x & -> & _ & Hs'). simpl.
      rewrite Eh, Nat.sub_diag in Hs'. by rewrite Hs'. }
  split; [|intros e He; by apply Hd]. clear Hl. induction l as [|e l IH]; [done|].
  rewrite fmap_cons. cbn [deref_slots]. destruct (Hd e ltac:(by left)) as (-> & Hne & Hev). cbn [mbind outcome_bind].
  rewrite IH by (intros e' ?; apply Hd; by right). cbn [mbind outcome_bind].
  apply Z.eqb_neq in Hne. rewrite Hne, untag_even by done. done.
Qed.
