(* ===== verification/RadixTreeDestroy.v ===== *)
(** * Destruction (xen/common/radix-tree.c, [radix_tree_destroy])

    The recursion frees every node once and hands every item to [slot_free],
    in ascending order of index. *)

From stdpp Require Import sorting.
From S2P Require Import Prelude RadixTree RadixTreeInv RadixTreeOps RadixTreeScan.
Local Open Scope xen_scope.

Section destroy.
Context (r0 : radix) (m : gmap Z Z) (slot_free : bool).
Context (Hr : rep r0 m).

Abbreviation ht := (hgt r0).
Abbreviation at0 := (at_r r0).

(** The nodes below depth [n] on the way to [idx]. *)
Definition under (n : nat) (idx a : Z) : Prop :=
  ∃ n' idx', (n ≤ n' < ht)%nat ∧ in_range ht idx' ∧ prefix (ht - n) idx' = prefix (ht - n) idx ∧
    at0 n' idx' = a ∧ a ≠ 0.

(** The index at the start of child [j]. *)
Definition child (n : nat) (idx j : Z) : Z := (64 * prefix (ht - n) idx + j) * span (ht - S n).

Lemma child_spec n idx j :
  (S n ≤ ht)%nat → in_range ht idx → 0 ≤ j < 64 →
  in_range ht (child n idx j) ∧ prefix (ht - n) (child n idx j) = prefix (ht - n) idx ∧
  digit (ht - S n) (child n idx j) = j ∧ prefix (ht - S n) (child n idx j) = 64 * prefix (ht - n) idx + j.
Proof.
  intros Hn Hi Hj. pose proof (span_pos (ht - S n)). assert (0 ≤ prefix (ht - n) idx).
  { rewrite prefix_div. apply Z.div_pos; [apply Hi|apply span_pos]. }
  assert (prefix (ht - S n) (child n idx j) = 64 * prefix (ht - n) idx + j) as E
    by (apply prefix_eq; unfold child; lia).
  pose proof (prefix_step (ht - S n) (child n idx j)) as Hst. replace (S (ht - S n)) with (ht - n)%nat in Hst by lia.
  pose proof (digit_range (ht - S n) (child n idx j)).
  assert (0 ≤ child n idx j) by (unfold child; nia).
  assert (prefix (ht - n) (child n idx j) = prefix (ht - n) idx) as E2 by lia.
  split; [|split; [done|split; [lia|done]]]. apply (in_range_prefix ht (ht - n) idx); [lia|done|done|done].
Qed.

Lemma child_at n idx j x :
  (S n ≤ ht)%nat → in_range ht idx → 0 ≤ j < 64 → rt_mem r0 !! at0 n idx = Some x →
  get_slot x j = at0 (S n) (child n idx j) ∧ at0 n (child n idx j) = at0 n idx.
Proof.
  intros Hn Hi Hj Hx. destruct (child_spec n idx j Hn Hi Hj) as (Hic & E1 & E2 & _).
  assert (at0 n (child n idx j) = at0 n idx) as E by (apply at_prefix; [lia|done]).
  split; [|done]. rewrite at_r_S, E, E2. symmetry. by apply slot_of_node.
Qed.

(** A node below depth [n] is the node itself or is below a child. *)
Lemma under_inv n idx a :
  (S n ≤ ht)%nat → in_range ht idx → under n idx a →
  a = at0 n idx ∨ ∃ j, 0 ≤ j < 64 ∧ under (S n) (child n idx j) a.
Proof.
  intros Hn Hi (n' & idx' & Hn' & Hi' & Hp & Ha & Hne). destruct (decide (n' = n)) as [->|].
  { left. rewrite <- Ha. apply at_prefix; [lia|done]. }
  right. exists (digit (ht - S n) idx'). pose proof (digit_range (ht - S n) idx') as Hd. split; [done|].
  destruct (child_spec n idx (digit (ht - S n) idx') Hn Hi Hd) as (_ & E1 & E2 & _).
  exists n', idx'. split; [lia|]. split; [done|]. split; [|done].
  apply prefix_split. replace (S (ht - S n)) with (ht - n)%nat by lia. by rewrite E1, E2.
Qed.

Lemma under_child n idx j a :
  (S n ≤ ht)%nat → in_range ht idx → 0 ≤ j < 64 → under (S n) (child n idx j) a →
  under n idx a ∧ a ≠ at0 n idx ∧ ∀ i, 0 ≤ i < 64 → under (S n) (child n idx i) a → i = j.
Proof.
  intros Hn Hi Hj (n' & idx' & Hn' & Hi' & Hp & Ha & Hne). destruct (child_spec n idx j Hn Hi Hj) as (Hic & E1 & E2 & E3).
  split; [|split].
  - exists n', idx'. split; [lia|]. split; [done|]. split; [|done]. rewrite <- E1. eapply (prefix_mono (ht - S n)); [lia|done].
  - intros E. assert (n' = n); [|lia].
    apply (at_level (rt_mem r0) (root r0) ht n' n idx' idx); [apply Hr|lia|lia|done|done|..];
      change (at0 n' idx' ≠ 0) || change (at0 n' idx' = at0 n idx); congruence.
  - intros i Hii (n2 & idx2 & Hn2 & Hi2 & Hp2 & Ha2 & _). destruct (child_spec n idx i Hn Hi Hii) as (_ & _ & _ & F3).
    assert (at0 n' idx' = at0 n2 idx2) as Eat by congruence. assert (at0 n' idx' ≠ 0) as Hnz by congruence.
    assert (n' = n2) as <- by (apply (at_level (rt_mem r0) (root r0) ht n' n2 idx' idx2); [apply Hr|lia|lia|done..]).
    pose proof (tw_inj _ _ _ (rp_wf _ _ Hr) n' idx' idx2 ltac:(lia) Hi' Hi2 Hnz Eat) as Ep.
    apply (prefix_mono _ (ht - S n)) in Ep; [|lia]. rewrite Hp, Hp2, E3, F3 in Ep. lia.
Qed.

(** What destroying the subtree at depth [n] does to [r]. *)
Record razed (n : nat) (idx : Z) (r : radix) (l : list (Z * Z)) (r' : radix) : Prop := {
  rz_gone a : under n idx a → rt_mem r' !! a = None;
  rz_rest a : ¬ under n idx a → rt_mem r' !! a = rt_mem r !! a;
  rz_items : enumerates l m (prefix (ht - n) idx * span (ht - n)) ((prefix (ht - n) idx + 1) * span (ht - n));
}.

(** The body of the loop over the slots. *)
Definition destroy_slot (fuel : nat) (node : Z) (acc : outcome (list Z * radix)) (i : Z) : outcome (list Z * radix) :=
  let! (items, r) := acc in
  deref (rt_mem r !! node) (λ x,
    let slot := get_slot x i in
    BUG_ON (radix_tree_is_indirect_ptr slot)
      (if slot =? 0 then Ok (items, r)
       else if n_height x =? 1 then Ok (if slot_free then items ++ [slot] else items, r)
       else
         let! (l, r1) := radix_tree_node_destroy fuel slot_free slot r in
         Ok (items ++ l, r1))).

Definition given (l : list (Z * Z)) : list Z := if slot_free then l.*2 else [].

Lemma given_app l1 l2 : given (l1 ++ l2) = given l1 ++ given l2.
Proof. unfold given. destruct slot_free; [apply fmap_app|done]. Qed.

(** State of the loop after the slots below [i]. *)
Record slots_razed (n : nat) (idx i : Z) (r : radix) (l : list (Z * Z)) (r' : radix) : Prop := {
  sr_gone a : (∃ j, 0 ≤ j < i ∧ under (S n) (child n idx j) a) → rt_mem r' !! a = None;
  sr_rest a : ¬ (∃ j, 0 ≤ j < i ∧ under (S n) (child n idx j) a) → rt_mem r' !! a = rt_mem r !! a;
  sr_items : enumerates l m (child n idx 0) (child n idx i);
}.

Lemma destroy_slot_spec fuel n idx i r l ri x :
  (S n ≤ ht)%nat → in_range ht idx → 0 ≤ i < 64 → at0 n idx ≠ 0 → rt_mem r0 !! at0 n idx = Some x →
  (∀ a, under n idx a → rt_mem r !! a = rt_mem r0 !! a) → slots_razed n idx i r l ri →
  (∀ idx' r1, (S n < ht)%nat → in_range ht idx' → at0 (S n) idx' ≠ 0 →
     (∀ a, under (S n) idx' a → rt_mem r1 !! a = rt_mem r0 !! a) →
     ∃ l1 r2, radix_tree_node_destroy fuel slot_free (at0 (S n) idx') r1 = Ok (given l1, r2) ∧ razed (S n) idx' r1 l1 r2) →
  ∃ l' r', destroy_slot fuel (at0 n idx) (Ok (given l, ri)) i = Ok (given l', r') ∧ slots_razed n idx (i + 1) r l' r'.
Proof.
  intros Hn Hi Hii Hp Hx Hsame [G1 G2 G3] IH. unfold destroy_slot. cbn [mbind outcome_bind].
  assert (under n idx (at0 n idx)) as Hup by (exists n, idx; repeat split_and; auto; lia).
  rewrite G2, Hsame, Hx; [|done|].
  2: { intros (j & Hj & Hu). destruct (under_child n idx j _ Hn Hi ltac:(lia) Hu) as (_ & ? & _). done. }
  cbn [deref]. destruct (child_spec n idx i Hn Hi Hii) as (Hic & _ & _ & Ep).
  destruct (child_at n idx i x Hn Hi Hii Hx) as [Es _]. rewrite Es.
  destruct (rep_node r0 m n idx Hr ltac:(lia) Hi Hp) as (x' & Hx' & [Hxh _ _] & _). assert (x' = x) as -> by congruence.
  rewrite is_indirect_odd, <- Z.negb_even, (rep_even r0 m (S n) _ Hr) by (lia || done). cbn [negb BUG_ON].
  pose proof (span_pos (ht - S n)) as Hsp.
  assert (Hrange : child n idx (i + 1) = (prefix (ht - S n) (child n idx i) + 1) * span (ht - S n) ∧
                   child n idx i = prefix (ht - S n) (child n idx i) * span (ht - S n)).
  { rewrite Ep. unfold child. split; lia. }
  destruct Hrange as [R1 R2]. assert (Hmono : child n idx 0 ≤ child n idx i) by (unfold child; nia).
  assert (Hstep : ∀ l1 r', enumerates l1 m (child n idx i) (child n idx (i + 1)) →
    (∀ a, under (S n) (child n idx i) a → rt_mem r' !! a = None) →
    (∀ a, ¬ under (S n) (child n idx i) a → rt_mem r' !! a = rt_mem ri !! a) → slots_razed n idx (i + 1) r (l ++ l1) r').
  { intros l1 r' He Hg1 Hg2. split.
    - intros a (j & Hj & Hu). destruct (decide (j = i)) as [->|Hji]; [by apply Hg1|]. rewrite Hg2.
      + apply G1. exists j. split; [lia|done].
      + intros Hu'. apply Hji. symmetry. by eapply (under_child n idx j a Hn Hi ltac:(lia) Hu).
    - intros a Hna. rewrite Hg2; [apply G2|]; intros Hu; apply Hna.
      + destruct Hu as (j & Hj & Hu). exists j. split; [lia|done].
      + exists i. split; [lia|done].
    - eapply enumerates_app; [done|exact He|]. lia. }
  destruct (Z.eqb_spec (at0 (S n) (child n idx i)) 0) as [Ez|Ez].
  - exists l, ri. split; [done|]. rewrite <- (app_nil_r l). apply Hstep.
    + apply enumerates_nil. intros ix Hix. assert (0 ≤ ix) by (destruct Hic; lia).
      rewrite (rp_map _ _ Hr) by done. unfold item. case_decide as Hs; [|done].
      assert (at0 (S n) ix = 0) as E0.
      { rewrite <- Ez. apply at_prefix; [lia|]. apply prefix_eq. lia. }
      assert (at0 ht ix = 0) as ->; [|done]. eapply (at_null _ _ _ (S n)); [apply Hr|lia|done].
    + intros a (n' & idx' & Hn' & Hi' & Hpr & Ha & Hne). exfalso. apply Hne. rewrite <- Ha.
      eapply (at_null _ _ _ (S n)); [apply Hr|lia|]. rewrite <- Ez. apply at_prefix; [lia|done].
    + done.
  - rewrite Hxh. destruct (Z.eqb_spec (Z.of_nat (ht - n)) 1) as [E1|E1].
    + assert (ht = S n) as EH by lia. exists (l ++ [(child n idx i, at0 (S n) (child n idx i))]), ri.
      split; [rewrite given_app; unfold given; destruct slot_free; [done|by rewrite app_nil_r]|].
      apply Hstep; [|intros a (n' & idx' & Hn' & _); lia|done].
      replace (ht - S n)%nat with 0%nat in * by lia. change (span 0) with 1 in *.
      rewrite R1. replace ((prefix 0 (child n idx i) + 1) * 1) with (child n idx i + 1) by lia.
      apply enumerates_singleton. destruct Hic as [Hc1 Hc2]. rewrite (rp_map _ _ Hr) by done. unfold item.
      rewrite decide_True by done. rewrite EH. by apply nonnull_ne.
    + destruct (IH (child n idx i) ri) as (l1 & r2 & -> & [Z1 Z2 Z3]); [lia|done|done| |].
      { intros a Hu. destruct (under_child n idx i a Hn Hi Hii Hu) as (Hun & _ & Huniq). rewrite G2; [by apply Hsame|].
        intros (j & Hj & Hu'). assert (j = i) by (apply Huniq; [lia|done]). lia. }
      cbn [mbind outcome_bind]. exists (l ++ l1), r2. split; [by rewrite given_app|]. apply Hstep; [|done|done].
      by rewrite R1, R2 at 1.
Qed.

Lemma node_destroy_unfold fuel node r :
  radix_tree_node_destroy (S fuel) slot_free node r =
    let! (items, r') := foldl (destroy_slot fuel node) (Ok ([], r)) (seqZ 0 RADIX_TREE_MAP_SIZE) in
    let! r'' := radix_tree_node_free node r' in Ok (items, r'').
Proof. done. Qed.

(** The slots from [i] on. *)
Lemma destroy_slots_spec fuel n idx k i r l ri x :
  (S n ≤ ht)%nat → in_range ht idx → 0 ≤ i → i + Z.of_nat k = 64 → at0 n idx ≠ 0 → rt_mem r0 !! at0 n idx = Some x →
  (∀ a, under n idx a → rt_mem r !! a = rt_mem r0 !! a) → slots_razed n idx i r l ri →
  (∀ idx' r1, (S n < ht)%nat → in_range ht idx' → at0 (S n) idx' ≠ 0 →
     (∀ a, under (S n) idx' a → rt_mem r1 !! a = rt_mem r0 !! a) →
     ∃ l1 r2, radix_tree_node_destroy fuel slot_free (at0 (S n) idx') r1 = Ok (given l1, r2) ∧ razed (S n) idx' r1 l1 r2) →
  ∃ l' r', foldl (destroy_slot fuel (at0 n idx)) (Ok (given l, ri)) (seqZ i (Z.of_nat k)) = Ok (given l', r') ∧
    slots_razed n idx 64 r l' r'.
Proof.
  intros Hn Hi Hi0 Hk Hp Hx Hsame Hs IH. revert i l ri Hi0 Hk Hs.
  induction k as [|k IHk]; intros i l ri Hi0 Hk Hs.
  { replace i with 64 in Hs by lia. by exists l, ri. }
  rewrite seqZ_cons by lia. cbn [foldl].
  destruct (destroy_slot_spec fuel n idx i r l ri x) as (l' & r' & -> & Hs'); [done|done|lia|done..|].
  replace (Z.pred (Z.of_nat (S k))) with (Z.of_nat k) by lia. apply IHk; [lia|lia|]. by replace (Z.succ i) with (i + 1) by lia.
Qed.

Lemma node_destroy_spec fuel n idx r :
  (ht - n ≤ fuel)%nat → (n < ht)%nat → in_range ht idx → at0 n idx ≠ 0 →
  (∀ a, under n idx a → rt_mem r !! a = rt_mem r0 !! a) →
  ∃ l r', radix_tree_node_destroy fuel slot_free (at0 n idx) r = Ok (given l, r') ∧ razed n idx r l r'.
Proof.
  revert n idx r. induction fuel as [|fuel IH]; intros n idx r Hf Hn Hi Hp Hsame; [lia|].
  destruct (rep_node r0 m n idx Hr Hn Hi Hp) as (x & Hx & _ & _).
  rewrite node_destroy_unfold. change RADIX_TREE_MAP_SIZE with (Z.of_nat 64).
  replace (Ok ([], r)) with (Ok (given [], r)) by (unfold given; by destruct slot_free).
  destruct (destroy_slots_spec fuel n idx 64 0 r [] r x) as (l & r1 & -> & [S1 S2 S3]); auto; [lia| |..].
  - split; [intros a (j & ? & _); lia|done|]. apply enumerates_nil. intros ix ?. lia.
  - intros idx' r1 Hlt Hi' Hp' Hs'. apply IH; [lia|lia|done..].
  - cbn [mbind outcome_bind]. unfold radix_tree_node_free.
    assert (Hout : ¬ ∃ j, 0 ≤ j < 64 ∧ under (S n) (child n idx j) (at0 n idx)).
    { intros (j & Hj & Hu). by destruct (under_child n idx j _ Hn Hi Hj Hu) as (_ & ? & _). }
    assert (under n idx (at0 n idx)) as Hup by (exists n, idx; repeat split_and; auto; lia).
    rewrite (S2 _ Hout), (Hsame _ Hup), Hx. cbn [deref mbind outcome_bind].
    exists l. eexists. split; [done|]. split; simpl.
    + intros a Hu. destruct (decide (a = at0 n idx)) as [->|Hne]; [apply lookup_delete_eq|].
      rewrite lookup_delete_ne by done. destruct (under_inv n idx a Hn Hi Hu) as [?|(j & Hj & Huj)]; [done|].
      apply S1. by exists j.
    + intros a Hna. rewrite lookup_delete_ne by (intros <-; done). apply S2. intros (j & Hj & Hu). apply Hna.
      by apply (under_child n idx j).
    + assert (span (ht - n) = span (ht - S n) * 64) as E by (replace (ht - n)%nat with (S (ht - S n)) by lia; apply span_S).
      unfold child in S3. rewrite E. replace (prefix (ht - n) idx * (span (ht - S n) * 64)) with ((64 * prefix (ht - n) idx + 0) * span (ht - S n)) by lia.
      by replace ((prefix (ht - n) idx + 1) * (span (ht - S n) * 64)) with ((64 * prefix (ht - n) idx + 64) * span (ht - S n)) by lia.
Qed.

(** Razing the root leaves nothing. *)
Lemma razed_root l r' : razed 0 0 r0 l r' → rt_mem r' = ∅.
Proof.
  intros [Z1 Z2 _]. pose proof (rp_wf _ _ Hr) as Hwf. apply map_empty. intros a.
  destruct (rt_mem r' !! a) as [x|] eqn:Ea; [|done]. destruct (rt_mem r0 !! a) as [y|] eqn:Ea0.
  - rewrite Z1 in Ea; [done|]. destruct (tw_own _ _ _ Hwf a) as (n & idx & Hn' & Hi & E); [by eexists|].
    exists n, idx. split; [lia|]. split; [done|]. split; [|split; [done|]].
    + rewrite Nat.sub_0_r. transitivity 0; [|symmetry]; apply prefix_in_range; (apply Hi || lia || apply in_range_0 || done).
    + intros ->. by rewrite (tw_null _ _ _ Hwf) in Ea0.
  - rewrite Z2 in Ea; [congruence|]. intros (n & idx & Hn' & Hi & _ & E & Hne).
    destruct (rep_node r0 m n idx Hr) as (y & Hy & _); [lia|done|congruence|congruence].
Qed.

(** The whole tree: an empty one is left, no node remains and every item was
    handed out in order. *)
Lemma radix_tree_destroy_spec :
  ∃ l r', radix_tree_destroy r0 slot_free = Ok (given l, r') ∧ enumerates l m 0 (2 ^ 64) ∧
    rt_mem r' = ∅ ∧ rt_rnode r' = 0 ∧ rep r' ∅.
Proof.
  pose proof Hr as [R1 R2 R3 R4 R5 R6]. unfold radix_tree_destroy. rewrite (root_null _ _ Hr).
  assert (Hempty : ∀ r', rt_mem r' = ∅ → rt_rnode r' = 0 → 0 ≤ rt_height r' ≤ 11 → rep r' ∅).
  { intros r' E1 E2 E3. assert (root r' = 0) as Eroot by (unfold root; by rewrite E2).
    split; auto; [done|rewrite E1, Eroot; apply null_tree_wf| |intros idx [v Hv]; done].
    intros idx _. rewrite lookup_empty. unfold item, at_r. rewrite Eroot, E1, at_zero by done. by case_decide. }
  assert (Hall : ∀ l b, span ht ≤ b → enumerates l m 0 b → enumerates l m 0 (2 ^ 64)).
  { intros l b Hb [E1 E2]. split; [done|]. intros idx v. rewrite E2. split.
    - intros [E Hi]. split; [done|]. apply R6. eauto.
    - intros [E Hi]. split; [done|]. split; [lia|]. destruct (decide (idx < span ht)) as [|Hge]; [lia|].
      rewrite R5 in E by lia. unfold item in E. by rewrite decide_False in E. }
  destruct (Z.eqb_spec (root r0) 0) as [E0|E0].
  - assert (rt_rnode r0 = 0) as En by auto. rewrite E0 in R4. pose proof (null_tree _ _ R4) as Em.
    exists [], r0. split; [unfold given; by destruct slot_free|]. split; [|by auto].
    apply enumerates_nil. intros idx Hi. rewrite R5 by lia. unfold item, at_r. rewrite E0, Em, at_zero by done. by case_decide.
  - assert (rt_rnode r0 ≠ 0) as Hn by (intros E; apply E0; unfold root; by rewrite E).
    rewrite (root_indirect _ _ Hr Hn). destruct (hgt_bound _ _ Hr) as [H11 Hh].
    destruct (decide (0 < ht)%nat) as [HH|HH].
    + rewrite bool_decide_eq_true_2 by done. cbn [negb]. fold (root r0).
      destruct (node_destroy_spec (S (Z.to_nat RADIX_TREE_MAX_PATH)) 0 0 r0) as (l & r' & Hrun & [Z1 Z2 Z3]);
        [change (Z.to_nat RADIX_TREE_MAX_PATH) with 11%nat; lia|done|apply in_range_0|done|done|].
      change (at0 0 0) with (root r0) in Hrun. rewrite Hrun. cbn [mbind outcome_bind].
      assert (rt_mem r' = ∅) as Em by (apply (razed_root l); by split).
      exists l, (radix_tree_init r'). split; [done|]. rewrite Nat.sub_0_r in Z3. assert (prefix ht 0 = 0) as Ep by (apply prefix_in_range; [lia|apply in_range_0]).
      rewrite Ep in Z3. split; [apply (Hall l ((0 + 1) * span ht)); [lia|done]|]. split; [done|]. split; [done|]. apply Hempty; [done|done|simpl; lia].
    + rewrite bool_decide_eq_false_2 by done. cbn [negb]. assert (ht = 0%nat) as H0 by lia. rewrite H0 in R4.
      destruct (flat_tree _ _ R4) as [Em _]. exists [(0, rt_rnode r0)], (radix_tree_init r0).
      split; [unfold given; by destruct slot_free|]. split; [|split; [done|split; [done|apply Hempty; [done|done|simpl; lia]]]].
      apply (Hall _ 1); [rewrite H0; done|]. apply (enumerates_singleton m 0). rewrite R5 by lia. unfold item, at_r. rewrite H0. simpl.
      rewrite (root_direct _ _ Hr) by lia. by apply nonnull_ne.
Qed.
End destroy.
