(* ===== verification/RadixTreeProps.v ===== *)
(** * Theorems about radix trees (xen/common/radix-tree.c)

    Histories of operations refine a finite map; the scans, the hole searches
    and the destruction do what their comments say. *)

From stdpp Require Import sorting.
From S2P Require Import Prelude RadixTree RadixTreeInv RadixTreeOps RadixTreeDel RadixTreeScan RadixTreeDestroy.
Local Open Scope xen_scope.

(** ** Replacing an item *)

Lemma replace_slot_spec r m idx v w :
  rep r m → m !! idx = Some v → w ≠ 0 → Z.even w = true →
  ∃ r', radix_tree_replace_slot r (slot_ref r idx) w = Ok r' ∧ rep r' (<[idx := w]> m).
Proof.
  intros Hr Hm Hw Hev. pose proof (rp_keys _ _ Hr idx ltac:(eauto)) as Hi.
  unfold radix_tree_replace_slot. rewrite is_indirect_odd, <- Z.negb_even, Hev. cbn [negb BUG_ON].
  rewrite <- write_Some by done. rewrite (rp_map _ _ Hr) in Hm by lia. unfold item in Hm.
  destruct (decide (idx < span (hgt r))) as [Hs|]; [|done]. assert (in_range (hgt r) idx) as Hir by (split; [lia|done]).
  unfold nonnull in Hm. destruct (Z.eqb_spec (at_r r (hgt r) idx) 0) as [|Hne]; [done|].
  unfold slot_ref. destruct (hgt r) as [|h] eqn:Eh.
  - change (span 0) with 1 in Hs. assert (idx = 0) as -> by lia. eexists. split; [done|]. by apply rep_write_root.
  - assert (at_r r h idx ≠ 0) as Hne'.
    { intros E. apply Hne. eapply (at_null _ _ _ h); [apply Hr|lia|done]. }
    destruct (rep_node r m h idx Hr ltac:(lia) ltac:(by rewrite Eh) Hne') as (x & Hx & [O1 O2 O3] & Hsl).
    rewrite Eh, Nat.sub_diag in Hsl. unfold upd_node. rewrite Hx. cbn [deref]. eexists. split; [done|].
    apply (rep_write r _ m idx x (set_slot (digit 0 idx) w x) w); rewrite ?Eh; replace (S h - 1)%nat with h by lia; auto; [lia|lia| |].
    + apply Z.eqb_neq in Hw as Hw'. split; unfold set_slot; simpl; rewrite ?Hw'.
      * rewrite O1, Eh. lia.
      * assert (is_Some (n_slots x !! digit 0 idx)) as Hsome.
        { unfold get_slot in Hsl. destruct (n_slots x !! digit 0 idx); [by eexists|]. simpl in Hsl. congruence. }
        by rewrite map_size_insert_Some.
      * intros i u. rewrite lookup_insert_Some. intros [[<- <-]|[_ ?]]; [split; [apply digit_range|done]|eauto].
    + intros i. apply get_set_slot.
Qed.

(** ** Histories *)

(** The operations with the results [node_alloc] will give; [RReplace] is
    [radix_tree_lookup_slot] followed by [radix_tree_replace_slot] if a slot
    was found, the idiom for updates. *)
Inductive radix_op :=
| RInsert (idx item : Z) (allocs : list Z)
| RDelete (idx : Z)
| RLookup (idx : Z)
| RReplace (idx item : Z).

Definition run_radix_op (r : radix) (op : radix_op) : outcome (Z * radix) :=
  match op with
  | RInsert idx item allocs => radix_tree_insert (put_allocs allocs r) idx item
  | RDelete idx => radix_tree_delete r idx
  | RLookup idx => let! v := radix_tree_lookup r idx in Ok (v, r)
  | RReplace idx item =>
      let! s := radix_tree_lookup_slot r idx in
      match s with
      | None => Ok (0, r)
      | Some s =>
          let! v := radix_tree_deref_slot r s in
          let! r' := radix_tree_replace_slot r s item in Ok (v, r')
      end
  end.

(** The callers' obligations: an index, an item that is not [NULL] and whose
    tag bit is clear, and an allocator that gives fresh aligned nodes. *)
Definition radix_op_ok (r : radix) (op : radix_op) : Prop :=
  match op with
  | RInsert idx item allocs =>
      0 ≤ idx < 2 ^ 64 ∧ item ≠ 0 ∧ Z.even item = true ∧ allocs_ok (put_allocs allocs r)
  | RReplace idx item => 0 ≤ idx < 2 ^ 64 ∧ item ≠ 0 ∧ Z.even item = true
  | RDelete idx | RLookup idx => 0 ≤ idx < 2 ^ 64
  end.

(** What an operation on a finite map may return and do. *)
Definition map_step (m : gmap Z Z) (op : radix_op) (res : Z) (m' : gmap Z Z) : Prop :=
  match op with
  | RInsert idx item allocs =>
      res = 0 ∧ m !! idx = None ∧ m' = <[idx := item]> m ∨
      res = - EEXIST ∧ is_Some (m !! idx) ∧ m' = m ∨
      res = - ENOMEM ∧ m' = m ∧ (0 ∈ allocs ∨ (length allocs < 22)%nat)
  | RDelete idx => res = default 0 (m !! idx) ∧ m' = delete idx m
  | RLookup idx => res = default 0 (m !! idx) ∧ m' = m
  | RReplace idx item =>
      res = default 0 (m !! idx) ∧ m' = if m !! idx is Some _ then <[idx := item]> m else m
  end.

Lemma rep_put_allocs r m l : rep r m → rep (put_allocs l r) m.
Proof. by intros [R1 R2 R3 R4 R5 R6]. Qed.

Lemma run_radix_op_spec r m op :
  rep r m → radix_op_ok r op →
  ∃ res r' m', run_radix_op r op = Ok (res, r') ∧ rep r' m' ∧ map_step m op res m'.
Proof.
  intros Hr. destruct op as [idx item allocs|idx|idx|idx item]; simpl.
  - intros (Hi & Hv & Hev & Hal).
    destruct (radix_tree_insert_spec (put_allocs allocs r) m idx item (rep_put_allocs _ _ _ Hr) Hal Hi Hv Hev)
      as (err & r' & -> & _ & Hres & Hpl).
    destruct Hres as [(-> & ? & ?)|[(-> & ? & ?)|(-> & ?)]]; eexists _, r', _; (split; [done|]); (split; [eassumption|]); [auto|auto|].
    right. right. split; [done|]. split; [done|]. destruct (decide (0 ∈ allocs)) as [|Hn]; [by left|right].
    destruct (decide (length allocs < 22)%nat) as [|Hn']; [done|]. exfalso. apply Hpl; [|done]. split; simpl; [lia|done].
  - intros Hi. destruct (radix_tree_delete_spec r m idx Hr Hi) as (r' & -> & ?). eauto 10.
  - intros Hi. rewrite (radix_tree_lookup_spec _ _ _ Hr Hi). simpl. eauto 10.
  - intros (Hi & Hv & Hev). unfold radix_tree_lookup_slot. rewrite (lookup_element_spec _ _ _ Hr Hi). cbn [mbind outcome_bind].
    destruct (m !! idx) as [v|] eqn:Em; simpl; [|eauto 10].
    destruct (deref_slots_spec r m [(idx, v)] Hr) as [_ Hd]; [by intros e ->%list_elem_of_singleton|].
    pose proof (Hd (idx, v) ltac:(by left)) as Ed. simpl in Ed. rewrite Ed. cbn [mbind outcome_bind].
    destruct (replace_slot_spec r m idx v item Hr Em Hv Hev) as (r' & -> & ?). cbn [mbind outcome_bind]. eauto 10.
Qed.

(** A history: valid calls with their results. *)
Inductive radix_run : radix → list (radix_op * Z) → radix → Prop :=
| run_nil r : radix_run r [] r
| run_cons r op res r1 l r2 :
    radix_op_ok r op → run_radix_op r op = Ok (res, r1) → radix_run r1 l r2 → radix_run r ((op, res) :: l) r2.

Inductive map_run : gmap Z Z → list (radix_op * Z) → gmap Z Z → Prop :=
| mrun_nil m : map_run m [] m
| mrun_cons m op res m1 l m2 : map_step m op res m1 → map_run m1 l m2 → map_run m ((op, res) :: l) m2.

Definition empty_radix : radix := mk_radix 0 0 ∅ [] [].

Lemma empty_radix_rep : rep empty_radix ∅.
Proof.
  split; simpl; [lia|done|done|by apply (flat_tree_wf 0)| |intros idx [v Hv]; done].
  intros idx _. rewrite lookup_empty. unfold item, at_r. simpl. by case_decide.
Qed.

Lemma radix_run_rep l r0 m0 r : rep r0 m0 → radix_run r0 l r → ∃ m, map_run m0 l m ∧ rep r m.
Proof.
  intros Hr0 Hrun. revert m0 Hr0. induction Hrun as [r0|r0 op res r1 l r2 Hok Hop Hrun IH]; intros m0 Hr0.
  - exists m0. split; [constructor|done].
  - destruct (run_radix_op_spec r0 m0 op Hr0 Hok) as (res' & r1' & m1 & E & Hr1 & Hst).
    rewrite Hop in E. injection E as <- <-. destruct (IH m1 Hr1) as (m & Hm & Hr). exists m.
    split; [by econstructor|done].
Qed.

(** C18: every history of insertions, deletions, look-ups and updates of an
    initially empty radix tree has the results a finite map gives; an insertion
    may fail only for lack of memory and then changes nothing. The tree stays
    well formed, owning exactly the nodes it allocated and did not free, and no
    valid call hits a [BUG_ON], a wild pointer or a double free. *)
Theorem radix_tree_refines l r :
  radix_run empty_radix l r →
  ∃ m, map_run ∅ l m ∧ rep r m ∧
    ∀ op, radix_op_ok r op → ∃ res r', run_radix_op r op = Ok (res, r').
Proof.
  intros Hrun. destruct (radix_run_rep _ _ _ _ empty_radix_rep Hrun) as (m & Hm & Hr). exists m. split; [done|]. split; [done|].
  intros op Hok. destruct (run_radix_op_spec r m op Hr Hok) as (res & r' & _ & E & _). by exists res, r'.
Qed.

(** A history with a growing tree, an update, a duplicate and a deletion. *)
Definition ex_history : list (radix_op * Z) :=
  [(RInsert 0 1000 [], 0); (RInsert 70 2000 [8; 16; 24], 0); (RInsert 70 3000 [], - EEXIST);
   (RReplace 70 4000, 2000); (RInsert 5000 6000 [32], - ENOMEM); (RLookup 70, 4000); (RDelete 0, 1000)].

(** Fresh aligned addresses, checked by evaluation. *)
Ltac solve_allocs :=
  split; [apply (bool_decide_unpack _); vm_compute; reflexivity|];
  let a := fresh in let Ha := fresh in
  intros a Ha _; simpl in Ha;
  repeat (apply elem_of_cons in Ha as [->|Ha]; [split; vm_compute; reflexivity|]);
  by apply elem_of_nil in Ha.

Ltac solve_op :=
  simpl; first [lia | split; [lia|split; [lia|first [reflexivity | split; [reflexivity|solve_allocs]]]]].

Lemma ex_history_runs : ∃ r, radix_run empty_radix ex_history r.
Proof.
  eexists. unfold ex_history.
  repeat (eapply run_cons;
    [solve_op|vm_compute; reflexivity|]).
  apply run_nil.
Qed.

Lemma radix_tree_refines_witness : ∃ r m, map_run ∅ ex_history m ∧ rep r m.
Proof.
  destruct ex_history_runs as [r Hrun]. destruct (radix_tree_refines ex_history r Hrun) as (m & Hm & Hr & _).
  exists r, m. auto.
Defined.

(** ** Scans and holes *)

Lemma rep_insert r m idx v r' :
  rep r m → allocs_ok r → 0 ≤ idx < 2 ^ 64 → v ≠ 0 → Z.even v = true →
  radix_tree_insert r idx v = Ok (0, r') → rep r' (<[idx := v]> m).
Proof.
  intros Hr Hal Hi Hv Hev E.
  destruct (radix_tree_insert_spec r m idx v Hr Hal Hi Hv Hev) as (err & r1 & E1 & _ & Hres & _).
  rewrite E in E1. injection E1 as <- <-. by destruct Hres as [(_ & _ & ?)|[(? & _)|(? & _)]].
Qed.

(** A tree with the items 1000, 2000, 3000 at 3, 4 and 60. *)
Definition ex_items : gmap Z Z := <[60 := 3000]> (<[4 := 2000]> (<[3 := 1000]> ∅)).
Definition ex_tree : radix :=
  mk_radix 1 9 {[ 8 := mk_rnode 1 3 (<[60 := 3000]> (<[4 := 2000]> (<[3 := 1000]> ∅))) ]} [] [].

Lemma ex_tree_rep : rep ex_tree ex_items.
Proof.
  set (r1 := mk_radix 1 9 {[ 8 := mk_rnode 1 1 (<[3 := 1000]> ∅) ]} [] []).
  set (r2 := mk_radix 1 9 {[ 8 := mk_rnode 1 2 (<[4 := 2000]> (<[3 := 1000]> ∅)) ]} [] []).
  apply (rep_insert r2 (<[4 := 2000]> (<[3 := 1000]> ∅))); [|solve_allocs|lia|lia|done|vm_compute; reflexivity].
  apply (rep_insert r1 (<[3 := 1000]> ∅)); [|solve_allocs|lia|lia|done|vm_compute; reflexivity].
  apply (rep_insert (put_allocs [8] empty_radix) ∅); [apply rep_put_allocs, empty_radix_rep|solve_allocs|lia|lia|done|vm_compute; reflexivity].
Qed.

(** The gang look-ups, asked for at least one item, return the present
    items (their slots) from the first index on, in ascending order of index:
    as many as asked for, or all there are; the number of rounds is bounded by
    the indices the tree can hold. *)
Theorem radix_tree_gang_lookup_correct r m fuel first max :
  rep r m → 0 ≤ first < 2 ^ 64 → 0 < max → (Z.to_nat (Z.min (span (hgt r)) (2 ^ 64) - first) < fuel)%nat →
  (∃ l, radix_tree_gang_lookup fuel r first max = Ok l.*2 ∧ first_entries m first max l) ∧
  (∃ l slots, radix_tree_gang_lookup_slot fuel r first max = Ok slots ∧ first_entries m first max l ∧
     Forall2 (λ s e, radix_tree_deref_slot r s = Ok e.2) slots l).
Proof.
  intros Hr Hi Hmax Hfuel. split.
  - apply (gang_lookup_spec (deref_slots r) snd r m fuel first max Hr Hi Hmax Hfuel).
    intros l Hl. by apply (deref_slots_spec r m).
  - destruct (gang_lookup_spec Ok (λ e : Z * Z, slot_ref r e.1) r m fuel first max Hr Hi Hmax Hfuel) as (l & Hrun & Hl); [done|].
    exists l, ((λ e : Z * Z, slot_ref r e.1) <$> l). split; [|split; [done|]].
    + rewrite <- Hrun. unfold radix_tree_gang_lookup_slot, gang_lookup. rewrite (root_null _ _ Hr).
      destruct (Z.eqb_spec (root r) 0) as [|Hn]; [done|].
      rewrite (root_indirect _ _ Hr) by (intros E; apply Hn; unfold root; by rewrite E).
      destruct (decide (0 < hgt r)%nat) as [HH|HH]; [by rewrite bool_decide_eq_true_2|].
      rewrite bool_decide_eq_false_2 by done. unfold slot_ref. by destruct (hgt r); [|lia].
    + destruct Hl as (b & [_ Hen] & _). apply Forall2_fmap_l, Forall_Forall2_diag, Forall_forall. intros [idx v] He.
      destruct (deref_slots_spec r m [(idx, v)] Hr) as [_ Hd]; [|by apply Hd; left].
      intros e ->%list_elem_of_singleton. by apply Hen in He as [? _].
Qed.

Lemma radix_tree_gang_lookup_correct_witness :
  ∃ l, radix_tree_gang_lookup 65 ex_tree 4 8 = Ok l.*2 ∧ first_entries ex_items 4 8 l.
Proof.
  destruct (radix_tree_gang_lookup_correct ex_tree ex_items 65 4 8) as [(l & H1 & H2) _].
  - apply ex_tree_rep.
  - lia.
  - lia.
  - vm_compute. lia.
  - exists l. auto.
Defined.

(** A gang look-up asked for no items at all still returns one when the
    tree holds a single item at index 0: the root slot is not checked against
    [max_items]. *)
Theorem radix_tree_gang_lookup_zero r m fuel :
  rep r m → rt_height r = 0 → rt_rnode r ≠ 0 → radix_tree_gang_lookup fuel r 0 0 = Ok [rt_rnode r].
Proof.
  intros Hr Hh Hn. unfold radix_tree_gang_lookup, gang_lookup. apply Z.eqb_neq in Hn as Hn'. rewrite Hn'.
  rewrite (root_indirect _ _ Hr Hn), bool_decide_eq_false_2; [done|]. unfold hgt. lia.
Qed.

Lemma radix_tree_gang_lookup_zero_witness :
  radix_tree_gang_lookup 1 (mk_radix 0 1000 ∅ [] []) 0 0 = Ok [1000].
Proof.
  apply (radix_tree_gang_lookup_zero (mk_radix 0 1000 ∅ [] []) (<[0 := 1000]> ∅)).
  - apply (rep_insert empty_radix ∅); [apply empty_radix_rep|solve_allocs|lia|lia|done|vm_compute; reflexivity].
  - done.
  - done.
Defined.

Lemma next_hole_loop_spec n r m index :
  rep r m → 0 ≤ index < 2 ^ 64 →
  ∃ k, 0 ≤ k ≤ Z.of_nat n ∧ next_hole_loop n r index = Ok (u64 (index + k)) ∧ index + k ≤ 2 ^ 64 ∧
    (∀ i, index ≤ i < index + k → is_Some (m !! i)) ∧
    (k = Z.of_nat n ∨ index + k = 2 ^ 64 ∨ m !! (index + k) = None).
Proof.
  intros Hr. revert index. induction n as [|n IH]; intros index Hi; cbn [next_hole_loop].
  { exists 0. rewrite Z.add_0_r, u64_small by lia. repeat split_and; lia || done. }
  rewrite (radix_tree_lookup_spec _ _ _ Hr Hi). cbn [mbind outcome_bind].
  destruct (m !! index) as [v|] eqn:E; simpl.
  2: { exists 0. rewrite Z.add_0_r, u64_small by lia. repeat split_and; lia || done || auto. }
  assert (v ≠ 0) as Hv%Z.eqb_neq.
  { rewrite (rp_map _ _ Hr) in E by lia. unfold nonnull in E. case_match eqn:E0; simplify_eq. by apply Z.eqb_neq. }
  rewrite Hv. destruct (decide (index + 1 = 2 ^ 64)) as [Ew|Ew].
  - rewrite Ew. exists 1. rewrite Ew. repeat split_and; try lia; [done|].
    intros i ?. replace i with index by lia. eauto.
  - rewrite (u64_small (index + 1)) by lia. destruct (Z.eqb_spec (index + 1) 0) as [|_]; [lia|].
    destruct (IH (index + 1) ltac:(lia)) as (k & Hk & -> & Hle & Hall & Hend). exists (k + 1).
    replace (index + (k + 1)) with (index + 1 + k) by lia. repeat split_and; try lia; [done|..].
    + intros i ?. destruct (decide (i = index)) as [->|]; [eauto|]. apply Hall. lia.
    + destruct Hend as [|[|]]; [left; lia|by right; left|by right; right].
Qed.

Lemma prev_hole_loop_spec n r m index :
  rep r m → 0 ≤ index < 2 ^ 64 →
  ∃ k, 0 ≤ k ≤ Z.of_nat n ∧ prev_hole_loop n r index = Ok (u64 (index - k)) ∧ -1 ≤ index - k ∧
    (∀ i, index - k < i ≤ index → is_Some (m !! i)) ∧
    (k = Z.of_nat n ∨ index - k = -1 ∨ m !! (index - k) = None).
Proof.
  intros Hr. revert index. induction n as [|n IH]; intros index Hi; cbn [prev_hole_loop].
  { exists 0. rewrite Z.sub_0_r, u64_small by lia. repeat split_and; lia || done. }
  rewrite (radix_tree_lookup_spec _ _ _ Hr Hi). cbn [mbind outcome_bind].
  destruct (m !! index) as [v|] eqn:E; simpl.
  2: { exists 0. rewrite Z.sub_0_r, u64_small by lia. repeat split_and; lia || done || auto. }
  assert (v ≠ 0) as Hv%Z.eqb_neq.
  { rewrite (rp_map _ _ Hr) in E by lia. unfold nonnull in E. case_match eqn:E0; simplify_eq. by apply Z.eqb_neq. }
  rewrite Hv. destruct (decide (index = 0)) as [->|Hne].
  - exists 1. repeat split_and; try lia; [done|]. intros i ?. replace i with 0 by lia. eauto.
  - rewrite (u64_small (index - 1)) by lia. destruct (Z.eqb_spec (index - 1) ULONG_MAX) as [Em|_]; [unfold ULONG_MAX in Em; lia|].
    destruct (IH (index - 1) ltac:(lia)) as (k & Hk & -> & Hle & Hall & Hend). exists (k + 1).
    replace (index - (k + 1)) with (index - 1 - k) by lia. repeat split_and; try lia; [done|..].
    + intros i ?. destruct (decide (i = index)) as [->|]; [eauto|]. apply Hall. lia.
    + destruct Hend as [|[|]]; [left; lia|by right; left|by right; right].
Qed.

(** The hole searches return the first absent index at or after (at or
    before) the start, if it is among the [max_scan] indices looked at, and
    otherwise the index after (before) them, which wraps to 0 (to the largest
    index) at the end of the index space. *)
Theorem radix_tree_holes_correct r m index max_scan :
  rep r m → 0 ≤ index < 2 ^ 64 → 0 ≤ max_scan →
  (∃ k, 0 ≤ k ≤ max_scan ∧ radix_tree_next_hole r index max_scan = Ok (u64 (index + k)) ∧ index + k ≤ 2 ^ 64 ∧
     (∀ i, index ≤ i < index + k → is_Some (m !! i)) ∧
     (k = max_scan ∨ index + k = 2 ^ 64 ∨ m !! (index + k) = None)) ∧
  (∃ k, 0 ≤ k ≤ max_scan ∧ radix_tree_prev_hole r index max_scan = Ok (u64 (index - k)) ∧ -1 ≤ index - k ∧
     (∀ i, index - k < i ≤ index → is_Some (m !! i)) ∧
     (k = max_scan ∨ index - k = -1 ∨ m !! (index - k) = None)).
Proof.
  intros Hr Hi Hs. split.
  - destruct (next_hole_loop_spec (Z.to_nat max_scan) r m index Hr Hi) as (k & H). rewrite Z2Nat.id in H by done. by exists k.
  - destruct (prev_hole_loop_spec (Z.to_nat max_scan) r m index Hr Hi) as (k & H). rewrite Z2Nat.id in H by done. by exists k.
Qed.

Lemma radix_tree_holes_correct_witness :
  ∃ k, radix_tree_next_hole ex_tree 3 10 = Ok (u64 (3 + k)) ∧ (k = 10 ∨ 3 + k = 2 ^ 64 ∨ ex_items !! (3 + k) = None).
Proof.
  destruct (radix_tree_holes_correct ex_tree ex_items 3 10) as [(k & _ & H1 & _ & _ & H2) _].
  - apply ex_tree_rep.
  - lia.
  - lia.
  - exists k. auto.
Defined.

(** Destroying a tree frees every node it owns, each once, hands every
    item to [slot_free] (when there is one) in ascending order of index, and
    leaves an empty tree. *)
Theorem radix_tree_destroy_correct r m slot_free :
  rep r m →
  ∃ l r', radix_tree_destroy r slot_free = Ok (if slot_free then l.*2 else [], r') ∧
    enumerates l m 0 (2 ^ 64) ∧ rt_mem r' = ∅ ∧ rep r' ∅.
Proof.
  intros Hr. destruct (radix_tree_destroy_spec r m slot_free Hr) as (l & r' & H1 & H2 & H3 & _ & H4). by exists l, r'.
Qed.

Lemma radix_tree_destroy_correct_witness :
  ∃ l r', radix_tree_destroy ex_tree true = Ok (l.*2, r') ∧ enumerates l ex_items 0 (2 ^ 64) ∧ rt_mem r' = ∅.
Proof.
  destruct (radix_tree_destroy_correct ex_tree ex_items true ex_tree_rep) as (l & r' & H1 & H2 & H3 & _).
  exists l, r'. auto.
Defined.

(** ** Integers as items *)

Lemma int_ptr val : Z.lor (Z.shiftl val 2) 2 = 4 * val + 2.
Proof.
  assert (Z.land (Z.shiftl val 2) 2 = 0) as Hl.
  { apply Z.bits_inj_0. intros n. rewrite Z.land_spec. change 2 with (2 ^ 1) at 2.
    destruct (decide (n = 1)) as [->|Hn]; [by rewrite Z.shiftl_spec_low by lia|].
    destruct (decide (0 ≤ n)); [|by rewrite (Z.testbit_neg_r _ n) by lia].
    rewrite (Z.pow2_bits_false 1 n) by lia. by rewrite andb_false_r. }
  rewrite <- Z.lxor_lor, <- Z.add_nocarry_lxor by done. rewrite Z.shiftl_mul_pow2 by lia. lia.
Qed.

(** Every C [int] stored as an item is an item the tree accepts, not [NULL]
    and untagged, and reads back as the same integer. *)
Theorem radix_tree_int_roundtrip val :
  - 2 ^ 31 ≤ val < 2 ^ 31 →
  ∃ ptr, radix_tree_int_to_ptr val = Ok ptr ∧ ptr ≠ 0 ∧ Z.even ptr = true ∧ radix_tree_ptr_to_int ptr = Ok val.
Proof.
  intros Hv. exists (4 * val + 2). unfold radix_tree_int_to_ptr, radix_tree_ptr_to_int. rewrite int_ptr.
  assert (Z.shiftr (4 * val + 2) 2 = val) as E.
  { rewrite Z.shiftr_div_pow2 by lia. change (2 ^ 2) with 4. symmetry. apply (Z.div_unique _ _ _ 2); lia. }
  rewrite !E, Z.eqb_refl. cbn [negb BUG_ON]. change 3 with (Z.ones 2). rewrite Z.land_ones by lia. change (2 ^ 2) with 4.
  assert ((4 * val + 2) mod 4 = 2) as -> by (symmetry; apply (Z.mod_unique _ _ val); lia).
  split; [done|]. split; [lia|]. split; [rewrite Z.even_add, Z.even_mul; done|]. cbn [Z.eqb Pos.eqb negb BUG_ON].
  f_equal. unfold s32, u32. destruct (decide (0 ≤ val)).
  - rewrite Z.mod_small by lia. case_Z; lia.
  - replace (val mod 2 ^ 32) with (val + 2 ^ 32) by (apply (Z.mod_unique _ _ (-1)); lia). case_Z; lia.
Qed.

Lemma radix_tree_int_roundtrip_witness :
  ∃ ptr, radix_tree_int_to_ptr (-5) = Ok ptr ∧ radix_tree_ptr_to_int ptr = Ok (-5).
Proof.
  destruct (radix_tree_int_roundtrip (-5)) as (ptr & H1 & _ & _ & H2); [lia|]. exists ptr. auto.
Defined.
