(* ===== verification/TimerHeap.v ===== *)
(** * The timer heap (xen/common/timer.c, heap operations)

    A CPU's active timers live in a binary min-heap of timer pointers, ordered
    by expiry time; entry 0 of the array holds the heap's size and limit as two
    16-bit values. Timers are kept in a store by address; every timer in the
    heap records its position in [heap_offset]. *)

From S2P Require Import Prelude.

(** ** Data *)

Definition TIMER_CPU_status_killed : Z := 65535.
Definition TIMER_STATUS_invalid : Z := 0.
Definition TIMER_STATUS_inactive : Z := 1.
Definition TIMER_STATUS_killed : Z := 2.
Definition TIMER_STATUS_in_heap : Z := 3.
Definition TIMER_STATUS_in_list : Z := 4.

(** [struct timer]. The [list_next] and [inactive] members of its union are the
    memberships of the lists below; [function] and [data] identify the
    callback. *)
Record timer := mk_timer {
  t_expires : Z;
  t_heap_offset : Z;
  t_function : Z;
  t_data : Z;
  t_cpu : Z;
  t_status : Z;
}.

Abbreviation store := (gmap positive timer).

Definition set_expires (e : Z) (t : timer) : timer :=
  mk_timer e (t_heap_offset t) (t_function t) (t_data t) (t_cpu t) (t_status t).
Definition set_heap_offset (o : Z) (t : timer) : timer :=
  mk_timer (t_expires t) o (t_function t) (t_data t) (t_cpu t) (t_status t).
Definition set_cpu (c : Z) (t : timer) : timer :=
  mk_timer (t_expires t) (t_heap_offset t) (t_function t) (t_data t) c (t_status t).
Definition set_status (s : Z) (t : timer) : timer :=
  mk_timer (t_expires t) (t_heap_offset t) (t_function t) (t_data t) (t_cpu t) s.

(** Reads through a timer pointer. *)
Definition expires (st : store) (t : positive) : Z := from_option t_expires 0 (st !! t).
Definition heap_offset (st : store) (t : positive) : Z := from_option t_heap_offset 0 (st !! t).

(** The heap array and the two halves of its entry 0. *)
Record theap := mk_theap {
  hp_size : Z;
  hp_limit : Z;
  hp_arr : gmap Z positive;
}.

Definition SET_HEAP_SIZE (h : theap) (v : Z) : theap :=
  mk_theap (u16 v) (hp_limit h) (hp_arr h).
Definition SET_HEAP_LIMIT (h : theap) (v : Z) : theap :=
  mk_theap (hp_size h) (u16 v) (hp_arr h).

(** [heap[i]]; the entries read are always present in a well-formed heap. *)
Definition get (a : gmap Z positive) (i : Z) : positive := default 1%positive (a !! i).

(** ** Sinking and floating *)

(** The body of [down_heap]'s loop; [t] is the element being sunk, [pos] the
    hole. [fuel] bounds the number of iterations. *)
Fixpoint down_loop (fuel : nat) (sz : Z) (t : positive)
    (a : gmap Z positive) (st : store) (pos : Z) : gmap Z positive * store * Z :=
  match fuel with
  | O => (a, st, pos)
  | S fuel' =>
      let nxt := Z.shiftl pos 1 in
      if nxt <=? sz then
        let nxt := if (nxt + 1 <=? sz) &&
                      (expires st (get a (nxt + 1)) <? expires st (get a nxt))
                   then nxt + 1 else nxt in
        if expires st (get a nxt) >? expires st t then (a, st, pos)
        else down_loop fuel' sz t (<[pos := get a nxt]> a)
               (alter (set_heap_offset pos) (get a nxt) st) nxt
      else (a, st, pos)
  end.

Definition down_heap (h : theap) (st : store) (pos : Z) : theap * store :=
  let sz := hp_size h in
  let t := get (hp_arr h) pos in
  let '(a, st1, p) := down_loop (Z.to_nat sz) sz t (hp_arr h) st pos in
  (mk_theap (hp_size h) (hp_limit h) (<[p := t]> a), alter (set_heap_offset p) t st1).

Fixpoint up_loop (fuel : nat) (t : positive) (a : gmap Z positive) (st : store)
    (pos : Z) : gmap Z positive * store * Z :=
  match fuel with
  | O => (a, st, pos)
  | S fuel' =>
      if (pos >? 1) && (expires st t <? expires st (get a (Z.shiftr pos 1))) then
        up_loop fuel' t (<[pos := get a (Z.shiftr pos 1)]> a)
          (alter (set_heap_offset pos) (get a (Z.shiftr pos 1)) st) (Z.shiftr pos 1)
      else (a, st, pos)
  end.

Definition up_heap (h : theap) (st : store) (pos : Z) : theap * store :=
  let t := get (hp_arr h) pos in
  let '(a, st1, p) := up_loop (Z.to_nat pos) t (hp_arr h) st pos in
  (mk_theap (hp_size h) (hp_limit h) (<[p := t]> a), alter (set_heap_offset p) t st1).

(** ** Removal and insertion. The boolean is the code's return value: whether
    the top of the heap changed. *)

Definition remove_from_heap (h : theap) (st : store) (t : positive)
    : bool * theap * store :=
  let sz := hp_size h in
  let pos := heap_offset st t in
  if pos =? sz then (pos =? 1, SET_HEAP_SIZE h (sz - 1), st)
  else
    let last := get (hp_arr h) sz in
    let a := <[pos := last]> (hp_arr h) in
    let st1 := alter (set_heap_offset pos) last st in
    let h1 := SET_HEAP_SIZE (mk_theap sz (hp_limit h) a) (sz - 1) in
    let '(h2, st2) :=
      if (pos >? 1) && (expires st1 (get a pos) <? expires st1 (get a (Z.shiftr pos 1)))
      then up_heap h1 st1 pos
      else down_heap h1 st1 pos in
    (pos =? 1, h2, st2).

Definition add_to_heap (h : theap) (st : store) (t : positive)
    : bool * theap * store :=
  let sz := hp_size h in
  if sz =? hp_limit h then (false, h, st)
  else
    let h1 := SET_HEAP_SIZE h (sz + 1) in
    let h2 := mk_theap (hp_size h1) (hp_limit h1) (<[sz + 1 := t]> (hp_arr h1)) in
    let '(h3, st3) := up_heap h2 (alter (set_heap_offset (sz + 1)) t st) (sz + 1) in
    (heap_offset st3 t =? 1, h3, st3).

(** ** Well-formed heaps *)

(** Position [i] holds timer [t]. *)
Definition at_pos (n : Z) (a : gmap Z positive) (i : Z) (t : positive) : Prop :=
  1 ≤ i ≤ n ∧ a !! i = Some t.

(** The timers of the heap. *)
Definition in_heap (n : Z) (a : gmap Z positive) (t : positive) : Prop :=
  ∃ i, at_pos n a i t.

(** [a] holds [n] distinct known timers, and all but the one at [p] record
    their position. *)
Record placed_but (p n : Z) (a : gmap Z positive) (st : store) : Prop := {
  pb_full i : 1 ≤ i ≤ n → ∃ t, a !! i = Some t ∧ is_Some (st !! t);
  pb_inj i j t : at_pos n a i t → at_pos n a j t → i = j;
  pb_offset i t : at_pos n a i t → i ≠ p → heap_offset st t = i;
}.

Definition ordered (n : Z) (a : gmap Z positive) (key : positive → Z) : Prop :=
  ∀ i, 2 ≤ i ≤ n → key (get a (i / 2)) ≤ key (get a i).

(** Heap order everywhere but below [p] (resp. above [p]); the relation between
    [p]'s parent and [p]'s children is kept. *)
Definition ordered_but_below (p n : Z) (a : gmap Z positive) (key : positive → Z) : Prop :=
  ∀ i, 2 ≤ i ≤ n →
    (i / 2 ≠ p → key (get a (i / 2)) ≤ key (get a i)) ∧
    (i / 2 = p → 2 ≤ p → key (get a (p / 2)) ≤ key (get a i)).

Definition ordered_but_above (p n : Z) (a : gmap Z positive) (key : positive → Z) : Prop :=
  ∀ i, 2 ≤ i ≤ n →
    (i ≠ p → key (get a (i / 2)) ≤ key (get a i)) ∧
    (i / 2 = p → 2 ≤ p → key (get a (p / 2)) ≤ key (get a i)).

(** The stores differ at most in the offsets of the timers of [P]. *)
Definition same_but_offsets (P : positive → Prop) (st st' : store) : Prop :=
  ∀ t, (¬ P t → st' !! t = st !! t) ∧
       set_heap_offset 0 <$> st' !! t = set_heap_offset 0 <$> st !! t.

(** Exchange positions [p] (holding [t]) and [q] (holding [u]). *)
Definition swapped (p q : Z) (t u : positive) (v : gmap Z positive) : gmap Z positive :=
  <[q := t]> (<[p := u]> v).

Lemma get_lookup a i t : a !! i = Some t → get a i = t.
Proof. unfold get. by intros ->. Qed.

Lemma swapped_lookup p q t u v i :
  v !! p = Some t → v !! q = Some u → p ≠ q →
  swapped p q t u v !! i =
    if decide (i = q) then Some t else if decide (i = p) then Some u else v !! i.
Proof.
  intros Hp Hq Hne. unfold swapped. rewrite !lookup_insert.
  repeat case_decide; congruence.
Qed.

Lemma same_but_offsets_refl P st : same_but_offsets P st st.
Proof. by intros t. Qed.

Lemma same_but_offsets_trans P st1 st2 st3 :
  same_but_offsets P st1 st2 → same_but_offsets P st2 st3 → same_but_offsets P st1 st3.
Proof.
  intros H1 H2 t. destruct (H1 t) as [A B], (H2 t) as [C D]. split; [|congruence].
  intros HP. rewrite C, A; done.
Qed.

Lemma same_but_offsets_alter (P : positive → Prop) st t o :
  P t → same_but_offsets P st (alter (set_heap_offset o) t st).
Proof.
  intros HP u. rewrite lookup_alter. case_decide; subst; split; try done.
  by destruct (st !! u).
Qed.

Lemma same_but_offsets_expires P st st' t :
  same_but_offsets P st st' → expires st' t = expires st t.
Proof.
  intros H. destruct (H t) as [_ He]. unfold expires.
  destruct (st !! t), (st' !! t); simpl in *; simplify_eq; congruence.
Qed.

Lemma same_but_offsets_is_Some P st st' t :
  same_but_offsets P st st' → is_Some (st !! t) → is_Some (st' !! t).
Proof.
  intros H [x Hx]. destruct (H t) as [_ He]. rewrite Hx in He. simpl in He.
  destruct (st' !! t); [eauto|done].
Qed.

Lemma heap_offset_alter st t u o :
  is_Some (st !! t) →
  heap_offset (alter (set_heap_offset o) u st) t = if decide (u = t) then o else heap_offset st t.
Proof.
  intros [x Hx]. unfold heap_offset. rewrite lookup_alter.
  case_decide; [subst; by rewrite Hx|done].
Qed.

Lemma expires_alter_offset st t u o :
  expires (alter (set_heap_offset o) u st) t = expires st t.
Proof.
  apply (same_but_offsets_expires (λ _, True)). by apply same_but_offsets_alter.
Qed.

Lemma in_heap_swapped n p q t u v k :
  1 ≤ p ≤ n → 1 ≤ q ≤ n → p ≠ q → v !! p = Some t → v !! q = Some u →
  in_heap n (swapped p q t u v) k ↔ in_heap n v k.
Proof.
  intros Hp Hq Hne Ht Hu. unfold in_heap, at_pos.
  setoid_rewrite (swapped_lookup p q t u v _ Ht Hu Hne). split.
  - intros (i & Hi & H). repeat case_decide; subst; simplify_eq; eauto.
  - intros (i & Hi & H). destruct (decide (i = p)) as [->|].
    + exists q. rewrite decide_True by done. split; congruence.
    + destruct (decide (i = q)) as [->|].
      * exists p. rewrite decide_False, decide_True by done. split; congruence.
      * exists i. by rewrite !decide_False.
Qed.

Lemma placed_swapped p q n v st t u :
  placed_but p n v st → 1 ≤ p ≤ n → 1 ≤ q ≤ n → p ≠ q →
  v !! p = Some t → v !! q = Some u →
  placed_but q n (swapped p q t u v) (alter (set_heap_offset p) u st).
Proof.
  intros [Hf Hi Ho] Hp Hq Hne Ht Hu.
  assert (Hsome : ∀ k, is_Some (st !! k) → is_Some (alter (set_heap_offset p) u st !! k)).
  { intros k. apply (same_but_offsets_is_Some (λ _, True)). by apply same_but_offsets_alter. }
  assert (t ≠ u) as Htu.
  { intros ->. apply Hne. apply (Hi p q u); by split. }
  split.
  - intros i Hin. rewrite swapped_lookup by done.
    repeat case_decide; [|exists u|].
    + exists t. split; [done|]. apply Hsome. destruct (Hf p Hp) as (? & ? & ?). congruence.
    + split; [done|]. apply Hsome. destruct (Hf q Hq) as (? & ? & ?). congruence.
    + destruct (Hf i Hin) as (k & ? & ?). eauto.
  - assert (Hσ : ∀ i k, at_pos n (swapped p q t u v) i k →
      at_pos n v (if decide (i = q) then p else if decide (i = p) then q else i) k).
    { intros i k [Hi1 Hi2]. rewrite swapped_lookup in Hi2 by done.
      repeat case_decide; subst; split; congruence. }
    intros i j k Hik Hjk. pose proof (Hi _ _ _ (Hσ _ _ Hik) (Hσ _ _ Hjk)) as E.
    clear -E Hne. repeat case_decide; lia.
  - intros i k [Hi1 Hi2] Hiq. rewrite swapped_lookup in Hi2 by done.
    rewrite decide_False in Hi2 by done. case_decide; simplify_eq.
    + rewrite heap_offset_alter, decide_True; [done|done|].
      destruct (Hf q Hq) as (? & ? & ?). congruence.
    + assert (at_pos n v i k) as Hk by by split. rewrite heap_offset_alter.
      2: { destruct (Hf i Hi1) as (? & ? & ?). congruence. }
      rewrite decide_False; [by apply Ho|]. intros ->. apply Hiq, (Hi i q k); [done|by split].
Qed.

Lemma get_swapped p q t u v i :
  v !! p = Some t → v !! q = Some u → p ≠ q →
  get (swapped p q t u v) i =
    if decide (i = q) then t else if decide (i = p) then u else get v i.
Proof.
  intros. unfold get. rewrite swapped_lookup by done. by repeat case_decide.
Qed.

(** [lia] with division by two written out. *)
Ltac half_lia := Z.div_mod_to_equations; lia.

Lemma sink_order p q n v key t u :
  ordered_but_below p n v key → 1 ≤ p → q ≤ n → q = 2 * p ∨ q = 2 * p + 1 →
  v !! p = Some t → v !! q = Some u → key u ≤ key t →
  (∀ i, 2 ≤ i ≤ n → i / 2 = p → key u ≤ key (get v i)) →
  ordered_but_below q n (swapped p q t u v) key.
Proof.
  intros Ho Hp Hqn Hq Ht Hu Hkey Hmin i Hi.
  assert (p < q ∧ q / 2 = p) as [Hpq Hq2] by half_lia.
  assert (i / 2 < i) by half_lia. assert (p / 2 < p) by half_lia.
  pose proof (get_lookup _ _ _ Ht) as Gt. pose proof (get_lookup _ _ _ Hu) as Gu.
  destruct (Ho i Hi) as [H1 H2]. rewrite !get_swapped by (done || lia). split.
  - intros Hne. rewrite (decide_False (P := i / 2 = q)) by done.
    destruct (decide (i = q)) as [->|Hiq]; [by rewrite decide_True|].
    destruct (decide (i = p)) as [->|Hip].
    + rewrite decide_False by lia. rewrite <- Gu. apply (Ho q); lia.
    + destruct (decide (i / 2 = p)); [by apply Hmin|by apply H1].
  - intros Hiq _. rewrite decide_False, decide_True by lia.
    rewrite !decide_False by lia. rewrite <- Gu, <- Hiq. apply H1. lia.
Qed.

Lemma sink_done p n v key t :
  ordered_but_below p n v key → 1 ≤ p → v !! p = Some t →
  (∀ i, 2 ≤ i ≤ n → i / 2 = p → key t ≤ key (get v i)) →
  ordered n v key.
Proof.
  intros Ho Hp Ht Hall i Hi. destruct (decide (i / 2 = p)) as [Hd|Hd].
  - rewrite Hd, (get_lookup _ _ _ Ht). auto.
  - by apply (Ho i).
Qed.

Lemma float_order p n v key t u :
  ordered_but_above p n v key → 2 ≤ p ≤ n →
  v !! p = Some t → v !! (p / 2) = Some u → key t < key u →
  ordered_but_above (p / 2) n (swapped p (p / 2) t u v) key.
Proof.
  intros Ho Hp Ht Hu Hkey i Hi.
  assert (1 ≤ p / 2 < p) as Hpp by half_lia. set (q := p / 2) in *.
  assert (i / 2 < i ∧ 1 ≤ i / 2) by half_lia. assert (q / 2 < q) by half_lia.
  pose proof (get_lookup _ _ _ Ht) as Gt. pose proof (get_lookup _ _ _ Hu) as Gu.
  destruct (Ho i Hi) as [H1 H2]. rewrite !get_swapped by (done || lia). split.
  - intros Hne. rewrite (decide_False (P := i = q)) by done.
    destruct (decide (i = p)) as [->|Hip].
    + rewrite decide_True by done. lia.
    + destruct (decide (i / 2 = q)) as [Hiq|].
      * specialize (H1 Hip). rewrite Hiq, Gu in H1. lia.
      * destruct (decide (i / 2 = p)) as [Hd|]; [|by apply H1].
        rewrite <- Gu. by apply H2; [|lia].
  - intros Hiq Hq2. rewrite decide_False, decide_False by lia. rewrite (decide_False (P := i = q)) by lia.
    assert (Hqo : key (get v (q / 2)) ≤ key u).
    { rewrite <- Gu. apply (Ho q); lia. }
    destruct (decide (i = p)); [done|]. specialize (H1 n0). rewrite Hiq, Gu in H1. lia.
Qed.

Lemma float_done p n v key t :
  ordered_but_above p n v key → 1 ≤ p ≤ n → v !! p = Some t →
  (2 ≤ p → key (get v (p / 2)) ≤ key t) →
  ordered n v key.
Proof.
  intros Ho Hp Ht Hup i Hi. destruct (decide (i = p)) as [->|].
  - rewrite (get_lookup _ _ _ Ht). apply Hup. lia.
  - by apply (Ho i).
Qed.

(** What sinking or floating the element [t] of the heap [v] ends in: the heap
    [v'] with [t] at [p'], not yet recorded in the store [st']. *)
Record heap_settled (n : Z) (key : positive → Z) (t : positive)
    (v : gmap Z positive) (st : store) (v' : gmap Z positive) (st' : store) (p' : Z) : Prop := {
  hs_range : 1 ≤ p' ≤ n;
  hs_at : v' !! p' = Some t;
  hs_placed : placed_but p' n v' st';
  hs_ordered : ordered n v' key;
  hs_in k : in_heap n v' k ↔ in_heap n v k;
  hs_store : same_but_offsets (in_heap n v) st st';
}.

Lemma heap_settled_swap n key t u v st q p v' st' p' :
  1 ≤ p ≤ n → 1 ≤ q ≤ n → p ≠ q → v !! p = Some t → v !! q = Some u →
  heap_settled n key t (swapped p q t u v) (alter (set_heap_offset p) u st) v' st' p' →
  heap_settled n key t v st v' st' p'.
Proof.
  intros Hp Hq Hne Ht Hu [H1 H2 H3 H4 H5 H6].
  pose proof (λ k, in_heap_swapped n p q t u v k Hp Hq Hne Ht Hu) as Hk.
  split; auto.
  - intros k. by rewrite H5.
  - eapply same_but_offsets_trans; [apply same_but_offsets_alter|].
    + by exists q.
    + intros k. destruct (H6 k) as [A B]. split; [|done]. intros Hn. apply A. by rewrite Hk.
Qed.

Lemma swapped_hole p q t u a : swapped p q t u (<[p := t]> a) = <[q := t]> (<[p := u]> a).
Proof. unfold swapped. by rewrite insert_insert_eq. Qed.

Lemma get_hole p t a i : i ≠ p → get (<[p := t]> a) i = get a i.
Proof. intros. unfold get. by rewrite lookup_insert_ne. Qed.

Lemma placed_get p n v st i : placed_but p n v st → 1 ≤ i ≤ n → v !! i = Some (get v i).
Proof. intros [Hf _ _] Hi. destruct (Hf i Hi) as (u & Hu & _). by rewrite (get_lookup _ _ _ Hu). Qed.

Lemma down_loop_spec fuel n key t a st pos :
  (Z.to_nat (n - pos) < fuel)%nat → 1 ≤ pos ≤ n →
  (∀ k, expires st k = key k) →
  placed_but pos n (<[pos := t]> a) st →
  ordered_but_below pos n (<[pos := t]> a) key →
  match down_loop fuel n t a st pos with
  | (a', st', p') => heap_settled n key t (<[pos := t]> a) st (<[p' := t]> a') st' p'
  end.
Proof.
  revert a st pos. induction fuel as [|fuel IH]; intros a st pos Hf Hpos Hkey Hpl Ho; [lia|].
  cbn [down_loop]. rewrite Z.shiftl_mul_pow2 by lia. change (2 ^ 1) with 2.
  set (v := <[pos := t]> a) in *.
  assert (Ht : v !! pos = Some t) by apply lookup_insert_eq.
  assert (Hstop : (∀ i, 2 ≤ i ≤ n → i / 2 = pos → key t ≤ key (get v i)) →
    heap_settled n key t v st v st pos).
  { intros Hs. split; auto; [by eapply sink_done; [| |exact Ht|]; eauto; lia|].
    apply same_but_offsets_refl. }
  destruct (Z.leb_spec (pos * 2) n) as [Hle|Hgt].
  2: { apply Hstop. intros i Hi Hd. exfalso. half_lia. }
  rewrite !Hkey.
  set (nxt := if (pos * 2 + 1 <=? n) && (key (get a (pos * 2 + 1)) <? key (get a (pos * 2)))
              then pos * 2 + 1 else pos * 2).
  assert (Hnxt : (nxt = 2 * pos ∨ nxt = 2 * pos + 1) ∧ nxt ≤ n ∧
    ∀ i, 2 ≤ i ≤ n → i / 2 = pos → key (get a nxt) ≤ key (get v i)).
  { assert (∀ i, 2 ≤ i ≤ n → i / 2 = pos → i = pos * 2 ∨ i = pos * 2 + 1) as Hch by (intros; half_lia).
    unfold nxt. destruct (Z.leb_spec (pos * 2 + 1) n) as [?|?]; simpl;
      [destruct (Z.ltb_spec (key (get a (pos * 2 + 1))) (key (get a (pos * 2))))|];
      (split; [lia|split; [lia|]]); intros i Hi Hd;
      destruct (Hch i Hi Hd) as [->| ->]; unfold v; rewrite get_hole; lia. }
  destruct Hnxt as (Hn1 & Hn2 & Hmin). clearbody nxt.
  rewrite Z.gtb_ltb. destruct (Z.ltb_spec (key t) (key (get a nxt))) as [Hlt|Hge].
  { apply Hstop. intros i Hi Hd. specialize (Hmin i Hi Hd). lia. }
  pose proof (placed_get _ _ _ _ nxt Hpl ltac:(lia)) as Hu.
  unfold v in Hu. rewrite get_hole in Hu by lia. fold v in Hu.
  set (u := get a nxt) in *.
  assert (Hsw : swapped pos nxt t u v = <[nxt := t]> (<[pos := u]> a)) by apply swapped_hole.
  specialize (IH (<[pos := u]> a) (alter (set_heap_offset pos) u st) nxt).
  rewrite <- Hsw in IH. destruct (down_loop _ _ _ _ _ _) as [[a' st'] p'].
  eapply (heap_settled_swap n key t u v st nxt pos); auto; try lia. apply IH; try lia.
  - intros k. by rewrite expires_alter_offset.
  - apply placed_swapped; auto; lia.
  - apply sink_order; auto; lia.
Qed.

Lemma up_loop_spec fuel n key t a st pos :
  (Z.to_nat pos ≤ fuel)%nat → 1 ≤ pos ≤ n →
  (∀ k, expires st k = key k) →
  placed_but pos n (<[pos := t]> a) st →
  ordered_but_above pos n (<[pos := t]> a) key →
  match up_loop fuel t a st pos with
  | (a', st', p') => heap_settled n key t (<[pos := t]> a) st (<[p' := t]> a') st' p'
  end.
Proof.
  revert a st pos. induction fuel as [|fuel IH]; intros a st pos Hf Hpos Hkey Hpl Ho; [lia|].
  cbn [up_loop]. rewrite Z.shiftr_div_pow2 by lia. change (2 ^ 1) with 2.
  set (v := <[pos := t]> a) in *.
  assert (Ht : v !! pos = Some t) by apply lookup_insert_eq.
  assert (Hstop : (2 ≤ pos → key (get v (pos / 2)) ≤ key t) → heap_settled n key t v st v st pos).
  { intros Hs. split; auto; [by eapply float_done; [| |exact Ht|]|].
    apply same_but_offsets_refl. }
  rewrite Z.gtb_ltb, !Hkey. destruct (Z.ltb_spec 1 pos) as [Hgt|Hle]; simpl.
  2: { apply Hstop. lia. }
  assert (1 ≤ pos / 2 < pos) as Hhalf by half_lia.
  pose proof (placed_get _ _ _ _ (pos / 2) Hpl ltac:(lia)) as Hu.
  unfold v in Hu. rewrite get_hole in Hu by lia. fold v in Hu.
  destruct (Z.ltb_spec (key t) (key (get a (pos / 2)))) as [Hlt|Hge].
  2: { apply Hstop. intros _. unfold v. by rewrite get_hole by lia. }
  set (u := get a (pos / 2)) in *.
  assert (Hsw : swapped pos (pos / 2) t u v = <[pos / 2 := t]> (<[pos := u]> a)) by apply swapped_hole.
  specialize (IH (<[pos := u]> a) (alter (set_heap_offset pos) u st) (pos / 2)).
  rewrite <- Hsw in IH. destruct (up_loop _ _ _ _ _) as [[a' st'] p'].
  eapply (heap_settled_swap n key t u v st (pos / 2) pos); auto; try lia. apply IH; try lia.
  - intros k. by rewrite expires_alter_offset.
  - apply placed_swapped; auto; lia.
  - apply float_order; auto; lia.
Qed.

(** ** The heap invariant and the two public operations *)

Record heap_wf (h : theap) (st : store) : Prop := {
  hw_size : 0 ≤ hp_size h ≤ hp_limit h;
  hw_limit : hp_limit h < 2 ^ 16;
  hw_placed : placed_but 0 (hp_size h) (hp_arr h) st;
  hw_ordered : ordered (hp_size h) (hp_arr h) (expires st);
}.

(** The timers of a heap. *)
Definition heap_has (h : theap) (t : positive) : Prop := in_heap (hp_size h) (hp_arr h) t.

(** Recording the settled element's position completes the heap. *)
Lemma settle n lim key t v st v' st' p' :
  0 ≤ n ≤ lim → lim < 2 ^ 16 → (∀ k, expires st k = key k) →
  heap_settled n key t v st v' st' p' →
  let h := mk_theap n lim v' in
  let st2 := alter (set_heap_offset p') t st' in
  heap_wf h st2 ∧ (∀ k, heap_has h k ↔ in_heap n v k) ∧ same_but_offsets (in_heap n v) st st2.
Proof.
  intros Hn Hl Hkey [H1 H2 [Hf Hi Ho] H4 H5 H6]. simpl.
  assert (Hin : in_heap n v t) by (apply H5; by exists p').
  assert (Hst : same_but_offsets (in_heap n v) st (alter (set_heap_offset p') t st')).
  { eapply same_but_offsets_trans; [exact H6|]. by apply same_but_offsets_alter. }
  split; [|split; [done|done]]. split; simpl; auto.
  - split.
    + intros i Hii. destruct (Hf i Hii) as (u & Hu & Hs). exists u. split; [done|].
      eapply same_but_offsets_is_Some; [|exact Hs].
      by apply (same_but_offsets_alter (λ _, True)).
    + exact Hi.
    + intros i u Hu _. destruct Hu as [Hii Hu]. destruct (Hf i Hii) as (u' & Hu' & Hs).
      assert (u' = u) as -> by congruence. rewrite heap_offset_alter by done. case_decide as Hd.
      * subst. apply (Hi p' i u); by split.
      * apply Ho; [by split|]. intros ->. congruence.
  - intros i Hii. specialize (H4 i Hii).
    rewrite !(same_but_offsets_expires _ _ _ _ Hst), !Hkey. done.
Qed.

Lemma down_heap_spec h st pos :
  0 ≤ hp_size h ≤ hp_limit h → hp_limit h < 2 ^ 16 → 1 ≤ pos ≤ hp_size h →
  placed_but pos (hp_size h) (hp_arr h) st →
  ordered_but_below pos (hp_size h) (hp_arr h) (expires st) →
  match down_heap h st pos with
  | (h', st') => heap_wf h' st' ∧ hp_size h' = hp_size h ∧ hp_limit h' = hp_limit h ∧
      (∀ k, heap_has h' k ↔ heap_has h k) ∧ same_but_offsets (heap_has h) st st'
  end.
Proof.
  intros Hs Hl Hp Hpl Ho. unfold down_heap.
  pose proof (placed_get _ _ _ _ pos Hpl Hp) as Hg. set (t := get (hp_arr h) pos) in *.
  pose proof (down_loop_spec (Z.to_nat (hp_size h)) (hp_size h) (expires st) t (hp_arr h) st pos) as Hd.
  rewrite insert_id in Hd by done.
  destruct (down_loop _ _ _ _ _ _) as [[a' st'] p'].
  specialize (Hd ltac:(lia) Hp ltac:(done) Hpl Ho).
  destruct (settle _ (hp_limit h) _ _ _ _ _ _ _ Hs Hl ltac:(done) Hd) as (Hw & Hin & Hst). auto.
Qed.

Lemma up_heap_spec h st pos :
  0 ≤ hp_size h ≤ hp_limit h → hp_limit h < 2 ^ 16 → 1 ≤ pos ≤ hp_size h →
  placed_but pos (hp_size h) (hp_arr h) st →
  ordered_but_above pos (hp_size h) (hp_arr h) (expires st) →
  match up_heap h st pos with
  | (h', st') => heap_wf h' st' ∧ hp_size h' = hp_size h ∧ hp_limit h' = hp_limit h ∧
      (∀ k, heap_has h' k ↔ heap_has h k) ∧ same_but_offsets (heap_has h) st st'
  end.
Proof.
  intros Hs Hl Hp Hpl Ho. unfold up_heap.
  pose proof (placed_get _ _ _ _ pos Hpl Hp) as Hg. set (t := get (hp_arr h) pos) in *.
  pose proof (up_loop_spec (Z.to_nat pos) (hp_size h) (expires st) t (hp_arr h) st pos) as Hd.
  rewrite insert_id in Hd by done.
  destruct (up_loop _ _ _ _ _) as [[a' st'] p'].
  specialize (Hd ltac:(lia) Hp ltac:(done) Hpl Ho).
  destruct (settle _ (hp_limit h) _ _ _ _ _ _ _ Hs Hl ltac:(done) Hd) as (Hw & Hin & Hst). auto.
Qed.

Lemma placed_but_weaken p n a st : placed_but 0 n a st → placed_but p n a st.
Proof. intros [Hf Hi Ho]. split; auto. intros i t [? ?] _. apply Ho; [by split|lia]. Qed.

Lemma heap_has_offset h st t :
  heap_wf h st → heap_has h t →
  1 ≤ heap_offset st t ≤ hp_size h ∧ hp_arr h !! heap_offset st t = Some t ∧ is_Some (st !! t).
Proof.
  intros [_ _ [Hf Hi Ho] _] (i & Hi1 & Hi2).
  rewrite (Ho i t) by (by split || lia). split; [done|]. split; [done|].
  destruct (Hf i Hi1) as (? & ? & ?). congruence.
Qed.

Lemma add_placed h st t :
  heap_wf h st → ¬ heap_has h t → is_Some (st !! t) →
  let n := hp_size h + 1 in
  placed_but n n (<[n := t]> (hp_arr h)) (alter (set_heap_offset n) t st).
Proof.
  intros [Hs _ [Hf Hi Ho] _] Hnot Ht n.
  assert (Hsome : ∀ k, is_Some (st !! k) → is_Some (alter (set_heap_offset n) t st !! k)).
  { intros k. apply (same_but_offsets_is_Some (λ _, True)). by apply same_but_offsets_alter. }
  assert (Hold : ∀ i k, at_pos n (<[n := t]> (hp_arr h)) i k → i ≠ n → at_pos (hp_size h) (hp_arr h) i k).
  { intros i k [? Hk] ?. rewrite lookup_insert_ne in Hk by done. split; [lia|done]. }
  assert (Hnew : ∀ k, at_pos n (<[n := t]> (hp_arr h)) n k → k = t).
  { intros k [_ Hk]. rewrite lookup_insert_eq in Hk. congruence. }
  split.
  - intros i Hin. destruct (decide (i = n)) as [->|].
    + exists t. rewrite lookup_insert_eq. auto.
    + destruct (Hf i ltac:(lia)) as (k & ? & ?). exists k. rewrite lookup_insert_ne by done. auto.
  - intros i j k Hik Hjk. destruct (decide (i = n)) as [->|Hni], (decide (j = n)) as [->|Hnj]; auto.
    + apply Hnew in Hik as ->. destruct Hnot. exists j. auto.
    + apply Hnew in Hjk as ->. destruct Hnot. exists i. auto.
    + eauto.
  - intros i k Hik Hni. specialize (Hold _ _ Hik Hni). pose proof Hold as [Hi1 Hi2].
    rewrite heap_offset_alter by (destruct (Hf i Hi1) as (? & ? & ?); congruence).
    rewrite decide_False; [apply Ho; [done|lia]|]. intros ->. apply Hnot. by exists i.
Qed.

Lemma add_to_heap_spec h st t :
  heap_wf h st → ¬ heap_has h t → is_Some (st !! t) →
  match add_to_heap h st t with
  | (rc, h', st') =>
      if hp_size h =? hp_limit h then rc = false ∧ h' = h ∧ st' = st
      else heap_wf h' st' ∧ hp_size h' = hp_size h + 1 ∧ hp_limit h' = hp_limit h ∧
        (∀ k, heap_has h' k ↔ k = t ∨ heap_has h k) ∧
        same_but_offsets (λ k, k = t ∨ heap_has h k) st st' ∧
        (rc = true ↔ hp_arr h' !! 1 = Some t)
  end.
Proof.
  intros Hw Hnot Ht. pose proof Hw as [Hs Hl Hpl Ho]. unfold add_to_heap.
  destruct (Z.eqb_spec (hp_size h) (hp_limit h)) as [|Hne]; [done|].
  unfold SET_HEAP_SIZE. simpl. rewrite u16_small by lia.
  set (n := hp_size h + 1) in *. set (st1 := alter (set_heap_offset n) t st).
  pose proof (add_placed h st t Hw Hnot Ht) as Hpl'.
  pose proof (up_heap_spec (mk_theap n (hp_limit h) (<[n := t]> (hp_arr h))) st1 n) as Hup.
  simpl in Hup. destruct (up_heap _ _ _) as [h' st'].
  assert (Hin : ∀ k, in_heap n (<[n := t]> (hp_arr h)) k ↔ k = t ∨ heap_has h k).
  { intros k. unfold heap_has, in_heap, at_pos. setoid_rewrite lookup_insert_Some. split.
    - intros (i & ? & [[? ?]|[? ?]]); [by left|]. right. exists i. split; [lia|done].
    - intros [->|(i & ? & ?)]; [exists n; split; [lia|by left]|].
      exists i. split; [lia|]. right. split; [lia|done]. }
  destruct Hup as (Hw' & Hs' & Hl' & Hh' & Hst'); try lia; [done| |].
  { intros i Hi. split; [|intros; half_lia]. intros Hin'.
    assert (1 ≤ i / 2 < i) by half_lia. rewrite !get_hole by lia.
    unfold st1. rewrite !expires_alter_offset. apply Ho. lia. }
  assert (Hht : heap_has h' t) by (apply Hh', Hin; by left).
  split; [done|]. split; [done|]. split; [done|]. split; [intros k; rewrite Hh'; apply Hin|].
  split.
  { eapply same_but_offsets_trans; [apply same_but_offsets_alter; by left|].
    intros k. destruct (Hst' k) as [A B]. split; [|done]. intros Hn. apply A.
    intros Hc. by apply Hn, Hin. }
  destruct (heap_has_offset _ _ _ Hw' Hht) as (Hr & Hg & _).
  rewrite Z.eqb_eq. split; [intros Heq; by rewrite Heq in Hg|].
  intros H1. destruct Hw' as [_ _ [_ Hi _] _]. apply (Hi _ _ t); split; auto. lia.
Qed.

(** Inserting a timer into a well-formed heap that is not full gives a
    well-formed (ordered, consistently indexed) heap with exactly one more
    timer; the return value says whether the timer is the new top. A full heap
    is left as it was. *)
Theorem add_to_heap_correct h st t :
  heap_wf h st → ¬ heap_has h t → is_Some (st !! t) →
  match add_to_heap h st t with
  | (rc, h', st') =>
      if hp_size h =? hp_limit h then rc = false ∧ h' = h ∧ st' = st
      else heap_wf h' st' ∧ hp_size h' = hp_size h + 1 ∧ hp_limit h' = hp_limit h ∧
        (∀ k, heap_has h' k ↔ k = t ∨ heap_has h k) ∧
        same_but_offsets (λ k, k = t ∨ heap_has h k) st st' ∧
        (rc = true ↔ hp_arr h' !! 1 = Some t)
  end.
Proof. apply add_to_heap_spec. Qed.

(** The store and array of [remove_from_heap] after the last element has taken
    the place of the removed one. *)
Lemma remove_placed h st t :
  heap_wf h st → heap_has h t → heap_offset st t ≠ hp_size h →
  let pos := heap_offset st t in
  let n := hp_size h - 1 in
  let last := get (hp_arr h) (hp_size h) in
  placed_but 0 n (<[pos := last]> (hp_arr h)) (alter (set_heap_offset pos) last st) ∧
  (∀ k, in_heap n (<[pos := last]> (hp_arr h)) k ↔ k ≠ t ∧ heap_has h k).
Proof.
  intros Hw Ht Hne pos n last. destruct (heap_has_offset _ _ _ Hw Ht) as (Hr & Hg & Hts).
  pose proof Hw as [Hs _ Hpl _]. pose proof Hpl as [Hf Hi Ho]. fold pos in Hne, Hr, Hg.
  pose proof (placed_get _ _ _ _ (hp_size h) Hpl ltac:(lia)) as Hlast. fold last in Hlast.
  assert (Hinj : ∀ i j k, at_pos n (<[pos := last]> (hp_arr h)) i k →
    at_pos n (<[pos := last]> (hp_arr h)) j k → i = j).
  { intros i j k [Hi1 Hi2] [Hj1 Hj2]. apply lookup_insert_Some in Hi2, Hj2.
    destruct Hi2 as [[<- <-]|[? ?]], Hj2 as [[<- Hk]|[? ?]]; auto; simplify_eq.
    - assert (j = hp_size h) by (eapply Hi; split; eauto; lia). lia.
    - assert (i = hp_size h) by (eapply Hi; split; eauto; lia). lia.
    - eapply Hi; split; eauto; lia. }
  split; [split; [|exact Hinj|]|].
  - intros i Hin. rewrite lookup_insert.
    assert (∀ k, is_Some (st !! k) → is_Some (alter (set_heap_offset pos) last st !! k)) as Hsome.
    { intros k. apply (same_but_offsets_is_Some (λ _, True)). by apply same_but_offsets_alter. }
    case_decide.
    + exists last. split; [done|]. apply Hsome. destruct (Hf (hp_size h)) as (? & ? & ?); [lia|]. congruence.
    + destruct (Hf i ltac:(lia)) as (k & ? & ?). eauto.
  - intros i k Hk _. pose proof Hk as [Hi1 Hi2]. apply lookup_insert_Some in Hi2 as [[<- <-]|[Hne' Hi2]].
    + rewrite heap_offset_alter, decide_True; [done|done|].
      destruct (Hf (hp_size h)) as (? & ? & ?); [lia|]. congruence.
    + rewrite heap_offset_alter by (destruct (Hf i ltac:(lia)) as (? & ? & ?); congruence).
      rewrite decide_False; [apply Ho; [split; [lia|done]|lia]|].
      intros <-. assert (i = hp_size h) by (eapply Hi; split; eauto; lia). lia.
  - intros k. unfold heap_has, in_heap, at_pos. setoid_rewrite lookup_insert_Some. split.
    + intros (i & Hii & [[<- <-]|[Hni Hk]]).
      * split; [|exists (hp_size h); split; [lia|done]]. intros Heq.
        apply Hne. eapply (Hi pos (hp_size h) t); split; auto; [lia|congruence].
      * split; [|exists i; split; [lia|done]]. intros ->. apply Hni. eapply (Hi pos i t); split; auto; lia.
    + intros [Hkt (i & Hii & Hk)]. destruct (decide (i = hp_size h)) as [->|].
      * exists pos. split; [lia|]. left. split; [done|]. congruence.
      * exists i. split; [lia|]. right. split; [|done]. intros <-. congruence.
Qed.

(** Removing the last element only shrinks the heap. *)
Lemma shrink_spec h st t :
  heap_wf h st → heap_has h t → heap_offset st t = hp_size h →
  let h' := mk_theap (hp_size h - 1) (hp_limit h) (hp_arr h) in
  heap_wf h' st ∧ (∀ k, heap_has h' k ↔ k ≠ t ∧ heap_has h k).
Proof.
  intros Hw Ht He. destruct (heap_has_offset _ _ _ Hw Ht) as (Hr & Hg & Hts).
  destruct Hw as [Hs Hl [Hf Hi Hoff] Ho].
  assert (Hup : ∀ i k, at_pos (hp_size h - 1) (hp_arr h) i k → at_pos (hp_size h) (hp_arr h) i k).
  { intros i k [? ?]. split; [lia|done]. }
  split.
  - split; simpl; auto; [lia| |intros i ?; apply Ho; lia]. split.
    + intros i ?. apply Hf. lia.
    + intros i j k H1 H2. eapply Hi; eauto.
    + intros i k H1 ?. eauto.
  - intros k. unfold heap_has, in_heap; simpl. split.
    + intros (i & Hk). split; [|eauto]. intros ->. pose proof Hk as [? _].
      assert (heap_offset st t = i); [|lia]. eapply Hi; [split; eauto|eauto].
    + intros [? (i & ? & ?)]. exists i. split; [|done].
      destruct (decide (i = hp_size h)); [congruence|lia].
Qed.

(** Heap order around the hole once the last element has been put in it. *)
Lemma remove_order h st pos last :
  heap_wf h st → 1 ≤ pos < hp_size h →
  let n := hp_size h - 1 in
  let a := <[pos := last]> (hp_arr h) in
  (2 ≤ pos → expires st last < expires st (get a (pos / 2)) →
   ordered_but_above pos n a (expires st)) ∧
  ((2 ≤ pos → expires st (get a (pos / 2)) ≤ expires st last) →
   ordered_but_below pos n a (expires st)).
Proof.
  intros [Hs Hl Hpl Ho] Hp n a.
  assert (Hga : get a pos = last) by (unfold get, a; by rewrite lookup_insert_eq).
  assert (Hapos : ∀ i, i ≠ pos → get a i = get (hp_arr h) i) by (intros; by apply get_hole).
  assert (Hold : ∀ i, 2 ≤ i ≤ n → i / 2 = pos → 2 ≤ pos →
    expires st (get (hp_arr h) (pos / 2)) ≤ expires st (get (hp_arr h) i)).
  { intros i Hii Hd Hp2. etransitivity; [apply (Ho pos); lia|]. rewrite <- Hd. apply Ho. lia. }
  assert (pos / 2 < pos) by half_lia.
  split; [intros Hp2 Hk i Hii|intros Hk i Hii];
    assert (1 ≤ i / 2 < i) by half_lia; split.
  - intros Hip. rewrite (Hapos i) by lia. destruct (decide (i / 2 = pos)) as [Hd|Hd].
    + rewrite Hd, Hga. specialize (Hold i Hii Hd ltac:(lia)). rewrite Hapos in Hk by lia. lia.
    + rewrite Hapos by lia. apply Ho. lia.
  - intros Hd _. rewrite !Hapos by lia. by apply Hold.
  - intros Hip. destruct (decide (i = pos)) as [->|]; [rewrite Hga; apply Hk; lia|].
    rewrite !Hapos by lia. apply Ho. lia.
  - intros Hd Hp2. rewrite !Hapos by lia. by apply Hold.
Qed.

Lemma remove_from_heap_spec h st t :
  heap_wf h st → heap_has h t →
  match remove_from_heap h st t with
  | (rc, h', st') =>
      heap_wf h' st' ∧ hp_size h' = hp_size h - 1 ∧ hp_limit h' = hp_limit h ∧
      (∀ k, heap_has h' k ↔ k ≠ t ∧ heap_has h k) ∧
      same_but_offsets (λ k, k ≠ t ∧ heap_has h k) st st' ∧
      (rc = true ↔ hp_arr h !! 1 = Some t)
  end.
Proof.
  intros Hw Ht. destruct (heap_has_offset _ _ _ Hw Ht) as (Hr & Hg & Hts).
  pose proof Hw as [Hs Hl Hpl Ho]. pose proof Hpl as [Hf Hi Hoff].
  assert (Htop : (heap_offset st t =? 1) = true ↔ hp_arr h !! 1 = Some t).
  { rewrite Z.eqb_eq. split; [intros E; by rewrite E in Hg|].
    intros H1. apply (Hi _ _ t); split; auto. lia. }
  unfold remove_from_heap. destruct (Z.eqb_spec (heap_offset st t) (hp_size h)) as [He|Hne].
  { unfold SET_HEAP_SIZE. rewrite u16_small by lia.
    destruct (shrink_spec h st t Hw Ht He) as [? ?].
    repeat split_and; auto. apply same_but_offsets_refl. }
  destruct (remove_placed h st t Hw Ht Hne) as [Hpl' Hin'].
  destruct (remove_order h st (heap_offset st t) (get (hp_arr h) (hp_size h)) Hw ltac:(lia)) as [Hab Hbe].
  set (pos := heap_offset st t) in *. set (last := get (hp_arr h) (hp_size h)) in *.
  set (a := <[pos := last]> (hp_arr h)) in *. set (st1 := alter (set_heap_offset pos) last st) in *.
  unfold SET_HEAP_SIZE. simpl. rewrite u16_small by lia.
  set (h1 := mk_theap (hp_size h - 1) (hp_limit h) a).
  assert (Hexp : ∀ k, expires st1 k = expires st k) by (intros; apply expires_alter_offset).
  assert (Hord : ∀ i j, (expires st1 (get a i) ≤ expires st1 (get a j)) ↔
    (expires st (get a i) ≤ expires st (get a j))) by (intros; by rewrite !Hexp).
  rewrite Z.shiftr_div_pow2, !Hexp by lia. change (2 ^ 1) with 2.
  replace (get a pos) with last by (unfold get, a; by rewrite lookup_insert_eq).
  set (b := (pos >? 1) && _).
  assert (Hmid : match (if b then up_heap h1 st1 pos else down_heap h1 st1 pos) with
    | (h', st') => heap_wf h' st' ∧ hp_size h' = hp_size h1 ∧ hp_limit h' = hp_limit h1 ∧
        (∀ k, heap_has h' k ↔ heap_has h1 k) ∧ same_but_offsets (heap_has h1) st1 st'
    end).
  { unfold b. rewrite Z.gtb_ltb. destruct (Z.ltb_spec 1 pos); cbn [andb];
      [destruct (Z.ltb_spec (expires st last) (expires st (get a (pos / 2))))|].
    - apply (up_heap_spec h1 st1 pos); simpl; try lia; [by apply placed_but_weaken|].
      intros i Hi'. rewrite !Hord. apply Hab; auto; lia.
    - apply (down_heap_spec h1 st1 pos); simpl; try lia; [by apply placed_but_weaken|].
      intros i Hi'. rewrite !Hord. apply Hbe; auto.
    - apply (down_heap_spec h1 st1 pos); simpl; try lia; [by apply placed_but_weaken|].
      intros i Hi'. rewrite !Hord. apply Hbe; auto. lia. }
  destruct (if b then _ else _) as [h' st']. destruct Hmid as (Hw' & Hs' & Hl' & Hh' & Hst').
  repeat split_and; auto.
  - intros k. rewrite Hh'. apply Hin'.
  - eapply same_but_offsets_trans.
    + apply same_but_offsets_alter, Hin'. exists pos. split; [lia|]. unfold a. by rewrite lookup_insert_eq.
    + intros k. destruct (Hst' k) as [A B]. split; [|done]. intros Hn. apply A.
      intros Hc. by apply Hn, Hin'.
Qed.

(** C23: removing a timer of a well-formed heap gives a well-formed heap without
    it and with every other timer, whether the replacement element floats or
    sinks; the return value says whether it was the top. *)
Theorem remove_from_heap_correct h st t :
  heap_wf h st → heap_has h t →
  match remove_from_heap h st t with
  | (rc, h', st') =>
      heap_wf h' st' ∧ hp_size h' = hp_size h - 1 ∧ hp_limit h' = hp_limit h ∧
      (∀ k, heap_has h' k ↔ k ≠ t ∧ heap_has h k) ∧
      same_but_offsets (λ k, k ≠ t ∧ heap_has h k) st st' ∧
      (rc = true ↔ hp_arr h !! 1 = Some t)
  end.
Proof. apply remove_from_heap_spec. Qed.

(** The top of the heap expires no later than any other timer. *)
Lemma heap_top_min h st k :
  heap_wf h st → heap_has h k → expires st (get (hp_arr h) 1) ≤ expires st k.
Proof.
  intros [_ _ _ Ho] (i & Hi & Hk). rewrite <- (get_lookup _ _ _ Hk). clear Hk.
  destruct Hi as [Hi1 Hi2]. revert i Hi1 Hi2. apply (Zlt_lower_bound_ind
    (λ i, i ≤ hp_size h → expires st (get (hp_arr h) 1) ≤ expires st (get (hp_arr h) i)) 1).
  intros i IH Hi1 Hi2. destruct (decide (i = 1)) as [->|]; [lia|].
  assert (1 ≤ i / 2 < i) by half_lia.
  etransitivity; [apply (IH (i / 2)); lia|]. apply Ho. lia.
Qed.

Lemma heap_top_has h st : heap_wf h st → hp_size h ≠ 0 → heap_has h (get (hp_arr h) 1).
Proof.
  intros [Hs _ Hpl _] Hne. exists 1. split; [lia|]. eapply placed_get; [exact Hpl|lia].
Qed.

(** The empty heap every CPU starts with. *)
Definition dummy_heap : theap := mk_theap 0 0 ∅.

Lemma dummy_heap_wf st : heap_wf dummy_heap st.
Proof.
  split; simpl; try lia; [|intros i ?; lia].
  split; unfold at_pos; intros; lia.
Qed.

(** A three-timer heap for the examples. *)
Definition ex_store : store :=
  {[ 1%positive := mk_timer 30 3 0 0 0 3; 2%positive := mk_timer 10 1 0 0 0 3;
     3%positive := mk_timer 20 2 0 0 0 3; 4%positive := mk_timer 5 0 0 0 0 0 ]}.
Definition ex_heap : theap :=
  mk_theap 3 15 {[ 1 := 2%positive; 2 := 3%positive; 3 := 1%positive ]}.

Lemma ex_heap_wf : heap_wf ex_heap ex_store.
Proof.
  assert (Hc : ∀ i, 1 ≤ i ≤ 3 → i = 1 ∨ i = 2 ∨ i = 3) by lia.
  split; simpl; try lia.
  - split.
    + intros i [->|[->| ->]]%Hc; eexists; (split; [reflexivity|by eexists]).
    + intros i j t [[->|[->| ->]]%Hc Hi] [[->|[->| ->]]%Hc Hj]; try done;
        vm_compute in Hi, Hj; congruence.
    + intros i t [[->|[->| ->]]%Hc Hi] _; vm_compute in Hi; injection Hi as <-; reflexivity.
  - intros i Hi. assert (i = 2 ∨ i = 3) as [->| ->] by lia; vm_compute; discriminate.
Qed.

Lemma add_to_heap_correct_witness :
  match add_to_heap ex_heap ex_store 4 with
  | (rc, h', st') =>
      heap_wf h' st' ∧ hp_size h' = 4 ∧ hp_limit h' = 15 ∧
      (∀ k, heap_has h' k ↔ k = 4%positive ∨ heap_has ex_heap k) ∧
      same_but_offsets (λ k, k = 4%positive ∨ heap_has ex_heap k) ex_store st' ∧
      (rc = true ↔ hp_arr h' !! 1 = Some 4%positive)
  end.
Proof.
  apply (add_to_heap_correct ex_heap ex_store 4); [exact ex_heap_wf| |by eexists].
  intros (i & Hi & Hk). assert (i = 1 ∨ i = 2 ∨ i = 3) as [->|[->| ->]] by (simpl in Hi; lia);
    vm_compute in Hk; discriminate.
Defined.

Lemma remove_from_heap_correct_witness :
  match remove_from_heap ex_heap ex_store 2 with
  | (rc, h', st') =>
      heap_wf h' st' ∧ hp_size h' = 3 - 1 ∧ hp_limit h' = 15 ∧
      (∀ k, heap_has h' k ↔ k ≠ 2%positive ∧ heap_has ex_heap k) ∧
      same_but_offsets (λ k, k ≠ 2%positive ∧ heap_has ex_heap k) ex_store st' ∧
      (rc = true ↔ hp_arr ex_heap !! 1 = Some 2%positive)
  end.
Proof.
  apply (remove_from_heap_correct ex_heap ex_store 2); [exact ex_heap_wf|].
  exists 1. split; [simpl; lia|reflexivity].
Defined.
