(* ===== verification/Timer.v ===== *)
(** * Timers (xen/common/timer.c)

    Each CPU has a heap of active timers, an overflow list ordered by expiry,
    a list of inactive timers and the timer whose callback is running. The
    state is explicit; [None] of the C pointers and the per-CPU locks do not
    appear, an operation being one critical section. [cpu_raise_softirq] of the
    timer softirq is recorded in [tm_softirq]. *)

From S2P Require Import Prelude TimerHeap.
Local Open Scope xen_scope.

(** ** State *)

Record timers := mk_timers {
  ts_heap : theap;
  ts_list : list positive;
  ts_running : option positive;
  ts_inactive : list positive;
}.

Definition boot_timers : timers := mk_timers dummy_heap [] None [].

Record tstate := mk_tstate {
  tm_store : store;
  tm_cpus : gmap Z timers;
  tm_softirq : list Z;
  tm_deadline : gmap Z Z;
}.

(** [per_cpu(timers, c)] *)
Definition per_cpu (s : tstate) (c : Z) : timers := default boot_timers (tm_cpus s !! c).

Definition upd_cpu (c : Z) (f : timers → timers) (s : tstate) : tstate :=
  mk_tstate (tm_store s) (<[c := f (per_cpu s c)]> (tm_cpus s)) (tm_softirq s) (tm_deadline s).
Definition upd_timer (t : positive) (f : timer → timer) (s : tstate) : tstate :=
  mk_tstate (alter f t (tm_store s)) (tm_cpus s) (tm_softirq s) (tm_deadline s).
Definition put_store (st : store) (s : tstate) : tstate :=
  mk_tstate st (tm_cpus s) (tm_softirq s) (tm_deadline s).

Definition set_heap (h : theap) (ts : timers) : timers :=
  mk_timers h (ts_list ts) (ts_running ts) (ts_inactive ts).
Definition set_list (l : list positive) (ts : timers) : timers :=
  mk_timers (ts_heap ts) l (ts_running ts) (ts_inactive ts).
Definition set_running (r : option positive) (ts : timers) : timers :=
  mk_timers (ts_heap ts) (ts_list ts) r (ts_inactive ts).
Definition set_inactive (l : list positive) (ts : timers) : timers :=
  mk_timers (ts_heap ts) (ts_list ts) (ts_running ts) l.

Definition cpu_raise_softirq (c : Z) (s : tstate) : tstate :=
  mk_tstate (tm_store s) (tm_cpus s) (c :: tm_softirq s) (tm_deadline s).

(** [list_add] and [list_del] on a CPU's inactive list; unlinking a timer that
    is not on the list would corrupt it. *)
Definition inactive_add (c : Z) (t : positive) (s : tstate) : tstate :=
  upd_cpu c (λ ts, set_inactive (t :: ts_inactive ts) ts) s.
Definition inactive_drop (c : Z) (t : positive) (s : tstate) : tstate :=
  upd_cpu c (λ ts, set_inactive (filter (λ u, u ≠ t) (ts_inactive ts)) ts) s.
Definition inactive_del (c : Z) (t : positive) (s : tstate) : outcome tstate :=
  if bool_decide (t ∈ ts_inactive (per_cpu s c)) then Ok (inactive_drop c t s) else Bug.

(** ** Linked list operations *)

(** Unlink [t]; walking off the end is a [NULL] dereference. *)
Fixpoint remove_from_list (l : list positive) (t : positive) (first : bool)
    : outcome (bool * list positive) :=
  match l with
  | [] => Bug
  | curr :: l' =>
      if bool_decide (curr = t) then Ok (first, l')
      else let! (b, r) := remove_from_list l' t false in Ok (b, curr :: r)
  end.

Fixpoint add_to_list (st : store) (l : list positive) (t : positive) (first : bool)
    : bool * list positive :=
  match l with
  | [] => (first, [t])
  | curr :: l' =>
      if expires st curr <=? expires st t
      then let '(b, r) := add_to_list st l' t false in (b, curr :: r)
      else (first, t :: curr :: l')
  end.

(** ** Timer operations *)

Definition remove_entry (t : positive) (s : tstate) : outcome (bool * tstate) :=
  match tm_store s !! t with
  | None => Bug
  | Some x =>
      let ts := per_cpu s (t_cpu x) in
      if t_status x =? TIMER_STATUS_in_heap then
        let '(rc, h, st) := remove_from_heap (ts_heap ts) (tm_store s) t in
        let s1 := put_store st (upd_cpu (t_cpu x) (set_heap h) s) in
        Ok (rc, upd_timer t (set_status TIMER_STATUS_invalid) s1)
      else if t_status x =? TIMER_STATUS_in_list then
        let! (rc, l) := remove_from_list (ts_list ts) t true in
        let s1 := upd_cpu (t_cpu x) (set_list l) s in
        Ok (rc, upd_timer t (set_status TIMER_STATUS_invalid) s1)
      else Bug
  end.

Definition add_entry (t : positive) (s : tstate) : outcome (bool * tstate) :=
  match tm_store s !! t with
  | None => Bug
  | Some x =>
      BUG_ON (negb (t_status x =? TIMER_STATUS_invalid))
        (let c := t_cpu x in
         let s1 := upd_timer t (λ x, set_status TIMER_STATUS_in_heap (set_heap_offset 0 x)) s in
         let '(rc, h, st) := add_to_heap (ts_heap (per_cpu s1 c)) (tm_store s1) t in
         let s2 := put_store st (upd_cpu c (set_heap h) s1) in
         if negb (heap_offset st t =? 0) then Ok (rc, s2)
         else
           let s3 := upd_timer t (set_status TIMER_STATUS_in_list) s2 in
           let '(rc, l) := add_to_list (tm_store s3) (ts_list (per_cpu s3 c)) t true in
           Ok (rc, upd_cpu c (set_list l) s3))
  end.

Definition activate_timer (t : positive) (s : tstate) : outcome tstate :=
  match tm_store s !! t with
  | None => Bug
  | Some x =>
      BUG_ON (negb (t_status x =? TIMER_STATUS_inactive))
        (let! s1 := inactive_del (t_cpu x) t (upd_timer t (set_status TIMER_STATUS_invalid) s) in
         let! (rc, s2) := add_entry t s1 in
         Ok (if (rc : bool) then cpu_raise_softirq (t_cpu x) s2 else s2))
  end.

Definition deactivate_timer (t : positive) (s : tstate) : outcome tstate :=
  match tm_store s !! t with
  | None => Bug
  | Some x =>
      let! (rc, s1) := remove_entry t s in
      let s2 := if (rc : bool) then cpu_raise_softirq (t_cpu x) s1 else s1 in
      Ok (inactive_add (t_cpu x) t (upd_timer t (set_status TIMER_STATUS_inactive) s2))
  end.

(** [timer_lock]: false for a killed timer. With the per-CPU lock held the
    timer's CPU cannot change, so the retry loop is left at once. *)
Definition timer_lock (x : timer) : bool := negb (t_cpu x =? TIMER_CPU_status_killed).

Definition active_timer (x : timer) : outcome bool :=
  BUG_ON (negb (TIMER_STATUS_inactive <=? t_status x))
    (BUG_ON (negb (t_status x <=? TIMER_STATUS_in_list))
       (Ok (TIMER_STATUS_in_heap <=? t_status x))).

Definition init_timer (t : positive) (function data cpu : Z) (s : tstate) : outcome tstate :=
  let x := mk_timer 0 0 function data (u16 cpu) TIMER_STATUS_inactive in
  let s1 := put_store (<[t := x]> (tm_store s)) s in
  BUG_ON (negb (timer_lock x)) (Ok (inactive_add cpu t s1)).

(** [if ( active_timer(timer) ) deactivate_timer(timer);] *)
Definition deactivate_if_active (t : positive) (x : timer) (s : tstate) : outcome tstate :=
  let! active := active_timer x in
  if (active : bool) then deactivate_timer t s else Ok s.

Definition set_timer (t : positive) (exp : Z) (s : tstate) : outcome tstate :=
  match tm_store s !! t with
  | None => Bug
  | Some x =>
      if negb (timer_lock x) then Ok s
      else
        let! s1 := deactivate_if_active t x s in
        activate_timer t (upd_timer t (set_expires exp) s1)
  end.

Definition stop_timer (t : positive) (s : tstate) : outcome tstate :=
  match tm_store s !! t with
  | None => Bug
  | Some x =>
      if negb (timer_lock x) then Ok s else deactivate_if_active t x s
  end.

Definition migrate_timer (t : positive) (new_cpu : Z) (s : tstate) : outcome tstate :=
  match tm_store s !! t with
  | None => Bug
  | Some x =>
      let old_cpu := t_cpu x in
      if (old_cpu =? new_cpu) || (old_cpu =? TIMER_CPU_status_killed) then Ok s
      else
        let! active := active_timer x in
        let! s1 := (if (active : bool) then deactivate_timer t s else Ok s) in
        let! s2 := inactive_del old_cpu t s1 in
        let s3 := inactive_add new_cpu t (upd_timer t (set_cpu (u16 new_cpu)) s2) in
        if (active : bool) then activate_timer t s3 else Ok s3
  end.

(** [kill_timer]: the final wait for callbacks on other CPUs changes no state. *)
Definition kill_timer (this_cpu : Z) (t : positive) (s : tstate) : outcome tstate :=
  BUG_ON (bool_decide (ts_running (per_cpu s this_cpu) = Some t))
    (match tm_store s !! t with
     | None => Bug
     | Some x =>
         if negb (timer_lock x) then Ok s
         else
           let! s1 := deactivate_if_active t x s in
           let! s2 := inactive_del (t_cpu x) t s1 in
           Ok (upd_timer t (λ x, set_cpu TIMER_CPU_status_killed
                                   (set_status TIMER_STATUS_killed x)) s2)
     end).

(** ** The timer softirq *)

Definition STIME_MAX : Z := 2 ^ 63 - 1.

Definition to_s64 (x : Z) : Z := if x <? 2 ^ 63 then x else x - 2 ^ 64.

Section softirq.
(** The timer callbacks: what [( *fn)(data)] does to the timer state, run
    without the lock. *)
Context (callback : Z → Z → tstate → outcome tstate).

Definition execute_timer (c : Z) (t : positive) (s : tstate) : outcome tstate :=
  let fn := from_option t_function 0 (tm_store s !! t) in
  let data := from_option t_data 0 (tm_store s !! t) in
  let s1 := inactive_add c t (upd_timer t (set_status TIMER_STATUS_inactive) s) in
  let s2 := upd_cpu c (set_running (Some t)) s1 in
  let! s3 := callback fn data s2 in
  Ok (upd_cpu c (set_running None) s3).

(** If the heap overflowed, try to allocate one sixteen times larger; the
    first [old_limit + 1] entries are copied. *)
Definition grow_heap (c : Z) (alloc_ok : bool) (s : tstate) : tstate :=
  match ts_list (per_cpu s c) with
  | [] => s
  | _ =>
      let h := ts_heap (per_cpu s c) in
      let new_limit := Z.shiftl (hp_limit h + 1) 4 - 1 in
      if alloc_ok then upd_cpu c (set_heap (SET_HEAP_LIMIT h new_limit)) s else s
  end.

(** Both loops run until no timer of their structure is due; running out of
    fuel stands for callbacks that keep arming timers in the past. They return
    the timers that were executed, in order. *)
Fixpoint run_heap_timers (fuel : nat) (c now : Z) (s : tstate)
    : outcome (list positive * tstate) :=
  match fuel with
  | O => Bug
  | S fuel' =>
      let h := ts_heap (per_cpu s c) in
      let t := get (hp_arr h) 1 in
      if negb (hp_size h =? 0) && (expires (tm_store s) t <? now) then
        let '(_, h', st) := remove_from_heap h (tm_store s) t in
        let! s1 := execute_timer c t (put_store st (upd_cpu c (set_heap h') s)) in
        let! (ran, s2) := run_heap_timers fuel' c now s1 in
        Ok (t :: ran, s2)
      else Ok ([], s)
  end.

Fixpoint run_list_timers (fuel : nat) (c now : Z) (s : tstate)
    : outcome (list positive * tstate) :=
  match fuel with
  | O => Bug
  | S fuel' =>
      match ts_list (per_cpu s c) with
      | [] => Ok ([], s)
      | t :: l =>
          if expires (tm_store s) t <? now then
            let! s1 := execute_timer c t (upd_cpu c (set_list l) s) in
            let! (ran, s2) := run_list_timers fuel' c now s1 in
            Ok (t :: ran, s2)
          else Ok ([], s)
      end
  end.

(** [while ( (t = next) != NULL ) { ...; add_entry(t); }] *)
Fixpoint move_to_heap (l : list positive) (s : tstate) : outcome tstate :=
  match l with
  | [] => Ok s
  | t :: l' =>
      let! (_, s1) := add_entry t (upd_timer t (set_status TIMER_STATUS_invalid) s) in
      move_to_heap l' s1
  end.

(** The earliest deadline of the heap's top and the list's head. *)
Definition next_deadline (c : Z) (s : tstate) : Z :=
  let ts := per_cpu s c in
  let d := if hp_size (ts_heap ts) =? 0 then STIME_MAX
           else expires (tm_store s) (get (hp_arr (ts_heap ts)) 1) in
  match ts_list ts with
  | t :: _ => if expires (tm_store s) t <? d then expires (tm_store s) t else d
  | [] => d
  end.

(** [now] is [NOW()], [reprogram_timer] the architecture's hook. *)
Definition timer_softirq_action (fuel : nat) (alloc_ok : bool) (slop now : Z)
    (reprogram_timer : Z → bool) (c : Z) (s : tstate) : outcome (list positive * tstate) :=
  let s1 := grow_heap c alloc_ok s in
  let! (ran, s2) := run_heap_timers fuel c now s1 in
  let! (ran', s3) := run_list_timers fuel c now s2 in
  let next := ts_list (per_cpu s3 c) in
  let! s4 := move_to_heap next (upd_cpu c (set_list []) s3) in
  let deadline := next_deadline c s4 in
  let d := if deadline =? STIME_MAX then 0 else to_s64 (u64 (deadline + slop)) in
  let s5 := mk_tstate (tm_store s4) (tm_cpus s4) (tm_softirq s4) (<[c := d]> (tm_deadline s4)) in
  Ok (ran ++ ran', if reprogram_timer d then s5 else cpu_raise_softirq c s5).
End softirq.

(** ** CPU hotplug *)

(** The first loop of [migrate_timers_from_cpu]; [notify] accumulates. *)
Fixpoint migrate_active (fuel : nat) (old_cpu new_cpu : Z) (notify : bool) (s : tstate)
    : outcome (bool * tstate) :=
  match fuel with
  | O => Bug
  | S fuel' =>
      let ts := per_cpu s old_cpu in
      let t := if hp_size (ts_heap ts) =? 0 then head (ts_list ts)
               else Some (get (hp_arr (ts_heap ts)) 1) in
      match t with
      | None => Ok (notify, s)
      | Some t =>
          let! (_, s1) := remove_entry t s in
          let! (rc, s2) := add_entry t (upd_timer t (set_cpu (u16 new_cpu)) s1) in
          migrate_active fuel' old_cpu new_cpu (notify || rc) s2
      end
  end.

Fixpoint migrate_inactive (fuel : nat) (old_cpu new_cpu : Z) (s : tstate) : outcome tstate :=
  match fuel with
  | O => Bug
  | S fuel' =>
      match ts_inactive (per_cpu s old_cpu) with
      | [] => Ok s
      | t :: _ =>
          let! s1 := inactive_del old_cpu t s in
          migrate_inactive fuel' old_cpu new_cpu
            (inactive_add new_cpu t (upd_timer t (set_cpu (u16 new_cpu)) s1))
      end
  end.

(** [new_cpu] is [cpumask_any(&cpu_online_map)]; the map of online CPUs is not
    part of the state, nor is the assertion that it has [new_cpu] but not
    [old_cpu]. *)
Definition migrate_timers_from_cpu (old_cpu new_cpu : Z) (s : tstate) : outcome tstate :=
  let ts := per_cpu s old_cpu in
  let! (notify, s1) :=
    migrate_active (S (Z.to_nat (hp_size (ts_heap ts)) + length (ts_list ts)))
      old_cpu new_cpu false s in
  let! s2 := migrate_inactive (S (length (ts_inactive (per_cpu s1 old_cpu)))) old_cpu new_cpu s1 in
  Ok (if (notify : bool) then cpu_raise_softirq new_cpu s2 else s2).

Inductive cpu_action := CPU_UP_PREPARE | CPU_UP_CANCELED | CPU_DEAD | CPU_OTHER.

Definition cpu_callback (action : cpu_action) (cpu any_online : Z) (s : tstate)
    : outcome tstate :=
  match action with
  | CPU_UP_PREPARE => Ok (upd_cpu cpu (λ ts, set_heap dummy_heap (set_inactive [] ts)) s)
  | CPU_UP_CANCELED | CPU_DEAD => migrate_timers_from_cpu cpu any_online s
  | CPU_OTHER => Ok s
  end.

(** ** Alignment of periodic timers *)

Definition align_timer (firsttick period : Z) : Z :=
  if period =? 0 then firsttick
  else to_s64 (u64 (firsttick + (period - 1) - (u64 (firsttick - 1) mod period))).
