(* ===== verification/TimerInv.v ===== *)
(** * The timer invariant and its preservation (xen/common/timer.c)

    Every known timer is in exactly the structure its status names, on the CPU
    it names; heaps are well formed and lists are sorted. The abstract value of
    the timer subsystem is the store with the heap offsets erased: for each
    timer its expiry, callback, CPU and status. *)

From stdpp Require Import sorting.
From S2P Require Import Prelude TimerHeap Timer.
Local Open Scope xen_scope.

Definition erase (st : store) : store := set_heap_offset 0 <$> st.

Definition has_status (st : store) (t : positive) (v c : Z) : Prop :=
  ∃ x, st !! t = Some x ∧ t_status x = v ∧ t_cpu x = c.

Definition by_expiry (st : store) (a b : positive) : Prop := expires st a ≤ expires st b.

(** The limits [grow_heap] goes through: the last one is a fixed point, [u16]
    truncating [2^20 - 1] to it. *)
Definition heap_limits : list Z := [0; 15; 255; 4095; 65535].

(** [pend] holds timers that still have status [in_list] but have been taken
    off every list (while the softirq moves them to the heap). *)
Record cpu_inv (pend : gset positive) (st : store) (c : Z) (ts : timers) : Prop := {
  ci_limit : hp_limit (ts_heap ts) ∈ heap_limits;
  ci_heap : heap_wf (ts_heap ts) st;
  ci_heap_in t : heap_has (ts_heap ts) t ↔ has_status st t TIMER_STATUS_in_heap c;
  ci_list_nodup : NoDup (ts_list ts);
  ci_list_sorted : StronglySorted (by_expiry st) (ts_list ts);
  ci_list_in t : t ∈ ts_list ts ↔ has_status st t TIMER_STATUS_in_list c ∧ t ∉ pend;
  ci_inactive_nodup : NoDup (ts_inactive ts);
  ci_inactive_in t : t ∈ ts_inactive ts ↔ has_status st t TIMER_STATUS_inactive c;
}.

Record timers_inv (pend : gset positive) (s : tstate) : Prop := {
  ti_cpu c ts : tm_cpus s !! c = Some ts → cpu_inv pend (tm_store s) c ts;
  ti_known t v c : has_status (tm_store s) t v c →
    0 ≤ v ≤ 4 ∧
    (v = TIMER_STATUS_killed ↔ c = TIMER_CPU_status_killed) ∧
    (v ≠ TIMER_STATUS_killed → is_Some (tm_cpus s !! c));
}.

(** No timer is in transit between two structures. *)
Definition settled (s : tstate) : Prop :=
  ∀ t c, ¬ has_status (tm_store s) t TIMER_STATUS_invalid c.

(** ** Frame lemmas *)

Lemma lookup_erase st t : erase st !! t = set_heap_offset 0 <$> st !! t.
Proof. apply lookup_fmap. Qed.

Lemma same_but_offsets_erase P st st' : same_but_offsets P st st' → erase st' = erase st.
Proof. intros H. apply map_eq. intros t. rewrite !lookup_erase. apply (H t). Qed.

Lemma erase_alter f t st :
  (∀ x, set_heap_offset 0 (f x) = f (set_heap_offset 0 x)) →
  erase (alter f t st) = alter f t (erase st).
Proof.
  intros Hf. apply map_eq. intros u. rewrite lookup_erase, !lookup_alter, !lookup_erase.
  case_decide; [|done]. destruct (st !! t); simpl; [by rewrite Hf|done].
Qed.

Lemma has_status_erase st t v c : has_status (erase st) t v c ↔ has_status st t v c.
Proof.
  unfold has_status. rewrite lookup_erase. split.
  - intros (x & Hx & ? & ?). apply fmap_Some in Hx as (y & ? & ->). eauto.
  - intros (x & -> & ? & ?). eexists. split; [done|]. done.
Qed.

Lemma has_status_eq st st' t v c :
  erase st' = erase st → has_status st' t v c ↔ has_status st t v c.
Proof. intros H. by rewrite <- (has_status_erase st'), H, has_status_erase. Qed.

Lemma expires_erase st t : expires (erase st) t = expires st t.
Proof. unfold expires. rewrite lookup_erase. by destruct (st !! t). Qed.

Lemma expires_eq st st' t : erase st' = erase st → expires st' t = expires st t.
Proof. intros H. by rewrite <- (expires_erase st'), H, expires_erase. Qed.

Lemma expires_alter st t u f :
  (∀ x, t_expires (f x) = t_expires x) → expires (alter f t st) u = expires st u.
Proof.
  intros Hf. unfold expires. rewrite lookup_alter. case_decide; [|done]. subst.
  destruct (st !! u); simpl; auto.
Qed.

Lemma has_status_alter st t u f v c :
  u ≠ t → has_status (alter f t st) u v c ↔ has_status st u v c.
Proof. intros. unfold has_status. by rewrite lookup_alter_ne by done. Qed.

Lemma heap_wf_frame h st st' :
  (∀ t, heap_has h t → st' !! t = st !! t) → heap_wf h st → heap_wf h st'.
Proof.
  intros Hf [Hs Hl [H1 H2 H3] Ho]. split; auto.
  - split; auto.
    + intros i Hi. destruct (H1 i Hi) as (t & Ht & ?). exists t. split; [done|].
      by rewrite Hf by (by exists i).
    + intros i t Ht Hi. unfold heap_offset. rewrite Hf by (by exists i). by apply H3.
  - intros i Hi. assert (1 ≤ i / 2 < i) by half_lia.
    destruct (H1 i ltac:(lia)) as (t & Ht & _), (H1 (i / 2) ltac:(lia)) as (u & Hu & _).
    specialize (Ho i Hi). rewrite (get_lookup _ _ _ Ht), (get_lookup _ _ _ Hu) in *.
    unfold expires in *.
    rewrite (Hf t) by (exists i; split; [lia|done]).
    rewrite (Hf u) by (exists (i / 2); split; [lia|done]). done.
Qed.

(** Timers that CPU [c]'s structures refer to. *)
Definition relevant (st : store) (c : Z) (t : positive) : Prop :=
  ∃ x, st !! t = Some x ∧ t_cpu x = c ∧
       (t_status x = TIMER_STATUS_inactive ∨ t_status x = TIMER_STATUS_in_heap ∨
        t_status x = TIMER_STATUS_in_list).

Lemma has_status_relevant st t v c :
  has_status st t v c → v = TIMER_STATUS_inactive ∨ v = TIMER_STATUS_in_heap ∨ v = TIMER_STATUS_in_list →
  relevant st c t.
Proof. intros (x & ? & <- & ?) ?. exists x. auto. Qed.

Lemma StronglySorted_ext {A} (R R' : A → A → Prop) l :
  (∀ a b, a ∈ l → b ∈ l → R a b → R' a b) → StronglySorted R l → StronglySorted R' l.
Proof.
  intros H Hs. induction Hs as [|a l Hs IH Hf]; constructor.
  - apply IH. intros. apply H; auto; by right.
  - rewrite Forall_forall in Hf |- *. intros b Hb. apply H; auto; [by left|by right].
Qed.

Lemma cpu_inv_frame pend st st' c ts :
  (∀ t, relevant st c t ∨ relevant st' c t → st' !! t = st !! t) →
  cpu_inv pend st c ts → cpu_inv pend st' c ts.
Proof.
  intros Hf [H0 H1 H2 H3 H4 H5 H6 H7].
  assert (Hs : ∀ t v, v = TIMER_STATUS_inactive ∨ v = TIMER_STATUS_in_heap ∨ v = TIMER_STATUS_in_list →
    has_status st' t v c ↔ has_status st t v c).
  { intros t v Hv. split; intros Hst; pose proof Hst as (x & ? & ? & ?); exists x; split; auto.
    - rewrite <- Hf; [done|]. right. by eapply has_status_relevant.
    - rewrite Hf; [done|]. left. by eapply has_status_relevant. }
  split; auto.
  - eapply heap_wf_frame, H1. intros t Ht. apply Hf. left. apply H2 in Ht.
    eapply has_status_relevant; eauto.
  - intros t. rewrite Hs by auto. auto.
  - eapply StronglySorted_ext, H4. unfold by_expiry, expires. intros a b Ha Hb.
    apply H5 in Ha as [Ha _], Hb as [Hb _].
    rewrite !Hf; [done|left; eapply has_status_relevant; eauto..].
  - intros t. rewrite Hs by auto. auto.
  - intros t. rewrite Hs by auto. auto.
Qed.

Lemma has_status_fun st t v c v' c' :
  has_status st t v c → has_status st t v' c' → v = v' ∧ c = c'.
Proof. intros (x & ? & ? & ?) (y & ? & ? & ?). simplify_eq. auto. Qed.

Lemma has_status_at st t x : st !! t = Some x → has_status st t (t_status x) (t_cpu x).
Proof. exists x. auto. Qed.

(** A change of one CPU's structures and of timers of that CPU. *)
Lemma inv_update pend s c st' ts' sirq dl :
  timers_inv pend s → cpu_inv pend st' c ts' →
  (∀ c' t, c' ≠ c → relevant (tm_store s) c' t ∨ relevant st' c' t → st' !! t = tm_store s !! t) →
  (∀ t v c', has_status st' t v c' → 0 ≤ v ≤ 4 ∧
    (v = TIMER_STATUS_killed ↔ c' = TIMER_CPU_status_killed) ∧
    (v ≠ TIMER_STATUS_killed → c' = c ∨ is_Some (tm_cpus s !! c'))) →
  timers_inv pend (mk_tstate st' (<[c := ts']> (tm_cpus s)) sirq dl).
Proof.
  intros [Hc Hk] Hcc Hframe Hknown. split; simpl.
  - intros c' ts. rewrite lookup_insert_Some. intros [[<- <-]|[Hne Hts]]; [done|].
    eapply cpu_inv_frame, Hc, Hts. intros t. apply Hframe. done.
  - intros t v c' Hst. destruct (Hknown _ _ _ Hst) as (? & ? & Hdom). split; [done|]. split; [done|].
    intros Hv. rewrite lookup_insert. case_decide; [eauto|]. destruct (Hdom Hv); [congruence|done].
Qed.

(** [st'] is [st] with the status of [t] changed to [v], up to offsets of
    timers of the heap of CPU [c], [t]'s CPU. *)
Record moved (c : Z) (t : positive) (v : Z) (st st' : store) : Prop := {
  mv_erase : erase st' = alter (set_status v) t (erase st);
  mv_same u : u ≠ t → ¬ has_status st u TIMER_STATUS_in_heap c → st' !! u = st !! u;
}.

Lemma moved_has_status c t v v0 st st' u w c' :
  moved c t v st st' → has_status st t v0 c →
  has_status st' u w c' ↔ if decide (u = t) then w = v ∧ c' = c else has_status st u w c'.
Proof.
  intros [He _] Ht. rewrite <- has_status_erase, He. case_decide.
  - subst. unfold has_status at 1. rewrite lookup_alter_eq, lookup_erase.
    destruct Ht as (x & -> & ? & ?). simpl. split.
    + intros (y & [= <-] & ? & ?). simpl in *. subst. auto.
    + intros [-> ->]. eexists. split; [done|]. done.
  - rewrite has_status_alter by done. apply has_status_erase.
Qed.

Lemma moved_frame c t v v0 st st' c' u :
  moved c t v st st' → has_status st t v0 c → c' ≠ c →
  relevant st c' u ∨ relevant st' c' u → st' !! u = st !! u.
Proof.
  intros Hm Ht Hne Hr.
  assert (Hu : ∃ w, u ≠ t ∧ has_status st u w c').
  { destruct Hr as [(x & Hx & <- & _)|(x & Hx & <- & _)].
    - exists (t_status x). pose proof (has_status_at _ _ _ Hx) as Hs. split; [|done].
      intros ->. by destruct (has_status_fun _ _ _ _ _ _ Ht Hs).
    - pose proof (has_status_at _ _ _ Hx) as Hs. rewrite (moved_has_status _ _ _ _ _ _ _ _ _ Hm Ht) in Hs.
      case_decide; [by destruct Hs|]. eauto. }
  destruct Hu as (w & ? & Hu). apply (mv_same _ _ _ _ _ Hm); [done|].
  intros Hh. by destruct (has_status_fun _ _ _ _ _ _ Hu Hh).
Qed.

(** Moving [t] of CPU [c] from status [v0] to [v] preserves the invariant when
    [c]'s structures follow. *)
Lemma inv_move pend s c t v0 v st' ts' sirq dl :
  timers_inv pend s → has_status (tm_store s) t v0 c →
  v0 ≠ TIMER_STATUS_killed → v ≠ TIMER_STATUS_killed → 0 ≤ v ≤ 4 →
  moved c t v (tm_store s) st' → cpu_inv pend st' c ts' →
  timers_inv pend (mk_tstate st' (<[c := ts']> (tm_cpus s)) sirq dl).
Proof.
  intros Hinv Ht Hv0 Hv Hr Hm Hc. eapply inv_update; [done|done| |].
  - intros c' u Hne. by eapply moved_frame.
  - intros u w c' Hu. rewrite (moved_has_status _ _ _ _ _ _ _ _ _ Hm Ht) in Hu.
    destruct (ti_known _ _ Hinv _ _ _ Ht) as (? & Hk & ?). case_decide.
    + destruct Hu as [-> ->]. split; [done|]. split; [tauto|auto].
    + destruct (ti_known _ _ Hinv _ _ _ Hu) as (? & ? & ?). auto.
Qed.

Lemma moved_alter c t v st st1 (P : positive → Prop) :
  same_but_offsets P st st1 → (∀ u, P u → u = t ∨ has_status st u TIMER_STATUS_in_heap c) →
  moved c t v st (alter (set_status v) t st1).
Proof.
  intros Hs HP. split.
  - rewrite erase_alter by done. by rewrite (same_but_offsets_erase _ _ _ Hs).
  - intros u Hu Hn. rewrite lookup_alter_ne by done. apply Hs. intros HPu.
    destruct (HP u HPu); [done|]. by apply Hn.
Qed.

Lemma moved_expires c t v st st' u : moved c t v st st' → expires st' u = expires st u.
Proof.
  intros [He _]. rewrite <- expires_erase, He, expires_alter by done. apply expires_erase.
Qed.

(** ** The lists *)

Lemma filter_ne_id (l : list positive) t : t ∉ l → filter (λ u, u ≠ t) l = l.
Proof.
  induction l as [|q l IH]; [done|]. rewrite not_elem_of_cons. intros [? ?].
  rewrite filter_cons_True by congruence. f_equal. auto.
Qed.

Lemma elem_of_filter_ne (l : list positive) t u : u ∈ filter (λ u, u ≠ t) l ↔ u ≠ t ∧ u ∈ l.
Proof. by rewrite list_elem_of_filter. Qed.

Lemma StronglySorted_filter {A} (R : A → A → Prop) (P : A → Prop) `{∀ x, Decision (P x)} l :
  StronglySorted R l → StronglySorted R (filter P l).
Proof.
  induction 1 as [|a l Hs IH Hf]; [constructor|]. rewrite filter_cons. case_decide; [|done].
  constructor; [done|]. rewrite Forall_forall in Hf |- *. intros b [_ Hb]%list_elem_of_filter. auto.
Qed.

Lemma remove_from_list_spec l t b :
  NoDup l → t ∈ l →
  remove_from_list l t b = Ok (b && bool_decide (head l = Some t), filter (λ u, u ≠ t) l).
Proof.
  revert b. induction l as [|a l IH]; intros b Hnd Hin; [by apply elem_of_nil in Hin|].
  apply NoDup_cons in Hnd as [Ha Hnd]. cbn [remove_from_list head]. destruct (decide (a = t)) as [->|Hat].
  - rewrite !bool_decide_eq_true_2, andb_true_r by done.
    rewrite filter_cons_False by naive_solver. by rewrite filter_ne_id.
  - apply elem_of_cons in Hin as [->|Hin]; [done|].
    rewrite !bool_decide_eq_false_2, IH by congruence || done. simpl.
    by rewrite andb_false_r, filter_cons_True by congruence.
Qed.

Lemma add_to_list_spec st l t b :
  let '(b', l') := add_to_list st l t b in
  (∀ u, u ∈ l' ↔ u = t ∨ u ∈ l) ∧ (t ∉ l → NoDup l → NoDup l') ∧
  (StronglySorted (by_expiry st) l → StronglySorted (by_expiry st) l') ∧
  (b' = true ↔ b = true ∧ head l' = Some t ∧ (∀ u, head l = Some u → expires st t < expires st u)).
Proof.
  revert b. induction l as [|a l IH]; intros b; simpl.
  - split; [intros u; rewrite list_elem_of_singleton, elem_of_nil; tauto|].
    split; [intros; apply NoDup_singleton|]. split; [intros; repeat constructor|].
    naive_solver.
  - destruct (Z.leb_spec (expires st a) (expires st t)) as [Hle|Hlt].
    + specialize (IH false). destruct (add_to_list st l t false) as [b' l'].
      destruct IH as (Hin & Hnd & Hs & Hb). split; [|split; [|split]].
      * intros u. rewrite !elem_of_cons, Hin. tauto.
      * rewrite not_elem_of_cons, !NoDup_cons. intros [? ?] [? ?]. rewrite Hin. naive_solver.
      * intros Hsa. apply StronglySorted_inv in Hsa as [Hsl Hfl]. constructor; [auto|].
        rewrite Forall_forall in Hfl |- *. intros u [->|?]%Hin; [done|auto].
      * split; [naive_solver|]. intros (_ & _ & Hh). specialize (Hh a eq_refl). lia.
    + split; [|split; [|split]].
      * intros u. by rewrite !elem_of_cons.
      * intros. by constructor.
      * intros Hsa. constructor; [done|]. constructor; [unfold by_expiry; lia|].
        apply StronglySorted_inv in Hsa as [_ Hfl]. eapply Forall_impl; [exact Hfl|].
        unfold by_expiry. simpl. intros; lia.
      * naive_solver.
Qed.

(** ** Primitive operations *)

(** [s'] has the same CPUs, softirqs and running callbacks as [s]. *)
Record same_aux (s s' : tstate) : Prop := {
  sa_softirq : tm_softirq s' = tm_softirq s;
  sa_deadline : tm_deadline s' = tm_deadline s;
  sa_running c : ts_running (per_cpu s' c) = ts_running (per_cpu s c);
  sa_cpus c : is_Some (tm_cpus s !! c) ↔ is_Some (tm_cpus s' !! c);
}.

Lemma same_aux_trans s1 s2 s3 : same_aux s1 s2 → same_aux s2 s3 → same_aux s1 s3.
Proof.
  intros [A1 A2 A3 A4] [B1 B2 B3 B4].
  split; [congruence|congruence| |]; intros c; [by rewrite B3|by rewrite A4].
Qed.

Lemma same_aux_upd s c st' ts ts' :
  tm_cpus s !! c = Some ts → ts_running ts' = ts_running ts →
  same_aux s (mk_tstate st' (<[c := ts']> (tm_cpus s)) (tm_softirq s) (tm_deadline s)).
Proof.
  intros Hc Hr. split; simpl; auto.
  - intros c'. unfold per_cpu; simpl. rewrite lookup_insert. case_decide; [|done]. subst. by rewrite Hc.
  - intros c'. rewrite lookup_insert. case_decide; [|done]. subst. rewrite Hc. split; eauto.
Qed.

Lemma per_cpu_at s c ts : tm_cpus s !! c = Some ts → per_cpu s c = ts.
Proof. unfold per_cpu. by intros ->. Qed.

(** CPU [c]'s structures after [t] has left the one of its old status [v0] and
    entered the one of its new status [v]. *)
Lemma cpu_inv_moved pend st st' c t v0 v ts ts' :
  cpu_inv pend st c ts → has_status st t v0 c → moved c t v st st' → t ∉ pend →
  hp_limit (ts_heap ts') = hp_limit (ts_heap ts) → heap_wf (ts_heap ts') st' →
  (∀ u, heap_has (ts_heap ts') u ↔ (u ≠ t ∧ heap_has (ts_heap ts) u) ∨ (u = t ∧ v = TIMER_STATUS_in_heap)) →
  NoDup (ts_list ts') → StronglySorted (by_expiry st) (ts_list ts') →
  (∀ u, u ∈ ts_list ts' ↔ (u ≠ t ∧ u ∈ ts_list ts) ∨ (u = t ∧ v = TIMER_STATUS_in_list)) →
  NoDup (ts_inactive ts') →
  (∀ u, u ∈ ts_inactive ts' ↔ (u ≠ t ∧ u ∈ ts_inactive ts) ∨ (u = t ∧ v = TIMER_STATUS_inactive)) →
  cpu_inv pend st' c ts'.
Proof.
  intros [H0 H1 H2 H3 H4 H5 H6 H7] Ht Hm Hp Hlim Hw Hh Hln Hls Hl Hin Hi.
  assert (Hst : ∀ u w, has_status st' u w c ↔ (u ≠ t ∧ has_status st u w c) ∨ (u = t ∧ v = w)).
  { intros u w. rewrite (moved_has_status _ _ _ _ _ _ _ _ _ Hm Ht). case_decide; naive_solver. }
  split; auto.
  - by rewrite Hlim.
  - intros u. rewrite Hh, H2, Hst. tauto.
  - eapply StronglySorted_ext, Hls. unfold by_expiry. intros.
    by rewrite !(moved_expires _ _ _ _ _ _ Hm).
  - intros u. rewrite Hl, H5, Hst. destruct (decide (u = t)) as [->|]; tauto.
  - intros u. rewrite Hi, H7, Hst. tauto.
Qed.

(** [t] is in no structure but the one of its status. *)
Lemma cpu_inv_elsewhere pend st c ts t v :
  cpu_inv pend st c ts → has_status st t v c →
  (v ≠ TIMER_STATUS_in_heap → ¬ heap_has (ts_heap ts) t) ∧
  (v ≠ TIMER_STATUS_in_list → t ∉ ts_list ts) ∧
  (v ≠ TIMER_STATUS_inactive → t ∉ ts_inactive ts).
Proof.
  intros [H0 H1 H2 H3 H4 H5 H6 H7] Ht.
  repeat split; intros Hv Hin; [apply H2 in Hin|apply H5 in Hin as [Hin _]|apply H7 in Hin];
    by destruct (has_status_fun _ _ _ _ _ _ Ht Hin).
Qed.

(** A membership that does not change. *)
Lemma stays (P : positive → Prop) (t u : positive) (Q : Prop) :
  ¬ P t → ¬ Q → P u ↔ (u ≠ t ∧ P u) ∨ (u = t ∧ Q).
Proof. destruct (decide (u = t)) as [->|]; tauto. Qed.

(** A membership that ends. *)
Lemma leaves (P P' : positive → Prop) (t u : positive) (Q : Prop) :
  ¬ Q → (P' u ↔ u ≠ t ∧ P u) → P' u ↔ (u ≠ t ∧ P u) ∨ (u = t ∧ Q).
Proof. tauto. Qed.

(** A membership that begins. *)
Lemma enters (P P' : positive → Prop) (t u : positive) (Q : Prop) :
  Q → ¬ P t → (P' u ↔ u = t ∨ P u) → P' u ↔ (u ≠ t ∧ P u) ∨ (u = t ∧ Q).
Proof. destruct (decide (u = t)) as [->|]; tauto. Qed.

Lemma remove_entry_spec pend s t c v0 :
  timers_inv pend s → has_status (tm_store s) t v0 c → t ∉ pend →
  v0 = TIMER_STATUS_in_heap ∨ v0 = TIMER_STATUS_in_list →
  ∃ rc s', remove_entry t s = Ok (rc, s') ∧ timers_inv pend s' ∧ same_aux s s' ∧
    moved c t TIMER_STATUS_invalid (tm_store s) (tm_store s').
Proof.
  intros Hinv Ht Hpend Hv0. pose proof Ht as (x & Hx & Hxs & Hxc).
  destruct (ti_known _ _ Hinv _ _ _ Ht) as (Hr & Hk & Hdom).
  assert (v0 ≠ TIMER_STATUS_killed) as Hnk by (destruct Hv0 as [->| ->]; done).
  destruct (Hdom Hnk) as [ts Hts].
  pose proof (ti_cpu _ _ Hinv _ _ Hts) as Hc. pose proof Hc as [H0 H1 H2 H3 H4 H5 H6 H7].
  destruct (cpu_inv_elsewhere _ _ _ _ _ _ Hc Ht) as (E1 & E2 & E3).
  unfold remove_entry. rewrite Hx, Hxs, Hxc, (per_cpu_at _ _ _ Hts).
  destruct Hv0 as [->| ->]; simpl.
  - assert (Hh : heap_has (ts_heap ts) t) by by apply H2.
    pose proof (remove_from_heap_spec _ _ _ H1 Hh) as Hrem.
    destruct (remove_from_heap _ _ _) as [[rc h'] st1].
    destruct Hrem as (Hw' & _ & Hlim & Hin & Hst & _).
    set (st' := alter (set_status TIMER_STATUS_invalid) t st1).
    assert (Hm : moved c t TIMER_STATUS_invalid (tm_store s) st').
    { eapply moved_alter; [exact Hst|]. intros u [? Hu]. right. by apply H2. }
    unfold upd_cpu, put_store, upd_timer; simpl. rewrite (per_cpu_at _ _ _ Hts). fold st'.
    eexists _, _. split; [done|]. split; [|split; [by eapply same_aux_upd|done]].
    eapply (inv_move _ _ _ _ _ TIMER_STATUS_invalid); [done|exact Ht|done|done|done|done|].
    eapply cpu_inv_moved; eauto; simpl.
    + eapply heap_wf_frame, Hw'. intros u [Hu _]%Hin. by apply lookup_alter_ne.
    + intros u. by apply (leaves (heap_has (ts_heap ts)) (heap_has h')).
    + intros u. apply (stays (λ u, u ∈ ts_list ts)); [by apply E2|done].
    + intros u. apply (stays (λ u, u ∈ ts_inactive ts)); [by apply E3|done].
  - assert (Hl : t ∈ ts_list ts) by by apply H5.
    rewrite remove_from_list_spec by done. simpl.
    set (st' := alter (set_status TIMER_STATUS_invalid) t (tm_store s)).
    assert (Hm : moved c t TIMER_STATUS_invalid (tm_store s) st').
    { eapply moved_alter; [apply (same_but_offsets_refl (λ _, False))|done]. }
    unfold upd_cpu, upd_timer; simpl. rewrite (per_cpu_at _ _ _ Hts). fold st'.
    eexists _, _. split; [done|]. split; [|split; [by eapply same_aux_upd|done]].
    eapply (inv_move _ _ _ _ _ TIMER_STATUS_invalid); [done|exact Ht|done|done|done|done|].
    eapply cpu_inv_moved; eauto; simpl.
    + eapply heap_wf_frame, H1. intros u Hu. apply lookup_alter_ne. intros <-. by apply E1.
    + intros u. apply (stays (heap_has (ts_heap ts))); [by apply E1|done].
    + by apply NoDup_filter.
    + by apply StronglySorted_filter.
    + intros u. apply (leaves (λ u, u ∈ ts_list ts) (λ u, u ∈ filter (λ u, u ≠ t) (ts_list ts)));
        [done|apply elem_of_filter_ne].
    + intros u. apply (stays (λ u, u ∈ ts_inactive ts)); [by apply E3|done].
Qed.

(** Timers that wait to be run. *)
Definition active (st : store) (t : positive) (c : Z) : Prop :=
  has_status st t TIMER_STATUS_in_heap c ∨ has_status st t TIMER_STATUS_in_list c.

Lemma add_to_list_first st l t b :
  (add_to_list st l t b).1 = b && match l with a :: _ => expires st t <? expires st a | [] => true end.
Proof.
  destruct l as [|a l]; simpl; [by rewrite andb_true_r|].
  destruct (Z.leb_spec (expires st a) (expires st t)).
  - assert ((expires st t <? expires st a) = false) as -> by (apply Z.ltb_ge; lia).
    rewrite andb_false_r. enough (∀ l, (add_to_list st l t false).1 = false) as H1.
    { specialize (H1 l). by destruct (add_to_list st l t false). }
    clear. induction l as [|a l IH]; simpl; [done|]. case_match; [|done].
    by destruct (add_to_list st l t false).
  - assert ((expires st t <? expires st a) = true) as -> by (apply Z.ltb_lt; lia).
    by rewrite andb_true_r.
Qed.

(** The store of [add_entry] before the insertion: [t] is marked as in the
    heap at offset 0, and no timer of the heap has changed. *)
Lemma add_entry_mark pend st c ts t :
  cpu_inv pend st c ts → has_status st t TIMER_STATUS_invalid c →
  let st1 := alter (λ x, set_status TIMER_STATUS_in_heap (set_heap_offset 0 x)) t st in
  heap_wf (ts_heap ts) st1 ∧ ¬ heap_has (ts_heap ts) t ∧ is_Some (st1 !! t) ∧
  heap_offset st1 t = 0 ∧ erase st1 = alter (set_status TIMER_STATUS_in_heap) t (erase st) ∧
  (∀ u, u ≠ t → st1 !! u = st !! u).
Proof.
  intros Hc Ht st1. destruct (cpu_inv_elsewhere _ _ _ _ _ _ Hc Ht) as (E1 & _ & _).
  assert (¬ heap_has (ts_heap ts) t) as Hn by by apply E1.
  destruct Ht as (x & Hx & _).
  assert (Hne : ∀ u, u ≠ t → st1 !! u = st !! u) by (intros; by apply lookup_alter_ne).
  repeat split_and; auto.
  - eapply heap_wf_frame, ci_heap, Hc. intros u Hu. apply Hne. by intros ->.
  - unfold st1. rewrite lookup_alter_eq, Hx. by eexists.
  - unfold heap_offset, st1. by rewrite lookup_alter_eq, Hx.
  - apply map_eq. intros u. unfold st1. rewrite lookup_erase, !lookup_alter, !lookup_erase.
    case_decide; [|done]. subst. by rewrite Hx.
Qed.

(** [add_entry] when the heap has room. *)
Lemma add_entry_heap pend s t c ts x :
  timers_inv pend s → tm_cpus s !! c = Some ts → tm_store s !! t = Some x →
  t_status x = TIMER_STATUS_invalid → t_cpu x = c → t ∉ pend →
  hp_size (ts_heap ts) ≠ hp_limit (ts_heap ts) →
  ∃ rc s', add_entry t s = Ok (rc, s') ∧ timers_inv pend s' ∧ same_aux s s' ∧
    moved c t TIMER_STATUS_in_heap (tm_store s) (tm_store s') ∧
    (rc = false → ∃ u, u ≠ t ∧ active (tm_store s) u c ∧
                       expires (tm_store s) u ≤ expires (tm_store s) t).
Proof.
  intros Hinv Hts Hx Hxs Hxc Hpend Hroom.
  assert (has_status (tm_store s) t TIMER_STATUS_invalid c) as Ht by by exists x.
  pose proof (ti_cpu _ _ Hinv _ _ Hts) as Hc. pose proof Hc as [H0 H1 H2 H3 H4 H5 H6 H7].
  destruct (cpu_inv_elsewhere _ _ _ _ _ _ Hc Ht) as (_ & E2 & E3).
  destruct (add_entry_mark _ _ _ _ _ Hc Ht) as (Hw1 & Hn & Hs1 & _ & He1 & Hne1).
  unfold add_entry. rewrite Hx, Hxs, Hxc. cbn [BUG_ON Z.eqb negb].
  set (st1 := alter _ t (tm_store s)) in *. unfold upd_timer at 1 2. cbn [tm_store].
  change (per_cpu (mk_tstate _ _ _ _) c) with (per_cpu s c). rewrite (per_cpu_at _ _ _ Hts).
  pose proof (add_to_heap_spec _ _ _ Hw1 Hn Hs1) as Hadd. fold st1.
  destruct (add_to_heap _ _ _) as [[rc h'] st']. apply Z.eqb_neq in Hroom. rewrite Hroom in Hadd.
  destruct Hadd as (Hw' & _ & Hlim & Hin & Hst & Hrc).
  destruct (heap_has_offset _ _ t Hw' ltac:(apply Hin; by left)) as (Ho & _).
  destruct (Z.eqb_spec (heap_offset st' t) 0) as [|_]; [lia|]. cbn [negb].
  unfold upd_cpu, put_store, upd_timer, per_cpu; simpl. rewrite Hts. simpl.
  assert (Hm : moved c t TIMER_STATUS_in_heap (tm_store s) st').
  { split; [by rewrite (same_but_offsets_erase _ _ _ Hst)|]. intros u Hu Hnh.
    rewrite <- Hne1 by done. apply Hst. intros [?|?]; [done|]. by apply Hnh, H2. }
  eexists _, _. split; [done|]. split; [|split; [by eapply same_aux_upd|split; [done|]]].
  - eapply (inv_move _ _ _ _ _ TIMER_STATUS_in_heap); [done|exact Ht|done|done|done|done|].
    eapply cpu_inv_moved; eauto; simpl.
    + intros u. by apply (enters (heap_has (ts_heap ts)) (heap_has h')).
    + intros u. apply (stays (λ u, u ∈ ts_list ts)); [by apply E2|done].
    + intros u. apply (stays (λ u, u ∈ ts_inactive ts)); [by apply E3|done].
  - intros ->. assert (Hne : hp_size h' ≠ 0).
    { destruct Hw' as [? ? [] ?]. destruct (Hin t) as [_ (i & ? & _)]; [by left|lia]. }
    pose proof (heap_top_has _ _ Hw' Hne) as Htop. apply Hin in Htop as [Htop|Htop].
    + assert (false = true) by (apply Hrc; rewrite <- Htop; eapply placed_get; [apply Hw'|];
        destruct Hw'; lia). done.
    + exists (get (hp_arr h') 1). split; [by intros Heq; rewrite Heq in Htop|].
      split; [by left; apply H2|]. rewrite <- !(moved_expires _ _ _ _ _ _ Hm).
      apply heap_top_min; [done|]. apply Hin. by left.
Qed.

(** [add_entry] when the heap is full. *)
Lemma add_entry_list pend s t c ts x :
  timers_inv pend s → tm_cpus s !! c = Some ts → tm_store s !! t = Some x →
  t_status x = TIMER_STATUS_invalid → t_cpu x = c → t ∉ pend →
  hp_size (ts_heap ts) = hp_limit (ts_heap ts) →
  ∃ rc s', add_entry t s = Ok (rc, s') ∧ timers_inv pend s' ∧ same_aux s s' ∧
    moved c t TIMER_STATUS_in_list (tm_store s) (tm_store s') ∧
    (rc = false → ∃ u, u ≠ t ∧ active (tm_store s) u c ∧
                       expires (tm_store s) u ≤ expires (tm_store s) t).
Proof.
  intros Hinv Hts Hx Hxs Hxc Hpend Hfull.
  assert (has_status (tm_store s) t TIMER_STATUS_invalid c) as Ht by by exists x.
  pose proof (ti_cpu _ _ Hinv _ _ Hts) as Hc. pose proof Hc as [H0 H1 H2 H3 H4 H5 H6 H7].
  destruct (cpu_inv_elsewhere _ _ _ _ _ _ Hc Ht) as (_ & E2 & E3).
  destruct (add_entry_mark _ _ _ _ _ Hc Ht) as (Hw1 & Hn & Hs1 & Ho1 & He1 & Hne1).
  unfold add_entry. rewrite Hx, Hxs, Hxc. cbn [BUG_ON Z.eqb negb].
  set (st1 := alter _ t (tm_store s)) in *. unfold upd_timer at 1 2. cbn [tm_store].
  change (per_cpu (mk_tstate _ _ _ _) c) with (per_cpu s c). rewrite (per_cpu_at _ _ _ Hts).
  pose proof (add_to_heap_spec _ _ _ Hw1 Hn Hs1) as Hadd. fold st1.
  destruct (add_to_heap _ _ _) as [[rc h'] st']. apply Z.eqb_eq in Hfull. rewrite Hfull in Hadd.
  destruct Hadd as (-> & -> & ->). rewrite Ho1. cbn [negb Z.eqb].
  unfold upd_cpu, put_store, upd_timer, per_cpu; simpl. rewrite Hts, lookup_insert_eq. simpl.
  set (st' := alter (set_status TIMER_STATUS_in_list) t st1).
  assert (Hm : moved c t TIMER_STATUS_in_list (tm_store s) st').
  { split; [|intros; unfold st'; rewrite lookup_alter_ne by done; auto]. unfold st'.
    rewrite erase_alter, He1 by done. apply map_eq. intros u.
    rewrite !lookup_alter. repeat case_decide; [|done..]. subst. by destruct (erase _ !! u). }
  pose proof (add_to_list_spec st' (ts_list ts) t true) as Hadd.
  pose proof (add_to_list_first st' (ts_list ts) t true) as Hfirst.
  destruct (add_to_list st' (ts_list ts) t true) as [rc l']. destruct Hadd as (Hin & Hnd & Hso & _).
  rewrite insert_insert_eq. eexists _, _. split; [done|].
  split; [|split; [by eapply same_aux_upd|split; [done|]]].
  - eapply (inv_move _ _ _ _ _ TIMER_STATUS_in_list); [done|exact Ht|done|done|done|done|].
    assert (Hext : ∀ l, StronglySorted (by_expiry st') l ↔ StronglySorted (by_expiry (tm_store s)) l).
    { intros l. split; apply StronglySorted_ext; unfold by_expiry; intros;
        [by rewrite <- !(moved_expires _ _ _ _ _ _ Hm)|by rewrite !(moved_expires _ _ _ _ _ _ Hm)]. }
    eapply cpu_inv_moved; eauto; simpl.
    + eapply heap_wf_frame, Hw1. intros u Hu. apply lookup_alter_ne. intros <-. by apply Hn.
    + intros u. by apply (stays (heap_has (ts_heap ts))).
    + apply Hext, Hso, Hext. done.
    + intros u. apply (enters (λ u, u ∈ ts_list ts) (λ u, u ∈ l')); [done|by apply E2|done].
    + intros u. apply (stays (λ u, u ∈ ts_inactive ts)); [by apply E3|done].
  - simpl in Hfirst. intros ->. destruct (ts_list ts) as [|a l] eqn:El; [done|]. symmetry in Hfirst. b2p.
    rewrite !(moved_expires _ _ _ _ _ _ Hm) in Hfirst. exists a. split; [|split; [right|done]].
    + intros ->. apply E2; [done|by left].
    + apply H5. by left.
Qed.

(** [add_entry] puts an unplaced timer into the heap or the list; if it reports
    no new earliest timer, one that expires no later was already active. *)
Lemma add_entry_spec pend s t c :
  timers_inv pend s → has_status (tm_store s) t TIMER_STATUS_invalid c → t ∉ pend →
  ∃ rc s' v, add_entry t s = Ok (rc, s') ∧ timers_inv pend s' ∧ same_aux s s' ∧
    (v = TIMER_STATUS_in_heap ∨ v = TIMER_STATUS_in_list) ∧
    moved c t v (tm_store s) (tm_store s') ∧
    (rc = false → ∃ u, u ≠ t ∧ active (tm_store s) u c ∧
                       expires (tm_store s) u ≤ expires (tm_store s) t).
Proof.
  intros Hinv Ht Hp. pose proof Ht as (x & Hx & Hxs & Hxc).
  destruct (ti_known _ _ Hinv _ _ _ Ht) as (_ & _ & Hd). destruct Hd as [ts Hts]; [done|].
  destruct (decide (hp_size (ts_heap ts) = hp_limit (ts_heap ts))).
  - destruct (add_entry_list pend s t c ts x) as (rc & s' & ? & ? & ? & ? & ?); auto.
    exists rc, s', TIMER_STATUS_in_list. repeat split_and; auto.
  - destruct (add_entry_heap pend s t c ts x) as (rc & s' & ? & ? & ? & ? & ?); auto.
    exists rc, s', TIMER_STATUS_in_heap. repeat split_and; auto.
Qed.
