(* ===== verification/TimerOps.v ===== *)
(** * The timer operations refine an abstract timer table (xen/common/timer.c)

    The abstract state of the subsystem maps each timer to its expiry, callback,
    CPU and whether it is inactive, active or killed; which heap or list holds
    it, and where, is hidden. Every public operation keeps [timers_inv], never
    hits a [BUG_ON], acts on the abstract table as specified, and never loses a
    wake-up: an active timer's CPU has its softirq pending or its hardware
    deadline programmed in time. *)

From S2P Require Import Prelude TimerHeap Timer TimerInv.
Local Open Scope xen_scope.

(** ** The abstract timer table *)

Inductive astate := Invalid | Inactive | Killed | Active.

#[export] Instance astate_eq_dec : EqDecision astate.
Proof. solve_decision. Defined.

Record atimer := mk_atimer {
  a_expires : Z;
  a_function : Z;
  a_data : Z;
  a_cpu : Z;
  a_state : astate;
}.

Abbreviation atable := (gmap positive atimer).

Definition abs_status (v : Z) : astate :=
  if v =? TIMER_STATUS_inactive then Inactive
  else if v =? TIMER_STATUS_killed then Killed
  else if v =? TIMER_STATUS_invalid then Invalid else Active.

Definition abs_timer (x : timer) : atimer :=
  mk_atimer (t_expires x) (t_function x) (t_data x) (t_cpu x) (abs_status (t_status x)).

Definition abs (s : tstate) : atable := abs_timer <$> tm_store s.

Definition a_set_state (v : astate) (a : atimer) : atimer :=
  mk_atimer (a_expires a) (a_function a) (a_data a) (a_cpu a) v.
Definition a_set_cpu (c : Z) (a : atimer) : atimer :=
  mk_atimer (a_expires a) (a_function a) (a_data a) c (a_state a).
Definition a_set_expires (e : Z) (a : atimer) : atimer :=
  mk_atimer e (a_function a) (a_data a) (a_cpu a) (a_state a).

(** What each operation promises. *)
Definition spec_init (t : positive) (function data cpu : Z) (m : atable) : atable :=
  <[t := mk_atimer 0 function data cpu Inactive]> m.
Definition spec_set (t : positive) (exp : Z) (m : atable) : atable :=
  alter (λ a, match a_state a with
              | Killed => a
              | _ => a_set_state Active (a_set_expires exp a)
              end) t m.
Definition spec_stop (t : positive) (m : atable) : atable :=
  alter (λ a, match a_state a with Active => a_set_state Inactive a | _ => a end) t m.
Definition spec_migrate (t : positive) (cpu : Z) (m : atable) : atable :=
  alter (λ a, match a_state a with Killed => a | _ => a_set_cpu cpu a end) t m.
Definition spec_kill (t : positive) (m : atable) : atable :=
  alter (λ a, a_set_cpu TIMER_CPU_status_killed (a_set_state Killed a)) t m.

(** CPU [c] will run the softirq in time for its active timers: it is pending,
    or the hardware timer has been programmed for no later than the expiry. *)
Definition armed_on (slop c : Z) (s : tstate) : Prop :=
  ∀ t, active (tm_store s) t c →
    c ∈ tm_softirq s ∨
    ∃ d, tm_deadline s !! c = Some d ∧ d ≠ 0 ∧ d ≤ expires (tm_store s) t + slop.

Definition armed (slop : Z) (s : tstate) : Prop := ∀ c, armed_on slop c s.

(** No CPU that was armed stops being so. *)
Definition keeps_armed (slop : Z) (s s' : tstate) : Prop :=
  ∀ c, armed_on slop c s → armed_on slop c s'.

(** ** Effects on the rest of the state *)

(** Softirqs are only raised; deadlines, running callbacks and CPUs are kept. *)
Record aux_le (s s' : tstate) : Prop := {
  al_softirq : tm_softirq s ⊆ tm_softirq s';
  al_deadline : tm_deadline s' = tm_deadline s;
  al_running c : ts_running (per_cpu s' c) = ts_running (per_cpu s c);
  al_cpus c : is_Some (tm_cpus s !! c) ↔ is_Some (tm_cpus s' !! c);
}.

Lemma aux_le_refl s : aux_le s s.
Proof. by split. Qed.

Lemma aux_le_trans s1 s2 s3 : aux_le s1 s2 → aux_le s2 s3 → aux_le s1 s3.
Proof.
  intros [A1 A2 A3 A4] [B1 B2 B3 B4]. split; [set_solver|congruence| |]; intros c; [by rewrite B3|by rewrite A4].
Qed.

Lemma same_aux_le s s' : same_aux s s' → aux_le s s'.
Proof. intros [A1 A2 A3 A4]. split; auto. by rewrite A1. Qed.

(** Raising a softirq if asked to. *)
Definition raise_if (b : bool) (c : Z) (s : tstate) : tstate :=
  if b then cpu_raise_softirq c s else s.

Lemma raise_if_spec b c s :
  aux_le s (raise_if b c s) ∧ tm_store (raise_if b c s) = tm_store s ∧
  tm_cpus (raise_if b c s) = tm_cpus s ∧ (b = true → c ∈ tm_softirq (raise_if b c s)).
Proof.
  destruct b; simpl; [|split; [apply aux_le_refl|done]].
  split; [|by split; [|split; [|left]]]. split; simpl; auto. set_solver.
Qed.

Lemma timers_inv_ext pend s s' :
  tm_store s' = tm_store s → tm_cpus s' = tm_cpus s → timers_inv pend s → timers_inv pend s'.
Proof. intros H1 H2 [A B]. split; rewrite H1, H2; auto. Qed.

Lemma moved_trans c t v0 v w st1 st2 st3 :
  has_status st1 t v0 c → moved c t v st1 st2 → moved c t w st2 st3 → moved c t w st1 st3.
Proof.
  intros Ht H1 H2. split.
  - rewrite (mv_erase _ _ _ _ _ H2), (mv_erase _ _ _ _ _ H1). apply map_eq. intros u.
    rewrite !lookup_alter. repeat case_decide; [|done..]. by destruct (erase st1 !! t).
  - intros u Hu Hn. rewrite (mv_same _ _ _ _ _ H2), (mv_same _ _ _ _ _ H1); auto.
    rewrite (moved_has_status _ _ _ _ _ _ _ _ _ H1 Ht). by rewrite decide_False.
Qed.

Lemma moved_at c t v v0 st st' : has_status st t v0 c → moved c t v st st' → has_status st' t v c.
Proof. intros Ht Hm. by rewrite (moved_has_status _ _ _ _ _ _ _ _ _ Hm Ht), decide_True. Qed.

Lemma abs_erase s : abs s = abs_timer <$> erase (tm_store s).
Proof. unfold abs, erase. rewrite <- map_fmap_compose. by apply map_fmap_ext. Qed.

Lemma moved_abs c t v s s' :
  moved c t v (tm_store s) (tm_store s') → abs s' = alter (a_set_state (abs_status v)) t (abs s).
Proof.
  intros [He _]. rewrite !abs_erase, He. apply map_eq. intros u.
  rewrite lookup_fmap, !lookup_alter, !lookup_fmap. case_decide; [|done]. by destruct (erase (tm_store s) !! t).
Qed.

(** ** Steps of the operations *)

(** An inactive timer is on its CPU's inactive list. *)
Lemma inactive_del_ok pend s t c s0 :
  timers_inv pend s → has_status (tm_store s) t TIMER_STATUS_inactive c → tm_cpus s0 = tm_cpus s →
  inactive_del c t s0 = Ok (inactive_drop c t s0).
Proof.
  intros Hinv Ht E. destruct (ti_known _ _ Hinv _ _ _ Ht) as (_ & _ & Hd). destruct Hd as [ts Hts]; [done|].
  unfold inactive_del. rewrite bool_decide_eq_true_2; [done|]. unfold per_cpu. rewrite E, Hts.
  by apply (ti_cpu _ _ Hinv _ _ Hts).
Qed.

(** Taking a timer off its CPU's inactive list. *)
Lemma drop_inactive pend s t c v :
  timers_inv pend s → has_status (tm_store s) t TIMER_STATUS_inactive c → t ∉ pend →
  v = TIMER_STATUS_invalid →
  let s' := inactive_drop c t (upd_timer t (set_status v) s) in
  timers_inv pend s' ∧ same_aux s s' ∧ moved c t v (tm_store s) (tm_store s').
Proof.
  intros Hinv Ht Hp ->. destruct (ti_known _ _ Hinv _ _ _ Ht) as (_ & _ & Hd).
  destruct Hd as [ts Hts]; [done|]. pose proof (ti_cpu _ _ Hinv _ _ Hts) as Hc.
  pose proof Hc as [H0 H1 H2 H3 H4 H5 H6 H7].
  destruct (cpu_inv_elsewhere _ _ _ _ _ _ Hc Ht) as (E1 & E2 & E3).
  unfold inactive_drop, upd_cpu, upd_timer, per_cpu; simpl. rewrite Hts. simpl.
  assert (Hm : moved c t TIMER_STATUS_invalid (tm_store s)
                 (alter (set_status TIMER_STATUS_invalid) t (tm_store s))).
  { eapply moved_alter; [apply (same_but_offsets_refl (λ _, False))|done]. }
  split; [|split; [by eapply same_aux_upd|done]].
  eapply (inv_move _ _ _ _ _ TIMER_STATUS_invalid); [done|exact Ht|done|done|done|done|].
  eapply cpu_inv_moved; eauto; simpl.
  - eapply heap_wf_frame, H1. intros u Hu. apply lookup_alter_ne. intros <-. by apply E1.
  - intros u. apply (stays (heap_has (ts_heap ts))); [by apply E1|done].
  - intros u. apply (stays (λ u, u ∈ ts_list ts)); [by apply E2|done].
  - by apply NoDup_filter.
  - intros u. apply (leaves (λ u, u ∈ ts_inactive ts) (λ u, u ∈ filter (λ u, u ≠ t) (ts_inactive ts)));
      [done|apply elem_of_filter_ne].
Qed.

(** Putting a timer in transit on its CPU's inactive list. *)
Lemma park pend s t c :
  timers_inv pend s → has_status (tm_store s) t TIMER_STATUS_invalid c → t ∉ pend →
  let s' := inactive_add c t (upd_timer t (set_status TIMER_STATUS_inactive) s) in
  timers_inv pend s' ∧ same_aux s s' ∧ moved c t TIMER_STATUS_inactive (tm_store s) (tm_store s').
Proof.
  intros Hinv Ht Hp. destruct (ti_known _ _ Hinv _ _ _ Ht) as (_ & _ & Hd).
  destruct Hd as [ts Hts]; [done|]. pose proof (ti_cpu _ _ Hinv _ _ Hts) as Hc.
  pose proof Hc as [H0 H1 H2 H3 H4 H5 H6 H7].
  destruct (cpu_inv_elsewhere _ _ _ _ _ _ Hc Ht) as (E1 & E2 & E3).
  unfold inactive_add, upd_cpu, upd_timer, per_cpu; simpl. rewrite Hts. simpl.
  assert (Hm : moved c t TIMER_STATUS_inactive (tm_store s)
                 (alter (set_status TIMER_STATUS_inactive) t (tm_store s))).
  { eapply moved_alter; [apply (same_but_offsets_refl (λ _, False))|done]. }
  split; [|split; [by eapply same_aux_upd|done]].
  eapply (inv_move _ _ _ _ _ TIMER_STATUS_inactive); [done|exact Ht|done|done|done|done|].
  eapply cpu_inv_moved; eauto; simpl.
  - eapply heap_wf_frame, H1. intros u Hu. apply lookup_alter_ne. intros <-. by apply E1.
  - intros u. apply (stays (heap_has (ts_heap ts))); [by apply E1|done].
  - intros u. apply (stays (λ u, u ∈ ts_list ts)); [by apply E2|done].
  - apply NoDup_cons. split; [by apply E3|done].
  - intros u. apply (enters (λ u, u ∈ ts_inactive ts) (λ u, u ∈ t :: ts_inactive ts));
      [done|by apply E3|apply elem_of_cons].
Qed.

Lemma deactivate_timer_spec pend s t c :
  timers_inv pend s → active (tm_store s) t c → t ∉ pend →
  ∃ s', deactivate_timer t s = Ok s' ∧ timers_inv pend s' ∧ aux_le s s' ∧
    moved c t TIMER_STATUS_inactive (tm_store s) (tm_store s').
Proof.
  intros Hinv Ht Hp.
  assert (∃ v, has_status (tm_store s) t v c ∧ (v = TIMER_STATUS_in_heap ∨ v = TIMER_STATUS_in_list))
    as (v & Hst & Hv) by (destruct Ht; eauto).
  destruct (remove_entry_spec pend s t c v) as (rc & s1 & Hr & Hinv1 & Ha1 & Hm1); auto.
  pose proof Hst as (x & Hx & _ & Hxc).
  unfold deactivate_timer. rewrite Hx, Hr, Hxc. simpl. fold (raise_if rc c s1).
  destruct (raise_if_spec rc c s1) as (Ha2 & Hs2 & Hc2 & _).
  pose proof (timers_inv_ext _ _ _ Hs2 Hc2 Hinv1) as Hinv2.
  pose proof (moved_at _ _ _ _ _ _ Hst Hm1) as Ht1. rewrite <- Hs2 in Ht1.
  destruct (park _ _ _ _ Hinv2 Ht1 Hp) as (Hinv3 & Ha3 & Hm3).
  eexists. split; [done|]. split; [done|]. split.
  - eapply aux_le_trans; [by apply same_aux_le|]. eapply aux_le_trans; [done|by apply same_aux_le].
  - eapply moved_trans; [exact Hst|exact Hm1|]. by rewrite <- Hs2.
Qed.

Lemma activate_timer_spec pend s t c :
  timers_inv pend s → has_status (tm_store s) t TIMER_STATUS_inactive c → t ∉ pend →
  ∃ s' v, activate_timer t s = Ok s' ∧ timers_inv pend s' ∧ aux_le s s' ∧
    (v = TIMER_STATUS_in_heap ∨ v = TIMER_STATUS_in_list) ∧
    moved c t v (tm_store s) (tm_store s') ∧
    (c ∈ tm_softirq s' ∨ ∃ u, u ≠ t ∧ active (tm_store s) u c ∧
                            expires (tm_store s) u ≤ expires (tm_store s) t).
Proof.
  intros Hinv Ht Hp. pose proof Ht as (x & Hx & Hxs & Hxc).
  destruct (drop_inactive pend s t c _ Hinv Ht Hp eq_refl) as (Hinv1 & Ha1 & Hm1).
  unfold activate_timer. rewrite Hx, Hxs, Hxc. cbn [BUG_ON Z.eqb negb TIMER_STATUS_inactive Pos.eqb].
  rewrite (inactive_del_ok pend s) by done. cbn [mbind outcome_bind].
  set (s1 := inactive_drop c t _) in *. pose proof (moved_at _ _ _ _ _ _ Ht Hm1) as Ht1.
  destruct (add_entry_spec pend s1 t c Hinv1 Ht1 Hp) as (rc & s2 & v & Hr & Hinv2 & Ha2 & Hv & Hm2 & Hrc).
  rewrite Hr. simpl. fold (raise_if rc c s2).
  destruct (raise_if_spec rc c s2) as (Ha3 & Hs3 & Hc3 & Hq3).
  eexists _, v. split; [done|]. split; [by apply (timers_inv_ext _ s2)|]. split.
  { eapply aux_le_trans; [by apply same_aux_le|]. eapply aux_le_trans; [by apply same_aux_le|done]. }
  split; [done|]. split; [rewrite Hs3; by eapply moved_trans|].
  destruct rc; [left; by apply Hq3|right]. destruct (Hrc eq_refl) as (u & Hu & Hact & Hle).
  rewrite !(moved_expires _ _ _ _ _ _ Hm1) in Hle. exists u. split; [done|]. split; [|done].
  unfold active in *. rewrite !(moved_has_status _ _ _ _ _ _ _ _ _ Hm1 Ht), !decide_False in Hact by done.
  done.
Qed.

(** ** Changes to timers that are not active *)

(** CPU [c]'s structures [ts'] after timer [t] became [v'] of CPU [new]: only
    the inactive lists follow. *)
Record idle_cpu (t : positive) (v' new c : Z) (ts ts' : timers) : Prop := {
  ic_heap : ts_heap ts' = ts_heap ts;
  ic_list : ts_list ts' = ts_list ts;
  ic_nodup : NoDup (ts_inactive ts');
  ic_in u : u ∈ ts_inactive ts' ↔
    (u ≠ t ∧ u ∈ ts_inactive ts) ∨ (u = t ∧ v' = TIMER_STATUS_inactive ∧ c = new);
}.

Lemma cpu_inv_idle pend st st' t v' new c ts ts' :
  cpu_inv pend st c ts → (∀ c, ¬ active st t c) →
  (∀ u, u ≠ t → st' !! u = st !! u) →
  (∀ w c', has_status st' t w c' ↔ w = v' ∧ c' = new) →
  v' = TIMER_STATUS_inactive ∨ v' = TIMER_STATUS_killed →
  idle_cpu t v' new c ts ts' → cpu_inv pend st' c ts'.
Proof.
  intros [H0 H1 H2 H3 H4 H5 H6 H7] Hidle Hne Hst Hv [J1 J2 J3 J4].
  assert (Hs : ∀ u w, has_status st' u w c ↔ (u ≠ t ∧ has_status st u w c) ∨ (u = t ∧ w = v' ∧ c = new)).
  { intros u w. destruct (decide (u = t)) as [->|Hu].
    - rewrite Hst. tauto.
    - unfold has_status. rewrite Hne by done. tauto. }
  assert (Hnl : t ∉ ts_list ts) by (intros [? _]%H5; apply (Hidle c); by right).
  assert (Hnh : ¬ heap_has (ts_heap ts) t) by (intros ?%H2; apply (Hidle c); by left).
  split; rewrite ?J1, ?J2; auto.
  - eapply heap_wf_frame, H1. intros u Hu. apply Hne. by intros ->.
  - intros u. rewrite Hs, <- H2. destruct (decide (u = t)) as [->|]; [|tauto].
    destruct Hv as [->| ->]; unfold TIMER_STATUS_in_heap, TIMER_STATUS_inactive, TIMER_STATUS_killed; intuition lia.
  - eapply StronglySorted_ext, H4. unfold by_expiry, expires. intros a b Ha Hb.
    rewrite !Hne; [done|by intros ->..].
  - intros u. rewrite Hs. destruct (decide (u = t)) as [->|Hu]; [|rewrite H5; tauto].
    destruct Hv as [->| ->]; unfold TIMER_STATUS_in_list, TIMER_STATUS_inactive, TIMER_STATUS_killed; intuition lia.
  - intros u. rewrite J4, Hs, H7. intuition.
Qed.

Lemma inv_idle pend s s' t v' new :
  timers_inv pend s → (∀ c, ¬ active (tm_store s) t c) →
  (∀ u, u ≠ t → tm_store s' !! u = tm_store s !! u) →
  (∀ w c', has_status (tm_store s') t w c' ↔ w = v' ∧ c' = new) →
  v' = TIMER_STATUS_inactive ∧ new ≠ TIMER_CPU_status_killed ∧ is_Some (tm_cpus s !! new) ∨
  v' = TIMER_STATUS_killed ∧ new = TIMER_CPU_status_killed →
  (∀ c, is_Some (tm_cpus s !! c) → is_Some (tm_cpus s' !! c)) →
  (∀ c ts', tm_cpus s' !! c = Some ts' →
    ∃ ts, tm_cpus s !! c = Some ts ∧ idle_cpu t v' new c ts ts') →
  timers_inv pend s'.
Proof.
  intros [Hc Hk] Hidle Hne Hst Hv Hdom Hcpu. split.
  - intros c ts' Hts'. destruct (Hcpu _ _ Hts') as (ts & Hts & Hi).
    eapply (cpu_inv_idle pend (tm_store s) _ t v' new); eauto. destruct Hv as [[? _]|[? _]]; auto.
  - intros u w c Hu. destruct (decide (u = t)) as [->|Hut].
    + apply Hst in Hu as [-> ->]. destruct Hv as [(-> & ? & ?)|[-> ->]].
      * split; [done|]. split; [split; done|auto].
      * split; [done|]. by split.
    + assert (has_status (tm_store s) u w c) as Hu'.
      { destruct Hu as (x & Hx & ?). exists x. by rewrite <- Hne. }
      destruct (Hk u w c Hu') as (? & ? & Hsome). split; [done|]. split; [done|].
      intros Hw. by apply Hdom, Hsome.
Qed.

Lemma idle_cpu_refl pend s t c ts new :
  timers_inv pend s → tm_cpus s !! c = Some ts →
  has_status (tm_store s) t TIMER_STATUS_inactive new →
  idle_cpu t TIMER_STATUS_inactive new c ts ts.
Proof.
  intros Hinv Hts Ht. pose proof (ti_cpu _ _ Hinv _ _ Hts) as [H0 H1 H2 H3 H4 H5 H6 H7].
  split; auto. intros u. destruct (decide (u = t)) as [->|]; [|tauto].
  rewrite H7. split.
  - intros Hc. right. destruct (has_status_fun _ _ _ _ _ _ Ht Hc). auto.
  - intros [[? _]|(_ & _ & ->)]; [done|done].
Qed.

Lemma inactive_not_active st t c : has_status st t TIMER_STATUS_inactive c → ∀ c', ¬ active st t c'.
Proof. intros H c' [H'|H']; by destruct (has_status_fun _ _ _ _ _ _ H H'). Qed.

(** Setting the expiry of an inactive timer. *)
Lemma set_expires_inv pend s t c e :
  timers_inv pend s → has_status (tm_store s) t TIMER_STATUS_inactive c →
  timers_inv pend (upd_timer t (set_expires e) s).
Proof.
  intros Hinv Ht. destruct (ti_known _ _ Hinv _ _ _ Ht) as (_ & Hk & Hd). specialize (Hd ltac:(done)).
  eapply (inv_idle _ _ _ t TIMER_STATUS_inactive c); simpl; eauto.
  - by eapply inactive_not_active.
  - intros. by apply lookup_alter_ne.
  - intros w c'. unfold has_status. rewrite lookup_alter_eq. destruct Ht as (x & -> & <- & <-). simpl.
    split; [intros (y & [= <-] & ? & ?); simpl in *; auto|]. intros [-> ->]. eexists. by split.
  - left. split; [done|]. split; [|done]. rewrite <- Hk. done.
  - intros c' ts' Hts'. exists ts'. split; [done|]. by eapply idle_cpu_refl.
Qed.

Lemma has_status_update st t x f w c' :
  st !! t = Some x →
  has_status (alter f t st) t w c' ↔ w = t_status (f x) ∧ c' = t_cpu (f x).
Proof.
  intros Hx. unfold has_status. rewrite lookup_alter_eq, Hx. simpl. split.
  - intros (y & [= <-] & <- & <-). auto.
  - intros [-> ->]. eexists. by split.
Qed.

(** Moving an inactive timer to another CPU. *)
Lemma rehome pend s t old new :
  timers_inv pend s → has_status (tm_store s) t TIMER_STATUS_inactive old →
  old ≠ new → 0 ≤ new < TIMER_CPU_status_killed → is_Some (tm_cpus s !! new) →
  let s' := inactive_add new t (upd_timer t (set_cpu (u16 new)) (inactive_drop old t s)) in
  timers_inv pend s' ∧ same_aux s s' ∧ tm_store s' = alter (set_cpu new) t (tm_store s).
Proof.
  unfold TIMER_CPU_status_killed. intros Hinv Ht Hne Hnew [tn Htn].
  destruct (ti_known _ _ Hinv _ _ _ Ht) as (_ & _ & Hd). destruct Hd as [to Hto]; [done|].
  pose proof Ht as (x & Hx & Hxs & Hxc).
  unfold inactive_add, inactive_drop, upd_cpu, upd_timer, per_cpu; simpl. rewrite u16_small by lia.
  rewrite lookup_insert_ne, Hto, Htn by done. simpl.
  split; [|split; [|done]].
  2: { eapply same_aux_trans; [apply (same_aux_upd s old (tm_store s) to
         (set_inactive (filter (λ u, u ≠ t) (ts_inactive to)) to)); done|].
       match goal with |- same_aux ?a _ => apply (same_aux_upd a new _ tn) end;
         simpl; [by rewrite lookup_insert_ne|done]. }
  eapply (inv_idle pend s _ t TIMER_STATUS_inactive new); simpl; eauto.
  - by eapply inactive_not_active.
  - intros. by apply lookup_alter_ne.
  - intros w c'. rewrite (has_status_update _ _ _ _ _ _ Hx). simpl. by rewrite Hxs.
  - left. unfold TIMER_CPU_status_killed. split; [done|]. split; [lia|eauto].
  - intros c [ts Hts]. rewrite !lookup_insert. repeat case_decide; eauto.
  - intros c ts'. rewrite !lookup_insert_Some. intros [[<- <-]|[Hcn [[<- <-]|[Hco Hts]]]].
    + pose proof (ti_cpu _ _ Hinv _ _ Htn) as [_ _ _ _ _ _ H6 H7]. exists tn. split; [done|].
      assert (t ∉ ts_inactive tn) as Hnin.
      { intros Hin%H7. by destruct (has_status_fun _ _ _ _ _ _ Ht Hin). }
      split; simpl; auto; [by constructor|]. intros u. rewrite elem_of_cons.
      destruct (decide (u = t)) as [->|]; tauto.
    + pose proof (ti_cpu _ _ Hinv _ _ Hto) as [_ _ _ _ _ _ H6 H7]. exists to. split; [done|].
      split; simpl; auto; [by apply NoDup_filter|]. intros u. rewrite elem_of_filter_ne. naive_solver.
    + pose proof (ti_cpu _ _ Hinv _ _ Hts) as [_ _ _ _ _ _ H6 H7]. exists ts'. split; [done|].
      split; auto. intros u. destruct (decide (u = t)) as [->|]; [|tauto]. rewrite H7. split; [|naive_solver].
      intros Hin. by destruct (has_status_fun _ _ _ _ _ _ Ht Hin).
Qed.

(** Retiring an inactive timer for good. *)
Lemma retire pend s t c :
  timers_inv pend s → has_status (tm_store s) t TIMER_STATUS_inactive c →
  let s' := upd_timer t (λ x, set_cpu TIMER_CPU_status_killed (set_status TIMER_STATUS_killed x))
              (inactive_drop c t s) in
  timers_inv pend s' ∧ same_aux s s'.
Proof.
  intros Hinv Ht. destruct (ti_known _ _ Hinv _ _ _ Ht) as (_ & _ & Hd). destruct Hd as [ts Hts]; [done|].
  pose proof Ht as (x & Hx & Hxs & Hxc).
  unfold inactive_drop, upd_cpu, upd_timer, per_cpu; simpl. rewrite Hts. simpl.
  split; [|by eapply same_aux_upd].
  eapply (inv_idle pend s _ t TIMER_STATUS_killed TIMER_CPU_status_killed); simpl; eauto.
  - by eapply inactive_not_active.
  - intros. by apply lookup_alter_ne.
  - intros w c'. by rewrite (has_status_update _ _ _ _ _ _ Hx).
  - intros c' [ts' Hts']. rewrite !lookup_insert. repeat case_decide; eauto.
  - intros c' ts'. rewrite lookup_insert_Some. intros [[<- <-]|[Hcn Hts']].
    + pose proof (ti_cpu _ _ Hinv _ _ Hts) as [_ _ _ _ _ _ H6 H7]. exists ts. split; [done|].
      split; simpl; auto; [by apply NoDup_filter|]. intros u. rewrite elem_of_filter_ne. naive_solver.
    + pose proof (ti_cpu _ _ Hinv _ _ Hts') as [_ _ _ _ _ _ H6 H7]. exists ts'. split; [done|].
      split; auto. intros u. destruct (decide (u = t)) as [->|]; [|tauto]. rewrite H7. split; [|naive_solver].
      intros Hin. by destruct (has_status_fun _ _ _ _ _ _ Ht Hin).
Qed.

(** A timer that was never initialised, or was killed, becomes inactive. *)
Lemma init_inv pend s t fn data cpu :
  timers_inv pend s →
  tm_store s !! t = None ∨ has_status (tm_store s) t TIMER_STATUS_killed TIMER_CPU_status_killed →
  0 ≤ cpu < TIMER_CPU_status_killed → is_Some (tm_cpus s !! cpu) →
  let s' := inactive_add cpu t
    (put_store (<[t := mk_timer 0 0 fn data cpu TIMER_STATUS_inactive]> (tm_store s)) s) in
  timers_inv pend s' ∧ same_aux s s'.
Proof.
  unfold TIMER_CPU_status_killed at 2. intros Hinv Ht Hcpu [tc Htc].
  assert (Hfree : ∀ v c, v ≠ TIMER_STATUS_killed → ¬ has_status (tm_store s) t v c).
  { intros v c Hv Hst. destruct Ht as [Hn|Hk].
    - destruct Hst as (y & Hy & _). congruence.
    - by destruct (has_status_fun _ _ _ _ _ _ Hk Hst). }
  unfold inactive_add, put_store, upd_cpu, per_cpu; simpl. rewrite Htc. simpl.
  split; [|by eapply same_aux_upd].
  eapply (inv_idle pend s _ t TIMER_STATUS_inactive cpu); simpl; eauto.
  - intros c [H|H]; by eapply Hfree, H.
  - intros. by apply lookup_insert_ne.
  - intros w c'. unfold has_status. rewrite lookup_insert_eq. split.
    + intros (y & [= <-] & <- & <-). auto.
    + intros [-> ->]. eexists. by split.
  - left. unfold TIMER_CPU_status_killed. split; [done|]. split; [lia|eauto].
  - intros c' [ts' Hts']. rewrite !lookup_insert. repeat case_decide; eauto.
  - assert (Hnin : ∀ c ts, tm_cpus s !! c = Some ts → t ∉ ts_inactive ts).
    { intros c ts Hts Hin. apply (ti_cpu _ _ Hinv _ _ Hts) in Hin. by eapply Hfree, Hin. }
    intros c' ts'. rewrite lookup_insert_Some. intros [[<- <-]|[Hcn Hts']].
    + pose proof (ti_cpu _ _ Hinv _ _ Htc) as [_ _ _ _ _ _ H6 H7]. exists tc. split; [done|].
      specialize (Hnin _ _ Htc). split; simpl; auto; [by constructor|]. intros u. rewrite elem_of_cons.
      destruct (decide (u = t)) as [->|]; tauto.
    + pose proof (ti_cpu _ _ Hinv _ _ Hts') as [_ _ _ _ _ _ H6 H7]. exists ts'. split; [done|].
      split; auto. intros u. destruct (decide (u = t)) as [->|]; [|tauto]. specialize (Hnin _ _ Hts'). naive_solver.
Qed.

(** ** Refinement of the public operations *)

(** [r] is a normal return to a state whose abstract table is [f] of the old
    one, with the invariant kept and no wake-up lost. *)
Definition refines (slop : Z) (f : atable → atable) (s : tstate) (r : outcome tstate) : Prop :=
  ∃ s', r = Ok s' ∧ timers_inv ∅ s' ∧ settled s' ∧ abs s' = f (abs s) ∧
        keeps_armed slop s s' ∧ aux_le s s'.

Lemma moved_refl c t v st : has_status st t v c → moved c t v st st.
Proof.
  intros (x & Hx & Hv & Hc). split; [|done]. apply map_eq. intros u.
  rewrite lookup_alter. case_decide; [|done]. subst u. rewrite lookup_erase, Hx. simpl.
  subst v. by destruct x.
Qed.

Lemma settled_moved c t v v0 s s' :
  settled s → has_status (tm_store s) t v0 c → moved c t v (tm_store s) (tm_store s') →
  v ≠ TIMER_STATUS_invalid → settled s'.
Proof.
  intros Hs Ht Hm Hv u c'. rewrite (moved_has_status _ _ _ _ _ _ _ _ _ Hm Ht).
  case_decide; [|apply Hs]. intros [? _]. congruence.
Qed.

Lemma armed_less slop s s' :
  aux_le s s' →
  (∀ u c, active (tm_store s') u c →
     active (tm_store s) u c ∧ expires (tm_store s') u = expires (tm_store s) u) →
  keeps_armed slop s s'.
Proof.
  intros [A1 A2 _ _] Hact c Harm u Hu. destruct (Hact u c Hu) as [Hu' He].
  destruct (Harm u Hu') as [?|?]; [left; by apply A1|right]. by rewrite A2, He.
Qed.

Lemma moved_active c t v v0 st st' u c' :
  moved c t v st st' → has_status st t v0 c →
  active st' u c' ↔
    if decide (u = t) then c' = c ∧ (v = TIMER_STATUS_in_heap ∨ v = TIMER_STATUS_in_list)
    else active st u c'.
Proof.
  intros Hm Ht. unfold active. rewrite !(moved_has_status _ _ _ _ _ _ _ _ _ Hm Ht).
  case_decide; [|done]. intuition congruence.
Qed.

Lemma armed_deactivate slop c t v0 s s' :
  has_status (tm_store s) t v0 c → aux_le s s' →
  moved c t TIMER_STATUS_inactive (tm_store s) (tm_store s') → keeps_armed slop s s'.
Proof.
  intros Ht Ha Hm. apply armed_less; [done|]. intros u c'.
  rewrite (moved_active _ _ _ _ _ _ _ _ Hm Ht), (moved_expires _ _ _ _ _ _ Hm).
  case_decide; [|done]. intros [_ [?|?]]; done.
Qed.

(** The activated timer is covered by the raised softirq or by an earlier one. *)
Lemma armed_activate slop c t v v0 s s' :
  has_status (tm_store s) t v0 c → aux_le s s' → moved c t v (tm_store s) (tm_store s') →
  (c ∈ tm_softirq s' ∨ ∃ u, u ≠ t ∧ active (tm_store s) u c ∧
                            expires (tm_store s) u ≤ expires (tm_store s) t) →
  keeps_armed slop s s'.
Proof.
  intros Ht [A1 A2 _ _] Hm Hcov c' Harm u.
  rewrite (moved_active _ _ _ _ _ _ _ _ Hm Ht), (moved_expires _ _ _ _ _ _ Hm), A2.
  case_decide as Hu; [subst u; intros [-> _]|].
  - destruct Hcov as [?|(w & _ & Hw & Hle)]; [by left|].
    destruct (Harm w Hw) as [?|(d & ? & ? & ?)]; [left; by apply A1|].
    right. exists d. split; [done|]. split; [done|lia].
  - intros Hact. destruct (Harm u Hact) as [?|?]; [left; by apply A1|by right].
Qed.

(** The status of a timer of a settled state. *)
Lemma settled_status s t x :
  timers_inv ∅ s → settled s → tm_store s !! t = Some x →
  (t_cpu x = TIMER_CPU_status_killed ∧ t_status x = TIMER_STATUS_killed) ∨
  (t_cpu x ≠ TIMER_CPU_status_killed ∧
   (t_status x = TIMER_STATUS_inactive ∨ active (tm_store s) t (t_cpu x))).
Proof.
  intros Hinv Hset Hx. pose proof (has_status_at _ _ _ Hx) as Hst.
  destruct (ti_known _ _ Hinv _ _ _ Hst) as (Hr & Hk & _).
  destruct (decide (t_status x = TIMER_STATUS_killed)) as [E|E]; [left; tauto|right].
  split; [tauto|]. assert (t_status x ≠ TIMER_STATUS_invalid) by (intros E'; rewrite E' in Hst; by apply Hset in Hst).
  unfold active, TIMER_STATUS_inactive, TIMER_STATUS_killed, TIMER_STATUS_invalid,
    TIMER_STATUS_in_heap, TIMER_STATUS_in_list in *.
  assert (t_status x = 1 ∨ t_status x = 3 ∨ t_status x = 4) as [?|[E'|E']] by lia; [by left|..];
    rewrite E' in Hst; auto.
Qed.

Lemma deactivate_if_active_spec s t x :
  timers_inv ∅ s → tm_store s !! t = Some x →
  t_status x = TIMER_STATUS_inactive ∨ active (tm_store s) t (t_cpu x) →
  ∃ s', deactivate_if_active t x s = Ok s' ∧ timers_inv ∅ s' ∧ aux_le s s' ∧
    moved (t_cpu x) t TIMER_STATUS_inactive (tm_store s) (tm_store s') ∧
    active_timer x = Ok (negb (t_status x =? TIMER_STATUS_inactive)).
Proof.
  intros Hinv Hx Hst. pose proof (has_status_at _ _ _ Hx) as Hs.
  assert (Ha : active_timer x = Ok (negb (t_status x =? TIMER_STATUS_inactive)) ∧
    (t_status x = TIMER_STATUS_inactive ∨ t_status x ≠ TIMER_STATUS_inactive ∧ active (tm_store s) t (t_cpu x))).
  { unfold active_timer. destruct Hst as [E|Hact]; [rewrite E; auto|].
    assert (t_status x = TIMER_STATUS_in_heap ∨ t_status x = TIMER_STATUS_in_list) as [E|E].
    { destruct Hact as [H|H]; destruct (has_status_fun _ _ _ _ _ _ Hs H); auto. }
    all: rewrite E; split; [done|right; done]. }
  destruct Ha as [Ha Hcase]. unfold deactivate_if_active. rewrite Ha. simpl.
  destruct Hcase as [E|[E Hact]].
  - rewrite E. exists s. simpl. repeat split_and; auto; [apply aux_le_refl|].
    apply moved_refl. by rewrite <- E.
  - apply Z.eqb_neq in E. rewrite E. simpl.
    destruct (deactivate_timer_spec ∅ s t (t_cpu x)) as (s' & -> & ? & ? & ?); auto; [set_solver|].
    exists s'. auto.
Qed.

Lemma abs_upd t f g s :
  (∀ x, abs_timer (f x) = g (abs_timer x)) → abs (upd_timer t f s) = alter g t (abs s).
Proof.
  intros Hfg. apply map_eq. intros u. unfold abs. simpl.
  rewrite lookup_fmap, !lookup_alter, !lookup_fmap. case_decide; [|done].
  destruct (tm_store s !! t); simpl; [by rewrite Hfg|done].
Qed.

Lemma abs_lookup s t x : tm_store s !! t = Some x → abs s !! t = Some (abs_timer x).
Proof. intros H. unfold abs. by rewrite lookup_fmap, H. Qed.

(** Two compositions of updates of one timer agree when they agree on it. *)
Lemma alter_agree {A} (f g : A → A) t (m : gmap positive A) a :
  m !! t = Some a → f a = g a → alter f t m = alter g t m.
Proof.
  intros Ha Hfg. apply map_eq. intros u. rewrite !lookup_alter. case_decide; [|done].
  subst. rewrite Ha. simpl. by rewrite Hfg.
Qed.

Lemma alter_alter {A} (f g : A → A) t (m : gmap positive A) :
  alter f t (alter g t m) = alter (λ a, f (g a)) t m.
Proof.
  apply map_eq. intros u. rewrite !lookup_alter. repeat case_decide; [|done..].
  by destruct (m !! t).
Qed.

Lemma alter_same {A} (f : A → A) t (m : gmap positive A) a :
  m !! t = Some a → f a = a → alter f t m = m.
Proof.
  intros Ha Hf. apply map_eq. intros u. rewrite lookup_alter. case_decide; [|done].
  subst. rewrite Ha. simpl. by rewrite Hf.
Qed.

Lemma abs_active s t x :
  tm_store s !! t = Some x → t_status x = TIMER_STATUS_inactive ∨ active (tm_store s) t (t_cpu x) →
  a_state (abs_timer x) = if t_status x =? TIMER_STATUS_inactive then Inactive else Active.
Proof.
  intros Hx [E|Hact]; simpl; [by rewrite E|].
  destruct Hact as [H|H]; destruct (has_status_fun _ _ _ _ _ _ (has_status_at _ _ _ Hx) H) as [-> _]; done.
Qed.

(** An operation on a killed timer does nothing. *)
Lemma refines_killed slop f g s t x :
  timers_inv ∅ s → settled s → tm_store s !! t = Some x → t_status x = TIMER_STATUS_killed →
  (∀ m, f m = alter g t m) → (∀ a, a_state a = Killed → g a = a) → refines slop f s (Ok s).
Proof.
  intros Hinv Hset Hx Hk Hf Hg. exists s. repeat split_and; auto; [|by intros ?|apply aux_le_refl].
  rewrite Hf. symmetry. eapply alter_same; [by apply abs_lookup|]. apply Hg. simpl. by rewrite Hk.
Qed.

Lemma stop_timer_refines slop s t :
  timers_inv ∅ s → settled s → is_Some (tm_store s !! t) →
  refines slop (spec_stop t) s (stop_timer t s).
Proof.
  intros Hinv Hset [x Hx]. unfold stop_timer, timer_lock. rewrite Hx.
  destruct (settled_status _ _ _ Hinv Hset Hx) as [[Hk Hs]|[Hk Hs]].
  - rewrite Hk. simpl. eapply refines_killed; eauto. intros a Ha. simpl. by rewrite Ha.
  - apply Z.eqb_neq in Hk. rewrite Hk. simpl.
    destruct (deactivate_if_active_spec s t x) as (s' & -> & Hinv' & Ha' & Hm & _); auto.
    pose proof (has_status_at _ _ _ Hx) as Ht.
    exists s'. repeat split_and; auto; [by eapply settled_moved| |by eapply armed_deactivate].
    rewrite (moved_abs _ _ _ _ _ Hm). unfold spec_stop.
    eapply alter_agree; [by apply abs_lookup|]. rewrite (abs_active _ _ _ Hx Hs).
    destruct (Z.eqb_spec (t_status x) TIMER_STATUS_inactive) as [E|]; [|done].
    unfold abs_timer, a_set_state. simpl. by rewrite E.
Qed.

(** Setting the expiry of an inactive timer, then activating it. *)
Lemma set_expires_step slop s t c e :
  timers_inv ∅ s → has_status (tm_store s) t TIMER_STATUS_inactive c →
  let s' := upd_timer t (set_expires e) s in
  timers_inv ∅ s' ∧ has_status (tm_store s') t TIMER_STATUS_inactive c ∧ aux_le s s' ∧
  (settled s → settled s') ∧ keeps_armed slop s s'.
Proof.
  intros Hinv Ht s'. pose proof Ht as (x & Hx & Hxs & Hxc).
  assert (Hst : ∀ u w c', has_status (tm_store s') u w c' ↔ has_status (tm_store s) u w c').
  { intros u w c'. destruct (decide (u = t)) as [->|]; [|by apply has_status_alter].
    unfold s'. simpl. rewrite (has_status_update _ _ _ _ _ _ Hx). simpl. split.
    - intros [-> ->]. by exists x.
    - intros H. by destruct (has_status_fun _ _ _ _ _ _ H (has_status_at _ _ _ Hx)). }
  split; [by eapply set_expires_inv|]. split; [by apply Hst|]. split; [by split|]. split.
  - intros Hset u c'. rewrite Hst. apply Hset.
  - apply armed_less; [by split|]. intros u c'. unfold active. rewrite !Hst. intros Hact.
    split; [done|]. unfold expires, s'. simpl. rewrite lookup_alter_ne; [done|].
    intros ->. by eapply inactive_not_active.
Qed.

Lemma activate_step slop s t c :
  timers_inv ∅ s → (settled s) → has_status (tm_store s) t TIMER_STATUS_inactive c →
  refines slop (alter (a_set_state Active) t) s (activate_timer t s).
Proof.
  intros Hinv Hset Ht.
  destruct (activate_timer_spec ∅ s t c) as (s' & v & -> & Hinv' & Ha & Hv & Hm & Hcov); auto; [set_solver|].
  exists s'. repeat split_and; auto.
  - eapply settled_moved; eauto. destruct Hv as [->| ->]; done.
  - rewrite (moved_abs _ _ _ _ _ Hm). by destruct Hv as [->| ->].
  - by eapply armed_activate.
Qed.

Lemma set_timer_refines slop s t e :
  timers_inv ∅ s → settled s → is_Some (tm_store s !! t) →
  refines slop (spec_set t e) s (set_timer t e s).
Proof.
  intros Hinv Hset [x Hx]. unfold set_timer, timer_lock. rewrite Hx.
  destruct (settled_status _ _ _ Hinv Hset Hx) as [[Hk Hs]|[Hk Hs]].
  - rewrite Hk. simpl. eapply refines_killed; eauto. intros a Ha. simpl. by rewrite Ha.
  - apply Z.eqb_neq in Hk. rewrite Hk. cbn [negb].
    destruct (deactivate_if_active_spec s t x) as (s1 & -> & Hinv1 & Ha1 & Hm1 & _); auto. simpl.
    pose proof (has_status_at _ _ _ Hx) as Ht. pose proof (moved_at _ _ _ _ _ _ Ht Hm1) as Ht1.
    assert (settled s1) as Hset1 by by eapply settled_moved.
    destruct (set_expires_step slop s1 t _ e Hinv1 Ht1) as (Hinv2 & Ht2 & Ha2 & Hs2 & Har2).
    set (s2 := upd_timer t (set_expires e) s1) in *.
    destruct (activate_step slop s2 t _ Hinv2 (Hs2 Hset1) Ht2) as (s3 & -> & ? & ? & Habs & Har3 & ?).
    exists s3. repeat split_and; auto.
    + rewrite Habs. unfold s2. rewrite (abs_upd t _ (a_set_expires e)) by done.
      rewrite (moved_abs _ _ _ _ _ Hm1), !alter_alter. unfold spec_set.
      eapply alter_agree; [by apply abs_lookup|]. rewrite (abs_active _ _ _ Hx Hs).
      by destruct (t_status x =? TIMER_STATUS_inactive).
    + intros c Har. apply Har3, Har2. by eapply (armed_deactivate slop _ t _ s).
    + eapply aux_le_trans; [done|]. by eapply aux_le_trans.
Qed.

(** The abstract effect of the steps of a migration. *)
Lemma rehome_step slop s t old new :
  timers_inv ∅ s → settled s → has_status (tm_store s) t TIMER_STATUS_inactive old →
  old ≠ new → 0 ≤ new < TIMER_CPU_status_killed → is_Some (tm_cpus s !! new) →
  let s' := inactive_add new t (upd_timer t (set_cpu (u16 new)) (inactive_drop old t s)) in
  refines slop (alter (a_set_cpu new) t) s (Ok s') ∧
  has_status (tm_store s') t TIMER_STATUS_inactive new.
Proof.
  intros Hinv Hset Ht Hne Hnew Hcpu s'. pose proof Ht as (x & Hx & Hxs & Hxc).
  destruct (rehome ∅ s t old new Hinv Ht Hne Hnew Hcpu) as (Hinv' & Ha & Hst). fold s' in Hinv', Ha, Hst.
  assert (Ht' : ∀ u w c', has_status (tm_store s') u w c' ↔
    if decide (u = t) then w = TIMER_STATUS_inactive ∧ c' = new else has_status (tm_store s) u w c').
  { intros u w c'. rewrite Hst. case_decide; [subst|by apply has_status_alter].
    rewrite (has_status_update _ _ _ _ _ _ Hx). simpl. by rewrite Hxs. }
  split; [|rewrite Ht', decide_True; done].
  exists s'. split; [done|]. split; [done|]. split.
  { intros u c'. rewrite Ht'. case_decide; [by intros [? _]|apply Hset]. }
  split; [|split; [|by apply same_aux_le]].
  - transitivity (abs (upd_timer t (set_cpu new) s)); [unfold abs; by rewrite Hst|by apply abs_upd].
  - apply armed_less; [by apply same_aux_le|]. intros u c'. unfold active. rewrite !Ht'.
    case_decide; [intros [[? _]|[? _]]; done|]. intros Hact. split; [done|].
    rewrite Hst. unfold expires. by rewrite lookup_alter_ne.
Qed.

Lemma refines_trans slop f g h s r1 k :
  refines slop f s r1 → (∀ s1, r1 = Ok s1 → refines slop g s1 (k s1)) →
  g (f (abs s)) = h (abs s) → refines slop h s (r1 ≫= k).
Proof.
  intros (s1 & -> & Hi1 & Hs1 & Ha1 & Har1 & Hx1) Hk Hgf. simpl.
  destruct (Hk s1 eq_refl) as (s2 & -> & Hi2 & Hs2 & Ha2 & Har2 & Hx2).
  exists s2. repeat split_and; auto; [congruence|intros c ?; by apply Har2, Har1|by eapply aux_le_trans].
Qed.

Lemma deactivate_step slop s t x :
  timers_inv ∅ s → settled s → tm_store s !! t = Some x →
  t_status x = TIMER_STATUS_inactive ∨ active (tm_store s) t (t_cpu x) →
  refines slop (alter (a_set_state Inactive) t) s (deactivate_if_active t x s) ∧
  (∀ s1, deactivate_if_active t x s = Ok s1 →
    has_status (tm_store s1) t TIMER_STATUS_inactive (t_cpu x)) ∧
  active_timer x = Ok (negb (t_status x =? TIMER_STATUS_inactive)).
Proof.
  intros Hinv Hset Hx Hs. pose proof (has_status_at _ _ _ Hx) as Ht.
  destruct (deactivate_if_active_spec s t x) as (s' & -> & Hinv' & Ha' & Hm & Hact); auto.
  split; [|split; [|done]].
  - exists s'. repeat split_and; auto; [by eapply settled_moved| |by eapply armed_deactivate].
    by rewrite (moved_abs _ _ _ _ _ Hm).
  - intros s1 [= <-]. by eapply moved_at.
Qed.

Lemma migrate_timer_refines slop s t new :
  timers_inv ∅ s → settled s → is_Some (tm_store s !! t) →
  0 ≤ new < TIMER_CPU_status_killed → is_Some (tm_cpus s !! new) →
  refines slop (spec_migrate t new) s (migrate_timer t new s).
Proof.
  intros Hinv Hset [x Hx] Hnew Hcpu. unfold migrate_timer. rewrite Hx.
  destruct (settled_status _ _ _ Hinv Hset Hx) as [[Hk Hs]|[Hk Hs]].
  { rewrite Hk, orb_true_r. eapply refines_killed; eauto. intros a Ha. simpl. by rewrite Ha. }
  pose proof (abs_active _ _ _ Hx Hs) as Hab.
  destruct (Z.eqb_spec (t_cpu x) new) as [Heq|Hne].
  { simpl. exists s. repeat split_and; auto; [|by intros ?|apply aux_le_refl]. symmetry.
    eapply alter_same; [by apply abs_lookup|]. rewrite Hab.
    assert (a_set_cpu new (abs_timer x) = abs_timer x) by (subst new; done). by destruct (t_status x =? TIMER_STATUS_inactive). }
  apply Z.eqb_neq in Hk. rewrite Hk. cbn [orb].
  destruct (deactivate_step slop s t x Hinv Hset Hx Hs) as (Hd & Ht1 & Hact).
  assert (Hd' : deactivate_if_active t x s =
    if negb (t_status x =? TIMER_STATUS_inactive) then deactivate_timer t s else Ok s).
  { unfold deactivate_if_active. by rewrite Hact. }
  rewrite Hact. cbn [mbind outcome_bind]. rewrite <- Hd'.
  set (b := negb (t_status x =? TIMER_STATUS_inactive)) in *.
  eapply (refines_trans slop _
    (λ m, if b then alter (a_set_state Active) t (alter (a_set_cpu new) t m) else alter (a_set_cpu new) t m));
    [exact Hd| |].
  - intros s1 Hs1. destruct Hd as (s1' & Hs1' & Hinv1 & Hset1 & _ & _ & Hal).
    assert (s1' = s1) as -> by congruence. specialize (Ht1 s1 Hs1).
    destruct (rehome_step slop s1 t (t_cpu x) new) as [Hr Ht2]; auto; [by apply Hal|].
    rewrite (inactive_del_ok ∅ s1) by done. cbn [mbind outcome_bind].
    set (s2 := inactive_add _ _ _) in *. destruct b; [|done].
    apply (refines_trans slop (alter (a_set_cpu new) t) (alter (a_set_state Active) t) _ s1 (Ok s2)
             (activate_timer t)); [done| |done].
    intros ? [= <-]. destruct Hr as (s2' & [= <-] & ? & ? & _). by eapply activate_step.
  - unfold spec_migrate. destruct b eqn:Eb; rewrite !alter_alter;
      (eapply alter_agree; [by apply abs_lookup|]); rewrite Hab; unfold b in Eb; b2p.
    + apply Z.eqb_neq in Eb. rewrite Eb in *. simpl in *. unfold a_set_state, a_set_cpu, abs_timer in *; simpl in *.
      by rewrite Hab.
    + rewrite Eb. simpl. unfold a_set_state, a_set_cpu, abs_timer. simpl. by rewrite Eb.
Qed.

Lemma kill_timer_refines slop s this_cpu t :
  timers_inv ∅ s → settled s → is_Some (tm_store s !! t) →
  ts_running (per_cpu s this_cpu) ≠ Some t →
  refines slop (spec_kill t) s (kill_timer this_cpu t s).
Proof.
  intros Hinv Hset [x Hx] Hrun. unfold kill_timer, timer_lock. rewrite bool_decide_eq_false_2, Hx by done.
  cbn [BUG_ON]. destruct (settled_status _ _ _ Hinv Hset Hx) as [[Hk Hs]|[Hk Hs]].
  - rewrite Hk. simpl. exists s. repeat split_and; auto; [|by intros ?|apply aux_le_refl]. symmetry.
    eapply alter_same; [by apply abs_lookup|]. unfold abs_timer, a_set_cpu, a_set_state. simpl.
    by rewrite Hk, Hs.
  - apply Z.eqb_neq in Hk. rewrite Hk. cbn [negb].
    destruct (deactivate_step slop s t x Hinv Hset Hx Hs) as (Hd & Ht1 & _).
    eapply (refines_trans slop _ (spec_kill t)); [exact Hd| |].
    2: { unfold spec_kill. rewrite alter_alter. by eapply alter_agree; [by apply abs_lookup|]. }
    intros s1 Hs1. destruct Hd as (s1' & Hs1' & Hinv1 & Hset1 & _ & _ & _).
    assert (s1' = s1) as -> by congruence. specialize (Ht1 s1 Hs1).
    pose proof Ht1 as (y & Hy & _). destruct (retire ∅ s1 t _ Hinv1 Ht1) as (Hinv2 & Ha2).
    rewrite (inactive_del_ok ∅ s1) by done. cbn [mbind outcome_bind].
    set (f := λ x, set_cpu _ _) in *. set (s2 := upd_timer t f _) in *.
    assert (Hst : ∀ u w c', has_status (tm_store s2) u w c' ↔
      if decide (u = t) then w = TIMER_STATUS_killed ∧ c' = TIMER_CPU_status_killed
      else has_status (tm_store s1) u w c').
    { intros u w c'. case_decide; [subst|by apply has_status_alter].
      unfold s2. simpl. by rewrite (has_status_update _ _ _ _ _ _ Hy). }
    exists s2. split; [done|]. split; [done|]. split.
    { intros u c'. rewrite Hst. case_decide; [by intros [? _]|apply Hset1]. }
    split; [|split; [|by apply same_aux_le]].
    + unfold s2. rewrite (abs_upd t f (λ a, a_set_cpu TIMER_CPU_status_killed (a_set_state Killed a))) by done.
      done.
    + apply armed_less; [by apply same_aux_le|]. intros u c'. unfold active. rewrite !Hst.
      case_decide; [intros [[? _]|[? _]]; done|]. intros Hact. split; [done|].
      unfold expires, s2. simpl. by rewrite lookup_alter_ne.
Qed.

Lemma init_timer_refines slop s t fn data cpu :
  timers_inv ∅ s → settled s →
  tm_store s !! t = None ∨ has_status (tm_store s) t TIMER_STATUS_killed TIMER_CPU_status_killed →
  0 ≤ cpu < TIMER_CPU_status_killed → is_Some (tm_cpus s !! cpu) →
  refines slop (spec_init t fn data cpu) s (init_timer t fn data cpu s).
Proof.
  intros Hinv Hset Ht Hcpu Hon. unfold init_timer, timer_lock, TIMER_CPU_status_killed in *.
  rewrite u16_small by lia. simpl. destruct (Z.eqb_spec cpu 65535) as [|_]; [lia|]. cbn [negb BUG_ON].
  destruct (init_inv ∅ s t fn data cpu Hinv Ht) as (Hinv' & Ha'); auto.
  set (s' := inactive_add _ _ _) in *.
  assert (Hst : ∀ u, u ≠ t → tm_store s' !! u = tm_store s !! u) by (intros; by apply lookup_insert_ne).
  assert (Htt : tm_store s' !! t = Some (mk_timer 0 0 fn data cpu TIMER_STATUS_inactive)) by apply lookup_insert_eq.
  exists s'. split; [done|]. split; [done|]. split.
  { intros u c (y & Hy & Hv & _). destruct (decide (u = t)) as [->|]; [by simplify_eq|].
    eapply Hset. exists y. rewrite <- Hst by done. eauto. }
  split; [|split; [|by apply same_aux_le]].
  - unfold abs, s'. simpl. by rewrite fmap_insert.
  - apply armed_less; [by apply same_aux_le|]. intros u c Hact. destruct (decide (u = t)) as [->|].
    { exfalso. destruct Hact as [(y & ? & ? & _)|(y & ? & ? & _)]; by simplify_eq. }
    unfold active, has_status, expires in *. rewrite Hst in Hact |- * by done. done.
Qed.

(** ** Sequences of operations *)

Inductive timer_op :=
| OpInit (t : positive) (function data cpu : Z)
| OpSet (t : positive) (exp : Z)
| OpStop (t : positive)
| OpMigrate (t : positive) (new_cpu : Z)
| OpKill (t : positive).

Definition run_op (this_cpu : Z) (op : timer_op) (s : tstate) : outcome tstate :=
  match op with
  | OpInit t function data cpu => init_timer t function data cpu s
  | OpSet t exp => set_timer t exp s
  | OpStop t => stop_timer t s
  | OpMigrate t new_cpu => migrate_timer t new_cpu s
  | OpKill t => kill_timer this_cpu t s
  end.

Definition spec_op (op : timer_op) : atable → atable :=
  match op with
  | OpInit t function data cpu => spec_init t function data cpu
  | OpSet t exp => spec_set t exp
  | OpStop t => spec_stop t
  | OpMigrate t new_cpu => spec_migrate t new_cpu
  | OpKill t => spec_kill t
  end.

(** The callers' obligations: initialise before use and not while in use, name
    CPUs that have a timer structure, do not kill the running timer. *)
Definition op_ok (cpus : Z → Prop) (running : option positive) (op : timer_op) (m : atable) : Prop :=
  match op with
  | OpInit t _ _ cpu =>
      (m !! t = None ∨ a_state <$> m !! t = Some Killed) ∧ 0 ≤ cpu < TIMER_CPU_status_killed ∧ cpus cpu
  | OpSet t _ | OpStop t => is_Some (m !! t)
  | OpMigrate t cpu => is_Some (m !! t) ∧ 0 ≤ cpu < TIMER_CPU_status_killed ∧ cpus cpu
  | OpKill t => is_Some (m !! t) ∧ running ≠ Some t
  end.

Fixpoint run_ops (this_cpu : Z) (ops : list timer_op) (s : tstate) : outcome tstate :=
  match ops with
  | [] => Ok s
  | op :: ops' => let! s' := run_op this_cpu op s in run_ops this_cpu ops' s'
  end.

Fixpoint spec_ops (ops : list timer_op) (m : atable) : atable :=
  match ops with
  | [] => m
  | op :: ops' => spec_ops ops' (spec_op op m)
  end.

Fixpoint ops_ok (cpus : Z → Prop) (running : option positive) (ops : list timer_op) (m : atable) : Prop :=
  match ops with
  | [] => True
  | op :: ops' => op_ok cpus running op m ∧ ops_ok cpus running ops' (spec_op op m)
  end.

Lemma abs_is_Some s t : is_Some (abs s !! t) → is_Some (tm_store s !! t).
Proof. unfold abs. rewrite lookup_fmap. apply fmap_is_Some. Qed.

Lemma abs_killed s t :
  timers_inv ∅ s → a_state <$> abs s !! t = Some Killed →
  has_status (tm_store s) t TIMER_STATUS_killed TIMER_CPU_status_killed.
Proof.
  intros Hinv. unfold abs. rewrite lookup_fmap. destruct (tm_store s !! t) as [x|] eqn:Hx; [|done].
  simpl. intros [= Hk]. assert (t_status x = TIMER_STATUS_killed) as E.
  { unfold abs_status in Hk. revert Hk. unfold TIMER_STATUS_inactive, TIMER_STATUS_killed, TIMER_STATUS_invalid.
    case_Z; congruence. }
  pose proof (has_status_at _ _ _ Hx) as Hst. destruct (ti_known _ _ Hinv _ _ _ Hst) as (_ & Hkc & _).
  rewrite E in Hst, Hkc. by rewrite (proj1 Hkc eq_refl) in Hst.
Qed.

Lemma run_op_refines slop this_cpu op s :
  timers_inv ∅ s → settled s →
  op_ok (λ c, is_Some (tm_cpus s !! c)) (ts_running (per_cpu s this_cpu)) op (abs s) →
  refines slop (spec_op op) s (run_op this_cpu op s).
Proof.
  intros Hinv Hset Hok. destruct op as [t fn data cpu|t e|t|t new|t]; simpl in *.
  - destruct Hok as (Ht & ? & ?). apply init_timer_refines; auto.
    destruct Ht as [Ht|Ht]; [left|right; by apply abs_killed].
    unfold abs in Ht. rewrite lookup_fmap in Ht. by destruct (tm_store s !! t).
  - apply set_timer_refines; auto. by apply abs_is_Some.
  - apply stop_timer_refines; auto. by apply abs_is_Some.
  - destruct Hok as (? & ? & ?). apply migrate_timer_refines; auto. by apply abs_is_Some.
  - destruct Hok as (? & ?). apply kill_timer_refines; auto. by apply abs_is_Some.
Qed.

Lemma op_ok_ext P Q r op m : (∀ c, P c ↔ Q c) → op_ok P r op m → op_ok Q r op m.
Proof. intros H. destruct op; simpl; rewrite <- ?H; auto. Qed.

Lemma ops_ok_ext P Q r ops m : (∀ c, P c ↔ Q c) → ops_ok P r ops m → ops_ok Q r ops m.
Proof.
  intros H. revert m. induction ops as [|op ops IH]; intros m; simpl; [done|].
  intros [? ?]. split; [by eapply op_ok_ext|auto].
Qed.

Lemma run_ops_refines slop this_cpu ops s :
  timers_inv ∅ s → settled s →
  ops_ok (λ c, is_Some (tm_cpus s !! c)) (ts_running (per_cpu s this_cpu)) ops (abs s) →
  refines slop (spec_ops ops) s (run_ops this_cpu ops s).
Proof.
  revert s. induction ops as [|op ops IH]; intros s Hinv Hset; simpl.
  { intros _. exists s. repeat split_and; auto; [by intros ?|apply aux_le_refl]. }
  intros [Hok Hops]. pose proof (run_op_refines slop this_cpu op s Hinv Hset Hok) as Hr.
  eapply (refines_trans slop (spec_op op) (spec_ops ops)); [exact Hr| |done].
  intros s1 E. destruct Hr as (s1' & E' & Hi1 & Hs1 & Ha1 & _ & Hx1). assert (s1' = s1) as -> by congruence.
  apply IH; auto. rewrite Ha1, (al_running _ _ Hx1). eapply ops_ok_ext, Hops. apply Hx1.
Qed.

(** C16: any sequence of timer operations whose callers meet their obligations
    runs without hitting a [BUG_ON], keeps every heap and list invariant, has
    exactly the specified effect on the abstract timer table, and never loses a
    wake-up. *)
Theorem timer_ops_refine slop this_cpu ops s :
  timers_inv ∅ s → settled s → armed slop s →
  ops_ok (λ c, is_Some (tm_cpus s !! c)) (ts_running (per_cpu s this_cpu)) ops (abs s) →
  ∃ s', run_ops this_cpu ops s = Ok s' ∧ timers_inv ∅ s' ∧ settled s' ∧ armed slop s' ∧
        abs s' = spec_ops ops (abs s).
Proof.
  intros Hinv Hset Har Hok.
  destruct (run_ops_refines slop this_cpu ops s Hinv Hset Hok) as (s' & -> & ? & ? & ? & Har' & _).
  exists s'. repeat split_and; auto. intros c. by apply Har'.
Qed.

Definition ex_boot : tstate := mk_tstate ∅ {[ 0 := boot_timers; 1 := boot_timers ]} [] ∅.

Lemma ex_boot_inv : timers_inv ∅ ex_boot ∧ settled ex_boot ∧ armed 50 ex_boot.
Proof.
  assert (Hn : ∀ t v c, ¬ has_status (tm_store ex_boot) t v c) by (intros t v c (x & Hx & _); done).
  assert (Hb : ∀ c ts, tm_cpus ex_boot !! c = Some ts → ts = boot_timers).
  { intros c ts. unfold ex_boot; simpl. rewrite lookup_insert_Some, lookup_singleton_Some. naive_solver. }
  repeat split_and; [split| |].
  - intros c ts ->%Hb. split; simpl; try (by constructor); try (by left).
    + apply dummy_heap_wf.
    + intros t. split; [intros (i & ? & _); simpl in *; lia|by intros ?%Hn].
    + intros t. split; [by intros ?%elem_of_nil|intros [?%Hn _]; done].
    + intros t. split; [by intros ?%elem_of_nil|by intros ?%Hn].
  - by intros t v c ?%Hn.
  - by intros t c ?%Hn.
  - intros c t [?%Hn|?%Hn]; done.
Qed.

Definition ex_ops : list timer_op :=
  [OpInit 1 7 8 0; OpInit 2 7 9 0; OpSet 1 500; OpSet 2 300; OpMigrate 1 1; OpStop 2; OpSet 1 600; OpKill 2].

Lemma timer_ops_refine_witness :
  ∃ s', run_ops 0 ex_ops ex_boot = Ok s' ∧ timers_inv ∅ s' ∧ settled s' ∧ armed 50 s' ∧
        abs s' = spec_ops ex_ops (abs ex_boot).
Proof.
  apply (timer_ops_refine 50 0 ex_ops ex_boot); [apply ex_boot_inv..|].
  simpl. unfold TIMER_CPU_status_killed.
  repeat split; try lia; try (by eexists); try (left; reflexivity); try (right; reflexivity); discriminate.
Defined.
