(* ===== verification/TimerSoftirq.v ===== *)
(** * The timer softirq (xen/common/timer.c, [timer_softirq_action])

    The softirq runs the callbacks of all due timers of its CPU, moves timers
    of the overflow list to the heap and programs the hardware timer. The
    callbacks are arbitrary code; [TimerCallbacks] states what the softirq
    relies on, and callbacks made of timer operations discharge it. The theorem
    is a liveness property: one run leaves no due timer behind, whatever the
    callbacks arm for later, and the next deadline is programmed. *)

From stdpp Require Import sorting.
From S2P Require Import Prelude TimerHeap Timer TimerInv TimerOps.
Local Open Scope xen_scope.

(** ** Due timers *)

(** The due timers of CPU [c] with their values up to the heap offset. *)
Definition due_timers (c now : Z) (s : tstate) : gmap positive timer :=
  filter (λ '(_, x), t_cpu x = c ∧ TIMER_STATUS_in_heap ≤ t_status x ≤ TIMER_STATUS_in_list ∧
                     t_expires x < now) (erase (tm_store s)).

Lemma due_spec c now s t x :
  due_timers c now s !! t = Some x ↔
    erase (tm_store s) !! t = Some x ∧ t_cpu x = c ∧
    TIMER_STATUS_in_heap ≤ t_status x ≤ TIMER_STATUS_in_list ∧ t_expires x < now.
Proof. unfold due_timers. by rewrite map_lookup_filter_Some. Qed.

Lemma active_erase st t c :
  active st t c ↔ ∃ x, erase st !! t = Some x ∧ t_cpu x = c ∧
    TIMER_STATUS_in_heap ≤ t_status x ≤ TIMER_STATUS_in_list.
Proof.
  unfold active. rewrite <- !(has_status_erase st). unfold has_status, TIMER_STATUS_in_heap, TIMER_STATUS_in_list.
  split.
  - intros [(x & ? & ? & ?)|(x & ? & ? & ?)]; exists x; repeat split; auto; lia.
  - intros (x & ? & ? & ?). assert (t_status x = 3 ∨ t_status x = 4) as [?|?] by lia; eauto 6.
Qed.

Lemma due_active c now s t :
  is_Some (due_timers c now s !! t) ↔ active (tm_store s) t c ∧ expires (tm_store s) t < now.
Proof.
  rewrite active_erase. rewrite <- (expires_erase (tm_store s)). unfold expires. split.
  - intros [x Hx]. apply due_spec in Hx as (Hx & ? & ? & ?). rewrite Hx. simpl. eauto 6.
  - intros [(x & Hx & ? & ?) He]. rewrite Hx in He. exists x. by apply due_spec.
Qed.

Lemma due_erase c now s s' :
  erase (tm_store s') = erase (tm_store s) → due_timers c now s' = due_timers c now s.
Proof. unfold due_timers. by intros ->. Qed.

(** A timer that stops being active is no longer due; nothing else changes. *)
Lemma due_moved c now c' t s s' :
  moved c' t TIMER_STATUS_inactive (tm_store s) (tm_store s') →
  due_timers c now s' = delete t (due_timers c now s).
Proof.
  intros [He _]. apply map_eq. intros u. apply option_eq. intros x.
  rewrite due_spec, lookup_delete_Some, due_spec, He, lookup_alter. case_decide; [subst|naive_solver].
  split; [|naive_solver]. intros (Hx & _ & Hs & _). exfalso.
  destruct (erase (tm_store s) !! u); simplify_eq/=.
  unfold TIMER_STATUS_inactive, TIMER_STATUS_in_heap in *. lia.
Qed.

(** ** Changes that do not concern the invariant *)

Lemma cpu_inv_running pend st c ts r : cpu_inv pend st c ts → cpu_inv pend st c (set_running r ts).
Proof. by intros [H0 H1 H2 H3 H4 H5 H6 H7]. Qed.

Lemma timers_inv_cpu pend s c ts' :
  timers_inv pend s → cpu_inv pend (tm_store s) c ts' →
  timers_inv pend (mk_tstate (tm_store s) (<[c := ts']> (tm_cpus s)) (tm_softirq s) (tm_deadline s)).
Proof.
  intros Hinv Hc. eapply inv_update; [done|done|done|]. intros t v c' Ht.
  destruct (ti_known _ _ Hinv _ _ _ Ht) as (? & ? & ?). auto.
Qed.

Lemma set_running_inv pend s c r :
  timers_inv pend s → is_Some (tm_cpus s !! c) → timers_inv pend (upd_cpu c (set_running r) s).
Proof.
  intros Hinv [ts Hts]. unfold upd_cpu. rewrite (per_cpu_at _ _ _ Hts). apply timers_inv_cpu; [done|].
  by apply cpu_inv_running, (ti_cpu _ _ Hinv).
Qed.

Lemma upd_cpu_cpus c f s c' : is_Some (tm_cpus s !! c') → is_Some (tm_cpus (upd_cpu c f s) !! c').
Proof. simpl. rewrite lookup_insert. case_decide; eauto. Qed.

(** The heap grows through [heap_limits] and keeps its timers. *)
Lemma grow_limit l : l ∈ heap_limits → l ≤ u16 (Z.shiftl (l + 1) 4 - 1) ∧ u16 (Z.shiftl (l + 1) 4 - 1) ∈ heap_limits.
Proof.
  unfold heap_limits. rewrite !elem_of_cons, elem_of_nil.
  intros [->|[->|[->|[->|[->|[]]]]]]; (split; [vm_compute; discriminate|]); vm_compute u16; tauto.
Qed.

Lemma grow_heap_spec s c alloc_ok :
  timers_inv ∅ s → is_Some (tm_cpus s !! c) →
  timers_inv ∅ (grow_heap c alloc_ok s) ∧ same_aux s (grow_heap c alloc_ok s) ∧
  tm_store (grow_heap c alloc_ok s) = tm_store s.
Proof.
  intros Hinv [ts Hts]. unfold grow_heap. destruct (ts_list (per_cpu s c)); [done|].
  destruct alloc_ok; [|done]. unfold upd_cpu. rewrite (per_cpu_at _ _ _ Hts).
  split; [|split; [by eapply same_aux_upd|done]]. apply timers_inv_cpu; [done|].
  destruct (ti_cpu _ _ Hinv _ _ Hts) as [H0 [W1 W2 W3 W4] H2 H3 H4 H5 H6 H7].
  destruct (grow_limit _ H0) as [Hle Hin].
  split; simpl; auto. split; simpl; auto; [lia|]. apply Z.mod_pos_bound. lia.
Qed.

(** ** What the softirq relies on *)

(** What a callback may do, when it runs on CPU [c] in the softirq that
    started at [now]: timer operations keep the invariant and the other CPUs
    armed; no timer of [c] becomes due, and only those it may cancel stop
    being so. *)
Record callback_step (slop c now : Z) (cancels : positive → Prop) (s s' : tstate) : Prop := {
  cs_inv : timers_inv ∅ s';
  cs_settled : settled s';
  cs_cpus c' : is_Some (tm_cpus s !! c') → is_Some (tm_cpus s' !! c');
  cs_armed c' : c' ≠ c → armed_on slop c' s → armed_on slop c' s';
  cs_due : due_timers c now s' ⊆ due_timers c now s;
  cs_kept t x : due_timers c now s !! t = Some x → due_timers c now s' !! t = Some x ∨ cancels t;
}.

Class TimerCallbacks (callback : Z → Z → tstate → outcome tstate) (slop c now : Z)
    (cancels : Z → Z → positive → Prop) : Prop :=
  callback_returns fn data s :
    timers_inv ∅ s → settled s → is_Some (tm_cpus s !! c) →
    ∃ s', callback fn data s = Ok s' ∧ callback_step slop c now (cancels fn data) s s'.

(** ** Progress of the loops *)

Section progress.
Context (callback : Z → Z → tstate → outcome tstate) (slop c now : Z).
Context (cancels : Z → Z → positive → Prop).
Context `{!TimerCallbacks callback slop c now cancels}.

Abbreviation due := (due_timers c now).

(** From [s] to [s'] the timers [ran] were executed. *)
Record advanced (ran : list positive) (s s' : tstate) : Prop := {
  ad_inv : timers_inv ∅ s';
  ad_settled : settled s';
  ad_cpus c' : is_Some (tm_cpus s !! c') → is_Some (tm_cpus s' !! c');
  ad_armed c' : c' ≠ c → armed_on slop c' s → armed_on slop c' s';
  ad_due : due s' ⊆ due s;
  ad_nodup : NoDup ran;
  ad_ran t : t ∈ ran → is_Some (due s !! t) ∧ due s' !! t = None;
  ad_gone t x : due s !! t = Some x →
    due s' !! t = Some x ∨ t ∈ ran ∨
    ∃ u y, u ∈ ran ∧ due s !! u = Some y ∧ cancels (t_function y) (t_data y) t;
}.

Lemma advanced_refl s : timers_inv ∅ s → settled s → advanced [] s s.
Proof. intros. split; auto; [constructor|set_solver]. Qed.

Lemma advanced_trans r1 r2 s1 s2 s3 :
  advanced r1 s1 s2 → advanced r2 s2 s3 → advanced (r1 ++ r2) s1 s3.
Proof.
  intros [A1 A2 A3 A4 A5 A6 A7 A8] [B1 B2 B3 B4 B5 B6 B7 B8]. split; auto.
  - by transitivity (due s2).
  - apply NoDup_app. split; [done|]. split; [|done]. intros t Ht Ht2.
    destruct (A7 t Ht) as [_ E]. destruct (B7 t Ht2) as [[x Hx] _]. congruence.
  - intros t [Ht|Ht]%elem_of_app.
    + destruct (A7 t Ht) as [? E]. split; [done|]. by eapply lookup_weaken_None.
    + destruct (B7 t Ht) as [[x Hx] E]. split; [|done]. exists x. by eapply lookup_weaken.
  - intros t x Hx. destruct (A8 t x Hx) as [H2|[H2|(u & y & ? & ? & ?)]].
    + destruct (B8 t x H2) as [?|[?|(u & y & Hu & Hy & ?)]]; [by left|right; left; set_solver|].
      right. right. exists u, y. split; [set_solver|]. split; [by eapply lookup_weaken|done].
    + right. left. set_solver.
    + right. right. exists u, y. split; [set_solver|done].
Qed.

(** Marking a timer inactive twice is marking it once. *)
Lemma dispatch_status t v s :
  inactive_add c t (upd_timer t (set_status TIMER_STATUS_inactive) (upd_timer t (set_status v) s)) =
  inactive_add c t (upd_timer t (set_status TIMER_STATUS_inactive) s).
Proof.
  unfold upd_timer. simpl. rewrite alter_alter. done.
Qed.

(** One execution: [s0] is [s] with the due timer [t] taken off its heap or
    list. *)
Lemma execute_timer_spec s s0 t x rc :
  timers_inv ∅ s → settled s → due s !! t = Some x →
  remove_entry t s = Ok (rc, upd_timer t (set_status TIMER_STATUS_invalid) s0) →
  ∃ s', execute_timer callback c t s0 = Ok s' ∧ advanced [t] s s'.
Proof.
  intros Hinv Hset Hdue Hrem.
  assert (active (tm_store s) t c) as Hact by (apply (due_active c now); eauto).
  assert (∃ v, has_status (tm_store s) t v c ∧ (v = TIMER_STATUS_in_heap ∨ v = TIMER_STATUS_in_list))
    as (v & Hst & Hv) by (destruct Hact; eauto).
  destruct (remove_entry_spec ∅ s t c v) as (rc' & s1 & Hr & Hinv1 & Ha1 & Hm1); [done|done|set_solver|done|].
  rewrite Hrem in Hr. injection Hr as <- <-.
  pose proof (moved_at _ _ _ _ _ _ Hst Hm1) as Ht1.
  destruct (park _ _ _ _ Hinv1 Ht1 ltac:(set_solver)) as (Hinv2 & Ha2 & Hm2). rewrite dispatch_status in *.
  unfold execute_timer. set (s2 := inactive_add c t _) in *.
  pose proof (moved_trans _ _ _ _ _ _ _ _ Hst Hm1 Hm2) as Hm.
  pose proof (same_aux_trans _ _ _ Ha1 Ha2) as Ha.
  assert (settled s2) as Hset2 by by eapply settled_moved.
  destruct (ti_known _ _ Hinv _ _ _ Hst) as (_ & _ & Hcpu).
  assert (is_Some (tm_cpus s2 !! c)) as Hc2 by (apply Ha, Hcpu; by destruct Hv as [->| ->]).
  set (s2r := upd_cpu c (set_running (Some t)) s2).
  assert (Hf : ∀ (g : timer → Z) d, (∀ o y, g (set_heap_offset o y) = g y) →
    (∀ w y, g (set_status w y) = g y) → from_option g d (tm_store s0 !! t) = g x).
  { intros g d Hg1 Hg2. apply due_spec in Hdue as [Hx _]. pose proof (mv_erase _ _ _ _ _ Hm1) as He.
    assert (Ht : erase (alter (set_status TIMER_STATUS_invalid) t (tm_store s0)) !! t =
                 Some (set_status TIMER_STATUS_invalid x)).
    { etrans; [apply (f_equal (lookup t) He)|]. by rewrite lookup_alter_eq, Hx. }
    rewrite lookup_erase, lookup_alter_eq in Ht. destruct (tm_store s0 !! t) as [y|]; simplify_eq/=.
    apply (f_equal g) in Ht. by rewrite Hg1, !Hg2 in Ht. }
  rewrite !Hf by done.
  destruct (callback_returns (t_function x) (t_data x) s2r) as (s3 & -> & [C1 C2 C3 C4 C5 C6]);
    [by apply set_running_inv|done|by apply upd_cpu_cpus|].
  eexists. split; [done|].
  assert (due s2r = delete t (due s)) as Hd2 by (by rewrite (due_erase _ _ s2), (due_moved _ _ _ _ _ _ Hm)).
  rewrite Hd2 in *. split.
  - apply set_running_inv; [done|]. by apply C3, upd_cpu_cpus.
  - exact C2.
  - intros c' Hc'. by apply upd_cpu_cpus, C3, upd_cpu_cpus, Ha.
  - intros c' Hne Har. apply (C4 c' Hne). apply (armed_deactivate slop c t v s s2); auto.
    by apply same_aux_le.
  - etransitivity; [exact C5|apply delete_subseteq].
  - apply NoDup_singleton.
  - intros u ->%list_elem_of_singleton. split; [by eexists|].
    eapply lookup_weaken_None; [apply lookup_delete_eq|exact C5].
  - intros u y Hu. destruct (decide (u = t)) as [->|Hne]; [right; left; by left|].
    destruct (C6 u y) as [?|?]; [by rewrite lookup_delete_ne|by left|].
    right. right. exists t, x. split; [by left|done].
Qed.

(** An execution uses up one due timer. *)
Lemma advanced_size t s s' : advanced [t] s s' → (size (due s') < size (due s))%nat.
Proof.
  intros [_ _ _ _ Hsub _ Hran _]. destruct (Hran t ltac:(by left)) as [[x Hx] Hn].
  apply map_subset_size. split; [done|]. intros Hsup.
  assert (due s' !! t = Some x) by by eapply lookup_weaken. congruence.
Qed.

(** The heap loop executes every due timer of the heap. *)
Lemma run_heap_timers_spec fuel s :
  timers_inv ∅ s → settled s → is_Some (tm_cpus s !! c) → (size (due s) < fuel)%nat →
  ∃ ran s', run_heap_timers callback fuel c now s = Ok (ran, s') ∧ advanced ran s s' ∧
    (∀ t x, due s' !! t = Some x → t_status x ≠ TIMER_STATUS_in_heap).
Proof.
  revert s. induction fuel as [|fuel IH]; intros s Hinv Hset [ts Hts] Hfuel; [lia|]. cbn [run_heap_timers].
  pose proof (ti_cpu _ _ Hinv _ _ Hts) as [_ Hw Hin _ _ _ _ _]. rewrite (per_cpu_at _ _ _ Hts).
  set (t := get (hp_arr (ts_heap ts)) 1).
  destruct (negb (hp_size (ts_heap ts) =? 0) && (expires (tm_store s) t <? now)) eqn:Hb.
  - b2p. assert (heap_has (ts_heap ts) t) as Hh by by eapply heap_top_has.
    assert (has_status (tm_store s) t TIMER_STATUS_in_heap c) as Hst by by apply Hin.
    assert (is_Some (due s !! t)) as [x Hx] by (apply due_active; split; [by left|done]).
    destruct (remove_from_heap _ _ t) as [[rc h'] st] eqn:Hrem.
    destruct (execute_timer_spec s (put_store st (upd_cpu c (set_heap h') s)) t x rc)
      as (s1 & -> & Hadv); [done|done|done| |].
    { unfold remove_entry. destruct Hst as (y & -> & -> & ->). rewrite (per_cpu_at _ _ _ Hts). simpl.
      by rewrite Hrem. }
    pose proof (advanced_size _ _ _ Hadv) as Hsz.
    destruct (IH s1) as (ran & s' & Hr & Hadv' & Hout); [apply Hadv|apply Hadv|apply Hadv; by eexists|lia|].
    simpl. rewrite Hr. simpl. exists (t :: ran), s'. split; [done|]. split; [|done].
    exact (advanced_trans _ _ _ _ _ Hadv Hadv').
  - exists [], s. split; [done|]. split; [by apply advanced_refl|]. intros u x Hu Hux.
    assert (is_Some (due s !! u)) as [Hau Heu]%due_active by eauto. apply due_spec in Hu as (Hu & Hc & _).
    assert (heap_has (ts_heap ts) u) as Hh.
    { apply Hin, has_status_erase. by exists x. }
    pose proof (heap_top_min _ _ _ Hw Hh) as Hmin. apply andb_false_iff in Hb as [Hb|Hb]; b2p.
    + destruct Hh as (i & ? & _). lia.
    + unfold t in Hb. lia.
Qed.

(** The list loop then executes the due timers of the overflow list. *)
Lemma run_list_timers_spec fuel s :
  timers_inv ∅ s → settled s → is_Some (tm_cpus s !! c) → (size (due s) < fuel)%nat →
  (∀ t x, due s !! t = Some x → t_status x ≠ TIMER_STATUS_in_heap) →
  ∃ ran s', run_list_timers callback fuel c now s = Ok (ran, s') ∧ advanced ran s s' ∧ due s' = ∅.
Proof.
  revert s. induction fuel as [|fuel IH]; intros s Hinv Hset [ts Hts] Hfuel Hnh; [lia|]. cbn [run_list_timers].
  pose proof (ti_cpu _ _ Hinv _ _ Hts) as [_ _ _ Hnd Hsort Hin _ _]. rewrite (per_cpu_at _ _ _ Hts).
  assert (Hlist : ∀ u x, due s !! u = Some x → u ∈ ts_list ts).
  { intros u x Hu. specialize (Hnh u x Hu). apply due_spec in Hu as (Hu & Hc & Hs & _).
    apply Hin. split; [|set_solver]. apply has_status_erase. exists x. repeat split; auto.
    unfold TIMER_STATUS_in_heap, TIMER_STATUS_in_list in *. lia. }
  destruct (ts_list ts) as [|t l] eqn:Hl.
  { exists [], s. split; [done|]. split; [by apply advanced_refl|]. apply map_empty. intros u.
    destruct (due s !! u) eqn:Hu; [|done]. by apply Hlist, elem_of_nil in Hu. }
  destruct (Z.ltb_spec (expires (tm_store s) t) now) as [Hlt|Hge].
  - assert (has_status (tm_store s) t TIMER_STATUS_in_list c) as Hst by (apply Hin; by left).
    assert (is_Some (due s !! t)) as [x Hx] by (apply due_active; split; [by right|done]).
    destruct (execute_timer_spec s (upd_cpu c (set_list l) s) t x true)
      as (s1 & -> & Hadv); [done|done|done| |].
    { unfold remove_entry. destruct Hst as (y & -> & -> & ->). rewrite (per_cpu_at _ _ _ Hts), Hl. simpl.
      by rewrite bool_decide_eq_true_2. }
    pose proof (advanced_size _ _ _ Hadv) as Hsz.
    destruct (IH s1) as (ran & s' & Hr & Hadv' & Hout); [apply Hadv|apply Hadv|apply Hadv; by eexists|lia| |].
    { intros u y Hu. apply (Hnh u). eapply lookup_weaken; [exact Hu|apply Hadv]. }
    simpl. rewrite Hr. simpl. exists (t :: ran), s'. split; [done|]. split; [|done].
    exact (advanced_trans _ _ _ _ _ Hadv Hadv').
  - exists [], s. split; [done|]. split; [by apply advanced_refl|]. apply map_empty. intros u.
    destruct (due s !! u) as [x|] eqn:Hu; [|done]. exfalso.
    assert (is_Some (due s !! u)) as [_ Heu]%due_active by eauto. apply Hlist in Hu.
    apply StronglySorted_inv in Hsort as [_ Hf]. rewrite Forall_forall in Hf.
    apply elem_of_cons in Hu as [->|Hu]; [lia|]. specialize (Hf u Hu). unfold by_expiry in Hf. lia.
Qed.
End progress.

(** ** Moving the overflow list to the heap *)

Lemma active_abs pend s t c :
  timers_inv pend s →
  active (tm_store s) t c ↔ ∃ a, abs s !! t = Some a ∧ a_state a = Active ∧ a_cpu a = c.
Proof.
  intros Hinv. rewrite active_erase, abs_erase.
  unfold TIMER_STATUS_in_heap, TIMER_STATUS_in_list. split.
  - intros (x & Hx & <- & Hs). exists (abs_timer x). rewrite lookup_fmap, Hx. repeat split; auto. simpl.
    unfold abs_status, TIMER_STATUS_inactive, TIMER_STATUS_killed, TIMER_STATUS_invalid. case_Z; lia || done.
  - intros (a & Ha & Hs & <-). rewrite lookup_fmap in Ha. apply fmap_Some in Ha as (x & Hx & ->).
    exists x. repeat split; auto; simpl in Hs; revert Hs;
      assert (has_status (tm_store s) t (t_status x) (t_cpu x)) as Hst by (apply has_status_erase; by exists x);
      destruct (ti_known _ _ Hinv _ _ _ Hst) as (? & _);
      unfold abs_status, TIMER_STATUS_inactive, TIMER_STATUS_killed, TIMER_STATUS_invalid; case_Z; done || lia.
Qed.

Lemma expires_abs s t : expires (tm_store s) t = from_option a_expires 0 (abs s !! t).
Proof. unfold expires, abs. rewrite lookup_fmap. by destruct (tm_store s !! t). Qed.

(** A timer of [pend] is taken out of its status [in_list]. *)
Lemma unpend pend s t c :
  timers_inv pend s → t ∈ pend → has_status (tm_store s) t TIMER_STATUS_in_list c →
  timers_inv (pend ∖ {[t]}) (upd_timer t (set_status TIMER_STATUS_invalid) s).
Proof.
  intros Hinv Hp Ht. pose proof Ht as (x & Hx & Hxs & Hxc).
  assert (Hst : ∀ u w c', has_status (alter (set_status TIMER_STATUS_invalid) t (tm_store s)) u w c' ↔
    if decide (u = t) then w = TIMER_STATUS_invalid ∧ c' = c else has_status (tm_store s) u w c').
  { intros u w c'. case_decide; [subst|by apply has_status_alter].
    by rewrite (has_status_update _ _ _ _ _ _ Hx). }
  split; simpl.
  - intros c' ts Hts. destruct (ti_cpu _ _ Hinv _ _ Hts) as [H0 H1 H2 H3 H4 H5 H6 H7].
    assert (Hno : ∀ u w, w ≠ TIMER_STATUS_invalid → w ≠ TIMER_STATUS_in_list →
      has_status (alter (set_status TIMER_STATUS_invalid) t (tm_store s)) u w c' ↔ has_status (tm_store s) u w c').
    { intros u w ? ?. rewrite Hst. case_decide; [subst|done]. split; [by intros [? _]|].
      intros Hu. by destruct (has_status_fun _ _ _ _ _ _ Ht Hu). }
    split; auto.
    + eapply heap_wf_frame, H1. intros u Hu. apply lookup_alter_ne. intros <-.
      apply H2 in Hu. by destruct (has_status_fun _ _ _ _ _ _ Ht Hu).
    + intros u. by rewrite Hno.
    + eapply StronglySorted_ext, H4. unfold by_expiry. intros. by rewrite !expires_alter.
    + intros u. rewrite Hst, H5. case_decide; [subst; split; [set_solver|by intros [[? _] _]]|set_solver].
    + intros u. by rewrite Hno.
  - intros u v c'. rewrite Hst. case_decide; [subst|apply (ti_known _ _ Hinv)].
    intros [-> ->]. destruct (ti_known _ _ Hinv _ _ _ Ht) as (_ & Hk & Hd).
    split; [done|]. split; [|auto]. split; [done|]. intros Hc. apply Hk in Hc. done.
Qed.

Lemma set_list_nil s c ts :
  timers_inv ∅ s → tm_cpus s !! c = Some ts →
  timers_inv (list_to_set (ts_list ts)) (upd_cpu c (set_list []) s).
Proof.
  intros Hinv Hts. unfold upd_cpu. rewrite (per_cpu_at _ _ _ Hts).
  pose proof (ti_cpu _ _ Hinv _ _ Hts) as [_ _ _ _ _ L5 _ _]. split; simpl.
  - intros c' ts'. rewrite lookup_insert_Some. intros [[<- <-]|[Hne Hts']].
    + destruct (ti_cpu _ _ Hinv _ _ Hts) as [H0 H1 H2 H3 H4 H5 H6 H7].
      split; simpl; auto; [constructor..|]. intros u. rewrite elem_of_nil, elem_of_list_to_set, H5. set_solver.
    + destruct (ti_cpu _ _ Hinv _ _ Hts') as [H0 H1 H2 H3 H4 H5 H6 H7].
      split; auto. intros u. rewrite H5, elem_of_list_to_set, L5. split; [|set_solver].
      intros [Hu _]. split; [done|]. intros [Hu' _]. by destruct (has_status_fun _ _ _ _ _ _ Hu Hu').
  - intros t v c' Ht. destruct (ti_known _ _ Hinv _ _ _ Ht) as (? & ? & Hd). split; [done|]. split; [done|].
    intros Hv. rewrite lookup_insert. case_decide; eauto.
Qed.

(** Re-adding the timers changes the structures and not the timers. *)
Lemma move_to_heap_spec c l s :
  timers_inv (list_to_set l) s → settled s → NoDup l →
  (∀ t, t ∈ l → has_status (tm_store s) t TIMER_STATUS_in_list c) →
  ∃ s', move_to_heap l s = Ok s' ∧ timers_inv ∅ s' ∧ settled s' ∧ same_aux s s' ∧ abs s' = abs s.
Proof.
  revert s. induction l as [|t l IH]; intros s Hinv Hset Hnd Hl; cbn [move_to_heap].
  { exists s. by repeat split_and. }
  apply NoDup_cons in Hnd as [Htl Hnd]. pose proof (Hl t ltac:(by left)) as Ht. pose proof Ht as (x & Hx & Hxs & Hxc).
  rewrite list_to_set_cons in Hinv.
  assert (t ∈ ({[t]} ∪ list_to_set l : gset positive)) as Hp by set_solver.
  pose proof (unpend _ _ _ _ Hinv Hp Ht) as Hinv1.
  replace (({[t]} ∪ list_to_set l) ∖ {[t]} : gset positive) with (list_to_set l : gset positive) in Hinv1 by set_solver.
  set (s1 := upd_timer t (set_status TIMER_STATUS_invalid) s) in *.
  assert (has_status (tm_store s1) t TIMER_STATUS_invalid c) as Ht1.
  { unfold s1. simpl. by rewrite (has_status_update _ _ _ _ _ _ Hx). }
  destruct (add_entry_spec (list_to_set l) s1 t c Hinv1 Ht1 ltac:(set_solver))
    as (rc & s2 & v & -> & Hinv2 & Ha2 & Hv & Hm2 & _). cbn [mbind outcome_bind].
  assert (Hoth : ∀ u w c', u ≠ t → has_status (tm_store s2) u w c' ↔ has_status (tm_store s) u w c').
  { intros u w c' Hu. rewrite (moved_has_status _ _ _ _ _ _ _ _ _ Hm2 Ht1), decide_False by done.
    by apply has_status_alter. }
  destruct (IH s2) as (s' & -> & ? & ? & Ha & Habs); [done| |done| |].
  { intros u c'. destruct (decide (u = t)) as [->|Hu]; [|by rewrite Hoth].
    rewrite (moved_has_status _ _ _ _ _ _ _ _ _ Hm2 Ht1), decide_True by done.
    intros [E _]. by destruct Hv as [->| ->]. }
  { intros u Hu. apply Hoth; [by intros ->|]. apply Hl. by right. }
  exists s'. split; [done|]. split; [done|]. split; [done|]. split.
  { eapply same_aux_trans; [|exact Ha]. eapply same_aux_trans; [|exact Ha2]. by split. }
  rewrite Habs, (moved_abs _ _ _ _ _ Hm2). unfold s1. rewrite (abs_upd t _ (a_set_state Invalid)) by done.
  rewrite alter_alter. eapply alter_same; [by apply abs_lookup|].
  destruct x as [e o f d cp st]. simpl in *. subst st. unfold abs_timer, a_set_state. simpl.
  by destruct Hv as [->| ->].
Qed.

(** The deadline is the earliest expiry of the CPU's active timers. *)
Lemma next_deadline_le s c t :
  timers_inv ∅ s → active (tm_store s) t c → next_deadline c s ≤ expires (tm_store s) t.
Proof.
  intros Hinv Hact. assert (is_Some (tm_cpus s !! c)) as [ts Hts].
  { destruct Hact as [H|H]; by apply (ti_known _ _ Hinv _ _ _ H). }
  pose proof (ti_cpu _ _ Hinv _ _ Hts) as [_ Hw Hin _ Hsort Hl _ _].
  unfold next_deadline. rewrite (per_cpu_at _ _ _ Hts).
  set (d := if _ =? 0 then _ else _). destruct Hact as [Hst|Hst].
  - apply Hin in Hst. assert (d ≤ expires (tm_store s) t).
    { unfold d. pose proof (heap_top_min _ _ _ Hw Hst). destruct Hst as (i & ? & _).
      destruct (Z.eqb_spec (hp_size (ts_heap ts)) 0); [lia|done]. }
    destruct (ts_list ts); case_Z; lia.
  - assert (t ∈ ts_list ts) as Ht by (apply Hl; split; [done|set_solver]).
    destruct (ts_list ts) as [|u l]; [by apply elem_of_nil in Ht|].
    assert (expires (tm_store s) u ≤ expires (tm_store s) t).
    { apply StronglySorted_inv in Hsort as [_ Hf]. rewrite Forall_forall in Hf.
      apply elem_of_cons in Ht as [->|Ht]; [lia|by apply Hf]. }
    case_Z; lia.
Qed.

Lemma next_deadline_cases s c :
  timers_inv ∅ s → is_Some (tm_cpus s !! c) →
  next_deadline c s = STIME_MAX ∨
  ∃ t, active (tm_store s) t c ∧ next_deadline c s = expires (tm_store s) t.
Proof.
  intros Hinv [ts Hts]. pose proof (ti_cpu _ _ Hinv _ _ Hts) as [_ Hw Hin _ _ Hl _ _].
  unfold next_deadline. rewrite (per_cpu_at _ _ _ Hts).
  set (d := if _ =? 0 then _ else _).
  assert (d = STIME_MAX ∨ ∃ t, active (tm_store s) t c ∧ d = expires (tm_store s) t) as Hd.
  { unfold d. destruct (Z.eqb_spec (hp_size (ts_heap ts)) 0); [by left|right].
    eexists. split; [|done]. left. apply Hin. by eapply heap_top_has. }
  destruct (ts_list ts) as [|u l]; [done|]. case_Z; [|done]. right. exists u. split; [|done].
  right. apply Hl. by left.
Qed.

(** ** The softirq *)

Lemma armed_abs slop c s s' :
  timers_inv ∅ s → timers_inv ∅ s' → same_aux s s' → abs s' = abs s →
  armed_on slop c s → armed_on slop c s'.
Proof.
  intros Hinv Hinv' [A1 A2 _ _] Habs Har t. rewrite (active_abs _ _ _ _ Hinv'), Habs.
  rewrite <- (active_abs _ _ _ _ Hinv), A1, A2, !expires_abs, Habs, <- expires_abs. apply Har.
Qed.

Lemma due_abs c now s s' :
  timers_inv ∅ s → timers_inv ∅ s' → abs s' = abs s → due_timers c now s = ∅ → due_timers c now s' = ∅.
Proof.
  intros Hinv Hinv' Habs He. apply map_empty. intros t. destruct (due_timers c now s' !! t) eqn:Ht; [|done].
  assert (is_Some (due_timers c now s' !! t)) as Hd by eauto. apply due_active in Hd.
  rewrite (active_abs _ _ _ _ Hinv'), expires_abs, Habs, <- (active_abs _ _ _ _ Hinv), <- expires_abs in Hd.
  apply due_active in Hd as [x Hx]. by rewrite He in Hx.
Qed.

(** The value written to [timer_deadline] covers every timer of the CPU. *)
Lemma deadline_covers slop now c s t :
  timers_inv ∅ s → is_Some (tm_cpus s !! c) → due_timers c now s = ∅ → 0 < now → 0 ≤ slop →
  active (tm_store s) t c → expires (tm_store s) t < STIME_MAX →
  expires (tm_store s) t + slop ≤ STIME_MAX →
  let d := if next_deadline c s =? STIME_MAX then 0 else to_s64 (u64 (next_deadline c s + slop)) in
  d ≠ 0 ∧ now ≤ d ≤ expires (tm_store s) t + slop.
Proof.
  unfold STIME_MAX. intros Hinv Hc He Hnow Hslop Hact H1 H2.
  pose proof (next_deadline_le _ _ _ Hinv Hact) as Hle.
  destruct (next_deadline_cases _ _ Hinv Hc) as [E|(u & Hu & E)]; [unfold STIME_MAX in E; lia|].
  assert (now ≤ expires (tm_store s) u).
  { destruct (decide (now ≤ expires (tm_store s) u)) as [|Hn]; [done|].
    assert (is_Some (due_timers c now s !! u)) as [x Hx] by (apply due_active; split; [done|lia]).
    by rewrite He in Hx. }
  rewrite u64_small by lia. unfold to_s64. case_Z; lia.
Qed.

(** The two loops and the move of the overflow list. *)
Lemma softirq_body callback slop c now cancels fuel alloc_ok s :
  TimerCallbacks callback slop c now cancels →
  timers_inv ∅ s → settled s → is_Some (tm_cpus s !! c) → (size (due_timers c now s) < fuel)%nat →
  ∃ r1 s2 r2 s3 s4,
    run_heap_timers callback fuel c now (grow_heap c alloc_ok s) = Ok (r1, s2) ∧
    run_list_timers callback fuel c now s2 = Ok (r2, s3) ∧
    move_to_heap (ts_list (per_cpu s3 c)) (upd_cpu c (set_list []) s3) = Ok s4 ∧
    advanced slop c now cancels (r1 ++ r2) s s4 ∧ due_timers c now s4 = ∅.
Proof.
  intros Hcb Hinv Hset Hc Hfuel.
  destruct (grow_heap_spec s c alloc_ok Hinv Hc) as (Hinv1 & Ha1 & Hst1).
  set (s1 := grow_heap c alloc_ok s) in *.
  assert (due_timers c now s1 = due_timers c now s) as Hd1 by (apply due_erase; by rewrite Hst1).
  assert (settled s1) as Hset1 by (unfold settled; by rewrite Hst1).
  destruct (run_heap_timers_spec callback slop c now cancels fuel s1) as (r1 & s2 & Hr1 & Hv1 & Hnh);
    [done|done|by apply Ha1|by rewrite Hd1|].
  assert (size (due_timers c now s2) < fuel)%nat as Hf2.
  { eapply Nat.le_lt_trans; [apply map_subseteq_size, Hv1|]. by rewrite Hd1. }
  destruct (run_list_timers_spec callback slop c now cancels fuel s2) as (r2 & s3 & Hr2 & Hv2 & Hnone);
    [apply Hv1|apply Hv1|by apply Hv1, Ha1|done|done|].
  assert (advanced slop c now cancels (r1 ++ r2) s1 s3) as Hv by by eapply advanced_trans.
  destruct Hv as [V1 V2 V3 V4 V5 V6 V7 V8]. rewrite Hd1 in *.
  destruct (V3 c) as [ts Hts]; [by apply Ha1|]. pose proof (ti_cpu _ _ V1 _ _ Hts) as [_ _ _ Hnd _ Hl _ _].
  destruct (move_to_heap_spec c (ts_list ts) (upd_cpu c (set_list []) s3)) as (s4 & Hr4 & Hinv4 & Hset4 & Ha4 & Habs4);
    [by apply set_list_nil|done|done|by intros t [? _]%Hl|].
  assert (same_aux s3 s4) as Ha34.
  { eapply same_aux_trans; [|exact Ha4]. unfold upd_cpu. rewrite (per_cpu_at _ _ _ Hts). by eapply same_aux_upd. }
  change (abs (upd_cpu c (set_list []) s3)) with (abs s3) in Habs4.
  pose proof (due_abs _ _ _ _ V1 Hinv4 Habs4 Hnone) as Hnone4.
  exists r1, s2, r2, s3, s4. rewrite (per_cpu_at _ _ _ Hts). repeat split_and; auto. rewrite Hnone in *.
  split; rewrite ?Hnone4; auto.
  - intros c' Hc'. by apply Ha34, V3, Ha1.
  - intros c' Hne Har. eapply armed_abs; [exact V1|done..|]. apply V4; [done|].
    intros t. rewrite Hst1, (sa_softirq _ _ Ha1), (sa_deadline _ _ Ha1). apply Har.
Qed.

(** C15: one run of the timer softirq, with callbacks that arm no timer of the
    CPU in the past, returns; it executes every timer of the CPU that was due,
    once, unless a callback it ran may cancel the timer, and no other; no due
    timer is left, the hardware timer is programmed in time for every remaining
    timer of the CPU or the softirq is raised again, and the wake-ups of the
    other CPUs are kept. *)
Theorem timer_softirq_action_correct callback slop c now cancels fuel alloc_ok reprogram_timer s :
  TimerCallbacks callback slop c now cancels →
  timers_inv ∅ s → settled s → is_Some (tm_cpus s !! c) → 0 < now → 0 ≤ slop →
  (size (due_timers c now s) < fuel)%nat →
  ∃ ran s',
    timer_softirq_action callback fuel alloc_ok slop now reprogram_timer c s = Ok (ran, s') ∧
    timers_inv ∅ s' ∧ settled s' ∧ NoDup ran ∧
    (∀ t, t ∈ ran → is_Some (due_timers c now s !! t)) ∧
    (∀ t, is_Some (due_timers c now s !! t) → t ∈ ran ∨
       ∃ u y, u ∈ ran ∧ due_timers c now s !! u = Some y ∧ cancels (t_function y) (t_data y) t) ∧
    due_timers c now s' = ∅ ∧
    (∀ t, active (tm_store s') t c → expires (tm_store s') t < STIME_MAX →
       expires (tm_store s') t + slop ≤ STIME_MAX →
       ∃ d, tm_deadline s' !! c = Some d ∧ d ≠ 0 ∧ now ≤ d ≤ expires (tm_store s') t + slop ∧
            (reprogram_timer d = false → c ∈ tm_softirq s')) ∧
    (∀ c', c' ≠ c → armed_on slop c' s → armed_on slop c' s').
Proof.
  intros Hcb Hinv Hset Hc Hnow Hslop Hfuel.
  destruct (softirq_body callback slop c now cancels fuel alloc_ok s)
    as (r1 & s2 & r2 & s3 & s4 & E1 & E2 & E3 & [V1 V2 V3 V4 V5 V6 V7 V8] & Hnone); [done..|].
  unfold timer_softirq_action. rewrite E1. cbn [mbind outcome_bind]. rewrite E2. cbn [mbind outcome_bind].
  rewrite E3. cbn [mbind outcome_bind]. set (d := if _ =? STIME_MAX then _ else _).
  set (s5 := mk_tstate (tm_store s4) _ _ _). set (s6 := if reprogram_timer d then _ else _).
  assert (tm_store s6 = tm_store s4 ∧ tm_cpus s6 = tm_cpus s4 ∧ tm_softirq s4 ⊆ tm_softirq s6 ∧
          tm_deadline s6 = <[c := d]> (tm_deadline s4) ∧ (reprogram_timer d = false → c ∈ tm_softirq s6))
    as (H1 & H2 & H3 & H4 & H5).
  { unfold s6. destruct (reprogram_timer d); simpl; repeat split_and; auto; set_solver. }
  eexists _, s6. split; [done|]. rewrite !H1, H4. repeat split_and; auto.
  - by apply (timers_inv_ext _ s4).
  - unfold settled. by rewrite H1.
  - intros t Ht. by apply V7.
  - intros t [x Hx]. destruct (V8 t x Hx) as [Hn|?]; [by rewrite Hnone in Hn|done].
  - rewrite (due_erase c now s4); [done|by rewrite H1].
  - intros t Hact Hm1 Hm2. destruct (deadline_covers slop now c s4 t) as [? ?]; auto.
    exists d. by rewrite lookup_insert_eq.
  - intros c' Hne Har t. rewrite H1, H4, lookup_insert_ne by done. intros Hact.
    destruct (V4 c' Hne Har t Hact); [left; by apply H3|by right].
Qed.

(** ** Callbacks made of timer operations *)

(** The stores agree, up to heap offsets, on all timers but [t]. *)
Definition only (t : positive) (s s' : tstate) : Prop :=
  ∀ u, u ≠ t → erase (tm_store s') !! u = erase (tm_store s) !! u.

Lemma only_trans t s1 s2 s3 : only t s1 s2 → only t s2 s3 → only t s1 s3.
Proof. intros H1 H2 u Hu. rewrite H2, H1; done. Qed.

Lemma only_alter t f s s' : tm_store s' = alter f t (tm_store s) → only t s s'.
Proof. intros H u Hu. by rewrite !lookup_erase, H, lookup_alter_ne. Qed.

Lemma only_store t s s' : tm_store s' = tm_store s → only t s s'.
Proof. intros H u Hu. by rewrite H. Qed.

Lemma erase_offset o t st : erase (alter (set_heap_offset o) t st) = erase st.
Proof.
  apply map_eq. intros u. rewrite !lookup_erase, lookup_alter. case_decide; [subst|done].
  by destruct (st !! u).
Qed.

Lemma down_loop_erase fuel sz t a st pos : erase (down_loop fuel sz t a st pos).1.2 = erase st.
Proof.
  revert a st pos. induction fuel as [|fuel IH]; intros a st pos; cbn [down_loop]; [done|].
  repeat case_match; try done; by rewrite IH, erase_offset.
Qed.

Lemma up_loop_erase fuel t a st pos : erase (up_loop fuel t a st pos).1.2 = erase st.
Proof.
  revert a st pos. induction fuel as [|fuel IH]; intros a st pos; cbn [up_loop]; [done|].
  case_match; [|done]. by rewrite IH, erase_offset.
Qed.

Lemma down_heap_erase h st pos : erase (down_heap h st pos).2 = erase st.
Proof.
  unfold down_heap. pose proof (down_loop_erase (Z.to_nat (hp_size h)) (hp_size h) (get (hp_arr h) pos) (hp_arr h) st pos) as H.
  destruct (down_loop _ _ _ _ _ _) as [[a st1] p]. simpl in *. by rewrite erase_offset.
Qed.

Lemma up_heap_erase h st pos : erase (up_heap h st pos).2 = erase st.
Proof.
  unfold up_heap. pose proof (up_loop_erase (Z.to_nat pos) (get (hp_arr h) pos) (hp_arr h) st pos) as H.
  destruct (up_loop _ _ _ _ _) as [[a st1] p]. simpl in *. by rewrite erase_offset.
Qed.

Lemma remove_from_heap_erase h st t : erase (remove_from_heap h st t).2 = erase st.
Proof.
  unfold remove_from_heap. case_match; [done|]. set (h1 := mk_theap _ _ _). set (st1 := alter _ _ st).
  assert (erase st1 = erase st) as <- by apply erase_offset.
  match goal with |- context [if ?b then up_heap ?x ?y ?z else down_heap ?x ?y ?z] =>
    pose proof (up_heap_erase x y z); pose proof (down_heap_erase x y z); destruct b;
    [destruct (up_heap x y z)|destruct (down_heap x y z)] end; done.
Qed.

Lemma add_to_heap_erase h st t : erase (add_to_heap h st t).2 = erase st.
Proof.
  unfold add_to_heap. case_match; [done|].
  match goal with |- context [up_heap ?x ?y ?z] => pose proof (up_heap_erase x y z) as He; destruct (up_heap x y z) end.
  simpl in *. by rewrite He, erase_offset.
Qed.

Lemma remove_entry_only t s rc s' : remove_entry t s = Ok (rc, s') → only t s s'.
Proof.
  unfold remove_entry. destruct (tm_store s !! t) as [x|]; [|done]. case_match; [|case_match; [|done]].
  - pose proof (remove_from_heap_erase (ts_heap (per_cpu s (t_cpu x))) (tm_store s) t) as He.
    destruct (remove_from_heap _ _ t) as [[b h] st]. intros [= <- <-].
    eapply only_trans; [|by eapply only_alter]. intros u Hu. simpl. by rewrite <- He.
  - intros ([b l] & _ & [= <- <-])%Ok_bind_inv. by eapply only_alter.
Qed.

Lemma add_entry_only t s rc s' : add_entry t s = Ok (rc, s') → only t s s'.
Proof.
  unfold add_entry. destruct (tm_store s !! t) as [x|]; [|done]. intros [_ H]%BUG_ON_inv. revert H.
  set (s1 := upd_timer t _ s).
  pose proof (add_to_heap_erase (ts_heap (per_cpu s1 (t_cpu x))) (tm_store s1) t) as He.
  destruct (add_to_heap _ _ t) as [[b h] st]. intros H. apply (only_trans t s s1); [by eapply (only_alter t)|]. revert H.
  assert (only t s1 (put_store st (upd_cpu (t_cpu x) (set_heap h) s1))) as H1
    by (intros u Hu; exact (f_equal (lookup u) He)).
  case_match; [by intros [= <- <-]|].
  destruct (add_to_list _ _ t true) as [b' l]. intros [= <- <-]. eapply only_trans; [exact H1|].
  by eapply (only_alter t).
Qed.

Lemma inactive_del_inv c t s s' : inactive_del c t s = Ok s' → s' = inactive_drop c t s.
Proof. unfold inactive_del. case_bool_decide; [|done]. by intros [= <-]. Qed.

Lemma activate_timer_only t s s' : activate_timer t s = Ok s' → only t s s'.
Proof.
  unfold activate_timer. destruct (tm_store s !! t) as [x|]; [|done].
  intros [_ (s1 & Hd & ([rc s2] & H & [= <-])%Ok_bind_inv)%Ok_bind_inv]%BUG_ON_inv. apply add_entry_only in H.
  apply inactive_del_inv in Hd as ->.
  eapply only_trans; [|destruct rc; exact H]. by eapply (only_alter t).
Qed.

Lemma deactivate_timer_only t s s' : deactivate_timer t s = Ok s' → only t s s'.
Proof.
  unfold deactivate_timer. destruct (tm_store s !! t) as [x|]; [|done].
  intros ([rc s2] & H%remove_entry_only & [= <-])%Ok_bind_inv.
  eapply only_trans; [exact H|]. destruct rc; by eapply (only_alter t).
Qed.

Lemma deactivate_if_active_only t x s s' : deactivate_if_active t x s = Ok s' → only t s s'.
Proof.
  unfold deactivate_if_active. intros ([] & _ & H)%Ok_bind_inv; [by apply deactivate_timer_only|].
  injection H as <-. by apply only_store.
Qed.

(** The timer an operation is about. *)
Definition op_timer (op : timer_op) : positive :=
  match op with OpInit t _ _ _ | OpSet t _ | OpStop t | OpMigrate t _ | OpKill t => t end.

Lemma run_op_only this_cpu op s s' : run_op this_cpu op s = Ok s' → only (op_timer op) s s'.
Proof.
  destruct op as [t fn data cpu|t e|t|t new|t]; simpl.
  - intros [_ [= <-]]%BUG_ON_inv. intros u Hu. simpl. by rewrite !lookup_erase, lookup_insert_ne.
  - unfold set_timer. destruct (tm_store s !! t) as [x|]; [|done].
    case_match; [intros [= <-]; by apply only_store|].
    intros (s1 & H1%deactivate_if_active_only & H2%activate_timer_only)%Ok_bind_inv.
    eapply only_trans; [exact H1|]. eapply only_trans; [|exact H2]. by eapply only_alter.
  - unfold stop_timer. destruct (tm_store s !! t) as [x|]; [|done].
    case_match; [intros [= <-]; by apply only_store|apply deactivate_if_active_only].
  - unfold migrate_timer. destruct (tm_store s !! t) as [x|]; [|done].
    case_match; [intros [= <-]; by apply only_store|].
    intros (b & _ & Hr)%Ok_bind_inv. apply Ok_bind_inv in Hr as (s1 & H1 & H2).
    assert (only t s s1) as Ho1 by (destruct b; [by apply deactivate_timer_only|injection H1 as <-; by apply only_store]).
    eapply only_trans; [exact Ho1|]. apply Ok_bind_inv in H2 as (s0 & ->%inactive_del_inv & H2). set (s2 := inactive_add new t _) in H2.
    assert (only t s1 s2) as Ho2 by (by eapply (only_alter t)).
    destruct b; [eapply only_trans; [exact Ho2|by apply activate_timer_only]|by injection H2 as <-].
  - unfold kill_timer. intros [_ H]%BUG_ON_inv. destruct (tm_store s !! t) as [x|]; [|done].
    revert H. case_match; [intros [= <-]; by apply only_store|].
    intros (s1 & H1%deactivate_if_active_only & (s0 & ->%inactive_del_inv & [= <-])%Ok_bind_inv)%Ok_bind_inv.
    eapply only_trans; [exact H1|]. by eapply (only_alter t).
Qed.

(** The operation arms no timer of [c] before [now]. *)
Definition op_future (c now : Z) (op : timer_op) : Prop :=
  match op with OpSet _ e => now ≤ e | OpMigrate _ cpu => cpu ≠ c | _ => True end.

Lemma spec_op_future c now op m a :
  op_future c now op → spec_op op m !! op_timer op = Some a →
  ¬ (a_state a = Active ∧ a_cpu a = c ∧ a_expires a < now).
Proof.
  destruct op as [t fn data cpu|t e|t|t new|t]; simpl; intros Hf.
  1: unfold spec_init; rewrite lookup_insert_eq; intros [= <-]; simpl; intros (? & _); done.
  all: unfold spec_set, spec_stop, spec_migrate, spec_kill; rewrite lookup_alter_eq, fmap_Some;
    intros ([e' f d c' []] & _ & ->); simpl; intros (? & ? & ?); done || lia.
Qed.

(** One operation of a callback. *)
Lemma run_op_callback_step slop c now op s :
  timers_inv ∅ s → settled s → op_future c now op →
  op_ok (λ c, is_Some (tm_cpus s !! c)) (ts_running (per_cpu s c)) op (abs s) →
  ∃ s', run_op c op s = Ok s' ∧ aux_le s s' ∧ abs s' = spec_op op (abs s) ∧
    callback_step slop c now (λ t, t = op_timer op) s s'.
Proof.
  intros Hinv Hset Hf Hok.
  destruct (run_op_refines slop c op s Hinv Hset Hok) as (s' & Hr & Hi & Hs & Ha & Har & Hx).
  pose proof (run_op_only _ _ _ _ Hr) as Ho.
  exists s'. split; [done|]. split; [done|]. split; [done|].
  assert (Hd : ∀ u x, u ≠ op_timer op → due_timers c now s' !! u = Some x ↔ due_timers c now s !! u = Some x)
    by (intros u x Hu; by rewrite !due_spec, Ho).
  split; auto.
  - intros c'. apply Hx.
  - apply map_subseteq_spec. intros u x Hu. destruct (decide (u = op_timer op)) as [->|]; [|by apply Hd].
    exfalso. assert (is_Some (due_timers c now s' !! op_timer op)) as Hdue by eauto.
    apply due_active in Hdue. rewrite (active_abs _ _ _ _ Hi), expires_abs, Ha in Hdue.
    destruct Hdue as [(a & Ea & ? & ?) He]. rewrite Ea in He. by eapply spec_op_future.
  - intros u x Hu. destruct (decide (u = op_timer op)) as [->|]; [by right|left; by apply Hd].
Qed.

Lemma callback_step_refl slop c now P s : timers_inv ∅ s → settled s → callback_step slop c now P s s.
Proof. intros. split; auto. Qed.

Lemma callback_step_trans slop c now (P Q : positive → Prop) s1 s2 s3 :
  callback_step slop c now P s1 s2 → callback_step slop c now Q s2 s3 →
  callback_step slop c now (λ t, P t ∨ Q t) s1 s3.
Proof.
  intros [A1 A2 A3 A4 A5 A6] [B1 B2 B3 B4 B5 B6]. split; auto.
  - by transitivity (due_timers c now s2).
  - intros t x Hx. destruct (A6 t x Hx) as [H|H]; [|auto]. destruct (B6 t x H); auto.
Qed.

Lemma callback_step_weaken slop c now (P Q : positive → Prop) s s' :
  (∀ t, P t → Q t) → callback_step slop c now P s s' → callback_step slop c now Q s s'.
Proof. intros HPQ [A1 A2 A3 A4 A5 A6]. split; auto. intros t x Hx. destruct (A6 t x Hx); auto. Qed.

Lemma run_ops_callback_step slop c now ops s :
  timers_inv ∅ s → settled s → Forall (op_future c now) ops →
  ops_ok (λ c, is_Some (tm_cpus s !! c)) (ts_running (per_cpu s c)) ops (abs s) →
  ∃ s', run_ops c ops s = Ok s' ∧ callback_step slop c now (λ t, t ∈ op_timer <$> ops) s s'.
Proof.
  revert s. induction ops as [|op ops IH]; intros s Hinv Hset Hf; simpl.
  { intros _. exists s. split; [done|]. by apply callback_step_refl. }
  apply Forall_cons in Hf as [Hop Hf]. intros [Hok Hops].
  destruct (run_op_callback_step slop c now op s) as (s1 & -> & Hx & Ha & Hs1); [done..|]. simpl.
  destruct (IH s1) as (s' & Hr & Hs'); [apply Hs1|apply Hs1|done| |].
  { rewrite Ha, (al_running _ _ Hx). eapply ops_ok_ext, Hops. apply Hx. }
  exists s'. split; [done|]. eapply callback_step_weaken, callback_step_trans; [|exact Hs1|exact Hs'].
  intros t. simpl. set_solver.
Qed.

(** Callbacks that look at the table and perform operations. *)
Definition ops_callback (program : Z → Z → atable → list timer_op) (c fn data : Z) (s : tstate)
    : outcome tstate := run_ops c (program fn data (abs s)) s.

Definition program_cancels (program : Z → Z → atable → list timer_op) (fn data : Z) (t : positive) : Prop :=
  ∃ m, t ∈ op_timer <$> program fn data m.

#[export] Instance ops_callbacks slop c now program :
  (∀ fn data s, timers_inv ∅ s → settled s →
     Forall (op_future c now) (program fn data (abs s)) ∧
     ops_ok (λ c, is_Some (tm_cpus s !! c)) (ts_running (per_cpu s c)) (program fn data (abs s)) (abs s)) →
  TimerCallbacks (ops_callback program c) slop c now (program_cancels program).
Proof.
  intros Hp fn data s Hinv Hset _. destruct (Hp fn data s Hinv Hset) as [Hf Hok].
  destruct (run_ops_callback_step slop c now _ s Hinv Hset Hf Hok) as (s' & Hr & Hs).
  exists s'. split; [exact Hr|]. eapply callback_step_weaken, Hs. intros t Ht. by exists (abs s).
Qed.

(** Periodic timers: the callback arms the timer named by [data] again. *)
Definition periodic (now fn data : Z) (m : atable) : list timer_op :=
  match m !! Z.to_pos data with Some _ => [OpSet (Z.to_pos data) (now + Z.abs fn)] | None => [] end.

Definition ex_due : tstate :=
  match run_ops 0 [OpInit 1 500 1 0; OpInit 2 700 2 0; OpInit 3 900 3 0; OpSet 1 100; OpSet 2 300;
                   OpSet 3 5000] ex_boot with Ok s => s | Bug => ex_boot end.

Lemma ex_due_inv : timers_inv ∅ ex_due ∧ settled ex_due ∧ is_Some (tm_cpus ex_due !! 0).
Proof.
  destruct (run_ops_refines 0 0 [OpInit 1 500 1 0; OpInit 2 700 2 0; OpInit 3 900 3 0; OpSet 1 100; OpSet 2 300;
                   OpSet 3 5000] ex_boot) as (s' & E & Hi & Hs & _); [apply ex_boot_inv..| |].
  - simpl. unfold TIMER_CPU_status_killed.
    repeat split; try lia; try (by eexists); try (left; reflexivity).
  - unfold ex_due. rewrite E. split; [done|]. split; [done|].
    assert (Hc : ∃ ts, ex_due = ex_due ∧ tm_cpus ex_due !! 0 = Some ts) by (vm_compute; eauto).
    destruct Hc as (ts & _ & Hc). unfold ex_due in Hc. rewrite E in Hc. by eexists.
Qed.

Lemma periodic_ok now s fn data :
  0 < now → Forall (op_future 0 now) (periodic now fn data (abs s)) ∧
  ops_ok (λ c, is_Some (tm_cpus s !! c)) (ts_running (per_cpu s 0)) (periodic now fn data (abs s)) (abs s).
Proof.
  intros Hnow. unfold periodic. destruct (abs s !! Z.to_pos data) as [a|] eqn:E; simpl.
  - repeat split; [|by rewrite E]. repeat constructor. simpl. lia.
  - split; [constructor|done].
Qed.

Lemma timer_softirq_action_correct_witness :
  ∃ ran s', timer_softirq_action (ops_callback (periodic 400) 0) 3 true 50 400 (λ _, true) 0 ex_due = Ok (ran, s') ∧
    due_timers 0 400 s' = ∅ ∧ (∀ t, t ∈ ran → is_Some (due_timers 0 400 ex_due !! t)).
Proof.
  destruct (timer_softirq_action_correct (ops_callback (periodic 400) 0) 50 0 400
    (program_cancels (periodic 400)) 3 true (λ _, true) ex_due) as (ran & s' & H1 & _ & _ & _ & H2 & _ & H3 & _).
  - apply ops_callbacks. intros fn data s _ _. by apply periodic_ok.
  - apply ex_due_inv.
  - apply ex_due_inv.
  - apply ex_due_inv.
  - lia.
  - lia.
  - vm_compute. repeat constructor.
  - exists ran, s'. auto.
Defined.
