(* ===== verification/TimerHotplug.v ===== *)
(** * Timers and CPU hot-plug (xen/common/timer.c, [cpu_callback])

    When a CPU goes away its timers move to an online CPU: active ones through
    [remove_entry] and [add_entry], inactive ones from list to list. Nothing is
    lost and no wake-up is missed; the structures of the dead CPU are empty, so
    that bringing the CPU up again finds them as at boot. *)

From S2P Require Import Prelude TimerHeap Timer TimerInv TimerOps TimerSoftirq.
Local Open Scope xen_scope.

(** ** A timer in transit changes CPU *)

Lemma retarget pend s t old new :
  timers_inv pend s → has_status (tm_store s) t TIMER_STATUS_invalid old →
  0 ≤ new < TIMER_CPU_status_killed → is_Some (tm_cpus s !! new) →
  let s' := upd_timer t (set_cpu new) s in
  timers_inv pend s' ∧ has_status (tm_store s') t TIMER_STATUS_invalid new.
Proof.
  intros Hinv Ht Hnew Hcpu. pose proof Ht as (x & Hx & Hxs & Hxc). simpl.
  assert (Hst : ∀ u w c', has_status (alter (set_cpu new) t (tm_store s)) u w c' ↔
    if decide (u = t) then w = TIMER_STATUS_invalid ∧ c' = new else has_status (tm_store s) u w c').
  { intros u w c'. case_decide; [subst|by apply has_status_alter].
    rewrite (has_status_update _ _ _ _ _ _ Hx). simpl. by rewrite Hxs. }
  split; [split; simpl|by rewrite Hst, decide_True].
  - intros c ts Hts. eapply cpu_inv_frame, (ti_cpu _ _ Hinv), Hts. intros u Hu.
    apply lookup_alter_ne. intros <-.
    destruct Hu as [(y & Hy & _ & Hr)|(y & Hy & _ & Hr)].
    + simplify_eq. rewrite Hxs in Hr. unfold TIMER_STATUS_invalid, TIMER_STATUS_inactive,
        TIMER_STATUS_in_heap, TIMER_STATUS_in_list in Hr. lia.
    + rewrite lookup_alter_eq, Hx in Hy. simplify_eq/=. rewrite Hxs in Hr.
      unfold TIMER_STATUS_invalid, TIMER_STATUS_inactive, TIMER_STATUS_in_heap, TIMER_STATUS_in_list in Hr. lia.
  - intros u w c'. rewrite Hst. case_decide; [|apply (ti_known _ _ Hinv)].
    intros [-> ->]. split; [done|]. split; [|done]. split; [done|]. lia.
Qed.

(** ** The loops *)

(** [t] leaves CPU [old] and joins CPU [new]. *)
Record transferred (t : positive) (old new : Z) (s s' : tstate) : Prop := {
  tr_inv : timers_inv ∅ s';
  tr_settled : settled s';
  tr_aux : same_aux s s';
  tr_abs : abs s' = alter (a_set_cpu new) t (abs s);
}.

Lemma migrate_one s t old new :
  timers_inv ∅ s → settled s → active (tm_store s) t old → 0 ≤ new < TIMER_CPU_status_killed →
  is_Some (tm_cpus s !! new) →
  ∃ b s1 rc s2, remove_entry t s = Ok (b, s1) ∧
    add_entry t (upd_timer t (set_cpu (u16 new)) s1) = Ok (rc, s2) ∧
    transferred t old new s s2 ∧
    (rc = false → ∃ u, u ≠ t ∧ active (tm_store s) u new ∧
                       expires (tm_store s) u ≤ expires (tm_store s) t).
Proof.
  intros Hinv Hset Hact Hnew Hcpu.
  assert (∃ v, has_status (tm_store s) t v old ∧ (v = TIMER_STATUS_in_heap ∨ v = TIMER_STATUS_in_list))
    as (v & Ht & Hv) by (destruct Hact; eauto).
  destruct (remove_entry_spec ∅ s t old v Hinv Ht ltac:(set_solver) Hv) as (b & s1 & E1 & Hinv1 & Ha1 & Hm1).
  pose proof (moved_at _ _ _ _ _ _ Ht Hm1) as Ht1.
  destruct (retarget ∅ s1 t old new Hinv1 Ht1 Hnew ltac:(by apply Ha1)) as (Hinv2 & Ht2).
  unfold TIMER_CPU_status_killed in Hnew. rewrite u16_small by lia. set (s2 := upd_timer t (set_cpu new) s1) in *.
  destruct (add_entry_spec ∅ s2 t new Hinv2 Ht2 ltac:(set_solver)) as (rc & s3 & w & E3 & Hinv3 & Ha3 & Hw & Hm3 & Hrc).
  exists b, s1, rc, s3. split; [done|]. split; [done|].
  assert (Hst2 : ∀ u x c', u ≠ t → has_status (tm_store s2) u x c' ↔ has_status (tm_store s) u x c').
  { intros u x c' Hu. unfold s2. simpl. rewrite has_status_alter by done.
    by rewrite (moved_has_status _ _ _ _ _ _ _ _ _ Hm1 Ht), decide_False. }
  assert (He2 : ∀ u, expires (tm_store s2) u = expires (tm_store s) u).
  { intros u. unfold s2. simpl. rewrite expires_alter by done. by apply (moved_expires _ _ _ _ _ _ Hm1). }
  split.
  - split; [done| | |].
    + intros u c'. rewrite (moved_has_status _ _ _ _ _ _ _ _ _ Hm3 Ht2). case_decide; [|rewrite Hst2 by done; apply Hset].
      intros [E _]. by destruct Hw as [->| ->].
    + eapply same_aux_trans; [exact Ha1|]. eapply same_aux_trans; [|exact Ha3]. by split.
    + rewrite (moved_abs _ _ _ _ _ Hm3). unfold s2. rewrite (abs_upd t _ (a_set_cpu new)) by done.
      rewrite (moved_abs _ _ _ _ _ Hm1), !alter_alter. destruct Ht as (x & Hx & Hxs & _).
      eapply alter_agree; [by apply abs_lookup|]. unfold a_set_state, a_set_cpu, abs_timer. simpl. rewrite Hxs.
      by destruct Hw as [->| ->], Hv as [->| ->].
  - intros ->. destruct (Hrc eq_refl) as (u & Hu & Hau & Hle). exists u. split; [done|].
    rewrite !He2 in Hle. split; [|done]. unfold active in *. by rewrite !Hst2 in Hau.
Qed.

(** Moving the timers of [old] that satisfy [P] to [new]. *)
Definition spec_move (P : astate → bool) (old new : Z) (m : atable) : atable :=
  (λ a, if (a_cpu a =? old) && P (a_state a) then a_set_cpu new a else a) <$> m.

Lemma spec_move_step P old new t m a :
  old ≠ new → m !! t = Some a → a_cpu a = old → P (a_state a) = true →
  spec_move P old new (alter (a_set_cpu new) t m) = spec_move P old new m.
Proof.
  intros Hne Ha Hc HP. apply map_eq. intros u. unfold spec_move. rewrite !lookup_fmap, lookup_alter.
  case_decide; [subst u|done]. rewrite Ha. simpl. rewrite HP, Hc, Z.eqb_refl. simpl.
  destruct (Z.eqb_spec new old); [congruence|done].
Qed.

Lemma spec_move_none P old new m :
  (∀ t a, m !! t = Some a → a_cpu a = old → P (a_state a) = false) → spec_move P old new m = m.
Proof.
  intros H. apply map_eq. intros u. unfold spec_move. rewrite lookup_fmap. destruct (m !! u) as [a|] eqn:Ha; [|done].
  simpl. destruct (Z.eqb_spec (a_cpu a) old) as [E|]; [|done]. by rewrite (H u a Ha E).
Qed.

(** The active timers of a CPU. *)
Definition active_set (c : Z) (s : tstate) : gset positive :=
  dom (filter (λ '(_, a), a_state a = Active ∧ a_cpu a = c) (abs s)).

Lemma elem_of_active_set c s t :
  t ∈ active_set c s ↔ ∃ a, abs s !! t = Some a ∧ a_state a = Active ∧ a_cpu a = c.
Proof.
  unfold active_set. rewrite elem_of_dom. unfold is_Some.
  setoid_rewrite map_lookup_filter_Some. naive_solver.
Qed.

Lemma active_set_transfer t old new s s' :
  old ≠ new → active (tm_store s) t old → timers_inv ∅ s → transferred t old new s s' →
  active_set old s' = active_set old s ∖ {[t]} ∧ t ∈ active_set old s.
Proof.
  intros Hne Hact Hinv [_ _ _ Habs]. apply (active_abs _ _ _ _ Hinv) in Hact as (a & Ha & Hs & Hc).
  split; [|apply elem_of_active_set; eauto]. apply set_eq. intros u.
  rewrite elem_of_difference, elem_of_singleton, !elem_of_active_set, Habs, lookup_alter.
  case_decide; [subst u|naive_solver]. rewrite Ha. simpl. split; [|naive_solver].
  intros (b & [= <-] & _ & E). simpl in E. congruence.
Qed.

(** Wake-ups of a transfer: of the CPUs other than [new], and of [new] when no
    notification is due. *)
Lemma armed_transfer slop t old new s s' c :
  timers_inv ∅ s → active (tm_store s) t old → transferred t old new s s' →
  (c = new → ∃ u, u ≠ t ∧ active (tm_store s) u new ∧ expires (tm_store s) u ≤ expires (tm_store s) t) →
  armed_on slop c s → armed_on slop c s'.
Proof.
  intros Hinv Hact [Hinv' _ [A1 A2 _ _] Habs] Hcov Har u Hu. rewrite A1, A2.
  apply (active_abs _ _ _ _ Hinv) in Hact as (a & Ha & Hs & Hc).
  assert (expires (tm_store s') u = expires (tm_store s) u) as ->.
  { rewrite !expires_abs, Habs, lookup_alter. case_decide; [subst u|done]. by rewrite Ha. }
  apply (active_abs _ _ _ _ Hinv') in Hu as (b & Hb & Hbs & Hbc).
  rewrite Habs, lookup_alter in Hb. case_decide as Hut; [subst u|].
  - rewrite Ha in Hb. simplify_eq/=. destruct (Hcov eq_refl) as (w & _ & Hw & Hle).
    destruct (Har w Hw) as [?|(d & ? & ? & ?)]; [by left|right]. exists d. split; [done|]. split; [done|lia].
  - apply Har, (active_abs _ _ _ _ Hinv). eauto.
Qed.

(** The timer the first loop picks. *)
Lemma migrate_pick s c ts :
  timers_inv ∅ s → tm_cpus s !! c = Some ts →
  match (if hp_size (ts_heap ts) =? 0 then head (ts_list ts) else Some (get (hp_arr (ts_heap ts)) 1)) with
  | Some t => active (tm_store s) t c
  | None => hp_size (ts_heap ts) = 0 ∧ ts_list ts = [] ∧ active_set c s = ∅
  end.
Proof.
  intros Hinv Hts. pose proof (ti_cpu _ _ Hinv _ _ Hts) as [_ Hw Hin _ _ Hl _ _].
  destruct (Z.eqb_spec (hp_size (ts_heap ts)) 0) as [E|E]; [|left; by eapply Hin, heap_top_has].
  destruct (ts_list ts) as [|t l]; simpl; [|right; apply Hl; by left].
  split; [done|]. split; [done|]. apply set_eq. intros u. rewrite elem_of_active_set.
  split; [|set_solver]. intros Hu%(active_abs _ _ _ _ Hinv). exfalso. destruct Hu as [Hu|Hu].
  - apply Hin in Hu as (i & ? & _). lia.
  - assert (u ∈ @nil positive) by (apply Hl; split; [done|set_solver]). by eapply elem_of_nil.
Qed.

Definition is_active (v : astate) : bool := bool_decide (v = Active).

(** The result of a loop: the abstract table moved, the rest as before. *)
Record drained (P : astate → bool) (old new : Z) (s s' : tstate) : Prop := {
  dr_inv : timers_inv ∅ s';
  dr_settled : settled s';
  dr_aux : same_aux s s';
  dr_abs : abs s' = spec_move P old new (abs s);
}.

Lemma migrate_active_spec fuel old new notify s :
  timers_inv ∅ s → settled s → old ≠ new → 0 ≤ new < TIMER_CPU_status_killed →
  is_Some (tm_cpus s !! old) → is_Some (tm_cpus s !! new) → (size (active_set old s) < fuel)%nat →
  ∃ notify' s', migrate_active fuel old new notify s = Ok (notify', s') ∧
    drained is_active old new s s' ∧
    hp_size (ts_heap (per_cpu s' old)) = 0 ∧ ts_list (per_cpu s' old) = [] ∧
    (∀ slop c, c ≠ new ∨ notify' = false → armed_on slop c s → armed_on slop c s') ∧
    (notify = true → notify' = true).
Proof.
  revert notify s. induction fuel as [|fuel IH]; intros notify s Hinv Hset Hne Hnew [ts Hts] Hcn Hfuel; [lia|].
  cbn [migrate_active]. rewrite (per_cpu_at _ _ _ Hts). pose proof (migrate_pick _ _ _ Hinv Hts) as Hpick.
  destruct (if hp_size (ts_heap ts) =? 0 then _ else _) as [t|].
  - destruct (migrate_one s t old new) as (b & s1 & rc & s2 & E1 & E2 & Htr & Hrc); [done..|].
    rewrite E1. cbn [mbind outcome_bind]. rewrite E2. cbn [mbind outcome_bind].
    destruct (active_set_transfer t old new s s2) as [Hset2 Hin]; [done..|].
    pose proof Htr as [Hinv2 Hs2 Ha2 Habs2].
    destruct (IH (notify || rc) s2) as (nt & s' & Hr & [D1 D2 D3 D4] & Hsz & Hl & Har & Hnt);
      [done|done|done|done|apply Ha2; by eexists|by apply Ha2| |].
    { rewrite Hset2, size_difference, size_singleton by set_solver.
      assert (0 < size (active_set old s))%nat; [|lia].
      enough (size (active_set old s) ≠ 0%nat) by lia. intros E%size_empty_inv. set_solver. }
    exists nt, s'. split; [done|]. split; [split; [done|done|by eapply same_aux_trans|]|].
    { rewrite D4, Habs2. apply (active_abs _ _ _ _ Hinv) in Hpick as (a & Ha & Hs & Hc).
      eapply spec_move_step; [done|exact Ha|done|]. rewrite Hs. done. }
    split; [done|]. split; [done|]. split.
    + intros slop c Hc Hc1. apply Har; [done|]. eapply (armed_transfer _ t old new s); [done|done|done| |done].
      intros ->. destruct Hc as [|Hc]; [done|]. apply Hrc. destruct rc; [|done].
      rewrite orb_true_r in Hnt. rewrite Hnt in Hc by done. done.
    + intros ->. by apply Hnt.
  - destruct Hpick as (Hsz & Hl & He). exists notify, s. split; [done|].
    rewrite (per_cpu_at _ _ _ Hts). split; [|by repeat split_and].
    split; [done|done|by split|]. symmetry. apply spec_move_none. intros t a Ha Hc.
    unfold is_active. apply bool_decide_eq_false. intros Hs.
    assert (t ∈ active_set old s) by (apply elem_of_active_set; eauto). set_solver.
Qed.

(** The heap and the overflow list bound the number of active timers. *)
Lemma active_set_size s c ts :
  timers_inv ∅ s → tm_cpus s !! c = Some ts →
  (size (active_set c s) ≤ Z.to_nat (hp_size (ts_heap ts)) + length (ts_list ts))%nat.
Proof.
  intros Hinv Hts. pose proof (ti_cpu _ _ Hinv _ _ Hts) as [_ Hw Hin _ _ Hl _ _].
  set (l := (get (hp_arr (ts_heap ts)) <$> seqZ 1 (hp_size (ts_heap ts))) ++ ts_list ts).
  transitivity (size (list_to_set l : gset positive)).
  - apply subseteq_size. intros t. rewrite elem_of_active_set, <- (active_abs _ _ _ _ Hinv), elem_of_list_to_set.
    unfold l. rewrite elem_of_app. intros [Ht|Ht].
    + left. apply Hin in Ht as (i & Hi & Ht). apply list_elem_of_fmap. exists i.
      split; [by rewrite (get_lookup _ _ _ Ht)|]. apply elem_of_seqZ. lia.
    + right. apply Hl. split; [done|set_solver].
  - etransitivity; [apply size_list_to_set_le|]. unfold l. by rewrite length_app, length_fmap, length_seqZ.
Qed.

Lemma migrate_inactive_spec fuel old new s :
  timers_inv ∅ s → settled s → old ≠ new → 0 ≤ new < TIMER_CPU_status_killed →
  is_Some (tm_cpus s !! old) → is_Some (tm_cpus s !! new) →
  (length (ts_inactive (per_cpu s old)) < fuel)%nat → active_set old s = ∅ → old ≠ TIMER_CPU_status_killed →
  ∃ s', migrate_inactive fuel old new s = Ok s' ∧ drained (λ _, true) old new s s' ∧
    ts_heap (per_cpu s' old) = ts_heap (per_cpu s old) ∧
    ts_list (per_cpu s' old) = ts_list (per_cpu s old) ∧ ts_inactive (per_cpu s' old) = [] ∧
    (∀ slop, keeps_armed slop s s').
Proof.
  revert s. induction fuel as [|fuel IH]; intros s Hinv Hset Hne Hnew [ts Hts] Hcn Hfuel Hnone Hold; [lia|].
  cbn [migrate_inactive]. rewrite (per_cpu_at _ _ _ Hts) in *. pose proof (ti_cpu _ _ Hinv _ _ Hts) as [_ _ _ _ _ _ Hnd Hin].
  destruct (ts_inactive ts) as [|t l] eqn:El.
  - exists s. split; [done|]. rewrite (per_cpu_at _ _ _ Hts). split; [|repeat split_and; auto; by intros slop c].
    split; [done|done|by split|]. symmetry. apply spec_move_none. intros t a Ha Hc. exfalso.
    unfold abs in Ha. rewrite lookup_fmap in Ha. apply fmap_Some in Ha as (x & Hx & ->). simpl in Hc.
    destruct (settled_status _ _ _ Hinv Hset Hx) as [[? _]|[_ [Hs|Hs]]]; [congruence|..].
    + assert (t ∈ @nil positive) by (apply Hin; exists x; auto). by eapply elem_of_nil.
    + rewrite Hc in Hs. apply (active_abs _ _ _ _ Hinv), elem_of_active_set in Hs. set_solver.
  - assert (has_status (tm_store s) t TIMER_STATUS_inactive old) as Ht by (apply Hin; by left).
    destruct (rehome ∅ s t old new Hinv Ht Hne Hnew Hcn) as (_ & Ha & _).
    destruct (rehome_step 0 s t old new Hinv Hset Ht Hne Hnew Hcn) as [(s1 & [= E1] & Hinv1 & Hset1 & Habs1 & _) _].
    assert (Hk : ∀ slop, keeps_armed slop s s1).
    { intros slop. destruct (rehome_step slop s t old new) as [(s1' & [= <-] & _ & _ & _ & Hk & _) _]; [done..|].
      by rewrite <- E1. }
    rewrite (inactive_del_ok ∅ s) by done. cbn [mbind outcome_bind].
    rewrite E1 in Ha |- *. assert (Hp : per_cpu s1 old = set_inactive l ts).
    { rewrite <- E1. unfold inactive_add, inactive_drop, upd_cpu, upd_timer, per_cpu. simpl.
      rewrite lookup_insert_ne, lookup_insert_eq, Hts by done. simpl. rewrite El.
      apply NoDup_cons in Hnd as [? _]. rewrite filter_cons_False, filter_ne_id by naive_solver. done. }
    destruct (IH s1) as (s' & -> & [D1 D2 D3 D4] & H1 & H2 & H3 & H4);
      [done|done|done|done|apply Ha; by eexists|by apply Ha|rewrite Hp; simpl in *; lia| |done|].
    { apply set_eq. intros u. split; [|set_solver]. rewrite elem_of_active_set, Habs1. intros (a & Hu & Hs & Hc).
      rewrite <- Hnone. apply elem_of_active_set. rewrite lookup_alter in Hu. case_decide; [subst u|eauto].
      apply fmap_Some in Hu as (a' & ? & ->). simpl in Hc. congruence. }
    rewrite Hp in *. exists s'. split; [done|]. split; [|repeat split_and; auto; intros slop c ?; by apply H4, Hk].
    split; [done|done|by eapply same_aux_trans|]. rewrite D4, Habs1. destruct Ht as (x & Hx & _ & Hxc).
    eapply spec_move_step; [done|by apply abs_lookup|done|done].
Qed.

(** ** CPU notifications *)

(** The structures of a CPU that has no timers. *)
Definition empty_cpu (ts : timers) : Prop :=
  hp_size (ts_heap ts) = 0 ∧ ts_list ts = [] ∧ ts_inactive ts = [].

Lemma migrate_timers_from_cpu_spec slop old new s :
  timers_inv ∅ s → settled s → old ≠ new → old ≠ TIMER_CPU_status_killed →
  0 ≤ new < TIMER_CPU_status_killed → is_Some (tm_cpus s !! old) → is_Some (tm_cpus s !! new) →
  ∃ s', migrate_timers_from_cpu old new s = Ok s' ∧ timers_inv ∅ s' ∧ settled s' ∧ aux_le s s' ∧
    abs s' = spec_move (λ _, true) old new (abs s) ∧ keeps_armed slop s s' ∧ empty_cpu (per_cpu s' old).
Proof.
  intros Hinv Hset Hne Hold Hnew [ts Hts] Hcn. unfold migrate_timers_from_cpu. rewrite (per_cpu_at _ _ _ Hts).
  destruct (migrate_active_spec (S (Z.to_nat (hp_size (ts_heap ts)) + length (ts_list ts))) old new false s)
    as (nt & s1 & -> & [D1 D2 D3 D4] & Hsz & Hl & Har & _); [done..|by eexists|done| |].
  { pose proof (active_set_size _ _ _ Hinv Hts). lia. }
  cbn [mbind outcome_bind].
  destruct (migrate_inactive_spec (S (length (ts_inactive (per_cpu s1 old)))) old new s1)
    as (s2 & -> & [F1 F2 F3 F4] & G1 & G2 & G3 & G4);
    [done..|apply D3; by eexists|by apply D3|lia| |done|].
  { apply set_eq. intros u. split; [|set_solver]. rewrite elem_of_active_set, D4. unfold spec_move.
    rewrite lookup_fmap. intros (a & (b & Hb & ->)%fmap_Some & Hs & Hc). exfalso. revert Hs Hc.
    destruct (Z.eqb_spec (a_cpu b) old) as [E|]; [|done]. simpl. unfold is_active. case_bool_decide; simpl; congruence. }
  cbn [mbind outcome_bind]. fold (raise_if nt new s2). destruct (raise_if_spec nt new s2) as (R1 & R2 & R3 & R4).
  exists (raise_if nt new s2). split; [done|]. split; [by apply (timers_inv_ext _ s2)|].
  split; [unfold settled; by rewrite R2|]. split.
  { eapply aux_le_trans; [|exact R1]. apply same_aux_le. by eapply same_aux_trans. }
  split; [|split].
  - unfold abs at 1. rewrite R2. fold (abs s2). rewrite F4, D4. unfold spec_move. rewrite <- map_fmap_compose.
    apply map_fmap_ext. intros t a _. simpl. destruct (Z.eqb_spec (a_cpu a) old) as [E|E]; simpl.
    + unfold is_active. case_bool_decide; simpl; [|by rewrite E, Z.eqb_refl].
      destruct (Z.eqb_spec new old); [congruence|done].
    + destruct (Z.eqb_spec (a_cpu a) old); [congruence|done].
  - intros c Hc t. rewrite R2. intros Hact. destruct nt eqn:En; [destruct (decide (c = new)) as [->|Hcn']|].
    + left. by apply R4.
    + destruct (G4 slop c (Har slop c (or_introl Hcn') Hc) t Hact) as [?|?]; [left; by apply R1|right].
      by rewrite (al_deadline _ _ R1).
    + apply (G4 slop c (Har slop c (or_intror eq_refl) Hc) t Hact).
  - unfold empty_cpu, per_cpu. rewrite R3. fold (per_cpu s2 old). by rewrite G1, G2, G3.
Qed.

(** Preparing a CPU without timers. *)
Lemma cpu_up_prepare_spec s c :
  timers_inv ∅ s → (∀ t v, ¬ has_status (tm_store s) t v c) → ts_list (per_cpu s c) = [] →
  timers_inv ∅ (upd_cpu c (λ ts, set_heap dummy_heap (set_inactive [] ts)) s).
Proof.
  intros Hinv Hn Hl. unfold upd_cpu. apply timers_inv_cpu; [done|]. split; simpl; rewrite ?Hl; try (by constructor).
  - apply dummy_heap_wf.
  - intros t. split; [intros (i & ? & _); simpl in *; lia|by intros ?%Hn].
  - intros t. split; [by intros ?%elem_of_nil|intros [?%Hn _]; done].
  - intros t. split; [by intros ?%elem_of_nil|by intros ?%Hn].
Qed.

(** C36: when a CPU dies (or its bring-up is cancelled) all its timers, active
    and inactive, move to an online CPU with expiry, callback and state kept,
    no wake-up is lost and the CPU's structures end up empty; preparing the CPU
    again keeps every timer and the invariant. *)
Theorem cpu_callback_offline_online slop action old new s :
  action = CPU_DEAD ∨ action = CPU_UP_CANCELED →
  timers_inv ∅ s → settled s → old ≠ new → old ≠ TIMER_CPU_status_killed →
  0 ≤ new < TIMER_CPU_status_killed → is_Some (tm_cpus s !! old) → is_Some (tm_cpus s !! new) →
  ∃ s1 s2,
    cpu_callback action old new s = Ok s1 ∧ timers_inv ∅ s1 ∧ settled s1 ∧
    abs s1 = spec_move (λ _, true) old new (abs s) ∧ keeps_armed slop s s1 ∧
    empty_cpu (per_cpu s1 old) ∧
    cpu_callback CPU_UP_PREPARE old new s1 = Ok s2 ∧ timers_inv ∅ s2 ∧
    tm_store s2 = tm_store s1 ∧ ts_heap (per_cpu s2 old) = dummy_heap ∧ keeps_armed slop s1 s2.
Proof.
  intros Hact Hinv Hset Hne Hold Hnew Ho Hn.
  destruct (migrate_timers_from_cpu_spec slop old new s) as (s1 & E & Hinv1 & Hset1 & Hx & Habs & Har & Hem); [done..|].
  eexists s1, _. split; [by destruct Hact as [->| ->]|]. do 5 (split; [done|]). split; [done|].
  split; [|split; [done|split]].
  - apply cpu_up_prepare_spec; [done| |apply Hem]. intros t v (x & Hxt & _ & Hc).
    pose proof (abs_lookup _ _ _ Hxt) as Ha. rewrite Habs in Ha. unfold spec_move in Ha. rewrite lookup_fmap in Ha.
    apply fmap_Some in Ha as (a & _ & Ea). apply (f_equal a_cpu) in Ea. simpl in Ea. rewrite Hc in Ea. revert Ea.
    rewrite andb_true_r. destruct (Z.eqb_spec (a_cpu a) old); simpl; congruence.
  - unfold per_cpu. simpl. by rewrite lookup_insert_eq.
  - by intros c Hc.
Qed.

Lemma cpu_callback_offline_online_witness :
  ∃ s1 s2, cpu_callback CPU_DEAD 0 1 ex_due = Ok s1 ∧ empty_cpu (per_cpu s1 0) ∧
    abs s1 = spec_move (λ _, true) 0 1 (abs ex_due) ∧ cpu_callback CPU_UP_PREPARE 0 1 s1 = Ok s2 ∧ timers_inv ∅ s2.
Proof.
  destruct (cpu_callback_offline_online 50 CPU_DEAD 0 1 ex_due)
    as (s1 & s2 & H1 & _ & _ & H2 & _ & H3 & H4 & H5 & _).
  - by left.
  - apply ex_due_inv.
  - apply ex_due_inv.
  - discriminate.
  - discriminate.
  - unfold TIMER_CPU_status_killed. lia.
  - apply ex_due_inv.
  - vm_compute. eauto.
  - exists s1, s2. auto.
Defined.
