(* ===== verification/EvtChn.v ===== *)
(** * Event channels (xen/common/event_channel.c, xen/include/xen/event.h)

    Ports of a domain live in lazily allocated buckets of 128; a port is free,
    reserved, or bound to a remote port, a physical IRQ, a virtual IRQ or an
    IPI. Pointers to [struct domain] are the addresses [doms] is keyed with,
    so that the lock ordering by pointer is visible; a [struct vcpu] pointer is
    a domain and a vcpu number. What the code calls outside this file is an
    argument ([env]) or is recorded in [hooks]. *)

From S2P Require Import Prelude.
Local Open Scope xen_scope.

(** ** Data *)

Inductive chan :=
| ECS_FREE
| ECS_RESERVED
| ECS_UNBOUND (remote_domid : Z)
| ECS_INTERDOMAIN (remote_dom : positive) (remote_port : Z)
| ECS_PIRQ (irq next_port prev_port : Z)
| ECS_VIRQ (virq : Z)
| ECS_IPI.

#[export] Instance chan_eq_dec : EqDecision chan.
Proof. solve_decision. Defined.

Record evtchn := mk_evtchn {
  e_state : chan;
  xen_consumer : Z;
  notify_vcpu_id : Z;
}.

Definition set_chan (c : chan) (e : evtchn) : evtchn :=
  mk_evtchn c (xen_consumer e) (notify_vcpu_id e).
Definition set_consumer (x : Z) (e : evtchn) : evtchn :=
  mk_evtchn (e_state e) x (notify_vcpu_id e).
Definition set_notify (v : Z) (e : evtchn) : evtchn :=
  mk_evtchn (e_state e) (xen_consumer e) v.

(** A zeroed [struct evtchn]. *)
Definition free_evtchn : evtchn := mk_evtchn ECS_FREE 0 0.

Record vcpu := mk_vcpu {
  virq_to_evtchn : gmap Z Z;
  pirq_evtchn_head : Z;
  poll_evtchn : Z;
  evtchn_pending_sel : gset Z;
  blocked_in_xen : bool;
  processor : Z;
}.

Definition set_virq (f : gmap Z Z → gmap Z Z) (v : vcpu) : vcpu :=
  mk_vcpu (f (virq_to_evtchn v)) (pirq_evtchn_head v) (poll_evtchn v) (evtchn_pending_sel v)
    (blocked_in_xen v) (processor v).
Definition set_head (p : Z) (v : vcpu) : vcpu :=
  mk_vcpu (virq_to_evtchn v) p (poll_evtchn v) (evtchn_pending_sel v) (blocked_in_xen v) (processor v).
Definition set_poll (p : Z) (v : vcpu) : vcpu :=
  mk_vcpu (virq_to_evtchn v) (pirq_evtchn_head v) p (evtchn_pending_sel v) (blocked_in_xen v) (processor v).
Definition set_sel (f : gset Z → gset Z) (v : vcpu) : vcpu :=
  mk_vcpu (virq_to_evtchn v) (pirq_evtchn_head v) (poll_evtchn v) (f (evtchn_pending_sel v))
    (blocked_in_xen v) (processor v).
Definition set_blocked (b : bool) (v : vcpu) : vcpu :=
  mk_vcpu (virq_to_evtchn v) (pirq_evtchn_head v) (poll_evtchn v) (evtchn_pending_sel v) b (processor v).

(** [virq_to_evtchn[virq]]; zero when unbound. *)
Definition virq_port (v : vcpu) (virq : Z) : Z := default 0 (virq_to_evtchn v !! virq).

(** [struct pirq]: the bound port and the machine IRQ. *)
Record pirq := mk_pirq { pirq_evtchn : Z; pirq_arch_irq : Z }.

Record domain := mk_domain {
  domain_id : Z;
  is_dying : bool;
  is_hvm : bool;
  is_privileged : bool;
  target : option positive;
  has_32bit_shinfo : bool;
  max_vcpus : Z;
  vcpus : gmap Z vcpu;
  evtchn_buckets : gmap Z (list evtchn);
  nr_pirqs : Z;
  pirq_tree : gmap Z pirq;
  evtchn_pending : gset Z;
  evtchn_mask : gset Z;
  poll_mask : gset Z;
  refcnt : Z;
  destroyed : bool;
}.

Definition set_vcpus (f : gmap Z vcpu → gmap Z vcpu) (d : domain) : domain :=
  mk_domain (domain_id d) (is_dying d) (is_hvm d) (is_privileged d) (target d) (has_32bit_shinfo d)
    (max_vcpus d) (f (vcpus d)) (evtchn_buckets d) (nr_pirqs d) (pirq_tree d) (evtchn_pending d)
    (evtchn_mask d) (poll_mask d) (refcnt d) (destroyed d).
Definition set_buckets (f : gmap Z (list evtchn) → gmap Z (list evtchn)) (d : domain) : domain :=
  mk_domain (domain_id d) (is_dying d) (is_hvm d) (is_privileged d) (target d) (has_32bit_shinfo d)
    (max_vcpus d) (vcpus d) (f (evtchn_buckets d)) (nr_pirqs d) (pirq_tree d) (evtchn_pending d)
    (evtchn_mask d) (poll_mask d) (refcnt d) (destroyed d).
Definition set_pirqs (f : gmap Z pirq → gmap Z pirq) (d : domain) : domain :=
  mk_domain (domain_id d) (is_dying d) (is_hvm d) (is_privileged d) (target d) (has_32bit_shinfo d)
    (max_vcpus d) (vcpus d) (evtchn_buckets d) (nr_pirqs d) (f (pirq_tree d)) (evtchn_pending d)
    (evtchn_mask d) (poll_mask d) (refcnt d) (destroyed d).
Definition set_pending (f : gset Z → gset Z) (d : domain) : domain :=
  mk_domain (domain_id d) (is_dying d) (is_hvm d) (is_privileged d) (target d) (has_32bit_shinfo d)
    (max_vcpus d) (vcpus d) (evtchn_buckets d) (nr_pirqs d) (pirq_tree d) (f (evtchn_pending d))
    (evtchn_mask d) (poll_mask d) (refcnt d) (destroyed d).
Definition set_mask (f : gset Z → gset Z) (d : domain) : domain :=
  mk_domain (domain_id d) (is_dying d) (is_hvm d) (is_privileged d) (target d) (has_32bit_shinfo d)
    (max_vcpus d) (vcpus d) (evtchn_buckets d) (nr_pirqs d) (pirq_tree d) (evtchn_pending d)
    (f (evtchn_mask d)) (poll_mask d) (refcnt d) (destroyed d).
Definition set_poll_mask (f : gset Z → gset Z) (d : domain) : domain :=
  mk_domain (domain_id d) (is_dying d) (is_hvm d) (is_privileged d) (target d) (has_32bit_shinfo d)
    (max_vcpus d) (vcpus d) (evtchn_buckets d) (nr_pirqs d) (pirq_tree d) (evtchn_pending d)
    (evtchn_mask d) (f (poll_mask d)) (refcnt d) (destroyed d).
Definition set_refcnt (f : Z → Z) (d : domain) : domain :=
  mk_domain (domain_id d) (is_dying d) (is_hvm d) (is_privileged d) (target d) (has_32bit_shinfo d)
    (max_vcpus d) (vcpus d) (evtchn_buckets d) (nr_pirqs d) (pirq_tree d) (evtchn_pending d)
    (evtchn_mask d) (poll_mask d) (f (refcnt d)) (destroyed d).

(** Calls that leave this component. *)
Inductive hook :=
| Vcpu_mark_events_pending (d : positive) (v : Z)
| Vcpu_unblock (d : positive) (v : Z)
| Vcpu_wake (d : positive) (v : Z)
| Pirq_guest_unbind (d : positive) (pirq : Z)
| Pirq_set_affinity (d : positive) (irq processor : Z)
| Map_domain_emuirq_pirq (d : positive) (pirq : Z)
| Unmap_domain_pirq_emuirq (d : positive) (pirq : Z)
| Xsm_evtchn_close_post (d : positive) (port : Z)
| Domain_destroy (d : positive).

Record xstate := mk_xstate {
  doms : gmap positive domain;
  domain_hash : gmap Z positive;
  xen_consumers : list Z;
  global_virq_handlers : gmap Z positive;
  dom0 : option positive;
  hooks : list hook;
}.

Definition set_doms (f : gmap positive domain → gmap positive domain) (s : xstate) : xstate :=
  mk_xstate (f (doms s)) (domain_hash s) (xen_consumers s) (global_virq_handlers s) (dom0 s) (hooks s).
Definition set_consumers (l : list Z) (s : xstate) : xstate :=
  mk_xstate (doms s) (domain_hash s) l (global_virq_handlers s) (dom0 s) (hooks s).
Definition set_handlers (f : gmap Z positive → gmap Z positive) (s : xstate) : xstate :=
  mk_xstate (doms s) (domain_hash s) (xen_consumers s) (f (global_virq_handlers s)) (dom0 s) (hooks s).
Definition log (h : hook) (s : xstate) : xstate :=
  mk_xstate (doms s) (domain_hash s) (xen_consumers s) (global_virq_handlers s) (dom0 s) (h :: hooks s).

Definition upd_dom (d : positive) (f : domain → domain) (s : xstate) : xstate :=
  set_doms (alter f d) s.
Definition upd_vcpu (d : positive) (v : Z) (f : vcpu → vcpu) (s : xstate) : xstate :=
  upd_dom d (set_vcpus (alter f v)) s.

(** What the code relies on outside this file: allocation, the security module,
    the interrupt code, notification callbacks of Xen-attached ports, and what
    other CPUs do while [__evtchn_close] holds no lock. *)
Record env := mk_env {
  xzalloc_ok : xstate → positive → bool;
  xsm_alloc_security_evtchn : xstate → positive → Z → Z;
  xsm_evtchn_unbound : xstate → positive → Z → Z → Z;
  xsm_evtchn_interdomain : xstate → positive → Z → positive → Z → Z;
  xsm_evtchn_send : xstate → positive → Z → Z;
  xsm_evtchn_status : xstate → positive → Z → Z;
  xsm_evtchn_reset : xstate → positive → positive → Z;
  pirq_access_permitted : xstate → positive → Z → bool;
  pirq_alloc_ok : xstate → positive → Z → bool;
  pirq_guest_bind : xstate → positive → Z → Z → bool → Z;
  hvm_pirq_busy : xstate → positive → Z → bool;
  notification : Z → positive → Z → Z → xstate → xstate;
  interference : xstate → xstate;
}.

(** ** Ports (xen/include/xen/event.h, xen/include/xen/sched.h) *)

Definition EVTCHNS_PER_BUCKET : Z := 128.
Definition NR_EVTCHN_BUCKETS : Z := 32.
Definition BITS_PER_EVTCHN_WORD (D : domain) : Z := if has_32bit_shinfo D then 32 else 64.
Definition MAX_EVTCHNS (D : domain) : Z := BITS_PER_EVTCHN_WORD D * BITS_PER_EVTCHN_WORD D.

Definition bucket_from_port (D : domain) (p : Z) : option (list evtchn) :=
  evtchn_buckets D !! (p / EVTCHNS_PER_BUCKET).

Definition port_is_valid (D : domain) (p : Z) : bool :=
  (0 <=? p) && (p <? MAX_EVTCHNS D) && bool_decide (is_Some (bucket_from_port D p)).

(** The slot of a port in its bucket. *)
Definition slot (p : Z) : nat := Z.to_nat (Z.land p (EVTCHNS_PER_BUCKET - 1)).

Definition evtchn_from_port (D : domain) (p : Z) : option evtchn :=
  b ← bucket_from_port D p; b !! slot p.

(** Writing to the channel of a port. *)
Definition upd_port (p : Z) (f : evtchn → evtchn) (D : domain) : domain :=
  set_buckets (alter (λ b, alter f (slot p) b) (p / EVTCHNS_PER_BUCKET)) D.

Definition consumer_is_xen (e : evtchn) : bool := negb (xen_consumer e =? 0).

(** ** Domain lookup (xen/common/domain.c) *)

Definition DOMID_SELF : Z := 0x7FF0.
Definition DOMID_INVALID : Z := 0x7FF4.

Definition rcu_lock_domain_by_id (s : xstate) (dom : Z) : option positive := domain_hash s !! dom.

Definition IS_PRIV_FOR (D : domain) (t : positive) : bool :=
  is_privileged D || bool_decide (target D = Some t).

(** The error code, or the domain. *)
Definition rcu_lock_target_domain_by_id (s : xstate) (cur : positive) (dom : Z)
    : outcome (Z + positive) :=
  if dom =? DOMID_SELF then Ok (inr cur)
  else
    match rcu_lock_domain_by_id s dom with
    | None => Ok (inl (- ESRCH))
    | Some d => deref (doms s !! cur) (λ C, Ok (if IS_PRIV_FOR C d then inr d else inl (- EPERM)))
    end.

Definition get_domain (d : positive) (s : xstate) : outcome (option xstate) :=
  deref (doms s !! d) (λ D,
    Ok (if destroyed D then None else Some (upd_dom d (set_refcnt (λ n, n + 1)) s))).

Definition put_domain (d : positive) (s : xstate) : outcome xstate :=
  deref (doms s !! d) (λ D,
    let s1 := upd_dom d (set_refcnt (λ n, n - 1)) s in
    Ok (if refcnt D - 1 =? 0 then log (Domain_destroy d) s1 else s1)).

(** ** Virtual IRQ numbers (xen/include/public/xen.h) *)

Definition VIRQ_TIMER : Z := 0.
Definition VIRQ_DEBUG : Z := 1.
Definition VIRQ_XENOPROF : Z := 7.
Definition VIRQ_ARCH_0 : Z := 16.
Definition VIRQ_ARCH_7 : Z := 23.
Definition NR_VIRQS : Z := 24.

Definition arch_virq_is_global (virq : Z) : bool := true.

Definition virq_is_global (virq : Z) : outcome bool :=
  BUG_ON (negb (virq <? NR_VIRQS))
    (Ok (if (virq =? VIRQ_TIMER) || (virq =? VIRQ_DEBUG) || (virq =? VIRQ_XENOPROF) then false
         else if (VIRQ_ARCH_0 <=? virq) && (virq <=? VIRQ_ARCH_7) then arch_virq_is_global virq
         else true)).

(** ** Notification functions of Xen-attached channels *)

(** [default_xen_notification_fn]'s address; 0 is [NULL]. *)
Definition default_fn : Z := 1.

Definition default_xen_notification_fn (d : positive) (v port : Z) (s : xstate) : outcome xstate :=
  deref (doms s !! d) (λ D, deref (vcpus D !! v) (λ V,
    Ok (if blocked_in_xen V then log (Vcpu_wake d v) (upd_vcpu d v (set_blocked false) s) else s))).

(** The loop of [get_xen_consumer] from index [i]: the index it stops at. *)
Fixpoint consumer_loop (l : list Z) (i : Z) (fn : Z) : Z * list Z :=
  match l with
  | [] => (i, [])
  | x :: l' =>
      let x' := if x =? 0 then fn else x in
      if x' =? fn then (i, x' :: l')
      else let '(j, r) := consumer_loop l' (i + 1) fn in (j, x' :: r)
  end.

Definition get_xen_consumer (fn : Z) (s : xstate) : outcome (Z * xstate) :=
  let fn := if fn =? 0 then default_fn else fn in
  let '(i, l) := consumer_loop (xen_consumers s) 0 fn in
  BUG_ON (Z.of_nat (length (xen_consumers s)) <=? i) (Ok (i + 1, set_consumers l s)).

(** [( *xen_notification_fn(rchn))(rvcpu, rport)] *)
Definition run_notification (E : env) (e : evtchn) (d : positive) (v port : Z) (s : xstate)
    : outcome xstate :=
  deref (xen_consumers s !! Z.to_nat (xen_consumer e - 1)) (λ fn,
    if fn =? 0 then Bug
    else if fn =? default_fn then default_xen_notification_fn d v port s
    else Ok (notification E fn d v port s)).

(** ** Port allocation *)

Fixpoint free_port_loop (fuel : nat) (D : domain) (port : Z) : outcome (Z + Z) :=
  match fuel with
  | O => Ok (inr port)
  | S fuel' =>
      if port_is_valid D port then
        deref (evtchn_from_port D port) (λ e,
          if bool_decide (e_state e = ECS_FREE) then Ok (inl port)
          else free_port_loop fuel' D (port + 1))
      else Ok (inr port)
  end.

(** [for ( i = 0; i < EVTCHNS_PER_BUCKET; i++ ) if ( xsm_alloc_security_evtchn(&chn[i]) ) ...] *)
Fixpoint xsm_alloc_loop (E : env) (s : xstate) (d : positive) (port : Z) (n : nat) : bool :=
  match n with
  | O => true
  | S n' => if xsm_alloc_security_evtchn E s d port =? 0 then xsm_alloc_loop E s d (port + 1) n' else false
  end.

Definition get_free_port (E : env) (d : positive) (s : xstate) : outcome (Z * xstate) :=
  deref (doms s !! d) (λ D,
    if is_dying D then Ok (- EINVAL, s)
    else
      let! r := free_port_loop (S (Z.to_nat (MAX_EVTCHNS D))) D 0 in
      match r with
      | inl port => Ok (port, s)
      | inr port =>
          if port =? MAX_EVTCHNS D then Ok (- ENOSPC, s)
          else if negb (xzalloc_ok E s d) then Ok (- ENOMEM, s)
          else if negb (xsm_alloc_loop E s d port (Z.to_nat EVTCHNS_PER_BUCKET)) then Ok (- ENOMEM, s)
          else
            let bucket := replicate (Z.to_nat EVTCHNS_PER_BUCKET) free_evtchn in
            Ok (port, upd_dom d (set_buckets (<[port / EVTCHNS_PER_BUCKET := bucket]>)) s)
      end).

(** ** Delivery *)

(** One iteration of the poller loop of [evtchn_set_pending]. *)
Definition wake_poller (d : positive) (port vcpuid : Z) (s : xstate) : outcome xstate :=
  deref (doms s !! d) (λ D,
    if bool_decide (vcpuid ∈ poll_mask D) then
      deref (vcpus D !! vcpuid) (λ V,
        if (poll_evtchn V <=? 0) || (poll_evtchn V =? port) then
          Ok (log (Vcpu_unblock d vcpuid)
                (upd_vcpu d vcpuid (set_poll 0)
                   (upd_dom d (set_poll_mask (λ m, m ∖ {[ vcpuid ]})) s)))
        else Ok s)
    else Ok s).

(** The set bits of [poll_mask] below [max_vcpus] are visited in order. *)
Fixpoint wake_pollers (d : positive) (port : Z) (ids : list Z) (s : xstate) : outcome xstate :=
  match ids with
  | [] => Ok s
  | v :: ids' => let! s1 := wake_poller d port v s in wake_pollers d port ids' s1
  end.

Definition bitmap_empty (m : gset Z) (n : Z) : bool :=
  forallb (λ i, bool_decide (i ∉ m)) (seqZ 0 n).

(** Set the selector bit of [port]'s word and mark events pending if it was
    clear. *)
Definition mark_sel (d : positive) (v port : Z) (D : domain) (V : vcpu) (s : xstate) : xstate :=
  let w := port / BITS_PER_EVTCHN_WORD D in
  if bool_decide (w ∈ evtchn_pending_sel V) then s
  else log (Vcpu_mark_events_pending d v) (upd_vcpu d v (set_sel ({[ w ]} ∪.)) s).

Definition evtchn_set_pending (d : positive) (v port : Z) (s : xstate) : outcome xstate :=
  deref (doms s !! d) (λ D, deref (vcpus D !! v) (λ V,
    if bool_decide (port ∈ evtchn_pending D) then Ok s
    else
      let s1 := upd_dom d (set_pending ({[ port ]} ∪.)) s in
      let s2 := if bool_decide (port ∈ evtchn_mask D) then s1 else mark_sel d v port D V s1 in
      if bitmap_empty (poll_mask D) (max_vcpus D) then Ok s2
      else wake_pollers d port (seqZ 0 (max_vcpus D)) s2)).

(** ** Binding operations. The result is the return code and, on success, the
    port the C code stores into the argument. *)

Definition evtchn_alloc_unbound (E : env) (cur : positive) (dom remote_dom : Z) (s : xstate)
    : outcome (Z * Z * xstate) :=
  let! r := rcu_lock_target_domain_by_id s cur dom in
  match r with
  | inl rc => Ok (rc, 0, s)
  | inr d =>
      let! (port, s1) := get_free_port E d s in
      if port <? 0 then Ok (port, 0, s1)
      else
        let rc := xsm_evtchn_unbound E s1 d port remote_dom in
        if negb (rc =? 0) then Ok (rc, 0, s1)
        else
          deref (doms s1 !! cur) (λ C,
            let rdom := if remote_dom =? DOMID_SELF then domain_id C else remote_dom in
            Ok (rc, port, upd_dom d (upd_port port (set_chan (ECS_UNBOUND rdom))) s1))
  end.

Definition evtchn_bind_interdomain (E : env) (cur : positive) (remote_dom remote_port : Z) (s : xstate)
    : outcome (Z * Z * xstate) :=
  deref (doms s !! cur) (λ L0,
    let rport := s32 remote_port in
    let rdom := if remote_dom =? DOMID_SELF then domain_id L0 else remote_dom in
    match rcu_lock_domain_by_id s rdom with
    | None => Ok (- ESRCH, 0, s)
    | Some rd =>
        let! (lport, s1) := get_free_port E cur s in
        if lport <? 0 then Ok (lport, 0, s1)
        else
          deref (doms s1 !! rd) (λ R,
            if negb (port_is_valid R rport) then Ok (- EINVAL, 0, s1)
            else
              deref (evtchn_from_port R rport) (λ rchn,
                if negb (bool_decide (e_state rchn = ECS_UNBOUND (domain_id L0)))
                then Ok (- EINVAL, 0, s1)
                else
                  let rc := xsm_evtchn_interdomain E s1 cur lport rd rport in
                  if negb (rc =? 0) then Ok (rc, 0, s1)
                  else
                    let s2 := upd_dom cur (upd_port lport (set_chan (ECS_INTERDOMAIN rd (u16 rport)))) s1 in
                    let s3 := upd_dom rd (upd_port rport (set_chan (ECS_INTERDOMAIN cur (u16 lport)))) s2 in
                    deref (doms s3 !! cur) (λ L, deref (evtchn_from_port L lport) (λ lchn,
                      let! s4 := evtchn_set_pending cur (notify_vcpu_id lchn) lport s3 in
                      Ok (rc, lport, s4)))))
    end).

Definition evtchn_bind_virq (E : env) (cur : positive) (virq vcpu : Z) (s : xstate)
    : outcome (Z * Z * xstate) :=
  deref (doms s !! cur) (λ D,
    let virq := s32 virq in
    let vcpu := s32 vcpu in
    if (virq <? 0) || (NR_VIRQS <=? virq) then Ok (- EINVAL, 0, s)
    else
      let! g := virq_is_global virq in
      if (g : bool) && negb (vcpu =? 0) then Ok (- EINVAL, 0, s)
      else if (vcpu <? 0) || (max_vcpus D <=? vcpu) then Ok (- ENOENT, 0, s)
      else
        match vcpus D !! vcpu with
        | None => Ok (- ENOENT, 0, s)
        | Some V =>
            if negb (virq_port V virq =? 0) then Ok (- EEXIST, 0, s)
            else
              let! (port, s1) := get_free_port E cur s in
              if port <? 0 then Ok (port, 0, s1)
              else
                let s2 := upd_dom cur (upd_port port
                            (λ e, set_notify (u16 vcpu) (set_chan (ECS_VIRQ (u16 virq)) e))) s1 in
                Ok (0, port, upd_vcpu cur vcpu (set_virq (<[virq := u16 port]>)) s2)
        end).

Definition evtchn_bind_ipi (E : env) (cur : positive) (vcpu : Z) (s : xstate)
    : outcome (Z * Z * xstate) :=
  deref (doms s !! cur) (λ D,
    let vcpu := s32 vcpu in
    if (vcpu <? 0) || (max_vcpus D <=? vcpu) || bool_decide (vcpus D !! vcpu = None)
    then Ok (- ENOENT, 0, s)
    else
      let! (port, s1) := get_free_port E cur s in
      if port <? 0 then Ok (port, 0, s1)
      else Ok (0, port, upd_dom cur (upd_port port
                          (λ e, set_notify (u16 vcpu) (set_chan ECS_IPI e))) s1)).

(** *** The list of PIRQ ports of a vcpu *)

(** [evtchn_from_port(d, port)->u.pirq.next_port = n]; writing the [pirq]
    member of a channel in another state would corrupt its union. *)
Definition write_next (d : positive) (port n : Z) (s : xstate) : outcome xstate :=
  deref (doms s !! d) (λ D, deref (evtchn_from_port D port) (λ e,
    match e_state e with
    | ECS_PIRQ irq _ prev => Ok (upd_dom d (upd_port port (set_chan (ECS_PIRQ irq (u16 n) prev))) s)
    | _ => Bug
    end)).
Definition write_prev (d : positive) (port p : Z) (s : xstate) : outcome xstate :=
  deref (doms s !! d) (λ D, deref (evtchn_from_port D port) (λ e,
    match e_state e with
    | ECS_PIRQ irq next _ => Ok (upd_dom d (upd_port port (set_chan (ECS_PIRQ irq next (u16 p)))) s)
    | _ => Bug
    end)).

Definition link_pirq_port (d : positive) (port v : Z) (s : xstate) : outcome xstate :=
  deref (doms s !! d) (λ D, deref (vcpus D !! v) (λ V,
    let head := pirq_evtchn_head V in
    let! s1 := write_prev d port 0 s in
    let! s2 := write_next d port head s1 in
    let! s3 := (if head =? 0 then Ok s2 else write_prev d head port s2) in
    Ok (upd_vcpu d v (set_head port) s3))).

(** [next] and [prev] are the fields of the unlinked channel. *)
Definition unlink_pirq_port (d : positive) (next prev v : Z) (s : xstate) : outcome xstate :=
  deref (doms s !! d) (λ D, deref (vcpus D !! v) (λ _,
    let! s1 := (if prev =? 0 then Ok (upd_vcpu d v (set_head next) s) else write_next d prev next s) in
    if next =? 0 then Ok s1 else write_prev d next prev s1)).

(** *** Physical IRQs *)

Definition pirq_to_evtchn (D : domain) (p : Z) : Z := from_option pirq_evtchn 0 (pirq_tree D !! p).
Definition domain_pirq_to_irq (D : domain) (p : Z) : Z := from_option pirq_arch_irq 0 (pirq_tree D !! p).

Definition pirq_get_info (E : env) (d : positive) (p : Z) (s : xstate) : outcome (option xstate) :=
  deref (doms s !! d) (λ D,
    match pirq_tree D !! p with
    | Some _ => Ok (Some s)
    | None => Ok (if pirq_alloc_ok E s d p then Some (upd_dom d (set_pirqs (<[p := mk_pirq 0 0]>)) s) else None)
    end).

Definition set_pirq_evtchn (port : Z) (i : pirq) : pirq := mk_pirq (u16 port) (pirq_arch_irq i).

(** The function of arch/x86/irq.c behind the macro of the same name. *)
Definition pirq_cleanup_check_fn (E : env) (d : positive) (p : Z) (s : xstate) : outcome xstate :=
  deref (doms s !! d) (λ D, deref (pirq_tree D !! p) (λ i,
    if negb (pirq_arch_irq i =? 0) then Ok s
    else if is_hvm D && hvm_pirq_busy E s d p then Ok s
    else Ok (upd_dom d (set_pirqs (delete p)) s))).

(** The macro of xen/include/xen/irq.h guarding it. *)
Definition pirq_cleanup_check (E : env) (d : positive) (p : Z) (s : xstate) : outcome xstate :=
  deref (doms s !! d) (λ D, deref (pirq_tree D !! p) (λ i,
    if negb (pirq_evtchn i =? 0) then pirq_cleanup_check_fn E d p s else Ok s)).

Definition BIND_PIRQ__WILL_SHARE : Z := 1.

(** [info] is found: bind it to [port], or undo. *)
Definition bind_pirq_port (E : env) (cur : positive) (D : domain) (pirq flags port : Z) (s : xstate)
    : outcome (Z * Z * xstate) :=
  let s3 := upd_dom cur (set_pirqs (alter (set_pirq_evtchn port) pirq)) s in
  let rc := if is_hvm D then 0
            else pirq_guest_bind E s3 cur 0 pirq (negb (Z.land flags BIND_PIRQ__WILL_SHARE =? 0)) in
  if negb (rc =? 0) then
    let! s4 := pirq_cleanup_check E cur pirq
                 (upd_dom cur (set_pirqs (alter (set_pirq_evtchn 0) pirq)) s3) in
    Ok (rc, 0, s4)
  else
    let s4 := upd_dom cur (upd_port port (set_chan (ECS_PIRQ (u16 pirq) 0 0))) s3 in
    let! s5 := link_pirq_port cur port 0 s4 in
    deref (doms s5 !! cur) (λ D5,
      Ok (rc, port, if is_hvm D5 && (0 <? domain_pirq_to_irq D5 pirq)
                    then log (Map_domain_emuirq_pirq cur pirq) s5 else s5)).

Definition evtchn_bind_pirq (E : env) (cur : positive) (pirq flags : Z) (s : xstate)
    : outcome (Z * Z * xstate) :=
  deref (doms s !! cur) (λ D,
    let pirq := s32 pirq in
    if (pirq <? 0) || (nr_pirqs D <=? pirq) then Ok (- EINVAL, 0, s)
    else if negb (is_hvm D) && negb (pirq_access_permitted E s cur pirq) then Ok (- EPERM, 0, s)
    else if negb (pirq_to_evtchn D pirq =? 0) then Ok (- EEXIST, 0, s)
    else
      let! (port, s1) := get_free_port E cur s in
      if port <? 0 then Ok (port, 0, s1)
      else
        let! info := pirq_get_info E cur pirq s1 in
        match info with
        | None => Ok (- ENOMEM, 0, s1)
        | Some s2 => bind_pirq_port E cur D pirq flags port s2
        end).

(** ** Closing a channel *)

(** How a pass over [__evtchn_close] from [again:] ends: at [out:], holding a
    reference to [d2] or not, or with [goto again] after locks were dropped. *)
Inductive close_result :=
| Out (rc : Z) (d2 : option positive) (s : xstate)
| Again (d2 : positive) (s : xstate).

(** The common tail after the [switch]. *)
Definition close_tail (d1 : positive) (port1 : Z) (d2 : option positive) (s : xstate) : close_result :=
  let s1 := upd_dom d1 (set_pending (λ m, m ∖ {[ port1 ]})) s in
  let s2 := upd_dom d1 (upd_port port1 (λ e, set_notify 0 (set_chan ECS_FREE e))) s1 in
  Out 0 d2 (log (Xsm_evtchn_close_post d1 port1) s2).

(** [case ECS_PIRQ] *)
Definition close_pirq (E : env) (d1 : positive) (D1 : domain) (irq next prev notify : Z) (s : xstate)
    : outcome xstate :=
  match pirq_tree D1 !! irq with
  | None => Ok s
  | Some _ =>
      let s1 := if is_hvm D1 then s else log (Pirq_guest_unbind d1 irq) s in
      let s2 := upd_dom d1 (set_pirqs (alter (set_pirq_evtchn 0) irq)) s1 in
      let! s3 := pirq_cleanup_check E d1 irq s2 in
      let! s4 := unlink_pirq_port d1 next prev notify s3 in
      deref (doms s4 !! d1) (λ D4,
        Ok (if is_hvm D1 && (0 <? domain_pirq_to_irq D4 irq)
            then log (Unmap_domain_pirq_emuirq d1 irq) s4 else s4))
  end.

(** [case ECS_VIRQ]: the [for_each_vcpu] loop. *)
Definition close_virq (d1 : positive) (port1 virq : Z) (s : xstate) : xstate :=
  upd_dom d1 (set_vcpus (fmap (λ V,
    if virq_port V virq =? port1 then set_virq (<[virq := 0]>) V else V))) s.

(** [case ECS_INTERDOMAIN] once both locks are held. *)
Definition close_remote (d1 : positive) (D1 : domain) (d2 : positive) (port2 : Z) (s : xstate)
    : outcome xstate :=
  deref (doms s !! d2) (λ D2,
    BUG_ON (negb (port_is_valid D2 port2))
      (deref (evtchn_from_port D2 port2) (λ chn2,
         match e_state chn2 with
         | ECS_INTERDOMAIN rd _ =>
             BUG_ON (negb (bool_decide (rd = d1)))
               (Ok (upd_dom d2 (upd_port port2 (set_chan (ECS_UNBOUND (domain_id D1)))) s))
         | _ => Bug
         end))).

Definition close_pass (E : env) (d1 : positive) (port1 : Z) (d2 : option positive) (s : xstate)
    : outcome close_result :=
  deref (doms s !! d1) (λ D1,
    if negb (port_is_valid D1 port1) then Ok (Out (- EINVAL) d2 s)
    else
      deref (evtchn_from_port D1 port1) (λ chn1,
        if consumer_is_xen chn1 then Ok (Out (- EINVAL) d2 s)
        else
          match e_state chn1 with
          | ECS_FREE | ECS_RESERVED => Ok (Out (- EINVAL) d2 s)
          | ECS_UNBOUND _ | ECS_IPI => Ok (close_tail d1 port1 d2 s)
          | ECS_PIRQ irq next prev =>
              let! s1 := close_pirq E d1 D1 irq next prev (notify_vcpu_id chn1) s in
              Ok (close_tail d1 port1 d2 s1)
          | ECS_VIRQ virq => Ok (close_tail d1 port1 d2 (close_virq d1 port1 virq s))
          | ECS_INTERDOMAIN rd port2 =>
              match d2 with
              | None =>
                  let! r := get_domain rd s in
                  match r with
                  | None => Bug
                  | Some s1 =>
                      if bool_decide ((d1 < rd)%positive ∨ d1 = rd) then
                        let! s2 := close_remote d1 D1 rd port2 s1 in
                        Ok (close_tail d1 port1 (Some rd) s2)
                      else Ok (Again rd s1)
                  end
              | Some d2' =>
                  if bool_decide (d2' = rd) then
                    let! s2 := close_remote d1 D1 rd port2 s in
                    Ok (close_tail d1 port1 d2 s2)
                  else Ok (Out (- EINVAL) d2 s)
              end
          end)).

(** [out:] *)
Definition close_out (r : close_result) : outcome (Z * xstate) :=
  match r with
  | Out rc None s => Ok (rc, s)
  | Out rc (Some d2) s => let! s1 := put_domain d2 s in Ok (rc, s1)
  | Again _ _ => Bug
  end.

(** The second pass holds a reference to [d2] and so never goes [again]. *)
Definition __evtchn_close (E : env) (d1 : positive) (port1 : Z) (s : xstate) : outcome (Z * xstate) :=
  let! r := close_pass E d1 port1 None s in
  match r with
  | Out _ _ _ => close_out r
  | Again d2 s1 =>
      let! r2 := close_pass E d1 port1 (Some d2) (interference E s1) in
      close_out r2
  end.

Definition evtchn_close (E : env) (cur : positive) (port : Z) (s : xstate) : outcome (Z * xstate) :=
  __evtchn_close E cur (s32 port) s.

(** ** Sending *)

Definition evtchn_send (E : env) (ld : positive) (lport : Z) (s : xstate) : outcome (Z * xstate) :=
  deref (doms s !! ld) (λ L,
    if negb (port_is_valid L lport) then Ok (- EINVAL, s)
    else
      deref (evtchn_from_port L lport) (λ lchn,
        if consumer_is_xen lchn then Ok (- EINVAL, s)
        else
          let ret := xsm_evtchn_send E s ld lport in
          if negb (ret =? 0) then Ok (ret, s)
          else
            match e_state lchn with
            | ECS_INTERDOMAIN rd rport =>
                deref (doms s !! rd) (λ R, deref (evtchn_from_port R rport) (λ rchn,
                  let rvcpu := notify_vcpu_id rchn in
                  let! s1 := (if consumer_is_xen rchn then run_notification E rchn rd rvcpu rport s
                              else evtchn_set_pending rd rvcpu rport s) in
                  Ok (ret, s1)))
            | ECS_IPI =>
                let! s1 := evtchn_set_pending ld (notify_vcpu_id lchn) lport s in
                Ok (ret, s1)
            | ECS_UNBOUND _ => Ok (ret, s)
            | _ => Ok (- EINVAL, s)
            end)).

(** ** Virtual and physical interrupts *)

Definition guest_enabled_event (v : option vcpu) (virq : Z) : bool :=
  match v with None => false | Some V => negb (virq_port V virq =? 0) end.

Definition send_guest_vcpu_virq (d : positive) (v virq : Z) (s : xstate) : outcome xstate :=
  let! g := virq_is_global virq in
  BUG_ON g
    (deref (doms s !! d) (λ D, deref (vcpus D !! v) (λ V,
       let port := virq_port V virq in
       if port =? 0 then Ok s else evtchn_set_pending d v port s))).

Definition send_guest_global_virq (d : option positive) (virq : Z) (s : xstate) : outcome xstate :=
  let! g := virq_is_global virq in
  BUG_ON (negb g)
    (match d with
     | None => Ok s
     | Some d =>
         deref (doms s !! d) (λ D,
           match vcpus D !! 0 with
           | None => Ok s
           | Some V =>
               let port := virq_port V virq in
               if port =? 0 then Ok s
               else deref (evtchn_from_port D port) (λ chn,
                      evtchn_set_pending d (notify_vcpu_id chn) port s)
           end)
     end).

(** [pirq] is the number of a [struct pirq], or [NULL]. *)
Definition send_guest_pirq (d : positive) (p : option Z) (s : xstate) : outcome xstate :=
  deref (doms s !! d) (λ D,
    let port := from_option (pirq_to_evtchn D) 0 p in
    if port =? 0 then BUG_ON (negb (is_hvm D)) (Ok s)
    else deref (evtchn_from_port D port) (λ chn,
           evtchn_set_pending d (notify_vcpu_id chn) port s)).

Definition send_global_virq (virq : Z) (s : xstate) : outcome xstate :=
  BUG_ON (negb (virq <? NR_VIRQS))
    (let! g := virq_is_global virq in
     BUG_ON (negb g)
       (send_guest_global_virq
          (match global_virq_handlers s !! virq with Some d => Some d | None => dom0 s end) virq s)).

(** ** Handlers of global virtual IRQs *)

Definition set_global_virq_handler (d : positive) (virq : Z) (s : xstate) : outcome (Z * xstate) :=
  if NR_VIRQS <=? virq then Ok (- EINVAL, s)
  else
    let! g := virq_is_global virq in
    if negb g then Ok (- EINVAL, s)
    else if bool_decide (global_virq_handlers s !! virq = Some d) then Ok (0, s)
    else
      let! r := get_domain d s in
      match r with
      | None => Ok (- EINVAL, s)
      | Some s1 =>
          let old := global_virq_handlers s1 !! virq in
          let s2 := set_handlers (<[virq := d]>) s1 in
          match old with
          | None => Ok (0, s2)
          | Some o => let! s3 := put_domain o s2 in Ok (0, s3)
          end
      end.

(** The first loop: the slots of [d] are cleared and counted. *)
Fixpoint clear_handlers (d : positive) (virqs : list Z) (n : nat) (s : xstate) : nat * xstate :=
  match virqs with
  | [] => (n, s)
  | virq :: l =>
      if bool_decide (global_virq_handlers s !! virq = Some d)
      then clear_handlers d l (S n) (set_handlers (delete virq) s)
      else clear_handlers d l n s
  end.

(** [while (put_count) { put_domain(d); put_count--; }] *)
Fixpoint put_times (d : positive) (n : nat) (s : xstate) : outcome xstate :=
  match n with
  | O => Ok s
  | S n' => let! s1 := put_domain d s in put_times d n' s1
  end.

Definition clear_global_virq_handlers (d : positive) (s : xstate) : outcome xstate :=
  let '(put_count, s1) := clear_handlers d (seqZ 0 NR_VIRQS) 0 s in
  put_times d put_count s1.

(** ** Queries and rebinding *)

Inductive evtchn_stat :=
| EVTCHNSTAT_closed
| EVTCHNSTAT_unbound (dom : Z)
| EVTCHNSTAT_interdomain (dom port : Z)
| EVTCHNSTAT_pirq (pirq : Z)
| EVTCHNSTAT_virq (virq : Z)
| EVTCHNSTAT_ipi.

Definition evtchn_status (E : env) (cur : positive) (dom port : Z) (s : xstate)
    : outcome (Z * option (evtchn_stat * Z)) :=
  let! r := rcu_lock_target_domain_by_id s cur dom in
  match r with
  | inl rc => Ok (rc, None)
  | inr d =>
      deref (doms s !! d) (λ D,
        let port := s32 port in
        if negb (port_is_valid D port) then Ok (- EINVAL, None)
        else
          deref (evtchn_from_port D port) (λ chn,
            let rc := xsm_evtchn_status E s d port in
            if negb (rc =? 0) then Ok (rc, None)
            else
              let! st :=
                match e_state chn with
                | ECS_FREE | ECS_RESERVED => Ok EVTCHNSTAT_closed
                | ECS_UNBOUND rdom => Ok (EVTCHNSTAT_unbound rdom)
                | ECS_INTERDOMAIN rd rport =>
                    deref (doms s !! rd) (λ R, Ok (EVTCHNSTAT_interdomain (domain_id R) rport))
                | ECS_PIRQ irq _ _ => Ok (EVTCHNSTAT_pirq irq)
                | ECS_VIRQ virq => Ok (EVTCHNSTAT_virq virq)
                | ECS_IPI => Ok EVTCHNSTAT_ipi
                end in
              Ok (rc, Some (st, notify_vcpu_id chn))))
  end.

Definition evtchn_bind_vcpu (E : env) (cur : positive) (port vcpu_id : Z) (s : xstate)
    : outcome (Z * xstate) :=
  deref (doms s !! cur) (λ D,
    if max_vcpus D <=? vcpu_id then Ok (- ENOENT, s)
    else
      match vcpus D !! vcpu_id with
      | None => Ok (- ENOENT, s)
      | Some V =>
          if negb (port_is_valid D port) then Ok (- EINVAL, s)
          else
            deref (evtchn_from_port D port) (λ chn,
              let rebind := upd_dom cur (upd_port port (set_notify (u16 vcpu_id))) in
              if consumer_is_xen chn then Ok (- EINVAL, s)
              else
                match e_state chn with
                | ECS_VIRQ virq =>
                    let! g := virq_is_global virq in
                    if (g : bool) then Ok (0, rebind s) else Ok (- EINVAL, s)
                | ECS_UNBOUND _ | ECS_INTERDOMAIN _ _ => Ok (0, rebind s)
                | ECS_PIRQ irq next prev =>
                    if notify_vcpu_id chn =? vcpu_id then Ok (0, s)
                    else
                      let! s1 := unlink_pirq_port cur next prev (notify_vcpu_id chn) s in
                      let s2 := log (Pirq_set_affinity cur irq (processor V)) (rebind s1) in
                      let! s3 := link_pirq_port cur port vcpu_id s2 in
                      Ok (0, s3)
                | _ => Ok (- EINVAL, s)
                end)
      end).

Definition evtchn_unmask (cur : positive) (port : Z) (s : xstate) : outcome (Z * xstate) :=
  deref (doms s !! cur) (λ D,
    if negb (port_is_valid D port) then Ok (- EINVAL, s)
    else
      deref (evtchn_from_port D port) (λ chn,
        let v := notify_vcpu_id chn in
        let s1 := upd_dom cur (set_mask (λ m, m ∖ {[ port ]})) s in
        if bool_decide (port ∈ evtchn_mask D) && bool_decide (port ∈ evtchn_pending D)
        then deref (vcpus D !! v) (λ V, Ok (0, mark_sel cur v port D V s1))
        else Ok (0, s1))).

(** [for ( i = 0; port_is_valid(d, i); i++ ) (void)__evtchn_close(d, i);] *)
Fixpoint reset_loop (E : env) (fuel : nat) (d : positive) (i : Z) (s : xstate) : outcome xstate :=
  match fuel with
  | O => Ok s
  | S fuel' =>
      deref (doms s !! d) (λ D,
        if port_is_valid D i then
          let! (_, s1) := __evtchn_close E d i s in
          reset_loop E fuel' d (i + 1) s1
        else Ok s)
  end.

(** More than the ports a domain can have. *)
Definition port_fuel : nat := 4097.

Definition evtchn_reset (E : env) (cur : positive) (dom : Z) (s : xstate) : outcome (Z * xstate) :=
  let! r := rcu_lock_target_domain_by_id s cur dom in
  match r with
  | inl rc => Ok (rc, s)
  | inr d =>
      let rc := xsm_evtchn_reset E s cur d in
      if negb (rc =? 0) then Ok (rc, s)
      else
        let! s1 := reset_loop E port_fuel d 0 s in
        Ok (0, s1)
  end.

(** ** Xen-attached channels *)

(** The port, or a negative error. *)
Definition alloc_unbound_xen_event_channel (E : env) (d : positive) (vcpu_id remote_domid fn : Z)
    (s : xstate) : outcome (Z * xstate) :=
  let! (port, s1) := get_free_port E d s in
  if port <? 0 then Ok (port, s1)
  else
    let rc := xsm_evtchn_unbound E s1 d port remote_domid in
    let! (consumer, s2) := get_xen_consumer fn s1 in
    let rdom := if rc =? 0 then remote_domid else DOMID_INVALID in
    Ok (port, upd_dom d (upd_port port (λ _, mk_evtchn (ECS_UNBOUND rdom) (u8 consumer) (u16 vcpu_id))) s2).

Definition free_xen_event_channel (E : env) (d : positive) (port : Z) (s : xstate) : outcome xstate :=
  deref (doms s !! d) (λ D,
    if is_dying D then Ok s
    else
      BUG_ON (negb (port_is_valid D port))
        (deref (evtchn_from_port D port) (λ chn,
           BUG_ON (negb (consumer_is_xen chn))
             (let! (_, s2) := __evtchn_close E d port (upd_dom d (upd_port port (set_consumer 0)) s) in
              Ok s2)))).

Definition notify_via_xen_event_channel (ld : positive) (lport : Z) (s : xstate) : outcome xstate :=
  deref (doms s !! ld) (λ L,
    if is_dying L then Ok s
    else
      BUG_ON (negb (port_is_valid L lport))
        (deref (evtchn_from_port L lport) (λ lchn,
           BUG_ON (negb (consumer_is_xen lchn))
             (match e_state lchn with
              | ECS_INTERDOMAIN rd rport =>
                  deref (doms s !! rd) (λ R, deref (evtchn_from_port R rport) (λ rchn,
                    evtchn_set_pending rd (notify_vcpu_id rchn) rport s))
              | _ => Ok s
              end)))).

(** ** Domain life cycle *)

(** [poll_mask_ok]: the allocation of [poll_mask] succeeded. *)
Definition evtchn_init (E : env) (poll_mask_ok : bool) (d : positive) (s : xstate) : outcome (Z * xstate) :=
  let! (port, s1) := get_free_port E d s in
  if negb (port =? 0) then Ok (- EINVAL, s1)
  else
    let s2 := upd_dom d (upd_port 0 (set_chan ECS_RESERVED)) s1 in
    if negb poll_mask_ok then Ok (- ENOMEM, s2)
    else Ok (0, upd_dom d (set_poll_mask (λ _, ∅)) s2).

Fixpoint destroy_loop (E : env) (fuel : nat) (d : positive) (i : Z) (s : xstate) : outcome xstate :=
  match fuel with
  | O => Ok s
  | S fuel' =>
      deref (doms s !! d) (λ D,
        if port_is_valid D i then
          let! (_, s1) := __evtchn_close E d i (upd_dom d (upd_port i (set_consumer 0)) s) in
          destroy_loop E fuel' d (i + 1) s1
        else Ok s)
  end.

Definition evtchn_destroy (E : env) (d : positive) (s : xstate) : outcome xstate :=
  deref (doms s !! d) (λ D,
    BUG_ON (negb (is_dying D))
      (let! s1 := destroy_loop E port_fuel d 0 s in
       let s2 := upd_dom d (set_buckets (λ _, ∅)) s1 in
       clear_global_virq_handlers d s2)).

(** The loop over a vcpu's PIRQ ports. *)
Fixpoint move_pirqs_loop (fuel : nat) (d : positive) (mask port : Z) (s : xstate) : outcome xstate :=
  match fuel with
  | O => Ok s
  | S fuel' =>
      if port =? 0 then Ok s
      else
        deref (doms s !! d) (λ D, deref (evtchn_from_port D port) (λ chn,
          match e_state chn with
          | ECS_PIRQ irq next _ => move_pirqs_loop fuel' d mask next (log (Pirq_set_affinity d irq mask) s)
          | _ => Bug
          end))
  end.

Definition evtchn_move_pirqs (d : positive) (v : Z) (s : xstate) : outcome xstate :=
  deref (doms s !! d) (λ D, deref (vcpus D !! v) (λ V,
    move_pirqs_loop port_fuel d (processor V) (pirq_evtchn_head V) s)).

(** ** The hypercall *)

(** The command and the argument structure it points to. *)
Inductive evtchn_op :=
| EVTCHNOP_alloc_unbound (dom remote_dom : Z)
| EVTCHNOP_bind_interdomain (remote_dom remote_port : Z)
| EVTCHNOP_bind_virq (virq vcpu : Z)
| EVTCHNOP_bind_ipi (vcpu : Z)
| EVTCHNOP_bind_pirq (pirq flags : Z)
| EVTCHNOP_close (port : Z)
| EVTCHNOP_send (port : Z)
| EVTCHNOP_status (dom port : Z)
| EVTCHNOP_bind_vcpu (port vcpu : Z)
| EVTCHNOP_unmask (port : Z)
| EVTCHNOP_reset (dom : Z)
| EVTCHNOP_other.

(** What is written back to the argument structure. *)
Inductive evtchn_out :=
| No_out
| Out_port (port : Z)
| Out_status (st : evtchn_stat) (vcpu : Z).

(** [if ( (rc == 0) && (copy_to_guest(arg, ...) != 0) ) rc = -EFAULT;] *)
Definition copy_back (to_ok : bool) (r : Z * Z * xstate) : Z * evtchn_out * xstate :=
  let '(rc, port, s) := r in
  if rc =? 0 then if to_ok then (rc, Out_port port, s) else (- EFAULT, No_out, s)
  else (rc, No_out, s).

(** [from_ok] and [to_ok]: [copy_from_guest] and [copy_to_guest] succeed. *)
Definition do_event_channel_op (E : env) (cur : positive) (op : evtchn_op) (from_ok to_ok : bool)
    (s : xstate) : outcome (Z * evtchn_out * xstate) :=
  let plain (r : outcome (Z * xstate)) := let! (rc, s1) := r in Ok (rc, No_out, s1) in
  match op with
  | EVTCHNOP_other => Ok (- ENOSYS, No_out, s)
  | _ =>
      if negb from_ok then Ok (- EFAULT, No_out, s)
      else
        match op with
        | EVTCHNOP_alloc_unbound dom rdom =>
            let! r := evtchn_alloc_unbound E cur dom rdom s in Ok (copy_back to_ok r)
        | EVTCHNOP_bind_interdomain rdom rport =>
            let! r := evtchn_bind_interdomain E cur rdom rport s in Ok (copy_back to_ok r)
        | EVTCHNOP_bind_virq virq vcpu =>
            let! r := evtchn_bind_virq E cur virq vcpu s in Ok (copy_back to_ok r)
        | EVTCHNOP_bind_ipi vcpu =>
            let! r := evtchn_bind_ipi E cur vcpu s in Ok (copy_back to_ok r)
        | EVTCHNOP_bind_pirq pirq flags =>
            let! r := evtchn_bind_pirq E cur pirq flags s in Ok (copy_back to_ok r)
        | EVTCHNOP_close port => plain (evtchn_close E cur port s)
        | EVTCHNOP_send port => plain (evtchn_send E cur port s)
        | EVTCHNOP_status dom port =>
            let! (rc, st) := evtchn_status E cur dom port s in
            Ok (match st with
                | Some (st, v) => if to_ok then (rc, Out_status st v, s) else (- EFAULT, No_out, s)
                | None => (rc, No_out, s)
                end)
        | EVTCHNOP_bind_vcpu port vcpu => plain (evtchn_bind_vcpu E cur port vcpu s)
        | EVTCHNOP_unmask port => plain (evtchn_unmask cur port s)
        | EVTCHNOP_reset dom => plain (evtchn_reset E cur dom s)
        | EVTCHNOP_other => Ok (- ENOSYS, No_out, s)
        end
  end.
