(* ===== verification/EvtChnInv.v ===== *)
(** * The event channel invariant (xen/common/event_channel.c)

    [xinv] says that inter-domain channels are paired, that the VIRQ and PIRQ
    tables and the per-vcpu PIRQ lists agree with the ports' states, and that
    free ports carry no binding. It is what the [BUG_ON]s of the code check
    pieces of. This file has the invariant, how ports and domains change under
    the primitive updates, and which updates it does not see. *)

From S2P Require Import Prelude EvtChn.
Local Open Scope xen_scope.

(** ** The channel of a port *)

Definition chan_of (D : domain) (p : Z) : option evtchn :=
  if port_is_valid D p then evtchn_from_port D p else None.

Lemma slot_lt p : (slot p < 128)%nat.
Proof.
  unfold slot, EVTCHNS_PER_BUCKET. change (128 - 1) with (Z.ones 7). rewrite Z.land_ones by lia.
  pose proof (Z.mod_pos_bound p (2 ^ 7) ltac:(lia)). lia.
Qed.

Lemma slot_mod p : Z.of_nat (slot p) = p mod 128.
Proof.
  unfold slot, EVTCHNS_PER_BUCKET. change (128 - 1) with (Z.ones 7). rewrite Z.land_ones by lia.
  change (2 ^ 7) with 128. pose proof (Z.mod_pos_bound p 128 ltac:(lia)). lia.
Qed.

Lemma same_slot p q :
  p / EVTCHNS_PER_BUCKET = q / EVTCHNS_PER_BUCKET → slot p = slot q → p = q.
Proof.
  unfold EVTCHNS_PER_BUCKET. intros Hd Hs. pose proof (slot_mod p) as H1. pose proof (slot_mod q) as H2.
  rewrite Hs in H1. rewrite (Z.div_mod p 128), (Z.div_mod q 128) by lia. lia.
Qed.

Lemma port_is_valid_spec D p :
  port_is_valid D p = true ↔ 0 ≤ p < MAX_EVTCHNS D ∧ is_Some (evtchn_buckets D !! (p / 128)).
Proof.
  unfold port_is_valid, bucket_from_port, EVTCHNS_PER_BUCKET.
  rewrite !andb_true_iff, Z.leb_le, Z.ltb_lt, bool_decide_eq_true. tauto.
Qed.

Lemma chan_of_Some D p e :
  chan_of D p = Some e ↔
  port_is_valid D p = true ∧ evtchn_from_port D p = Some e.
Proof. unfold chan_of. destruct (port_is_valid D p); naive_solver. Qed.

Lemma chan_of_valid D p e : chan_of D p = Some e → port_is_valid D p = true.
Proof. intros H. by apply chan_of_Some in H as [? _]. Qed.

Lemma port_is_valid_upd D p f q : port_is_valid (upd_port p f D) q = port_is_valid D q.
Proof.
  unfold port_is_valid, bucket_from_port, upd_port. simpl.
  change (MAX_EVTCHNS (set_buckets _ D)) with (MAX_EVTCHNS D). f_equal. apply bool_decide_ext.
  rewrite lookup_alter_is_Some. done.
Qed.

Lemma evtchn_from_port_upd D p f q :
  evtchn_from_port (upd_port p f D) q =
    if decide (q = p) then f <$> evtchn_from_port D p else evtchn_from_port D q.
Proof.
  unfold evtchn_from_port, bucket_from_port, upd_port. simpl. rewrite lookup_alter. case_decide as Hb.
  - rewrite <- Hb. destruct (evtchn_buckets D !! (p / EVTCHNS_PER_BUCKET)) as [b|] eqn:E; simpl.
    + rewrite list_lookup_alter. case_decide as Hs.
      * assert (q = p) as -> by (apply same_slot; congruence). by rewrite decide_True.
      * rewrite decide_False by (intros ->; done). done.
    + by case_decide.
  - rewrite decide_False by (intros ->; done). done.
Qed.

Lemma chan_of_upd D p f q :
  chan_of (upd_port p f D) q = if decide (q = p) then f <$> chan_of D p else chan_of D q.
Proof.
  unfold chan_of. rewrite port_is_valid_upd, evtchn_from_port_upd.
  case_decide; [subst|]; by destruct (port_is_valid D _).
Qed.

(** ** The invariant *)

Definition is_global (virq : Z) : bool :=
  negb ((virq =? VIRQ_TIMER) || (virq =? VIRQ_DEBUG) || (virq =? VIRQ_XENOPROF)).

Definition is_plain (c : chan) : Prop :=
  match c with ECS_FREE | ECS_UNBOUND _ | ECS_INTERDOMAIN _ _ | ECS_IPI => True | _ => False end.

Record ports_wf (D : domain) : Prop := {
  pw_bucket k b : evtchn_buckets D !! k = Some b → length b = 128%nat ∧ 0 ≤ k < MAX_EVTCHNS D / 128;
  pw_contig k j : is_Some (evtchn_buckets D !! k) → 0 ≤ j < k → is_Some (evtchn_buckets D !! j);
  pw_zero : is_dying D = false ∨ (∃ k, is_Some (evtchn_buckets D !! k)) →
    ∃ e, chan_of D 0 = Some e ∧ e_state e = ECS_RESERVED;
  pw_reserved p e : chan_of D p = Some e → e_state e = ECS_RESERVED → p = 0;
  pw_free p e : chan_of D p = Some e → e_state e = ECS_FREE → e = free_evtchn;
  pw_xen p e : chan_of D p = Some e → xen_consumer e ≠ 0 →
    (∃ r, e_state e = ECS_UNBOUND r) ∨ (∃ d q, e_state e = ECS_INTERDOMAIN d q);
  pw_notify p e : chan_of D p = Some e → is_Some (vcpus D !! notify_vcpu_id e);
  pw_vcpu0 : is_Some (vcpus D !! 0);
  pw_vcpus v : is_Some (vcpus D !! v) → 0 ≤ v < max_vcpus D;
  pw_max : max_vcpus D ≤ 8192;
  pw_poll v : v ∈ poll_mask D → 0 ≤ v < max_vcpus D → is_Some (vcpus D !! v);
  pw_destroyed : destroyed D = true → is_dying D = true ∧ evtchn_buckets D = ∅;
}.

Record virq_wf (D : domain) : Prop := {
  vw_port v V virq : vcpus D !! v = Some V → virq_port V virq ≠ 0 →
    0 ≤ virq < NR_VIRQS ∧ (is_global virq = true → v = 0) ∧
    ∃ e, chan_of D (virq_port V virq) = Some e ∧ e_state e = ECS_VIRQ virq ∧
         (is_global virq = false → notify_vcpu_id e = v);
  vw_chan p e virq : chan_of D p = Some e → e_state e = ECS_VIRQ virq →
    ∃ v V, vcpus D !! v = Some V ∧ virq_port V virq = p;
}.

(** The ports linked from [port], whose predecessor is [prev], up to [stop]. *)
Fixpoint pirq_chain (D : domain) (prev port : Z) (l : list Z) (stop : Z) : Prop :=
  match l with
  | [] => port = stop
  | p :: l' =>
      port = p ∧ p ≠ 0 ∧
      ∃ e irq next, chan_of D p = Some e ∧ e_state e = ECS_PIRQ irq next prev ∧ pirq_chain D p next l' stop
  end.

Definition on_pirq_list (D : domain) (v p : Z) : Prop :=
  ∃ e irq n pr, chan_of D p = Some e ∧ e_state e = ECS_PIRQ irq n pr ∧ notify_vcpu_id e = v.

Record pirq_wf (D : domain) : Prop := {
  iw_nr : nr_pirqs D ≤ 65536;
  iw_port irq i : pirq_tree D !! irq = Some i → pirq_evtchn i ≠ 0 →
    ∃ e n pr, chan_of D (pirq_evtchn i) = Some e ∧ e_state e = ECS_PIRQ irq n pr;
  iw_chan p e irq n pr : chan_of D p = Some e → e_state e = ECS_PIRQ irq n pr →
    0 ≤ irq < nr_pirqs D ∧ ∃ i, pirq_tree D !! irq = Some i ∧ pirq_evtchn i = p;
  iw_list v V : vcpus D !! v = Some V →
    ∃ l, NoDup l ∧ pirq_chain D 0 (pirq_evtchn_head V) l 0 ∧ ∀ p, p ∈ l ↔ on_pirq_list D v p;
}.

Record dom_wf (D : domain) : Prop := {
  dw_ports : ports_wf D;
  dw_virq : virq_wf D;
  dw_pirq : pirq_wf D;
}.

(** The channel of port [p] of the domain at [d]. *)
Definition chan_at (s : xstate) (d : positive) (p : Z) : option evtchn :=
  D ← doms s !! d; chan_of D p.

(** Everything but the pairing of inter-domain channels. *)
Record xbase (s : xstate) : Prop := {
  xb_dom d D : doms s !! d = Some D → dom_wf D;
  xb_hash id d : domain_hash s !! id = Some d → ∃ D, doms s !! d = Some D ∧ domain_id D = id;
  xb_consumers : length (xen_consumers s) = 8%nat;
  xb_consumer d p e : chan_at s d p = Some e → xen_consumer e ≠ 0 →
    1 ≤ xen_consumer e ∧
    ∃ fn, xen_consumers s !! Z.to_nat (xen_consumer e - 1) = Some fn ∧ fn ≠ 0;
  xb_handlers virq d : global_virq_handlers s !! virq = Some d → is_Some (doms s !! d);
  xb_dom0 d : dom0 s = Some d → is_Some (doms s !! d);
}.

Definition paired (s : xstate) : Prop :=
  ∀ d p e d2 p2, chan_at s d p = Some e → e_state e = ECS_INTERDOMAIN d2 p2 →
    ∃ e2, chan_at s d2 p2 = Some e2 ∧ e_state e2 = ECS_INTERDOMAIN d p.

Record xinv (s : xstate) : Prop := {
  xi_base : xbase s;
  xi_pair : paired s;
}.

(** ** Updates the invariant does not see *)

Record vcpu_same (V V' : vcpu) : Prop := {
  vs_virq : virq_to_evtchn V' = virq_to_evtchn V;
  vs_head : pirq_evtchn_head V' = pirq_evtchn_head V;
  vs_processor : processor V' = processor V;
}.

Record quiet_dom (D D' : domain) : Prop := {
  qd_id : domain_id D' = domain_id D;
  qd_dying : is_dying D' = is_dying D;
  qd_hvm : is_hvm D' = is_hvm D;
  qd_priv : is_privileged D' = is_privileged D;
  qd_target : target D' = target D;
  qd_32 : has_32bit_shinfo D' = has_32bit_shinfo D;
  qd_max : max_vcpus D' = max_vcpus D;
  qd_buckets : evtchn_buckets D' = evtchn_buckets D;
  qd_nr : nr_pirqs D' = nr_pirqs D;
  qd_pirqs : pirq_tree D' = pirq_tree D;
  qd_poll : poll_mask D' ⊆ poll_mask D;
  qd_destroyed : destroyed D' = destroyed D;
  qd_vcpus v : option_Forall2 vcpu_same (vcpus D !! v) (vcpus D' !! v);
}.

Record quiet (s s' : xstate) : Prop := {
  qu_dom d : option_Forall2 quiet_dom (doms s !! d) (doms s' !! d);
  qu_hash : domain_hash s' = domain_hash s;
  qu_consumers : xen_consumers s' = xen_consumers s;
  qu_handlers : global_virq_handlers s' = global_virq_handlers s;
  qu_dom0 : dom0 s' = dom0 s;
}.

#[export] Instance vcpu_same_preorder : PreOrder vcpu_same.
Proof.
  split; [by intros V; split|]. intros V1 V2 V3 [] []. split; congruence.
Qed.

#[export] Instance quiet_dom_preorder : PreOrder quiet_dom.
Proof.
  split; [intros D; split; auto; intros v; apply reflexivity|].
  intros D1 D2 D3 [] []. split; try congruence; [set_solver|].
  intros v. by transitivity (vcpus D2 !! v).
Qed.

#[export] Instance quiet_preorder : PreOrder quiet.
Proof.
  split; [intros s; split; auto; intros d; apply reflexivity|].
  intros s1 s2 s3 [] []. split; try congruence. intros d. by transitivity (doms s2 !! d).
Qed.

Lemma quiet_log h s : quiet s (log h s).
Proof. split; auto. intros d. apply reflexivity. Qed.

Lemma quiet_upd_dom d f s :
  (∀ D, doms s !! d = Some D → quiet_dom D (f D)) → quiet s (upd_dom d f s).
Proof.
  intros Hf. split; auto. intros d'. simpl. rewrite lookup_alter. case_decide; [subst|apply reflexivity].
  destruct (doms s !! d') as [D|] eqn:E; simpl; constructor. by apply Hf.
Qed.

Lemma quiet_upd_vcpu d v f s :
  (∀ V, vcpu_same V (f V)) → quiet s (upd_vcpu d v f s).
Proof.
  intros Hf. apply quiet_upd_dom. intros D _. split; auto. intros v'. simpl. rewrite lookup_alter.
  case_decide; [subst|apply reflexivity]. destruct (vcpus D !! v'); simpl; by constructor.
Qed.

Lemma quiet_dom_chan D D' p : quiet_dom D D' → chan_of D' p = chan_of D p.
Proof.
  intros []. unfold chan_of, port_is_valid, evtchn_from_port, bucket_from_port, MAX_EVTCHNS, BITS_PER_EVTCHN_WORD.
  by rewrite qd_33, qd_buckets0.
Qed.

Lemma quiet_chan s s' d p : quiet s s' → chan_at s' d p = chan_at s d p.
Proof.
  intros H. unfold chan_at. destruct (qu_dom _ _ H d) as [D D' HD|]; simpl; [|done].
  by apply quiet_dom_chan.
Qed.

Lemma quiet_vcpu D D' v V :
  quiet_dom D D' → vcpus D' !! v = Some V → ∃ V0, vcpus D !! v = Some V0 ∧ vcpu_same V0 V.
Proof. intros H HV. destruct (qd_vcpus _ _ H v) as [V0 V' HV'|]; [|done]. simplify_eq. eauto. Qed.

Lemma quiet_vcpu_fwd D D' v V :
  quiet_dom D D' → vcpus D !! v = Some V → ∃ V', vcpus D' !! v = Some V' ∧ vcpu_same V V'.
Proof. intros H HV. destruct (qd_vcpus _ _ H v) as [V0 V' HV'|]; [|done]. simplify_eq. eauto. Qed.

Lemma quiet_is_Some D D' v : quiet_dom D D' → is_Some (vcpus D' !! v) ↔ is_Some (vcpus D !! v).
Proof. intros H. destruct (qd_vcpus _ _ H v); split; eauto. Qed.

Lemma quiet_dom_wf D D' : quiet_dom D D' → dom_wf D → dom_wf D'.
Proof.
  intros HQ [[] [] []]. pose proof (λ p, quiet_dom_chan D D' p HQ) as Hch.
  pose proof HQ as [].
  assert (Hmax : MAX_EVTCHNS D' = MAX_EVTCHNS D) by (unfold MAX_EVTCHNS, BITS_PER_EVTCHN_WORD; by rewrite qd_33).
  assert (Hchain : ∀ l pr p z, pirq_chain D pr p l z → pirq_chain D' pr p l z).
  { induction l as [|q l IH]; intros pr p z; simpl; [done|]. intros (? & ? & e & irq & n & ? & ? & ?).
    split; [done|]. split; [done|]. exists e, irq, n. rewrite Hch. auto. }
  split; [split|split|split].
  - by rewrite qd_buckets0, Hmax.
  - by rewrite qd_buckets0.
  - rewrite qd_buckets0, qd_dying0, Hch. auto.
  - intros p e. rewrite Hch. eauto.
  - intros p e. rewrite Hch. eauto.
  - intros p e. rewrite Hch. eauto.
  - intros p e. rewrite Hch, (quiet_is_Some _ _ _ HQ). eauto.
  - by rewrite (quiet_is_Some _ _ _ HQ).
  - intros v. rewrite (quiet_is_Some _ _ _ HQ), qd_max0. auto.
  - by rewrite qd_max0.
  - intros v Hv. rewrite (quiet_is_Some _ _ _ HQ), qd_max0. auto.
  - rewrite qd_destroyed0, qd_buckets0, qd_dying0. auto.
  - intros v V virq HV. destruct (quiet_vcpu _ _ _ _ HQ HV) as (V0 & HV0 & [Hvi _ _]).
    unfold virq_port. rewrite Hvi. setoid_rewrite Hch. by apply vw_port0.
  - intros p e virq. rewrite Hch. intros He Hs. destruct (vw_chan0 p e virq He Hs) as (v & V & HV & Hp).
    destruct (quiet_vcpu_fwd _ _ _ _ HQ HV) as (V' & HV' & [Hvi _ _]). exists v, V'.
    unfold virq_port in *. by rewrite Hvi.
  - by rewrite qd_nr0.
  - intros irq i. rewrite qd_pirqs0. setoid_rewrite Hch. eauto.
  - intros p e irq n pr. rewrite Hch, qd_nr0, qd_pirqs0. eauto.
  - intros v V HV. destruct (quiet_vcpu _ _ _ _ HQ HV) as (V0 & HV0 & [_ Hh _]). rewrite Hh.
    destruct (iw_list0 v V0 HV0) as (l & ? & ? & Hl). exists l. split; [done|]. split; [auto|].
    intros p. rewrite Hl. unfold on_pirq_list. by setoid_rewrite Hch.
Qed.

Lemma quiet_dom_at s s' d D' :
  quiet s s' → doms s' !! d = Some D' → ∃ D, doms s !! d = Some D ∧ quiet_dom D D'.
Proof. intros H HD. destruct (qu_dom _ _ H d) as [D D0 HD0|]; [|done]. simplify_eq. eauto. Qed.

Lemma quiet_dom_fwd s s' d D :
  quiet s s' → doms s !! d = Some D → ∃ D', doms s' !! d = Some D' ∧ quiet_dom D D'.
Proof. intros H HD. destruct (qu_dom _ _ H d) as [D0 D1 HD0|]; [|done]. simplify_eq. eauto. Qed.

Lemma quiet_doms s s' d : quiet s s' → is_Some (doms s' !! d) ↔ is_Some (doms s !! d).
Proof. intros H. destruct (qu_dom _ _ H d); split; eauto. Qed.

Lemma xbase_quiet s s' : quiet s s' → xbase s → xbase s'.
Proof.
  intros HQ []. pose proof (λ d p, quiet_chan s s' d p HQ) as Hch. split.
  - intros d D' HD'. destruct (quiet_dom_at _ _ _ _ HQ HD') as (D & HD & HqD).
    eapply quiet_dom_wf; eauto.
  - intros id d. rewrite (qu_hash _ _ HQ). intros (D & HD & Hid)%xb_hash0.
    destruct (qu_dom _ _ HQ d) as [D0 D' [] |]; [|done]. simplify_eq. eexists. split; [done|congruence].
  - by rewrite (qu_consumers _ _ HQ).
  - intros d p e. rewrite Hch, (qu_consumers _ _ HQ). eauto.
  - intros virq d. rewrite (qu_handlers _ _ HQ), (quiet_doms _ _ _ HQ). eauto.
  - intros d. rewrite (qu_dom0 _ _ HQ), (quiet_doms _ _ _ HQ). eauto.
Qed.

Lemma xinv_quiet s s' : quiet s s' → xinv s → xinv s'.
Proof.
  intros HQ [Hb Hp]. split; [by eapply xbase_quiet|].
  intros d p e d2 p2. rewrite !(quiet_chan _ _ _ _ HQ). apply Hp.
Qed.

(** ** Updates of one domain *)

Lemma doms_upd_dom d f s d' :
  doms (upd_dom d f s) !! d' = if decide (d = d') then f <$> doms s !! d' else doms s !! d'.
Proof. simpl. rewrite lookup_alter. case_decide; [by subst|done]. Qed.

Lemma doms_upd_same d f s D : doms s !! d = Some D → doms (upd_dom d f s) !! d = Some (f D).
Proof. intros H. by rewrite doms_upd_dom, decide_True, H. Qed.

Lemma chan_at_dom s d D p : doms s !! d = Some D → chan_at s d p = chan_of D p.
Proof. intros H. unfold chan_at. by rewrite H. Qed.

Lemma chan_at_upd s d p f d' q :
  chan_at (upd_dom d (upd_port p f) s) d' q =
    if decide (d' = d ∧ q = p) then f <$> chan_at s d p else chan_at s d' q.
Proof.
  unfold chan_at. rewrite doms_upd_dom. destruct (decide (d = d')) as [<-|Hd].
  - destruct (doms s !! d) as [D|]; simpl; [|by case_decide]. rewrite chan_of_upd.
    repeat case_decide; naive_solver.
  - rewrite decide_False by naive_solver. done.
Qed.

(** A domain update that keeps its identity. *)
Lemma xbase_upd s d f D :
  xbase s → doms s !! d = Some D → dom_wf (f D) → domain_id (f D) = domain_id D →
  (∀ p e, chan_of (f D) p = Some e → xen_consumer e ≠ 0 →
     1 ≤ xen_consumer e ∧
     ∃ fn, xen_consumers s !! Z.to_nat (xen_consumer e - 1) = Some fn ∧ fn ≠ 0) →
  xbase (upd_dom d f s).
Proof.
  intros [Hdom Hhash Hlen Hcons Hhand Hd0] HD Hwf Hid Hc. split; auto.
  - intros d' D'. rewrite doms_upd_dom. case_decide; [subst; rewrite HD; simpl; by intros [= <-]|eauto].
  - intros id d'. change (domain_hash (upd_dom d f s)) with (domain_hash s). intros (D' & HD' & Hi)%Hhash.
    rewrite doms_upd_dom. case_decide; [subst|eauto]. rewrite HD'. simplify_eq. eexists. split; [done|done].
  - intros d' p e. unfold chan_at. rewrite doms_upd_dom. case_decide; [subst; rewrite HD; simpl; eauto|].
    intros He. eapply Hcons. exact He.
  - intros virq d' H. rewrite doms_upd_dom. apply Hhand in H as [? E].
    case_decide; [subst; rewrite E; simpl; eauto|eauto].
  - intros d' H. rewrite doms_upd_dom. apply Hd0 in H as [? E].
    case_decide; [subst; rewrite E; simpl; eauto|eauto].
Qed.

Lemma valid_chan D p : ports_wf D → port_is_valid D p = true → ∃ e, evtchn_from_port D p = Some e.
Proof.
  intros [] Hv. apply port_is_valid_spec in Hv as [? [b Hb]].
  unfold evtchn_from_port, bucket_from_port, EVTCHNS_PER_BUCKET. rewrite Hb. simpl.
  apply lookup_lt_is_Some. destruct (pw_bucket0 _ _ Hb) as [-> _]. apply slot_lt.
Qed.

Lemma valid_chan_of D p : ports_wf D → port_is_valid D p = true → ∃ e, chan_of D p = Some e.
Proof. intros Hw Hv. unfold chan_of. rewrite Hv. by apply valid_chan. Qed.

Lemma valid_zero D p :
  ports_wf D → port_is_valid D p = true → ∃ e, chan_of D 0 = Some e ∧ e_state e = ECS_RESERVED.
Proof. intros [] Hv. apply pw_zero0. right. apply port_is_valid_spec in Hv as [_ ?]. eauto. Qed.

Lemma not_reserved D p e :
  ports_wf D → chan_of D p = Some e → e_state e ≠ ECS_RESERVED → p ≠ 0.
Proof.
  intros Hw He Hn ->. destruct (valid_zero D 0 Hw) as (e' & He' & ?); [by eapply chan_of_valid|].
  congruence.
Qed.

(** A change of the channel of port [p]. *)
Lemma ports_wf_upd D p f e :
  ports_wf D → chan_of D p = Some e →
  (e_state e = ECS_RESERVED ↔ e_state (f e) = ECS_RESERVED) →
  (e_state (f e) = ECS_FREE → f e = free_evtchn) →
  (xen_consumer (f e) ≠ 0 →
    (∃ r, e_state (f e) = ECS_UNBOUND r) ∨ (∃ d q, e_state (f e) = ECS_INTERDOMAIN d q)) →
  is_Some (vcpus D !! notify_vcpu_id (f e)) →
  ports_wf (upd_port p f D).
Proof.
  intros Hw He Hres Hfree Hxen Hnot. pose proof Hw as [].
  assert (Hch : ∀ q e', chan_of (upd_port p f D) q = Some e' →
    (q = p ∧ e' = f e) ∨ (q ≠ p ∧ chan_of D q = Some e')).
  { intros q e'. rewrite chan_of_upd. case_decide; [subst; rewrite He; simpl|]; naive_solver. }
  assert (Hsome : ∀ k, is_Some (evtchn_buckets (upd_port p f D) !! k) ↔ is_Some (evtchn_buckets D !! k)).
  { intros k. simpl. apply lookup_alter_is_Some. }
  split; auto.
  - intros k b. simpl. rewrite lookup_alter_Some. intros [(<- & b0 & Hb & ->)|[_ Hb]]; [|by apply pw_bucket0].
    rewrite length_alter. by apply pw_bucket0.
  - intros k j. rewrite !Hsome. eauto.
  - intros Hz. rewrite chan_of_upd. case_decide as Hp.
    + rewrite He. simpl. exists (f e). split; [done|]. apply Hres. subst.
      destruct (valid_zero D 0 Hw) as (e0 & ? & ?); [by eapply chan_of_valid|]. congruence.
    + apply pw_zero0. destruct Hz as [?|[k Hk]]; [by left|right]. exists k. by apply Hsome.
  - intros q e' [[-> ->]|[_ Hq]]%Hch Hr; [|eauto]. eapply pw_reserved0; [done|]. by apply Hres.
  - intros q e' [[-> ->]|[_ Hq]]%Hch; eauto.
  - intros q e' [[-> ->]|[_ Hq]]%Hch; eauto.
  - intros q e' [[-> ->]|[_ Hq]]%Hch; [done|]. eapply pw_notify0. exact Hq.
  - intros Hd. simpl. destruct (pw_destroyed0 Hd) as [? ->]. split; [done|]. apply map_eq. intros k.
    rewrite lookup_alter, !lookup_empty. by case_decide.
Qed.

Lemma virq_wf_upd D p f e :
  virq_wf D → chan_of D p = Some e →
  (∀ virq, e_state e ≠ ECS_VIRQ virq) → (∀ virq, e_state (f e) ≠ ECS_VIRQ virq) →
  virq_wf (upd_port p f D).
Proof.
  intros [] He Hn Hn'. split.
  - intros v V virq HV Hp. destruct (vw_port0 v V virq HV Hp) as (? & ? & e0 & He0 & ? & ?).
    split; [done|]. split; [done|]. exists e0. rewrite chan_of_upd, decide_False; [done|].
    intros Heq. rewrite Heq in He0. naive_solver.
  - intros q e' virq. rewrite chan_of_upd. case_decide; [subst; rewrite He; simpl; naive_solver|].
    apply vw_chan0.
Qed.

Lemma pirq_chain_upd D p f prev port l stop :
  p ∉ l → pirq_chain D prev port l stop → pirq_chain (upd_port p f D) prev port l stop.
Proof.
  revert prev port. induction l as [|q l IH]; intros prev port; simpl; [done|].
  rewrite not_elem_of_cons. intros [? ?] (-> & ? & e & irq & next & ? & ? & ?).
  split; [done|]. split; [done|]. exists e, irq, next. rewrite chan_of_upd, decide_False by done. auto.
Qed.

Lemma pirq_chain_ext D D' prev port l stop :
  (∀ p e, p ∈ l → chan_of D p = Some e → chan_of D' p = Some e) →
  pirq_chain D prev port l stop → pirq_chain D' prev port l stop.
Proof.
  revert prev port. induction l as [|q l IH]; intros prev port Hch; simpl; [done|].
  intros (-> & ? & e & irq & next & ? & ? & ?). split; [done|]. split; [done|].
  exists e, irq, next. split; [apply Hch; [by left|done]|]. split; [done|].
  apply IH; [|done]. intros. apply Hch; [by right|done].
Qed.

Lemma pirq_chain_in D prev port l stop p :
  pirq_chain D prev port l stop → p ∈ l → ∃ e irq n pr, chan_of D p = Some e ∧ e_state e = ECS_PIRQ irq n pr.
Proof.
  revert prev port. induction l as [|q l IH]; intros prev port; simpl; [by intros _ ?%elem_of_nil|].
  intros (-> & ? & e & irq & next & ? & ? & ?) [->|?]%elem_of_cons; [eauto 10|eauto].
Qed.

Lemma pirq_wf_upd D p f e :
  pirq_wf D → chan_of D p = Some e →
  (∀ i n pr, e_state e ≠ ECS_PIRQ i n pr) → (∀ i n pr, e_state (f e) ≠ ECS_PIRQ i n pr) →
  pirq_wf (upd_port p f D).
Proof.
  intros [] He Hn Hn'.
  assert (Hpi : ∀ q e' i n pr, chan_of (upd_port p f D) q = Some e' ∧ e_state e' = ECS_PIRQ i n pr ↔
    chan_of D q = Some e' ∧ e_state e' = ECS_PIRQ i n pr).
  { intros q e' i n pr. rewrite chan_of_upd. case_decide; [subst|done]. rewrite He. simpl. naive_solver. }
  split; auto.
  - intros irq i Hi Hp. destruct (iw_port0 irq i Hi Hp) as (e0 & n & pr & H). exists e0, n, pr. by apply Hpi.
  - intros q e' irq n pr H1 H2. destruct (proj1 (Hpi q e' irq n pr) (conj H1 H2)). eauto.
  - intros v V HV. destruct (iw_list0 v V HV) as (l & ? & Hc & Hl). exists l. split; [done|]. split.
    + apply pirq_chain_upd; [|done]. intros Hin. destruct (pirq_chain_in _ _ _ _ _ _ Hc Hin) as (e0 & ? & ? & ? & ? & ?).
      naive_solver.
    + intros q. rewrite Hl. unfold on_pirq_list. split; intros (e0 & i & n & pr & H1 & H2 & H3); exists e0, i, n, pr.
      * destruct (proj2 (Hpi q e0 i n pr) (conj H1 H2)). auto.
      * destruct (proj1 (Hpi q e0 i n pr) (conj H1 H2)). auto.
Qed.

(** A change between states that no table refers to. *)
Lemma dom_wf_plain D p f e :
  dom_wf D → chan_of D p = Some e → is_plain (e_state e) → is_plain (e_state (f e)) →
  (e_state (f e) = ECS_FREE → f e = free_evtchn) →
  (xen_consumer (f e) ≠ 0 →
    (∃ r, e_state (f e) = ECS_UNBOUND r) ∨ (∃ d q, e_state (f e) = ECS_INTERDOMAIN d q)) →
  is_Some (vcpus D !! notify_vcpu_id (f e)) →
  dom_wf (upd_port p f D).
Proof.
  intros [] He Hp Hp' Hf Hx Hn. split.
  - eapply ports_wf_upd; eauto. split; intros E; rewrite E in *; done.
  - eapply virq_wf_upd; eauto; intros ? E; rewrite E in *; done.
  - eapply pirq_wf_upd; eauto; intros ? ? ? E; rewrite E in *; done.
Qed.

(** The same for the whole state, pairing aside. *)
Lemma xbase_plain s d p f e :
  xbase s → chan_at s d p = Some e → is_plain (e_state e) → is_plain (e_state (f e)) →
  (e_state (f e) = ECS_FREE → f e = free_evtchn) →
  (xen_consumer (f e) ≠ 0 →
    ((∃ r, e_state (f e) = ECS_UNBOUND r) ∨ (∃ d q, e_state (f e) = ECS_INTERDOMAIN d q)) ∧
    1 ≤ xen_consumer (f e) ∧
    ∃ fn, xen_consumers s !! Z.to_nat (xen_consumer (f e) - 1) = Some fn ∧ fn ≠ 0) →
  (∀ D, doms s !! d = Some D → is_Some (vcpus D !! notify_vcpu_id (f e))) →
  xbase (upd_dom d (upd_port p f) s).
Proof.
  intros Hb He Hp Hp' Hf Hx Hn. unfold chan_at in He.
  destruct (doms s !! d) as [D|] eqn:HD; simpl in He; [|done].
  eapply xbase_upd; eauto.
  - eapply dom_wf_plain; eauto; [by eapply xb_dom|]. intros Hc. by apply Hx.
  - intros q e'. rewrite chan_of_upd. case_decide.
    + subst. rewrite He. simpl. intros [= <-] Hc. by apply Hx.
    + intros He'. eapply (xb_consumer _ Hb d q). by rewrite (chan_at_dom _ _ _ _ HD).
Qed.
