(* ===== verification/EvtChnOps.v ===== *)
(** * Event channel operations keep the invariant (xen/common/event_channel.c)

    For every operation: from a state with [xinv] it returns normally (no
    [BUG_ON] fires, no dangling pointer is followed) to a state with [xinv]. *)

From S2P Require Import Prelude EvtChn EvtChnInv.
Local Open Scope xen_scope.

(** ** Port allocation *)

Lemma MAX_EVTCHNS_cases D : MAX_EVTCHNS D = 1024 ∨ MAX_EVTCHNS D = 4096.
Proof. unfold MAX_EVTCHNS, BITS_PER_EVTCHN_WORD. destruct (has_32bit_shinfo D); auto. Qed.

Definition busy (D : domain) (p : Z) : Prop := ∃ e, chan_of D p = Some e ∧ e_state e ≠ ECS_FREE.

Lemma free_port_loop_spec D n port :
  ports_wf D → 0 ≤ port ≤ MAX_EVTCHNS D → (Z.to_nat (MAX_EVTCHNS D - port) < n)%nat →
  (∀ q, 0 ≤ q < port → busy D q) →
  ∃ r, free_port_loop n D port = Ok r ∧
    match r with
    | inl q => chan_of D q = Some free_evtchn ∧ 0 ≤ q < MAX_EVTCHNS D ∧ ∀ q', 0 ≤ q' < q → busy D q'
    | inr q => port_is_valid D q = false ∧ 0 ≤ q ≤ MAX_EVTCHNS D ∧ ∀ q', 0 ≤ q' < q → busy D q'
    end.
Proof.
  intros Hw. revert port. induction n as [|n IH]; intros port Hp Hn Hb; [lia|]. cbn [free_port_loop].
  destruct (port_is_valid D port) eqn:Hv; [|exists (inr port); auto].
  destruct (valid_chan D port Hw Hv) as [e He]. rewrite He. cbn [deref].
  assert (Hce : chan_of D port = Some e) by (by apply chan_of_Some).
  apply port_is_valid_spec in Hv as [Hr _]. case_bool_decide as Hf.
  - exists (inl port). split; [done|]. split; [|done]. by rewrite Hce, (pw_free _ Hw _ _ Hce Hf).
  - apply IH; [lia|lia|]. intros q Hq. destruct (decide (q = port)) as [->|]; [exists e; auto|].
    apply Hb. lia.
Qed.

(** The bucket [get_free_port] allocates. *)
Definition new_bucket : list evtchn := replicate (Z.to_nat EVTCHNS_PER_BUCKET) free_evtchn.

Lemma chan_of_new_bucket D k q :
  evtchn_buckets D !! k = None → 0 ≤ k < MAX_EVTCHNS D / 128 →
  chan_of (set_buckets (<[k := new_bucket]>) D) q =
    if decide (q / 128 = k) then Some free_evtchn else chan_of D q.
Proof.
  intros Hk Hr. unfold chan_of, evtchn_from_port.
  assert (Hb : bucket_from_port (set_buckets (<[k := new_bucket]>) D) q =
    if decide (q / 128 = k) then Some new_bucket else bucket_from_port D q).
  { unfold bucket_from_port, EVTCHNS_PER_BUCKET. simpl. rewrite lookup_insert.
    repeat case_decide; congruence. }
  unfold port_is_valid. change (MAX_EVTCHNS (set_buckets _ D)) with (MAX_EVTCHNS D).
  rewrite Hb. case_decide as Hq; [|done]. rewrite bool_decide_eq_true_2 by eauto.
  assert (0 ≤ q < MAX_EVTCHNS D) as [H1 H2].
  { pose proof (Z.div_mod q 128 ltac:(lia)). pose proof (Z.mod_pos_bound q 128 ltac:(lia)).
    destruct (MAX_EVTCHNS_cases D) as [E|E]; rewrite E in *;
      [change (1024 / 128) with 8 in Hr|change (4096 / 128) with 32 in Hr]; lia. }
  apply Z.leb_le in H1. apply Z.ltb_lt in H2. rewrite H1, H2. simpl.
  apply lookup_replicate_2. apply slot_lt.
Qed.

Lemma busy_valid D q : busy D q → is_Some (evtchn_buckets D !! (q / 128)).
Proof. intros (e & He & _). apply chan_of_valid, port_is_valid_spec in He. by destruct He. Qed.

(** The first invalid port starts a bucket. *)
Lemma first_invalid D q :
  ports_wf D → port_is_valid D q = false → 0 ≤ q ≤ MAX_EVTCHNS D → q ≠ MAX_EVTCHNS D →
  (∀ q', 0 ≤ q' < q → busy D q') →
  evtchn_buckets D !! (q / 128) = None ∧ 0 ≤ q / 128 < MAX_EVTCHNS D / 128 ∧
  (∀ j, 0 ≤ j < q / 128 → is_Some (evtchn_buckets D !! j)).
Proof.
  intros Hw Hv Hr Hm Hb. assert (Hnone : evtchn_buckets D !! (q / 128) = None).
  { destruct (evtchn_buckets D !! (q / 128)) eqn:E; [|done]. exfalso.
    assert (port_is_valid D q = true); [|congruence]. apply port_is_valid_spec. split; [lia|eauto]. }
  split; [done|]. split.
  - split; [apply Z.div_pos; lia|]. destruct (MAX_EVTCHNS_cases D) as [E|E]; rewrite E in *;
      [change (1024 / 128) with 8|change (4096 / 128) with 32]; apply Z.div_lt_upper_bound; lia.
  - intros j Hj. pose proof (Z.div_mod q 128 ltac:(lia)). pose proof (Z.mod_pos_bound q 128 ltac:(lia)).
    rewrite <- (Z.div_mul j 128) by lia. apply busy_valid, Hb. lia.
Qed.

Lemma new_bucket_wf D k :
  dom_wf D → is_dying D = false → destroyed D = false → evtchn_buckets D !! k = None →
  0 ≤ k < MAX_EVTCHNS D / 128 → (∀ j, 0 ≤ j < k → is_Some (evtchn_buckets D !! j)) →
  dom_wf (set_buckets (<[k := new_bucket]>) D).
Proof.
  intros [Hp Hv Hi] Hdy Hde Hk Hr Hlow. pose proof (chan_of_new_bucket D k) as Hch.
  set (D' := set_buckets (<[k := new_bucket]>) D) in *.
  assert (Hnew : ∀ q e, chan_of D' q = Some e → e = free_evtchn ∨ chan_of D q = Some e).
  { intros q e. rewrite Hch by done. case_decide; [|auto]. intros [= <-]. auto. }
  assert (Hold : ∀ q e, chan_of D q = Some e → chan_of D' q = Some e).
  { intros q e He. rewrite Hch, decide_False; auto. intros Hq.
    apply chan_of_valid, port_is_valid_spec in He as [_ [b Hb]]. rewrite Hq in Hb. congruence. }
  split.
  - split; simpl; try apply Hp.
    + intros j b. rewrite lookup_insert_Some. intros [[<- <-]|[_ Hb]]; [|by apply (pw_bucket _ Hp)].
      split; [apply length_replicate|done].
    + intros j i Hj Hij. destruct (decide (k = i)) as [->|]; [rewrite lookup_insert_eq; eauto|].
      rewrite lookup_insert_ne by done. destruct (decide (k = j)) as [->|]; [by apply Hlow|].
      rewrite lookup_insert_ne in Hj by done. by eapply (pw_contig _ Hp).
    + intros _. destruct (pw_zero _ Hp) as (e & He & ?); [by left|]. exists e. auto.
    + intros q e [->|He]%Hnew Hs; [done|by eapply (pw_reserved _ Hp)].
    + intros q e [->|He]%Hnew Hs; [done|by eapply (pw_free _ Hp)].
    + intros q e [->|He]%Hnew Hs; [done|by eapply (pw_xen _ Hp)].
    + intros q e [->|He]%Hnew; [apply Hp|by eapply (pw_notify _ Hp)].
    + congruence.
  - split.
    + intros v V virq HV Hq. destruct (vw_port _ Hv v V virq HV Hq) as (? & ? & e & ? & ? & ?).
      split; [done|]. split; [done|]. exists e. auto.
    + intros q e virq [->|He]%Hnew Hs; [done|by eapply (vw_chan _ Hv)].
  - split; try apply Hi.
    + intros irq i H1 H2. destruct (iw_port _ Hi irq i H1 H2) as (e & n & pr & ? & ?). exists e, n, pr. auto.
    + intros q e irq n pr [->|He]%Hnew Hs; [done|by eapply (iw_chan _ Hi)].
    + intros v V HV. destruct (iw_list _ Hi v V HV) as (l & ? & Hc & Hl). exists l. split; [done|]. split.
      * eapply pirq_chain_ext, Hc. auto.
      * intros q. rewrite Hl. unfold on_pirq_list. split; intros (e & i & n & pr & He & Hs & ?); exists e, i, n, pr.
        -- auto.
        -- apply Hnew in He as [->|He]; [done|auto].
Qed.

Lemma upd_dom_id d s : upd_dom d (set_buckets id) s = s.
Proof.
  destruct s. unfold upd_dom, set_doms. simpl. f_equal. apply map_eq. intros d'.
  rewrite lookup_alter. case_decide; [subst|done]. by destruct (doms !! d') as [[]|].
Qed.

(** The outcome of a successful [get_free_port]: a free port that is not port
    0, in a state that differs at most by a new bucket of free ports. *)
Record got_port (d : positive) (s s1 : xstate) (port : Z) : Prop := {
  gp_state : ∃ f, s1 = upd_dom d (set_buckets f) s;
  gp_inv : xinv s1;
  gp_range : 0 < port < 4096;
  gp_free : chan_at s1 d port = Some free_evtchn;
  gp_old d' q e : chan_at s d' q = Some e → chan_at s1 d' q = Some e;
  gp_new d' q e : chan_at s1 d' q = Some e → chan_at s d' q = Some e ∨ e = free_evtchn;
  gp_least q : 0 ≤ q < port → ∃ e, chan_at s d q = Some e ∧ e_state e ≠ ECS_FREE;
}.

Lemma got_port_here D d s port :
  xinv s → doms s !! d = Some D → chan_of D port = Some free_evtchn → 0 ≤ port < MAX_EVTCHNS D →
  (∀ q, 0 ≤ q < port → busy D q) → got_port d s s port.
Proof.
  intros Hinv HD He Hr Hb. pose proof (xb_dom _ (xi_base _ Hinv) _ _ HD) as [Hp _ _].
  pose proof (chan_at_dom _ _ _ port HD) as Hat. split; auto.
  - exists id. by rewrite upd_dom_id.
  - destruct (MAX_EVTCHNS_cases D); assert (port ≠ 0); [|lia| |lia].
    all: by eapply (not_reserved _ _ _ Hp He).
  - congruence.
  - intros q Hq. rewrite (chan_at_dom _ _ _ q HD). by apply Hb.
Qed.

Lemma got_port_bucket D d s port :
  xinv s → doms s !! d = Some D → is_dying D = false →
  port_is_valid D port = false → 0 ≤ port ≤ MAX_EVTCHNS D → port ≠ MAX_EVTCHNS D →
  (∀ q, 0 ≤ q < port → busy D q) →
  got_port d s (upd_dom d (set_buckets (<[port / EVTCHNS_PER_BUCKET := new_bucket]>)) s) port.
Proof.
  intros Hinv HD Hdy Hv Hr Hm Hb. pose proof (xi_base _ Hinv) as Hbase.
  pose proof (xb_dom _ Hbase _ _ HD) as Hwf. pose proof Hwf as [Hp _ _].
  destruct (first_invalid D port Hp Hv Hr Hm Hb) as (Hn & Hk & Hlow).
  change (port / EVTCHNS_PER_BUCKET) with (port / 128) in *. set (k := port / 128) in *.
  pose proof (chan_of_new_bucket D k) as Hch. set (f := <[k := new_bucket]>) in *.
  assert (Hde : destroyed D = false).
  { destruct (destroyed D) eqn:E; [|done]. destruct (pw_destroyed _ Hp E). congruence. }
  assert (Hat : ∀ d' q e, chan_at (upd_dom d (set_buckets f) s) d' q = Some e →
    chan_at s d' q = Some e ∨ e = free_evtchn).
  { intros d' q e. unfold chan_at. rewrite doms_upd_dom. case_decide; [subst|auto].
    rewrite HD. simpl. rewrite Hch by done. case_decide; [intros [= <-]; auto|auto]. }
  assert (Hold : ∀ d' q e, chan_at s d' q = Some e → chan_at (upd_dom d (set_buckets f) s) d' q = Some e).
  { intros d' q e. unfold chan_at. rewrite doms_upd_dom. case_decide; [subst|auto].
    rewrite HD. simpl. intros He. rewrite Hch, decide_False; auto. intros Hq.
    apply chan_of_valid, port_is_valid_spec in He as [_ [b Hb']]. rewrite Hq in Hb'. congruence. }
  split; auto; [eauto| | | |].
  - split.
    + eapply xbase_upd; eauto; [by apply new_bucket_wf|]. intros q e. rewrite Hch by done.
      case_decide; [by intros [= <-]|]. intros He. apply (xb_consumer _ Hbase d q).
      by rewrite (chan_at_dom _ _ _ _ HD).
    + intros d' q e d2 p2 [He| ->]%Hat Hs; [|done].
      destruct (xi_pair _ Hinv d' q e d2 p2 He Hs) as (e2 & ? & ?). exists e2. auto.
  - assert (port ≠ 0) as Hz.
    { intros ->. destruct (pw_zero _ Hp) as (e0 & He0 & _); [by left|].
      apply chan_of_valid in He0. congruence. }
    destruct (MAX_EVTCHNS_cases D); lia.
  - rewrite (chan_at_dom _ _ _ _ (doms_upd_same _ _ _ _ HD)), Hch by done. by rewrite decide_True.
  - intros q Hq. rewrite (chan_at_dom _ _ _ q HD). by apply Hb.
Qed.

Lemma get_free_port_spec E d s D :
  xinv s → doms s !! d = Some D →
  ∃ port s1, get_free_port E d s = Ok (port, s1) ∧
    ((port < 0 ∧ s1 = s) ∨ (is_dying D = false ∧ got_port d s s1 port)).
Proof.
  intros Hinv HD. pose proof (xb_dom _ (xi_base _ Hinv) _ _ HD) as Hwf. pose proof Hwf as [Hp _ _].
  unfold get_free_port. rewrite HD. cbn [deref]. destruct (is_dying D) eqn:Hdy.
  { eexists _, _. split; [done|]. left. split; [|done]. done. }
  destruct (free_port_loop_spec D (S (Z.to_nat (MAX_EVTCHNS D))) 0 Hp) as (r & Hr & Hspec).
  { destruct (MAX_EVTCHNS_cases D); lia. } { lia. } { lia. }
  rewrite Hr. cbn [mbind outcome_bind]. destruct r as [q|q]; destruct Hspec as (H1 & H2 & H3).
  { eexists _, _. split; [done|]. right. split; [done|]. by eapply got_port_here. }
  destruct (Z.eqb_spec q (MAX_EVTCHNS D)) as [|Hm]; [eexists _, _; split; [done|]; by left|].
  destruct (xzalloc_ok E s d); cbn [negb]; [|eexists _, _; split; [done|]; by left].
  destruct (xsm_alloc_loop _ _ _ _ _); cbn [negb]; [|eexists _, _; split; [done|]; by left].
  eexists _, _. split; [done|]. right. split; [done|]. by eapply got_port_bucket.
Qed.

(** ** Operations that leave the bindings alone *)

(** A step that keeps the invariant and the set of domains. *)
Record step_ok (s s' : xstate) : Prop := {
  so_inv : xinv s';
  so_doms d : is_Some (doms s !! d) → is_Some (doms s' !! d);
}.

Lemma step_ok_trans s1 s2 s3 : step_ok s1 s2 → step_ok s2 s3 → step_ok s1 s3.
Proof. intros [] []. split; auto. Qed.

Lemma step_ok_refl s : xinv s → step_ok s s.
Proof. by split. Qed.

Lemma step_ok_quiet s s' : xinv s → quiet s s' → step_ok s s'.
Proof. intros H Hq. split; [by eapply xinv_quiet|]. intros d. by apply quiet_doms. Qed.

(** The callbacks and the other CPUs keep the invariant. *)
Record env_ok (E : env) : Prop := {
  eo_notification fn d v p s : xinv s → step_ok s (notification E fn d v p s);
  eo_interference s : xinv s → step_ok s (interference E s);
}.

Ltac quiet_solve := split; simpl; try done; try set_solver; intros; apply reflexivity.

Lemma quiet_set_pending d f s : quiet s (upd_dom d (set_pending f) s).
Proof. apply quiet_upd_dom. intros D _. quiet_solve. Qed.

Lemma quiet_set_mask d f s : quiet s (upd_dom d (set_mask f) s).
Proof. apply quiet_upd_dom. intros D _. quiet_solve. Qed.

Lemma quiet_set_refcnt d f s : quiet s (upd_dom d (set_refcnt f) s).
Proof. apply quiet_upd_dom. intros D _. quiet_solve. Qed.

Lemma quiet_poll_mask d X s : quiet s (upd_dom d (set_poll_mask (λ m, m ∖ X)) s).
Proof. apply quiet_upd_dom. intros D _. quiet_solve. Qed.

#[export] Hint Resolve quiet_log quiet_set_pending quiet_set_mask quiet_set_refcnt quiet_poll_mask : xen.

Lemma get_domain_spec d s D :
  doms s !! d = Some D →
  get_domain d s = Ok (if destroyed D then None else Some (upd_dom d (set_refcnt (λ n, n + 1)) s)).
Proof. intros H. unfold get_domain. by rewrite H. Qed.

Lemma put_domain_spec d s :
  is_Some (doms s !! d) → ∃ s', put_domain d s = Ok s' ∧ quiet s s'.
Proof.
  intros [D HD]. unfold put_domain. rewrite HD. cbn [deref]. eexists. split; [done|].
  case_match; [|auto with xen]. etrans; [apply quiet_set_refcnt|apply quiet_log].
Qed.

Lemma wake_poller_spec d port v s D :
  xinv s → doms s !! d = Some D → 0 ≤ v < max_vcpus D →
  ∃ s', wake_poller d port v s = Ok s' ∧ quiet s s'.
Proof.
  intros Hinv HD Hv. unfold wake_poller. rewrite HD. cbn [deref].
  case_bool_decide as Hp; [|exists s; split; [done|reflexivity]].
  destruct (pw_poll _ (dw_ports _ (xb_dom _ (xi_base _ Hinv) _ _ HD)) v Hp Hv) as [V HV].
  rewrite HV. cbn [deref]. case_match; [|exists s; split; [done|reflexivity]].
  eexists. split; [done|]. etrans; [apply quiet_poll_mask|]. etrans; [|apply quiet_log].
  apply quiet_upd_vcpu. by split.
Qed.

Lemma wake_pollers_spec d port ids s D :
  xinv s → doms s !! d = Some D → (∀ v, v ∈ ids → 0 ≤ v < max_vcpus D) →
  ∃ s', wake_pollers d port ids s = Ok s' ∧ quiet s s'.
Proof.
  revert s D. induction ids as [|v ids IH]; intros s D Hinv HD Hids; simpl; [exists s; split; [done|reflexivity]|].
  destruct (wake_poller_spec d port v s D) as (s1 & -> & Hq1); auto; [apply Hids; by left|]. simpl.
  destruct (quiet_dom_fwd _ _ _ _ Hq1 HD) as (D1 & HD1 & HqD).
  destruct (IH s1 D1) as (s2 & -> & Hq2); auto; [by eapply xinv_quiet| |exists s2; split; [done|by etrans]].
  intros u Hu. rewrite (qd_max _ _ HqD). apply Hids. by right.
Qed.

Lemma quiet_mark_sel d v port D V s : quiet s (mark_sel d v port D V s).
Proof.
  unfold mark_sel. case_bool_decide; [reflexivity|]. etrans; [|apply quiet_log].
  apply quiet_upd_vcpu. by split.
Qed.

Lemma evtchn_set_pending_quiet d v port s D :
  xinv s → doms s !! d = Some D → is_Some (vcpus D !! v) →
  ∃ s', evtchn_set_pending d v port s = Ok s' ∧ quiet s s'.
Proof.
  intros Hinv HD [V HV]. unfold evtchn_set_pending. rewrite HD. cbn [deref]. rewrite HV. cbn [deref].
  case_bool_decide; [exists s; split; [done|reflexivity]|].
  set (s1 := upd_dom d _ s). set (s2 := if bool_decide _ then _ else _).
  assert (Hq : quiet s s2).
  { transitivity s1; [apply quiet_set_pending|]. unfold s2. case_bool_decide; [reflexivity|apply quiet_mark_sel]. }
  case_match; [by exists s2|]. destruct (quiet_dom_fwd _ _ _ _ Hq HD) as (D2 & HD2 & HqD).
  destruct (wake_pollers_spec d port (seqZ 0 (max_vcpus D)) s2 D2) as (s3 & -> & Hq3); auto.
  - by eapply xinv_quiet.
  - intros u Hu. rewrite (qd_max _ _ HqD). apply elem_of_seqZ in Hu. lia.
  - exists s3. split; [done|by etrans].
Qed.

(** A valid port's notification vcpu exists. *)
Lemma notify_exists s d D p e :
  xinv s → doms s !! d = Some D → chan_at s d p = Some e → is_Some (vcpus D !! notify_vcpu_id e).
Proof.
  intros Hinv HD He. rewrite (chan_at_dom _ _ _ _ HD) in He.
  eapply pw_notify, He. apply (dw_ports _ (xb_dom _ (xi_base _ Hinv) _ _ HD)).
Qed.

Lemma chan_at_Some s d p e :
  chan_at s d p = Some e → ∃ D, doms s !! d = Some D ∧ chan_of D p = Some e.
Proof. unfold chan_at. destruct (doms s !! d); simpl; [eauto|done]. Qed.

(** Delivery to a port that exists. *)
Lemma deliver_quiet d p e s :
  xinv s → chan_at s d p = Some e →
  ∃ s', evtchn_set_pending d (notify_vcpu_id e) p s = Ok s' ∧ quiet s s'.
Proof.
  intros Hinv He. destruct (chan_at_Some _ _ _ _ He) as (D & HD & _).
  eapply evtchn_set_pending_quiet; eauto. by eapply notify_exists.
Qed.

Lemma default_notification_quiet d v port s D :
  doms s !! d = Some D → is_Some (vcpus D !! v) →
  ∃ s', default_xen_notification_fn d v port s = Ok s' ∧ quiet s s'.
Proof.
  intros HD [V HV]. unfold default_xen_notification_fn. rewrite HD. cbn [deref]. rewrite HV. cbn [deref].
  eexists. split; [done|]. case_match; [|reflexivity]. etrans; [|apply quiet_log].
  apply quiet_upd_vcpu. by split.
Qed.

Lemma run_notification_spec E d p e s :
  env_ok E → xinv s → chan_at s d p = Some e → xen_consumer e ≠ 0 →
  ∃ s', run_notification E e d (notify_vcpu_id e) p s = Ok s' ∧ step_ok s s'.
Proof.
  intros HE Hinv He Hc. destruct (xb_consumer _ (xi_base _ Hinv) _ _ _ He Hc) as (_ & fn & Hfn & Hnz).
  unfold run_notification. rewrite Hfn. cbn [deref]. destruct (Z.eqb_spec fn 0) as [|_]; [done|].
  destruct (chan_at_Some _ _ _ _ He) as (D & HD & _). case_match.
  - destruct (default_notification_quiet d (notify_vcpu_id e) p s D) as (s' & -> & Hq); auto;
      [by eapply notify_exists|]. exists s'. split; [done|]. by apply step_ok_quiet.
  - eexists. split; [done|]. by apply eo_notification.
Qed.

(** The channel a guest names, once validated. *)
Lemma valid_port s d D p :
  xinv s → doms s !! d = Some D → port_is_valid D p = true →
  ∃ e, evtchn_from_port D p = Some e ∧ chan_at s d p = Some e.
Proof.
  intros Hinv HD Hv. destruct (valid_chan D p) as [e He]; [apply (xb_dom _ (xi_base _ Hinv) _ _ HD)|done|].
  exists e. split; [done|]. rewrite (chan_at_dom _ _ _ _ HD). by apply chan_of_Some.
Qed.

Lemma chan_at_from_port s d D p e :
  doms s !! d = Some D → chan_at s d p = Some e → evtchn_from_port D p = Some e.
Proof. intros HD. rewrite (chan_at_dom _ _ _ _ HD). intros H. by apply chan_of_Some in H as [_ ?]. Qed.

Lemma evtchn_send_spec E d p s :
  env_ok E → xinv s → is_Some (doms s !! d) →
  ∃ rc s', evtchn_send E d p s = Ok (rc, s') ∧ step_ok s s'.
Proof.
  intros HE Hinv [D HD]. unfold evtchn_send. rewrite HD. cbn [deref].
  destruct (port_is_valid D p) eqn:Hv; cbn [negb]; [|eauto using step_ok_refl].
  destruct (valid_port s d D p Hinv HD Hv) as (e & -> & He). cbn [deref].
  case_match; [eauto using step_ok_refl|]. case_match; [eauto using step_ok_refl|].
  destruct (e_state e) as [| | |rd rport| | |] eqn:Hs; try (eauto using step_ok_refl).
  - destruct (xi_pair _ Hinv d p e rd rport He Hs) as (e2 & He2 & _).
    destruct (chan_at_Some _ _ _ _ He2) as (R & HR & _). rewrite HR. cbn [deref].
    rewrite (chan_at_from_port _ _ _ _ _ HR He2). cbn [deref]. unfold consumer_is_xen.
    destruct (Z.eqb_spec (xen_consumer e2) 0) as [Hc|Hc]; cbn [negb].
    + destruct (deliver_quiet rd rport e2 s Hinv He2) as (s1 & -> & Hq). cbn [mbind outcome_bind].
      eexists _, _. split; [done|]. by apply step_ok_quiet.
    + destruct (run_notification_spec E rd rport e2 s) as (s1 & -> & Hq); auto. cbn [mbind outcome_bind]. eauto.
  - destruct (deliver_quiet d p e s Hinv He) as (s1 & -> & Hq). cbn [mbind outcome_bind].
    eexists _, _. split; [done|]. by apply step_ok_quiet.
Qed.

Lemma evtchn_unmask_spec d p s :
  xinv s → is_Some (doms s !! d) → ∃ rc s', evtchn_unmask d p s = Ok (rc, s') ∧ step_ok s s'.
Proof.
  intros Hinv [D HD]. unfold evtchn_unmask. rewrite HD. cbn [deref].
  destruct (port_is_valid D p) eqn:Hv; cbn [negb]; [|eauto using step_ok_refl].
  destruct (valid_port s d D p Hinv HD Hv) as (e & -> & He). cbn [deref].
  assert (Hq : quiet s (upd_dom d (set_mask (λ m, m ∖ {[ p ]})) s)) by auto with xen.
  case_match; [|eauto using step_ok_quiet].
  destruct (notify_exists _ _ _ _ _ Hinv HD He) as [V HV]. rewrite HV. cbn [deref].
  eexists _, _. split; [done|]. apply step_ok_quiet; [done|]. etrans; [done|apply quiet_mark_sel].
Qed.

(** ** Binding a free port *)

Definition not_inter (c : chan) : Prop := ∀ d p, c ≠ ECS_INTERDOMAIN d p.

Lemma paired_upd s d p f e :
  paired s → chan_at s d p = Some e → not_inter (e_state e) → not_inter (e_state (f e)) →
  paired (upd_dom d (upd_port p f) s).
Proof.
  intros Hp He Hn Hn' d' q e' d2 p2. rewrite chan_at_upd. case_decide as Hd.
  { rewrite He. simpl. intros [= <-] Hs. by apply Hn' in Hs. }
  intros He' Hs. destruct (Hp d' q e' d2 p2 He' Hs) as (e2 & He2 & Hs2). exists e2.
  rewrite chan_at_upd, decide_False; [done|]. intros [-> ->]. rewrite He in He2. simplify_eq.
  by apply Hn in Hs2.
Qed.

Lemma so_doms_upd s d f d' : is_Some (doms s !! d') → is_Some (doms (upd_dom d f s) !! d').
Proof. intros [D HD]. rewrite doms_upd_dom, HD. case_decide; simpl; eauto. Qed.

Lemma got_port_doms d s s1 p d' :
  got_port d s s1 p → is_Some (doms s !! d') → is_Some (doms s1 !! d').
Proof. intros [[f ->] _ _ _ _ _ _]. apply so_doms_upd. Qed.

Lemma got_port_step d s s1 p : got_port d s s1 p → step_ok s s1.
Proof. intros H. split; [apply H|]. intros d'. by eapply got_port_doms. Qed.

(** The domain after [get_free_port]. *)
Lemma got_port_dom d s s1 p d' D :
  got_port d s s1 p → doms s !! d' = Some D →
  ∃ D1, doms s1 !! d' = Some D1 ∧ domain_id D1 = domain_id D ∧ is_hvm D1 = is_hvm D ∧
        vcpus D1 = vcpus D ∧ pirq_tree D1 = pirq_tree D ∧ max_vcpus D1 = max_vcpus D ∧
        nr_pirqs D1 = nr_pirqs D.
Proof.
  intros [[f ->] _ _ _ _ _ _] HD. rewrite doms_upd_dom, HD. case_decide; simpl; eauto 10.
Qed.

(** A free port becomes unbound, an IPI, or Xen-attached. *)
Lemma bind_plain s d p f :
  xinv s → chan_at s d p = Some free_evtchn →
  is_plain (e_state (f free_evtchn)) → not_inter (e_state (f free_evtchn)) →
  e_state (f free_evtchn) ≠ ECS_FREE →
  (xen_consumer (f free_evtchn) ≠ 0 →
    (∃ r, e_state (f free_evtchn) = ECS_UNBOUND r) ∧ 1 ≤ xen_consumer (f free_evtchn) ∧
    ∃ fn, xen_consumers s !! Z.to_nat (xen_consumer (f free_evtchn) - 1) = Some fn ∧ fn ≠ 0) →
  (∀ D, doms s !! d = Some D → is_Some (vcpus D !! notify_vcpu_id (f free_evtchn))) →
  step_ok s (upd_dom d (upd_port p f) s).
Proof.
  intros [Hb Hp] He Hpl Hni Hnf Hx Hn. split; [split|intros d'; apply so_doms_upd].
  - eapply xbase_plain; eauto; try done. intros Hc. destruct (Hx Hc) as (? & ? & ?). auto.
  - eapply paired_upd; eauto. done.
Qed.

Lemma vcpu0_exists s d D : xinv s → doms s !! d = Some D → is_Some (vcpus D !! 0).
Proof. intros Hinv HD. apply (dw_ports _ (xb_dom _ (xi_base _ Hinv) _ _ HD)). Qed.

Lemma rcu_lock_target_spec s cur dom :
  xinv s → is_Some (doms s !! cur) →
  ∃ r, rcu_lock_target_domain_by_id s cur dom = Ok r ∧
       match r with inl rc => rc < 0 | inr d => is_Some (doms s !! d) end.
Proof.
  intros Hinv [C HC]. unfold rcu_lock_target_domain_by_id, rcu_lock_domain_by_id.
  case_match; [exists (inr cur); eauto|]. destruct (domain_hash s !! dom) as [d|] eqn:Hh;
    [|by exists (inl (- ESRCH))].
  rewrite HC. cbn [deref]. eexists. split; [done|]. destruct (IS_PRIV_FOR C d); [|done].
  destruct (xb_hash _ (xi_base _ Hinv) _ _ Hh) as (D & HD & _). eauto.
Qed.

Lemma evtchn_alloc_unbound_spec E cur dom rdom s :
  xinv s → is_Some (doms s !! cur) →
  ∃ rc p s', evtchn_alloc_unbound E cur dom rdom s = Ok (rc, p, s') ∧ step_ok s s'.
Proof.
  intros Hinv Hcur. unfold evtchn_alloc_unbound.
  destruct (rcu_lock_target_spec s cur dom Hinv Hcur) as (r & -> & Hr). cbn [mbind outcome_bind].
  destruct r as [rc|d]; [eauto 10 using step_ok_refl|]. destruct Hr as [D HD].
  destruct (get_free_port_spec E d s D Hinv HD) as (port & s1 & -> & Hg). cbn [mbind outcome_bind].
  destruct Hg as [[Hlt ->]|[_ Hg]].
  { apply Z.ltb_lt in Hlt. rewrite Hlt. eauto 10 using step_ok_refl. }
  pose proof (gp_range _ _ _ _ Hg). destruct (Z.ltb_spec port 0) as [|_]; [lia|].
  case_match; [eauto 10 using got_port_step|].
  destruct (got_port_doms _ _ _ _ cur Hg Hcur) as [C HC]. rewrite HC. cbn [deref].
  eexists _, _, _. split; [done|]. eapply step_ok_trans; [by eapply got_port_step|].
  apply bind_plain; try done; [apply Hg|apply Hg|].
  intros D1 HD1. eapply vcpu0_exists; [apply Hg|done].
Qed.

Lemma vcpu_small D v : ports_wf D → is_Some (vcpus D !! v) → 0 ≤ v < 8192 ∧ u16 v = v.
Proof.
  intros Hw Hv. pose proof (pw_vcpus _ Hw _ Hv). pose proof (pw_max _ Hw).
  split; [lia|]. apply u16_small. lia.
Qed.

Lemma evtchn_bind_ipi_spec E cur vcpu s :
  xinv s → is_Some (doms s !! cur) →
  ∃ rc p s', evtchn_bind_ipi E cur vcpu s = Ok (rc, p, s') ∧ step_ok s s'.
Proof.
  intros Hinv [D HD]. unfold evtchn_bind_ipi. rewrite HD. cbn [deref].
  set (v := s32 vcpu). case_match eqn:Hc; [eauto 10 using step_ok_refl|].
  apply orb_false_iff in Hc as [_ Hv]. apply bool_decide_eq_false, not_eq_None_Some in Hv.
  destruct (get_free_port_spec E cur s D Hinv HD) as (port & s1 & -> & Hg). cbn [mbind outcome_bind].
  destruct Hg as [[Hlt ->]|[_ Hg]].
  { apply Z.ltb_lt in Hlt. rewrite Hlt. eauto 10 using step_ok_refl. }
  pose proof (gp_range _ _ _ _ Hg). destruct (Z.ltb_spec port 0) as [|_]; [lia|].
  eexists _, _, _. split; [done|]. eapply step_ok_trans; [by eapply got_port_step|].
  apply bind_plain; try done; [apply Hg|apply Hg|]. intros D1 HD1.
  destruct (got_port_dom _ _ _ _ _ _ Hg HD) as (D1' & HD1' & _ & _ & Hvc & _). simplify_eq.
  simpl. rewrite Hvc. destruct (vcpu_small D v) as [_ ->]; [|done|done].
  apply (dw_ports _ (xb_dom _ (xi_base _ Hinv) _ _ HD)).
Qed.

(** Connecting two unconnected ports. *)
Lemma paired_connect s d1 p1 e1 d2 p2 e2 :
  paired s → chan_at s d1 p1 = Some e1 → not_inter (e_state e1) →
  chan_at s d2 p2 = Some e2 → not_inter (e_state e2) → ¬ (d2 = d1 ∧ p2 = p1) →
  paired (upd_dom d2 (upd_port p2 (set_chan (ECS_INTERDOMAIN d1 p1)))
           (upd_dom d1 (upd_port p1 (set_chan (ECS_INTERDOMAIN d2 p2))) s)).
Proof.
  intros Hp He1 Hn1 He2 Hn2 Hne. set (s' := upd_dom d2 _ _).
  assert (Hat : ∀ d q, chan_at s' d q =
    if decide (d = d2 ∧ q = p2) then Some (set_chan (ECS_INTERDOMAIN d1 p1) e2)
    else if decide (d = d1 ∧ q = p1) then Some (set_chan (ECS_INTERDOMAIN d2 p2) e1) else chan_at s d q).
  { intros d q. unfold s'. rewrite !chan_at_upd, (decide_False (P := d2 = d1 ∧ p2 = p1)) by done.
    by rewrite He1, He2. }
  intros d q e d' q'. rewrite (Hat d q). case_decide as Hd2; [|case_decide as Hd1].
  - destruct Hd2 as [-> ->]. intros [= <-] [= <- <-]. rewrite Hat, decide_False, decide_True by naive_solver.
    by eexists.
  - destruct Hd1 as [-> ->]. intros [= <-] [= <- <-]. rewrite Hat, decide_True by done. by eexists.
  - intros He Hs. destruct (Hp _ _ _ _ _ He Hs) as (e' & He' & Hs'). exists e'.
    rewrite Hat, !decide_False; [done| |]; intros [-> ->]; simplify_eq; [by eapply Hn1|by eapply Hn2].
Qed.

Lemma port_small D p : port_is_valid D p = true → u16 p = p.
Proof.
  intros [? _]%port_is_valid_spec. apply u16_small. destruct (MAX_EVTCHNS_cases D); lia.
Qed.

(** What a successful [evtchn_bind_interdomain] establishes, [s3] being the
    state in which the event is delivered to the new local port. *)
Record connects (cur : positive) (rdom rp lp : Z) (s s' : xstate) : Prop := {
  cn_local_free : ∀ e, chan_at s cur lp = Some e → e = free_evtchn;
  cn_remote : ∃ rd L r, domain_hash s !! rdom = Some rd ∧ doms s !! cur = Some L ∧
    (chan_at s rd rp = Some r ∧ e_state r = ECS_UNBOUND (domain_id L)) ∧
    chan_at s' rd rp = Some (set_chan (ECS_INTERDOMAIN cur lp) r) ∧
    chan_at s' cur lp = Some (set_chan (ECS_INTERDOMAIN rd rp) free_evtchn);
  cn_deliver : ∃ s3, xinv s3 ∧ is_Some (chan_at s3 cur lp) ∧ evtchn_set_pending cur 0 lp s3 = Ok s';
}.

Lemma evtchn_bind_interdomain_spec E cur rdom rport s L :
  xinv s → doms s !! cur = Some L →
  ∃ rc p s', evtchn_bind_interdomain E cur rdom rport s = Ok (rc, p, s') ∧ step_ok s s' ∧
    (rc = 0 → connects cur (if rdom =? DOMID_SELF then domain_id L else rdom) (s32 rport) p s s').
Proof.
  intros Hinv HL0. unfold evtchn_bind_interdomain, rcu_lock_domain_by_id. rewrite HL0. cbn [deref].
  destruct (domain_hash s !! _) as [rd|] eqn:Hh; [|by eexists _, _, _; eauto using step_ok_refl].
  destruct (xb_hash _ (xi_base _ Hinv) _ _ Hh) as (R0 & HR0 & _).
  destruct (get_free_port_spec E cur s L Hinv HL0) as (lport & s1 & -> & Hg). cbn [mbind outcome_bind].
  destruct Hg as [[Hlt ->]|[_ Hg]].
  { pose proof Hlt as Hlt'. apply Z.ltb_lt in Hlt. rewrite Hlt.
    eexists _, _, _. split; [done|]. split; [by apply step_ok_refl|lia]. }
  pose proof (gp_range _ _ _ _ Hg) as Hrng. destruct (Z.ltb_spec lport 0) as [|_]; [lia|].
  pose proof (gp_inv _ _ _ _ Hg) as Hinv1. pose proof (gp_free _ _ _ _ Hg) as Hlp.
  pose proof (got_port_step _ _ _ _ Hg) as Hst1.
  destruct (got_port_doms _ _ _ _ rd Hg ltac:(eauto)) as [R HR]. rewrite HR. cbn [deref].
  set (rp := s32 rport). destruct (port_is_valid R rp) eqn:Hv; cbn [negb]; [|by eexists _, _, _].
  destruct (valid_port _ _ _ _ Hinv1 HR Hv) as (rchn & -> & Hrc). cbn [deref].
  case_bool_decide as Hun; cbn [negb]; [|by eexists _, _, _].
  destruct (Z.eqb_spec (xsm_evtchn_interdomain E s1 cur lport rd rp) 0) as [Hxsm|Hxsm]; cbn [negb]; [|by eexists _, _, _].
  rewrite (port_small _ _ Hv), u16_small by lia.
  assert (Hne : ¬ (rd = cur ∧ rp = lport)).
  { intros [-> Heq]. rewrite Heq, Hlp in Hrc. simplify_eq. }
  set (s2 := upd_dom cur (upd_port lport _) s1). set (s3 := upd_dom rd (upd_port rp _) s2).
  assert (Hrc2 : chan_at s2 rd rp = Some rchn) by (unfold s2; rewrite chan_at_upd, decide_False; done).
  assert (Hb2 : xbase s2).
  { eapply xbase_plain; [apply Hinv1|exact Hlp|done..|]. intros D HD. simpl. by eapply vcpu0_exists. }
  assert (Hinv3 : xinv s3).
  { split.
    - eapply xbase_plain; [done|exact Hrc2| |done|done| |].
      + by rewrite Hun.
      + intros Hc. split; [right; simpl; eauto|]. by apply (xb_consumer _ Hb2 _ _ _ Hrc2).
      + intros D HD. apply (pw_notify _ (dw_ports _ (xb_dom _ Hb2 _ _ HD)) rp rchn).
        rewrite <- (chan_at_dom _ _ _ _ HD). done.
    - eapply (paired_connect s1); [apply Hinv1|exact Hlp|done|exact Hrc| |done].
      intros ? ?. by rewrite Hun. }
  assert (Hst3 : step_ok s s3).
  { eapply step_ok_trans; [done|]. split; [done|]. intros d' Hd'. by apply so_doms_upd, so_doms_upd. }
  assert (Hl3 : chan_at s3 cur lport = Some (set_chan (ECS_INTERDOMAIN rd rp) free_evtchn)).
  { unfold s3, s2. rewrite !chan_at_upd, decide_False, decide_True by naive_solver. by rewrite Hlp. }
  destruct (chan_at_Some _ _ _ _ Hl3) as (L3 & HL3 & _). rewrite HL3. cbn [deref].
  rewrite (chan_at_from_port _ _ _ _ _ HL3 Hl3). cbn [deref].
  destruct (deliver_quiet cur lport _ s3 Hinv3 Hl3) as (s4 & Hs4 & Hq). rewrite Hs4. cbn [mbind outcome_bind].
  eexists _, _, _. split; [done|]. split; [eapply step_ok_trans; [done|]; by apply step_ok_quiet|].
  intros _. split.
  - intros e He. apply (gp_old _ _ _ _ Hg) in He. congruence.
  - exists rd, L, rchn. split; [done|]. split; [done|]. rewrite !(quiet_chan _ _ _ _ Hq). split; [|split; [|done]].
    + destruct (gp_new _ _ _ _ Hg _ _ _ Hrc) as [?| ->]; done.
    + unfold s3. by rewrite chan_at_upd, decide_True, Hrc2.
  - exists s3. by rewrite Hl3.
Qed.

(** ** Virtual IRQs *)

Lemma upd_dom_upd_dom d f g s : upd_dom d f (upd_dom d g s) = upd_dom d (λ D, f (g D)) s.
Proof.
  unfold upd_dom, set_doms. simpl. f_equal. apply map_eq. intros d'. rewrite !lookup_alter.
  repeat case_decide; [|done..]. by destruct (doms s !! d).
Qed.

Lemma ports_wf_set_vcpus D g :
  ports_wf D → (∀ v, is_Some (g (vcpus D) !! v) ↔ is_Some (vcpus D !! v)) → ports_wf (set_vcpus g D).
Proof.
  intros [] Hg. split; auto; simpl; try (setoid_rewrite Hg); auto.
Qed.

Lemma pirq_wf_set_vcpus D g :
  pirq_wf D →
  (∀ v V', g (vcpus D) !! v = Some V' →
     ∃ V, vcpus D !! v = Some V ∧ pirq_evtchn_head V' = pirq_evtchn_head V) →
  pirq_wf (set_vcpus g D).
Proof.
  intros Hi Hg. split; try apply Hi. intros v V' HV'. destruct (Hg v V' HV') as (V & HV & ->).
  destruct (iw_list _ Hi v V HV) as (l & ? & ? & ?). exists l. split; [done|]. split; [|done].
  eapply pirq_chain_ext; [|done]. auto.
Qed.

(** Updates of a domain other than to its ports. *)
Lemma chan_at_other s d f d' p :
  (∀ D, doms s !! d = Some D → chan_of (f D) p = chan_of D p) →
  chan_at (upd_dom d f s) d' p = chan_at s d' p.
Proof.
  intros Hf. unfold chan_at. rewrite doms_upd_dom. case_decide; [subst|done].
  destruct (doms s !! d') as [D|] eqn:HD; simpl; [by apply Hf|done].
Qed.

Lemma paired_ext s s' : (∀ d p, chan_at s' d p = chan_at s d p) → paired s → paired s'.
Proof. intros H Hp d p e d2 p2. rewrite !H. apply Hp. Qed.

Lemma virq_port_insert V virq p virq' :
  virq_port (set_virq (<[virq := p]>) V) virq' = if decide (virq' = virq) then p else virq_port V virq'.
Proof.
  unfold virq_port. simpl. rewrite lookup_insert. repeat case_decide; congruence || done.
Qed.

Lemma virq_bind_wf D p virq v V :
  dom_wf D → chan_of D p = Some free_evtchn → p ≠ 0 → vcpus D !! v = Some V →
  0 ≤ virq < NR_VIRQS → (is_global virq = true → v = 0) → virq_port V virq = 0 →
  dom_wf (set_vcpus (alter (set_virq (<[virq := p]>)) v)
            (upd_port p (λ e, set_notify v (set_chan (ECS_VIRQ virq) e)) D)).
Proof.
  intros [Hpo Hvi Hpi] Hp Hnz HV Hr Hgl Hz. set (f := λ e, set_notify v (set_chan (ECS_VIRQ virq) e)).
  assert (Hsome : ∀ v', is_Some (alter (set_virq (<[virq := p]>)) v (vcpus D) !! v') ↔ is_Some (vcpus D !! v'))
    by (intros; apply lookup_alter_is_Some).
  split.
  - apply ports_wf_set_vcpus; [|done]. eapply ports_wf_upd; eauto; done.
  - split.
    + intros v' V' virq'. simpl. rewrite lookup_alter_Some.
      change (chan_of (set_vcpus _ (upd_port p f D))) with (chan_of (upd_port p f D)).
      intros [(<- & V0 & HV0 & ->)|[Hne HV']].
      * simplify_eq. rewrite virq_port_insert. case_decide; [subst virq'|].
        { intros _. split; [done|]. split; [done|]. exists (f free_evtchn).
          by rewrite chan_of_upd, decide_True, Hp. }
        intros Hq. destruct (vw_port _ Hvi v V virq' HV Hq) as (? & ? & e & He & ? & ?).
        split; [done|]. split; [done|]. exists e. rewrite chan_of_upd, decide_False; [done|].
        intros Heq. rewrite Heq, Hp in He. by simplify_eq.
      * intros Hq. destruct (vw_port _ Hvi v' V' virq' HV' Hq) as (? & ? & e & He & ? & ?).
        split; [done|]. split; [done|]. exists e. rewrite chan_of_upd, decide_False; [done|].
        intros Heq. rewrite Heq, Hp in He. by simplify_eq.
    + intros q e virq'. change (chan_of (set_vcpus _ (upd_port p f D))) with (chan_of (upd_port p f D)).
      rewrite chan_of_upd. simpl. case_decide.
      * subst q. rewrite Hp. simpl. intros [= <-] [= <-]. exists v, (set_virq (<[virq := p]>) V).
        rewrite lookup_alter_eq, HV. split; [done|]. by rewrite virq_port_insert, decide_True.
      * intros He Hs. destruct (vw_chan _ Hvi q e virq' He Hs) as (v' & V' & HV' & Hq).
        destruct (decide (v' = v)) as [->|Hne].
        -- simplify_eq. exists v, (set_virq (<[virq := p]>) V). rewrite lookup_alter_eq, HV. split; [done|].
           rewrite virq_port_insert, decide_False; [done|]. intros ->. rewrite Hz in He.
           destruct (valid_zero D 0 Hpo) as (e0 & ? & ?); [by eapply chan_of_valid|]. congruence.
        -- exists v', V'. rewrite lookup_alter_ne by done. done.
  - apply pirq_wf_set_vcpus; [eapply pirq_wf_upd; eauto; done|].
    intros v' V'. simpl. rewrite lookup_alter_Some. intros [(<- & V0 & HV0 & ->)|[Hne HV']]; eauto.
Qed.

Lemma virq_is_global_spec virq : 0 ≤ virq < NR_VIRQS → virq_is_global virq = Ok (is_global virq).
Proof.
  unfold virq_is_global, is_global, NR_VIRQS, arch_virq_is_global. intros H.
  destruct (Z.ltb_spec virq 24); [|lia]. simpl. f_equal.
  destruct (_ || _ || _); [done|]. by case_match.
Qed.

Lemma evtchn_bind_virq_spec E cur virq vcpu s :
  xinv s → is_Some (doms s !! cur) →
  ∃ rc p s', evtchn_bind_virq E cur virq vcpu s = Ok (rc, p, s') ∧ step_ok s s'.
Proof.
  intros Hinv [D HD]. unfold evtchn_bind_virq. rewrite HD. cbn [deref].
  set (q := s32 virq). set (v := s32 vcpu).
  destruct ((q <? 0) || (NR_VIRQS <=? q)) eqn:Hq; [eauto 10 using step_ok_refl|]. b2p.
  rewrite virq_is_global_spec by lia. cbn [mbind outcome_bind].
  destruct (is_global q && negb (v =? 0)) eqn:Hgl; [eauto 10 using step_ok_refl|].
  destruct (_ || _); [eauto 10 using step_ok_refl|].
  destruct (vcpus D !! v) as [V|] eqn:HV; [|eauto 10 using step_ok_refl].
  destruct (Z.eqb_spec (virq_port V q) 0) as [Hz|]; cbn [negb]; [|eauto 10 using step_ok_refl].
  destruct (get_free_port_spec E cur s D Hinv HD) as (port & s1 & -> & Hg). cbn [mbind outcome_bind].
  destruct Hg as [[Hlt ->]|[_ Hg]].
  { apply Z.ltb_lt in Hlt. rewrite Hlt. eauto 10 using step_ok_refl. }
  pose proof (gp_range _ _ _ _ Hg). destruct (Z.ltb_spec port 0) as [|_]; [lia|].
  destruct (got_port_dom _ _ _ _ _ _ Hg HD) as (D1 & HD1 & _ & _ & Hvc & _).
  pose proof (gp_inv _ _ _ _ Hg) as Hinv1. pose proof (gp_free _ _ _ _ Hg) as Hp.
  destruct (vcpu_small D v) as [_ Hv16]; [apply (xb_dom _ (xi_base _ Hinv) _ _ HD)|eauto|].
  rewrite Hv16, !u16_small by (unfold NR_VIRQS in *; lia).
  eexists _, _, _. split; [done|]. eapply step_ok_trans; [by eapply got_port_step|].
  unfold upd_vcpu. rewrite upd_dom_upd_dom.
  assert (Hp1 : chan_of D1 port = Some free_evtchn) by by rewrite <- (chan_at_dom _ _ _ _ HD1).
  split; [split|intros d'; apply so_doms_upd].
  - eapply xbase_upd; [apply Hinv1|done| |done|].
    + eapply virq_bind_wf; eauto; [apply (xb_dom _ (xi_base _ Hinv1) _ _ HD1)|lia|by rewrite Hvc|].
      intros Hg'. rewrite Hg' in Hgl. simpl in Hgl. by b2p.
    + intros p e. change (chan_of (set_vcpus _ ?X) p) with (chan_of X p). rewrite chan_of_upd.
      case_decide; [rewrite Hp1; by intros [= <-]|]. rewrite <- (chan_at_dom _ _ _ _ HD1).
      apply (xb_consumer _ (xi_base _ Hinv1)).
  - rewrite <- upd_dom_upd_dom. eapply paired_ext; [intros d' q'; by apply chan_at_other|].
    eapply paired_upd; [apply Hinv1|exact Hp|done|done].
Qed.
