(* ===== verification/EvtChnPirq.v ===== *)
(** * The PIRQ port lists of event channels (xen/common/event_channel.c)

    Each vcpu heads a doubly linked list of the ports bound to physical IRQs
    that notify it, linked through [next_port] and [prev_port]. Linking and
    unlinking keep every list consistent, and so do the operations built on
    them: [evtchn_bind_pirq], closing a PIRQ port and rebinding it to another
    vcpu. *)

From S2P Require Import Prelude EvtChn EvtChnInv EvtChnOps.
Local Open Scope xen_scope.

(** ** Segments *)

Definition last_or (prev : Z) (l : list Z) : Z := default prev (last l).

Lemma pirq_chain_app D prev port l1 l2 stop :
  pirq_chain D prev port (l1 ++ l2) stop ↔
  ∃ mid, pirq_chain D prev port l1 mid ∧ pirq_chain D (last_or prev l1) mid l2 stop.
Proof.
  revert prev port. induction l1 as [|a l1 IH]; intros prev port; simpl.
  { split; [intros H; exists port; auto|]. intros (mid & -> & H). done. }
  assert (Hl : last_or prev (a :: l1) = last_or a l1) by (unfold last_or; destruct l1; [done|by rewrite last_cons_cons; destruct (last (z :: l1)) eqn:E; [|by apply last_None in E]]).
  rewrite Hl. split.
  - intros (-> & ? & e & irq & next & ? & ? & (mid & ? & ?)%IH). exists mid. split; [|done].
    split; [done|]. split; [done|]. exists e, irq, next. auto.
  - intros (mid & (-> & ? & e & irq & next & ? & ? & ?) & ?). split; [done|]. split; [done|].
    exists e, irq, next. split; [done|]. split; [done|]. apply IH. eauto.
Qed.

(** Redirecting the end of a segment. *)
Lemma pirq_chain_set_next D prev port l a stop stop' e irq n pr :
  pirq_chain D prev port (l ++ [a]) stop → a ∉ l →
  chan_of D a = Some e → e_state e = ECS_PIRQ irq n pr →
  pirq_chain (upd_port a (set_chan (ECS_PIRQ irq stop' pr)) D) prev port (l ++ [a]) stop'.
Proof.
  rewrite !pirq_chain_app. intros (mid & H1 & (-> & ? & e' & irq' & n' & He' & Hs' & ->)) Hnin He Hs.
  assert (e' = e) as -> by congruence. rewrite Hs in Hs'. injection Hs' as <- <- ->.
  exists a. split; [by apply pirq_chain_upd|].
  simpl. split; [done|]. split; [done|]. exists (set_chan (ECS_PIRQ irq stop' (last_or prev l)) e), irq, stop'.
  by rewrite chan_of_upd, decide_True, He.
Qed.

(** Redirecting the start of a segment. *)
Lemma pirq_chain_set_prev D prev prev' b l stop e irq n pr :
  pirq_chain D prev b (b :: l) stop → b ∉ l →
  chan_of D b = Some e → e_state e = ECS_PIRQ irq n pr →
  pirq_chain (upd_port b (set_chan (ECS_PIRQ irq n prev')) D) prev' b (b :: l) stop.
Proof.
  simpl. intros (_ & ? & e' & irq' & n' & He' & Hs' & ?) Hnin He Hs.
  assert (e' = e) as -> by congruence. rewrite Hs in Hs'. injection Hs' as <- <- _.
  split; [done|]. split; [done|]. exists (set_chan (ECS_PIRQ irq n prev') e), irq, n. rewrite chan_of_upd, decide_True, He by done.
  split; [done|]. split; [done|]. by apply pirq_chain_upd.
Qed.

Lemma pirq_chain_nil D prev prev' port stop : pirq_chain D prev port [] stop → pirq_chain D prev' port [] stop.
Proof. done. Qed.

(** ** Changes to links only *)

Definition same_links (e e' : evtchn) : Prop :=
  e' = e ∨ ∃ irq n pr n' pr', e_state e = ECS_PIRQ irq n pr ∧ e' = set_chan (ECS_PIRQ irq n' pr') e.

Definition same_but_head (V V' : vcpu) : Prop := V' = set_head (pirq_evtchn_head V') V.

Record links_only (D D' : domain) : Prop := {
  lo_rest : D' = set_vcpus (λ _, vcpus D') (set_buckets (λ _, evtchn_buckets D') D);
  lo_vcpus v : option_Forall2 same_but_head (vcpus D !! v) (vcpus D' !! v);
  lo_buckets k : length <$> evtchn_buckets D' !! k = length <$> evtchn_buckets D !! k;
  lo_chan q : option_Forall2 same_links (chan_of D q) (chan_of D' q);
}.

#[export] Instance same_links_preorder : PreOrder same_links.
Proof.
  split; [by left|]. intros e1 e2 e3 [->|(irq & n & pr & n' & pr' & H & ->)]; [done|].
  intros [->|(irq2 & n2 & pr2 & n3 & pr3 & H2 & ->)]; right.
  - exists irq, n, pr, n', pr'. auto.
  - simpl in H2. simplify_eq. exists irq2, n, pr, n3, pr3. auto.
Qed.

#[export] Instance same_but_head_preorder : PreOrder same_but_head.
Proof.
  split; [by intros []|]. intros V1 V2 V3 H1 H2. unfold same_but_head in *. rewrite H1 in H2. by rewrite H2.
Qed.

#[export] Instance links_only_preorder : PreOrder links_only.
Proof.
  split.
  - intros D. split; [by destruct D|intros; reflexivity..].
  - intros D1 D2 D3 [A1 A2 A3 A4] [B1 B2 B3 B4]. split.
    + rewrite B1 at 1. rewrite A1 at 1. done.
    + intros v. by transitivity (vcpus D2 !! v).
    + intros k. by rewrite B3.
    + intros q. by transitivity (chan_of D2 q).
Qed.

Lemma links_port D q e irq n pr n' pr' :
  chan_of D q = Some e → e_state e = ECS_PIRQ irq n pr →
  links_only D (upd_port q (set_chan (ECS_PIRQ irq n' pr')) D).
Proof.
  intros He Hs. split.
  - by destruct D.
  - intros v. reflexivity.
  - intros k. simpl. rewrite lookup_alter. case_decide; [|done].
    subst. destruct (evtchn_buckets D !! _); simpl; [by rewrite length_alter|done].
  - intros q'. rewrite chan_of_upd. case_decide; [|reflexivity]. subst. rewrite He. constructor.
    right. exists irq, n, pr, n', pr'. auto.
Qed.

Lemma links_head D v h : links_only D (set_vcpus (alter (set_head h) v) D).
Proof.
  split; [by destruct D| |done|intros; reflexivity]. intros v'. simpl. rewrite lookup_alter.
  case_decide; [|reflexivity]. subst. destruct (vcpus D !! v') as [V|]; simpl; constructor. done.
Qed.

Section links.
Context (D D' : domain) (HL : links_only D D').

Lemma links_chan q e' : chan_of D' q = Some e' → ∃ e, chan_of D q = Some e ∧ same_links e e'.
Proof. intros H. destruct (lo_chan _ _ HL q) as [e e0 He|]; [|done]. simplify_eq. eauto. Qed.

Lemma links_chan_fwd q e : chan_of D q = Some e → ∃ e', chan_of D' q = Some e' ∧ same_links e e'.
Proof. intros H. destruct (lo_chan _ _ HL q) as [e0 e' He|]; [|done]. simplify_eq. eauto. Qed.

Lemma same_links_fields e e' :
  same_links e e' → xen_consumer e' = xen_consumer e ∧ notify_vcpu_id e' = notify_vcpu_id e ∧
  ((∃ irq n pr n' pr', e_state e = ECS_PIRQ irq n pr ∧ e_state e' = ECS_PIRQ irq n' pr') ∨
   (e' = e ∧ ∀ irq n pr, e_state e ≠ ECS_PIRQ irq n pr)).
Proof.
  intros [->|(irq & n & pr & n' & pr' & H & ->)].
  - split; [done|]. split; [done|]. destruct (e_state e) eqn:E; [by right..| |by right|by right].
    left. eauto 10.
  - split; [done|]. split; [done|]. left. exists irq, n, pr, n', pr'. auto.
Qed.

Lemma links_vcpu v V' : vcpus D' !! v = Some V' → ∃ V, vcpus D !! v = Some V ∧ same_but_head V V'.
Proof. intros H. destruct (lo_vcpus _ _ HL v) as [V V0 HV|]; [|done]. simplify_eq. eauto. Qed.

Lemma links_vcpu_fwd v V : vcpus D !! v = Some V → ∃ V', vcpus D' !! v = Some V' ∧ same_but_head V V'.
Proof. intros H. destruct (lo_vcpus _ _ HL v) as [V0 V' HV|]; [|done]. simplify_eq. eauto. Qed.

Lemma links_vcpu_Some v : is_Some (vcpus D' !! v) ↔ is_Some (vcpus D !! v).
Proof. destruct (lo_vcpus _ _ HL v); split; eauto. Qed.

Lemma links_bucket_Some k : is_Some (evtchn_buckets D' !! k) ↔ is_Some (evtchn_buckets D !! k).
Proof.
  pose proof (lo_buckets _ _ HL k) as H.
  destruct (evtchn_buckets D' !! k), (evtchn_buckets D !! k); simpl in H; try discriminate; split; eauto;
    intros [? ?]; discriminate.
Qed.
End links.

Section links_wf.
Context (D D' : domain) (HL : links_only D D').

Lemma links_fields :
  is_dying D' = is_dying D ∧ MAX_EVTCHNS D' = MAX_EVTCHNS D ∧ max_vcpus D' = max_vcpus D ∧
  poll_mask D' = poll_mask D ∧ destroyed D' = destroyed D ∧ nr_pirqs D' = nr_pirqs D ∧
  pirq_tree D' = pirq_tree D ∧ domain_id D' = domain_id D ∧ is_hvm D' = is_hvm D.
Proof.
  pose proof (lo_rest _ _ HL) as H.
  repeat split; unfold MAX_EVTCHNS, BITS_PER_EVTCHN_WORD; rewrite H; done.
Qed.

Lemma ports_wf_links : ports_wf D → ports_wf D'.
Proof.
  destruct links_fields as (F1 & F2 & F3 & F4 & F5 & F6 & F7 & F8 & F9). intros Hw.
  assert (Hch : ∀ q e', chan_of D' q = Some e' → ∃ e, chan_of D q = Some e ∧
    xen_consumer e' = xen_consumer e ∧ notify_vcpu_id e' = notify_vcpu_id e ∧
    ((∃ irq n pr n' pr', e_state e = ECS_PIRQ irq n pr ∧ e_state e' = ECS_PIRQ irq n' pr') ∨ e' = e)).
  { intros q e' He'. destruct (links_chan _ _ HL q e' He') as (e & He & Hs). exists e. split; [done|].
    apply same_links_fields in Hs as (? & ? & [?|[? _]]); auto. }
  split.
  - intros k b Hb. rewrite F2. pose proof (lo_buckets _ _ HL k) as Hk. rewrite Hb in Hk. simpl in Hk.
    destruct (evtchn_buckets D !! k) as [b0|] eqn:E; simpl in Hk; [|done]. injection Hk as ->.
    by apply (pw_bucket _ Hw).
  - intros k j. rewrite !(links_bucket_Some _ _ HL). apply (pw_contig _ Hw).
  - rewrite F1. intros Hz. destruct (pw_zero _ Hw) as (e & He & Hs).
    { destruct Hz as [?|[k Hk]]; [by left|right]. exists k. by apply (links_bucket_Some _ _ HL). }
    destruct (links_chan_fwd _ _ HL 0 e He) as (e' & He' & [->|(? & ? & ? & ? & ? & Hs' & _)]); [eauto|congruence].
  - intros q e' (e & He & _ & _ & [(? & ? & ? & ? & ? & _ & Hs')| ->])%Hch Hs; [congruence|by eapply (pw_reserved _ Hw)].
  - intros q e' (e & He & _ & _ & [(? & ? & ? & ? & ? & _ & Hs')| ->])%Hch Hs; [congruence|by eapply (pw_free _ Hw)].
  - intros q e' (e & He & Hc & _ & [(? & ? & ? & ? & ? & Hs & _)| ->])%Hch Hx; [|by eapply (pw_xen _ Hw)].
    rewrite Hc in Hx. destruct (pw_xen _ Hw q e He Hx) as [[r Hr]|(? & ? & Hr)]; congruence.
  - intros q e' (e & He & _ & Hn & _)%Hch. rewrite Hn, (links_vcpu_Some _ _ HL). by eapply (pw_notify _ Hw).
  - rewrite (links_vcpu_Some _ _ HL). apply Hw.
  - intros v. rewrite (links_vcpu_Some _ _ HL), F3. apply (pw_vcpus _ Hw).
  - rewrite F3. apply Hw.
  - intros v. rewrite F4, F3, (links_vcpu_Some _ _ HL). apply (pw_poll _ Hw).
  - rewrite F5, F1. intros Hd. destruct (pw_destroyed _ Hw Hd) as [? Hb]. split; [done|].
    apply map_eq. intros k. pose proof (lo_buckets _ _ HL k) as Hk. rewrite Hb, lookup_empty in *.
    by destruct (evtchn_buckets D' !! k).
Qed.

Lemma virq_wf_links : virq_wf D → virq_wf D'.
Proof.
  assert (Hvp : ∀ V V' virq, same_but_head V V' → virq_port V' virq = virq_port V virq).
  { intros V V' virq ->. done. }
  intros Hw. split.
  - intros v V' virq HV' Hp. destruct (links_vcpu _ _ HL v V' HV') as (V & HV & Hh).
    rewrite (Hvp _ _ _ Hh) in *. destruct (vw_port _ Hw v V virq HV Hp) as (? & ? & e & He & Hs & Hn).
    split; [done|]. split; [done|].
    destruct (links_chan_fwd _ _ HL _ e He) as (e' & He' & [->|(? & ? & ? & ? & ? & Hs' & _)]); [eauto|congruence].
  - intros q e' virq He' Hs'. destruct (links_chan _ _ HL q e' He') as (e & He & [->|(? & ? & ? & ? & ? & _ & ->)]);
      [|done].
    destruct (vw_chan _ Hw q e virq He Hs') as (v & V & HV & Hq).
    destruct (links_vcpu_fwd _ _ HL v V HV) as (V' & HV' & Hh). exists v, V'. by rewrite (Hvp _ _ _ Hh).
Qed.

Lemma on_pirq_list_links v q : on_pirq_list D' v q ↔ on_pirq_list D v q.
Proof.
  unfold on_pirq_list. split; intros (e & irq & n & pr & He & Hs & Hn).
  - destruct (links_chan _ _ HL q e He) as (e0 & He0 & Hl).
    apply same_links_fields in Hl as (_ & Hno & [(irq' & n0 & pr0 & ? & ? & Hs0 & ?)|[-> _]]); [|eauto 10].
    exists e0, irq', n0, pr0. split; [done|]. split; [done|congruence].
  - destruct (links_chan_fwd _ _ HL q e He) as (e0 & He0 & Hl).
    apply same_links_fields in Hl as (_ & Hno & [(irq' & n0 & pr0 & n1 & pr1 & Hs0 & Hs1)|[-> _]]); [|eauto 10].
    exists e0, irq', n1, pr1. split; [done|]. split; [done|congruence].
Qed.
End links_wf.

(** The invariant of the PIRQ table, lists and port [x] aside. *)
Record pirq_tab (x : Z) (D : domain) : Prop := {
  it_nr : nr_pirqs D ≤ 65536;
  it_port irq i : pirq_tree D !! irq = Some i → pirq_evtchn i ≠ 0 →
    ∃ e n pr, chan_of D (pirq_evtchn i) = Some e ∧ e_state e = ECS_PIRQ irq n pr;
  it_chan p e irq n pr : p ≠ x → chan_of D p = Some e → e_state e = ECS_PIRQ irq n pr →
    0 ≤ irq < nr_pirqs D ∧ ∃ i, pirq_tree D !! irq = Some i ∧ pirq_evtchn i = p;
}.

(** The lists hold every PIRQ port but [x]. *)
Definition lists_but (x : Z) (D : domain) : Prop :=
  ∀ v V, vcpus D !! v = Some V →
    ∃ l, NoDup l ∧ pirq_chain D 0 (pirq_evtchn_head V) l 0 ∧ ∀ p, p ∈ l ↔ p ≠ x ∧ on_pirq_list D v p.

Lemma pirq_tab_of x D : pirq_wf D → pirq_tab x D.
Proof. intros Hw. split; [apply Hw|apply Hw|]. intros p e irq n pr _. apply (iw_chan _ Hw). Qed.

Lemma pirq_tab_links x D D' : links_only D D' → pirq_tab x D → pirq_tab x D'.
Proof.
  intros HL [H1 H2 H3]. destruct (links_fields _ _ HL) as (_ & _ & _ & _ & _ & F6 & F7 & _ & _).
  split; [by rewrite F6| |].
  - rewrite F7. intros irq i Hi Hn. destruct (H2 irq i Hi Hn) as (e & n & pr & He & Hs).
    destruct (links_chan_fwd _ _ HL _ e He) as (e' & He' & Hl).
    apply same_links_fields in Hl as (_ & _ & [(irq' & n0 & pr0 & n1 & pr1 & Hs0 & Hs1)|[-> _]]); [|eauto 10].
    exists e', n1, pr1. split; [done|]. congruence.
  - rewrite F6, F7. intros p e' irq n pr Hx He' Hs'. destruct (links_chan _ _ HL p e' He') as (e & He & Hl).
    apply same_links_fields in Hl as (_ & _ & [(irq' & n0 & pr0 & n1 & pr1 & Hs0 & Hs1)|[-> _]]); [|by eapply H3].
    assert (irq' = irq) as -> by congruence. by eapply H3.
Qed.

(** ** Linking and unlinking *)

Lemma write_next_spec s d D q e irq n pr n' :
  doms s !! d = Some D → chan_of D q = Some e → e_state e = ECS_PIRQ irq n pr → 0 ≤ n' < 65536 →
  write_next d q n' s = Ok (upd_dom d (upd_port q (set_chan (ECS_PIRQ irq n' pr))) s).
Proof.
  intros HD He Hs Hn. apply chan_of_Some in He as [_ He]. unfold write_next.
  rewrite HD. cbn [deref]. rewrite He. cbn [deref]. by rewrite Hs, u16_small.
Qed.

Lemma write_prev_spec s d D q e irq n pr pr' :
  doms s !! d = Some D → chan_of D q = Some e → e_state e = ECS_PIRQ irq n pr → 0 ≤ pr' < 65536 →
  write_prev d q pr' s = Ok (upd_dom d (upd_port q (set_chan (ECS_PIRQ irq n pr'))) s).
Proof.
  intros HD He Hs Hn. apply chan_of_Some in He as [_ He]. unfold write_prev.
  rewrite HD. cbn [deref]. rewrite He. cbn [deref]. by rewrite Hs, u16_small.
Qed.

Lemma chan_range D q e : chan_of D q = Some e → 0 ≤ q < 65536.
Proof. intros [? _]%chan_of_valid%port_is_valid_spec. destruct (MAX_EVTCHNS_cases D); lia. Qed.

(** What linking and unlinking do to a domain: only links of the ports in [ps]
    and the head of [v] change. *)
Record relinked (D D' : domain) (v : Z) (ps : list Z) : Prop := {
  rl_links : links_only D D';
  rl_frame q : q ∉ ps → chan_of D' q = chan_of D q;
  rl_other v' : v' ≠ v → vcpus D' !! v' = vcpus D !! v';
}.

(** The linked port's own fields. *)
Lemma link_front s d D p e irq n0 pr0 h :
  doms s !! d = Some D → chan_of D p = Some e → e_state e = ECS_PIRQ irq n0 pr0 → 0 ≤ h < 65536 →
  ∃ s1 G, write_prev d p 0 s = Ok s1 ∧ write_next d p h s1 = Ok (upd_dom d G s) ∧
    links_only D (G D) ∧ chan_of (G D) p = Some (set_chan (ECS_PIRQ irq h 0) e) ∧
    (∀ q, q ≠ p → chan_of (G D) q = chan_of D q) ∧ vcpus (G D) = vcpus D.
Proof.
  intros HD He Hs Hh. rewrite (write_prev_spec s d D p e irq n0 pr0 0 HD He Hs) by lia.
  set (D1 := upd_port p (set_chan (ECS_PIRQ irq n0 0)) D). set (s1 := upd_dom d _ s).
  assert (HD1 : doms s1 !! d = Some D1) by by apply doms_upd_same.
  assert (He1 : chan_of D1 p = Some (set_chan (ECS_PIRQ irq n0 0) e)).
  { unfold D1. by rewrite chan_of_upd, decide_True, He. }
  eexists s1, _. split; [done|].
  rewrite (write_next_spec s1 d D1 p _ irq n0 0 h HD1 He1 eq_refl Hh).
  unfold s1. rewrite upd_dom_upd_dom. split; [done|]. unfold D1 in *. split; [|split; [|split]].
  - etrans; [eapply links_port; [exact He|exact Hs]|]. by eapply links_port.
  - by rewrite chan_of_upd, decide_True, He1.
  - intros q Hq. by rewrite !chan_of_upd, !decide_False.
  - done.
Qed.

Lemma link_pirq_port_spec s d D p v V l e irq n0 pr0 :
  doms s !! d = Some D → chan_of D p = Some e → e_state e = ECS_PIRQ irq n0 pr0 → p ≠ 0 →
  vcpus D !! v = Some V → pirq_chain D 0 (pirq_evtchn_head V) l 0 → NoDup (p :: l) →
  ∃ F, link_pirq_port d p v s = Ok (upd_dom d F s) ∧ relinked D (F D) v (p :: l) ∧
       vcpus (F D) !! v = Some (set_head p V) ∧ pirq_chain (F D) 0 p (p :: l) 0.
Proof.
  intros HD He Hs Hnz HV Hc Hnd. pose proof (chan_range _ _ _ He) as Hpr.
  unfold link_pirq_port. rewrite HD. cbn [deref]. rewrite HV. cbn [deref].
  set (h := pirq_evtchn_head V) in *.
  assert (Hh : 0 ≤ h < 65536).
  { destruct l as [|a l]; simpl in Hc; [lia|]. destruct Hc as (-> & _ & e' & ? & ? & He' & _).
    by eapply chan_range. }
  destruct (link_front s d D p e irq n0 pr0 h HD He Hs Hh) as (s1 & G & -> & HG & HL & Hp & Hq & Hvc).
  cbn [mbind outcome_bind]. rewrite HG. cbn [mbind outcome_bind].
  assert (HDG : doms (upd_dom d G s) !! d = Some (G D)) by by apply doms_upd_same.
  destruct l as [|a l].
  - simpl in Hc. rewrite Hc. cbn [Z.eqb mbind outcome_bind]. unfold upd_vcpu. rewrite upd_dom_upd_dom.
    eexists. split; [done|]. cbn beta. split; [split|split].
    + etrans; [done|apply links_head].
    + intros q [? _]%not_elem_of_cons. by apply Hq.
    + intros v' Hv'. simpl. by rewrite lookup_alter_ne, Hvc.
    + simpl. by rewrite lookup_alter_eq, Hvc, HV.
    + simpl. split; [done|]. split; [done|]. eexists _, irq, h. split; [exact Hp|]. by rewrite Hc.
  - apply NoDup_cons in Hnd as [Hpl Hnd]. apply not_elem_of_cons in Hpl as [Hpa Hpl].
    apply NoDup_cons in Hnd as [Hal Hnd].
    pose proof Hc as (Hha & Haz & ea & irqa & na & Hea & Hsa & _).
    destruct (Z.eqb_spec h 0) as [|_]; [congruence|]. rewrite Hha in *.
    assert (HeaG : chan_of (G D) a = Some ea) by by rewrite Hq.
    rewrite (write_prev_spec _ d (G D) a ea irqa na 0 p HDG HeaG Hsa Hpr). cbn [mbind outcome_bind].
    unfold upd_vcpu. rewrite !upd_dom_upd_dom. eexists. split; [done|]. cbn beta.
    set (D3 := upd_port a (set_chan (ECS_PIRQ irqa na p)) (G D)). split; [split|split].
    + etrans; [done|]. etrans; [by eapply (links_port (G D))|apply links_head].
    + intros q [? [? ?]%not_elem_of_cons]%not_elem_of_cons.
      change (chan_of D3 q = chan_of D q). unfold D3. rewrite chan_of_upd, decide_False by done. by apply Hq.
    + intros v' Hv'. simpl. by rewrite lookup_alter_ne, Hvc.
    + simpl. by rewrite lookup_alter_eq, Hvc, HV.
    + apply (pirq_chain_ext D3); [auto|].
      split; [done|]. split; [done|]. exists (set_chan (ECS_PIRQ irq a 0) e), irq, a.
      split; [unfold D3; by rewrite chan_of_upd, decide_False|]. split; [done|].
      eapply pirq_chain_set_prev; eauto. eapply pirq_chain_ext, Hc.
      intros q eq Hin Heq. rewrite Hq; [done|]. intros ->.
      apply elem_of_cons in Hin as [|]; congruence.
Qed.

(** The predecessor, or the head, is redirected to [next]. *)
Lemma unlink_prev s d D v V l1 p next :
  doms s !! d = Some D → vcpus D !! v = Some V → NoDup l1 → 0 ≤ next < 65536 →
  pirq_chain D 0 (pirq_evtchn_head V) l1 p →
  ∃ G h, (if last_or 0 l1 =? 0 then Ok (upd_vcpu d v (set_head next) s)
          else write_next d (last_or 0 l1) next s) = Ok (upd_dom d G s) ∧
    relinked D (G D) v l1 ∧ vcpus (G D) !! v = Some (set_head h V) ∧
    pirq_chain (G D) 0 h l1 next.
Proof.
  intros HD HV Hnd Hn Hc. destruct l1 as [|a l1 _] using rev_ind.
  - simpl. exists (set_vcpus (alter (set_head next) v)), next. split; [done|]. split; [split|split; [|done]].
    + apply links_head.
    + done.
    + intros v' Hv'. simpl. by rewrite lookup_alter_ne.
    + simpl. by rewrite lookup_alter_eq, HV.
  - unfold last_or. rewrite last_snoc. simpl. apply NoDup_app in Hnd as (Hnd & Hal & _).
    assert (a ∉ l1) as Ha by (intros H; apply (Hal a H); by left).
    pose proof Hc as Hc'. apply pirq_chain_app in Hc' as (mid & _ & (-> & Haz & ea & irqa & na & Hea & Hsa & _)).
    destruct (Z.eqb_spec a 0) as [|_]; [done|].
    rewrite (write_next_spec s d D a ea irqa na _ next HD Hea Hsa Hn).
    eexists _, (pirq_evtchn_head V). split; [done|]. split; [split|split].
    + by eapply links_port.
    + intros q [? ?]%not_elem_of_app. rewrite chan_of_upd, decide_False; [done|]. set_solver.
    + done.
    + simpl. rewrite HV. by destruct V.
    + by eapply pirq_chain_set_next.
Qed.

(** The successor is redirected to [prev]. *)
Lemma unlink_next s d D v l2 p prev next :
  doms s !! d = Some D → NoDup l2 → 0 ≤ prev < 65536 → pirq_chain D p next l2 0 →
  ∃ G, (if next =? 0 then Ok s else write_prev d next prev s) = Ok (upd_dom d G s) ∧
    relinked D (G D) v l2 ∧ vcpus (G D) = vcpus D ∧ pirq_chain (G D) prev next l2 0.
Proof.
  intros HD Hnd Hp Hc. destruct l2 as [|b l2].
  - simpl in Hc. rewrite Hc. simpl. exists id. split; [|split; [split; done|done]].
    f_equal. rewrite <- (upd_dom_id d s) at 1. unfold upd_dom, set_doms. f_equal.
    apply map_eq. intros d'. rewrite !lookup_alter. case_decide; [|done]. by destruct (doms s !! d) as [[]|].
  - apply NoDup_cons in Hnd as [Hb Hnd]. pose proof Hc as (-> & Hbz & eb & irqb & nb & Heb & Hsb & _).
    destruct (Z.eqb_spec b 0) as [|_]; [done|].
    rewrite (write_prev_spec s d D b eb irqb nb p prev HD Heb Hsb Hp).
    eexists. split; [done|]. split; [split|split].
    + by eapply links_port.
    + intros q [? ?]%not_elem_of_cons. by rewrite chan_of_upd, decide_False.
    + done.
    + done.
    + by eapply pirq_chain_set_prev.
Qed.

Lemma last_or_range D prev port l stop :
  pirq_chain D prev port l stop → 0 ≤ prev < 65536 → 0 ≤ last_or prev l < 65536.
Proof.
  intros Hc Hp. destruct l as [|a l _] using rev_ind; [done|]. unfold last_or. rewrite last_snoc. simpl.
  apply pirq_chain_app in Hc as (mid & _ & (_ & _ & e & ? & ? & He & _)). by eapply chan_range.
Qed.

Lemma unlink_pirq_port_spec s d D p v V l1 l2 e irq next prev :
  doms s !! d = Some D → chan_of D p = Some e → e_state e = ECS_PIRQ irq next prev →
  vcpus D !! v = Some V → pirq_chain D 0 (pirq_evtchn_head V) (l1 ++ p :: l2) 0 →
  NoDup (l1 ++ p :: l2) →
  ∃ F h, unlink_pirq_port d next prev v s = Ok (upd_dom d F s) ∧ relinked D (F D) v (l1 ++ l2) ∧
         vcpus (F D) !! v = Some (set_head h V) ∧ pirq_chain (F D) 0 h (l1 ++ l2) 0.
Proof.
  intros HD He Hs HV Hc Hnd.
  apply pirq_chain_app in Hc as (mid & Hc1 & (-> & Hpz & e' & irq' & next' & He' & Hs' & Hc2)).
  assert (e' = e) as -> by congruence. rewrite Hs in Hs'. injection Hs' as <- <- Hprev.
  apply NoDup_app in Hnd as (Hnd1 & Hdisj & [Hp2 Hnd2]%NoDup_cons).
  assert (Hnx : 0 ≤ next < 65536).
  { destruct l2 as [|b l2]; simpl in Hc2; [lia|]. destruct Hc2 as (-> & _ & ? & ? & ? & ? & _). by eapply chan_range. }
  assert (Hpv : 0 ≤ prev < 65536) by (rewrite Hprev; eapply last_or_range; [done|lia]).
  unfold unlink_pirq_port. rewrite HD. cbn [deref]. rewrite HV. cbn [deref].
  destruct (unlink_prev s d D v V l1 p next HD HV Hnd1 Hnx Hc1) as (G & h & Hw & [HL1 Hf1 Ho1] & HV1 & Hch1).
  rewrite <- Hprev in Hw. rewrite Hw.
  cbn [mbind outcome_bind].
  assert (HD1 : doms (upd_dom d G s) !! d = Some (G D)) by by apply doms_upd_same.
  assert (Hc2' : pirq_chain (G D) p next l2 0).
  { eapply pirq_chain_ext, Hc2. intros q eq Hq Heq. rewrite Hf1; [done|]. intros Hq1.
    apply (Hdisj q Hq1). by right. }
  destruct (unlink_next _ d (G D) v l2 p prev next HD1 Hnd2 Hpv Hc2') as (K & -> & [HL2 Hf2 Ho2] & HV2 & Hch2).
  rewrite upd_dom_upd_dom. eexists _, h. split; [done|]. cbn beta. split; [split|split].
  - by etrans.
  - intros q [? ?]%not_elem_of_app. rewrite Hf2, Hf1; done.
  - intros v' Hv'. rewrite Ho2, Ho1; done.
  - by rewrite HV2.
  - apply pirq_chain_app. exists next. rewrite <- Hprev. split; [|done].
    eapply pirq_chain_ext, Hch1. intros q eq Hq Heq. rewrite Hf2; [done|].
    intros Hq2. apply (Hdisj q Hq). by right.
Qed.

(** ** Lists after linking and unlinking *)

Lemma list_ports_notify D v p : on_pirq_list D v p → ∀ v', on_pirq_list D v' p → v' = v.
Proof. intros (e & ? & ? & ? & He & _ & <-) v' (e' & ? & ? & ? & He' & _ & <-). congruence. Qed.

(** Linking the one port that was in no list. *)
Lemma lists_link D D' p v V l :
  lists_but p D → relinked D D' v (p :: l) → vcpus D !! v = Some V →
  NoDup (p :: l) → (∀ q, q ∈ l ↔ q ≠ p ∧ on_pirq_list D v q) → on_pirq_list D v p →
  vcpus D' !! v = Some (set_head p V) → pirq_chain D' 0 p (p :: l) 0 →
  ∀ v' V', vcpus D' !! v' = Some V' →
    ∃ l', NoDup l' ∧ pirq_chain D' 0 (pirq_evtchn_head V') l' 0 ∧ ∀ q, q ∈ l' ↔ on_pirq_list D' v' q.
Proof.
  intros Hlists [HL Hf Ho] HV Hnd Hl Hp HV' Hc v' V'. setoid_rewrite (on_pirq_list_links _ _ HL).
  destruct (decide (v' = v)) as [->|Hne].
  - rewrite HV'. intros [= <-]. exists (p :: l). split; [done|]. split; [done|].
    intros q. rewrite elem_of_cons, Hl. destruct (decide (q = p)) as [->|]; tauto.
  - rewrite Ho by done. intros HV0. destruct (Hlists v' V' HV0) as (l' & Hnd' & Hc' & Hl').
    exists l'. split; [done|]. split.
    + eapply pirq_chain_ext, Hc'. intros q e Hq He. rewrite Hf; [done|]. intros Hin.
      apply Hl' in Hq as [Hqp Hq]. apply elem_of_cons in Hin as [|Hin]; [done|].
      apply Hl in Hin as [_ Hin]. by pose proof (list_ports_notify _ _ _ Hin _ Hq).
    + intros q. rewrite Hl'. split; [tauto|]. intros Hq. split; [|done]. intros ->.
      by pose proof (list_ports_notify _ _ _ Hp _ Hq).
Qed.

(** Unlinking a port. *)
Lemma lists_unlink D D' p v V l1 l2 h :
  (∀ v V, vcpus D !! v = Some V →
    ∃ l, NoDup l ∧ pirq_chain D 0 (pirq_evtchn_head V) l 0 ∧ ∀ q, q ∈ l ↔ on_pirq_list D v q) →
  relinked D D' v (l1 ++ l2) → NoDup (l1 ++ p :: l2) → (∀ q, q ∈ l1 ++ p :: l2 ↔ on_pirq_list D v q) →
  vcpus D' !! v = Some (set_head h V) → pirq_chain D' 0 h (l1 ++ l2) 0 → lists_but p D'.
Proof.
  intros Hlists [HL Hf Ho] Hnd Hl HV' Hc v' V'. setoid_rewrite (on_pirq_list_links _ _ HL).
  assert (Hp : on_pirq_list D v p) by (apply Hl; set_solver).
  assert (Hnd' : NoDup (p :: l1 ++ l2)) by (by rewrite Permutation_middle).
  apply NoDup_cons in Hnd' as [Hpn Hnd'].
  assert (Hl' : ∀ q, q ∈ l1 ++ l2 ↔ q ≠ p ∧ on_pirq_list D v q).
  { intros q. rewrite <- Hl, !elem_of_app, elem_of_cons. rewrite elem_of_app in Hpn.
    destruct (decide (q = p)) as [->|]; tauto. }
  destruct (decide (v' = v)) as [->|Hne].
  - rewrite HV'. intros [= <-]. exists (l1 ++ l2). auto.
  - rewrite Ho by done. intros HV0. destruct (Hlists v' V' HV0) as (l' & Hnd2 & Hc' & Hl2).
    exists l'. split; [done|]. split.
    + eapply pirq_chain_ext, Hc'. intros q e Hq He. rewrite Hf; [done|]. intros Hin.
      apply Hl2 in Hq. apply Hl' in Hin as [_ Hin]. by pose proof (list_ports_notify _ _ _ Hin _ Hq).
    + intros q. rewrite Hl2. split; [|tauto]. intros Hq. split; [|done]. intros ->.
      by pose proof (list_ports_notify _ _ _ Hp _ Hq).
Qed.

Lemma lists_but_nodup x D v V :
  lists_but x D → vcpus D !! v = Some V →
  ∃ l, NoDup (x :: l) ∧ pirq_chain D 0 (pirq_evtchn_head V) l 0 ∧ ∀ p, p ∈ l ↔ p ≠ x ∧ on_pirq_list D v p.
Proof.
  intros Hl HV. destruct (Hl v V HV) as (l & Hnd & Hc & Hin). exists l. split; [|done].
  apply NoDup_cons. split; [|done]. rewrite Hin. tauto.
Qed.

Lemma link_step s d D p e irq n pr i :
  doms s !! d = Some D → ports_wf D → virq_wf D → pirq_tab p D → lists_but p D →
  chan_of D p = Some e → e_state e = ECS_PIRQ irq n pr → p ≠ 0 →
  0 ≤ irq < nr_pirqs D → pirq_tree D !! irq = Some i → pirq_evtchn i = p →
  ∃ F, link_pirq_port d p (notify_vcpu_id e) s = Ok (upd_dom d F s) ∧ dom_wf (F D) ∧ links_only D (F D).
Proof.
  intros HD Hpo Hvi Htab Hli He Hs Hnz Hir Hi Hip. destruct (pw_notify _ Hpo _ _ He) as [V HV].
  destruct (lists_but_nodup _ _ _ _ Hli HV) as (l & Hnd & Hc & Hin).
  destruct (link_pirq_port_spec s d D p _ V l e irq n pr HD He Hs Hnz HV Hc Hnd) as (F & -> & HR & HV' & Hc').
  pose proof (rl_links _ _ _ _ HR) as HL. exists F. split; [done|]. split; [|done].
  assert (Hon : on_pirq_list D (notify_vcpu_id e) p) by (exists e, irq, n, pr; auto).
  destruct (links_fields _ _ HL) as (_ & _ & _ & _ & _ & F6 & F7 & _ & _).
  pose proof (pirq_tab_links _ _ _ HL Htab) as [T1 T2 T3].
  split; [by eapply ports_wf_links|by eapply virq_wf_links|]. split; auto.
  - intros q e' irq' n' pr' He' Hs'. destruct (decide (q = p)) as [->|]; [|by eapply T3].
    destruct (links_chan _ _ HL p e' He') as (e0 & He0 & Hl0).
    apply same_links_fields in Hl0 as (_ & _ & [(irq0 & ? & ? & ? & ? & Hs0 & Hs1)|[-> _]]).
    + assert (irq' = irq) as -> by congruence. rewrite F6, F7. eauto.
    + assert (irq' = irq) as -> by congruence. rewrite F6, F7. eauto.
  - eapply lists_link; eauto.
Qed.

Lemma unlink_step s d D p e irq next prev :
  doms s !! d = Some D → ports_wf D → chan_of D p = Some e → e_state e = ECS_PIRQ irq next prev →
  (∀ v V, vcpus D !! v = Some V →
    ∃ l, NoDup l ∧ pirq_chain D 0 (pirq_evtchn_head V) l 0 ∧ ∀ q, q ∈ l ↔ on_pirq_list D v q) →
  ∃ F, unlink_pirq_port d next prev (notify_vcpu_id e) s = Ok (upd_dom d F s) ∧
       links_only D (F D) ∧ lists_but p (F D).
Proof.
  intros HD Hpo He Hs Hlists. destruct (pw_notify _ Hpo _ _ He) as [V HV].
  destruct (Hlists _ V HV) as (l & Hnd & Hc & Hin).
  assert (p ∈ l) as Hp by (apply Hin; exists e, irq, next, prev; auto).
  apply list_elem_of_split in Hp as (l1 & l2 & ->).
  destruct (unlink_pirq_port_spec s d D p _ V l1 l2 e irq next prev HD He Hs HV Hc Hnd)
    as (F & h & -> & HR & HV' & Hc').
  exists F. split; [done|]. split; [apply HR|]. eapply lists_unlink; eauto.
Qed.

(** Freeing the port that is in no list. *)
Lemma pirq_wf_free D p f e :
  pirq_tab p D → lists_but p D → chan_of D p = Some e → (∀ i n pr, e_state (f e) ≠ ECS_PIRQ i n pr) →
  (∀ irq i, pirq_tree D !! irq = Some i → pirq_evtchn i ≠ p) → pirq_wf (upd_port p f D).
Proof.
  intros [T1 T2 T3] Hli He Hn Hno. split; auto.
  - intros irq i Hi Hz. destruct (T2 irq i Hi Hz) as (e' & n & pr & He' & Hs'). exists e', n, pr.
    rewrite chan_of_upd, decide_False; [done|]. by eapply Hno.
  - intros q e' irq n pr. rewrite chan_of_upd. case_decide; [subst; rewrite He; simpl; naive_solver|].
    by apply T3.
  - intros v V HV. destruct (Hli v V HV) as (l & Hnd & Hc & Hin). exists l. split; [done|]. split.
    + apply pirq_chain_upd; [|done]. rewrite Hin. tauto.
    + intros q. rewrite Hin. unfold on_pirq_list. setoid_rewrite chan_of_upd. case_decide.
      * subst. rewrite He. simpl. split; [by intros [? _]|]. intros (e' & i & n & pr & [= <-] & Hs & _). by apply Hn in Hs.
      * tauto.
Qed.

(** ** Updates of a domain that touch neither inter-domain channels nor
    Xen-attached ports *)

Definition chan_benign (e e' : evtchn) : Prop :=
  xen_consumer e' = xen_consumer e ∧
  ∀ d p, e_state e' = ECS_INTERDOMAIN d p ↔ e_state e = ECS_INTERDOMAIN d p.

Record benign (D D' : domain) : Prop := {
  be_id : domain_id D' = domain_id D;
  be_chan p : option_Forall2 chan_benign (chan_of D p) (chan_of D' p);
}.

#[export] Instance chan_benign_preorder : PreOrder chan_benign.
Proof.
  split; [done|]. intros e1 e2 e3 [H1 H2] [H3 H4]. split; [congruence|]. intros d p. by rewrite H4.
Qed.

#[export] Instance benign_preorder : PreOrder benign.
Proof.
  split; [intros D; split; [done|]; intros; reflexivity|].
  intros D1 D2 D3 [] []. split; [congruence|]. intros p. by transitivity (chan_of D2 p).
Qed.

Lemma benign_links D D' : links_only D D' → benign D D'.
Proof.
  intros HL. split; [apply (links_fields _ _ HL)|]. intros p.
  destruct (lo_chan _ _ HL p) as [e e' Hl|]; constructor.
  destruct Hl as [->|(irq & n & pr & n' & pr' & H & ->)]; [done|]. split; [done|].
  intros d q. rewrite H. done.
Qed.

Lemma benign_port D p f e : chan_of D p = Some e → chan_benign e (f e) → benign D (upd_port p f D).
Proof.
  intros He Hf. split; [done|]. intros q. rewrite chan_of_upd. case_decide; [|reflexivity].
  subst. rewrite He. by constructor.
Qed.

Lemma benign_other D D' :
  domain_id D' = domain_id D → (∀ p, chan_of D' p = chan_of D p) → benign D D'.
Proof. intros H1 H2. split; [done|]. intros p. by rewrite H2. Qed.

Lemma xinv_benign s d D F :
  xinv s → doms s !! d = Some D → dom_wf (F D) → benign D (F D) → step_ok s (upd_dom d F s).
Proof.
  intros [Hb Hp] HD Hwf [Hid Hch]. split; [|intros d'; apply so_doms_upd]. split.
  - eapply xbase_upd; eauto. intros p e' He'. pose proof (Hch p) as Hpp. rewrite He' in Hpp.
    inversion Hpp as [e0 e1 [Hc _] Heq|]; subst. rewrite Hc. intros Hx. apply (xb_consumer _ Hb d p); [|done].
    by rewrite (chan_at_dom _ _ _ _ HD).
  - assert (Hiff : ∀ d' p d2 p2,
      (∃ e, chan_at (upd_dom d F s) d' p = Some e ∧ e_state e = ECS_INTERDOMAIN d2 p2) ↔
      (∃ e, chan_at s d' p = Some e ∧ e_state e = ECS_INTERDOMAIN d2 p2)).
    { intros d' p d2 p2. unfold chan_at. rewrite doms_upd_dom. case_decide; [subst d'|done].
      rewrite HD. simpl. destruct (Hch p) as [e e' [_ He]|]; [|naive_solver].
      split; intros (x & [= <-] & Hx); eexists; (split; [done|]); by apply He. }
    intros d' p e d2 p2 He Hs. destruct (proj1 (Hiff d' p d2 p2)) as (e0 & He0 & Hs0); [eauto|].
    apply Hiff. by eapply Hp.
Qed.

(** ** Binding a port to a physical IRQ *)

Lemma cleanup_check_unbound E s d D p i :
  doms s !! d = Some D → pirq_tree D !! p = Some i → pirq_evtchn i = 0 → pirq_cleanup_check E d p s = Ok s.
Proof.
  intros HD Hi Hz. unfold pirq_cleanup_check. rewrite HD. cbn [deref]. rewrite Hi. cbn [deref]. by rewrite Hz.
Qed.

Lemma pirqs_undo D k i port :
  pirq_tree D !! k = Some i → pirq_evtchn i = 0 →
  set_pirqs (alter (set_pirq_evtchn 0) k) (set_pirqs (alter (set_pirq_evtchn port) k) D) = D.
Proof.
  intros Hi Hz. destruct D as [? ? ? ? ? ? ? ? ? ? tree ? ? ? ? ?]. unfold set_pirqs. simpl in *. f_equal.
  apply map_eq. intros k'. rewrite !lookup_alter. repeat case_decide; [|done..]. subst. rewrite Hi. simpl.
  unfold set_pirq_evtchn. simpl. f_equal. destruct i. simpl in *. by rewrite Hz.
Qed.

(** The domain once [info->evtchn] and the channel's state are written. *)
Lemma bind_pirq_pre D k i port :
  dom_wf D → pirq_tree D !! k = Some i → pirq_evtchn i = 0 → 0 ≤ k < nr_pirqs D →
  chan_of D port = Some free_evtchn → port ≠ 0 →
  let D4 := upd_port port (set_chan (ECS_PIRQ k 0 0)) (set_pirqs (alter (set_pirq_evtchn port) k) D) in
  ports_wf D4 ∧ virq_wf D4 ∧ pirq_tab port D4 ∧ lists_but port D4 ∧ benign D D4 ∧
  pirq_tree D4 !! k = Some (mk_pirq port (pirq_arch_irq i)).
Proof.
  intros [Hpo Hvi Hpi] Hi Hz Hk Hp Hnz. set (D3 := set_pirqs _ D). intros D4.
  pose proof (chan_range _ _ _ Hp) as Hr.
  assert (Hpo3 : ports_wf D3) by (destruct Hpo; by split).
  assert (Hvi3 : virq_wf D3) by (destruct Hvi; by split).
  assert (Hp3 : chan_of D3 port = Some free_evtchn) by done.
  assert (Hch : ∀ q, chan_of D4 q = if decide (q = port) then Some (set_chan (ECS_PIRQ k 0 0) free_evtchn) else chan_of D q).
  { intros q. unfold D4. rewrite chan_of_upd, Hp3. done. }
  assert (Htree : pirq_tree D4 !! k = Some (mk_pirq port (pirq_arch_irq i))).
  { simpl. rewrite lookup_alter_eq, Hi. simpl. unfold set_pirq_evtchn. by rewrite u16_small. }
  repeat split_and; auto.
  - eapply ports_wf_upd; eauto; try done. by apply Hpo.
  - eapply virq_wf_upd; eauto; done.
  - split.
    + apply Hpi.
    + intros irq j. destruct (decide (irq = k)) as [->|Hne].
      * rewrite Htree. intros [= <-] _. simpl. eexists _, 0, 0. rewrite Hch, decide_True by done. done.
      * simpl. rewrite lookup_alter_ne by done. intros Hj Hjz.
        destruct (iw_port _ Hpi irq j Hj Hjz) as (e & n & pr & He & Hs). exists e, n, pr.
        rewrite Hch, decide_False; [done|]. intros Heq. rewrite Heq, Hp in He. by simplify_eq.
    + intros q e irq n pr Hq. rewrite Hch, decide_False by done. intros He Hs.
      destruct (iw_chan _ Hpi q e irq n pr He Hs) as (? & j & Hj & Hjq). split; [done|]. exists j. split; [|done].
      simpl. rewrite lookup_alter_ne; [done|]. intros ->. simplify_eq.
      by eapply (not_reserved _ _ _ Hpo He); [rewrite Hs|].
  - intros v V HV. destruct (iw_list _ Hpi v V HV) as (l & Hnd & Hc & Hin). exists l. split; [done|].
    assert (Hpl : port ∉ l).
    { intros (e & ? & ? & ? & He & Hs & _)%Hin. rewrite Hp in He. by simplify_eq. }
    split.
    + eapply pirq_chain_ext, Hc. intros q e Hq He. rewrite Hch, decide_False; [done|]. congruence.
    + intros q. rewrite Hin. unfold on_pirq_list. setoid_rewrite Hch. case_decide; [subst|tauto].
      split; [intros (e & ? & ? & ? & He & Hs & _); rewrite Hp in He; by simplify_eq|tauto].
  - transitivity D3; [by apply benign_other|]. by eapply benign_port.
Qed.

Lemma bind_pirq_port_spec E cur D0 k flags port s D i :
  xinv s → doms s !! cur = Some D → chan_of D port = Some free_evtchn → port ≠ 0 →
  pirq_tree D !! k = Some i → pirq_evtchn i = 0 → 0 ≤ k < nr_pirqs D →
  ∃ rc p s', bind_pirq_port E cur D0 k flags port s = Ok (rc, p, s') ∧ step_ok s s'.
Proof.
  intros Hinv HD Hp Hnz Hi Hz Hk. unfold bind_pirq_port.
  pose proof (xb_dom _ (xi_base _ Hinv) _ _ HD) as Hwf.
  set (rc := if is_hvm D0 then 0 else _). destruct (negb (rc =? 0)).
  - rewrite upd_dom_upd_dom. set (s4 := upd_dom cur _ s).
    assert (HD4 : doms s4 !! cur = Some D).
    { unfold s4. rewrite (doms_upd_same _ _ _ _ HD). by rewrite (pirqs_undo _ _ i). }
    rewrite (cleanup_check_unbound E s4 cur D k i HD4 Hi Hz). cbn [mbind outcome_bind].
    eexists _, _, _. split; [done|]. eapply xinv_benign; [done|done| |];
      rewrite (pirqs_undo _ _ i) by done; done.
  - destruct (bind_pirq_pre D k i port Hwf Hi Hz Hk Hp Hnz) as (H1 & H2 & H3 & H4 & H5 & H6).
    pose proof (iw_nr _ (dw_pirq _ Hwf)). rewrite u16_small by lia. rewrite upd_dom_upd_dom.
    set (s4 := upd_dom cur _ s). set (D4 := upd_port port _ _) in *.
    assert (HD4 : doms s4 !! cur = Some D4) by exact (doms_upd_same _ _ _ _ HD).
    assert (Hp4 : chan_of D4 port = Some (set_chan (ECS_PIRQ k 0 0) free_evtchn)).
    { unfold D4. rewrite chan_of_upd, decide_True by done. by replace (chan_of _ port) with (Some free_evtchn). }
    destruct (link_step s4 cur D4 port _ k 0 0 _ HD4 H1 H2 H3 H4 Hp4 eq_refl Hnz Hk H6 eq_refl) as (F & HF & Hwf5 & HL).
    change (notify_vcpu_id (set_chan (ECS_PIRQ k 0 0) free_evtchn)) with 0 in HF.
    rewrite HF. cbn [mbind outcome_bind]. rewrite (doms_upd_same _ _ _ _ HD4). cbn [deref].
    eexists _, _, _. split; [done|].
    assert (Hst : step_ok s (upd_dom cur F s4)).
    { unfold s4. rewrite upd_dom_upd_dom. eapply xinv_benign; [done|done|done|].
      etrans; [exact H5|by apply benign_links]. }
    case_match; [|done]. eapply step_ok_trans; [done|]. apply step_ok_quiet; [apply Hst|apply quiet_log].
Qed.

Lemma pirq_get_info_spec E d k s D :
  xinv s → doms s !! d = Some D → pirq_to_evtchn D k = 0 →
  ∃ r, pirq_get_info E d k s = Ok r ∧
    match r with
    | None => True
    | Some s' => step_ok s s' ∧ ∃ D' i, doms s' !! d = Some D' ∧ pirq_tree D' !! k = Some i ∧
        pirq_evtchn i = 0 ∧ nr_pirqs D' = nr_pirqs D ∧ ∀ p, chan_of D' p = chan_of D p
    end.
Proof.
  intros Hinv HD Hz. unfold pirq_get_info. rewrite HD. cbn [deref]. unfold pirq_to_evtchn in Hz.
  destruct (pirq_tree D !! k) as [i|] eqn:Hi.
  { exists (Some s). split; [done|]. split; [by apply step_ok_refl|]. exists D, i. auto. }
  eexists. split; [done|]. destruct (pirq_alloc_ok E s d k); [|done].
  pose proof (xb_dom _ (xi_base _ Hinv) _ _ HD) as [Hpo Hvi Hpi]. split.
  - eapply xinv_benign; [done|done| |by apply benign_other]. split.
    + destruct Hpo; by split.
    + destruct Hvi; by split.
    + split; try apply Hpi.
      * intros irq j. simpl. rewrite lookup_insert_Some. intros [[<- <-]|[_ Hj]]; [done|]. by apply (iw_port _ Hpi).
      * intros p e irq n pr He Hs. destruct (iw_chan _ Hpi p e irq n pr He Hs) as (? & j & Hj & ?).
        split; [done|]. exists j. split; [|done]. simpl. rewrite lookup_insert_ne; [done|]. congruence.
      * intros v V HV. destruct (iw_list _ Hpi v V HV) as (l & ? & Hc & ?). exists l. split; [done|].
        split; [|done]. by eapply pirq_chain_ext, Hc.
  - eexists _, (mk_pirq 0 0). rewrite (doms_upd_same _ _ _ _ HD). split; [done|]. simpl.
    rewrite lookup_insert_eq. done.
Qed.

Lemma evtchn_bind_pirq_spec E cur k flags s :
  xinv s → is_Some (doms s !! cur) →
  ∃ rc p s', evtchn_bind_pirq E cur k flags s = Ok (rc, p, s') ∧ step_ok s s'.
Proof.
  intros Hinv [D HD]. unfold evtchn_bind_pirq. rewrite HD. cbn [deref]. set (irq := s32 k).
  destruct ((irq <? 0) || (nr_pirqs D <=? irq)) eqn:Hr; [eauto 10 using step_ok_refl|]. b2p.
  destruct (negb (is_hvm D) && _); [eauto 10 using step_ok_refl|].
  destruct (Z.eqb_spec (pirq_to_evtchn D irq) 0) as [Hz|]; cbn [negb]; [|eauto 10 using step_ok_refl].
  destruct (get_free_port_spec E cur s D Hinv HD) as (port & s1 & -> & Hg). cbn [mbind outcome_bind].
  destruct Hg as [[Hlt ->]|[_ Hg]].
  { apply Z.ltb_lt in Hlt. rewrite Hlt. eauto 10 using step_ok_refl. }
  pose proof (gp_range _ _ _ _ Hg). destruct (Z.ltb_spec port 0) as [|_]; [lia|].
  destruct (got_port_dom _ _ _ _ _ _ Hg HD) as (D1 & HD1 & _ & _ & _ & Ht1 & _ & Hn1).
  pose proof (gp_inv _ _ _ _ Hg) as Hinv1. pose proof (gp_free _ _ _ _ Hg) as Hp.
  rewrite (chan_at_dom _ _ _ _ HD1) in Hp. pose proof (got_port_step _ _ _ _ Hg) as Hst1.
  destruct (pirq_get_info_spec E cur irq s1 D1 Hinv1 HD1) as (r & -> & Hr).
  { unfold pirq_to_evtchn. by rewrite Ht1. }
  cbn [mbind outcome_bind]. destruct r as [s2|]; [|eauto 10].
  destruct Hr as (Hst2 & D2 & i & HD2 & Hi & Hiz & Hn2 & Hch).
  destruct (bind_pirq_port_spec E cur D irq flags port s2 D2 i) as (rc & p & s' & -> & Hst3);
    auto; try lia; [apply Hst2|by rewrite Hch|].
  eexists _, _, _. split; [done|]. eapply step_ok_trans; [done|]. by eapply step_ok_trans.
Qed.
