(* ===== verification/EvtChnClose.v ===== *)
(** * Closing event channels (xen/common/event_channel.c: [__evtchn_close])

    A close that returns 0 leaves the port free and clears its pending bit; an
    inter-domain peer falls back to unbound, accepting the closer's domain; the
    VIRQ and PIRQ tables forget the port. The [BUG_ON]s never fire, also when
    other CPUs run between the two passes. *)

From S2P Require Import Prelude EvtChn EvtChnInv EvtChnOps EvtChnPirq.
Local Open Scope xen_scope.

Definition freed (e : evtchn) : evtchn := set_notify 0 (set_chan ECS_FREE e).

Lemma close_tail_eq d1 p1 d2 s :
  close_tail d1 p1 d2 s =
  Out 0 d2 (log (Xsm_evtchn_close_post d1 p1)
    (upd_dom d1 (set_pending (λ m, m ∖ {[ p1 ]})) (upd_dom d1 (upd_port p1 freed) s))).
Proof. unfold close_tail. by rewrite !upd_dom_upd_dom. Qed.

Lemma freed_free e : xen_consumer e = 0 → freed e = free_evtchn.
Proof. intros H. unfold freed, set_notify, set_chan, free_evtchn. simpl. by rewrite H. Qed.

(** What no close changes. *)
Record kept (D D' : domain) : Prop := {
  ke_id : domain_id D' = domain_id D;
  ke_dying : is_dying D' = is_dying D;
  ke_32 : has_32bit_shinfo D' = has_32bit_shinfo D;
  ke_mask : evtchn_mask D' = evtchn_mask D;
  ke_refcnt : refcnt D' = refcnt D;
  ke_destroyed : destroyed D' = destroyed D;
}.

Definition skept (s s' : xstate) : Prop := ∀ d, option_Forall2 kept (doms s !! d) (doms s' !! d).

#[export] Instance kept_preorder : PreOrder kept.
Proof. split; [by intros D; split|]. intros D1 D2 D3 [] []. split; congruence. Qed.

#[export] Instance skept_preorder : PreOrder skept.
Proof.
  split; [intros s d; reflexivity|]. intros s1 s2 s3 H1 H2 d. by transitivity (doms s2 !! d).
Qed.

Lemma skept_upd s d f : (∀ D, kept D (f D)) → skept s (upd_dom d f s).
Proof.
  intros Hf d'. simpl. rewrite lookup_alter. case_decide; [subst|reflexivity].
  destruct (doms s !! d'); by constructor.
Qed.

Lemma kept_links D D' : links_only D D' → kept D D'.
Proof. intros H. rewrite (lo_rest _ _ H). by split. Qed.

(** The pending bits of a domain. *)
Definition pending_of (s : xstate) (d : positive) : option (gset Z) := evtchn_pending <$> doms s !! d.

Lemma pending_of_upd s d f d' :
  (∀ D, evtchn_pending (f D) = evtchn_pending D) → pending_of (upd_dom d f s) d' = pending_of s d'.
Proof.
  intros Hf. unfold pending_of. simpl. rewrite lookup_alter. case_decide; [subst|done].
  destruct (doms s !! d'); simpl; [by rewrite Hf|done].
Qed.

(** What a successful close leaves at the closed port. *)
Definition closed_at (s : xstate) (d : positive) (p : Z) : Prop :=
  chan_at s d p = Some free_evtchn ∧ ∀ D, doms s !! d = Some D → p ∉ evtchn_pending D.

(** From the state in which the port is freed to the end of the pass. *)
Lemma close_tail_spec d1 p1 d2 s s1 e :
  step_ok s (upd_dom d1 (upd_port p1 freed) s1) → chan_at s1 d1 p1 = Some e → xen_consumer e = 0 →
  ∃ s', close_tail d1 p1 d2 s1 = Out 0 d2 s' ∧ step_ok s s' ∧ closed_at s' d1 p1 ∧
        ∀ d p, chan_at s' d p = chan_at (upd_dom d1 (upd_port p1 freed) s1) d p.
Proof.
  intros Hst He Hc. rewrite close_tail_eq. set (s2 := upd_dom d1 (upd_port p1 freed) s1) in *.
  set (s3 := upd_dom d1 (set_pending _) s2).
  assert (Hq : quiet s2 (log (Xsm_evtchn_close_post d1 p1) s3)).
  { etrans; [apply quiet_set_pending|apply quiet_log]. }
  eexists. split; [done|]. split; [eapply step_ok_trans; [done|]; apply step_ok_quiet; [apply Hst|done]|].
  split; [split|].
  - rewrite (quiet_chan _ _ _ _ Hq). unfold s2. rewrite chan_at_upd, decide_True, He by done. simpl.
    by rewrite freed_free.
  - intros D. simpl. rewrite lookup_alter_eq. destruct (alter _ _ _ !! d1); simpl; [|done].
    intros [= <-]. simpl. set_solver.
  - intros d p. by apply quiet_chan.
Qed.

(** ** Ports without tables *)

Lemma free_plain s d p e :
  xinv s → chan_at s d p = Some e → is_plain (e_state e) → not_inter (e_state e) → xen_consumer e = 0 →
  step_ok s (upd_dom d (upd_port p freed) s).
Proof.
  intros [Hb Hp] He Hpl Hni Hc. split; [split|intros d'; apply so_doms_upd].
  - eapply xbase_plain; eauto; try done; rewrite (freed_free _ Hc); try done.
    intros D HD. simpl. apply (dw_ports _ (xb_dom _ Hb _ _ HD)).
  - eapply paired_upd; eauto. by rewrite freed_free.
Qed.

(** ** Inter-domain channels *)

Lemma paired_disconnect s d1 p1 d2 p2 e1 e2 r :
  paired s → chan_at s d1 p1 = Some e1 → e_state e1 = ECS_INTERDOMAIN d2 p2 →
  chan_at s d2 p2 = Some e2 → e_state e2 = ECS_INTERDOMAIN d1 p1 →
  paired (upd_dom d1 (upd_port p1 freed) (upd_dom d2 (upd_port p2 (set_chan (ECS_UNBOUND r))) s)).
Proof.
  intros Hp He1 Hs1 He2 Hs2 d q e d' q'. rewrite !chan_at_upd.
  case_decide as Hd1; [|case_decide as Hd2].
  - destruct (if decide _ then _ else _); simpl; [|done]. intros [= <-]. simpl. done.
  - rewrite He2. simpl. intros [= <-]. simpl. done.
  - intros He Hs. destruct (Hp _ _ _ _ _ He Hs) as (e' & He' & Hs'). exists e'. rewrite !decide_False; [done| |].
    + intros [-> ->]. rewrite He2 in He'. injection He' as <-. rewrite Hs2 in Hs'. injection Hs' as -> ->. tauto.
    + intros [-> ->]. rewrite He1 in He'. injection He' as <-. rewrite Hs1 in Hs'. injection Hs' as -> ->. tauto.
Qed.

Lemma close_remote_spec s d1 D1 p1 d2 p2 e1 :
  xinv s → chan_at s d1 p1 = Some e1 → e_state e1 = ECS_INTERDOMAIN d2 p2 → xen_consumer e1 = 0 →
  close_remote d1 D1 d2 p2 s = Ok (upd_dom d2 (upd_port p2 (set_chan (ECS_UNBOUND (domain_id D1)))) s) ∧
  step_ok s (upd_dom d1 (upd_port p1 freed)
               (upd_dom d2 (upd_port p2 (set_chan (ECS_UNBOUND (domain_id D1)))) s)) ∧
  ∃ e, chan_at (upd_dom d2 (upd_port p2 (set_chan (ECS_UNBOUND (domain_id D1)))) s) d1 p1 = Some e ∧
       xen_consumer e = 0.
Proof.
  intros [Hb Hp] He1 Hs1 Hc. destruct (Hp d1 p1 e1 d2 p2 He1 Hs1) as (e2 & He2 & Hs2).
  destruct (chan_at_Some _ _ _ _ He2) as (D2 & HD2 & Hc2).
  set (f2 := set_chan (ECS_UNBOUND (domain_id D1))). set (s2 := upd_dom d2 (upd_port p2 f2) s).
  assert (He1' : ∃ e, chan_at s2 d1 p1 = Some e ∧ xen_consumer e = 0 ∧ is_plain (e_state e)).
  { unfold s2. rewrite chan_at_upd. case_decide as Hd; [|exists e1; by rewrite Hs1].
    destruct Hd as [-> ->]. rewrite He2. exists (f2 e2). simpl. simplify_eq. done. }
  split; [|split].
  - unfold close_remote. rewrite HD2. cbn [deref]. rewrite (chan_of_valid _ _ _ Hc2). cbn [negb BUG_ON].
    rewrite (chan_at_from_port _ _ _ _ _ HD2 He2). cbn [deref]. rewrite Hs2, bool_decide_eq_true_2 by done. done.
  - destruct He1' as (e1' & He1' & Hc1' & Hpl). split; [split|].
    + assert (xbase s2) as Hb2.
      { eapply xbase_plain; eauto; try done; [by rewrite Hs2| |].
        - intros Hx. split; [left; simpl; eauto|]. by apply (xb_consumer _ Hb d2 p2 e2).
        - intros D HD. simpl. simplify_eq. apply (pw_notify _ (dw_ports _ (xb_dom _ Hb _ _ HD2)) p2 e2).
          done. }
      eapply xbase_plain; eauto; try done; rewrite (freed_free _ Hc1'); try done.
      intros D HD. simpl. apply (dw_ports _ (xb_dom _ Hb2 _ _ HD)).
    + by eapply paired_disconnect.
    + intros d' Hd'. by apply so_doms_upd, so_doms_upd.
  - destruct He1' as (e & ? & ? & ?). eauto.
Qed.

(** ** Virtual IRQs *)

Definition forget_virq (virq p : Z) (V : vcpu) : vcpu :=
  if virq_port V virq =? p then set_virq (<[virq := 0]>) V else V.

Lemma forget_virq_port virq p V virq' :
  virq_port (forget_virq virq p V) virq' =
    if decide (virq' = virq ∧ virq_port V virq = p) then 0 else virq_port V virq'.
Proof.
  unfold forget_virq. destruct (Z.eqb_spec (virq_port V virq) p) as [He|He].
  - rewrite virq_port_insert. repeat case_decide; naive_solver.
  - by rewrite decide_False by naive_solver.
Qed.

Lemma close_virq_wf D p e virq :
  dom_wf D → chan_of D p = Some e → e_state e = ECS_VIRQ virq → xen_consumer e = 0 →
  dom_wf (upd_port p freed (set_vcpus (fmap (forget_virq virq p)) D)).
Proof.
  intros [Hpo Hvi Hpi] He Hs Hc. set (D1 := set_vcpus _ D).
  assert (Hsome : ∀ v, is_Some ((forget_virq virq p <$> vcpus D) !! v) ↔ is_Some (vcpus D !! v)).
  { intros v. rewrite lookup_fmap. apply fmap_is_Some. }
  assert (He1 : chan_of D1 p = Some e) by done.
  split.
  - eapply (ports_wf_upd D1); [by apply ports_wf_set_vcpus|exact He1|..]; rewrite (freed_free _ Hc); try done.
    + by rewrite Hs.
    + simpl. apply Hsome. apply Hpo.
  - split.
    + intros v V' virq'. simpl. rewrite lookup_fmap. destruct (vcpus D !! v) as [V|] eqn:HV; simpl; [|done].
      intros [= <-]. rewrite forget_virq_port. case_decide as Hd; [done|]. intros Hnz.
      destruct (vw_port _ Hvi v V virq' HV Hnz) as (? & ? & e' & He' & Hs' & ?).
      split; [done|]. split; [done|]. exists e'. rewrite chan_of_upd, decide_False; [done|].
      intros Heq. rewrite Heq, He in He'. injection He' as <-. rewrite Hs in Hs'. injection Hs' as ->. auto.
    + intros q e' virq'. rewrite chan_of_upd. case_decide as Hq.
      { rewrite He1. simpl. intros [= <-]. simpl. done. }
      intros He' Hs'. destruct (vw_chan _ Hvi q e' virq' He' Hs') as (v & V & HV & Hvq).
      exists v, (forget_virq virq p V). simpl. rewrite lookup_fmap, HV. split; [done|].
      rewrite forget_virq_port, decide_False; [done|]. intros [-> ?]. congruence.
  - eapply (pirq_wf_upd D1); [|exact He1|by rewrite Hs|done]. apply pirq_wf_set_vcpus; [done|].
    intros v V'. rewrite lookup_fmap. destruct (vcpus D !! v) as [V|] eqn:HV; simpl; [|done].
    intros [= <-]. exists V. split; [done|]. unfold forget_virq. by case_match.
Qed.

Lemma free_virq s d D p e virq :
  xinv s → doms s !! d = Some D → chan_of D p = Some e → e_state e = ECS_VIRQ virq → xen_consumer e = 0 →
  step_ok s (upd_dom d (upd_port p freed) (close_virq d p virq s)).
Proof.
  intros Hinv HD He Hs Hc. unfold close_virq. rewrite upd_dom_upd_dom.
  eapply xinv_benign; [done|done| |].
  - apply (close_virq_wf D p e virq); auto. apply (xb_dom _ (xi_base _ Hinv) _ _ HD).
  - transitivity (set_vcpus (fmap (forget_virq virq p)) D); [by apply benign_other|].
    eapply benign_port; [exact He|]. rewrite freed_free by done. split; [done|]. intros d' q. rewrite Hs. done.
Qed.

(** ** Physical IRQs *)

Lemma forget_pirq D p e irq n pr i :
  dom_wf D → chan_of D p = Some e → e_state e = ECS_PIRQ irq n pr → pirq_tree D !! irq = Some i →
  let D2 := set_pirqs (alter (set_pirq_evtchn 0) irq) D in
  ports_wf D2 ∧ virq_wf D2 ∧ pirq_tab p D2 ∧
  (∀ v V, vcpus D2 !! v = Some V →
    ∃ l, NoDup l ∧ pirq_chain D2 0 (pirq_evtchn_head V) l 0 ∧ ∀ q, q ∈ l ↔ on_pirq_list D2 v q) ∧
  (∀ irq' i', pirq_tree D2 !! irq' = Some i' → pirq_evtchn i' ≠ p) ∧
  pirq_tree D2 !! irq = Some (mk_pirq 0 (pirq_arch_irq i)).
Proof.
  intros [Hpo Hvi Hpi] He Hs Hi D2.
  assert (Hpz : p ≠ 0) by (eapply (not_reserved _ _ _ Hpo He); by rewrite Hs).
  assert (Hirq : pirq_tree D2 !! irq = Some (mk_pirq 0 (pirq_arch_irq i))).
  { simpl. by rewrite lookup_alter_eq, Hi. }
  assert (Hne : ∀ irq', irq' ≠ irq → pirq_tree D2 !! irq' = pirq_tree D !! irq').
  { intros irq' Hd. simpl. by rewrite lookup_alter_ne. }
  split; [destruct Hpo; by split|]. split; [destruct Hvi; by split|]. split; [split|split; [|split]].
  - apply Hpi.
  - intros irq' i'. destruct (decide (irq' = irq)) as [->|Hd]; [rewrite Hirq; by intros [= <-]|].
    rewrite Hne by done. apply (iw_port _ Hpi).
  - intros q e' irq' n' pr' Hq He' Hs'. destruct (iw_chan _ Hpi q e' irq' n' pr' He' Hs') as (? & j & Hj & Hjq).
    split; [done|]. exists j. split; [|done]. rewrite Hne; [done|]. intros ->.
    destruct (iw_chan _ Hpi p e irq n pr He Hs) as (_ & j' & Hj' & Hjp). congruence.
  - intros v V HV. destruct (iw_list _ Hpi v V HV) as (l & ? & Hc & ?). exists l. split; [done|].
    split; [|done]. by eapply pirq_chain_ext, Hc.
  - intros irq' i'. destruct (decide (irq' = irq)) as [->|Hd].
    { rewrite Hirq. intros [= <-]. simpl. congruence. }
    rewrite Hne by done. intros Hi' Heq. destruct (iw_port _ Hpi irq' i' Hi') as (e' & ? & ? & He' & Hs'); [congruence|].
    rewrite Heq, He in He'. injection He' as <-. rewrite Hs in Hs'. by injection Hs'.
  - done.
Qed.

Lemma same_links_pirq e e' irq n pr :
  same_links e e' → e_state e = ECS_PIRQ irq n pr → ∃ n' pr', e_state e' = ECS_PIRQ irq n' pr'.
Proof.
  intros [->|(irq0 & ? & ? & n' & pr' & H & ->)] Hs; [eauto|]. exists n', pr'. simpl. congruence.
Qed.

(** The domain at the end of closing PIRQ port [p], [F] being the unlinking. *)
Lemma close_pirq_wf D2 D3 p e irq n pr :
  ports_wf D2 → virq_wf D2 → pirq_tab p D2 → lists_but p D3 → links_only D2 D3 →
  (∀ irq' i', pirq_tree D2 !! irq' = Some i' → pirq_evtchn i' ≠ p) →
  chan_of D2 p = Some e → e_state e = ECS_PIRQ irq n pr → xen_consumer e = 0 →
  dom_wf (upd_port p freed D3) ∧ benign D2 (upd_port p freed D3).
Proof.
  intros Hpo Hvi Htab Hlb HL Hno He Hs Hc. destruct (links_chan_fwd _ _ HL p e He) as (e3 & He3 & Hl3).
  destruct (same_links_pirq _ _ _ _ _ Hl3 Hs) as (n' & pr' & Hs3).
  apply same_links_fields in Hl3 as (Hc3 & _ & _). rewrite Hc in Hc3.
  destruct (links_fields _ _ HL) as (_ & _ & _ & _ & _ & _ & F7 & _ & _). split; [split|].
  - eapply ports_wf_upd; [by eapply ports_wf_links|exact He3|..]; rewrite (freed_free _ Hc3); try done.
    + by rewrite Hs3.
    + simpl. rewrite (links_vcpu_Some _ _ HL). apply Hpo.
  - eapply virq_wf_upd; [by eapply virq_wf_links|exact He3|by rewrite Hs3|done].
  - eapply pirq_wf_free; [by eapply pirq_tab_links|done|exact He3|done|]. rewrite F7. done.
  - etrans; [by apply benign_links|]. eapply benign_port; [exact He3|]. rewrite freed_free by done.
    split; [done|]. intros d' q. by rewrite Hs3.
Qed.

(** States that differ in the log only. *)
Lemma quiet_same s s' :
  doms s' = doms s → domain_hash s' = domain_hash s → xen_consumers s' = xen_consumers s →
  global_virq_handlers s' = global_virq_handlers s → dom0 s' = dom0 s → quiet s s'.
Proof. intros Hd. split; auto. intros d. rewrite Hd. apply reflexivity. Qed.

(** Only the PIRQ links of the ports of [d] change, and its tables. *)
Record same_but_links (d : positive) (s s' : xstate) : Prop := {
  sl_chan d' q : option_Forall2 same_links (chan_at s d' q) (chan_at s' d' q);
  sl_kept : skept s s';
  sl_pending d' : pending_of s' d' = pending_of s d';
}.

Lemma same_but_links_dom s s' d D D' :
  doms s !! d = Some D → doms s' !! d = Some D' → (∀ d', d' ≠ d → doms s' !! d' = doms s !! d') →
  (∀ q, option_Forall2 same_links (chan_of D q) (chan_of D' q)) → kept D D' →
  evtchn_pending D' = evtchn_pending D → same_but_links d s s'.
Proof.
  intros HD HD' Hne Hch Hk Hp. split.
  - intros d' q. unfold chan_at. destruct (decide (d' = d)) as [->|Hd]; [rewrite HD, HD'; apply Hch|].
    rewrite (Hne _ Hd). reflexivity.
  - intros d'. destruct (decide (d' = d)) as [->|Hd]; [rewrite HD, HD'; by constructor|].
    rewrite (Hne _ Hd). reflexivity.
  - intros d'. unfold pending_of. destruct (decide (d' = d)) as [->|Hd]; [rewrite HD, HD'; simpl; congruence|].
    by rewrite (Hne _ Hd).
Qed.

Lemma free_pirq E s d D p e irq n pr :
  xinv s → doms s !! d = Some D → chan_of D p = Some e → e_state e = ECS_PIRQ irq n pr → xen_consumer e = 0 →
  ∃ s1, close_pirq E d D irq n pr (notify_vcpu_id e) s = Ok s1 ∧
        step_ok s (upd_dom d (upd_port p freed) s1) ∧
        (∃ e', chan_at s1 d p = Some e' ∧ xen_consumer e' = 0) ∧ same_but_links d s s1.
Proof.
  intros Hinv HD He Hs Hc. pose proof (xb_dom _ (xi_base _ Hinv) _ _ HD) as Hwf.
  destruct (iw_chan _ (dw_pirq _ Hwf) p e irq n pr He Hs) as (_ & i & Hi & _).
  destruct (forget_pirq D p e irq n pr i Hwf He Hs Hi) as (Hpo & Hvi & Htab & Hli & Hno & Hirq).
  set (D2 := set_pirqs (alter (set_pirq_evtchn 0) irq) D) in *.
  unfold close_pirq. rewrite Hi. set (s1 := if is_hvm D then s else _).
  assert (Hs1 : doms s1 = doms s) by (unfold s1; by destruct (is_hvm D)).
  set (s2 := upd_dom d _ s1).
  assert (HD2 : doms s2 !! d = Some D2) by (unfold s2; apply doms_upd_same; by rewrite Hs1).
  rewrite (cleanup_check_unbound E s2 d D2 irq _ HD2 Hirq eq_refl). cbn [mbind outcome_bind].
  destruct (unlink_step s2 d D2 p e irq n pr HD2 Hpo He Hs Hli) as (F & -> & HL & Hlb). cbn [mbind outcome_bind].
  rewrite (doms_upd_same _ _ _ _ HD2). cbn [deref].
  set (s4 := if is_hvm D && _ then _ else _). exists s4. split; [done|].
  destruct (close_pirq_wf D2 (F D2) p e irq n pr) as [Hwf5 Hbe]; auto.
  assert (Hq : quiet (upd_dom d (λ D, upd_port p freed (F (set_pirqs (alter (set_pirq_evtchn 0) irq) D))) s)
                 (upd_dom d (upd_port p freed) s4)).
  { transitivity (upd_dom d (upd_port p freed) (upd_dom d F s2)).
    - unfold s2. rewrite !upd_dom_upd_dom. unfold s1. destruct (is_hvm D); [done|]. apply quiet_same; done.
    - unfold s4. case_match; [|done]. apply quiet_same; done. }
  assert (Hdoms : doms s4 !! d = Some (F D2)).
  { unfold s4. case_match; [simpl|]; exact (doms_upd_same _ _ _ _ HD2). }
  split.
  - assert (Hfin : step_ok s (upd_dom d (λ D, upd_port p freed (F (set_pirqs (alter (set_pirq_evtchn 0) irq) D))) s)).
    { eapply xinv_benign; [done|done|done|]. transitivity D2; [by apply benign_other|done]. }
    eapply step_ok_trans; [exact Hfin|]. apply step_ok_quiet; [apply Hfin|done].
  - split.
    + destruct (links_chan_fwd _ _ HL p e He) as (e4 & He4 & Hl4). exists e4.
      apply same_links_fields in Hl4 as (Hc4 & _ & _). rewrite (chan_at_dom _ _ _ _ Hdoms). split; [done|congruence].
    + apply (same_but_links_dom s s4 d D (F D2) HD Hdoms).
      * intros d' Hd. unfold s4, s2, s1. case_match; simpl; rewrite !lookup_alter_ne by done;
          by destruct (is_hvm D).
      * apply HL.
      * transitivity D2; [by split|by apply kept_links].
      * by rewrite (lo_rest _ _ HL).
Qed.

(** ** One pass *)

(** What closing port [p1] of [d1], whose id is [id], does to another channel. *)
Definition after_close (d1 : positive) (p1 id : Z) (e e' : evtchn) : Prop :=
  if decide (e_state e = ECS_INTERDOMAIN d1 p1) then e' = set_chan (ECS_UNBOUND id) e else same_links e e'.

(** The channel can be closed by a guest. *)
Definition closable (s : xstate) (d : positive) (p : Z) : Prop :=
  ∃ e, chan_at s d p = Some e ∧ xen_consumer e = 0 ∧ e_state e ≠ ECS_FREE ∧ e_state e ≠ ECS_RESERVED.

(** Of the pending bits only that of port [p] of [d] is cleared. *)
Definition pend_cleared (d : positive) (p : Z) (s s' : xstate) : Prop :=
  ∀ d', pending_of s' d' = (if decide (d' = d) then (.∖ {[ p ]}) else id) <$> pending_of s d'.

Record closed_effect (d1 : positive) (p1 id : Z) (s s' : xstate) : Prop := {
  ce_here : closed_at s' d1 p1;
  ce_was : closable s d1 p1;
  ce_other d p : (d, p) ≠ (d1, p1) → option_Forall2 (after_close d1 p1 id) (chan_at s d p) (chan_at s' d p);
  ce_pending : pend_cleared d1 p1 s s';
}.

Lemma close_tail_pending d1 p1 d2 s s' :
  close_tail d1 p1 d2 s = Out 0 d2 s' → pend_cleared d1 p1 s s'.
Proof.
  unfold close_tail. intros [= <-] d'. rewrite upd_dom_upd_dom. unfold pending_of. simpl. rewrite lookup_alter.
  destruct (decide (d1 = d')) as [->|Hne]; [rewrite decide_True by done|rewrite decide_False by done];
    by destruct (doms s !! d').
Qed.

Lemma after_close_id d1 p1 id s d p :
  (∀ e, chan_at s d p = Some e → e_state e ≠ ECS_INTERDOMAIN d1 p1) →
  ∀ s', option_Forall2 same_links (chan_at s d p) (chan_at s' d p) →
  option_Forall2 (after_close d1 p1 id) (chan_at s d p) (chan_at s' d p).
Proof.
  intros Hn s' H. destruct (chan_at s d p) as [e|]; inversion H; subst; constructor.
  unfold after_close. rewrite decide_False; [done|]. by apply Hn.
Qed.

(** A port that is not inter-domain has no peer. *)
Lemma no_peer s d1 p1 e d p e' :
  xinv s → chan_at s d1 p1 = Some e → not_inter (e_state e) → chan_at s d p = Some e' →
  e_state e' ≠ ECS_INTERDOMAIN d1 p1.
Proof.
  intros Hinv He Hn He' Hs. destruct (xi_pair _ Hinv _ _ _ _ _ He' Hs) as (e2 & He2 & Hs2).
  assert (e2 = e) as -> by congruence. by eapply Hn.
Qed.

Lemma closed_effect_links d1 p1 id s s1 s' e :
  xinv s → chan_at s d1 p1 = Some e → not_inter (e_state e) → xen_consumer e = 0 →
  e_state e ≠ ECS_FREE → e_state e ≠ ECS_RESERVED →
  (∀ d p, option_Forall2 same_links (chan_at s d p) (chan_at s1 d p)) →
  closed_at s' d1 p1 → (∀ d p, chan_at s' d p = chan_at (upd_dom d1 (upd_port p1 freed) s1) d p) →
  pend_cleared d1 p1 s s' → closed_effect d1 p1 id s s'.
Proof.
  intros Hinv He Hn Hc Hf Hr Hl Hcl Hch Hp. split; [done|exists e; eauto| |done].
  intros d p Hne. apply after_close_id.
  - intros e' He'. by eapply no_peer.
  - rewrite Hch, chan_at_upd, decide_False by naive_solver. done.
Qed.

Lemma closed_effect_remote s s' d1 D1 p1 d2 p2 e1 :
  xinv s → chan_at s d1 p1 = Some e1 → e_state e1 = ECS_INTERDOMAIN d2 p2 → xen_consumer e1 = 0 →
  closed_at s' d1 p1 →
  (∀ d p, chan_at s' d p = chan_at (upd_dom d1 (upd_port p1 freed)
     (upd_dom d2 (upd_port p2 (set_chan (ECS_UNBOUND (domain_id D1)))) s)) d p) →
  pend_cleared d1 p1 s s' → closed_effect d1 p1 (domain_id D1) s s'.
Proof.
  intros Hinv He1 Hs1 Hc Hcl Hch Hp. destruct (xi_pair _ Hinv d1 p1 e1 d2 p2 He1 Hs1) as (e2 & He2 & Hs2).
  split; [done|exists e1; by rewrite Hs1| |done].
  intros d p Hne. rewrite Hch, !chan_at_upd. rewrite decide_False by naive_solver.
  unfold after_close. case_decide as Hd.
  - destruct Hd as [-> ->]. rewrite He2. constructor. by rewrite decide_True.
  - destruct (chan_at s d p) as [e|] eqn:He; constructor. rewrite decide_False; [reflexivity|].
    intros Hs. destruct (xi_pair _ Hinv _ _ _ _ _ He Hs) as (e1' & He1' & Hs1').
    rewrite He1 in He1'. injection He1' as <-. rewrite Hs1 in Hs1'. injection Hs1' as <- <-. by apply Hd.
Qed.

Definition take_ref (d : positive) (s : xstate) : xstate := upd_dom d (set_refcnt (λ n, n + 1)) s.

(** The state with the references taken since the pass began with [d2]. *)
Definition taken (d2 ref : option positive) (s : xstate) : xstate :=
  match d2, ref with None, Some d => take_ref d s | _, _ => s end.

(** Why a pass gives up: the second one also when the peer has changed. *)
Definition refused (d1 : positive) (p1 : Z) (d2 : option positive) (s : xstate) : Prop :=
  ¬ closable s d1 p1 ∨
  ∃ e rd rp d2', chan_at s d1 p1 = Some e ∧ e_state e = ECS_INTERDOMAIN rd rp ∧ d2 = Some d2' ∧ d2' ≠ rd.

(** What a pass that ends in [Out] guarantees; [ref] is the reference it then holds. *)
Record pass_out (d1 : positive) (p1 : Z) (D1 : domain) (d2 : option positive) (s : xstate)
    (rc : Z) (ref : option positive) (s' : xstate) : Prop := {
  po_step : step_ok s s';
  po_ref d : ref = Some d → is_Some (doms s' !! d);
  po_held d : d2 = Some d → ref = Some d;
  po_kept : skept (taken d2 ref s) s';
  po_rc : rc = 0 ∧ closed_effect d1 p1 (domain_id D1) s s' ∨ rc = - EINVAL ∧ s' = s ∧ ref = d2 ∧ refused d1 p1 d2 s;
}.

Definition pass_ok (d1 : positive) (p1 : Z) (D1 : domain) (d2 : option positive) (s : xstate)
    (r : close_result) : Prop :=
  match r with
  | Out rc ref s' => pass_out d1 p1 D1 d2 s rc ref s'
  | Again rd s' => d2 = None ∧ s' = take_ref rd s ∧ is_Some (doms s !! rd) ∧
      ∃ e rp, chan_at s d1 p1 = Some e ∧ e_state e = ECS_INTERDOMAIN rd rp ∧ xen_consumer e = 0
  end.

Lemma pass_einval d1 p1 D1 d2 s :
  xinv s → (∀ d, d2 = Some d → is_Some (doms s !! d)) → refused d1 p1 d2 s →
  pass_ok d1 p1 D1 d2 s (Out (- EINVAL) d2 s).
Proof. intros Hinv Hd. split; auto 6 using step_ok_refl. by destruct d2. Qed.

Lemma close_tail_kept d1 p1 d2 s s' : close_tail d1 p1 d2 s = Out 0 d2 s' → skept s s'.
Proof.
  unfold close_tail. intros [= <-]. rewrite upd_dom_upd_dom. apply (skept_upd _ _ _). by intros D; split.
Qed.

(** The cases with no peer: [s1] is the state after the tables were updated. *)
Lemma pass_tables d1 p1 D1 d2 s s1 e :
  xinv s → (∀ d, d2 = Some d → is_Some (doms s !! d)) →
  chan_at s d1 p1 = Some e → not_inter (e_state e) → xen_consumer e = 0 →
  e_state e ≠ ECS_FREE → e_state e ≠ ECS_RESERVED →
  step_ok s (upd_dom d1 (upd_port p1 freed) s1) →
  (∃ e', chan_at s1 d1 p1 = Some e' ∧ xen_consumer e' = 0) → same_but_links d1 s s1 →
  pass_ok d1 p1 D1 d2 s (close_tail d1 p1 d2 s1).
Proof.
  intros Hinv Hd2 He Hn Hc Hf Hr Hst (e' & He' & Hc') [Hl Hk Hpd].
  destruct (close_tail_spec d1 p1 d2 s s1 e' Hst He' Hc') as (s' & Heq & Hst' & Hcl & Hch).
  rewrite Heq. split; [done| | | |].
  - intros d Hd. apply (so_doms _ _ Hst'). auto.
  - done.
  - assert (taken d2 d2 s = s) as -> by by destruct d2. transitivity s1; [done|]. by eapply close_tail_kept.
  - left. split; [done|]. eapply closed_effect_links; eauto.
    intros d. by rewrite (close_tail_pending _ _ _ _ _ Heq), Hpd.
Qed.

Lemma same_but_links_refl d s : same_but_links d s s.
Proof. by split; [reflexivity|..]. Qed.

(** The peer's case, with [s1] the state in which the reference is held. *)
Lemma pass_remote d1 p1 D1 d2 s e rd rp :
  xinv s → chan_at s d1 p1 = Some e → e_state e = ECS_INTERDOMAIN rd rp → xen_consumer e = 0 →
  (d2 = None ∨ d2 = Some rd) →
  ∃ s2, close_remote d1 D1 rd rp (taken d2 (Some rd) s) = Ok s2 ∧
        pass_ok d1 p1 D1 d2 s (close_tail d1 p1 (Some rd) s2).
Proof.
  intros Hinv He Hs Hc Hd2. set (s1 := taken d2 (Some rd) s).
  assert (Hq : quiet s s1) by (unfold s1; destruct d2; simpl; [done|apply quiet_set_refcnt]).
  assert (He1 : chan_at s1 d1 p1 = Some e) by by rewrite (quiet_chan _ _ _ _ Hq).
  assert (Hinv1 : xinv s1) by by eapply xinv_quiet.
  destruct (close_remote_spec s1 d1 D1 p1 rd rp e Hinv1 He1 Hs Hc) as (-> & Hst & e2 & He2 & Hc2).
  eexists. split; [done|]. set (s2 := upd_dom rd _ s1) in *.
  assert (Hss : step_ok s s1) by by apply step_ok_quiet.
  destruct (close_tail_spec d1 p1 (Some rd) s1 s2 e2 Hst He2 Hc2) as (s' & Heq & Hst' & Hcl & Hch).
  rewrite Heq. split.
  - by eapply step_ok_trans.
  - intros d [= <-]. apply (so_doms _ _ Hst'), (so_doms _ _ Hss). destruct (xi_pair _ Hinv _ _ _ _ _ He Hs) as (e' & He' & _).
    destruct (chan_at_Some _ _ _ _ He') as (R & HR & _). eauto.
  - intros d ->. destruct Hd2; congruence.
  - transitivity s2; [apply skept_upd; by split|by eapply close_tail_kept].
  - left. split; [done|]. eapply closed_effect_remote; eauto.
    + intros d p. rewrite Hch. unfold s2. rewrite !chan_at_upd. by rewrite !(quiet_chan _ _ _ _ Hq).
    + intros d. rewrite (close_tail_pending _ _ _ _ _ Heq). unfold s2, s1. rewrite pending_of_upd by done.
      f_equal. destruct d2; simpl; [done|by apply pending_of_upd].
Qed.

Lemma close_pass_spec E d1 p1 d2 s D1 :
  xinv s → doms s !! d1 = Some D1 → (∀ d, d2 = Some d → is_Some (doms s !! d)) →
  ∃ r, close_pass E d1 p1 d2 s = Ok r ∧ pass_ok d1 p1 D1 d2 s r.
Proof.
  intros Hinv HD Hd2. unfold close_pass. rewrite HD. cbn [deref].
  pose proof (pass_einval d1 p1 D1 d2 s Hinv Hd2) as Heinval.
  destruct (port_is_valid D1 p1) eqn:Hv; cbn [negb].
  2: { eexists. split; [done|]. apply Heinval. left. intros (e & He & _). rewrite (chan_at_dom _ _ _ _ HD) in He.
       apply chan_of_valid in He. congruence. }
  destruct (valid_port s d1 D1 p1 Hinv HD Hv) as (e & Hfp & He). rewrite Hfp. cbn [deref].
  assert (Hne : xen_consumer e ≠ 0 ∨ e_state e = ECS_FREE ∨ e_state e = ECS_RESERVED →
    pass_ok d1 p1 D1 d2 s (Out (- EINVAL) d2 s)).
  { intros Hor. apply Heinval. left. intros (e' & He' & ? & ? & ?). naive_solver. }
  unfold consumer_is_xen. destruct (Z.eqb_spec (xen_consumer e) 0) as [Hc|]; cbn [negb]; [|eauto].
  assert (Hc1 : ∃ e', chan_at s d1 p1 = Some e' ∧ xen_consumer e' = 0) by eauto.
  assert (HeD : chan_of D1 p1 = Some e) by by rewrite <- (chan_at_dom _ _ _ _ HD).
  destruct (e_state e) as [| |r|rd rp|irq n pr|virq|] eqn:Hs;
    [eexists; split; [done|]; by auto|eexists; split; [done|]; by auto|..].
  - eexists. split; [done|]. eapply (pass_tables _ _ _ _ s s e); rewrite ?Hs; auto using same_but_links_refl; try done.
    eapply free_plain; eauto; by rewrite Hs.
  - destruct (xi_pair _ Hinv _ _ _ _ _ He Hs) as (e2 & He2 & _).
    destruct (chan_at_Some _ _ _ _ He2) as (R & HR & Hc2). destruct d2 as [d2|].
    + case_bool_decide as Heq; [subst d2|].
      2: { eexists. split; [done|]. apply Heinval. right. naive_solver. }
      destruct (pass_remote d1 p1 D1 (Some rd) s e rd rp) as (s2 & Hr & ?); eauto. simpl in Hr. rewrite Hr. eauto.
    + rewrite (get_domain_spec _ _ _ HR). cbn [mbind outcome_bind].
      destruct (destroyed R) eqn:Hde.
      { destruct (pw_destroyed _ (dw_ports _ (xb_dom _ (xi_base _ Hinv) _ _ HR)) Hde) as [_ Hb].
        apply chan_of_valid, port_is_valid_spec in Hc2 as [_ Hc2]. rewrite Hb in Hc2. by destruct Hc2. }
      case_bool_decide; [|eexists; split; [done|]; simpl; eauto 10].
      destruct (pass_remote d1 p1 D1 None s e rd rp) as (s2 & Hr & ?); eauto. simpl in Hr.
      unfold take_ref in Hr. rewrite Hr. eauto.
  - destruct (free_pirq E s d1 D1 p1 e irq n pr Hinv HD HeD Hs Hc) as (s1 & -> & Hst & He' & Hl).
    cbn [mbind outcome_bind]. eexists. split; [done|].
    eapply pass_tables; eauto; by rewrite Hs.
  - eexists. split; [done|]. pose proof (free_virq s d1 D1 p1 e virq Hinv HD HeD Hs Hc) as Hst.
    assert (Hch : ∀ d p, chan_at (close_virq d1 p1 virq s) d p = chan_at s d p).
    { intros d p. by apply chan_at_other. }
    eapply pass_tables; eauto; try (by rewrite Hs); [by rewrite Hch; eauto|].
    split; [intros d p; rewrite Hch; reflexivity| |].
    { apply skept_upd. by split. } { intros d. by apply pending_of_upd. }
  - eexists. split; [done|]. eapply (pass_tables _ _ _ _ s s e); rewrite ?Hs; auto using same_but_links_refl; try done.
    eapply free_plain; eauto; by rewrite Hs.
Qed.

(** ** The whole close *)

(** Dropping the reference. *)
Definition put_ref (ref : option positive) (s s' : xstate) : Prop :=
  close_out (Out 0 ref s) = Ok (0, s').

Lemma close_out_put rc ref s :
  (∀ d, ref = Some d → is_Some (doms s !! d)) →
  ∃ s', close_out (Out rc ref s) = Ok (rc, s') ∧ put_ref ref s s' ∧ quiet s s'.
Proof.
  intros Hr. unfold put_ref, close_out. destruct ref as [d|]; [|by exists s].
  destruct (put_domain_spec d s (Hr d eq_refl)) as (s' & -> & Hq). simpl. eauto.
Qed.

Lemma put_ref_doms ref s s' d :
  put_ref ref s s' → doms s' !! d = (if decide (ref = Some d) then set_refcnt (λ n, n - 1) else id) <$> doms s !! d.
Proof.
  unfold put_ref, close_out, put_domain. destruct ref as [r|].
  - destruct (doms s !! r) as [D|] eqn:HD; simpl; [|done]. intros [= <-].
    assert (Hl : ∀ b h s1, doms (if b : bool then log h s1 else s1) = doms s1) by by intros [].
    rewrite Hl. simpl. destruct (decide (d = r)) as [->|Hne].
    + by rewrite lookup_alter_eq, HD, decide_True.
    + rewrite lookup_alter_ne, decide_False by congruence. by destruct (doms s !! d).
  - intros [= <-]. rewrite decide_False by done. by destruct (doms s !! d).
Qed.

Lemma put_ref_closed ref s s' d p : put_ref ref s s' → quiet s s' → closed_at s d p → closed_at s' d p.
Proof.
  intros Hp Hq [H1 H2]. split; [by rewrite (quiet_chan _ _ _ _ Hq)|]. intros D'. rewrite (put_ref_doms _ _ _ _ Hp).
  destruct (doms s !! d) as [D|]; simpl; [|done]. intros [= <-]. specialize (H2 D eq_refl). by case_decide.
Qed.

(** The reference that the pass took is given back. *)
Lemma put_ref_kept ref s s1 s' : skept (taken None ref s) s1 → put_ref ref s1 s' → skept s s'.
Proof.
  intros Hk Hp d. rewrite (put_ref_doms _ _ _ _ Hp). specialize (Hk d). destruct ref as [r|]; simpl in Hk.
  - case_decide as Hd; [|rewrite lookup_alter_ne in Hk by congruence; by destruct Hk; constructor].
    injection Hd as ->. rewrite lookup_alter_eq in Hk. destruct (doms s !! d); inversion Hk as [? D1 [] |]; subst;
      constructor. split; simpl in *; try done. lia.
  - rewrite decide_False by done. by destruct Hk; constructor.
Qed.

(** How [__evtchn_close] comes to its result: in one pass, or in a second one
    after the other CPUs have run. *)
Inductive close_run (E : env) (d : positive) (p : Z) (s : xstate) (rc : Z) (s' : xstate) : Prop :=
| one_pass D ref s1 :
    doms s !! d = Some D → pass_out d p D None s rc ref s1 → put_ref ref s1 s' → quiet s1 s' →
    close_run E d p s rc s'
| two_passes D rd e rp s1 :
    chan_at s d p = Some e → e_state e = ECS_INTERDOMAIN rd rp → xen_consumer e = 0 →
    doms (interference E (take_ref rd s)) !! d = Some D →
    pass_out d p D (Some rd) (interference E (take_ref rd s)) rc (Some rd) s1 →
    put_ref (Some rd) s1 s' → quiet s1 s' → close_run E d p s rc s'.

Lemma __evtchn_close_run E d p s :
  env_ok E → xinv s → is_Some (doms s !! d) →
  ∃ rc s', __evtchn_close E d p s = Ok (rc, s') ∧ close_run E d p s rc s'.
Proof.
  intros HE Hinv [D HD]. unfold __evtchn_close.
  destruct (close_pass_spec E d p None s D Hinv HD) as (r & -> & Hr); [done|]. cbn [mbind outcome_bind].
  destruct r as [rc ref s1|rd s1]; simpl in Hr.
  - destruct (close_out_put rc ref s1 (po_ref _ _ _ _ _ _ _ _ Hr)) as (s' & -> & Hput & Hq).
    exists rc, s'. split; [done|]. by eapply one_pass.
  - destruct Hr as (_ & -> & Hrd & e & rp & He & Hs & Hc).
    assert (Hst : step_ok s (take_ref rd s)) by (apply step_ok_quiet; [done|apply quiet_set_refcnt]).
    pose proof (eo_interference _ HE _ (so_inv _ _ Hst)) as Hst2.
    set (s2 := interference E (take_ref rd s)) in *.
    assert (Hdoms : ∀ d, is_Some (doms s !! d) → is_Some (doms s2 !! d)).
    { intros d' Hd'. apply (so_doms _ _ Hst2), (so_doms _ _ Hst), Hd'. }
    destruct (Hdoms d) as [D2 HD2]; [eauto|].
    destruct (close_pass_spec E d p (Some rd) s2 D2) as (r & -> & Hr); [apply Hst2|done|by intros ? [= <-]; auto|].
    cbn [mbind outcome_bind]. destruct r as [rc ref s3|? ?]; simpl in Hr; [|by destruct Hr].
    assert (ref = Some rd) as -> by apply (po_held _ _ _ _ _ _ _ _ Hr rd eq_refl).
    destruct (close_out_put rc (Some rd) s3 (po_ref _ _ _ _ _ _ _ _ Hr)) as (s' & -> & Hput & Hq).
    exists rc, s'. split; [done|]. by eapply two_passes.
Qed.

Lemma close_run_step E d p s rc s' : env_ok E → xinv s → close_run E d p s rc s' → step_ok s s'.
Proof.
  intros HE Hinv [D ref s1 HD Hpo Hput Hq|D rd e rp s1 He Hs Hc HD Hpo Hput Hq].
  - eapply step_ok_trans; [apply Hpo|]. apply step_ok_quiet; [apply Hpo|done].
  - eapply step_ok_trans; [|eapply step_ok_trans; [apply Hpo|apply step_ok_quiet; [apply Hpo|done]]].
    eapply step_ok_trans; [apply step_ok_quiet; [done|apply (quiet_set_refcnt rd)]|].
    apply HE. eapply xinv_quiet; [apply quiet_set_refcnt|done].
Qed.

Lemma __evtchn_close_spec E d p s :
  env_ok E → xinv s → is_Some (doms s !! d) →
  ∃ rc s', __evtchn_close E d p s = Ok (rc, s') ∧ step_ok s s'.
Proof.
  intros HE Hinv Hd. destruct (__evtchn_close_run E d p s HE Hinv Hd) as (rc & s' & -> & Hr).
  exists rc, s'. split; [done|]. by eapply close_run_step.
Qed.

(** ** Closing ports nobody else allocates

    While a domain is being reset or destroyed the other CPUs may close the
    peers of its channels, but they neither allocate its ports nor bind them to
    another domain. *)

Record same_kind (e e' : evtchn) : Prop := {
  sk_consumer : xen_consumer e' = xen_consumer e;
  sk_free : e_state e' = ECS_FREE ↔ e_state e = ECS_FREE;
  sk_reserved : e_state e' = ECS_RESERVED ↔ e_state e = ECS_RESERVED;
}.

#[export] Instance same_kind_preorder : PreOrder same_kind.
Proof. split; [done|]. intros e1 e2 e3 [] []. split; [congruence|tauto..]. Qed.

Definition calm_chan (e e' : evtchn) : Prop :=
  same_kind e e' ∧
  ∀ rd rp rd' rp', e_state e = ECS_INTERDOMAIN rd rp → e_state e' = ECS_INTERDOMAIN rd' rp' → rd' = rd.

Record calm (E : env) (d : positive) : Prop := {
  ca_chan s p : xinv s → option_Forall2 calm_chan (chan_at s d p) (chan_at (interference E s) d p);
  ca_dying s : is_dying <$> doms (interference E s) !! d = is_dying <$> doms s !! d;
}.

(** What closing port [p] of [d] does to the ports of [d]. *)
Record shut (d : positive) (p : Z) (s s' : xstate) : Prop := {
  sh_chan q : option_Forall2 (λ e e', e' = free_evtchn ∨ same_kind e e') (chan_at s d q) (chan_at s' d q);
  sh_here e : chan_at s d p = Some e → xen_consumer e = 0 → e_state e ≠ ECS_RESERVED →
    chan_at s' d p = Some free_evtchn;
  sh_dying : is_dying <$> doms s' !! d = is_dying <$> doms s !! d;
}.

Lemma after_close_kind d p id e e' : after_close d p id e e' → same_kind e e'.
Proof.
  unfold after_close. case_decide as Hd; [intros ->|intros [->|(irq & n & pr & n' & pr' & Hs & ->)]]; [|done|];
    split; simpl; try done; split; congruence.
Qed.

Lemma skept_dying s s' d : skept s s' → is_dying <$> doms s' !! d = is_dying <$> doms s !! d.
Proof. intros H. destruct (H d) as [D D' []|]; simpl; congruence. Qed.

Lemma taken_dying d2 ref s d : is_dying <$> doms (taken d2 ref s) !! d = is_dying <$> doms s !! d.
Proof.
  destruct d2, ref; simpl; try done. rewrite lookup_alter. case_decide; [subst|done]. by destruct (doms s !! d).
Qed.

Lemma pass_shut d p D d2 s rc ref s' :
  xinv s → pass_out d p D d2 s rc ref s' →
  (rc ≠ 0 → refused d p d2 s → ¬ closable s d p) → shut d p s s'.
Proof.
  intros Hinv Hpo Href. split.
  - intros q. destruct (po_rc _ _ _ _ _ _ _ _ Hpo) as [[_ Hce]|(_ & -> & _)].
    + destruct (decide (q = p)) as [->|Hq].
      * destruct (ce_was _ _ _ _ _ Hce) as (e & -> & _). destruct (ce_here _ _ _ _ _ Hce) as [-> _].
        constructor. by left.
      * destruct (ce_other _ _ _ _ _ Hce d q) as [e e' Hac|]; [congruence| |]; constructor.
        right. by eapply after_close_kind.
    + destruct (chan_at s d q) as [e|]; constructor. by right.
  - intros e He Hc Hr. destruct (po_rc _ _ _ _ _ _ _ _ Hpo) as [[_ Hce]|(-> & -> & _ & Hrf)].
    + apply (ce_here _ _ _ _ _ Hce).
    + destruct (decide (e_state e = ECS_FREE)) as [Hf|Hf].
      * destruct (chan_at_Some _ _ _ _ He) as (D0 & HD0 & Hc0). rewrite He. f_equal.
        by eapply (pw_free _ (dw_ports _ (xb_dom _ (xi_base _ Hinv) _ _ HD0))).
      * destruct (Href ltac:(done) Hrf). by exists e.
  - rewrite (skept_dying _ _ _ (po_kept _ _ _ _ _ _ _ _ Hpo)). apply taken_dying.
Qed.

Lemma close_run_shut E d p s rc s' :
  env_ok E → calm E d → xinv s → close_run E d p s rc s' → shut d p s s'.
Proof.
  intros HE Hca Hinv [D ref s1 HD Hpo Hput Hq|D rd e rp s1 He Hs Hc HD Hpo Hput Hq].
  - assert (Hsh : shut d p s s1).
    { eapply pass_shut; eauto. intros _ [?|(? & ? & ? & ? & ? & ? & ? & ?)]; done. }
    destruct Hsh as [H1 H2 H3]. split.
    + intros q. rewrite (quiet_chan _ _ _ _ Hq). apply H1.
    + intros e. rewrite (quiet_chan _ _ _ _ Hq). apply H2.
    + rewrite <- H3. destruct (qu_dom _ _ Hq d) as [D1 D2 []|]; simpl; congruence.
  - set (s0 := take_ref rd s) in *. set (s2 := interference E s0) in *.
    assert (Hq0 : quiet s s0) by apply quiet_set_refcnt.
    assert (Hinv0 : xinv s0) by by eapply xinv_quiet.
    assert (Hinv2 : xinv s2) by apply (eo_interference _ HE _ Hinv0).
    assert (Hcc : ∀ q, option_Forall2 calm_chan (chan_at s d q) (chan_at s2 d q)).
    { intros q. rewrite <- (quiet_chan _ _ d q Hq0). by apply ca_chan. }
    assert (Hsh : shut d p s2 s1).
    { eapply pass_shut; [done|exact Hpo|]. intros _ [?|(e2 & rd2 & rp2 & ? & He2 & Hs2 & [= <-] & Hne)]; [done|].
      specialize (Hcc p). rewrite He, He2 in Hcc. inversion Hcc as [? ? [_ Hi]|]; subst. naive_solver. }
    destruct Hsh as [H1 H2 H3]. split.
    + intros q. rewrite (quiet_chan _ _ _ _ Hq). specialize (Hcc q). specialize (H1 q).
      destruct Hcc as [e1 e2 [Hk _]|]; inversion H1 as [? e3 Hc3|]; subst; constructor.
      destruct Hc3; [by left|right; by etrans].
    + intros e' He' Hc' Hr'. rewrite (quiet_chan _ _ _ _ Hq). specialize (Hcc p). rewrite He' in Hcc.
      inversion Hcc as [? e2 [Hk _] Heq He2|]; subst. apply (H2 e2); [done| |].
      * by rewrite (sk_consumer _ _ Hk).
      * by rewrite (sk_reserved _ _ Hk).
    + transitivity (is_dying <$> doms s1 !! d).
      { destruct (qu_dom _ _ Hq d) as [D1 D2 []|]; simpl; congruence. }
      rewrite H3. unfold s2. rewrite (ca_dying _ _ Hca). apply (taken_dying None (Some rd)).
Qed.

(** ** Without interference *)

Lemma closed_effect_quiet d p id s0 s s' s1 :
  quiet s0 s → (∀ d', pending_of s d' = pending_of s0 d') → closed_effect d p id s s' →
  quiet s' s1 → (∀ d', pending_of s1 d' = pending_of s' d') → closed_at s1 d p → closed_effect d p id s0 s1.
Proof.
  intros Hq0 Hp0 [H1 (e & He & H2) H3 H4] Hq Hp Hc.
  split; [done|exists e; by rewrite <- (quiet_chan _ _ _ _ Hq0)| |].
  - intros d' p' Hne. rewrite (quiet_chan _ _ _ _ Hq), <- (quiet_chan _ _ _ _ Hq0). by apply H3.
  - intros d'. by rewrite Hp, <- Hp0.
Qed.

Lemma put_ref_pending ref s s' d : put_ref ref s s' → pending_of s' d = pending_of s d.
Proof.
  intros Hp. unfold pending_of. rewrite (put_ref_doms _ _ _ _ Hp). destruct (doms s !! d); simpl; [|done].
  by case_decide.
Qed.

Lemma close_run_exact E d p s rc s' D :
  (∀ s, interference E s = s) → xinv s → doms s !! d = Some D → close_run E d p s rc s' →
  skept s s' ∧
  (rc = 0 ∧ closed_effect d p (domain_id D) s s' ∨
   rc = - EINVAL ∧ ¬ closable s d p ∧ s' = s).
Proof.
  intros HI Hinv HD [D' ref s1 HD' Hpo Hput Hq|D' rd e rp s1 He Hs Hc HD' Hpo Hput Hq].
  - assert (D' = D) as -> by congruence. split; [by eapply put_ref_kept, Hput; apply Hpo|].
    destruct (po_rc _ _ _ _ _ _ _ _ Hpo) as [[-> Hce]|(-> & -> & -> & Hrf)]; [left|right].
    + split; [done|]. eapply closed_effect_quiet; [done|done|done|done| |].
      { intros d'. by eapply put_ref_pending. }
      by eapply put_ref_closed, ce_here.
    + split; [done|]. split; [destruct Hrf as [?|(? & ? & ? & ? & ? & ? & ? & ?)]; done|].
      by injection Hput.
  - rewrite HI in HD', Hpo. set (s0 := take_ref rd s) in *.
    assert (Hq0 : quiet s s0) by apply quiet_set_refcnt.
    assert (Hid : domain_id D' = domain_id D).
    { destruct (quiet_dom_fwd _ _ _ _ Hq0 HD) as (D2 & ? & []). congruence. }
    split; [eapply (put_ref_kept (Some rd)), Hput; apply (po_kept _ _ _ _ _ _ _ _ Hpo)|].
    destruct (po_rc _ _ _ _ _ _ _ _ Hpo) as [[-> Hce]|(-> & -> & _ & Hrf)]; [left|right].
    + split; [done|]. rewrite <- Hid. eapply closed_effect_quiet; [done| |done|done| |].
      { intros d'. by apply pending_of_upd. } { intros d'. by eapply put_ref_pending. }
      by eapply put_ref_closed, ce_here.
    + exfalso. destruct Hrf as [Hn|(e2 & rd2 & rp2 & ? & He2 & Hs2 & [= <-] & Hne)].
      * apply Hn. exists e. rewrite (quiet_chan _ _ _ _ Hq0), Hs. done.
      * rewrite (quiet_chan _ _ _ _ Hq0) in He2. congruence.
Qed.
