(* ===== verification/EvtChnLife.v ===== *)
(** * The remaining event channel operations (xen/common/event_channel.c)

    Rebinding a port to another vcpu, status, reset, Xen-attached channels,
    interrupts, the life cycle of a domain's ports, and the hypercall: each
    runs without hitting a [BUG_ON] and keeps the invariant. *)

From S2P Require Import Prelude EvtChn EvtChnInv EvtChnOps EvtChnPirq EvtChnClose.
Local Open Scope xen_scope.

(** ** [evtchn_bind_vcpu] *)

Lemma rebind_ports_wf D p e v :
  ports_wf D → chan_of D p = Some e → e_state e ≠ ECS_FREE → is_Some (vcpus D !! v) →
  ports_wf (upd_port p (set_notify v) D).
Proof.
  intros Hpo He Hf Hv. eapply ports_wf_upd; [done|done|done|..]; simpl; [done| |done].
  by apply (pw_xen _ Hpo p).
Qed.

Lemma rebind_virq_wf D p e v :
  virq_wf D → chan_of D p = Some e → (∀ virq, e_state e = ECS_VIRQ virq → is_global virq = true) →
  virq_wf (upd_port p (set_notify v) D).
Proof.
  intros [H1 H2] He Hg. split.
  - intros v' V virq HV Hp. destruct (H1 v' V virq HV Hp) as (? & ? & e' & He' & Hs' & Hn').
    split; [done|]. split; [done|]. rewrite chan_of_upd. case_decide as Hd; [|eauto].
    rewrite Hd in He'. rewrite He in He' |- *. injection He' as ->. eexists. split; [done|].
    split; [done|]. intros Hf. rewrite (Hg _ Hs') in Hf. done.
  - intros q e' virq. rewrite chan_of_upd. case_decide as Hd; [subst; rewrite He|by apply H2].
    simpl. intros [= <-]. simpl. by apply H2.
Qed.

Lemma rebind_lists D p v : lists_but p D → lists_but p (upd_port p (set_notify v) D).
Proof.
  intros Hl v' V HV. destruct (Hl v' V HV) as (l & Hnd & Hc & Hin). exists l. split; [done|].
  split; [apply pirq_chain_upd; [|done]; rewrite Hin; tauto|].
  intros q. rewrite Hin. unfold on_pirq_list. split; intros [Hq H]; (split; [done|]).
  - rewrite chan_of_upd. by rewrite decide_False.
  - rewrite chan_of_upd in H. by rewrite decide_False in H.
Qed.

Lemma rebind_tab D p v : pirq_tab p D → pirq_tab p (upd_port p (set_notify v) D).
Proof.
  intros [H1 H2 H3]. split; auto.
  - intros irq i Hi Hz. destruct (H2 irq i Hi Hz) as (e & n & pr & He & Hs).
    rewrite chan_of_upd. case_decide as Hd; [|eauto]. rewrite Hd in He. rewrite He. simpl. eauto 10.
  - intros q e irq n pr Hq. rewrite chan_of_upd, decide_False by done. eauto.
Qed.

Lemma rebind_plain s d D p e v :
  xinv s → doms s !! d = Some D → chan_of D p = Some e → e_state e ≠ ECS_FREE →
  (∀ virq, e_state e = ECS_VIRQ virq → is_global virq = true) →
  (∀ irq n pr, e_state e ≠ ECS_PIRQ irq n pr) → is_Some (vcpus D !! v) →
  step_ok s (upd_dom d (upd_port p (set_notify v)) s).
Proof.
  intros Hinv HD He Hf Hg Hi Hv. destruct (xb_dom _ (xi_base _ Hinv) _ _ HD) as [Hpo Hvi Hpi].
  eapply xinv_benign; [done|done| |by eapply benign_port].
  split; [by eapply rebind_ports_wf|by eapply rebind_virq_wf|by eapply pirq_wf_upd].
Qed.

Lemma rebind_pirq s d D p e irq n pr v V (h : hook) :
  xinv s → doms s !! d = Some D → chan_of D p = Some e → e_state e = ECS_PIRQ irq n pr →
  vcpus D !! v = Some V →
  ∃ s1, unlink_pirq_port d n pr (notify_vcpu_id e) s = Ok s1 ∧
  ∃ s', link_pirq_port d p v (log h (upd_dom d (upd_port p (set_notify v)) s1)) = Ok s' ∧ step_ok s s'.
Proof.
  intros Hinv HD He Hs HV. destruct (xb_dom _ (xi_base _ Hinv) _ _ HD) as [Hpo Hvi Hpi].
  destruct (unlink_step s d D p e irq n pr HD Hpo He Hs (iw_list _ Hpi)) as (F & -> & HL & Hlb).
  eexists. split; [done|]. destruct (links_chan_fwd _ _ HL p e He) as (e1 & He1 & Hl1).
  destruct (same_links_pirq _ _ _ _ _ Hl1 Hs) as (n1 & pr1 & Hs1).
  set (D1 := upd_port p (set_notify v) (F D)).
  set (s1 := log h _). assert (HD1 : doms s1 !! d = Some D1).
  { unfold s1. simpl. rewrite (lookup_alter_eq _ (alter F d (doms s))), lookup_alter_eq, HD. done. }
  destruct (iw_chan _ Hpi p e irq n pr He Hs) as (Hir & i & Hi & Hip).
  destruct (links_fields _ _ HL) as (_ & _ & _ & _ & _ & F6 & F7 & _ & _).
  destruct (link_step s1 d D1 p (set_notify v e1) irq n1 pr1 i) as (G & HG & Hwf & HL2); auto.
  - eapply rebind_ports_wf; [by eapply ports_wf_links|done|by rewrite Hs1|].
    apply (links_vcpu_Some _ _ HL). eauto.
  - eapply rebind_virq_wf; [by eapply virq_wf_links|done|by rewrite Hs1].
  - apply rebind_tab. eapply pirq_tab_links; [done|]. by apply pirq_tab_of.
  - by apply rebind_lists.
  - unfold D1. by rewrite chan_of_upd, decide_True, He1.
  - eapply (not_reserved _ _ _ Hpo He). by rewrite Hs.
  - simpl. by rewrite F6.
  - simpl. by rewrite F7.
  - simpl in HG. rewrite HG. eexists. split; [done|].
    assert (Hst : step_ok s (upd_dom d (λ D, G (upd_port p (set_notify v) (F D))) s)).
    { eapply xinv_benign; [done|done|done|]. transitivity (F D); [by apply benign_links|].
      transitivity D1; [by eapply benign_port|by apply benign_links]. }
    eapply step_ok_trans; [exact Hst|]. apply step_ok_quiet; [apply Hst|].
    rewrite <- (upd_dom_upd_dom d G), <- (upd_dom_upd_dom d (upd_port p (set_notify v))). by apply quiet_same.
Qed.

Lemma evtchn_bind_vcpu_spec E cur port v s :
  xinv s → is_Some (doms s !! cur) →
  ∃ rc s', evtchn_bind_vcpu E cur port v s = Ok (rc, s') ∧ step_ok s s'.
Proof.
  intros Hinv [D HD]. unfold evtchn_bind_vcpu. rewrite HD. cbn [deref].
  pose proof (step_ok_refl s Hinv) as Href. pose proof (xb_dom _ (xi_base _ Hinv) _ _ HD) as [Hpo Hvi Hpi].
  case_match; [eauto|]. destruct (vcpus D !! v) as [V|] eqn:HV; [|eauto].
  destruct (port_is_valid D port) eqn:Hval; cbn [negb]; [|eauto].
  destruct (valid_port s cur D port Hinv HD Hval) as (e & -> & He). cbn [deref].
  rewrite (chan_at_dom _ _ _ _ HD) in He. destruct (vcpu_small D v Hpo) as [_ ->]; [by rewrite HV|].
  case_match; [eauto|]. destruct (e_state e) as [| | | |irq n pr|virq|] eqn:Hs; try (eauto; done).
  1, 2: eexists _, _; split; [done|]; eapply rebind_plain; eauto; by rewrite Hs.
  - case_match; [eauto|].
    destruct (rebind_pirq s cur D port e irq n pr v V (Pirq_set_affinity cur irq (processor V)) Hinv HD He Hs HV)
      as (s1 & -> & s' & Hl & Hst).
    cbn [mbind outcome_bind]. rewrite Hl. cbn [mbind outcome_bind]. eauto.
  - destruct (vw_chan _ Hvi port e virq He Hs) as (v' & V' & HV' & Hp').
    assert (Hnz : port ≠ 0) by (eapply (not_reserved _ _ _ Hpo He); by rewrite Hs).
    destruct (vw_port _ Hvi v' V' virq HV') as (Hr & _); [congruence|].
    rewrite (virq_is_global_spec _ Hr). cbn [mbind outcome_bind]. destruct (is_global virq) eqn:Hg; [|eauto].
    eexists _, _. split; [done|]. eapply rebind_plain; eauto; rewrite Hs; try done. by intros ? [= <-].
Qed.

(** ** [evtchn_status] *)

Lemma evtchn_status_spec E cur dom port s :
  xinv s → is_Some (doms s !! cur) → ∃ rc st, evtchn_status E cur dom port s = Ok (rc, st).
Proof.
  intros Hinv Hcur. unfold evtchn_status.
  destruct (rcu_lock_target_spec s cur dom Hinv Hcur) as (r & -> & Hr). cbn [mbind outcome_bind].
  destruct r as [rc|d]; [eauto|]. destruct Hr as [D HD]. rewrite HD. cbn [deref].
  destruct (port_is_valid D (s32 port)) eqn:Hval; cbn [negb]; [|eauto].
  destruct (valid_port s d D (s32 port) Hinv HD Hval) as (e & -> & He). cbn [deref]. case_match; [eauto|].
  destruct (e_state e) as [| | |rd rp| | |] eqn:Hs; simpl; eauto.
  destruct (xi_pair _ Hinv _ _ _ _ _ He Hs) as (e2 & He2 & _).
  destruct (chan_at_Some _ _ _ _ He2) as (R & HR & _). rewrite HR. simpl. eauto.
Qed.

(** ** [evtchn_reset] *)

Lemma reset_loop_spec E n d i s :
  env_ok E → xinv s → is_Some (doms s !! d) → ∃ s', reset_loop E n d i s = Ok s' ∧ step_ok s s'.
Proof.
  intros HE. revert i s. induction n as [|n IH]; intros i s Hinv Hd; simpl; [eauto using step_ok_refl|].
  pose proof Hd as [D HD]. rewrite HD. cbn [deref]. case_match; [|eauto using step_ok_refl].
  destruct (__evtchn_close_spec E d i s HE Hinv Hd) as (rc & s1 & -> & Hst). cbn [mbind outcome_bind].
  destruct (IH (i + 1) s1) as (s' & -> & Hst'); [apply Hst|by apply (so_doms _ _ Hst)|].
  exists s'. split; [done|]. by eapply step_ok_trans.
Qed.

Lemma evtchn_reset_spec E cur dom s :
  env_ok E → xinv s → is_Some (doms s !! cur) →
  ∃ rc s', evtchn_reset E cur dom s = Ok (rc, s') ∧ step_ok s s'.
Proof.
  intros HE Hinv Hcur. unfold evtchn_reset.
  destruct (rcu_lock_target_spec s cur dom Hinv Hcur) as (r & -> & Hr). cbn [mbind outcome_bind].
  destruct r as [rc|d]; [eauto using step_ok_refl|]. case_match; [eauto using step_ok_refl|].
  destruct (reset_loop_spec E port_fuel d 0 s HE Hinv Hr) as (s' & -> & Hst). cbn [mbind outcome_bind]. eauto.
Qed.

(** ** Closing every port

    [evtchn_reset] and [evtchn_destroy] close the ports in order; the latter
    first detaches them from Xen. *)

Lemma invalid_above D i q :
  ports_wf D → port_is_valid D i = false → 0 ≤ i ≤ q → chan_of D q = None.
Proof.
  intros Hpo Hi Hq. destruct (chan_of D q) as [e|] eqn:He; [|done]. exfalso.
  apply chan_of_valid, port_is_valid_spec in He as [Hr Hb].
  apply not_true_iff_false in Hi. apply Hi, port_is_valid_spec. split; [lia|].
  destruct (decide (i / 128 = q / 128)) as [->|]; [done|]. apply (pw_contig _ Hpo (q / 128)); [done|].
  pose proof (Z.div_le_mono i q 128). pose proof (Z.div_pos i 128). lia.
Qed.

Section port_loop.
Context (E : env) (d : positive) (pre : Z → xstate → xstate).
Context (K : relation evtchn) `{!PreOrder K} (P : evtchn → Prop).
Context (HE : env_ok E) (Hcalm : calm E d).
Context (Kkind : ∀ e e', same_kind e e' → K e e').
Context (Kfree : ∀ e e', K e e' → e_state e = ECS_FREE → e_state e' = ECS_FREE).
Context (Kres : ∀ e e', K e e' → e_state e' = ECS_RESERVED ↔ e_state e = ECS_RESERVED).
Context (KP : ∀ e e', K e e' → P e → P e').
Context (pre_step : ∀ i s, xinv s → step_ok s (pre i s)).
Context (pre_chan : ∀ i s q, option_Forall2 K (chan_at s d q) (chan_at (pre i s) d q)).
Context (pre_dying : ∀ i s, is_dying <$> doms (pre i s) !! d = is_dying <$> doms s !! d).
Context (pre_here : ∀ i s e, chan_at (pre i s) d i = Some e → P e → xen_consumer e = 0).

Fixpoint port_loop (fuel : nat) (i : Z) (s : xstate) : outcome xstate :=
  match fuel with
  | O => Ok s
  | S fuel' =>
      deref (doms s !! d) (λ D,
        if port_is_valid D i then
          let! (_, s1) := __evtchn_close E d i (pre i s) in
          port_loop fuel' (i + 1) s1
        else Ok s)
  end.

(** How the ports of [d] have changed so far. *)
Record swept (s s' : xstate) : Prop := {
  sw_chan q : option_Forall2 (λ e e', e' = free_evtchn ∨ K e e') (chan_at s d q) (chan_at s' d q);
  sw_dying : is_dying <$> doms s' !! d = is_dying <$> doms s !! d;
}.

Lemma swept_trans s1 s2 s3 : xinv s3 → swept s1 s2 → swept s2 s3 → swept s1 s3.
Proof.
  intros Hinv [A1 A2] [B1 B2]. split; [|congruence]. intros q. specialize (A1 q). specialize (B1 q).
  destruct A1 as [e1 e2 HA|]; [|inversion B1; constructor].
  destruct (chan_at s3 d q) as [e3|] eqn:He3; inversion B1 as [? ? HB|]; subst. constructor.
  destruct HB as [->|HB]; [by left|]. destruct HA as [->|HA]; [left|right; by etrans].
  destruct (chan_at_Some _ _ _ _ He3) as (D & HD & Hc).
  eapply (pw_free _ (dw_ports _ (xb_dom _ (xi_base _ Hinv) _ _ HD))); eauto.
Qed.

Lemma swept_free s s' q : swept s s' → xinv s' → chan_at s d q = Some free_evtchn → chan_at s' d q = Some free_evtchn.
Proof.
  intros [A1 _] Hinv Hq. specialize (A1 q). rewrite Hq in A1. inversion A1 as [? e HA Heq He|]; subst. f_equal.
  destruct HA as [->|HA]; [done|]. symmetry in He. destruct (chan_at_Some _ _ _ _ He) as (D & HD & Hc).
  eapply (pw_free _ (dw_ports _ (xb_dom _ (xi_base _ Hinv) _ _ HD))); eauto.
Qed.

(** One iteration. *)
Lemma sweep_step i s :
  xinv s → is_Some (doms s !! d) →
  ∃ rc s1, __evtchn_close E d i (pre i s) = Ok (rc, s1) ∧ step_ok s s1 ∧ swept s s1 ∧
    ∀ e, chan_at s d i = Some e → P e → e_state e ≠ ECS_RESERVED → chan_at s1 d i = Some free_evtchn.
Proof.
  intros Hinv Hd. pose proof (pre_step i s Hinv) as Hst0.
  destruct (__evtchn_close_run E d i (pre i s)) as (rc & s1 & -> & Hrun);
    [done|apply Hst0|by apply (so_doms _ _ Hst0)|].
  pose proof (close_run_shut _ _ _ _ _ _ HE Hcalm (so_inv _ _ Hst0) Hrun) as [S1 S2 S3].
  exists rc, s1. split; [done|]. split; [|split].
  - eapply step_ok_trans; [done|]. eapply close_run_step; [done|apply Hst0|done].
  - split; [|by rewrite S3]. intros q. specialize (S1 q). pose proof (pre_chan i s q) as Hp.
    destruct Hp as [e1 e2 Hk|]; inversion S1 as [? ? HB|]; subst; constructor.
    destruct HB as [->|HB]; [by left|right]. etrans; [done|]. by apply Kkind.
  - intros e He HP Hr. pose proof (pre_chan i s i) as Hp. rewrite He in Hp.
    inversion Hp as [? e2 Hk Heq He2|]; subst. symmetry in He2. apply (S2 e2 He2).
    + eapply pre_here; [done|]. by eapply KP.
    + by rewrite (Kres _ _ Hk).
Qed.

Lemma port_loop_spec n i s :
  xinv s → is_Some (doms s !! d) → 0 ≤ i → 4097 - i ≤ Z.of_nat n →
  ∃ s', port_loop n i s = Ok s' ∧ step_ok s s' ∧ swept s s' ∧
    ∀ q e, i ≤ q → chan_at s d q = Some e → P e → e_state e ≠ ECS_RESERVED → chan_at s' d q = Some free_evtchn.
Proof.
  revert i s. induction n as [|n IH]; intros i s Hinv Hd Hi Hn.
  { exists s. split; [done|]. split; [by apply step_ok_refl|]. split.
    - split; [|done]. intros q. destruct (chan_at s d q); constructor. by right.
    - intros q e Hq He. destruct (chan_at_Some _ _ _ _ He) as (D & HD & Hc). exfalso.
      apply chan_of_valid, port_is_valid_spec in Hc as [? _]. destruct (MAX_EVTCHNS_cases D); lia. }
  simpl. pose proof Hd as [D HD]. rewrite HD. cbn [deref]. destruct (port_is_valid D i) eqn:Hv.
  - destruct (sweep_step i s Hinv Hd) as (rc & s1 & -> & Hst & Hsw & Hhere). cbn [mbind outcome_bind].
    destruct (IH (i + 1) s1) as (s' & -> & Hst' & Hsw' & Hq'); [apply Hst|by apply (so_doms _ _ Hst)|lia|lia|].
    exists s'. split; [done|]. split; [by eapply step_ok_trans|].
    split; [by eapply swept_trans; [apply Hst'|..]|].
    intros q e Hq He HP Hr. destruct (decide (q = i)) as [->|].
    + eapply swept_free; [done|apply Hst'|]. by eapply Hhere.
    + pose proof (sw_chan _ _ Hsw q) as Hs. rewrite He in Hs. inversion Hs as [? e1 Hk Heq He1|]; subst. symmetry in He1.
      destruct Hk as [->|Hk]; [eapply swept_free; [done|apply Hst'|done]|].
      apply (Hq' q e1); [lia|done|by eapply KP|by rewrite (Kres _ _ Hk)].
  - exists s. split; [done|]. split; [by apply step_ok_refl|]. split.
    { split; [|done]. intros q. destruct (chan_at s d q); constructor. by right. }
    intros q e Hq He. rewrite (chan_at_dom _ _ _ _ HD) in He.
    rewrite (invalid_above D i q) in He; [done|apply (xb_dom _ (xi_base _ Hinv) _ _ HD)|done|done].
Qed.
End port_loop.

Lemma reset_loop_eq E n d i s : reset_loop E n d i s = port_loop E d (λ _ s, s) n i s.
Proof.
  revert i s. induction n as [|n IH]; intros i s; simpl; [done|]. destruct (doms s !! d); simpl; [|done].
  case_match; [|done]. destruct (__evtchn_close E d i s) as [[rc s1]|]; simpl; [apply IH|done].
Qed.

(** Every port that is not Xen's is closed; Xen's and port 0 stay. *)
Lemma reset_loop_closes E d s :
  env_ok E → calm E d → xinv s → is_Some (doms s !! d) →
  ∃ s', reset_loop E port_fuel d 0 s = Ok s' ∧ step_ok s s' ∧
    ∀ q e, chan_at s d q = Some e →
      if decide (xen_consumer e = 0 ∧ e_state e ≠ ECS_RESERVED) then chan_at s' d q = Some free_evtchn
      else ∃ e', chan_at s' d q = Some e' ∧ (e' = free_evtchn ∨ same_kind e e').
Proof.
  intros HE Hca Hinv Hd. rewrite reset_loop_eq.
  destruct (port_loop_spec E d (λ _ s, s) same_kind (λ e, xen_consumer e = 0)) with (n := port_fuel) (i := 0) (s := s)
    as (s' & -> & Hst & Hsw & Hcl); try done; try (unfold port_fuel; lia).
  - intros e e' Hk. by rewrite (sk_free _ _ Hk).
  - intros e e' Hk. apply (sk_reserved _ _ Hk).
  - intros e e' Hk. by rewrite (sk_consumer _ _ Hk).
  - exists s'. split; [done|]. split; [done|]. intros q e He. case_decide as Hc.
    + destruct Hc. eapply (Hcl q); eauto. destruct (chan_at_Some _ _ _ _ He) as (D & _ & Hv).
      apply chan_of_valid, port_is_valid_spec in Hv. lia.
    + pose proof (sw_chan _ _ _ _ Hsw q) as Hq. rewrite He in Hq. inversion Hq; subst. eauto.
Qed.

(** ** Xen-attached channels *)

Lemma upd_port_id D p f : (∀ e, evtchn_from_port D p = Some e → f e = e) → upd_port p f D = D.
Proof.
  intros Hf. unfold upd_port, set_buckets. destruct D. simpl. f_equal. apply alter_id. intros b Hb.
  apply list_eq. intros i. rewrite list_lookup_alter. case_decide as Hi; [|done]. rewrite <- Hi.
  destruct (b !! slot p) as [e|] eqn:He; simpl; [|done]. f_equal. apply Hf. unfold evtchn_from_port, bucket_from_port. simpl. by rewrite Hb.
Qed.

Lemma from_port_chan D p e : ports_wf D → evtchn_from_port D p = Some e → chan_of D p = Some e.
Proof.
  intros Hpo He. apply chan_of_Some. split; [|done]. apply port_is_valid_spec.
  unfold evtchn_from_port, bucket_from_port, EVTCHNS_PER_BUCKET in He.
  destruct (evtchn_buckets D !! (p / 128)) as [b|] eqn:Hb; [|done]. split; [|eauto].
  destruct (pw_bucket _ Hpo _ _ Hb) as [_ Hk].
  assert (MAX_EVTCHNS D / 128 * 128 = MAX_EVTCHNS D).
  { destruct (MAX_EVTCHNS_cases D) as [-> | ->]; done. }
  pose proof (Z.div_mod p 128 ltac:(lia)). pose proof (Z.mod_pos_bound p 128 ltac:(lia)). nia.
Qed.

Lemma detach_step s d p : xinv s → step_ok s (upd_dom d (upd_port p (set_consumer 0)) s).
Proof.
  intros Hinv. assert (Hid : (∀ D e, doms s !! d = Some D → chan_of D p = Some e → xen_consumer e = 0) →
    step_ok s (upd_dom d (upd_port p (set_consumer 0)) s)).
  { intros Hc. apply step_ok_quiet; [done|]. apply quiet_upd_dom. intros D HD. rewrite upd_port_id; [done|].
    intros e He. assert (xen_consumer e = 0) as Hz; [|by destruct e; simpl in *; subst].
    eapply Hc; [done|]. eapply from_port_chan; [|done]. apply (xb_dom _ (xi_base _ Hinv) _ _ HD). }
  destruct (chan_at s d p) as [e|] eqn:He.
  2: { apply Hid. intros D e HD. rewrite <- (chan_at_dom _ _ _ _ HD). congruence. }
  destruct (decide (xen_consumer e = 0)) as [Hc|Hc].
  { apply Hid. intros D e' HD. rewrite <- (chan_at_dom _ _ _ _ HD). congruence. }
  destruct (chan_at_Some _ _ _ _ He) as (D & HD & HeD). pose proof Hinv as [Hb Hp].
  pose proof (xb_dom _ Hb _ _ HD) as [Hpo Hvi Hpi].
  assert (Hpl : is_plain (e_state e) ∧ e_state e ≠ ECS_FREE).
  { destruct (pw_xen _ Hpo _ _ HeD Hc) as [[r ->]|(d' & q & ->)]; done. }
  destruct Hpl as [Hpl Hnf]. split; [split|intros d'; apply so_doms_upd].
  - eapply xbase_plain; eauto; try done.
    intros D' HD'. simpl. assert (D' = D) as -> by congruence. by apply (pw_notify _ Hpo p).
  - intros d' q e' d2 p2. rewrite chan_at_upd.
    assert (Hch : ∀ d2 p2 e2, chan_at s d2 p2 = Some e2 →
      ∃ e2', chan_at (upd_dom d (upd_port p (set_consumer 0)) s) d2 p2 = Some e2' ∧ e_state e2' = e_state e2).
    { intros d3 p3 e3 He3. rewrite chan_at_upd. case_decide as Hd; [|eauto]. destruct Hd as [-> ->].
      rewrite He3. simpl. eauto. }
    intros He' Hs'. assert (∃ e0, chan_at s d' q = Some e0 ∧ e_state e0 = ECS_INTERDOMAIN d2 p2) as (e0 & He0 & Hs0).
    { case_decide as Hd; [|eauto]. destruct Hd as [-> ->]. rewrite He in He'. injection He' as <-. eauto. }
    destruct (Hp _ _ _ _ _ He0 Hs0) as (e2 & He2 & Hs2). destruct (Hch _ _ _ He2) as (e2' & ? & Heq).
    exists e2'. split; [done|congruence].
Qed.

Definition consumer_room (fn : Z) (s : xstate) : Prop := fn ∈ xen_consumers s ∨ 0 ∈ xen_consumers s.

(** The slot found holds [fn]; slots in use keep their function. *)
Lemma consumer_loop_spec l i fn :
  fn ≠ 0 → fn ∈ l ∨ 0 ∈ l →
  ∃ j l', consumer_loop l i fn = (j, l') ∧ i ≤ j < i + Z.of_nat (length l) ∧ length l' = length l ∧
    l' !! Z.to_nat (j - i) = Some fn ∧ ∀ k x, l !! k = Some x → x ≠ 0 → l' !! k = Some x.
Proof.
  intros Hfn. revert i. induction l as [|x l IH]; intros i Hin; [set_solver|]. simpl.
  destruct (Z.eqb_spec x 0) as [->|Hx]; [|destruct (Z.eqb_spec x fn) as [->|Hne]].
  - rewrite Z.eqb_refl. eexists _, _. split; [done|]. split; [simpl; lia|]. split; [done|].
    split; [by rewrite Z.sub_diag|]. intros [|k] y; simpl; [by intros [= <-]|done].
  - eexists _, _. split; [done|]. split; [simpl; lia|]. split; [done|]. split; [by rewrite Z.sub_diag|done].
  - destruct (IH (i + 1)) as (j & l' & -> & Hj & Hl & Hj' & Hk); [set_solver|]. eexists _, _. split; [done|].
    split; [simpl; lia|]. split; [simpl; lia|]. split.
    + replace (Z.to_nat (j - i)) with (S (Z.to_nat (j - (i + 1)))) by lia. done.
    + intros [|k] y; simpl; [done|by apply Hk].
Qed.

Lemma get_xen_consumer_spec fn s :
  xinv s → consumer_room (if fn =? 0 then default_fn else fn) s →
  ∃ c l, get_xen_consumer fn s = Ok (c, set_consumers l s) ∧ 1 ≤ c ≤ 8 ∧
    l !! Z.to_nat (c - 1) = Some (if fn =? 0 then default_fn else fn) ∧ xinv (set_consumers l s).
Proof.
  intros Hinv Hr. unfold get_xen_consumer. set (fn' := if fn =? 0 then _ else _) in *.
  assert (Hfn : fn' ≠ 0) by (unfold fn'; destruct (Z.eqb_spec fn 0); done).
  destruct (consumer_loop_spec (xen_consumers s) 0 fn' Hfn Hr) as (j & l & -> & Hj & Hl & Hlj & Hk).
  pose proof (xb_consumers _ (xi_base _ Hinv)) as H8. destruct (Z.leb_spec (Z.of_nat (length (xen_consumers s))) j); [lia|].
  exists (j + 1), l. split; [done|]. split; [lia|]. rewrite Z.sub_0_r in Hlj. replace (j + 1 - 1) with j by lia.
  split; [done|]. destruct Hinv as [[] Hp]. split; [|exact Hp]. split; auto; [simpl; lia|].
  intros d p e He Hc. destruct (xb_consumer d p e He Hc) as (? & f & Hf & Hnz). eauto 10.
Qed.

Lemma alloc_unbound_xen_spec E d v rdom fn s :
  xinv s → is_Some (doms s !! d) → (∀ D, doms s !! d = Some D → is_Some (vcpus D !! v)) →
  consumer_room (if fn =? 0 then default_fn else fn) s →
  ∃ p s', alloc_unbound_xen_event_channel E d v rdom fn s = Ok (p, s') ∧ step_ok s s'.
Proof.
  intros Hinv [D HD] Hv Hroom. unfold alloc_unbound_xen_event_channel.
  destruct (get_free_port_spec E d s D Hinv HD) as (port & s1 & -> & Hg). cbn [mbind outcome_bind].
  destruct Hg as [[Hlt ->]|[_ Hg]].
  { apply Z.ltb_lt in Hlt. rewrite Hlt. eauto 10 using step_ok_refl. }
  pose proof (gp_range _ _ _ _ Hg). destruct (Z.ltb_spec port 0) as [|_]; [lia|].
  destruct (got_port_dom _ _ _ _ d D Hg HD) as (D1 & HD1 & _ & _ & Hvc & _).
  destruct (get_xen_consumer_spec fn s1) as (c & l & -> & Hc & Hlc & Hinv2); [apply Hg| |].
  { destruct (gp_state _ _ _ _ Hg) as [f ->]. done. }
  cbn [mbind outcome_bind]. eexists _, _. split; [done|].
  assert (u8 c = c) as Huc by (apply Z.mod_small; lia).
  destruct (Hv D HD) as [V HV]. pose proof (xb_dom _ (xi_base _ Hinv) _ _ HD) as [Hpo _ _].
  destruct (vcpu_small D v Hpo) as [_ Huv]; [eauto|]. rewrite Huc, Huv.
  eapply step_ok_trans; [by eapply got_port_step|].
  assert (Hst : step_ok (set_consumers l s1) (upd_dom d (upd_port port (λ _,
    mk_evtchn (ECS_UNBOUND (if xsm_evtchn_unbound E s1 d port rdom =? 0 then rdom else DOMID_INVALID)) c v))
      (set_consumers l s1))).
  { apply bind_plain; try done; [apply Hg| |].
    - intros _. split; [eauto|]. split; [simpl; lia|]. eexists. split; [exact Hlc|]. destruct (Z.eqb_spec fn 0); done.
    - intros D' HD'. simpl in *. assert (D' = D1) as -> by congruence. rewrite Hvc, HV. eauto. }
  split; [apply Hst|]. intros d' Hd'. apply (so_doms _ _ Hst). done.
Qed.

Lemma free_xen_event_channel_spec E d p s D :
  env_ok E → xinv s → doms s !! d = Some D →
  (is_dying D = false → ∃ e, chan_of D p = Some e ∧ xen_consumer e ≠ 0) →
  ∃ s', free_xen_event_channel E d p s = Ok s' ∧ step_ok s s'.
Proof.
  intros HE Hinv HD Hx. unfold free_xen_event_channel. rewrite HD. cbn [deref].
  destruct (is_dying D); [eauto using step_ok_refl|]. destruct Hx as (e & He & Hc); [done|].
  apply chan_of_Some in He as [-> ->]. cbn [negb BUG_ON deref]. unfold consumer_is_xen.
  destruct (Z.eqb_spec (xen_consumer e) 0); [done|]. cbn [negb BUG_ON].
  pose proof (detach_step s d p Hinv) as Hst. set (s1 := upd_dom d _ s) in *.
  destruct (__evtchn_close_spec E d p s1) as (rc & s' & -> & Hst'); [done|apply Hst|apply (so_doms _ _ Hst); eauto|].
  cbn [mbind outcome_bind]. exists s'. split; [done|]. by eapply step_ok_trans.
Qed.

Lemma notify_via_xen_spec d p s D :
  xinv s → doms s !! d = Some D →
  (is_dying D = false → ∃ e, chan_of D p = Some e ∧ xen_consumer e ≠ 0) →
  ∃ s', notify_via_xen_event_channel d p s = Ok s' ∧ step_ok s s'.
Proof.
  intros Hinv HD Hx. unfold notify_via_xen_event_channel. rewrite HD. cbn [deref].
  destruct (is_dying D); [eauto using step_ok_refl|]. destruct Hx as (e & He & Hc); [done|].
  pose proof He as HeD. apply chan_of_Some in He as [-> ->]. cbn [negb BUG_ON deref]. unfold consumer_is_xen.
  destruct (Z.eqb_spec (xen_consumer e) 0); [done|]. cbn [negb BUG_ON].
  destruct (e_state e) as [| | |rd rp| | |] eqn:Hs; try (eauto using step_ok_refl).
  rewrite <- (chan_at_dom _ _ _ _ HD) in HeD. destruct (xi_pair _ Hinv _ _ _ _ _ HeD Hs) as (e2 & He2 & _).
  destruct (chan_at_Some _ _ _ _ He2) as (R & HR & _). rewrite HR. cbn [deref].
  rewrite (chan_at_from_port _ _ _ _ _ HR He2). cbn [deref].
  destruct (deliver_quiet rd rp e2 s Hinv He2) as (s' & -> & Hq). exists s'. split; [done|]. by apply step_ok_quiet.
Qed.

(** ** [evtchn_destroy] *)

Lemma destroy_loop_eq E n d i s :
  destroy_loop E n d i s = port_loop E d (λ i s, upd_dom d (upd_port i (set_consumer 0)) s) n i s.
Proof.
  revert i s. induction n as [|n IH]; intros i s; simpl; [done|]. destruct (doms s !! d); simpl; [|done].
  case_match; [|done]. destruct (__evtchn_close E d i _) as [[rc s1]|]; simpl; [apply IH|done].
Qed.

(** The same kind, up to the consumer. *)
Record same_use (e e' : evtchn) : Prop := {
  su_free : e_state e' = ECS_FREE ↔ e_state e = ECS_FREE;
  su_reserved : e_state e' = ECS_RESERVED ↔ e_state e = ECS_RESERVED;
}.

#[export] Instance same_use_preorder : PreOrder same_use.
Proof. split; [done|]. intros e1 e2 e3 [] []. split; tauto. Qed.

Lemma destroy_loop_closes E d s :
  env_ok E → calm E d → xinv s → is_Some (doms s !! d) →
  ∃ s', destroy_loop E port_fuel d 0 s = Ok s' ∧ step_ok s s' ∧
    is_dying <$> doms s' !! d = is_dying <$> doms s !! d ∧
    ∀ q e, chan_at s' d q = Some e → e = free_evtchn ∨ e_state e = ECS_RESERVED.
Proof.
  intros HE Hca Hinv Hd. rewrite destroy_loop_eq. set (pre := λ i s, upd_dom d (upd_port i (set_consumer 0)) s).
  destruct (port_loop_spec E d pre same_use (λ _, True)) with (n := port_fuel) (i := 0) (s := s)
    as (s' & -> & Hst & Hsw & Hcl); try done; try (unfold port_fuel; lia).
  - intros e e' Hk. split; apply Hk.
  - intros e e' Hk. by rewrite (su_free _ _ Hk).
  - intros e e' Hk. apply (su_reserved _ _ Hk).
  - intros i s0. apply detach_step.
  - intros i s0 q. unfold pre. rewrite chan_at_upd. case_decide as Hq; [|reflexivity].
    destruct Hq as [_ ->]. destruct (chan_at s0 d i); by constructor.
  - intros i s0. unfold pre. simpl. rewrite lookup_alter_eq. by destruct (doms s0 !! d).
  - intros i s0 e. unfold pre. rewrite chan_at_upd, decide_True by done.
    destruct (chan_at s0 d i); simpl; [|done]. intros [= <-]. done.
  - exists s'. split; [done|]. split; [done|]. split; [apply Hsw|]. intros q e' He'.
    pose proof (sw_chan _ _ _ _ Hsw q) as Hq. rewrite He' in Hq. inversion Hq as [e ? Hk Heq|]; subst. symmetry in Heq.
    destruct Hk as [->|Hk]; [by left|]. destruct (decide (e_state e = ECS_RESERVED)) as [Hr|Hr].
    + right. by apply (su_reserved _ _ Hk).
    + left. assert (chan_at s' d q = Some free_evtchn) as Hf; [|congruence]. eapply (Hcl q e); try done.
      destruct (chan_at_Some _ _ _ _ Heq) as (D & _ & Hv). apply chan_of_valid, port_is_valid_spec in Hv. lia.
Qed.

(** No port of the domain is bound. *)
Definition unbound (D : domain) : Prop :=
  ∀ p e, chan_of D p = Some e → e = free_evtchn ∨ e_state e = ECS_RESERVED.

Lemma no_chan D p : chan_of (set_buckets (λ _, ∅) D) p = None.
Proof. unfold chan_of, port_is_valid, bucket_from_port. simpl. rewrite lookup_empty. by rewrite andb_false_r. Qed.

Lemma drop_buckets_wf D : dom_wf D → is_dying D = true → unbound D → dom_wf (set_buckets (λ _, ∅) D).
Proof.
  intros [Hpo Hvi Hpi] Hdy Hun. split; split.
  - done.
  - intros k j [? H] _. simpl in H. by rewrite lookup_empty in H.
  - intros [?|[k [? H]]]; [simpl in *; congruence|]. simpl in H. by rewrite lookup_empty in H.
  - intros p e. by rewrite no_chan.
  - intros p e. by rewrite no_chan.
  - intros p e. by rewrite no_chan.
  - intros p e. by rewrite no_chan.
  - apply Hpo.
  - apply Hpo.
  - apply Hpo.
  - apply Hpo.
  - done.
  - intros v V virq HV Hp. exfalso. destruct (vw_port _ Hvi v V virq HV Hp) as (_ & _ & e & He & Hs & _).
    destruct (Hun _ _ He) as [->|]; [done|congruence].
  - intros p e virq. by rewrite no_chan.
  - apply Hpi.
  - intros irq i Hi Hp. exfalso. destruct (iw_port _ Hpi irq i Hi Hp) as (e & n & pr & He & Hs).
    destruct (Hun _ _ He) as [->|]; [done|congruence].
  - intros p e irq n pr. by rewrite no_chan.
  - intros v V HV. destruct (iw_list _ Hpi v V HV) as (l & Hnd & Hc & Hin). exists [].
    destruct l as [|p l]; [|exfalso].
    { split; [done|]. split; [done|]. intros p. split; [set_solver|].
      intros (e & irq & n & pr & He & _). by rewrite no_chan in He. }
    destruct (proj1 (Hin p)) as (e & irq & n & pr & He & Hs & _); [set_solver|].
    destruct (Hun _ _ He) as [->|]; [done|congruence].
Qed.

Lemma drop_buckets s d D :
  xinv s → doms s !! d = Some D → is_dying D = true → unbound D →
  step_ok s (upd_dom d (set_buckets (λ _, ∅)) s).
Proof.
  intros [Hb Hp] HD Hdy Hun. split; [|intros d'; apply so_doms_upd]. split.
  - eapply xbase_upd; eauto; [apply drop_buckets_wf; auto; apply (xb_dom _ Hb _ _ HD)|].
    intros p e. by rewrite no_chan.
  - intros d' p e d2 p2. unfold chan_at. rewrite !doms_upd_dom. case_decide as Hd1; [subst d'|].
    { rewrite HD. simpl. by rewrite no_chan. }
    intros He Hs. destruct (Hp d' p e d2 p2 He Hs) as (e2 & He2 & Hs2). exists e2. split; [|done].
    rewrite decide_False; [done|]. intros ->. rewrite (chan_at_dom _ _ _ _ HD) in He2.
    destruct (Hun _ _ He2) as [->|]; [done|congruence].
Qed.

(** ** Handlers of global virtual IRQs *)

Lemma set_handlers_step s f :
  xinv s → (∀ virq d, f (global_virq_handlers s) !! virq = Some d → is_Some (doms s !! d)) →
  step_ok s (set_handlers f s).
Proof. intros [[] Hp] Hf. split; [|done]. split; [|exact Hp]. by split. Qed.

Lemma put_times_spec d n s :
  is_Some (doms s !! d) →
  ∃ s', put_times d n s = Ok s' ∧ quiet s s' ∧
    ∀ d', refcnt <$> doms s' !! d' = (λ D, refcnt D - (if decide (d' = d) then Z.of_nat n else 0)) <$> doms s !! d'.
Proof.
  revert s. induction n as [|n IH]; intros s Hd; simpl.
  { exists s. split; [done|]. split; [done|]. intros d'. destruct (doms s !! d'); simpl; [|done]. f_equal. case_decide; lia. }
  pose proof Hd as [D HD]. destruct (close_out_put 0 (Some d) s) as (s1 & Hout & Hput & Hq); [by intros ? [= <-]|].
  unfold close_out in Hout. destruct (put_domain d s) as [s1'|]; [|done]. injection Hout as ->. cbn [mbind outcome_bind].
  destruct (IH s1) as (s' & -> & Hq' & Href); [by apply (quiet_doms _ _ d Hq)|].
  exists s'. split; [done|]. split; [by etrans|]. intros d'. rewrite Href, (put_ref_doms _ _ _ _ Hput).
  destruct (doms s !! d') as [D'|]; simpl; [|done]. f_equal. repeat case_decide; simpl; try lia; congruence.
Qed.

Lemma clear_handlers_spec d l n s :
  NoDup l →
  ∃ h, clear_handlers d l n s =
    ((n + length (filter (λ virq, global_virq_handlers s !! virq = Some d) l))%nat, set_handlers (λ _, h) s) ∧
    ∀ virq, h !! virq = if decide (virq ∈ l ∧ global_virq_handlers s !! virq = Some d) then None
                        else global_virq_handlers s !! virq.
Proof.
  intros Hnd. revert n s. induction Hnd as [|virq l Hni Hnd IH]; intros n s; simpl.
  { exists (global_virq_handlers s). rewrite Nat.add_0_r. split; [by destruct s|]. intros virq.
    done. }
  case_bool_decide as Hv.
  - rewrite filter_cons_True by done. destruct (IH (S n) (set_handlers (delete virq) s)) as (h & -> & Hh).
    exists h. split.
    + f_equal. simpl. rewrite Nat.add_succ_r. f_equal. f_equal. f_equal. f_equal. apply filter_ext_in.
      intros v Hv'. simpl. rewrite lookup_delete_ne; [done|]. by intros ->.
    + intros v. rewrite Hh. simpl. destruct (decide (v = virq)) as [->|Hne].
      * rewrite lookup_delete_eq. destruct (decide (virq ∈ l ∧ None = Some d)); (rewrite decide_True; [done|]; split; [set_solver|done]).
      * rewrite lookup_delete_ne by done. apply decide_ext; set_solver.
  - rewrite filter_cons_False by done. destruct (IH n s) as (h & -> & Hh). exists h. split; [done|].
    intros v. rewrite Hh. apply decide_ext; set_solver.
Qed.

(** The virtual IRQs whose handler is [d]. *)
Definition handled_by (d : positive) (s : xstate) : list Z :=
  filter (λ virq, global_virq_handlers s !! virq = Some d) (seqZ 0 NR_VIRQS).

Lemma clear_global_virq_handlers_spec d s :
  xinv s → is_Some (doms s !! d) →
  ∃ h s', clear_global_virq_handlers d s = Ok s' ∧ quiet (set_handlers (λ _, h) s) s' ∧ step_ok s s' ∧
    (∀ virq, 0 ≤ virq < NR_VIRQS → global_virq_handlers s' !! virq ≠ Some d) ∧
    ∀ d', refcnt <$> doms s' !! d' =
      (λ D, refcnt D - (if decide (d' = d) then Z.of_nat (length (handled_by d s)) else 0)) <$> doms s !! d'.
Proof.
  intros Hinv Hd. unfold clear_global_virq_handlers.
  destruct (clear_handlers_spec d (seqZ 0 NR_VIRQS) 0 s) as (h & -> & Hh); [apply NoDup_seqZ|]. simpl.
  destruct (put_times_spec d (length (handled_by d s)) (set_handlers (λ _, h) s)) as (s' & Hput & Hq & Href); [done|].
  assert (Hst : step_ok s (set_handlers (λ _, h) s)).
  { apply set_handlers_step; [done|]. intros virq d'. rewrite Hh. case_decide; [done|].
    apply (xb_handlers _ (xi_base _ Hinv)). }
  exists h, s'. split; [exact Hput|]. split; [done|]. split.
  { eapply step_ok_trans; [done|]. apply step_ok_quiet; [apply Hst|done]. }
  split; [|exact Href]. intros virq Hv. rewrite (qu_handlers _ _ Hq). simpl. rewrite Hh.
  case_decide as Hc; [done|]. intros Heq. apply Hc. split; [|done]. apply elem_of_seqZ. lia.
Qed.

Lemma set_global_virq_handler_spec d virq s :
  xinv s → is_Some (doms s !! d) → 0 ≤ virq →
  ∃ rc s', set_global_virq_handler d virq s = Ok (rc, s') ∧ step_ok s s' ∧
    (rc = 0 → global_virq_handlers s' !! virq = Some d) ∧ (rc ≠ 0 → rc = - EINVAL ∧ s' = s).
Proof.
  intros Hinv [D HD] Hv. unfold set_global_virq_handler. pose proof (step_ok_refl s Hinv) as Href.
  assert (Herr : ∃ rc s', Ok (- EINVAL, s) = Ok (rc, s') ∧ step_ok s s' ∧
    (rc = 0 → global_virq_handlers s' !! virq = Some d) ∧ (rc ≠ 0 → rc = - EINVAL ∧ s' = s)) by by eexists _, _.
  destruct (Z.leb_spec NR_VIRQS virq); [done|]. rewrite virq_is_global_spec by lia. cbn [mbind outcome_bind].
  destruct (is_global virq); cbn [negb]; [|done]. case_bool_decide as Hh; [by eexists _, _|].
  rewrite (get_domain_spec _ _ _ HD). cbn [mbind outcome_bind]. destruct (destroyed D); [done|].
  set (s1 := upd_dom d _ s). assert (Hst1 : step_ok s s1) by (apply step_ok_quiet; [done|apply quiet_set_refcnt]).
  assert (Hst2 : step_ok s (set_handlers (<[virq := d]>) s1)).
  { eapply step_ok_trans; [done|]. apply set_handlers_step; [apply Hst1|]. intros virq' d'.
    rewrite lookup_insert_Some. intros [[_ <-]|[_ Hd']]; [apply (so_doms _ _ Hst1); eauto|].
    by apply (xb_handlers _ (xi_base _ (so_inv _ _ Hst1)) virq'). }
  destruct (global_virq_handlers s1 !! virq) as [o|] eqn:Ho.
  - destruct (put_domain_spec o (set_handlers (<[virq := d]>) s1)) as (s3 & -> & Hq).
    { apply (so_doms _ _ Hst2). by apply (xb_handlers _ (xi_base _ Hinv) virq). }
    cbn [mbind outcome_bind]. eexists _, _. split; [done|]. split; [|split; [|done]].
    + eapply step_ok_trans; [done|]. apply step_ok_quiet; [apply Hst2|done].
    + intros _. rewrite (qu_handlers _ _ Hq). simpl. by rewrite lookup_insert_eq.
  - eexists _, _. split; [done|]. split; [done|]. split; [|done]. intros _. simpl. by rewrite lookup_insert_eq.
Qed.

(** The whole of [evtchn_destroy]: no port and no handler of [d] is left, and
    no channel of another domain points to it. *)
Lemma evtchn_destroy_spec E d s D :
  env_ok E → calm E d → xinv s → doms s !! d = Some D → is_dying D = true →
  ∃ s', evtchn_destroy E d s = Ok s' ∧ step_ok s s' ∧
    (∀ p, chan_at s' d p = None) ∧
    (∀ d' p e q, chan_at s' d' p = Some e → e_state e ≠ ECS_INTERDOMAIN d q) ∧
    (∀ virq, 0 ≤ virq < NR_VIRQS → global_virq_handlers s' !! virq ≠ Some d).
Proof.
  intros HE Hca Hinv HD Hdy. unfold evtchn_destroy. rewrite HD. cbn [deref]. rewrite Hdy. cbn [negb BUG_ON].
  destruct (destroy_loop_closes E d s HE Hca Hinv) as (s1 & -> & Hst1 & Hdy1 & Hun1); [eauto|].
  cbn [mbind outcome_bind]. destruct (so_doms _ _ Hst1 d) as [D1 HD1]; [eauto|].
  rewrite HD1, HD in Hdy1. simpl in Hdy1. injection Hdy1 as Hdy1. rewrite Hdy in Hdy1.
  assert (Hst2 : step_ok s1 (upd_dom d (set_buckets (λ _, ∅)) s1)).
  { eapply drop_buckets; [apply Hst1|done|done|]. intros p e He. apply (Hun1 p).
    by rewrite (chan_at_dom _ _ _ _ HD1). }
  set (s2 := upd_dom d _ s1) in *.
  destruct (clear_global_virq_handlers_spec d s2) as (h & s' & -> & Hq & Hst3 & Hh & _);
    [apply Hst2|apply (so_doms _ _ Hst2); eauto|].
  assert (Hnone : ∀ p, chan_at s' d p = None).
  { intros p. rewrite (quiet_chan _ _ _ _ Hq). change (chan_at s2 d p = None).
    unfold s2. rewrite (chan_at_dom _ _ _ _ (doms_upd_same _ _ _ _ HD1)). apply no_chan. }
  exists s'. split; [done|]. split; [by eapply step_ok_trans, step_ok_trans|]. split; [done|]. split; [|done].
  intros d' p e q He Hs. destruct (xi_pair _ (so_inv _ _ Hst3) _ _ _ _ _ He Hs) as (e2 & He2 & _).
  by rewrite Hnone in He2.
Qed.
