(* ===== verification/EvtChnSend.v ===== *)
(** * Delivery of events (xen/common/event_channel.c: [evtchn_set_pending])

    What setting a port pending does to the shared bitmaps, to the target
    vcpu's selector and to the vcpus that poll; the virtual and physical
    interrupts, which are delivered to the port bound to them. *)

From S2P Require Import Prelude EvtChn EvtChnInv EvtChnOps EvtChnPirq EvtChnClose EvtChnLife.
Local Open Scope xen_scope.

(** ** Pollers *)

(** The vcpu polls for [port] or for any port. *)
Definition wakes (port : Z) (D : domain) (v : Z) : bool :=
  bool_decide (v ∈ poll_mask D) &&
  match vcpus D !! v with
  | Some V => (poll_evtchn V <=? 0) || (poll_evtchn V =? port)
  | None => false
  end.

(** What waking the pollers among [ids] makes of the domain. *)
Record woken (port : Z) (ids : list Z) (D D' : domain) : Prop := {
  wk_rest : D' = set_vcpus (λ _, vcpus D') (set_poll_mask (λ _, poll_mask D') D);
  wk_mask v : v ∈ poll_mask D' ↔ v ∈ poll_mask D ∧ ¬ (v ∈ ids ∧ wakes port D v = true);
  wk_vcpu v : vcpus D' !! v =
    (if bool_decide (v ∈ ids) && wakes port D v then set_poll 0 else id) <$> vcpus D !! v;
}.

Lemma woken_nil port D : woken port [] D D.
Proof.
  split; [by destruct D|set_solver|]. intros v. rewrite bool_decide_eq_false_2 by set_solver. simpl.
  by destruct (vcpus D !! v).
Qed.

Lemma woken_none port ids D : (∀ v, v ∈ ids → wakes port D v = false) → woken port ids D D.
Proof.
  intros Hn. split; [by destruct D| |].
  - intros v. split; [|tauto]. intros Hv. split; [done|]. intros [Hi Hw]. rewrite Hn in Hw; done.
  - intros v. case_bool_decide as Hv; simpl; [rewrite (Hn v Hv)|]; by destruct (vcpus D !! v).
Qed.

Definition wake1 (port : Z) (D : domain) (v : Z) : domain :=
  if wakes port D v then set_vcpus (alter (set_poll 0) v) (set_poll_mask (λ m, m ∖ {[ v ]}) D) else D.

(** [s'] is [s] but for domain [d], now [D'], and the calls [l]. *)
Record only_dom (d : positive) (D' : domain) (l : list hook) (s s' : xstate) : Prop := {
  od_doms d' : doms s' !! d' = if decide (d' = d) then Some D' else doms s !! d';
  od_hooks : hooks s' = l ++ hooks s;
  od_rest : s' = mk_xstate (doms s') (domain_hash s) (xen_consumers s) (global_virq_handlers s) (dom0 s) (hooks s');
}.

Lemma only_dom_refl d D s : doms s !! d = Some D → only_dom d D [] s s.
Proof. intros HD. split; [|done|by destruct s]. intros d'. case_decide; congruence. Qed.

Lemma only_dom_trans d D1 D2 l1 l2 s1 s2 s3 :
  only_dom d D1 l1 s1 s2 → only_dom d D2 l2 s2 s3 → only_dom d D2 (l2 ++ l1) s1 s3.
Proof.
  intros [A1 A2 A3] [B1 B2 B3]. split.
  - intros d'. rewrite B1, A1. by case_decide.
  - by rewrite B2, A2, app_assoc.
  - rewrite B3. simpl. rewrite A3. done.
Qed.

Lemma wake_poller_exact d port v s D :
  doms s !! d = Some D → (v ∈ poll_mask D → is_Some (vcpus D !! v)) →
  ∃ s', wake_poller d port v s = Ok s' ∧
    only_dom d (wake1 port D v) (if wakes port D v then [Vcpu_unblock d v] else []) s s'.
Proof.
  intros HD HV. unfold wake_poller, wake1, wakes. rewrite HD. cbn [deref].
  pose proof (only_dom_refl d D s HD) as Hs.
  case_bool_decide as Hm; simpl; [|by exists s]. destruct (HV Hm) as [V HVs]. rewrite HVs. cbn [deref].
  destruct ((poll_evtchn V <=? 0) || (poll_evtchn V =? port)); [|by exists s].
  eexists. split; [done|]. split; [|done|done]. intros d'. simpl. destruct (decide (d' = d)) as [->|Hne].
  - by rewrite !lookup_alter_eq, HD.
  - by rewrite !lookup_alter_ne.
Qed.

Lemma wakes_other port D v u : u ≠ v → wakes port (wake1 port D v) u = wakes port D u.
Proof.
  intros Hne. unfold wake1. case_match; [|done]. unfold wakes. simpl. rewrite lookup_alter_ne by done.
  f_equal. apply bool_decide_ext. set_solver.
Qed.

Lemma woken_cons port v ids D D' :
  v ∉ ids → woken port ids (wake1 port D v) D' → woken port (v :: ids) D D'.
Proof.
  intros Hv [H1 H2 H3]. split.
  - rewrite H1. unfold wake1. case_match; by destruct D.
  - intros u. rewrite H2. destruct (decide (u = v)) as [->|Hne].
    + unfold wake1. destruct (wakes port D v) eqn:Hw; simpl; set_solver.
    + rewrite wakes_other by done. unfold wake1. case_match; simpl; set_solver.
  - intros u. rewrite H3. destruct (decide (u = v)) as [->|Hne].
    + rewrite (bool_decide_eq_false_2 (v ∈ ids)), (bool_decide_eq_true_2 (v ∈ v :: ids)) by set_solver. simpl.
      unfold wake1. case_match; simpl; [rewrite lookup_alter_eq|]; by destruct (vcpus D !! v).
    + rewrite wakes_other by done. rewrite (bool_decide_ext (u ∈ v :: ids) (u ∈ ids)) by set_solver.
      f_equal. unfold wake1. case_match; simpl; [by rewrite lookup_alter_ne|done].
Qed.

Lemma wake_pollers_exact d port ids s D :
  doms s !! d = Some D → NoDup ids → (∀ v, v ∈ ids → v ∈ poll_mask D → is_Some (vcpus D !! v)) →
  ∃ D' s', wake_pollers d port ids s = Ok s' ∧ woken port ids D D' ∧
    only_dom d D' (rev (Vcpu_unblock d <$> filter (λ v, wakes port D v = true) ids)) s s'.
Proof.
  intros HD Hnd. revert s D HD. induction Hnd as [|v ids Hni Hnd IH]; intros s D HD HV; simpl.
  { exists D, s. split; [done|]. split; [apply woken_nil|]. by apply only_dom_refl. }
  destruct (wake_poller_exact d port v s D HD) as (s1 & -> & Ho1); [apply HV; set_solver|]. cbn [mbind outcome_bind].
  destruct (IH s1 (wake1 port D v)) as (D' & s' & -> & Hw & Ho).
  - by rewrite (od_doms _ _ _ _ _ Ho1), decide_True.
  - intros u Hu Hm. unfold wake1 in *. destruct (wakes port D v); simpl in *; [|apply HV; set_solver].
    rewrite lookup_alter_is_Some. apply HV; set_solver.
  - exists D', s'. split; [done|]. split; [by apply woken_cons|].
    rewrite (filter_ext_in _ (λ u, wakes port D u = true) ids) in Ho by (intros u ?; rewrite wakes_other; set_solver).
    pose proof (only_dom_trans _ _ _ _ _ _ _ _ Ho1 Ho) as Ht.
    destruct (wakes port D v) eqn:Hv;
      [rewrite filter_cons_True by done|rewrite filter_cons_False by congruence]; [done|by rewrite app_nil_r in Ht].
Qed.

(** ** [evtchn_set_pending] *)

(** The bitmaps and the selector before the pollers are looked at. *)
Definition mark_pending (v port : Z) (D : domain) : domain :=
  let D1 := set_pending ({[ port ]} ∪.) D in
  if bool_decide (port ∈ evtchn_mask D) then D1
  else set_vcpus (alter (set_sel ({[ port / BITS_PER_EVTCHN_WORD D ]} ∪.)) v) D1.

(** Did the vcpu have to be told? *)
Definition tells (v port : Z) (D : domain) (V : vcpu) : bool :=
  negb (bool_decide (port ∈ evtchn_mask D)) &&
  negb (bool_decide (port / BITS_PER_EVTCHN_WORD D ∈ evtchn_pending_sel V)).

Lemma set_sel_id w V : w ∈ evtchn_pending_sel V → set_sel ({[ w ]} ∪.) V = V.
Proof. intros Hw. unfold set_sel. rewrite subseteq_union_1_L by set_solver. by destruct V. Qed.

Lemma mark_pending_spec d v port s D V :
  doms s !! d = Some D → vcpus D !! v = Some V →
  let s1 := upd_dom d (set_pending ({[ port ]} ∪.)) s in
  only_dom d (mark_pending v port D) (if tells v port D V then [Vcpu_mark_events_pending d v] else []) s
    (if bool_decide (port ∈ evtchn_mask D) then s1 else mark_sel d v port D V s1).
Proof.
  intros HD HV s1. unfold mark_pending, tells. case_bool_decide as Hm; simpl.
  - split; [|done|done]. intros d'. simpl. destruct (decide (d' = d)) as [->|Hne];
      [by rewrite lookup_alter_eq, HD|by rewrite lookup_alter_ne].
  - unfold mark_sel. case_bool_decide as Hw; simpl; (split; [|done|done]); intros d'; simpl;
      (destruct (decide (d' = d)) as [->|Hne]; [|by rewrite ?lookup_alter_ne]);
      rewrite !lookup_alter_eq, HD; simpl; f_equal.
    unfold set_vcpus, set_pending. simpl. f_equal. symmetry. apply alter_id. intros V' HV'.
    assert (V' = V) as -> by congruence. by apply set_sel_id.
Qed.

Lemma set_pending_exact d v port s D V :
  xinv s → doms s !! d = Some D → vcpus D !! v = Some V → port ∉ evtchn_pending D →
  ∃ D' s', evtchn_set_pending d v port s = Ok s' ∧
    woken port (seqZ 0 (max_vcpus D)) (mark_pending v port D) D' ∧
    only_dom d D'
      (rev (Vcpu_unblock d <$> filter (λ u, wakes port D u = true) (seqZ 0 (max_vcpus D))) ++
       if tells v port D V then [Vcpu_mark_events_pending d v] else []) s s'.
Proof.
  intros Hinv HD HV Hp. unfold evtchn_set_pending. rewrite HD. cbn [deref]. rewrite HV. cbn [deref].
  rewrite bool_decide_eq_false_2 by done. pose proof (mark_pending_spec d v port s D V HD HV) as Hm. simpl in Hm.
  set (s2 := if bool_decide (port ∈ evtchn_mask D) then _ else _) in *. set (D1 := mark_pending v port D) in *.
  assert (Hpoll : poll_mask D1 = poll_mask D) by (unfold D1, mark_pending; by destruct (bool_decide _)).
  assert (Hwk : ∀ u, wakes port D1 u = wakes port D u).
  { intros u. unfold wakes. rewrite Hpoll. f_equal. unfold D1, mark_pending. case_bool_decide; [done|]. simpl.
    rewrite lookup_alter. case_decide as Hu; [|done]. rewrite <- Hu. by destruct (vcpus D !! v). }
  assert (HD2 : doms s2 !! d = Some D1) by by rewrite (od_doms _ _ _ _ _ Hm), decide_True.
  rewrite (filter_ext_in _ (λ u, wakes port D1 u = true)) by (intros; by rewrite Hwk).
  destruct (bitmap_empty (poll_mask D) (max_vcpus D)) eqn:Hbm.
  - assert (Hno : ∀ u, u ∈ seqZ 0 (max_vcpus D) → wakes port D1 u = false).
    { intros u Hu. unfold bitmap_empty in Hbm. rewrite forallb_forall in Hbm.
      specialize (Hbm u (proj1 (list_elem_of_In _ _) Hu)). apply bool_decide_eq_true in Hbm.
      unfold wakes. by rewrite Hpoll, bool_decide_eq_false_2. }
    exists D1, s2. split; [done|]. split; [by apply woken_none|].
    replace (filter _ (seqZ 0 (max_vcpus D))) with (@nil Z); [done|].
    symmetry. apply elem_of_nil_inv. intros u [Hw Hu]%list_elem_of_filter. rewrite Hno in Hw; done.
  - destruct (wake_pollers_exact d port (seqZ 0 (max_vcpus D)) s2 D1 HD2) as (D' & s' & -> & Hw & Ho).
    + apply NoDup_seqZ.
    + intros u Hu. rewrite Hpoll. intros Hm'. apply elem_of_seqZ in Hu.
      destruct (pw_poll _ (dw_ports _ (xb_dom _ (xi_base _ Hinv) _ _ HD)) u Hm') as [U HU]; [lia|].
      unfold D1, mark_pending. case_bool_decide; simpl; [eauto|]. rewrite lookup_alter_is_Some. eauto.
    + exists D', s'. split; [done|]. split; [done|]. by eapply only_dom_trans.
Qed.

Lemma mark_pending_fields v port D :
  evtchn_pending (mark_pending v port D) = {[ port ]} ∪ evtchn_pending D ∧
  poll_mask (mark_pending v port D) = poll_mask D ∧ evtchn_mask (mark_pending v port D) = evtchn_mask D.
Proof. unfold mark_pending. by destruct (bool_decide _). Qed.

(** The port is pending afterwards and no other pending bit changes. *)
Lemma set_pending_in d v port s D s' :
  xinv s → doms s !! d = Some D → is_Some (vcpus D !! v) → evtchn_set_pending d v port s = Ok s' →
  ∃ D', doms s' !! d = Some D' ∧ evtchn_pending D' = {[ port ]} ∪ evtchn_pending D.
Proof.
  intros Hinv HD [V HV] Hs. destruct (decide (port ∈ evtchn_pending D)) as [Hp|Hp].
  - unfold evtchn_set_pending in Hs. rewrite HD in Hs. cbn [deref] in Hs. rewrite HV in Hs. cbn [deref] in Hs.
    rewrite bool_decide_eq_true_2 in Hs by done. injection Hs as <-. exists D. split; [done|].
    by rewrite subseteq_union_1_L by set_solver.
  - destruct (set_pending_exact d v port s D V Hinv HD HV Hp) as (D' & s1 & Hs1 & Hw & Ho).
    assert (s' = s1) as -> by congruence. exists D'. rewrite (od_doms _ _ _ _ _ Ho), decide_True by done.
    split; [done|]. rewrite (wk_rest _ _ _ _ Hw). simpl. apply mark_pending_fields.
Qed.

(** ** Interrupts *)

Lemma virq_port_chan s d D v V virq :
  xinv s → doms s !! d = Some D → vcpus D !! v = Some V → virq_port V virq ≠ 0 →
  ∃ e, chan_at s d (virq_port V virq) = Some e ∧ e_state e = ECS_VIRQ virq ∧
       (is_global virq = false → notify_vcpu_id e = v).
Proof.
  intros Hinv HD HV Hp. destruct (vw_port _ (dw_virq _ (xb_dom _ (xi_base _ Hinv) _ _ HD)) v V virq HV Hp)
    as (_ & _ & e & He & Hs & Hn). exists e. by rewrite (chan_at_dom _ _ _ _ HD).
Qed.

(** ** [evtchn_move_pirqs] *)

Definition irq_of (D : domain) (p irq : Z) : Prop :=
  ∃ e n pr, chan_of D p = Some e ∧ e_state e = ECS_PIRQ irq n pr.

Definition logs (l : list hook) (s : xstate) : xstate := foldl (λ s h, log h s) s l.

Lemma move_pirqs_loop_spec d D mask l : ∀ n prev port s,
  doms s !! d = Some D → pirq_chain D prev port l 0 → (length l < n)%nat →
  ∃ irqs, Forall2 (irq_of D) l irqs ∧
    move_pirqs_loop n d mask port s = Ok (logs ((λ irq, Pirq_set_affinity d irq mask) <$> irqs) s).
Proof.
  induction l as [|p l IH]; intros [|n] prev port s HD Hc Hn; simpl in *; try lia.
  { subst port. exists []. by split. }
  destruct Hc as (-> & Hnz & e & irq & next & He & Hs & Hc). destruct (Z.eqb_spec p 0) as [|_]; [done|].
  rewrite HD. cbn [deref]. apply chan_of_Some in He as [Hv Hf]. rewrite Hf. cbn [deref]. rewrite Hs.
  destruct (IH n p next (log (Pirq_set_affinity d irq mask) s)) as (irqs & Hall & ->); [done|done|lia|].
  exists (irq :: irqs). split; [|done]. constructor; [|done]. exists e, next, prev. by rewrite chan_of_Some.
Qed.

Lemma port_list_short (D : domain) (l : list Z) :
  NoDup l → (∀ p, p ∈ l → ∃ e, chan_of D p = Some e) → (length l ≤ 4096)%nat.
Proof.
  intros Hnd Hl. transitivity (length (seqZ 0 4096)); [|by rewrite length_seqZ].
  apply submseteq_length, NoDup_submseteq; [done|]. intros p Hp. destruct (Hl p Hp) as [e He].
  apply chan_of_valid, port_is_valid_spec in He as [? _]. apply elem_of_seqZ.
  destruct (MAX_EVTCHNS_cases D); lia.
Qed.
