(* ===== verification/EvtChnProps.v ===== *)
(** * Properties of event channels (xen/common/event_channel.c)

    The hypercall is safe in every state of the invariant; what closing,
    connecting, sending, resetting and destroying do; where interrupts go. The
    witnesses start from two booted domains. *)

From S2P Require Import Prelude EvtChn EvtChnInv EvtChnOps EvtChnPirq EvtChnClose EvtChnLife EvtChnSend.
Local Open Scope xen_scope.

(** ** Two booted domains *)

Definition boot_vcpu : vcpu := mk_vcpu ∅ 0 0 ∅ false 0.
Definition boot_bucket : list evtchn := mk_evtchn ECS_RESERVED 0 0 :: replicate 127 free_evtchn.

Definition boot_dom (id : Z) (priv dying : bool) : domain :=
  mk_domain id dying false priv None false 1 {[ 0 := boot_vcpu ]} {[ 0 := boot_bucket ]} 64
    ∅ ∅ ∅ ∅ 1 false.

Definition boot (dying : bool) : xstate :=
  mk_xstate {[ 1%positive := boot_dom 0 true false; 2%positive := boot_dom 1 false dying ]}
    {[ 0 := 1%positive; 1 := 2%positive ]} (replicate 8 0) ∅ (Some 1%positive) [].

Definition boot_env : env :=
  mk_env (λ _ _, true) (λ _ _ _, 0) (λ _ _ _ _, 0) (λ _ _ _ _ _, 0) (λ _ _ _, 0) (λ _ _ _, 0) (λ _ _ _, 0)
    (λ _ _ _, true) (λ _ _ _, true) (λ _ _ _ _ _, 0) (λ _ _ _, false) (λ _ _ _ _ s, s) (λ s, s).

Lemma boot_env_ok : env_ok boot_env.
Proof. split; intros; by apply step_ok_refl. Qed.

Lemma boot_env_calm d : calm boot_env d.
Proof. split; [|done]. intros s p _. simpl. destruct (chan_at s d p); constructor. split; [done|]. congruence. Qed.

Lemma boot_bucket_lookup n e :
  boot_bucket !! n = Some e → (n = 0%nat ∧ e = mk_evtchn ECS_RESERVED 0 0) ∨ (n ≠ 0%nat ∧ e = free_evtchn).
Proof.
  destruct n as [|n]; [intros [= <-]; by left|]. intros H. right.
  change (replicate 127 free_evtchn !! n = Some e) in H. apply lookup_replicate in H as [-> _]. done.
Qed.

Lemma boot_chan id priv dying p e :
  chan_of (boot_dom id priv dying) p = Some e →
  (p = 0 ∧ e = mk_evtchn ECS_RESERVED 0 0) ∨ (p ≠ 0 ∧ e = free_evtchn).
Proof.
  intros [Hv He]%chan_of_Some. apply port_is_valid_spec in Hv as [_ [b Hb]]. simpl in Hb.
  apply lookup_singleton_Some in Hb as [Hp _]. unfold evtchn_from_port, bucket_from_port, EVTCHNS_PER_BUCKET in He.
  simpl in He. rewrite <- Hp in He. cbn in He. pose proof (slot_mod p) as Hs.
  pose proof (Z.div_mod p 128 ltac:(lia)). destruct (boot_bucket_lookup _ _ He) as [[? ->]|[? ->]]; [left|right]; (split; [lia|done]).
Qed.

Lemma boot_dom_wf id priv dying : dom_wf (boot_dom id priv dying).
Proof.
  pose proof (boot_chan id priv dying) as Hch.
  assert (HV : ∀ v V, vcpus (boot_dom id priv dying) !! v = Some V → v = 0 ∧ V = boot_vcpu).
  { intros v V HV. simpl in HV. by apply lookup_singleton_Some in HV as [<- <-]. }
  split; split; try done.
  - intros k b H. simpl in H. apply lookup_singleton_Some in H as [<- <-]. done.
  - intros k j [b H] Hj. simpl in H. apply lookup_singleton_Some in H as [<- <-]. lia.
  - intros _. eexists. split; [vm_compute; reflexivity|done].
  - intros p e He Hs. by destruct (Hch _ _ He) as [[-> ->]|[_ ->]].
  - intros p e He Hs. by destruct (Hch _ _ He) as [[-> ->]|[_ ->]].
  - intros p e He Hs. by destruct (Hch _ _ He) as [[-> ->]|[_ ->]].
  - intros p e He. by destruct (Hch _ _ He) as [[-> ->]|[_ ->]].
  - intros v [V [-> _]%HV]. done.
  - intros v V virq [-> ->]%HV Hp. done.
  - intros p e virq He Hs. by destruct (Hch _ _ He) as [[-> ->]|[_ ->]].
  - intros p e irq n pr He Hs. by destruct (Hch _ _ He) as [[-> ->]|[_ ->]].
  - intros v V [-> ->]%HV. exists []. split; [constructor|]. split; [done|]. intros p. split; [set_solver|].
    intros (e & irq & n & pr & He & Hs & _). by destruct (Hch _ _ He) as [[-> ->]|[_ ->]].
Qed.

Lemma boot_doms dying d D :
  doms (boot dying) !! d = Some D → (d = 1%positive ∧ D = boot_dom 0 true false) ∨ (d = 2%positive ∧ D = boot_dom 1 false dying).
Proof.
  simpl. rewrite lookup_insert_Some, lookup_singleton_Some. intros [[<- <-]|[_ [<- <-]]]; auto.
Qed.

Lemma boot_inv dying : xinv (boot dying).
Proof.
  assert (Hch : ∀ d p e, chan_at (boot dying) d p = Some e → xen_consumer e = 0 ∧ not_inter (e_state e)).
  { intros d p e He. destruct (chan_at_Some _ _ _ _ He) as (D & HD & Hc).
    destruct (boot_doms _ _ _ HD) as [[-> ->]|[-> ->]]; destruct (boot_chan _ _ _ _ _ Hc) as [[-> ->]|[_ ->]]; done. }
  split; [split|].
  - intros d D HD. destruct (boot_doms _ _ _ HD) as [[-> ->]|[-> ->]]; apply boot_dom_wf.
  - intros id d Hh. simpl in Hh. rewrite lookup_insert_Some, lookup_singleton_Some in Hh.
    destruct Hh as [[<- <-]|[_ [<- <-]]]; eexists; (split; [vm_compute; reflexivity|done]).
  - done.
  - intros d p e He Hc. by apply Hch in He as [? _].
  - intros virq d Hh. simpl in Hh. by rewrite lookup_empty in Hh.
  - intros d [= <-]. eexists. vm_compute. reflexivity.
  - intros d p e d2 p2 He Hs. apply Hch in He as [_ Hn]. by apply Hn in Hs.
Qed.

(** The state of a successful operation. *)
Definition state_of (r : outcome (Z * Z * xstate)) (s : xstate) : xstate :=
  match r with Ok (_, _, s') => s' | Bug => s end.

(** Domain 1 offers its port 1 to domain 0. *)
Definition offered : xstate := state_of (evtchn_alloc_unbound boot_env 2 DOMID_SELF 0 (boot false)) (boot false).

(** Domain 0 binds to it. *)
Definition connected : xstate := state_of (evtchn_bind_interdomain boot_env 1 1 1 offered) offered.

Lemma offered_inv : xinv offered.
Proof.
  unfold offered. destruct (evtchn_alloc_unbound_spec boot_env 2 DOMID_SELF 0 (boot false))
    as (rc & p & s' & -> & Hst); [apply boot_inv|by eexists|]. apply Hst.
Qed.

Lemma connected_inv : xinv connected.
Proof.
  assert (Hd : is_Some (doms offered !! 1%positive)) by (vm_compute; by eexists). destruct Hd as [D HD].
  unfold connected. destruct (evtchn_bind_interdomain_spec boot_env 1 1 1 offered D)
    as (rc & p & s' & -> & Hst & _); [apply offered_inv|done|]. apply Hst.
Qed.

(** ** The hypercall *)

(** C13: In every state of the invariant, whatever command and argument the guest
    passes and whatever the security module, the allocator and the guest memory
    accesses answer, [do_event_channel_op] returns: no [BUG_ON] fires and no
    invalid port, vcpu or domain pointer is followed. The state it leaves
    satisfies the invariant again, and no domain disappears. *)
Theorem do_event_channel_op_safe E cur op from_ok to_ok s :
  env_ok E → xinv s → is_Some (doms s !! cur) →
  ∃ rc out s', do_event_channel_op E cur op from_ok to_ok s = Ok (rc, out, s') ∧ step_ok s s'.
Proof.
  intros HE Hinv Hcur. pose proof (step_ok_refl s Hinv) as Href. pose proof Hcur as [D HD].
  assert (Hcb : ∀ (r : outcome (Z * Z * xstate)),
    (∃ rc p s', r = Ok (rc, p, s') ∧ step_ok s s') →
    ∃ rc out s', (let! r := r in Ok (copy_back to_ok r)) = Ok (rc, out, s') ∧ step_ok s s').
  { intros r (rc & p & s' & -> & Hst). cbn [mbind outcome_bind]. unfold copy_back.
    destruct (rc =? 0), to_ok; eauto. }
  assert (Hpl : ∀ (r : outcome (Z * xstate)),
    (∃ rc s', r = Ok (rc, s') ∧ step_ok s s') →
    ∃ rc out s', (let! (rc, s1) := r in Ok (rc, No_out, s1)) = Ok (rc, out, s') ∧ step_ok s s').
  { intros r (rc & s' & -> & Hst). eauto. }
  unfold do_event_channel_op. destruct op; destruct from_ok; cbn [negb]; eauto.
  - apply Hcb. by apply evtchn_alloc_unbound_spec.
  - apply Hcb. destruct (evtchn_bind_interdomain_spec E cur remote_dom remote_port s D) as (? & ? & ? & ? & ? & _); eauto.
  - apply Hcb. by apply evtchn_bind_virq_spec.
  - apply Hcb. by apply evtchn_bind_ipi_spec.
  - apply Hcb. by apply evtchn_bind_pirq_spec.
  - apply Hpl. by apply __evtchn_close_spec.
  - apply Hpl. by apply evtchn_send_spec.
  - destruct (evtchn_status_spec E cur dom port s Hinv Hcur) as (rc & st & ->). cbn [mbind outcome_bind].
    destruct st as [[st v]|]; [destruct to_ok|]; eauto.
  - apply Hpl. by apply evtchn_bind_vcpu_spec.
  - apply Hpl. by apply evtchn_unmask_spec.
  - apply Hpl. by apply evtchn_reset_spec.
Qed.

(** A reset of domain 1 by domain 0 with a channel between them. *)
Lemma do_event_channel_op_safe_witness :
  ∃ rc out s', do_event_channel_op boot_env 1 (EVTCHNOP_reset 1) true true connected = Ok (rc, out, s') ∧
               xinv s'.
Proof.
  destruct (do_event_channel_op_safe boot_env 1 (EVTCHNOP_reset 1) true true connected)
    as (rc & out & s' & Heq & Hst);
    [apply boot_env_ok|apply connected_inv|vm_compute; by eexists|].
  exists rc, out, s'. split; [exact Heq|apply Hst].
Defined.

(** ** Closing *)

(** C14: [__evtchn_close], on the assumption that no other CPU changes anything
    while it drops the locks between its two passes: a port in use that is not
    Xen's is closed with result 0. The port is then free; its pending bit is
    cleared and no other pending bit of any domain changes; its peer, if it has
    one, is left unbound and accepts only the domain that closed; every other
    channel is as it was, except that a PIRQ channel may have new links in its
    vcpu's list; every domain keeps its id, its dying and destroyed flags, its
    ABI, its event mask and its reference count. Any other port is refused with
    -EINVAL and the state is exactly what it was. *)
Theorem evtchn_close_correct E d p s D :
  env_ok E → (∀ s, interference E s = s) → xinv s → doms s !! d = Some D →
  ∃ rc s', __evtchn_close E d p s = Ok (rc, s') ∧ xinv s' ∧ skept s s' ∧
    (closable s d p ∧ rc = 0 ∧ closed_effect d p (domain_id D) s s' ∨
     ¬ closable s d p ∧ rc = - EINVAL ∧ s' = s).
Proof.
  intros HE HI Hinv HD. destruct (__evtchn_close_run E d p s HE Hinv) as (rc & s' & -> & Hrun); [eauto|].
  exists rc, s'. split; [done|]. split; [by eapply so_inv, close_run_step|].
  destruct (close_run_exact E d p s rc s' D HI Hinv HD Hrun) as (Hk & [[-> Hce]|(-> & Hn & Hch)]); (split; [done|]).
  - left. split; [apply Hce|done].
  - by right.
Qed.

(** Domain 0 closes its end of the channel. *)
Lemma evtchn_close_correct_witness :
  ∃ s', __evtchn_close boot_env 1 1 connected = Ok (0, s') ∧
        chan_at s' 1 1 = Some free_evtchn ∧ chan_at s' 2 1 = Some (mk_evtchn (ECS_UNBOUND 0) 0 0).
Proof.
  assert (Hd : ∃ D, doms connected !! 1%positive = Some D ∧ domain_id D = 0) by (vm_compute; by eexists).
  destruct Hd as (D & HD & Hid).
  destruct (evtchn_close_correct boot_env 1 1 connected D) as (rc & s' & Heq & _ & _ & Hor);
    [apply boot_env_ok|done|apply connected_inv|done|].
  assert (Hcl : closable connected 1 1) by (eexists; split; [vm_compute; reflexivity|done]).
  destruct Hor as [(_ & -> & Hce)|(Hn & _)]; [|done]. exists s'. split; [exact Heq|].
  split; [apply Hce|]. assert (He : chan_at connected 2 1 = Some (mk_evtchn (ECS_INTERDOMAIN 1 1) 0 0)) by (vm_compute; reflexivity).
  pose proof (ce_other _ _ _ _ _ Hce 2%positive 1) as Ho. rewrite He in Ho. specialize (Ho ltac:(done)).
  inversion Ho as [? e' Ha|]; subst. unfold after_close in Ha. rewrite decide_True in Ha by done. by rewrite Ha, Hid.
Defined.

(** ** Connecting and sending *)

(** When [evtchn_bind_interdomain] returns 0, the local port it reports was
    not in use, the remote port was unbound and reserved for the caller's
    domain, the two are now each other's peer, and the local port is pending so
    that no event sent before the bind is lost. *)
Theorem evtchn_bind_interdomain_connects E cur rdom rport s L p s' :
  xinv s → doms s !! cur = Some L → evtchn_bind_interdomain E cur rdom rport s = Ok (0, p, s') →
  connects cur (if rdom =? DOMID_SELF then domain_id L else rdom) (s32 rport) p s s' ∧
  ∃ L', doms s' !! cur = Some L' ∧ p ∈ evtchn_pending L'.
Proof.
  intros Hinv HL Heq. destruct (evtchn_bind_interdomain_spec E cur rdom rport s L Hinv HL)
    as (rc & p' & s1 & Heq' & Hst & Hcn). rewrite Heq in Heq'. injection Heq' as <- <- <-.
  specialize (Hcn eq_refl). split; [done|].
  destruct (cn_deliver _ _ _ _ _ _ Hcn) as (s3 & Hinv3 & [e He] & Hdel).
  destruct (chan_at_Some _ _ _ _ He) as (D3 & HD3 & _).
  destruct (set_pending_in cur 0 p s3 D3 s' Hinv3 HD3) as (L' & HL' & Hp); [by eapply vcpu0_exists|done|].
  exists L'. split; [done|]. rewrite Hp. set_solver.
Qed.

Lemma evtchn_bind_interdomain_connects_witness :
  connects 1 1 1 1 offered connected.
Proof.
  assert (Hd : ∃ L, doms offered !! 1%positive = Some L) by (vm_compute; by eexists). destruct Hd as [L HL].
  assert (Heq : evtchn_bind_interdomain boot_env 1 1 1 offered = Ok (0, 1, connected)) by (vm_compute; reflexivity).
  apply (evtchn_bind_interdomain_connects boot_env 1 1 1 offered L 1 connected offered_inv HL Heq).
Defined.

(** What [evtchn_send] does once the channel and the security check are passed. *)
Definition sent (s : xstate) (ld : positive) (lport : Z) (e : evtchn) (rc : Z) (s' : xstate) : Prop :=
  match e_state e with
  | ECS_INTERDOMAIN rd rport =>
      rc = 0 ∧ ∃ r R, chan_at s rd rport = Some r ∧ e_state r = ECS_INTERDOMAIN ld lport ∧
        doms s !! rd = Some R ∧
        (xen_consumer r = 0 → ∃ R', doms s' !! rd = Some R' ∧ evtchn_pending R' = {[ rport ]} ∪ evtchn_pending R)
  | ECS_IPI => rc = 0 ∧ ∃ L L', doms s !! ld = Some L ∧ doms s' !! ld = Some L' ∧
                 evtchn_pending L' = {[ lport ]} ∪ evtchn_pending L
  | ECS_UNBOUND _ => rc = 0 ∧ s' = s
  | _ => rc = - EINVAL ∧ s' = s
  end.

(** C32: [evtchn_send] on every branch: an invalid or Xen-attached port is
    -EINVAL, a refusal of the security module is passed on; an inter-domain
    port makes the peer's port, and only that bit, pending in the peer's domain
    unless Xen consumes it; an IPI port makes itself pending; an event sent to
    an unbound port is dropped with success; other ports are -EINVAL. *)
Theorem evtchn_send_correct E ld lport s L :
  env_ok E → xinv s → doms s !! ld = Some L →
  ∃ rc s', evtchn_send E ld lport s = Ok (rc, s') ∧ xinv s' ∧
    match chan_of L lport with
    | None => rc = - EINVAL ∧ s' = s
    | Some e =>
        if consumer_is_xen e then rc = - EINVAL ∧ s' = s
        else if negb (xsm_evtchn_send E s ld lport =? 0) then rc = xsm_evtchn_send E s ld lport ∧ s' = s
        else sent s ld lport e rc s'
    end.
Proof.
  intros HE Hinv HL. destruct (evtchn_send_spec E ld lport s HE Hinv) as (rc & s' & Heq & Hst); [eauto|].
  exists rc, s'. split; [done|]. split; [apply Hst|]. revert Heq. unfold evtchn_send. rewrite HL. cbn [deref].
  unfold chan_of. destruct (port_is_valid L lport) eqn:Hv; cbn [negb]; [|by intros [= <- <-]].
  destruct (valid_port s ld L lport Hinv HL Hv) as (e & -> & He). cbn [deref].
  destruct (consumer_is_xen e); [by intros [= <- <-]|].
  destruct (Z.eqb_spec (xsm_evtchn_send E s ld lport) 0) as [->|]; cbn [negb]; [|by intros [= <- <-]].
  unfold sent. destruct (e_state e) as [| | |rd rport| | |] eqn:Hs; try (by intros [= <- <-]).
  - destruct (xi_pair _ Hinv _ _ _ _ _ He Hs) as (r & Hr & Hsr).
    destruct (chan_at_Some _ _ _ _ Hr) as (R & HR & _). rewrite HR. cbn [deref].
    rewrite (chan_at_from_port _ _ _ _ _ HR Hr). cbn [deref]. unfold consumer_is_xen.
    destruct (Z.eqb_spec (xen_consumer r) 0) as [Hc|Hc]; cbn [negb].
    + destruct (evtchn_set_pending rd (notify_vcpu_id r) rport s) as [s1|] eqn:Hp; [|done]. intros [= <- <-].
      split; [done|]. exists r, R. split; [done|]. split; [done|]. split; [done|]. intros _.
      eapply set_pending_in; eauto. by eapply notify_exists.
    + destruct (run_notification _ _ _ _ _ _) as [s1|]; [|done]. intros [= <- <-].
      split; [done|]. by exists r, R.
  - destruct (evtchn_set_pending ld (notify_vcpu_id e) lport s) as [s1|] eqn:Hp; [|done]. intros [= <- <-].
    split; [done|]. destruct (set_pending_in _ _ _ _ _ _ Hinv HL ltac:(by eapply notify_exists) Hp) as (L' & ? & ?). eauto.
Qed.

Lemma evtchn_send_correct_witness :
  ∃ s' R', evtchn_send boot_env 1 1 connected = Ok (0, s') ∧ doms s' !! 2%positive = Some R' ∧ 1 ∈ evtchn_pending R'.
Proof.
  assert (Hd : ∃ L, doms connected !! 1%positive = Some L ∧ chan_of L 1 = Some (mk_evtchn (ECS_INTERDOMAIN 2 1) 0 0))
    by (vm_compute; by eexists).
  destruct Hd as (L & HL & HC).
  destruct (evtchn_send_correct boot_env 1 1 connected L) as (rc & s' & Heq & _ & Hm);
    [apply boot_env_ok|apply connected_inv|done|].
  rewrite HC in Hm. destruct Hm as (-> & r & R & Hr & _ & _ & Hp).
  assert (Hr' : chan_at connected 2 1 = Some (mk_evtchn (ECS_INTERDOMAIN 1 1) 0 0)) by (vm_compute; reflexivity).
  rewrite Hr' in Hr. injection Hr as <-. destruct (Hp eq_refl) as (R' & HR' & Hpe).
  exists s', R'. split; [exact Heq|]. split; [done|]. rewrite Hpe. apply elem_of_union_l, elem_of_singleton. done.
Defined.

(** C21: [evtchn_set_pending] on a port that is pending already changes nothing
    and calls nothing. On a port that is not pending it sets the port's bit in
    [evtchn_pending]; if the port is not masked it also sets the bit of its
    word in the target vcpu's selector, and tells the vcpu if and only if that
    bit was clear; of the vcpus that poll, exactly those below [max_vcpus]
    polling for this port or for any port leave [poll_mask], have [poll_evtchn]
    reset and are unblocked, in order. Nothing else of the domain changes, no
    other domain, and none of the global tables. *)
Theorem evtchn_set_pending_correct d v port s D V :
  xinv s → doms s !! d = Some D → vcpus D !! v = Some V →
  (port ∈ evtchn_pending D → evtchn_set_pending d v port s = Ok s) ∧
  (port ∉ evtchn_pending D →
   ∃ D' s', evtchn_set_pending d v port s = Ok s' ∧
     woken port (seqZ 0 (max_vcpus D)) (mark_pending v port D) D' ∧
     only_dom d D'
       (rev (Vcpu_unblock d <$> filter (λ u, wakes port D u = true) (seqZ 0 (max_vcpus D))) ++
        if tells v port D V then [Vcpu_mark_events_pending d v] else []) s s').
Proof.
  intros Hinv HD HV. split; [|by apply set_pending_exact].
  intros Hp. unfold evtchn_set_pending. rewrite HD. cbn [deref]. rewrite HV. cbn [deref].
  by rewrite bool_decide_eq_true_2.
Qed.

Lemma evtchn_set_pending_correct_witness :
  ∃ D' s', evtchn_set_pending 2 0 1 connected = Ok s' ∧ doms s' !! 2%positive = Some D' ∧
           hooks s' = Vcpu_mark_events_pending 2 0 :: hooks connected ∧
           domain_hash s' = domain_hash connected.
Proof.
  set (D := default (boot_dom 1 false false) (doms connected !! 2%positive)).
  assert (HD : doms connected !! 2%positive = Some D) by (vm_compute; reflexivity).
  assert (HV : vcpus D !! 0 = Some boot_vcpu) by (vm_compute; reflexivity).
  assert (Hp : bool_decide (1 ∉ evtchn_pending D) = true) by (vm_compute; reflexivity). apply bool_decide_eq_true in Hp.
  assert (Ht : tells 0 1 D boot_vcpu = true) by (vm_compute; reflexivity).
  assert (Hw : filter (λ u, wakes 1 D u = true) (seqZ 0 (max_vcpus D)) = []) by (vm_compute; reflexivity).
  clearbody D.
  destruct (evtchn_set_pending_correct 2 0 1 connected D boot_vcpu connected_inv HD HV) as [_ Hnew].
  destruct (Hnew Hp) as (D' & s' & Heq & _ & Ho).
  exists D', s'. split; [exact Heq|]. rewrite (od_doms _ _ _ _ _ Ho), (od_hooks _ _ _ _ _ Ho), Hw, Ht.
  split; [by rewrite decide_True|]. split; [reflexivity|]. by rewrite (od_rest _ _ _ _ _ Ho).
Defined.

(** ** Port allocation *)

(** [get_free_port] gives a domain that is not dying the lowest port that is
    not in use: every port below it is in use, it is never the reserved port 0,
    and no channel changes, at most a bucket of free ports is added. While any
    allocated port is free the call succeeds without allocating. On failure
    the state is unchanged. *)
Theorem get_free_port_least E d s D :
  xinv s → doms s !! d = Some D →
  ∃ port s1, get_free_port E d s = Ok (port, s1) ∧
    (port < 0 ∧ s1 = s ∨ is_dying D = false ∧ got_port d s s1 port) ∧
    (is_dying D = false → (∃ q, chan_of D q = Some free_evtchn) → s1 = s ∧ got_port d s s port).
Proof.
  intros Hinv HD. destruct (get_free_port_spec E d s D Hinv HD) as (port & s1 & Heq & Hor).
  exists port, s1. split; [done|]. split; [done|]. intros Hdy (q & Hq).
  pose proof (dw_ports _ (xb_dom _ (xi_base _ Hinv) _ _ HD)) as Hp.
  revert Heq. unfold get_free_port. rewrite HD. cbn [deref]. rewrite Hdy.
  destruct (free_port_loop_spec D (S (Z.to_nat (MAX_EVTCHNS D))) 0 Hp) as (r & -> & Hspec).
  { destruct (MAX_EVTCHNS_cases D); lia. } { lia. } { lia. }
  cbn [mbind outcome_bind]. destruct r as [p|p]; destruct Hspec as (H1 & H2 & H3).
  - intros [= <- <-]. split; [done|]. by eapply got_port_here.
  - exfalso. pose proof (chan_of_valid _ _ _ Hq) as Hv. apply port_is_valid_spec in Hv as [Hr _].
    destruct (decide (q < p)) as [Hlt|Hge].
    + destruct (H3 q) as (e & He & Hn); [lia|]. rewrite Hq in He. by injection He as <-.
    + rewrite (invalid_above D p q Hp) in Hq; [done|done|lia].
Qed.

Lemma get_free_port_least_witness : get_free_port boot_env 1 connected = Ok (2, connected).
Proof.
  assert (Hd : ∃ D, doms connected !! 1%positive = Some D ∧ is_dying D = false ∧ chan_of D 2 = Some free_evtchn)
    by (vm_compute; by eexists).
  destruct Hd as (D & HD & Hdy & Hq).
  destruct (get_free_port_least boot_env 1 connected D connected_inv HD) as (p & s1 & Heq & _ & Hf).
  destruct (Hf Hdy) as [-> Hg]; [eauto|]. rewrite Heq. f_equal. f_equal.
  assert (Hlow : ∃ e, chan_at connected 1 1 = Some e ∧ e_state e ≠ ECS_FREE) by (vm_compute; by eexists).
  assert (Hge : ¬ 2 < p).
  { intros Hlt. destruct (gp_least _ _ _ _ Hg 2) as (e & He & Hn); [lia|]. rewrite (chan_at_dom _ _ _ _ HD), Hq in He.
    by injection He as <-. }
  pose proof (gp_range _ _ _ _ Hg). assert (p ≠ 1); [|lia]. intros ->.
  destruct Hlow as (e & He & Hn). pose proof (gp_free _ _ _ _ Hg) as Hfr. rewrite Hfr in He. by injection He as <-.
Defined.

(** ** Reset and destruction *)

(** [evtchn_reset], other CPUs closing peers meanwhile but not allocating
    ports of the target: the loop ends, and when the caller may act on the
    target and the security module agrees every port that was not Xen's is
    free afterwards; Xen-attached ports stay attached and port 0 stays
    reserved. *)
Theorem evtchn_reset_closes E cur dom s d :
  env_ok E → calm E d → xinv s → is_Some (doms s !! cur) → is_Some (doms s !! d) →
  rcu_lock_target_domain_by_id s cur dom = Ok (inr d) → xsm_evtchn_reset E s cur d = 0 →
  ∃ s', evtchn_reset E cur dom s = Ok (0, s') ∧ xinv s' ∧
    ∀ q e, chan_at s d q = Some e →
      if decide (xen_consumer e = 0 ∧ e_state e ≠ ECS_RESERVED) then chan_at s' d q = Some free_evtchn
      else ∃ e', chan_at s' d q = Some e' ∧ (e' = free_evtchn ∨ same_kind e e').
Proof.
  intros HE Hca Hinv Hcur Hd Hlock Hxsm. unfold evtchn_reset. rewrite Hlock. cbn [mbind outcome_bind].
  rewrite Hxsm. cbn [Z.eqb negb]. destruct (reset_loop_closes E d s HE Hca Hinv Hd) as (s' & -> & Hst & Hq).
  cbn [mbind outcome_bind]. exists s'. split; [done|]. split; [apply Hst|done].
Qed.

Lemma evtchn_reset_closes_witness :
  ∃ s', evtchn_reset boot_env 1 1 connected = Ok (0, s') ∧ chan_at s' 2 1 = Some free_evtchn.
Proof.
  destruct (evtchn_reset_closes boot_env 1 1 connected 2) as (s' & Heq & _ & Hq);
    [apply boot_env_ok|apply boot_env_calm|apply connected_inv|vm_compute; by eexists|vm_compute; by eexists
    |vm_compute; reflexivity|reflexivity|].
  exists s'. split; [exact Heq|].
  assert (He : chan_at connected 2 1 = Some (mk_evtchn (ECS_INTERDOMAIN 1 1) 0 0)) by (vm_compute; reflexivity).
  specialize (Hq 1 _ He). clear He Heq. case_decide as Hc; [exact Hq|]. destruct Hc. by split.
Defined.

(** C31: [evtchn_destroy] of a dying domain, other CPUs closing peers meanwhile:
    it completes; the domain has no port left, no channel of any domain has it
    as its peer, and it handles no global virtual IRQ. *)
Theorem evtchn_destroy_complete E d s D :
  env_ok E → calm E d → xinv s → doms s !! d = Some D → is_dying D = true →
  ∃ s', evtchn_destroy E d s = Ok s' ∧ step_ok s s' ∧
    (∀ p, chan_at s' d p = None) ∧
    (∀ d' p e q, chan_at s' d' p = Some e → e_state e ≠ ECS_INTERDOMAIN d q) ∧
    (∀ virq, 0 ≤ virq < NR_VIRQS → global_virq_handlers s' !! virq ≠ Some d).
Proof. apply evtchn_destroy_spec. Qed.

Lemma evtchn_destroy_complete_witness :
  ∃ s', evtchn_destroy boot_env 2 (boot true) = Ok s' ∧ chan_at s' 2 0 = None.
Proof.
  destruct (evtchn_destroy_complete boot_env 2 (boot true) (boot_dom 1 false true)) as (s' & Heq & _ & Hn & _);
    [apply boot_env_ok|apply boot_env_calm|apply boot_inv|vm_compute; reflexivity|reflexivity|].
  exists s'. split; [exact Heq|apply Hn].
Defined.

(** ** Interrupts *)

(** A per-vcpu virtual IRQ is delivered to the port bound to it on that vcpu,
    which is a channel of that IRQ notifying that vcpu, and is dropped when
    none is bound. The [BUG_ON] on the kind of the IRQ does not fire. *)
Theorem send_guest_vcpu_virq_correct d v virq s D V :
  xinv s → doms s !! d = Some D → vcpus D !! v = Some V → 0 ≤ virq < NR_VIRQS → is_global virq = false →
  ∃ s', send_guest_vcpu_virq d v virq s = Ok s' ∧ xinv s' ∧
    if virq_port V virq =? 0 then s' = s
    else ∃ e D', chan_at s d (virq_port V virq) = Some e ∧ e_state e = ECS_VIRQ virq ∧ notify_vcpu_id e = v ∧
           doms s' !! d = Some D' ∧ evtchn_pending D' = {[ virq_port V virq ]} ∪ evtchn_pending D.
Proof.
  intros Hinv HD HV Hr Hg. unfold send_guest_vcpu_virq. rewrite virq_is_global_spec by done. cbn [mbind outcome_bind].
  rewrite Hg, HD. cbn [BUG_ON deref]. rewrite HV. cbn [deref]. destruct (Z.eqb_spec (virq_port V virq) 0) as [|Hp]; [by exists s|].
  destruct (virq_port_chan s d D v V virq Hinv HD HV Hp) as (e & He & Hs & Hn). specialize (Hn Hg).
  destruct (deliver_quiet d _ e s Hinv He) as (s' & Heq & Hq). rewrite Hn in Heq.
  exists s'. split; [done|]. split; [by eapply xinv_quiet|].
  destruct (set_pending_in d v _ s D s' Hinv HD ltac:(eauto) Heq) as (D' & HD' & Hpe). eauto 10.
Qed.

(** Domain 0 binds its debug virtual IRQ to port 1. *)
Definition virq_bound : xstate := state_of (evtchn_bind_virq boot_env 1 VIRQ_DEBUG 0 (boot false)) (boot false).

Lemma virq_bound_inv : xinv virq_bound.
Proof.
  unfold virq_bound. destruct (evtchn_bind_virq_spec boot_env 1 VIRQ_DEBUG 0 (boot false))
    as (rc & p & s' & -> & Hst); [apply boot_inv|by eexists|]. apply Hst.
Qed.

Lemma send_guest_vcpu_virq_correct_witness :
  ∃ s' D', send_guest_vcpu_virq 1 0 VIRQ_DEBUG virq_bound = Ok s' ∧ doms s' !! 1%positive = Some D' ∧
           1 ∈ evtchn_pending D'.
Proof.
  set (D := default (boot_dom 0 true false) (doms virq_bound !! 1%positive)).
  set (V := default boot_vcpu (vcpus D !! 0)).
  assert (HD : doms virq_bound !! 1%positive = Some D) by (vm_compute; reflexivity).
  assert (HV : vcpus D !! 0 = Some V) by (vm_compute; reflexivity).
  assert (Hp : virq_port V VIRQ_DEBUG = 1) by (vm_compute; reflexivity). clearbody V. clearbody D.
  destruct (send_guest_vcpu_virq_correct 1 0 VIRQ_DEBUG virq_bound D V) as (s' & Heq & _ & Hm);
    [apply virq_bound_inv|done|done|done|reflexivity|].
  rewrite Hp in Hm. destruct Hm as (e & D' & _ & _ & _ & HD' & Hpe). exists s', D'.
  split; [exact Heq|]. split; [done|]. rewrite Hpe. apply elem_of_union_l, elem_of_singleton. done.
Defined.

(** A global virtual IRQ goes to the domain registered for it, or to domain
    0, and there to the port bound to the IRQ on vcpu 0, whichever vcpu that
    port notifies; it is dropped when no port is bound. *)
Theorem send_global_virq_correct virq s d D V :
  xinv s → 0 ≤ virq < NR_VIRQS → is_global virq = true →
  (global_virq_handlers s !! virq = Some d ∨ global_virq_handlers s !! virq = None ∧ dom0 s = Some d) →
  doms s !! d = Some D → vcpus D !! 0 = Some V →
  ∃ s', send_global_virq virq s = Ok s' ∧ xinv s' ∧
    if virq_port V virq =? 0 then s' = s
    else ∃ e D', chan_at s d (virq_port V virq) = Some e ∧ e_state e = ECS_VIRQ virq ∧
           doms s' !! d = Some D' ∧ evtchn_pending D' = {[ virq_port V virq ]} ∪ evtchn_pending D.
Proof.
  intros Hinv Hr Hg Hh HD HV. unfold send_global_virq, send_guest_global_virq.
  destruct (Z.ltb_spec virq NR_VIRQS); [|lia]. cbn [negb BUG_ON]. rewrite virq_is_global_spec by done.
  cbn [mbind outcome_bind]. rewrite Hg. cbn [negb BUG_ON].
  assert (Hd : match global_virq_handlers s !! virq with Some d => Some d | None => dom0 s end = Some d).
  { destruct Hh as [->|[-> ->]]; done. }
  rewrite Hd, HD. cbn [deref]. rewrite HV. destruct (Z.eqb_spec (virq_port V virq) 0) as [|Hp]; [by exists s|].
  destruct (virq_port_chan s d D 0 V virq Hinv HD HV Hp) as (e & He & Hs & _).
  rewrite (chan_at_from_port _ _ _ _ _ HD He). cbn [deref].
  destruct (deliver_quiet d _ e s Hinv He) as (s' & Heq & Hq). rewrite Heq.
  exists s'. split; [done|]. split; [by eapply xinv_quiet|].
  destruct (set_pending_in d _ _ s D s' Hinv HD ltac:(by eapply notify_exists) Heq) as (D' & HD' & Hpe). eauto 10.
Qed.

(** The console's virtual IRQ, unbound, with domain 0 as the default handler. *)
Lemma send_global_virq_correct_witness : send_global_virq 2 virq_bound = Ok virq_bound.
Proof.
  set (D := default (boot_dom 0 true false) (doms virq_bound !! 1%positive)).
  set (V := default boot_vcpu (vcpus D !! 0)).
  assert (HD : doms virq_bound !! 1%positive = Some D) by (vm_compute; reflexivity).
  assert (HV : vcpus D !! 0 = Some V) by (vm_compute; reflexivity).
  assert (Hp : virq_port V 2 = 0) by (vm_compute; reflexivity). clearbody V. clearbody D.
  destruct (send_global_virq_correct 2 virq_bound 1 D V) as (s' & Heq & _ & Hm);
    [apply virq_bound_inv|done|reflexivity|right; split; vm_compute; reflexivity|done|done|].
  rewrite Hp in Hm. simpl in Hm. by rewrite Heq, Hm.
Defined.

(** [evtchn_move_pirqs] redirects every physical IRQ bound to a port that
    notifies the vcpu, each once, to the vcpu's processor, and no other; the
    walk of the port list ends. *)
Theorem evtchn_move_pirqs_correct d v s D V :
  xinv s → doms s !! d = Some D → vcpus D !! v = Some V →
  ∃ ports irqs, NoDup ports ∧ (∀ p, p ∈ ports ↔ on_pirq_list D v p) ∧ Forall2 (irq_of D) ports irqs ∧
    evtchn_move_pirqs d v s = Ok (logs ((λ irq, Pirq_set_affinity d irq (processor V)) <$> irqs) s).
Proof.
  intros Hinv HD HV. unfold evtchn_move_pirqs. rewrite HD. cbn [deref]. rewrite HV. cbn [deref].
  destruct (iw_list _ (dw_pirq _ (xb_dom _ (xi_base _ Hinv) _ _ HD)) v V HV) as (l & Hnd & Hc & Hin).
  destruct (move_pirqs_loop_spec d D (processor V) l port_fuel 0 (pirq_evtchn_head V) s HD Hc) as (irqs & Hall & Hrun).
  { assert (length l ≤ 4096)%nat; [|unfold port_fuel; lia]. eapply port_list_short; [done|].
    intros p (e & ? & ? & ? & He & _)%Hin. eauto. }
  exists l, irqs. done.
Qed.

(** Domain 0 binds physical IRQ 5. *)
Definition pirq_bound : xstate := state_of (evtchn_bind_pirq boot_env 1 5 0 (boot false)) (boot false).

Lemma pirq_bound_inv : xinv pirq_bound.
Proof.
  unfold pirq_bound. destruct (evtchn_bind_pirq_spec boot_env 1 5 0 (boot false))
    as (rc & p & s' & -> & Hst); [apply boot_inv|by eexists|]. apply Hst.
Qed.

Lemma evtchn_move_pirqs_correct_witness :
  ∃ (ports irqs : list Z), 1 ∈ ports ∧
    evtchn_move_pirqs 1 0 pirq_bound = Ok (logs ((λ irq, Pirq_set_affinity 1 irq 0) <$> irqs) pirq_bound).
Proof.
  set (D := default (boot_dom 0 true false) (doms pirq_bound !! 1%positive)).
  set (V := default boot_vcpu (vcpus D !! 0)).
  assert (HD : doms pirq_bound !! 1%positive = Some D) by (vm_compute; reflexivity).
  assert (HV : vcpus D !! 0 = Some V) by (vm_compute; reflexivity).
  assert (Hp : processor V = 0) by (vm_compute; reflexivity).
  assert (He : chan_of D 1 = Some (mk_evtchn (ECS_PIRQ 5 0 0) 0 0)) by (vm_compute; reflexivity).
  clearbody V. clearbody D.
  destruct (evtchn_move_pirqs_correct 1 0 pirq_bound D V pirq_bound_inv HD HV) as (ports & irqs & _ & Hin & _ & Heq).
  exists ports, irqs. rewrite Hp in Heq. split; [|exact Heq]. apply Hin. eexists _, _, _, _. split; [exact He|]. done.
Defined.

(** When a domain gives up its global virtual IRQs, it handles none of them
    any more and as many references to it are dropped as it handled IRQs; every
    other domain's reference count is unchanged. *)
Theorem clear_global_virq_handlers_correct d s :
  xinv s → is_Some (doms s !! d) →
  ∃ s', clear_global_virq_handlers d s = Ok s' ∧ xinv s' ∧
    (∀ virq, 0 ≤ virq < NR_VIRQS → global_virq_handlers s' !! virq ≠ Some d) ∧
    ∀ d', refcnt <$> doms s' !! d' =
      (λ D, refcnt D - (if decide (d' = d) then Z.of_nat (length (handled_by d s)) else 0)) <$> doms s !! d'.
Proof.
  intros Hinv Hd. destruct (clear_global_virq_handlers_spec d s Hinv Hd) as (h & s' & -> & _ & Hst & Hh & Href).
  exists s'. split; [done|]. split; [apply Hst|]. by split.
Qed.

(** Domain 1 handles the console's virtual IRQ. *)
Definition handler_set : xstate :=
  match set_global_virq_handler 2 2 (boot false) with Ok (_, s) => s | Bug => boot false end.

Lemma handler_set_inv : xinv handler_set.
Proof.
  unfold handler_set. destruct (set_global_virq_handler_spec 2 2 (boot false)) as (rc & s' & -> & Hst & _);
    [apply boot_inv|by eexists|done|]. apply Hst.
Qed.

Lemma clear_global_virq_handlers_correct_witness :
  ∃ s', clear_global_virq_handlers 2 handler_set = Ok s' ∧ refcnt <$> doms s' !! 2%positive = Some 1.
Proof.
  destruct (clear_global_virq_handlers_correct 2 handler_set) as (s' & Heq & _ & _ & Href);
    [apply handler_set_inv|vm_compute; by eexists|].
  exists s'. split; [exact Heq|]. rewrite Href. vm_compute. reflexivity.
Defined.

(** ** Masks and PIRQ structures *)

(** [evtchn_unmask] of a valid port clears its mask bit and nothing else of
    the domain's bitmaps; if the port was masked and pending, its word's bit in
    the selector of the vcpu it notifies is set, so the event is not lost. *)
Theorem evtchn_unmask_correct d p s D e V :
  xinv s → doms s !! d = Some D → chan_of D p = Some e → vcpus D !! notify_vcpu_id e = Some V →
  ∃ s' D' V', evtchn_unmask d p s = Ok (0, s') ∧ doms s' !! d = Some D' ∧
    evtchn_mask D' = evtchn_mask D ∖ {[ p ]} ∧ evtchn_pending D' = evtchn_pending D ∧
    vcpus D' !! notify_vcpu_id e = Some V' ∧
    evtchn_pending_sel V' =
      (if decide (p ∈ evtchn_mask D ∧ p ∈ evtchn_pending D) then {[ p / BITS_PER_EVTCHN_WORD D ]} else ∅) ∪
      evtchn_pending_sel V.
Proof.
  intros Hinv HD He HV. unfold evtchn_unmask. rewrite HD. cbn [deref]. apply chan_of_Some in He as [-> ->].
  cbn [negb deref]. assert (HD1 : doms (upd_dom d (set_mask (λ m, m ∖ {[ p ]})) s) !! d =
    Some (set_mask (λ m, m ∖ {[ p ]}) D)) by exact (doms_upd_same _ _ _ _ HD).
  set (s1 := upd_dom d _ s) in *. rewrite <- bool_decide_and. case_bool_decide as Hmp.
  - rewrite HV. cbn [deref]. rewrite decide_True by done. unfold mark_sel. case_bool_decide as Hw.
    + eexists _, _, V. split; [done|]. split; [exact HD1|]. do 2 (split; [done|]). split; [done|]. set_solver.
    + eexists _, _, _. split; [done|]. split; [exact (doms_upd_same _ _ _ _ HD1)|]. do 2 (split; [done|]).
      simpl. rewrite lookup_alter_eq, HV. split; [done|]. simpl. done.
  - rewrite decide_False by done. eexists _, _, V. split; [done|]. split; [exact HD1|]. do 2 (split; [done|]).
    split; [done|]. set_solver.
Qed.

Lemma evtchn_unmask_correct_witness : ∃ s', evtchn_unmask 1 1 connected = Ok (0, s').
Proof.
  set (D := default (boot_dom 0 true false) (doms connected !! 1%positive)).
  set (V := default boot_vcpu (vcpus D !! 0)).
  assert (HD : doms connected !! 1%positive = Some D) by (vm_compute; reflexivity).
  assert (HV : vcpus D !! 0 = Some V) by (vm_compute; reflexivity).
  assert (He : chan_of D 1 = Some (mk_evtchn (ECS_INTERDOMAIN 2 1) 0 0)) by (vm_compute; reflexivity).
  clearbody V. clearbody D.
  destruct (evtchn_unmask_correct 1 1 connected D _ V connected_inv HD He HV) as (s' & _ & _ & Heq & _).
  exists s'. exact Heq.
Defined.

(** The guard of the [pirq_cleanup_check] macro lets the cleanup run only
    while the PIRQ still has a port. In [__evtchn_close] and in the error path
    of [evtchn_bind_pirq], which clear the port first, the call does nothing:
    the [struct pirq] is not freed even when nothing uses it any more. *)
Theorem pirq_cleanup_check_unbound_noop E s d D p i :
  doms s !! d = Some D → pirq_tree D !! p = Some i → pirq_evtchn i = 0 → pirq_cleanup_check E d p s = Ok s.
Proof. apply cleanup_check_unbound. Qed.

(** A PIRQ with no port and no machine IRQ stays; the function behind the macro
    would free it. *)
Lemma pirq_cleanup_check_unbound_noop_witness :
  let s := upd_dom 1 (set_pirqs (<[5 := mk_pirq 0 0]>)) (boot false) in
  pirq_cleanup_check boot_env 1 5 s = Ok s ∧
  pirq_cleanup_check_fn boot_env 1 5 s = Ok (upd_dom 1 (set_pirqs (delete 5)) s).
Proof.
  intros s. split; [|reflexivity].
  apply (pirq_cleanup_check_unbound_noop boot_env s 1 (set_pirqs (<[5 := mk_pirq 0 0]>) (boot_dom 0 true false)) 5 (mk_pirq 0 0));
    reflexivity.
Defined.
