(* ===== verification/PageList.v ===== *)
(** * Page lists (xen/include/xen/mm.h)

    The doubly linked lists threaded through [struct page_info]. A page is its
    index ([pdx]); its list entry holds the 32-bit indices of its neighbours,
    [PAGE_LIST_NULL] at the ends, and a list head holds pointers to the first
    and the last page. The operations refine operations on lists of pages, and
    this is the form in which the allocator uses them. *)

From S2P Require Import Prelude.
Local Open Scope xen_scope.

(** ** Data and operations *)

Record page_list_entry := mk_entry { le_next : Z; le_prev : Z }.
Record page_list_head := mk_head { lh_next : option Z; lh_tail : option Z }.

(** The list entries of all pages. *)
Abbreviation entries := (gmap Z page_list_entry).

Definition PAGE_LIST_NULL : Z := 2 ^ 32 - 1.
Definition PAGE_LIST_HEAD_INIT : page_list_head := mk_head None None.

(** [pg->list.next = x] and [pg->list.prev = x] *)
Definition set_next (pg x : Z) (m : entries) : outcome entries :=
  deref (m !! pg) (λ e, Ok (<[pg := mk_entry x (le_prev e)]> m)).
Definition set_prev (pg x : Z) (m : entries) : outcome entries :=
  deref (m !! pg) (λ e, Ok (<[pg := mk_entry (le_next e) x]> m)).

Definition page_list_empty (h : page_list_head) : bool :=
  match lh_next h with None => true | Some _ => false end.

Definition page_list_first (h : page_list_head) : option Z := lh_next h.

Definition page_list_next (pg : Z) (h : page_list_head) (m : entries) : outcome (option Z) :=
  if bool_decide (lh_tail h = Some pg) then Ok None else deref (m !! pg) (λ e, Ok (Some (le_next e))).

Definition page_list_prev (pg : Z) (h : page_list_head) (m : entries) : outcome (option Z) :=
  if bool_decide (lh_next h = Some pg) then Ok None else deref (m !! pg) (λ e, Ok (Some (le_prev e))).

Definition page_list_add (pg : Z) (h : page_list_head) (m : entries) : outcome (entries * page_list_head) :=
  let! (m1, h1) :=
    match lh_next h with
    | Some first =>
        let! m1 := set_next pg first m in
        let! m2 := set_prev first pg m1 in
        Ok (m2, h)
    | None =>
        let! m1 := set_next pg PAGE_LIST_NULL m in
        Ok (m1, mk_head (lh_next h) (Some pg))
    end in
  let! m2 := set_prev pg PAGE_LIST_NULL m1 in
  Ok (m2, mk_head (Some pg) (lh_tail h1)).

Definition page_list_add_tail (pg : Z) (h : page_list_head) (m : entries) : outcome (entries * page_list_head) :=
  let! m1 := set_next pg PAGE_LIST_NULL m in
  match lh_next h with
  | Some first =>
      deref (lh_tail h) (λ tail,
        let! m2 := set_prev pg tail m1 in
        let! m3 := set_next tail pg m2 in
        Ok (m3, mk_head (lh_next h) (Some pg)))
  | None =>
      let! m2 := set_prev pg PAGE_LIST_NULL m1 in
      Ok (m2, mk_head (Some pg) (Some pg))
  end.

(** [next] and [prev] are the neighbours' indices; the result says whether
    the page was an end of the list. *)
Definition __page_list_del_head (pg : Z) (h : page_list_head) (next prev : Z) (m : entries)
    : outcome (bool * entries * page_list_head) :=
  if bool_decide (lh_next h = Some pg) then
    if bool_decide (lh_tail h ≠ Some pg) then
      let! m1 := set_prev next PAGE_LIST_NULL m in
      Ok (true, m1, mk_head (Some next) (lh_tail h))
    else Ok (true, m, mk_head None None)
  else if bool_decide (lh_tail h = Some pg) then
    let! m1 := set_next prev PAGE_LIST_NULL m in
    Ok (true, m1, mk_head (lh_next h) (Some prev))
  else Ok (false, m, h).

(** [next->list.prev = page->list.prev; prev->list.next = page->list.next;] *)
Definition unlink_middle (next prev : Z) (m : entries) : outcome entries :=
  let! m1 := set_prev next prev m in set_next prev next m1.

Definition page_list_del (pg : Z) (h : page_list_head) (m : entries) : outcome (entries * page_list_head) :=
  deref (m !! pg) (λ e,
    let! (r, m1, h1) := __page_list_del_head pg h (le_next e) (le_prev e) m in
    if (r : bool) then Ok (m1, h1)
    else let! m2 := unlink_middle (le_next e) (le_prev e) m1 in Ok (m2, h1)).

Definition page_list_del2 (pg : Z) (h1 h2 : page_list_head) (m : entries)
    : outcome (entries * page_list_head * page_list_head) :=
  deref (m !! pg) (λ e,
    let! (r1, m1, h1') := __page_list_del_head pg h1 (le_next e) (le_prev e) m in
    if (r1 : bool) then Ok (m1, h1', h2)
    else
      let! (r2, m2, h2') := __page_list_del_head pg h2 (le_next e) (le_prev e) m1 in
      if (r2 : bool) then Ok (m2, h1', h2')
      else let! m3 := unlink_middle (le_next e) (le_prev e) m2 in Ok (m3, h1', h2')).

Definition page_list_remove_head (h : page_list_head) (m : entries)
    : outcome (option Z * entries * page_list_head) :=
  match lh_next h with
  | Some pg => let! (m1, h1) := page_list_del pg h m in Ok (Some pg, m1, h1)
  | None => Ok (None, m, h)
  end.

(** The new [dst] and [src]. *)
Definition page_list_move (dst src : page_list_head) : page_list_head * page_list_head :=
  if page_list_empty src then (dst, src) else (src, PAGE_LIST_HEAD_INIT).

Definition page_list_splice (l h : page_list_head) (m : entries) : outcome (entries * page_list_head) :=
  match lh_next l with
  | None => Ok (m, h)
  | Some first =>
      match lh_next h with
      | None => Ok (m, mk_head (lh_next l) (lh_tail l))
      | Some at_ =>
          deref (lh_tail l) (λ last, deref (m !! first) (λ ef, deref (m !! at_) (λ ea,
            BUG_ON (negb (le_prev ef =? PAGE_LIST_NULL))
              (BUG_ON (negb (le_prev ef =? le_prev ea))
                 (let! m1 := set_next last at_ m in
                  let! m2 := set_prev at_ last m1 in
                  Ok (m2, mk_head (Some first) (lh_tail h)))))))
      end
  end.

(** ** Representation *)

(** The entries of the pages [l] between [prev] and [next]. *)
Fixpoint seg (m : entries) (prev : Z) (l : list Z) (next : Z) : Prop :=
  match l with
  | [] => True
  | p :: l' => m !! p = Some (mk_entry (hd next l') prev) ∧ seg m p l' next
  end.

Definition last_of (prev : Z) (l : list Z) : Z := default prev (last l).

(** [h] and [m] represent the list [l]. *)
Record rep (m : entries) (h : page_list_head) (l : list Z) : Prop := {
  rep_next : lh_next h = head l;
  rep_tail : lh_tail h = last l;
  rep_seg : seg m PAGE_LIST_NULL l PAGE_LIST_NULL;
  rep_nodup : NoDup l;
}.

Lemma seg_app m prev a b next :
  seg m prev (a ++ b) next ↔ seg m prev a (hd next b) ∧ seg m (last_of prev a) b next.
Proof.
  revert prev. induction a as [|p a IH]; intros prev; simpl; [tauto|].
  rewrite IH. assert (hd next (a ++ b) = hd (hd next b) a) as -> by by destruct a.
  assert (last_of prev (p :: a) = last_of p a) as ->.
  { unfold last_of. destruct a; [done|]. rewrite last_cons_cons. by destruct (last (z :: a)) eqn:E; [|apply last_None in E]. }
  tauto.
Qed.

Lemma seg_ext m m' prev l next : (∀ p, p ∈ l → m' !! p = m !! p) → seg m prev l next → seg m' prev l next.
Proof.
  revert prev. induction l as [|p l IH]; intros prev Hm; simpl; [done|]. intros [H1 H2].
  split; [rewrite Hm by set_solver; done|]. apply IH; [|done]. intros q Hq. apply Hm. set_solver.
Qed.

Lemma seg_insert m prev l next p e : p ∉ l → seg m prev l next → seg (<[p := e]> m) prev l next.
Proof. intros Hp. apply seg_ext. intros q Hq. rewrite lookup_insert_ne; [done|set_solver]. Qed.

Lemma seg_set_next m prev a q next x :
  seg m prev (a ++ [q]) next → q ∉ a →
  ∃ m', set_next q x m = Ok m' ∧ seg m' prev (a ++ [q]) x ∧ ∀ r, r ≠ q → m' !! r = m !! r.
Proof.
  intros Hs Hq. rewrite seg_app in Hs. destruct Hs as [Ha [Hm _]]. unfold set_next. rewrite Hm. simpl.
  eexists. split; [done|]. split; [|intros r Hr; by rewrite lookup_insert_ne].
  rewrite seg_app. split; [by apply seg_insert|]. simpl. by rewrite lookup_insert_eq.
Qed.

Lemma seg_set_prev m prev q b next x :
  seg m prev (q :: b) next → q ∉ b →
  ∃ m', set_prev q x m = Ok m' ∧ seg m' x (q :: b) next ∧ ∀ r, r ≠ q → m' !! r = m !! r.
Proof.
  intros [Hm Hb] Hq. unfold set_prev. rewrite Hm. simpl. eexists. split; [done|].
  split; [|intros r Hr; by rewrite lookup_insert_ne].
  split; [by rewrite lookup_insert_eq|by apply seg_insert].
Qed.

Lemma set_next_new m p x : is_Some (m !! p) → ∃ e, set_next p x m = Ok (<[p := mk_entry x (le_prev e)]> m).
Proof. intros [e He]. exists e. unfold set_next. by rewrite He. Qed.

Lemma set_prev_at m p x e : m !! p = Some e → set_prev p x m = Ok (<[p := mk_entry (le_next e) x]> m).
Proof. intros He. unfold set_prev. by rewrite He. Qed.

Lemma rep_nil m : rep m PAGE_LIST_HEAD_INIT [].
Proof. split; [done..|constructor]. Qed.

Lemma rep_ext m m' h l : (∀ p, p ∈ l → m' !! p = m !! p) → rep m h l → rep m' h l.
Proof. intros Hm []. split; [done..| |done]. by eapply seg_ext. Qed.

(** ** The operations refine list operations *)

Lemma page_list_empty_spec m h l : rep m h l → page_list_empty h = bool_decide (l = []).
Proof. intros [H _ _ _]. unfold page_list_empty. rewrite H. by destruct l. Qed.

Lemma page_list_add_tail_spec m h l p :
  rep m h l → p ∉ l → is_Some (m !! p) →
  ∃ m' h', page_list_add_tail p h m = Ok (m', h') ∧ rep m' h' (l ++ [p]) ∧
           ∀ r, r ∉ l → r ≠ p → m' !! r = m !! r.
Proof.
  intros [H1 H2 H3 H4] Hp Hm. unfold page_list_add_tail.
  destruct (set_next_new m p PAGE_LIST_NULL Hm) as (e & ->). cbn [mbind outcome_bind].
  set (m1 := <[p := _]> m). assert (He : m1 !! p = Some (mk_entry PAGE_LIST_NULL (le_prev e))) by apply lookup_insert_eq.
  assert (Hm1 : ∀ r, r ≠ p → m1 !! r = m !! r) by (intros r Hr; apply lookup_insert_ne; done).
  rewrite H1, H2. destruct l as [|x l] using rev_ind; simpl.
  - rewrite (set_prev_at _ _ _ _ He). simpl. eexists _, _. split; [done|]. split.
    + split; [done..| |apply NoDup_singleton]. simpl. by rewrite lookup_insert_eq.
    + intros r _ Hr. rewrite lookup_insert_ne by done. auto.
  - clear IHl. destruct (head (l ++ [x])) as [y|] eqn:Hy; [|by destruct l]. rewrite last_snoc. cbn [deref].
    rewrite (set_prev_at _ _ _ _ He). cbn [mbind outcome_bind]. set (m2 := <[p := _]> m1).
    assert (Hs2 : seg m2 PAGE_LIST_NULL (l ++ [x]) PAGE_LIST_NULL).
    { apply seg_insert; [done|]. eapply seg_ext; [|done]. intros r Hr. apply Hm1. by intros ->. }
    assert (Hx : x ∉ l) by (apply NoDup_app in H4 as (_ & Hd & _); intros Hx; apply (Hd _ Hx); set_solver).
    destruct (seg_set_next m2 _ l x _ p Hs2 Hx) as (m3 & -> & Hs3 & Hm3). cbn [mbind outcome_bind].
    eexists _, _. split; [done|]. split.
    + split.
      * simpl. by rewrite head_app, Hy.
      * simpl. by rewrite last_snoc.
      * rewrite seg_app. split; [done|]. unfold last_of. rewrite last_snoc. split; [|done]. simpl.
        rewrite Hm3 by set_solver. unfold m2. by rewrite lookup_insert_eq.
      * apply NoDup_app. split; [done|]. split; [set_solver|apply NoDup_singleton].
    + intros r Hr Hrp. rewrite Hm3 by set_solver. unfold m2. rewrite lookup_insert_ne by done. auto.
Qed.

Lemma page_list_add_spec m h l p :
  rep m h l → p ∉ l → is_Some (m !! p) →
  ∃ m' h', page_list_add p h m = Ok (m', h') ∧ rep m' h' (p :: l) ∧ ∀ r, r ∉ l → r ≠ p → m' !! r = m !! r.
Proof.
  intros [H1 H2 H3 H4] Hp Hm. unfold page_list_add. rewrite H1. destruct l as [|x l]; simpl.
  - destruct (set_next_new m p PAGE_LIST_NULL Hm) as (e & ->). cbn [mbind outcome_bind].
    rewrite (set_prev_at _ _ _ (mk_entry PAGE_LIST_NULL (le_prev e))) by apply lookup_insert_eq. simpl.
    eexists _, _. split; [done|]. split.
    + split; [done..| |apply NoDup_singleton]. simpl. by rewrite lookup_insert_eq.
    + intros r _ Hr. by rewrite !lookup_insert_ne.
  - destruct (set_next_new m p x Hm) as (e & ->). cbn [mbind outcome_bind].
    assert (Hs1 : seg (<[p := mk_entry x (le_prev e)]> m) PAGE_LIST_NULL (x :: l) PAGE_LIST_NULL) by by apply seg_insert.
    apply NoDup_cons in H4 as [Hx Hnd].
    destruct (seg_set_prev _ _ x l _ p Hs1 Hx) as (m2 & -> & Hs2 & Hm2). cbn [mbind outcome_bind].
    assert (He2 : m2 !! p = Some (mk_entry x (le_prev e))) by (rewrite Hm2 by set_solver; apply lookup_insert_eq).
    rewrite (set_prev_at _ _ _ _ He2). simpl. eexists _, _. split; [done|]. split.
    + split; [done|by rewrite H2| |by repeat (apply NoDup_cons; split)]. simpl. rewrite lookup_insert_eq. split; [done|].
      by apply (seg_insert m2 p (x :: l)).
    + intros r Hr Hrp. rewrite lookup_insert_ne by done. rewrite Hm2 by set_solver. by rewrite lookup_insert_ne.
Qed.

(** What unlinking [p] from [a ++ p :: b] leaves. *)
Definition unlinked (m m' : entries) (h' : page_list_head) (a b : list Z) : Prop :=
  rep m' h' (a ++ b) ∧ ∀ r, r ∉ a ++ b → m' !! r = m !! r.

Lemma rep_at m h a p b :
  rep m h (a ++ p :: b) → m !! p = Some (mk_entry (hd PAGE_LIST_NULL b) (last_of PAGE_LIST_NULL a)).
Proof. intros [_ _ Hs _]. apply seg_app in Hs as [_ [Hm _]]. done. Qed.

Lemma seg_drop m a p b :
  seg m PAGE_LIST_NULL (a ++ p :: b) PAGE_LIST_NULL →
  seg m PAGE_LIST_NULL a p ∧ seg m p b PAGE_LIST_NULL.
Proof. intros [Ha [_ Hb]]%seg_app. done. Qed.

Lemma nodup_mid (a : list Z) p b : NoDup (a ++ (p :: b)) → (p ∉ a) ∧ (p ∉ b) ∧ NoDup (a ++ b) ∧ (∀ x, x ∈ a → x ∉ b).
Proof.
  intros (Ha & Hd & [Hp Hb]%NoDup_cons)%NoDup_app. split; [intros Hx; apply (Hd _ Hx); set_solver|].
  split; [done|]. split; [|set_solver]. apply NoDup_app. split; [done|]. split; [set_solver|done].
Qed.

Lemma set_next_last m prev a next x :
  seg m prev a next → NoDup a → a ≠ [] →
  ∃ m', set_next (last_of prev a) x m = Ok m' ∧ seg m' prev a x ∧ ∀ r, r ∉ a → m' !! r = m !! r.
Proof.
  intros Hs Hnd Hn. destruct a as [|q a _] using rev_ind; [done|]. unfold last_of. rewrite last_snoc. simpl.
  apply NoDup_app in Hnd as (_ & Hd & _).
  destruct (seg_set_next m prev a q next x Hs) as (m' & -> & Hs' & Hm'); [intros Hq; apply (Hd _ Hq); set_solver|].
  exists m'. split; [done|]. split; [done|]. intros r Hr. apply Hm'. set_solver.
Qed.

Lemma set_prev_hd m prev b next x :
  seg m prev b next → NoDup b → b ≠ [] →
  ∃ m', set_prev (hd PAGE_LIST_NULL b) x m = Ok m' ∧ seg m' x b next ∧ ∀ r, r ∉ b → m' !! r = m !! r.
Proof.
  intros Hs Hnd Hn. destruct b as [|q b]; [done|]. apply NoDup_cons in Hnd as [Hq Hnd]. simpl.
  destruct (seg_set_prev m prev q b next x Hs Hq) as (m' & -> & Hs' & Hm').
  exists m'. split; [done|]. split; [done|]. intros r Hr. apply Hm'. set_solver.
Qed.

(** The page is first, last, or in the middle. *)
Lemma del_head_first m h p b :
  rep m h (p :: b) →
  ∃ m' h', __page_list_del_head p h (hd PAGE_LIST_NULL b) PAGE_LIST_NULL m = Ok (true, m', h') ∧ unlinked m m' h' [] b.
Proof.
  intros [H1 H2 H3 H4]. apply NoDup_cons in H4 as [Hp Hnd]. destruct H3 as [_ Hsb].
  unfold __page_list_del_head. rewrite bool_decide_eq_true_2 by done. destruct b as [|q b].
  - rewrite bool_decide_eq_false_2 by (intros Hx; by apply Hx). eexists _, _. split; [done|]. split; [apply rep_nil|done].
  - rewrite bool_decide_eq_true_2.
    2: { rewrite H2. intros Hl. apply Hp. rewrite last_cons_cons in Hl. by apply last_Some_elem_of. }
    destruct (set_prev_hd m p (q :: b) PAGE_LIST_NULL PAGE_LIST_NULL Hsb Hnd) as (m' & -> & Hs' & Hm'); [done|].
    cbn [mbind outcome_bind]. eexists _, _. split; [done|]. split; [|done].
    split; [done|by rewrite H2|done|done].
Qed.

Lemma head_not_mid (a : list Z) p b : a ≠ [] → p ∉ a → head (a ++ p :: b) ≠ Some p.
Proof. intros Hn Hp. destruct a as [|q a]; [done|]. simpl. set_solver. Qed.

Lemma del_head_last m h a p :
  rep m h (a ++ [p]) → a ≠ [] →
  ∃ m' h', __page_list_del_head p h PAGE_LIST_NULL (last_of PAGE_LIST_NULL a) m = Ok (true, m', h') ∧ unlinked m m' h' a [].
Proof.
  intros [H1 H2 H3 H4] Hn. destruct (nodup_mid _ _ _ H4) as (Hp & _ & Hnd & _). rewrite app_nil_r in Hnd.
  destruct (seg_drop _ _ _ _ H3) as [Hsa _].
  unfold __page_list_del_head. rewrite bool_decide_eq_false_2 by (rewrite H1; by apply head_not_mid).
  rewrite bool_decide_eq_true_2 by by rewrite H2, last_snoc.
  destruct (set_next_last m _ a p PAGE_LIST_NULL Hsa Hnd Hn) as (m' & -> & Hs' & Hm').
  cbn [mbind outcome_bind]. eexists _, _. split; [done|]. unfold unlinked. rewrite app_nil_r. split; [|done].
  split; [|simpl|done|done].
  - simpl. rewrite H1. by destruct a.
  - unfold last_of. destruct (last a) eqn:E; [done|]. by apply last_None in E.
Qed.

Lemma del_middle m h a p b :
  rep m h (a ++ p :: b) → a ≠ [] → b ≠ [] →
  ∃ m', unlink_middle (hd PAGE_LIST_NULL b) (last_of PAGE_LIST_NULL a) m = Ok m' ∧ unlinked m m' h a b.
Proof.
  intros [H1 H2 H3 H4] Ha Hb. destruct (nodup_mid _ _ _ H4) as (_ & _ & Hnd & Hdis).
  destruct (seg_drop _ _ _ _ H3) as [Hsa Hsb]. pose proof Hnd as (Hna & _ & Hnb)%NoDup_app. unfold unlink_middle.
  destruct (set_prev_hd m p b _ (last_of PAGE_LIST_NULL a) Hsb Hnb Hb) as (m1 & -> & Hs1 & Hm1). cbn [mbind outcome_bind].
  assert (Hsa1 : seg m1 PAGE_LIST_NULL a p) by (eapply seg_ext, Hsa; intros r Hr; apply Hm1; auto).
  destruct (set_next_last m1 _ a p (hd PAGE_LIST_NULL b) Hsa1 Hna Ha) as (m2 & -> & Hs2 & Hm2).
  exists m2. split; [done|]. split.
  - split; [| | |done].
    + rewrite H1. by destruct a.
    + rewrite H2. destruct b as [|q b]; [done|]. rewrite !last_app, last_cons_cons. done.
    + rewrite seg_app. split; [done|]. eapply seg_ext, Hs1. intros r Hr. apply Hm2. set_solver.
  - intros r Hr. rewrite Hm2, Hm1 by set_solver. done.
Qed.

Lemma del_head_none m h a p b q r :
  rep m h (a ++ p :: b) → a ≠ [] → b ≠ [] → __page_list_del_head p h q r m = Ok (false, m, h).
Proof.
  intros [H1 H2 _ H4] Ha Hb. destruct (nodup_mid _ _ _ H4) as (Hpa & Hpb & _ & _). unfold __page_list_del_head.
  rewrite bool_decide_eq_false_2 by (rewrite H1; by apply head_not_mid).
  rewrite bool_decide_eq_false_2; [done|]. rewrite H2. destruct b as [|x b]; [done|].
  rewrite last_app_cons, last_cons_cons. intros Hl. apply Hpb. by apply last_Some_elem_of.
Qed.

Lemma page_list_del_spec m h a p b :
  rep m h (a ++ p :: b) → ∃ m' h', page_list_del p h m = Ok (m', h') ∧ unlinked m m' h' a b.
Proof.
  intros Hr. unfold page_list_del. rewrite (rep_at _ _ _ _ _ Hr). cbn [deref le_next le_prev].
  destruct a as [|x a]; [|destruct b as [|y b]].
  - change (last_of PAGE_LIST_NULL []) with PAGE_LIST_NULL.
    destruct (del_head_first m h p b Hr) as (m' & h' & -> & Hu). simpl. eauto.
  - cbn [hd]. destruct (del_head_last m h (x :: a) p Hr) as (m' & h' & -> & Hu); [done|]. simpl. eauto.
  - rewrite (del_head_none m h (x :: a) p (y :: b)) by done. cbn [mbind outcome_bind].
    destruct (del_middle m h (x :: a) p (y :: b) Hr) as (m' & -> & Hu); [done..|]. simpl. eauto.
Qed.

Lemma page_list_remove_head_spec m h l :
  rep m h l →
  ∃ m' h', page_list_remove_head h m = Ok (head l, m', h') ∧ rep m' h' (tail l) ∧
           ∀ r, r ∉ tail l → m' !! r = m !! r.
Proof.
  intros Hr. unfold page_list_remove_head. rewrite (rep_next _ _ _ Hr). destruct l as [|p l]; simpl; [eauto 10|].
  destruct (page_list_del_spec m h [] p l Hr) as (m' & h' & -> & Hu & Hm). cbn [mbind outcome_bind]. eauto 10.
Qed.

Lemma del_head_absent m h l p q r : rep m h l → p ∉ l → __page_list_del_head p h q r m = Ok (false, m, h).
Proof.
  intros [H1 H2 _ _] Hp. unfold __page_list_del_head. rewrite bool_decide_eq_false_2.
  - rewrite bool_decide_eq_false_2; [done|]. rewrite H2. intros Hl. by apply Hp, last_Some_elem_of.
  - rewrite H1. intros Hl. apply Hp. destruct l; [done|]. simpl in Hl. set_solver.
Qed.

(** The page is on one of two lists that share no page. *)
Lemma page_list_del2_left m h1 h2 l2 a p b :
  rep m h1 (a ++ p :: b) → rep m h2 l2 → (∀ x, x ∈ a ++ p :: b → x ∉ l2) →
  ∃ m' h1', page_list_del2 p h1 h2 m = Ok (m', h1', h2) ∧ unlinked m m' h1' a b ∧ rep m' h2 l2.
Proof.
  intros Hr1 Hr2 Hdis. assert (Hp : p ∉ l2) by (apply Hdis; set_solver).
  assert (Hk : ∀ m' h', unlinked m m' h' a b → unlinked m m' h' a b ∧ rep m' h2 l2).
  { intros m' h' [Hu Hm]. split; [done|]. eapply rep_ext, Hr2. intros r Hr. apply Hm. intros Hr'.
    apply (Hdis r); [set_solver|done]. }
  unfold page_list_del2. rewrite (rep_at _ _ _ _ _ Hr1). cbn [deref le_next le_prev].
  destruct a as [|x a]; [|destruct b as [|y b]].
  - change (last_of PAGE_LIST_NULL []) with PAGE_LIST_NULL.
    destruct (del_head_first m h1 p b Hr1) as (m' & h' & -> & Hu). simpl. eauto.
  - cbn [hd]. destruct (del_head_last m h1 (x :: a) p Hr1) as (m' & h' & -> & Hu); [done|]. simpl. eauto.
  - rewrite (del_head_none m h1 (x :: a) p (y :: b)) by done. cbn [mbind outcome_bind].
    rewrite (del_head_absent m h2 l2) by done. cbn [mbind outcome_bind].
    destruct (del_middle m h1 (x :: a) p (y :: b) Hr1) as (m' & -> & Hu); [done..|]. simpl. eauto.
Qed.

Lemma page_list_del2_right m h1 h2 l1 a p b :
  rep m h1 l1 → rep m h2 (a ++ p :: b) → (∀ x, x ∈ a ++ p :: b → x ∉ l1) →
  ∃ m' h2', page_list_del2 p h1 h2 m = Ok (m', h1, h2') ∧ unlinked m m' h2' a b ∧ rep m' h1 l1.
Proof.
  intros Hr1 Hr2 Hdis. assert (Hp : p ∉ l1) by (apply Hdis; set_solver).
  destruct (page_list_del_spec m h2 a p b Hr2) as (m' & h2' & Hdel & Hu & Hm). exists m', h2'. split; [|split; [done|]].
  - revert Hdel. unfold page_list_del, page_list_del2. rewrite (rep_at _ _ _ _ _ Hr2). cbn [deref].
    rewrite (del_head_absent m h1 l1) by done. cbn [mbind outcome_bind].
    destruct (__page_list_del_head _ _ _ _ _) as [[[[] m1] h3]|]; simpl; [by intros [= <- <-]| |done].
    destruct (unlink_middle _ _ _) as [m2|]; simpl; [by intros [= <- <-]|done].
  - eapply rep_ext, Hr1. intros r Hr. apply Hm. intros Hr'. apply (Hdis r); [set_solver|done].
Qed.

Lemma page_list_splice_spec m h hl l ls :
  rep m h l → rep m hl ls → (∀ x, x ∈ ls → x ∉ l) →
  ∃ m' h', page_list_splice hl h m = Ok (m', h') ∧ rep m' h' (ls ++ l).
Proof.
  intros Hr Hrs Hdis. destruct Hr as [H1 H2 H3 H4], Hrs as [S1 S2 S3 S4]. unfold page_list_splice. rewrite S1.
  destruct ls as [|f ls]; [by eexists _, _|]. simpl. rewrite H1. destruct l as [|a l]; simpl.
  { eexists _, _. split; [done|]. rewrite app_nil_r. by split. }
  rewrite S2. destruct (last (f :: ls)) as [z|] eqn:Hz; [|by apply last_None in Hz]. cbn [deref].
  destruct S3 as [Sf Ss], H3 as [Ha Hs]. rewrite Sf, Ha. cbn [deref le_prev]. rewrite !Z.eqb_refl. cbn [negb BUG_ON].
  assert (Hsf : seg m PAGE_LIST_NULL (f :: ls) PAGE_LIST_NULL) by by split.
  assert (Hsa : seg m PAGE_LIST_NULL (a :: l) PAGE_LIST_NULL) by by split.
  destruct (set_next_last m _ (f :: ls) _ a Hsf S4) as (m1 & Hm1 & Hs1 & He1); [done|].
  assert (Hlz : last_of PAGE_LIST_NULL (f :: ls) = z) by (unfold last_of; by rewrite Hz). rewrite Hlz in Hm1.
  rewrite Hm1. cbn [mbind outcome_bind].
  assert (Hsa1 : seg m1 PAGE_LIST_NULL (a :: l) PAGE_LIST_NULL).
  { eapply seg_ext, Hsa. intros r Hr. apply He1. intros Hr'. by apply (Hdis r). }
  apply NoDup_cons in H4 as [Hna Hnl].
  destruct (seg_set_prev m1 _ a l _ z Hsa1 Hna) as (m2 & -> & Hs2 & He2). cbn [mbind outcome_bind].
  eexists _, _. split; [done|]. split.
  - done.
  - simpl lh_tail. rewrite H2. change (f :: ls ++ a :: l) with ((f :: ls) ++ a :: l). rewrite last_app.
    destruct (last (a :: l)) eqn:E; [done|]. by apply last_None in E.
  - apply (seg_app m2 _ (f :: ls) (a :: l)). rewrite Hlz. split; [|done].
    eapply seg_ext, Hs1. intros r Hr. apply He2. intros ->. apply (Hdis a Hr). set_solver.
  - apply (NoDup_app (f :: ls) (a :: l)). split; [done|]. split; [done|]. by apply NoDup_cons.
Qed.

(** The operations on page lists are operations on lists of pages. A page
    that is on no list is put at the end by [page_list_add_tail] and in front by
    [page_list_add]; [page_list_del] removes a page of the list wherever it is;
    [page_list_remove_head] returns the first page and removes it, or returns
    nothing for the empty list; [page_list_splice] prepends a list. Links of
    pages of other lists are not touched. *)
Theorem page_list_refines m h l :
  rep m h l →
  (∀ p, p ∉ l → is_Some (m !! p) →
    (∃ m' h', page_list_add_tail p h m = Ok (m', h') ∧ rep m' h' (l ++ [p]) ∧ ∀ r, r ∉ p :: l → m' !! r = m !! r) ∧
    (∃ m' h', page_list_add p h m = Ok (m', h') ∧ rep m' h' (p :: l) ∧ ∀ r, r ∉ p :: l → m' !! r = m !! r)) ∧
  (∀ a p b, l = a ++ p :: b →
    ∃ m' h', page_list_del p h m = Ok (m', h') ∧ rep m' h' (a ++ b) ∧ ∀ r, r ∉ a ++ b → m' !! r = m !! r) ∧
  (∃ m' h', page_list_remove_head h m = Ok (head l, m', h') ∧ rep m' h' (tail l) ∧
            ∀ r, r ∉ tail l → m' !! r = m !! r) ∧
  (∀ hl ls, rep m hl ls → (∀ x, x ∈ ls → x ∉ l) →
    ∃ m' h', page_list_splice hl h m = Ok (m', h') ∧ rep m' h' (ls ++ l)).
Proof.
  intros Hr. split; [|split; [|split]].
  - intros p Hp Hm. split.
    + destruct (page_list_add_tail_spec m h l p Hr Hp Hm) as (m' & h' & ? & ? & Hx). exists m', h'.
      do 2 (split; [done|]). intros r Hr'. apply Hx; set_solver.
    + destruct (page_list_add_spec m h l p Hr Hp Hm) as (m' & h' & ? & ? & Hx). exists m', h'.
      do 2 (split; [done|]). intros r Hr'. apply Hx; set_solver.
  - intros a p b ->. by apply page_list_del_spec.
  - by apply page_list_remove_head_spec.
  - intros hl ls. by apply page_list_splice_spec.
Qed.

(** Three pages of which two are on a list; the third is added. *)
Lemma page_list_refines_witness :
  let m : entries := {[ 5 := mk_entry 7 PAGE_LIST_NULL; 7 := mk_entry PAGE_LIST_NULL 5; 9 := mk_entry 0 0 ]} in
  let h := mk_head (Some 5) (Some 7) in
  rep m h [5; 7] ∧ ∃ m' h', page_list_add_tail 9 h m = Ok (m', h') ∧ rep m' h' [5; 7; 9].
Proof.
  intros m h. assert (Hr : rep m h [5; 7]).
  { split; [done|done|split; [reflexivity|split; [reflexivity|done]]|].
    apply NoDup_cons. split; [intros H; apply list_elem_of_singleton in H; lia|apply NoDup_singleton]. }
  split; [exact Hr|]. destruct (page_list_refines m h [5; 7] Hr) as [Hadd _].
  destruct (Hadd 9) as [(m' & h' & Heq & Hr' & _) _]; [|by eexists|].
  - intros H. apply elem_of_cons in H as [H|H]; [lia|]. apply list_elem_of_singleton in H. lia.
  - exists m', h'. split; [exact Heq|exact Hr'].
Defined.
