(* ===== verification/BootMem.v ===== *)
(** * The boot-time page allocator (xen/common/page_alloc.c)

    A sorted array of free page ranges, used until the heap exists. The
    array lives in the first page handed over. The theorems say what each
    operation does to the set of free pages; a [BOOT_BUG_ON] is [Bug]. *)

From S2P Require Import Prelude.
Local Open Scope xen_scope.

(** ** Parsing numbers (xen/common/vsprintf.c, xen/common/lib.c)

    A string is the list of its characters before the terminating NUL. *)

Definition char_at (s : list Z) : Z := hd 0 s.

Definition isdigit (c : Z) : bool := (48 <=? c) && (c <=? 57).
Definition isxdigit (c : Z) : bool :=
  isdigit c || ((65 <=? c) && (c <=? 70)) || ((97 <=? c) && (c <=? 102)).
Definition islower (c : Z) : bool :=
  ((97 <=? c) && (c <=? 122)) || ((223 <=? c) && (c <=? 255) && negb (c =? 247)).
Definition toupper (c : Z) : Z := if islower c then c - 32 else c.

Definition digit_value (c : Z) : Z := if isdigit c then c - 48 else toupper c - 65 + 10.

Fixpoint strtoul_loop (s : list Z) (base result : Z) : Z * list Z :=
  match s with
  | c :: s' =>
      if isxdigit c && (digit_value c <? base)
      then strtoul_loop s' base (u64 (result * base + digit_value c))
      else (result, s)
  | [] => (result, [])
  end.

(** The number and the rest of the string. *)
Definition simple_strtoul (s : list Z) (base : Z) : Z * list Z :=
  let '(cp, base) :=
    if base =? 0 then
      if char_at s =? 48 then
        let cp := tail s in
        if (toupper (char_at cp) =? 88) && isxdigit (char_at (tail cp)) then (tail cp, 16) else (cp, 8)
      else (s, 10)
    else if base =? 16 then
      if (char_at s =? 48) && (toupper (char_at (tail s)) =? 88) then (tail (tail s), 16) else (s, 16)
    else (s, base) in
  strtoul_loop cp base 0.

(** ** The allocator *)

Definition PAGE_SHIFT : Z := 12.
Definition PAGE_SIZE : Z := 4096.

Definition round_pgdown (p : Z) : Z := Z.ldiff p (PAGE_SIZE - 1).
Definition round_pgup (p : Z) : Z := round_pgdown (u64 (p + (PAGE_SIZE - 1))).

(** MFNs [s] up to [e - 1] are free. *)
Record bootmem_region := mk_region { r_s : Z; r_e : Z }.

Record bootmem := mk_bootmem {
  first_valid_mfn : Z;
  bootmem_region_page : option Z;
  bootmem_region_list : list bootmem_region;
}.

(** [PAGE_SIZE / sizeof(struct bootmem_region)] *)
Definition MAX_REGIONS : Z := 256.

Definition set_regions (l : list bootmem_region) (b : bootmem) : bootmem :=
  mk_bootmem (first_valid_mfn b) (bootmem_region_page b) l.

(** The index the loop of [bootmem_region_add] stops at. *)
Fixpoint region_index (l : list bootmem_region) (s : Z) : nat :=
  match l with
  | [] => O
  | r :: l' => if s <? r_e r then O else S (region_index l' s)
  end.

Definition bootmem_region_add (s e : Z) (b : bootmem) : outcome bootmem :=
  let '(s, b) :=
    if bool_decide (bootmem_region_page b = None) && (s <? e)
    then (u64 (s + 1), mk_bootmem (first_valid_mfn b) (Some s) (bootmem_region_list b))
    else (s, b) in
  if e <=? s then Ok b
  else
    let l := bootmem_region_list b in
    let i := region_index l s in
    BUG_ON (match l !! i with Some r => r_s r <? e | None => false end)
      (BUG_ON (Z.of_nat (length l) =? MAX_REGIONS)
         (Ok (set_regions (take i l ++ mk_region s e :: drop i l) b))).

(** The loop of [bootmem_region_zap] from index [i]; the array may grow. *)
Fixpoint zap_loop (fuel : nat) (i : nat) (s e : Z) (b : bootmem) : outcome bootmem :=
  match fuel with
  | O => Ok b
  | S fuel' =>
      match bootmem_region_list b !! i with
      | None => Ok b
      | Some r =>
          let put r' := set_regions (<[i := r']> (bootmem_region_list b)) b in
          if e <=? r_s r then Ok b
          else if r_e r <=? s then zap_loop fuel' (S i) s e b
          else if s <=? r_s r then
            zap_loop fuel' (S i) s e (put (mk_region (Z.min e (r_e r)) (r_e r)))
          else if r_e r <=? e then
            zap_loop fuel' (S i) s e (put (mk_region (r_s r) s))
          else
            let! b1 := bootmem_region_add e (r_e r) (put (mk_region (r_s r) s)) in
            zap_loop fuel' (S i) s e b1
      end
  end.

(** More than the array can hold. *)
Definition region_fuel : nat := 258.

Definition bootmem_region_zap (s e : Z) (b : bootmem) : outcome bootmem :=
  zap_loop region_fuel 0 s e b.

(** [get_platform_badpages] *)
Fixpoint zap_badpages (l : list Z) (b : bootmem) : outcome bootmem :=
  match l with
  | [] => Ok b
  | p :: l' =>
      let! b1 := bootmem_region_zap (Z.shiftr p PAGE_SHIFT) (Z.shiftr p PAGE_SHIFT + 1) b in
      zap_badpages l' b1
  end.

(** The bad-page option, parsed until it ends or does not make sense. *)
Fixpoint zap_option (fuel : nat) (p : list Z) (b : bootmem) : outcome bootmem :=
  match fuel with
  | O => Ok b
  | S fuel' =>
      match p with
      | [] => Ok b
      | _ =>
          let '(bad_spfn, p) := simple_strtoul p 0 in
          let '(bad_epfn, p) :=
            if char_at p =? 45 then
              let '(e, p) := simple_strtoul (tail p) 0 in
              (if e <? bad_spfn then bad_spfn else e, p)
            else (bad_spfn, p) in
          let next :=
            if char_at p =? 44 then Some (tail p)
            else if negb (char_at p =? 0) then None else Some p in
          match next with
          | None => Ok b
          | Some p =>
              let! b1 := bootmem_region_zap bad_spfn (u64 (bad_epfn + 1)) b in
              zap_option fuel' p b1
          end
      end
  end.

Definition init_boot_pages (badpages : list Z) (opt_badpage : list Z) (ps pe : Z) (b : bootmem)
    : outcome bootmem :=
  let ps := round_pgup ps in
  let pe := round_pgdown pe in
  if pe <=? ps then Ok b
  else
    let b1 := mk_bootmem (Z.min (Z.shiftr ps PAGE_SHIFT) (first_valid_mfn b)) (bootmem_region_page b)
                (bootmem_region_list b) in
    let! b2 := bootmem_region_add (Z.shiftr ps PAGE_SHIFT) (Z.shiftr pe PAGE_SHIFT) b1 in
    let! b3 := zap_badpages badpages b2 in
    zap_option (S (length opt_badpage)) opt_badpage b3.

(** The loop over the regions from the last one down; [n] regions are left. *)
Fixpoint alloc_boot_loop (n : nat) (nr_pfns pfn_align : Z) (b : bootmem) : outcome (Z * bootmem) :=
  match n with
  | O => Bug
  | S i =>
      deref (bootmem_region_list b !! i) (λ r,
        let pg := Z.ldiff (u64 (r_e r - nr_pfns)) (pfn_align - 1) in
        if pg <? r_s r then alloc_boot_loop i nr_pfns pfn_align b
        else
          let b1 := set_regions (<[i := mk_region (r_s r) pg]> (bootmem_region_list b)) b in
          let! b2 := bootmem_region_add (u64 (pg + nr_pfns)) (r_e r) b1 in
          Ok (pg, b2))
  end.

Definition alloc_boot_pages (nr_pfns pfn_align : Z) (b : bootmem) : outcome (Z * bootmem) :=
  alloc_boot_loop (length (bootmem_region_list b)) nr_pfns pfn_align b.

(** ** The free pages *)

Definition free_in (l : list bootmem_region) (m : Z) : Prop := ∃ r, r ∈ l ∧ r_s r ≤ m < r_e r.

(** Sorted and disjoint from [lo] on. *)
Fixpoint sorted_from (lo : Z) (l : list bootmem_region) : Prop :=
  match l with
  | [] => True
  | r :: l' => lo ≤ r_s r ≤ r_e r ∧ sorted_from (r_e r) l'
  end.

Record bootmem_wf (b : bootmem) : Prop := {
  bw_sorted : sorted_from 0 (bootmem_region_list b);
  bw_range r : r ∈ bootmem_region_list b → r_e r < 2 ^ 64;
  bw_page : bootmem_region_list b ≠ [] → bootmem_region_page b ≠ None;
  bw_room : Z.of_nat (length (bootmem_region_list b)) ≤ MAX_REGIONS;
}.

Lemma free_cons r l m : free_in (r :: l) m ↔ r_s r ≤ m < r_e r ∨ free_in l m.
Proof.
  unfold free_in. split.
  - intros (x & [->|Hx]%elem_of_cons & Hm); eauto.
  - intros [Hm|(x & Hx & Hm)]; [exists r|exists x]; split; try done; set_solver.
Qed.

Lemma free_app a l m : free_in (a ++ l) m ↔ free_in a m ∨ free_in l m.
Proof. unfold free_in. setoid_rewrite elem_of_app. naive_solver. Qed.

Lemma free_nil m : ¬ free_in [] m.
Proof. intros (r & Hr & _). set_solver. Qed.

Lemma sorted_mono lo lo' l : lo' ≤ lo → sorted_from lo l → sorted_from lo' l.
Proof. destruct l; simpl; [done|]. intros ? [? ?]. split; [lia|done]. Qed.

Lemma sorted_free lo l m : sorted_from lo l → free_in l m → lo ≤ m.
Proof.
  revert lo. induction l as [|r l IH]; intros lo Hs Hf; [by apply free_nil in Hf|].
  destruct Hs as [Hr Hs]. apply free_cons in Hf as [?|Hf]; [lia|]. specialize (IH _ Hs Hf). lia.
Qed.

(** The end of the last region. *)
Definition end_of (lo : Z) (a : list bootmem_region) : Z := from_option r_e lo (last a).

Lemma sorted_app lo a l : sorted_from lo (a ++ l) ↔ sorted_from lo a ∧ sorted_from (end_of lo a) l.
Proof.
  revert lo. induction a as [|r a IH]; intros lo; simpl; [unfold end_of; simpl; tauto|].
  rewrite IH. assert (end_of lo (r :: a) = end_of (r_e r) a) as ->; [|tauto].
  unfold end_of. destruct a; [done|]. rewrite last_cons_cons. by destruct (last (b :: a)) eqn:E; [|apply last_None in E].
Qed.

Lemma sorted_end lo a r : sorted_from lo a → r ∈ a → lo ≤ r_s r ∧ r_e r ≤ end_of lo a.
Proof.
  revert lo r. induction a as [|x a IH]; intros lo r Hs Hr; [set_solver|].
  destruct Hs as [Hx Hs]. assert (Heq : end_of lo (x :: a) = end_of (r_e x) a).
  { unfold end_of. destruct a; [done|]. rewrite last_cons_cons. by destruct (last (b :: a)) eqn:E; [|apply last_None in E]. }
  rewrite Heq. assert (r_e x ≤ end_of (r_e x) a).
  { destruct a as [|y a]; [done|]. destruct (IH _ _ Hs (list_elem_of_here y a)). destruct Hs as [? _]. lia. }
  apply elem_of_cons in Hr as [->|Hr]; [lia|]. destruct (IH _ _ Hs Hr). lia.
Qed.

(** ** Adding a region *)

Lemma region_index_app a l s : (∀ r, r ∈ a → r_e r ≤ s) → region_index (a ++ l) s = (length a + region_index l s)%nat.
Proof.
  induction a as [|r a IH]; intros Ha; [done|]. simpl. destruct (Z.ltb_spec s (r_e r)) as [Hlt|].
  - specialize (Ha r ltac:(set_solver)). lia.
  - rewrite IH; [done|]. set_solver.
Qed.

Lemma region_index_0 l s e : sorted_from e l → s < e → region_index l s = 0%nat.
Proof. destruct l as [|r l]; [done|]. intros [? _] ?. simpl. destruct (Z.ltb_spec s (r_e r)); [done|lia]. Qed.

(** Between the regions [a] that end before it and [c] that start after it. *)
Lemma region_add_between s e b a c :
  bootmem_region_list b = a ++ c → bootmem_region_page b ≠ None → s < e →
  (∀ r, r ∈ a → r_e r ≤ s) → sorted_from e c → Z.of_nat (length (a ++ c)) < MAX_REGIONS →
  bootmem_region_add s e b = Ok (set_regions (a ++ mk_region s e :: c) b).
Proof.
  intros Hl Hp Hse Ha Hc Hroom. unfold bootmem_region_add. rewrite bool_decide_eq_false_2 by done. simpl.
  destruct (Z.leb_spec e s) as [|_]; [lia|]. rewrite Hl, region_index_app by done.
  rewrite (region_index_0 c s e), Nat.add_0_r by done. rewrite lookup_app_r, Nat.sub_diag by lia.
  assert (match c !! 0%nat with Some r => r_s r <? e | None => false end = false) as ->.
  { destruct c as [|r c]; [done|]. destruct Hc as [? _]. simpl. apply Z.ltb_ge. lia. }
  cbn [BUG_ON]. destruct (Z.eqb_spec (Z.of_nat (length (a ++ c))) MAX_REGIONS) as [|_]; [lia|]. cbn [BUG_ON].
  by rewrite take_app_length, drop_app_length.
Qed.

Lemma region_add_empty s e b : e ≤ s → bootmem_region_add s e b = Ok b.
Proof.
  intros Hse. unfold bootmem_region_add. destruct (Z.ltb_spec s e) as [|_]; [lia|]. rewrite andb_false_r.
  destruct (Z.leb_spec e s); [done|lia].
Qed.

(** Where a range that meets no region belongs. *)
Lemma sorted_split lo l s e :
  sorted_from lo l → s < e → (∀ r, r ∈ l → e ≤ r_s r ∨ r_e r ≤ s) →
  ∃ a c, l = a ++ c ∧ (∀ r, r ∈ a → r_e r ≤ s) ∧ sorted_from e c.
Proof.
  intros Hs Hse Hd. revert lo Hs. induction l as [|r l IH]; intros lo Hs; [exists [], []; set_solver|].
  destruct Hs as [Hr Hs]. destruct (Hd r ltac:(set_solver)) as [Hlt|Hlt].
  - exists [], (r :: l). split; [done|]. split; [set_solver|]. split; [lia|done].
  - destruct (IH ltac:(set_solver) _ Hs) as (a & c & -> & Ha & Hc). exists (r :: a), c. set_solver.
Qed.

Lemma sorted_insert lo a c s e :
  sorted_from lo (a ++ c) → (∀ r, r ∈ a → r_e r ≤ s) → sorted_from e c → lo ≤ s ≤ e →
  sorted_from lo (a ++ mk_region s e :: c).
Proof.
  intros [Ha Hc]%sorted_app Hle Hc' Hlo. apply sorted_app. split; [done|]. split; [|done]. simpl. split; [|lia].
  unfold end_of. destruct (last a) as [r|] eqn:Hl; simpl; [|lia]. apply Hle. by apply last_Some_elem_of.
Qed.

Lemma bootmem_wf_regions b l :
  bootmem_wf b → bootmem_region_page b ≠ None → sorted_from 0 l → (∀ r, r ∈ l → r_e r < 2 ^ 64) →
  Z.of_nat (length l) ≤ MAX_REGIONS → bootmem_wf (set_regions l b).
Proof. intros [] Hp Hs Hr Hl. by split. Qed.

(** ** Removing a range *)

(** What [bootmem_region_zap] makes of the array. *)
Fixpoint zap_ref (l : list bootmem_region) (s e : Z) : list bootmem_region :=
  match l with
  | [] => []
  | r :: l' =>
      if e <=? r_s r then r :: l'
      else if r_e r <=? s then r :: zap_ref l' s e
      else if s <=? r_s r then mk_region (Z.min e (r_e r)) (r_e r) :: zap_ref l' s e
      else if r_e r <=? e then mk_region (r_s r) s :: zap_ref l' s e
      else mk_region (r_s r) s :: mk_region e (r_e r) :: l'
  end.

Lemma zap_ref_sorted lo l s e : sorted_from lo l → s < e → sorted_from lo (zap_ref l s e).
Proof.
  intros Hs Hse. revert lo Hs. induction l as [|r l IH]; intros lo Hs; simpl; [done|]. destruct Hs as [Hr Hs].
  specialize (IH _ Hs). case_Z; simpl; split; try lia; try done.
  - eapply sorted_mono; [|exact IH]; lia.
  - split; [lia|done].
Qed.

Lemma zap_ref_free lo l s e m :
  sorted_from lo l → s < e → free_in (zap_ref l s e) m ↔ free_in l m ∧ ¬ (s ≤ m < e).
Proof.
  intros Hs Hse. revert lo Hs. induction l as [|r l IH]; intros lo Hs; simpl.
  { pose proof (free_nil m). tauto. }
  destruct Hs as [Hr Hs]. specialize (IH _ Hs). pose proof (sorted_free _ _ m Hs) as Hge.
  case_Z; rewrite !free_cons, ?IH; simpl; split; intros Hm;
    repeat match goal with H : _ ∨ _ |- _ => destruct H | H : _ ∧ _ |- _ => destruct H end;
    try (pose proof (Hge ltac:(assumption))); try (split; [|lia]); try lia;
    try (right; done); try (left; lia); try (right; split; [done|lia]); try tauto.
  all: first [by left; lia | by right; left; lia | by right; right | destruct (decide (m < s)); [left; lia|right; left; lia]].
Qed.

Lemma zap_ref_end l s e x : x ∈ zap_ref l s e → s < e → ∃ r, r ∈ l ∧ r_e x ≤ r_e r.
Proof.
  intros Hx Hse. induction l as [|r l IH]; simpl in *; [set_solver|].
  assert (Hl : x ∈ l → ∃ r', r' ∈ r :: l ∧ r_e x ≤ r_e r') by (intros ?; exists x; set_solver).
  assert (Hi : x ∈ zap_ref l s e → ∃ r', r' ∈ r :: l ∧ r_e x ≤ r_e r').
  { intros Hx'. destruct (IH Hx') as (r' & ? & ?). exists r'. split; [set_solver|done]. }
  assert (Hr : r_e x ≤ r_e r → ∃ r', r' ∈ r :: l ∧ r_e x ≤ r_e r') by (intros ?; exists r; set_solver).
  revert Hx. case_Z; intros Hx; repeat (apply elem_of_cons in Hx as [->|Hx]; [apply Hr; simpl; lia|]); auto.
Qed.

Lemma zap_ref_length l s e : (length (zap_ref l s e) ≤ S (length l))%nat.
Proof. induction l as [|r l IH]; simpl; [lia|]. case_Z; simpl; lia. Qed.

Lemma zap_stop lo l s e : sorted_from lo l → e ≤ lo → zap_ref l s e = l.
Proof. destruct l as [|r l]; [done|]. intros [? _] ?. simpl. destruct (Z.leb_spec e (r_s r)); [done|lia]. Qed.

Lemma zap_loop_stop fuel lo a l s e b :
  bootmem_region_list b = a ++ l → sorted_from lo l → e ≤ lo → zap_loop fuel (length a) s e b = Ok b.
Proof.
  intros Hb Hs He. destruct fuel as [|fuel]; [done|]. simpl. rewrite Hb, lookup_app_r, Nat.sub_diag by lia.
  destruct l as [|r l]; [done|]. destruct Hs as [? _]. simpl. destruct (Z.leb_spec e (r_s r)); [done|lia].
Qed.

Lemma length_snoc {A} (a : list A) x : length (a ++ [x]) = S (length a).
Proof. rewrite length_app. simpl. lia. Qed.

Lemma set_regions_id b l : bootmem_region_list b = l → set_regions l b = b.
Proof. intros <-. by destruct b. Qed.

Lemma zap_loop_spec fuel a l s e b :
  bootmem_region_list b = a ++ l → bootmem_region_page b ≠ None → s < e →
  sorted_from 0 (a ++ l) → (∀ r, r ∈ a → r_e r ≤ e) →
  Z.of_nat (length (a ++ l)) < MAX_REGIONS → (S (length l) < fuel)%nat →
  zap_loop fuel (length a) s e b = Ok (set_regions (a ++ zap_ref l s e) b).
Proof.
  revert a l b. induction fuel as [|fuel IH]; intros a l b Hb Hp Hse Hs Ha Hroom Hf; [lia|]. simpl.
  rewrite Hb, lookup_app_r, Nat.sub_diag by lia. destruct l as [|r l]; simpl.
  { by rewrite set_regions_id. }
  pose proof Hs as [Hs1 [Hr Hs2]]%sorted_app. rewrite insert_split_at, !insert_split_at.
  (* the loop goes on with the region shrunk to [r'] *)
  assert (Hstep : ∀ r', r_s r ≤ r_s r' ≤ r_e r' → r_e r' ≤ r_e r → r_e r' ≤ e →
    zap_loop fuel (S (length a)) s e (set_regions (a ++ r' :: l) b) = Ok (set_regions (a ++ r' :: zap_ref l s e) b)).
  { intros r' H1 H2 H3. pose proof (IH (a ++ [r']) l (set_regions (a ++ r' :: l) b)) as IH'.
    rewrite length_snoc, <- !(assoc_L (++)) in IH'. simpl in IH'. apply IH'; try done.
    - apply sorted_app. split; [done|]. split; [lia|]. by eapply sorted_mono, Hs2.
    - intros x [Hx|Hx]%elem_of_app; [auto|]. apply list_elem_of_singleton in Hx as ->. done.
    - rewrite !length_app in *. simpl in *. lia.
    - simpl in Hf. lia. }
  assert (Hstop : ∀ r', e ≤ r_e r →
    zap_loop fuel (S (length a)) s e (set_regions (a ++ r' :: l) b) = Ok (set_regions (a ++ r' :: zap_ref l s e) b)).
  { intros r' He. rewrite (zap_stop (r_e r)) by done. rewrite <- (length_snoc a r').
    eapply (zap_loop_stop _ (r_e r) (a ++ [r']) l); [|done|done]. simpl. by rewrite <- (assoc_L (++)). }
  destruct (Z.leb_spec e (r_s r)); [by rewrite set_regions_id|].
  destruct (Z.leb_spec (r_e r) s).
  { rewrite <- (Hstep r) by lia. by rewrite set_regions_id. }
  destruct (Z.leb_spec s (r_s r)).
  { destruct (decide (e ≤ r_e r)); [by apply Hstop|apply Hstep; simpl; lia]. }
  destruct (Z.leb_spec (r_e r) e); [apply Hstep; simpl; lia|].
  rewrite (region_add_between e (r_e r) _ (a ++ [mk_region (r_s r) s]) l); try done; try lia.
  - cbn [mbind outcome_bind]. simpl. rewrite <- (assoc_L (++)). simpl. rewrite <- (length_snoc a (mk_region (r_s r) s)).
    apply (zap_loop_stop _ e (a ++ [mk_region (r_s r) s]) (mk_region e (r_e r) :: l)); [|split; [simpl; lia|done]|lia].
    simpl. by rewrite <- (assoc_L (++)).
  - simpl. by rewrite <- (assoc_L (++)).
  - intros x [Hx|Hx]%elem_of_app; [auto|]. apply list_elem_of_singleton in Hx as ->. simpl. lia.
  - rewrite !length_app in *. simpl in *. lia.
Qed.

(** ** Allocation *)

(** The highest suitable start in a region; [pfn_align] is [2 ^ k]. *)
Definition place (nr_pfns k : Z) (r : bootmem_region) : Z := 2 ^ k * ((r_e r - nr_pfns) / 2 ^ k).

Lemma ldiff_pow2 x k : 0 ≤ k → Z.ldiff x (2 ^ k - 1) = 2 ^ k * (x / 2 ^ k).
Proof.
  intros Hk. assert (2 ^ k - 1 = Z.ones k) as -> by (rewrite Z.ones_equiv; lia).
  rewrite Z.ldiff_ones_r by lia. rewrite Z.shiftl_mul_pow2, Z.shiftr_div_pow2 by lia. lia.
Qed.

Lemma place_spec nr k r : 0 ≤ k → place nr k r ≤ r_e r - nr < place nr k r + 2 ^ k.
Proof.
  intros Hk. unfold place. pose proof (Z.div_mod (r_e r - nr) (2 ^ k) ltac:(lia)).
  pose proof (Z.mod_pos_bound (r_e r - nr) (2 ^ k) ltac:(lia)). lia.
Qed.

(** The array after [nr_pfns] pages at [pg] are taken from the region [r]. *)
Definition take_from (nr_pfns pg : Z) (r : bootmem_region) : list bootmem_region :=
  mk_region (r_s r) pg :: (if pg + nr_pfns <? r_e r then [mk_region (pg + nr_pfns) (r_e r)] else []).

Lemma alloc_boot_loop_spec nr k a c b :
  bootmem_region_list b = a ++ c → bootmem_wf b → 0 < nr → 0 ≤ k →
  (∀ r, r ∈ a → nr ≤ r_e r) → Z.of_nat (length (a ++ c)) < MAX_REGIONS →
  (∃ r, r ∈ a ∧ r_s r ≤ place nr k r) →
  ∃ a' r c', a = a' ++ r :: c' ∧ r_s r ≤ place nr k r ∧ (∀ r', r' ∈ c' → place nr k r' < r_s r') ∧
    alloc_boot_loop (length a) nr (2 ^ k) b =
      Ok (place nr k r, set_regions (a' ++ take_from nr (place nr k r) r ++ c' ++ c) b).
Proof.
  intros Hb Hwf Hnr Hk. revert c Hb. induction a as [|r a IH] using rev_ind; intros c Hb Hsm Hroom [r0 [Hr0 Hfit]];
    [set_solver|].
  rewrite length_snoc. simpl. rewrite Hb, lookup_app_l, lookup_app_r, Nat.sub_diag by (rewrite ?length_snoc; lia). simpl.
  assert (Hin : r ∈ bootmem_region_list b) by (rewrite Hb; set_solver).
  assert (Hpg : Z.ldiff (u64 (r_e r - nr)) (2 ^ k - 1) = place nr k r).
  { pose proof (Hsm r ltac:(set_solver)). pose proof (bw_range _ Hwf r Hin). rewrite u64_small by lia. by apply ldiff_pow2. }
  rewrite Hpg. destruct (Z.ltb_spec (place nr k r) (r_s r)) as [Hlt|Hge].
  - destruct (IH (r :: c)) as (a' & r1 & c' & -> & H1 & H2 & H3).
    + by rewrite <- (assoc_L (++)) in Hb.
    + intros x Hx. apply Hsm. set_solver.
    + rewrite <- (assoc_L (++)) in Hroom. done.
    + exists r0. split; [|done]. apply elem_of_app in Hr0 as [?|Hr0]; [done|].
      apply list_elem_of_singleton in Hr0 as ->. lia.
    + exists a', r1, (c' ++ [r]). split; [by rewrite <- (assoc_L (++))|]. split; [done|]. split.
      * intros x [?|Hx]%elem_of_app; [auto|]. apply list_elem_of_singleton in Hx as ->. done.
      * rewrite H3. by rewrite <- !(assoc_L (++)).
  - exists a, r, []. split; [done|]. split; [done|]. split; [set_solver|]. simpl.
    pose proof (place_spec nr k r Hk) as Hp. pose proof (bw_range _ Hwf r Hin).
    assert (Hs : sorted_from 0 (a ++ r :: c)).
    { pose proof (bw_sorted _ Hwf) as Hs. rewrite Hb, <- (assoc_L (++)) in Hs. done. }
    apply sorted_app in Hs as [Hs1 [Hr Hs2]].
    assert (0 ≤ r_s r) by (pose proof (bw_sorted _ Hwf) as Hs; apply (sorted_end _ _ _ Hs Hin)).
    rewrite u64_small by lia. rewrite <- (assoc_L (++)). simpl. rewrite insert_split_at. unfold take_from.
    destruct (Z.ltb_spec (place nr k r + nr) (r_e r)).
    + rewrite (region_add_between _ _ _ (a ++ [mk_region (r_s r) (place nr k r)]) c); try done.
      * simpl. by rewrite <- (assoc_L (++)).
      * simpl. by rewrite <- (assoc_L (++)).
      * apply (bw_page _ Hwf). rewrite Hb. by destruct a.
      * intros x [Hx|Hx]%elem_of_app.
        -- destruct (sorted_end _ _ _ Hs1 Hx). lia.
        -- apply list_elem_of_singleton in Hx as ->. simpl. lia.
      * rewrite !length_app in *. simpl in *. lia.
    + rewrite region_add_empty by lia. done.
Qed.

Lemma take_from_spec lo nr pg r c :
  lo ≤ r_s r → r_s r ≤ pg → 0 < nr → pg + nr ≤ r_e r → sorted_from (r_e r) c →
  sorted_from lo (take_from nr pg r ++ c) ∧
  ∀ m, free_in (take_from nr pg r ++ c) m ↔ (r_s r ≤ m < r_e r ∧ ¬ (pg ≤ m < pg + nr)) ∨ free_in c m.
Proof.
  intros H1 H2 H3 H4 Hs. unfold take_from. destruct (Z.ltb_spec (pg + nr) (r_e r)); simpl.
  - split; [repeat split; simpl; try lia; done|]. intros m. rewrite !free_cons. simpl. split.
    + intros [?|[?|?]]; [left; lia|left; lia|by right].
    + intros [[? ?]|?]; [|by right; right]. destruct (decide (m < pg)); [left; lia|right; left; lia].
  - split; [split; [simpl; lia|]; simpl; eapply sorted_mono; [|exact Hs]; lia|]. intros m. rewrite free_cons. simpl.
    split; (intros [?|?]; [left; lia|by right]).
Qed.

(** ** Theorems *)

(** Handing the pages [s] to [e - 1] to the boot allocator, when they meet no
    region it has and the array has room, keeps the array sorted and makes
    exactly these pages free; the very first page handed over is kept for the
    array itself. *)
Theorem bootmem_region_add_correct s e b :
  bootmem_wf b → 0 ≤ s < e → e < 2 ^ 64 →
  (∀ r, r ∈ bootmem_region_list b → e ≤ r_s r ∨ r_e r ≤ s) →
  Z.of_nat (length (bootmem_region_list b)) < MAX_REGIONS →
  ∃ b', bootmem_region_add s e b = Ok b' ∧ bootmem_wf b' ∧
    ∀ m, free_in (bootmem_region_list b') m ↔
      free_in (bootmem_region_list b) m ∨ (s ≤ m < e ∧ (bootmem_region_page b = None → m ≠ s)).
Proof.
  intros Hwf Hs He Hd Hroom. destruct (bootmem_region_page b) as [pg|] eqn:Hp.
  - destruct (sorted_split 0 _ s e (bw_sorted _ Hwf)) as (a & c & Hl & Ha & Hc); [lia|done|].
    eexists. split; [apply (region_add_between s e b a c); try done; [by rewrite Hp|lia|by rewrite <- Hl]|].
    assert (Hso := bw_sorted _ Hwf). rewrite Hl in Hso, Hroom. split.
    + apply bootmem_wf_regions; [done|by rewrite Hp|apply sorted_insert; try done; lia| |].
      * intros r [Hr|[->|Hr]%elem_of_cons]%elem_of_app; [|done|]; apply (bw_range _ Hwf); rewrite Hl; set_solver.
      * rewrite length_app in *. simpl. lia.
    + intros m. simpl. rewrite Hl, !free_app, free_cons. simpl. split.
      * intros [?|[?|?]]; [tauto|right; done|tauto].
      * intros [[?|?]|[? _]]; tauto.
  - assert (Hl : bootmem_region_list b = []).
    { destruct (bootmem_region_list b) eqn:El; [done|]. destruct (bw_page _ Hwf); [by rewrite El|done]. }
    unfold bootmem_region_add. rewrite Hp, bool_decide_eq_true_2 by done. destruct (Z.ltb_spec s e) as [_|]; [|lia].
    simpl. rewrite Hl, u64_small by lia. destruct (Z.leb_spec e (s + 1)); (eexists; split; [done|]; split).
    + split; simpl; rewrite ?Hl; try done. intros r Hr. by apply elem_of_nil in Hr.
    + intros m. simpl. rewrite ?Hl. pose proof (free_nil m). split; [tauto|]. intros [?|[? Hne]]; [tauto|]. specialize (Hne eq_refl). lia.
    + split; simpl; [lia| |done|done]. intros r Hr. apply list_elem_of_singleton in Hr as ->. done.
    + intros m. simpl. rewrite free_cons. simpl. pose proof (free_nil m). split.
      * intros [?|?]; [|tauto]. right. lia.
      * intros [?|[? Hne]]; [tauto|]. specialize (Hne eq_refl). left. lia.
Qed.

Lemma bootmem_region_add_correct_witness :
  ∃ b', bootmem_region_add 16 32 (mk_bootmem 0 None []) = Ok b' ∧ free_in (bootmem_region_list b') 17.
Proof.
  destruct (bootmem_region_add_correct 16 32 (mk_bootmem 0 None [])) as (b' & Heq & _ & Hf);
    [split; simpl; try done; intros r Hr; by apply elem_of_nil in Hr|lia|lia|intros r Hr; by apply elem_of_nil in Hr|done|].
  exists b'. split; [exact Heq|]. apply Hf. right. lia.
Defined.

(** [bootmem_region_zap] removes exactly the given range from the free pages,
    whichever regions it meets, splitting one when it lies inside; the loop
    ends and the array stays sorted. *)
Theorem bootmem_region_zap_correct s e b :
  bootmem_wf b → bootmem_region_list b ≠ [] → s < e → 0 ≤ s → e < 2 ^ 64 →
  Z.of_nat (length (bootmem_region_list b)) < MAX_REGIONS →
  ∃ b', bootmem_region_zap s e b = Ok b' ∧ bootmem_wf b' ∧
    ∀ m, free_in (bootmem_region_list b') m ↔ free_in (bootmem_region_list b) m ∧ ¬ (s ≤ m < e).
Proof.
  intros Hwf Hn Hse Hs He Hroom. set (l := bootmem_region_list b) in *.
  pose proof (bw_sorted _ Hwf) as Hso. pose proof (bw_page _ Hwf Hn) as Hp. unfold bootmem_region_zap.
  assert (Hrun := zap_loop_spec region_fuel [] l s e b eq_refl Hp Hse Hso). cbn [length app] in Hrun. exists (set_regions (zap_ref l s e) b). split.
  { rewrite Hrun; [done|intros r Hr; by apply elem_of_nil in Hr|done|].
    assert (Z.of_nat region_fuel = 258) by reflexivity. unfold MAX_REGIONS in Hroom. lia. }
  split; [|intros m; simpl; by eapply zap_ref_free].
  apply bootmem_wf_regions; [done|done|by apply zap_ref_sorted| |].
  - intros r Hr. destruct (zap_ref_end l s e r Hr Hse) as (r' & Hr' & ?). pose proof (bw_range _ Hwf r' Hr'). lia.
  - pose proof (zap_ref_length l s e). lia.
Qed.

Lemma bootmem_region_zap_correct_witness :
  ∃ b', bootmem_region_zap 20 24 (mk_bootmem 0 (Some 15) [mk_region 16 32]) = Ok b' ∧
        ¬ free_in (bootmem_region_list b') 22 ∧ free_in (bootmem_region_list b') 30.
Proof.
  destruct (bootmem_region_zap_correct 20 24 (mk_bootmem 0 (Some 15) [mk_region 16 32])) as (b' & Heq & _ & Hf);
    [split; simpl; [lia| |done|done]; intros r Hr; apply list_elem_of_singleton in Hr as ->; done|done|lia|lia|lia|done|].
  exists b'. split; [exact Heq|]. rewrite !Hf. split; [lia|]. split; [|lia].
  exists (mk_region 16 32). split; [apply list_elem_of_singleton; done|simpl; lia].
Defined.

(** [alloc_boot_pages], the size being at most the end of each region: if some
    region can hold the request it returns a block that is aligned, consisted
    of free pages only and is exactly what stops being free; and it is the
    highest such block that lies within one region. *)
Theorem alloc_boot_pages_correct nr k b :
  bootmem_wf b → 0 < nr → 0 ≤ k → (∀ r, r ∈ bootmem_region_list b → nr ≤ r_e r) →
  Z.of_nat (length (bootmem_region_list b)) < MAX_REGIONS →
  (∃ r, r ∈ bootmem_region_list b ∧ r_s r ≤ place nr k r) →
  ∃ pg b', alloc_boot_pages nr (2 ^ k) b = Ok (pg, b') ∧ bootmem_wf b' ∧ pg mod 2 ^ k = 0 ∧
    (∀ m, pg ≤ m < pg + nr → free_in (bootmem_region_list b) m) ∧
    (∀ m, free_in (bootmem_region_list b') m ↔ free_in (bootmem_region_list b) m ∧ ¬ (pg ≤ m < pg + nr)) ∧
    (∀ r q, r ∈ bootmem_region_list b → r_s r ≤ q → q + nr ≤ r_e r → q mod 2 ^ k = 0 → q ≤ pg).
Proof.
  intros Hwf Hnr Hk Hsm Hroom Hex. unfold alloc_boot_pages.
  destruct (alloc_boot_loop_spec nr k (bootmem_region_list b) [] b) as (a & r & c & Hl & Hfit & Hc & ->);
    rewrite ?app_nil_r; try done.
  set (pg := place nr k r) in *. pose proof (place_spec nr k r Hk) as Hpg.
  pose proof (bw_sorted _ Hwf) as Hso. pose proof (bw_range _ Hwf) as Hrg. rewrite Hl in Hso, Hrg, Hroom |- *.
  pose proof Hso as [Hs1 [Hr Hs2]]%sorted_app.
  destruct (take_from_spec (end_of 0 a) nr pg r c) as [Hts Htf]; [lia|done|lia|lia|done|].
  exists pg, (set_regions (a ++ take_from nr pg r ++ c) b). split; [done|]. split; [|split; [|split; [|split]]].
  - apply bootmem_wf_regions; [done|apply (bw_page _ Hwf); rewrite Hl; by destruct a|by apply sorted_app| |].
    + intros x Hx. apply elem_of_app in Hx as [Hx|[Hx|Hx]%elem_of_app].
      * apply Hrg. set_solver.
      * assert (r_e x ≤ r_e r); [|specialize (Hrg r ltac:(set_solver)); lia]. unfold take_from in Hx. revert Hx.
        case_Z; intros Hx; repeat (apply elem_of_cons in Hx as [->|Hx]; [simpl; lia|]); by apply elem_of_nil in Hx.
      * apply Hrg. set_solver.
    + rewrite !length_app in *. unfold take_from. case_Z; simpl in *; lia.
  - unfold pg, place. rewrite Z.mul_comm. apply Z.mod_mul. lia.
  - intros m Hm. apply free_app. right. apply free_cons. left. lia.
  - intros m. simpl. rewrite !free_app, <- free_app, free_app, Htf. rewrite free_cons. split.
    + intros [Hm|[?|Hm]]; [|tauto|].
      * split; [by left|]. destruct Hm as (x & Hx & ?). destruct (sorted_end _ _ _ Hs1 Hx). lia.
      * split; [tauto|]. pose proof (sorted_free _ _ _ Hs2 Hm). lia.
    + intros [[?|[?|?]] ?]; tauto.
  - intros x q Hx H1 H2 H3. assert (Hq : q ≤ place nr k x).
    { pose proof (place_spec nr k x Hk) as Hpx. unfold place in *. apply Z.mod_divide in H3 as [z ->]; [|lia].
      rewrite Z.mul_comm. apply Z.mul_le_mono_nonneg_l; [lia|]. apply Z.div_le_lower_bound; lia. }
    apply elem_of_app in Hx as [Hx|[->|Hx]%elem_of_cons]; [|done|specialize (Hc x Hx); lia].
    destruct (sorted_end _ _ _ Hs1 Hx). lia.
Qed.

Lemma alloc_boot_pages_correct_witness :
  ∃ pg b', alloc_boot_pages 3 4 (mk_bootmem 0 (Some 15) [mk_region 16 20; mk_region 30 43]) = Ok (pg, b') ∧ pg mod 4 = 0.
Proof.
  destruct (alloc_boot_pages_correct 3 2 (mk_bootmem 0 (Some 15) [mk_region 16 20; mk_region 30 43]))
    as (pg & b' & Heq & _ & Hal & _).
  - split; simpl; [lia| |done|done]. intros r Hr. repeat (apply elem_of_cons in Hr as [->|Hr]; [done|]). by apply elem_of_nil in Hr.
  - lia.
  - lia.
  - intros r Hr. repeat (apply elem_of_cons in Hr as [->|Hr]; [simpl; lia|]). by apply elem_of_nil in Hr.
  - done.
  - exists (mk_region 30 43). split; [apply list_elem_of_further, list_elem_of_here|by vm_compute].
  - exists pg, b'. split; [exact Heq|exact Hal].
Defined.

(** [alloc_boot_pages] computes [r->e - nr_pfns] without checking that the
    region ends above [nr_pfns]: for a request larger than the region's end the
    difference wraps, the huge result passes the test, and the call returns a
    page number outside the region (and outside any memory) where it should
    fall through to the [BOOT_BUG_ON]. *)
Theorem alloc_boot_pages_underflow s e nr :
  0 ≤ s → s ≤ e < nr → nr < 2 ^ 63 →
  ∃ pg b', alloc_boot_pages nr 1 (mk_bootmem s (Some s) [mk_region s e]) = Ok (pg, b') ∧ pg = 2 ^ 64 + e - nr ∧ e < pg.
Proof.
  intros Hs He Hnr. unfold alloc_boot_pages. simpl.
  assert (Hw : u64 (e - nr) = 2 ^ 64 + e - nr).
  { unfold u64. rewrite <- (Z.mod_add _ 1) by lia. rewrite Z.mod_small by lia. lia. }
  rewrite Hw. rewrite Z.ldiff_0_r. destruct (Z.ltb_spec (2 ^ 64 + e - nr) s); [lia|].
  assert (Hz : u64 (2 ^ 64 + e - nr + nr) = e).
  { unfold u64. replace (2 ^ 64 + e - nr + nr) with (e + 1 * 2 ^ 64) by lia. rewrite Z.mod_add by lia. apply Z.mod_small. lia. }
  rewrite Hz, region_add_empty by lia. simpl. eexists _, _. split; [done|]. lia.
Qed.

Lemma alloc_boot_pages_underflow_witness :
  ∃ pg b', alloc_boot_pages 8 1 (mk_bootmem 1 (Some 1) [mk_region 1 3]) = Ok (pg, b') ∧ pg = 2 ^ 64 - 5.
Proof.
  destruct (alloc_boot_pages_underflow 1 3 8) as (pg & b' & Heq & Hpg & _); [lia|lia|lia|].
  exists pg, b'. split; [exact Heq|rewrite Hpg; reflexivity].
Defined.
