(* ===== verification/PageAlloc.v ===== *)
(** * The page allocator (xen/common/page_alloc.c)

    The buddy heap: free blocks of [2 ^ order] pages on lists per NUMA node,
    zone and order, and on top of it the Xen heap and the domain heap, page
    offlining, and the hand-over from the boot allocator. A page is its frame
    number; [pages] is the frame table. The unions of [struct page_info] are
    kept: a free page's order and a used page's owner are one field, as are
    [need_tlbflush] and the type. Page lists are lists of pages (see
    [PageList]). An [ASSERT] is a [BUG_ON]. *)

From S2P Require Import Prelude BootMem.
Local Open Scope xen_scope.

(** ** Data (xen/include/asm-x86/mm.h) *)

Record page_info := mk_page {
  count_info : Z;
  p_u : Z;  (* u.inuse.type_info, whose low byte is u.free.need_tlbflush *)
  p_v : Z;  (* v.inuse._domain and v.free.order *)
  tlbflush_timestamp : Z;
}.

Definition PG_shift (idx : Z) : Z := 64 - idx.
Definition PG_mask (x idx : Z) : Z := Z.shiftl x (PG_shift idx).
Definition PGC_allocated : Z := PG_mask 1 1.
Definition PGC_xen_heap : Z := PG_mask 1 2.
Definition PGC_cacheattr_base : Z := PG_shift 6.
Definition PGC_cacheattr_mask : Z := PG_mask 7 6.
Definition PGC_broken : Z := PG_mask 1 7.
Definition PGC_state : Z := PG_mask 3 9.
Definition PGC_state_inuse : Z := PG_mask 0 9.
Definition PGC_state_offlining : Z := PG_mask 1 9.
Definition PGC_state_offlined : Z := PG_mask 2 9.
Definition PGC_state_free : Z := PG_mask 3 9.
Definition PGC_count_mask : Z := Z.shiftl 1 (PG_shift 9) - 1.
Definition PGT_count_mask : Z := Z.shiftl 1 (PG_shift 9) - 1.

Definition page_state_is (p : page_info) (st : Z) : bool := Z.land (count_info p) PGC_state =? st.
Definition has_bits (x m : Z) : bool := negb (Z.land x m =? 0).
Definition is_xen_heap_page (p : page_info) : bool := has_bits (count_info p) PGC_xen_heap.

Definition set_count (x : Z) (p : page_info) : page_info := mk_page x (p_u p) (p_v p) (tlbflush_timestamp p).
Definition set_u (x : Z) (p : page_info) : page_info := mk_page (count_info p) x (p_v p) (tlbflush_timestamp p).
Definition set_v (x : Z) (p : page_info) : page_info := mk_page (count_info p) (p_u p) x (tlbflush_timestamp p).
Definition set_stamp (x : Z) (p : page_info) : page_info := mk_page (count_info p) (p_u p) (p_v p) x.

(** [v.inuse._domain]: the index of the domain structure, 0 for none. *)
Definition page_get_owner (p : page_info) : option Z := if p_v p =? 0 then None else Some (p_v p).
Definition page_set_owner (d : option Z) (p : page_info) : page_info := set_v (default 0 d) p.
Definition PFN_ORDER (p : page_info) : Z := p_v p.
Definition need_tlbflush (p : page_info) : bool := negb (Z.land (p_u p) 255 =? 0).
Definition set_need_tlbflush (b : bool) (p : page_info) : page_info :=
  set_u (Z.lor (Z.ldiff (p_u p) 255) (Z.b2z b)) p.

(** The parts of [struct domain] that the allocator uses. *)
Record pdomain := mk_pdomain {
  pd_id : Z;
  pd_is_dying : bool;
  tot_pages : Z;
  max_pages : Z;
  xenheap_pages : Z;
  page_list : list Z;
  xenpage_list : list Z;
  relmem_list : list Z;
  pd_refcnt : Z;
  node_affinity : gset Z;
  last_alloc_node : Z;
  physaddr_bitsize : Z;
}.

Inductive heap_event :=
| Send_virq_enomem
| Flush_tlb (timestamp : Z)
| Scrub_one_page (mfn : Z)
| Domain_shutdown (d : Z)
| Pdomain_destroy (d : Z).

Record hstate := mk_hstate {
  pages : gmap Z page_info;
  heap : gmap (Z * Z * Z) (list Z);
  avail : gmap Z (list Z);
  total_avail_pages : Z;
  midsize_alloc_zone_pages : Z;
  low_mem_virq_high : Z;
  low_mem_virq_th : Z;
  low_mem_virq_orig : Z;
  low_mem_virq_th_order : Z;
  page_offlined_list : list Z;
  page_broken_list : list Z;
  first_node_initialised : bool;
  dma_bitsize : Z;
  m2p : gmap Z Z;
  pdoms : gmap Z pdomain;
  events : list heap_event;
}.

Definition set_pages (f : gmap Z page_info → gmap Z page_info) (s : hstate) : hstate :=
  mk_hstate (f (pages s)) (heap s) (avail s) (total_avail_pages s) (midsize_alloc_zone_pages s)
    (low_mem_virq_high s) (low_mem_virq_th s) (low_mem_virq_orig s) (low_mem_virq_th_order s)
    (page_offlined_list s) (page_broken_list s) (first_node_initialised s) (dma_bitsize s) (m2p s) (pdoms s) (events s).
Definition set_heap (f : gmap (Z * Z * Z) (list Z) → gmap (Z * Z * Z) (list Z)) (s : hstate) : hstate :=
  mk_hstate (pages s) (f (heap s)) (avail s) (total_avail_pages s) (midsize_alloc_zone_pages s)
    (low_mem_virq_high s) (low_mem_virq_th s) (low_mem_virq_orig s) (low_mem_virq_th_order s)
    (page_offlined_list s) (page_broken_list s) (first_node_initialised s) (dma_bitsize s) (m2p s) (pdoms s) (events s).
Definition set_avail (f : gmap Z (list Z) → gmap Z (list Z)) (s : hstate) : hstate :=
  mk_hstate (pages s) (heap s) (f (avail s)) (total_avail_pages s) (midsize_alloc_zone_pages s)
    (low_mem_virq_high s) (low_mem_virq_th s) (low_mem_virq_orig s) (low_mem_virq_th_order s)
    (page_offlined_list s) (page_broken_list s) (first_node_initialised s) (dma_bitsize s) (m2p s) (pdoms s) (events s).
Definition set_totals (total midsize : Z) (s : hstate) : hstate :=
  mk_hstate (pages s) (heap s) (avail s) total midsize
    (low_mem_virq_high s) (low_mem_virq_th s) (low_mem_virq_orig s) (low_mem_virq_th_order s)
    (page_offlined_list s) (page_broken_list s) (first_node_initialised s) (dma_bitsize s) (m2p s) (pdoms s) (events s).
Definition set_low_mem (high th orig order : Z) (s : hstate) : hstate :=
  mk_hstate (pages s) (heap s) (avail s) (total_avail_pages s) (midsize_alloc_zone_pages s)
    high th orig order
    (page_offlined_list s) (page_broken_list s) (first_node_initialised s) (dma_bitsize s) (m2p s) (pdoms s) (events s).
Definition set_offlined (off broken : list Z) (s : hstate) : hstate :=
  mk_hstate (pages s) (heap s) (avail s) (total_avail_pages s) (midsize_alloc_zone_pages s)
    (low_mem_virq_high s) (low_mem_virq_th s) (low_mem_virq_orig s) (low_mem_virq_th_order s)
    off broken (first_node_initialised s) (dma_bitsize s) (m2p s) (pdoms s) (events s).
Definition set_boot (first : bool) (dma : Z) (s : hstate) : hstate :=
  mk_hstate (pages s) (heap s) (avail s) (total_avail_pages s) (midsize_alloc_zone_pages s)
    (low_mem_virq_high s) (low_mem_virq_th s) (low_mem_virq_orig s) (low_mem_virq_th_order s)
    (page_offlined_list s) (page_broken_list s) first dma (m2p s) (pdoms s) (events s).
Definition set_m2p (f : gmap Z Z → gmap Z Z) (s : hstate) : hstate :=
  mk_hstate (pages s) (heap s) (avail s) (total_avail_pages s) (midsize_alloc_zone_pages s)
    (low_mem_virq_high s) (low_mem_virq_th s) (low_mem_virq_orig s) (low_mem_virq_th_order s)
    (page_offlined_list s) (page_broken_list s) (first_node_initialised s) (dma_bitsize s) (f (m2p s)) (pdoms s) (events s).
Definition set_pdoms (f : gmap Z pdomain → gmap Z pdomain) (s : hstate) : hstate :=
  mk_hstate (pages s) (heap s) (avail s) (total_avail_pages s) (midsize_alloc_zone_pages s)
    (low_mem_virq_high s) (low_mem_virq_th s) (low_mem_virq_orig s) (low_mem_virq_th_order s)
    (page_offlined_list s) (page_broken_list s) (first_node_initialised s) (dma_bitsize s) (m2p s) (f (pdoms s)) (events s).
Definition emit (e : heap_event) (s : hstate) : hstate :=
  mk_hstate (pages s) (heap s) (avail s) (total_avail_pages s) (midsize_alloc_zone_pages s)
    (low_mem_virq_high s) (low_mem_virq_th s) (low_mem_virq_orig s) (low_mem_virq_th_order s)
    (page_offlined_list s) (page_broken_list s) (first_node_initialised s) (dma_bitsize s) (m2p s) (pdoms s) (e :: events s).

(** What the allocator relies on: the machine's memory map, NUMA topology and
    TLB clock, transcendent memory, and parts of the architecture code. *)
Record machine := mk_machine {
  mfn_valid : Z → bool;
  mfn_to_nid : Z → Z;
  node_online_map : gset Z;
  this_node : Z;
  cpu0_node : Z;
  node0_spanned_pages : Z;
  tlbflush_current_time : hstate → Z;
  tlbflush_mask_empty : hstate → Z → bool;
  opt_tmem : bool;
  tmem_freeable_pages : hstate → Z;
  tmem_relinquish_pages : Z → Z → hstate → option Z;
  directmap_end_mfn : Z;
  is_xen_fixed_mfn : Z → bool;
  ram_conventional : Z → bool;
  p2m_pod_offline_or_broken_hit : Z → hstate → bool * hstate;
  p2m_pod_offline_or_broken_replace : Z → hstate → hstate;
  update_xen_mappings : Z → hstate → Z;
  dom_cow : Z;
}.

Definition upd_page (pg : Z) (f : page_info → page_info) (s : hstate) : hstate := set_pages (alter f pg) s.

(** ** Nodes, zones and orders *)

(** [CONFIG_PAGEALLOC_MAX_ORDER] of x86, two levels of page tables. *)
Definition PAGETABLE_ORDER : Z := 9.
Definition MAX_ORDER : Z := 2 * PAGETABLE_ORDER.
Definition NR_ZONES : Z := 40.
Definition MEMZONE_XEN : Z := 0.
Definition MAX_NUMNODES : Z := 64.
Definition NUMA_NO_NODE : Z := 0xFF.
Definition MIDSIZE_ALLOC_FRAC : Z := 128.

Definition MEMF_no_refcount : Z := 1.
Definition MEMF_no_dma : Z := 8.
Definition MEMF_exact_node : Z := 16.
Definition _MEMF_node : Z := 8.
Definition _MEMF_bits : Z := 24.

Definition fls (x : Z) : Z := if x <=? 0 then 0 else Z.log2 x + 1.
Definition bits_to_zone (b : Z) : Z := if b <? PAGE_SHIFT + 1 then 0 else b - PAGE_SHIFT - 1.
Definition page_to_zone (pg : Z) (p : page_info) : Z :=
  if is_xen_heap_page p then MEMZONE_XEN else fls pg - 1.

(** The first node of [mask] from [n] on, or [MAX_NUMNODES]. *)
Definition find_node (n : Z) (mask : gset Z) : Z :=
  default MAX_NUMNODES (head (filter (λ i, i ∈ mask) (seqZ n (MAX_NUMNODES - n)))).
Definition first_node (mask : gset Z) : Z := find_node 0 mask.
Definition next_node (n : Z) (mask : gset Z) : Z := find_node (n + 1) mask.

Fixpoint order_loop (fuel : nat) (x order : Z) : Z :=
  match fuel with
  | O => order
  | S fuel' => if x =? 0 then order else order_loop fuel' (Z.shiftr x 1) (order + 1)
  end.
Definition get_order_from_pages (nr_pages : Z) : Z := order_loop 65 (u64 (nr_pages - 1)) 0.
Definition get_order_from_bytes (size : Z) : Z := order_loop 65 (Z.shiftr (u64 (size - 1)) PAGE_SHIFT) 0.

(** ** Page lists of the heap *)

Definition heap_list (n z k : Z) (s : hstate) : list Z := default [] (heap s !! (n, z, k)).
Definition set_list (n z k : Z) (l : list Z) (s : hstate) : hstate := set_heap (<[(n, z, k) := l]>) s.
Definition heap_add_tail (n z k pg : Z) (s : hstate) : hstate := set_list n z k (heap_list n z k s ++ [pg]) s.

(** Removing a page that is not on the list would corrupt it. *)
Definition list_del (pg : Z) (l : list Z) : outcome (list Z) :=
  if bool_decide (pg ∈ l) then Ok (filter (λ x, x ≠ pg) l) else Bug.
Definition heap_del (n z k pg : Z) (s : hstate) : outcome hstate :=
  let! l := list_del pg (heap_list n z k s) in Ok (set_list n z k l s).

(** [avail[n][z]] *)
Definition avail_of (n z : Z) (s : hstate) : outcome Z :=
  deref (avail s !! n) (λ l, if z <? 0 then Bug else deref (l !! Z.to_nat z) Ok).
Definition set_avail_of (n z x : Z) (s : hstate) : hstate :=
  set_avail (alter (<[Z.to_nat z := x]>) n) s.

(** ** Low-memory notification *)

Definition DEFAULT_LOW_MEM_VIRQ : Z := Z.shiftl 64 20.
Definition MAX_LOW_MEM_VIRQ : Z := Z.shiftl 1024 20.

(** [opt]: the boot option, [2 ^ 64 - 1] when it was not given. *)
Definition setup_low_mem_virq (opt_low_mem_virq : Z) (s : hstate) : hstate :=
  if opt_low_mem_virq =? 0 then
    set_low_mem (low_mem_virq_high s) ULONG_MAX (low_mem_virq_orig s) (low_mem_virq_th_order s) s
  else
    let halve := opt_low_mem_virq =? ULONG_MAX in
    let threshold := if halve then DEFAULT_LOW_MEM_VIRQ else opt_low_mem_virq in
    let avail_bytes := u64 (Z.shiftl (total_avail_pages s) PAGE_SHIFT) in
    let threshold := Z.min threshold avail_bytes in
    let threshold := Z.min threshold MAX_LOW_MEM_VIRQ in
    let threshold := if halve && (threshold =? avail_bytes) then Z.shiftr threshold 1 else threshold in
    let threshold := Z.max threshold PAGE_SIZE in
    let th := Z.shiftr threshold PAGE_SHIFT in
    let order := get_order_from_pages th in
    let order := if th <? Z.shiftl 1 order then order - 1 else order in
    set_low_mem (low_mem_virq_high s) (Z.shiftl 1 order) (Z.shiftl 1 order) order s.

Definition check_low_mem_virq (M : machine) (s : hstate) : hstate :=
  let avail_pages := u64 (total_avail_pages s + (if opt_tmem M then tmem_freeable_pages M s else 0)) in
  let order := low_mem_virq_th_order s in
  if avail_pages <=? low_mem_virq_th s then
    let order' := if 0 <? order then order - 1 else order in
    set_low_mem (Z.shiftl 1 (order + 1)) (Z.shiftl 1 order') (low_mem_virq_orig s) order' (emit Send_virq_enomem s)
  else if low_mem_virq_high s <=? avail_pages then
    let th := Z.shiftl 1 (order + 1) in
    set_low_mem (if th =? low_mem_virq_orig s then ULONG_MAX else Z.shiftl 1 (order + 1 + 2)) th
      (low_mem_virq_orig s) (order + 1) s
  else s.

(** ** Allocation from the heap *)

(** Find the smallest order from [j] on that can satisfy the request. *)
Fixpoint find_order (fuel : nat) (n z j : Z) (s : hstate) : option (Z * Z * hstate) :=
  match fuel with
  | O => None
  | S fuel' =>
      match heap_list n z j s with
      | pg :: l => Some (j, pg, set_list n z j l s)
      | [] => find_order fuel' n z (j + 1) s
      end
  end.

(** The zones from [zone_lo + k] down to [zone_lo] of a node; [avail] has
    [MAX_NUMNODES] entries. *)
Fixpoint try_zones (k : nat) (n zone_lo order : Z) (s : hstate) : outcome (option (Z * Z * Z * hstate)) :=
  let zone := zone_lo + Z.of_nat k in
  let! r :=
    BUG_ON (MAX_NUMNODES <=? n)
      match avail s !! n with
      | None => Ok None
      | Some _ =>
          let! a := avail_of n zone s in
          Ok (if a <? Z.shiftl 1 order then None
              else find_order (Z.to_nat (MAX_ORDER + 1 - order)) n zone order s)
      end in
  match r with
  | Some (j, pg, s1) => Ok (Some (zone, j, pg, s1))
  | None => match k with O => Ok None | S k' => try_zones k' n zone_lo order s end
  end.

(** The [for ( ; ; )] over the nodes. *)
Fixpoint search_nodes (fuel : nat) (zone_lo zone_hi order : Z) (exact : bool) (online nodemask : gset Z)
    (node first : Z) (retry : bool) (s : hstate) : outcome (option (Z * Z * Z * Z * hstate)) :=
  match fuel with
  | O => Bug
  | S fuel' =>
      let! r := try_zones (Z.to_nat (zone_hi - zone_lo)) node zone_lo order s in
      match r with
      | Some (zone, j, pg, s1) => Ok (Some (node, zone, j, pg, s1))
      | None =>
          let next_mask :=
            if retry then Ok None
            else
              let mask := online ∖ nodemask in
              let node := first_node mask in
              if MAX_NUMNODES <=? node then Ok None
              else search_nodes fuel' zone_lo zone_hi order exact online mask node node true s in
          if exact then Ok None
          else if bool_decide (node ∉ nodemask) then
            BUG_ON retry
              (let node := first_node nodemask in
               if node <? MAX_NUMNODES
               then search_nodes fuel' zone_lo zone_hi order exact online nodemask node node retry s
               else next_mask)
          else
            let node := next_node node nodemask in
            let node := if MAX_NUMNODES <=? node then first_node nodemask else node in
            if node =? first then next_mask
            else search_nodes fuel' zone_lo zone_hi order exact online nodemask node first retry s
      end
  end.

(** Each node is visited at most once per mask. *)
Definition node_fuel : nat := 200.

(** Halve the chunk of order [order + k] until it has the order wanted. *)
Fixpoint halve_chunk (k : nat) (n z order pg : Z) (s : hstate) : Z * hstate :=
  match k with
  | O => (pg, s)
  | S k' =>
      let j := order + Z.of_nat k' in
      let s1 := heap_add_tail n z j pg (upd_page pg (set_v j) s) in
      halve_chunk k' n z order (pg + Z.shiftl 1 j) s1
  end.

(** The loop over the allocated pages. *)
Fixpoint claim_pages (k : nat) (pg now : Z) (flush : bool) (stamp : Z) (s : hstate)
    : outcome (bool * Z * hstate) :=
  match k with
  | O => Ok (flush, stamp, s)
  | S k' =>
      deref (pages s !! pg) (λ p,
        BUG_ON (negb (count_info p =? PGC_state_free))
          (let take := need_tlbflush p && (tlbflush_timestamp p <=? now) &&
                       (negb flush || (stamp <? tlbflush_timestamp p)) in
           let s1 := upd_page pg (λ p, page_set_owner None (set_u 0 (set_count PGC_state_inuse p))) s in
           claim_pages k' (pg + 1) now (flush || take) (if take then tlbflush_timestamp p else stamp) s1))
  end.

Definition start_node (M : machine) (d : option Z) (nodemask : gset Z) (memflags : Z) (s : hstate)
    : outcome (Z * Z) :=
  let node := u8 (Z.shiftr memflags _MEMF_node - 1) in
  if node =? NUMA_NO_NODE then
    let memflags := Z.ldiff memflags MEMF_exact_node in
    let! node :=
      match d with
      | None => Ok node
      | Some d =>
          deref (pdoms s !! d) (λ D,
            let n := next_node (last_alloc_node D) nodemask in
            Ok (if MAX_NUMNODES <=? n then first_node nodemask else n))
      end in
    Ok (if MAX_NUMNODES <=? node then this_node M else node, memflags)
  else Ok (node, memflags).

Definition set_last_alloc_node (n : Z) (D : pdomain) : pdomain :=
  mk_pdomain (pd_id D) (pd_is_dying D) (tot_pages D) (max_pages D) (xenheap_pages D) (page_list D)
    (xenpage_list D) (relmem_list D) (pd_refcnt D) (node_affinity D) n (physaddr_bitsize D).

(** The counters, and the loop over the pages. *)
Definition take_block (M : machine) (n z pg order : Z) (d : option Z) (s : hstate) : outcome (option Z * hstate) :=
  let request := Z.shiftl 1 order in
  let! a := avail_of n z s in
  BUG_ON (a <? request)
    (let s1 := set_totals (total_avail_pages s - request) (midsize_alloc_zone_pages s)
                 (set_avail_of n z (a - request) s) in
     BUG_ON (total_avail_pages s1 <? 0)
       (let s2 := check_low_mem_virq M s1 in
        let s3 := match d with
                  | Some d => set_pdoms (alter (set_last_alloc_node n) d) s2
                  | None => s2
                  end in
        let! (flush, stamp, s4) :=
          claim_pages (Z.to_nat request) pg (tlbflush_current_time M s3) false 0 s3 in
        Ok (Some pg, if flush && negb (tlbflush_mask_empty M s4 stamp) then emit (Flush_tlb stamp) s4 else s4))).

(** From [found:] on. *)
Definition alloc_found (M : machine) (n z j pg order : Z) (d : option Z) (s : hstate)
    : outcome (option Z * hstate) :=
  let '(pg, s1) := halve_chunk (Z.to_nat (j - order)) n z order pg s in
  take_block M n z pg order d s1.

Definition alloc_heap_pages (M : machine) (zone_lo zone_hi order memflags : Z) (d : option Z) (s : hstate)
    : outcome (option Z * hstate) :=
  let! nodemask :=
    match d with
    | Some d => deref (pdoms s !! d) (λ D, Ok (node_affinity D))
    | None => Ok (node_online_map M)
    end in
  let! (node, memflags) := start_node M d nodemask memflags s in
  BUG_ON (zone_hi <? zone_lo)
    (BUG_ON (NR_ZONES <=? zone_hi)
       (if MAX_ORDER <? order then Ok (None, s)
        else if opt_tmem M && ((order =? 0) || (9 <=? order)) &&
                (total_avail_pages s <=? midsize_alloc_zone_pages s) &&
                negb (tmem_freeable_pages M s =? 0)
        then Ok (tmem_relinquish_pages M order memflags s, s)
        else
          let! r := search_nodes node_fuel zone_lo zone_hi order (has_bits memflags MEMF_exact_node)
                      (node_online_map M) nodemask node node false s in
          match r with
          | None => Ok (None, s)
          | Some (n, z, j, pg, s1) => alloc_found M n z j pg order d s1
          end)).

(** ** Offlined pages of a free chunk *)

Definition page_offlined (pg : Z) (s : hstate) : outcome bool :=
  deref (pages s !! pg) (λ p, Ok (page_state_is p PGC_state_offlined)).

(** Is one of the [k] pages from [pg] on offlined? *)
Fixpoint any_offlined (k : nat) (pg : Z) (s : hstate) : outcome bool :=
  match k with
  | O => Ok false
  | S k' => let! b := page_offlined pg s in
            if (b : bool) then Ok true else any_offlined k' (pg + 1) s
  end.

(** The inner [while]: the order at which [merge:] is reached. *)
Fixpoint grow_order (fuel : nat) (cur_head cur_order head_order end_ : Z) (s : hstate) : outcome (option Z) :=
  match fuel with
  | O => Ok None
  | S fuel' =>
      if head_order <=? cur_order then Ok None
      else
        let next_order := cur_order + 1 in
        if end_ <=? cur_head + Z.shiftl 1 next_order then Ok (Some cur_order)
        else
          let! b := any_offlined (Z.to_nat (Z.shiftl 1 next_order - Z.shiftl 1 cur_order))
                      (cur_head + Z.shiftl 1 cur_order) s in
          if (b : bool) then Ok (Some cur_order)
          else grow_order fuel' cur_head next_order head_order end_ s
  end.

(** The outer [while]; running out of fuel stands for an endless loop. *)
Fixpoint regroup (fuel : nat) (n z cur_head head_order end_ : Z) (s : hstate) : outcome hstate :=
  if end_ <=? cur_head then Ok s
  else
    match fuel with
    | O => Bug
    | S fuel' =>
        let! off := page_offlined cur_head s in
        if (off : bool) then regroup fuel' n z (cur_head + 1) head_order end_ s
        else
          let! r := grow_order (S (Z.to_nat head_order)) cur_head 0 head_order end_ s in
          match r with
          | Some cur_order =>
              let s1 := upd_page cur_head (set_v cur_order) (heap_add_tail n z cur_order cur_head s) in
              regroup fuel' n z (cur_head + Z.shiftl 1 cur_order) head_order end_ s1
          | None => regroup fuel' n z cur_head head_order end_ s
          end
    end.

(** The offlined pages leave the heap. *)
Fixpoint set_aside (k : nat) (n z pg count : Z) (s : hstate) : outcome (Z * hstate) :=
  match k with
  | O => Ok (count, s)
  | S k' =>
      deref (pages s !! pg) (λ p,
        if negb (page_state_is p PGC_state_offlined) then set_aside k' n z (pg + 1) count s
        else
          let! a := avail_of n z s in
          let s1 := set_totals (total_avail_pages s - 1) (midsize_alloc_zone_pages s) (set_avail_of n z (a - 1) s) in
          BUG_ON (total_avail_pages s1 <? 0)
            (let s2 := if has_bits (count_info p) PGC_broken
                       then set_offlined (page_offlined_list s1) (page_broken_list s1 ++ [pg]) s1
                       else set_offlined (page_offlined_list s1 ++ [pg]) (page_broken_list s1) s1 in
             set_aside k' n z (pg + 1) (count + 1) s2))
  end.

Definition reserve_offlined_page (M : machine) (head : Z) (s : hstate) : outcome (Z * hstate) :=
  deref (pages s !! head) (λ p,
    let n := mfn_to_nid M head in
    let z := page_to_zone head p in
    let head_order := PFN_ORDER p in
    let size := Z.shiftl 1 head_order in
    let! s1 := heap_del n z head_order head s in
    let! s2 := regroup (S (Z.to_nat size)) n z head head_order (head + size) s1 in
    set_aside (Z.to_nat size) n z head 0 s2).

(** ** Freeing to the heap *)

Definition INVALID_M2P_ENTRY : Z := ULONG_MAX.

(** The loop over the freed pages; is one of them offlined? *)
Fixpoint release_pages (k : nat) (pg now : Z) (tainted : bool) (s : hstate) : outcome (bool * hstate) :=
  match k with
  | O => Ok (tainted, s)
  | S k' =>
      deref (pages s !! pg) (λ p,
        BUG_ON (page_state_is p PGC_state_offlined)
          (let count := Z.lor (Z.land (count_info p) PGC_broken)
                          (if page_state_is p PGC_state_offlining then PGC_state_offlined else PGC_state_free) in
           let p1 := set_count count p in
           let owned := bool_decide (page_get_owner p1 ≠ None) in
           let p2 := set_need_tlbflush owned p1 in
           let p3 := if owned then set_stamp now p2 else p2 in
           let s1 := set_m2p (<[pg := INVALID_M2P_ENTRY]>) (upd_page pg (λ _, page_set_owner None p3) s) in
           release_pages k' (pg + 1) now (tainted || page_state_is p1 PGC_state_offlined) s1))
  end.

(** May the chunk merge with its buddy? *)
Definition buddy_mergeable (M : machine) (n order buddy : Z) (s : hstate) : outcome bool :=
  if negb (mfn_valid M buddy) then Ok false
  else deref (pages s !! buddy) (λ p,
         Ok (page_state_is p PGC_state_free && (PFN_ORDER p =? order) && (mfn_to_nid M buddy =? n))).

(** Merge chunks as far as possible; [k] is [MAX_ORDER - order]. *)
Fixpoint merge_chunks (M : machine) (k : nat) (n z pg order : Z) (s : hstate) : outcome (Z * Z * hstate) :=
  match k with
  | O => Ok (pg, order, s)
  | S k' =>
      let mask := Z.shiftl 1 order in
      if has_bits pg mask then
        let! b := buddy_mergeable M n order (pg - mask) s in
        if (b : bool) then
          let! s1 := heap_del n z order (pg - mask) s in
          merge_chunks M k' n z (pg - mask) (order + 1) s1
        else Ok (pg, order, s)
      else
        let! b := buddy_mergeable M n order (pg + mask) s in
        if (b : bool) then
          let! s1 := heap_del n z order (pg + mask) s in
          merge_chunks M k' n z pg (order + 1) s1
        else Ok (pg, order, s)
  end.

Definition free_heap_pages (M : machine) (pg order : Z) (s : hstate) : outcome hstate :=
  deref (pages s !! pg) (λ p,
    let n := mfn_to_nid M pg in
    let z := page_to_zone pg p in
    let size := Z.shiftl 1 order in
    BUG_ON (MAX_ORDER <? order)
      (let! (tainted, s1) := release_pages (Z.to_nat size) pg (tlbflush_current_time M s) false s in
       let! a := avail_of n z s1 in
       let total := total_avail_pages s1 + size in
       let midsize := if opt_tmem M
                      then Z.max (midsize_alloc_zone_pages s1) (total / MIDSIZE_ALLOC_FRAC)
                      else midsize_alloc_zone_pages s1 in
       let s2 := set_totals total midsize (set_avail_of n z (a + size) s1) in
       let! (pg', order', s3) := merge_chunks M (Z.to_nat (MAX_ORDER - order)) n z pg order s2 in
       let s4 := heap_add_tail n z order' pg' (upd_page pg' (set_v order') s3) in
       if (tainted : bool) then let! (_, s5) := reserve_offlined_page M pg' s4 in Ok s5 else Ok s4)).

(** ** The domain heap *)

Definition set_acct (tot xenheap refcnt : Z) (pl xl rl : list Z) (D : pdomain) : pdomain :=
  mk_pdomain (pd_id D) (pd_is_dying D) tot (max_pages D) xenheap pl xl rl refcnt (node_affinity D)
    (last_alloc_node D) (physaddr_bitsize D).

(** The loop of [assign_pages]. *)
Fixpoint assign_loop (k : nat) (d pg : Z) (s : hstate) : outcome hstate :=
  match k with
  | O => Ok s
  | S k' =>
      deref (pages s !! pg) (λ p,
        BUG_ON (bool_decide (page_get_owner p ≠ None))
          (BUG_ON (negb (Z.ldiff (count_info p) (Z.lor PGC_allocated 1) =? 0))
             (let s1 := upd_page pg (λ p, set_count (Z.lor PGC_allocated 1) (page_set_owner (Some d) p)) s in
              let s2 := set_pdoms (alter (λ D, set_acct (tot_pages D) (xenheap_pages D) (pd_refcnt D)
                          (page_list D ++ [pg]) (xenpage_list D) (relmem_list D) D) d) s1 in
              assign_loop k' d (pg + 1) s2)))
  end.

Definition assign_pages (d pg order memflags : Z) (s : hstate) : outcome (Z * hstate) :=
  deref (pdoms s !! d) (λ D,
    let size := Z.shiftl 1 order in
    if pd_is_dying D then Ok (-1, s)
    else
      let refcount := negb (has_bits memflags MEMF_no_refcount) in
      if refcount && (max_pages D <? u32 (tot_pages D + size)) then Ok (-1, s)
      else
        let s1 := if refcount
                  then set_pdoms (alter (λ D, set_acct (u32 (tot_pages D + size)) (xenheap_pages D)
                         (if tot_pages D =? 0 then pd_refcnt D + 1 else pd_refcnt D)
                         (page_list D) (xenpage_list D) (relmem_list D) D) d) s
                  else s in
        let! s2 := assign_loop (Z.to_nat size) d pg s1 in
        Ok (0, s2)).

Definition domain_clamp_alloc_bitsize (D : option pdomain) (bits : Z) : Z :=
  match D with
  | None => bits
  | Some D => if physaddr_bitsize D =? 0 then bits else Z.min (physaddr_bitsize D) bits
  end.

(** Above the DMA zone first, then anywhere unless the caller excludes DMA
    memory. *)
Definition search_domheap (M : machine) (d : option Z) (zone_hi order memflags : Z) (s : hstate)
    : outcome (option Z * hstate) :=
  let dma_zone := bits_to_zone (dma_bitsize s) in
  let! (pg, s1) :=
    (if negb (dma_bitsize s =? 0) && (dma_zone <? zone_hi)
     then alloc_heap_pages M (dma_zone + 1) zone_hi order memflags d s
     else Ok (None, s)) in
  match pg with
  | Some pg => Ok (Some pg, s1)
  | None => if has_bits memflags MEMF_no_dma then Ok (None, s1)
            else alloc_heap_pages M (MEMZONE_XEN + 1) zone_hi order memflags d s1
  end.

Definition alloc_domheap_pages (M : machine) (d : option Z) (order memflags : Z) (s : hstate)
    : outcome (option Z * hstate) :=
  let bits := Z.shiftr memflags _MEMF_bits in
  let! D := match d with Some d => deref (pdoms s !! d) (λ D, Ok (Some D)) | None => Ok None end in
  let bits := domain_clamp_alloc_bitsize D (if bits =? 0 then 64 + PAGE_SHIFT else bits) in
  let zone_hi := Z.min (bits_to_zone bits) (NR_ZONES - 1) in
  if zone_hi =? 0 then Ok (None, s)
  else
    let! (pg, s1) := search_domheap M d zone_hi order memflags s in
    match pg, d with
    | None, _ => Ok (None, s1)
    | Some pg, None => Ok (Some pg, s1)
    | Some pg, Some d =>
        let! (rc, s2) := assign_pages d pg order memflags s1 in
        if rc =? 0 then Ok (Some pg, s2)
        else let! s3 := free_heap_pages M pg order s2 in Ok (None, s3)
    end.

(** [page_list_del2] *)
Definition list_del2 (pg : Z) (l1 l2 : list Z) : outcome (list Z * list Z) :=
  if bool_decide (pg ∈ l1) then Ok (filter (λ x, x ≠ pg) l1, l2)
  else let! l2' := list_del pg l2 in Ok (l1, l2').

(** The loops of [free_domheap_pages] that take the pages off the lists. *)
Fixpoint unlist_xen_pages (k : nat) (d pg : Z) (s : hstate) : outcome hstate :=
  match k with
  | O => Ok s
  | S k' =>
      deref (pdoms s !! d) (λ D,
        let! (l1, l2) := list_del2 pg (xenpage_list D) (relmem_list D) in
        unlist_xen_pages k' d (pg + 1) (set_pdoms (<[d := set_acct (tot_pages D) (xenheap_pages D) (pd_refcnt D)
          (page_list D) l1 l2 D]>) s))
  end.

Fixpoint unlist_pages (k : nat) (d pg : Z) (s : hstate) : outcome hstate :=
  match k with
  | O => Ok s
  | S k' =>
      deref (pages s !! pg) (λ p,
        BUG_ON (negb (Z.land (p_u p) PGT_count_mask =? 0))
          (deref (pdoms s !! d) (λ D,
             let! (l1, l2) := list_del2 pg (page_list D) (relmem_list D) in
             unlist_pages k' d (pg + 1) (set_pdoms (<[d := set_acct (tot_pages D) (xenheap_pages D) (pd_refcnt D)
               l1 (xenpage_list D) l2 D]>) s))))
  end.

Fixpoint scrub_pages (k : nat) (pg : Z) (s : hstate) : hstate :=
  match k with
  | O => s
  | S k' => scrub_pages k' (pg + 1) (emit (Scrub_one_page pg) s)
  end.

Definition put_pdomain (d : Z) (s : hstate) : outcome hstate :=
  deref (pdoms s !! d) (λ D,
    let s1 := set_pdoms (<[d := set_acct (tot_pages D) (xenheap_pages D) (pd_refcnt D - 1)
                (page_list D) (xenpage_list D) (relmem_list D) D]>) s in
    Ok (if pd_refcnt D - 1 =? 0 then emit (Pdomain_destroy d) s1 else s1)).

Definition free_domheap_pages (M : machine) (pg order : Z) (s : hstate) : outcome hstate :=
  deref (pages s !! pg) (λ p,
    let size := Z.shiftl 1 order in
    let k := Z.to_nat size in
    let! (drop, d, s1) :=
      if is_xen_heap_page p then
        deref (page_get_owner p) (λ d,
          let! s1 := unlist_xen_pages k d pg s in
          deref (pdoms s1 !! d) (λ D,
            let left := u32 (xenheap_pages D - size) in
            Ok (left =? 0, d, set_pdoms (<[d := set_acct (tot_pages D) left (pd_refcnt D)
              (page_list D) (xenpage_list D) (relmem_list D) D]>) s1)))
      else
        match page_get_owner p with
        | Some d =>
            if d =? dom_cow M then
              BUG_ON (negb (order =? 0))
                (let! s1 := free_heap_pages M pg 0 (emit (Scrub_one_page pg) s) in Ok (false, d, s1))
            else
              let! s1 := unlist_pages k d pg s in
              deref (pdoms s1 !! d) (λ D,
                let left := u32 (tot_pages D - size) in
                let s2 := set_pdoms (<[d := set_acct left (xenheap_pages D) (pd_refcnt D)
                            (page_list D) (xenpage_list D) (relmem_list D) D]>) s1 in
                let s3 := if pd_is_dying D then scrub_pages k pg s2 else s2 in
                let! s4 := free_heap_pages M pg order s3 in
                Ok (left =? 0, d, s4))
        | None => let! s1 := free_heap_pages M pg order s in Ok (false, 0, s1)
        end in
    if (drop : bool) then put_pdomain d s1 else Ok s1).

(** ** The Xen heap (x86_64) *)

Fixpoint mark_pages (k : nat) (pg : Z) (f : Z → Z) (s : hstate) : hstate :=
  match k with
  | O => s
  | S k' => mark_pages k' (pg + 1) f (upd_page pg (λ p, set_count (f (count_info p)) p) s)
  end.

Definition alloc_xenheap_pages (M : machine) (order memflags : Z) (s : hstate) : outcome (option Z * hstate) :=
  let! (pg, s1) := alloc_domheap_pages M None order memflags s in
  match pg with
  | None => Ok (None, s1)
  | Some pg => Ok (Some pg, mark_pages (Z.to_nat (Z.shiftl 1 order)) pg (λ c, Z.lor c PGC_xen_heap) s1)
  end.

(** A virtual address is its page, or [NULL]. *)
Definition free_xenheap_pages (M : machine) (v : option Z) (order : Z) (s : hstate) : outcome hstate :=
  match v with
  | None => Ok s
  | Some pg =>
      free_heap_pages M pg order
        (mark_pages (Z.to_nat (Z.shiftl 1 order)) pg (λ c, Z.ldiff c PGC_xen_heap) s)
  end.

(** ** Populating the heap *)

(** Pages for [heap_by_zone_and_order_t] and the counters of a node. *)
Definition HEAP_BYTES : Z := NR_ZONES * (MAX_ORDER + 1) * 16.
Definition NODE_PAGES : Z := Z.shiftr (HEAP_BYTES + 8 * NR_ZONES + PAGE_SIZE - 1) PAGE_SHIFT.

(** Empty lists and zero counters. *)
Definition init_node (node : Z) (s : hstate) : hstate :=
  set_heap (λ h, filter (λ x, x.1.1.1 ≠ node) h)
    (set_avail (<[node := replicate (Z.to_nat NR_ZONES) 0]>) s).

(** The pages taken from the range and whether they come from its tail. *)
Definition init_node_heap (M : machine) (node mfn nr : Z) (use_tail : bool) (s : hstate)
    : outcome (Z * bool * hstate) :=
  if negb (first_node_initialised s) then
    Ok (0, use_tail, init_node node (set_boot true (dma_bitsize s) s))
  else if use_tail && (NODE_PAGES <=? nr) && (mfn + nr <=? directmap_end_mfn M) then
    Ok (NODE_PAGES, use_tail, init_node node s)
  else if (NODE_PAGES <=? nr) && (mfn + NODE_PAGES <=? directmap_end_mfn M) then
    Ok (NODE_PAGES, false, init_node node s)
  else if get_order_from_bytes HEAP_BYTES =? get_order_from_pages NODE_PAGES then
    let! (v, s1) := alloc_xenheap_pages M (get_order_from_pages NODE_PAGES) 0 s in
    BUG_ON (bool_decide (v = None)) (Ok (0, use_tail, init_node node s1))
  else Ok (0, use_tail, init_node node s).

Definition find_first_set_bit (x : Z) : Z := Z.log2 (Z.land x (- x)).

(** Hand the pages [pg + i] up to [pg + nr_pages - 1] to the heap. *)
Fixpoint init_heap_loop (M : machine) (fuel : nat) (pg i nr_pages : Z) (s : hstate) : outcome hstate :=
  match fuel with
  | O => Bug
  | S fuel' =>
      if nr_pages <=? i then Ok s
      else
        let nid := mfn_to_nid M (pg + i) in
        match avail s !! nid with
        | Some _ =>
            let! s1 := free_heap_pages M (pg + i) 0 s in
            init_heap_loop M fuel' pg (i + 1) nr_pages s1
        | None =>
            let s_ := pg + i in
            let e := pg + nr_pages - 1 + 1 in
            let use_tail := (nid =? mfn_to_nid M (e - 1)) &&
                            (Z.land s_ (Z.shiftl 1 MAX_ORDER - 1) =? 0) &&
                            (find_first_set_bit e <=? find_first_set_bit s_) in
            let! (n, use_tail, s1) := init_node_heap M nid (pg + i) (nr_pages - i) use_tail s in
            BUG_ON (nr_pages <? i + n)
              (if negb (n =? 0) && negb use_tail then init_heap_loop M fuel' pg (i + n) nr_pages s1
               else if i + n =? nr_pages then Ok s1
               else
                 let! s2 := free_heap_pages M (pg + i) 0 s1 in
                 init_heap_loop M fuel' pg (i + 1) (nr_pages - n) s2)
        end
  end.

Definition init_heap_pages (M : machine) (pg nr_pages : Z) (s : hstate) : outcome hstate :=
  init_heap_loop M (S (Z.to_nat nr_pages)) pg 0 nr_pages s.

Definition init_domheap_pages (M : machine) (ps pe : Z) (s : hstate) : outcome hstate :=
  let smfn := Z.shiftr (round_pgup ps) PAGE_SHIFT in
  let emfn := Z.shiftr (round_pgdown pe) PAGE_SHIFT in
  init_heap_pages M smfn (u64 (emfn - smfn)) s.

Definition init_xenheap_pages (M : machine) (ps pe : Z) (s : hstate) : outcome hstate :=
  init_domheap_pages M ps pe s.

(** The first non-empty region on CPU 0's node. *)
Fixpoint first_local_region (M : machine) (l : list bootmem_region) : option nat :=
  match l with
  | [] => None
  | r :: l' => if (r_s r <? r_e r) && (mfn_to_nid M (r_s r) =? cpu0_node M) then Some O
               else S <$> first_local_region M l'
  end.

(** [for ( i = nr_bootmem_regions; i-- > 0; )]; the list is given in reverse. *)
Fixpoint init_regions (M : machine) (l : list bootmem_region) (s : hstate) : outcome hstate :=
  match l with
  | [] => Ok s
  | r :: l' =>
      let! s1 := (if r_s r <? r_e r then init_heap_pages M (r_s r) (r_e r - r_s r) s else Ok s) in
      init_regions M l' s1
  end.

Definition end_boot_allocator (M : machine) (b : bootmem) (s : hstate) : outcome hstate :=
  let l := bootmem_region_list b in
  let! (l, s1) :=
    match first_local_region M l with
    | Some i =>
        deref (l !! i) (λ r,
          let! s1 := init_heap_pages M (r_s r) (r_e r - r_s r) s in
          Ok (<[i := mk_region (r_s r) (r_s r)]> l, s1))
    | None => Ok (l, s)
    end in
  let! s2 := init_regions M (rev l) s1 in
  deref (bootmem_region_page b) (λ page,
    let! s3 := init_heap_pages M page 1 s2 in
    Ok (if (dma_bitsize s3 =? 0) && (1 <? Z.of_nat (size (node_online_map M)))
        then set_boot (first_node_initialised s3)
               (Z.min (fls (node0_spanned_pages M) - 1 + PAGE_SHIFT - 2) 32) s3
        else s3)).

(** ** Counting *)

Definition avail_zone (n z : Z) (s : hstate) : Z := default 0 (l ← avail s !! n; l !! Z.to_nat z).

(** [node]: a node, or [None] for -1. *)
Definition avail_heap_pages (M : machine) (zone_lo zone_hi : Z) (node : option Z) (s : hstate) : Z :=
  let zone_hi := if NR_ZONES <=? zone_hi then NR_ZONES - 1 else zone_hi in
  foldr (λ i acc,
    match avail s !! i with
    | None => acc
    | Some _ =>
        if bool_decide (node = None ∨ node = Some i)
        then foldr (λ z acc, avail_zone i z s + acc) acc (seqZ zone_lo (zone_hi - zone_lo + 1))
        else acc
    end) 0 (elements (node_online_map M)).

Definition total_free_pages (s : hstate) : Z := total_avail_pages s - midsize_alloc_zone_pages s.

Definition avail_domheap_pages_region (M : machine) (node : option Z) (min_width max_width : Z) (s : hstate) : Z :=
  let clamp z := Z.max (MEMZONE_XEN + 1) (Z.min (NR_ZONES - 1) z) in
  let zone_lo := clamp (if min_width =? 0 then MEMZONE_XEN + 1 else bits_to_zone min_width) in
  let zone_hi := clamp (if max_width =? 0 then NR_ZONES - 1 else bits_to_zone max_width) in
  avail_heap_pages M zone_lo zone_hi node s.

Definition avail_domheap_pages (M : machine) (s : hstate) : Z :=
  avail_heap_pages M (MEMZONE_XEN + 1) (NR_ZONES - 1) None s.

Definition avail_node_heap_pages (M : machine) (nodeid : Z) (s : hstate) : Z :=
  avail_heap_pages M MEMZONE_XEN (NR_ZONES - 1) (Some nodeid) s.

(** ** Page offlining *)

Definition PG_OFFLINE_OFFLINED : Z := Z.shiftl 1 1.
Definition PG_OFFLINE_PENDING : Z := Z.shiftl 1 2.
Definition PG_OFFLINE_FAILED : Z := Z.shiftl 1 3.
Definition PG_OFFLINE_AGAIN : Z := Z.shiftl 1 4.
Definition PG_OFFLINE_XENPAGE : Z := Z.shiftl 1 8.
Definition PG_OFFLINE_ANONYMOUS : Z := Z.shiftl 1 10.
Definition PG_OFFLINE_NOT_CONV_RAM : Z := Z.shiftl 1 11.
Definition PG_OFFLINE_OWNED : Z := Z.shiftl 1 12.
Definition PG_OFFLINE_BROKEN : Z := Z.shiftl 1 13.
Definition PG_OFFLINE_OWNER_SHIFT : Z := 16.
Definition PG_ONLINE_FAILED : Z := PG_OFFLINE_FAILED.
Definition PG_ONLINE_ONLINED : Z := PG_OFFLINE_OFFLINED.
Definition PG_ONLINE_BROKEN : Z := PG_OFFLINE_BROKEN.
Definition PG_OFFLINE_STATUS_OFFLINED : Z := Z.shiftl 1 1.
Definition PG_OFFLINE_STATUS_OFFLINE_PENDING : Z := Z.shiftl 1 3.
Definition PG_OFFLINE_STATUS_BROKEN : Z := Z.shiftl 1 4.
Definition DOMID_XEN : Z := 0x7FF2.
Definition DOMID_INVALID : Z := 0x7FF4.

(** Returns the original count. *)
Definition mark_page_offline (M : machine) (pg : Z) (broken : bool) (s : hstate) : outcome (Z * hstate) :=
  BUG_ON (negb (ram_conventional M pg)) (deref (pages s !! pg) (λ p,
    let x := count_info p in
    let nx := if negb (Z.land x PGC_state =? PGC_state_offlined) && negb (Z.land x PGC_state =? PGC_state_offlining)
              then Z.lor (Z.ldiff x PGC_state)
                     (if Z.land x PGC_state =? PGC_state_free then PGC_state_offlined else PGC_state_offlining)
              else x in
    let nx := if broken then Z.lor nx PGC_broken else nx in
    Ok (x, upd_page pg (set_count nx) s))).

(** The free chunk of some order that contains the page. *)
Fixpoint find_chunk (k : nat) (n z i pg : Z) (s : hstate) : option Z :=
  match k with
  | O => None
  | S k' =>
      match head (filter (λ h, h ≤ pg < h + Z.shiftl 1 i) (heap_list n z i s)) with
      | Some h => Some h
      | None => find_chunk k' n z (i + 1) pg s
      end
  end.

Definition reserve_heap_page (M : machine) (pg : Z) (s : hstate) : outcome (Z * hstate) :=
  deref (pages s !! pg) (λ p,
    match find_chunk (Z.to_nat (MAX_ORDER + 1)) (mfn_to_nid M pg) (page_to_zone pg p) 0 pg s with
    | Some h => reserve_offlined_page M h s
    | None => Ok (- EINVAL, s)
    end).

(** xen/arch/x86/mm.c *)
Definition page_get_owner_and_reference (pg : Z) (s : hstate) : outcome (option Z * hstate) :=
  deref (pages s !! pg) (λ p,
    if Z.land (u64 (count_info p + 2)) PGC_count_mask <=? 2 then Ok (None, s)
    else Ok (page_get_owner p, upd_page pg (set_count (u64 (count_info p + 1))) s)).

Definition cleanup_page_cacheattr (M : machine) (pg : Z) (s : hstate) : outcome (Z * hstate) :=
  deref (pages s !! pg) (λ p,
    let cacheattr := Z.shiftr (Z.land (count_info p) PGC_cacheattr_mask) PGC_cacheattr_base in
    if cacheattr =? 0 then Ok (0, s)
    else
      let s1 := upd_page pg (set_count (Z.ldiff (count_info p) PGC_cacheattr_mask)) s in
      BUG_ON (is_xen_heap_page p) (Ok (update_xen_mappings M pg s1, s1))).

Definition put_page (M : machine) (pg : Z) (s : hstate) : outcome hstate :=
  deref (pages s !! pg) (λ p,
    BUG_ON (Z.land (count_info p) PGC_count_mask =? 0)
      (let nx := u64 (count_info p - 1) in
       let s1 := upd_page pg (set_count nx) s in
       if Z.land nx PGC_count_mask =? 0 then
         let! (rc, s2) := cleanup_page_cacheattr M pg s1 in
         if rc =? 0 then free_domheap_pages M pg 0 s2 else Ok s2
       else Ok s1)).

(** The return code and [*status], [None] when it is not written. *)
Definition offline_page (M : machine) (mfn : Z) (broken : bool) (s : hstate) : outcome (Z * option Z * hstate) :=
  if negb (mfn_valid M mfn) then Ok (- EINVAL, None, s)
  else if is_xen_fixed_mfn M mfn then
    Ok (- EPERM, Some (Z.lor (Z.lor PG_OFFLINE_XENPAGE PG_OFFLINE_FAILED) (Z.shiftl DOMID_XEN PG_OFFLINE_OWNER_SHIFT)), s)
  else if negb (ram_conventional M mfn) then
    Ok (- EINVAL, Some (Z.lor PG_OFFLINE_FAILED PG_OFFLINE_NOT_CONV_RAM), s)
  else
    deref (pages s !! mfn) (λ p,
      match has_bits (count_info p) PGC_broken, page_get_owner p with
      | true, Some owner =>
          deref (pdoms s !! owner) (λ _, Ok (0, Some PG_OFFLINE_AGAIN, emit (Domain_shutdown owner) s))
      | _, _ =>
          let! (old_info, s1) := mark_page_offline M mfn broken s in
          let with_broken status := Some (if broken then Z.lor status PG_OFFLINE_BROKEN else status) in
          deref (pages s1 !! mfn) (λ p1,
            if page_state_is p1 PGC_state_offlined then
              let! (_, s2) := reserve_heap_page M mfn s1 in
              Ok (0, with_broken PG_OFFLINE_OFFLINED, s2)
            else
              let! (owner, s2) := page_get_owner_and_reference mfn s1 in
              match owner with
              | Some owner =>
                  let '(hit, s3) := p2m_pod_offline_or_broken_hit M mfn s2 in
                  if hit then
                    let! s4 := put_page M mfn s3 in
                    Ok (0, with_broken PG_OFFLINE_OFFLINED, p2m_pod_offline_or_broken_replace M mfn s4)
                  else
                    deref (pdoms s3 !! owner) (λ D,
                      let! s4 := put_page M mfn s3 in
                      Ok (0, with_broken (Z.lor (Z.lor PG_OFFLINE_OWNED PG_OFFLINE_PENDING)
                                            (Z.shiftl (pd_id D) PG_OFFLINE_OWNER_SHIFT)), s4))
              | None =>
                  if has_bits old_info PGC_xen_heap then
                    Ok (0, with_broken (Z.lor (Z.lor PG_OFFLINE_XENPAGE PG_OFFLINE_PENDING)
                                          (Z.shiftl DOMID_XEN PG_OFFLINE_OWNER_SHIFT)), s2)
                  else
                    Ok (0, with_broken (Z.lor (Z.lor PG_OFFLINE_ANONYMOUS PG_OFFLINE_FAILED)
                                          (Z.shiftl DOMID_INVALID PG_OFFLINE_OWNER_SHIFT)), s2)
              end)
      end).

Definition online_page (M : machine) (mfn : Z) (s : hstate) : outcome (Z * option Z * hstate) :=
  if negb (mfn_valid M mfn) then Ok (- EINVAL, None, s)
  else
    deref (pages s !! mfn) (λ p,
      let y := count_info p in
      let st := Z.land y PGC_state in
      let! (ret, status, s1) :=
        if has_bits y PGC_broken then Ok (- EINVAL, Some (Z.lor PG_ONLINE_FAILED PG_ONLINE_BROKEN), s)
        else
          let inuse := upd_page mfn (set_count (Z.lor (Z.ldiff y PGC_state) PGC_state_inuse)) in
          if st =? PGC_state_offlined then
            let! l := list_del mfn (page_offlined_list s) in
            Ok (0, Some PG_ONLINE_ONLINED, inuse (set_offlined l (page_broken_list s) s))
          else if st =? PGC_state_offlining then Ok (0, Some PG_ONLINE_ONLINED, inuse s)
          else Ok (0, Some 0, s) in
      let! s2 := (if st =? PGC_state_offlined then free_heap_pages M mfn 0 s1 else Ok s1) in
      Ok (ret, status, s2)).

Definition query_page_offline (M : machine) (mfn : Z) (s : hstate) : outcome (Z * option Z) :=
  if negb (mfn_valid M mfn) || negb (ram_conventional M mfn) then Ok (- EINVAL, None)
  else
    deref (pages s !! mfn) (λ p,
      let add b x status := if (b : bool) then Z.lor status x else status in
      Ok (0, Some (add (page_state_is p PGC_state_offlined) PG_OFFLINE_STATUS_OFFLINED
               (add (has_bits (count_info p) PGC_broken) PG_OFFLINE_STATUS_BROKEN
                  (add (page_state_is p PGC_state_offlining) PG_OFFLINE_STATUS_OFFLINE_PENDING 0))))).

(** Scrub every free page that a frame number from [mfn] on has. *)
Fixpoint scrub_heap_loop (M : machine) (k : nat) (mfn : Z) (s : hstate) : outcome hstate :=
  match k with
  | O => Ok s
  | S k' =>
      if negb (mfn_valid M mfn) then scrub_heap_loop M k' (mfn + 1) s
      else deref (pages s !! mfn) (λ p,
             scrub_heap_loop M k' (mfn + 1)
               (if page_state_is p PGC_state_free then emit (Scrub_one_page mfn) s else s))
  end.

Definition scrub_heap_pages (M : machine) (opt_bootscrub : bool) (first max_page opt_low_mem_virq : Z) (s : hstate)
    : outcome hstate :=
  if negb opt_bootscrub then Ok s
  else
    let! s1 := scrub_heap_loop M (Z.to_nat (max_page - first)) first s in
    Ok (setup_low_mem_virq opt_low_mem_virq s1).
