(* ===== verification/PageAllocInv.v ===== *)
(** * The buddy heap's invariant

    The free pages are partitioned into aligned blocks; each block is on the
    list of its node, zone and order, or is held by an operation in progress.
    The counters count free pages. The steps of allocation and freeing (take a
    block off its list, put it back, halve it, join two buddies) preserve the
    partition. *)

From S2P Require Import Prelude BootMem PageAlloc.
Local Open Scope xen_scope.

(** ** Aligned blocks *)

Definition in_block (k pg x : Z) : Prop := pg ≤ x < pg + 2 ^ k.

#[export] Instance in_block_dec k pg x : Decision (in_block k pg x).
Proof. unfold in_block. apply _. Defined.

Lemma in_block_head k pg : 0 ≤ k → in_block k pg pg.
Proof. intros Hk. pose proof (Z.pow_pos_nonneg 2 k). unfold in_block. lia. Qed.

Lemma block_end_le k pg n : 0 ≤ k ≤ n → (2 ^ k | pg) → pg < 2 ^ n → pg + 2 ^ k ≤ 2 ^ n.
Proof.
  intros Hk [c ->] Hlt. pose proof (Z.pow_pos_nonneg 2 k).
  replace n with ((n - k) + k) in * by lia. rewrite Z.pow_add_r in * by lia.
  assert (c < 2 ^ (n - k)) by nia. nia.
Qed.

(** The pages of an aligned block have the same top bit, so the same zone. *)
Lemma log2_block k pg x :
  0 ≤ k → 0 < pg → (2 ^ k | pg) → in_block k pg x → Z.log2 x = Z.log2 pg.
Proof.
  intros Hk Hpg Hal Hx. destruct (Z.log2_spec pg Hpg) as [H1 H2].
  pose proof (Z.log2_nonneg pg).
  assert (k ≤ Z.log2 pg).
  { apply Z.log2_le_pow2; [lia|]. apply Z.divide_pos_le in Hal; lia. }
  pose proof (block_end_le k pg (Z.succ (Z.log2 pg)) ltac:(lia) Hal H2).
  apply Z.log2_unique; unfold in_block in Hx; lia.
Qed.

(** An aligned block meets a larger one only by lying inside it. *)
Lemma block_nested k k' pg pg' x :
  0 ≤ k ≤ k' → (2 ^ k | pg) → (2 ^ k' | pg') → in_block k pg x → in_block k' pg' x →
  pg' ≤ pg ∧ pg + 2 ^ k ≤ pg' + 2 ^ k'.
Proof.
  intros Hk [c ->] [c' ->] [Hx1 Hx2] [Hy1 Hy2].
  replace k' with ((k' - k) + k) in * by lia. rewrite Z.pow_add_r in * by lia.
  pose proof (Z.pow_pos_nonneg 2 k). pose proof (Z.pow_pos_nonneg 2 (k' - k)).
  set (A := 2 ^ k) in *. set (B := 2 ^ (k' - k)) in *.
  assert (c' * B < c + 1) by nia. assert (c < c' * B + B) by nia. nia.
Qed.

Lemma block_head_unique k pg b :
  0 ≤ k → (2 ^ k | pg) → (2 ^ k | b) → in_block k pg b → b = pg.
Proof.
  intros Hk [c ->] [d ->] [H1 H2]. pose proof (Z.pow_pos_nonneg 2 k).
  assert (d = c) by nia. by subst.
Qed.

Lemma divide_pow_le j k x : 0 ≤ j ≤ k → (2 ^ k | x) → (2 ^ j | x).
Proof.
  intros Hj Hx. etrans; [|exact Hx]. exists (2 ^ (k - j)).
  rewrite <- Z.pow_add_r by lia. f_equal. lia.
Qed.

Lemma pow2_S k : 0 ≤ k → 2 ^ (k + 1) = 2 * 2 ^ k.
Proof. intros. rewrite Z.pow_add_r by lia. lia. Qed.

Lemma in_block_halves k pg x :
  0 ≤ k → in_block (k + 1) pg x ↔ in_block k pg x ∨ in_block k (pg + 2 ^ k) x.
Proof.
  intros Hk. unfold in_block. rewrite pow2_S by done. pose proof (Z.pow_pos_nonneg 2 k). lia.
Qed.

Lemma divide_upper k pg : 0 ≤ k → (2 ^ (k + 1) | pg) → (2 ^ k | pg + 2 ^ k).
Proof.
  intros Hk Hd. apply Z.divide_add_r; [|by exists 1; lia].
  by apply (divide_pow_le k (k + 1)); [lia|].
Qed.

Lemma has_bits_testbit x k : 0 ≤ k → has_bits x (Z.shiftl 1 k) = Z.testbit x k.
Proof.
  intros Hk. unfold has_bits. rewrite Z.shiftl_1_l.
  destruct (Z.testbit x k) eqn:E.
  - rewrite negb_true_iff. apply Z.eqb_neq. intros E0.
    assert (Z.testbit (Z.land x (2 ^ k)) k = false) as Hb by (rewrite E0; apply Z.bits_0).
    rewrite Z.land_spec, E, Z.pow2_bits_true in Hb by lia. done.
  - rewrite negb_false_iff. apply Z.eqb_eq. apply Z.bits_inj'. intros i Hi.
    rewrite Z.land_spec, Z.bits_0. destruct (decide (i = k)) as [->|]; [by rewrite E|].
    rewrite Z.pow2_bits_false by lia. apply andb_false_r.
Qed.

(** Which half of the next larger aligned block the block is. *)
Lemma aligned_half k pg :
  0 ≤ k → (2 ^ k | pg) →
  if Z.testbit pg k then (2 ^ (k + 1) | pg - 2 ^ k) else (2 ^ (k + 1) | pg).
Proof.
  intros Hk [c ->]. pose proof (Z.pow_pos_nonneg 2 k).
  rewrite Z.testbit_odd, Z.shiftr_div_pow2, Z.div_mul by lia.
  rewrite pow2_S by done. destruct (Z.odd c) eqn:E.
  - apply Z.odd_spec in E as [q ->]. exists q. lia.
  - rewrite <- Z.negb_even, negb_false_iff in E. apply Z.even_spec in E as [q ->]. exists q. lia.
Qed.

(** ** The partition of the free pages *)

Definition hlist (hp : gmap (Z * Z * Z) (list Z)) (n z k : Z) : list Z := default [] (hp !! (n, z, k)).

Lemma hlist_insert hp n z k l n' z' k' :
  hlist (<[(n, z, k) := l]> hp) n' z' k' = if decide ((n', z', k') = (n, z, k)) then l else hlist hp n' z' k'.
Proof.
  unfold hlist. case_decide as E.
  - rewrite E. by rewrite lookup_insert_eq.
  - by rewrite lookup_insert_ne.
Qed.

(** A page on a free block of node [n]. *)
Definition frame_free (M : machine) (P : gmap Z page_info) (n x : Z) : Prop :=
  ∃ p, P !! x = Some p ∧ count_info p = PGC_state_free ∧ mfn_valid M x = true ∧ mfn_to_nid M x = n.

Section blocks.
Context (M : machine).
Implicit Types (P : gmap Z page_info) (hp : gmap (Z * Z * Z) (list Z)) (H : list (Z * Z)).

Definition listed hp (k pg : Z) : Prop := pg ∈ hlist hp (mfn_to_nid M pg) (Z.log2 pg) k.
Definition free_block hp H (k pg : Z) : Prop := listed hp k pg ∨ (k, pg) ∈ H.

(** [H] holds the blocks that an operation has taken off their lists. *)
Record blocks_wf P hp H : Prop := {
  bw_key n z k pg : pg ∈ hlist hp n z k →
    n = mfn_to_nid M pg ∧ z = Z.log2 pg ∧ ∃ p, P !! pg = Some p ∧ PFN_ORDER p = k;
  bw_nodup n z k : NoDup (hlist hp n z k);
  bw_block k pg : free_block hp H k pg →
    0 ≤ k ≤ MAX_ORDER ∧ 0 < pg ∧ (2 ^ k | pg) ∧ ∀ x, in_block k pg x → frame_free M P (mfn_to_nid M pg) x;
  bw_disj k pg k' pg' x : free_block hp H k pg → free_block hp H k' pg' →
    in_block k pg x → in_block k' pg' x → k = k' ∧ pg = pg';
  bw_held_nodup : NoDup H;
  bw_held k pg : (k, pg) ∈ H → ¬ listed hp k pg;
  bw_cover x p : P !! x = Some p → page_state_is p PGC_state_free = true →
    ∃ k pg, free_block hp H k pg ∧ in_block k pg x;
}.

(** Take a block off its list. *)
Lemma blocks_hold P hp H n z k pg l :
  blocks_wf P hp H → pg ∈ hlist hp n z k → NoDup l → (∀ x, x ∈ l ↔ x ∈ hlist hp n z k ∧ x ≠ pg) →
  blocks_wf P (<[(n, z, k) := l]> hp) ((k, pg) :: H).
Proof.
  intros Hw Hpg Hnd Hl. destruct (bw_key _ _ _ Hw _ _ _ _ Hpg) as (-> & -> & _).
  assert (∀ n' z' k' x, x ∈ hlist (<[(mfn_to_nid M pg, Z.log2 pg, k) := l]> hp) n' z' k' ↔
    x ∈ hlist hp n' z' k' ∧ ¬ (n' = mfn_to_nid M pg ∧ z' = Z.log2 pg ∧ k' = k ∧ x = pg)) as Hin.
  { intros n' z' k' x. rewrite hlist_insert. case_decide as E.
    - injection E as -> -> ->. rewrite Hl. naive_solver.
    - split; [|naive_solver]. intros ?; split; [done|]. intros (-> & -> & -> & _). done. }
  assert (∀ k' x, free_block (<[(mfn_to_nid M pg, Z.log2 pg, k) := l]> hp) ((k, pg) :: H) k' x ↔
    free_block hp H k' x) as Hfb.
  { intros k' x. unfold free_block, listed. rewrite Hin, elem_of_cons. split.
    - intros [[? _]|[[= -> ->]|?]]; auto.
    - intros [?|?]; [|auto]. destruct (decide ((k', x) = (k, pg))) as [|Hne]; [auto|].
      left. split; [done|]. intros (_ & _ & -> & ->). done. }
  split.
  - intros n' z' k' x [Hx _]%Hin. by apply (bw_key _ _ _ Hw).
  - intros n' z' k'. rewrite hlist_insert. case_decide; [done|apply (bw_nodup _ _ _ Hw)].
  - intros k' x Hx%Hfb. by apply (bw_block _ _ _ Hw).
  - intros k1 p1 k2 p2 x H1%Hfb H2%Hfb. by apply (bw_disj _ _ _ Hw).
  - apply NoDup_cons; split; [|apply (bw_held_nodup _ _ _ Hw)].
    intros Hx. by apply (bw_held _ _ _ Hw) in Hx.
  - intros k' x [[= -> ->]|Hx]%elem_of_cons Hlx.
    + apply Hin in Hlx as [_ Hne]. by apply Hne.
    + apply Hin in Hlx as [Hlx _]. by apply (bw_held _ _ _ Hw _ _ Hx).
  - intros x p Hp Hf. destruct (bw_cover _ _ _ Hw _ _ Hp Hf) as (k' & pg' & ? & ?).
    exists k', pg'. by rewrite Hfb.
Qed.

(** Regrouping the held blocks without changing the pages they cover. *)
Lemma blocks_regroup P hp H H' :
  blocks_wf P hp H → NoDup H' →
  (∀ k pg, (k, pg) ∈ H' → ¬ listed hp k pg ∧ 0 ≤ k ≤ MAX_ORDER ∧ 0 < pg ∧ (2 ^ k | pg) ∧
     ∀ x, in_block k pg x → frame_free M P (mfn_to_nid M pg) x ∧ ∃ k0 pg0, (k0, pg0) ∈ H ∧ in_block k0 pg0 x) →
  (∀ k pg k' pg' x, (k, pg) ∈ H' → (k', pg') ∈ H' → in_block k pg x → in_block k' pg' x → k = k' ∧ pg = pg') →
  (∀ k pg x, (k, pg) ∈ H → in_block k pg x → ∃ k' pg', (k', pg') ∈ H' ∧ in_block k' pg' x) →
  blocks_wf P hp H'.
Proof.
  intros Hw Hnd Hb Hd Hc.
  assert (∀ k pg k' pg' x, listed hp k pg → (k', pg') ∈ H' → in_block k pg x → in_block k' pg' x → False) as Hx.
  { intros k pg k' pg' x Hl Hh Hi1 Hi2. destruct (Hb _ _ Hh) as (_ & _ & _ & _ & Hf).
    destruct (Hf x Hi2) as (_ & k0 & pg0 & Hk0 & Hi0).
    destruct (bw_disj _ _ _ Hw k pg k0 pg0 x) as [-> ->]; [by left|by right|done|done|].
    by apply (bw_held _ _ _ Hw _ _ Hk0). }
  split.
  - apply (bw_key _ _ _ Hw).
  - apply (bw_nodup _ _ _ Hw).
  - intros k pg [?|Hh]; [apply (bw_block _ _ _ Hw); by left|].
    destruct (Hb _ _ Hh) as (_ & ? & ? & ? & Hf). split_and!; try done || lia. intros x Hi. by apply Hf.
  - intros k pg k' pg' x [H1|H1] [H2|H2] Hi1 Hi2; [|exfalso; eauto|exfalso; eauto|eauto].
    by apply (bw_disj _ _ _ Hw k pg k' pg' x); [left|left| |].
  - done.
  - intros k pg Hh. by apply (Hb _ _ Hh).
  - intros x p Hp Hf. destruct (bw_cover _ _ _ Hw _ _ Hp Hf) as (k & pg & [?|?] & ?).
    + exists k, pg. split; [by left|done].
    + destruct (Hc k pg x) as (k' & pg' & ? & ?); [done|done|]. exists k', pg'. split; [by right|done].
Qed.

Lemma nid_in_block P hp H k pg x :
  blocks_wf P hp H → free_block hp H k pg → in_block k pg x → mfn_to_nid M x = mfn_to_nid M pg.
Proof. intros Hw Hf Hx. destruct (bw_block _ _ _ Hw _ _ Hf) as (_ & _ & _ & Hb). by destruct (Hb x Hx) as (p & _ & _ & _ & ?). Qed.

(** No other block, listed or held, meets a held one. *)
Lemma not_listed_in_held P hp H k pg k' pg' x :
  blocks_wf P hp H → (k, pg) ∈ H → in_block k pg x → in_block k' pg' x → ¬ listed hp k' pg'.
Proof.
  intros Hw Hh Hi1 Hi2 Hl. destruct (bw_disj _ _ _ Hw k pg k' pg' x) as [-> ->]; [by right|by left|done|done|].
  by apply (bw_held _ _ _ Hw _ _ Hh).
Qed.

Lemma blocks_halve P hp k pg :
  0 ≤ k → blocks_wf P hp [(k + 1, pg)] → blocks_wf P hp [(k, pg); (k, pg + 2 ^ k)].
Proof.
  intros Hk Hw. pose proof (Z.pow_pos_nonneg 2 k ltac:(lia) Hk) as Hpow.
  assert ((k + 1, pg) ∈ [(k + 1, pg)]) as Hin by (by left).
  destruct (bw_block _ _ _ Hw (k + 1) pg) as (Hord & Hpos & Hal & Hfr); [by right|].
  assert (∀ x, in_block k pg x ∨ in_block k (pg + 2 ^ k) x → in_block (k + 1) pg x) as Hsub.
  { intros x. by rewrite in_block_halves. }
  pose proof (in_block_head k pg Hk) as Hh1. pose proof (in_block_head k (pg + 2 ^ k) Hk) as Hh2.
  pose proof (nid_in_block _ _ _ _ _ _ Hw (or_intror Hin) (Hsub _ (or_intror Hh2))) as Hn.
  apply (blocks_regroup _ _ _ _ Hw).
  - apply NoDup_cons; split; [|apply NoDup_singleton]. rewrite list_elem_of_singleton. intros [= ?]. lia.
  - intros k' pg' Hin'. rewrite elem_of_cons, list_elem_of_singleton in Hin'.
    destruct Hin' as [[= -> ->]|[= -> ->]].
    + split_and!; [by apply (not_listed_in_held _ _ _ _ _ _ _ _ Hw Hin (Hsub _ (or_introl Hh1)))|lia|lia|done|
        by apply (divide_pow_le k (k + 1)); [lia|]|].
      intros x Hx. split; [by apply Hfr, Hsub; left|]. exists (k + 1), pg. split; [done|by apply Hsub; left].
    + split_and!; [by apply (not_listed_in_held _ _ _ _ _ _ _ _ Hw Hin (Hsub _ (or_intror Hh2)))|lia|lia|lia|
        by apply divide_upper|].
      intros x Hx. rewrite Hn. split; [by apply Hfr, Hsub; right|]. exists (k + 1), pg. split; [done|by apply Hsub; right].
  - intros k1 p1 k2 p2 x [[= -> ->]|[= -> ->]%list_elem_of_singleton]%elem_of_cons
      [[= -> ->]|[= -> ->]%list_elem_of_singleton]%elem_of_cons; unfold in_block; lia.
  - intros k' pg' x [= -> ->]%list_elem_of_singleton [Hx|Hx]%in_block_halves; [| |done].
    + exists k, pg. split; [by left|done].
    + exists k, (pg + 2 ^ k). split; [by right; left|done].
Qed.

Lemma blocks_join P hp k lo n :
  0 ≤ k → k + 1 ≤ MAX_ORDER → (2 ^ (k + 1) | lo) → mfn_to_nid M lo = n → mfn_to_nid M (lo + 2 ^ k) = n →
  blocks_wf P hp [(k, lo); (k, lo + 2 ^ k)] → blocks_wf P hp [(k + 1, lo)].
Proof.
  intros Hk Hmax Hal Hn1 Hn2 Hw.
  assert ((k, lo) ∈ [(k, lo); (k, lo + 2 ^ k)]) as Hin1 by (by left).
  assert ((k, lo + 2 ^ k) ∈ [(k, lo); (k, lo + 2 ^ k)]) as Hin2 by (by right; left).
  destruct (bw_block _ _ _ Hw k lo) as (Hord & Hpos & _ & Hf1); [by right|].
  destruct (bw_block _ _ _ Hw k (lo + 2 ^ k)) as (_ & _ & _ & Hf2); [by right|].
  pose proof (in_block_head (k + 1) lo ltac:(lia)) as Hh. pose proof (in_block_head k lo Hk) as Hh'.
  apply (blocks_regroup _ _ _ _ Hw).
  - apply NoDup_singleton.
  - intros k' pg' [= -> ->]%list_elem_of_singleton.
    split_and!; [by apply (not_listed_in_held _ _ _ _ _ _ _ _ Hw Hin1 Hh')|lia|lia|lia|done|].
    intros x [Hx|Hx]%in_block_halves; [| |done].
    + split; [by apply Hf1|by exists k, lo].
    + split; [rewrite Hn1, <- Hn2; by apply Hf2|by exists k, (lo + 2 ^ k)].
  - by intros k1 p1 k2 p2 x [= -> ->]%list_elem_of_singleton [= -> ->]%list_elem_of_singleton.
  - intros k' pg' x Hin Hx. exists (k + 1), lo. split; [by left|]. rewrite in_block_halves by done.
    rewrite elem_of_cons, list_elem_of_singleton in Hin. destruct Hin as [[= -> ->]|[= -> ->]]; auto.
Qed.

Lemma blocks_swap P hp a b : blocks_wf P hp [a; b] → blocks_wf P hp [b; a].
Proof.
  intros Hw.
  assert (∀ x : Z * Z, x ∈ [b; a] ↔ x ∈ [a; b]) as Hs by set_solver.
  assert (∀ k pg, free_block hp [b; a] k pg ↔ free_block hp [a; b] k pg) as Hfb.
  { intros k pg. unfold free_block. by rewrite Hs. }
  split.
  - apply (bw_key _ _ _ Hw).
  - apply (bw_nodup _ _ _ Hw).
  - intros k pg Hf%Hfb. by apply (bw_block _ _ _ Hw).
  - intros k pg k' pg' x H1%Hfb H2%Hfb. by apply (bw_disj _ _ _ Hw).
  - pose proof (bw_held_nodup _ _ _ Hw) as Hnd. by rewrite Permutation_swap.
  - intros k pg Hin%Hs. by apply (bw_held _ _ _ Hw).
  - intros x p Hp Hf. destruct (bw_cover _ _ _ Hw _ _ Hp Hf) as (k & pg & ? & ?). exists k, pg. by rewrite Hfb.
Qed.

(** Put a held block on its list, its order in its first page. *)
Lemma blocks_put P hp k pg H :
  blocks_wf P hp ((k, pg) :: H) →
  blocks_wf (alter (set_v k) pg P)
    (<[(mfn_to_nid M pg, Z.log2 pg, k) := hlist hp (mfn_to_nid M pg) (Z.log2 pg) k ++ [pg]]> hp) H.
Proof.
  intros Hw. set (hp' := <[_ := _]> hp).
  assert ((k, pg) ∈ (k, pg) :: H) as Hin by (by left).
  pose proof (bw_held _ _ _ Hw _ _ Hin) as Hnl.
  destruct (bw_block _ _ _ Hw k pg) as (Hord & Hpos & Hal & Hfr); [by right|].
  destruct (Hfr pg) as (p0 & Hp0 & Hc0 & _); [apply in_block_head; lia|].
  pose proof (bw_held_nodup _ _ _ Hw) as [HnH HndH]%NoDup_cons.
  assert (∀ n z k' x, x ∈ hlist hp' n z k' ↔
    x ∈ hlist hp n z k' ∨ (n = mfn_to_nid M pg ∧ z = Z.log2 pg ∧ k' = k ∧ x = pg)) as Hl.
  { intros n z k' x. unfold hp'. rewrite hlist_insert. case_decide as E.
    - injection E as -> -> ->. rewrite elem_of_app, list_elem_of_singleton. naive_solver.
    - split; [auto|]. intros [?|(-> & -> & -> & ->)]; [done|by destruct E]. }
  assert (∀ k' x, free_block hp' H k' x ↔ free_block hp ((k, pg) :: H) k' x) as Hfb.
  { intros k' x. unfold free_block, listed. rewrite Hl, elem_of_cons. split.
    - intros [[?|(_ & _ & -> & ->)]|?]; auto.
    - intros [?|[[= -> ->]|?]]; auto. left. right. done. }
  assert (∀ n x, frame_free M P n x → frame_free M (alter (set_v k) pg P) n x) as Hff.
  { intros n x (p & Hp & Hc & Hv & Hn). destruct (decide (x = pg)) as [->|].
    - exists (set_v k p). rewrite lookup_alter_eq, Hp. done.
    - exists p. rewrite lookup_alter_ne by done. done. }
  split.
  - intros n z k' x [Hx|(-> & -> & -> & ->)]%Hl.
    + destruct (bw_key _ _ _ Hw _ _ _ _ Hx) as (-> & -> & p & Hp & Ho). split_and!; [done..|].
      destruct (decide (x = pg)) as [->|]; [|exists p; by rewrite lookup_alter_ne].
      destruct (bw_disj _ _ _ Hw k' pg k pg pg) as [-> _]; [by left|by right|apply in_block_head..|done].
      { by destruct (bw_block _ _ _ Hw k' pg (or_introl Hx)) as ([??] & _). }
      { lia. }
    + split_and!; [done..|]. exists (set_v k p0). by rewrite lookup_alter_eq, Hp0.
  - intros n z k'. unfold hp'. rewrite hlist_insert. case_decide as E; [|apply (bw_nodup _ _ _ Hw)].
    injection E as -> -> ->. apply NoDup_app. split_and!; [apply (bw_nodup _ _ _ Hw)| |apply NoDup_singleton].
    intros x Hx ->%list_elem_of_singleton. done.
  - intros k' x Hx%Hfb. destruct (bw_block _ _ _ Hw _ _ Hx) as (? & ? & ? & Hb). split_and!; [lia..|done|].
    intros y Hy. by apply Hff, Hb.
  - intros k1 p1 k2 p2 x H1%Hfb H2%Hfb. by apply (bw_disj _ _ _ Hw).
  - done.
  - intros k' x Hx [Hlx|(_ & _ & -> & ->)]%Hl; [|done]. apply (bw_held _ _ _ Hw k' x); [by right|done].
  - intros x p Hp Hf. assert (∃ p', P !! x = Some p' ∧ page_state_is p' PGC_state_free = true) as (p' & Hp' & Hf').
    { destruct (decide (x = pg)) as [->|].
      - rewrite lookup_alter_eq, Hp0 in Hp. injection Hp as <-. exists p0. done.
      - rewrite lookup_alter_ne in Hp by done. by exists p. }
    destruct (bw_cover _ _ _ Hw _ _ Hp' Hf') as (k' & pg' & ? & ?). exists k', pg'. by rewrite Hfb.
Qed.

(** The pages of a held block leave the heap. *)
Lemma blocks_claim P P' hp k pg H :
  blocks_wf P hp ((k, pg) :: H) →
  (∀ x, ¬ in_block k pg x → P' !! x = P !! x) →
  (∀ x p, in_block k pg x → P' !! x = Some p → page_state_is p PGC_state_free = false) →
  blocks_wf P' hp H.
Proof.
  intros Hw Hout Hin.
  assert ((k, pg) ∈ (k, pg) :: H) as Hh by (by left).
  pose proof (bw_held_nodup _ _ _ Hw) as [HnH HndH]%NoDup_cons.
  assert (∀ k' pg' x, free_block hp H k' pg' → in_block k' pg' x → ¬ in_block k pg x) as Hap.
  { intros k' pg' x [Hf|Hf] Hx Hx'.
    - by apply (not_listed_in_held _ _ _ _ _ k' pg' x Hw Hh Hx').
    - destruct (bw_disj _ _ _ Hw k' pg' k pg x) as [-> ->]; [by right; right|by right|done..]. }
  assert (∀ k' pg', free_block hp H k' pg' → free_block hp ((k, pg) :: H) k' pg') as Hfb.
  { intros k' pg' [?|?]; [by left|by right; right]. }
  split.
  - intros n z k' x Hx. destruct (bw_key _ _ _ Hw _ _ _ _ Hx) as (-> & -> & p & Hp & Ho).
    split_and!; [done..|]. exists p. rewrite Hout; [done|].
    apply (Hap k' x); [by left|]. apply in_block_head.
    by destruct (bw_block _ _ _ Hw k' x (or_introl Hx)) as ([??] & _).
  - apply (bw_nodup _ _ _ Hw).
  - intros k' pg' Hf. destruct (bw_block _ _ _ Hw _ _ (Hfb _ _ Hf)) as (? & ? & ? & Hb).
    split_and!; [lia..|done|]. intros x Hx. destruct (Hb x Hx) as (p & Hp & ?). exists p.
    rewrite Hout; [done|]. by apply (Hap k' pg').
  - intros k1 p1 k2 p2 x H1%Hfb H2%Hfb. by apply (bw_disj _ _ _ Hw).
  - done.
  - intros k' x Hx. apply (bw_held _ _ _ Hw). by right.
  - intros x p Hp Hf. destruct (decide (in_block k pg x)) as [Hx|Hx].
    { by rewrite (Hin x p Hx Hp) in Hf. }
    rewrite Hout in Hp by done. destruct (bw_cover _ _ _ Hw _ _ Hp Hf) as (k' & pg' & Hf' & Hx').
    exists k', pg'. split; [|done]. destruct Hf' as [?|[[= -> ->]|?]%elem_of_cons]; [by left|done|by right].
Qed.

(** The pages of a block that was not free come to be free, the block held. *)
Lemma blocks_release P P' hp k pg H :
  blocks_wf P hp H → 0 ≤ k ≤ MAX_ORDER → 0 < pg → (2 ^ k | pg) →
  (∀ x, ¬ in_block k pg x → P' !! x = P !! x) →
  (∀ x, in_block k pg x → ∃ p, P !! x = Some p ∧ page_state_is p PGC_state_free = false) →
  (∀ x, in_block k pg x → frame_free M P' (mfn_to_nid M pg) x) →
  blocks_wf P' hp ((k, pg) :: H).
Proof.
  intros Hw Hk Hpos Hal Hout Hold Hnew.
  assert (∀ k' pg' x, free_block hp H k' pg' → in_block k' pg' x → ¬ in_block k pg x) as Hap.
  { intros k' pg' x Hf Hx Hx'. destruct (bw_block _ _ _ Hw _ _ Hf) as (_ & _ & _ & Hb).
    destruct (Hb x Hx) as (p & Hp & Hc & _). destruct (Hold x Hx') as (p' & Hp' & Hns).
    rewrite Hp in Hp'. injection Hp' as <-. unfold page_state_is in Hns. by rewrite Hc in Hns. }
  assert (¬ free_block hp H k pg) as Hnf.
  { intros Hf. apply (Hap _ _ pg Hf); apply in_block_head; lia. }
  assert (∀ k' pg', free_block hp ((k, pg) :: H) k' pg' ↔ free_block hp H k' pg' ∨ (k', pg') = (k, pg)) as Hfb.
  { intros k' pg'. unfold free_block. rewrite elem_of_cons. naive_solver. }
  split.
  - intros n z k' x Hx. destruct (bw_key _ _ _ Hw _ _ _ _ Hx) as (-> & -> & p & Hp & Ho).
    split_and!; [done..|]. exists p. rewrite Hout; [done|].
    apply (Hap k' x); [by left|]. apply in_block_head.
    by destruct (bw_block _ _ _ Hw k' x (or_introl Hx)) as ([??] & _).
  - apply (bw_nodup _ _ _ Hw).
  - intros k' pg' [Hf|[= -> ->]]%Hfb; [|done].
    destruct (bw_block _ _ _ Hw _ _ Hf) as (? & ? & ? & Hb). split_and!; [lia..|done|].
    intros x Hx. destruct (Hb x Hx) as (p & Hp & ?). exists p. rewrite Hout; [done|]. by apply (Hap k' pg').
  - intros k1 p1 k2 p2 x [H1|[= -> ->]]%Hfb [H2|[= -> ->]]%Hfb Hx1 Hx2.
    + by apply (bw_disj _ _ _ Hw k1 p1 k2 p2 x).
    + by destruct (Hap k1 p1 x).
    + by destruct (Hap k2 p2 x).
    + done.
  - apply NoDup_cons; split; [|apply (bw_held_nodup _ _ _ Hw)]. intros ?. apply Hnf. by right.
  - intros k' x [[= -> ->]|Hx]%elem_of_cons; [intros ?; apply Hnf; by left|by apply (bw_held _ _ _ Hw)].
  - intros x p Hp Hf. destruct (decide (in_block k pg x)) as [Hx|Hx].
    { exists k, pg. split; [|done]. right. by left. }
    rewrite Hout in Hp by done. destruct (bw_cover _ _ _ Hw _ _ Hp Hf) as (k' & pg' & Hf' & Hx').
    exists k', pg'. split; [|done]. apply Hfb. by left.
Qed.

(** The test for a buddy is exact: a free page that is the other half of the
    next larger aligned block and has the order of the held block is the head
    of a block of this order, and on its list. *)
Lemma buddy_listed P hp k pg b lo p :
  blocks_wf P hp [(k, pg)] → 0 ≤ k → (2 ^ (k + 1) | lo) → in_block (k + 1) lo pg → in_block (k + 1) lo b →
  (2 ^ k | b) → b ≠ pg → P !! b = Some p → page_state_is p PGC_state_free = true → PFN_ORDER p = k →
  0 < lo ∧ listed hp k b.
Proof.
  intros Hw Hk Hlo Hpg Hb Hal Hne Hp Hfree Hord.
  assert (free_block hp [(k, pg)] k pg) as Hh by (right; by left).
  destruct (bw_block _ _ _ Hw _ _ Hh) as (_ & _ & Hpgal & _).
  destruct (bw_cover _ _ _ Hw _ _ Hp Hfree) as (k' & b' & Hf & Hin).
  destruct (bw_block _ _ _ Hw _ _ Hf) as (Hk' & Hb'pos & Hal' & _).
  destruct (decide (k < k')) as [Hlt|Hge].
  { exfalso. destruct (block_nested (k + 1) k' lo b' b) as [H1 H2]; [lia|done..|].
    destruct (bw_disj _ _ _ Hw k pg k' b' pg) as [-> _]; [done|done|by apply in_block_head| |lia].
    unfold in_block in *. lia. }
  assert (b = b') as <-.
  { apply (block_head_unique k'); [lia|done| |done]. by apply (divide_pow_le k' k); [lia|]. }
  assert (listed hp k' b) as Hl.
  { destruct Hf as [?|[= -> ->]%list_elem_of_singleton]; done. }
  destruct (bw_key _ _ _ Hw _ _ _ _ Hl) as (_ & _ & q & Hq & Hqo).
  rewrite Hp in Hq. injection Hq as <-. rewrite Hord in Hqo. subst k'. split; [|done].
  destruct Hlo as [c ->]. unfold in_block in *. rewrite pow2_S in * by done.
  pose proof (Z.pow_pos_nonneg 2 k ltac:(lia) Hk).
  assert (0 < pg) by (by destruct (bw_block _ _ _ Hw _ _ Hh) as (_ & ? & _)).
  destruct (decide (c = 0)) as [->|]; [|nia]. exfalso.
  destruct Hpgal as [c1 ->], Hal as [c2 ->]. assert (c1 = 1) by nia. assert (c2 = 1) by nia. by subst.
Qed.

End blocks.

(** ** The counters *)

Definition free_pages (P : gmap Z page_info) : gset Z :=
  dom (filter (λ xp : Z * page_info, page_state_is xp.2 PGC_state_free = true) P).
Definition block_set (k pg : Z) : gset Z := list_to_set (seqZ pg (2 ^ k)).

Lemma elem_of_free_pages P x :
  x ∈ free_pages P ↔ ∃ p, P !! x = Some p ∧ page_state_is p PGC_state_free = true.
Proof.
  unfold free_pages. rewrite elem_of_dom. unfold is_Some. split.
  - intros [p [? ?]%map_lookup_filter_Some]. by exists p.
  - intros (p & ? & ?). exists p. by apply map_lookup_filter_Some.
Qed.

Lemma elem_of_block_set k pg x : x ∈ block_set k pg ↔ in_block k pg x.
Proof. unfold block_set. rewrite elem_of_list_to_set, elem_of_seqZ. done. Qed.

Lemma size_block_set k pg : 0 ≤ k → Z.of_nat (size (block_set k pg)) = 2 ^ k.
Proof.
  intros Hk. unfold block_set. rewrite size_list_to_set by apply NoDup_seqZ.
  rewrite length_seqZ. pose proof (Z.pow_pos_nonneg 2 k). lia.
Qed.

(** The free pages of a zone of a node. *)
Definition zone_pages (M : machine) (n z : Z) (F : gset Z) : Z :=
  Z.of_nat (size (filter (λ x, mfn_to_nid M x = n ∧ Z.log2 x = z) F)).

Lemma zone_pages_union M n z F B n' z' :
  F ## B → (∀ x, x ∈ B → mfn_to_nid M x = n ∧ Z.log2 x = z) →
  zone_pages M n' z' (F ∪ B) =
    zone_pages M n' z' F + (if decide (n' = n ∧ z' = z) then Z.of_nat (size B) else 0).
Proof.
  intros Hd HB. unfold zone_pages. rewrite filter_union_L by apply _. rewrite size_union.
  2: { intros x [_ Hx]%elem_of_filter [_ Hx']%elem_of_filter. by apply (Hd x). }
  rewrite Nat2Z.inj_add. f_equal. case_decide as E.
  - destruct E as [-> ->]. do 2 f_equal. apply set_eq. intros x. rewrite elem_of_filter. naive_solver.
  - apply (f_equal Z.of_nat (y:=0%nat)), size_empty_iff. intros x. rewrite elem_of_filter. split; [|set_solver].
    intros [[<- <-] Hx]. destruct E. by apply HB in Hx as [-> ->].
Qed.

Record counts_wf (M : machine) (F : gset Z) (av : gmap Z (list Z)) (total : Z) : Prop := {
  cw_avail n l : av !! n = Some l → 0 ≤ n < MAX_NUMNODES ∧ Z.of_nat (length l) = NR_ZONES ∧
    ∀ z, 0 ≤ z < NR_ZONES → l !! Z.to_nat z = Some (zone_pages M n z F);
  cw_node x : x ∈ F → is_Some (av !! mfn_to_nid M x) ∧ Z.log2 x < NR_ZONES;
  cw_total : total = Z.of_nat (size F);
}.

Lemma counts_update M F F' av total n z d l :
  counts_wf M F av total → av !! n = Some l → 0 ≤ z < NR_ZONES →
  (∀ n' z', zone_pages M n' z' F' = zone_pages M n' z' F + (if decide (n' = n ∧ z' = z) then d else 0)) →
  Z.of_nat (size F') = Z.of_nat (size F) + d →
  (∀ x, x ∈ F' → x ∈ F ∨ (mfn_to_nid M x = n ∧ Z.log2 x = z)) →
  counts_wf M F' (alter (<[Z.to_nat z := zone_pages M n z F + d]>) n av) (total + d).
Proof.
  intros Hw Hl Hz Hzp Hsz Hsub.
  assert (∀ n', is_Some (av !! n') → is_Some (alter (<[Z.to_nat z := zone_pages M n z F + d]>) n av !! n')) as Hav.
  { intros n' [l' Hl']. rewrite lookup_alter. case_decide; subst; rewrite Hl'; by eexists. }
  split.
  - intros n' l'. rewrite lookup_alter. case_decide as E.
    + subst n'. rewrite Hl. intros [= <-]. destruct (cw_avail _ _ _ _ Hw _ _ Hl) as (Hn & Hlen & Hc).
      split_and!; [lia..|by rewrite length_insert|]. intros z' Hz'.
      destruct (decide (z' = z)) as [->|Hne].
      * rewrite list_lookup_insert_eq; [|unfold NR_ZONES in *; lia]. rewrite Hzp, decide_True by done. done.
      * rewrite list_lookup_insert_ne by lia. rewrite Hc, Hzp, decide_False by (done || naive_solver).
        f_equal. lia.
    + intros Hl'. destruct (cw_avail _ _ _ _ Hw _ _ Hl') as (Hn & Hlen & Hc). split_and!; [lia..|done|].
      intros z' Hz'. rewrite Hc, Hzp, decide_False by (done || naive_solver). f_equal. lia.
  - intros x [Hx|[<- <-]]%Hsub; [|split; [apply Hav; eauto|lia]].
    destruct (cw_node _ _ _ _ Hw _ Hx). split; [by apply Hav|done].
  - rewrite (cw_total _ _ _ _ Hw). lia.
Qed.

Lemma counts_claim M F B av total n z l :
  counts_wf M F av total → B ⊆ F → av !! n = Some l → 0 ≤ z < NR_ZONES →
  (∀ x, x ∈ B → mfn_to_nid M x = n ∧ Z.log2 x = z) →
  Z.of_nat (size B) ≤ zone_pages M n z F ∧ Z.of_nat (size B) ≤ total ∧
  counts_wf M (F ∖ B) (alter (<[Z.to_nat z := zone_pages M n z F - Z.of_nat (size B)]>) n av)
    (total - Z.of_nat (size B)).
Proof.
  intros Hw Hsub Hl Hz HB.
  assert (F = F ∖ B ∪ B) as HF by (by rewrite difference_union_L, union_comm_L, subseteq_union_1_L).
  assert (F ∖ B ## B) as Hd by set_solver.
  pose proof (λ n' z', zone_pages_union M n z (F ∖ B) B n' z' Hd HB) as Hzp. rewrite <- HF in Hzp.
  assert (size F = size (F ∖ B) + size B)%nat as Hsz by (rewrite HF at 1; by apply size_union).
  split_and!.
  - rewrite (Hzp n z), decide_True by done. unfold zone_pages. lia.
  - rewrite (cw_total _ _ _ _ Hw). lia.
  - replace (zone_pages M n z F - Z.of_nat (size B)) with (zone_pages M n z F + - Z.of_nat (size B)) by lia.
    replace (total - Z.of_nat (size B)) with (total + - Z.of_nat (size B)) by lia.
    apply (counts_update M F (F ∖ B) av total n z _ l); [done..| |lia|set_solver].
    intros n' z'. rewrite Hzp. case_decide; lia.
Qed.

Lemma counts_release M F B av total n z l :
  counts_wf M F av total → F ## B → av !! n = Some l → 0 ≤ z < NR_ZONES →
  (∀ x, x ∈ B → mfn_to_nid M x = n ∧ Z.log2 x = z) →
  counts_wf M (F ∪ B) (alter (<[Z.to_nat z := zone_pages M n z F + Z.of_nat (size B)]>) n av)
    (total + Z.of_nat (size B)).
Proof.
  intros Hw Hd Hl Hz HB. apply (counts_update M F (F ∪ B) av total n z _ l); [done..| | |].
  - intros n' z'. by apply zone_pages_union.
  - rewrite size_union by done. lia.
  - set_solver.
Qed.

Lemma avail_of_counts M F s n z l :
  counts_wf M F (avail s) (total_avail_pages s) → avail s !! n = Some l → 0 ≤ z < NR_ZONES →
  avail_of n z s = Ok (zone_pages M n z F).
Proof.
  intros Hw Hl Hz. destruct (cw_avail _ _ _ _ Hw _ _ Hl) as (_ & _ & Hc).
  unfold avail_of, deref. rewrite Hl. destruct (Z.ltb_spec z 0); [lia|]. by rewrite Hc.
Qed.

(** ** The heap's invariant *)

Record heap_wf (M : machine) (s : hstate) : Prop := {
  hw_blocks : blocks_wf M (pages s) (heap s) [];
  hw_counts : counts_wf M (free_pages (pages s)) (avail s) (total_avail_pages s);
}.
