(* ===== verification/PageAllocOps.v ===== *)
(** * Allocation and freeing keep the buddy heap

    The loops of [alloc_heap_pages] and [free_heap_pages] in terms of the
    invariant of [PageAllocInv]: splitting and merging only regroup blocks,
    claiming and releasing change the set of free pages by the block, and the
    search over nodes, zones and orders finds a block exactly when there is
    one. *)

From S2P Require Import Prelude BootMem PageAlloc PageAllocInv.
Local Open Scope xen_scope.

(** ** Changes that leave used pages alone *)

(** The page is the same, or a free page whose order field was written. *)
Definition relist_page (o o' : option page_info) : Prop :=
  o' = o ∨ ∃ p v, o = Some p ∧ page_state_is p PGC_state_free = true ∧ o' = Some (set_v v p).

#[export] Instance relist_page_preorder : PreOrder relist_page.
Proof.
  split; [by left|]. intros o1 o2 o3 [->|(p & v & -> & Hf & ->)] H2; [done|].
  destruct H2 as [->|(q & w & [= <-] & _ & ->)]; right; exists p; [by exists v|by exists w].
Qed.

(** Only lists and the order fields of free pages change. *)
Record relisted (s s' : hstate) : Prop := {
  rl_page x : relist_page (pages s !! x) (pages s' !! x);
  rl_rest : s' = set_pages (λ _, pages s') (set_heap (λ _, heap s') s);
}.

#[export] Instance relisted_preorder : PreOrder relisted.
Proof.
  split.
  - intros [ ]. split; [intros x; reflexivity|done].
  - intros s1 s2 s3 [H1 E1] [H2 E2]. split.
    + intros x. etrans; [apply H1|apply H2].
    + rewrite E2. rewrite E1. done.
Qed.

Lemma relist_page_state o o' p' :
  relist_page o o' → o' = Some p' → ∃ p, o = Some p ∧ count_info p = count_info p'.
Proof.
  intros [->|(p & v & -> & _ & ->)].
  - intros ->. by exists p'.
  - intros [= <-]. by exists p.
Qed.

Lemma relist_page_state' o o' p :
  relist_page o o' → o = Some p → ∃ p', o' = Some p' ∧ count_info p = count_info p'.
Proof.
  intros [->|(q & v & -> & _ & ->)].
  - intros ->. by exists p.
  - intros [= <-]. by exists (set_v v q).
Qed.

Lemma relisted_free s s' : relisted s s' → free_pages (pages s') = free_pages (pages s).
Proof.
  intros [Hp _]. apply set_eq. intros x. rewrite !elem_of_free_pages. specialize (Hp x). unfold page_state_is.
  split; intros (p & E & Hf).
  - destruct (relist_page_state _ _ p Hp E) as (q & -> & Hc). exists q. by rewrite Hc.
  - destruct (relist_page_state' _ _ p Hp E) as (q & -> & Hc). exists q. by rewrite <- Hc.
Qed.

Lemma relisted_set_v s pg v p :
  pages s !! pg = Some p → page_state_is p PGC_state_free = true → relisted s (upd_page pg (set_v v) s).
Proof.
  intros Hp Hf. split; [|done]. intros x. unfold upd_page. simpl. destruct (decide (x = pg)) as [->|].
  - rewrite lookup_alter_eq, Hp. right. by exists p, v.
  - rewrite lookup_alter_ne by done. by left.
Qed.

Lemma relisted_set_list s n z k l : relisted s (set_list n z k l s).
Proof. split; [intros x; by left|done]. Qed.

(** Put a held block on its list. *)
Definition put_block (n z k pg : Z) (s : hstate) : hstate := heap_add_tail n z k pg (upd_page pg (set_v k) s).

Lemma put_block_wf M k pg H s :
  blocks_wf M (pages s) (heap s) ((k, pg) :: H) →
  blocks_wf M (pages (put_block (mfn_to_nid M pg) (Z.log2 pg) k pg s))
    (heap (put_block (mfn_to_nid M pg) (Z.log2 pg) k pg s)) H ∧
  relisted s (put_block (mfn_to_nid M pg) (Z.log2 pg) k pg s).
Proof.
  intros Hw. split; [by apply blocks_put|].
  destruct (bw_block _ _ _ _ Hw k pg) as (? & ? & ? & Hf); [by right; left|].
  destruct (Hf pg) as (p & Hp & Hc & _); [apply in_block_head; lia|].
  unfold put_block, heap_add_tail. etrans; [|apply relisted_set_list].
  apply (relisted_set_v _ _ _ p); [done|]. unfold page_state_is. by rewrite Hc.
Qed.

(** ** Splitting *)

Lemma halve_chunk_spec M k order pg s :
  0 ≤ order → blocks_wf M (pages s) (heap s) [(order + Z.of_nat k, pg)] →
  ∃ pg' s', halve_chunk k (mfn_to_nid M pg) (Z.log2 pg) order pg s = (pg', s') ∧
    blocks_wf M (pages s') (heap s') [(order, pg')] ∧ relisted s s' ∧
    mfn_to_nid M pg' = mfn_to_nid M pg ∧ Z.log2 pg' = Z.log2 pg.
Proof.
  intros Ho. revert pg s. induction k as [|k IH]; intros pg s Hw.
  { exists pg, s. rewrite Z.add_0_r in Hw. done. }
  set (j := order + Z.of_nat k). replace (order + Z.of_nat (S k)) with (j + 1) in Hw by lia.
  assert (free_block M (heap s) [(j + 1, pg)] (j + 1) pg) as Hfb by (right; by left).
  destruct (bw_block _ _ _ _ Hw _ _ Hfb) as (Hord & Hpos & Hal & _).
  assert (in_block (j + 1) pg (pg + 2 ^ j)) as Hin.
  { apply in_block_halves; [lia|]. right. apply in_block_head. lia. }
  pose proof (nid_in_block _ _ _ _ _ _ _ Hw Hfb Hin) as Hn.
  pose proof (log2_block (j + 1) pg (pg + 2 ^ j) ltac:(lia) Hpos Hal Hin) as Hz.
  apply blocks_halve in Hw; [|lia]. destruct (put_block_wf _ _ _ _ _ Hw) as [Hw' Hr].
  destruct (IH (pg + 2 ^ j) (put_block (mfn_to_nid M pg) (Z.log2 pg) j pg s)) as (pg' & s' & E & Hw1 & Hr1 & Hn1 & Hz1); [done|].
  exists pg', s'. rewrite Hn, Hz in *. split_and!; try done; [|by etrans].
  simpl. fold j. rewrite Z.shiftl_1_l. exact E.
Qed.

(** ** Claiming *)

Definition claimed (p : page_info) : page_info := page_set_owner None (set_u 0 (set_count PGC_state_inuse p)).

(** Does the page's TLB entry have to be flushed before it is used again? *)
Definition stale (now : Z) (p : page_info) : bool := need_tlbflush p && (tlbflush_timestamp p <=? now).

Lemma claim_pages_spec k pg now flush stamp s :
  (∀ x, pg ≤ x < pg + Z.of_nat k → ∃ p, pages s !! x = Some p ∧ count_info p = PGC_state_free) →
  ∃ flush' stamp' P', claim_pages k pg now flush stamp s = Ok (flush', stamp', set_pages (λ _, P') s) ∧
    (∀ x, P' !! x = if decide (pg ≤ x < pg + Z.of_nat k) then claimed <$> pages s !! x else pages s !! x) ∧
    (flush = true → flush' = true ∧ stamp ≤ stamp') ∧
    (∀ x p, pg ≤ x < pg + Z.of_nat k → pages s !! x = Some p → stale now p = true →
       flush' = true ∧ tlbflush_timestamp p ≤ stamp').
Proof.
  revert pg flush stamp s. induction k as [|k IH]; intros pg flush stamp s Hf.
  { exists flush, stamp, (pages s). simpl. split_and!; [by destruct s| |done|intros; lia].
    intros x. rewrite decide_False by lia. done. }
  destruct (Hf pg) as (p & Hp & Hc); [lia|]. cbn [claim_pages]. rewrite Hp. cbn [deref].
  unfold BUG_ON. rewrite Hc. cbn [negb Z.eqb]. rewrite Z.eqb_refl. cbn [negb].
  set (take := _ && _ && _). set (s1 := upd_page _ _ s).
  assert (∀ x, pages s1 !! x = if decide (x = pg) then claimed <$> pages s !! x else pages s !! x) as Hs1.
  { intros x. unfold s1, upd_page. simpl. rewrite lookup_alter. case_decide; case_decide; subst; done. }
  destruct (IH (pg + 1) (flush || take) (if take then tlbflush_timestamp p else stamp) s1)
    as (f' & t' & P' & E & HP & Hmono & Hall).
  { intros x Hx. rewrite Hs1, decide_False by lia. apply Hf. lia. }
  exists f', t', P'. split_and!.
  - exact E.
  - intros x. rewrite HP. rewrite Hs1. repeat case_decide; try done; lia.
  - intros ->. destruct (Hmono eq_refl) as [-> Ht]. split; [done|]. destruct take eqn:Et; [|lia].
    unfold take in Et. simpl in Et. rewrite !andb_true_iff in Et. destruct Et as [_ Hlt%Z.ltb_lt]. lia.
  - intros x q Hx Hq Hst. destruct (decide (x = pg)) as [->|].
    + rewrite Hp in Hq. injection Hq as <-. unfold stale in Hst. apply andb_true_iff in Hst as [Hn Hle].
      destruct take eqn:Et.
      * destruct Hmono as [-> Ht]; [by rewrite orb_true_r|]. done.
      * unfold take in Et. rewrite Hn, Hle in Et. simpl in Et. apply orb_false_iff in Et as [Hfl Hlt%Z.ltb_ge].
        apply negb_false_iff in Hfl. subst flush. destruct Hmono as [-> Ht]; [done|]. split; [done|lia].
    + apply (Hall x q); [lia| |done]. rewrite Hs1, decide_False by done. done.
Qed.

(** ** Searching *)

Lemma find_order_spec fuel n z j s :
  match find_order fuel n z j s with
  | Some (k, pg, s1) => j ≤ k < j + Z.of_nat fuel ∧
      ∃ l, heap_list n z k s = pg :: l ∧ s1 = set_list n z k l s
  | None => ∀ k, j ≤ k < j + Z.of_nat fuel → heap_list n z k s = []
  end.
Proof.
  revert j. induction fuel as [|fuel IH]; intros j; simpl; [intros; lia|].
  destruct (heap_list n z j s) as [|pg l] eqn:E.
  - specialize (IH (j + 1)). destruct (find_order fuel n z (j + 1) s) as [[[k pg] s1]|].
    + destruct IH as [? ?]. split; [lia|done].
    + intros k Hk. destruct (decide (k = j)) as [->|]; [done|]. apply IH. lia.
  - split; [lia|]. by exists l.
Qed.

(** No block of at least the order in zone [z] of node [n]. *)
Definition no_block (order n z : Z) (s : hstate) : Prop :=
  ∀ k, order ≤ k ≤ MAX_ORDER → heap_list n z k s = [].

(** The block at the head of a list was taken off. *)
Definition taken (order n z k pg : Z) (s s1 : hstate) : Prop :=
  order ≤ k ≤ MAX_ORDER ∧ ∃ l, heap_list n z k s = pg :: l ∧ s1 = set_list n z k l s.

Lemma listed_heap_list M s n z k pg :
  heap_wf M s → pg ∈ heap_list n z k s →
  free_block M (heap s) [] k pg ∧ n = mfn_to_nid M pg ∧ z = Z.log2 pg.
Proof.
  intros [Hb _] Hin. destruct (bw_key _ _ _ _ Hb _ _ _ _ Hin) as (-> & -> & _). split; [by left|done].
Qed.

Lemma free_block_subset M s H k pg :
  blocks_wf M (pages s) (heap s) H → free_block M (heap s) H k pg → block_set k pg ⊆ free_pages (pages s).
Proof.
  intros Hb Hf x Hx%elem_of_block_set. destruct (bw_block _ _ _ _ Hb _ _ Hf) as (_ & _ & _ & Hfr).
  destruct (Hfr x Hx) as (p & Hp & Hc & _). apply elem_of_free_pages. exists p. unfold page_state_is. by rewrite Hc.
Qed.

(** What the counters say of a block on a list. *)
Lemma listed_counts M s n z k pg :
  heap_wf M s → pg ∈ heap_list n z k s →
  0 ≤ k ≤ MAX_ORDER ∧ 0 ≤ z < NR_ZONES ∧ is_Some (avail s !! n) ∧
  2 ^ k ≤ zone_pages M n z (free_pages (pages s)).
Proof.
  intros Hw Hin. destruct (listed_heap_list _ _ _ _ _ _ Hw Hin) as (Hf & -> & ->). destruct Hw as [Hb Hc].
  destruct (bw_block _ _ _ _ Hb _ _ Hf) as (Hk & Hpos & Hal & _).
  pose proof (free_block_subset _ _ _ _ _ Hb Hf) as Hsub.
  assert (pg ∈ free_pages (pages s)) as Hpg by (apply Hsub, elem_of_block_set, in_block_head; lia).
  destruct (cw_node _ _ _ _ Hc _ Hpg) as [Hav Hz]. pose proof (Z.log2_nonneg pg). split_and!; [lia..|done|].
  rewrite <- (size_block_set k pg) by lia. unfold zone_pages. apply inj_le, subseteq_size. intros x Hx.
  apply elem_of_filter. split; [|by apply Hsub]. apply elem_of_block_set in Hx.
  split; [by apply (nid_in_block _ _ _ _ _ _ _ Hb Hf)|apply (log2_block k); [lia|done..]].
Qed.

(** One zone of a node. *)
Lemma try_zone_spec M n zone order s :
  heap_wf M s → 0 ≤ order → 0 ≤ zone < NR_ZONES →
  ∃ r, match avail s !! n with
       | None => Ok None
       | Some _ =>
           let! a := avail_of n zone s in
           Ok (if a <? Z.shiftl 1 order then None
               else find_order (Z.to_nat (MAX_ORDER + 1 - order)) n zone order s)
       end = Ok r ∧
    match r with Some (j, pg, s1) => taken order n zone j pg s s1 | None => no_block order n zone s end.
Proof.
  intros Hw Ho Hz. destruct (avail s !! n) as [l|] eqn:El.
  - rewrite (avail_of_counts M (free_pages (pages s)) s n zone l) by (apply Hw || done || lia).
    eexists; split; [done|]. rewrite Z.shiftl_1_l.
    destruct (Z.ltb_spec (zone_pages M n zone (free_pages (pages s))) (2 ^ order)) as [Hlt|Hge].
    + intros j Hj. destruct (heap_list n zone j s) as [|pg l'] eqn:Ej; [done|].
      destruct (listed_counts M s n zone j pg Hw) as (_ & _ & _ & Hle); [rewrite Ej; by left|].
      pose proof (Z.pow_le_mono_r 2 order j ltac:(lia) ltac:(lia)). lia.
    + pose proof (find_order_spec (Z.to_nat (MAX_ORDER + 1 - order)) n zone order s) as Hf.
      destruct (find_order _ n zone order s) as [[[j pg] s1]|]; [|intros j Hj; apply Hf; lia].
      destruct Hf as [? ?]. split; [lia|done].
  - eexists; split; [done|]. intros j Hj. destruct (heap_list n zone j s) as [|pg l'] eqn:Ej; [done|].
    destruct (listed_counts M s n zone j pg Hw) as (_ & _ & [? ?] & _); [rewrite Ej; by left|congruence].
Qed.

Lemma try_zones_spec M k n lo order s :
  heap_wf M s → 0 ≤ n < MAX_NUMNODES → 0 ≤ order → 0 ≤ lo → lo + Z.of_nat k < NR_ZONES →
  ∃ r, try_zones k n lo order s = Ok r ∧
    match r with
    | Some (z, j, pg, s1) => lo ≤ z ≤ lo + Z.of_nat k ∧ taken order n z j pg s s1
    | None => ∀ z, lo ≤ z ≤ lo + Z.of_nat k → no_block order n z s
    end.
Proof.
  intros Hw Hn Ho Hlo. induction k as [|k IH]; intros Hk.
  all: cbn [try_zones]; unfold BUG_ON; destruct (Z.leb_spec MAX_NUMNODES n) as [?|_]; [lia|].
  - destruct (try_zone_spec M n (lo + Z.of_nat 0) order s) as (r & -> & Hr); [done|lia..|].
    destruct r as [[[j pg] s1]|]; (eexists; split; [done|]); simpl in *.
    + split; [lia|done].
    + intros z Hz. by replace z with (lo + 0) by lia.
  - destruct (try_zone_spec M n (lo + Z.of_nat (S k)) order s) as (r & -> & Hr); [done|lia..|].
    destruct r as [[[j pg] s1]|]; [eexists; split; [done|]; split; [lia|done]|].
    destruct IH as (r & E & Hr'); [lia|]. exists r. split; [exact E|].
    destruct r as [[[[z j] pg] s1]|].
    + destruct Hr' as [? ?]. split; [lia|done].
    + intros z Hz. destruct (decide (z = lo + Z.of_nat (S k))) as [->|]; [done|]. apply Hr'. lia.
Qed.

Lemma head_filter_seqZ (P : Z → Prop) `{∀ x, Decision (P x)} (len : nat) n :
  match head (filter P (seqZ n (Z.of_nat len))) with
  | Some x => n ≤ x < n + Z.of_nat len ∧ P x ∧ ∀ y, n ≤ y < x → ¬ P y
  | None => ∀ y, n ≤ y < n + Z.of_nat len → ¬ P y
  end.
Proof.
  revert n. induction len as [|len IH]; intros n; [simpl; intros; lia|].
  rewrite seqZ_cons by lia. rewrite filter_cons. case_decide as Hp.
  - simpl. split_and!; [lia..|done|]. intros; lia.
  - replace (Z.pred (Z.of_nat (S len))) with (Z.of_nat len) by lia. specialize (IH (Z.succ n)).
    destruct (head _) as [x|].
    + destruct IH as (? & ? & Hy). split_and!; [lia..|done|]. intros y ?. destruct (decide (y = n)) as [->|]; [done|]. apply Hy. lia.
    + intros y ?. destruct (decide (y = n)) as [->|]; [done|]. apply IH. lia.
Qed.

Lemma find_node_spec n mask :
  (n ≤ find_node n mask < MAX_NUMNODES ∧ find_node n mask ∈ mask ∧ ∀ x, n ≤ x < find_node n mask → x ∉ mask) ∨
  (find_node n mask = MAX_NUMNODES ∧ ∀ x, n ≤ x < MAX_NUMNODES → x ∉ mask).
Proof.
  unfold find_node. destruct (decide (n ≤ MAX_NUMNODES)) as [Hn|Hn].
  - pose proof (head_filter_seqZ (λ i, i ∈ mask) (Z.to_nat (MAX_NUMNODES - n)) n) as Hh.
    rewrite Z2Nat.id in Hh by lia. destruct (head _) as [x|]; simpl; [left|right].
    + destruct Hh as (? & ? & ?). split_and!; [lia..|done|done].
    + split; [done|]. intros x ?. apply Hh. lia.
  - right. rewrite seqZ_nil by lia. split; [done|]. intros; lia.
Qed.

(** The search goes round the nodes of the mask from [first]; these come
    before [node]. *)
Definition before (first node m : Z) : Prop :=
  if decide (first ≤ node) then first ≤ m < node else first ≤ m ∨ m < node.
Definition dist (first node : Z) : Z :=
  if decide (first ≤ node) then MAX_NUMNODES - 1 - (node - first) else first - node - 1.
Definition node_after (node : Z) (mask : gset Z) : Z :=
  if MAX_NUMNODES <=? next_node node mask then first_node mask else next_node node mask.
Definition node_set (mask : gset Z) : Prop := ∀ x, x ∈ mask → 0 ≤ x < MAX_NUMNODES.

Lemma dist_refl n : dist n n = 63.
Proof. unfold dist. rewrite decide_True by lia. unfold MAX_NUMNODES. lia. Qed.

Lemma dist_nonneg first node :
  0 ≤ first < MAX_NUMNODES → 0 ≤ node < MAX_NUMNODES → 0 ≤ dist first node.
Proof. unfold dist. case_decide; lia. Qed.

Lemma node_after_spec node first mask :
  node_set mask → node ∈ mask → first ∈ mask →
  node_after node mask ∈ mask ∧
  (node_after node mask = first → ∀ m, m ∈ mask → m = node ∨ before first node m) ∧
  (node_after node mask ≠ first →
     0 ≤ dist first (node_after node mask) < dist first node ∧
     ∀ m, m ∈ mask → before first (node_after node mask) m → m = node ∨ before first node m).
Proof.
  intros Hm Hn Hf. pose proof (Hm _ Hn) as Rn. pose proof (Hm _ Hf) as Rf.
  unfold node_after, next_node, first_node, before, dist.
  destruct (find_node_spec (node + 1) mask) as [(H1 & H2 & H3)|[H1 H3]].
  - destruct (Z.leb_spec MAX_NUMNODES (find_node (node + 1) mask)); [lia|].
    set (a := find_node (node + 1) mask) in *.
    assert (∀ m, m ∈ mask → 0 ≤ m < MAX_NUMNODES ∧ ¬ (node + 1 ≤ m < a)) as Hgap.
    { intros m Hmm. split; [by apply Hm|]. intros ?. by apply (H3 m). }
    pose proof (Hgap _ Hf) as Gf. split_and!; [done| |].
    + intros <- m Hmm. pose proof (Hgap m Hmm). case_decide; lia.
    + intros Hne. split; [repeat case_decide; lia|]. intros m Hmm Hb. pose proof (Hgap m Hmm). repeat case_decide; lia.
  - rewrite H1, Z.leb_refl. destruct (find_node_spec 0 mask) as [(H4 & H5 & H6)|[_ H6]]; [|by destruct (H6 node)].
    set (a := find_node 0 mask) in *.
    assert (∀ m, m ∈ mask → a ≤ m ≤ node) as Hrange.
    { intros m Hmm. pose proof (Hm _ Hmm). split.
      - destruct (decide (m < a)); [by destruct (H6 m); [lia|]|lia].
      - destruct (decide (node < m)); [by destruct (H3 m); [lia|]|lia]. }
    pose proof (Hrange _ Hf) as Gf. split_and!; [done| |].
    + intros <- m Hmm. pose proof (Hrange m Hmm). case_decide; lia.
    + intros Hne. split; [repeat case_decide; lia|]. intros m Hmm Hb. pose proof (Hrange m Hmm). repeat case_decide; lia.
Qed.

Section search.
Context (M : machine) (s : hstate) (lo hi order : Z) (online : gset Z).
Context (Hw : heap_wf M s) (Horder : 0 ≤ order) (Hlo : 0 ≤ lo ≤ hi) (Hhi : hi < NR_ZONES) (Honline : node_set online).

(** No zone of the node has a block; the block found. *)
Definition node_fails (n : Z) : Prop := ∀ z, lo ≤ z ≤ hi → no_block order n z s.
Definition node_finds (r : Z * Z * Z * Z * hstate) : Prop :=
  let '(n, z, j, pg, s1) := r in lo ≤ z ≤ hi ∧ taken order n z j pg s s1.

(** The search's result over a set of nodes. *)
Definition search_result (nodes : Z → Prop) (r : option (Z * Z * Z * Z * hstate)) : Prop :=
  match r with
  | Some r => nodes r.1.1.1.1 ∧ node_finds r
  | None => ∀ m, nodes m → node_fails m
  end.

Lemma try_node n :
  0 ≤ n < MAX_NUMNODES →
  ∃ r, try_zones (Z.to_nat (hi - lo)) n lo order s = Ok r ∧
    match r with
    | Some (z, j, pg, s1) => node_finds (n, z, j, pg, s1)
    | None => node_fails n
    end.
Proof using Hw Horder Hlo Hhi.
  intros Hn. destruct (try_zones_spec M (Z.to_nat (hi - lo)) n lo order s) as (r & E & Hr); [done|lia..|].
  rewrite Z2Nat.id in Hr by lia. exists r. split; [done|].
  destruct r as [[[[z j] pg] s1]|].
  - simpl. destruct Hr as [? ?]. split; [lia|done].
  - intros z Hz. apply Hr. lia.
Qed.

Lemma search_result_weaken (A B : Z → Prop) r :
  (∀ m, A m ↔ B m) → search_result A r → search_result B r.
Proof using. intros HAB. destruct r as [r|]; simpl; [by rewrite HAB|]. intros Hf m Hm%HAB. auto. Qed.

Lemma search_cycle (fuel : nat) (mask : gset Z) (node first : Z) (retry : bool) :
  node_set mask → node ∈ mask → first ∈ mask → (∀ m, m ∈ mask → before first node m → node_fails m) →
  dist first node + (if retry then 1 else 66) ≤ Z.of_nat fuel →
  ∃ r, search_nodes fuel lo hi order false online mask node first retry s = Ok r ∧
    search_result (λ m, m ∈ mask ∨ (retry = false ∧ m ∈ online)) r.
Proof using Hw Horder Hlo Hhi Honline.
  revert mask node first retry. induction fuel as [|fuel IH]; intros mask node first retry Hm Hn Hf Hb Hfuel.
  { pose proof (dist_nonneg first node (Hm _ Hf) (Hm _ Hn)). destruct retry; lia. }
  cbn [search_nodes]. destruct (try_node node) as (r & -> & Hr); [by apply Hm|]. cbn [mbind outcome_bind].
  destruct r as [[[[z j] pg] s1]|].
  { eexists; split; [done|]. split; [by left|done]. }
  rewrite bool_decide_eq_false_2 by (by intros []). cbv zeta. fold (node_after node mask).
  destruct (node_after_spec node first mask Hm Hn Hf) as (Ha & Hend & Hgo).
  destruct (Z.eqb_spec (node_after node mask) first) as [E|E].
  - assert (∀ m, m ∈ mask → node_fails m) as Hall.
    { intros m Hmm. destruct (Hend E m Hmm) as [->|]; [done|by apply Hb]. }
    destruct retry.
    { eexists; split; [done|]. intros m [?|[? _]]; [auto|done]. }
    destruct (find_node_spec 0 (online ∖ mask)) as [(R1 & R2 & R3)|[R1 R2]]; fold (first_node (online ∖ mask)) in *.
    + destruct (Z.leb_spec MAX_NUMNODES (first_node (online ∖ mask))); [lia|].
      destruct (IH (online ∖ mask) (first_node (online ∖ mask)) (first_node (online ∖ mask)) true) as (r & -> & Hr').
      { intros x Hx. apply Honline. set_solver. }
      { done. } { done. }
      { intros m _. unfold before. rewrite decide_True by lia. lia. }
      { rewrite dist_refl. pose proof (dist_nonneg first node (Hm _ Hf) (Hm _ Hn)). lia. }
      eexists; split; [done|]. destruct r as [r|]; simpl in *.
      * destruct Hr' as [[Hx|[? _]] ?]; [|done]. split; [right; split; [done|set_solver]|done].
      * intros m Hmm. destruct (decide (m ∈ mask)); [auto|]. apply Hr'. left. set_solver.
    + rewrite R1, Z.leb_refl. eexists; split; [done|]. intros m [?|[_ Hmo]]; [auto|].
      apply Hall. destruct (decide (m ∈ mask)); [done|]. destruct (R2 m); [by apply Honline|set_solver].
  - destruct (Hgo E) as [Hd Hbe]. apply IH; [done..| |lia].
    intros m Hmm Hbm. destruct (Hbe m Hmm Hbm) as [->|]; [done|by apply Hb].
Qed.

Lemma search_nodes_enough (fuel : nat) (node : Z) (mask : gset Z) (exact : bool) :
  129 ≤ Z.of_nat fuel → 0 ≤ node < MAX_NUMNODES → node_set mask →
  ∃ r, search_nodes (S fuel) lo hi order exact online mask node node false s = Ok r ∧
    search_result (λ m, m = node ∨ (exact = false ∧ (m ∈ mask ∨ m ∈ online))) r.
Proof using Hw Horder Hlo Hhi Honline.
  intros Hfuel Hn Hm.
  assert (∀ first, dist first first + 66 ≤ Z.of_nat fuel) as Hd.
  { intros first. rewrite dist_refl. lia. }
  assert (∀ mask' first, first_node mask' = first → first < MAX_NUMNODES → node_set mask' → first ∈ mask') as Hfirst.
  { intros mask' first <- Hlt Hs. destruct (find_node_spec 0 mask') as [(_ & ? & _)|[E _]]; [done|unfold first_node in Hlt; lia]. }
  assert (∀ first m, before first first m → False) as Hbf.
  { intros first m. unfold before. rewrite decide_True by lia. lia. }
  destruct exact.
  { cbn [search_nodes]. destruct (try_node node Hn) as (r & -> & Hr). destruct r as [[[[z j] pg] s1]|]; (eexists; split; [done|]).
    - split; [by left|done].
    - intros m [->|[? _]]; done. }
  destruct (decide (node ∈ mask)) as [Hin|Hnin].
  { destruct (search_cycle (S fuel) mask node node false Hm Hin Hin) as (r & -> & Hr); [by intros m _ ?%Hbf|specialize (Hd node); lia|].
    eexists; split; [done|]. eapply search_result_weaken; [|exact Hr]. intros m. simpl. split; [|naive_solver]. naive_solver. }
  cbn [search_nodes]. destruct (try_node node Hn) as (r & -> & Hr). cbn [mbind outcome_bind].
  destruct r as [[[[z j] pg] s1]|]; [eexists; split; [done|]; split; [by left|done]|].
  rewrite bool_decide_eq_true_2 by done. cbv zeta. unfold BUG_ON.
  destruct (Z.ltb_spec (first_node mask) MAX_NUMNODES) as [Hlt|Hge].
  - pose proof (Hfirst mask _ eq_refl Hlt Hm) as Hin.
    destruct (search_cycle fuel mask (first_node mask) (first_node mask) false Hm Hin Hin) as (r & -> & Hr');
      [by intros m _ ?%Hbf|apply Hd|].
    eexists; split; [done|]. destruct r as [r|]; simpl in *; [naive_solver|].
    intros m [->|[_ ?]]; [done|]. apply Hr'. naive_solver.
  - assert (∀ m, m ∉ mask) as Hemp.
    { intros m Hmm. destruct (find_node_spec 0 mask) as [(? & _)|[_ Hno]]; [unfold first_node in Hge; lia|].
      apply (Hno m); [by apply Hm|done]. }
    destruct (Z.leb_spec MAX_NUMNODES (first_node (online ∖ mask))) as [Hge'|Hlt'].
    + eexists; split; [done|]. intros m [->|[_ [?|Hmo]]]; [done|by destruct (Hemp m)|].
      destruct (find_node_spec 0 (online ∖ mask)) as [(? & _)|[_ Hno]]; [unfold first_node in Hge'; lia|].
      destruct (Hno m); [by apply Honline|set_solver].
    + assert (node_set (online ∖ mask)) as Hs' by (intros x Hx; apply Honline; set_solver).
      pose proof (Hfirst _ _ eq_refl Hlt' Hs') as Hin.
      destruct (search_cycle fuel _ _ _ true Hs' Hin Hin) as (r & -> & Hr');
        [by intros m _ ?%Hbf|specialize (Hd (first_node (online ∖ mask))); lia|].
      eexists; split; [done|]. destruct r as [r|]; simpl in *.
      * destruct Hr' as [[?|[? _]] ?]; [|done]. split; [right; split; [done|right; set_solver]|done].
      * intros m [->|[_ [?|?]]]; [done|by destruct (Hemp m)|]. apply Hr'. left. set_solver.
Qed.

Lemma search_nodes_spec (node : Z) (mask : gset Z) (exact : bool) :
  0 ≤ node < MAX_NUMNODES → node_set mask →
  ∃ r, search_nodes node_fuel lo hi order exact online mask node node false s = Ok r ∧
    search_result (λ m, m = node ∨ (exact = false ∧ (m ∈ mask ∨ m ∈ online))) r.
Proof using Hw Horder Hlo Hhi Honline.
  assert (∃ fuel, node_fuel = S fuel ∧ 129 ≤ Z.of_nat fuel) as (fuel & -> & Hfuel) by (by exists 199%nat).
  by apply search_nodes_enough.
Qed.

End search.

(** ** Allocation *)

(** Only the low-memory thresholds and the log change. *)
Definition with_notes (high th orig order : Z) (ev : list heap_event) (s : hstate) : hstate :=
  mk_hstate (pages s) (heap s) (avail s) (total_avail_pages s) (midsize_alloc_zone_pages s) high th orig order
    (page_offlined_list s) (page_broken_list s) (first_node_initialised s) (dma_bitsize s) (m2p s) (pdoms s) ev.

Lemma check_low_mem_virq_shape M s :
  ∃ a b c e ev, check_low_mem_virq M s = with_notes a b c e ev s.
Proof.
  unfold check_low_mem_virq. cbv zeta. destruct (_ <=? low_mem_virq_th s); [by do 5 eexists|].
  destruct (low_mem_virq_high s <=? _); [by do 5 eexists|].
  exists (low_mem_virq_high s), (low_mem_virq_th s), (low_mem_virq_orig s), (low_mem_virq_th_order s), (events s).
  by destruct s.
Qed.

(** The fields that an allocation does not write. *)
Definition same_rest (s s' : hstate) : Prop :=
  midsize_alloc_zone_pages s' = midsize_alloc_zone_pages s ∧ page_offlined_list s' = page_offlined_list s ∧
  page_broken_list s' = page_broken_list s ∧ first_node_initialised s' = first_node_initialised s ∧
  dma_bitsize s' = dma_bitsize s ∧ m2p s' = m2p s.

#[export] Instance same_rest_preorder : PreOrder same_rest.
Proof.
  split; [done|]. intros s1 s2 s3 (? & ? & ? & ? & ? & ?) (? & ? & ? & ? & ? & ?).
  split_and!; by etrans.
Qed.

Definition note_node (d : option Z) (n : Z) (D : gmap Z pdomain) : gmap Z pdomain :=
  match d with Some d => alter (set_last_alloc_node n) d D | None => D end.

(** The block at [pg] of [2 ^ order] free pages was handed out. *)
Record allocated (M : machine) (order : Z) (d : option Z) (pg : Z) (s s' : hstate) : Prop := {
  al_aligned : 0 < pg ∧ (2 ^ order | pg);
  al_free x : in_block order pg x → frame_free M (pages s) (mfn_to_nid M pg) x;
  al_page x : in_block order pg x → pages s' !! x = claimed <$> pages s !! x;
  al_other x : ¬ in_block order pg x → relist_page (pages s !! x) (pages s' !! x);
  al_free_pages : free_pages (pages s') = free_pages (pages s) ∖ block_set order pg;
  al_pdoms : pdoms s' = note_node d (mfn_to_nid M pg) (pdoms s);
  al_rest : same_rest s s';
  al_nodes n : is_Some (avail s !! n) → is_Some (avail s' !! n);
  al_flush x p : in_block order pg x → pages s !! x = Some p → need_tlbflush p = true →
    (∀ s0, tlbflush_timestamp p ≤ tlbflush_current_time M s0) →
    ∃ stamp, tlbflush_timestamp p ≤ stamp ∧
      (Flush_tlb stamp ∈ events s' ∨ ∃ s0, tlbflush_mask_empty M s0 stamp = true);
}.

Lemma taken_held M order n z j pg s s1 :
  heap_wf M s → taken order n z j pg s s1 →
  blocks_wf M (pages s1) (heap s1) [(j, pg)] ∧ relisted s s1 ∧ n = mfn_to_nid M pg ∧ z = Z.log2 pg ∧
  0 ≤ z < NR_ZONES ∧ is_Some (avail s !! n).
Proof.
  intros Hw (Hj & l & Hl & ->).
  assert (pg ∈ heap_list n z j s) as Hin by (rewrite Hl; by left).
  destruct (listed_heap_list _ _ _ _ _ _ Hw Hin) as (_ & -> & ->).
  destruct (listed_counts _ _ _ _ _ _ Hw Hin) as (_ & Hz & Hav & _).
  split; [|split_and!; try done || lia; apply relisted_set_list]. destruct Hw as [Hb _].
  pose proof (bw_nodup _ _ _ _ Hb (mfn_to_nid M pg) (Z.log2 pg) j) as Hnd. unfold heap_list in Hl.
  unfold hlist in Hnd. rewrite Hl in Hnd. apply NoDup_cons in Hnd as [Hni Hnd].
  apply (blocks_hold _ _ _ _ _ _ _ pg l Hb); [done|done|].
  intros x. unfold hlist. rewrite Hl, elem_of_cons. split; [|naive_solver]. intros Hx. split; [by right|].
  intros ->. done.
Qed.

Lemma claimed_not_free p : page_state_is (claimed p) PGC_state_free = false.
Proof. done. Qed.

(** The free pages after claiming a block. *)
Lemma free_pages_claim P P' k pg :
  (∀ x, P' !! x = if decide (in_block k pg x) then claimed <$> P !! x else P !! x) →
  free_pages P' = free_pages P ∖ block_set k pg.
Proof.
  intros HP. apply set_eq. intros x. rewrite elem_of_difference, !elem_of_free_pages, elem_of_block_set, HP.
  case_decide; split; [|naive_solver..].
  intros (p & Hp & Hf). destruct (P !! x) as [q|]; [|done]. simpl in Hp. injection Hp as <-.
  by rewrite claimed_not_free in Hf.
Qed.

(** The counters and the pages of a held block. *)
Lemma take_block_spec M order d pg s l :
  blocks_wf M (pages s) (heap s) [(order, pg)] →
  counts_wf M (free_pages (pages s)) (avail s) (total_avail_pages s) →
  avail s !! mfn_to_nid M pg = Some l →
  ∃ s', take_block M (mfn_to_nid M pg) (Z.log2 pg) pg order d s = Ok (Some pg, s') ∧
    heap_wf M s' ∧ allocated M order d pg s s'.
Proof.
  intros Hb Hc Hl. unfold take_block.
  destruct (bw_block _ _ _ _ Hb order pg) as (Hord & Hpos & Hal & Hfr); [right; by left|].
  pose proof (free_block_subset M s [(order, pg)] order pg Hb) as Hsub. specialize (Hsub (or_intror (list_elem_of_here _ _))).
  assert (0 ≤ Z.log2 pg < NR_ZONES) as Hz.
  { split; [apply Z.log2_nonneg|]. apply (cw_node _ _ _ _ Hc). apply Hsub, elem_of_block_set, in_block_head. lia. }
  rewrite (avail_of_counts M (free_pages (pages s)) s _ _ l Hc Hl Hz). cbn [mbind outcome_bind].
  destruct (counts_claim M _ (block_set order pg) _ _ (mfn_to_nid M pg) (Z.log2 pg) l Hc Hsub Hl Hz) as (Hle1 & Hle2 & Hc2).
  { intros x Hx%elem_of_block_set. split; [|apply (log2_block order); [lia|done..]]. by destruct (Hfr x Hx) as (p & _ & _ & _ & ?). }
  rewrite size_block_set in * by lia. rewrite Z.shiftl_1_l.
  set (Fz := zone_pages M (mfn_to_nid M pg) (Z.log2 pg) (free_pages (pages s))) in *.
  unfold BUG_ON. destruct (Z.ltb_spec Fz (2 ^ order)); [lia|]. cbn [total_avail_pages set_totals set_avail_of set_avail].
  destruct (Z.ltb_spec (total_avail_pages s - 2 ^ order) 0); [lia|].
  set (s1 := set_totals _ _ _). destruct (check_low_mem_virq_shape M s1) as (a & b & c & e & ev & ->).
  set (s3 := match d with Some d => _ | None => _ end).
  assert (s3 = set_pdoms (λ _, note_node d (mfn_to_nid M pg) (pdoms s)) (with_notes a b c e ev s1)) as Es3.
  { unfold s3. by destruct d. }
  destruct (claim_pages_spec (Z.to_nat (2 ^ order)) pg (tlbflush_current_time M s3) false 0 s3)
    as (flush & stamp & P' & -> & HP & _ & Hst).
  { rewrite Z2Nat.id by lia. intros x Hx. destruct (Hfr x Hx) as (p & Hp & Hcp & _). exists p. by rewrite Es3. }
  rewrite Z2Nat.id in * by lia. cbn [mbind outcome_bind].
  assert (pages s3 = pages s) as Ep by (by rewrite Es3). rewrite Ep in *.
  pose proof (free_pages_claim (pages s) P' order pg HP) as HF.
  set (s4 := set_pages (λ _, P') s3). set (s5 := if _ : bool then _ else _).
  assert (∃ ev', s5 = with_notes a b c e ev' s4) as [ev' Es5].
  { exists (events s5). unfold s5. destruct (flush && _); unfold s4; by rewrite Es3. }
  assert (flush = true → tlbflush_mask_empty M s4 stamp = false → Flush_tlb stamp ∈ events s5) as Hev.
  { unfold s5. intros -> ->. by left. }
  exists s5. split; [done|]. clearbody s5. rewrite Es5 in *. unfold s4 in *. rewrite Es3 in *. split.
  - split; simpl.
    + apply (blocks_claim M (pages s) P' (heap s) order pg []); [done| |].
      * intros x Hx. by rewrite HP, decide_False.
      * intros x p Hx. rewrite HP, decide_True by done. destruct (pages s !! x); [|done]. intros [= <-]. done.
    + rewrite HF. exact Hc2.
  - split; simpl; try done.
    + intros x Hx. by rewrite HP, decide_True.
    + intros x Hx. rewrite HP, decide_False by done. by left.
    + intros n [l' Hl']. rewrite lookup_alter. case_decide; subst; rewrite Hl'; by eexists.
    + intros x p Hx Hp Hn Ht. exists stamp. destruct (Hst x p Hx Hp) as [Hfl Hle].
      { unfold stale. rewrite Hn. apply Z.leb_le, Ht. }
      split; [done|]. destruct (tlbflush_mask_empty M _ stamp) eqn:Em in Hev; [right; by eexists|left]. by apply Hev.
Qed.

Lemma claimed_relist o o' : relist_page o o' → claimed <$> o' = claimed <$> o.
Proof. by intros [->|(p & v & -> & _ & ->)]. Qed.

(** Regrouping blocks before an allocation does not show. *)
Lemma allocated_relisted M order d pg s s2 s' :
  relisted s s2 → blocks_wf M (pages s2) (heap s2) [(order, pg)] →
  allocated M order d pg s2 s' → allocated M order d pg s s'.
Proof.
  intros Hr Hb [H1 H2 H3 H4 H5 H6 H7 H9 H8]. pose proof (rl_page _ _ Hr) as Hp.
  assert (same_rest s s2 ∧ pdoms s2 = pdoms s ∧ avail s2 = avail s) as (Hrest & Hpd & Hav) by (rewrite (rl_rest _ _ Hr); by destruct s).
  split.
  - done.
  - intros x Hx. destruct (H2 x Hx) as (p & Hpx & Hc & Hv).
    destruct (relist_page_state _ _ p (Hp x) Hpx) as (q & Hq & Hcq). exists q. rewrite Hcq. done.
  - intros x Hx. rewrite H3 by done. by apply claimed_relist.
  - intros x Hx. etrans; [apply Hp|by apply H4].
  - by rewrite H5, (relisted_free _ _ Hr).
  - by rewrite H6, Hpd.
  - by trans s2.
  - intros n. rewrite <- Hav. apply H9.
  - intros x p Hx Hpx Hn Ht. destruct (Hp x) as [E|(q & v & Eq & _ & E)].
    + apply (H8 x p); [done|by rewrite E|done|done].
    + rewrite Hpx in Eq. injection Eq as <-. by apply (H8 x (set_v v p)).
Qed.

Lemma alloc_found_spec M order d n z j pg s s1 :
  heap_wf M s → 0 ≤ order → taken order n z j pg s s1 →
  ∃ pg' s', alloc_found M n z j pg order d s1 = Ok (Some pg', s') ∧ heap_wf M s' ∧ allocated M order d pg' s s' ∧
    mfn_to_nid M pg' = n ∧ Z.log2 pg' = z.
Proof.
  intros Hw Ho Ht. destruct (taken_held _ _ _ _ _ _ _ _ Hw Ht) as (Hb & Hr & -> & -> & Hz & [l Hl]).
  destruct Ht as [Hj _]. unfold alloc_found.
  destruct (halve_chunk_spec M (Z.to_nat (j - order)) order pg s1) as (pg' & s2 & -> & Hb2 & Hr2 & Hn & Hlog);
    [done|by replace (order + Z.of_nat (Z.to_nat (j - order))) with j by lia|].
  rewrite <- Hn, <- Hlog in *. pose proof (transitivity Hr Hr2) as Hr02.
  assert (avail s2 = avail s ∧ total_avail_pages s2 = total_avail_pages s) as [Hav Htot].
  { rewrite (rl_rest _ _ Hr02). by destruct s. }
  destruct (take_block_spec M order d pg' s2 l) as (s' & E & Hw' & Hal); [done| |by rewrite Hav|].
  { rewrite (relisted_free _ _ Hr02), Hav, Htot. apply Hw. }
  exists pg', s'. split_and!; [exact E|done| |done|done]. by apply (allocated_relisted M order d pg' s s2 s').
Qed.

(** The node a request names, [NUMA_NO_NODE] when it names none. *)
Definition req_node (memflags : Z) : Z := u8 (Z.shiftr memflags _MEMF_node - 1).

(** What an allocation relies on: transcendent memory is off, as it is unless the
    command line enables it ([opt_tmem]), so that no page comes from there; the
    sets of nodes are sound; the node that the request names exists, which the
    code does not check ([alloc_heap_pages_bad_node]); and the domain is known. *)
Record alloc_pre (M : machine) (memflags : Z) (d : option Z) (s : hstate) : Prop := {
  ap_tmem : opt_tmem M = false;
  ap_online : node_set (node_online_map M);
  ap_this : 0 ≤ this_node M < MAX_NUMNODES;
  ap_node : req_node memflags < MAX_NUMNODES ∨ req_node memflags = NUMA_NO_NODE;
  ap_dom i : d = Some i → ∃ D, pdoms s !! i = Some D ∧ node_set (node_affinity D) ∧ 0 ≤ last_alloc_node D;
}.

(** The nodes a request is allowed to search to the end. *)
Definition searched (M : machine) (memflags n : Z) : Prop :=
  if has_bits memflags MEMF_exact_node && negb (req_node memflags =? NUMA_NO_NODE) then n = req_node memflags
  else n ∈ node_online_map M.

Lemma u8_range x : 0 ≤ u8 x < 256.
Proof. unfold u8. apply Z.mod_pos_bound. lia. Qed.

Lemma has_bits_ldiff x m : has_bits (Z.ldiff x m) m = false.
Proof.
  unfold has_bits. rewrite negb_false_iff. apply Z.eqb_eq, Z.bits_inj'. intros i Hi.
  rewrite Z.land_spec, Z.ldiff_spec, Z.bits_0. by destruct (Z.testbit x i), (Z.testbit m i).
Qed.

Lemma first_node_range mask : 0 ≤ first_node mask ≤ MAX_NUMNODES.
Proof. unfold first_node. destruct (find_node_spec 0 mask) as [[? _]|[-> _]]; unfold MAX_NUMNODES in *; lia. Qed.

Lemma start_node_spec M d mask memflags s :
  alloc_pre M memflags d s →
  ∃ n mf, start_node M d mask memflags s = Ok (n, mf) ∧ 0 ≤ n < MAX_NUMNODES ∧
    (has_bits mf MEMF_exact_node = true → n = req_node memflags ∧ has_bits memflags MEMF_exact_node = true).
Proof.
  intros Hp. unfold start_node. fold (req_node memflags). cbv zeta.
  pose proof (u8_range (Z.shiftr memflags _MEMF_node - 1)) as Hr. fold (req_node memflags) in Hr.
  destruct (Z.eqb_spec (req_node memflags) NUMA_NO_NODE) as [E|E].
  - assert (∃ n, match d with
      | None => Ok (req_node memflags)
      | Some d => deref (pdoms s !! d) (λ D,
          Ok (if MAX_NUMNODES <=? next_node (last_alloc_node D) mask then first_node mask
              else next_node (last_alloc_node D) mask))
      end = Ok n ∧ 0 ≤ n) as (n & -> & Hn).
    { destruct d as [i|]; [|eexists; split; [done|lia]]. destruct (ap_dom _ _ _ _ Hp i eq_refl) as (D & -> & _ & HD).
      simpl. eexists; split; [done|]. case_match; [apply first_node_range|].
      unfold next_node in *. destruct (find_node_spec (last_alloc_node D + 1) mask) as [[? _]|[-> _]]; [lia|done]. }
    simpl. do 2 eexists. split; [done|]. split.
    + pose proof (ap_this _ _ _ _ Hp). destruct (Z.leb_spec MAX_NUMNODES n); lia.
    + by rewrite has_bits_ldiff.
  - do 2 eexists. split; [done|]. destruct (ap_node _ _ _ _ Hp) as [|]; [|done]. split; [lia|done].
Qed.

Lemma alloc_heap_pages_spec M lo hi order memflags d s :
  heap_wf M s → alloc_pre M memflags d s → 0 ≤ lo ≤ hi → hi < NR_ZONES → 0 ≤ order →
  ∃ r s', alloc_heap_pages M lo hi order memflags d s = Ok (r, s') ∧ heap_wf M s' ∧
    match r with
    | Some pg => order ≤ MAX_ORDER ∧ lo ≤ Z.log2 pg ≤ hi ∧ allocated M order d pg s s' ∧
        (has_bits memflags MEMF_exact_node = true → req_node memflags ≠ NUMA_NO_NODE →
         mfn_to_nid M pg = req_node memflags)
    | None => s' = s ∧ (order ≤ MAX_ORDER → ∀ n, searched M memflags n → node_fails s lo hi order n)
    end.
Proof.
  intros Hw Hp Hlo Hhi Ho. unfold alloc_heap_pages.
  assert (∃ mask, match d with
    | Some d => deref (pdoms s !! d) (λ D, Ok (node_affinity D)) | None => Ok (node_online_map M) end = Ok mask ∧
    node_set mask) as (mask & -> & Hm).
  { destruct d as [i|]; [|eexists; split; [done|apply Hp]].
    destruct (ap_dom _ _ _ _ Hp i eq_refl) as (D & -> & ? & _). by eexists. }
  cbn [mbind outcome_bind].
  destruct (start_node_spec M d mask memflags s Hp) as (node & mf & Es & Hn & Hex).
  assert (has_bits memflags MEMF_exact_node = true → req_node memflags ≠ NUMA_NO_NODE →
    has_bits mf MEMF_exact_node = true) as Hex'.
  { intros H1 H2. unfold start_node in Es. fold (req_node memflags) in Es. cbv zeta in Es.
    rewrite (proj2 (Z.eqb_neq _ _) H2) in Es. injection Es as <- <-. done. }
  rewrite Es. cbn [mbind outcome_bind]. unfold BUG_ON.
  destruct (Z.ltb_spec hi lo); [lia|]. destruct (Z.leb_spec NR_ZONES hi); [lia|].
  destruct (Z.ltb_spec MAX_ORDER order) as [Hbig|Hsmall].
  { exists None, s. split_and!; [done..|]. lia. }
  rewrite (ap_tmem _ _ _ _ Hp). cbn [andb].
  destruct (search_nodes_spec M s lo hi order (node_online_map M) Hw Ho Hlo Hhi (ap_online _ _ _ _ Hp) node mask
    (has_bits mf MEMF_exact_node) Hn Hm) as (r & -> & Hr). cbn [mbind outcome_bind].
  destruct r as [[[[[n z] j] pg] s1]|].
  - destruct Hr as [Hnode [Hz Ht]]. destruct (alloc_found_spec M order d n z j pg s s1 Hw Ho Ht) as (pg' & s' & E & Hw' & Hal & <- & <-).
    exists (Some pg'), s'. split_and!; [exact E|done|lia..|done|].
    intros H1 H2. specialize (Hex' H1 H2). destruct (Hex Hex') as [<- _]. destruct Hnode as [?|[? _]]; [done|congruence].
  - exists None, s. split_and!; [done..|]. intros _ n Hin. apply Hr. unfold searched in Hin.
    destruct (Z.eqb_spec (req_node memflags) NUMA_NO_NODE) as [En|En].
    + rewrite andb_false_r in Hin. destruct (has_bits mf MEMF_exact_node) eqn:Em; [|auto]. unfold start_node in Es.
      fold (req_node memflags) in Es. cbv zeta in Es. rewrite (proj2 (Z.eqb_eq _ _) En) in Es.
      apply Ok_bind_inv in Es as (n0 & _ & Es). injection Es as _ <-. by rewrite has_bits_ldiff in Em.
    + rewrite andb_true_r in Hin. unfold start_node in Es. fold (req_node memflags) in Es. cbv zeta in Es.
      rewrite (proj2 (Z.eqb_neq _ _) En) in Es. injection Es as <- <-. destruct (has_bits memflags MEMF_exact_node); [by left|auto].
Qed.

(** ** Freeing *)

(** The table of frames covers the machine's memory. *)
Definition frames_known (M : machine) (P : gmap Z page_info) : Prop :=
  ∀ x, mfn_valid M x = true → is_Some (P !! x).

(** A block in use that may be freed: aligned, on one node that has a heap,
    no page of it being taken offline, and not of the Xen heap. *)
Record freeable (M : machine) (order pg : Z) (s : hstate) : Prop := {
  fb_order : 0 ≤ order ≤ MAX_ORDER;
  fb_pos : 0 < pg;
  fb_aligned : (2 ^ order | pg);
  fb_zone : Z.log2 pg < NR_ZONES;
  fb_node : is_Some (avail s !! mfn_to_nid M pg);
  fb_page x : in_block order pg x → ∃ p, pages s !! x = Some p ∧ page_state_is p PGC_state_inuse = true ∧
    has_bits (count_info p) PGC_broken = false ∧ is_xen_heap_page p = false ∧
    mfn_valid M x = true ∧ mfn_to_nid M x = mfn_to_nid M pg;
}.

Definition released (now : Z) (p : page_info) : page_info :=
  let owned := bool_decide (page_get_owner p ≠ None) in
  let p2 := set_need_tlbflush owned (set_count PGC_state_free p) in
  page_set_owner None (if owned then set_stamp now p2 else p2).

Lemma release_pages_spec k pg now s :
  (∀ x, pg ≤ x < pg + Z.of_nat k → ∃ p, pages s !! x = Some p ∧ page_state_is p PGC_state_inuse = true ∧
     has_bits (count_info p) PGC_broken = false) →
  ∃ P' m', release_pages k pg now false s = Ok (false, set_m2p (λ _, m') (set_pages (λ _, P') s)) ∧
    (∀ x, P' !! x = if decide (pg ≤ x < pg + Z.of_nat k) then released now <$> pages s !! x else pages s !! x) ∧
    (∀ x, m' !! x = if decide (pg ≤ x < pg + Z.of_nat k) then Some INVALID_M2P_ENTRY else m2p s !! x).
Proof.
  revert pg s. induction k as [|k IH]; intros pg s Hf.
  { exists (pages s), (m2p s). simpl. split_and!; [by destruct s|..]; intros x; by rewrite decide_False by lia. }
  destruct (Hf pg) as (p & Hp & Hst & Hbr); [lia|]. cbn [release_pages]. rewrite Hp. cbn [deref].
  unfold page_state_is in Hst |- *. apply Z.eqb_eq in Hst. unfold has_bits in Hbr.
  apply negb_false_iff, Z.eqb_eq in Hbr. rewrite Hst, Hbr. cbn [BUG_ON Z.eqb]. unfold BUG_ON.
  set (s1 := set_m2p _ _).
  assert (∀ x, pages s1 !! x = if decide (x = pg) then released now <$> pages s !! x else pages s !! x) as Hs1.
  { intros x. unfold s1, upd_page. simpl. rewrite lookup_alter. case_decide; case_decide; subst; try done. by rewrite Hp. }
  assert (∀ x, m2p s1 !! x = if decide (x = pg) then Some INVALID_M2P_ENTRY else m2p s !! x) as Hm1.
  { intros x. unfold s1. simpl. case_decide; subst; [by rewrite lookup_insert_eq|by rewrite lookup_insert_ne]. }
  destruct (IH (pg + 1) s1) as (P' & m' & E & HP & Hm).
  { intros x Hx. rewrite Hs1, decide_False by lia. apply Hf. lia. }
  exists P', m'. split_and!.
  - exact E.
  - intros x. rewrite HP. rewrite Hs1. repeat case_decide; try done; lia.
  - intros x. rewrite Hm, Hm1. repeat case_decide; try done; lia.
Qed.

(** Take the buddy off its list. *)
Lemma heap_del_held M s k b H :
  blocks_wf M (pages s) (heap s) H → listed M (heap s) k b →
  ∃ s1, heap_del (mfn_to_nid M b) (Z.log2 b) k b s = Ok s1 ∧ relisted s s1 ∧ pages s1 = pages s ∧
    blocks_wf M (pages s1) (heap s1) ((k, b) :: H).
Proof.
  intros Hb Hl. unfold heap_del, PageAlloc.list_del.
  rewrite bool_decide_eq_true_2 by exact Hl. simpl. eexists. split; [done|].
  split_and!; [apply relisted_set_list|done|].
  apply (blocks_hold _ _ _ _ _ _ _ b _ Hb); [done| |].
  - apply NoDup_filter, (bw_nodup _ _ _ _ Hb).
  - intros x. rewrite list_elem_of_filter. unfold heap_list, hlist. naive_solver.
Qed.

Lemma buddy_mergeable_spec M n order b s :
  frames_known M (pages s) →
  ∃ r, buddy_mergeable M n order b s = Ok r ∧
    (r = true → ∃ p, pages s !! b = Some p ∧ page_state_is p PGC_state_free = true ∧ PFN_ORDER p = order ∧
       mfn_to_nid M b = n).
Proof.
  intros Hk. unfold buddy_mergeable. destruct (mfn_valid M b) eqn:Ev; simpl; [|by exists false].
  destruct (Hk b Ev) as [p Hp]. rewrite Hp. simpl. eexists. split; [done|].
  rewrite !andb_true_iff, !Z.eqb_eq. intros [[? ?] ?]. by exists p.
Qed.

(** A block and its mergeable buddy, the two halves of the aligned block at
    [lo], become one held block. *)
Lemma merge_buddy M k pg b lo s p :
  blocks_wf M (pages s) (heap s) [(k, pg)] → k + 1 ≤ MAX_ORDER → (2 ^ (k + 1) | lo) →
  (pg = lo ∧ b = lo + 2 ^ k) ∨ (b = lo ∧ pg = lo + 2 ^ k) →
  pages s !! b = Some p → page_state_is p PGC_state_free = true → PFN_ORDER p = k →
  mfn_to_nid M b = mfn_to_nid M pg →
  ∃ s1, heap_del (mfn_to_nid M pg) (Z.log2 pg) k b s = Ok s1 ∧ relisted s s1 ∧ pages s1 = pages s ∧
    blocks_wf M (pages s1) (heap s1) [(k + 1, lo)] ∧ mfn_to_nid M lo = mfn_to_nid M pg ∧ Z.log2 lo = Z.log2 pg.
Proof.
  intros Hb Hmax Hlo Hcase Hp Hfree Hord Hn.
  destruct (bw_block _ _ _ _ Hb k pg) as (Hk & Hpos & Hal & _); [right; by left|].
  pose proof (Z.pow_pos_nonneg 2 k ltac:(lia) ltac:(lia)).
  assert (2 ^ k | lo) as Hlo' by (apply (divide_pow_le k (k + 1)); [lia|done]).
  assert (2 ^ k | b) as Halb by (destruct Hcase as [[_ ->]|[-> _]]; [apply Z.divide_add_r; [done|by exists 1; lia]|done]).
  assert (in_block (k + 1) lo pg ∧ in_block (k + 1) lo b ∧ b ≠ pg) as (Hi1 & Hi2 & Hne).
  { unfold in_block. rewrite pow2_S by lia. destruct Hcase as [[-> ->]|[-> ->]]; lia. }
  destruct (buddy_listed M _ _ k pg b lo p Hb ltac:(lia) Hlo Hi1 Hi2 Halb Hne Hp Hfree Hord) as [Hlopos Hl].
  pose proof (log2_block (k + 1) lo pg ltac:(lia) Hlopos Hlo Hi1) as Hz1.
  pose proof (log2_block (k + 1) lo b ltac:(lia) Hlopos Hlo Hi2) as Hz2.
  destruct (heap_del_held M s k b _ Hb Hl) as (s1 & E & Hr & Hps & Hb1).
  rewrite Hz2, Hn in E. rewrite Hz1. exists s1. split_and!; try done.
  - destruct Hcase as [[-> ->]|[-> ->]]; (apply (blocks_join M _ _ k lo (mfn_to_nid M lo)); [lia..|done|done| |]); try done.
    by apply blocks_swap.
  - by destruct Hcase as [[-> _]|[<- _]].
Qed.

Lemma merge_chunks_spec M k pg order s :
  0 ≤ order → order + Z.of_nat k = MAX_ORDER → frames_known M (pages s) →
  blocks_wf M (pages s) (heap s) [(order, pg)] →
  ∃ pg' order' s', merge_chunks M k (mfn_to_nid M pg) (Z.log2 pg) pg order s = Ok (pg', order', s') ∧
    blocks_wf M (pages s') (heap s') [(order', pg')] ∧ relisted s s' ∧ pages s' = pages s ∧
    mfn_to_nid M pg' = mfn_to_nid M pg ∧ Z.log2 pg' = Z.log2 pg.
Proof.
  revert pg order s. induction k as [|k IH]; intros pg order s Ho Hk Hknown Hb.
  { exists pg, order, s. done. }
  assert (∃ pg' order' s', Ok (pg, order, s) = Ok (pg', order', s') ∧
    blocks_wf M (pages s') (heap s') [(order', pg')] ∧ relisted s s' ∧ pages s' = pages s ∧
    mfn_to_nid M pg' = mfn_to_nid M pg ∧ Z.log2 pg' = Z.log2 pg) as Hstop by (by exists pg, order, s).
  destruct (bw_block _ _ _ _ Hb order pg) as (_ & _ & Hal & _); [right; by left|].
  pose proof (aligned_half order pg Ho Hal) as Hhalf.
  cbn [merge_chunks]. rewrite has_bits_testbit, Z.shiftl_1_l by done.
  assert (∀ b lo, (2 ^ (order + 1) | lo) → (pg = lo ∧ b = lo + 2 ^ order) ∨ (b = lo ∧ pg = lo + 2 ^ order) →
    ∃ pg' order' s',
      (let! r := buddy_mergeable M (mfn_to_nid M pg) order b s in
       if (r : bool) then
         let! s1 := heap_del (mfn_to_nid M pg) (Z.log2 pg) order b s in
         merge_chunks M k (mfn_to_nid M pg) (Z.log2 pg) lo (order + 1) s1
       else Ok (pg, order, s)) = Ok (pg', order', s') ∧
    blocks_wf M (pages s') (heap s') [(order', pg')] ∧ relisted s s' ∧ pages s' = pages s ∧
    mfn_to_nid M pg' = mfn_to_nid M pg ∧ Z.log2 pg' = Z.log2 pg) as Hgo.
  { intros b lo Hlo Hcase. destruct (buddy_mergeable_spec M (mfn_to_nid M pg) order b s Hknown) as ([|] & -> & Hr); [|exact Hstop].
    destruct (Hr eq_refl) as (p & Hp & Hfree & Hord & Hn). cbn [mbind outcome_bind].
    destruct (merge_buddy M order pg b lo s p) as (s1 & -> & Hr1 & Hp1 & Hb1 & Hn1 & Hz1); [done|lia|done..|].
    rewrite <- Hn1, <- Hz1. cbn [mbind outcome_bind].
    destruct (IH lo (order + 1) s1) as (pg' & order' & s' & E & Hb' & Hr' & Hp' & Hn' & Hz'); [lia|lia|by rewrite Hp1|done|].
    exists pg', order', s'. split_and!; [exact E|done|by trans s1|by rewrite Hp'|done|done]. }
  destruct (Z.testbit pg order).
  - apply Hgo; [done|right; lia].
  - apply Hgo; [done|left; lia].
Qed.

(** The block at [pg] went back to the heap. *)
Record freed (M : machine) (order pg : Z) (s s' : hstate) : Prop := {
  fr_page x : in_block order pg x → ∃ p, pages s !! x = Some p ∧
    relist_page (Some (released (tlbflush_current_time M s) p)) (pages s' !! x);
  fr_other x : ¬ in_block order pg x → relist_page (pages s !! x) (pages s' !! x);
  fr_free_pages : free_pages (pages s') = free_pages (pages s) ∪ block_set order pg;
  fr_m2p x : m2p s' !! x = if decide (in_block order pg x) then Some INVALID_M2P_ENTRY else m2p s !! x;
  fr_pdoms : pdoms s' = pdoms s;
  fr_offlined : page_offlined_list s' = page_offlined_list s ∧ page_broken_list s' = page_broken_list s;
  fr_nodes n : is_Some (avail s !! n) → is_Some (avail s' !! n);
  fr_events : events s' = events s;
}.

Lemma page_to_zone_log2 pg p : 0 < pg → is_xen_heap_page p = false → page_to_zone pg p = Z.log2 pg.
Proof. intros Hpos Hx. unfold page_to_zone, fls. rewrite Hx. destruct (Z.leb_spec pg 0); lia. Qed.

Lemma released_free now p : count_info (released now p) = PGC_state_free.
Proof. unfold released. by case_bool_decide. Qed.

Lemma free_pages_release P P' k pg now :
  (∀ x, in_block k pg x → is_Some (P !! x)) →
  (∀ x, P' !! x = if decide (in_block k pg x) then released now <$> P !! x else P !! x) →
  free_pages P' = free_pages P ∪ block_set k pg.
Proof.
  intros Hk HP. apply set_eq. intros x. rewrite elem_of_union, !elem_of_free_pages, elem_of_block_set, HP.
  case_decide as Hx; [|naive_solver]. split; [auto|]. intros _. destruct (Hk x Hx) as [p ->]. simpl.
  eexists. split; [done|]. unfold page_state_is. by rewrite released_free.
Qed.

Lemma inuse_not_free p : page_state_is p PGC_state_inuse = true → page_state_is p PGC_state_free = false.
Proof. unfold page_state_is. intros ->%Z.eqb_eq. done. Qed.

Lemma free_heap_pages_spec M order pg s :
  heap_wf M s → frames_known M (pages s) → freeable M order pg s →
  ∃ s', free_heap_pages M pg order s = Ok s' ∧ heap_wf M s' ∧ freed M order pg s s'.
Proof.
  intros [Hb Hc] Hknown [Ho Hpos Hal Hz [l Hl] Hpg]. unfold free_heap_pages.
  destruct (Hpg pg) as (p0 & -> & _ & _ & Hxen & _); [apply in_block_head; lia|]. cbn [deref].
  rewrite page_to_zone_log2 by done. unfold BUG_ON. destruct (Z.ltb_spec MAX_ORDER order); [lia|].
  rewrite Z.shiftl_1_l. pose proof (Z.pow_pos_nonneg 2 order ltac:(lia) ltac:(lia)).
  destruct (release_pages_spec (Z.to_nat (2 ^ order)) pg (tlbflush_current_time M s) s) as (P' & m' & -> & HP & Hm).
  { rewrite Z2Nat.id by lia. intros x Hx. destruct (Hpg x Hx) as (p & ? & ? & ? & _). by exists p. }
  rewrite Z2Nat.id in HP, Hm by lia. cbn [mbind outcome_bind]. set (s1 := set_m2p _ _).
  assert (∀ x, in_block order pg x → is_Some (pages s !! x)) as Hsome.
  { intros x Hx. destruct (Hpg x Hx) as (p & -> & _). done. }
  pose proof (free_pages_release (pages s) P' order pg _ Hsome HP) as HF.
  assert (0 ≤ Z.log2 pg < NR_ZONES) as Hz' by (split; [apply Z.log2_nonneg|done]).
  assert (avail_of (mfn_to_nid M pg) (Z.log2 pg) s1 = Ok (zone_pages M (mfn_to_nid M pg) (Z.log2 pg) (free_pages (pages s)))) as ->.
  { apply (avail_of_counts M (free_pages (pages s)) s _ _ l); done. }
  cbn [mbind outcome_bind]. set (mid := if opt_tmem M then _ else _). set (s2 := set_totals _ mid _).
  assert (blocks_wf M (pages s2) (heap s2) [(order, pg)]) as Hb2.
  { apply (blocks_release M (pages s)); try done.
    - intros x Hx. by rewrite HP, decide_False.
    - intros x Hx. destruct (Hpg x Hx) as (p & ? & ?%inuse_not_free & _). by exists p.
    - intros x Hx. destruct (Hpg x Hx) as (p & Hp & _ & _ & _ & ? & ?). exists (released (tlbflush_current_time M s) p).
      rewrite HP, decide_True, Hp, released_free by done. done. }
  assert (frames_known M (pages s2)) as Hknown2.
  { intros x Hx. simpl. rewrite HP. destruct (Hknown x Hx) as [p ->]. case_decide; by eexists. }
  destruct (merge_chunks_spec M (Z.to_nat (MAX_ORDER - order)) pg order s2) as (pg' & order' & s3 & -> & Hb3 & Hr3 & _ & Hn3 & Hz3);
    [lia|lia|done|done|]. cbn [mbind outcome_bind].
  rewrite <- Hn3, <- Hz3. destruct (put_block_wf M order' pg' [] s3 Hb3) as [Hb4 Hr4]. fold (put_block (mfn_to_nid M pg') (Z.log2 pg') order' pg' s3).
  set (s4 := put_block _ _ _ _ s3) in *. pose proof (transitivity Hr3 Hr4) as Hr. exists s4. split; [done|].
  pose proof (relisted_free _ _ Hr) as HF4. pose proof (rl_page _ _ Hr) as Hpage. rewrite (rl_rest _ _ Hr) in *.
  split; split; simpl in *; try done.
  - rewrite HF4, HF. rewrite <- (size_block_set order pg) by lia. apply (counts_release M _ _ _ _ _ _ l); [done| |done|done|].
    + intros x (p & Hp & Hf)%elem_of_free_pages Hx%elem_of_block_set. destruct (Hpg x Hx) as (p' & Hp' & ?%inuse_not_free & _). congruence.
    + intros x Hx%elem_of_block_set. split; [|apply (log2_block order); [lia|done..]]. by destruct (Hpg x Hx) as (p & _ & _ & _ & _ & _ & ?).
  - intros x Hx. destruct (Hpg x Hx) as (p & Hp & _). exists p. split; [done|]. specialize (Hpage x).
    rewrite HP, decide_True, Hp in Hpage by done. done.
  - intros x Hx. specialize (Hpage x). by rewrite HP, decide_False in Hpage.
  - by rewrite HF4, HF.
  - intros n [l' Hl']. rewrite lookup_alter. case_decide; subst; rewrite Hl'; by eexists.
Qed.

(** ** Allocated blocks may be freed *)

Lemma claimed_inuse p :
  page_state_is (claimed p) PGC_state_inuse = true ∧ has_bits (count_info (claimed p)) PGC_broken = false ∧
  is_xen_heap_page (claimed p) = false.
Proof. done. Qed.

Lemma allocated_freeable M order d pg s s' :
  heap_wf M s → 0 ≤ order ≤ MAX_ORDER → Z.log2 pg < NR_ZONES → allocated M order d pg s s' →
  freeable M order pg s'.
Proof.
  intros Hw Ho Hz Ha. destruct (al_aligned _ _ _ _ _ _ Ha) as [Hpos Hal]. split; try done.
  - apply (al_nodes _ _ _ _ _ _ Ha). apply (cw_node _ _ _ _ (hw_counts _ _ Hw)).
    destruct (al_free _ _ _ _ _ _ Ha pg) as (p & Hp & Hc & _); [apply in_block_head; lia|].
    apply elem_of_free_pages. exists p. unfold page_state_is. by rewrite Hc.
  - intros x Hx. destruct (al_free _ _ _ _ _ _ Ha x Hx) as (p & Hp & _ & Hv & Hn). exists (claimed p).
    rewrite (al_page _ _ _ _ _ _ Ha x Hx), Hp. split; [done|]. destruct (claimed_inuse p) as (-> & -> & ->). done.
Qed.

Lemma relist_page_some o o' : relist_page o o' → is_Some o → is_Some o'.
Proof. intros [->|(p & v & -> & _ & ->)]; [done|by eexists]. Qed.

Lemma relist_page_used o o' p :
  relist_page o o' → o = Some p → page_state_is p PGC_state_free = false → o' = o.
Proof. intros [->|(q & v & -> & Hf & ->)]; [done|]. intros [= ->]. congruence. Qed.

Lemma allocated_known M order d pg s s' :
  frames_known M (pages s) → allocated M order d pg s s' → frames_known M (pages s').
Proof.
  intros Hk Ha x Hx. destruct (decide (in_block order pg x)) as [Hi|Hi].
  - rewrite (al_page _ _ _ _ _ _ Ha x Hi). destruct (Hk x Hx) as [p ->]. by eexists.
  - apply (relist_page_some _ _ (al_other _ _ _ _ _ _ Ha x Hi)), Hk, Hx.
Qed.

Lemma freed_known M order pg s s' :
  frames_known M (pages s) → freed M order pg s s' → frames_known M (pages s').
Proof.
  intros Hk Ha x Hx. destruct (decide (in_block order pg x)) as [Hi|Hi].
  - destruct (fr_page _ _ _ _ _ Ha x Hi) as (p & _ & Hr). by apply (relist_page_some _ _ Hr).
  - apply (relist_page_some _ _ (fr_other _ _ _ _ _ Ha x Hi)), Hk, Hx.
Qed.

(** ** Changes to pages in use *)

(** The free pages are the same. *)
Definition same_free (P P' : gmap Z page_info) : Prop :=
  ∀ x p, page_state_is p PGC_state_free = true → (P !! x = Some p ↔ P' !! x = Some p).

Lemma same_free_pages P P' : same_free P P' → free_pages P' = free_pages P.
Proof.
  intros Hs. apply set_eq. intros x. rewrite !elem_of_free_pages. split; intros (p & Hp & Hf); exists p; (split; [|done]); by apply (Hs x p Hf).
Qed.

Lemma blocks_ext M P P' hp H : same_free P P' → blocks_wf M P hp H → blocks_wf M P' hp H.
Proof.
  intros Hs Hb.
  assert (∀ n x, frame_free M P n x → frame_free M P' n x) as Hff.
  { intros n x (p & Hp & Hc & ?). exists p. split; [|done]. apply (Hs x p); [|done]. unfold page_state_is. by rewrite Hc. }
  split.
  - intros n z k pg Hin. destruct (bw_key _ _ _ _ Hb _ _ _ _ Hin) as (-> & -> & p & Hp & Ho). split_and!; [done..|].
    exists p. split; [|done]. destruct (bw_block _ _ _ _ Hb k pg (or_introl Hin)) as (Hk & _ & _ & Hfr).
    destruct (Hfr pg) as (q & Hq & Hc & _); [apply in_block_head; lia|]. rewrite Hp in Hq. injection Hq as <-.
    apply (Hs pg p); [|done]. unfold page_state_is. by rewrite Hc.
  - apply (bw_nodup _ _ _ _ Hb).
  - intros k pg Hf. destruct (bw_block _ _ _ _ Hb _ _ Hf) as (? & ? & ? & Hfr). split_and!; [lia..|done|].
    intros x Hx. by apply Hff, Hfr.
  - apply (bw_disj _ _ _ _ Hb).
  - apply (bw_held_nodup _ _ _ _ Hb).
  - apply (bw_held _ _ _ _ Hb).
  - intros x p Hp Hf. apply (bw_cover _ _ _ _ Hb x p); [|done]. by apply (Hs x p).
Qed.

Lemma heap_wf_ext M s s' :
  heap_wf M s → same_free (pages s) (pages s') → heap s' = heap s → avail s' = avail s →
  total_avail_pages s' = total_avail_pages s → heap_wf M s'.
Proof.
  intros [Hb Hc] Hs Hh Ha Ht. split; [rewrite Hh; by apply (blocks_ext M (pages s))|].
  by rewrite (same_free_pages _ _ Hs), Ha, Ht.
Qed.

Lemma same_free_alter P x f p :
  P !! x = Some p → page_state_is p PGC_state_free = false → page_state_is (f p) PGC_state_free = false →
  same_free P (alter f x P).
Proof.
  intros Hp Hf Hf' y q Hq. rewrite lookup_alter. case_decide; [subst|done].
  rewrite Hp. simpl. split; intros [= <-]; congruence.
Qed.
