(* ===== verification/PageAllocProps.v ===== *)
(** * What the page allocator guarantees

    Allocation and freeing of heap blocks on every branch, histories of calls
    by clients that use what they were given, populating the heap, orders, and
    the defects found: node numbers out of range, onlining broken pages, and
    the disabled low-memory notice that fires. *)

From S2P Require Import Prelude BootMem PageAlloc PageAllocInv PageAllocOps.
Local Open Scope xen_scope.

(** ** Histories *)

Definition in_use (p : page_info) : Prop :=
  page_state_is p PGC_state_inuse = true ∧ has_bits (count_info p) PGC_broken = false ∧ is_xen_heap_page p = false.

(** The clients' view: the blocks handed out and not yet returned, by their
    first page. They may write what they like to the page structures of these
    blocks, as long as the pages stay in use. *)
Inductive heap_step (M : machine) : hstate * gmap Z Z → hstate * gmap Z Z → Prop :=
| step_alloc lo hi order memflags d r s s' used :
    alloc_pre M memflags d s → 0 ≤ lo ≤ hi → hi < NR_ZONES → 0 ≤ order →
    alloc_heap_pages M lo hi order memflags d s = Ok (r, s') →
    heap_step M (s, used) (s', match r with Some pg => <[pg := order]> used | None => used end)
| step_free order pg s s' used :
    used !! pg = Some order → free_heap_pages M pg order s = Ok s' →
    heap_step M (s, used) (s', delete pg used)
| step_use order pg x p' s used :
    used !! pg = Some order → in_block order pg x → in_use p' →
    heap_step M (s, used) (upd_page x (λ _, p') s, used).

Definition used_at (used : gmap Z Z) (x : Z) : Prop := ∃ pg k, used !! pg = Some k ∧ in_block k pg x.

Record history_ok (M : machine) (s0 : hstate) (c : hstate * gmap Z Z) : Prop := {
  ho_wf : heap_wf M c.1;
  ho_known : frames_known M (pages c.1);
  ho_block pg k : c.2 !! pg = Some k → freeable M k pg c.1;
  ho_disj pg k pg' k' x : c.2 !! pg = Some k → c.2 !! pg' = Some k' →
    in_block k pg x → in_block k' pg' x → pg = pg';
  ho_part x : x ∈ free_pages (pages s0) ↔ x ∈ free_pages (pages c.1) ∨ used_at c.2 x;
}.

(** A block stays freeable when its pages and the nodes' heaps stay. *)
Lemma freeable_keep M k pg s s' :
  freeable M k pg s → (∀ x, in_block k pg x → pages s' !! x = pages s !! x) →
  (∀ n, is_Some (avail s !! n) → is_Some (avail s' !! n)) → freeable M k pg s'.
Proof.
  intros [Ho Hpos Hal Hz Hn Hpg] Hp Ha. split; try done; [by apply Ha|].
  intros x Hx. rewrite (Hp x Hx). by apply Hpg.
Qed.

Lemma freeable_not_free M k pg s x :
  freeable M k pg s → in_block k pg x →
  ∃ p, pages s !! x = Some p ∧ page_state_is p PGC_state_free = false.
Proof. intros Hf Hx. destruct (fb_page _ _ _ _ Hf x Hx) as (p & ? & ?%inuse_not_free & _). by exists p. Qed.

Lemma used_not_free M s0 c x :
  history_ok M s0 c → used_at c.2 x → x ∉ free_pages (pages c.1).
Proof.
  intros Hh (pg & k & Hu & Hx) (p & Hp & Hf)%elem_of_free_pages.
  destruct (freeable_not_free _ _ _ _ _ (ho_block _ _ _ Hh _ _ Hu) Hx) as (q & Hq & Hnf). congruence.
Qed.

Lemma history_alloc M s0 order d pg s s' used :
  history_ok M s0 (s, used) → heap_wf M s' → 0 ≤ order ≤ MAX_ORDER → Z.log2 pg < NR_ZONES →
  allocated M order d pg s s' → history_ok M s0 (s', <[pg := order]> used).
Proof.
  intros Hh Hw' Ho Hz Ha. pose proof (ho_wf _ _ _ Hh) as Hw. simpl in *.
  assert (∀ x, in_block order pg x → x ∈ free_pages (pages s)) as Hfree.
  { intros x Hx. destruct (al_free _ _ _ _ _ _ Ha x Hx) as (p & Hp & Hc & _). apply elem_of_free_pages.
    exists p. unfold page_state_is. by rewrite Hc. }
  assert (∀ pg' k x, used !! pg' = Some k → in_block k pg' x → in_block order pg x → False) as Hapart.
  { intros pg' k x Hu Hx Hx'. apply (used_not_free _ _ _ x Hh); [by exists pg', k|by apply Hfree]. }
  assert (used !! pg = None) as Hnew.
  { destruct (used !! pg) as [k|] eqn:E; [|done]. destruct (Hapart pg k pg E).
    - apply in_block_head. pose proof (fb_order _ _ _ _ (ho_block _ _ _ Hh _ _ E)). lia.
    - apply in_block_head. lia. }
  split; simpl.
  - done.
  - by apply (allocated_known M order d pg s), Ha; apply Hh.
  - intros pg' k. rewrite lookup_insert_Some. intros [[<- <-]|[Hne Hu]]; [by apply (allocated_freeable M order d pg s)|].
    pose proof (ho_block _ _ _ Hh _ _ Hu) as Hf. apply (freeable_keep M k pg' s s' Hf); [|apply (al_nodes _ _ _ _ _ _ Ha)].
    intros x Hx. destruct (freeable_not_free _ _ _ _ _ Hf Hx) as (p & Hp & Hnf).
    apply (relist_page_used _ _ p); [|done|done]. apply (al_other _ _ _ _ _ _ Ha). intros ?. by apply (Hapart pg' k x).
  - intros p1 k1 p2 k2 x. rewrite !lookup_insert_Some. intros [[<- <-]|[_ H1]] [[<- <-]|[_ H2]] Hx1 Hx2; [done| | |].
    + by destruct (Hapart p2 k2 x).
    + by destruct (Hapart p1 k1 x).
    + by apply (ho_disj _ _ _ Hh p1 k1 p2 k2 x).
  - intros x. rewrite (ho_part _ _ _ Hh x). simpl. rewrite (al_free_pages _ _ _ _ _ _ Ha), elem_of_difference, elem_of_block_set.
    assert (used_at (<[pg:=order]> used) x ↔ in_block order pg x ∨ used_at used x) as ->.
    { unfold used_at. split.
      - intros (pg' & k & [[<- <-]|[_ Hu]]%lookup_insert_Some & Hx); [auto|right; by exists pg', k].
      - intros [Hx|(pg' & k & Hu & Hx)]; [exists pg, order; by rewrite lookup_insert_eq|].
        exists pg', k. rewrite lookup_insert_ne by congruence. done. }
    specialize (Hfree x). destruct (decide (in_block order pg x)); tauto.
Qed.

Lemma history_free M s0 order pg s s' used :
  history_ok M s0 (s, used) → heap_wf M s' → used !! pg = Some order → freed M order pg s s' →
  history_ok M s0 (s', delete pg used).
Proof.
  intros Hh Hw' Hu Hf. simpl in *.
  assert (∀ pg' k x, used !! pg' = Some k → pg' ≠ pg → in_block k pg' x → ¬ in_block order pg x) as Hapart.
  { intros pg' k x Hu' Hne Hx Hx'. apply Hne. by apply (ho_disj _ _ _ Hh pg' k pg order x). }
  split; simpl.
  - done.
  - by apply (freed_known M order pg s), Hf; apply Hh.
  - intros pg' k [Hne Hu']%lookup_delete_Some.
    pose proof (ho_block _ _ _ Hh _ _ Hu') as Hfb. apply (freeable_keep M k pg' s s' Hfb); [|apply (fr_nodes _ _ _ _ _ Hf)].
    intros x Hx. destruct (freeable_not_free _ _ _ _ _ Hfb Hx) as (p & Hp & Hnf).
    apply (relist_page_used _ _ p); [|done|done]. by apply (fr_other _ _ _ _ _ Hf), (Hapart pg' k x).
  - intros p1 k1 p2 k2 x [_ H1]%lookup_delete_Some [_ H2]%lookup_delete_Some. by apply (ho_disj _ _ _ Hh p1 k1 p2 k2 x).
  - intros x. rewrite (ho_part _ _ _ Hh x). simpl. rewrite (fr_free_pages _ _ _ _ _ Hf), elem_of_union, elem_of_block_set.
    assert (used_at used x ↔ in_block order pg x ∨ used_at (delete pg used) x) as ->; [|tauto].
    unfold used_at. split.
    + intros (pg' & k & Hu' & Hx). destruct (decide (pg' = pg)) as [->|]; [left; congruence|].
      right. exists pg', k. by rewrite lookup_delete_ne.
    + intros [Hx|(pg' & k & [_ Hu']%lookup_delete_Some & Hx)]; [by exists pg, order|by exists pg', k].
Qed.

Lemma history_use M s0 order pg x p' s used :
  history_ok M s0 (s, used) → used !! pg = Some order → in_block order pg x → in_use p' →
  history_ok M s0 (upd_page x (λ _, p') s, used).
Proof.
  intros Hh Hu Hx (Hst & Hbr & Hxh). pose proof (ho_block _ _ _ Hh _ _ Hu) as Hfb. simpl in *.
  destruct (freeable_not_free _ _ _ _ _ Hfb Hx) as (p & Hp & Hnf).
  pose proof (same_free_alter (pages s) x (λ _, p') p Hp Hnf (inuse_not_free _ Hst)) as Hsame.
  split; simpl.
  - by apply (heap_wf_ext M s); [apply Hh|..].
  - intros y Hy. rewrite lookup_alter. destruct (ho_known _ _ _ Hh y Hy) as [q Hq]. simpl in Hq.
    case_decide; subst; rewrite Hq; by eexists.
  - intros pg' k Hu'. pose proof (ho_block _ _ _ Hh _ _ Hu') as Hfb'. destruct Hfb' as [? ? ? ? ? Hpg]. split; try done.
    intros y Hy. simpl in *. destruct (Hpg y Hy) as (q & Hq & Hqs & Hqb & Hqx & Hv & Hn). rewrite lookup_alter.
    case_decide; [subst y|by exists q]. exists p'. by rewrite Hq.
  - apply (ho_disj _ _ _ Hh).
  - intros y. rewrite (same_free_pages _ _ Hsame). apply (ho_part _ _ _ Hh).
Qed.

Lemma history_step M s0 c c' : history_ok M s0 c → heap_step M c c' → history_ok M s0 c'.
Proof.
  intros Hh Hs. destruct Hs as [lo hi order memflags d r s s' used Hp Hlo Hhi Ho E|order pg s s' used Hu E|order pg x p' s used Hu Hx Hp'].
  - destruct (alloc_heap_pages_spec M lo hi order memflags d s) as (r' & s'' & E' & Hw & Hr); [apply Hh|done..|].
    rewrite E in E'. injection E' as <- <-. destruct r as [pg|].
    + destruct Hr as (Hmax & Hz & Ha & _). apply (history_alloc M s0 order d pg s s'); [done|done|lia|lia|done].
    + by destruct Hr as [-> _].
  - destruct (free_heap_pages_spec M order pg s) as (s'' & E' & Hw & Hf); [apply Hh|apply Hh|by apply (ho_block _ _ _ Hh)|].
    rewrite E in E'. injection E' as <-. by apply (history_free M s0 order pg s s').
  - by apply (history_use M s0 order pg x p').
Qed.

Lemma history_start M s0 : heap_wf M s0 → frames_known M (pages s0) → history_ok M s0 (s0, ∅).
Proof.
  intros Hw Hk. split; simpl; try done. intros x. split; [auto|]. intros [?|(pg & k & Hu & _)]; [done|]. by rewrite lookup_empty in Hu.
Qed.

(** ** Populating the heap *)

Lemma hlist_filter_node hp (n n' z k : Z) :
  hlist (filter (λ x : Z * Z * Z * list Z, x.1.1.1 ≠ n) hp) n' z k = if decide (n' = n) then [] else hlist hp n' z k.
Proof.
  unfold hlist. rewrite map_lookup_filter. destruct (hp !! (n', z, k)) as [l|]; simpl; [|by case_decide].
  case_guard; case_decide; simpl in *; congruence.
Qed.

(** The heap of a node that has none yet. *)
Lemma heap_wf_init_node M s n :
  heap_wf M s → 0 ≤ n < MAX_NUMNODES → avail s !! n = None → heap_wf M (init_node n s).
Proof.
  intros Hw Hn Hnone. pose proof Hw as [Hb Hc].
  assert (∀ n' z k, hlist (heap (init_node n s)) n' z k = hlist (heap s) n' z k) as Hl.
  { intros n' z k. simpl. rewrite hlist_filter_node. case_decide; [subst n'|done].
    destruct (hlist (heap s) n z k) as [|pg l] eqn:E; [done|].
    destruct (listed_counts M s n z k pg Hw) as (_ & _ & [? ?] & _); [|congruence].
    unfold heap_list. fold (hlist (heap s) n z k). rewrite E. by left. }
  assert (∀ x, x ∈ free_pages (pages s) → mfn_to_nid M x ≠ n) as Hx.
  { intros x Hx <-. destruct (cw_node _ _ _ _ Hc x Hx) as [[? ?] _]. congruence. }
  split.
  - assert (∀ k pg, free_block M (heap (init_node n s)) [] k pg ↔ free_block M (heap s) [] k pg) as Hfb.
    { intros k pg. unfold free_block, listed. by rewrite Hl. }
    split.
    + intros n' z k pg. rewrite Hl. apply (bw_key _ _ _ _ Hb).
    + intros n' z k. rewrite Hl. apply (bw_nodup _ _ _ _ Hb).
    + intros k pg ?%Hfb. by apply (bw_block _ _ _ _ Hb).
    + intros k pg k' pg' x ?%Hfb ?%Hfb. by apply (bw_disj _ _ _ _ Hb).
    + apply NoDup_nil_2.
    + intros k pg Hin. by apply not_elem_of_nil in Hin.
    + intros x p Hp Hf. destruct (bw_cover _ _ _ _ Hb x p Hp Hf) as (k & pg & ? & ?). exists k, pg. by rewrite Hfb.
  - unfold init_node. split; cbn [pages avail total_avail_pages set_heap set_avail].
    + intros n' l. rewrite lookup_insert_Some. intros [[<- <-]|[_ Hl']]; [|by apply (cw_avail _ _ _ _ Hc)].
      split_and!; [lia..|done|]. intros z Hz. rewrite lookup_replicate_2 by lia. f_equal.
      unfold zone_pages. symmetry. apply (f_equal Z.of_nat (y:=0%nat)), size_empty_iff. intros x.
      rewrite elem_of_filter. split; [|set_solver]. intros [[? _] Hin]. by apply Hx in Hin.
    + intros x Hin. destruct (cw_node _ _ _ _ Hc x Hin) as [? ?]. split; [|done]. rewrite lookup_insert_ne; [done|].
      intros Hn'. by apply Hx in Hin.
    + apply (cw_total _ _ _ _ Hc).
Qed.

Lemma init_heap_loop_spec M fuel pg i nr s :
  heap_wf M s → frames_known M (pages s) → nr - i < Z.of_nat fuel → i ≤ nr →
  (∀ x, pg + i ≤ x < pg + nr → freeable M 0 x s) →
  ∃ s', init_heap_loop M fuel pg i nr s = Ok s' ∧ heap_wf M s' ∧ frames_known M (pages s') ∧
    (∀ x, x ∈ free_pages (pages s') ↔ x ∈ free_pages (pages s) ∨ pg + i ≤ x < pg + nr).
Proof.
  revert i s. induction fuel as [|fuel IH]; intros i s Hw Hk Hfuel Hle Hfr; [lia|].
  cbn [init_heap_loop]. destruct (Z.leb_spec nr i) as [Hend|Hgo].
  { exists s. split_and!; [done..|]. intros x. split; [auto|]. intros [?|?]; [done|lia]. }
  pose proof (Hfr (pg + i) ltac:(lia)) as Hf. destruct (fb_node _ _ _ _ Hf) as [l Hl]. cbv zeta. rewrite Hl.
  destruct (free_heap_pages_spec M 0 (pg + i) s Hw Hk Hf) as (s1 & -> & Hw1 & Hfd). cbn [mbind outcome_bind].
  assert (∀ x, in_block 0 (pg + i) x ↔ x = pg + i) as Hin by (intros x; unfold in_block; lia).
  destruct (IH (i + 1) s1) as (s' & E & Hw' & Hk' & Hset); [done|by apply (freed_known M 0 (pg + i) s)|lia|lia| |].
  { intros x Hx. pose proof (Hfr x ltac:(lia)) as Hfx. apply (freeable_keep M 0 x s s1 Hfx); [|apply (fr_nodes _ _ _ _ _ Hfd)].
    intros y Hy. destruct (freeable_not_free _ _ _ _ _ Hfx Hy) as (p & Hp & Hnf).
    apply (relist_page_used _ _ p); [|done|done]. apply (fr_other _ _ _ _ _ Hfd). rewrite Hin. unfold in_block in Hy. lia. }
  exists s'. split_and!; [exact E|done|done|]. intros x.
  rewrite Hset, (fr_free_pages _ _ _ _ _ Hfd), elem_of_union, elem_of_block_set, Hin.
  split; [intros [[?|?]|?]; [auto|right; lia..]|]. intros [?|?]; [auto|].
  destruct (decide (x = pg + i)); [auto|right; lia].
Qed.

(** A page in use that the heap may get. *)
Definition page_idle (M : machine) (s : hstate) (x : Z) : Prop :=
  0 < x ∧ Z.log2 x < NR_ZONES ∧ mfn_valid M x = true ∧ ∃ p, pages s !! x = Some p ∧ in_use p.

Lemma page_idle_freeable M s x :
  page_idle M s x → is_Some (avail s !! mfn_to_nid M x) → freeable M 0 x s.
Proof.
  intros (Hpos & Hz & Hv & p & Hp & Hst & Hbr & Hx) Ha. split; try done.
  - exists x. lia.
  - intros y Hy. assert (y = x) as -> by (unfold in_block in Hy; lia). by exists p.
Qed.

(** The first node to be discovered gets the static heap. *)
Lemma init_heap_loop_first M fuel pg nr s :
  avail s !! mfn_to_nid M pg = None → first_node_initialised s = false → 0 < nr →
  init_heap_loop M (S fuel) pg 0 nr s =
  init_heap_loop M (S fuel) pg 0 nr (init_node (mfn_to_nid M pg) (set_boot true (dma_bitsize s) s)).
Proof.
  intros Hnone Hfirst Hnr. cbn [init_heap_loop]. destruct (Z.leb_spec nr 0); [lia|]. rewrite Z.add_0_r. cbv zeta.
  rewrite Hnone. set (s1 := init_node _ _).
  assert (is_Some (avail s1 !! mfn_to_nid M pg)) as [l ->].
  { unfold s1, init_node. cbn [avail set_heap set_avail]. rewrite lookup_insert_eq. by eexists. }
  unfold init_node_heap. rewrite Hfirst. cbn [negb mbind outcome_bind Z.eqb andb]. unfold BUG_ON.
  destruct (Z.ltb_spec nr (0 + 0)); [lia|]. destruct (Z.eqb_spec (0 + 0) nr); [lia|]. by rewrite Z.sub_0_r.
Qed.

Lemma size_range_union (F F' : gset Z) a len :
  0 ≤ len → (∀ x, x ∈ F' ↔ x ∈ F ∨ a ≤ x < a + len) → (∀ x, x ∈ F → ¬ (a ≤ x < a + len)) →
  Z.of_nat (size F') = Z.of_nat (size F) + len.
Proof.
  intros Hlen HF Hd. replace F' with (F ∪ list_to_set (seqZ a len)).
  - rewrite size_union.
    + rewrite size_list_to_set by apply NoDup_seqZ. rewrite length_seqZ. lia.
    + intros x Hx Hx'%elem_of_list_to_set. rewrite elem_of_seqZ in Hx'. by apply (Hd x).
  - apply set_eq. intros x. rewrite elem_of_union, elem_of_list_to_set, elem_of_seqZ, HF. done.
Qed.

(** No free page, no heap yet. *)
Lemma heap_wf_empty M s :
  (∀ x p, pages s !! x = Some p → page_state_is p PGC_state_free = false) →
  heap s = ∅ → avail s = ∅ → total_avail_pages s = 0 → heap_wf M s.
Proof.
  intros Hp Hh Ha Ht.
  assert (free_pages (pages s) = ∅) as HF.
  { apply set_eq. intros x. rewrite elem_of_free_pages. split; [|set_solver]. intros (p & ?%Hp & ?). congruence. }
  assert (∀ n z k, hlist ∅ n z k = []) as Hl by (intros; unfold hlist; by rewrite lookup_empty).
  assert (∀ k pg, ¬ free_block M ∅ [] k pg) as Hnb.
  { intros k pg [Hin|Hin]; [|by apply not_elem_of_nil in Hin]. unfold listed in Hin. rewrite Hl in Hin. by apply not_elem_of_nil in Hin. }
  split; rewrite ?Hh, ?HF, ?Ha, ?Ht; split.
  - intros n z k pg. rewrite Hl. by intros ?%not_elem_of_nil.
  - intros n z k. rewrite Hl. apply NoDup_nil_2.
  - by intros k pg ?%Hnb.
  - by intros k pg k' pg' x ?%Hnb.
  - apply NoDup_nil_2.
  - by intros k pg ?%not_elem_of_nil.
  - intros x p ?%Hp ?. congruence.
  - intros n l. by rewrite lookup_empty.
  - intros x. by intros ?%not_elem_of_empty.
  - by rewrite size_empty.
Qed.

(** ** A small machine *)

(** One node with frames 1 to 63. *)
Definition demo_machine : machine :=
  mk_machine (λ m, (1 <=? m) && (m <? 64)) (λ _, 0) {[0]} 0 0 64 (λ _, 5) (λ _ _, false) false (λ _, 0)
    (λ _ _ _, None) 1000 (λ _, false) (λ _, true) (λ _ s, (false, s)) (λ _ s, s) (λ _ _, 0) 99.

Definition demo_page : page_info := mk_page 0 0 0 0.
Definition demo_dom : pdomain := mk_pdomain 1 false 0 6 0 [] [] [] 1 {[0]} 0 0.

(** Before the heap is populated. *)
Definition demo_boot : hstate :=
  mk_hstate (gset_to_gmap demo_page (list_to_set (seqZ 1 63))) ∅ ∅ 0 0 (2 ^ 64 - 1) 0 0 0 [] [] false 0 ∅ {[7 := demo_dom]} [].

Lemma demo_boot_wf : heap_wf demo_machine demo_boot ∧ frames_known demo_machine (pages demo_boot).
Proof.
  split.
  - apply heap_wf_empty; [|done..]. intros x p. cbn [pages demo_boot].
    rewrite lookup_gset_to_gmap_Some. intros [_ <-]. done.
  - intros x Hx. cbn [pages demo_boot]. exists demo_page. rewrite lookup_gset_to_gmap_Some.
    split; [|done]. apply elem_of_list_to_set, elem_of_seqZ. cbn [mfn_valid demo_machine] in Hx. b2p. lia.
Qed.

Lemma init_heap_pages_spec M pg nr s :
  heap_wf M s → frames_known M (pages s) → 0 < nr → (∀ x, pg ≤ x < pg + nr → page_idle M s x) →
  ((∀ x, pg ≤ x < pg + nr → is_Some (avail s !! mfn_to_nid M x)) ∨
   (first_node_initialised s = false ∧ avail s !! mfn_to_nid M pg = None ∧ 0 ≤ mfn_to_nid M pg < MAX_NUMNODES ∧
    ∀ x, pg ≤ x < pg + nr → mfn_to_nid M x = mfn_to_nid M pg)) →
  ∃ s', init_heap_pages M pg nr s = Ok s' ∧ heap_wf M s' ∧ frames_known M (pages s') ∧
    (∀ x, x ∈ free_pages (pages s') ↔ x ∈ free_pages (pages s) ∨ pg ≤ x < pg + nr) ∧
    total_avail_pages s' = total_avail_pages s + nr.
Proof.
  intros Hw Hk Hnr Hidle Hnode.
  assert (∃ s1, init_heap_pages M pg nr s = init_heap_loop M (S (Z.to_nat nr)) pg 0 nr s1 ∧ heap_wf M s1 ∧
    pages s1 = pages s ∧ ∀ x, pg ≤ x < pg + nr → freeable M 0 x s1) as (s1 & E & Hw1 & Hp1 & Hf1).
  { destruct Hnode as [Hsome|(Hfirst & Hnone & Hn & Hsame)].
    - exists s. split_and!; [done..|]. intros x Hx. apply page_idle_freeable; [by apply Hidle|by apply Hsome].
    - exists (init_node (mfn_to_nid M pg) (set_boot true (dma_bitsize s) s)).
      split_and!; [by apply init_heap_loop_first|apply heap_wf_init_node; [by destruct Hw; split|done|done]|done|].
      intros x Hx. apply page_idle_freeable; [by apply Hidle|]. unfold init_node. cbn [avail set_heap set_avail].
      rewrite (Hsame x Hx), lookup_insert_eq. by eexists. }
  rewrite E. destruct (init_heap_loop_spec M (S (Z.to_nat nr)) pg 0 nr s1) as (s' & -> & Hw' & Hk' & Hset);
    [done|by rewrite Hp1|lia|lia|by rewrite Z.add_0_r|].
  rewrite Z.add_0_r, Hp1 in Hset. exists s'. split_and!; [done..|].
  rewrite (cw_total _ _ _ _ (hw_counts _ _ Hw')), (cw_total _ _ _ _ (hw_counts _ _ Hw)).
  apply (size_range_union _ _ pg nr ltac:(lia) Hset). intros x (p & Hp & Hf)%elem_of_free_pages Hx.
  destruct (Hidle x Hx) as (_ & _ & _ & p' & Hp' & ?%inuse_not_free & _). congruence.
Qed.

(** The heap of the small machine: one block of the frames 8 to 15. *)
Definition demo_heap : hstate :=
  match init_heap_pages demo_machine 8 8 demo_boot with Ok s => s | Bug => demo_boot end.

Lemma demo_idle x : 8 ≤ x < 16 → page_idle demo_machine demo_boot x.
Proof.
  intros Hx. split_and!; [lia| | |].
  - apply (Z.le_lt_trans _ (Z.log2 15)); [apply Z.log2_le_mono; lia|done].
  - cbn [mfn_valid demo_machine]. apply andb_true_iff. rewrite Z.leb_le, Z.ltb_lt. lia.
  - exists demo_page. split; [|done]. cbn [pages demo_boot]. rewrite lookup_gset_to_gmap_Some.
    split; [|done]. apply elem_of_list_to_set, elem_of_seqZ. lia.
Qed.

Lemma demo_heap_wf : heap_wf demo_machine demo_heap ∧ frames_known demo_machine (pages demo_heap).
Proof.
  destruct demo_boot_wf as [Hw Hk].
  destruct (init_heap_pages_spec demo_machine 8 8 demo_boot) as (s' & E & Hw' & Hk' & _); [done|done|lia|apply demo_idle|by right|].
  unfold demo_heap. rewrite E. exact (conj Hw' Hk').
Qed.

Lemma demo_nodes : node_set ({[0]} : gset Z).
Proof. intros x ->%elem_of_singleton. done. Qed.

Lemma demo_pre s d :
  (∀ i, d = Some i → ∃ D, pdoms s !! i = Some D ∧ node_affinity D = {[0]} ∧ last_alloc_node D = 0) →
  alloc_pre demo_machine 0 d s.
Proof.
  intros Hd. split; [done|apply demo_nodes|done|by right|].
  intros i Hi. destruct (Hd i Hi) as (D & HD & Ha & Hl). exists D. rewrite Ha, Hl. split_and!; [done|apply demo_nodes|done].
Qed.

(** ** The theorems *)

(** C5: Allocating a block. In a well-formed heap, with transcendent memory off
    ([opt_tmem]), a request for [2 ^ order] pages in the zones [lo] to [hi] that
    names an existing node or none returns without an assertion failing. If it
    returns a block, the block is aligned to its size, lies in a zone asked for
    (and on the node asked for, when exactly that one is), consisted of free
    pages with no reference, and its pages are now in use without owner and
    type; the free pages are those before without the block, every page in use
    before is untouched, the heap (lists, orders, counters) is well formed, and
    a TLB flush covers each page that needs one. If it returns nothing the state
    is unchanged, and, unless the order is above [MAX_ORDER], the node asked for
    exactly, or else every online node, has no block of at least this order in
    these zones. *)
Theorem alloc_heap_pages_correct M lo hi order memflags d s :
  heap_wf M s → alloc_pre M memflags d s → 0 ≤ lo ≤ hi → hi < NR_ZONES → 0 ≤ order →
  ∃ r s', alloc_heap_pages M lo hi order memflags d s = Ok (r, s') ∧ heap_wf M s' ∧
    match r with
    | Some pg => order ≤ MAX_ORDER ∧ lo ≤ Z.log2 pg ≤ hi ∧ allocated M order d pg s s' ∧
        (has_bits memflags MEMF_exact_node = true → req_node memflags ≠ NUMA_NO_NODE →
         mfn_to_nid M pg = req_node memflags)
    | None => s' = s ∧ (order ≤ MAX_ORDER → ∀ n, searched M memflags n → node_fails s lo hi order n)
    end.
Proof. apply alloc_heap_pages_spec. Qed.

Lemma alloc_heap_pages_correct_witness :
  ∃ r s', alloc_heap_pages demo_machine 1 39 1 0 None demo_heap = Ok (r, s') ∧ heap_wf demo_machine s' ∧
    match r with
    | Some pg => 1 ≤ MAX_ORDER ∧ 1 ≤ Z.log2 pg ≤ 39 ∧ allocated demo_machine 1 None pg demo_heap s' ∧
        (has_bits 0 MEMF_exact_node = true → req_node 0 ≠ NUMA_NO_NODE → mfn_to_nid demo_machine pg = req_node 0)
    | None => s' = demo_heap ∧ (1 ≤ MAX_ORDER → ∀ n, searched demo_machine 0 n → node_fails demo_heap 1 39 1 n)
    end.
Proof.
  apply (alloc_heap_pages_correct demo_machine 1 39 1 0 None demo_heap);
    [exact (proj1 demo_heap_wf)|apply demo_pre; intros i Hi; discriminate Hi|lia|reflexivity|lia].
Defined.

(** C6: Freeing a block. An aligned block of pages in use on a node that has a
    heap goes back to a well-formed heap: no assertion fails, whatever buddies
    it merges with; the free pages grow by exactly the block, the counters
    with them; the pages lose owner and references, are marked for a TLB
    flush at the current time if they had an owner, and are no longer guest
    frames; pages in use elsewhere are untouched. *)
Theorem free_heap_pages_correct M order pg s :
  heap_wf M s → frames_known M (pages s) → freeable M order pg s →
  ∃ s', free_heap_pages M pg order s = Ok s' ∧ heap_wf M s' ∧ freed M order pg s s' ∧
    total_avail_pages s' = total_avail_pages s + 2 ^ order.
Proof.
  intros Hw Hk Hf. destruct (free_heap_pages_spec M order pg s Hw Hk Hf) as (s' & E & Hw' & Hfd).
  exists s'. split_and!; [done..|].
  rewrite (cw_total _ _ _ _ (hw_counts _ _ Hw')), (cw_total _ _ _ _ (hw_counts _ _ Hw)).
  apply (size_range_union _ _ pg (2 ^ order)).
  - apply Z.pow_nonneg. lia.
  - intros x. by rewrite (fr_free_pages _ _ _ _ _ Hfd), elem_of_union, elem_of_block_set.
  - intros x (p & Hp & Hpf)%elem_of_free_pages Hx. destruct (freeable_not_free _ _ _ _ _ Hf Hx) as (q & Hq & ?). congruence.
Qed.

Lemma free_heap_pages_correct_witness :
  ∃ s', free_heap_pages demo_machine 7 0 demo_heap = Ok s' ∧ heap_wf demo_machine s' ∧ freed demo_machine 0 7 demo_heap s' ∧
    total_avail_pages s' = total_avail_pages demo_heap + 2 ^ 0.
Proof.
  apply (free_heap_pages_correct demo_machine 0 7 demo_heap); [exact (proj1 demo_heap_wf)|exact (proj2 demo_heap_wf)|].
  apply page_idle_freeable.
  - split; [lia|]. split; [reflexivity|]. split; [reflexivity|]. exists demo_page. split; [vm_compute; reflexivity|split; [|split]; reflexivity].
  - vm_compute. eexists. reflexivity.
Defined.

(** C1: Histories. From a well-formed heap, after any sequence of allocations,
    frees of blocks handed out and changes by their holders to the page
    structures of these blocks: the heap is well formed; the pages that were
    free at the start are exactly those still free and those handed out, never
    both; blocks handed out never overlap; every legal request and every
    return of a block succeeds without an assertion failing; and once all are
    returned the free pages are those of the start. *)
Theorem heap_history_safe M s0 s used :
  heap_wf M s0 → frames_known M (pages s0) → rtc (heap_step M) (s0, ∅) (s, used) →
  heap_wf M s ∧
  (∀ x, x ∈ free_pages (pages s0) ↔ x ∈ free_pages (pages s) ∨ used_at used x) ∧
  (∀ x, used_at used x → x ∉ free_pages (pages s)) ∧
  (∀ pg k pg' k' x, used !! pg = Some k → used !! pg' = Some k' → in_block k pg x → in_block k' pg' x → pg = pg') ∧
  (∀ lo hi order memflags d, alloc_pre M memflags d s → 0 ≤ lo ≤ hi → hi < NR_ZONES → 0 ≤ order →
     alloc_heap_pages M lo hi order memflags d s ≠ Bug) ∧
  (∀ pg k, used !! pg = Some k → free_heap_pages M pg k s ≠ Bug) ∧
  (used = ∅ → free_pages (pages s) = free_pages (pages s0)).
Proof.
  intros Hw Hk Hsteps.
  assert (history_ok M s0 (s, used)) as Hh.
  { refine (rtc_ind_r (R:=heap_step M) (history_ok M s0) (s0, ∅) _ _ _ Hsteps); [by apply history_start|].
    intros c c' _ Hstep Hc. by apply (history_step M s0 c). }
  pose proof Hh as [Hw' Hk' Hb Hd Hp]. simpl in *. split_and!; try done.
  - intros x. by apply (used_not_free M s0 (s, used)).
  - intros lo hi order memflags d Hpre Hlo Hhi Ho.
    destruct (alloc_heap_pages_spec M lo hi order memflags d s Hw' Hpre Hlo Hhi Ho) as (r & s' & -> & _). done.
  - intros pg k Hu. destruct (free_heap_pages_spec M k pg s Hw' Hk' (Hb _ _ Hu)) as (s' & -> & _). done.
  - intros ->. apply set_eq. intros x. rewrite Hp. split; [auto|]. intros [?|(pg & k & Hu & _)]; [done|]. by rewrite lookup_empty in Hu.
Qed.

Lemma heap_history_safe_witness :
  ∃ s used, rtc (heap_step demo_machine) (demo_heap, ∅) (s, used) ∧ heap_wf demo_machine s ∧
    ∀ pg k, used !! pg = Some k → free_heap_pages demo_machine pg k s ≠ Bug.
Proof.
  assert (alloc_pre demo_machine 0 None demo_heap) as Hpre by (apply demo_pre; intros i Hi; discriminate Hi).
  destruct (alloc_heap_pages_spec demo_machine 1 39 1 0 None demo_heap (proj1 demo_heap_wf) Hpre ltac:(lia) eq_refl ltac:(lia))
    as (r & s' & E & _).
  eexists _, _. assert (rtc (heap_step demo_machine) (demo_heap, ∅) (s', match r with Some pg => <[pg := 1]> ∅ | None => ∅ end)) as Hs.
  { apply rtc_once. refine (step_alloc demo_machine 1 39 1 0 None r demo_heap s' ∅ Hpre _ eq_refl _ E); lia. }
  destruct (heap_history_safe demo_machine demo_heap _ _ (proj1 demo_heap_wf) (proj2 demo_heap_wf) Hs) as (Hw & _ & _ & _ & _ & Hf & _).
  split; [exact Hs|]. split; [exact Hw|exact Hf].
Defined.

(** Populating the heap. Handing the heap a range of [nr] idle pages, on nodes
    that have a heap or all on the first node to be discovered, frees exactly
    these pages, whatever their alignment; the counters grow by [nr]. *)
Theorem init_heap_pages_correct M pg nr s :
  heap_wf M s → frames_known M (pages s) → 0 < nr → (∀ x, pg ≤ x < pg + nr → page_idle M s x) →
  ((∀ x, pg ≤ x < pg + nr → is_Some (avail s !! mfn_to_nid M x)) ∨
   (first_node_initialised s = false ∧ avail s !! mfn_to_nid M pg = None ∧ 0 ≤ mfn_to_nid M pg < MAX_NUMNODES ∧
    ∀ x, pg ≤ x < pg + nr → mfn_to_nid M x = mfn_to_nid M pg)) →
  ∃ s', init_heap_pages M pg nr s = Ok s' ∧ heap_wf M s' ∧ frames_known M (pages s') ∧
    (∀ x, x ∈ free_pages (pages s') ↔ x ∈ free_pages (pages s) ∨ pg ≤ x < pg + nr) ∧
    total_avail_pages s' = total_avail_pages s + nr.
Proof. apply init_heap_pages_spec. Qed.

Lemma init_heap_pages_correct_witness :
  ∃ s', init_heap_pages demo_machine 8 8 demo_boot = Ok s' ∧ heap_wf demo_machine s' ∧ frames_known demo_machine (pages s') ∧
    (∀ x, x ∈ free_pages (pages s') ↔ x ∈ free_pages (pages demo_boot) ∨ 8 ≤ x < 8 + 8) ∧
    total_avail_pages s' = total_avail_pages demo_boot + 8.
Proof.
  apply (init_heap_pages_correct demo_machine 8 8 demo_boot (proj1 demo_boot_wf) (proj2 demo_boot_wf)); [lia|exact demo_idle|].
  right. split; [reflexivity|]. split; [reflexivity|]. split; [vm_compute; split; [discriminate|reflexivity]|reflexivity].
Defined.

(** A node number out of range. [alloc_heap_pages] uses the node that the
    caller's flags name as an index into [avail] without checking it: a
    request naming a node between [MAX_NUMNODES] and 254, a value that the
    memory hypercalls pass on from the guest, reads past the array. *)
Theorem alloc_heap_pages_bad_node M lo hi order memflags s :
  opt_tmem M = false → 0 ≤ lo ≤ hi → hi < NR_ZONES → order ≤ MAX_ORDER →
  MAX_NUMNODES ≤ req_node memflags < NUMA_NO_NODE →
  alloc_heap_pages M lo hi order memflags None s = Bug.
Proof.
  intros Ht Hlo Hhi Ho Hn. unfold alloc_heap_pages, start_node. fold (req_node memflags). cbn [mbind outcome_bind]. cbv zeta.
  destruct (Z.eqb_spec (req_node memflags) NUMA_NO_NODE); [lia|]. cbn [mbind outcome_bind]. unfold BUG_ON at 1 2.
  destruct (Z.ltb_spec hi lo); [lia|]. destruct (Z.leb_spec NR_ZONES hi); [lia|]. destruct (Z.ltb_spec MAX_ORDER order); [lia|].
  rewrite Ht. cbn [andb].
  assert (∃ f, node_fuel = S f) as [f ->] by (by eexists).
  assert (∀ k, try_zones k (req_node memflags) lo order s = Bug) as Hbug.
  { intros k. destruct k; cbn [try_zones]; unfold BUG_ON; (destruct (Z.leb_spec MAX_NUMNODES (req_node memflags)); [done|lia]). }
  cbn [search_nodes]. by rewrite Hbug.
Qed.

Lemma alloc_heap_pages_bad_node_witness :
  alloc_heap_pages demo_machine 1 39 0 (Z.shiftl (100 + 1) _MEMF_node) None demo_heap = Bug.
Proof.
  apply (alloc_heap_pages_bad_node demo_machine 1 39 0 (Z.shiftl (100 + 1) _MEMF_node) demo_heap);
    [reflexivity|lia|reflexivity|vm_compute; discriminate|vm_compute; split; [discriminate|reflexivity]].
Defined.

(** ** Offlining *)

(** Onlining a broken page. For an offlined page that is broken [online_page]
    decides to fail with [-EINVAL], but its last test looks only at the state
    read before, so it still gives the page to [free_heap_pages], whose
    assertion that the page is not offlined fails. *)
Theorem online_page_broken M mfn s p :
  mfn_valid M mfn = true → pages s !! mfn = Some p → has_bits (count_info p) PGC_broken = true →
  page_state_is p PGC_state_offlined = true → online_page M mfn s = Bug.
Proof.
  intros Hv Hp Hb Hst. unfold online_page. rewrite Hv, Hp. cbn [negb deref]. rewrite Hb. cbn [mbind outcome_bind].
  unfold page_state_is in Hst. rewrite Hst. unfold free_heap_pages. rewrite Hp. cbn [deref]. unfold BUG_ON at 1.
  destruct (MAX_ORDER <? 0); [done|]. change (Z.to_nat (Z.shiftl 1 0)) with 1%nat.
  cbn [release_pages]. rewrite Hp. cbn [deref]. unfold page_state_is. by rewrite Hst.
Qed.

(** The state after taking a page of the heap offline as broken. *)
Definition demo_broken : hstate :=
  match offline_page demo_machine 8 true demo_heap with Ok (_, _, s) => s | Bug => demo_heap end.

Lemma online_page_broken_witness : online_page demo_machine 8 demo_broken = Bug.
Proof.
  set (o := pages demo_broken !! 8).
  assert (o = Some (default demo_page o)) as Ho by (vm_compute; reflexivity).
  apply (online_page_broken demo_machine 8 demo_broken (default demo_page o)); [reflexivity|exact Ho|vm_compute; reflexivity..].
Defined.

(** ** Low memory and orders *)

(** The disabled low-memory notice fires. With the option 0, which should keep
    the notice from ever triggering, the threshold becomes [2 ^ 64 - 1]; the
    next check, whatever the amount of memory, then raises it. *)
Theorem low_mem_virq_disabled_fires M s :
  events (check_low_mem_virq M (setup_low_mem_virq 0 s)) = Send_virq_enomem :: events s.
Proof.
  unfold setup_low_mem_virq. rewrite Z.eqb_refl. unfold check_low_mem_virq. cbv zeta.
  cbn [total_avail_pages low_mem_virq_th set_low_mem]. set (a := total_avail_pages s + _).
  pose proof (u64_range a). destruct (Z.leb_spec (u64 a) ULONG_MAX) as [_|Hgt]; [done|unfold ULONG_MAX in Hgt; lia].
Qed.

Lemma order_loop_spec fuel x order :
  0 ≤ x < 2 ^ Z.of_nat fuel → order_loop fuel x order = order + fls x.
Proof.
  revert x order. induction fuel as [|fuel IH]; intros x order Hx.
  { change (2 ^ Z.of_nat 0) with 1 in Hx. assert (x = 0) as -> by lia. unfold fls. simpl. lia. }
  cbn [order_loop]. destruct (Z.eqb_spec x 0) as [->|Hne]; [unfold fls; simpl; lia|].
  pose proof (Z.shiftr_div_pow2 x 1 ltac:(lia)) as Hsh. change (2 ^ 1) with 2 in Hsh. rewrite IH.
  - unfold fls. pose proof (Z.log2_shiftr x 1 ltac:(lia)) as Hl. destruct (Z.leb_spec x 0); [lia|].
    pose proof (Z.log2_nonneg x). destruct (Z.leb_spec (Z.shiftr x 1) 0) as [Hz|Hz].
    + assert (x = 1) as -> by (rewrite Hsh in Hz; pose proof (Z.mul_succ_div_gt x 2); lia). change (Z.log2 1) with 0. lia.
    + destruct (decide (x < 2)); [exfalso; rewrite Hsh, Z.div_small in Hz by lia; lia|].
      pose proof (Z.log2_le_mono 2 x ltac:(lia)) as Hm. change (Z.log2 2) with 1 in Hm. lia.
  - rewrite Hsh. rewrite Nat2Z.inj_succ, Z.pow_succ_r in Hx by lia.
    split; [apply Z.div_pos; lia|]. apply Z.div_lt_upper_bound; lia.
Qed.

(** [get_order_from_pages] gives the least order of a block that holds [nr]
    pages; for 0 pages, where [nr - 1] wraps, it gives 64. *)
Theorem get_order_from_pages_correct nr :
  0 ≤ nr < 2 ^ 64 →
  if nr =? 0 then get_order_from_pages nr = 64
  else 0 ≤ get_order_from_pages nr ≤ 64 ∧ nr ≤ 2 ^ get_order_from_pages nr ∧
    ∀ k, 0 ≤ k → nr ≤ 2 ^ k → get_order_from_pages nr ≤ k.
Proof.
  intros Hnr. unfold get_order_from_pages. pose proof (u64_range (nr - 1)).
  rewrite order_loop_spec by (change (2 ^ Z.of_nat 65) with (2 * 2 ^ 64); lia).
  destruct (Z.eqb_spec nr 0) as [->|Hne]; [reflexivity|]. rewrite u64_small by lia. unfold fls.
  destruct (Z.leb_spec (nr - 1) 0) as [Hz|Hz].
  - simpl. split_and!; [lia..|]. intros; lia.
  - destruct (Z.log2_spec (nr - 1) Hz) as [H1 H2]. pose proof (Z.log2_nonneg (nr - 1)).
    assert (Z.log2 (nr - 1) < 64) by (apply Z.log2_lt_pow2; lia).
    split_and!; [lia..| |].
    + replace (0 + (Z.log2 (nr - 1) + 1)) with (Z.succ (Z.log2 (nr - 1))) by lia. lia.
    + intros k Hk Hle. assert (Z.log2 (nr - 1) < k) by (apply Z.log2_lt_pow2; lia). lia.
Qed.

Lemma get_order_from_pages_correct_witness :
  get_order_from_pages 5 = 3 ∧ 5 ≤ 2 ^ get_order_from_pages 5.
Proof. split; [reflexivity|]. apply (get_order_from_pages_correct 5); split; [discriminate|reflexivity]. Defined.
