(* ===== verification/PageOffline.v ===== *)
(** * Taking a free page offline (xen/common/page_alloc.c: [offline_page])

    What [reserve_offlined_page] makes of a free block whose first page goes
    offline: it regroups the other pages into blocks that are as large as fit,
    whatever their alignment. *)

From S2P Require Import Prelude BootMem PageAlloc PageAllocInv PageAllocOps PageAllocProps.
Local Open Scope xen_scope.

(** The first page of the block of order [j] that the regrouping makes of the
    last [2 ^ (j + 1) - 1] pages of a block that ends before [end_]. *)
Definition rest_block (end_ j : Z) : Z := end_ - 2 ^ (j + 1) + 1.

(** The state after the regrouping: one block of each order below [j]. *)
Fixpoint rest_listed (j : nat) (n z end_ : Z) (s : hstate) : hstate :=
  match j with
  | O => s
  | S i =>
      let h := rest_block end_ (Z.of_nat i) in
      rest_listed i n z end_ (upd_page h (set_v (Z.of_nat i)) (heap_add_tail n z (Z.of_nat i) h s))
  end.

(** ** Which pages are offlined *)

Definition not_offlined (lo hi : Z) (s : hstate) : Prop := ∀ x, lo ≤ x < hi → page_offlined x s = Ok false.

Lemma page_offlined_add x n z k h s :
  page_offlined x (upd_page h (set_v k) (heap_add_tail n z k h s)) = page_offlined x s.
Proof.
  unfold page_offlined. simpl. rewrite lookup_alter. case_decide; [subst|done]. by destruct (pages s !! x).
Qed.

Lemma any_offlined_none k pg s : not_offlined pg (pg + Z.of_nat k) s → any_offlined k pg s = Ok false.
Proof.
  revert pg. induction k as [|k IH]; intros pg Hn; [done|]. cbn [any_offlined]. rewrite (Hn pg) by lia.
  cbn [mbind outcome_bind]. apply IH. intros x Hx. apply Hn. lia.
Qed.

Lemma set_aside_none k n z pg count s :
  not_offlined pg (pg + Z.of_nat k) s → set_aside k n z pg count s = Ok (count, s).
Proof.
  revert pg. induction k as [|k IH]; intros pg Hn; [done|]. cbn [set_aside].
  pose proof (Hn pg ltac:(lia)) as Hp. unfold page_offlined in Hp. destruct (pages s !! pg) as [p|]; [|done].
  cbn [deref] in *. injection Hp as ->. cbn [negb]. apply IH. intros x Hx. apply Hn. lia.
Qed.

(** ** The regrouping *)

(** The inner loop stops at the largest order that fits. *)
Lemma grow_order_rest fuel c i head_order end_ s :
  0 ≤ c ≤ i → i < head_order → (Z.to_nat (i - c) < fuel)%nat → not_offlined (rest_block end_ i) end_ s →
  grow_order fuel (rest_block end_ i) c head_order end_ s = Ok (Some i).
Proof.
  revert c. induction fuel as [|fuel IH]; intros c Hc Hi Hf Hn; [lia|]. cbn [grow_order].
  rewrite (proj2 (Z.leb_gt head_order c)) by lia. rewrite !Z.shiftl_1_l. unfold rest_block at 1.
  pose proof (Z.pow_pos_nonneg 2 c ltac:(lia) ltac:(lia)) as Hp.
  destruct (decide (c = i)) as [->|Hne].
  - destruct (Z.leb_spec end_ (end_ - 2 ^ (i + 1) + 1 + 2 ^ (i + 1))); [done|lia].
  - pose proof (Z.pow_le_mono_r 2 (c + 1) i ltac:(lia) ltac:(lia)) as Hle. rewrite (pow2_S i) by lia.
    rewrite (pow2_S c) in * by lia. assert (2 ≤ 2 ^ i) by lia.
    destruct (Z.leb_spec end_ (end_ - 2 * 2 ^ i + 1 + 2 * 2 ^ c)); [lia|].
    rewrite any_offlined_none.
    + cbn [mbind outcome_bind]. apply IH; try done; lia.
    + intros x Hx. apply Hn. unfold rest_block in *. rewrite pow2_S in * by lia. lia.
Qed.

Lemma not_offlined_add lo hi n z k h s :
  not_offlined lo hi s → not_offlined lo hi (upd_page h (set_v k) (heap_add_tail n z k h s)).
Proof. intros Hn x Hx. rewrite page_offlined_add. by apply Hn. Qed.

Lemma regroup_rest j fuel n z head_order end_ s :
  Z.of_nat j ≤ head_order → (j ≤ fuel)%nat → not_offlined (end_ - 2 ^ Z.of_nat j + 1) end_ s →
  regroup fuel n z (end_ - 2 ^ Z.of_nat j + 1) head_order end_ s = Ok (rest_listed j n z end_ s).
Proof.
  revert fuel s. induction j as [|i IH]; intros fuel s Hj Hf Hn.
  { change (2 ^ Z.of_nat 0) with 1. destruct fuel; cbn [regroup]; destruct (Z.leb_spec end_ (end_ - 1 + 1)); [done|lia|done|lia]. }
  rewrite Nat2Z.inj_succ, <- Z.add_1_r in *. pose proof (pow2_S (Z.of_nat i) ltac:(lia)) as E.
  pose proof (Z.pow_pos_nonneg 2 (Z.of_nat i) ltac:(lia) ltac:(lia)) as Hp.
  destruct fuel as [|fuel]; [lia|]. cbn [regroup]. destruct (Z.leb_spec end_ (end_ - 2 ^ (Z.of_nat i + 1) + 1)); [lia|].
  rewrite Hn by lia. cbn [mbind outcome_bind].
  change (end_ - 2 ^ (Z.of_nat i + 1) + 1) with (rest_block end_ (Z.of_nat i)) in *.
  rewrite grow_order_rest by (done || lia). cbn [mbind outcome_bind rest_listed].
  replace (rest_block end_ (Z.of_nat i) + Z.shiftl 1 (Z.of_nat i)) with (end_ - 2 ^ Z.of_nat i + 1)
    by (rewrite Z.shiftl_1_l; unfold rest_block; lia).
  apply IH; [lia|lia|]. apply not_offlined_add. intros x Hx. apply Hn. unfold rest_block. lia.
Qed.

(** What the regrouping changes: the lists below the order, and the orders kept
    in the pages of the block. *)
Lemma rest_listed_heap j n z end_ s n' z' k :
  heap_list n' z' k (rest_listed j n z end_ s) =
  heap_list n' z' k s ++ (if decide (n' = n ∧ z' = z ∧ 0 ≤ k < Z.of_nat j) then [rest_block end_ k] else []).
Proof.
  revert s. induction j as [|i IH]; intros s; cbn [rest_listed].
  { rewrite decide_False by lia. by rewrite app_nil_r. }
  rewrite IH. unfold heap_list at 1, heap_add_tail, set_list. simpl.
  destruct (decide ((n', z', k) = (n, z, Z.of_nat i))) as [[= -> -> ->]|Hne].
  - rewrite lookup_insert_eq. simpl. rewrite decide_False by lia. rewrite decide_True by lia. by rewrite app_nil_r.
  - rewrite lookup_insert_ne by congruence. fold (heap_list n' z' k s). f_equal.
    destruct (decide (n' = n ∧ z' = z ∧ 0 ≤ k < Z.of_nat i)) as [H1|H1]; [rewrite decide_True by lia; done|].
    rewrite decide_False; [done|]. intros (-> & -> & Hk). apply H1. split; [done|]. split; [done|].
    destruct (decide (k = Z.of_nat i)) as [->|]; [done|lia].
Qed.

Lemma rest_listed_offlined j n z end_ s x : page_offlined x (rest_listed j n z end_ s) = page_offlined x s.
Proof. revert s. induction j as [|i IH]; intros s; [done|]. cbn [rest_listed]. by rewrite IH, page_offlined_add. Qed.

Lemma rest_listed_count j n z end_ s x :
  count_info <$> pages (rest_listed j n z end_ s) !! x = count_info <$> pages s !! x.
Proof.
  revert s. induction j as [|i IH]; intros s; [done|]. cbn [rest_listed]. rewrite IH. simpl.
  rewrite lookup_alter. case_decide as E; [|done]. rewrite <- E. by destruct (pages s !! _).
Qed.

Lemma rest_listed_rest j n z end_ s :
  avail (rest_listed j n z end_ s) = avail s ∧ total_avail_pages (rest_listed j n z end_ s) = total_avail_pages s ∧
  page_offlined_list (rest_listed j n z end_ s) = page_offlined_list s ∧
  page_broken_list (rest_listed j n z end_ s) = page_broken_list s.
Proof.
  revert s. induction j as [|i IH]; intros s; [done|]. cbn [rest_listed].
  destruct (IH (upd_page (rest_block end_ (Z.of_nat i)) (set_v (Z.of_nat i)) (heap_add_tail n z (Z.of_nat i) (rest_block end_ (Z.of_nat i)) s)))
    as (-> & -> & -> & ->). done.
Qed.

(** The blocks after the first page are not aligned. *)
Lemma rest_block_odd pg k j :
  1 ≤ j < k → (2 ^ k | pg) → ¬ (2 ^ j | rest_block (pg + 2 ^ k) j).
Proof.
  intros Hj Hpg Hd%(divide_pow_le 1 j); [|lia]. apply (divide_pow_le 1 k) in Hpg; [|lia]. unfold rest_block in Hd.
  rewrite (pow2_S j) in Hd by lia. replace k with (k - 1 + 1) in Hd by lia. rewrite pow2_S in Hd by lia.
  destruct Hd as [a Ha], Hpg as [b Hb]. change (2 ^ 1) with 2 in *. lia.
Qed.

(** ** Putting the page aside *)

Lemma set_aside_first m n z pg s p a :
  pages s !! pg = Some p → count_info p = PGC_state_offlined → avail_of n z s = Ok a → 0 < total_avail_pages s →
  not_offlined (pg + 1) (pg + 1 + Z.of_nat m) s →
  ∃ s', set_aside (S m) n z pg 0 s = Ok (1, s') ∧ heap s' = heap s ∧
    page_offlined_list s' = page_offlined_list s ++ [pg] ∧ total_avail_pages s' = total_avail_pages s - 1.
Proof.
  intros Hp Hc Ha Ht Hn. cbn [set_aside]. rewrite Hp. cbn [deref].
  assert (page_state_is p PGC_state_offlined = true) as -> by (unfold page_state_is; by rewrite Hc).
  assert (has_bits (count_info p) PGC_broken = false) as -> by (by rewrite Hc).
  cbn [negb]. rewrite Ha. cbn [mbind outcome_bind].
  match goal with |- context [BUG_ON ?b _] => assert (b = false) as -> by (apply Z.ltb_ge; simpl; lia) end.
  cbn [BUG_ON]. rewrite set_aside_none by exact Hn. eexists. split; [done|]. done.
Qed.

Lemma listed_total M s n z k pg : heap_wf M s → pg ∈ heap_list n z k s → 0 < total_avail_pages s.
Proof.
  intros Hw Hin. destruct (listed_heap_list _ _ _ _ _ _ Hw Hin) as (Hf & _). destruct (listed_counts _ _ _ _ _ _ Hw Hin) as (Hk & _).
  rewrite (cw_total _ _ _ _ (hw_counts _ _ Hw)). pose proof (free_block_subset _ _ _ _ _ (hw_blocks _ _ Hw) Hf) as Hs.
  apply subseteq_size in Hs. pose proof (size_block_set k pg ltac:(lia)). pose proof (Z.pow_pos_nonneg 2 k ltac:(lia) ltac:(lia)). lia.
Qed.

(** ** Finding the block *)

Section offline.
Context (M : machine) (s : hstate) (pg k : Z).
Hypothesis Hw : heap_wf M s.
Abbreviation n := (mfn_to_nid M pg).
Abbreviation z := (Z.log2 pg).
Hypothesis Hin : pg ∈ heap_list n z k s.

Lemma block_facts :
  0 ≤ k ≤ MAX_ORDER ∧ 0 < pg ∧ (2 ^ k | pg) ∧ 0 ≤ z < NR_ZONES ∧ is_Some (avail s !! n) ∧
  (∀ x, in_block k pg x → frame_free M (pages s) n x) ∧ ∃ p, pages s !! pg = Some p ∧ PFN_ORDER p = k.
Proof using Hw Hin.
  destruct (listed_counts _ _ _ _ _ _ Hw Hin) as (Hk & Hz & Hav & _). destruct Hw as [Hb _].
  destruct (bw_block _ _ _ _ Hb k pg (or_introl Hin)) as (_ & Hpos & Hal & Hfr).
  destruct (bw_key _ _ _ _ Hb _ _ _ _ Hin) as (_ & _ & Hp). split_and!; try done; lia.
Qed.

(** Only this block of the node and zone has the page. *)
Lemma only_block i h : h ∈ heap_list n z i s → h ≤ pg < h + 2 ^ i → i = k ∧ h = pg.
Proof using Hw Hin.
  intros Hh Hx. destruct (listed_heap_list _ _ _ _ _ _ Hw Hh) as (Hf & _). destruct (listed_heap_list _ _ _ _ _ _ Hw Hin) as (Hf' & _).
  apply (bw_disj _ _ _ _ (hw_blocks _ _ Hw) _ _ _ _ pg Hf Hf'); [done|]. apply in_block_head. apply block_facts.
Qed.

Lemma find_chunk_head m i s1 :
  heap s1 = heap s → 0 ≤ i ≤ k → k < i + Z.of_nat m → find_chunk m n z i pg s1 = Some pg.
Proof using Hw Hin.
  intros Eh. assert (∀ i, heap_list n z i s1 = heap_list n z i s) as El by (intros j; unfold heap_list; by rewrite Eh).
  revert i. induction m as [|m IH]; intros i Hi Hm; [lia|]. cbn [find_chunk]. rewrite El, Z.shiftl_1_l.
  destruct (head (filter (λ h, h ≤ pg < h + 2 ^ i) (heap_list n z i s))) as [h|] eqn:E.
  - apply head_Some_elem_of, list_elem_of_filter in E as [Hx Hh]. destruct (only_block i h Hh Hx) as [_ ->]. done.
  - destruct (decide (i = k)) as [->|Hne]; [|apply IH; lia]. exfalso. apply head_None in E.
    apply (elem_of_nil pg). rewrite <- E. apply list_elem_of_filter. split; [|done].
    pose proof (Z.pow_pos_nonneg 2 k). lia.
Qed.

(** ** The page goes offline *)

(** The state in which the page is marked. *)
Definition marked : hstate := upd_page pg (set_count PGC_state_offlined) s.

Lemma marked_page p : pages s !! pg = Some p → pages marked !! pg = Some (set_count PGC_state_offlined p).
Proof. intros Hp. unfold marked. simpl. by rewrite lookup_alter_eq, Hp. Qed.

Lemma marked_rest : not_offlined (pg + 1) (pg + 2 ^ k) marked.
Proof using Hw Hin.
  intros x Hx. destruct block_facts as (_ & _ & _ & _ & _ & Hfr & _). destruct (Hfr x) as (p & Hp & Hc & _); [unfold in_block; lia|].
  unfold page_offlined, marked. simpl. rewrite lookup_alter_ne by lia. rewrite Hp. simpl. unfold page_state_is. by rewrite Hc.
Qed.

(** What taking the page offline leaves: the block has gone from its list, and
    there is a new block at the end of each list of a lower order. *)
Definition offlined_list (n' z' j : Z) : list Z :=
  (if decide (n' = n ∧ z' = z ∧ j = k) then filter (λ x, x ≠ pg) (heap_list n' z' j s) else heap_list n' z' j s) ++
  (if decide (n' = n ∧ z' = z ∧ 0 ≤ j < k) then [rest_block (pg + 2 ^ k) j] else []).

Lemma reserve_first :
  ∃ s', reserve_offlined_page M pg marked = Ok (1, s') ∧ (∀ n' z' j, heap_list n' z' j s' = offlined_list n' z' j) ∧
    page_offlined_list s' = page_offlined_list s ++ [pg] ∧ total_avail_pages s' = total_avail_pages s - 1.
Proof using Hw Hin.
  destruct block_facts as (Hk & Hpos & Hal & Hz & [l Hav] & Hfr & p & Hp & Ho). pose proof (Z.pow_pos_nonneg 2 k ltac:(lia) ltac:(lia)) as Hpow.
  assert (page_to_zone pg (set_count PGC_state_offlined p) = z) as Ez by (by apply page_to_zone_log2).
  unfold reserve_offlined_page. rewrite (marked_page p Hp). cbn [deref]. rewrite Ez.
  change (PFN_ORDER (set_count PGC_state_offlined p)) with (PFN_ORDER p). rewrite Ho, Z.shiftl_1_l.
  unfold heap_del, list_del. change (heap_list n z k marked) with (heap_list n z k s). rewrite bool_decide_eq_true_2 by done. cbn [mbind outcome_bind].
  set (s1 := set_list n z k (filter (λ x, x ≠ pg) (heap_list n z k s)) marked).
  assert (pages s1 = pages marked) as Ep by done.
  assert (page_offlined pg s1 = Ok true) as Hoff by (unfold page_offlined; rewrite Ep, (marked_page p Hp); done).
  assert (not_offlined (pg + 1) (pg + 2 ^ k) s1) as Hn by (intros x Hx; by apply marked_rest).
  cbn [regroup]. destruct (Z.leb_spec (pg + 2 ^ k) pg); [lia|]. rewrite Hoff. cbn [mbind outcome_bind].
  pose proof (regroup_rest (Z.to_nat k) (Z.to_nat (2 ^ k)) n z k (pg + 2 ^ k) s1) as Hrg. rewrite Z2Nat.id in Hrg by lia.
  replace (pg + 2 ^ k - 2 ^ k + 1) with (pg + 1) in Hrg by lia. pose proof (Z.pow_gt_lin_r 2 k ltac:(lia) ltac:(lia)).
  rewrite Hrg by (done || lia).
  cbn [mbind outcome_bind]. set (s2 := rest_listed (Z.to_nat k) n z (pg + 2 ^ k) s1).
  destruct (rest_listed_rest (Z.to_nat k) n z (pg + 2 ^ k) s1) as (E1 & E2 & E3 & E4). fold s2 in E1, E2, E3, E4.
  destruct (Z.to_nat (2 ^ k)) as [|m] eqn:Em; [lia|].
  pose proof (rest_listed_count (Z.to_nat k) n z (pg + 2 ^ k) s1 pg) as Hc. fold s2 in Hc. rewrite Ep, (marked_page p Hp) in Hc.
  destruct (pages s2 !! pg) as [p2|] eqn:Ep2; [|done]. injection Hc as Hc.
  destruct (set_aside_first m n z pg s2 p2 (zone_pages M n z (free_pages (pages s)))) as (s' & -> & Hh & Hl & Ht); [done|done| | | |].
  { apply (avail_of_counts M _ s2 n z l); [rewrite E1, E2; apply Hw|by rewrite E1|lia]. }
  { rewrite E2. by apply (listed_total _ _ _ _ _ _ Hw Hin). }
  { intros x Hx. unfold s2. rewrite rest_listed_offlined. apply Hn. lia. }
  exists s'. split; [done|]. rewrite Hl, Ht, E2, E3. split; [|done]. intros n' z' j. unfold heap_list at 1. rewrite Hh.
  fold (heap_list n' z' j s2). unfold s2, offlined_list. rewrite rest_listed_heap, Z2Nat.id by lia. f_equal.
  unfold s1, heap_list, set_list. simpl. destruct (decide (n' = n ∧ z' = z ∧ j = k)) as [(-> & -> & ->)|Hne].
  - by rewrite lookup_insert_eq.
  - rewrite lookup_insert_ne; [done|]. intros [= <- <- <-]. by apply Hne.
Qed.

End offline.

(** C40: taking the first page of a free block of order two or more offline
    misaligns the heap. The call succeeds and puts the page aside, but it
    regroups the other pages into one block of each lower order, each behind
    the one before, and all of these from order one up start at an odd page: the
    heap is not well formed any more, so that the tests by which
    [free_heap_pages] finds the buddy of a block are wrong for them. *)
Theorem offline_page_misaligns M s pg k :
  heap_wf M s → pg ∈ heap_list (mfn_to_nid M pg) (Z.log2 pg) k s → 2 ≤ k → is_xen_fixed_mfn M pg = false → ram_conventional M pg = true →
  ∃ s', offline_page M pg false s = Ok (0, Some PG_OFFLINE_OFFLINED, s') ∧
    (∀ n' z' j, heap_list n' z' j s' = offlined_list M s pg k n' z' j) ∧
    page_offlined_list s' = page_offlined_list s ++ [pg] ∧ total_avail_pages s' = total_avail_pages s - 1 ∧
    (∀ j, 1 ≤ j < k → ¬ (2 ^ j | rest_block (pg + 2 ^ k) j)) ∧ ¬ heap_wf M s'.
Proof.
  intros Hw Hin Hk2 Hfx Hram. destruct (block_facts M s pg k Hw Hin) as (Hk & Hpos & Hal & Hz & Hav & Hfr & p & Hp & Ho).
  destruct (Hfr pg (in_block_head k pg ltac:(lia))) as (p' & Hp' & Hc & Hv & _). assert (p' = p) as -> by congruence.
  unfold offline_page. rewrite Hv, Hfx, Hram, Hp. cbn [negb deref].
  assert (has_bits (count_info p) PGC_broken = false) as -> by (by rewrite Hc).
  unfold mark_page_offline. rewrite Hram, Hp. cbn [negb BUG_ON deref]. rewrite Hc.
  match goal with |- context [set_count ?x] => change x with PGC_state_offlined end.
  cbn [mbind outcome_bind]. fold (marked s pg). rewrite (marked_page s pg p Hp). cbn [deref].
  change (page_state_is (set_count PGC_state_offlined p) PGC_state_offlined) with true. cbn iota.
  unfold reserve_heap_page. rewrite (marked_page s pg p Hp). cbn [deref].
  rewrite (page_to_zone_log2 pg (set_count PGC_state_offlined p)) by done.
  rewrite (find_chunk_head M s pg k Hw Hin) by (done || change MAX_ORDER with 18 in *; lia).
  destruct (reserve_first M s pg k Hw Hin) as (s' & -> & Hl & Hol & Ht). cbn [mbind outcome_bind]. exists s'. split; [done|]. split; [done|].
  split; [done|]. split; [done|]. assert (∀ j, 1 ≤ j < k → ¬ (2 ^ j | rest_block (pg + 2 ^ k) j)) as Hodd by (intros j Hj; by apply rest_block_odd).
  split; [done|]. intros Hw'. apply (Hodd 1); [lia|].
  assert (rest_block (pg + 2 ^ k) 1 ∈ heap_list (mfn_to_nid M pg) (Z.log2 pg) 1 s') as Hin'.
  { rewrite Hl. unfold offlined_list. rewrite (decide_True (P := _ ∧ _ ∧ 0 ≤ 1 < k)) by lia. apply elem_of_app. right. by left. }
  destruct (listed_heap_list _ _ _ _ _ _ Hw' Hin') as (Hf & _). by apply (bw_block _ _ _ _ (hw_blocks _ _ Hw') _ _ Hf).
Qed.

(** In the heap of one block of the frames 8 to 15, frame 8 goes offline, which
    leaves the blocks 9 to 12, 13 to 14 and 15; allocating one page then returns
    frame 15, and freeing it again takes frame 14, inside a block, for a block's
    head and removes it from a list that it is not on. *)
Definition demo_offlined : hstate :=
  match offline_page demo_machine 8 false demo_heap with Ok (_, _, s) => s | Bug => demo_heap end.

Definition demo_realloc : hstate :=
  match alloc_heap_pages demo_machine 1 39 0 0 None demo_offlined with Ok (_, s) => s | Bug => demo_heap end.

Lemma demo_offlined_run :
  offline_page demo_machine 8 false demo_heap = Ok (0, Some PG_OFFLINE_OFFLINED, demo_offlined).
Proof. by vm_compute. Qed.

Lemma demo_block : 8 ∈ heap_list (mfn_to_nid demo_machine 8) (Z.log2 8) 3 demo_heap.
Proof. assert (heap_list (mfn_to_nid demo_machine 8) (Z.log2 8) 3 demo_heap = [8]) as -> by by vm_compute. by left. Qed.

Lemma Ok_state_inj {A} (a : Z) (b : option Z) (x y : A) : Ok (a, b, x) = Ok (a, b, y) → x = y.
Proof. by intros [= ->]. Qed.

Lemma offline_page_misaligns_witness :
  offline_page demo_machine 8 false demo_heap = Ok (0, Some PG_OFFLINE_OFFLINED, demo_offlined) ∧
  ¬ heap_wf demo_machine demo_offlined ∧
  alloc_heap_pages demo_machine 1 39 0 0 None demo_offlined = Ok (Some 15, demo_realloc) ∧
  free_heap_pages demo_machine 15 0 demo_realloc = Bug.
Proof.
  split; [exact demo_offlined_run|]. split; [|split; by vm_compute].
  destruct (offline_page_misaligns demo_machine demo_heap 8 3 (proj1 demo_heap_wf) demo_block) as (s' & E & _ & _ & _ & _ & Hn);
    [lia|reflexivity|reflexivity|].
  rewrite (Ok_state_inj _ _ _ _ (eq_trans (eq_sym demo_offlined_run) E)). exact Hn.
Defined.
