(* ===== verification/PageDomheap.v ===== *)
(** * The domain heap

    What [alloc_domheap_pages] and [free_domheap_pages] do to the heap and to
    the accounts of the domain, failures included, and that freeing undoes an
    allocation. *)

From S2P Require Import Prelude BootMem PageAlloc PageAllocInv PageAllocOps PageAllocProps.
Local Open Scope xen_scope.

(** ** Assigning pages *)

Definition owned_by (d : Z) (p : page_info) : page_info :=
  set_count (Z.lor PGC_allocated 1) (page_set_owner (Some d) p).
Definition add_pages (l : list Z) (D : pdomain) : pdomain :=
  set_acct (tot_pages D) (xenheap_pages D) (pd_refcnt D) (page_list D ++ l) (xenpage_list D) (relmem_list D) D.
Definition charge (size : Z) (D : pdomain) : pdomain :=
  set_acct (u32 (tot_pages D + size)) (xenheap_pages D) (if tot_pages D =? 0 then pd_refcnt D + 1 else pd_refcnt D)
    (page_list D) (xenpage_list D) (relmem_list D) D.

Lemma add_pages_app l l' D : add_pages l' (add_pages l D) = add_pages (l ++ l') D.
Proof. unfold add_pages, set_acct. simpl. by rewrite app_assoc. Qed.

Lemma add_pages_nil D : add_pages [] D = D.
Proof. unfold add_pages, set_acct. rewrite app_nil_r. by destruct D. Qed.

Lemma assign_loop_spec k d pg s :
  (∀ x, pg ≤ x < pg + Z.of_nat k → ∃ p, pages s !! x = Some p ∧ page_get_owner p = None ∧
     Z.ldiff (count_info p) (Z.lor PGC_allocated 1) = 0) →
  ∃ P', assign_loop k d pg s =
      Ok (set_pdoms (λ _, alter (add_pages (seqZ pg (Z.of_nat k))) d (pdoms s)) (set_pages (λ _, P') s)) ∧
    ∀ x, P' !! x = if decide (pg ≤ x < pg + Z.of_nat k) then owned_by d <$> pages s !! x else pages s !! x.
Proof.
  revert pg s. induction k as [|k IH]; intros pg s Hp.
  { exists (pages s). simpl. split; [|intros x; by rewrite decide_False by lia].
    rewrite seqZ_nil by lia. replace (alter (add_pages []) d (pdoms s)) with (pdoms s); [by destruct s|].
    apply map_eq. intros i. rewrite lookup_alter. case_decide; [subst|done].
    destruct (pdoms s !! i); simpl; [by rewrite add_pages_nil|done]. }
  destruct (Hp pg) as (p & Hpg & Ho & Hc); [lia|]. cbn [assign_loop]. rewrite Hpg. cbn [deref]. unfold BUG_ON.
  rewrite bool_decide_eq_false_2 by (rewrite Ho; by intros []). rewrite Hc. cbn [negb Z.eqb]. set (s1 := set_pdoms _ _).
  assert (∀ x, pages s1 !! x = if decide (x = pg) then owned_by d <$> pages s !! x else pages s !! x) as Hs1.
  { intros x. unfold s1, upd_page. simpl. rewrite lookup_alter. case_decide; case_decide; subst; done. }
  destruct (IH (pg + 1) s1) as (P' & E & HP).
  { intros x Hx. rewrite Hs1, decide_False by lia. apply Hp. lia. }
  exists P'. split.
  - etrans; [exact E|]. unfold s1. f_equal. unfold set_pdoms, set_pages. simpl. f_equal.
    rewrite (seqZ_cons pg) by lia. replace (Z.pred (Z.of_nat (S k))) with (Z.of_nat k) by lia.
    replace (Z.succ pg) with (pg + 1) by lia. change (pg :: seqZ (pg + 1) (Z.of_nat k)) with ([pg] ++ seqZ (pg + 1) (Z.of_nat k)).
    apply map_eq. intros i. destruct (decide (i = d)) as [->|]; [|by rewrite !lookup_alter_ne].
    rewrite !lookup_alter_eq. destruct (pdoms s !! d) as [D|]; [|done].
    simpl. f_equal. change (set_acct _ _ _ _ _ _ D) with (add_pages [pg] D). apply add_pages_app.
  - intros x. rewrite HP, Hs1. repeat case_decide; try done; lia.
Qed.

(** May the domain have [2 ^ order] more pages? *)
Definition may_assign (D : pdomain) (order memflags : Z) : bool :=
  negb (pd_is_dying D) && (has_bits memflags MEMF_no_refcount || (tot_pages D + 2 ^ order <=? max_pages D)).
Definition account (order memflags pg : Z) (D : pdomain) : pdomain :=
  add_pages (seqZ pg (2 ^ order)) (if has_bits memflags MEMF_no_refcount then D else charge (2 ^ order) D).

Lemma assign_pages_spec d D order memflags pg s :
  0 ≤ order → pdoms s !! d = Some D → 0 ≤ tot_pages D → tot_pages D + 2 ^ order < 2 ^ 32 →
  (∀ x, in_block order pg x → ∃ p, pages s !! x = Some p ∧ page_get_owner p = None ∧
     Z.ldiff (count_info p) (Z.lor PGC_allocated 1) = 0) →
  if may_assign D order memflags then
    ∃ P', assign_pages d pg order memflags s =
        Ok (0, set_pdoms (λ _, <[d := account order memflags pg D]> (pdoms s)) (set_pages (λ _, P') s)) ∧
      ∀ x, P' !! x = if decide (in_block order pg x) then owned_by d <$> pages s !! x else pages s !! x
  else assign_pages d pg order memflags s = Ok (-1, s).
Proof.
  intros Ho HD Ht Hov Hp. unfold assign_pages, may_assign. rewrite HD. cbn [deref]. rewrite Z.shiftl_1_l.
  pose proof (Z.pow_pos_nonneg 2 order ltac:(lia) Ho) as Hpow. rewrite u32_small by lia.
  destruct (pd_is_dying D); [done|]. cbn [negb andb].
  set (nr := has_bits memflags MEMF_no_refcount).
  assert (∀ s1, pages s1 = pages s → pdoms s1 !! d = Some (if nr then D else charge (2 ^ order) D) →
    (∀ f, set_pdoms (λ _, alter f d (pdoms s1)) s1 = set_pdoms (λ _, <[d := f (if nr then D else charge (2 ^ order) D)]> (pdoms s)) s) →
    ∃ P', (let! s2 := assign_loop (Z.to_nat (2 ^ order)) d pg s1 in Ok (0, s2)) =
        Ok (0, set_pdoms (λ _, <[d := account order memflags pg D]> (pdoms s)) (set_pages (λ _, P') s)) ∧
      ∀ x, P' !! x = if decide (in_block order pg x) then owned_by d <$> pages s !! x else pages s !! x) as Hgo.
  { intros s1 Hps Hd1 Heq. destruct (assign_loop_spec (Z.to_nat (2 ^ order)) d pg s1) as (P' & E & HP).
    { rewrite Z2Nat.id, Hps by lia. exact Hp. }
    rewrite Z2Nat.id, Hps in HP by lia. rewrite Z2Nat.id in E by lia. exists P'. split; [|exact HP].
    rewrite E. cbn [mbind outcome_bind]. do 2 f_equal. specialize (Heq (add_pages (seqZ pg (2 ^ order)))).
    apply (f_equal (set_pages (λ _, P'))) in Heq. exact Heq. }
  destruct nr eqn:En; unfold nr in En; rewrite ?En; cbn [negb andb orb].
  - apply Hgo; [done|done|]. intros f. unfold set_pdoms. f_equal. apply map_eq. intros i.
    destruct (decide (i = d)) as [->|]; [|by rewrite lookup_alter_ne, lookup_insert_ne].
    by rewrite lookup_alter_eq, HD, lookup_insert_eq.
  - destruct (Z.ltb_spec (max_pages D) (tot_pages D + 2 ^ order)), (Z.leb_spec (tot_pages D + 2 ^ order) (max_pages D)); try lia; [done|].
    apply Hgo; [done| |].
    + cbn [pdoms set_pdoms]. by rewrite lookup_alter_eq, HD.
    + intros f. unfold set_pdoms. simpl. f_equal. apply map_eq. intros i.
      destruct (decide (i = d)) as [->|]; [|by rewrite !lookup_alter_ne, lookup_insert_ne].
      by rewrite !lookup_alter_eq, HD, lookup_insert_eq.
Qed.

(** ** Allocating *)

(** The two searches: above the DMA zone first, then everywhere unless the
    caller excludes DMA memory. *)
Lemma domheap_search M d order memflags hi s :
  heap_wf M s → alloc_pre M memflags d s → 0 ≤ order → 1 ≤ hi < NR_ZONES →
  ∃ r s2, search_domheap M d hi order memflags s = Ok (r, s2) ∧ heap_wf M s2 ∧
    match r with
    | Some pg => order ≤ MAX_ORDER ∧ Z.log2 pg < NR_ZONES ∧ allocated M order d pg s s2
    | None => s2 = s
    end.
Proof.
  intros Hw Hp Ho Hhi. unfold search_domheap. cbv zeta.
  assert (∀ lo, 0 ≤ lo ≤ hi → ∃ r s2, alloc_heap_pages M lo hi order memflags d s = Ok (r, s2) ∧ heap_wf M s2 ∧
    match r with
    | Some pg => order ≤ MAX_ORDER ∧ Z.log2 pg < NR_ZONES ∧ allocated M order d pg s s2
    | None => s2 = s end) as Hall.
  { intros lo Hlo. destruct (alloc_heap_pages_spec M lo hi order memflags d s Hw Hp Hlo ltac:(lia) Ho) as (r & s2 & -> & Hw2 & Hr).
    exists r, s2. split_and!; [done..|]. destruct r; [|by destruct Hr]. destruct Hr as (? & ? & ? & _). split_and!; [done|lia|done]. }
  assert (0 ≤ bits_to_zone (dma_bitsize s)) as Hz by (unfold bits_to_zone, PAGE_SHIFT; case_match eqn:E; b2p; lia).
  assert (∃ r s2, (if has_bits memflags MEMF_no_dma then Ok (None, s)
               else alloc_heap_pages M (MEMZONE_XEN + 1) hi order memflags d s) = Ok (r, s2) ∧ heap_wf M s2 ∧
    match r with
    | Some pg => order ≤ MAX_ORDER ∧ Z.log2 pg < NR_ZONES ∧ allocated M order d pg s s2
    | None => s2 = s end) as Hsecond.
  { destruct (has_bits memflags MEMF_no_dma); [by exists None, s|]. apply Hall. unfold MEMZONE_XEN. lia. }
  destruct (negb (dma_bitsize s =? 0) && (bits_to_zone (dma_bitsize s) <? hi)) eqn:Edma; [|exact Hsecond].
  apply andb_true_iff in Edma as [_ Hlt%Z.ltb_lt].
  destruct (Hall (bits_to_zone (dma_bitsize s) + 1)) as (r & s1 & -> & Hw1 & Hr); [lia|].
  destruct r as [pg|]; [by exists (Some pg), s1|]. subst s1. exact Hsecond.
Qed.

Record domheap_allocated (M : machine) (d : Z) (D : pdomain) (order memflags pg : Z) (s s' : hstate) : Prop := {
  da_aligned : 0 < pg ∧ (2 ^ order | pg);
  da_free x : in_block order pg x → frame_free M (pages s) (mfn_to_nid M pg) x;
  da_page x : in_block order pg x → ∃ p, pages s !! x = Some p ∧ pages s' !! x = Some (owned_by d (claimed p));
  da_other x p : pages s !! x = Some p → page_state_is p PGC_state_free = false → pages s' !! x = Some p;
  da_free_pages : free_pages (pages s') = free_pages (pages s) ∖ block_set order pg;
  da_dom : pdoms s' = <[d := account order memflags pg (set_last_alloc_node (mfn_to_nid M pg) D)]> (pdoms s);
  da_allowed : may_assign D order memflags = true;
  da_order : 0 ≤ order ≤ MAX_ORDER;
  da_zone : Z.log2 pg < NR_ZONES;
  da_node : is_Some (avail s' !! mfn_to_nid M pg);
}.

(** The request failed: the heap has the free pages it had. *)
Record domheap_failed (d : Z) (s s' : hstate) : Prop := {
  df_free_pages : free_pages (pages s') = free_pages (pages s);
  df_other x p : pages s !! x = Some p → page_state_is p PGC_state_free = false → pages s' !! x = Some p;
  df_dom : pdoms s' = pdoms s ∨ ∃ n, pdoms s' = alter (set_last_alloc_node n) d (pdoms s);
}.

Lemma owned_not_free d p : page_state_is (owned_by d p) PGC_state_free = false.
Proof. done. Qed.

(** A block just allocated is assigned to the domain. *)
Lemma domheap_assigned M d D order memflags pg s s2 P' :
  heap_wf M s → heap_wf M s2 → frames_known M (pages s2) → allocated M order (Some d) pg s s2 → pdoms s !! d = Some D →
  0 ≤ order ≤ MAX_ORDER → Z.log2 pg < NR_ZONES → may_assign D order memflags = true →
  (∀ x, P' !! x = if decide (in_block order pg x) then owned_by d <$> pages s2 !! x else pages s2 !! x) →
  let s' := set_pdoms (λ _, <[d := account order memflags pg (set_last_alloc_node (mfn_to_nid M pg) D)]> (pdoms s2))
              (set_pages (λ _, P') s2) in
  heap_wf M s' ∧ frames_known M (pages s') ∧ domheap_allocated M d D order memflags pg s s'.
Proof.
  intros Hw Hw2 Hk Ha HD Ho Hz Hmay HP s'.
  assert (same_free (pages s2) P') as Hsame.
  { intros x p Hf. rewrite HP. case_decide as Hx; [|done]. rewrite (al_page _ _ _ _ _ _ Ha x Hx).
    destruct (pages s !! x) as [q|]; [|done]. simpl. split; intros [= <-]; done. }
  split_and!.
  - by apply (heap_wf_ext M s2).
  - intros x Hx. simpl. rewrite HP. destruct (Hk x Hx) as [p ->]. case_decide; by eexists.
  - split; try done; simpl.
    + apply (al_aligned _ _ _ _ _ _ Ha).
    + apply (al_free _ _ _ _ _ _ Ha).
    + intros x Hx. destruct (al_free _ _ _ _ _ _ Ha x Hx) as (p & Hp & _). exists p. split; [done|].
      by rewrite HP, decide_True, (al_page _ _ _ _ _ _ Ha x Hx), Hp.
    + intros x p Hp Hnf. assert (¬ in_block order pg x) as Hx.
      { intros Hx. destruct (al_free _ _ _ _ _ _ Ha x Hx) as (q & Hq & Hc & _). rewrite Hp in Hq. injection Hq as <-.
        unfold page_state_is in Hnf. by rewrite Hc in Hnf. }
      rewrite HP, decide_False by done. rewrite <- Hp. apply (relist_page_used _ _ p); [by apply (al_other _ _ _ _ _ _ Ha)|done|done].
    + rewrite (same_free_pages _ _ Hsame). apply (al_free_pages _ _ _ _ _ _ Ha).
    + rewrite (al_pdoms _ _ _ _ _ _ Ha). unfold note_node. apply map_eq. intros i.
      destruct (decide (i = d)) as [->|]; [by rewrite !lookup_insert_eq|]. by rewrite !lookup_insert_ne, lookup_alter_ne.
    + apply (fb_node _ _ _ _ (allocated_freeable _ _ _ _ _ _ Hw Ho Hz Ha)).
Qed.

(** A block that could not be assigned goes back. *)
Lemma domheap_returned M d order pg s s2 s3 :
  allocated M order (Some d) pg s s2 → freed M order pg s2 s3 → domheap_failed d s s3.
Proof.
  intros Ha Hf.
  assert (∀ x p, pages s !! x = Some p → page_state_is p PGC_state_free = false → ¬ in_block order pg x) as Hout.
  { intros x p Hp Hnf Hx. destruct (al_free _ _ _ _ _ _ Ha x Hx) as (q & Hq & Hc & _). rewrite Hp in Hq. injection Hq as <-.
    unfold page_state_is in Hnf. by rewrite Hc in Hnf. }
  split.
  - rewrite (fr_free_pages _ _ _ _ _ Hf), (al_free_pages _ _ _ _ _ _ Ha).
    assert (block_set order pg ⊆ free_pages (pages s)) as Hsub.
    { intros x Hx%elem_of_block_set. destruct (al_free _ _ _ _ _ _ Ha x Hx) as (p & Hp & Hc & _).
      apply elem_of_free_pages. exists p. unfold page_state_is. by rewrite Hc. }
    by rewrite difference_union_L, union_comm_L, subseteq_union_1_L.
  - intros x p Hp Hnf. pose proof (Hout x p Hp Hnf) as Hx.
    assert (pages s2 !! x = Some p) as Hp2.
    { rewrite <- Hp. apply (relist_page_used _ _ p); [by apply (al_other _ _ _ _ _ _ Ha)|done|done]. }
    rewrite <- Hp2. apply (relist_page_used _ _ p); [by apply (fr_other _ _ _ _ _ Hf)|done|done].
  - right. exists (mfn_to_nid M pg). by rewrite (fr_pdoms _ _ _ _ _ Hf), (al_pdoms _ _ _ _ _ _ Ha).
Qed.

(** What [alloc_domheap_pages] relies on. *)
Record domheap_pre (M : machine) (d : Z) (D : pdomain) (order memflags : Z) (s : hstate) : Prop := {
  dp_wf : heap_wf M s;
  dp_known : frames_known M (pages s);
  dp_alloc : alloc_pre M memflags (Some d) s;
  dp_dom : pdoms s !! d = Some D;
  dp_order : 0 ≤ order;
  dp_tot : 0 ≤ tot_pages D;
  dp_nowrap : tot_pages D + 2 ^ order < 2 ^ 32;
}.

Lemma claimed_assignable p :
  page_get_owner (claimed p) = None ∧ Z.ldiff (count_info (claimed p)) (Z.lor PGC_allocated 1) = 0.
Proof. done. Qed.

Lemma alloc_domheap_pages_spec M d D order memflags s :
  domheap_pre M d D order memflags s →
  ∃ r s', alloc_domheap_pages M (Some d) order memflags s = Ok (r, s') ∧ heap_wf M s' ∧ frames_known M (pages s') ∧
    match r with
    | Some pg => domheap_allocated M d D order memflags pg s s'
    | None => domheap_failed d s s'
    end.
Proof.
  intros [Hw Hk Hp HD Ho Ht Hov]. unfold alloc_domheap_pages. rewrite HD. cbn [deref mbind outcome_bind]. cbv zeta.
  set (bits := domain_clamp_alloc_bitsize _ _). set (hi := Z.min (bits_to_zone bits) (NR_ZONES - 1)).
  assert (0 ≤ hi < NR_ZONES) as Hhi.
  { unfold hi, NR_ZONES. assert (0 ≤ bits_to_zone bits) by (unfold bits_to_zone, PAGE_SHIFT; case_match eqn:E; b2p; lia). lia. }
  assert (domheap_failed d s s) as Hsame by (split; [done|done|by left]).
  destruct (Z.eqb_spec hi 0) as [E|Hne]; [by exists None, s|].
  destruct (domheap_search M (Some d) order memflags hi s Hw Hp Ho ltac:(lia)) as (r & s2 & E & Hw2 & Hr).
  rewrite E. cbn [mbind outcome_bind]. destruct r as [pg|]; [|subst s2; by exists None, s].
  destruct Hr as (Hmax & Hz & Ha). pose proof (allocated_known _ _ _ _ _ _ Hk Ha) as Hk2.
  assert (pdoms s2 !! d = Some (set_last_alloc_node (mfn_to_nid M pg) D)) as HD2.
  { rewrite (al_pdoms _ _ _ _ _ _ Ha). unfold note_node. by rewrite lookup_alter_eq, HD. }
  pose proof (assign_pages_spec d _ order memflags pg s2 Ho HD2 Ht Hov) as Hassign.
  change (may_assign (set_last_alloc_node _ D) order memflags) with (may_assign D order memflags) in Hassign.
  destruct (may_assign D order memflags) eqn:Emay.
  - destruct Hassign as (P' & -> & HP).
    { intros x Hx. destruct (al_free _ _ _ _ _ _ Ha x Hx) as (p & Hpx & _). exists (claimed p).
      rewrite (al_page _ _ _ _ _ _ Ha x Hx), Hpx. split; [done|apply claimed_assignable]. }
    eexists (Some pg), _. split; [reflexivity|]. by apply domheap_assigned.
  - rewrite Hassign.
    2: { intros x Hx. destruct (al_free _ _ _ _ _ _ Ha x Hx) as (p & Hpx & _). exists (claimed p).
      rewrite (al_page _ _ _ _ _ _ Ha x Hx), Hpx. split; [done|apply claimed_assignable]. }
    cbn [mbind outcome_bind Z.eqb].
    destruct (free_heap_pages_spec M order pg s2 Hw2 Hk2) as (s3 & -> & Hw3 & Hf); [by apply (allocated_freeable M order (Some d) pg s)|].
    exists None, s3. split_and!; [done|done|by apply (freed_known M order pg s2)|]. by apply (domheap_returned M d order pg s s2 s3).
Qed.

(** ** Freeing *)

Definition without (k pg : Z) (l : list Z) : list Z := filter (λ x, ¬ (pg ≤ x < pg + k)) l.
Definition drop_pages (k pg : Z) (D : pdomain) : pdomain :=
  set_acct (tot_pages D) (xenheap_pages D) (pd_refcnt D) (without k pg (page_list D)) (xenpage_list D) (relmem_list D) D.

Lemma without_id k pg l : (∀ x, x ∈ l → ¬ (pg ≤ x < pg + k)) → without k pg l = l.
Proof.
  unfold without. induction l as [|x l IH]; intros Hl; [done|].
  rewrite filter_cons_True by (apply Hl; by left). f_equal. apply IH. intros y Hy. apply Hl. by right.
Qed.

Lemma without_all k pg l : (∀ x, x ∈ l → pg ≤ x < pg + k) → without k pg l = [].
Proof.
  unfold without. induction l as [|x l IH]; intros Hl; [done|].
  rewrite filter_cons_False by (pose proof (Hl x ltac:(by left)); lia). apply IH. intros y Hy. apply Hl. by right.
Qed.

Lemma unlist_pages_spec k d pg D s :
  pdoms s !! d = Some D →
  (∀ x, pg ≤ x < pg + Z.of_nat k → x ∈ page_list D ∧
     ∃ p, pages s !! x = Some p ∧ Z.land (p_u p) PGT_count_mask = 0) →
  unlist_pages k d pg s = Ok (set_pdoms (<[d := drop_pages (Z.of_nat k) pg D]>) s).
Proof.
  revert pg s D. induction k as [|k IH]; intros pg s D HD Hp.
  { simpl. f_equal. unfold drop_pages. rewrite without_id by (intros; lia). unfold set_acct, set_pdoms. destruct D, s. simpl in *. f_equal. by rewrite insert_id. }
  destruct (Hp pg) as (Hin & p & Hpg & Hty); [lia|]. cbn [unlist_pages]. rewrite Hpg. cbn [deref]. unfold BUG_ON.
  rewrite Hty. cbn [Z.eqb negb]. rewrite HD. cbn [deref]. unfold list_del2. rewrite bool_decide_eq_true_2 by done.
  cbn [mbind outcome_bind]. set (D1 := set_acct _ _ _ _ _ _ D).
  rewrite (IH (pg + 1) _ D1).
  - f_equal. unfold set_pdoms. simpl. f_equal. rewrite insert_insert_eq. f_equal. unfold drop_pages, D1, set_acct. simpl. f_equal.
    unfold without. rewrite list_filter_filter. apply filter_ext_in. intros x _. lia.
  - simpl. by rewrite lookup_insert_eq.
  - intros x Hx. destruct (Hp x) as (Hinx & q & Hq & Htq); [lia|]. split; [|by exists q].
    simpl. apply list_elem_of_filter. split; [lia|done].
Qed.

Lemma scrub_pages_shape k pg s :
  ∃ ev, scrub_pages k pg s = with_notes (low_mem_virq_high s) (low_mem_virq_th s) (low_mem_virq_orig s)
          (low_mem_virq_th_order s) (ev ++ events s) s ∧
    ∀ x, pg ≤ x < pg + Z.of_nat k → Scrub_one_page x ∈ ev.
Proof.
  revert pg s. induction k as [|k IH]; intros pg s.
  { exists []. split; [by destruct s|]. intros; lia. }
  destruct (IH (pg + 1) (emit (Scrub_one_page pg) s)) as (ev & E & Hev). exists (ev ++ [Scrub_one_page pg]). split.
  - cbn [scrub_pages]. rewrite E. unfold with_notes. simpl. by rewrite <- app_assoc.
  - intros x Hx. apply elem_of_app. destruct (decide (x = pg)) as [->|]; [right; by left|left; apply Hev; lia].
Qed.

Lemma dying_scrub k pg D s :
  ∃ ev, (if pd_is_dying D then scrub_pages k pg s else s) =
      with_notes (low_mem_virq_high s) (low_mem_virq_th s) (low_mem_virq_orig s) (low_mem_virq_th_order s) (ev ++ events s) s ∧
    (pd_is_dying D = true → ∀ x, pg ≤ x < pg + Z.of_nat k → Scrub_one_page x ∈ ev).
Proof.
  destruct (pd_is_dying D); [|exists []; split; [by destruct s|done]].
  destruct (scrub_pages_shape k pg s) as (ev & -> & Hev). by exists ev.
Qed.

(** A block of the domain's pages that may be freed. *)
Record dom_block (M : machine) (d : Z) (D : pdomain) (order pg : Z) (s : hstate) : Prop := {
  db_freeable : freeable M order pg s;
  db_dom : pdoms s !! d = Some D;
  db_id : d ≠ 0 ∧ d ≠ dom_cow M;
  db_page x : in_block order pg x → x ∈ page_list D ∧
    ∃ p, pages s !! x = Some p ∧ page_get_owner p = Some d ∧ Z.land (p_u p) PGT_count_mask = 0;
  db_tot : 2 ^ order ≤ tot_pages D < 2 ^ 32;
}.

Definition uncharge (order pg : Z) (D : pdomain) : pdomain :=
  set_acct (tot_pages D - 2 ^ order) (xenheap_pages D)
    (if tot_pages D =? 2 ^ order then pd_refcnt D - 1 else pd_refcnt D)
    (without (2 ^ order) pg (page_list D)) (xenpage_list D) (relmem_list D) D.

Record domheap_freed (d : Z) (D : pdomain) (order pg : Z) (s s' : hstate) : Prop := {
  hf_free_pages : free_pages (pages s') = free_pages (pages s) ∪ block_set order pg;
  hf_other x p : ¬ in_block order pg x → pages s !! x = Some p → page_state_is p PGC_state_free = false →
    pages s' !! x = Some p;
  hf_dom : pdoms s' = <[d := uncharge order pg D]> (pdoms s);
  hf_scrub x : pd_is_dying D = true → in_block order pg x → Scrub_one_page x ∈ events s';
  hf_destroy : tot_pages D = 2 ^ order → pd_refcnt D = 1 → Pdomain_destroy d ∈ events s';
}.

(** Dropping the reference that the pages held. *)
Lemma domheap_put M d D order pg s s4 :
  heap_wf M s4 → frames_known M (pages s4) → free_pages (pages s4) = free_pages (pages s) ∪ block_set order pg →
  (∀ x p, ¬ in_block order pg x → pages s !! x = Some p → page_state_is p PGC_state_free = false → pages s4 !! x = Some p) →
  (∀ x, pd_is_dying D = true → in_block order pg x → Scrub_one_page x ∈ events s4) →
  pdoms s4 = <[d := set_acct (tot_pages D - 2 ^ order) (xenheap_pages D) (pd_refcnt D)
      (without (2 ^ order) pg (page_list D)) (xenpage_list D) (relmem_list D) D]> (pdoms s) →
  ∃ s', (if tot_pages D - 2 ^ order =? 0 then put_pdomain d s4 else Ok s4) = Ok s' ∧
    heap_wf M s' ∧ frames_known M (pages s') ∧ domheap_freed d D order pg s s'.
Proof.
  intros Hw Hk HF Hoth Hscr Hpd.
  destruct (Z.eqb_spec (tot_pages D - 2 ^ order) 0) as [E0|E0].
  - unfold put_pdomain. rewrite Hpd, lookup_insert_eq. cbn [deref]. cbv zeta. cbn [pd_refcnt set_acct].
    eexists. split; [done|]. destruct (Z.eqb_spec (pd_refcnt D - 1) 0) as [E1|E1].
    all: split; [by apply (heap_wf_ext M s4)|split; [done|]]; split; simpl; try done.
    all: try (rewrite Hpd, insert_insert_eq; f_equal; unfold uncharge, set_acct; simpl; f_equal; case_Z; lia).
    + intros x Hdy Hx. right. by apply Hscr.
    + intros _ _. by left.
    + intros _ ?. lia.
  - exists s4. split_and!; [done..|]. split; try done; [|intros; lia]. rewrite Hpd. f_equal. unfold uncharge.
    destruct (Z.eqb_spec (tot_pages D) (2 ^ order)); [lia|done].
Qed.

Lemma free_domheap_pages_spec M d D order pg s :
  heap_wf M s → frames_known M (pages s) → dom_block M d D order pg s →
  ∃ s', free_domheap_pages M pg order s = Ok s' ∧ heap_wf M s' ∧ frames_known M (pages s') ∧ domheap_freed d D order pg s s'.
Proof.
  intros Hw Hk [Hf HD [Hd0 Hcow] Hpg Htot]. pose proof (fb_order _ _ _ _ Hf) as Ho.
  pose proof (Z.pow_pos_nonneg 2 order ltac:(lia) ltac:(lia)) as Hpow.
  destruct (Hpg pg) as (_ & p & Hp & Hown & _); [apply in_block_head; lia|].
  destruct (fb_page _ _ _ _ Hf pg) as (p' & Hp' & _ & _ & Hxen & _); [apply in_block_head; lia|].
  rewrite Hp in Hp'. injection Hp' as <-. unfold free_domheap_pages. rewrite Hp. cbn [deref]. rewrite Hxen, Hown, Z.shiftl_1_l. cbv zeta.
  rewrite (proj2 (Z.eqb_neq d (dom_cow M)) Hcow).
  rewrite (unlist_pages_spec (Z.to_nat (2 ^ order)) d pg D s HD); rewrite Z2Nat.id by lia.
  2: { intros x Hx. destruct (Hpg x Hx) as (? & q & ? & _ & ?). split; [done|by exists q]. }
  cbn [mbind outcome_bind]. cbn [pdoms set_pdoms]. rewrite lookup_insert_eq. cbn [deref tot_pages drop_pages set_acct].
  rewrite u32_small by lia. set (s2 := set_pdoms (<[d := _]>) _).
  set (s3 := if pd_is_dying _ then _ else _). change (pd_is_dying _) with (pd_is_dying D) in s3.
  destruct (dying_scrub (Z.to_nat (2 ^ order)) pg D s2) as (ev & Es3 & Hev). fold s3 in Es3. rewrite Z2Nat.id in Hev by lia.
  assert (pages s3 = pages s ∧ heap s3 = heap s ∧ avail s3 = avail s ∧ total_avail_pages s3 = total_avail_pages s ∧
    pdoms s3 = <[d := set_acct (tot_pages D - 2 ^ order) (xenheap_pages D) (pd_refcnt D)
      (without (2 ^ order) pg (page_list D)) (xenpage_list D) (relmem_list D) D]> (pdoms s)) as (Ep & Eh & Ea & Et & Ed).
  { rewrite Es3. unfold s2. simpl. by rewrite insert_insert_eq. }
  assert (heap_wf M s3) as Hw3 by (apply (heap_wf_ext M s); [done|by rewrite Ep|done..]).
  assert (freeable M order pg s3) as Hf3 by (apply (freeable_keep M order pg s); [done|by rewrite Ep|by rewrite Ea]).
  clearbody s3. destruct (free_heap_pages_spec M order pg s3 Hw3) as (s4 & -> & Hw4 & Hfd); [by rewrite Ep|done|].
  cbn [mbind outcome_bind]. pose proof (freed_known _ _ _ _ _ ltac:(by rewrite Ep) Hfd) as Hk4.
  assert (∀ x p, ¬ in_block order pg x → pages s !! x = Some p → page_state_is p PGC_state_free = false → pages s4 !! x = Some p) as Hoth.
  { intros x q Hx Hq Hnf. rewrite <- Ep in Hq. rewrite <- Hq. apply (relist_page_used _ _ q); [by apply (fr_other _ _ _ _ _ Hfd)|done|done]. }
  pose proof (fr_free_pages _ _ _ _ _ Hfd) as HF. rewrite Ep in HF.
  assert (∀ x, pd_is_dying D = true → in_block order pg x → Scrub_one_page x ∈ events s4) as Hscr.
  { intros x Hdy Hx. rewrite (fr_events _ _ _ _ _ Hfd), Es3. apply elem_of_app. left. by apply Hev. }
  apply (domheap_put M d D order pg s s4); try done. by rewrite (fr_pdoms _ _ _ _ _ Hfd).
Qed.

(** A block just allocated and charged may be freed. *)
Lemma domheap_alloc_block M d D order memflags pg s s1 :
  domheap_pre M d D order memflags s → d ≠ 0 → d ≠ dom_cow M → has_bits memflags MEMF_no_refcount = false →
  domheap_allocated M d D order memflags pg s s1 →
  dom_block M d (account order memflags pg (set_last_alloc_node (mfn_to_nid M pg) D)) order pg s1.
Proof.
  intros Hpre Hd Hcow Hnr Hr. pose proof (da_order _ _ _ _ _ _ _ _ Hr) as Ho.
  destruct (da_aligned _ _ _ _ _ _ _ _ Hr) as [Hpos Hal]. split.
  - split; [done|done|done|apply (da_zone _ _ _ _ _ _ _ _ Hr)|apply (da_node _ _ _ _ _ _ _ _ Hr)|].
    intros x Hx. destruct (da_page _ _ _ _ _ _ _ _ Hr x Hx) as (p & _ & Hp). exists (owned_by d (claimed p)).
    destruct (da_free _ _ _ _ _ _ _ _ Hr x Hx) as (_ & _ & _ & ? & ?). done.
  - by rewrite (da_dom _ _ _ _ _ _ _ _ Hr), lookup_insert_eq.
  - done.
  - intros x Hx. destruct (da_page _ _ _ _ _ _ _ _ Hr x Hx) as (p & _ & Hp). split.
    + unfold account, add_pages. cbn [page_list set_acct]. apply elem_of_app. right. by apply elem_of_seqZ.
    + exists (owned_by d (claimed p)). split_and!; [done| |done]. unfold page_get_owner, owned_by. simpl.
      by destruct (Z.eqb_spec d 0).
  - unfold account. rewrite Hnr. cbn [tot_pages add_pages charge set_acct set_last_alloc_node].
    pose proof (dp_tot _ _ _ _ _ _ Hpre). pose proof (dp_nowrap _ _ _ _ _ _ Hpre).
    pose proof (Z.pow_pos_nonneg 2 order ltac:(lia) ltac:(lia)). rewrite u32_small by lia. lia.
Qed.

Lemma frame_free_elem M P n x : frame_free M P n x → x ∈ free_pages P.
Proof. intros (p & Hp & Hc & _). apply elem_of_free_pages. exists p. unfold page_state_is. by rewrite Hc. Qed.

(** ** The theorems *)

(** C8: Allocating for a domain. [alloc_domheap_pages] either returns an aligned
    block of pages that were free and now belong to the domain with one
    reference, listed on its page list and charged to it, which is only
    possible when the domain is not dying and stays within its limit; or it
    returns nothing and the heap has exactly the free pages it had, also when
    the block had to be given back because the domain could not take it. In
    both cases no page in use is touched and the heap is well formed. *)
Theorem alloc_domheap_pages_correct M d D order memflags s :
  domheap_pre M d D order memflags s →
  ∃ r s', alloc_domheap_pages M (Some d) order memflags s = Ok (r, s') ∧ heap_wf M s' ∧ frames_known M (pages s') ∧
    match r with
    | Some pg => domheap_allocated M d D order memflags pg s s'
    | None => domheap_failed d s s'
    end.
Proof. apply alloc_domheap_pages_spec. Qed.

Lemma demo_domheap_pre order : 0 ≤ order ≤ 3 → domheap_pre demo_machine 7 demo_dom order 0 demo_heap.
Proof.
  intros Ho. assert (pdoms demo_heap !! 7 = Some demo_dom) as HD by (vm_compute; reflexivity).
  split; [apply demo_heap_wf|apply demo_heap_wf| |exact HD|lia|simpl; lia|].
  - apply demo_pre. intros i [= <-]. exists demo_dom. split; [exact HD|]. split; reflexivity.
  - pose proof (Z.pow_le_mono_r 2 order 3 ltac:(lia) ltac:(lia)). simpl. lia.
Qed.

Lemma alloc_domheap_pages_correct_witness :
  ∃ r s', alloc_domheap_pages demo_machine (Some 7) 2 0 demo_heap = Ok (r, s') ∧ heap_wf demo_machine s' ∧
    frames_known demo_machine (pages s') ∧
    match r with
    | Some pg => domheap_allocated demo_machine 7 demo_dom 2 0 pg demo_heap s'
    | None => domheap_failed 7 demo_heap s'
    end.
Proof. apply (alloc_domheap_pages_correct demo_machine 7 demo_dom 2 0 demo_heap). apply demo_domheap_pre. lia. Defined.

(** C30: Freeing what was allocated. If [alloc_domheap_pages] gave the domain a
    block, freeing the block succeeds and restores the free pages of the heap,
    the domain's page list and, when the block was charged, its page count and
    the references to it. *)
Theorem domheap_alloc_free M d D order memflags s pg s1 :
  domheap_pre M d D order memflags s → d ≠ 0 → d ≠ dom_cow M →
  (∀ x, x ∈ page_list D → x ∉ free_pages (pages s)) → has_bits memflags MEMF_no_refcount = false →
  alloc_domheap_pages M (Some d) order memflags s = Ok (Some pg, s1) →
  ∃ s2, free_domheap_pages M pg order s1 = Ok s2 ∧ heap_wf M s2 ∧
    free_pages (pages s2) = free_pages (pages s) ∧
    ∃ D2, pdoms s2 !! d = Some D2 ∧ page_list D2 = page_list D ∧ tot_pages D2 = tot_pages D ∧ pd_refcnt D2 = pd_refcnt D.
Proof.
  intros Hpre Hd Hcow Hlist Hnr E.
  destruct (alloc_domheap_pages_spec M d D order memflags s Hpre) as (r & s' & E' & Hw1 & Hk1 & Hr).
  rewrite E in E'. injection E' as <- <-. pose proof (domheap_alloc_block M d D order memflags pg s s1 Hpre Hd Hcow Hnr Hr) as Hb.
  destruct (free_domheap_pages_spec M d _ order pg s1 Hw1 Hk1 Hb) as (s2 & E2 & Hw2 & _ & Hf).
  exists s2. split_and!; [done..| |].
  - rewrite (hf_free_pages _ _ _ _ _ _ Hf), (da_free_pages _ _ _ _ _ _ _ _ Hr).
    assert (block_set order pg ⊆ free_pages (pages s)) as Hsub.
    { intros x Hx%elem_of_block_set. by apply (frame_free_elem M _ (mfn_to_nid M pg)), (da_free _ _ _ _ _ _ _ _ Hr). }
    by rewrite difference_union_L, union_comm_L, subseteq_union_1_L.
  - eexists. rewrite (hf_dom _ _ _ _ _ _ Hf), lookup_insert_eq. split; [reflexivity|].
    unfold uncharge, account. rewrite Hnr. cbn [page_list tot_pages pd_refcnt set_acct add_pages charge set_last_alloc_node].
    pose proof (dp_tot _ _ _ _ _ _ Hpre). pose proof (dp_nowrap _ _ _ _ _ _ Hpre).
    pose proof (Z.pow_pos_nonneg 2 order ltac:(lia) (dp_order _ _ _ _ _ _ Hpre)).
    rewrite u32_small by lia. split_and!; [|lia|].
    + unfold without. rewrite filter_app. fold (without (2 ^ order) pg (page_list D)) (without (2 ^ order) pg (seqZ pg (2 ^ order))).
      rewrite (without_all _ _ (seqZ _ _)), app_nil_r by (by intros x ?%elem_of_seqZ). apply without_id.
      intros x Hx Hin. apply (Hlist x Hx). by apply (frame_free_elem M _ (mfn_to_nid M pg)), (da_free _ _ _ _ _ _ _ _ Hr).
    + destruct (Z.eqb_spec (tot_pages D + 2 ^ order) (2 ^ order)), (Z.eqb_spec (tot_pages D) 0); lia.
Qed.

Lemma domheap_alloc_free_witness :
  ∃ pg s1 s2, alloc_domheap_pages demo_machine (Some 7) 1 0 demo_heap = Ok (Some pg, s1) ∧
    free_domheap_pages demo_machine pg 1 s1 = Ok s2 ∧ free_pages (pages s2) = free_pages (pages demo_heap).
Proof.
  set (r := alloc_domheap_pages demo_machine (Some 7) 1 0 demo_heap).
  set (s1 := match r with Ok (_, s) => s | Bug => demo_heap end).
  assert (alloc_domheap_pages demo_machine (Some 7) 1 0 demo_heap = Ok (Some 14, s1)) as E by (vm_compute; reflexivity).
  clearbody s1.
  destruct (domheap_alloc_free demo_machine 7 demo_dom 1 0 demo_heap 14 s1) as (s2 & E2 & _ & HF & _);
    [apply demo_domheap_pre; lia|discriminate|discriminate|intros x Hx; inversion Hx|reflexivity|exact E|].
  exists 14, s1, s2. split; [exact E|]. split; [exact E2|exact HF].
Defined.
