(* ===== verification/Tlsf.v ===== *)
(** * The pool allocator (xen/common/xmalloc_tlsf.c)

    A pool carves blocks out of regions of memory. Memory is modelled by its
    8-byte cells, keyed by address: a block header ([struct bhdr]) at [b] has
    its fields in the cells [b], [b + 8], [b + 16] and [b + 24], of which the
    last two are the first bytes of the buffer, used for the free lists while
    the block is free and by the owner of the buffer while it is not. Access to
    a page that is not held is a [Bug]. The callbacks that get and put regions
    are arguments. *)

From S2P Require Import Prelude BootMem PageAlloc.
Local Open Scope xen_scope.

(** ** Memory *)

(** [w_mem] has the cells, [w_held] the frames of the pages held by the
    allocator, [w_heap] the state of the page allocator below. *)
Record world (H : Type) := mk_world {
  w_mem : gmap Z Z;
  w_held : gset Z;
  w_heap : H;
}.
Arguments mk_world {H} _ _ _.
Arguments w_mem {H} _.
Arguments w_held {H} _.
Arguments w_heap {H} _.

Section memory.
Context {H : Type}.

(** The frames of [len] bytes at the page-aligned address [a]. *)
Definition pages_of (a len : Z) : gset Z :=
  list_to_set (seqZ (a / PAGE_SIZE) (len / PAGE_SIZE)).

Definition peek (w : world H) (x : Z) : Z := default 0 (w_mem w !! x).

Definition rd (x : Z) (w : world H) : outcome Z :=
  if bool_decide (x / PAGE_SIZE ∈ w_held w) then Ok (peek w x) else Bug.

Definition wr (x v : Z) (w : world H) : outcome (world H) :=
  if bool_decide (x / PAGE_SIZE ∈ w_held w)
  then Ok (mk_world (<[x := v]> (w_mem w)) (w_held w) (w_heap w)) else Bug.
End memory.

(** ** Parameters *)

Definition MEM_ALIGN : Z := 8 * 2.
Definition MEM_ALIGN_MASK (x : Z) : Z := Z.ldiff x (MEM_ALIGN - 1).
Definition MAX_FLI : Z := 30.
Definition MAX_LOG2_SLI : Z := 5.
Definition MAX_SLI : Z := Z.shiftl 1 MAX_LOG2_SLI.
Definition FLI_OFFSET : Z := 6.
Definition SMALL_BLOCK : Z := 128.
Definition REAL_FLI : Z := MAX_FLI - FLI_OFFSET.
Definition sizeof_bhdr : Z := 32.
Definition MIN_BLOCK_SIZE : Z := 16.
Definition BHDR_OVERHEAD : Z := sizeof_bhdr - MIN_BLOCK_SIZE.
Definition PTR_MASK : Z := 7.
Definition BLOCK_SIZE_MASK : Z := 0xFFFFFFFF - PTR_MASK.
Definition ROUNDUP_SIZE (r : Z) : Z := MEM_ALIGN_MASK (u64 (r + MEM_ALIGN - 1)).
Definition ROUNDDOWN_SIZE (r : Z) : Z := MEM_ALIGN_MASK r.
Definition ROUNDUP_PAGE (r : Z) : Z := Z.ldiff (u64 (r + PAGE_SIZE - 1)) (PAGE_SIZE - 1).

Definition PREV_STATE : Z := 2.
Definition FREE_BLOCK : Z := 1.
Definition USED_BLOCK : Z := 0.
Definition PREV_FREE : Z := 2.
Definition PREV_USED : Z := 0.

(** ** Block headers *)

Definition a_prev_hdr (b : Z) : Z := b.
Definition a_size (b : Z) : Z := b + 8.
Definition a_prev (b : Z) : Z := b + 16.
Definition a_next (b : Z) : Z := b + 24.
Definition buffer (b : Z) : Z := b + BHDR_OVERHEAD.
Definition GET_NEXT_BLOCK (addr r : Z) : Z := addr + r.

(** ** Pools *)

Record xmem_pool := mk_pool {
  fl_bitmap : Z;
  sl_bitmap : gmap Z Z;
  matrix : gmap (Z * Z) Z;
  init_size : Z;
  max_size : Z;
  grow_size : Z;
  used_size : Z;
  num_regions : Z;
  init_region : Z;
}.

Definition upd_lists (fb : Z) (sb : gmap Z Z) (m : gmap (Z * Z) Z) (p : xmem_pool) : xmem_pool :=
  mk_pool fb sb m (init_size p) (max_size p) (grow_size p) (used_size p) (num_regions p) (init_region p).
Definition upd_stats (used regions : Z) (p : xmem_pool) : xmem_pool :=
  mk_pool (fl_bitmap p) (sl_bitmap p) (matrix p) (init_size p) (max_size p) (grow_size p)
    (u64 used) (u64 regions) (init_region p).
Definition upd_init_region (r : Z) (p : xmem_pool) : xmem_pool :=
  mk_pool (fl_bitmap p) (sl_bitmap p) (matrix p) (init_size p) (max_size p) (grow_size p)
    (used_size p) (num_regions p) r.

(** [p->sl_bitmap[fl]] and [p->matrix[fl][sl]]; an index out of bounds is a
    [Bug]. *)
Definition sl_of (p : xmem_pool) (fl : Z) : outcome Z :=
  if (0 <=? fl) && (fl <? REAL_FLI) then Ok (default 0 (sl_bitmap p !! fl)) else Bug.

Definition in_matrix (fl sl : Z) : bool :=
  (0 <=? fl) && (fl <? REAL_FLI) && (0 <=? sl) && (sl <? MAX_SLI).

Definition matrix_of (p : xmem_pool) (fl sl : Z) : outcome Z :=
  if in_matrix fl sl then Ok (default 0 (matrix p !! (fl, sl))) else Bug.

Definition set_matrix (fl sl b : Z) (p : xmem_pool) : outcome xmem_pool :=
  if in_matrix fl sl
  then Ok (upd_lists (fl_bitmap p) (sl_bitmap p) (<[(fl, sl) := b]> (matrix p)) p) else Bug.

(** [set_bit(sl, &p->sl_bitmap[fl]); set_bit(fl, &p->fl_bitmap);] *)
Definition set_bits (fl sl : Z) (p : xmem_pool) : outcome xmem_pool :=
  let! s := sl_of p fl in
  Ok (upd_lists (Z.setbit (fl_bitmap p) fl) (<[fl := Z.setbit s sl]> (sl_bitmap p)) (matrix p) p).

(** [clear_bit(sl, ...); if ( !p->sl_bitmap[fl] ) clear_bit(fl, ...);] *)
Definition clear_bits (fl sl : Z) (p : xmem_pool) : outcome xmem_pool :=
  let! s := sl_of p fl in
  let s' := Z.clearbit s sl in
  Ok (upd_lists (if s' =? 0 then Z.clearbit (fl_bitmap p) fl else fl_bitmap p)
        (<[fl := s']> (sl_bitmap p)) (matrix p) p).

(** ** Mapping sizes to lists *)

(** The lowest bit set, counted from 1; 0 for none. *)
Definition ffs (x : Z) : Z := if x =? 0 then 0 else Z.log2 (Z.land x (- x)) + 1.

(** The rounded size with the indices. The source has [t] in an [int], which is
    exact for sizes below [2 ^ 36]. *)
Definition MAPPING_SEARCH (r : Z) : Z * Z * Z :=
  if r <? SMALL_BLOCK then (r, 0, r / (SMALL_BLOCK / MAX_SLI))
  else
    let t := Z.shiftl 1 (fls r - 1 - MAX_LOG2_SLI) - 1 in
    let r := u64 (r + t) in
    let fl := fls r - 1 in
    let sl := Z.shiftr r (fl - MAX_LOG2_SLI) - MAX_SLI in
    (Z.ldiff r t, fl - FLI_OFFSET, sl).

Definition MAPPING_INSERT (r : Z) : Z * Z :=
  if r <? SMALL_BLOCK then (0, r / (SMALL_BLOCK / MAX_SLI))
  else
    let fl := fls r - 1 in
    (fl - FLI_OFFSET, Z.shiftr r (fl - MAX_LOG2_SLI) - MAX_SLI).

Definition FIND_SUITABLE_BLOCK (p : xmem_pool) (fl sl : Z) : outcome (Z * Z * Z) :=
  let! s := sl_of p fl in
  let tmp := Z.land s (u32 (Z.shiftl (-1) sl)) in
  if negb (tmp =? 0) then
    let sl := ffs tmp - 1 in
    let! b := matrix_of p fl sl in Ok (b, fl, sl)
  else
    let fl := ffs (Z.land (fl_bitmap p) (u32 (Z.shiftl (-1) (fl + 1)))) - 1 in
    if 0 <? fl then
      let! s := sl_of p fl in
      let sl := ffs s - 1 in
      let! b := matrix_of p fl sl in Ok (b, fl, sl)
    else Ok (0, fl, sl).

Section pool.
Context {H : Type}.

(** ** Free lists *)

(** [b->ptr.free_ptr = (struct free_ptr) {prev, next};] *)
Definition set_free_ptr (b prev next : Z) (w : world H) : outcome (world H) :=
  let! w1 := wr (a_prev b) prev w in wr (a_next b) next w1.

Definition EXTRACT_BLOCK_HDR (b : Z) (p : xmem_pool) (fl sl : Z) (w : world H) : outcome (xmem_pool * world H) :=
  let! next := rd (a_next b) w in
  let! p1 := set_matrix fl sl next p in
  let! (p2, w1) :=
    (if negb (next =? 0) then let! w1 := wr (a_prev next) 0 w in Ok (p1, w1)
     else let! p2 := clear_bits fl sl p1 in Ok (p2, w)) in
  let! w2 := set_free_ptr b 0 0 w1 in
  Ok (p2, w2).

Definition EXTRACT_BLOCK (b : Z) (p : xmem_pool) (fl sl : Z) (w : world H) : outcome (xmem_pool * world H) :=
  let! next := rd (a_next b) w in
  let! w1 := (if negb (next =? 0) then let! prev := rd (a_prev b) w in wr (a_prev next) prev w else Ok w) in
  let! prev := rd (a_prev b) w1 in
  let! w2 := (if negb (prev =? 0) then let! next := rd (a_next b) w1 in wr (a_next prev) next w1 else Ok w1) in
  let! head := matrix_of p fl sl in
  let! p1 :=
    (if head =? b then
       let! next := rd (a_next b) w2 in
       let! p1 := set_matrix fl sl next p in
       if next =? 0 then clear_bits fl sl p1 else Ok p1
     else Ok p) in
  let! w3 := set_free_ptr b 0 0 w2 in
  Ok (p1, w3).

Definition INSERT_BLOCK (b : Z) (p : xmem_pool) (fl sl : Z) (w : world H) : outcome (xmem_pool * world H) :=
  let! head := matrix_of p fl sl in
  let! w1 := set_free_ptr b 0 head w in
  let! w2 := (if negb (head =? 0) then wr (a_prev head) b w1 else Ok w1) in
  let! p1 := set_matrix fl sl b p in
  let! p2 := set_bits fl sl p1 in
  Ok (p2, w2).

(** [b->size & BLOCK_SIZE_MASK] *)
Definition block_size (b : Z) (w : world H) : outcome Z :=
  let! s := rd (a_size b) w in Ok (Z.land s BLOCK_SIZE_MASK).

Definition ADD_REGION (region region_size : Z) (p : xmem_pool) (w : world H) : outcome (xmem_pool * world H) :=
  let b := region in
  let! w1 := wr (a_prev_hdr b) 0 w in
  let size := u32 (Z.lor (Z.lor (ROUNDDOWN_SIZE (u64 (region_size - 2 * BHDR_OVERHEAD))) FREE_BLOCK) PREV_USED) in
  let! w2 := wr (a_size b) size w1 in
  let '(fl, sl) := MAPPING_INSERT (Z.land size BLOCK_SIZE_MASK) in
  let! (p1, w3) := INSERT_BLOCK b p fl sl w2 in
  let! size := block_size b w3 in
  let lb := GET_NEXT_BLOCK (buffer b) size in
  let! w4 := wr (a_prev_hdr lb) b w3 in
  let! w5 := wr (a_size lb) (Z.lor (Z.lor 0 USED_BLOCK) PREV_FREE) w4 in
  Ok (upd_stats (used_size p1 + BHDR_OVERHEAD) (num_regions p1 + 1) p1, w5).

(** ** Allocation *)

Section callbacks.
(** [pool->get_mem] and [pool->put_mem]. *)
Variable get_mem : Z → world H → outcome (Z * world H).
Variable put_mem : Z → world H → outcome (world H).

(** From [retry_find] on: the block found with its list and the rounded size,
    or nothing. *)
Fixpoint find_block (fuel : nat) (size : Z) (p : xmem_pool) (w : world H)
    : outcome (option (Z * Z * Z * Z) * xmem_pool * world H) :=
  match fuel with
  | O => Bug
  | S fuel' =>
      let '(size, fl, sl) := MAPPING_SEARCH size in
      let! (b, fl, sl) := FIND_SUITABLE_BLOCK p fl sl in
      if b =? 0 then
        if u64 (grow_size p - 2 * BHDR_OVERHEAD) <? size then Ok (None, p, w)
        else if negb (max_size p =? 0) &&
                (max_size p <? u64 (init_size p + num_regions p * grow_size p)) then Ok (None, p, w)
        else
          let! (region, w1) := get_mem (grow_size p) w in
          if region =? 0 then Ok (None, p, w1)
          else
            let! (p1, w2) := ADD_REGION region (grow_size p) p w1 in
            find_block fuel' size p1 w2
      else Ok (Some (b, fl, sl, size), p, w)
  end.

(** From [found] on: mark the block used, splitting off the rest of it. *)
Definition found_block (b fl sl size : Z) (p : xmem_pool) (w : world H) : outcome (Z * xmem_pool * world H) :=
  let! (p1, w1) := EXTRACT_BLOCK_HDR b p fl sl w in
  let! bsize := block_size b w1 in
  let next_b := GET_NEXT_BLOCK (buffer b) bsize in
  let tmp_size := u64 (bsize - size) in
  let! (p2, w2) :=
    (if sizeof_bhdr <=? tmp_size then
       let tmp_size := tmp_size - BHDR_OVERHEAD in
       let b2 := GET_NEXT_BLOCK (buffer b) size in
       let! w2 := wr (a_size b2) (u32 (Z.lor (Z.lor tmp_size FREE_BLOCK) PREV_USED)) w1 in
       let! w3 := wr (a_prev_hdr b2) b w2 in
       let! w4 := wr (a_prev_hdr next_b) b2 w3 in
       let '(fl, sl) := MAPPING_INSERT tmp_size in
       let! (p2, w5) := INSERT_BLOCK b2 p1 fl sl w4 in
       let! s := rd (a_size b) w5 in
       let! w6 := wr (a_size b) (u32 (Z.lor size (Z.land s PREV_STATE))) w5 in
       Ok (p2, w6)
     else
       let! s := rd (a_size next_b) w1 in
       let! w2 := wr (a_size next_b) (Z.ldiff s PREV_FREE) w1 in
       let! s := rd (a_size b) w2 in
       let! w3 := wr (a_size b) (Z.ldiff s FREE_BLOCK) w2 in
       Ok (p1, w3)) in
  let! bsize := block_size b w2 in
  Ok (buffer b, upd_stats (used_size p2 + bsize + BHDR_OVERHEAD) (num_regions p2) p2, w2).

(** The first allocation obtains the initial region; [None] if it cannot. *)
Definition init_pool (p : xmem_pool) (w : world H) : outcome (option xmem_pool * world H) :=
  if init_region p =? 0 then
    let! (region, w1) := get_mem (init_size p) w in
    if region =? 0 then Ok (None, w1)
    else
      let! (p1, w2) := ADD_REGION region (init_size p) p w1 in
      Ok (Some (upd_init_region region p1), w2)
  else Ok (Some p, w).

(** The address of the buffer, or [NULL]. A pool grows at most once per
    allocation, so three rounds are enough. *)
Definition xmem_pool_alloc (size : Z) (p : xmem_pool) (w : world H) : outcome (Z * xmem_pool * world H) :=
  let! (p0, w0) := init_pool p w in
  match p0 with
  | None => Ok (0, p, w0)
  | Some p =>
      let size := if size <? MIN_BLOCK_SIZE then MIN_BLOCK_SIZE else ROUNDUP_SIZE size in
      let! (found, p1, w1) := find_block 3 size p w0 in
      match found with
      | None => Ok (0, p1, w1)
      | Some (b, fl, sl, size) => found_block b fl sl size p1 w1
      end
  end.

(** ** Freeing *)

(** [tmp_b = GET_NEXT_BLOCK(...); if ( tmp_b->size & FREE_BLOCK ) ...] *)
Definition merge_next_block (b : Z) (p : xmem_pool) (w : world H) : outcome (xmem_pool * world H) :=
  let! bsize := block_size b w in
  let tmp_b := GET_NEXT_BLOCK (buffer b) bsize in
  let! ts := rd (a_size tmp_b) w in
  if negb (Z.land ts FREE_BLOCK =? 0) then
    let tsize := Z.land ts BLOCK_SIZE_MASK in
    let '(fl, sl) := MAPPING_INSERT tsize in
    let! (p1, w1) := EXTRACT_BLOCK tmp_b p fl sl w in
    let! s := rd (a_size b) w1 in
    let! tsize := block_size tmp_b w1 in
    let! w2 := wr (a_size b) (u32 (s + tsize + BHDR_OVERHEAD)) w1 in
    Ok (p1, w2)
  else Ok (p, w).

(** [if ( b->size & PREV_FREE ) ...]; the result is [b]. *)
Definition merge_prev_block (b : Z) (p : xmem_pool) (w : world H) : outcome (Z * xmem_pool * world H) :=
  let! s := rd (a_size b) w in
  if negb (Z.land s PREV_FREE =? 0) then
    let! tmp_b := rd (a_prev_hdr b) w in
    let! tsize := block_size tmp_b w in
    let '(fl, sl) := MAPPING_INSERT tsize in
    let! (p1, w1) := EXTRACT_BLOCK tmp_b p fl sl w in
    let! ts := rd (a_size tmp_b) w1 in
    let! bsize := block_size b w1 in
    let! w2 := wr (a_size tmp_b) (u32 (ts + bsize + BHDR_OVERHEAD)) w1 in
    Ok (tmp_b, p1, w2)
  else Ok (b, p, w).

(** What follows the merges: return the region if it is all free, or put the
    block on its list. *)
Definition release_block (b : Z) (p : xmem_pool) (w : world H) : outcome (xmem_pool * world H) :=
  let! bsize := block_size b w in
  let tmp_b := GET_NEXT_BLOCK (buffer b) bsize in
  let! w1 := wr (a_prev_hdr tmp_b) b w in
  let! bsize := block_size b w1 in
  let '(fl, sl) := MAPPING_INSERT bsize in
  let! prev := rd (a_prev_hdr b) w1 in
  let! tsize := block_size tmp_b w1 in
  if (prev =? 0) && (tsize =? 0) then
    let! w2 := put_mem b w1 in
    Ok (upd_stats (used_size p - BHDR_OVERHEAD) (num_regions p - 1) p, w2)
  else
    let! (p1, w2) := INSERT_BLOCK b p fl sl w1 in
    let! ts := rd (a_size tmp_b) w2 in
    let! w3 := wr (a_size tmp_b) (Z.lor ts PREV_FREE) w2 in
    let! w4 := wr (a_prev_hdr tmp_b) b w3 in
    Ok (p1, w4).

Definition xmem_pool_free (ptr : Z) (p : xmem_pool) (w : world H) : outcome (xmem_pool * world H) :=
  if ptr =? 0 then Ok (p, w)
  else
    let b := ptr - BHDR_OVERHEAD in
    let! s := rd (a_size b) w in
    let! w1 := wr (a_size b) (Z.lor s FREE_BLOCK) w in
    let! bsize := block_size b w1 in
    let p1 := upd_stats (used_size p - (bsize + BHDR_OVERHEAD)) (num_regions p) p in
    let! w2 := set_free_ptr b 0 0 w1 in
    let! (p2, w3) := merge_next_block b p1 w2 in
    let! (b, p3, w4) := merge_prev_block b p2 w3 in
    release_block b p3 w4.
End callbacks.
End pool.

Definition xmem_pool_get_used_size (p : xmem_pool) : Z := used_size p.

(** [int] *)
Definition xmem_pool_maxalloc (p : xmem_pool) : Z := s32 (u32 (grow_size p - 2 * BHDR_OVERHEAD)).
