(* ===== verification/TlsfMap.v ===== *)
(** * Size classes of the pool allocator

    The arithmetic of [MAPPING_INSERT] and [MAPPING_SEARCH], rounding, and the
    encoding of the size field. A list [(fl, sl)] holds the blocks whose size is
    in an interval that starts at [class_lb fl sl]; the intervals are ordered as
    the lists. *)

From S2P Require Import Prelude BootMem PageAlloc Tlsf.
Local Open Scope xen_scope.

Definition class_width (fl : Z) : Z := if fl =? 0 then 4 else 2 ^ (fl + 1).
Definition class_lb (fl sl : Z) : Z := if fl =? 0 then 4 * sl else 2 ^ (fl + 1) * (32 + sl).
Definition class_ok (fl sl : Z) : Prop := 0 ≤ fl < REAL_FLI ∧ 0 ≤ sl < MAX_SLI.
Definition class_le (fl sl fl' sl' : Z) : Prop := fl < fl' ∨ fl = fl' ∧ sl ≤ sl'.

Lemma in_matrix_true fl sl : class_ok fl sl → in_matrix fl sl = true.
Proof. unfold class_ok, in_matrix. intros [? ?]. rewrite !andb_true_iff, !Z.leb_le, !Z.ltb_lt. lia. Qed.

Lemma in_matrix_class fl sl : in_matrix fl sl = true → class_ok fl sl.
Proof. unfold class_ok, in_matrix. intros ?. b2p. lia. Qed.

Lemma class_width_pos fl : 0 ≤ fl → 0 < class_width fl.
Proof. intros ?. unfold class_width. case_Z; [lia|]. apply Z.pow_pos_nonneg; lia. Qed.

Lemma class_lb_succ fl sl : class_lb fl (sl + 1) = class_lb fl sl + class_width fl.
Proof. unfold class_lb, class_width. case_Z; lia. Qed.

Lemma class_lb_mono_sl fl sl sl' : 0 ≤ fl → sl ≤ sl' → class_lb fl sl ≤ class_lb fl sl'.
Proof.
  intros ? ?. unfold class_lb. case_Z; [lia|]. assert (0 < 2 ^ (fl + 1)) by (apply Z.pow_pos_nonneg; lia). nia.
Qed.

(** The last class of a row ends where the next row starts. *)
Lemma class_row fl : 0 ≤ fl → class_lb fl 32 = class_lb (fl + 1) 0.
Proof.
  intros ?. unfold class_lb. destruct (Z.eqb_spec fl 0) as [->|]; [done|]. case_Z; [lia|].
  replace (fl + 1 + 1) with (Z.succ (fl + 1)) by lia. rewrite Z.pow_succ_r by lia. lia.
Qed.

Lemma class_row_mono fl fl' : 0 ≤ fl ≤ fl' → class_lb fl 0 ≤ class_lb fl' 0.
Proof.
  intros [? Hle]. revert Hle. apply (Zlt_lower_bound_ind (λ f, class_lb fl 0 ≤ class_lb f 0)).
  intros f IH Hf. destruct (decide (f = fl)) as [->|]; [lia|].
  specialize (IH (f - 1) ltac:(lia)). pose proof (class_row (f - 1) ltac:(lia)) as E.
  replace (f - 1 + 1) with f in E by lia. pose proof (class_lb_mono_sl (f - 1) 0 32 ltac:(lia) ltac:(lia)). lia.
Qed.

(** A class below another one ends before it. *)
Lemma class_lt fl sl fl' sl' :
  0 ≤ fl → 0 ≤ sl < MAX_SLI → 0 ≤ sl' → ¬ class_le fl' sl' fl sl → class_lb fl sl + class_width fl ≤ class_lb fl' sl'.
Proof.
  unfold class_le. change MAX_SLI with 32. intros ? ? ? Hn. rewrite <- class_lb_succ.
  destruct (decide (fl = fl')) as [<-|].
  - apply class_lb_mono_sl; lia.
  - etrans; [apply (class_lb_mono_sl _ _ 32); lia|]. rewrite class_row by done.
    etrans; [apply (class_row_mono (fl + 1) fl'); lia|]. apply class_lb_mono_sl; lia.
Qed.

Lemma class_le_lb fl sl fl' sl' :
  0 ≤ fl → 0 ≤ sl < MAX_SLI → 0 ≤ fl' → 0 ≤ sl' → class_le fl sl fl' sl' → class_lb fl sl ≤ class_lb fl' sl'.
Proof.
  intros ? ? ? ? Hle. destruct (decide (fl = fl' ∧ sl = sl')) as [[-> ->]|Hne]; [lia|].
  pose proof (class_width_pos fl ltac:(lia)).
  pose proof (class_lt fl sl fl' sl') as Hlt. unfold class_le in *. lia.
Qed.

(** ** Insertion *)

Lemma shiftr_class r k : 0 ≤ k - 5 → 2 ^ k ≤ r < 2 ^ (k + 1) → 32 ≤ Z.shiftr r (k - 5) < 64.
Proof.
  intros Hk [H1 H2]. rewrite Z.shiftr_div_pow2 by lia. assert (0 < 2 ^ (k - 5)) by (apply Z.pow_pos_nonneg; lia).
  replace k with ((k - 5) + 5) in H1 by lia. replace (k + 1) with ((k - 5) + 6) in H2 by lia.
  rewrite Z.pow_add_r in H1, H2 by lia. split; [apply Z.div_le_lower_bound|apply Z.div_lt_upper_bound]; lia.
Qed.

Lemma log2_class r : SMALL_BLOCK ≤ r → 7 ≤ Z.log2 r ∧ 2 ^ Z.log2 r ≤ r < 2 ^ (Z.log2 r + 1) ∧ fls r - 1 = Z.log2 r.
Proof.
  change SMALL_BLOCK with 128. intros ?. split; [by apply (Z.log2_le_mono 128)|]. split; [apply Z.log2_spec; lia|].
  unfold fls. case_Z; lia.
Qed.

(** The class of a size. *)
Lemma mapping_insert_spec r fl sl :
  0 ≤ r < 2 ^ MAX_FLI → MAPPING_INSERT r = (fl, sl) →
  class_ok fl sl ∧ class_lb fl sl ≤ r < class_lb fl sl + class_width fl.
Proof.
  change MAX_FLI with 30. intros Hr. unfold MAPPING_INSERT, class_ok. destruct (Z.ltb_spec r SMALL_BLOCK) as [Hs|Hs].
  - intros [= <- <-]. change (SMALL_BLOCK / MAX_SLI) with 4. change SMALL_BLOCK with 128 in Hs.
    change MAX_SLI with 32. unfold class_lb, class_width. simpl. pose proof (Z.div_mod r 4). pose proof (Z.mod_pos_bound r 4).
    pose proof (Z.div_pos r 4). pose proof (Z.div_lt_upper_bound r 4 32). change REAL_FLI with 24. lia.
  - destruct (log2_class r Hs) as (H7 & Hb & E). cbn zeta. rewrite E. change MAX_LOG2_SLI with 5. change MAX_SLI with 32.
    change FLI_OFFSET with 6. intros [= <- <-]. pose proof (shiftr_class r (Z.log2 r) ltac:(lia) Hb) as Hc.
    assert (Z.log2 r < 30) by (apply Z.log2_lt_pow2; lia). change REAL_FLI with 24.
    unfold class_lb, class_width. case_Z; [lia|].
    replace (Z.log2 r - 6 + 1) with (Z.log2 r - 5) by lia. assert (0 < 2 ^ (Z.log2 r - 5)) by (apply Z.pow_pos_nonneg; lia).
    split; [lia|]. rewrite Z.shiftr_div_pow2 by lia.
    replace (32 + (r / 2 ^ (Z.log2 r - 5) - 32)) with (r / 2 ^ (Z.log2 r - 5)) by lia.
    pose proof (Z.div_mod r (2 ^ (Z.log2 r - 5))). pose proof (Z.mod_pos_bound r (2 ^ (Z.log2 r - 5))). lia.
Qed.

(** A size in a class or above it is on a list at or after that class. *)
Lemma mapping_insert_above r fl sl fl' sl' :
  0 ≤ r < 2 ^ MAX_FLI → 0 ≤ fl → 0 ≤ sl < MAX_SLI → class_lb fl sl ≤ r → MAPPING_INSERT r = (fl', sl') → class_le fl sl fl' sl'.
Proof.
  intros Hr Hf Hs Hlb E. destruct (mapping_insert_spec r fl' sl' Hr E) as [[? ?] ?].
  destruct (decide (class_le fl sl fl' sl')) as [|Hn]; [done|].
  pose proof (class_lt fl' sl' fl sl ltac:(lia) ltac:(lia) ltac:(lia) Hn). lia.
Qed.

(** ** Search *)

Lemma ldiff_low r n : 0 ≤ n → Z.ldiff r (2 ^ n - 1) = 2 ^ n * (r / 2 ^ n).
Proof.
  intros ?. replace (2 ^ n - 1) with (Z.ones n) by (rewrite Z.ones_equiv; lia).
  rewrite Z.ldiff_ones_r, Z.shiftl_mul_pow2, Z.shiftr_div_pow2 by lia. lia.
Qed.

(** A search rounds up to the start of a class, which is then the class
    searched. *)
Lemma mapping_search_spec r r' fl sl :
  (16 | r) → 16 ≤ r < 2 ^ 62 → MAPPING_SEARCH r = (r', fl, sl) →
  r ≤ r' ∧ (16 | r') ∧ r' = class_lb fl sl ∧ 0 ≤ fl ∧ 0 ≤ sl < MAX_SLI ∧ r' ≤ 2 * r.
Proof.
  intros [q Hq] Hr. unfold MAPPING_SEARCH. destruct (Z.ltb_spec r SMALL_BLOCK) as [Hs|Hs].
  - intros [= <- <- <-]. change (SMALL_BLOCK / MAX_SLI) with 4. change SMALL_BLOCK with 128 in Hs.
    change MAX_SLI with 32. unfold class_lb. simpl. replace (r / 4) with (4 * q); [|apply (Z.div_unique _ _ _ 0); lia].
    split; [lia|]. split; [by exists q|]. lia.
  - destruct (log2_class r Hs) as (H7 & Hb & E). cbn zeta. rewrite E. change MAX_LOG2_SLI with 5. change MAX_SLI with 32.
    change FLI_OFFSET with 6. set (k := Z.log2 r) in *. rewrite Z.shiftl_1_l.
    assert (k < 62) by (apply Z.log2_lt_pow2; lia).
    assert (0 < 2 ^ (k - 5)) as HP by (apply Z.pow_pos_nonneg; lia). set (P := 2 ^ (k - 5)) in *.
    assert (2 ^ k = 32 * P) as Ek by (unfold P; change 32 with (2 ^ 5); rewrite <- Z.pow_add_r by lia; f_equal; lia).
    assert (2 ^ (k + 1) = 64 * P) as Ek1 by (rewrite Z.pow_add_r, Ek by lia; lia). rewrite Ek, Ek1 in Hb.
    rewrite (u64_small (r + (P - 1))) by lia. set (r1 := r + (P - 1)).
    assert (Z.ldiff r1 (P - 1) = P * (r1 / P)) as -> by (apply ldiff_low; lia).
    set (d := r1 / P). pose proof (Z.div_mod r1 P ltac:(lia)) as Hd. pose proof (Z.mod_pos_bound r1 P ltac:(lia)). fold d in Hd.
    assert ((16 | P * d)) as Hdiv.
    { destruct (decide (9 ≤ k)) as [?|?].
      - apply Z.divide_mul_l. exists (2 ^ (k - 9)). unfold P. change 16 with (2 ^ 4). rewrite <- Z.pow_add_r by lia. f_equal. lia.
      - assert (k = 7 ∨ k = 8) as Hk by lia. assert (P = 4 ∨ P = 8) as HP' by (unfold P; destruct Hk as [-> | ->]; [left|right]; done).
        exists q. unfold r1 in *. lia. }
    destruct (decide (r1 < 64 * P)) as [Hlow|Hhigh].
    + assert (fls r1 - 1 = k) as ->.
      { unfold fls. case_Z; [lia|]. replace (Z.log2 r1) with k; [lia|]. symmetry. apply Z.log2_unique; [lia|].
        replace (Z.succ k) with (k + 1) by lia. rewrite Ek, Ek1. lia. }
      rewrite Z.shiftr_div_pow2 by lia. fold P d. intros [= <- <- <-].
      unfold class_lb. case_Z; [lia|]. replace (k - 6 + 1) with (k - 5) by lia. fold P. unfold r1 in *.
      assert (32 ≤ d < 64) by nia. replace (32 + (d - 32)) with d by lia. split; [lia|]. split; [done|]. lia.
    + assert (fls r1 - 1 = k + 1) as ->.
      { unfold fls. case_Z; [lia|]. replace (Z.log2 r1) with (k + 1); [lia|]. symmetry. apply Z.log2_unique; [lia|].
        replace (Z.succ (k + 1)) with (Z.succ (Z.succ k)) by lia. rewrite !Z.pow_succ_r by lia. rewrite Ek, Ek1. lia. }
      rewrite Z.shiftr_div_pow2 by lia. replace (k + 1 - 5) with (Z.succ (k - 5)) by lia. rewrite Z.pow_succ_r by lia. fold P.
      assert (r1 / (2 * P) = 32) as ->. { symmetry. apply (Z.div_unique _ _ _ (r1 - 64 * P)); unfold r1 in *; lia. }
      assert (d = 64) as Ed by (unfold r1 in *; nia). rewrite Ed in *. intros [= <- <- <-].
      unfold class_lb. case_Z; [lia|]. replace (k + 1 - 6 + 1) with (Z.succ (k - 5)) by lia. rewrite Z.pow_succ_r by lia. fold P.
      unfold r1 in *. split; [lia|]. split; [done|]. lia.
Qed.

(** The start of a class is a fixed point of the rounding. *)
Lemma mapping_search_fixed fl sl :
  0 ≤ fl → 0 ≤ sl < MAX_SLI → 16 ≤ class_lb fl sl < 2 ^ 62 → (16 | class_lb fl sl) →
  MAPPING_SEARCH (class_lb fl sl) = (class_lb fl sl, fl, sl).
Proof.
  intros Hf Hs Hr Hd. destruct (MAPPING_SEARCH (class_lb fl sl)) as [[r' fl'] sl'] eqn:E.
  destruct (mapping_search_spec _ _ _ _ Hd Hr E) as (H1 & H2 & H3 & H4 & H5 & H6).
  assert (r' = class_lb fl sl) as Er.
  { unfold MAPPING_SEARCH in E. destruct (Z.ltb_spec (class_lb fl sl) SMALL_BLOCK) as [Hsm|Hsm]; [by simplify_eq|].
    destruct (log2_class _ Hsm) as (H7 & Hb & El). cbn zeta in E. rewrite El in E. change MAX_LOG2_SLI with 5 in E.
    assert (Z.log2 (class_lb fl sl) = fl + 6) as Elog.
    { destruct (decide (fl = 0)) as [-> |Hne].
      - unfold class_lb in Hsm. simpl in Hsm. change SMALL_BLOCK with 128 in Hsm. change MAX_SLI with 32 in Hs. lia.
      - apply Z.log2_unique; [lia|]. unfold class_lb. case_Z; [lia|]. change MAX_SLI with 32 in Hs.
        replace (fl + 6) with ((fl + 1) + 5) by lia. replace (Z.succ (fl + 1 + 5)) with ((fl + 1) + 6) by lia.
        rewrite !Z.pow_add_r by lia. assert (0 < 2 ^ fl) by (apply Z.pow_pos_nonneg; lia). nia. }
    assert (0 < fl) as Hf0 by lia.
    rewrite Elog in E. replace (fl + 6 - 5) with (fl + 1) in E by lia. rewrite Z.shiftl_1_l in E.
    assert (0 < 2 ^ (fl + 1)) as HP by (apply Z.pow_pos_nonneg; lia).
    assert (class_lb fl sl = 2 ^ (fl + 1) * (32 + sl)) as Elb by (unfold class_lb; case_Z; lia).
    assert (2 ^ (fl + 1) < 2 ^ 62) by (apply Z.pow_lt_mono_r; [lia|lia|]; pose proof (Z.log2_lt_pow2 (class_lb fl sl) 62); lia).
    injection E as E _ _. rewrite u64_small in E by lia. rewrite ldiff_low in E by lia. rewrite <- E, Elb. f_equal.
    symmetry. apply (Z.div_unique _ _ _ (2 ^ (fl + 1) - 1)); lia. }
  rewrite Er in *. f_equal; [f_equal|].
  all: destruct (decide (fl = fl' ∧ sl = sl')) as [[-> ->]|Hne]; [done|exfalso].
  all: pose proof (class_width_pos fl ltac:(lia)); pose proof (class_width_pos fl' ltac:(lia)).
  all: pose proof (class_lt fl sl fl' sl' ltac:(lia) ltac:(lia) ltac:(lia)) as C1.
  all: pose proof (class_lt fl' sl' fl sl ltac:(lia) ltac:(lia) ltac:(lia)) as C2.
  all: unfold class_le in *; lia.
Qed.

(** ** The size field *)

(** A size with the flags of the block and of the one before it. *)
Definition enc (sz : Z) (free pf : bool) : Z := sz + Z.b2z free + 2 * Z.b2z pf.

Lemma lor_pow2_clear x n : 0 ≤ n → Z.testbit x n = false → Z.lor x (2 ^ n) = x + 2 ^ n.
Proof.
  intros Hn Hx. assert (Z.land x (2 ^ n) = 0) as E.
  { apply Z.bits_inj'. intros i Hi. rewrite Z.land_spec, Z.bits_0. destruct (decide (i = n)) as [->|].
    - by rewrite Hx.
    - rewrite Z.pow2_bits_false by done. apply andb_false_r. }
  by rewrite Z.add_nocarry_lxor, Z.lxor_lor.
Qed.

Lemma lor_pow2_set x n : 0 ≤ n → Z.testbit x n = true → Z.lor x (2 ^ n) = x.
Proof.
  intros Hn Hx. apply Z.bits_inj'. intros i Hi. rewrite Z.lor_spec. destruct (decide (i = n)) as [->|].
  - by rewrite Hx.
  - rewrite Z.pow2_bits_false by done. apply orb_false_r.
Qed.

Lemma ldiff_pow2_set x n : 0 ≤ n → Z.testbit x n = true → Z.ldiff x (2 ^ n) = x - 2 ^ n.
Proof.
  intros Hn Hx. symmetry. apply Z.sub_nocarry_ldiff. apply Z.bits_inj'. intros i Hi.
  rewrite Z.ldiff_spec, Z.bits_0. destruct (decide (i = n)) as [->|].
  - rewrite Hx. apply andb_false_r.
  - by rewrite Z.pow2_bits_false.
Qed.

Lemma ldiff_pow2_clear x n : 0 ≤ n → Z.testbit x n = false → Z.ldiff x (2 ^ n) = x.
Proof.
  intros Hn Hx. apply Z.bits_inj'. intros i Hi. rewrite Z.ldiff_spec. destruct (decide (i = n)) as [->|].
  - by rewrite Hx.
  - rewrite Z.pow2_bits_false by done. apply andb_true_r.
Qed.

Lemma land_pow2 x n : 0 ≤ n → Z.land x (2 ^ n) = if Z.testbit x n then 2 ^ n else 0.
Proof.
  intros Hn. apply Z.bits_inj'. intros i Hi. rewrite Z.land_spec. destruct (decide (i = n)) as [->|].
  - rewrite Z.pow2_bits_true by done. destruct (Z.testbit x n); [by rewrite Z.pow2_bits_true|by rewrite Z.bits_0].
  - rewrite Z.pow2_bits_false, andb_false_r by done.
    destruct (Z.testbit x n); [by rewrite Z.pow2_bits_false|by rewrite Z.bits_0].
Qed.

Section enc.
Context (sz : Z) (Hsz : (16 | sz)) (Hpos : 0 ≤ sz < 2 ^ MAX_FLI) (free pf : bool).

Lemma enc_range : 0 ≤ enc sz free pf < 2 ^ 32.
Proof. change MAX_FLI with 30 in Hpos. unfold enc. destruct free, pf; simpl; lia. Qed.

Lemma enc_bit0 : Z.testbit (enc sz free pf) 0 = free.
Proof.
  rewrite Z.bit0_odd. destruct Hsz as [q ->]. unfold enc.
  rewrite !Z.odd_add, !Z.odd_mul, andb_false_r. by destruct free, pf.
Qed.

Lemma enc_bit1 : Z.testbit (enc sz free pf) 1 = pf.
Proof.
  rewrite Z.testbit_odd, Z.shiftr_div_pow2 by lia. change (2 ^ 1) with 2. destruct Hsz as [q ->]. unfold enc.
  replace ((q * 16 + Z.b2z free + 2 * Z.b2z pf) / 2) with (2 * (4 * q) + Z.b2z pf).
  - rewrite Z.odd_add, Z.odd_mul. by destruct pf.
  - apply (Z.div_unique _ _ _ (Z.b2z free)); destruct free, pf; simpl; lia.
Qed.

Lemma enc_size : Z.land (enc sz free pf) BLOCK_SIZE_MASK = sz.
Proof.
  replace BLOCK_SIZE_MASK with (Z.ldiff (Z.ones 32) (2 ^ 3 - 1)) by done.
  rewrite !Z.ldiff_land, Z.land_assoc, <- Z.ldiff_land, Z.land_ones by lia. rewrite Z.mod_small by apply enc_range.
  rewrite ldiff_low by lia. change (2 ^ 3) with 8. destruct Hsz as [q E].
  rewrite <- (Z.div_unique (enc sz free pf) 8 (2 * q) (Z.b2z free + 2 * Z.b2z pf)).
  - lia.
  - left. by destruct free, pf.
  - unfold enc. lia.
Qed.

Lemma enc_free : negb (Z.land (enc sz free pf) FREE_BLOCK =? 0) = free.
Proof. change FREE_BLOCK with (2 ^ 0). rewrite land_pow2, enc_bit0 by lia. by destruct free. Qed.

Lemma enc_prev_free : negb (Z.land (enc sz free pf) PREV_FREE =? 0) = pf.
Proof. change PREV_FREE with (2 ^ 1). rewrite land_pow2, enc_bit1 by lia. by destruct pf. Qed.

Lemma enc_set_free : Z.lor (enc sz free pf) FREE_BLOCK = enc sz true pf.
Proof.
  change FREE_BLOCK with (2 ^ 0). pose proof enc_bit0 as E. destruct free; [by rewrite lor_pow2_set|].
  rewrite lor_pow2_clear by done. unfold enc. simpl. lia.
Qed.

Lemma enc_clear_free : Z.ldiff (enc sz free pf) FREE_BLOCK = enc sz false pf.
Proof.
  change FREE_BLOCK with (2 ^ 0). pose proof enc_bit0 as E. destruct free; [|by rewrite ldiff_pow2_clear].
  rewrite ldiff_pow2_set by done. unfold enc. simpl. lia.
Qed.

Lemma enc_set_prev_free : Z.lor (enc sz free pf) PREV_FREE = enc sz free true.
Proof.
  change PREV_FREE with (2 ^ 1). pose proof enc_bit1 as E. destruct pf; [by rewrite lor_pow2_set|].
  rewrite lor_pow2_clear by done. unfold enc. simpl. lia.
Qed.

Lemma enc_clear_prev_free : Z.ldiff (enc sz free pf) PREV_FREE = enc sz free false.
Proof.
  change PREV_FREE with (2 ^ 1). pose proof enc_bit1 as E. destruct pf; [|by rewrite ldiff_pow2_clear].
  rewrite ldiff_pow2_set by done. unfold enc. simpl. lia.
Qed.

Lemma enc_prev_state : Z.land (enc sz free pf) PREV_STATE = 2 * Z.b2z pf.
Proof. change PREV_STATE with (2 ^ 1). rewrite land_pow2, enc_bit1 by lia. by destruct pf. Qed.
End enc.

Lemma enc_id sz : enc sz false false = sz.
Proof. unfold enc. simpl. lia. Qed.

(** The sizes written for a new free block and for a block that is used. *)
Lemma enc_new sz : (16 | sz) → 0 ≤ sz < 2 ^ MAX_FLI → u32 (Z.lor (Z.lor sz FREE_BLOCK) PREV_USED) = enc sz true false.
Proof.
  intros Hd Hp. change PREV_USED with 0. rewrite Z.lor_0_r. rewrite <- (enc_id sz) at 1. rewrite enc_set_free by done.
  apply u32_small. by apply enc_range.
Qed.

Lemma enc_take sz pf : (16 | sz) → 0 ≤ sz < 2 ^ MAX_FLI → u32 (Z.lor sz (2 * Z.b2z pf)) = enc sz false pf.
Proof.
  intros Hd Hp. rewrite <- (enc_id sz) at 1. destruct pf.
  - change (2 * Z.b2z true) with PREV_FREE. rewrite enc_set_prev_free by done. apply u32_small. by apply enc_range.
  - rewrite Z.lor_0_r. apply u32_small. by apply enc_range.
Qed.

Lemma enc_grow sz free pf n : enc sz free pf + n + 16 = enc (sz + n + 16) free pf.
Proof. unfold enc. lia. Qed.

(** ** Rounding *)

Lemma mem_align_mask x : MEM_ALIGN_MASK x = 16 * (x / 16).
Proof. unfold MEM_ALIGN_MASK. change (MEM_ALIGN - 1) with (2 ^ 4 - 1). by rewrite ldiff_low. Qed.

Lemma roundup_size r : 0 ≤ r ≤ 2 ^ 64 - 16 → r ≤ ROUNDUP_SIZE r < r + 16 ∧ (16 | ROUNDUP_SIZE r).
Proof.
  intros ?. unfold ROUNDUP_SIZE. change MEM_ALIGN with 16. rewrite u64_small, mem_align_mask by lia.
  pose proof (Z.div_mod (r + 16 - 1) 16 ltac:(lia)). pose proof (Z.mod_pos_bound (r + 16 - 1) 16 ltac:(lia)).
  split; [lia|]. apply Z.divide_factor_l.
Qed.

Lemma rounddown_size r : (16 | r) → ROUNDDOWN_SIZE r = r.
Proof. intros [q ->]. unfold ROUNDDOWN_SIZE. rewrite mem_align_mask, Z.div_mul by lia. lia. Qed.
