(* ===== verification/TlsfLists.v ===== *)
(** * The free lists of the pool allocator

    Reading and writing cells, doubly linked lists in memory, the two levels of
    bitmaps, and what inserting, extracting and searching do to the lists. *)

From S2P Require Import Prelude BootMem PageAlloc Tlsf TlsfMap.
Local Open Scope xen_scope.

(** ** Cells *)

Section cells.
Context {H : Type}.
Implicit Type (w : world H).

Definition poke (x v : Z) (w : world H) : world H := mk_world (<[x := v]> (w_mem w)) (w_held w) (w_heap w).
Definition acc (w : world H) (x : Z) : Prop := x / PAGE_SIZE ∈ w_held w.

Lemma rd_ok x w : acc w x → rd x w = Ok (peek w x).
Proof. intros ?. unfold rd. by rewrite bool_decide_eq_true_2. Qed.

Lemma wr_ok x v w : acc w x → wr x v w = Ok (poke x v w).
Proof. intros ?. unfold wr. by rewrite bool_decide_eq_true_2. Qed.

Lemma peek_poke x v w : peek (poke x v w) x = v.
Proof. unfold peek, poke. simpl. by rewrite lookup_insert_eq. Qed.

Lemma peek_poke_ne x y v w : x ≠ y → peek (poke x v w) y = peek w y.
Proof. intros. unfold peek, poke. simpl. by rewrite lookup_insert_ne. Qed.

Lemma acc_same_page w x y : (16 | x) → x ≤ y < x + 16 → acc w x → acc w y.
Proof.
  intros [q ->] Hy. unfold acc. replace (y / PAGE_SIZE) with (q * 16 / PAGE_SIZE); [done|].
  change PAGE_SIZE with (16 * 256). rewrite <- !Z.div_div by lia.
  rewrite Z.div_mul by lia. f_equal. apply (Z.div_unique _ _ _ (y - q * 16)); lia.
Qed.

(** Only cells in [D] change. *)
Definition frame (D : Z → Prop) (w w' : world H) : Prop :=
  w_held w' = w_held w ∧ w_heap w' = w_heap w ∧ ∀ x, ¬ D x → peek w' x = peek w x.

Lemma frame_refl D w : frame D w w.
Proof. done. Qed.

Lemma frame_trans D1 D2 w1 w2 w3 : frame D1 w1 w2 → frame D2 w2 w3 → frame (λ x, D1 x ∨ D2 x) w1 w3.
Proof.
  intros (A1 & A2 & A3) (B1 & B2 & B3). split; [congruence|]. split; [congruence|].
  intros x Hx. rewrite B3, A3 by tauto. done.
Qed.

Lemma frame_poke (D : Z → Prop) x v w : D x → frame D w (poke x v w).
Proof. intros Hx. split; [done|]. split; [done|]. intros y Hy. apply peek_poke_ne. intros ->. done. Qed.

Lemma frame_weaken (D D' : Z → Prop) w w' : (∀ x, D x → D' x) → frame D w w' → frame D' w w'.
Proof. intros HD (A1 & A2 & A3). split; [done|]. split; [done|]. intros x Hx. apply A3. auto. Qed.

Lemma frame_acc D w w' x : frame D w w' → acc w x → acc w' x.
Proof. intros (E & _). unfold acc. by rewrite E. Qed.
End cells.

(** ** Doubly linked lists *)

Section linked.
Context {H : Type}.
Implicit Type (w : world H).

Definition hd_or (n : Z) (l : list Z) : Z := default n (head l).
Definition last_or (q : Z) (l : list Z) : Z := default q (last l).

(** [l] is linked between a block [q] before it and [n] after it. *)
Fixpoint linked (w : world H) (q : Z) (l : list Z) (n : Z) : Prop :=
  match l with
  | [] => True
  | a :: l' => peek w (a_prev a) = q ∧ peek w (a_next a) = hd_or n l' ∧ linked w a l' n
  end.

Definition aligned (l : list Z) : Prop := ∀ a, a ∈ l → (16 | a).

Lemma last_or_cons q a l : last_or q (a :: l) = last_or a l.
Proof. unfold last_or. rewrite last_cons. by destruct (last l). Qed.

Lemma hd_or_app n l1 l2 : hd_or n (l1 ++ l2) = hd_or (hd_or n l2) l1.
Proof. by destruct l1. Qed.

Lemma linked_app w q l1 l2 n :
  linked w q (l1 ++ l2) n ↔ linked w q l1 (hd_or n l2) ∧ linked w (last_or q l1) l2 n.
Proof.
  revert q. induction l1 as [|a l1 IH]; intros q; simpl; [tauto|].
  rewrite last_or_cons, IH, hd_or_app. tauto.
Qed.

Lemma linked_ext w w' q l n :
  (∀ a, a ∈ l → peek w' (a_prev a) = peek w (a_prev a) ∧ peek w' (a_next a) = peek w (a_next a)) →
  linked w q l n → linked w' q l n.
Proof.
  revert q. induction l as [|a l IH]; intros q Hl; simpl; [done|]. intros (H1 & H2 & H3).
  destruct (Hl a) as [-> ->]; [by left|]. split; [done|]. split; [done|]. apply IH; [|done]. intros b Hb. apply Hl. by right.
Qed.

Lemma link_cells_ne a b : (16 | a) → (16 | b) → a_prev a ≠ a_next b ∧ (a ≠ b → a_prev a ≠ a_prev b ∧ a_next a ≠ a_next b).
Proof. intros [q ->] [r ->]. unfold a_prev, a_next. lia. Qed.

Lemma linked_poke_prev w q l n a v :
  aligned l → (16 | a) → a ∉ l → linked w q l n → linked (poke (a_prev a) v w) q l n.
Proof.
  intros Hal Ha Hn. apply linked_ext. intros b Hb. assert (a ≠ b) by (intros ->; done).
  destruct (link_cells_ne a b Ha (Hal b Hb)) as [E1 E2]. destruct E2; [done|]. by rewrite !peek_poke_ne.
Qed.

Lemma linked_poke_next w q l n a v :
  aligned l → (16 | a) → a ∉ l → linked w q l n → linked (poke (a_next a) v w) q l n.
Proof.
  intros Hal Ha Hn. apply linked_ext. intros b Hb. assert (a ≠ b) by (intros ->; done).
  destruct (link_cells_ne b a (Hal b Hb) Ha) as [E1 E2]. destruct E2; [done|]. by rewrite !peek_poke_ne.
Qed.

(** Relinking at the ends. *)
Lemma linked_set_prev w q l n a q' :
  aligned (a :: l) → NoDup (a :: l) → linked w q (a :: l) n → linked (poke (a_prev a) q' w) q' (a :: l) n.
Proof.
  intros Hal [Ha Hnd]%NoDup_cons (H1 & H2 & H3). assert (16 | a) as Da by (apply Hal; by left).
  simpl. split; [by rewrite peek_poke|]. split.
  - rewrite peek_poke_ne by apply (link_cells_ne a a Da Da). done.
  - apply linked_poke_prev; [|done|done|done]. intros b Hb. apply Hal. by right.
Qed.

Lemma linked_set_next w q l n a n' :
  aligned (l ++ [a]) → NoDup (l ++ [a]) → linked w q (l ++ [a]) n → linked (poke (a_next a) n' w) q (l ++ [a]) n'.
Proof.
  intros Hal Hnd. rewrite !linked_app. intros [H1 (H2 & H3 & _)].
  assert (16 | a) as Da by (apply Hal; set_solver). apply NoDup_app in Hnd as (Hnd & Hx & _). split.
  - apply linked_poke_next; [intros b Hb; apply Hal; set_solver|done|intros Hin; apply (Hx a Hin); set_solver|done].
  - simpl. rewrite peek_poke, peek_poke_ne; [done|]. by destruct (link_cells_ne a a Da Da).
Qed.

(** [if ( n ) n->prev = v;] and [if ( q ) q->next = v;] *)
Definition relink_prev (n v : Z) (w : world H) : world H := if negb (n =? 0) then poke (a_prev n) v w else w.
Definition relink_next (q v : Z) (w : world H) : world H := if negb (q =? 0) then poke (a_next q) v w else w.

Lemma hd_or_in l : hd_or 0 l = 0 ∨ hd_or 0 l ∈ l.
Proof. destruct l as [|a l]; [by left|right; by left]. Qed.

Lemma last_or_in l : last_or 0 l = 0 ∨ last_or 0 l ∈ l.
Proof.
  unfold last_or. destruct (last l) as [a|] eqn:E; [right|by left]. apply last_Some in E as [l' ->]. simpl. set_solver.
Qed.

Lemma linked_relink_prev w q l n v :
  aligned l → NoDup l → 0 ∉ l → linked w q l n → linked (relink_prev (hd_or 0 l) v w) v l n.
Proof.
  intros Hal Hnd H0. destruct l as [|a l]; [done|]. unfold relink_prev. change (hd_or 0 (a :: l)) with a.
  rewrite (proj2 (Z.eqb_neq a 0)) by (intros ->; apply H0; by left). by apply linked_set_prev.
Qed.

Lemma linked_relink_next w q l n v :
  aligned l → NoDup l → 0 ∉ l → linked w q l n → linked (relink_next (last_or 0 l) v w) q l v.
Proof.
  intros Hal Hnd H0. destruct l as [|a l _] using rev_ind; [done|]. unfold relink_next, last_or.
  rewrite last_snoc. change (default 0 (Some a)) with a.
  rewrite (proj2 (Z.eqb_neq a 0)) by (intros ->; apply H0; set_solver). by apply linked_set_next.
Qed.

Lemma linked_relink_prev_other w q l n a v :
  aligned l → (a ≠ 0 → (16 | a)) → a ∉ l → linked w q l n → linked (relink_prev a v w) q l n.
Proof. intros ???. unfold relink_prev. destruct (Z.eqb_spec a 0); [done|]. apply linked_poke_prev; auto. Qed.

Lemma linked_relink_next_other w q l n a v :
  aligned l → (a ≠ 0 → (16 | a)) → a ∉ l → linked w q l n → linked (relink_next a v w) q l n.
Proof. intros ???. unfold relink_next. destruct (Z.eqb_spec a 0); [done|]. apply linked_poke_next; auto. Qed.

Lemma relink_prev_ok n v w :
  (n ≠ 0 → acc w (a_prev n)) → (if negb (n =? 0) then wr (a_prev n) v w else Ok w) = Ok (relink_prev n v w).
Proof. intros Ha. unfold relink_prev. destruct (Z.eqb_spec n 0); [done|]. apply wr_ok. auto. Qed.

Lemma relink_next_ok q v w :
  (q ≠ 0 → acc w (a_next q)) → (if negb (q =? 0) then wr (a_next q) v w else Ok w) = Ok (relink_next q v w).
Proof. intros Ha. unfold relink_next. destruct (Z.eqb_spec q 0); [done|]. apply wr_ok. auto. Qed.

Lemma peek_relink_prev n v w a :
  (n ≠ 0 → (16 | n)) → (16 | a) → a ≠ n →
  peek (relink_prev n v w) (a_prev a) = peek w (a_prev a) ∧ peek (relink_prev n v w) (a_next a) = peek w (a_next a).
Proof.
  intros Hn Ha Hne. unfold relink_prev. destruct (Z.eqb_spec n 0) as [|H0]; [done|]. cbn [negb].
  destruct (link_cells_ne n a (Hn H0) Ha) as [N1 N2]. destruct N2; [done|]. by rewrite !peek_poke_ne.
Qed.

Lemma peek_relink_next q v w a :
  (q ≠ 0 → (16 | q)) → (16 | a) → a ≠ q →
  peek (relink_next q v w) (a_prev a) = peek w (a_prev a) ∧ peek (relink_next q v w) (a_next a) = peek w (a_next a).
Proof.
  intros Hn Ha Hne. unfold relink_next. destruct (Z.eqb_spec q 0) as [|H0]; [done|]. cbn [negb].
  destruct (link_cells_ne a q Ha (Hn H0)) as [N1 N2]. destruct N2; [done|]. rewrite !peek_poke_ne by congruence. done.
Qed.
End linked.

(** ** Bitmaps *)

Lemma ffs_bit x : 0 ≤ x → x ≠ 0 → 0 ≤ ffs x - 1 ∧ Z.testbit x (ffs x - 1) = true.
Proof.
  intros Hx Hn. unfold ffs. case_Z; [done|]. replace (Z.log2 (Z.land x (- x)) + 1 - 1) with (Z.log2 (Z.land x (- x))) by lia.
  split; [apply Z.log2_nonneg|]. assert (0 < Z.land x (- x)) as Hp.
  { assert (0 ≤ Z.land x (- x)) by (apply Z.land_nonneg; auto). assert (Z.land x (- x) ≠ 0); [|lia].
    replace (- x) with (Z.lnot (x - 1)) by (unfold Z.lnot; lia). rewrite <- Z.ldiff_land. intros E.
    assert (Z.sub (x - 1) x = Z.ldiff (x - 1) x) as E' by (by apply Z.sub_nocarry_ldiff).
    assert (0 ≤ Z.ldiff (x - 1) x); [apply Z.ldiff_nonneg; lia|lia]. }
  pose proof (Z.bit_log2 _ Hp) as E. rewrite Z.land_spec in E. by apply andb_true_iff in E as [? _].
Qed.

Lemma mask_bit n i : 0 ≤ n → 0 ≤ i < 32 → Z.testbit (u32 (Z.shiftl (-1) n)) i = (n <=? i).
Proof.
  intros Hn Hi. unfold u32. rewrite Z.mod_pow2_bits_low, Z.shiftl_spec by lia. case_Z; [by rewrite Z.bits_m1 by lia|].
  by rewrite Z.testbit_neg_r by lia.
Qed.

Lemma bit_lt x n i : 0 ≤ n → 0 ≤ x < 2 ^ n → Z.testbit x i = true → 0 ≤ i < n.
Proof.
  intros Hn [H0 H1] Hb. destruct (decide (0 ≤ i)) as [Hi|]; [|by rewrite Z.testbit_neg_r in Hb by lia].
  split; [done|]. destruct (decide (i < n)) as [|Hge]; [done|]. exfalso.
  destruct (decide (x = 0)) as [-> |]; [by rewrite Z.bits_0 in Hb|].
  rewrite Z.bits_above_log2 in Hb; [done|done|]. assert (Z.log2 x < n) by (apply Z.log2_lt_pow2; lia). lia.
Qed.

Lemma bits_lt_pow2 x n : 0 ≤ n → 0 ≤ x → (∀ i, n ≤ i → Z.testbit x i = false) → x < 2 ^ n.
Proof.
  intros Hn Hx Hb. destruct (decide (x = 0)) as [-> |]; [apply Z.pow_pos_nonneg; lia|].
  apply Z.log2_lt_pow2; [lia|]. destruct (decide (Z.log2 x < n)) as [|Hge]; [done|].
  pose proof (Z.bit_log2 x ltac:(lia)) as E. rewrite Hb in E by lia. done.
Qed.

Lemma setbit_range x n i : 0 ≤ i < n → 0 ≤ x < 2 ^ n → 0 ≤ Z.setbit x i < 2 ^ n.
Proof.
  intros Hi [H0 H1]. assert (0 ≤ Z.setbit x i) by (rewrite Z.setbit_spec'; apply Z.lor_nonneg; split; [done|]; apply Z.pow_nonneg; lia).
  split; [done|]. apply bits_lt_pow2; [lia|done|]. intros j Hj. rewrite Z.setbit_eqb by lia.
  destruct (Z.testbit x j) eqn:E; [|by rewrite orb_false_r; apply Z.eqb_neq; lia].
  pose proof (bit_lt x n j ltac:(lia) ltac:(lia) E). lia.
Qed.

Lemma clearbit_range x n i : 0 ≤ i < n → 0 ≤ x < 2 ^ n → 0 ≤ Z.clearbit x i < 2 ^ n.
Proof.
  intros Hi [H0 H1]. assert (0 ≤ Z.clearbit x i) by (rewrite Z.clearbit_spec'; apply Z.ldiff_nonneg; lia).
  split; [done|]. apply bits_lt_pow2; [lia|done|]. intros j Hj. rewrite Z.clearbit_eqb.
  destruct (Z.testbit x j) eqn:E; [|done]. pose proof (bit_lt x n j ltac:(lia) ltac:(lia) E). lia.
Qed.

Lemma setbit_ne0 x i : 0 ≤ i → Z.setbit x i ≠ 0.
Proof. intros Hi E. pose proof (Z.setbit_eq x i Hi) as E'. by rewrite E, Z.bits_0 in E'. Qed.

Definition sl_map (p : xmem_pool) (fl : Z) : Z := default 0 (sl_bitmap p !! fl).

(** [ne fl sl] says which lists are not empty. *)
Record bits_rep (p : xmem_pool) (ne : Z → Z → bool) : Prop := {
  br_fl : 0 ≤ fl_bitmap p < 2 ^ REAL_FLI;
  br_sl fl : 0 ≤ sl_map p fl < 2 ^ MAX_SLI;
  br_row fl : 0 ≤ fl < REAL_FLI → Z.testbit (fl_bitmap p) fl = negb (sl_map p fl =? 0);
  br_cell fl sl : class_ok fl sl → Z.testbit (sl_map p fl) sl = ne fl sl;
}.

Definition mark (fl sl : Z) (v : bool) (ne : Z → Z → bool) (f s : Z) : bool :=
  if bool_decide ((f, s) = (fl, sl)) then v else ne f s.

Lemma bits_rep_ext p p' ne ne' :
  fl_bitmap p' = fl_bitmap p → sl_bitmap p' = sl_bitmap p → (∀ f s, class_ok f s → ne' f s = ne f s) →
  bits_rep p ne → bits_rep p' ne'.
Proof.
  intros E1 E2 En [B1 B2 B3 B4]. split; unfold sl_map in *; rewrite ?E1, ?E2; auto.
  intros fl sl Hc. rewrite En by done. auto.
Qed.

Lemma sl_of_ok p fl : 0 ≤ fl < REAL_FLI → sl_of p fl = Ok (sl_map p fl).
Proof. intros ?. unfold sl_of. rewrite (proj2 (Z.leb_le _ _)), (proj2 (Z.ltb_lt _ _)) by lia. done. Qed.

Lemma sl_map_insert p fb v fl f m :
  sl_map (upd_lists fb (<[fl := v]> (sl_bitmap p)) m p) f = if bool_decide (f = fl) then v else sl_map p f.
Proof.
  unfold sl_map. simpl. destruct (decide (f = fl)) as [-> |].
  - by rewrite lookup_insert_eq, bool_decide_eq_true_2.
  - by rewrite lookup_insert_ne, bool_decide_eq_false_2.
Qed.

Lemma set_bits_spec p ne fl sl :
  class_ok fl sl → bits_rep p ne →
  ∃ fb sb, set_bits fl sl p = Ok (upd_lists fb sb (matrix p) p) ∧
    bits_rep (upd_lists fb sb (matrix p) p) (mark fl sl true ne).
Proof.
  intros [Hf Hs] [B1 B2 B3 B4]. unfold set_bits. rewrite sl_of_ok by done. cbn [mbind outcome_bind].
  eexists _, _. split; [done|]. split; cbn [fl_bitmap upd_lists].
  - by apply setbit_range.
  - intros f. rewrite sl_map_insert. destruct (decide (f = fl)) as [-> |].
    + rewrite bool_decide_eq_true_2 by done. by apply setbit_range.
    + by rewrite bool_decide_eq_false_2.
  - intros f Hf'. rewrite sl_map_insert, Z.setbit_eqb by lia. destruct (decide (f = fl)) as [-> |].
    + rewrite bool_decide_eq_true_2, Z.eqb_refl by done. simpl. symmetry. apply negb_true_iff, Z.eqb_neq. apply setbit_ne0. lia.
    + rewrite bool_decide_eq_false_2 by done. rewrite (proj2 (Z.eqb_neq fl f)) by congruence. simpl. auto.
  - intros f s Hc. rewrite sl_map_insert. unfold mark. destruct (decide (f = fl)) as [-> |].
    + rewrite bool_decide_eq_true_2, Z.setbit_eqb by (done || lia). destruct (decide (s = sl)) as [-> |].
      * by rewrite Z.eqb_refl, bool_decide_eq_true_2.
      * rewrite (proj2 (Z.eqb_neq sl s)), bool_decide_eq_false_2 by congruence. simpl. auto.
    + rewrite !bool_decide_eq_false_2 by congruence. auto.
Qed.

Lemma clear_bits_spec p ne fl sl :
  class_ok fl sl → bits_rep p ne →
  ∃ fb sb, clear_bits fl sl p = Ok (upd_lists fb sb (matrix p) p) ∧
    bits_rep (upd_lists fb sb (matrix p) p) (mark fl sl false ne).
Proof.
  intros [Hf Hs] [B1 B2 B3 B4]. unfold clear_bits. rewrite sl_of_ok by done. cbn [mbind outcome_bind].
  eexists _, _. split; [done|]. split; cbn [fl_bitmap upd_lists].
  - case_Z; [by apply clearbit_range|done].
  - intros f. rewrite sl_map_insert. destruct (decide (f = fl)) as [-> |].
    + rewrite bool_decide_eq_true_2 by done. by apply clearbit_range.
    + by rewrite bool_decide_eq_false_2.
  - intros f Hf'. rewrite sl_map_insert. destruct (decide (f = fl)) as [-> |].
    + rewrite bool_decide_eq_true_2 by done. destruct (Z.eqb_spec (Z.clearbit (sl_map p fl) sl) 0) as [E|E].
      * simpl. apply Z.clearbit_eq.
      * rewrite B3 by done. apply negb_true_iff, Z.eqb_neq. intros E0. apply E. rewrite E0. apply Z.bits_inj'.
        intros i _. by rewrite Z.clearbit_eqb, Z.bits_0.
    + rewrite bool_decide_eq_false_2, <- B3 by done. case_Z; [|done]. apply Z.clearbit_neq. congruence.
  - intros f s Hc. rewrite sl_map_insert. unfold mark. destruct (decide (f = fl)) as [-> |].
    + rewrite bool_decide_eq_true_2, Z.clearbit_eqb by (done || lia). destruct (decide (s = sl)) as [-> |].
      * by rewrite Z.eqb_refl, bool_decide_eq_true_2, andb_false_r.
      * rewrite (proj2 (Z.eqb_neq sl s)), bool_decide_eq_false_2, andb_true_r by congruence. auto.
    + rewrite !bool_decide_eq_false_2 by congruence. auto.
Qed.

(** ** The free lists of a pool *)

Abbreviation flists := (gmap (Z * Z) (list Z)).
Definition lst (L : flists) (c : Z * Z) : list Z := default [] (L !! c).
Definition in_lists (L : flists) (a : Z) : Prop := ∃ c, a ∈ lst L c.

Lemma lst_insert L c l : lst (<[c := l]> L) c = l.
Proof. unfold lst. by rewrite lookup_insert_eq. Qed.

Lemma lst_insert_ne L c c' l : c' ≠ c → lst (<[c := l]> L) c' = lst L c'.
Proof. intros. unfold lst. by rewrite lookup_insert_ne. Qed.

(** The cells with the links of the free blocks. *)
Definition link_cell (P : Z → Prop) (x : Z) : Prop := ∃ a, P a ∧ (x = a_prev a ∨ x = a_next a).

(** The counters and sizes are as before. *)
Definition same_stats (p p' : xmem_pool) : Prop :=
  init_size p' = init_size p ∧ max_size p' = max_size p ∧ grow_size p' = grow_size p ∧
  used_size p' = used_size p ∧ num_regions p' = num_regions p ∧ init_region p' = init_region p.

Section lists.
Context {H : Type}.

Definition nonempty (L : flists) (fl sl : Z) : bool := negb (bool_decide (lst L (fl, sl) = [])).
Definition head_of (p : xmem_pool) (c : Z * Z) : Z := default 0 (matrix p !! c).

(** The lists [L] in the memory of the pool. *)
Record lists_rep (p : xmem_pool) (w : world H) (L : flists) : Prop := {
  lr_bits : bits_rep p (nonempty L);
  lr_head fl sl : class_ok fl sl → head_of p (fl, sl) = hd_or 0 (lst L (fl, sl));
  lr_link c : linked w 0 (lst L c) 0;
  lr_nodup c : NoDup (lst L c);
  lr_once c c' a : a ∈ lst L c → a ∈ lst L c' → c = c';
  lr_class fl sl a : a ∈ lst L (fl, sl) → class_ok fl sl;
  lr_addr c a : a ∈ lst L c → (16 | a) ∧ 0 < a ∧ acc w (a_prev a);
}.

(** Replacing one list. *)
Lemma lists_rep_upd p p' w w' L fl sl l' :
  lists_rep p w L → class_ok fl sl →
  bits_rep p' (mark fl sl (negb (bool_decide (l' = []))) (nonempty L)) →
  (∀ c, head_of p' c = if bool_decide (c = (fl, sl)) then hd_or 0 l' else head_of p c) →
  linked w' 0 l' 0 → NoDup l' →
  (∀ a, a ∈ l' → (16 | a) ∧ 0 < a ∧ acc w (a_prev a)) →
  (∀ a c, a ∈ l' → a ∈ lst L c → c = (fl, sl)) →
  w_held w' = w_held w →
  (∀ c a, c ≠ (fl, sl) → a ∈ lst L c →
     peek w' (a_prev a) = peek w (a_prev a) ∧ peek w' (a_next a) = peek w (a_next a)) →
  lists_rep p' w' (<[(fl, sl) := l']> L).
Proof.
  intros [R1 R2 R3 R4 R5 R6 R7] Hc Hb Hm Hl Hnd Ha Hd Hh Hf. split.
  - eapply bits_rep_ext; [| | |exact Hb]; [done|done|]. intros f s Hfs. unfold mark, nonempty.
    destruct (decide ((f, s) = (fl, sl))) as [E|Hne].
    + injection E as -> ->. by rewrite lst_insert, (bool_decide_eq_true_2 ((fl, sl) = (fl, sl))).
    + by rewrite lst_insert_ne, (bool_decide_eq_false_2 ((f, s) = _)).
  - intros f s Hfs. rewrite Hm. destruct (decide ((f, s) = (fl, sl))) as [E|Hne].
    + rewrite E, lst_insert. by rewrite bool_decide_eq_true_2.
    + rewrite lst_insert_ne, bool_decide_eq_false_2 by done. auto.
  - intros c. destruct (decide (c = (fl, sl))) as [-> |Hne]; [by rewrite lst_insert|].
    rewrite lst_insert_ne by done. eapply linked_ext; [|apply R3]. eauto.
  - intros c. destruct (decide (c = (fl, sl))) as [-> |Hne]; [by rewrite lst_insert|]. by rewrite lst_insert_ne.
  - intros c c' a. destruct (decide (c = (fl, sl))) as [-> |Hne], (decide (c' = (fl, sl))) as [-> |Hne'];
      rewrite ?lst_insert, ?lst_insert_ne by done; [done| | |by apply R5].
    + intros H1 H2. symmetry. eauto.
    + eauto.
  - intros f s a. destruct (decide ((f, s) = (fl, sl))) as [E|Hne]; [by injection E as -> ->|].
    rewrite lst_insert_ne by done. apply R6.
  - intros c a. unfold acc. rewrite Hh. destruct (decide (c = (fl, sl))) as [-> |Hne].
    + rewrite lst_insert. apply Ha.
    + rewrite lst_insert_ne by done. apply R7.
Qed.

Lemma matrix_of_ok p fl sl : class_ok fl sl → matrix_of p fl sl = Ok (head_of p (fl, sl)).
Proof. intros Hc. unfold matrix_of. by rewrite in_matrix_true. Qed.

Lemma set_matrix_ok p fl sl b :
  class_ok fl sl → set_matrix fl sl b p = Ok (upd_lists (fl_bitmap p) (sl_bitmap p) (<[(fl, sl) := b]> (matrix p)) p).
Proof. intros Hc. unfold set_matrix. by rewrite in_matrix_true. Qed.

Lemma head_of_insert p fb sb fl sl b c :
  head_of (upd_lists fb sb (<[(fl, sl) := b]> (matrix p)) p) c = if bool_decide (c = (fl, sl)) then b else head_of p c.
Proof.
  unfold head_of. simpl. destruct (decide (c = (fl, sl))) as [-> |].
  - by rewrite lookup_insert_eq, bool_decide_eq_true_2.
  - by rewrite lookup_insert_ne, bool_decide_eq_false_2.
Qed.

Lemma lists_aligned p w L c : lists_rep p w L → aligned (lst L c).
Proof. intros HR a Ha. by apply (lr_addr _ _ _ HR c a). Qed.

Lemma acc_next (w : world H) a : (16 | a) → acc w (a_prev a) → acc w (a_next a).
Proof.
  intros Ha. apply acc_same_page; [|unfold a_prev, a_next; lia]. unfold a_prev. by apply Z.divide_add_r; [|exists 1].
Qed.

Lemma set_free_ptr_ok b v n (w : world H) :
  (16 | b) → acc w (a_prev b) → set_free_ptr b v n w = Ok (poke (a_next b) n (poke (a_prev b) v w)).
Proof.
  intros Hb Ha. unfold set_free_ptr. rewrite wr_ok by done. cbn [mbind outcome_bind]. apply wr_ok. by apply acc_next.
Qed.

(** Clearing or setting the links of a block. *)
Lemma peek_set_links b v n (w : world H) a :
  (16 | b) → (16 | a) → a ≠ b →
  peek (poke (a_next b) n (poke (a_prev b) v w)) (a_prev a) = peek w (a_prev a) ∧
  peek (poke (a_next b) n (poke (a_prev b) v w)) (a_next a) = peek w (a_next a).
Proof.
  intros Hb Ha Hne. destruct (link_cells_ne b a Hb Ha) as [N1 N2], (link_cells_ne a b Ha Hb) as [N3 _].
  destruct N2; [done|]. rewrite !peek_poke_ne by congruence. done.
Qed.

Lemma linked_set_links b v n (w : world H) q l m :
  aligned l → (16 | b) → b ∉ l → linked w q l m → linked (poke (a_next b) n (poke (a_prev b) v w)) q l m.
Proof. intros Hal Hb Hn Hl. apply linked_poke_next; [done..|]. by apply linked_poke_prev. Qed.

(** Frames of the steps: each changes links of listed blocks only. *)
Lemma frame_links (P : Z → Prop) (w w' w'' : world H) :
  frame (link_cell P) w w' → frame (link_cell P) w' w'' → frame (link_cell P) w w''.
Proof. intros F1 F2. eapply frame_weaken; [|exact (frame_trans _ _ _ _ _ F1 F2)]. by intros x [?|?]. Qed.

Lemma frame_set_links (P : Z → Prop) b v n (w : world H) :
  P b → frame (link_cell P) w (poke (a_next b) n (poke (a_prev b) v w)).
Proof. intros Hb. apply (frame_links P _ (poke (a_prev b) v w)); apply frame_poke; exists b; auto. Qed.

Lemma frame_relink_prev (P : Z → Prop) n v (w : world H) : (n ≠ 0 → P n) → frame (link_cell P) w (relink_prev n v w).
Proof. intros Hn. unfold relink_prev. destruct (Z.eqb_spec n 0); [done|]. apply frame_poke. exists n. auto. Qed.

Lemma frame_relink_next (P : Z → Prop) q v (w : world H) : (q ≠ 0 → P q) → frame (link_cell P) w (relink_next q v w).
Proof. intros Hn. unfold relink_next. destruct (Z.eqb_spec q 0); [done|]. apply frame_poke. exists q. auto. Qed.

Lemma lists_no_null p w L c : lists_rep p w L → 0 ∉ lst L c.
Proof. intros HR Ha. destruct (lr_addr _ _ _ HR c 0 Ha). lia. Qed.

(** ** Insertion *)

Lemma INSERT_BLOCK_spec p w L b fl sl :
  lists_rep p w L → class_ok fl sl → (16 | b) → 0 < b → acc w (a_prev b) → ¬ in_lists L b →
  ∃ p' w', INSERT_BLOCK b p fl sl w = Ok (p', w') ∧
    lists_rep p' w' (<[(fl, sl) := b :: lst L (fl, sl)]> L) ∧
    frame (link_cell (λ a, a = b ∨ in_lists L a)) w w' ∧ same_stats p p'.
Proof.
  intros HR Hc Hb Hb0 Hacc Hnew. set (l := lst L (fl, sl)). set (h := hd_or 0 l).
  pose proof (lists_aligned p w L (fl, sl) HR : aligned l) as Hal.
  assert (b ∉ l) as Hnl by (intros ?; apply Hnew; by exists (fl, sl)).
  assert (h ≠ 0 → (16 | h) ∧ h ∈ l ∧ acc w (a_prev h)) as Hh.
  { intros Hh. destruct (hd_or_in l) as [|Hin]; [done|]. by destruct (lr_addr _ _ _ HR (fl, sl) h Hin) as (? & _ & ?). }
  unfold INSERT_BLOCK. rewrite matrix_of_ok by done. cbn [mbind outcome_bind]. rewrite set_free_ptr_ok by done.
  cbn [mbind outcome_bind]. rewrite (lr_head _ _ _ HR fl sl Hc). fold l h.
  set (w1 := poke (a_next b) h (poke (a_prev b) 0 w)). rewrite relink_prev_ok by (intros; by apply Hh).
  cbn [mbind outcome_bind]. rewrite set_matrix_ok by done. cbn [mbind outcome_bind].
  destruct (set_bits_spec (upd_lists (fl_bitmap p) (sl_bitmap p) (<[(fl, sl) := b]> (matrix p)) p) (nonempty L) fl sl Hc)
    as (fb & sb & -> & Hbits). { eapply bits_rep_ext; [| | |apply HR]; done. }
  cbn [mbind outcome_bind].
  assert (frame (link_cell (λ a, a = b ∨ in_lists L a)) w (relink_prev h b w1)) as Hfr.
  { eapply frame_links; [apply frame_set_links; by left|]. apply frame_relink_prev. intros ?. right. exists (fl, sl). by apply Hh. }
  eexists _, _. split; [done|]. split; [|split; [exact Hfr|done]].
  eapply lists_rep_upd; [exact HR|done| | | | | | | |].
  - rewrite (bool_decide_eq_false_2 (b :: _ = [])) by done. exact Hbits.
  - intros c. apply (head_of_insert p fb sb).
  - change (b :: l) with ([b] ++ l). rewrite linked_app. change (last_or 0 [b]) with b. split.
    + apply linked_relink_prev_other; [by intros a ->%list_elem_of_singleton|intros; by apply Hh| |].
      { intros E%list_elem_of_singleton. rewrite E in *. by apply Hnl, Hh; lia. }
      destruct (link_cells_ne b b Hb Hb) as [E _]. simpl. unfold w1. rewrite peek_poke, peek_poke_ne, peek_poke by congruence. done.
    + apply (linked_relink_prev w1 0); [done|apply (lr_nodup _ _ _ HR)|by apply (lists_no_null p w)|].
      apply linked_set_links; [done..|]. apply (lr_link _ _ _ HR).
  - constructor; [done|apply (lr_nodup _ _ _ HR)].
  - intros a [-> |Ha]%elem_of_cons; [done|]. by apply (lr_addr _ _ _ HR (fl, sl)).
  - intros a c [-> |Ha]%elem_of_cons Hac; [exfalso; apply Hnew; by exists c|]. by apply (lr_once _ _ _ HR c (fl, sl) a).
  - apply Hfr.
  - intros c a Hne Ha. destruct (lr_addr _ _ _ HR c a Ha) as (Da & Ha0 & _).
    assert (a ≠ b) by (intros ->; apply Hnew; by exists c).
    destruct (peek_relink_prev h b w1 a) as [-> ->]; [intros; by apply Hh|done| |by apply peek_set_links].
    intros ->. apply Hne. apply (lr_once _ _ _ HR _ _ h Ha). apply Hh. lia.
Qed.

(** ** Extraction *)

Section extract.
Context (p : xmem_pool) (w : world H) (L : flists) (HR : lists_rep p w L) (fl sl : Z) (l1 l2 : list Z) (b : Z)
  (Hl : lst L (fl, sl) = l1 ++ b :: l2).

Lemma extract_class : class_ok fl sl.
Proof using HR Hl. apply (lr_class _ _ _ HR fl sl b). rewrite Hl. set_solver. Qed.

Lemma extract_addr a : a ∈ l1 ∨ a = b ∨ a ∈ l2 → (16 | a) ∧ 0 < a ∧ acc w (a_prev a) ∧ acc w (a_next a).
Proof using HR Hl.
  intros Ha. destruct (lr_addr _ _ _ HR (fl, sl) a) as (D & H0 & Hacc); [rewrite Hl; set_solver|].
  repeat (split; [done|]). by apply acc_next.
Qed.

Lemma extract_nodup : NoDup l1 ∧ NoDup l2 ∧ (b ∉ l1) ∧ (b ∉ l2) ∧ ∀ a, a ∈ l1 → a ∉ l2.
Proof using HR Hl.
  pose proof (lr_nodup _ _ _ HR (fl, sl)) as Hnd. rewrite Hl in Hnd. apply NoDup_app in Hnd as (N1 & N2 & [N3 N4]%NoDup_cons).
  repeat (split; [done|]). split; [intros Hb; apply (N2 b Hb); by left|]. split; [done|]. intros a H1 H2. apply (N2 a H1). by right.
Qed.

Lemma extract_links : peek w (a_prev b) = last_or 0 l1 ∧ peek w (a_next b) = hd_or 0 l2.
Proof using HR Hl.
  pose proof (lr_link _ _ _ HR (fl, sl)) as Hk. rewrite Hl, linked_app in Hk. by destruct Hk as [_ (? & ? & _)].
Qed.

(** The memory after the neighbours are relinked. *)
Definition unlinked : world H := relink_next (last_or 0 l1) (hd_or 0 l2) (relink_prev (hd_or 0 l2) (last_or 0 l1) w).

Lemma extract_next : hd_or 0 l2 ≠ 0 → hd_or 0 l2 ∈ l2.
Proof using. destruct (hd_or_in l2); tauto. Qed.

Lemma extract_prev : last_or 0 l1 ≠ 0 → last_or 0 l1 ∈ l1.
Proof using. destruct (last_or_in l1); tauto. Qed.

Lemma unlinked_other a :
  (16 | a) → 0 < a → a ∉ l1 → a ∉ l2 →
  peek unlinked (a_prev a) = peek w (a_prev a) ∧ peek unlinked (a_next a) = peek w (a_next a).
Proof using HR Hl.
  intros Da H0 N1 N2. unfold unlinked.
  destruct (peek_relink_next (last_or 0 l1) (hd_or 0 l2) (relink_prev (hd_or 0 l2) (last_or 0 l1) w) a) as [-> ->]; [|done| |].
  - intros Hn. apply extract_addr. left. by apply extract_prev.
  - intros ->. by apply N1, extract_prev; lia.
  - apply peek_relink_prev; [|done|].
    + intros Hn. apply extract_addr. right. right. by apply extract_next.
    + intros ->. by apply N2, extract_next; lia.
Qed.

Lemma unlinked_linked : linked unlinked 0 (l1 ++ l2) 0.
Proof using HR Hl.
  pose proof (lr_link _ _ _ HR (fl, sl)) as Hk. rewrite Hl, linked_app in Hk. destruct Hk as [Hk1 (_ & _ & Hk2)].
  destruct extract_nodup as (N1 & N2 & N3 & N4 & N5).
  assert (aligned l1 ∧ aligned l2) as [A1 A2] by (split; intros a Ha; apply extract_addr; auto).
  assert ((0 ∉ l1) ∧ (0 ∉ l2)) as [Z1 Z2].
  { pose proof (lists_no_null _ _ _ (fl, sl) HR) as Hz. rewrite Hl in Hz. set_solver. }
  rewrite linked_app. unfold unlinked. split.
  - apply (linked_relink_next _ 0 l1 b); [done..|]. apply linked_relink_prev_other; [done| | |done].
    + intros Hn. apply A2. by apply extract_next.
    + destruct (hd_or_in l2) as [-> |Hin]; [done|]. intros Hin1. by apply (N5 _ Hin1).
  - apply linked_relink_next_other; [done| | |].
    + intros Hn. apply A1. by apply extract_prev.
    + destruct (last_or_in l1) as [-> |Hin]; [done|]. by apply N5.
    + by apply (linked_relink_prev _ b).
Qed.

Lemma EXTRACT_BLOCK_run p1 :
  (if head_of p (fl, sl) =? b then
     let! p1 := set_matrix fl sl (hd_or 0 l2) p in if hd_or 0 l2 =? 0 then clear_bits fl sl p1 else Ok p1
   else Ok p) = Ok p1 →
  EXTRACT_BLOCK b p fl sl w = Ok (p1, poke (a_next b) 0 (poke (a_prev b) 0 unlinked)).
Proof using HR Hl.
  intros Hp. destruct (extract_addr b) as (Db & Hb0 & Ab1 & Ab2); [auto|]. destruct extract_links as [E1 E2].
  destruct extract_nodup as (_ & _ & N1 & N2 & _).
  unfold EXTRACT_BLOCK. rewrite rd_ok by done. cbn [mbind outcome_bind]. rewrite rd_ok by done. cbn [mbind outcome_bind].
  rewrite E1, E2, relink_prev_ok; [|intros Hn; apply extract_addr; right; right; by apply extract_next]. cbn [mbind outcome_bind].
  set (w1 := relink_prev (hd_or 0 l2) (last_or 0 l1) w).
  assert (frame (λ _, True) w w1) as F1 by (eapply frame_weaken; [|apply (frame_relink_prev (λ _, True))]; auto).
  assert (peek w1 (a_prev b) = last_or 0 l1 ∧ peek w1 (a_next b) = hd_or 0 l2) as [E3 E4].
  { unfold w1. destruct (peek_relink_prev (hd_or 0 l2) (last_or 0 l1) w b) as [-> ->]; [|done| |done].
    - intros Hn. apply extract_addr. right. right. by apply extract_next.
    - intros E. apply N2. rewrite E. apply extract_next. lia. }
  rewrite (rd_ok (a_prev b) w1) by (by eapply frame_acc). cbn [mbind outcome_bind]. rewrite (rd_ok (a_next b) w1) by (by eapply frame_acc).
  cbn [mbind outcome_bind]. rewrite E3, E4, relink_next_ok.
  2:{ intros Hn. eapply frame_acc; [exact F1|]. apply extract_addr. left. by apply extract_prev. }
  cbn [mbind outcome_bind]. fold unlinked. rewrite matrix_of_ok by apply extract_class. cbn [mbind outcome_bind].
  assert (acc unlinked (a_prev b) ∧ acc unlinked (a_next b)) as [A3 A4].
  { assert (frame (λ _, True) w1 unlinked) as F2 by (eapply frame_weaken; [|apply (frame_relink_next (λ _, True))]; auto).
    split; (eapply frame_acc; [exact F2|]; by eapply frame_acc). }
  change (relink_next (last_or 0 l1) (hd_or 0 l2) w1) with unlinked.
  rewrite (rd_ok (a_next b) unlinked) by done. cbn [mbind outcome_bind].
  destruct (unlinked_other b Db Hb0 N1 N2) as [_ ->]. rewrite E2, Hp. cbn [mbind outcome_bind].
  rewrite set_free_ptr_ok by done. done.
Qed.
End extract.

Lemma EXTRACT_BLOCK_spec p w L fl sl l1 l2 b :
  lists_rep p w L → lst L (fl, sl) = l1 ++ b :: l2 →
  ∃ p' w', EXTRACT_BLOCK b p fl sl w = Ok (p', w') ∧ lists_rep p' w' (<[(fl, sl) := l1 ++ l2]> L) ∧
    frame (link_cell (in_lists L)) w w' ∧ same_stats p p'.
Proof.
  intros HR Hl. pose proof (extract_class p w L HR fl sl l1 l2 b Hl) as Hc.
  pose proof (extract_addr p w L HR fl sl l1 l2 b Hl) as Haddr.
  destruct (extract_nodup p w L HR fl sl l1 l2 b Hl) as (N1 & N2 & N3 & N4 & N5).
  assert (∃ p', (if head_of p (fl, sl) =? b then
     let! p1 := set_matrix fl sl (hd_or 0 l2) p in if hd_or 0 l2 =? 0 then clear_bits fl sl p1 else Ok p1
     else Ok p) = Ok p' ∧
     bits_rep p' (mark fl sl (negb (bool_decide (l1 ++ l2 = []))) (nonempty L)) ∧ same_stats p p' ∧
     ∀ c, head_of p' c = if bool_decide (c = (fl, sl)) then hd_or 0 (l1 ++ l2) else head_of p c)
    as (p' & Hrun & Hbits & Hst & Hhead).
  { rewrite (lr_head _ _ _ HR fl sl Hc), Hl. destruct l1 as [|a l1]; cbn [app].
    - change (hd_or 0 (b :: l2)) with b. rewrite Z.eqb_refl, set_matrix_ok by done. cbn [mbind outcome_bind].
      destruct l2 as [|n l2]; cbn [app].
      + destruct (clear_bits_spec (upd_lists (fl_bitmap p) (sl_bitmap p) (<[(fl, sl) := 0]> (matrix p)) p) (nonempty L) fl sl Hc)
          as (fb & sb & E & Hbits). { eapply bits_rep_ext; [| | |apply HR]; done. }
        eexists. split; [exact E|]. split; [exact Hbits|]. split; [done|]. intros c. apply (head_of_insert p fb sb).
      + destruct (Haddr n) as (_ & Hn & _); [right; right; by left|]. change (hd_or 0 (n :: l2)) with n.
        rewrite (proj2 (Z.eqb_neq n 0)) by lia. eexists. split; [done|]. split; [|split; [done|]].
        * eapply bits_rep_ext; [| | |apply HR]; [done|done|]. intros f s _. unfold mark. destruct (decide ((f, s) = (fl, sl))) as [E|].
          -- rewrite bool_decide_eq_true_2 by done. unfold nonempty. rewrite E, Hl. done.
          -- by rewrite bool_decide_eq_false_2.
        * intros c. apply head_of_insert.
    - change (hd_or 0 (a :: l1 ++ b :: l2)) with a. rewrite (proj2 (Z.eqb_neq a b)) by (intros ->; apply N3; by left).
      eexists. split; [done|]. split; [|split; [done|]].
      + eapply bits_rep_ext; [| | |apply HR]; [done|done|]. intros f s _. unfold mark. destruct (decide ((f, s) = (fl, sl))) as [E|].
        -- rewrite bool_decide_eq_true_2 by done. unfold nonempty. rewrite E, Hl. done.
        -- by rewrite bool_decide_eq_false_2.
      + intros c. destruct (decide (c = (fl, sl))) as [-> |]; [|by rewrite bool_decide_eq_false_2].
        rewrite bool_decide_eq_true_2 by done. rewrite (lr_head _ _ _ HR fl sl Hc), Hl. done. }
  rewrite (EXTRACT_BLOCK_run p w L HR fl sl l1 l2 b Hl p' Hrun). set (w2 := unlinked w l1 l2).
  destruct (Haddr b) as (Db & Hb0 & Ab & _); [auto|].
  assert (frame (link_cell (in_lists L)) w (poke (a_next b) 0 (poke (a_prev b) 0 w2))) as Hfr.
  { assert (∀ a, a ∈ l1 ∨ a = b ∨ a ∈ l2 → in_lists L a) as Hin by (intros a Ha; exists (fl, sl); rewrite Hl; set_solver).
    eapply frame_links; [|apply frame_set_links; auto]. eapply frame_links; [apply frame_relink_prev|apply frame_relink_next].
    - intros Hn. apply Hin. right. right. by apply extract_next.
    - intros Hn. apply Hin. left. by apply extract_prev. }
  eexists p', _. split; [done|]. split; [|by split].
  eapply lists_rep_upd; [exact HR|done|exact Hbits|exact Hhead| | | | | |].
  - apply linked_set_links; [|done|set_solver|by eapply unlinked_linked]. intros a Ha. apply Haddr. set_solver.
  - apply NoDup_app. auto.
  - intros a Ha. destruct (Haddr a) as (? & ? & ? & _); [set_solver|]. done.
  - intros a c Ha Hac. apply (lr_once _ _ _ HR _ _ a Hac). rewrite Hl. set_solver.
  - apply Hfr.
  - intros c a Hne Ha. destruct (lr_addr _ _ _ HR c a Ha) as (Da & Ha0 & _).
    assert (a ∉ l1 ++ b :: l2) as Hna by (intros Hin; apply Hne; apply (lr_once _ _ _ HR _ _ a Ha); by rewrite Hl).
    destruct (peek_set_links b 0 0 w2 a Db Da) as [-> ->]; [set_solver|].
    eapply unlinked_other; [exact HR|exact Hl|done|done|set_solver|set_solver].
Qed.

Lemma EXTRACT_BLOCK_HDR_eq p w L fl sl l b :
  lists_rep p w L → lst L (fl, sl) = b :: l → EXTRACT_BLOCK_HDR b p fl sl w = EXTRACT_BLOCK b p fl sl w.
Proof.
  intros HR Hl. destruct (extract_addr p w L HR fl sl [] l b Hl b) as (Db & Hb0 & A1 & A2); [auto|].
  destruct (extract_links p w L HR fl sl [] l b Hl) as [_ E2]. pose proof (extract_class p w L HR fl sl [] l b Hl) as Hc.
  assert (∃ p1, (let! p1 := set_matrix fl sl (hd_or 0 l) p in if hd_or 0 l =? 0 then clear_bits fl sl p1 else Ok p1) = Ok p1)
    as [p1 Hp1].
  { rewrite set_matrix_ok by done. cbn [mbind outcome_bind]. case_Z; [|eauto]. unfold clear_bits.
    rewrite sl_of_ok by apply Hc. cbn [mbind outcome_bind]. eauto. }
  rewrite (EXTRACT_BLOCK_run p w L HR fl sl [] l b Hl p1).
  2:{ rewrite (lr_head _ _ _ HR), Hl by done. change (hd_or 0 (b :: l)) with b. by rewrite Z.eqb_refl. }
  unfold EXTRACT_BLOCK_HDR. rewrite rd_ok by done. cbn [mbind outcome_bind]. rewrite E2.
  unfold unlinked, relink_next. change (last_or 0 []) with 0. cbn [negb Z.eqb].
  rewrite set_matrix_ok in Hp1 |- * by done. cbn [mbind outcome_bind] in Hp1 |- *.
  unfold relink_prev. destruct (Z.eqb_spec (hd_or 0 l) 0) as [E0|E0]; cbn [negb].
  - rewrite Hp1. cbn [mbind outcome_bind]. by rewrite set_free_ptr_ok.
  - rewrite wr_ok by (apply (extract_addr p w L HR fl sl [] l b Hl); right; right; by apply extract_next).
    injection Hp1 as <-. cbn [mbind outcome_bind]. by rewrite set_free_ptr_ok.
Qed.

(** ** Search *)

Lemma nonempty_cons L fl sl : nonempty L fl sl = true → ∃ b l, lst L (fl, sl) = b :: l.
Proof. unfold nonempty. intros E. b2p. destruct (lst L (fl, sl)) as [|b l]; [done|eauto]. Qed.

Lemma masked_bit x n i : 0 ≤ n → 0 ≤ x < 2 ^ 32 →
  Z.testbit (Z.land x (u32 (Z.shiftl (-1) n))) i = true ↔ Z.testbit x i = true ∧ n ≤ i.
Proof.
  intros Hn Hx. rewrite Z.land_spec, andb_true_iff. split.
  - intros [H1 H2]. pose proof (bit_lt x 32 i ltac:(lia) Hx H1). rewrite mask_bit in H2 by lia. b2p. done.
  - intros [H1 H2]. pose proof (bit_lt x 32 i ltac:(lia) Hx H1). rewrite mask_bit, Z.leb_le by lia. done.
Qed.

Lemma masked_ffs x n : 0 ≤ n → 0 ≤ x < 2 ^ 32 → let y := Z.land x (u32 (Z.shiftl (-1) n)) in
  if y =? 0 then ∀ i, n ≤ i → Z.testbit x i = false else n ≤ ffs y - 1 ∧ Z.testbit x (ffs y - 1) = true.
Proof.
  intros Hn Hx y. destruct (Z.eqb_spec y 0) as [E|E].
  - intros i Hi. destruct (Z.testbit x i) eqn:Eb; [|done].
    assert (Z.testbit y i = true) as Ey by (by apply masked_bit). by rewrite E, Z.bits_0 in Ey.
  - destruct (ffs_bit y) as [_ Hb]; [apply Z.land_nonneg; left; lia|done|]. by apply masked_bit in Hb as [? ?].
Qed.

(** The search finds a block whenever a list at or after the class has one. *)
Lemma FIND_SUITABLE_BLOCK_spec p w L fl sl :
  lists_rep p w L → class_ok fl sl →
  ∃ b fl' sl', FIND_SUITABLE_BLOCK p fl sl = Ok (b, fl', sl') ∧
    (b = 0 ∧ (∀ f s, class_ok f s → class_le fl sl f s → lst L (f, s) = []) ∨
     class_le fl sl fl' sl' ∧ 0 < b ∧ ∃ l, lst L (fl', sl') = b :: l).
Proof.
  intros HR [Hf Hs]. destruct (lr_bits _ _ _ HR) as [B1 B2 B3 B4]. change MAX_SLI with 32 in *.
  assert (∀ f s, 0 ≤ f < REAL_FLI → Z.testbit (sl_map p f) s = true → ∃ b l, lst L (f, s) = b :: l ∧ 0 < b ∧ matrix_of p f s = Ok b) as Hget.
  { intros f s Hf' Hb. pose proof (bit_lt _ 32 s ltac:(lia) (B2 f) Hb) as Hs'. assert (class_ok f s) as Hc by done.
    rewrite B4 in Hb by done. destruct (nonempty_cons _ _ _ Hb) as (b & l & E). exists b, l. split; [done|].
    rewrite matrix_of_ok, (lr_head _ _ _ HR), E by done. split; [|done]. apply (lr_addr _ _ _ HR (f, s) b). rewrite E. by left. }
  assert (∀ f s, class_ok f s → Z.testbit (sl_map p f) s = false → lst L (f, s) = []) as Hno.
  { intros f s Hc Hb. rewrite B4 in Hb by done. unfold nonempty in Hb. by b2p. }
  unfold FIND_SUITABLE_BLOCK. rewrite (sl_of_ok p fl Hf). cbn [mbind outcome_bind].
  pose proof (masked_ffs (sl_map p fl) sl ltac:(lia) (B2 fl)) as Hm. cbn zeta in Hm.
  destruct (Z.eqb_spec (Z.land (sl_map p fl) (u32 (Z.shiftl (-1) sl))) 0) as [E0|E0]; cbn [negb].
  2:{ destruct Hm as [Hle Hbit]. destruct (Hget fl _ Hf Hbit) as (b & l & El & Hb0 & ->). cbn [mbind outcome_bind].
      eexists _, _, _. split; [done|]. right. split; [right; lia|]. eauto. }
  assert (0 ≤ fl_bitmap p < 2 ^ 32) as B1' by (change REAL_FLI with 24 in B1; lia).
  pose proof (masked_ffs (fl_bitmap p) (fl + 1) ltac:(lia) B1') as Hm'. cbn zeta in Hm'.
  set (y := Z.land (fl_bitmap p) (u32 (Z.shiftl (-1) (fl + 1)))) in *. destruct (Z.eqb_spec y 0) as [Ey|Ey].
  - rewrite Ey. change (ffs 0) with 0. cbn [Z.ltb]. change (0 <? 0 - 1) with false. eexists _, _, _. split; [done|]. left. split; [done|].
    intros f s Hc Hle. apply Hno; [done|]. destruct Hle as [Hlt|[<- Hle]]; [|by apply Hm]. destruct Hc as [Hf' Hs'].
    pose proof (Hm' f ltac:(lia)) as Hz. rewrite B3 in Hz by done. b2p. by rewrite Hz, Z.bits_0.
  - destruct Hm' as [Hle Hbit]. rewrite (proj2 (Z.ltb_lt _ _)) by lia.
    pose proof (bit_lt _ 24 _ ltac:(lia) B1 Hbit : 0 ≤ _ < REAL_FLI) as Hf'. rewrite sl_of_ok by done. cbn [mbind outcome_bind].
    rewrite B3 in Hbit by done. b2p. destruct (ffs_bit (sl_map p (ffs y - 1))) as [_ Hb']; [apply B2|done|].
    destruct (Hget _ _ Hf' Hb') as (b & l & El & Hb0 & ->). cbn [mbind outcome_bind].
    eexists _, _, _. split; [done|]. right. split; [left; lia|]. eauto.
Qed.
End lists.
