(* ===== verification/TlsfBlocks.v ===== *)
(** * The blocks of a pool

    A region is a list of blocks, each with its size and whether it is free,
    laid out from the base of the region and closed by a sentinel header. The
    headers in memory ([prev_hdr], sizes and flags) are determined by the list. *)

From S2P Require Import Prelude BootMem PageAlloc Tlsf TlsfMap TlsfLists.
Local Open Scope xen_scope.

Abbreviation blocks := (list (Z * bool)).
Abbreviation regions := (gmap Z blocks).

(** ** Layout *)

Fixpoint span (l : blocks) : Z :=
  match l with [] => 0 | (s, _) :: l' => 16 + s + span l' end.

(** The bytes of a region: its blocks and the sentinel. *)
Definition rlen (l : blocks) : Z := span l + 16.

(** There is a block at [x], or a header (a block's or the sentinel's). *)
Fixpoint block_in (a : Z) (l : blocks) (x s : Z) (f : bool) : Prop :=
  match l with
  | [] => False
  | (s0, f0) :: l' => x = a ∧ s = s0 ∧ f = f0 ∨ block_in (a + 16 + s0) l' x s f
  end.
Fixpoint hdr_in (a : Z) (l : blocks) (x : Z) : Prop :=
  match l with
  | [] => x = a
  | (s0, _) :: l' => x = a ∨ hdr_in (a + 16 + s0) l' x
  end.

(** The last block, and whether it is free. *)
Fixpoint lastb (a prev : Z) (l : blocks) : Z :=
  match l with [] => prev | (s, _) :: l' => lastb (a + 16 + s) a l' end.
Fixpoint lastf (pf : bool) (l : blocks) : bool :=
  match l with [] => pf | (_, f) :: l' => lastf f l' end.

Definition wfb (l : blocks) : Prop := Forall (λ b, (16 | b.1) ∧ 16 ≤ b.1) l.

(** No two neighbours are free. *)
Fixpoint coal (pf : bool) (l : blocks) : Prop :=
  match l with [] => True | (_, f) :: l' => ¬ (pf = true ∧ f = true) ∧ coal f l' end.

Lemma coal_weaken l : coal true l → coal false l.
Proof. destruct l as [|[s f] l]; simpl; [done|]. naive_solver. Qed.

Lemma span_app l1 l2 : span (l1 ++ l2) = span l1 + span l2.
Proof. induction l1 as [|[s f] l1 IH]; simpl; lia. Qed.

Lemma wfb_app l1 l2 : wfb (l1 ++ l2) ↔ wfb l1 ∧ wfb l2.
Proof. apply Forall_app. Qed.

Lemma wfb_cons s f l : wfb ((s, f) :: l) ↔ ((16 | s) ∧ 16 ≤ s) ∧ wfb l.
Proof. unfold wfb. by rewrite Forall_cons. Qed.

Lemma coal_app pf l1 l2 : coal pf (l1 ++ l2) ↔ coal pf l1 ∧ coal (lastf pf l1) l2.
Proof. revert pf. induction l1 as [|[s f] l1 IH]; intros pf; simpl; [tauto|]. rewrite IH. tauto. Qed.

Lemma lastf_app pf l1 l2 : lastf pf (l1 ++ l2) = lastf (lastf pf l1) l2.
Proof. revert pf. induction l1 as [|[s f] l1 IH]; intros pf; simpl; auto. Qed.

Lemma lastb_app a p l1 l2 : lastb a p (l1 ++ l2) = lastb (a + span l1) (lastb a p l1) l2.
Proof.
  revert a p. induction l1 as [|[s f] l1 IH]; intros a p; simpl; [by rewrite Z.add_0_r|]. rewrite IH. f_equal. lia.
Qed.

Lemma span_facts l : wfb l → 0 ≤ span l ∧ (16 | span l).
Proof.
  induction 1 as [|[s f] l [Hd Hs] _ [IH1 IH2]]; simpl; [split; [lia|by exists 0]|]. simpl in *.
  split; [lia|]. repeat apply Z.divide_add_r; [by exists 1|done|done].
Qed.

Lemma block_in_app a l1 l2 x s f :
  block_in a (l1 ++ l2) x s f ↔ block_in a l1 x s f ∨ block_in (a + span l1) l2 x s f.
Proof.
  revert a. induction l1 as [|[s0 f0] l1 IH]; intros a; simpl; [rewrite Z.add_0_r; tauto|].
  rewrite IH. replace (a + (16 + s0 + span l1)) with (a + 16 + s0 + span l1) by lia. tauto.
Qed.

Lemma hdr_in_app a l1 l2 x :
  hdr_in a (l1 ++ l2) x ↔ (∃ s f, block_in a l1 x s f) ∨ hdr_in (a + span l1) l2 x.
Proof.
  revert a. induction l1 as [|[s0 f0] l1 IH]; intros a; simpl; [rewrite Z.add_0_r; naive_solver|].
  rewrite IH. replace (a + (16 + s0 + span l1)) with (a + 16 + s0 + span l1) by lia. naive_solver.
Qed.

Lemma block_hdr_in a l x s f : block_in a l x s f → hdr_in a l x.
Proof. revert a. induction l as [|[s0 f0] l IH]; intros a; simpl; [done|]. naive_solver. Qed.

Lemma block_in_split a l x s f : block_in a l x s f → ∃ l1 l2, l = l1 ++ (s, f) :: l2 ∧ x = a + span l1.
Proof.
  revert a. induction l as [|[s0 f0] l IH]; intros a; simpl; [done|]. intros [(-> & -> & ->)|Hb].
  - exists [], l. split; [done|]. simpl. lia.
  - destruct (IH _ Hb) as (l1 & l2 & -> & ->). exists ((s0, f0) :: l1), l2. split; [done|]. simpl. lia.
Qed.

Lemma hdr_in_bounds a l x : wfb l → hdr_in a l x → a ≤ x ≤ a + span l ∧ (16 | x - a).
Proof.
  intros Hw. revert a. induction Hw as [|[s0 f0] l [Hd Hs] Hw IH]; intros a; simpl in *.
  - intros ->. split; [lia|]. exists 0. lia.
  - destruct (span_facts l Hw) as [H0 _]. intros [-> |Hh].
    + split; [lia|]. exists 0. lia.
    + apply IH in Hh as [? Hx]. split; [lia|]. replace (x - a) with (x - (a + 16 + s0) + (16 + s0)) by lia.
      apply Z.divide_add_r; [done|]. apply Z.divide_add_r; [by exists 1|done].
Qed.

Lemma block_in_bounds a l x s f :
  wfb l → block_in a l x s f → a ≤ x ∧ x + 16 + s ≤ a + span l ∧ (16 | x - a) ∧ (16 | s) ∧ 16 ≤ s.
Proof.
  intros Hw Hb. destruct (hdr_in_bounds a l x Hw (block_hdr_in _ _ _ _ _ Hb)) as [? ?].
  destruct (block_in_split _ _ _ _ _ Hb) as (l1 & l2 & -> & ->). apply wfb_app in Hw as [Hw1 [[? ?] Hw2]%wfb_cons].
  destruct (span_facts l2 Hw2). rewrite span_app. simpl. repeat split; try done; lia.
Qed.

(** Headers are at a block's start or outside it. *)
Lemma block_hdr_disj a l x s f y : wfb l → block_in a l x s f → hdr_in a l y → y ≤ x ∨ x + 16 + s ≤ y.
Proof.
  intros Hw. revert a. induction Hw as [|[s0 f0] l [Hd Hs] Hw IH]; intros a; simpl in *; [done|].
  intros [(-> & -> & ->)|Hb] [-> |Hh].
  - left. lia.
  - apply (hdr_in_bounds _ _ _ Hw) in Hh as [? _]. right. lia.
  - apply (block_in_bounds _ _ _ _ _ Hw) in Hb as (? & _). left. lia.
  - eauto.
Qed.

Lemma block_in_fun a l x s f s' f' : wfb l → block_in a l x s f → block_in a l x s' f' → s = s' ∧ f = f'.
Proof.
  intros Hw. revert a. induction Hw as [|[s0 f0] l [Hd Hs] Hw IH]; intros a; simpl in *; [done|].
  intros [(-> & -> & ->)|Hb] [(? & -> & ->)|Hb']; [done| | |eauto].
  - apply (block_in_bounds _ _ _ _ _ Hw) in Hb' as (? & _). lia.
  - apply (block_in_bounds _ _ _ _ _ Hw) in Hb as (? & _). lia.
Qed.

(** ** Regions *)

Record regions_wf (R : regions) : Prop := {
  rw_base r l : R !! r = Some l → (PAGE_SIZE | r) ∧ 0 < r;
  rw_len r l : R !! r = Some l → (PAGE_SIZE | rlen l) ∧ rlen l ≤ 2 ^ MAX_FLI;
  rw_blocks r l : R !! r = Some l → wfb l ∧ coal false l;
  rw_disj r r' l l' : R !! r = Some l → R !! r' = Some l' → r < r' → r + rlen l ≤ r';
}.

Definition blk_at (R : regions) (x s : Z) (f : bool) : Prop := ∃ r l, R !! r = Some l ∧ block_in r l x s f.
Definition hdr_at (R : regions) (x : Z) : Prop := ∃ r l, R !! r = Some l ∧ hdr_in r l x.

Lemma blk_hdr_at R x s f : blk_at R x s f → hdr_at R x.
Proof. intros (r & l & Hl & Hb). exists r, l. split; [done|]. by eapply block_hdr_in. Qed.

Lemma page_div16 x : (PAGE_SIZE | x) → (16 | x).
Proof. apply Z.divide_trans. by exists 256. Qed.

Section wf.
Context (R : regions) (HW : regions_wf R).

Lemma blk_facts x s f : blk_at R x s f → (16 | x) ∧ 0 < x ∧ (16 | s) ∧ 16 ≤ s < 2 ^ MAX_FLI.
Proof using HW.
  intros (r & l & Hl & Hb). destruct (rw_base _ HW r l Hl) as [Hp Hr], (rw_len _ HW r l Hl) as [_ Hn], (rw_blocks _ HW r l Hl) as [Hw _].
  apply (block_in_bounds _ _ _ _ _ Hw) in Hb as (? & ? & Hx & ? & ?). unfold rlen in Hn.
  split; [|split; [lia|split; [done|lia]]]. replace x with (x - r + r) by lia. apply Z.divide_add_r; [done|by apply page_div16].
Qed.

Lemma hdr_facts x : hdr_at R x → (16 | x) ∧ 0 < x.
Proof using HW.
  intros (r & l & Hl & Hb). destruct (rw_base _ HW r l Hl) as [Hp Hr], (rw_blocks _ HW r l Hl) as [Hw _].
  apply (hdr_in_bounds _ _ _ Hw) in Hb as (? & Hx). split; [|lia].
  replace x with (x - r + r) by lia. apply Z.divide_add_r; [done|by apply page_div16].
Qed.

Lemma region_hdr_bounds r l x : R !! r = Some l → hdr_in r l x → r ≤ x ∧ x + 16 ≤ r + rlen l.
Proof using HW. intros Hl Hx. destruct (rw_blocks _ HW r l Hl) as [Hw _]. apply (hdr_in_bounds _ _ _ Hw) in Hx as [? _]. unfold rlen. lia. Qed.

Lemma region_block_bounds r l x s f : R !! r = Some l → block_in r l x s f → r ≤ x ∧ x + 16 + s + 16 ≤ r + rlen l ∧ 16 ≤ s.
Proof using HW.
  intros Hl Hx. destruct (rw_blocks _ HW r l Hl) as [Hw _]. apply (block_in_bounds _ _ _ _ _ Hw) in Hx as (? & ? & ? & ? & ?).
  unfold rlen. lia.
Qed.

(** Regions do not overlap. *)
Lemma region_unique r l r' l' x :
  R !! r = Some l → R !! r' = Some l' → r ≤ x < r + rlen l → r' ≤ x < r' + rlen l' → r = r' ∧ l = l'.
Proof using HW.
  intros Hl Hl' Hx Hx'. destruct (Z.lt_trichotomy r r') as [Hlt|[<-|Hlt]].
  - pose proof (rw_disj _ HW _ _ _ _ Hl Hl' Hlt). lia.
  - split; congruence.
  - pose proof (rw_disj _ HW _ _ _ _ Hl' Hl Hlt). lia.
Qed.

Lemma blk_hdr_disj x s f y : blk_at R x s f → hdr_at R y → y ≤ x ∨ x + 16 + s ≤ y.
Proof using HW.
  intros (r & l & Hl & Hb) (r' & l' & Hl' & Hh).
  pose proof (region_block_bounds r l x s f Hl Hb). pose proof (region_hdr_bounds r' l' y Hl' Hh).
  destruct (Z.lt_trichotomy r r') as [Hlt|[<-|Hlt]].
  - pose proof (rw_disj _ HW _ _ _ _ Hl Hl' Hlt). lia.
  - rewrite Hl in Hl'. injection Hl' as <-. destruct (rw_blocks _ HW r l Hl) as [Hw _]. by eapply block_hdr_disj.
  - pose proof (rw_disj _ HW _ _ _ _ Hl' Hl Hlt). lia.
Qed.

(** Two blocks are the same or do not overlap. *)
Lemma blk_disj x s f y s' f' : blk_at R x s f → blk_at R y s' f' → x = y ∧ s = s' ∧ f = f' ∨ x + 16 + s ≤ y ∨ y + 16 + s' ≤ x.
Proof using HW.
  intros Hx Hy. pose proof (blk_hdr_disj _ _ _ _ Hx (blk_hdr_at _ _ _ _ Hy)). pose proof (blk_hdr_disj _ _ _ _ Hy (blk_hdr_at _ _ _ _ Hx)).
  destruct (blk_facts _ _ _ Hx) as (_ & _ & _ & ?), (blk_facts _ _ _ Hy) as (_ & _ & _ & ?).
  destruct (decide (x = y)) as [<-|]; [left|lia]. destruct Hx as (r & l & Hl & Hb), Hy as (r' & l' & Hl' & Hb').
  pose proof (region_block_bounds _ _ _ _ _ Hl Hb). pose proof (region_block_bounds _ _ _ _ _ Hl' Hb').
  destruct (region_unique r l r' l' x Hl Hl') as [<- <-]; [lia|lia|]. destruct (rw_blocks _ HW r l Hl) as [Hw _].
  by destruct (block_in_fun _ _ _ _ _ _ _ Hw Hb Hb').
Qed.

(** The links of a block are in no header. *)
Lemma hdr_not_link (P : Z → Prop) x :
  (∀ a, P a → ∃ s f, blk_at R a s f) → hdr_at R x → ¬ link_cell P x ∧ ¬ link_cell P (a_size x).
Proof using HW.
  intros HP Hx. destruct (hdr_facts x Hx) as [[q Hq] _].
  split; intros (a & Ha & Hor); destruct (HP a Ha) as (s & f & Hb).
  all: destruct (blk_facts _ _ _ Hb) as ([u Hu] & _ & _ & ?); pose proof (blk_hdr_disj _ _ _ _ Hb Hx).
  all: unfold a_prev, a_next, a_size in *; lia.
Qed.
End wf.

(** ** Replacing blocks *)

Section replace.
Context (R : regions) (HW : regions_wf R) (r : Z) (l1 m m' l2 : blocks) (Hr : R !! r = Some (l1 ++ m ++ l2))
  (Hspan : span m' = span m).

Definition replaced : regions := <[r := l1 ++ m' ++ l2]> R.

Lemma rlen_replace : rlen (l1 ++ m' ++ l2) = rlen (l1 ++ m ++ l2).
Proof using Hspan. unfold rlen. rewrite !span_app. lia. Qed.

Lemma regions_wf_replace :
  wfb m' → coal (lastf false l1) m' → coal (lastf (lastf false l1) m') l2 → regions_wf replaced.
Proof using HW Hr Hspan.
  intros Hw Hc1 Hc2. destruct (rw_blocks _ HW _ _ Hr) as [Hw0 Hc0]. rewrite !wfb_app in Hw0. rewrite !coal_app in Hc0.
  unfold replaced. split.
  - intros r' l [[<- <-]|[Hne Hl]]%lookup_insert_Some; [by apply (rw_base _ HW _ _ Hr)|by eapply rw_base].
  - intros r' l [[<- <-]|[Hne Hl]]%lookup_insert_Some; [rewrite rlen_replace; by apply (rw_len _ HW _ _ Hr)|by eapply rw_len].
  - intros r' l [[<- <-]|[Hne Hl]]%lookup_insert_Some; [|by eapply rw_blocks].
    rewrite !wfb_app, !coal_app. tauto.
  - intros a a' l l' [[<- <-]|[Hne Hl]]%lookup_insert_Some [[<- <-]|[Hne' Hl']]%lookup_insert_Some Hlt; [lia| | |by eapply (rw_disj _ HW)].
    + rewrite rlen_replace. by apply (rw_disj _ HW _ _ _ _ Hr Hl').
    + by apply (rw_disj _ HW _ _ _ _ Hl Hr).
Qed.

Lemma blk_at_replace y s f :
  blk_at replaced y s f ↔
  block_in (r + span l1) m' y s f ∨ blk_at R y s f ∧ ¬ (r + span l1 ≤ y < r + span l1 + span m).
Proof using HW Hr Hspan.
  destruct (rw_blocks _ HW _ _ Hr) as [Hw0 _]. rewrite !wfb_app in Hw0. destruct Hw0 as (Hw1 & Hwm & Hw2).
  destruct (span_facts _ Hw1), (span_facts _ Hw2), (span_facts _ Hwm). unfold blk_at, replaced. split.
  - intros (r' & l & [[<- <-]|[Hne Hl]]%lookup_insert_Some & Hb).
    + rewrite !block_in_app, Hspan in Hb. destruct Hb as [Hb|[Hb|Hb]]; [right|by left|right].
      * split; [exists r, (l1 ++ m ++ l2); split; [done|]; rewrite !block_in_app; auto|].
        apply (block_in_bounds _ _ _ _ _ Hw1) in Hb as (? & ? & _ & _ & ?). lia.
      * split; [exists r, (l1 ++ m ++ l2); split; [done|]; rewrite !block_in_app; auto|].
        apply (block_in_bounds _ _ _ _ _ Hw2) in Hb as (? & ? & _ & _ & ?). lia.
    + right. split; [by exists r', l|]. intros Hy. pose proof (region_block_bounds _ HW _ _ _ _ _ Hl Hb).
      assert (rlen (l1 ++ m ++ l2) = span l1 + span m + span l2 + 16) as E by (unfold rlen; rewrite !span_app; lia).
      destruct (region_unique _ HW r' l r _ y Hl Hr) as [? _]; [lia|lia|done].
  - intros [Hb|[(r' & l & Hl & Hb) Hy]].
    + exists r, (l1 ++ m' ++ l2). rewrite lookup_insert_eq. split; [done|]. rewrite !block_in_app. auto.
    + destruct (decide (r' = r)) as [-> |Hne].
      * rewrite Hr in Hl. injection Hl as <-. exists r, (l1 ++ m' ++ l2). rewrite lookup_insert_eq. split; [done|].
        rewrite !block_in_app in Hb. rewrite !block_in_app, Hspan. destruct Hb as [Hb|[Hb|Hb]]; [auto| |auto].
        apply (block_in_bounds _ _ _ _ _ Hwm) in Hb as (? & ? & _ & _ & ?). lia.
      * exists r', l. by rewrite lookup_insert_ne.
Qed.

Lemma hdr_at_replace y :
  hdr_at replaced y → (∃ s f, block_in (r + span l1) m' y s f) ∨ hdr_at R y.
Proof using HW Hr Hspan.
  unfold hdr_at, replaced. intros (r' & l & [[<- <-]|[Hne Hl]]%lookup_insert_Some & Hb); [|eauto].
  rewrite !hdr_in_app, Hspan in Hb. destruct Hb as [Hb|[Hb|Hb]]; [right|by left|right].
  all: exists r, (l1 ++ m ++ l2); split; [done|]; rewrite !hdr_in_app; auto.
Qed.

Lemma hdr_at_keep y : hdr_at R y → ¬ (r + span l1 ≤ y < r + span l1 + span m) → hdr_at replaced y.
Proof using HW Hr Hspan.
  destruct (rw_blocks _ HW _ _ Hr) as [Hw0 _]. rewrite !wfb_app in Hw0. destruct Hw0 as (_ & Hwm & _).
  intros (r' & l & Hl & Hh) Hy. unfold hdr_at, replaced. destruct (decide (r' = r)) as [-> |Hne].
  - rewrite Hr in Hl. injection Hl as <-. exists r, (l1 ++ m' ++ l2). rewrite lookup_insert_eq. split; [done|].
    rewrite !hdr_in_app in Hh. rewrite !hdr_in_app, Hspan. destruct Hh as [Hh|[(s & f & Hb)|Hh]]; [auto| |auto].
    apply (block_in_bounds _ _ _ _ _ Hwm) in Hb as (? & ? & _ & _ & ?). lia.
  - exists r', l. by rewrite lookup_insert_ne.
Qed.

Lemma in_regions_replace x : (∃ r' l, replaced !! r' = Some l ∧ r' ≤ x < r' + rlen l) ↔ (∃ r' l, R !! r' = Some l ∧ r' ≤ x < r' + rlen l).
Proof using Hr Hspan.
  unfold replaced. split; intros (r' & l & Hl & Hx).
  - apply lookup_insert_Some in Hl as [[<- <-]|[Hne Hl]]; [|by exists r', l]. rewrite rlen_replace in Hx. by eexists _, _.
  - destruct (decide (r' = r)) as [-> |Hne]; [|exists r', l; by rewrite lookup_insert_ne].
    rewrite Hr in Hl. injection Hl as <-. exists r, (l1 ++ m' ++ l2). rewrite lookup_insert_eq, rlen_replace. done.
Qed.
End replace.

(** ** Headers in memory *)

Section headers.
Context {H : Type}.

Fixpoint hseg (w : world H) (a prev : Z) (pf : bool) (l : blocks) : Prop :=
  match l with
  | [] => True
  | (s, f) :: l' => peek w (a_prev_hdr a) = prev ∧ peek w (a_size a) = enc s f pf ∧ hseg w (a + 16 + s) a f l'
  end.

(** The size and state of the first block, or of the sentinel. *)
Definition first_of (l : blocks) : Z * bool := default (0, false) (head l).

(** The headers of [l] and of the sentinel. *)
Definition hdrs (w : world H) (a prev : Z) (pf : bool) (l : blocks) : Prop :=
  hseg w a prev pf l ∧
  peek w (a_prev_hdr (a + span l)) = lastb a prev l ∧ peek w (a_size (a + span l)) = enc 0 false (lastf pf l).

Lemma hdrs_cons w a prev pf s f l :
  hdrs w a prev pf ((s, f) :: l) ↔
  peek w (a_prev_hdr a) = prev ∧ peek w (a_size a) = enc s f pf ∧ hdrs w (a + 16 + s) a f l.
Proof. unfold hdrs. simpl. replace (a + (16 + s + span l)) with (a + 16 + s + span l) by lia. tauto. Qed.

Lemma hseg_app w a prev pf l1 l2 :
  hseg w a prev pf (l1 ++ l2) ↔ hseg w a prev pf l1 ∧ hseg w (a + span l1) (lastb a prev l1) (lastf pf l1) l2.
Proof.
  revert a prev pf. induction l1 as [|[s f] l1 IH]; intros a prev pf; simpl; [rewrite Z.add_0_r; tauto|].
  rewrite IH. replace (a + (16 + s + span l1)) with (a + 16 + s + span l1) by lia. tauto.
Qed.

Lemma hdrs_app w a prev pf l1 l2 :
  hdrs w a prev pf (l1 ++ l2) ↔ hseg w a prev pf l1 ∧ hdrs w (a + span l1) (lastb a prev l1) (lastf pf l1) l2.
Proof. unfold hdrs. rewrite hseg_app, span_app, lastb_app, lastf_app, Z.add_assoc. tauto. Qed.

(** The first header determines what is known about the block before. *)
Lemma hdrs_first w a prev pf l :
  hdrs w a prev pf l → peek w (a_prev_hdr a) = prev ∧ peek w (a_size a) = enc (first_of l).1 (first_of l).2 pf.
Proof.
  destruct l as [|[s f] l]; [|by intros (? & ? & ?)%hdrs_cons]. unfold hdrs, first_of. simpl. rewrite Z.add_0_r. tauto.
Qed.

Definition same_hdr (w w' : world H) (x : Z) : Prop :=
  peek w' (a_prev_hdr x) = peek w (a_prev_hdr x) ∧ peek w' (a_size x) = peek w (a_size x).

Lemma hseg_ext w w' a prev pf l :
  (∀ x s f, block_in a l x s f → same_hdr w w' x) → hseg w a prev pf l → hseg w' a prev pf l.
Proof.
  revert a prev pf. induction l as [|[s f] l IH]; intros a prev pf Hs; simpl; [done|]. intros (H1 & H2 & H3).
  destruct (Hs a s f) as [-> ->]; [simpl; auto|]. repeat (split; [done|]). apply IH; [|done]. intros x s' f' Hx. apply (Hs x s' f'). simpl. auto.
Qed.

Lemma hdrs_ext w w' a prev pf l :
  (∀ x, hdr_in a l x → same_hdr w w' x) → hdrs w a prev pf l → hdrs w' a prev pf l.
Proof.
  intros Hs (H1 & H2 & H3). destruct (Hs (a + span l)) as [E1 E2].
  { replace l with (l ++ []) at 1 by apply app_nil_r. rewrite hdr_in_app. by right. }
  unfold hdrs. rewrite E1, E2. split; [|done]. eapply hseg_ext; [|done]. intros x s f Hx. apply Hs. by eapply block_hdr_in.
Qed.

(** Changing what the first header says of the block before. *)
Lemma hdrs_set_first w w' a prev pf l prev' pf' :
  wfb l → hdrs w a prev pf l → (∀ x, a < x → hdr_in a l x → same_hdr w w' x) →
  peek w' (a_prev_hdr a) = prev' → peek w' (a_size a) = enc (first_of l).1 (first_of l).2 pf' → hdrs w' a prev' pf' l.
Proof.
  intros Hw Hh Hs E1 E2. destruct l as [|[s f] l].
  - unfold hdrs. simpl. rewrite Z.add_0_r. done.
  - apply hdrs_cons in Hh as (_ & _ & Hh). apply hdrs_cons. repeat (split; [done|]). eapply hdrs_ext; [|done].
    apply wfb_cons in Hw as [[_ ?] Hw]. intros x Hx. apply (hdr_in_bounds _ _ _ Hw) in Hx as Hb. apply Hs; [lia|]. simpl. auto.
Qed.

Definition hdrs_all (w : world H) (R : regions) : Prop := ∀ r l, R !! r = Some l → hdrs w r 0 false l.

(** Replacing the blocks [m]: the new blocks and the header after them are
    written, all others are kept. *)
Lemma hdrs_all_replace w w' R r l1 m m' l2 :
  regions_wf R → R !! r = Some (l1 ++ m ++ l2) → span m' = span m → hdrs_all w R →
  (∀ y, hdr_at R y → ¬ (r + span l1 ≤ y ≤ r + span l1 + span m) → same_hdr w w' y) →
  hseg w' (r + span l1) (lastb r 0 l1) (lastf false l1) m' →
  peek w' (a_prev_hdr (r + span l1 + span m)) = lastb (r + span l1) (lastb r 0 l1) m' →
  peek w' (a_size (r + span l1 + span m)) = enc (first_of l2).1 (first_of l2).2 (lastf (lastf false l1) m') →
  hdrs_all w' (replaced R r l1 m' l2).
Proof.
  intros HW Hr Hspan Hh Hs Hm E1 E2. destruct (rw_blocks _ HW _ _ Hr) as [Hw0 _]. rewrite !wfb_app in Hw0.
  destruct Hw0 as (Hw1 & Hwm & Hw2). destruct (span_facts _ Hw1), (span_facts _ Hwm).
  unfold replaced. intros r' l [[<- <-]|[Hne Hl]]%lookup_insert_Some.
  - pose proof (Hh _ _ Hr) as Hold. rewrite !hdrs_app in Hold. destruct Hold as (Ho1 & _ & Ho2).
    rewrite !hdrs_app, Hspan. split; [|split; [done|]].
    + eapply hseg_ext; [|done]. intros x s f Hx. apply Hs.
      * exists r, (l1 ++ m ++ l2). split; [done|]. rewrite hdr_in_app. eauto.
      * apply (block_in_bounds _ _ _ _ _ Hw1) in Hx as (? & ? & _ & _ & ?). lia.
    + eapply hdrs_set_first; [done|done| |done|done]. intros x Hlt Hx. apply Hs; [|lia].
      exists r, (l1 ++ m ++ l2). split; [done|]. rewrite !hdr_in_app. auto.
  - eapply hdrs_ext; [|by apply Hh]. intros x Hx. apply Hs; [by exists r', l|]. intros Hin.
    pose proof (region_hdr_bounds _ HW _ _ _ Hl Hx). assert (rlen (l1 ++ m ++ l2) = span l1 + span m + span l2 + 16) as E
      by (unfold rlen; rewrite !span_app; lia). destruct (span_facts _ Hw2).
    destruct (region_unique _ HW r' l r _ x Hl Hr) as [? _]; [lia|lia|done].
Qed.

(** Changes of links leave the headers alone. *)
Lemma same_hdr_links (P : Z → Prop) w w' R x :
  regions_wf R → (∀ a, P a → ∃ s f, blk_at R a s f) → frame (link_cell P) w w' → hdr_at R x → same_hdr w w' x.
Proof.
  intros HW HP (_ & _ & Hf) Hx. destruct (hdr_not_link R HW P x HP Hx) as [N1 N2]. split; by apply Hf.
Qed.

Lemma same_hdr_trans w1 w2 w3 x : same_hdr w1 w2 x → same_hdr w2 w3 x → same_hdr w1 w3 x.
Proof. intros [A1 A2] [B1 B2]. split; congruence. Qed.

Lemma same_hdr_poke w x y v : y ≠ a_prev_hdr x → y ≠ a_size x → same_hdr w (poke y v w) x.
Proof. intros N1 N2. split; by rewrite peek_poke_ne. Qed.

(** Changes outside the links leave the lists alone. *)
Lemma lists_rep_ext p (w w' : world H) L :
  w_held w' = w_held w → (∀ x, link_cell (in_lists L) x → peek w' x = peek w x) → lists_rep p w L → lists_rep p w' L.
Proof.
  intros Hh Hs [R1 R2 R3 R4 R5 R6 R7]. split; [done|done| |done|done|done|].
  - intros c. eapply linked_ext; [|apply R3]. intros a Ha. split; apply Hs; exists a; (split; [by exists c|]); auto.
  - intros c a Ha. unfold acc. rewrite Hh. by eapply R7.
Qed.

Lemma lists_rep_poke p (w : world H) L x v :
  (∀ a, in_lists L a → x ≠ a_prev a ∧ x ≠ a_next a) → lists_rep p w L → lists_rep p (poke x v w) L.
Proof.
  intros Hx. apply lists_rep_ext; [done|]. intros y (a & Ha & Hy). destruct (Hx a Ha). apply peek_poke_ne. destruct Hy; congruence.
Qed.

End headers.
