(* ===== verification/TlsfInv.v ===== *)
(** * The invariant of a pool

    A pool owns regions whose headers describe a list of blocks; the free lists
    hold exactly the free blocks, each on the list of its size; the counters
    count the regions and the bytes in use. The memory a pool gets and puts
    comes from any instance of [PoolMemory]. *)

From S2P Require Import Prelude BootMem PageAlloc Tlsf TlsfMap TlsfLists TlsfBlocks.
Local Open Scope xen_scope.

(** ** Lists that hold a set of blocks *)

Definition lists_of (L : flists) (F : Z → Z → Prop) : Prop :=
  ∀ fl sl a, a ∈ lst L (fl, sl) ↔ ∃ s, F a s ∧ MAPPING_INSERT s = (fl, sl).

Lemma lists_of_ext L (F F' : Z → Z → Prop) : (∀ a s, F a s ↔ F' a s) → lists_of L F → lists_of L F'.
Proof. intros HF HL fl sl a. rewrite (HL fl sl a). split; intros (s & Hs & E); exists s; (split; [by apply HF|done]). Qed.

Lemma lists_of_in L F a : lists_of L F → in_lists L a ↔ ∃ s, F a s.
Proof.
  intros HL. split.
  - intros [[fl sl] Ha]. apply HL in Ha as (s & Hs & _). by exists s.
  - intros (s & Hs). destruct (MAPPING_INSERT s) as [fl sl] eqn:E. exists (fl, sl). apply HL. eauto.
Qed.

Lemma lists_of_find L F b n : lists_of L F → F b n → ∃ l1 l2, lst L (MAPPING_INSERT n) = l1 ++ b :: l2.
Proof.
  intros HL HF. apply list_elem_of_split. destruct (MAPPING_INSERT n) as [fl sl] eqn:E. apply HL. eauto.
Qed.

Lemma lists_of_remove L F c l1 l2 b :
  lists_of L F → lst L c = l1 ++ b :: l2 → NoDup (lst L c) → (∀ c', b ∈ lst L c' → c' = c) →
  lists_of (<[c := l1 ++ l2]> L) (λ a s, F a s ∧ a ≠ b).
Proof.
  intros HL Hl Hnd Honce fl sl a. rewrite Hl in Hnd. apply NoDup_app in Hnd as (_ & N1 & [N2 _]%NoDup_cons).
  destruct (decide ((fl, sl) = c)) as [<-|Hne].
  - rewrite lst_insert. pose proof (HL fl sl a) as Ha. rewrite Hl in Ha. split.
    + intros Hin. destruct Ha as [Ha _]. destruct Ha as (s & Hs & E); [set_solver|]. exists s. split; [|done]. split; [done|].
      intros ->. apply elem_of_app in Hin as [Hin|Hin]; [|done]. apply (N1 b Hin). by left.
    + intros (s & [Hs Hne] & E). destruct Ha as [_ Ha]. specialize (Ha (ex_intro _ s (conj Hs E))). set_solver.
  - rewrite lst_insert_ne by done. split.
    + intros Hin. pose proof Hin as Hin'. apply HL in Hin as (s & Hs & E). exists s. split; [|done]. split; [done|]. intros ->. auto.
    + intros (s & [Hs _] & E). apply HL. eauto.
Qed.

Lemma lists_of_add L F b n :
  lists_of L F → lists_of (<[MAPPING_INSERT n := b :: lst L (MAPPING_INSERT n)]> L) (λ a s, F a s ∨ a = b ∧ s = n).
Proof.
  intros HL fl sl a. destruct (decide ((fl, sl) = MAPPING_INSERT n)) as [E|Hne].
  - rewrite <- E, lst_insert, elem_of_cons, (HL fl sl a). split.
    + intros [-> |(s & Hs & Es)]; [exists n; auto|exists s; auto].
    + intros (s & [Hs|[-> ->]] & Es); [right; eauto|by left].
  - rewrite lst_insert_ne, (HL fl sl a) by done. split.
    + intros (s & Hs & Es). exists s. auto.
    + intros (s & [Hs|[-> ->]] & Es); [eauto|congruence].
Qed.

(** ** Accounting *)

(** The bytes in use of a list of blocks, headers included. *)
Fixpoint usum (l : blocks) : Z :=
  match l with [] => 0 | (s, f) :: l' => (if (f : bool) then 0 else s + 16) + usum l' end.

(** The sentinels are in use. *)
Definition rsum (R : regions) : Z := map_fold (λ _ l acc, usum l + 16 + acc) 0 R.

Lemma usum_app l1 l2 : usum (l1 ++ l2) = usum l1 + usum l2.
Proof. induction l1 as [|[s f] l1 IH]; simpl; lia. Qed.

Lemma rsum_insert R r l : R !! r = None → rsum (<[r := l]> R) = usum l + 16 + rsum R.
Proof. intros Hr. unfold rsum. rewrite map_fold_insert_L; [done| |done]. intros. lia. Qed.

Lemma rsum_delete R r l : R !! r = Some l → rsum R = usum l + 16 + rsum (delete r R).
Proof. intros Hr. rewrite <- (rsum_insert _ r l) by apply lookup_delete_eq. by rewrite insert_delete_eq, insert_id. Qed.

Lemma rsum_replace R r l l' : R !! r = Some l → rsum (<[r := l']> R) = rsum R - usum l + usum l'.
Proof.
  intros Hr. rewrite (rsum_delete R r l Hr), <- insert_delete_eq, rsum_insert by apply lookup_delete_eq. lia.
Qed.

(** ** Memory for pools *)

Section inv.
Context {H : Type}.

(** [get_mem] gives nothing, or pages that are not held, page-aligned; and
    [put_mem] takes them back. [granted] is what [put_mem] may be called with,
    [sizes] what [get_mem] may be asked for. Pages that stay held keep their
    contents. *)
Class PoolMemory (wok : world H → Prop) (get_mem : Z → world H → outcome (Z * world H))
    (put_mem : Z → world H → outcome (world H)) (sizes : Z → Prop) (granted : Z → Z → Prop) : Prop := {
  pm_get size w : wok w → sizes size →
    ∃ r w', get_mem size w = Ok (r, w') ∧ wok w' ∧ (∀ x, acc w x → peek w' x = peek w x) ∧
      (r = 0 ∧ w_held w' = w_held w ∨
       0 < r ∧ (PAGE_SIZE | r) ∧ granted r size ∧ pages_of r size ## w_held w ∧
       w_held w' = w_held w ∪ pages_of r size);
  pm_put r size w : wok w → granted r size → pages_of r size ⊆ w_held w →
    ∃ w', put_mem r w = Ok w' ∧ wok w' ∧ w_held w' = w_held w ∖ pages_of r size ∧
      ∀ x, acc w' x → peek w' x = peek w x;
  pm_frame w w' : w_held w' = w_held w → w_heap w' = w_heap w → wok w → wok w';
  pm_sizes size : sizes size → (PAGE_SIZE | size) ∧ 0 < size ≤ 2 ^ MAX_FLI;
}.

Lemma elem_pages_of a n x :
  (PAGE_SIZE | a) → (PAGE_SIZE | n) → x / PAGE_SIZE ∈ pages_of a n ↔ a ≤ x < a + n.
Proof.
  intros [u ->] [v ->]. unfold pages_of. rewrite elem_of_list_to_set, elem_of_seqZ. change PAGE_SIZE with 4096.
  rewrite !Z.div_mul by lia. pose proof (Z.div_mod x 4096 ltac:(lia)). pose proof (Z.mod_pos_bound x 4096 ltac:(lia)). nia.
Qed.

(** ** The invariant *)

Section pool_inv.
Context (sizes : Z → Prop) (granted : Z → Z → Prop).

Definition in_regions (R : regions) (x : Z) : Prop := ∃ r l, R !! r = Some l ∧ r ≤ x < r + rlen l.

Record pool_inv (p : xmem_pool) (w : world H) (R : regions) (L : flists) : Prop := {
  pi_wf : regions_wf R;
  pi_hdrs : hdrs_all w R;
  pi_lists : lists_rep p w L;
  pi_free : lists_of L (λ a s, blk_at R a s true);
  pi_acc x : in_regions R x → acc w x;
  pi_used : used_size p = u64 (rsum R);
  pi_num : num_regions p = u64 (Z.of_nat (size R));
  pi_granted r l : R !! r = Some l → granted r (rlen l);
  pi_sizes : sizes (init_size p) ∧ sizes (grow_size p);
}.
End pool_inv.

(** ** What the memory of a pool says *)

(** The pages [P] and the regions are all the memory held, and apart. *)
Record owns (P : gset Z) (w : world H) (R : regions) : Prop := {
  ow_held x : acc w x ↔ x / PAGE_SIZE ∈ P ∨ in_regions R x;
  ow_apart x : x / PAGE_SIZE ∈ P → ¬ in_regions R x;
}.

(** The bitmaps and the lists index the free blocks of the regions: a bit of
    the second level is set exactly when there is a free block of its class, a
    bit of the first level exactly when one of its second level is, and the
    list of a class, walked from its head by the pointers in memory, has each
    free block of the class once. *)
Record indexed (p : xmem_pool) (w : world H) (R : regions) : Prop := {
  ix_first fl : 0 ≤ fl < REAL_FLI → Z.testbit (fl_bitmap p) fl = negb (sl_map p fl =? 0);
  ix_second fl sl : class_ok fl sl →
    Z.testbit (sl_map p fl) sl = true ↔ ∃ a n, blk_at R a n true ∧ MAPPING_INSERT n = (fl, sl);
  ix_range fl : 0 ≤ fl_bitmap p < 2 ^ REAL_FLI ∧ 0 ≤ sl_map p fl < 2 ^ MAX_SLI;
  ix_list fl sl : class_ok fl sl →
    ∃ l, head_of p (fl, sl) = hd_or 0 l ∧ linked w 0 l 0 ∧ NoDup l ∧
      ∀ a, a ∈ l ↔ ∃ n, blk_at R a n true ∧ MAPPING_INSERT n = (fl, sl);
}.

Lemma inv_indexed sizes granted p (w : world H) R L : pool_inv sizes granted p w R L → indexed p w R.
Proof.
  intros HI. pose proof (pi_lists _ _ _ _ _ _ HI) as HL. pose proof (lr_bits _ _ _ HL) as [B1 B2 B3 B4].
  split; [done| |done|].
  - intros fl sl Hc. rewrite (B4 fl sl Hc). unfold nonempty. rewrite negb_true_iff, bool_decide_eq_false. split.
    + intros Hne. destruct (lst L (fl, sl)) as [|a l] eqn:El; [done|].
      destruct (proj1 (pi_free _ _ _ _ _ _ HI fl sl a)) as (n & Hn); [rewrite El; by left|]. by exists a, n.
    + intros (a & n & Hn) E. pose proof (proj2 (pi_free _ _ _ _ _ _ HI fl sl a) (ex_intro _ n Hn)) as Ha.
      rewrite E in Ha. by apply elem_of_nil in Ha.
  - intros fl sl Hc. exists (lst L (fl, sl)). split; [by apply (lr_head _ _ _ HL)|]. split; [apply (lr_link _ _ _ HL)|]. split; [apply HL|].
    intros a. apply (pi_free _ _ _ _ _ _ HI).
Qed.

(** ** Cells that a pool leaves alone *)

Definition used_cell (R : regions) (x : Z) : Prop := ∃ a s, blk_at R a s false ∧ a + 16 ≤ x < a + 16 + s.
Definition other (R : regions) (x : Z) : Prop := ¬ in_regions R x ∨ used_cell R x.

Lemma blk_in_regions R a s f x : regions_wf R → blk_at R a s f → a ≤ x < a + 16 + s → in_regions R x.
Proof.
  intros HW (r & l & Hl & Hb) Hx. exists r, l. split; [done|]. pose proof (region_block_bounds _ HW _ _ _ _ _ Hl Hb). lia.
Qed.

Lemma hdr_in_regions R a x : regions_wf R → hdr_at R a → a ≤ x < a + 16 → in_regions R x.
Proof. intros HW (r & l & Hl & Hb) Hx. exists r, l. split; [done|]. pose proof (region_hdr_bounds _ HW _ _ _ Hl Hb). lia. Qed.

Lemma other_free R x a s : regions_wf R → other R x → blk_at R a s true → ¬ (a ≤ x < a + 16 + s).
Proof.
  intros HW [Ho|(u & su & Hu & Hx)] Ha Hin; [apply Ho; by eapply blk_in_regions|].
  destruct (blk_disj R HW _ _ _ _ _ _ Hu Ha) as [(_ & _ & ?)|]; [done|lia].
Qed.

Lemma other_hdr R x a : regions_wf R → other R x → hdr_at R a → ¬ (a ≤ x < a + 16).
Proof.
  intros HW [Ho|(u & su & Hu & Hx)] Ha Hin; [apply Ho; by eapply hdr_in_regions|].
  pose proof (blk_hdr_disj R HW _ _ _ _ Hu Ha). lia.
Qed.

Lemma other_link R (P : Z → Prop) x :
  regions_wf R → (∀ a, P a → ∃ s, blk_at R a s true) → other R x → ¬ link_cell P x.
Proof.
  intros HW HP Ho (a & Ha & Hx). destruct (HP a Ha) as (s & Hs). pose proof (other_free R x a s HW Ho Hs).
  destruct (blk_facts R HW _ _ _ Hs) as (_ & _ & _ & ?). unfold a_prev, a_next in *. lia.
Qed.
(** Owners may write to their blocks, and anybody outside the pool. *)
Lemma inv_write sizes granted p w R L x v :
  pool_inv sizes granted p w R L → other R x → pool_inv sizes granted p (poke x v w) R L.
Proof.
  intros HI Ho. pose proof (pi_wf _ _ _ _ _ _ HI) as HW.
  destruct HI as [I1 I2 I3 I4 I5 I6 I7 I8 I9]. split; try done.
  - intros r l Hl. eapply hdrs_ext; [|by apply I2]. intros y Hy. pose proof (other_hdr R x y HW Ho ltac:(by exists r, l)).
    apply same_hdr_poke; unfold a_prev_hdr, a_size; lia.
  - apply lists_rep_poke; [|done]. intros a Ha. apply (lists_of_in L _ a I4) in Ha as (s & Hs).
    pose proof (other_free R x a s HW Ho Hs). destruct (blk_facts R HW _ _ _ Hs) as (_ & _ & _ & ?). unfold a_prev, a_next. lia.
Qed.

(** ** Regions without users *)

Lemma usum_free l : (∀ s f, (s, f) ∈ l → f = true) → usum l = 0.
Proof.
  induction l as [|[s f] l IH]; intros Hl; [done|]. simpl. rewrite (Hl s f) by (by left). rewrite IH; [done|].
  intros s' f' Hin. apply (Hl s' f'). by right.
Qed.

Lemma block_in_elem a l s f : (s, f) ∈ l → ∃ x, block_in a l x s f.
Proof.
  intros (l1 & l2 & ->)%list_elem_of_split. exists (a + span l1). rewrite block_in_app. right. simpl. auto.
Qed.

Lemma free_regions (R : regions) :
  regions_wf R → (∀ a n, ¬ blk_at R a n false) →
  (∀ r bs, R !! r = Some bs → ∃ n, bs = [(n, true)]) ∧ rsum R = BHDR_OVERHEAD * Z.of_nat (size R).
Proof.
  intros HW Hno. assert (∀ r bs, R !! r = Some bs → ∀ n f, (n, f) ∈ bs → f = true) as Hfree.
  { intros r bs Hr n f Hin. destruct f; [done|]. destruct (block_in_elem r bs n false Hin) as (x & Hx). destruct (Hno x n). by exists r, bs. }
  split.
  - intros r bs Hr. destruct (rw_blocks _ HW _ _ Hr) as [_ Hc]. destruct (rw_len _ HW _ _ Hr) as [[k Hk] _].
    destruct bs as [|[n f] bs]; [unfold rlen in Hk; simpl in Hk; change PAGE_SIZE with 4096 in Hk; lia|].
    pose proof (Hfree r _ Hr n f ltac:(by left)) as ->. exists n. f_equal. destruct bs as [|[n' f'] bs]; [done|].
    pose proof (Hfree r _ Hr n' f' ltac:(right; by left)) as ->. simpl in Hc. naive_solver.
  - change BHDR_OVERHEAD with 16. clear -Hfree. induction R as [|r bs R Hr IH] using map_ind; [done|].
    rewrite rsum_insert, map_size_insert_None, IH by (done || (intros r' bs' Hr'; apply (Hfree r'); rewrite lookup_insert_ne; [done|congruence])).
    rewrite (usum_free bs) by (apply (Hfree r); apply lookup_insert_eq). lia.
Qed.
End inv.
