(* ===== verification/TlsfAlloc.v ===== *)
(** * Allocation from a pool

    What [ADD_REGION], the search and [found_block] do to the invariant, and the
    specification of [xmem_pool_alloc]. *)

From S2P Require Import Prelude BootMem PageAlloc Tlsf TlsfMap TlsfLists TlsfBlocks TlsfInv.
Local Open Scope xen_scope.

Section alloc.
Context {H : Type} (sizes : Z → Prop) (granted : Z → Z → Prop).

Abbreviation inv := (pool_inv (H:=H) sizes granted).

Definition same_sizes (p p' : xmem_pool) : Prop :=
  init_size p' = init_size p ∧ max_size p' = max_size p ∧ grow_size p' = grow_size p ∧ init_region p' = init_region p.

Lemma block_size_ok b (w : world H) s f pf :
  (16 | s) → 0 ≤ s < 2 ^ MAX_FLI → acc w (a_size b) → peek w (a_size b) = enc s f pf → block_size b w = Ok s.
Proof. intros Hd Hs Ha E. unfold block_size. rewrite rd_ok by done. cbn [mbind outcome_bind]. by rewrite E, enc_size. Qed.

Lemma listed_blk (p : xmem_pool) (w : world H) R L a : inv p w R L → in_lists L a ↔ ∃ s, blk_at R a s true.
Proof. intros HI. apply (lists_of_in L (λ a s, blk_at R a s true)). apply HI. Qed.

Lemma u64_add_l x y : u64 (u64 x + y) = u64 (x + y).
Proof. unfold u64. apply Zplus_mod_idemp_l. Qed.

Lemma lists_rep_stats p p' (w : world H) L :
  fl_bitmap p' = fl_bitmap p → sl_bitmap p' = sl_bitmap p → matrix p' = matrix p → lists_rep p w L → lists_rep p' w L.
Proof.
  intros E1 E2 E3 [R1 R2 R3 R4 R5 R6 R7]. split; try done.
  - eapply bits_rep_ext; [| | |exact R1]; done.
  - intros fl sl Hc. unfold head_of. rewrite E3. by apply R2.
Qed.

(** ** Adding a region *)

Section add_region.
Context (p : xmem_pool) (w : world H) (R : regions) (L : flists) (HI : inv p w R L) (r n : Z)
  (Hr : 0 < r) (Hrp : (PAGE_SIZE | r)) (Hnp : (PAGE_SIZE | n)) (Hn : 0 < n ≤ 2 ^ MAX_FLI)
  (Hg : granted r n) (Hnew : ∀ x, r ≤ x < r + n → acc w x ∧ ¬ in_regions R x).

Definition with_region : regions := <[r := [(n - 32, true)]]> R.

Lemma add_region_n : 4096 ≤ n ∧ (16 | n - 32) ∧ 16 ≤ n - 32 < 2 ^ MAX_FLI.
Proof using Hnp Hn.
  destruct Hnp as [q Hq]. change PAGE_SIZE with 4096 in Hq. change MAX_FLI with 30 in *.
  split; [lia|]. split; [exists (q * 256 - 2); lia|lia].
Qed.

Lemma add_region_fresh : R !! r = None.
Proof using HI Hn Hnew.
  destruct (R !! r) as [l|] eqn:E; [|done]. exfalso. apply (Hnew r); [lia|]. exists r, l. split; [done|].
  destruct (rw_blocks _ (pi_wf _ _ _ _ _ _ HI) r l E) as [Hw _]. destruct (span_facts l Hw). unfold rlen. lia.
Qed.

Lemma blk_at_with_region a s f : blk_at with_region a s f ↔ (a = r ∧ s = n - 32 ∧ f = true) ∨ blk_at R a s f.
Proof using HI Hn Hnew.
  pose proof add_region_fresh as Hf. unfold blk_at, with_region. split.
  - intros (r' & l & [[<- <-]|[Hne Hl]]%lookup_insert_Some & Hb); [|right; eauto]. simpl in Hb. tauto.
  - intros [(-> & -> & ->)|(r' & l & Hl & Hb)].
    + exists r, [(n - 32, true)]. rewrite lookup_insert_eq. simpl. auto.
    + exists r', l. rewrite lookup_insert_ne by congruence. auto.
Qed.

Lemma in_with_region x : in_regions with_region x ↔ r ≤ x < r + n ∨ in_regions R x.
Proof using HI Hn Hnew.
  pose proof add_region_fresh as Hf. unfold in_regions, with_region. split.
  - intros (r' & l & [[<- <-]|[Hne Hl]]%lookup_insert_Some & Hx); [left; unfold rlen in Hx; simpl in Hx; lia|right; eauto].
  - intros [Hx|(r' & l & Hl & Hx)].
    + exists r, [(n - 32, true)]. rewrite lookup_insert_eq. unfold rlen. simpl. split; [done|lia].
    + exists r', l. rewrite lookup_insert_ne by congruence. auto.
Qed.

Lemma add_region_disj r' l : R !! r' = Some l → r + n ≤ r' ∨ r' + rlen l ≤ r.
Proof using HI Hn Hnew.
  intros Hl. destruct (rw_blocks _ (pi_wf _ _ _ _ _ _ HI) r' l Hl) as [Hw _]. destruct (span_facts l Hw).
  assert (¬ (r' ≤ r < r' + rlen l)) by (intros ?; apply (Hnew r); [lia|]; by exists r', l).
  assert (¬ (r ≤ r' < r + n)); [|lia]. intros ?. destruct (Hnew r') as [_ Hni]; [lia|]. apply Hni. exists r', l. unfold rlen. split; [done|lia].
Qed.

Lemma regions_wf_with_region : regions_wf with_region.
Proof using HI Hr Hrp Hnp Hn Hnew.
  destruct add_region_n as (? & ? & ?). destruct (pi_wf _ _ _ _ _ _ HI) as [W1 W2 W3 W4].
  assert (rlen [(n - 32, true)] = n) as En by (unfold rlen; simpl; lia).
  unfold with_region. split.
  - intros r' l [[<- <-]|[Hne Hl]]%lookup_insert_Some; [done|by eapply W1].
  - intros r' l [[<- <-]|[Hne Hl]]%lookup_insert_Some; [|by eapply W2]. rewrite En. split; [done|lia].
  - intros r' l [[<- <-]|[Hne Hl]]%lookup_insert_Some; [|by eapply W3]. split; [|simpl; naive_solver].
    apply wfb_cons. split; [split; [done|lia]|constructor].
  - intros a a' l l' [[<- <-]|[Hne Hl]]%lookup_insert_Some [[<- <-]|[Hne' Hl']]%lookup_insert_Some Hlt; [lia| | |by eapply W4].
    + rewrite En. destruct (add_region_disj a' l' Hl'); [done|]. destruct (W3 _ _ Hl') as [Hw _]. destruct (span_facts _ Hw). unfold rlen in *. lia.
    + destruct (add_region_disj a l Hl); lia.
Qed.

(** The cells of the region are no links or headers of other blocks. *)
Lemma add_region_blk a s f : blk_at R a s f → r + n ≤ a ∨ a + 16 + s ≤ r.
Proof using HI Hn Hnew.
  intros (r' & l & Hl & Hb). pose proof (region_block_bounds _ (pi_wf _ _ _ _ _ _ HI) _ _ _ _ _ Hl Hb).
  destruct (add_region_disj r' l Hl); lia.
Qed.

Lemma add_region_hdr a : hdr_at R a → r + n ≤ a ∨ a + 16 ≤ r.
Proof using HI Hn Hnew.
  intros (r' & l & Hl & Hb). pose proof (region_hdr_bounds _ (pi_wf _ _ _ _ _ _ HI) _ _ _ Hl Hb).
  destruct (add_region_disj r' l Hl); lia.
Qed.

Lemma add_region_unlisted x : r ≤ x < r + n → ∀ a, in_lists L a → x ≠ a_prev a ∧ x ≠ a_next a.
Proof using HI Hn Hnew.
  intros Hx a Ha. apply (listed_blk p w R L a HI) in Ha as (s & Hs).
  destruct (blk_facts R (pi_wf _ _ _ _ _ _ HI) _ _ _ Hs) as (_ & _ & _ & ?).
  destruct (add_region_blk a s true Hs); unfold a_prev, a_next; lia.
Qed.

(** The list that gets the new block. *)
Definition with_block (b s : Z) (L : flists) : flists :=
  <[MAPPING_INSERT s := b :: lst L (MAPPING_INSERT s)]> L.

(** Cells of the region are not links of the lists, except the new block's. *)
Lemma add_region_links x a :
  r ≤ x < r + n → x ≠ a_prev r → x ≠ a_next r → in_lists (with_block r (n - 32) L) a → x ≠ a_prev a ∧ x ≠ a_next a.
Proof using HI Hn Hnew.
  intros Hx N1 N2 [c Ha]. unfold with_block in Ha. destruct (decide (c = MAPPING_INSERT (n - 32))) as [-> |Hc].
  - rewrite lst_insert in Ha. apply elem_of_cons in Ha as [-> |Ha]; [done|]. apply (add_region_unlisted x Hx). by eexists.
  - rewrite lst_insert_ne in Ha by done. apply (add_region_unlisted x Hx). by eexists.
Qed.

(** What [ADD_REGION] leaves behind, apart from the counters. *)
Record region_added (p1 : xmem_pool) (w1 : world H) : Prop := {
  ra_hdrs : hdrs w1 r 0 false [(n - 32, true)];
  ra_lists : lists_rep p1 w1 (with_block r (n - 32) L);
  ra_frame x : ¬ (r ≤ x < r + n) → ¬ link_cell (in_lists L) x → peek w1 x = peek w x;
  ra_held : w_held w1 = w_held w;
  ra_heap : w_heap w1 = w_heap w;
  ra_stats : same_stats p p1;
}.

Lemma add_region_run :
  ∃ p1 w1, ADD_REGION r n p w = Ok (upd_stats (used_size p1 + BHDR_OVERHEAD) (num_regions p1 + 1) p1, w1) ∧ region_added p1 w1.
Proof using HI Hr Hrp Hnp Hn Hnew.
  destruct add_region_n as (Hn0 & Hd & Hb). pose proof (page_div16 r Hrp) as Dr.
  assert (∀ x, r ≤ x < r + n → acc w x) as Hacc by (intros x Hx; by apply Hnew).
  unfold ADD_REGION. rewrite wr_ok by (apply Hacc; unfold a_prev_hdr; lia). cbn [mbind outcome_bind].
  change (2 * BHDR_OVERHEAD) with 32. rewrite u64_small by (change MAX_FLI with 30 in *; lia).
  rewrite rounddown_size, enc_new by (done || lia).
  rewrite wr_ok by (apply (Hacc (a_size r)); unfold a_size; lia). cbn [mbind outcome_bind].
  rewrite enc_size by (done || lia). destruct (MAPPING_INSERT (n - 32)) as [fl sl] eqn:EM.
  set (w2 := poke (a_size r) (enc (n - 32) true false) (poke (a_prev_hdr r) 0 w)).
  destruct (INSERT_BLOCK_spec p w2 L r fl sl) as (p1 & w3 & -> & HL3 & Hfr & Hst); [| | |lia| | |].
  { unfold w2. repeat (apply lists_rep_poke; [apply add_region_unlisted; unfold a_size, a_prev_hdr; lia|]). apply HI. }
  { by apply (mapping_insert_spec (n - 32)); [lia|]. }
  { done. }
  { apply (Hacc (a_prev r)). unfold a_prev. lia. }
  { intros Hin. by destruct (add_region_unlisted (a_prev r) ltac:(unfold a_prev; lia) r Hin). }
  cbn [mbind outcome_bind]. rewrite <- EM in HL3. fold (with_block r (n - 32) L) in HL3. pose proof Hfr as (Hh3 & Hp3 & Hf3).
  assert (∀ x, r ≤ x < r + n → acc w3 x) as Hacc3 by (intros x Hx; unfold acc; rewrite Hh3; by apply Hacc).
  assert (peek w3 (a_prev_hdr r) = 0 ∧ peek w3 (a_size r) = enc (n - 32) true false) as [E0 E1].
  { assert (∀ x, r ≤ x < r + 16 → peek w3 x = peek w2 x) as Hin3.
    { intros x Hx. apply Hf3. intros (a & [-> |Ha] & Hor); [unfold a_prev, a_next in Hor; lia|]. destruct (add_region_unlisted x ltac:(lia) a Ha). tauto. }
    unfold a_prev_hdr, a_size in *. rewrite !Hin3 by lia. unfold w2, a_prev_hdr, a_size. rewrite peek_poke, peek_poke_ne, peek_poke by lia. done. }
  rewrite (block_size_ok r w3 (n - 32) true false); [|done|lia|apply Hacc3; unfold a_size; lia|done].
  cbn [mbind outcome_bind]. unfold GET_NEXT_BLOCK, buffer. change BHDR_OVERHEAD with 16.
  replace (r + 16 + (n - 32)) with (r + n - 16) by lia. set (lb := r + n - 16).
  rewrite wr_ok by (apply Hacc3; unfold a_prev_hdr, lb; lia). cbn [mbind outcome_bind].
  rewrite wr_ok by (apply (Hacc3 (a_size lb)); unfold a_size, lb; lia). cbn [mbind outcome_bind].
  change (Z.lor (Z.lor 0 USED_BLOCK) PREV_FREE) with (enc 0 false true). eexists p1, _. split; [done|].
  split; [| | |exact Hh3|exact Hp3|done].
  - apply hdrs_cons. unfold hdrs. simpl. replace (r + 16 + (n - 32) + 0) with lb by (unfold lb; lia). unfold a_prev_hdr, a_size in *.
    rewrite peek_poke, (peek_poke_ne (lb + 8) lb), peek_poke, !peek_poke_ne by (unfold lb; lia). done.
  - apply lists_rep_poke; [|apply lists_rep_poke; [|exact HL3]]; intros a Ha; by apply add_region_links; [unfold a_prev_hdr, a_size, a_prev, a_next, lb; lia..|].
  - intros x Hx Hnl. rewrite !peek_poke_ne by (unfold a_prev_hdr, a_size, lb; lia). rewrite Hf3.
    + unfold w2, a_size, a_prev_hdr. rewrite !peek_poke_ne by lia. done.
    + intros (a & [-> |Ha] & Hor); [unfold a_prev, a_next in Hor; lia|]. apply Hnl. by exists a.
Qed.

Lemma add_region_inv p1 w1 :
  region_added p1 w1 →
  inv (upd_stats (used_size p1 + BHDR_OVERHEAD) (num_regions p1 + 1) p1) w1 with_region (with_block r (n - 32) L).
Proof using HI Hr Hrp Hnp Hn Hg Hnew.
  intros [Hhd HL Hfr Hh Hp (S1 & S2 & S3 & S4 & S5 & S6)]. pose proof (pi_wf _ _ _ _ _ _ HI) as HW.
  pose proof regions_wf_with_region as HW'. assert (∀ x, acc w x → acc w1 x) as Hacc by (intros x; unfold acc; by rewrite Hh).
  split; [exact HW'| |by apply (lists_rep_stats p1)| | | | | |].
  - unfold with_region at 1. intros r' l [[<- <-]|[Hne Hl]]%lookup_insert_Some; [done|].
    eapply hdrs_ext; [|by apply (pi_hdrs _ _ _ _ _ _ HI)]. intros x Hx. assert (hdr_at R x) as Hx' by (by exists r', l).
    destruct (hdr_facts R HW x Hx') as [[u Hu] _]. pose proof (add_region_hdr x Hx').
    destruct (hdr_not_link R HW (in_lists L) x) as [N1 N2]; [|done|].
    { intros a Ha. apply (listed_blk p w R L) in Ha as (s & Hs); [eauto|done]. }
    split; apply Hfr; unfold a_prev_hdr, a_size in *; (done || lia).
  - eapply lists_of_ext; [|apply lists_of_add, HI]. intros a s. rewrite blk_at_with_region. tauto.
  - intros x [Hx|Hx]%in_with_region; apply Hacc; [by apply Hnew|by apply (pi_acc _ _ _ _ _ _ HI)].
  - cbn [used_size upd_stats]. unfold with_region. rewrite rsum_insert by apply add_region_fresh. simpl.
    rewrite S4, (pi_used _ _ _ _ _ _ HI), u64_add_l. f_equal. change BHDR_OVERHEAD with 16. lia.
  - cbn [num_regions upd_stats]. unfold with_region. rewrite map_size_insert_None by apply add_region_fresh.
    rewrite S5, (pi_num _ _ _ _ _ _ HI), u64_add_l. f_equal. lia.
  - unfold with_region. intros r' l [[<- <-]|[Hne Hl]]%lookup_insert_Some; [|by apply (pi_granted _ _ _ _ _ _ HI)].
    replace (rlen [(n - 32, true)]) with n by (unfold rlen; simpl; lia). done.
  - cbn [init_size grow_size upd_stats]. rewrite S1, S3. apply HI.
Qed.

Lemma ADD_REGION_spec :
  ∃ p' w', ADD_REGION r n p w = Ok (p', w') ∧ inv p' w' with_region (with_block r (n - 32) L) ∧
    w_held w' = w_held w ∧ w_heap w' = w_heap w ∧
    (∀ x, other R x → ¬ (r ≤ x < r + n) → peek w' x = peek w x) ∧ same_sizes p p'.
Proof using HI Hr Hrp Hnp Hn Hg Hnew.
  destruct add_region_run as (p1 & w1 & Hrun & Hra). eexists _, w1. split; [done|]. split; [by apply add_region_inv|].
  destruct Hra as [_ _ Hfr Hh Hp (S1 & S2 & S3 & S4 & S5 & S6)]. split; [done|]. split; [done|]. split; [|by repeat split].
  intros x Ho Hx. apply Hfr; [done|]. apply (other_link R (in_lists L) x (pi_wf _ _ _ _ _ _ HI)); [|done]. intros a Ha. by apply (listed_blk p w R L).
Qed.
End add_region.

(** ** Finding a block *)

Context (wok : world H → Prop) (get_mem : Z → world H → outcome (Z * world H)) (put_mem : Z → world H → outcome (world H))
  {PM : PoolMemory wok get_mem put_mem sizes granted}.

(** Memory the pool does not own, and what its users own, is kept. *)
Definition kept (R : regions) (w w' : world H) : Prop :=
  w_held w ⊆ w_held w' ∧ ∀ x, acc w x → other R x → peek w' x = peek w x.

(** The regions of a pool grow only by pages that were not held. *)
Record extends (w w' : world H) (R R' : regions) : Prop := {
  ex_out x : acc w x → ¬ in_regions R x → ¬ in_regions R' x;
  ex_in x : in_regions R x → in_regions R' x;
  ex_acc x : acc w' x → acc w x ∨ in_regions R' x;
}.

Lemma extends_same w w' (R R' : regions) : w_held w' = w_held w → (∀ x, in_regions R' x ↔ in_regions R x) → extends w w' R R'.
Proof. intros Hh HR. split; intros x; [by rewrite HR|by rewrite HR|]. unfold acc. rewrite Hh. auto. Qed.

Lemma extends_trans w w1 w2 (R R1 R2 : regions) :
  w_held w ⊆ w_held w1 → extends w w1 R R1 → extends w1 w2 R1 R2 → extends w w2 R R2.
Proof.
  intros Hh [A1 A2 A3] [B1 B2 B3]. split; intros x.
  - intros Hx Hn. apply B1; [by apply Hh|by apply A1].
  - intros Hx. by apply B2, A2.
  - intros [Hx|Hx]%B3; [|auto]. apply A3 in Hx as [?|?]; auto.
Qed.

(** A region more: the users keep their blocks. *)
Definition grown (w w' : world H) (R R' : regions) : Prop :=
  (∀ x, acc w x → other R x → other R' x) ∧ (∀ a s, blk_at R' a s false ↔ blk_at R a s false) ∧ extends w w' R R'.

(** The invariant is about the memory of the regions. *)
Lemma inv_regions_memory p w w1 R L :
  inv p w R L → (∀ x, in_regions R x → acc w1 x ∧ peek w1 x = peek w x) → inv p w1 R L.
Proof.
  intros HI Hk. pose proof HI as [I1 I2 I3 I4 I5 I6 I7 I8 I9]. split; try done; [| |by intros x Hx; apply Hk].
  - intros r' l Hl. eapply hdrs_ext; [|by apply I2]. intros x Hx. assert (hdr_at R x) as Hx' by (by exists r', l).
    split; apply Hk; eapply (hdr_in_regions R x); unfold a_prev_hdr, a_size; try done; lia.
  - assert (∀ c a, a ∈ lst L c → in_regions R (a_prev a) ∧ in_regions R (a_next a)) as Hl.
    { intros c a Ha. destruct (proj1 (listed_blk p w R L a HI) (ex_intro _ c Ha)) as (s & Hs). destruct (blk_facts R I1 _ _ _ Hs) as (_ & _ & _ & ?).
      split; (eapply (blk_in_regions R a s true); [done|done|]); unfold a_prev, a_next; lia. }
    destruct I3 as [R1 R2 R3 R4 R5 R6 R7]. split; try done.
    + intros c. eapply linked_ext; [|apply R3]. intros a Ha. destruct (Hl c a Ha). split; by apply Hk.
    + intros c a Ha. destruct (R7 c a Ha) as (? & ? & ?). split; [done|]. split; [done|]. by apply Hk, (Hl c a Ha).
Qed.

Lemma inv_other_memory p w w1 R L :
  inv p w R L → (∀ x, acc w x → acc w1 x) → (∀ x, acc w x → peek w1 x = peek w x) → inv p w1 R L.
Proof. intros HI Ha Hk. apply (inv_regions_memory p w); [done|]. intros x Hx%(pi_acc _ _ _ _ _ _ HI). auto. Qed.

(** [get_mem] followed by [ADD_REGION]. *)
Lemma grow_spec p w R L n r w1 :
  inv p w R L → wok w → sizes n → get_mem n w = Ok (r, w1) → r ≠ 0 →
  ∃ p' w', ADD_REGION r n p w1 = Ok (p', w') ∧ inv p' w' (with_region R r n) (with_block r (n - 32) L) ∧ wok w' ∧
    kept R w w' ∧ same_sizes p p' ∧ grown w w' R (with_region R r n) ∧ blk_at (with_region R r n) r (n - 32) true ∧ 0 < r.
Proof using PM.
  intros HI Hw Hn Hget Hr. destruct (pm_get n w Hw Hn) as (r' & w1' & E & Hw1 & Hk & Hor). rewrite Hget in E. injection E as <- <-.
  destruct Hor as [[? _]|(Hr0 & Hrp & Hg & Hdis & Hh)]; [done|]. destruct (pm_sizes n Hn) as [Hnp Hn0].
  assert (∀ x, acc w x → ¬ (r ≤ x < r + n)) as Hout.
  { intros x Hx Hin. apply (elem_pages_of r n x Hrp Hnp) in Hin. by apply (Hdis (x / PAGE_SIZE)). }
  assert (∀ x, acc w x → acc w1 x) as Ha1 by (intros x; unfold acc; rewrite Hh; set_solver).
  assert (inv p w1 R L) as HI1 by (by apply (inv_other_memory p w)).
  assert (∀ x, r ≤ x < r + n → acc w1 x ∧ ¬ in_regions R x) as Hnew.
  { intros x Hx. split; [unfold acc; rewrite Hh; apply elem_of_union_r; by apply elem_pages_of|].
    intros Hin. apply (Hout x); [|done]. by apply (pi_acc _ _ _ _ _ _ HI). }
  destruct (ADD_REGION_spec p w1 R L HI1 r n Hr0 Hrp Hnp Hn0 Hg Hnew) as (p' & w' & Hadd & HI' & Hh' & Hp' & Hf & Hs).
  pose proof (blk_at_with_region p w1 R L HI1 r n Hn0 Hnew) as Hblk.
  exists p', w'. split; [done|]. split; [done|]. split; [by apply (pm_frame w1)|]. split; [|split; [done|split; [split; [|split]|split; [|done]]]].
  - split; [rewrite Hh', Hh; set_solver|]. intros x Hx Ho. rewrite Hf; [by apply Hk|done|by apply Hout].
  - intros x Hx [Ho|(a & s & Ha & Hin)]; [left|right; exists a, s; split; [apply Hblk; by right|done]].
    unfold with_region. intros (r' & l & [[<- <-]|[Hne Hl]]%lookup_insert_Some & Hin); [|apply Ho; by exists r', l].
    apply (Hout x Hx). unfold rlen in Hin. simpl in Hin. lia.
  - intros a s. rewrite Hblk. naive_solver.
  - pose proof (in_with_region p w1 R L HI1 r n Hn0 Hnew) as Hreg. split; intros x; rewrite ?Hreg; [|auto|].
    + intros Hx Hnx [Hin|Hin]; [by apply (Hout x)|done].
    + unfold acc at 1. rewrite Hh', Hh. intros [?|?%elem_pages_of]%elem_of_union; auto.
  - apply Hblk. by left.
Qed.

Definition rounded (size : Z) : Z := (MAPPING_SEARCH size).1.1.

Lemma class_ok_lb fl sl : 0 ≤ fl → 0 ≤ sl < MAX_SLI → class_lb fl sl < 2 ^ MAX_FLI → class_ok fl sl.
Proof.
  intros Hf Hs Hlb. split; [|done]. split; [done|]. destruct (decide (fl < REAL_FLI)) as [|Hge]; [done|].
  pose proof (class_row_mono REAL_FLI fl ltac:(change REAL_FLI with 24 in *; lia)) as Hm.
  pose proof (class_lb_mono_sl fl 0 sl Hf ltac:(lia)). change (class_lb REAL_FLI 0) with (2 ^ 30) in Hm. change MAX_FLI with 30 in *. lia.
Qed.

(** One search: a block at least as large as the rounded size, or no list
    searched has one. *)
Lemma search_spec p w R L size q fl sl :
  inv p w R L → (16 | size) → 16 ≤ size < 2 ^ 62 → MAPPING_SEARCH size = (q, fl, sl) → q < 2 ^ MAX_FLI →
  ∃ b fl' sl', FIND_SUITABLE_BLOCK p fl sl = Ok (b, fl', sl') ∧
    (b = 0 ∧ (∀ a s, blk_at R a s true → s < q) ∨
     b ≠ 0 ∧ ∃ l s, lst L (fl', sl') = b :: l ∧ blk_at R b s true ∧ MAPPING_INSERT s = (fl', sl') ∧ q ≤ s).
Proof.
  intros HI Hd Hs E Hq. destruct (mapping_search_spec size q fl sl Hd Hs E) as (_ & _ & Eq & Hf & Hsl & _).
  assert (class_ok fl sl) as Hc by (apply class_ok_lb; [done|done|lia]).
  destruct (FIND_SUITABLE_BLOCK_spec p w L fl sl (pi_lists _ _ _ _ _ _ HI) Hc) as (b & fl' & sl' & -> & Hor).
  exists b, fl', sl'. split; [done|]. destruct Hor as [[-> Hno]|(Hle & Hb0 & l & Hl)].
  - left. split; [done|]. intros a s Ha. destruct (blk_facts R (pi_wf _ _ _ _ _ _ HI) _ _ _ Ha) as (_ & _ & _ & Hs').
    destruct (decide (s < q)) as [|Hge]; [done|]. exfalso. destruct (MAPPING_INSERT s) as [f s'] eqn:EM.
    assert (a ∈ lst L (f, s')) as Hin by (apply (pi_free _ _ _ _ _ _ HI); eauto).
    destruct (mapping_insert_spec s f s' ltac:(lia) EM) as [Hc' _].
    rewrite Hno in Hin; [by apply not_elem_of_nil in Hin|done|]. eapply (mapping_insert_above s); [lia|done|done|lia|done].
  - right. split; [lia|]. assert (b ∈ lst L (fl', sl')) as Hin by (rewrite Hl; by left).
    apply (pi_free _ _ _ _ _ _ HI) in Hin as (s & Hbs & EM). exists l, s. split; [done|]. split; [done|]. split; [done|].
    destruct (blk_facts R (pi_wf _ _ _ _ _ _ HI) _ _ _ Hbs) as (_ & _ & _ & Hs').
    destruct (mapping_insert_spec s fl' sl' ltac:(lia) EM) as [[? ?] ?].
    pose proof (class_le_lb fl sl fl' sl' ltac:(lia) Hsl ltac:(lia) ltac:(lia) Hle). lia.
Qed.

(** What a successful search returns. *)
Definition found_in (R : regions) (L : flists) (q : Z) (res : Z * Z * Z * Z) : Prop :=
  ∃ b fl sl l s, res = (b, fl, sl, q) ∧ lst L (fl, sl) = b :: l ∧ blk_at R b s true ∧ MAPPING_INSERT s = (fl, sl) ∧ q ≤ s.

(** Why a search may fail: the request is too large for a region, the pool may
    not grow, or there is no memory. *)
Definition cannot_grow (p : xmem_pool) (w : world H) (q : Z) : Prop :=
  grow_size p - 32 < q ∨
  max_size p ≠ 0 ∧ max_size p < u64 (init_size p + num_regions p * grow_size p) ∨
  ∃ w', get_mem (grow_size p) w = Ok (0, w').

Lemma find_block_spec p w R L size :
  inv p w R L → wok w → (16 | size) → 16 ≤ size < 2 ^ 62 → rounded size < 2 ^ MAX_FLI →
  ∃ res p' w' R' L', find_block get_mem 3 size p w = Ok (res, p', w') ∧ inv p' w' R' L' ∧ wok w' ∧ kept R w w' ∧
    same_sizes p p' ∧ grown w w' R R' ∧
    match res with
    | Some f => found_in R' L' (rounded size) f
    | None => cannot_grow p w (rounded size) ∧ (∀ a s, blk_at R a s true → s < rounded size) ∧ R' = R
    end.
Proof using PM.
  intros HI Hw Hd Hs Hq. unfold rounded in *. cbn [find_block]. destruct (MAPPING_SEARCH size) as [[q fl] sl] eqn:E. simpl in Hq |- *.
  destruct (mapping_search_spec size q fl sl Hd Hs E) as (Hle & Hdq & Eq & Hf & Hsl & _).
  destruct (search_spec p w R L size q fl sl HI Hd Hs E Hq) as (b & fl' & sl' & -> & Hor). cbn [mbind outcome_bind].
  assert (kept R w w) as Hkr by done. assert (same_sizes p p) as Hsr by done. assert (∀ w', w_held w' = w_held w → grown w w' R R) as Hgr by (intros w' Hh; split; [done|split; [done|by apply extends_same]]).
  destruct Hor as [[-> Hno]|(Hb & l & s & Hl & Hbs & EM & Hqs)].
  2:{ rewrite (proj2 (Z.eqb_neq b 0)) by done. eexists _, p, w, R, L. split; [done|]. repeat (split; [by auto|]).
      exists b, fl', sl', l, s. auto. }
  destruct (pi_sizes _ _ _ _ _ _ HI) as [_ Hgs]. destruct (pm_sizes _ Hgs) as [[k Hk] Hg0]. change PAGE_SIZE with 4096 in Hk.
  change MAX_FLI with 30 in *. change (2 * BHDR_OVERHEAD) with 32. rewrite u64_small by lia. cbn [Z.eqb].
  destruct (Z.ltb_spec (grow_size p - 32) q) as [Hbig|Hbig].
  { eexists None, p, w, R, L. split; [done|]. repeat (split; [by auto|]). unfold cannot_grow. auto. }
  destruct (negb (max_size p =? 0) && (max_size p <? u64 (init_size p + num_regions p * grow_size p))) eqn:Emax.
  { b2p. eexists None, p, w, R, L. split; [done|]. repeat (split; [by auto|]). unfold cannot_grow. auto 6. }
  destruct (pm_get (grow_size p) w Hw Hgs) as (r & w1 & Hget & Hw1 & Hk1 & Hor). rewrite Hget. cbn [mbind outcome_bind].
  destruct (Z.eqb_spec r 0) as [-> |Hr].
  { destruct Hor as [[_ Hh]|[? _]]; [|lia]. eexists None, p, w1, R, L. split; [done|]. split; [|split; [done|split; [|split; [done|split; [by apply Hgr|]]]]].
    - apply (inv_other_memory p w); [done| |done]. intros x. unfold acc. by rewrite Hh.
    - split; [by rewrite Hh|]. auto.
    - unfold cannot_grow. eauto 6. }
  destruct (grow_spec p w R L _ r w1 HI Hw Hgs Hget Hr) as (p' & w' & -> & HI' & Hw' & Hk' & Hs' & Hgr' & Hnb & Hr0). cbn [mbind outcome_bind].
  assert (MAPPING_SEARCH q = (q, fl, sl)) as E2.
  { rewrite Eq at 1. rewrite mapping_search_fixed by (rewrite <- ?Eq; lia || done). by rewrite <- Eq. }
  rewrite E2. destruct (search_spec p' w' _ _ q q fl sl HI' Hdq ltac:(lia) E2 Hq) as (b' & fl2 & sl2 & -> & Hor'). cbn [mbind outcome_bind].
  destruct Hor' as [[-> Hno']|(Hb' & l & s & Hl & Hbs & EM & Hqs)].
  - exfalso. assert (grow_size p - 32 < q); [|lia]. by apply (Hno' r).
  - rewrite (proj2 (Z.eqb_neq b' 0)) by done. eexists _, p', w', _, _. split; [done|]. repeat (split; [by eauto 6|]).
    exists b', fl2, sl2, l, s. auto.
Qed.

(** ** Replacing blocks of a region *)

Lemma inv_replaced p p' w w' R L L' r l1 m m' l2 :
  inv p w R L → R !! r = Some (l1 ++ m ++ l2) → span m' = span m →
  regions_wf (replaced R r l1 m' l2) → hdrs_all w' (replaced R r l1 m' l2) → lists_rep p' w' L' →
  lists_of L' (λ a s, blk_at (replaced R r l1 m' l2) a s true) → w_held w' = w_held w →
  used_size p' = u64 (used_size p + (usum m' - usum m)) → num_regions p' = num_regions p →
  init_size p' = init_size p → grow_size p' = grow_size p → inv p' w' (replaced R r l1 m' l2) L'.
Proof.
  intros [I1 I2 I3 I4 I5 I6 I7 I8 I9] Hr Hspan HW Hh HL HF Hheld Hu Hn Hi Hg. split; try done.
  - intros x Hx. unfold acc. rewrite Hheld. apply I5. by apply (in_regions_replace R r l1 m m' l2).
  - rewrite Hu, I6. unfold replaced. rewrite (rsum_replace _ _ _ _ Hr), u64_add_l, !usum_app. f_equal. lia.
  - unfold replaced. rewrite map_size_insert_Some by eauto. congruence.
  - unfold replaced. intros r' l [[<- <-]|[Hne Hl]]%lookup_insert_Some; [|by apply I8].
    rewrite (rlen_replace l1 m m' l2 Hspan). by apply I8.
  - rewrite Hi, Hg. done.
Qed.

Lemma num_regions_u64 p w R L : inv p w R L → u64 (num_regions p) = num_regions p.
Proof. intros HI. rewrite (pi_num _ _ _ _ _ _ HI). unfold u64. apply Z.mod_mod. lia. Qed.

(** ** Taking a block *)

Section take.
Context (p : xmem_pool) (w : world H) (R : regions) (L : flists) (HI : inv p w R L) (r : Z) (l1 l2 : blocks) (s : Z)
  (Hr : R !! r = Some (l1 ++ [(s, true)] ++ l2)) (fl sl : Z) (lt : list Z).
Let b := r + span l1.
Let nx := b + 16 + s.
Context (Hl : lst L (fl, sl) = b :: lt).

Lemma take_blk : blk_at R b s true.
Proof using Hr. exists r, (l1 ++ [(s, true)] ++ l2). split; [done|]. rewrite !block_in_app. right. left. simpl. auto. Qed.

Lemma take_next_hdr : hdr_at R nx.
Proof using Hr.
  exists r, (l1 ++ [(s, true)] ++ l2). split; [done|]. rewrite !hdr_in_app. right. right. unfold nx, b. simpl.
  replace (r + span l1 + (16 + s + 0)) with (r + span l1 + 16 + s) by lia. by destruct l2 as [|[? ?] ?]; simpl; auto.
Qed.

(** The headers of the block and of the next one. *)
Lemma take_hdrs :
  peek w (a_prev_hdr b) = lastb r 0 l1 ∧ peek w (a_size b) = enc s true false ∧
  peek w (a_prev_hdr nx) = b ∧ peek w (a_size nx) = enc (first_of l2).1 (first_of l2).2 true ∧
  lastf false l1 = false ∧ coal true l2 ∧ (16 | (first_of l2).1) ∧ 0 ≤ (first_of l2).1 < 2 ^ MAX_FLI.
Proof using HI Hr.
  pose proof (pi_wf _ _ _ _ _ _ HI) as HW. pose proof (pi_hdrs _ _ _ _ _ _ HI _ _ Hr) as Hh.
  rewrite hdrs_app in Hh. destruct Hh as [_ Hh]. cbn [app] in Hh. apply hdrs_cons in Hh as (E1 & E2 & E3). apply hdrs_first in E3 as [E3 E4].
  destruct (rw_blocks _ HW _ _ Hr) as [Hwf Hc]. rewrite coal_app in Hc. destruct Hc as [_ Hc]. simpl in Hc. destruct Hc as [Hc1 Hc2].
  assert (lastf false l1 = false) as Elf by (destruct (lastf false l1); [tauto|done]). rewrite Elf in *.
  repeat (split; [done|]). destruct l2 as [|[s' f'] l2']; [split; [by exists 0|]; simpl; by change MAX_FLI with 30|].
  destruct (blk_facts R HW (b + 16 + s) s' f') as (_ & _ & ? & ?); [|simpl; split; [done|lia]].
  exists r, (l1 ++ [(s, true)] ++ (s', f') :: l2'). split; [done|]. rewrite !block_in_app. right. right. simpl. left. split; [unfold b; lia|done].
Qed.

Lemma take_acc x : b ≤ x < nx + 16 → acc w x.
Proof using HI Hr.
  intros Hx. apply (pi_acc _ _ _ _ _ _ HI). exists r, (l1 ++ [(s, true)] ++ l2). split; [done|].
  destruct (rw_blocks _ (pi_wf _ _ _ _ _ _ HI) _ _ Hr) as [Hw _]. rewrite !wfb_app in Hw. destruct Hw as (Hw1 & _ & Hw2).
  destruct (span_facts _ Hw1), (span_facts _ Hw2). unfold rlen. rewrite !span_app. simpl. unfold nx, b in Hx. lia.
Qed.

(** The extraction of the block. *)
Lemma take_extract :
  ∃ p1 w1, EXTRACT_BLOCK_HDR b p fl sl w = Ok (p1, w1) ∧ lists_rep p1 w1 (<[(fl, sl) := lt]> L) ∧
    lists_of (<[(fl, sl) := lt]> L) (λ a s', blk_at R a s' true ∧ a ≠ b) ∧ same_stats p p1 ∧
    w_held w1 = w_held w ∧ w_heap w1 = w_heap w ∧
    (∀ y, hdr_at R y → same_hdr w w1 y) ∧ (∀ x, other R x → peek w1 x = peek w x).
Proof using HI Hr Hl.
  pose proof (pi_wf _ _ _ _ _ _ HI) as HW. pose proof (pi_lists _ _ _ _ _ _ HI) as HL.
  rewrite (EXTRACT_BLOCK_HDR_eq p w L fl sl lt b HL Hl).
  destruct (EXTRACT_BLOCK_spec p w L fl sl [] lt b HL Hl) as (p1 & w1 & -> & HL1 & Hf & Hs).
  exists p1, w1. split; [done|]. split; [done|]. split; [|split; [done|]].
  - apply (lists_of_remove L (λ a s', blk_at R a s' true) (fl, sl) [] lt b); [apply HI|done|apply HL|].
    intros c Hc. apply (lr_once _ _ _ HL c (fl, sl) b Hc). rewrite Hl. by left.
  - destruct Hf as (F1 & F2 & F3). split; [done|]. split; [done|]. split.
    + intros y Hy. apply (same_hdr_links (in_lists L) w w1 R y HW); [|done|done].
      intros a Ha. apply (listed_blk p w R L a HI) in Ha as (s' & ?). eauto.
    + intros x Ho. apply F3. apply (other_link R (in_lists L) x HW); [|done]. intros a. by apply (listed_blk p w R L).
Qed.

(** Other free blocks are outside this one. *)
Lemma take_apart a s' f : blk_at R a s' f → a ≠ b → ¬ (b ≤ a < nx).
Proof using HI Hr.
  intros Ha Hne. destruct (blk_disj R (pi_wf _ _ _ _ _ _ HI) _ _ _ _ _ _ Ha take_blk) as [(? & _)|Hd]; [done|].
  destruct (blk_facts R (pi_wf _ _ _ _ _ _ HI) _ _ _ Ha) as (_ & _ & _ & ?). unfold nx. lia.
Qed.

(** The whole block is taken. *)
Definition taken_whole : regions := replaced R r l1 [(s, false)] l2.

Lemma taken_whole_wf : regions_wf taken_whole.
Proof using HI Hr.
  destruct take_hdrs as (_ & _ & _ & _ & Elf & Hc & _).
  destruct (rw_blocks _ (pi_wf _ _ _ _ _ _ HI) _ _ Hr) as [Hw _]. rewrite !wfb_app in Hw. destruct Hw as (_ & Hwm & _).
  apply (regions_wf_replace R (pi_wf _ _ _ _ _ _ HI) r l1 [(s, true)]); [done|done| | |].
  - apply wfb_cons in Hwm as [? _]. apply wfb_cons. split; [done|constructor].
  - simpl. naive_solver.
  - simpl. by apply coal_weaken.
Qed.

Lemma taken_whole_blk a s' f :
  blk_at taken_whole a s' f ↔ (a = b ∧ s' = s ∧ f = false) ∨ blk_at R a s' f ∧ a ≠ b.
Proof using HI Hr.
  unfold taken_whole. rewrite (blk_at_replace R (pi_wf _ _ _ _ _ _ HI) r l1 [(s, true)]) by done. fold b. simpl. split.
  - intros [[?|[]]|[Ha Hn]]; [auto|]. right. split; [done|]. destruct (blk_facts R (pi_wf _ _ _ _ _ _ HI) _ _ _ take_blk) as (_ & _ & _ & ?). lia.
  - intros [?|[Ha Hne]]; [auto|]. right. split; [done|]. pose proof (take_apart a s' f Ha Hne). unfold nx in *. lia.
Qed.

Lemma take_whole_spec :
  ∃ p1 w1 w2 L', EXTRACT_BLOCK_HDR b p fl sl w = Ok (p1, w1) ∧ block_size b w1 = Ok s ∧ same_stats p p1 ∧
    (let! s := rd (a_size nx) w1 in
     let! w2 := wr (a_size nx) (Z.ldiff s PREV_FREE) w1 in
     let! s := rd (a_size b) w2 in
     let! w3 := wr (a_size b) (Z.ldiff s FREE_BLOCK) w2 in
     Ok (p1, w3)) = Ok (p1, w2) ∧ block_size b w2 = Ok s ∧
    inv (upd_stats (used_size p1 + s + BHDR_OVERHEAD) (num_regions p1) p1) w2 taken_whole L' ∧
    w_held w2 = w_held w ∧ w_heap w2 = w_heap w ∧ (∀ x, other R x → peek w2 x = peek w x).
Proof using HI Hr Hl.
  pose proof (pi_wf _ _ _ _ _ _ HI) as HW. destruct (blk_facts R HW _ _ _ take_blk) as ([u Hu] & Hb0 & Hds & Hs).
  destruct take_hdrs as (E1 & E2 & E3 & E4 & Elf & Hc & Hd2 & Hs2). destruct (hdr_facts R HW nx take_next_hdr) as [[v Hv] _].
  destruct take_extract as (p1 & w1 & -> & HL1 & HF1 & Hst & Hh1 & Hp1 & Hsame & Ho1).
  assert (∀ x, b ≤ x < nx + 16 → acc w1 x) as Ha1 by (intros x Hx; unfold acc; rewrite Hh1; by apply take_acc).
  assert (acc w1 (a_size b) ∧ acc w1 (a_size nx)) as [Ab An] by (split; apply Ha1; unfold a_size, nx; lia).
  destruct (Hsame b (blk_hdr_at _ _ _ _ take_blk)) as [B1 B2], (Hsame nx take_next_hdr) as [N1 N2].
  eexists p1, w1, _, _. split; [done|]. split; [by apply (block_size_ok b w1 s true false); [done|lia|done|congruence]|]. split; [done|].
  rewrite rd_ok by done. cbn [mbind outcome_bind]. rewrite N2, E4, enc_clear_prev_free, wr_ok by done. cbn [mbind outcome_bind].
  set (w2 := poke (a_size nx) _ w1).
  assert (peek w2 (a_size b) = enc s true false) as E5.
  { unfold w2. rewrite peek_poke_ne by (unfold a_size, nx; lia). congruence. }
  rewrite rd_ok by done. cbn [mbind outcome_bind]. rewrite E5, enc_clear_free, wr_ok by (done || lia). cbn [mbind outcome_bind].
  set (w3 := poke (a_size b) _ w2). split; [done|].
  assert (peek w3 (a_size b) = enc s false false) as E6 by apply peek_poke.
  split; [by apply (block_size_ok b w3 s false false); [done|lia|done|]|].
  assert (∀ y, hdr_at R y → y ≠ b → y ≠ nx → same_hdr w w3 y) as Hsame3.
  { intros y Hy Hnb Hnn. destruct (hdr_facts R HW y Hy) as [[t Ht] _].
    apply (same_hdr_trans w w1); [by apply Hsame|]. apply (same_hdr_trans w1 w2); apply same_hdr_poke; unfold a_size, a_prev_hdr; lia. }
  split; [|split; [done|split; [done|]]].
  2:{ intros x Ho. pose proof (other_free R x b s HW Ho take_blk). pose proof (other_hdr R x nx HW Ho take_next_hdr).
      unfold w3, w2. rewrite !peek_poke_ne by (unfold a_size, nx in *; lia). by apply Ho1. }
  eapply (inv_replaced p _ w); [exact HI|exact Hr|done|exact taken_whole_wf| | | |done| | | |].
  - apply (hdrs_all_replace w w3 R r l1 [(s, true)]); [done|done|done|apply HI| | | |]; fold b; simpl; replace (b + (16 + s + 0)) with nx by (unfold nx; lia).
    + intros y Hy Hn. apply Hsame3; [done|intros ->; unfold nx in Hn; lia|intros ->; unfold nx in Hn; lia].
    + split; [|split; [by rewrite E6, Elf|done]]. unfold w3, w2. rewrite !peek_poke_ne by (unfold a_size, a_prev_hdr, nx; lia). congruence.
    + unfold w3, w2. rewrite !peek_poke_ne by (unfold a_size, a_prev_hdr, nx; lia). congruence.
    + unfold w3, w2. rewrite peek_poke_ne by (unfold a_size, a_prev_hdr, nx; lia). by rewrite peek_poke.
  - apply (lists_rep_stats p1); [done|done|done|].
    assert (∀ a, in_lists (<[(fl, sl) := lt]> L) a → ∃ s f, blk_at R a s f) as HP.
    { intros a Ha. apply (lists_of_in _ _ a HF1) in Ha as (s' & ? & _). eauto. }
    assert (∀ y, hdr_at R y → ∀ a, in_lists (<[(fl, sl) := lt]> L) a → a_size y ≠ a_prev a ∧ a_size y ≠ a_next a) as Hno.
    { intros y Hy a Ha. destruct (hdr_not_link R HW _ y HP Hy) as [_ Hn]. split; intros E; apply Hn; exists a; auto. }
    unfold w3, w2. apply lists_rep_poke; [apply Hno, (blk_hdr_at _ _ _ _ take_blk)|]. apply lists_rep_poke; [apply Hno, take_next_hdr|]. exact HL1.
  - eapply lists_of_ext; [|exact HF1]. intros a s'. cbn beta. rewrite taken_whole_blk. naive_solver.
  - cbn [used_size upd_stats usum]. destruct Hst as (_ & _ & _ & -> & _ & _). change BHDR_OVERHEAD with 16. f_equal. lia.
  - cbn [num_regions upd_stats]. destruct Hst as (_ & _ & _ & _ & -> & _). by apply (num_regions_u64 p w R L).
  - cbn [init_size upd_stats]. by destruct Hst.
  - cbn [grow_size upd_stats]. by destruct Hst as (_ & _ & ? & _).
Qed.

(** The block is split and its first part taken. *)
Section split.
Context (q : Z) (Hdq : (16 | q)) (Hq : 16 ≤ q) (Hqs : q + 32 ≤ s).
Let b2 := b + 16 + q.
Let t := s - q - 16.

Definition taken_split : regions := replaced R r l1 [(q, false); (s - q - 16, true)] l2.

Lemma split_t : (16 | t) ∧ 16 ≤ t < 2 ^ MAX_FLI ∧ (16 | b2).
Proof using HI Hr Hdq Hq Hqs.
  destruct (blk_facts R (pi_wf _ _ _ _ _ _ HI) _ _ _ take_blk) as ([u Hu] & _ & [v Hv] & ?). destruct Hdq as [k Hk].
  unfold t, b2. split; [exists (v - k - 1); lia|]. split; [lia|]. exists (u + 1 + k). lia.
Qed.

Lemma split_span : span [(q, false); (s - q - 16, true)] = span [(s, true)].
Proof. clear. simpl. lia. Qed.

Lemma taken_split_wf : regions_wf taken_split.
Proof using HI Hr Hdq Hq Hqs.
  destruct take_hdrs as (_ & _ & _ & _ & Elf & Hc & _). destruct split_t as (? & ? & _).
  apply (regions_wf_replace R (pi_wf _ _ _ _ _ _ HI) r l1 [(s, true)]); [done|apply split_span| | |].
  - apply wfb_cons. split; [done|]. apply wfb_cons. split; [fold t; split; [done|lia]|constructor].
  - simpl. naive_solver.
  - simpl. done.
Qed.

Lemma taken_split_blk a s' f :
  blk_at taken_split a s' f ↔ (a = b ∧ s' = q ∧ f = false) ∨ (a = b2 ∧ s' = t ∧ f = true) ∨ blk_at R a s' f ∧ a ≠ b.
Proof using HI Hr Hdq Hq Hqs.
  unfold taken_split. rewrite (blk_at_replace R (pi_wf _ _ _ _ _ _ HI) r l1 [(s, true)]) by (done || apply split_span).
  fold b. cbn [block_in span]. fold b2 t. split.
  - intros [[?|[?|[]]]|[Ha Hn]]; [auto|auto|]. right. right. split; [done|].
    destruct (blk_facts R (pi_wf _ _ _ _ _ _ HI) _ _ _ take_blk) as (_ & _ & _ & ?). lia.
  - intros [?|[?|[Ha Hne]]]; [auto|auto|]. right. split; [done|]. pose proof (take_apart a s' f Ha Hne). unfold nx in *. lia.
Qed.

Lemma taken_split_hdr y : hdr_at R y → ¬ (b < y < nx) → hdr_at taken_split y.
Proof using HI Hr Hdq Hq Hqs.
  intros Hy Hn. destruct (decide (y = b)) as [-> |Hne].
  - apply (blk_hdr_at _ b q false), taken_split_blk. auto.
  - apply (hdr_at_keep R (pi_wf _ _ _ _ _ _ HI) r l1 [(s, true)]); [done|apply split_span|done|]. fold b. simpl. unfold nx in Hn. lia.
Qed.

Lemma take_split_spec :
  ∃ p1 w1 p2 w2 L', EXTRACT_BLOCK_HDR b p fl sl w = Ok (p1, w1) ∧ block_size b w1 = Ok s ∧ same_stats p p2 ∧
    (let! w2 := wr (a_size b2) (u32 (Z.lor (Z.lor t FREE_BLOCK) PREV_USED)) w1 in
     let! w3 := wr (a_prev_hdr b2) b w2 in
     let! w4 := wr (a_prev_hdr nx) b2 w3 in
     let '(fl, sl) := MAPPING_INSERT t in
     let! (p2, w5) := INSERT_BLOCK b2 p1 fl sl w4 in
     let! s := rd (a_size b) w5 in
     let! w6 := wr (a_size b) (u32 (Z.lor q (Z.land s PREV_STATE))) w5 in
     Ok (p2, w6)) = Ok (p2, w2) ∧ block_size b w2 = Ok q ∧
    inv (upd_stats (used_size p2 + q + BHDR_OVERHEAD) (num_regions p2) p2) w2 taken_split L' ∧
    w_held w2 = w_held w ∧ w_heap w2 = w_heap w ∧ (∀ x, other R x → peek w2 x = peek w x).
Proof using HI Hr Hl Hdq Hq Hqs.
  pose proof (pi_wf _ _ _ _ _ _ HI) as HW. destruct (blk_facts R HW _ _ _ take_blk) as ([u Hu] & Hb0 & Hds & Hs).
  destruct take_hdrs as (E1 & E2 & E3 & E4 & Elf & Hc & Hd2 & Hs2). destruct (hdr_facts R HW nx take_next_hdr) as [[v Hv] _].
  destruct split_t as (Hdt & Ht & Db2). pose proof taken_split_wf as HW'.
  destruct take_extract as (p1 & w1 & -> & HL1 & HF1 & Hst & Hh1 & Hp1 & Hsame & Ho1). set (L1 := <[(fl, sl) := lt]> L) in *.
  assert (∀ x, b ≤ x < nx + 16 → acc w1 x) as Ha1 by (intros x Hx; unfold acc; rewrite Hh1; by apply take_acc).
  assert (b + 32 ≤ b2 ∧ b2 + 16 + t = nx) as [Hb2 Enx] by (unfold b2, t, nx; lia).
  destruct (Hsame b (blk_hdr_at _ _ _ _ take_blk)) as [B1 B2], (Hsame nx take_next_hdr) as [N1 N2].
  assert (∀ a, in_lists L1 a → ∃ s', blk_at R a s' true ∧ a ≠ b) as HP1 by (intros a Ha; by apply (lists_of_in _ _ a HF1) in Ha).
  assert (∀ x, b ≤ x < nx ∨ x = a_prev_hdr nx → ∀ a, in_lists L1 a → x ≠ a_prev a ∧ x ≠ a_next a) as Hno.
  { intros x Hx a Ha. destruct (HP1 a Ha) as (s' & Hs' & Hne). destruct (blk_facts R HW _ _ _ Hs') as (_ & _ & _ & ?).
    destruct (blk_disj R HW _ _ _ _ _ _ Hs' take_blk) as [(? & _)|Hd]; [done|]. unfold a_prev, a_next, a_prev_hdr, nx in *. lia. }
  set (w4 := poke (a_prev_hdr nx) b2 (poke (a_prev_hdr b2) b (poke (a_size b2) (enc t true false) w1))). destruct (MAPPING_INSERT t) as [fl2 sl2] eqn:EM.
  destruct (INSERT_BLOCK_spec p1 w4 L1 b2 fl2 sl2) as (p2 & w5 & Hins & HL5 & Hfr & Hst2); [| |done|lia| | |].
  { unfold w4. repeat (apply lists_rep_poke; [apply Hno; unfold a_size, a_prev_hdr; lia|]). exact HL1. }
  { by apply (mapping_insert_spec t); [lia|]. }
  { apply (Ha1 (a_prev b2)). unfold a_prev. lia. }
  { intros Hin. destruct (HP1 b2 Hin) as (s' & Hs' & _). by apply (take_apart b2 s' true Hs'); lia. }
  pose proof Hfr as (Hh5 & Hp5 & Hf5).
  assert (∀ a, a = b2 ∨ in_lists L1 a → ∃ s f, blk_at taken_split a s f) as HP5.
  { intros a [-> |Ha]; [eexists _, _; apply taken_split_blk; right; left; done|]. destruct (HP1 a Ha) as (s' & ? & ?).
    exists s', true. apply taken_split_blk. auto. }
  assert (∀ y, hdr_at taken_split y → same_hdr w4 w5 y) as Hsame5 by (intros y Hy; by apply (same_hdr_links _ w4 w5 taken_split y HW' HP5 Hfr)).
  assert (hdr_at taken_split b2) as Hhb2 by (apply (blk_hdr_at _ b2 t true), taken_split_blk; auto).
  destruct (Hsame5 b) as [B3 B4]; [apply taken_split_hdr; [apply (blk_hdr_at _ _ _ _ take_blk)|lia]|].
  destruct (Hsame5 nx) as [N3 N4]; [apply taken_split_hdr; [apply take_next_hdr|lia]|]. destruct (Hsame5 b2 Hhb2) as [C3 C4].
  assert (peek w5 (a_size b) = enc s true false) as E5.
  { rewrite B4. unfold w4. rewrite !peek_poke_ne by (unfold a_size, a_prev_hdr, nx; lia). congruence. }
  set (w6 := poke (a_size b) (enc q false false) w5). destruct Hst as (S1 & S2 & S3 & S4 & S5 & S6), Hst2 as (T1 & T2 & T3 & T4 & T5 & T6).
  eexists p1, w1, p2, w6, _. split; [done|]. split; [by apply (block_size_ok b w1 s true false); [done|lia|apply Ha1; unfold a_size; lia|congruence]|].
  split; [by repeat split; congruence|]. split.
  { rewrite enc_new by (done || lia).
    rewrite wr_ok by (apply (Ha1 (a_size b2)); unfold a_size; lia). cbn [mbind outcome_bind].
    rewrite wr_ok by (apply (Ha1 (a_prev_hdr b2)); unfold a_prev_hdr; lia). cbn [mbind outcome_bind].
    rewrite wr_ok by (apply (Ha1 (a_prev_hdr nx)); unfold a_prev_hdr; lia). cbn [mbind outcome_bind].
    fold w4. rewrite Hins. cbn [mbind outcome_bind].
    rewrite rd_ok by (unfold acc; rewrite Hh5; apply (Ha1 (a_size b)); unfold a_size; lia). cbn [mbind outcome_bind].
    rewrite E5, enc_prev_state, enc_take by (done || lia).
    by rewrite wr_ok by (unfold acc; rewrite Hh5; apply (Ha1 (a_size b)); unfold a_size; lia). }
  assert (peek w6 (a_size b) = enc q false false) as E6 by apply peek_poke.
  split; [apply (block_size_ok b w6 q false false); [done|lia|unfold acc; simpl; rewrite Hh5; apply (Ha1 (a_size b)); unfold a_size; lia|done]|].
  assert (w_held w6 = w_held w) as Hh6 by (simpl; rewrite Hh5; exact Hh1).
  assert (w_heap w6 = w_heap w) as Hp6 by (simpl; rewrite Hp5; exact Hp1).
  split; [|split; [done|split; [done|]]].
  2:{ intros x Ho. pose proof (other_free R x b s HW Ho take_blk) as Hx1. pose proof (other_hdr R x nx HW Ho take_next_hdr).
      unfold w6. rewrite peek_poke_ne by (unfold a_size; lia). rewrite Hf5.
      - unfold w4. rewrite !peek_poke_ne by (unfold a_size, a_prev_hdr, nx in *; lia). by apply Ho1.
      - intros (a & [-> |Ha] & Hor); [unfold a_prev, a_next, nx in *; lia|].
        apply (other_link R (in_lists L1) x HW); [|done|by exists a]. intros a' Ha'. destruct (HP1 a' Ha') as (s' & ? & _). eauto. }
  eapply (inv_replaced p _ w); [exact HI|exact Hr|apply split_span|exact HW'| | | |exact Hh6| | | |].
  - apply (hdrs_all_replace w w6 R r l1 [(s, true)]); [done|done|apply split_span|apply HI| | | |]; fold b; cbn [span hseg lastb lastf];
      replace (b + (16 + s + 0)) with nx by (unfold nx; lia); fold b2 t.
    + intros y Hy Hn. destruct (hdr_facts R HW y Hy) as [[z Hz] _]. apply (same_hdr_trans w w1); [by apply Hsame|].
      apply (same_hdr_trans w1 w4); [|apply (same_hdr_trans w4 w5)].
      * unfold w4. do 2 (eapply same_hdr_trans; [|apply same_hdr_poke; unfold a_prev_hdr, a_size; lia]). apply same_hdr_poke; unfold a_prev_hdr, a_size; lia.
      * apply Hsame5, taken_split_hdr; [done|lia].
      * apply same_hdr_poke; unfold a_prev_hdr, a_size; lia.
    + rewrite Elf, E6. unfold w6. rewrite !(peek_poke_ne (a_size b)) by (unfold a_size, a_prev_hdr; lia).
      rewrite B3, C3, C4. unfold w4. split; [|split; [done|split; [|split; [|done]]]].
      * rewrite !peek_poke_ne by (unfold a_size, a_prev_hdr, nx; lia). congruence.
      * rewrite peek_poke_ne, peek_poke by (unfold a_prev_hdr; lia). done.
      * rewrite !peek_poke_ne by (unfold a_size, a_prev_hdr; lia). rewrite peek_poke. done.
    + unfold w6. rewrite peek_poke_ne by (unfold a_size, a_prev_hdr; lia). rewrite N3. unfold w4. by rewrite peek_poke.
    + unfold w6. rewrite peek_poke_ne by (unfold a_size, nx; lia). rewrite N4. unfold w4.
      rewrite !peek_poke_ne by (unfold a_size, a_prev_hdr, nx; lia). congruence.
  - apply (lists_rep_stats p2); [done|done|done|]. unfold w6. apply lists_rep_poke; [|exact HL5].
    intros a Ha. assert (a = b2 ∨ in_lists L1 a) as Hor.
    { destruct Ha as [c Ha]. destruct (decide (c = (fl2, sl2))) as [-> |Hcne].
      - rewrite lst_insert in Ha. apply elem_of_cons in Ha as [-> |Ha]; [by left|right; by eexists].
      - rewrite lst_insert_ne in Ha by done. right. by eexists. }
    destruct Hor as [-> |Hin]; [unfold a_size, a_prev, a_next; lia|]. apply Hno; [unfold a_size; lia|done].
  - rewrite <- EM. eapply lists_of_ext; [|apply lists_of_add; exact HF1]. intros a s'. cbn beta. rewrite taken_split_blk. naive_solver.
  - cbn [used_size upd_stats usum]. rewrite T4, S4. change BHDR_OVERHEAD with 16. f_equal. lia.
  - cbn [num_regions upd_stats]. rewrite T5, S5. by apply (num_regions_u64 p w R L).
  - cbn [init_size upd_stats]. congruence.
  - cbn [grow_size upd_stats]. congruence.
Qed.
End split.
End take.

Lemma found_block_spec p w R L b fl sl lt s q :
  inv p w R L → lst L (fl, sl) = b :: lt → blk_at R b s true → (16 | q) → 16 ≤ q ≤ s →
  ∃ p' w' R' L' n, found_block b fl sl q p w = Ok (buffer b, p', w') ∧ inv p' w' R' L' ∧ same_sizes p p' ∧
    w_held w' = w_held w ∧ w_heap w' = w_heap w ∧ (∀ x, other R x → peek w' x = peek w x) ∧ q ≤ n ≤ q + 16 ∧
    (∀ a s', blk_at R' a s' false ↔ a = b ∧ s' = n ∨ blk_at R a s' false) ∧ (∀ x, in_regions R' x ↔ in_regions R x) ∧
    dom R' = dom R.
Proof.
  intros HI Hl (r & l & Hr & Hb) Hdq Hq. destruct (block_in_split _ _ _ _ _ Hb) as (l1 & l2 & -> & ->).
  change (l1 ++ (s, true) :: l2) with (l1 ++ [(s, true)] ++ l2) in Hr. set (b := r + span l1) in *.
  pose proof (take_blk R r l1 l2 s Hr) as Hbk. fold b in Hbk. destruct (blk_facts R (pi_wf _ _ _ _ _ _ HI) _ _ _ Hbk) as (_ & _ & Hds & Hs).
  assert (∀ a s', blk_at R a s' false → a ≠ b) as Hnb.
  { intros a s' Ha ->. by destruct (blk_disj R (pi_wf _ _ _ _ _ _ HI) _ _ _ _ _ _ Ha Hbk) as [(_ & _ & ?)|?]; [|destruct (blk_facts R (pi_wf _ _ _ _ _ _ HI) _ _ _ Ha) as (_ & _ & _ & ?); lia]. }
  unfold found_block. unfold GET_NEXT_BLOCK, buffer. change BHDR_OVERHEAD with 16. change sizeof_bhdr with 32.
  destruct (decide (q + 32 ≤ s)) as [Hsplit|Hwhole].
  - destruct (take_split_spec p w R L HI r l1 l2 s Hr fl sl lt Hl q Hdq ltac:(lia) Hsplit)
      as (p1 & w1 & p2 & w2 & L' & Hext & Hbs & Hst & Hrun & Hbs2 & HI' & Hh & Hp & Ho). fold b in Hext, Hbs, Hrun, Hbs2.
    rewrite Hext. cbn [mbind outcome_bind]. rewrite Hbs. cbn [mbind outcome_bind]. rewrite u64_small by (change MAX_FLI with 30 in *; lia).
    rewrite (proj2 (Z.leb_le _ _)) by lia. rewrite Hrun. cbn [mbind outcome_bind]. rewrite Hbs2. cbn [mbind outcome_bind].
    eexists _, w2, _, L', q. split; [done|]. split; [exact HI'|]. split; [destruct Hst as (? & ? & ? & _ & _ & ?); by repeat split|].
    split; [done|]. split; [done|]. split; [done|]. split; [lia|]. split; [|split].
    + intros a s'. rewrite (taken_split_blk p w R L HI r l1 l2 s Hr q Hdq) by lia. fold b. naive_solver.
    + intros x. apply (in_regions_replace R r l1 [(s, true)]); [done|by apply split_span].
    + unfold taken_split, replaced. rewrite dom_insert_lookup_L by eauto. done.
  - destruct (take_whole_spec p w R L HI r l1 l2 s Hr fl sl lt Hl)
      as (p1 & w1 & w2 & L' & Hext & Hbs & Hst & Hrun & Hbs2 & HI' & Hh & Hp & Ho). fold b in Hext, Hbs, Hrun, Hbs2.
    rewrite Hext. cbn [mbind outcome_bind]. rewrite Hbs. cbn [mbind outcome_bind]. rewrite u64_small by (change MAX_FLI with 30 in *; lia).
    rewrite (proj2 (Z.leb_gt _ _)) by lia. rewrite Hrun. cbn [mbind outcome_bind]. rewrite Hbs2. cbn [mbind outcome_bind].
    eexists _, w2, _, L', s. split; [done|]. split; [exact HI'|]. split; [destruct Hst as (? & ? & ? & _ & _ & ?); by repeat split|].
    destruct Hdq as [k Hk], Hds as [k' Hk'].
    split; [done|]. split; [done|]. split; [done|]. split; [lia|]. split; [|split].
    + intros a s'. rewrite (taken_whole_blk p w R L HI r l1 l2 s Hr). fold b. naive_solver.
    + intros x. apply (in_regions_replace R r l1 [(s, true)]); done.
    + unfold taken_whole, replaced. rewrite dom_insert_lookup_L by eauto. done.
Qed.

(** ** [xmem_pool_alloc] *)

(** The size searched for. *)
Definition request (size : Z) : Z := if size <? MIN_BLOCK_SIZE then MIN_BLOCK_SIZE else ROUNDUP_SIZE size.

Lemma request_spec size : 0 ≤ size ≤ 2 ^ 61 → (16 | request size) ∧ 16 ≤ request size < 2 ^ 62 ∧ size ≤ request size.
Proof.
  intros Hs. unfold request. change MIN_BLOCK_SIZE with 16. case_Z; [split; [by exists 1|lia]|].
  destruct (roundup_size size ltac:(lia)) as [? ?]. split; [done|lia].
Qed.

Lemma rounded_ge size : 0 ≤ size ≤ 2 ^ 61 → request size ≤ rounded (request size) ∧ (16 | rounded (request size)).
Proof.
  intros Hs. destruct (request_spec size Hs) as (Hd & Hr & _). unfold rounded.
  destruct (MAPPING_SEARCH (request size)) as [[q fl] sl] eqn:E. simpl.
  by destruct (mapping_search_spec _ _ _ _ Hd Hr E) as (? & ? & _).
Qed.

(** Requests of up to 256MB are in range of the lists. *)
Lemma request_small size : 0 ≤ size ≤ 2 ^ 28 → rounded (request size) < 2 ^ MAX_FLI.
Proof.
  intros Hs. destruct (request_spec size ltac:(lia)) as (Hd & Hr & _). unfold rounded.
  destruct (MAPPING_SEARCH (request size)) as [[q fl] sl] eqn:E. simpl.
  destruct (mapping_search_spec _ _ _ _ Hd Hr E) as (_ & _ & _ & _ & _ & Hq). change MAX_FLI with 30.
  unfold request in Hq. change MIN_BLOCK_SIZE with 16 in Hq. destruct (Z.ltb_spec size 16); [lia|].
  destruct (roundup_size size ltac:(lia)) as [? _]. lia.
Qed.

Definition ready (p : xmem_pool) (R : regions) : Prop := init_region p = 0 → R = ∅.

Lemma init_pool_spec p w R L :
  inv p w R L → ready p R → wok w →
  (∃ w', init_pool get_mem p w = Ok (None, w') ∧ init_region p = 0 ∧ get_mem (init_size p) w = Ok (0, w') ∧
     inv p w' R L ∧ wok w' ∧ kept R w w' ∧ w_held w' = w_held w) ∨
  ∃ p' w' R' L', init_pool get_mem p w = Ok (Some p', w') ∧ inv p' w' R' L' ∧ wok w' ∧ kept R w w' ∧ grown w w' R R' ∧
    init_region p' ≠ 0 ∧ init_size p' = init_size p ∧ max_size p' = max_size p ∧ grow_size p' = grow_size p ∧
    (init_region p ≠ 0 → p' = p ∧ w' = w ∧ R' = R).
Proof using PM.
  intros HI Hrd Hw. unfold init_pool. destruct (Z.eqb_spec (init_region p) 0) as [E0|E0].
  2:{ right. exists p, w, R, L. split; [done|]. repeat (split; [done|]). split; [|done]. split; [done|split; [done|by apply extends_same]]. }
  destruct (pi_sizes _ _ _ _ _ _ HI) as [Hsz _].
  destruct (pm_get (init_size p) w Hw Hsz) as (r & w1 & Hget & Hw1 & Hk1 & Hor). rewrite Hget. cbn [mbind outcome_bind].
  destruct (Z.eqb_spec r 0) as [-> |Hr].
  - left. exists w1. destruct Hor as [[_ Hh]|[? _]]; [|lia]. repeat (split; [done|]). split; [|split; [done|split; [|done]]].
    + apply (inv_other_memory p w); [done| |done]. intros x. unfold acc. by rewrite Hh.
    + split; [by rewrite Hh|auto].
  - right. destruct (grow_spec p w R L _ r w1 HI Hw Hsz Hget Hr) as (p1 & w2 & -> & HI' & Hw2 & Hk & (S1 & S2 & S3 & S4) & Hgr & _ & Hr0).
    cbn [mbind outcome_bind]. eexists _, w2, _, _. split; [done|]. split; [|split; [done|split; [done|split; [exact Hgr|split; [simpl; lia|split; [done|split; [done|split; [done|done]]]]]]]].
    destruct HI' as [I1 I2 I3 I4 I5 I6 I7 I8 I9]. split; try done. by apply (lists_rep_stats p1).
Qed.

(** Why an allocation may fail. *)
Definition alloc_fails (p : xmem_pool) (w : world H) (q : Z) : Prop :=
  (init_region p = 0 ∧ ∃ w', get_mem (init_size p) w = Ok (0, w')) ∨
  ∃ p' w', init_pool get_mem p w = Ok (Some p', w') ∧ cannot_grow p' w' q.

(** An allocation gives a fresh block of at least the requested size, or
    nothing; the users' blocks and their contents are kept. *)
Lemma xmem_pool_alloc_spec p w R L size :
  inv p w R L → ready p R → wok w → 0 ≤ size ≤ 2 ^ 61 → rounded (request size) < 2 ^ MAX_FLI →
  ∃ ptr p' w' R' L', xmem_pool_alloc get_mem size p w = Ok (ptr, p', w') ∧ inv p' w' R' L' ∧ ready p' R' ∧ wok w' ∧
    kept R w w' ∧ extends w w' R R' ∧
    init_size p' = init_size p ∧ max_size p' = max_size p ∧ grow_size p' = grow_size p ∧
    (ptr = 0 ∧ (∀ a s, blk_at R' a s false ↔ blk_at R a s false) ∧ alloc_fails p w (rounded (request size)) ∨
     ∃ b n, ptr = buffer b ∧ rounded (request size) ≤ n ≤ rounded (request size) + 16 ∧
       (∀ a s, blk_at R' a s false ↔ a = b ∧ s = n ∨ blk_at R a s false) ∧ ∀ s, ¬ blk_at R b s false).
Proof using PM.
  intros HI Hrd Hw Hs Hq. destruct (request_spec size Hs) as (Hd & Hr & _). destruct (rounded_ge size Hs) as [Hge Hdq].
  unfold xmem_pool_alloc. destruct (init_pool_spec p w R L HI Hrd Hw)
    as [(w' & -> & E0 & Hget & HI' & Hw' & Hk & Hh)|(p0 & w0 & R0 & L0 & Hrun & HI0 & Hw0 & Hk0 & Hg0 & Hne & S1 & S2 & S3 & _)].
  { cbn [mbind outcome_bind]. exists 0, p, w', R, L. split; [done|]. repeat (split; [done || by apply extends_same|]). left. repeat (split; [done|]). left. eauto. }
  rewrite Hrun. cbn [mbind outcome_bind]. fold (request size).
  destruct (find_block_spec p0 w0 R0 L0 (request size) HI0 Hw0 Hd Hr Hq) as (res & p1 & w1 & R1 & L1 & -> & HI1 & Hw1 & Hk1 & (T1 & T2 & T3 & T4) & Hg1 & Hres).
  cbn [mbind outcome_bind].
  assert (∀ x, acc w x → other R x → acc w0 x ∧ other R0 x ∧ peek w0 x = peek w x) as Hx0.
  { intros x Hx Ho. split; [by apply (proj1 Hk0)|]. split; [by apply Hg0|by apply Hk0]. }
  assert (∀ x, acc w x → other R x → acc w1 x ∧ other R1 x ∧ peek w1 x = peek w x) as Hx1.
  { intros x Hx Ho. destruct (Hx0 x Hx Ho) as (A1 & A2 & A3). split; [by apply (proj1 Hk1)|]. split; [by apply Hg1|].
    rewrite <- A3. by apply Hk1. }
  assert (w_held w ⊆ w_held w1) as Hsub by (destruct Hk0 as [? _], Hk1 as [? _]; set_solver).
  assert (∀ a s, blk_at R1 a s false ↔ blk_at R a s false) as Hused.
  { intros a s. destruct Hg1 as (_ & -> & _). apply Hg0. }
  assert (extends w w1 R R1) as Hext by (eapply extends_trans; [apply Hk0|apply Hg0|apply Hg1]).
  destruct res as [[[[b fl] sl] q]|].
  - destruct Hres as (b' & fl' & sl' & l & s & [= -> -> -> ->] & Hl & Hb & HM & Hqs).
    destruct (found_block_spec p1 w1 R1 L1 b' fl' sl' l s (rounded (request size)) HI1 Hl Hb Hdq ltac:(lia))
      as (p2 & w2 & R2 & L2 & n & -> & HI2 & (V1 & V2 & V3 & V4) & Hh2 & Hp2 & Ho2 & Hn & Hb2 & Hreg & _).
    exists (buffer b'), p2, w2, R2, L2. split; [done|]. split; [done|]. split; [intros E; congruence|]. split; [by apply (pm_frame w1)|].
    split; [|split; [by eapply extends_trans; [|exact Hext|apply extends_same]|split; [congruence|split; [congruence|split; [congruence|]]]]].
    + split; [by rewrite Hh2|]. intros x Hx Ho. destruct (Hx1 x Hx Ho) as (? & ? & ?). rewrite Ho2 by done. done.
    + right. exists b', n. split; [done|]. split; [done|]. split; [intros a s'; rewrite Hb2, Hused; done|].
      intros s' Hs'. apply Hused in Hs'. destruct (blk_disj R1 (pi_wf _ _ _ _ _ _ HI1) _ _ _ _ _ _ Hs' Hb) as [(_ & _ & ?)|Hd']; [done|].
      destruct (blk_facts R1 (pi_wf _ _ _ _ _ _ HI1) _ _ _ Hs') as (_ & _ & _ & ?), (blk_facts R1 (pi_wf _ _ _ _ _ _ HI1) _ _ _ Hb) as (_ & _ & _ & ?). lia.
  - destruct Hres as (Hcg & _ & _). exists 0, p1, w1, R1, L1. split; [done|]. split; [done|]. split; [intros E; congruence|]. split; [done|].
    split; [|split; [done|split; [congruence|split; [congruence|split; [congruence|]]]]].
    + split; [done|]. intros x Hx Ho. by apply Hx1.
    + left. split; [done|]. split; [done|]. right. exists p0, w0. done.
Qed.
End alloc.
