(* ===== verification/TlsfFree.v ===== *)
(** * Freeing into a pool

    [xmem_pool_free] merges the block with its free neighbours and puts the
    result on a list, or gives the region back when nothing of it is in use. *)

From S2P Require Import Prelude BootMem PageAlloc Tlsf TlsfMap TlsfLists TlsfBlocks TlsfInv TlsfAlloc.
Local Open Scope xen_scope.

Lemma lastf_true l : lastf false l = true → ∃ l' s, l = l' ++ [(s, true)].
Proof.
  destruct l as [|[s f] l _] using rev_ind; [done|]. rewrite lastf_app. simpl. intros ->. by exists l, s.
Qed.

Lemma first_free l : (first_of l).2 = true → ∃ s l', l = (s, true) :: l'.
Proof. destruct l as [|[s f] l]; [done|]. unfold first_of. simpl. intros ->. eauto. Qed.

Lemma coal_first l : coal true l → (first_of l).2 = false.
Proof. destruct l as [|[s f] l]; [done|]. unfold first_of. simpl. destruct f; naive_solver. Qed.

Lemma coal_cons_used l : (first_of l).2 = false → coal false l → coal true l.
Proof. destruct l as [|[s f] l]; [done|]. unfold first_of. simpl. intros -> [_ ?]. naive_solver. Qed.

Lemma first_of_wf l : wfb l → (16 | (first_of l).1) ∧ 0 ≤ (first_of l).1 ≤ span l ∧ ((first_of l).1 = 0 → l = []).
Proof.
  destruct l as [|[s f] l]; [split; [by exists 0|]; simpl; auto with lia|]. intros [[? ?] Hw]%wfb_cons.
  destruct (span_facts l Hw). unfold first_of. simpl. split; [done|]. split; [lia|]. lia.
Qed.

Section free.
Context {H : Type} (sizes : Z → Prop) (granted : Z → Z → Prop).

Abbreviation inv := (pool_inv (H:=H) sizes granted).

Section merge.
Context (p : xmem_pool) (w : world H) (R : regions) (L : flists) (HI : inv p w R L) (r b s : Z).

Local Abbreviation HW := (pi_wf _ _ _ _ _ _ HI).

(** The blocks [m] of the region, of which only [b] is used, are being merged
    into a free block. *)
Record merging (l1 m l2 : blocks) (p' : xmem_pool) (w' : world H) (L' : flists) : Prop := {
  mg_region : R !! r = Some (l1 ++ m ++ l2);
  mg_block : blk_at R b s false;
  mg_in : r + span l1 ≤ b ∧ b + 16 + s ≤ r + span l1 + span m;
  mg_used : usum m = s + 16;
  mg_span : 32 ≤ span m;
  mg_free x s' f : block_in (r + span l1) m x s' f → x = b ∨ f = true;
  mg_lists : lists_rep p' w' L';
  mg_of : lists_of L' (λ x s', blk_at R x s' true ∧ ¬ (r + span l1 ≤ x < r + span l1 + span m));
  mg_held : w_held w' = w_held w;
  mg_heap : w_heap w' = w_heap w;
  mg_size : peek w' (a_size (r + span l1)) = enc (span m - 16) true (lastf false l1);
  mg_prev : peek w' (a_prev_hdr (r + span l1)) = lastb r 0 l1;
  mg_same y : hdr_at R y → ¬ (r + span l1 ≤ y < r + span l1 + span m) → same_hdr w w' y;
  mg_frame x : other R x → ¬ (b ≤ x < b + 16 + s) → peek w' x = peek w x;
  mg_stats : used_size p' = u64 (used_size p - (s + 16)) ∧ num_regions p' = num_regions p ∧ init_size p' = init_size p ∧
    max_size p' = max_size p ∧ grow_size p' = grow_size p ∧ init_region p' = init_region p;
}.

Section facts.
Context (l1 m l2 : blocks) (p' : xmem_pool) (w' : world H) (L' : flists) (HM : merging l1 m l2 p' w' L').
Let a := r + span l1.
Let nx := r + span l1 + span m.

Lemma mg_wfb : wfb l1 ∧ wfb m ∧ wfb l2.
Proof using HI HM. destruct (rw_blocks _ HW _ _ (mg_region _ _ _ _ _ _ HM)) as [Hw _]. by rewrite !wfb_app in Hw. Qed.

Lemma mg_coal : coal (lastf false l1) m ∧ coal (lastf (lastf false l1) m) l2.
Proof using HI HM. destruct (rw_blocks _ HW _ _ (mg_region _ _ _ _ _ _ HM)) as [_ Hc]. rewrite !coal_app in Hc. tauto. Qed.

Lemma mg_acc x : a ≤ x < nx + 16 → acc w' x.
Proof using HI HM.
  intros Hx. unfold acc. rewrite (mg_held _ _ _ _ _ _ HM). apply (pi_acc _ _ _ _ _ _ HI). exists r, (l1 ++ m ++ l2).
  split; [apply HM|]. destruct mg_wfb as (W1 & W2 & W3). destruct (span_facts _ W1), (span_facts _ W2), (span_facts _ W3).
  unfold rlen. rewrite !span_app. unfold a, nx in Hx. lia.
Qed.

Lemma mg_a_hdr : hdr_at R a.
Proof using HM.
  exists r, (l1 ++ m ++ l2). split; [apply HM|]. rewrite hdr_in_app. right. pose proof (mg_span _ _ _ _ _ _ HM).
  fold a. destruct m as [|[s0 f0] m']; [simpl in *; lia|]. simpl. by left.
Qed.

Lemma mg_nx_hdr : hdr_at R nx.
Proof using HM.
  exists r, (l1 ++ m ++ l2). split; [apply HM|]. rewrite !hdr_in_app. right. right. fold nx. destruct l2 as [|[s0 f0] l2']; simpl; auto.
Qed.

Lemma mg_m16 : (16 | span m - 16) ∧ 0 ≤ span m - 16 < 2 ^ MAX_FLI.
Proof using HI HM.
  destruct mg_wfb as (W1 & W2 & W3). destruct (span_facts _ W1), (span_facts _ W2) as [? [k Hk]], (span_facts _ W3).
  destruct (rw_len _ HW _ _ (mg_region _ _ _ _ _ _ HM)) as [_ Hn]. unfold rlen in Hn. rewrite !span_app in Hn.
  pose proof (mg_span _ _ _ _ _ _ HM). split; [exists (k - 1); lia|lia].
Qed.

Lemma mg_block_size : block_size a w' = Ok (span m - 16).
Proof using HI HM.
  destruct mg_m16 as [? ?]. apply (block_size_ok a w' _ true (lastf false l1)); [done|done| |apply HM].
  apply mg_acc. pose proof (mg_span _ _ _ _ _ _ HM). unfold a_size, a, nx. lia.
Qed.

Lemma mg_next : peek w' (a_size nx) = enc (first_of l2).1 (first_of l2).2 (lastf (lastf false l1) m).
Proof using HI HM.
  pose proof (mg_span _ _ _ _ _ _ HM). destruct (mg_same _ _ _ _ _ _ HM nx mg_nx_hdr ltac:(unfold nx; lia)) as [_ ->].
  pose proof (pi_hdrs _ _ _ _ _ _ HI _ _ (mg_region _ _ _ _ _ _ HM)) as Hh. rewrite !hdrs_app in Hh. destruct Hh as (_ & _ & Hh).
  by apply hdrs_first in Hh as [_ ?].
Qed.

(** The blocks in the range are those of [m]. *)
Lemma mg_range x t f : blk_at R x t f → a ≤ x < nx → block_in a m x t f.
Proof using HI HM.
  intros (r' & l & Hl & Hb) Hx. pose proof (mg_region _ _ _ _ _ _ HM) as Hr. destruct mg_wfb as (W1 & W2 & W3).
  destruct (span_facts _ W1), (span_facts _ W2), (span_facts _ W3). pose proof (region_block_bounds _ HW _ _ _ _ _ Hl Hb).
  destruct (region_unique _ HW r' l r _ x Hl Hr) as [-> ->]; [lia|unfold rlen; rewrite !span_app; unfold a, nx in Hx; lia|].
  rewrite !block_in_app in Hb. destruct Hb as [Hb|[Hb|Hb]]; [|done|].
  - apply (block_in_bounds _ _ _ _ _ W1) in Hb as (? & ? & _ & _ & ?). unfold a in Hx. lia.
  - apply (block_in_bounds _ _ _ _ _ W3) in Hb as (? & ? & _ & _ & ?). unfold a, nx in Hx. lia.
Qed.

Lemma mg_used_apart x t : blk_at R x t false → ¬ (a ≤ x < nx) ↔ x ≠ b.
Proof using HI HM.
  intros Hx. pose proof (mg_in _ _ _ _ _ _ HM) as Hin. fold a in Hin. destruct (blk_facts R HW _ _ _ (mg_block _ _ _ _ _ _ HM)) as (_ & _ & _ & ?).
  split; [intros Hn ->; apply Hn; unfold nx; lia|]. intros Hne Hr. destruct (mg_free _ _ _ _ _ _ HM x t false); [|done|done]. by apply mg_range.
Qed.

Lemma mg_other x : other R x → a ≤ x < nx → b ≤ x < b + 16 + s.
Proof using HI HM.
  intros [Ho|(v & t & Hv & Hx)] Hr.
  - exfalso. apply Ho. exists r, (l1 ++ m ++ l2). split; [apply HM|]. destruct mg_wfb as (W1 & W2 & W3).
    destruct (span_facts _ W1), (span_facts _ W2), (span_facts _ W3). unfold rlen. rewrite !span_app. unfold a, nx in Hr. lia.
  - pose proof (blk_hdr_disj R HW _ _ _ _ Hv mg_a_hdr). destruct (decide (v = b)) as [-> |Hne].
    + destruct (blk_disj R HW _ _ _ _ _ _ Hv (mg_block _ _ _ _ _ _ HM)) as [(_ & -> & _)|Hd]; [lia|].
      destruct (blk_facts R HW _ _ _ Hv) as (_ & _ & _ & ?), (blk_facts R HW _ _ _ (mg_block _ _ _ _ _ _ HM)) as (_ & _ & _ & ?). lia.
    + apply (mg_used_apart v t Hv) in Hne. lia.
Qed.

(** A neighbour that is free is on its list, and taking it off changes no
    header. *)
Lemma mg_extract x s' :
  blk_at R x s' true → ¬ (a ≤ x < nx) →
  ∃ p1 w1 L1, (let '(fl, sl) := MAPPING_INSERT s' in EXTRACT_BLOCK x p' fl sl w') = Ok (p1, w1) ∧
    lists_rep p1 w1 L1 ∧ lists_of L1 (λ y t, (blk_at R y t true ∧ ¬ (a ≤ y < nx)) ∧ y ≠ x) ∧ same_stats p' p1 ∧
    w_held w1 = w_held w' ∧ w_heap w1 = w_heap w' ∧ (∀ y, hdr_at R y → same_hdr w' w1 y) ∧
    (∀ y, other R y → peek w1 y = peek w' y).
Proof using HI HM.
  intros Hx Hn. pose proof (mg_lists _ _ _ _ _ _ HM) as HL. pose proof (mg_of _ _ _ _ _ _ HM) as HF.
  destruct (lists_of_find L' _ x s' HF (conj Hx Hn)) as (k1 & k2 & Hk). destruct (MAPPING_INSERT s') as [fl sl] eqn:EM.
  destruct (EXTRACT_BLOCK_spec p' w' L' fl sl k1 k2 x HL Hk) as (p1 & w1 & -> & HL1 & (F1 & F2 & F3) & Hst).
  assert (∀ y, in_lists L' y → ∃ t, blk_at R y t true) as HP.
  { intros y Hy. apply (lists_of_in L' _ y HF) in Hy as (t & ? & _). eauto. }
  eexists p1, w1, _. split; [done|]. split; [done|]. split; [|split; [done|split; [done|split; [done|split]]]].
  - apply (lists_of_remove L' _ (fl, sl) k1 k2 x HF Hk (lr_nodup _ _ _ HL _)). intros c Hc. apply (lr_once _ _ _ HL c (fl, sl) x Hc).
    rewrite Hk. set_solver.
  - intros y Hy. apply (same_hdr_links (in_lists L') w' w1 R y HW); [|done|done]. intros z Hz. destruct (HP z Hz). eauto.
  - intros y Hy. apply F3. by apply (other_link R (in_lists L') y HW).
Qed.
End facts.

(** ** Merging with the next block *)

Lemma merge_next_spec l1 m l2 p' w' L' :
  merging l1 m l2 p' w' L' → lastf (lastf false l1) m = false →
  ∃ p1 w1 L1 m1 l2', merge_next_block (r + span l1) p' w' = Ok (p1, w1) ∧ merging l1 m1 l2' p1 w1 L1 ∧
    (first_of l2').2 = false.
Proof using HI.
  intros HM Hlf. destruct (mg_wfb l1 m l2 p' w' L' HM) as (W1 & W2 & W3). destruct (first_of_wf l2 W3) as (D2 & S2 & _).
  destruct (mg_m16 l1 m l2 p' w' L' HM) as [D16 S16]. pose proof (mg_span _ _ _ _ _ _ HM) as H32.
  pose proof (mg_block_size l1 m l2 p' w' L' HM) as Hbs. pose proof (mg_a_hdr l1 m l2 p' w' L' HM) as Hah.
  pose proof (mg_nx_hdr l1 m l2 p' w' L' HM) as Hnh. pose proof (mg_acc l1 m l2 p' w' L' HM) as Hacc.
  pose proof (mg_next l1 m l2 p' w' L' HM) as En. pose proof (mg_size _ _ _ _ _ _ HM) as Msz.
  set (nx := r + span l1 + span m) in *. set (a := r + span l1) in *.
  destruct (span_facts _ W1), (span_facts _ W2), (span_facts _ W3).
  destruct (rw_len _ HW _ _ (mg_region _ _ _ _ _ _ HM)) as [_ Hrl]. unfold rlen in Hrl. rewrite !span_app in Hrl.
  unfold merge_next_block. rewrite Hbs. cbn [mbind outcome_bind]. unfold GET_NEXT_BLOCK, buffer.
  change BHDR_OVERHEAD with 16. replace (a + 16 + (span m - 16)) with nx by (unfold nx, a; lia).
  rewrite rd_ok by (apply Hacc; unfold a_size, nx, a; lia). cbn [mbind outcome_bind].
  rewrite Hlf in En. rewrite En, enc_free, enc_size by (done || lia).
  destruct ((first_of l2).2) eqn:Ef; [|eexists _, _, _, _, _; done].
  destruct (first_free l2 Ef) as (s2 & l2' & ->). change ((first_of ((s2, true) :: l2')).1) with s2 in *.
  assert (blk_at R nx s2 true) as Hb2.
  { exists r, (l1 ++ m ++ (s2, true) :: l2'). split; [apply HM|]. rewrite !block_in_app. right. right. simpl. left. done. }
  destruct (blk_facts R HW _ _ _ Hb2) as (_ & _ & Ds2 & Hs2).
  destruct (mg_extract l1 m _ p' w' L' HM nx s2 Hb2 ltac:(fold a nx; lia)) as (p1 & w1 & L1 & Hext & HL1 & HF1 & Hst & Hh1 & Hp1 & Hsame & Ho1).
  destruct (MAPPING_INSERT s2) as [fl sl]. rewrite Hext. cbn [mbind outcome_bind].
  destruct (Hsame a Hah) as [A1 A2], (Hsame nx Hnh) as [N1 N2].
  assert (∀ x, a ≤ x < nx + 16 → acc w1 x) as Hacc1 by (intros x Hx; unfold acc; rewrite Hh1; by apply Hacc).
  rewrite rd_ok by (apply Hacc1; unfold a_size, nx, a; lia). cbn [mbind outcome_bind].
  rewrite (block_size_ok nx w1 s2 true false); [|done|lia|apply Hacc1; unfold a_size, nx, a; lia|by rewrite N2].
  cbn [mbind outcome_bind]. rewrite A2, Msz. rewrite enc_grow.
  assert (span m - 16 + s2 + 16 = span (m ++ [(s2, true)]) - 16) as Esp.
  { rewrite span_app. simpl. lia. }
  rewrite Esp. assert ((16 | span (m ++ [(s2, true)]) - 16) ∧ 0 ≤ span (m ++ [(s2, true)]) - 16 < 2 ^ MAX_FLI) as [D3 S3].
  { rewrite <- Esp. split; [apply Z.divide_add_r; [by apply Z.divide_add_r|by exists 1]|]. simpl in *. lia. }
  rewrite u32_small by (by apply enc_range). rewrite wr_ok by (apply Hacc1; unfold a_size, nx, a; lia). cbn [mbind outcome_bind].
  eexists _, _, L1, (m ++ [(s2, true)]), l2'. split; [done|]. split.
  2:{ apply coal_first. destruct (mg_coal l1 m _ p' w' L' HM) as [_ Hc]. by destruct Hc. }
  assert (r + span l1 + span (m ++ [(s2, true)]) = nx + 16 + s2) as Enx by (rewrite span_app; simpl; unfold nx; lia).
  split; fold a.
  - rewrite <- app_assoc. apply HM.
  - apply HM.
  - pose proof (mg_in _ _ _ _ _ _ HM). rewrite span_app. simpl. lia.
  - rewrite usum_app, (mg_used _ _ _ _ _ _ HM). simpl. lia.
  - rewrite span_app. simpl. lia.
  - intros x s' f. rewrite block_in_app. simpl. intros [Hx|[(_ & _ & ->)|[]]]; [|auto]. by apply (mg_free _ _ _ _ _ _ HM x s' f).
  - apply lists_rep_poke; [|exact HL1]. intros x Hx. apply (lists_of_in L1 _ x HF1) in Hx as (t & [Hbx Hnx] & Hne).
    destruct (blk_facts R HW _ _ _ Hbx) as (_ & _ & _ & Ht). pose proof (blk_hdr_disj R HW _ _ _ _ Hbx Hah).
    unfold a_size, a_prev, a_next. lia.
  - fold a in Enx. rewrite Enx. eapply lists_of_ext; [|exact HF1]. intros x t. cbn beta. fold a nx. split.
    + intros [[Hbx Hnx] Hne]. split; [done|]. destruct (blk_facts R HW _ _ _ Hbx) as (_ & _ & _ & Ht).
      destruct (blk_disj R HW _ _ _ _ _ _ Hbx Hb2) as [(? & _)|Hd]; [done|]. lia.
    + intros [Hbx Hnx]. split; [split; [done|unfold nx, a in *; lia]|unfold nx, a in *; lia].
  - simpl. by rewrite Hh1, (mg_held _ _ _ _ _ _ HM).
  - simpl. by rewrite Hp1, (mg_heap _ _ _ _ _ _ HM).
  - by rewrite peek_poke.
  - rewrite peek_poke_ne by (unfold a_size, a_prev_hdr; lia). rewrite A1. apply HM.
  - intros y Hy Hne. destruct (hdr_facts R HW y Hy) as [[u Hu] _], (hdr_facts R HW a Hah) as [[v Hv] _].
    fold a in Enx. rewrite Enx in Hne. apply (same_hdr_trans w w'); [apply HM; [done|fold nx a; lia]|].
    apply (same_hdr_trans w' w1); [by apply Hsame|]. apply same_hdr_poke; unfold a_size, a_prev_hdr; lia.
  - intros x Ho Hx. pose proof (other_hdr R x a HW Ho Hah).
    rewrite peek_poke_ne by (unfold a_size; lia). rewrite Ho1 by done. by apply (mg_frame _ _ _ _ _ _ HM).
  - destruct (mg_stats _ _ _ _ _ _ HM) as (Q1 & Q2 & Q3 & Q4 & Q5 & Q6), Hst as (T1 & T2 & T3 & T4 & T5 & T6). repeat split; congruence.
Qed.

(** ** Merging with the previous block *)

Lemma merge_prev_spec l1 m l2 p' w' L' :
  merging l1 m l2 p' w' L' →
  ∃ p1 w1 L1 l1' m1, merge_prev_block (r + span l1) p' w' = Ok (r + span l1', p1, w1) ∧ merging l1' m1 l2 p1 w1 L1 ∧
    lastf false l1' = false.
Proof using HI.
  intros HM. destruct (mg_wfb l1 m l2 p' w' L' HM) as (W1 & W2 & W3).
  destruct (mg_m16 l1 m l2 p' w' L' HM) as [D16 S16]. pose proof (mg_span _ _ _ _ _ _ HM) as H32.
  pose proof (mg_block_size l1 m l2 p' w' L' HM) as Hbs. pose proof (mg_a_hdr l1 m l2 p' w' L' HM) as Hah.
  pose proof (mg_acc l1 m l2 p' w' L' HM) as Hacc. pose proof (mg_size _ _ _ _ _ _ HM) as Msz.
  set (nx := r + span l1 + span m) in *. set (a := r + span l1) in *.
  destruct (span_facts _ W1), (span_facts _ W2), (span_facts _ W3).
  unfold merge_prev_block. rewrite (rd_ok (a_size a) w') by (apply Hacc; unfold a_size, nx, a; lia). cbn [mbind outcome_bind].
  rewrite Msz, enc_prev_free by done. destruct (lastf false l1) eqn:Elf; [|eexists _, _, _, _, _; done].
  destruct (lastf_true l1 Elf) as (l1' & s1 & ->). rewrite lastf_app in Elf.
  rewrite rd_ok by (apply Hacc; unfold a_prev_hdr, nx, a; lia). cbn [mbind outcome_bind].
  set (a' := r + span l1'). assert (a = a' + 16 + s1) as Ea by (unfold a, a'; rewrite span_app; simpl; lia).
  assert (peek w' (a_prev_hdr a) = a') as -> by (unfold a; rewrite (mg_prev _ _ _ _ _ _ HM), lastb_app; done).
  pose proof (mg_region _ _ _ _ _ _ HM) as Hreg. rewrite <- app_assoc in Hreg. cbn [app] in Hreg.
  assert (blk_at R a' s1 true) as Hb1.
  { exists r, (l1' ++ (s1, true) :: m ++ l2). split; [done|]. rewrite block_in_app. right. simpl. auto. }
  destruct (blk_facts R HW _ _ _ Hb1) as (_ & _ & Ds1 & Hs1). pose proof (blk_hdr_at _ _ _ _ Hb1) as Hh1'.
  apply wfb_app in W1 as [W1 _]. destruct (span_facts _ W1) as [? ?].
  assert (peek w' (a_size a') = enc s1 true false ∧ lastf false l1' = false) as [E1 Elf'].
  { destruct (mg_same _ _ _ _ _ _ HM a' Hh1' ltac:(fold a; lia)) as [_ ->].
    destruct (rw_blocks _ HW _ _ Hreg) as [_ Hc]. rewrite coal_app in Hc. destruct Hc as [_ [Hc _]].
    assert (lastf false l1' = false) as E by (destruct (lastf false l1'); [tauto|done]). split; [|done].
    pose proof (pi_hdrs _ _ _ _ _ _ HI _ _ Hreg) as Hh. rewrite hdrs_app, hdrs_cons, E in Hh. by destruct Hh as (_ & _ & ? & _). }
  assert (∀ x, in_regions R x → acc w' x) as HaccR.
  { intros x Hx. unfold acc. rewrite (mg_held _ _ _ _ _ _ HM). by apply (pi_acc _ _ _ _ _ _ HI). }
  assert (∀ x, a' ≤ x < a → acc w' x) as Hacc'.
  { intros x Hx. apply HaccR. eapply (blk_in_regions R a' s1 true); [apply HW|done|lia]. }
  rewrite (block_size_ok a' w' s1 true false); [|done|lia|apply Hacc'; unfold a_size; lia|done]. cbn [mbind outcome_bind].
  destruct (mg_extract _ m l2 p' w' L' HM a' s1 Hb1 ltac:(fold a nx; lia)) as (p1 & w1 & L1 & Hext & HL1 & HF1 & Hst & Hh1 & Hp1 & Hsame & Ho1).
  destruct (MAPPING_INSERT s1) as [fl sl]. rewrite Hext. cbn [mbind outcome_bind].
  destruct (Hsame a Hah) as [A1 A2], (Hsame a' Hh1') as [N1 N2].
  rewrite rd_ok by (unfold acc; rewrite Hh1; apply (Hacc' (a_size a')); unfold a_size; lia). cbn [mbind outcome_bind].
  rewrite (block_size_ok a w1 (span m - 16) true true); [|done|done| |by rewrite A2].
  2:{ unfold acc. rewrite Hh1. apply (Hacc (a_size a)). unfold a_size, nx, a. lia. }
  cbn [mbind outcome_bind]. rewrite N2, E1. change BHDR_OVERHEAD with 16. rewrite enc_grow.
  assert (s1 + (span m - 16) + 16 = span ((s1, true) :: m) - 16) as Esp by (simpl; lia). rewrite Esp.
  destruct (rw_len _ HW _ _ Hreg) as [_ Hrl]. unfold rlen in Hrl. rewrite !span_app in Hrl. cbn [span] in Hrl. rewrite span_app in Hrl.
  rewrite u32_small. 2:{ apply enc_range; rewrite <- Esp. lia. }
  rewrite wr_ok by (unfold acc; rewrite Hh1; apply (Hacc' (a_size a')); unfold a_size; lia). cbn [mbind outcome_bind].
  eexists _, _, L1, l1', ((s1, true) :: m). split; [done|]. split; [|done].
  assert (r + span l1' + span ((s1, true) :: m) = nx) as Enx by (clear - Ea; simpl; unfold nx; rewrite Ea; unfold a'; lia).
  split; fold a'.
  - exact Hreg.
  - apply HM.
  - pose proof (mg_in _ _ _ _ _ _ HM) as Hin. fold nx a in Hin. fold a' in Enx. rewrite Enx. lia.
  - simpl. rewrite (mg_used _ _ _ _ _ _ HM). done.
  - simpl. lia.
  - intros x s' f. simpl. intros [(_ & _ & ->)|Hx]; [auto|]. apply (mg_free _ _ _ _ _ _ HM x s' f). fold a. by rewrite Ea.
  - apply lists_rep_poke; [|exact HL1]. intros x Hx. apply (lists_of_in L1 _ x HF1) in Hx as (t & [Hbx Hnx] & Hne).
    destruct (blk_facts R HW _ _ _ Hbx) as (_ & _ & _ & Ht). pose proof (blk_hdr_disj R HW _ _ _ _ Hbx Hh1').
    unfold a_size, a_prev, a_next. lia.
  - fold a' in Enx. rewrite Enx. eapply lists_of_ext; [|exact HF1]. intros x t. cbn beta. fold nx a. split.
    + intros [[Hbx Hnx] Hne]. split; [done|]. destruct (blk_facts R HW _ _ _ Hbx) as (_ & _ & _ & Ht).
      destruct (blk_disj R HW _ _ _ _ _ _ Hbx Hb1) as [(? & _)|Hd]; [done|]. lia.
    + intros [Hbx Hnx]. split; [split; [done|lia]|lia].
  - simpl. by rewrite Hh1, (mg_held _ _ _ _ _ _ HM).
  - simpl. by rewrite Hp1, (mg_heap _ _ _ _ _ _ HM).
  - rewrite peek_poke. by rewrite Elf'.
  - rewrite peek_poke_ne by (unfold a_size, a_prev_hdr; lia). rewrite N1.
    destruct (mg_same _ _ _ _ _ _ HM a' Hh1' ltac:(fold a; lia)) as [-> _].
    pose proof (pi_hdrs _ _ _ _ _ _ HI _ _ Hreg) as Hh. rewrite hdrs_app, hdrs_cons in Hh. by destruct Hh as (_ & ? & _).
  - intros y Hy Hne. destruct (hdr_facts R HW y Hy) as [[u Hu] _], (hdr_facts R HW a' Hh1') as [[v Hv] _].
    fold a' in Enx. rewrite Enx in Hne. apply (same_hdr_trans w w'); [apply HM; [done|fold nx a; lia]|].
    apply (same_hdr_trans w' w1); [by apply Hsame|]. apply same_hdr_poke; unfold a_size, a_prev_hdr; lia.
  - intros x Ho Hx. pose proof (other_hdr R x a' HW Ho Hh1').
    rewrite peek_poke_ne by (unfold a_size; lia). rewrite Ho1 by done. by apply (mg_frame _ _ _ _ _ _ HM).
  - destruct (mg_stats _ _ _ _ _ _ HM) as (Q1 & Q2 & Q3 & Q4 & Q5 & Q6), Hst as (T1 & T2 & T3 & T4 & T5 & T6). repeat split; congruence.
Qed.

(** ** Returning the region *)

Context (wok : world H → Prop) (get_mem : Z → world H → outcome (Z * world H)) (put_mem : Z → world H → outcome (world H))
  {PM : PoolMemory wok get_mem put_mem sizes granted}.

(** The outcome of freeing [b]. *)
Definition freed_ok (p' : xmem_pool) (w' : world H) (R' : regions) (L' : flists) : Prop :=
  inv p' w' R' L' ∧ wok w' ∧ (∀ x t, blk_at R' x t false ↔ blk_at R x t false ∧ x ≠ b) ∧
  (∀ x, acc w' x → other R x → ¬ (b ≤ x < b + 16 + s) → peek w' x = peek w x) ∧
  w_held w' ⊆ w_held w ∧ (∀ x, acc w' x ↔ acc w x ∧ (in_regions R x → in_regions R' x)) ∧ (∀ x, in_regions R' x → in_regions R x) ∧
  init_size p' = init_size p ∧ max_size p' = max_size p ∧ grow_size p' = grow_size p ∧ init_region p' = init_region p.

Lemma lastb_null l : wfb l → 0 < r → lastb r 0 l = 0 → l = [].
Proof using.
  intros Hw Hr0. destruct l as [|[t f] l _] using rev_ind; [done|]. rewrite lastb_app. simpl. apply wfb_app in Hw as [Hw _].
  destruct (span_facts l Hw). lia.
Qed.

Lemma put_region_spec m p' w' L' :
  wok w → merging [] m [] p' w' L' →
  ∃ w2, put_mem r (poke (a_prev_hdr (r + span m)) r w') = Ok w2 ∧
    freed_ok (upd_stats (used_size p' - BHDR_OVERHEAD) (num_regions p' - 1) p') w2 (delete r R) L'.
Proof using HI PM.
  intros Hw HM. pose proof (mg_region _ _ _ _ _ _ HM) as Hr. cbn [app] in Hr. rewrite app_nil_r in Hr.
  destruct (rw_base _ HW _ _ Hr) as [Hrp Hr0], (rw_len _ HW _ _ Hr) as [Hlp Hll], (rw_blocks _ HW _ _ Hr) as [Wm _].
  pose proof (mg_nx_hdr _ _ _ _ _ _ HM) as Hnh. pose proof (mg_used_apart _ _ _ _ _ _ HM) as Happ. cbn [span] in Hnh, Happ. rewrite Z.add_0_r in Hnh, Happ.
  set (nx := r + span m) in *. set (w1 := poke (a_prev_hdr nx) r w'). destruct (span_facts _ Wm).
  destruct (pm_put r (rlen m) w1) as (w2 & Hput & Hw2 & Hh2 & Hk2).
  { apply (pm_frame w); [apply HM|apply HM|done]. }
  { by apply (pi_granted _ _ _ _ _ _ HI). }
  { intros y Hy. simpl. rewrite (mg_held _ _ _ _ _ _ HM). apply (elem_of_list_to_set (C:=gset Z)), elem_of_seqZ in Hy.
    replace y with (y * PAGE_SIZE / PAGE_SIZE) by (by rewrite Z.div_mul). apply (pi_acc _ _ _ _ _ _ HI). exists r, m. split; [done|].
    destruct Hrp as [u ->], Hlp as [v Ev]. rewrite Ev in *. change PAGE_SIZE with 4096 in *. rewrite !Z.div_mul in Hy by lia. lia. }
  exists w2. split; [done|].
  assert (∀ x, acc w2 x ↔ acc w x ∧ ¬ (r ≤ x < r + rlen m)) as Hacc.
  { intros x. unfold acc. rewrite Hh2. simpl. rewrite (mg_held _ _ _ _ _ _ HM), elem_of_difference, elem_pages_of by done. tauto. }
  assert (∀ r' l x, R !! r' = Some l → r' ≠ r → r' ≤ x < r' + rlen l → acc w2 x) as HaccR.
  { intros r' l x Hl Hne Hx. apply Hacc. split; [apply (pi_acc _ _ _ _ _ _ HI); by exists r', l|]. intros Hin.
    by destruct (region_unique _ HW r' l r m x Hl Hr Hx Hin). }
  assert (∀ x t f, blk_at (delete r R) x t f ↔ blk_at R x t f ∧ ¬ (r ≤ x < nx)) as Hblk.
  { intros x t f. split.
    - intros (r' & l & [Hne Hl]%lookup_delete_Some & Hb). split; [by exists r', l|]. intros Hx.
      pose proof (region_block_bounds _ HW _ _ _ _ _ Hl Hb). destruct (region_unique _ HW r' l r m x Hl Hr); [lia|unfold rlen, nx in *; lia|done].
    - intros [(r' & l & Hl & Hb) Hx]. exists r', l. split; [|done]. apply lookup_delete_Some. split; [|done]. intros <-.
      rewrite Hr in Hl. injection Hl as <-. apply (block_in_bounds _ _ _ _ _ Wm) in Hb. unfold nx in Hx. lia. }
  assert (∀ x, acc w2 x → x ≠ nx → peek w2 x = peek w' x) as Hpk.
  { intros x Hx Hne. rewrite (Hk2 x Hx). unfold w1, a_prev_hdr. by rewrite peek_poke_ne. }
  destruct (mg_stats _ _ _ _ _ _ HM) as (Q1 & Q2 & Q3 & Q4 & Q5 & Q6). change BHDR_OVERHEAD with 16.
  split; [|split; [done|split; [|split; [|split; [|split; [|split; [|done]]]]]]].
  - split.
    + destruct HW as [V1 V2 V3 V4]. split.
      * intros r' l [_ Hl]%lookup_delete_Some. by eapply V1.
      * intros r' l [_ Hl]%lookup_delete_Some. by eapply V2.
      * intros r' l [_ Hl]%lookup_delete_Some. by eapply V3.
      * intros r1 r2 k1 k2 [_ Hl1]%lookup_delete_Some [_ Hl2]%lookup_delete_Some. by eapply V4.
    + intros r' l [Hne Hl]%lookup_delete_Some. eapply hdrs_ext; [|by apply (pi_hdrs _ _ _ _ _ _ HI)]. intros x Hx.
      pose proof (region_hdr_bounds _ HW _ _ _ Hl Hx) as Hxb. assert (hdr_at R x) as Hxh by (by exists r', l).
      assert (¬ (r ≤ x < r + rlen m)) as Hout by (intros Hin; by destruct (region_unique _ HW r' l r m x Hl Hr ltac:(lia) Hin)).
      destruct (hdr_facts R HW x Hxh) as [[u Hu] _], (hdr_facts R HW nx Hnh) as [[v Hv] _].
      apply (same_hdr_trans w w'); [apply HM; [done|cbn [span]; unfold rlen in Hout; lia]|].
      split; apply Hpk; try (eapply HaccR; [exact Hl|congruence|unfold a_prev_hdr, a_size; lia]); unfold a_prev_hdr, a_size, nx, rlen in *; lia.
    + apply (lists_rep_stats p'); [done|done|done|]. destruct (mg_lists _ _ _ _ _ _ HM) as [R1 R2 R3 R4 R5 R6 R7].
      assert (∀ c x, x ∈ lst L' c → acc w2 (a_prev x) ∧ acc w2 (a_next x) ∧ a_prev x ≠ nx ∧ a_next x ≠ nx) as Hlk.
      { intros c x Hx. assert (in_lists L' x) as Hin by (by exists c). apply (lists_of_in L' _ x (mg_of _ _ _ _ _ _ HM)) in Hin as (t & Hbx & Hnx).
        cbn [span] in Hnx. rewrite Z.add_0_r in Hnx. destruct (proj2 (Hblk x t true)) as (r' & l & [Hne Hl]%lookup_delete_Some & Hb); [by split|].
        pose proof (region_block_bounds _ HW _ _ _ _ _ Hl Hb). destruct (hdr_facts R HW nx Hnh) as [[v Hv] _].
        destruct (blk_facts R HW _ _ _ Hbx) as ([u Hu] & _). pose proof (blk_hdr_disj R HW _ _ _ _ Hbx Hnh).
        repeat split; try (eapply HaccR; [exact Hl|congruence|]); unfold a_prev, a_next in *; lia. }
      split; try done.
      * intros c. eapply linked_ext; [|apply R3]. intros x Hx. destruct (Hlk c x Hx) as (? & ? & ? & ?). split; by apply Hpk.
      * intros c x Hx. destruct (R7 c x Hx) as (? & ? & _), (Hlk c x Hx) as (? & _). done.
    + eapply lists_of_ext; [|apply HM]. intros x t. cbn beta. cbn [span]. rewrite Hblk, Z.add_0_r. done.
    + intros x (r' & l & [Hne Hl]%lookup_delete_Some & Hx). by apply (HaccR r' l).
    + cbn [used_size upd_stats]. rewrite Q1, (pi_used _ _ _ _ _ _ HI), (rsum_delete R r m Hr), (mg_used _ _ _ _ _ _ HM).
      unfold u64. rewrite Zminus_mod_idemp_l, <- Z.sub_add_distr, Zminus_mod_idemp_l. f_equal. lia.
    + cbn [num_regions upd_stats]. rewrite Q2, (pi_num _ _ _ _ _ _ HI). unfold u64. rewrite Zminus_mod_idemp_l.
      f_equal. rewrite map_size_delete_Some by eauto. assert (size R ≠ 0%nat) by (apply map_size_ne_0_lookup; eauto). lia.
    + intros r' l [_ Hl]%lookup_delete_Some. by apply (pi_granted _ _ _ _ _ _ HI).
    + cbn [init_size grow_size upd_stats]. rewrite Q3, Q5. apply HI.
  - intros x t. rewrite Hblk. split; intros [Hx Hn]; (split; [done|by apply (Happ x t)]).
  - intros x Hx Ho Hn. pose proof (other_hdr R x nx HW Ho Hnh). rewrite Hpk by (done || lia). by apply (mg_frame _ _ _ _ _ _ HM).
  - rewrite Hh2. simpl. rewrite (mg_held _ _ _ _ _ _ HM). set_solver.
  - intros x. rewrite Hacc. split; intros [Hx Hn]; (split; [done|]).
    + intros (r' & l & Hl & Hin). exists r', l. split; [|done]. apply lookup_delete_Some. split; [|done]. intros <-.
      apply Hn. rewrite Hr in Hl. by injection Hl as <-.
    + intros Hin. destruct Hn as (r' & l & [Hne Hl]%lookup_delete_Some & Hin'); [by exists r, m|].
      by destruct (region_unique _ HW r' l r m x Hl Hr Hin' Hin).
  - intros x (r' & l & [_ Hl]%lookup_delete_Some & Hx). by exists r', l.
Qed.

(** ** Putting the block on its list *)

Section put.
Context (l1 m l2 : blocks) (p' : xmem_pool) (w' : world H) (L' : flists) (HM : merging l1 m l2 p' w' L')
  (Hlf : lastf false l1 = false) (Hff : (first_of l2).2 = false).
Let a := r + span l1.
Let nx := r + span l1 + span m.

Definition put_regions : regions := replaced R r l1 [(span m - 16, true)] l2.

Lemma put_span : span [(span m - 16, true)] = span m.
Proof. clear. simpl. lia. Qed.

Lemma put_regions_wf : regions_wf put_regions.
Proof using HI HM Hlf Hff.
  destruct (mg_m16 _ _ _ _ _ _ HM) as [? ?]. pose proof (mg_span _ _ _ _ _ _ HM).
  apply (regions_wf_replace R HW r l1 m); [apply HM|apply put_span| | |].
  - apply wfb_cons. split; [split; [done|lia]|constructor].
  - rewrite Hlf. simpl. naive_solver.
  - simpl. apply coal_cons_used; [done|]. destruct (mg_coal _ _ _ _ _ _ HM) as [_ Hc].
    destruct (lastf (lastf false l1) m); [by apply coal_weaken|done].
Qed.

Lemma put_regions_blk x t f :
  blk_at put_regions x t f ↔ (x = a ∧ t = span m - 16 ∧ f = true) ∨ blk_at R x t f ∧ ¬ (a ≤ x < nx).
Proof using HI HM.
  unfold put_regions. rewrite (blk_at_replace R HW r l1 m); [|apply HM|apply put_span]. simpl. fold a nx. tauto.
Qed.

Lemma put_regions_hdr y : hdr_at R y → ¬ (a < y < nx) → hdr_at put_regions y.
Proof using HI HM.
  intros Hy Hn. destruct (decide (y = a)) as [-> |Hne].
  - apply (blk_hdr_at _ a (span m - 16) true), put_regions_blk. auto.
  - apply (hdr_at_keep R HW r l1 m); [apply HM|apply put_span|done|]. fold a nx. lia.
Qed.

Lemma put_list_spec :
  wok w →
  ∃ p1 w2 w4 L1,
    (let '(fl, sl) := MAPPING_INSERT (span m - 16) in INSERT_BLOCK a p' fl sl (poke (a_prev_hdr nx) a w')) = Ok (p1, w2) ∧
    (let! ts := rd (a_size nx) w2 in
     let! w3 := wr (a_size nx) (Z.lor ts PREV_FREE) w2 in
     let! w4 := wr (a_prev_hdr nx) a w3 in Ok (p1, w4)) = Ok (p1, w4) ∧
    freed_ok p1 w4 put_regions L1.
Proof using HI PM HM Hlf Hff.
  intros Hw. pose proof (mg_a_hdr _ _ _ _ _ _ HM : hdr_at R a) as Hah. pose proof (mg_nx_hdr _ _ _ _ _ _ HM : hdr_at R nx) as Hnh.
  pose proof (mg_acc _ _ _ _ _ _ HM : ∀ x, a ≤ x < nx + 16 → acc w' x) as Hacc. destruct (mg_m16 _ _ _ _ _ _ HM) as [D16 S16].
  pose proof (mg_span _ _ _ _ _ _ HM) as H32. destruct (mg_wfb _ _ _ _ _ _ HM) as (W1 & W2 & W3). destruct (first_of_wf l2 W3) as (D2 & S2 & _).
  destruct (hdr_facts R HW a Hah) as [Da Ha0], (hdr_facts R HW nx Hnh) as [[v Hv] _]. pose proof Da as [u Hu].
  assert (nx = a + span m) as Enx by done. pose proof put_regions_wf as HW'.
  destruct (rw_len _ HW _ _ (mg_region _ _ _ _ _ _ HM)) as [_ Hrl]. unfold rlen in Hrl. rewrite !span_app in Hrl.
  destruct (span_facts _ W1). set (w1 := poke (a_prev_hdr nx) a w'). pose proof (mg_of _ _ _ _ _ _ HM) as HF.
  assert (∀ x, in_lists L' x → ∃ t, blk_at R x t true ∧ ¬ (a ≤ x < nx)) as HP by (intros x Hx; by apply (lists_of_in L' _ x HF) in Hx).
  assert (∀ y, hdr_at R y → ¬ (a < y < nx) → ∀ x, in_lists L' x → (y ≠ a_prev x ∧ y ≠ a_next x) ∧ a_size y ≠ a_prev x ∧ a_size y ≠ a_next x) as Hno.
  { intros y Hy Hn x Hx. destruct (hdr_not_link R HW (in_lists L') y) as [N1 N2]; [|done|].
    - intros z Hz. destruct (HP z Hz) as (t & ? & _). eauto.
    - repeat split; intros E; [apply N1|apply N1|apply N2|apply N2]; exists x; auto. }
  destruct (MAPPING_INSERT (span m - 16)) as [fl sl] eqn:EM.
  destruct (INSERT_BLOCK_spec p' w1 L' a fl sl) as (p1 & w2 & Hins & HL2 & Hfr & Hst); [| |done|done| | |].
  { apply lists_rep_poke; [|apply HM]. intros x Hx. unfold a_prev_hdr. by apply (Hno nx); [|lia|]. }
  { by apply (mapping_insert_spec (span m - 16)); [lia|]. }
  { apply (Hacc (a_prev a)). unfold a_prev. lia. }
  { intros Hin. destruct (HP a Hin) as (t & _ & Hn). lia. }
  pose proof Hfr as (Hh2 & Hp2 & Hf2). fold w1.
  assert (∀ x, x = a ∨ in_lists L' x → ∃ t f, blk_at put_regions x t f) as HP2.
  { intros x [-> |Hx]; [eexists _, _; apply put_regions_blk; by left|]. destruct (HP x Hx) as (t & ? & ?). exists t, true. apply put_regions_blk. auto. }
  assert (∀ y, hdr_at R y → ¬ (a < y < nx) → same_hdr w1 w2 y) as Hsame2.
  { intros y Hy Hn. apply (same_hdr_links _ w1 w2 put_regions y HW' HP2 Hfr). by apply put_regions_hdr. }
  destruct (Hsame2 nx Hnh ltac:(lia)) as [N1 N2], (Hsame2 a Hah ltac:(lia)) as [A1 A2].
  assert (peek w2 (a_size nx) = enc (first_of l2).1 false (lastf (lastf false l1) m)) as E2.
  { rewrite N2. unfold w1. rewrite peek_poke_ne by (unfold a_size, a_prev_hdr; lia).
    pose proof (mg_next _ _ _ _ _ _ HM) as E. by rewrite Hff in E. }
  set (w4 := poke (a_prev_hdr nx) a (poke (a_size nx) (enc (first_of l2).1 false true) w2)).
  assert (∀ x, a ≤ x < nx + 16 → acc w2 x) as Hacc2 by (intros x Hx; unfold acc; rewrite Hh2; by apply Hacc).
  assert (w_held w4 = w_held w ∧ w_heap w4 = w_heap w) as [Hh4 Hp4].
  { simpl. rewrite Hh2, Hp2. split; apply HM. }
  exists p1, w2, w4, (with_block a (span m - 16) L'). split; [done|]. split.
  { rewrite rd_ok by (apply Hacc2; unfold a_size; lia). cbn [mbind outcome_bind]. rewrite E2, enc_set_prev_free by (done || lia).
    rewrite wr_ok by (apply Hacc2; unfold a_size; lia). cbn [mbind outcome_bind].
    by rewrite wr_ok by (apply (Hacc2 (a_prev_hdr nx)); unfold a_prev_hdr; lia). }
  destruct (mg_stats _ _ _ _ _ _ HM) as (Q1 & Q2 & Q3 & Q4 & Q5 & Q6), Hst as (T1 & T2 & T3 & T4 & T5 & T6).
  split; [|split; [by apply (pm_frame w)|split; [|split; [|split; [by rewrite Hh4|split; [|split; [|repeat split; congruence]]]]]]].
  - eapply (inv_replaced sizes granted p _ w); [exact HI|apply HM|apply put_span|exact HW'| | | |exact Hh4| | | |].
    + apply (hdrs_all_replace w w4 R r l1 m); [apply HW|apply HM|apply put_span|apply HI| | | |]; fold a nx; cbn [hseg lastb lastf].
      * intros y Hy Hn. destruct (hdr_facts R HW y Hy) as [[z Hz] _]. apply (same_hdr_trans w w'); [apply HM; [done|fold nx a; lia]|].
        apply (same_hdr_trans w' w1); [apply same_hdr_poke; unfold a_prev_hdr, a_size; lia|].
        apply (same_hdr_trans w1 w2); [apply Hsame2; [done|lia]|]. unfold w4.
        eapply same_hdr_trans; apply same_hdr_poke; unfold a_prev_hdr, a_size; lia.
      * unfold w4. rewrite !peek_poke_ne by (unfold a_size, a_prev_hdr; lia). rewrite A1, A2. unfold w1.
        rewrite !peek_poke_ne by (unfold a_size, a_prev_hdr; lia). split; [apply HM|split; [apply HM|done]].
      * unfold w4. by rewrite peek_poke.
      * unfold w4. rewrite peek_poke_ne, peek_poke by (unfold a_size, a_prev_hdr; lia). by rewrite Hff.
    + rewrite <- EM in HL2. fold (with_block a (span m - 16) L') in HL2.
      assert (∀ x, in_lists (with_block a (span m - 16) L') x → x = a ∨ in_lists L' x) as Hwb.
      { intros x [c Hx]. unfold with_block in Hx. destruct (decide (c = MAPPING_INSERT (span m - 16))) as [-> |Hc].
        - rewrite lst_insert in Hx. apply elem_of_cons in Hx as [-> |Hx]; [by left|right; by eexists].
        - rewrite lst_insert_ne in Hx by done. right. by eexists. }
      unfold w4. apply lists_rep_poke; [|apply lists_rep_poke; [|exact HL2]].
      * intros x [-> |Hx]%Hwb; [unfold a_prev_hdr, a_prev, a_next; lia|]. by apply (Hno nx); [|lia|].
      * intros x [-> |Hx]%Hwb; [unfold a_size, a_prev, a_next; lia|]. by apply (Hno nx); [|lia|].
    + eapply lists_of_ext; [|apply lists_of_add; exact HF]. intros x t. cbn beta. rewrite put_regions_blk. fold a nx. tauto.
    + rewrite T4, Q1, (mg_used _ _ _ _ _ _ HM). simpl. done.
    + congruence.
    + congruence.
    + congruence.
  - intros x t. rewrite put_regions_blk. split.
    + intros [(_ & _ & ?)|[Hx Hn]]; [done|]. split; [done|]. by apply (mg_used_apart _ _ _ _ _ _ HM x t Hx).
    + intros [Hx Hn]. right. split; [done|]. by apply (mg_used_apart _ _ _ _ _ _ HM x t Hx).
  - intros x Hx Ho Hn. pose proof (other_hdr R x nx HW Ho Hnh). unfold w4. rewrite !peek_poke_ne by (unfold a_size, a_prev_hdr; lia).
    rewrite Hf2.
    + unfold w1. rewrite peek_poke_ne by (unfold a_prev_hdr; lia). by apply (mg_frame _ _ _ _ _ _ HM).
    + intros (z & [-> |Hz] & Hor).
      * apply Hn. apply (mg_other _ _ _ _ _ _ HM x Ho). fold a nx. unfold a_prev, a_next in Hor. lia.
      * apply (other_link R (in_lists L') x HW); [|done|by exists z]. intros y Hy. destruct (HP y Hy) as (t & ? & _). eauto.
  - intros x. unfold acc. rewrite Hh4. split; [|by intros [? _]]. intros Hx. split; [done|].
    apply (in_regions_replace R r l1 m); [apply HM|apply put_span].
  - intros x. apply (in_regions_replace R r l1 m); [apply HM|apply put_span].
Qed.
End put.

Lemma release_block_spec l1 m l2 p' w' L' :
  wok w → merging l1 m l2 p' w' L' → lastf false l1 = false → (first_of l2).2 = false →
  ∃ p1 w1 R1 L1, release_block put_mem (r + span l1) p' w' = Ok (p1, w1) ∧ freed_ok p1 w1 R1 L1.
Proof using HI PM.
  intros Hw HM Hlf Hff. pose proof (mg_block_size _ _ _ _ _ _ HM) as Hbs. pose proof (mg_acc _ _ _ _ _ _ HM) as Hacc.
  pose proof (mg_span _ _ _ _ _ _ HM) as H32. destruct (mg_m16 _ _ _ _ _ _ HM) as [D16 S16].
  destruct (mg_wfb _ _ _ _ _ _ HM) as (W1 & W2 & W3). destruct (first_of_wf l2 W3) as (D2 & S2 & E2).
  pose proof (mg_next _ _ _ _ _ _ HM) as En. pose proof (mg_prev _ _ _ _ _ _ HM) as Ep. pose proof (mg_size _ _ _ _ _ _ HM) as Es.
  destruct (rw_base _ HW _ _ (mg_region _ _ _ _ _ _ HM)) as [_ Hr0], (rw_len _ HW _ _ (mg_region _ _ _ _ _ _ HM)) as [_ Hrl].
  unfold rlen in Hrl. rewrite !span_app in Hrl. destruct (span_facts _ W1).
  pose proof (put_list_spec l1 m l2 p' w' L' HM Hlf Hff Hw) as Hput. cbn zeta in Hput.
  set (nx := r + span l1 + span m) in *. set (a := r + span l1) in *. assert (nx = a + span m) as Enx by done.
  unfold release_block. rewrite Hbs. cbn [mbind outcome_bind]. unfold GET_NEXT_BLOCK, buffer. change BHDR_OVERHEAD with 16.
  replace (a + 16 + (span m - 16)) with nx by lia. rewrite (wr_ok (a_prev_hdr nx)) by (apply Hacc; unfold a_prev_hdr; lia). cbn [mbind outcome_bind].
  set (w1 := poke (a_prev_hdr nx) a w') in *.
  rewrite (block_size_ok a w1 (span m - 16) true (lastf false l1)); [|done|lia| |].
  2:{ apply (Hacc (a_size a)). unfold a_size. lia. }
  2:{ unfold w1. by rewrite peek_poke_ne by (unfold a_size, a_prev_hdr; lia). }
  cbn [mbind outcome_bind]. destruct (MAPPING_INSERT (span m - 16)) as [fl sl].
  rewrite (rd_ok (a_prev_hdr a)) by (apply (Hacc (a_prev_hdr a)); unfold a_prev_hdr; lia). cbn [mbind outcome_bind].
  rewrite (block_size_ok nx w1 (first_of l2).1 (first_of l2).2 (lastf (lastf false l1) m)); [|done|lia| |].
  2:{ apply (Hacc (a_size nx)). unfold a_size. lia. }
  2:{ unfold w1. by rewrite peek_poke_ne by (unfold a_size, a_prev_hdr; lia). }
  cbn [mbind outcome_bind]. replace (peek w1 (a_prev_hdr a)) with (lastb r 0 l1).
  2:{ unfold w1. by rewrite peek_poke_ne by (unfold a_prev_hdr; lia). }
  destruct (Z.eqb_spec (lastb r 0 l1) 0) as [El|El]; [destruct (Z.eqb_spec (first_of l2).1 0) as [Ef|Ef]|]; cbn [andb].
  1:{ assert (l1 = []) as -> by (by apply lastb_null). rewrite (E2 Ef) in HM. destruct (put_region_spec m p' w' L' Hw HM) as (w2 & Hput2 & Hok).
      unfold w1, nx, a. cbn [span]. rewrite Z.add_0_r, Hput2. cbn [mbind outcome_bind]. by eexists _, _, _, _. }
  all: destruct Hput as (p1 & w2 & w4 & L1 & -> & Hrun & Hok); cbn [mbind outcome_bind]; rewrite Hrun; by eexists _, _, _, _.
Qed.
End merge.

(** ** [xmem_pool_free] *)

Section xmem_pool_free.
Context (wok : world H → Prop) (get_mem : Z → world H → outcome (Z * world H)) (put_mem : Z → world H → outcome (world H))
  {PM : PoolMemory wok get_mem put_mem sizes granted}.

(** The block is marked free. *)
Lemma free_start p w R L r l1 l2 s :
  inv p w R L → R !! r = Some (l1 ++ [(s, false)] ++ l2) →
  let b := r + span l1 in
  ∃ w2, (let! t := rd (a_size b) w in
         let! w1 := wr (a_size b) (Z.lor t FREE_BLOCK) w in
         let! bsize := block_size b w1 in
         let! w2 := set_free_ptr b 0 0 w1 in Ok (bsize, w2)) = Ok (s, w2) ∧
    merging p w R r b s l1 [(s, false)] l2 (upd_stats (used_size p - (s + 16)) (num_regions p) p) w2 L.
Proof.
  intros HI Hr b. pose proof (pi_wf _ _ _ _ _ _ HI) as HW.
  assert (blk_at R b s false) as Hb.
  { exists r, (l1 ++ [(s, false)] ++ l2). split; [done|]. rewrite !block_in_app. right. left. simpl. auto. }
  destruct (blk_facts R HW _ _ _ Hb) as (Db & Hb0 & Ds & Hs). pose proof (pi_hdrs _ _ _ _ _ _ HI _ _ Hr) as Hh.
  rewrite hdrs_app in Hh. destruct Hh as [_ Hh]. cbn [app] in Hh. apply hdrs_cons in Hh as (E1 & E2 & _). fold b in E1, E2.
  assert (∀ x, b ≤ x < b + 16 + s → acc w x) as Hacc.
  { intros x Hx. apply (pi_acc _ _ _ _ _ _ HI). by eapply blk_in_regions. }
  rewrite rd_ok by (apply Hacc; unfold a_size; lia). cbn [mbind outcome_bind]. rewrite E2, enc_set_free by (done || lia).
  rewrite wr_ok by (apply Hacc; unfold a_size; lia). cbn [mbind outcome_bind]. set (w1 := poke (a_size b) _ w).
  rewrite (block_size_ok b w1 s true (lastf false l1)); [|done|lia|apply (Hacc (a_size b)); unfold a_size; lia|apply peek_poke].
  cbn [mbind outcome_bind]. rewrite set_free_ptr_ok; [|done|apply (Hacc (a_prev b)); unfold a_prev; lia]. cbn [mbind outcome_bind].
  eexists. split; [done|]. set (w2 := poke (a_next b) 0 (poke (a_prev b) 0 w1)).
  assert (∀ x, ¬ (b + 8 ≤ x < b + 16 + s) → peek w2 x = peek w x) as Hpk.
  { intros x Hx. unfold w2, w1, a_next, a_prev, a_size. rewrite !peek_poke_ne by lia. done. }
  split; fold b.
  - done.
  - done.
  - simpl. lia.
  - simpl. lia.
  - simpl. lia.
  - intros x s' f. simpl. tauto.
  - apply (lists_rep_stats p); [done|done|done|]. eapply lists_rep_ext; [| |apply (pi_lists _ _ _ _ _ _ HI)]; [done|].
    intros x (y & Hy & Hx). apply Hpk. apply (listed_blk sizes granted p w R L y HI) in Hy as (t & Ht).
    destruct (blk_facts R HW _ _ _ Ht) as (_ & _ & _ & ?). destruct (blk_disj R HW _ _ _ _ _ _ Ht Hb) as [(_ & _ & ?)|Hd]; [done|].
    unfold a_prev, a_next in Hx. lia.
  - eapply lists_of_ext; [|apply HI]. intros x t. cbn beta. cbn [span]. split; [|tauto]. intros Ht. split; [done|].
    destruct (blk_facts R HW _ _ _ Ht) as (_ & _ & _ & ?). destruct (blk_disj R HW _ _ _ _ _ _ Ht Hb) as [(_ & _ & ?)|Hd]; [done|]. lia.
  - done.
  - done.
  - unfold w2. rewrite !peek_poke_ne by (unfold a_size, a_prev, a_next; lia). unfold w1. rewrite peek_poke. f_equal. simpl. lia.
  - rewrite Hpk by (unfold a_prev_hdr; lia). done.
  - intros y Hy Hn. cbn [span] in Hn. pose proof (blk_hdr_disj R HW _ _ _ _ Hb Hy). destruct (hdr_facts R HW y Hy) as [[u Hu] _], Db as [v Hv].
    split; apply Hpk; unfold a_prev_hdr, a_size; lia.
  - intros x Ho Hx. apply Hpk. lia.
  - cbn [used_size num_regions init_size max_size grow_size init_region upd_stats]. rewrite (num_regions_u64 sizes granted p w R L HI). done.
Qed.

(** Freeing a used block makes it, and only it, available again; the other
    blocks and all memory outside the pool are as before. *)
Lemma xmem_pool_free_spec p w R L b s :
  inv p w R L → wok w → blk_at R b s false →
  ∃ p' w' R' L', xmem_pool_free put_mem (buffer b) p w = Ok (p', w') ∧ freed_ok p w R b s wok p' w' R' L'.
Proof using PM.
  intros HI Hw Hb. destruct (blk_facts R (pi_wf _ _ _ _ _ _ HI) _ _ _ Hb) as (_ & Hb0 & _). destruct Hb as (r & l & Hr & Hb).
  destruct (block_in_split _ _ _ _ _ Hb) as (l1 & l2 & -> & ->). change (l1 ++ (s, false) :: l2) with (l1 ++ [(s, false)] ++ l2) in Hr.
  destruct (free_start p w R L r l1 l2 s HI Hr) as (w2 & Hrun & HM).
  destruct (merge_next_spec p w R L HI r _ s l1 _ l2 _ w2 L HM) as (p3 & w3 & L3 & m3 & l3 & Hrun3 & HM3 & Hff); [done|].
  destruct (merge_prev_spec p w R L HI r _ s l1 m3 l3 p3 w3 L3 HM3) as (p4 & w4 & L4 & l4 & m4 & Hrun4 & HM4 & Hlf).
  destruct (release_block_spec p w R L HI r _ s wok get_mem put_mem l4 m4 l3 p4 w4 L4 Hw HM4 Hlf Hff) as (p5 & w5 & R5 & L5 & Hrun5 & Hok).
  exists p5, w5, R5, L5. split; [|done]. set (b := r + span l1) in *. unfold xmem_pool_free. change BHDR_OVERHEAD with 16 in *.
  unfold buffer. change BHDR_OVERHEAD with 16. rewrite (proj2 (Z.eqb_neq _ _)) by lia. replace (b + 16 - 16) with b by lia.
  apply Ok_bind_inv in Hrun as (t & Ht & Hrun). rewrite Ht. cbn [mbind outcome_bind].
  apply Ok_bind_inv in Hrun as (w1 & Hw1 & Hrun). rewrite Hw1. cbn [mbind outcome_bind].
  apply Ok_bind_inv in Hrun as (bs & Hbs & Hrun). rewrite Hbs. cbn [mbind outcome_bind].
  apply Ok_bind_inv in Hrun as (w2' & Hw2 & Hrun). injection Hrun as -> ->. rewrite Hw2. cbn [mbind outcome_bind].
  rewrite Hrun3. cbn [mbind outcome_bind]. rewrite Hrun4. cbn [mbind outcome_bind]. exact Hrun5.
Qed.
End xmem_pool_free.
End free.
