(* ===== verification/HeapSpec.v ===== *)
(** * What an allocator promises

    An allocator hands out blocks that do not overlap; a block keeps what its
    owner wrote into it until it is freed. Histories of calls with their results
    are checked against this; the pool allocator and [xmalloc] are proved to
    have only such histories. *)

From S2P Require Import Prelude.
Local Open Scope xen_scope.

(** The calls, with the reads and writes of the owners. *)
Inductive heap_op :=
| HAlloc (size align : Z)
| HZalloc (size align : Z)
| HFree (ptr : Z)
| HWrite (x v : Z)
| HRead (x : Z).

(** The blocks with the sizes asked for, and the 8-byte cells with a known
    value. *)
Record aheap := mk_aheap {
  ah_blocks : gmap Z Z;
  ah_data : gmap Z Z;
}.

Definition empty_heap : aheap := mk_aheap ∅ ∅.

(** The cell [x] belongs to the owner of a block. *)
Definition owned (h : aheap) (x : Z) : Prop :=
  ∃ ptr size, ah_blocks h !! ptr = Some size ∧ ptr ≤ x ∧ x + 8 ≤ ptr + size.

(** Cells [x], [x + 8], ... set to 0. *)
Fixpoint zeros (n : nat) (x : Z) : gmap Z Z :=
  match n with O => ∅ | S n' => <[x := 0]> (zeros n' (x + 8)) end.

(** The cells outside a block. *)
Definition forget (ptr size : Z) (d : gmap Z Z) : gmap Z Z := filter (λ c, ¬ (ptr ≤ c.1 < ptr + size)) d.

(** A result is a fresh block, aligned, disjoint from all others. *)
Definition fresh_block (h : aheap) (ptr size align : Z) : Prop :=
  0 < ptr ∧ (16 | ptr) ∧ (align | ptr) ∧ ah_blocks h !! ptr = None ∧
  ∀ ptr' size', ah_blocks h !! ptr' = Some size' → ptr + size ≤ ptr' ∨ ptr' + size' ≤ ptr.

(** The results that are allowed. *)
Definition heap_allows (h : aheap) (op : heap_op) (res : Z) : Prop :=
  match op with
  | HAlloc size align | HZalloc size align => res = 0 ∨ fresh_block h res size align
  | HFree _ | HWrite _ _ => res = 0
  | HRead x => ∀ v, ah_data h !! x = Some v → res = v
  end.

(** The heap after a call. *)
Definition heap_next (h : aheap) (op : heap_op) (res : Z) : aheap :=
  match op with
  | HAlloc size _ =>
      if res =? 0 then h else mk_aheap (<[res := size]> (ah_blocks h)) (ah_data h)
  | HZalloc size _ =>
      if res =? 0 then h
      else mk_aheap (<[res := size]> (ah_blocks h)) (zeros (Z.to_nat (size / 8)) res ∪ ah_data h)
  | HFree ptr =>
      match ah_blocks h !! ptr with
      | Some size => mk_aheap (delete ptr (ah_blocks h)) (forget ptr size (ah_data h))
      | None => h
      end
  | HWrite x v => mk_aheap (ah_blocks h) (<[x := v]> (ah_data h))
  | HRead _ => h
  end.

(** What callers must respect: they free what they were given, or [NULL], and
    access what they own. *)
Definition heap_valid (h : aheap) (op : heap_op) : Prop :=
  match op with
  | HAlloc size align | HZalloc size align => 0 ≤ size
  | HFree ptr => ptr = 0 ∨ is_Some (ah_blocks h !! ptr)
  | HWrite x _ | HRead x => (8 | x) ∧ owned h x
  end.

(** ** Histories *)

Section history.
Context {S : Type} (step : heap_op → S → outcome (Z * S)) (valid : aheap → heap_op → Prop).

(** The calls made in a state, each valid, with their results. *)
Inductive history : S → aheap → list (heap_op * Z) → S → aheap → Prop :=
| history_nil s h : history s h [] s h
| history_cons s h op res s1 l s2 h2 :
    valid h op → step op s = Ok (res, s1) → history s1 (heap_next h op res) l s2 h2 →
    history s h ((op, res) :: l) s2 h2.

(** All results are allowed. *)
Fixpoint allowed (h : aheap) (l : list (heap_op * Z)) : Prop :=
  match l with
  | [] => True
  | (op, res) :: l' => heap_allows h op res ∧ allowed (heap_next h op res) l'
  end.

(** A relation that every valid call keeps makes all histories allowed, and no
    valid call fails. *)
Lemma history_allowed (rep : S → aheap → Prop) :
  (∀ s h op, rep s h → valid h op →
     ∃ res s', step op s = Ok (res, s') ∧ heap_allows h op res ∧ rep s' (heap_next h op res)) →
  ∀ s h l s' h', rep s h → history s h l s' h' → allowed h l ∧ rep s' h'.
Proof.
  intros Hstep s h l s' h' Hr Hh. induction Hh as [s h|s h op res s1 l s2 h2 Hv Hs Hh IH]; [done|].
  destruct (Hstep s h op Hr Hv) as (res' & s1' & E & Ha & Hr1). rewrite Hs in E. injection E as <- <-.
  destruct (IH Hr1). done.
Qed.

(** Running calls with the results expected. *)
Context (valid_b : aheap → heap_op → bool) (valid_b_sound : ∀ h op, valid_b h op = true → valid h op).

Fixpoint run (l : list (heap_op * Z)) (s : S) (h : aheap) : option (S * aheap) :=
  match l with
  | [] => Some (s, h)
  | (op, res) :: l' =>
      if valid_b h op then
        match step op s with
        | Ok (res', s1) => if res' =? res then run l' s1 (heap_next h op res) else None
        | Bug => None
        end
      else None
  end.

Lemma run_history l s h s' h' : run l s h = Some (s', h') → history s h l s' h'.
Proof using valid_b_sound.
  revert s h. induction l as [|[op res] l IH]; intros s h; simpl; [intros [= <- <-]; constructor|].
  destruct (valid_b h op) eqn:Ev; [|done]. destruct (step op s) as [[res' s1]|] eqn:Es; [|done].
  destruct (Z.eqb_spec res' res) as [-> |]; [|done]. intros Hr. econstructor; [by apply valid_b_sound|done|by apply IH].
Qed.

(** The calls run and their outcome passes a test. *)
Definition run_test (test : S → aheap → bool) (l : list (heap_op * Z)) (s : S) : bool :=
  match run l s empty_heap with Some (s', h) => test s' h | None => false end.

Lemma run_test_history test l s : run_test test l s = true → ∃ s' h, history s empty_heap l s' h ∧ test s' h = true.
Proof using valid_b_sound.
  unfold run_test. destruct (run l s empty_heap) as [[s' h]|] eqn:E; [|done]. intros Hb. exists s', h.
  split; [by apply run_history|done].
Qed.
End history.

(** Validity, as a test. *)
Definition owned_b (h : aheap) (x : Z) : bool :=
  existsb (λ b, (b.1 <=? x) && (x + 8 <=? b.1 + b.2)) (map_to_list (ah_blocks h)).

Lemma owned_b_sound h x : owned_b h x = true → owned h x.
Proof.
  unfold owned_b. intros ([ptr size] & Hin & Hb)%existsb_exists. simpl in Hb. b2p. exists ptr, size.
  split; [by apply elem_of_map_to_list, list_elem_of_In|done].
Qed.

Definition heap_valid_b (h : aheap) (op : heap_op) : bool :=
  match op with
  | HAlloc size align | HZalloc size align => 0 <=? size
  | HFree ptr => (ptr =? 0) || bool_decide (is_Some (ah_blocks h !! ptr))
  | HWrite x _ | HRead x => (x mod 8 =? 0) && owned_b h x
  end.

Lemma heap_valid_b_sound h op : heap_valid_b h op = true → heap_valid h op.
Proof.
  destruct op as [size align|size align|ptr|x v|x]; simpl; try (intros ?; b2p; done).
  - intros [Hp|Hp]%orb_true_iff; b2p; auto.
  - intros [Hx Ho]%andb_true_iff. split; [|by apply owned_b_sound]. b2p. by apply Z.mod_divide.
  - intros [Hx Ho]%andb_true_iff. split; [|by apply owned_b_sound]. b2p. by apply Z.mod_divide.
Qed.

(** ** Cells *)

Lemma zeros_lookup n x y v : zeros n x !! y = Some v → v = 0 ∧ x ≤ y ∧ y + 8 ≤ x + 8 * Z.of_nat n ∧ (8 | y - x).
Proof.
  revert x. induction n as [|n IH]; intros x; simpl; [done|]. intros [[<- <-]|[Hne Hy]]%lookup_insert_Some.
  - split; [done|]. split; [lia|]. split; [lia|]. exists 0. lia.
  - destruct (IH _ Hy) as (-> & ? & ? & [k Hk]). split; [done|]. split; [lia|]. split; [lia|]. exists (k + 1). lia.
Qed.

Lemma zeros_in n x k : (k < n)%nat → zeros n x !! (x + 8 * Z.of_nat k) = Some 0.
Proof.
  revert x k. induction n as [|n IH]; intros x k Hk; [lia|]. simpl. destruct k as [|k].
  - rewrite Z.mul_0_r, Z.add_0_r. apply lookup_insert_eq.
  - rewrite lookup_insert_ne by lia. replace (x + 8 * Z.of_nat (S k)) with (x + 8 + 8 * Z.of_nat k) by lia. apply IH. lia.
Qed.
