(* ===== verification/TlsfProps.v ===== *)
(** * Theorems about pools (xen/common/xmalloc_tlsf.c)

    A pool is an allocator: its histories are those of [HeapSpec]. An allocation
    succeeds whenever memory can be had, and the pool's memory is tiled by its
    blocks, the free ones of which its bitmaps and lists index. *)

From S2P Require Import Prelude BootMem PageAlloc Tlsf TlsfMap TlsfLists TlsfBlocks TlsfInv TlsfAlloc TlsfFree HeapSpec.
Local Open Scope xen_scope.

Section pool.
Context {H : Type} (sizes : Z → Prop) (granted : Z → Z → Prop) (wok : world H → Prop)
  (get_mem : Z → world H → outcome (Z * world H)) (put_mem : Z → world H → outcome (world H))
  {PM : PoolMemory wok get_mem put_mem sizes granted}.

Abbreviation inv := (pool_inv (H:=H) sizes granted).

(** The calls on a pool. *)
Definition pool_step (op : heap_op) (s : xmem_pool * world H) : outcome (Z * (xmem_pool * world H)) :=
  let '(p, w) := s in
  match op with
  | HAlloc size _ => let! (ptr, p', w') := xmem_pool_alloc get_mem size p w in Ok (ptr, (p', w'))
  | HZalloc _ _ => Bug
  | HFree ptr => let! (p', w') := xmem_pool_free put_mem ptr p w in Ok (0, (p', w'))
  | HWrite x v => let! w' := wr x v w in Ok (0, (p, w'))
  | HRead x => let! v := rd x w in Ok (v, (p, w))
  end.

(** A pool aligns to 16 bytes and has lists for requests up to 256MB. *)
Definition pool_valid (h : aheap) (op : heap_op) : Prop :=
  heap_valid h op ∧
  match op with
  | HAlloc size align => size ≤ 2 ^ 28 ∧ (align | 16)
  | HZalloc _ _ => False
  | _ => True
  end.

Record pool_rep (s : xmem_pool * world H) (h : aheap) (R : regions) (L : flists) : Prop := {
  pr_inv : inv s.1 s.2 R L;
  pr_ready : ready s.1 R;
  pr_wok : wok s.2;
  pr_block ptr size : ah_blocks h !! ptr = Some size → ∃ n, blk_at R (ptr - 16) n false ∧ size ≤ n;
  pr_used a n : blk_at R a n false → is_Some (ah_blocks h !! (a + 16));
  pr_data x v : ah_data h !! x = Some v → owned h x ∧ peek s.2 x = v;
}.

(** What an owner owns is in a used block. *)
Lemma owned_used s h R L x : pool_rep s h R L → owned h x → used_cell R x.
Proof.
  intros HR (ptr & size & Hp & Hx). destruct (pr_block _ _ _ _ HR _ _ Hp) as (n & Hb & Hn).
  exists (ptr - 16), n. split; [done|lia].
Qed.

Lemma used_acc s h R L x : pool_rep s h R L → used_cell R x → acc s.2 x.
Proof.
  intros HR (a & n & Ha & Hx). apply (pi_acc _ _ _ _ _ _ (pr_inv _ _ _ _ HR)).
  eapply (blk_in_regions R a n false); [apply (pi_wf _ _ _ _ _ _ (pr_inv _ _ _ _ HR))|done|lia].
Qed.

(** ** Each call *)

Lemma owns_extends P (w : world H) p' w' R R' L' :
  w_held w ⊆ w_held w' → extends w w' R R' → inv p' w' R' L' → owns P w R → owns P w' R'.
Proof.
  intros Hh [E1 E2 E3] HI [O1 O2]. split; intros x.
  - split; [intros [[?|?]%O1|?]%E3; auto|]. intros [Hx|Hx]; [apply Hh, O1; by left|by apply (pi_acc _ _ _ _ _ _ HI)].
  - intros Hx. apply E1; [apply O1; by left|by apply O2].
Qed.

Lemma owns_freed P p' (w w' : world H) R R' L' :
  (∀ x, acc w' x ↔ acc w x ∧ (in_regions R x → in_regions R' x)) → (∀ x, in_regions R' x → in_regions R x) →
  inv p' w' R' L' → owns P w R → owns P w' R'.
Proof.
  intros Ha Hr HI [O1 O2]. split; intros x.
  - rewrite Ha, O1. split; [intros [[?|?] ?]; auto|]. intros [Hx|Hx]; [|auto]. split; [by left|]. intros Hin. by apply O2 in Hin.
  - intros Hx Hin%Hr. by apply (O2 x).
Qed.

Lemma pool_alloc_step s h R L size align :
  pool_rep s h R L → 0 ≤ size ≤ 2 ^ 28 → (align | 16) →
  ∃ res s' R' L', pool_step (HAlloc size align) s = Ok (res, s') ∧ heap_allows h (HAlloc size align) res ∧
    pool_rep s' (heap_next h (HAlloc size align) res) R' L' ∧ ∀ P, owns P s.2 R → owns P s'.2 R'.
Proof using PM.
  intros HR Hs Hal. destruct s as [p w]. destruct (xmem_pool_alloc_spec sizes granted wok get_mem put_mem p w R L size (pr_inv _ _ _ _ HR) (pr_ready _ _ _ _ HR)
    (pr_wok _ _ _ _ HR) ltac:(lia) (request_small size Hs)) as (ptr & p' & w' & R' & L' & Hrun & HI' & Hrd & Hw' & [Hh Hk] & Hext & _ & _ & _ & Hor).
  assert (∀ x v, ah_data h !! x = Some v → owned h x ∧ peek w' x = v) as Hdata.
  { intros x v Hx. destruct (pr_data _ _ _ _ HR x v Hx) as [Ho <-]. split; [done|]. pose proof (owned_used _ _ _ _ _ HR Ho) as Hu.
    apply Hk; [by apply (used_acc (p, w) h R L)|by right]. }
  cbn [pool_step]. rewrite Hrun. cbn [mbind outcome_bind]. eexists _, _, R', L'. split; [done|].
  apply Logic.and_assoc. split; [|intros P; by eapply owns_extends].
  destruct Hor as [(-> & Hsame & _)|(b & n & -> & Hn & Hused & Hnb)].
  - split; [by left|]. cbn [heap_next Z.eqb]. destruct HR as [A1 A2 A3 A4 A5 A6]. split; try done.
    + intros ptr sz Hp. destruct (A4 ptr sz Hp) as (n & Hb & Hle). exists n. split; [by apply Hsame|done].
    + intros a n Ha. apply (A5 a n). by apply Hsame.
  - pose proof (pi_wf _ _ _ _ _ _ HI') as HW'. assert (blk_at R' b n false) as Hbn by (apply Hused; auto).
    destruct (blk_facts R' HW' _ _ _ Hbn) as (Db & Hb0 & _ & Hn'). destruct (rounded_ge size ltac:(lia)) as [Hge _].
    destruct (request_spec size ltac:(lia)) as (_ & _ & Hreq). unfold buffer in *. change BHDR_OVERHEAD with 16 in *.
    assert (ah_blocks h !! (b + 16) = None) as Hnone.
    { destruct (ah_blocks h !! (b + 16)) as [sz|] eqn:E; [|done]. destruct (pr_block _ _ _ _ HR _ _ E) as (n' & Hb' & _).
      replace (b + 16 - 16) with b in Hb' by lia. exfalso. by apply (Hnb n'). }
    assert (fresh_block h (b + 16) size align) as Hfresh.
    { split; [lia|]. split; [by apply Z.divide_add_r; [|exists 1]|]. split; [etrans; [exact Hal|]; by apply Z.divide_add_r; [|exists 1]|].
      split; [done|]. intros ptr' sz' Hp. destruct (pr_block _ _ _ _ HR _ _ Hp) as (n' & Hb' & Hle).
      assert (ptr' - 16 ≠ b) by (intros E; rewrite E in Hb'; by apply (Hnb n')).
      destruct (blk_disj R' HW' _ _ _ _ _ _ Hbn (proj2 (Hused _ _) (or_intror Hb'))) as [(? & _)|Hd]; [congruence|]. lia. }
    split; [by right|]. cbn [heap_next]. rewrite (proj2 (Z.eqb_neq _ _)) by lia.
    destruct HR as [A1 A2 A3 A4 A5 A6]. split; try done; cbn [ah_blocks ah_data].
    + intros ptr sz [[<- <-]|[Hne Hp]]%lookup_insert_Some.
      * exists n. replace (b + 16 - 16) with b by lia. split; [done|lia].
      * destruct (A4 ptr sz Hp) as (n' & Hb' & Hle). exists n'. split; [apply Hused; auto|done].
    + intros a n' [[-> ->]|Ha]%Hused; [rewrite lookup_insert_eq; by eexists|]. destruct (A5 a n' Ha) as [sz Hsz].
      destruct (decide (a = b)) as [-> |Hne]; [rewrite lookup_insert_eq; by eexists|]. rewrite lookup_insert_ne by lia. by eexists.
    + intros x v Hx. destruct (Hdata x v Hx) as [(ptr & sz & Hp & Ho) Hv]. split; [|done]. exists ptr, sz. split; [|done].
      simpl. rewrite lookup_insert_ne; [done|congruence].
Qed.

Lemma pool_free_step s h R L ptr :
  pool_rep s h R L → ptr = 0 ∨ is_Some (ah_blocks h !! ptr) →
  ∃ s' R' L', pool_step (HFree ptr) s = Ok (0, s') ∧ pool_rep s' (heap_next h (HFree ptr) 0) R' L' ∧
    ∀ P, owns P s.2 R → owns P s'.2 R'.
Proof using PM.
  intros HR Hv. destruct s as [p w]. destruct (decide (ptr = 0)) as [-> |Hne].
  { exists (p, w), R, L. split; [done|]. split; [|done]. cbn [heap_next]. destruct (ah_blocks h !! 0) as [sz|] eqn:E; [|done].
    destruct (pr_block _ _ _ _ HR _ _ E) as (n & Hb & _). destruct (blk_facts R (pi_wf _ _ _ _ _ _ (pr_inv _ _ _ _ HR)) _ _ _ Hb) as (_ & ? & _). lia. }
  destruct Hv as [|[size Hp]]; [done|]. destruct (pr_block _ _ _ _ HR _ _ Hp) as (n & Hb & Hn).
  destruct (xmem_pool_free_spec sizes granted wok get_mem put_mem p w R L _ n (pr_inv _ _ _ _ HR) (pr_wok _ _ _ _ HR) Hb)
    as (p' & w' & R' & L' & Hrun & HI' & Hw' & Hused & Hk & Hh & Hacc & Hreg & _ & _ & _ & Hir).
  unfold buffer in Hrun. change BHDR_OVERHEAD with 16 in Hrun. replace (ptr - 16 + 16) with ptr in Hrun by lia.
  exists (p', w'), R', L'. cbn [pool_step]. rewrite Hrun. split; [done|]. split; [|intros P; by eapply owns_freed]. cbn [heap_next]. rewrite Hp.
  pose proof (pi_wf _ _ _ _ _ _ (pr_inv _ _ _ _ HR)) as HW.
  split; cbn [ah_blocks ah_data fst snd]; [done| |done| | |].
  - intros E. exfalso. cbn [fst] in E. rewrite Hir in E. pose proof (pr_ready _ _ _ _ HR E) as E'. rewrite E' in Hb.
    destruct Hb as (r & l & Hl & _). by rewrite lookup_empty in Hl.
  - intros q sz [Hqne Hq]%lookup_delete_Some. destruct (pr_block _ _ _ _ HR _ _ Hq) as (n' & Hb' & Hle). exists n'. split; [|done].
    apply Hused. split; [done|lia].
  - intros a n' [Ha Hane]%Hused. destruct (pr_used _ _ _ _ HR a n' Ha) as [sz Hsz]. exists sz. apply lookup_delete_Some. split; [lia|done].
  - intros x v [Hx Hout]%map_lookup_filter_Some. cbn [fst] in Hout. destruct (pr_data _ _ _ _ HR x v Hx) as [(q & sz & Hq & Ho) <-].
    assert (q ≠ ptr) as Hqne by (intros ->; rewrite Hp in Hq; injection Hq as <-; lia).
    assert (owned (mk_aheap (delete ptr (ah_blocks h)) (forget ptr size (ah_data h))) x) as Hown.
    { exists q, sz. cbn [ah_blocks]. rewrite lookup_delete_ne by congruence. done. }
    split; [done|]. destruct (pr_block _ _ _ _ HR _ _ Hq) as (n' & Hb' & Hle).
    assert (blk_at R' (q - 16) n' false) as Hb2 by (apply Hused; split; [done|lia]).
    apply Hk.
    + apply (pi_acc _ _ _ _ _ _ HI'). eapply (blk_in_regions R'); [apply (pi_wf _ _ _ _ _ _ HI')|exact Hb2|lia].
    + right. exists (q - 16), n'. split; [done|lia].
    + destruct (blk_disj R HW _ _ _ _ _ _ Hb' Hb) as [(? & _)|Hd]; [lia|]. lia.
Qed.

Lemma pool_step_spec s h R L op :
  pool_rep s h R L → pool_valid h op →
  ∃ res s' R' L', pool_step op s = Ok (res, s') ∧ heap_allows h op res ∧ pool_rep s' (heap_next h op res) R' L' ∧
    ∀ P, owns P s.2 R → owns P s'.2 R'.
Proof using PM.
  intros HR [Hv Hp]. destruct op as [size align|size align|ptr|x v|x]; cbn [heap_valid] in Hv.
  - destruct Hp as [? ?]. apply (pool_alloc_step s h R L); [done|lia|done].
  - done.
  - destruct (pool_free_step s h R L ptr HR Hv) as (s' & R' & L' & Hrun & HR'). by exists 0, s', R', L'.
  - destruct s as [p w], Hv as [_ Ho]. pose proof (owned_used _ _ _ _ _ HR Ho) as Hu.
    cbn [pool_step]. rewrite wr_ok by (by apply (used_acc (p, w) h R L)). cbn [mbind outcome_bind]. eexists _, _, R, L. split; [done|]. split; [done|].
    split; [|intros P [O1 O2]; by split].
    destruct HR as [A1 A2 A3 A4 A5 A6]. split; cbn [fst snd ah_blocks ah_data heap_next]; try done.
    + apply (inv_write sizes granted); [done|by right].
    + by apply (pm_frame w).
    + intros y u [[<- <-]|[Hne Hy]]%lookup_insert_Some; [split; [done|apply peek_poke]|].
      rewrite peek_poke_ne by done. by apply A6.
  - destruct s as [p w], Hv as [_ Ho]. pose proof (owned_used _ _ _ _ _ HR Ho) as Hu.
    cbn [pool_step]. rewrite rd_ok by (by apply (used_acc (p, w) h R L)). cbn [mbind outcome_bind]. eexists _, _, R, L. split; [done|].
    split; [|done]. intros v Hx. by destruct (pr_data _ _ _ _ HR x v Hx).
Qed.

(** A pool that was just created. *)
Definition new_pool (init max grow : Z) : xmem_pool := mk_pool 0 ∅ ∅ init max grow 0 0 0.

Lemma new_pool_rep init max grow w :
  wok w → sizes init → sizes grow → pool_rep (new_pool init max grow, w) empty_heap ∅ ∅.
Proof.
  intros Hw Hi Hg. split; [|done|done|done| |done].
  - split; try done.
    + split; try done.
      * split; [by split; vm_compute|by split; vm_compute|intros fl _; apply Z.bits_0|]. intros fl sl _. unfold nonempty. rewrite bool_decide_eq_true_2 by done. apply Z.bits_0.
      * intros c. constructor.
      * intros ??? []%elem_of_nil.
      * intros ??? []%elem_of_nil.
      * intros ?? []%elem_of_nil.
    + intros fl sl a. split; [intros []%elem_of_nil|]. intros (s & (r & l & Hl & _) & _). by rewrite lookup_empty in Hl.
    + intros x (r & l & Hl & _). by rewrite lookup_empty in Hl.
  - intros a n (r & l & Hl & _). by rewrite lookup_empty in Hl.
Qed.

Lemma pool_history_owns P s h R L l s' h' :
  pool_rep s h R L → owns P s.2 R → history pool_step pool_valid s h l s' h' →
  allowed h l ∧ ∃ R' L', pool_rep s' h' R' L' ∧ owns P s'.2 R'.
Proof using PM.
  intros HR HO. apply (history_allowed pool_step pool_valid (λ s h, ∃ R L, pool_rep s h R L ∧ owns P s.2 R)); [|eauto].
  intros s0 h0 op (R0 & L0 & HR0 & HO0) Hv. destruct (pool_step_spec s0 h0 R0 L0 op HR0 Hv) as (res & s1 & R1 & L1 & ? & ? & ? & ?). eauto 10.
Qed.

Lemma new_pool_owns (w : world H) : owns (w_held w) w ∅.
Proof.
  assert (∀ x, ¬ in_regions ∅ x) as He by (intros x (r & l & Hl & _); by rewrite lookup_empty in Hl).
  split; intros x; [|intros _; apply He]. split; [by left|]. intros [?|?%He]; done.
Qed.

Lemma pool_history_rep init max grow w l s h :
  wok w → sizes init → sizes grow → history pool_step pool_valid (new_pool init max grow, w) empty_heap l s h →
  allowed empty_heap l ∧ ∃ R L, pool_rep s h R L ∧ owns (w_held w) s.2 R.
Proof using PM. intros Hw Hi Hg. apply (pool_history_owns _ _ _ ∅ ∅); [by apply new_pool_rep|apply new_pool_owns]. Qed.

(** ** The theorems *)

(** C7: whatever pages its callbacks give it, a pool is an allocator: in every
    history of allocations, frees and accesses by the owners of blocks, blocks
    are aligned and never overlap, and each keeps what its owner wrote until it
    is freed; no valid call touches memory that is not held, follows a wild
    pointer or goes out of bounds of the lists. *)
Theorem xmem_pool_refines init max grow w l s h :
  wok w → sizes init → sizes grow →
  history pool_step pool_valid (new_pool init max grow, w) empty_heap l s h →
  allowed empty_heap l ∧
  ∀ op, pool_valid h op → ∃ res s', pool_step op s = Ok (res, s') ∧ heap_allows h op res.
Proof using PM.
  intros Hw Hi Hg Hh. destruct (pool_history_rep init max grow w l s h Hw Hi Hg Hh) as [Ha (R & L & HR & _)].
  split; [done|]. intros op Hv. destruct (pool_step_spec s h R L op HR Hv) as (res & s' & _ & _ & ? & ? & _). eauto.
Qed.

(** C17: an allocation from a pool without a limit succeeds, after growing the
    pool at most twice, whenever the callback can give memory and the request,
    rounded up to its list, fits in a region. *)
Theorem xmem_pool_alloc_succeeds s h R L size :
  pool_rep s h R L → max_size s.1 = 0 →
  (∀ n w, wok w → sizes n → ∃ r w', get_mem n w = Ok (r, w') ∧ r ≠ 0) →
  0 ≤ size ≤ 2 ^ 28 → rounded (request size) ≤ grow_size s.1 - 32 →
  ∃ ptr p' w', xmem_pool_alloc get_mem size s.1 s.2 = Ok (ptr, p', w') ∧ ptr ≠ 0.
Proof using PM.
  intros HR Hmax Hmem Hs Hfit. destruct s as [p w]. cbn [fst snd] in *.
  pose proof (pr_inv _ _ _ _ HR) as HI. pose proof (pr_wok _ _ _ _ HR) as Hw. destruct (pi_sizes _ _ _ _ _ _ HI) as [Hsi Hsg]. cbn [fst snd] in *.
  destruct (xmem_pool_alloc_spec sizes granted wok get_mem put_mem p w R L size HI (pr_ready _ _ _ _ HR) Hw ltac:(lia) (request_small size Hs))
    as (ptr & p' & w' & R' & L' & Hrun & HI' & _ & _ & _ & _ & _ & _ & _ & Hor).
  exists ptr, p', w'. split; [done|]. destruct Hor as [(-> & _ & Hfail)|(b & n & -> & _ & Hused & _)].
  - exfalso. destruct Hfail as [[_ (w1 & E)]|(p1 & w1 & Hrun1 & Hcg)].
    { destruct (Hmem (init_size p) w Hw Hsi) as (r & w2 & E2 & Hr). congruence. }
    destruct (init_pool_spec sizes granted wok get_mem put_mem p w R L HI (pr_ready _ _ _ _ HR) Hw)
      as [(w2 & E & _)|(p2 & w2 & R2 & L2 & E & HI2 & Hw2 & _ & _ & _ & _ & S2 & S3 & _)]; [congruence|].
    rewrite Hrun1 in E. injection E as <- <-. destruct Hcg as [Hbig|[[Hm _]|(w3 & E3)]]; [lia|congruence|].
    rewrite S3 in E3. destruct (Hmem (grow_size p) w1 Hw2 Hsg) as (r & w4 & E4 & Hr). congruence.
  - destruct (blk_facts R' (pi_wf _ _ _ _ _ _ HI') b n false ltac:(apply Hused; auto)) as (_ & ? & _). unfold buffer. change BHDR_OVERHEAD with 16. lia.
Qed.

(** The pool's count of used bytes leaks nothing: when a history has freed
    all it allocated, only the sentinels of the regions still held are counted
    as used, and each such region is one free block. *)
Theorem xmem_pool_no_leak init max grow w l s h :
  wok w → sizes init → sizes grow →
  history pool_step pool_valid (new_pool init max grow, w) empty_heap l s h → ah_blocks h = ∅ →
  ∃ R L, pool_rep s h R L ∧ (∀ r bs, R !! r = Some bs → ∃ n, bs = [(n, true)]) ∧
    num_regions s.1 = u64 (Z.of_nat (size R)) ∧ xmem_pool_get_used_size s.1 = u64 (BHDR_OVERHEAD * num_regions s.1).
Proof using PM.
  intros Hw Hi Hg Hh Hemp. destruct (pool_history_rep init max grow w l s h Hw Hi Hg Hh) as [_ (R & L & HR & _)].
  exists R, L. split; [done|]. pose proof (pr_inv _ _ _ _ HR) as HI.
  destruct (free_regions R (pi_wf _ _ _ _ _ _ HI)) as [Hone Hsum].
  { intros a n Ha. destruct (pr_used _ _ _ _ HR a n Ha) as [? E]. by rewrite Hemp, lookup_empty in E. }
  split; [done|]. split; [apply HI|]. unfold xmem_pool_get_used_size. rewrite (pi_used _ _ _ _ _ _ HI), (pi_num _ _ _ _ _ _ HI), Hsum.
  unfold u64. by rewrite Z.mul_mod_idemp_r.
Qed.

(** C33: the memory of a pool after any history: what is held is what was held
    before and, apart from it, the pool's regions; in memory, from the start of
    each region, the headers tile it with blocks up to its sentinel, sizes,
    flags and back pointers included, with no two free neighbours; the used
    blocks are the blocks handed out and not freed, each as large as asked for;
    the counters count the regions and the bytes in use; the bitmaps and the
    lists index exactly the free blocks, each on the list of its class. *)
Theorem xmem_pool_structure init max grow w l s h :
  wok w → sizes init → sizes grow →
  history pool_step pool_valid (new_pool init max grow, w) empty_heap l s h →
  ∃ R : regions, owns (w_held w) s.2 R ∧ regions_wf R ∧ hdrs_all s.2 R ∧
    (∀ ptr size, ah_blocks h !! ptr = Some size → ∃ n, blk_at R (ptr - 16) n false ∧ size ≤ n) ∧
    (∀ a n, blk_at R a n false → is_Some (ah_blocks h !! (a + 16))) ∧
    num_regions s.1 = u64 (Z.of_nat (size R)) ∧ xmem_pool_get_used_size s.1 = u64 (rsum R) ∧
    indexed s.1 s.2 R.
Proof using PM.
  intros Hw Hi Hg Hh. destruct (pool_history_rep init max grow w l s h Hw Hi Hg Hh) as [_ (R & L & HR & HO)].
  pose proof (pr_inv _ _ _ _ HR) as HI. exists R. split; [done|]. split; [apply HI|]. split; [apply HI|].
  split; [apply HR|]. split; [apply HR|]. split; [apply HI|]. split; [apply HI|]. by eapply inv_indexed.
Qed.
End pool.

(** C39: a request for [2 ^ 30] bytes or more and less than [2 ^ 35], to a pool
    that has its first region, reads past the end of the pool's second-level
    bitmaps: the mapping gives a first-level index that no check bounds. *)
Theorem xmem_pool_alloc_huge {H} get_mem size p (w : world H) :
  2 ^ MAX_FLI ≤ size < 2 ^ 35 → init_region p ≠ 0 → xmem_pool_alloc get_mem size p w = Bug.
Proof.
  intros Hs Hi. unfold xmem_pool_alloc, init_pool. rewrite (proj2 (Z.eqb_neq _ _)) by done. cbn [mbind outcome_bind].
  change MAX_FLI with 30 in Hs. fold (request size). destruct (request_spec size ltac:(lia)) as (Hd & Hr & Hle). cbn [find_block].
  destruct (MAPPING_SEARCH (request size)) as [[q fl] sl] eqn:E.
  destruct (mapping_search_spec _ _ _ _ Hd Hr E) as (Hge & _ & Eq & Hf & Hsl & _).
  assert (REAL_FLI ≤ fl) as Hfl.
  { destruct (decide (REAL_FLI ≤ fl)) as [|Hn]; [done|]. pose proof (class_lt fl sl REAL_FLI 0 Hf Hsl ltac:(lia)) as Hlt.
    pose proof (class_width_pos fl Hf). change (class_lb REAL_FLI 0) with (2 ^ 30) in Hlt. unfold class_le in Hlt. lia. }
  unfold FIND_SUITABLE_BLOCK, sl_of. rewrite (proj2 (Z.ltb_ge fl REAL_FLI)) by done. by rewrite andb_false_r.
Qed.

(** ** A memory of pages

    Pages are handed out in ascending order of address and not reused. *)

Definition page_get (size : Z) (w : world Z) : outcome (Z * world Z) :=
  let a := w_heap w * PAGE_SIZE in
  Ok (a, mk_world (w_mem w) (w_held w ∪ pages_of a size) (w_heap w + 1)).
Definition page_put (a : Z) (w : world Z) : outcome (world Z) :=
  Ok (mk_world (w_mem w) (w_held w ∖ pages_of a PAGE_SIZE) (w_heap w)).
Definition page_ok (w : world Z) : Prop := 0 < w_heap w ∧ ∀ pg, pg ∈ w_held w → pg < w_heap w.
Definition page_sizes (n : Z) : Prop := n = PAGE_SIZE.
Definition page_granted (r n : Z) : Prop := n = PAGE_SIZE.

Lemma one_page k : pages_of (k * PAGE_SIZE) PAGE_SIZE = {[k]}.
Proof.
  unfold pages_of. rewrite Z.div_mul, Z.div_same by done. apply set_eq. intros x.
  rewrite elem_of_list_to_set, elem_of_seqZ, elem_of_singleton. lia.
Qed.

#[export] Instance page_memory : PoolMemory page_ok page_get page_put page_sizes page_granted.
Proof.
  split.
  - intros n w [Hp Hh] ->. eexists _, _. split; [done|]. rewrite one_page. split; [|split; [done|right]].
    + split; simpl; [lia|]. intros pg [Hpg| ->%elem_of_singleton]%elem_of_union; [apply Hh in Hpg|]; lia.
    + split; [change PAGE_SIZE with 4096; lia|]. split; [by exists (w_heap w)|]. split; [done|]. split; [|done].
      intros pg ->%elem_of_singleton Hpg%Hh. lia.
  - intros r n w [Hp Hh] -> _. eexists. split; [done|]. split; [|done]. split; [done|]. cbn [w_held]. intros pg [Hpg _]%elem_of_difference. by apply Hh.
  - intros w w' E1 E2. unfold page_ok. by rewrite E1, E2.
  - intros n ->. split; [by exists 1|]. change PAGE_SIZE with 4096. change MAX_FLI with 30. lia.
Qed.

Definition ex_world : world Z := mk_world (<[20480 := 77]> (<[20488 := 99]> ∅)) ∅ 5.

Lemma ex_world_ok : page_ok ex_world.
Proof. split; [done|]. intros pg Hpg. by apply elem_of_empty in Hpg. Qed.

(** Two blocks, the first of which is written, freed and reused. *)
Definition ex_calls : list (heap_op * Z) :=
  [(HAlloc 100 16, 20496); (HAlloc 200 16, 20624); (HWrite 20504 42, 0); (HWrite 20624 7, 0); (HRead 20504, 42);
   (HFree 20496, 0); (HAlloc 50 16, 20496); (HRead 20624, 7); (HAlloc 5000 16, 0); (HFree 20624, 0); (HFree 20496, 0); (HFree 0, 0)].

Definition pool_valid_b (h : aheap) (op : heap_op) : bool :=
  heap_valid_b h op &&
  match op with
  | HAlloc size align => (size <=? 2 ^ 28) && (16 mod align =? 0) && (0 <? align)
  | HZalloc _ _ => false
  | _ => true
  end.

Lemma pool_valid_b_sound h op : pool_valid_b h op = true → pool_valid h op.
Proof.
  intros [Hv Hp]%andb_true_iff. split; [by apply heap_valid_b_sound|]. destruct op as [size align|size align| | |]; try done.
  b2p. split; [done|]. by apply Z.mod_divide; [lia|].
Qed.

Lemma ex_calls_run : ∃ s h, history (pool_step page_get page_put) pool_valid (new_pool PAGE_SIZE 0 PAGE_SIZE, ex_world) empty_heap ex_calls s h ∧ ah_blocks h = ∅.
Proof.
  destruct (run_test_history (pool_step page_get page_put) pool_valid pool_valid_b pool_valid_b_sound (λ _ h, bool_decide (ah_blocks h = ∅))
    ex_calls (new_pool PAGE_SIZE 0 PAGE_SIZE, ex_world)) as (s & h & Hh & He); [vm_compute; reflexivity|].
  exists s, h. split; [exact Hh|]. by apply bool_decide_eq_true in He.
Qed.

Lemma xmem_pool_refines_witness :
  ∃ s h, allowed empty_heap ex_calls ∧
    ∀ op, pool_valid h op → ∃ res s', pool_step page_get page_put op s = Ok (res, s') ∧ heap_allows h op res.
Proof.
  destruct ex_calls_run as (s & h & Hh & _). exists s, h.
  exact (xmem_pool_refines page_sizes page_granted page_ok page_get page_put PAGE_SIZE 0 PAGE_SIZE ex_world ex_calls s h ex_world_ok eq_refl eq_refl Hh).
Defined.

Lemma xmem_pool_alloc_succeeds_witness :
  ∃ ptr p' w', xmem_pool_alloc page_get 100 (new_pool PAGE_SIZE 0 PAGE_SIZE) ex_world = Ok (ptr, p', w') ∧ ptr ≠ 0.
Proof.
  apply (xmem_pool_alloc_succeeds page_sizes page_granted page_ok page_get page_put
    (new_pool PAGE_SIZE 0 PAGE_SIZE, ex_world) empty_heap ∅ ∅ 100).
  - apply new_pool_rep; [exact ex_world_ok|done|done].
  - done.
  - intros n w [Hw _] _. eexists _, _. split; [reflexivity|]. change PAGE_SIZE with 4096. lia.
  - lia.
  - by vm_compute.
Defined.

Lemma xmem_pool_no_leak_witness :
  ∃ s h R L, pool_rep page_sizes page_granted page_ok s h R L ∧ num_regions s.1 = u64 (Z.of_nat (size R)).
Proof.
  destruct ex_calls_run as (s & h & Hh & He). exists s, h.
  destruct (xmem_pool_no_leak page_sizes page_granted page_ok page_get page_put PAGE_SIZE 0 PAGE_SIZE ex_world ex_calls s h
    ex_world_ok eq_refl eq_refl Hh He) as (R & L & HR & _ & Hn & _).
  by exists R, L.
Defined.

Lemma xmem_pool_alloc_huge_witness :
  xmem_pool_alloc page_get (2 ^ 30) (mk_pool 0 ∅ ∅ PAGE_SIZE 0 PAGE_SIZE 0 0 4096) ex_world = Bug.
Proof. apply (xmem_pool_alloc_huge page_get (2 ^ 30)); [change MAX_FLI with 30; lia|done]. Defined.

Lemma xmem_pool_structure_witness :
  ∃ s h R, history (pool_step page_get page_put) pool_valid (new_pool PAGE_SIZE 0 PAGE_SIZE, ex_world) empty_heap ex_calls s h ∧
    owns ∅ s.2 R ∧ hdrs_all s.2 R ∧ indexed s.1 s.2 R.
Proof.
  destruct ex_calls_run as (s & h & Hh & _). exists s, h.
  destruct (xmem_pool_structure page_sizes page_granted page_ok page_get page_put PAGE_SIZE 0 PAGE_SIZE ex_world ex_calls s h
    ex_world_ok eq_refl eq_refl Hh) as (R & HO & _ & Hd & _ & _ & _ & _ & Hx).
  exists R. split; [exact Hh|]. split; [exact HO|]. split; [exact Hd|exact Hx].
Defined.
