(* ===== verification/Xmalloc.v ===== *)
(** * [xmalloc] and [xfree] (xen/common/xmalloc_tlsf.c, xen/include/xen/xmalloc.h)

    Pools are created and destroyed, and [xmalloc] serves small requests from
    one pool that grows by pages of the Xen heap and large ones from whole pages
    of it. The Xen heap is given by its two functions, on a state of any type;
    what fresh pages contain is arbitrary. *)

From S2P Require Import Prelude BootMem PageAlloc Tlsf.
Local Open Scope xen_scope.

Definition UINT_MAX : Z := 2 ^ 32 - 1.
Definition PAGE_ALIGN (x : Z) : Z := Z.ldiff (u64 (x + PAGE_SIZE - 1)) (PAGE_SIZE - 1).

Section xmalloc.
Context {H : Type}.

(** [alloc_xenheap_pages(order, 0)] gives an address or [NULL];
    [free_xenheap_pages(v, order)]. *)
Variable alloc_xenheap_pages : Z → H → outcome (Z * H).
Variable free_xenheap_pages : Z → Z → H → outcome H.

(** The contents of pages that were just allocated. *)
Variable junk : H → gmap Z Z.

(** [sizeof(struct xmem_pool)], and whether an interrupt is being handled. *)
Variable sizeof_pool : Z.
Variable in_irq : bool.

Definition get_pages (order : Z) (w : world H) : outcome (Z * world H) :=
  let! (a, h) := alloc_xenheap_pages order (w_heap w) in
  if a =? 0 then Ok (0, mk_world (w_mem w) (w_held w) h)
  else
    let pages := pages_of a (Z.shiftl PAGE_SIZE order) in
    Ok (a, mk_world (filter (λ c, c.1 / PAGE_SIZE ∈ pages) (junk h) ∪
                     filter (λ c, c.1 / PAGE_SIZE ∉ pages) (w_mem w))
             (w_held w ∪ pages) h).

(** Freeing a page that is not held is a [Bug]. *)
Definition put_pages (a order : Z) (w : world H) : outcome (world H) :=
  let pages := pages_of a (Z.shiftl PAGE_SIZE order) in
  if bool_decide (pages ⊆ w_held w) then
    let! h := free_xenheap_pages a order (w_heap w) in
    Ok (mk_world (w_mem w) (w_held w ∖ pages) h)
  else Bug.

(** ** Pools *)

(** The pools by address, [pool_list_head] and [xenpool]. *)
Record xmstate := mk_xmstate {
  x_world : world H;
  x_pools : gmap Z xmem_pool;
  x_list : list Z;
  x_xenpool : Z;
}.

Definition set_world (w : world H) (s : xmstate) : xmstate := mk_xmstate w (x_pools s) (x_list s) (x_xenpool s).
Definition set_pool (a : Z) (p : xmem_pool) (w : world H) (s : xmstate) : xmstate :=
  mk_xmstate w (<[a := p]> (x_pools s)) (x_list s) (x_xenpool s).

Definition pool_order : Z := get_order_from_bytes (ROUNDUP_SIZE sizeof_pool).

Definition xmem_pool_create (init_size max_size grow_size : Z) (s : xmstate) : outcome (Z * xmstate) :=
  BUG_ON (negb (max_size =? 0) && (max_size <? init_size))
    (let! (pool, w) := get_pages pool_order (x_world s) in
     if pool =? 0 then Ok (0, set_world w s)
     else
       let p := mk_pool 0 ∅ ∅ (ROUNDUP_PAGE init_size) (ROUNDUP_PAGE max_size) (ROUNDUP_PAGE grow_size) 0 0 0 in
       Ok (pool, mk_xmstate w (<[pool := p]> (x_pools s)) (x_list s ++ [pool]) (x_xenpool s))).

Definition xmem_pool_get_total_size (p : xmem_pool) : Z :=
  u64 (ROUNDUP_SIZE sizeof_pool + init_size p + (num_regions p - 1) * grow_size p).

(** The message about a leak is not modelled. *)
Definition xmem_pool_destroy (pool : Z) (s : xmstate) : outcome xmstate :=
  if pool =? 0 then Ok s
  else
    deref (x_pools s !! pool) (λ p,
      BUG_ON ((xmem_pool_get_used_size p =? BHDR_OVERHEAD) && negb (init_region p =? 0))
        (let! w := put_pages pool pool_order (x_world s) in
         Ok (mk_xmstate w (delete pool (x_pools s)) (filter (λ a, a ≠ pool) (x_list s)) (x_xenpool s)))).

(** ** Glue *)

Definition xmalloc_pool_get (size : Z) (w : world H) : outcome (Z * world H) :=
  BUG_ON (negb (size =? PAGE_SIZE)) (get_pages 0 w).

Definition xmalloc_pool_put (p : Z) (w : world H) : outcome (world H) := put_pages p 0 w.

(** Give back the pages behind the size, from [p] on: [l] is what is left of
    the orders below [pageorder]. *)
Fixpoint trim_pages (l : list Z) (p : Z) (w : world H) : outcome (world H) :=
  match l with
  | [] => Ok w
  | i :: l' =>
      if negb (Z.land p (Z.shiftl PAGE_SIZE i) =? 0) then
        let! w1 := put_pages p i w in trim_pages l' (p + Z.shiftl PAGE_SIZE i) w1
      else trim_pages l' p w
  end.

Definition xmalloc_whole_pages (size : Z) (w : world H) : outcome (Z * world H) :=
  let pageorder := get_order_from_bytes (u64 (size + BHDR_OVERHEAD)) in
  let! (b, w1) := get_pages pageorder w in
  if b =? 0 then Ok (0, w1)
  else
    let bsize := u32 (PAGE_ALIGN (u64 (size + BHDR_OVERHEAD))) in
    let! w2 := wr (a_size b) bsize w1 in
    let! w3 := trim_pages (seqZ 0 pageorder) (b + bsize) w2 in
    Ok (buffer b, w3).

Definition tlsf_init (s : xmstate) : outcome xmstate :=
  let! (pool, s1) := xmem_pool_create PAGE_SIZE 0 PAGE_SIZE
                       (mk_xmstate (x_world s) (x_pools s) [] (x_xenpool s)) in
  BUG_ON (pool =? 0) (Ok (mk_xmstate (x_world s1) (x_pools s1) (x_list s1) pool)).

(** ** [xmalloc] *)

(** [xmem_pool_alloc(size, xenpool)] *)
Definition xenpool_alloc (size : Z) (s : xmstate) : outcome (Z * xmstate) :=
  deref (x_pools s !! x_xenpool s) (λ p,
    let! (a, p', w) := xmem_pool_alloc xmalloc_pool_get size p (x_world s) in
    Ok (a, set_pool (x_xenpool s) p' w s)).

(** Alignment padding: a header in front of the aligned address that has the
    padding with the lowest bit set. *)
Definition add_padding (p align : Z) (w : world H) : outcome (Z * world H) :=
  let pad := u32 (Z.land (- p) (align - 1)) in
  if negb (pad =? 0) then
    let q := p + pad in
    BUG_ON (negb (p <? q))
      (let! w1 := wr (a_size (q - BHDR_OVERHEAD)) (Z.lor pad 1) w in Ok (q, w1))
  else Ok (p, w).

Definition _xmalloc (size align : Z) (s : xmstate) : outcome (Z * xmstate) :=
  BUG_ON in_irq
    (BUG_ON (negb (Z.land align (align - 1) =? 0))
      (let align := if align <? MEM_ALIGN then MEM_ALIGN else align in
       let size := u64 (size + (align - MEM_ALIGN)) in
       let! s := (if x_xenpool s =? 0 then tlsf_init s else Ok s) in
       let! (p, s) := (if size <? PAGE_SIZE then xenpool_alloc size s else Ok (0, s)) in
       let! (p, s) :=
         (if p =? 0 then let! (p, w) := xmalloc_whole_pages size (x_world s) in Ok (p, set_world w s)
          else Ok (p, s)) in
       let! (p, w) := add_padding p align (x_world s) in
       BUG_ON (negb (Z.land p (align - 1) =? 0)) (Ok (p, set_world w s)))).

(** [memset(p, 0, size)] on cells; the last one may be cleared in part. *)
Fixpoint zero_cells (n : nat) (x : Z) (w : world H) : outcome (world H) :=
  match n with
  | O => Ok w
  | S n' => let! w1 := wr x 0 w in zero_cells n' (x + 8) w1
  end.

Definition memset0 (p size : Z) (w : world H) : outcome (world H) :=
  let! w1 := zero_cells (Z.to_nat (size / 8)) p w in
  if size mod 8 =? 0 then Ok w1
  else
    let x := p + 8 * (size / 8) in
    let! v := rd x w1 in wr x (Z.ldiff v (Z.ones (8 * (size mod 8)))) w1.

Definition _xzalloc (size align : Z) (s : xmstate) : outcome (Z * xmstate) :=
  let! (p, s) := _xmalloc size align s in
  if p =? 0 then Ok (p, s) else let! w := memset0 p size (x_world s) in Ok (p, set_world w s).

Definition _xmalloc_array (size align num : Z) (s : xmstate) : outcome (Z * xmstate) :=
  if negb (size =? 0) && (UINT_MAX / size <? num) then Ok (0, s) else _xmalloc (u64 (size * num)) align s.

Definition _xzalloc_array (size align num : Z) (s : xmstate) : outcome (Z * xmstate) :=
  if negb (size =? 0) && (UINT_MAX / size <? num) then Ok (0, s) else _xzalloc (u64 (size * num)) align s.

(** ** [xfree] *)

(** Free a block of whole pages from its end, by the bits of its size. *)
Fixpoint free_pieces (fuel : nat) (i order b : Z) (w : world H) : outcome (world H) :=
  match fuel with
  | O => Bug
  | S fuel' =>
      let! bsize := rd (a_size b) w in
      if Z.land bsize (Z.shiftl PAGE_SIZE i) =? 0 then free_pieces fuel' (i + 1) order b w
      else
        let bsize := u32 (bsize - Z.shiftl PAGE_SIZE i) in
        let! w1 := wr (a_size b) bsize w in
        let! w2 := put_pages (b + bsize) i w1 in
        if order <=? i + 1 then Ok w2 else free_pieces fuel' (i + 1) order b w2
  end.

(** Strip alignment padding. *)
Definition strip_padding (p : Z) (w : world H) : outcome Z :=
  let! bsize := rd (a_size (p - BHDR_OVERHEAD)) w in
  if negb (Z.land bsize 1 =? 0) then
    let p := p - Z.ldiff bsize 1 in
    let! bsize := rd (a_size (p - BHDR_OVERHEAD)) w in
    BUG_ON (negb (Z.land bsize 1 =? 0)) (Ok p)
  else Ok p.

Definition xfree (p : Z) (s : xmstate) : outcome xmstate :=
  if p =? 0 then Ok s
  else
    BUG_ON in_irq
      (let w := x_world s in
       let! p := strip_padding p w in
       let b := p - BHDR_OVERHEAD in
       let! bsize := rd (a_size b) w in
       if PAGE_SIZE <=? bsize then
         let order := get_order_from_bytes bsize in
         BUG_ON (negb (Z.land b (Z.shiftl PAGE_SIZE order - 1) =? 0))
           (let! w1 := free_pieces 64 0 order b w in Ok (set_world w1 s))
       else
         deref (x_pools s !! x_xenpool s) (λ pl,
           let! (pl', w1) := xmem_pool_free xmalloc_pool_put p pl w in
           Ok (set_pool (x_xenpool s) pl' w1 s))).
End xmalloc.
