(* ===== verification/XmallocPages.v ===== *)
(** * Whole pages of the Xen heap under [xmalloc] (xen/common/xmalloc_tlsf.c)

    What [xmalloc] relies on is the interface [XenHeap]: aligned blocks of pages
    that nobody holds, and the return of any aligned piece of such a block. On
    top of it, pages serve as regions of a pool, large requests keep exactly the
    pages they need, and these are what is given back. *)

From S2P Require Import Prelude BootMem PageAlloc PageAllocInv PageAllocProps Tlsf TlsfLists TlsfBlocks TlsfInv Xmalloc.
Local Open Scope xen_scope.

(** ** Sizes *)

Lemma page_shiftl i : 0 ≤ i → Z.shiftl PAGE_SIZE i = 2 ^ (i + 12).
Proof. intros. rewrite Z.shiftl_mul_pow2, Z.pow_add_r by lia. change PAGE_SIZE with (2 ^ 12). lia. Qed.

Lemma page_pow i : 0 ≤ i → (PAGE_SIZE | 2 ^ (i + 12)) ∧ PAGE_SIZE ≤ 2 ^ (i + 12).
Proof.
  intros. rewrite Z.pow_add_r by lia. change PAGE_SIZE with (2 ^ 12). pose proof (Z.pow_pos_nonneg 2 i).
  split; [by eexists|nia].
Qed.

Lemma land_page_bit p i : 0 ≤ i → (Z.land p (Z.shiftl PAGE_SIZE i) =? 0) = negb (Z.testbit p (i + 12)).
Proof.
  intros Hi. rewrite <- (has_bits_testbit p (i + 12)) by lia. unfold has_bits. rewrite negb_involutive, Z.shiftl_1_l.
  by rewrite page_shiftl.
Qed.

(** The least order whose blocks hold [n] bytes. *)
Lemma get_order_spec n :
  0 < n < 2 ^ 64 →
  0 ≤ get_order_from_bytes n ≤ 52 ∧ n ≤ 2 ^ (get_order_from_bytes n + 12) ∧
  (get_order_from_bytes n = 0 ∨ 2 ^ (get_order_from_bytes n - 1 + 12) < n).
Proof.
  intros Hn. unfold get_order_from_bytes. rewrite u64_small by lia. rewrite Z.shiftr_div_pow2 by done.
  change (2 ^ PAGE_SHIFT) with 4096. assert (0 ≤ (n - 1) / 4096 < 2 ^ 52) as Hd.
  { split; [apply Z.div_pos; lia|]. apply Z.div_lt_upper_bound; lia. }
  rewrite order_loop_spec by (change (Z.of_nat 65) with 65; lia). unfold fls. destruct (Z.leb_spec ((n - 1) / 4096) 0) as [Hz|Hz].
  - pose proof (Z.div_mod (n - 1) 4096 ltac:(lia)). pose proof (Z.mod_pos_bound (n - 1) 4096 ltac:(lia)).
    change (2 ^ (0 + 0 + 12)) with 4096. lia.
  - destruct (Z.log2_spec _ Hz) as [L1 L2]. set (k := Z.log2 ((n - 1) / 4096)) in *. pose proof (Z.log2_nonneg ((n - 1) / 4096)) as L0. fold k in L0.
    assert (k < 52) by (apply Z.log2_lt_pow2; lia). pose proof (Z.div_mod (n - 1) 4096 ltac:(lia)). pose proof (Z.mod_pos_bound (n - 1) 4096 ltac:(lia)).
    split; [lia|]. replace (0 + (k + 1) + 12) with (Z.succ k + 12) by lia. rewrite Z.pow_add_r by lia. change (2 ^ 12) with 4096.
    split; [nia|]. right. replace (0 + (k + 1) - 1 + 12) with (k + 12) by lia. rewrite Z.pow_add_r by lia. change (2 ^ 12) with 4096. nia.
Qed.

Lemma page_align_spec n :
  0 < n ≤ 2 ^ 63 → (PAGE_SIZE | PAGE_ALIGN n) ∧ n ≤ PAGE_ALIGN n < n + PAGE_SIZE.
Proof.
  intros Hn. unfold PAGE_ALIGN. change PAGE_SIZE with 4096. rewrite u64_small by lia.
  change (4096 - 1) with (Z.ones 12). rewrite Z.ldiff_ones_r, Z.shiftl_mul_pow2, Z.shiftr_div_pow2 by lia. change (2 ^ 12) with 4096.
  pose proof (Z.div_mod (n + 4096 - 1) 4096 ltac:(lia)). pose proof (Z.mod_pos_bound (n + 4096 - 1) 4096 ltac:(lia)).
  split; [by eexists|]. lia.
Qed.

(** Frames and addresses. *)
Lemma elem_pages a n y : (PAGE_SIZE | a) → (PAGE_SIZE | n) → y ∈ pages_of a n ↔ a ≤ y * PAGE_SIZE < a + n.
Proof. intros Ha Hn. rewrite <- elem_pages_of by done. by rewrite Z.div_mul. Qed.

Lemma pages_sub a n a' n' :
  (PAGE_SIZE | a) → (PAGE_SIZE | n) → (PAGE_SIZE | a') → (PAGE_SIZE | n') → a ≤ a' → a' + n' ≤ a + n → pages_of a' n' ⊆ pages_of a n.
Proof. intros H1 H2 H3 H4 H5 H6 y. rewrite !elem_pages by done. lia. Qed.

Lemma pages_app a n m : (PAGE_SIZE | a) → (PAGE_SIZE | n) → (PAGE_SIZE | m) → 0 ≤ n → 0 ≤ m → pages_of a (n + m) = pages_of a n ∪ pages_of (a + n) m.
Proof.
  intros H1 H2 H3 Hn Hm. apply set_eq. intros y. rewrite elem_of_union, !elem_pages by (done || by apply Z.divide_add_r). lia.
Qed.

(** ** The Xen heap *)

Section pages.
Context {H : Type} (alloc_xenheap_pages : Z → H → outcome (Z * H)) (free_xenheap_pages : Z → Z → H → outcome H).

(** [xh h s] says that [s] are the frames handed out by the heap [h]; frames of
    one block are [near] each other. *)
Class XenHeap (near : Z → Z → Prop) (xh : H → gset Z → Prop) : Prop := {
  xh_near x : near x x;
  xh_alloc order h s : xh h s → 0 ≤ order →
    ∃ a h', alloc_xenheap_pages order h = Ok (a, h') ∧
      (a = 0 ∧ xh h' s ∨
       0 < a ∧ order ≤ MAX_ORDER ∧ (Z.shiftl PAGE_SIZE order | a) ∧
       pages_of a (Z.shiftl PAGE_SIZE order) ## s ∧ xh h' (s ∪ pages_of a (Z.shiftl PAGE_SIZE order)) ∧
       ∀ x y, x ∈ pages_of a (Z.shiftl PAGE_SIZE order) → y ∈ pages_of a (Z.shiftl PAGE_SIZE order) → near x y);
  xh_free a order h s : xh h s → 0 ≤ order ≤ MAX_ORDER → 0 < a → (Z.shiftl PAGE_SIZE order | a) →
    pages_of a (Z.shiftl PAGE_SIZE order) ⊆ s →
    (∀ x y, x ∈ pages_of a (Z.shiftl PAGE_SIZE order) → y ∈ pages_of a (Z.shiftl PAGE_SIZE order) → near x y) →
    ∃ h', free_xenheap_pages a order h = Ok h' ∧ xh h' (s ∖ pages_of a (Z.shiftl PAGE_SIZE order));
}.

Context {near : Z → Z → Prop} {xh : H → gset Z → Prop} {XH : XenHeap near xh} (junk : H → gmap Z Z).

(** The frames held are those the heap handed out. *)
Definition heap_ok (w : world H) : Prop := xh (w_heap w) (w_held w).

Definition together (a n : Z) : Prop := ∀ x y, x ∈ pages_of a n → y ∈ pages_of a n → near x y.

Abbreviation get := (get_pages alloc_xenheap_pages junk).
Abbreviation put := (put_pages free_xenheap_pages).

Lemma together_sub a n a' n' : pages_of a' n' ⊆ pages_of a n → together a n → together a' n'.
Proof. intros Hs Ht x y Hx Hy. apply Ht; by apply Hs. Qed.

Lemma get_pages_spec order w :
  heap_ok w → 0 ≤ order →
  ∃ a w', get order w = Ok (a, w') ∧ heap_ok w' ∧ (∀ x, acc w x → peek w' x = peek w x) ∧
    (a = 0 ∧ w_held w' = w_held w ∨
     0 < a ∧ order ≤ MAX_ORDER ∧ (2 ^ (order + 12) | a) ∧ pages_of a (2 ^ (order + 12)) ## w_held w ∧
     w_held w' = w_held w ∪ pages_of a (2 ^ (order + 12)) ∧ together a (2 ^ (order + 12))).
Proof using XH.
  intros Hw Ho. destruct (xh_alloc order _ _ Hw Ho) as (a & h' & E & Hor). unfold get_pages. rewrite E. cbn [mbind outcome_bind].
  rewrite page_shiftl in * by done. destruct Hor as [[-> Hh]|(Ha & Hm & Hd & Hdis & Hh & Hn)].
  - eexists _, _. split; [done|]. split; [done|]. split; [done|]. by left.
  - rewrite (proj2 (Z.eqb_neq _ _)) by lia. eexists _, _. split; [done|]. split; [done|]. split; [|right; done].
    intros x Hx. unfold peek. cbn [w_mem]. assert (x / PAGE_SIZE ∉ pages_of a (2 ^ (order + 12))) as Hout by (unfold acc in Hx; set_solver).
    rewrite lookup_union_r.
    + f_equal. rewrite map_lookup_filter. destruct (w_mem w !! x) as [v|]; [|done]. simpl. rewrite option_guard_True; done.
    + rewrite map_lookup_filter. destruct (junk h' !! x) as [v|]; [|done]. simpl. rewrite option_guard_False; done.
Qed.

Lemma put_pages_spec a order w :
  heap_ok w → 0 ≤ order ≤ MAX_ORDER → 0 < a → (2 ^ (order + 12) | a) → pages_of a (2 ^ (order + 12)) ⊆ w_held w →
  together a (2 ^ (order + 12)) →
  ∃ w', put a order w = Ok w' ∧ heap_ok w' ∧ w_held w' = w_held w ∖ pages_of a (2 ^ (order + 12)) ∧ w_mem w' = w_mem w.
Proof using XH.
  intros Hw Ho Ha Hd Hs Ht. unfold put_pages. destruct (xh_free a order _ _ Hw Ho) as (h' & E & Hh); rewrite ?page_shiftl by lia; try done.
  rewrite page_shiftl in * by lia. rewrite bool_decide_eq_true_2 by done. rewrite E. cbn [mbind outcome_bind]. by eexists.
Qed.

(** ** Pages as regions of a pool *)

Definition xenpool_sizes (n : Z) : Prop := n = PAGE_SIZE.
Definition xenpool_granted (r n : Z) : Prop := n = PAGE_SIZE ∧ (PAGE_SIZE | r) ∧ 0 < r.

#[export] Instance xmalloc_memory :
  PoolMemory heap_ok (xmalloc_pool_get alloc_xenheap_pages junk) (xmalloc_pool_put free_xenheap_pages)
    xenpool_sizes xenpool_granted.
Proof using XH.
  assert (∀ k, together (k * PAGE_SIZE) PAGE_SIZE) as Hone.
  { intros k x y. rewrite !elem_pages by ((by exists k) || (by exists 1)). change PAGE_SIZE with 4096. intros Hx Hy.
    replace y with x by lia. apply xh_near. }
  split.
  - intros n w Hw ->. unfold xmalloc_pool_get. rewrite Z.eqb_refl. cbn [negb BUG_ON].
    destruct (get_pages_spec 0 w Hw ltac:(lia)) as (a & w' & E & Hw' & Hk & Hor). exists a, w'. split; [done|]. split; [done|]. split; [done|].
    destruct Hor as [?|(? & _ & ? & ? & ? & _)]; [by left|]. right. by repeat split.
  - intros r n w Hw (-> & [k ->] & Hr) Hs. unfold xmalloc_pool_put. change PAGE_SIZE with (2 ^ (0 + 12)) in *.
    destruct (put_pages_spec (k * 2 ^ (0 + 12)) 0 w Hw) as (w' & E & Hw' & Hh & Hm); [by vm_compute|done|by eexists|done|apply Hone|].
    exists w'. split; [done|]. split; [done|]. split; [done|]. intros x _. unfold peek. by rewrite Hm.
  - intros w w' E1 E2. unfold heap_ok. by rewrite E1, E2.
  - intros n ->. split; [by exists 1|by vm_compute].
Qed.

(** ** Large requests *)

(** From an address in the last half of an aligned block, the bits of the
    address give aligned pieces up to the end of the block. *)
Lemma trim_pages_spec k i p e w :
  heap_ok w → 0 ≤ i → i + Z.of_nat k ≤ MAX_ORDER + 1 → 0 < p ≤ e → e - p < 2 ^ (i + Z.of_nat k + 12) →
  (2 ^ (i + 12) | p) → (2 ^ (i + Z.of_nat k + 12) | e) → pages_of p (e - p) ⊆ w_held w → together p (e - p) →
  ∃ w', trim_pages free_xenheap_pages (seqZ i (Z.of_nat k)) p w = Ok w' ∧ heap_ok w' ∧
    w_held w' = w_held w ∖ pages_of p (e - p) ∧ w_mem w' = w_mem w.
Proof using XH.
  revert i p w. induction k as [|k IH]; intros i p w Hw Hi Hm Hp Hlt Hdp Hde Hs Ht.
  { rewrite Z.add_0_r in *. assert (p = e) as ->.
    { destruct Hdp as [c ->], Hde as [d ->]. pose proof (Z.pow_pos_nonneg 2 (i + 12)). assert (d = c) by nia. by subst. }
    exists w. split; [done|]. split; [done|]. split; [|done]. rewrite Z.sub_diag. unfold pages_of. simpl. set_solver. }
  rewrite Nat2Z.inj_succ in *. rewrite seqZ_cons by lia. replace (Z.pred (Z.succ (Z.of_nat k))) with (Z.of_nat k) by lia.
  replace (i + Z.succ (Z.of_nat k)) with (Z.succ i + Z.of_nat k) in * by lia. cbn [trim_pages]. rewrite land_page_bit, negb_involutive by lia.
  pose proof (aligned_half (i + 12) p ltac:(lia) Hdp) as Hhalf. replace (i + 12 + 1) with (Z.succ i + 12) in Hhalf by lia.
  destruct (Z.testbit p (i + 12)) eqn:Eb; [|by apply IH; (done || lia)].
  assert (2 ^ (Z.succ i + 12) = 2 * 2 ^ (i + 12)) as Epow by (rewrite <- Z.pow_succ_r by lia; f_equal; lia).
  pose proof (Z.pow_pos_nonneg 2 (i + 12) ltac:(lia) ltac:(lia)) as Hpos. destruct (page_pow i Hi) as [Dp _].
  assert (p + 2 ^ (i + 12) ≤ e) as Hle.
  { apply (divide_pow_le (Z.succ i + 12)) in Hde; [|lia]. destruct Hhalf as [c Hc], Hde as [d Hd]. rewrite Epow in *.
    set (q := 2 ^ (i + 12)) in *. assert (c < d) by nia. nia. }
  assert (PAGE_SIZE | p) as Pp by (by apply (Z.divide_trans _ (2 ^ (i + 12)))).
  assert (PAGE_SIZE | e) as Pe. { apply (Z.divide_trans _ (2 ^ (i + 12))); [done|]. apply (divide_pow_le _ (Z.succ i + Z.of_nat k + 12)); [lia|done]. }
  assert (PAGE_SIZE | e - (p + 2 ^ (i + 12))) as Pr by (by apply Z.divide_sub_r; [|apply Z.divide_add_r]).
  assert (e - p = 2 ^ (i + 12) + (e - (p + 2 ^ (i + 12)))) as E by lia.
  pose proof (pages_app p (2 ^ (i + 12)) (e - (p + 2 ^ (i + 12))) Pp Dp Pr ltac:(lia) ltac:(lia)) as Eu. rewrite <- E in Eu.
  destruct (put_pages_spec p i w Hw) as (w1 & -> & Hw1 & Hh1 & Hm1); [lia|lia|done|set_solver|eapply together_sub; [|exact Ht]; set_solver|].
  cbn [mbind outcome_bind]. rewrite page_shiftl by lia.
  assert (pages_of (p + 2 ^ (i + 12)) (e - (p + 2 ^ (i + 12))) ## pages_of p (2 ^ (i + 12))) as Hdis.
  { intros y. rewrite !elem_pages by (done || by apply Z.divide_add_r). lia. }
  destruct (IH (Z.succ i) (p + 2 ^ (i + 12)) w1) as (w2 & -> & Hw2 & Hh2 & Hm2); try (done || lia).
  - destruct Hhalf as [c Hc]. exists (c + 1). rewrite Epow in *. lia.
  - rewrite Hh1. set_solver.
  - eapply together_sub; [|exact Ht]. set_solver.
  - exists w2. split; [done|]. split; [done|]. split; [|congruence]. rewrite Hh2, Hh1, Eu. set_solver.
Qed.

(** The pages behind a large block of [n] bytes at [b]. *)
Record whole (w : world H) (b n : Z) : Prop := {
  wh_pos : 0 < b;
  wh_size : (PAGE_SIZE | n) ∧ 0 < n ≤ 2 ^ (MAX_ORDER + 12);
  wh_aligned : (2 ^ (get_order_from_bytes n + 12) | b);
  wh_held : pages_of b n ⊆ w_held w;
  wh_together : together b n;
  wh_header : peek w (a_size b) = n;
}.

Lemma order_max n : 0 < n ≤ 2 ^ (MAX_ORDER + 12) → get_order_from_bytes n ≤ MAX_ORDER.
Proof.
  intros Hn. destruct (get_order_spec n) as (Ho & _ & [->|Hlt]); [change (MAX_ORDER + 12) with 30 in Hn; lia|by vm_compute|].
  assert (2 ^ (get_order_from_bytes n - 1 + 12) < 2 ^ (MAX_ORDER + 12)) as Hp by lia. apply Z.pow_lt_mono_r_iff in Hp; [lia|lia|by vm_compute].
Qed.

(** Rounding up to pages does not need a larger block. *)
Lemma page_align_order n :
  0 < n < 2 ^ 63 → get_order_from_bytes (PAGE_ALIGN n) = get_order_from_bytes n.
Proof.
  intros Hn. destruct (page_align_spec n ltac:(lia)) as [Hd Hr]. change PAGE_SIZE with 4096 in Hr.
  destruct (get_order_spec n ltac:(lia)) as (O1 & O2 & O3), (get_order_spec (PAGE_ALIGN n) ltac:(lia)) as (A1 & A2 & A3).
  set (o := get_order_from_bytes n) in *. set (o' := get_order_from_bytes (PAGE_ALIGN n)) in *.
  assert (PAGE_ALIGN n ≤ 2 ^ (o + 12)) as Hle.
  { destruct (page_pow o ltac:(lia)) as [[c Hc] _], Hd as [d Hd]. rewrite Hc, Hd in *. change PAGE_SIZE with 4096 in *. nia. }
  destruct (Z.lt_trichotomy o' o) as [Hlt|[|Hlt]]; [exfalso|done|exfalso].
  - assert (2 ^ (o' + 12) ≤ 2 ^ (o - 1 + 12)) by (apply Z.pow_le_mono_r; lia). destruct O3 as [|]; lia.
  - assert (2 ^ (o + 12) ≤ 2 ^ (o' - 1 + 12)) by (apply Z.pow_le_mono_r; lia). destruct A3 as [|]; lia.
Qed.

(** A large request gets exactly the pages it needs. *)
Lemma xmalloc_whole_pages_spec size w :
  heap_ok w → 0 ≤ size < 2 ^ 62 →
  let n := PAGE_ALIGN (size + 16) in
  ∃ r w', xmalloc_whole_pages alloc_xenheap_pages free_xenheap_pages junk size w = Ok (r, w') ∧ heap_ok w' ∧
    (∀ x, acc w x → peek w' x = peek w x) ∧
    (r = 0 ∧ w_held w' = w_held w ∨
     ∃ b, r = buffer b ∧ whole w' b n ∧ pages_of b n ## w_held w ∧ w_held w' = w_held w ∪ pages_of b n).
Proof using XH.
  intros Hw Hs n. unfold xmalloc_whole_pages. change BHDR_OVERHEAD with 16. rewrite u64_small by lia. fold n.
  destruct (get_order_spec (size + 16) ltac:(lia)) as (Ho & Hn & Hmin). pose proof (page_align_order (size + 16) ltac:(lia)) as Hon. fold n in Hon.
  destruct (page_align_spec (size + 16) ltac:(lia)) as [Dn Rn]. fold n in Dn, Rn. destruct (get_order_spec n) as (_ & Hn' & _); [change PAGE_SIZE with 4096 in Rn; lia|].
  rewrite Hon in Hn'. set (o := get_order_from_bytes (size + 16)) in *.
  destruct (get_pages_spec o w Hw ltac:(lia)) as (b & w1 & -> & Hw1 & Hk1 & Hor). cbn [mbind outcome_bind].
  destruct Hor as [[-> Hh]|(Hb & Hm & Hd & Hdis & Hh & Ht)].
  { exists 0, w1. split; [done|]. split; [done|]. split; [done|]. by left. }
  rewrite (proj2 (Z.eqb_neq _ _)) by lia.
  assert (n ≤ 2 ^ (MAX_ORDER + 12)) as Hmax by (etrans; [exact Hn'|apply Z.pow_le_mono_r; lia]). change (MAX_ORDER + 12) with 30 in Hmax.
  rewrite u32_small by lia. destruct (page_pow o ltac:(lia)) as [Dp _]. assert (PAGE_SIZE | b) as Pb by (by apply (Z.divide_trans _ (2 ^ (o + 12)))).
  assert (∀ x, b ≤ x < b + 2 ^ (o + 12) → acc w1 x) as Hacc by (intros x Hx; unfold acc; rewrite Hh; apply elem_of_union_r, elem_pages_of; done).
  rewrite wr_ok by (apply Hacc; unfold a_size; lia). cbn [mbind outcome_bind]. set (w2 := poke (a_size b) n w1).
  assert (PAGE_SIZE | b + n) as Pbn by (by apply Z.divide_add_r).
  assert (PAGE_SIZE | 2 ^ (o + 12) - n) as Pr by (by apply Z.divide_sub_r).
  pose proof (pages_app b n (2 ^ (o + 12) - n) Pb Dn Pr ltac:(lia) ltac:(lia)) as Eu. replace (n + (2 ^ (o + 12) - n)) with (2 ^ (o + 12)) in Eu by lia.
  replace (seqZ 0 o) with (seqZ 0 (Z.of_nat (Z.to_nat o))) by (f_equal; lia).
  destruct (trim_pages_spec (Z.to_nat o) 0 (b + n) (b + 2 ^ (o + 12)) w2) as (w3 & -> & Hw3 & Hh3 & Hm3); rewrite ?Z2Nat.id by lia;
    replace (b + 2 ^ (o + 12) - (b + n)) with (2 ^ (o + 12) - n) in * by lia; try (done || lia).
  { change PAGE_SIZE with 4096 in *. change (0 + o + 12) with (o + 12). lia. }
  { by apply Z.divide_add_r. }
  { simpl. rewrite Hh, Eu. set_solver. }
  { eapply together_sub; [|exact Ht]. rewrite Eu. set_solver. }
  cbn [mbind outcome_bind]. assert (pages_of b n ## pages_of (b + n) (2 ^ (o + 12) - n)) as Hap.
  { intros y. rewrite !elem_pages by done. lia. }
  assert (w_held w3 = w_held w ∪ pages_of b n) as Hh3' by (rewrite Hh3; simpl; rewrite Hh, Eu in *; set_solver).
  assert (∀ x, peek w3 x = peek w2 x) as Hpk by (intros x; unfold peek; by rewrite Hm3).
  eexists _, w3. split; [done|]. split; [done|]. split.
  { intros x Hx. rewrite Hpk. unfold w2. rewrite peek_poke_ne; [by apply Hk1|]. intros <-. revert Hx. unfold acc. intros Hx.
    apply (Hdis (a_size b / PAGE_SIZE)); [|done]. apply elem_pages_of; [done|done|unfold a_size; lia]. }
  right. exists b. split; [done|]. split; [|split; [rewrite Eu in Hdis; set_solver|done]].
  split; [done|split; [done|change (MAX_ORDER + 12) with 30; lia]|by rewrite Hon|rewrite Hh3'; set_solver| |rewrite Hpk; apply peek_poke].
  eapply together_sub; [|exact Ht]. rewrite Eu. set_solver.
Qed.

(** Freeing by the bits of the size, from the end. *)
Lemma free_pieces_spec fuel i o b v w :
  heap_ok w → 0 < b → (2 ^ (o + 12) | b) → 0 ≤ i ≤ o → o ≤ MAX_ORDER → o - i < Z.of_nat fuel →
  (2 ^ (i + 12) | v) → 0 < v ≤ 2 ^ (o + 12) → (o = 0 ∨ 2 ^ (o - 1 + 12) ≤ v) →
  pages_of b v ⊆ w_held w → together b v → peek w (a_size b) = v →
  ∃ w', free_pieces free_xenheap_pages fuel i o b w = Ok w' ∧ heap_ok w' ∧ w_held w' = w_held w ∖ pages_of b v ∧
    ∀ x, x ≠ a_size b → peek w' x = peek w x.
Proof using XH.
  revert i v w. induction fuel as [|fuel IH]; intros i v w Hw Hb Hdb Hi Hm Hf Hdv Hv Hmin Hs Ht Hsz; [lia|].
  assert (v ≤ 2 ^ 30) as Hv30 by (change 30 with (MAX_ORDER + 12); etrans; [apply Hv|apply Z.pow_le_mono_r; lia]).
  destruct (page_pow i ltac:(lia)) as [Di _]. assert (PAGE_SIZE | v) as Pv by (by apply (Z.divide_trans _ (2 ^ (i + 12)))).
  assert (PAGE_SIZE | b) as Pb by (apply (Z.divide_trans _ (2 ^ (o + 12))); [apply page_pow; lia|done]).
  assert (acc w (a_size b)) as Hacc.
  { apply Hs, elem_pages_of; [done|done|]. destruct Pv as [c Ec]. unfold a_size. change PAGE_SIZE with 4096 in *. lia. }
  cbn [free_pieces]. rewrite rd_ok by done. cbn [mbind outcome_bind]. rewrite Hsz, land_page_bit by lia.
  pose proof (aligned_half (i + 12) v ltac:(lia) Hdv) as Hhalf. replace (i + 12 + 1) with (i + 1 + 12) in Hhalf by lia.
  pose proof (Z.pow_pos_nonneg 2 (i + 12) ltac:(lia) ltac:(lia)) as Hq.
  assert (2 ^ (i + 1 + 12) = 2 * 2 ^ (i + 12)) as Eq by (rewrite <- Z.pow_succ_r by lia; f_equal; lia).
  destruct (Z.testbit v (i + 12)) eqn:Eb; cbn [negb].
  2: { assert (i ≠ o) as Hne.
       { intros E. rewrite <- E in Hv. destruct Hhalf as [c Hc]. rewrite Eq in Hc. set (q := 2 ^ (i + 12)) in *. assert (0 < c) by nia. nia. }
       apply IH; (done || lia). }
  rewrite page_shiftl by lia. set (q := 2 ^ (i + 12)) in *. destruct Hhalf as [c Hc].
  assert (0 ≤ v - q) as Hvq by (rewrite Eq in Hc; assert (0 ≤ c) by nia; nia). rewrite u32_small by lia. set (v' := v - q) in *.
  rewrite wr_ok by done. cbn [mbind outcome_bind]. set (w1 := poke (a_size b) v' w).
  assert (PAGE_SIZE | v') as Pv' by (by apply Z.divide_sub_r).
  pose proof (pages_app b v' q Pb Pv' Di Hvq ltac:(lia)) as Eu. replace (v' + q) with v in Eu by (unfold v'; lia).
  destruct (put_pages_spec (b + v') i w1) as (w2 & -> & Hw2 & Hh2 & Hm2); [exact Hw|lia|lia| | | |].
  { apply Z.divide_add_r; [apply (divide_pow_le _ (o + 12)); [lia|done]|]. apply Z.divide_sub_r; [done|by exists 1; lia]. }
  { simpl. fold q. set_solver. }
  { eapply together_sub; [|exact Ht]. fold q. set_solver. }
  fold q in Hh2. cbn [mbind outcome_bind]. change (w_held w1) with (w_held w) in Hh2.
  assert (pages_of b v' ## pages_of (b + v') q) as Hap by (intros y; rewrite !elem_pages by (done || by apply Z.divide_add_r); lia).
  assert (∀ x, peek w2 x = peek w1 x) as Hpk by (intros x; unfold peek; by rewrite Hm2).
  assert (∀ x, x ≠ a_size b → peek w2 x = peek w x) as Hpk' by (intros x Hx; rewrite Hpk; by apply peek_poke_ne).
  destruct (Z.leb_spec o (i + 1)) as [Hend|Hgo].
  - assert (v' = 0) as E0.
    { destruct (decide (i = o)) as [-> |Hne]; [fold q in Hv; rewrite Eq in Hc; assert (c = 0) by nia; lia|].
      replace (o + 12) with (i + 1 + 12) in Hv by lia. rewrite Eq in *. assert (c = 0) by nia. lia. }
    exists w2. split; [done|]. split; [done|]. split; [|done]. rewrite Hh2, Eu, E0. unfold pages_of. simpl. set_solver.
  - assert (2 ^ (o - 1 + 12) + q ≤ v) as Hbig.
    { assert (2 ^ (i + 1 + 12) | 2 ^ (o - 1 + 12)) as [d Hd] by (apply (divide_pow_le _ (o - 1 + 12)); [lia|by exists 1; lia]).
      destruct Hmin as [|Hmin]; [lia|]. rewrite Eq in *. rewrite Hd in *. assert (d ≤ c) by nia. nia. }
    pose proof (Z.pow_pos_nonneg 2 (o - 1 + 12) ltac:(lia) ltac:(lia)).
    destruct (IH (i + 1) v' w2) as (w3 & -> & Hw3 & Hh3 & Hpk3); try (done || lia).
    + by exists c.
    + rewrite Hh2. set_solver.
    + eapply together_sub; [|exact Ht]. set_solver.
    + rewrite Hpk. apply peek_poke.
    + exists w3. split; [done|]. split; [done|]. split; [rewrite Hh3, Hh2, Eu; set_solver|]. intros x Hx. rewrite Hpk3 by done. by apply Hpk'.
Qed.

Lemma free_whole_spec b n w :
  heap_ok w → whole w b n →
  ∃ w', free_pieces free_xenheap_pages 64 0 (get_order_from_bytes n) b w = Ok w' ∧ heap_ok w' ∧
    w_held w' = w_held w ∖ pages_of b n ∧ ∀ x, acc w' x → peek w' x = peek w x.
Proof using XH.
  intros Hw [Hb [Dn Rn] Hd Hs Ht Hh]. pose proof (order_max n Rn) as Hom.
  assert (2 ^ (MAX_ORDER + 12) = 2 ^ 30) as E30 by done. destruct (get_order_spec n ltac:(lia)) as (Ho & Hn & Hmin).
  destruct (free_pieces_spec 64 0 (get_order_from_bytes n) b n w) as (w' & -> & Hw' & Hh' & Hk); try (done || lia).
  exists w'. split; [done|]. split; [done|]. split; [done|]. intros x Hx. apply Hk. intros ->. unfold acc in Hx. rewrite Hh' in Hx.
  apply elem_of_difference in Hx as [_ Hx]. apply Hx, elem_pages_of; [|done|].
  - apply (Z.divide_trans _ (2 ^ (get_order_from_bytes n + 12))); [apply page_pow; lia|done].
  - destruct Dn as [c Ec]. unfold a_size. change PAGE_SIZE with 4096 in *. lia.
Qed.
End pages.
