(* ===== verification/XmallocInv.v ===== *)
(** * The blocks behind [xmalloc]

    A block comes from the pool or consists of whole pages; either way its
    header says which, and writing into it disturbs no other block. *)

From S2P Require Import Prelude BootMem PageAlloc PageAllocInv PageAllocProps.
From S2P Require Import Tlsf TlsfMap TlsfLists TlsfBlocks TlsfInv TlsfAlloc TlsfFree Xmalloc XmallocPages.
Local Open Scope xen_scope.

Section raw.
Context {H : Type} (alloc_xenheap_pages : Z → H → outcome (Z * H)) (free_xenheap_pages : Z → Z → H → outcome H)
  (near : Z → Z → Prop) (xh : H → gset Z → Prop) {XH : XenHeap alloc_xenheap_pages free_xenheap_pages near xh} (junk : H → gmap Z Z).

Abbreviation xinv := (pool_inv (H:=H) xenpool_sizes xenpool_granted).
Abbreviation wok := (heap_ok (xh:=xh)).
Abbreviation whl := (whole (near:=near)).
Abbreviation getm := (xmalloc_pool_get alloc_xenheap_pages junk).
Abbreviation putm := (xmalloc_pool_put free_xenheap_pages).

(** [P] are the pages of the pool's structure, [R] and [L] the regions and free
    lists of the pool, [W] the blocks of whole pages by address, [B] all blocks
    by the address of their buffer. What is held is in exactly one of [P], [R]
    and [W]. *)
Record raw_rep (s : xmstate (H:=H)) (P : gset Z) (R : regions) (L : flists) (W B : gmap Z Z) : Prop := {
  rr_heap : wok (x_world s);
  rr_pool : ∃ p, x_pools s !! x_xenpool s = Some p ∧ x_xenpool s ≠ 0 ∧ xinv p (x_world s) R L ∧ ready p R;
  rr_whole b n : W !! b = Some n → whl (x_world s) b n;
  rr_disj b n b' n' : W !! b = Some n → W !! b' = Some n' → b < b' → b + n ≤ b';
  rr_apart b n x : W !! b = Some n → b ≤ x < b + n → ¬ in_regions R x;
  rr_held x : acc (x_world s) x → x / PAGE_SIZE ∈ P ∨ in_regions R x ∨ ∃ b n, W !! b = Some n ∧ b ≤ x < b + n;
  rr_own x : x / PAGE_SIZE ∈ P → acc (x_world s) x ∧ ¬ in_regions R x ∧ ∀ b n, W !! b = Some n → ¬ (b ≤ x < b + n);
  rr_blocks r n : B !! r = Some n ↔ blk_at R (r - 16) n false ∨ W !! (r - 16) = Some (n + 16);
}.

Definition raw_inv (s : xmstate) (P : gset Z) (B : gmap Z Z) : Prop := ∃ R L W, raw_rep s P R L W B.

Definition raw_cell (B : gmap Z Z) (x : Z) : Prop := ∃ r n, B !! r = Some n ∧ r ≤ x < r + n.

Lemma whole_facts (w : world H) b n : whl w b n → (PAGE_SIZE | b) ∧ PAGE_SIZE ≤ n ∧ (∀ x, b ≤ x < b + n → acc w x).
Proof.
  intros [Hb [[c Ec] Hn] Hd Hs _ _]. assert (PAGE_SIZE | b) as Pb.
  { apply (Z.divide_trans _ (2 ^ (get_order_from_bytes n + 12))); [|done]. apply page_pow.
    assert (2 ^ (MAX_ORDER + 12) = 2 ^ 30) by done. destruct (get_order_spec n ltac:(lia)). lia. }
  split; [done|]. split; [change PAGE_SIZE with 4096 in *; lia|]. intros x Hx. apply Hs, elem_pages_of; [done|by exists c|done].
Qed.

(** The size in the header of a used block of a pool, with the flags. *)
Lemma used_header p (w : world H) R L b n :
  xinv p w R L → blk_at R b n false → ∃ pf, peek w (a_size b) = enc n false pf.
Proof.
  intros HI (r & l & Hl & Hb). apply block_in_split in Hb as (l1 & l2 & -> & ->).
  pose proof (pi_hdrs _ _ _ _ _ _ HI _ _ Hl) as Hh. rewrite hdrs_app in Hh. destruct Hh as [_ Hh]. apply hdrs_cons in Hh as (_ & E & _). eauto.
Qed.

Lemma used_small p (w : world H) R L b n : xinv p w R L → blk_at R b n false → n + 32 ≤ PAGE_SIZE.
Proof.
  intros HI (r & l & Hl & Hb). destruct (pi_granted _ _ _ _ _ _ HI _ _ Hl) as [Hr _].
  pose proof (region_block_bounds R (pi_wf _ _ _ _ _ _ HI) _ _ _ _ _ Hl Hb). lia.
Qed.

(** ** What holds of every block *)

Lemma raw_facts s P R L W B r n :
  raw_rep s P R L W B → B !! r = Some n →
  (16 | r) ∧ 16 < r ∧ 16 ≤ n ∧ (∀ x, r - 16 ≤ x < r + n → acc (x_world s) x) ∧ Z.land (peek (x_world s) (a_size (r - 16))) 1 = 0.
Proof.
  intros HR Hr. apply (rr_blocks _ _ _ _ _ _ HR) in Hr as [Hr|Hr].
  - destruct (rr_pool _ _ _ _ _ _ HR) as (p & _ & _ & HI & _). destruct (blk_facts R (pi_wf _ _ _ _ _ _ HI) _ _ _ Hr) as ([c Hc] & ? & Ds & Hn).
    split; [exists (c + 1); lia|]. split; [lia|]. split; [lia|]. split.
    + intros x Hx. apply (pi_acc _ _ _ _ _ _ HI). eapply (blk_in_regions R); [apply HI|exact Hr|lia].
    + destruct (used_header p _ R L _ _ HI Hr) as (pf & ->). apply Z.eqb_eq, negb_false_iff. apply enc_free; [done|lia].
  - pose proof (rr_whole _ _ _ _ _ _ HR _ _ Hr) as HW. destruct (whole_facts _ _ _ HW) as ([c Hc] & Hn & Ha). change PAGE_SIZE with 4096 in *.
    split; [exists (c * 256 + 1); lia|]. pose proof (wh_pos _ _ _ HW). split; [lia|]. split; [lia|]. split; [intros x Hx; apply Ha; lia|].
    rewrite (wh_header _ _ _ HW). destruct (wh_size _ _ _ HW) as [[d ->] _]. change PAGE_SIZE with (2 ^ 12). change 1 with (Z.ones 1). rewrite Z.land_ones by lia.
    change (2 ^ 12) with (2048 * 2 ^ 1). rewrite Z.mul_assoc. by apply Z.mod_mul.
Qed.

Lemma raw_disj s P R L W B r n r' n' :
  raw_rep s P R L W B → B !! r = Some n → B !! r' = Some n' → r ≠ r' → r + n ≤ r' - 16 ∨ r' + n' ≤ r - 16.
Proof.
  intros HR Hr Hr' Hne. pose proof (raw_facts _ _ _ _ _ _ _ _ HR Hr) as (_ & _ & Hn & _). pose proof (raw_facts _ _ _ _ _ _ _ _ HR Hr') as (_ & _ & Hn' & _).
  destruct (rr_pool _ _ _ _ _ _ HR) as (p & _ & _ & HI & _). pose proof (pi_wf _ _ _ _ _ _ HI) as HW.
  assert (∀ b m a k, blk_at R b m false → W !! a = Some k → b + 16 + m ≤ a ∨ a + k ≤ b) as Hmix.
  { intros b m a k Hb Ha. destruct (decide (b + 16 + m ≤ a ∨ a + k ≤ b)) as [|Hn0]; [done|]. exfalso.
    destruct (blk_facts R HW _ _ _ Hb) as (_ & _ & _ & ?). destruct (whole_facts _ _ _ (rr_whole _ _ _ _ _ _ HR _ _ Ha)) as (_ & ? & _). change PAGE_SIZE with 4096 in *.
    eapply (rr_apart _ _ _ _ _ _ HR a k (Z.max a b) Ha); [lia|]. eapply (blk_in_regions R b m false); [done|done|lia]. }
  apply (rr_blocks _ _ _ _ _ _ HR) in Hr as [Hr|Hr], Hr' as [Hr'|Hr'].
  - destruct (blk_disj R HW _ _ _ _ _ _ Hr Hr') as [(? & _)|?]; lia.
  - pose proof (Hmix _ _ _ _ Hr Hr'). lia.
  - pose proof (Hmix _ _ _ _ Hr' Hr). lia.
  - destruct (Z.lt_trichotomy (r - 16) (r' - 16)) as [Hlt|[|Hlt]]; [|lia|].
    + pose proof (rr_disj _ _ _ _ _ _ HR _ _ _ _ Hr Hr' Hlt). lia.
    + pose proof (rr_disj _ _ _ _ _ _ HR _ _ _ _ Hr' Hr Hlt). lia.
Qed.

(** Cells of blocks are left alone by the pool. *)
Lemma raw_other s P R L W B x : raw_rep s P R L W B → raw_cell B x → other R x ∧ acc (x_world s) x.
Proof.
  intros HR (r & n & Hr & Hx). destruct (raw_facts _ _ _ _ _ _ _ _ HR Hr) as (_ & _ & _ & Ha & _). split; [|apply Ha; lia].
  apply (rr_blocks _ _ _ _ _ _ HR) in Hr as [Hr|Hr].
  - right. exists (r - 16), n. split; [done|lia].
  - left. apply (rr_apart _ _ _ _ _ _ HR _ _ x Hr). lia.
Qed.

(** An owner's write. *)
Lemma raw_write s P B x v : raw_inv s P B → raw_cell B x → raw_inv (set_world (poke x v (x_world s)) s) P B.
Proof.
  intros (R & L & W & HR) Hx. exists R, L, W. destruct (raw_other _ _ _ _ _ _ _ HR Hx) as [Ho _]. pose proof HR as [A1 (p & Hp & Hp0 & HI & Hrd) A3 A4 A5 A6 A8 A7].
  split; try done.
  - exists p. split; [done|]. split; [done|]. split; [|done]. by apply inv_write.
  - intros b n Hb. pose proof (A3 _ _ Hb) as HW. destruct (whole_facts _ _ _ HW) as (_ & Hn & _). change PAGE_SIZE with 4096 in Hn.
    destruct HW as [B1 B2 B3 B4 B5 B6]. split; try done. simpl. rewrite peek_poke_ne; [done|]. intros ->. unfold a_size in *.
    assert (B !! (b + 16) = Some (n - 16)) as Hb'.
    { apply A7. right. replace (b + 16 - 16) with b by lia. replace (n - 16 + 16) with n by lia. done. }
    destruct Hx as (r & m & Hr & Hx). destruct (decide (r = b + 16)) as [-> |Hne]; [lia|].
    destruct (raw_disj _ _ _ _ _ _ _ _ _ _ HR Hr Hb' Hne); lia.
Qed.

(** ** Allocation *)

(** Nothing, or a fresh block of at least [size] bytes and less than a page
    more; the contents of the other blocks are kept. *)
Definition raw_alloc_ok (s s' : xmstate (H:=H)) (P : gset Z) (B : gmap Z Z) (size r : Z) : Prop :=
  (∀ x, raw_cell B x → peek (x_world s') x = peek (x_world s) x) ∧
  (r = 0 ∧ raw_inv s' P B ∨ ∃ n, B !! r = None ∧ 0 < r ∧ size ≤ n < size + PAGE_SIZE ∧ raw_inv s' P (<[r := n]> B)).

(** Blocks of whole pages survive what keeps their pages and headers. *)
Lemma whole_keep (w w' : world H) b n :
  whl w b n → w_held w ⊆ w_held w' → peek w' (a_size b) = peek w (a_size b) → whl w' b n.
Proof. intros [A1 A2 A3 A4 A5 A6] Hs Hp. split; try done; [set_solver|congruence]. Qed.

Lemma whole_hdr_other s P R L W B b n :
  raw_rep s P R L W B → W !! b = Some n → other R (a_size b) ∧ acc (x_world s) (a_size b).
Proof.
  intros HR Hb. destruct (whole_facts _ _ _ (rr_whole _ _ _ _ _ _ HR _ _ Hb)) as (_ & Hn & Ha). change PAGE_SIZE with 4096 in *.
  split; [left; apply (rr_apart _ _ _ _ _ _ HR _ _ _ Hb)|apply Ha]; unfold a_size; lia.
Qed.

Lemma xenpool_alloc_spec s P B size :
  raw_inv s P B → 0 ≤ size < PAGE_SIZE →
  ∃ r s', xenpool_alloc alloc_xenheap_pages junk size s = Ok (r, s') ∧ x_xenpool s' = x_xenpool s ∧ raw_alloc_ok s s' P B size r.
Proof using XH junk.
  intros (R & L & W & HR) Hs. pose proof HR as [A1 (p & Hp & Hp0 & HI & Hrd) A3 A4 A5 A6 A8 A7]. unfold xenpool_alloc. rewrite Hp. cbn [deref].
  change PAGE_SIZE with 4096 in Hs. destruct (xmem_pool_alloc_spec xenpool_sizes xenpool_granted wok getm putm p (x_world s) R L size HI Hrd A1 ltac:(lia) (request_small size ltac:(lia)))
    as (ptr & p' & w' & R' & L' & -> & HI' & Hrd' & Hw' & [Hh Hk] & Hext & _ & _ & _ & Hor). cbn [mbind outcome_bind].
  eexists ptr, _. split; [done|]. split; [done|].
  assert (∀ B', (∀ r n, B' !! r = Some n ↔ blk_at R' (r - 16) n false ∨ W !! (r - 16) = Some (n + 16)) → raw_inv (set_pool (x_xenpool s) p' w' s) P B') as Hinv.
  { intros B' HB. exists R', L', W. split; cbn [x_world x_pools x_xenpool set_pool]; [done| | |done| | | |done].
    - exists p'. rewrite lookup_insert_eq. done.
    - intros b n Hb. destruct (whole_hdr_other _ _ _ _ _ _ _ _ HR Hb). apply (whole_keep (x_world s)); [by apply A3|done|by apply Hk].
    - intros b n x Hb Hx. apply (ex_out _ _ _ _ Hext); [|by apply (A5 b n)]. by apply (whole_facts _ _ _ (A3 _ _ Hb)).
    - intros x [Hx|Hx]%(ex_acc _ _ _ _ Hext); [|auto]. apply A6 in Hx as [?|[?|?]]; [auto| |auto]. right; left. by apply (ex_in _ _ _ _ Hext).
    - intros x (Ha & Hn & HnW)%A8. split; [by apply Hh|]. split; [by apply (ex_out _ _ _ _ Hext)|done]. }
  split.
  { intros x Hx. destruct (raw_other _ _ _ _ _ _ _ HR Hx). by apply Hk. }
  destruct Hor as [(-> & Hsame & _)|(b & n & -> & Hn & Hused & Hnb)].
  - left. split; [done|]. apply Hinv. intros r n. by rewrite Hsame, A7.
  - right. exists n. unfold buffer. change BHDR_OVERHEAD with 16. assert (blk_at R' b n false) as Hb by (apply Hused; auto).
    destruct (blk_facts R' (pi_wf _ _ _ _ _ _ HI') _ _ _ Hb) as (_ & Hb0 & _ & Hn16).
    assert (B !! (b + 16) = None) as Hnone.
    { destruct (B !! (b + 16)) as [m|] eqn:E; [|done]. apply A7 in E. replace (b + 16 - 16) with b in E by lia. destruct E as [E|E]; [by apply Hnb in E|].
      destruct (whole_facts _ _ _ (A3 _ _ E)) as (_ & Hm & Ha). change PAGE_SIZE with 4096 in Hm.
      exfalso. apply (ex_out _ _ _ _ Hext b); [apply Ha; lia|apply (A5 _ _ b E); lia|]. eapply (blk_in_regions R' b n false); [apply HI'|done|lia]. }
    split; [done|]. split; [lia|]. split.
    { destruct (rounded_ge size ltac:(lia)) as [? _]. destruct (request_spec size ltac:(lia)) as (_ & _ & ?).
      pose proof (used_small p' _ R' L' _ _ HI' Hb). lia. }
    apply Hinv. intros r m. rewrite lookup_insert_Some, Hused, A7. split.
    + intros [[<- <-]|[Hne [?|?]]]; [left; left; split; lia|auto|auto].
    + intros [[[E ->]|Hr]|Hr]; [left; split; lia| |]; right; (split; [|auto]); intros <-; assert (B !! (b + 16) = Some m) by (apply A7; auto); congruence.
Qed.

Lemma xmalloc_pages_spec s P B size :
  raw_inv s P B → 0 ≤ size < 2 ^ 62 →
  ∃ r w', xmalloc_whole_pages alloc_xenheap_pages free_xenheap_pages junk size (x_world s) = Ok (r, w') ∧
    raw_alloc_ok s (set_world w' s) P B size r.
Proof using XH junk.
  intros (R & L & W & HR) Hs. pose proof HR as [A1 (p & Hp & Hp0 & HI & Hrd) A3 A4 A5 A6 A8 A7].
  destruct (xmalloc_whole_pages_spec alloc_xenheap_pages free_xenheap_pages junk size (x_world s) A1 Hs) as (r & w' & E & Hw' & Hk & Hor).
  exists r, w'. split; [done|]. split; [intros x Hx; by apply Hk, (raw_other _ _ _ _ _ _ _ HR Hx)|].
  assert (w_held (x_world s) ⊆ w_held w') as Hsub by (destruct Hor as [[_ ->]|(b & _ & _ & _ & ->)]; set_solver).
  assert (xinv p w' R L) as HI' by (apply (inv_other_memory _ _ p (x_world s)); [done|intros x; apply Hsub|done]).
  assert (∀ b n, W !! b = Some n → whl w' b n) as HW'.
  { intros b n Hb. apply (whole_keep (x_world s)); [by apply A3|done|]. by apply Hk, (whole_hdr_other _ _ _ _ _ _ _ _ HR Hb). }
  destruct Hor as [[-> Hh]|(b & -> & HWb & Hdis & Hh)].
  - left. split; [done|]. exists R, L, W. split; try done; [by exists p| |]; intros x; cbn [x_world set_world]; unfold acc; rewrite Hh; [apply A6|apply A8].
  - right. set (n := PAGE_ALIGN (size + 16)) in *. destruct (whole_facts _ _ _ HWb) as (Pb & Hn & Ha). destruct (wh_size _ _ _ HWb) as [Pn _].
    destruct (page_align_spec (size + 16) ltac:(lia)) as [_ Hn']. fold n in Hn'. pose proof (wh_pos _ _ _ HWb) as Hb0.
    assert (∀ x, acc (x_world s) x → ¬ (b ≤ x < b + n)) as Hout.
    { intros x Hx Hin. apply (Hdis (x / PAGE_SIZE)); [by apply elem_pages_of|done]. }
    assert (∀ b' n', W !! b' = Some n' → b' + n' ≤ b ∨ b + n ≤ b') as Hap.
    { intros b' n' Hb'. destruct (whole_facts _ _ _ (A3 _ _ Hb')) as (_ & Hn0 & Ha'). change PAGE_SIZE with 4096 in *.
      destruct (decide (b' + n' ≤ b ∨ b + n ≤ b')) as [|Hno]; [done|]. exfalso. apply (Hout (Z.max b b')); [apply Ha'; lia|lia]. }
    assert (W !! b = None) as HWn.
    { destruct (W !! b) as [k|] eqn:Ek; [|done]. destruct (whole_facts _ _ _ (A3 _ _ Ek)) as (_ & Hk0 & _). change PAGE_SIZE with 4096 in *. pose proof (Hap _ _ Ek). lia. }
    assert (∀ m, ¬ blk_at R b m false) as HRn.
    { intros m Hm. apply (Hout b); [|change PAGE_SIZE with 4096 in *; lia]. apply (pi_acc _ _ _ _ _ _ HI). eapply (blk_in_regions R b m false); [apply HI|done|].
      destruct (blk_facts R (pi_wf _ _ _ _ _ _ HI) _ _ _ Hm) as (_ & _ & _ & ?). lia. }
    exists (n - 16). unfold buffer. change BHDR_OVERHEAD with 16. split.
    { destruct (B !! (b + 16)) as [m|] eqn:EB; [|done]. apply A7 in EB. replace (b + 16 - 16) with b in EB by lia. destruct EB as [EB|EB]; [by apply HRn in EB|congruence]. }
    split; [lia|]. split; [lia|]. exists R, L, (<[b := n]> W). split; cbn [x_world x_pools x_xenpool set_world].
    + done.
    + by exists p.
    + intros b' n' [[<- <-]|[_ Hb']]%lookup_insert_Some; [done|by apply HW'].
    + intros b1 n1 b2 n2 [[<- <-]|[_ H1]]%lookup_insert_Some [[<- <-]|[_ H2]]%lookup_insert_Some Hlt; [lia| | |by eapply A4].
      * destruct (whole_facts _ _ _ (A3 _ _ H2)) as (_ & ? & _). pose proof (Hap _ _ H2). change PAGE_SIZE with 4096 in *. lia.
      * pose proof (Hap _ _ H1). change PAGE_SIZE with 4096 in *. lia.
    + intros b' n' x [[<- <-]|[_ Hb']]%lookup_insert_Some Hx; [|by apply (A5 b' n')]. intros Hin. apply (Hout x); [by apply (pi_acc _ _ _ _ _ _ HI)|done].
    + intros x. unfold acc. rewrite Hh. intros [Hx|Hx]%elem_of_union.
      * apply A6 in Hx as [?|[?|(b' & n' & Hb' & ?)]]; [auto|auto|]. right; right. exists b', n'. rewrite lookup_insert_ne by congruence. done.
      * right; right. exists b, n. rewrite lookup_insert_eq. split; [done|]. by apply elem_pages_of in Hx.
    + intros x (Hx & Hn0 & HnW)%A8. split; [by apply Hsub|]. split; [done|].
      intros b' n' [[<- <-]|[_ Hb']]%lookup_insert_Some; [by apply Hout|by apply HnW].
    + intros r m. rewrite !lookup_insert_Some, A7. split.
      * intros [[<- <-]|[Hne [?|?]]]; [right; left; split; lia|auto|right; right; split; [lia|done]].
      * intros [Hr|[[Eb En]|[Hne Hr]]]; [right; split; [|auto]|left; split; lia|right; split; [lia|auto]].
        intros <-. replace (b + 16 - 16) with b in Hr by lia. by apply HRn in Hr.
Qed.

(** ** Freeing *)

Definition raw_free_ok (s s' : xmstate (H:=H)) (P : gset Z) (B : gmap Z Z) (r : Z) : Prop :=
  x_xenpool s' = x_xenpool s ∧ raw_inv s' P (delete r B) ∧
  ∀ x, raw_cell (delete r B) x → peek (x_world s') x = peek (x_world s) x.

(** Two blocks do not share an address. *)
Lemma raw_kind s P R L W B b m k : raw_rep s P R L W B → blk_at R b m false → W !! b = Some k → False.
Proof.
  intros HR Hb Hw. destruct (rr_pool _ _ _ _ _ _ HR) as (p & _ & _ & HI & _). pose proof (pi_wf _ _ _ _ _ _ HI) as HW.
  destruct (blk_facts R HW _ _ _ Hb) as (_ & _ & _ & ?). destruct (whole_facts _ _ _ (rr_whole _ _ _ _ _ _ HR _ _ Hw)) as (_ & Hk & _). change PAGE_SIZE with 4096 in *.
  apply (rr_apart _ _ _ _ _ _ HR _ _ b Hw); [lia|]. eapply (blk_in_regions R b m false); [done|done|lia].
Qed.

Lemma xenpool_free_spec s P R L W B r n p :
  raw_rep s P R L W B → x_pools s !! x_xenpool s = Some p → blk_at R (r - 16) n false →
  ∃ p' w', xmem_pool_free putm r p (x_world s) = Ok (p', w') ∧ raw_free_ok s (set_pool (x_xenpool s) p' w' s) P B r.
Proof using XH junk.
  intros HR Hp Hb. pose proof HR as [A1 (p0 & Hp0 & Hx0 & HI & Hrd) A3 A4 A5 A6 A8 A7]. rewrite Hp in Hp0. injection Hp0 as <-.
  destruct (xmem_pool_free_spec xenpool_sizes xenpool_granted wok getm putm p (x_world s) R L (r - 16) n HI A1 Hb)
    as (p' & w' & R' & L' & E & HI' & Hw' & Hused & Hk & Hh & Hacc & Hreg & _ & _ & _ & Hir).
  unfold buffer in E. change BHDR_OVERHEAD with 16 in E. replace (r - 16 + 16) with r in E by lia. exists p', w'. split; [done|].
  assert (∀ b k x, W !! b = Some k → b ≤ x < b + k → acc w' x) as HWa.
  { intros b k x Hbk Hx. apply Hacc. split; [by apply (whole_facts _ _ _ (A3 _ _ Hbk))|]. intros Hin. by apply (A5 _ _ x Hbk) in Hin. }
  assert (∀ b k x, W !! b = Some k → b ≤ x < b + k → peek w' x = peek (x_world s) x) as HWk.
  { intros b k x Hbk Hx. pose proof (A5 _ _ x Hbk Hx) as Hn. apply Hk; [by eapply HWa|by left|].
    intros Hin. apply Hn. eapply (blk_in_regions R (r - 16) n false); [apply HI|done|lia]. }
  split; [done|]. split.
  - exists R', L', W. split; cbn [x_world x_pools x_xenpool set_pool].
    + done.
    + exists p'. rewrite lookup_insert_eq. split; [done|]. split; [done|]. split; [done|]. intros E0. rewrite Hir in E0. pose proof (Hrd E0) as HR0.
      rewrite HR0 in Hb. destruct Hb as (r0 & l & Hl & _). by rewrite lookup_empty in Hl.
    + intros b k Hbk. pose proof (A3 _ _ Hbk) as HW. destruct (whole_facts _ _ _ HW) as (Pb & Hk0 & _). change PAGE_SIZE with 4096 in Hk0.
      destruct HW as [B1 B2 B3 B4 B5 B6]. split; try done.
      * intros pg Hpg. apply elem_pages in Hpg; [|done|apply B2]. pose proof (HWa b k (pg * PAGE_SIZE) Hbk Hpg) as Ha. unfold acc in Ha. by rewrite Z.div_mul in Ha.
      * rewrite (HWk b k) by (done || (unfold a_size; lia)). done.
    + done.
    + intros b k x Hbk Hx Hin. by apply (A5 b k x Hbk Hx), Hreg.
    + intros x [Hx Hin]%Hacc. apply A6 in Hx as [?|[?|?]]; auto.
    + intros x (Hx & Hn0 & HnW)%A8. split; [by apply Hacc|]. split; [|done]. by intros Hin%Hreg.
    + intros r' n'. rewrite lookup_delete_Some, A7, Hused. split.
      * intros [Hne [?|?]]; [left; split; [done|lia]|auto].
      * intros [[Hb' Hne]|Hb']; [split; [intros ->; lia|auto]|]. split; [|auto]. intros <-. by eapply raw_kind.
  - intros x (r' & n' & [Hne Hr']%lookup_delete_Some & Hx). cbn [x_world set_pool]. apply A7 in Hr' as [Hr'|Hr'].
    + assert (blk_at R' (r' - 16) n' false) as Hb' by (apply Hused; split; [done|lia]). apply Hk.
      * apply (pi_acc _ _ _ _ _ _ HI'). eapply (blk_in_regions R'); [apply HI'|exact Hb'|lia].
      * right. exists (r' - 16), n'. split; [done|lia].
      * destruct (blk_disj R (pi_wf _ _ _ _ _ _ HI) _ _ _ _ _ _ Hr' Hb) as [(? & _)|?]; lia.
    + apply (HWk _ _ _ Hr'). lia.
Qed.

Lemma free_pages_spec s P R L W B r n :
  raw_rep s P R L W B → W !! (r - 16) = Some (n + 16) →
  ∃ w', free_pieces free_xenheap_pages 64 0 (get_order_from_bytes (n + 16)) (r - 16) (x_world s) = Ok w' ∧ raw_free_ok s (set_world w' s) P B r.
Proof using XH junk.
  intros HR Hb. pose proof HR as [A1 (p & Hp & Hp0 & HI & Hrd) A3 A4 A5 A6 A8 A7]. pose proof (A3 _ _ Hb) as HWb.
  destruct (free_whole_spec alloc_xenheap_pages free_xenheap_pages _ _ _ A1 HWb) as (w' & E & Hw' & Hh & Hk). exists w'. split; [done|].
  destruct (whole_facts _ _ _ HWb) as (Pb & Hn & _). destruct (wh_size _ _ _ HWb) as [Pn _]. set (b := r - 16) in *.
  assert (∀ x, acc w' x ↔ acc (x_world s) x ∧ ¬ (b ≤ x < b + (n + 16))) as Hacc.
  { intros x. unfold acc. rewrite Hh, elem_of_difference, elem_pages_of by done. done. }
  assert (∀ b' n' x, W !! b' = Some n' → b' ≠ b → b' ≤ x < b' + n' → ¬ (b ≤ x < b + (n + 16))) as Hap.
  { intros b' n' x Hb' Hne Hx Hin. destruct (Z.lt_trichotomy b b') as [Hlt|[|Hlt]]; [|by subst|]; [pose proof (A4 _ _ _ _ Hb Hb' Hlt)|pose proof (A4 _ _ _ _ Hb' Hb Hlt)]; lia. }
  assert (∀ x, in_regions R x → acc w' x) as HRa.
  { intros x Hx. apply Hacc. split; [by apply (pi_acc _ _ _ _ _ _ HI)|]. intros Hin. by apply (A5 _ _ x Hb). }
  split; [done|]. split.
  - exists R, L, (delete b W). split; cbn [x_world x_pools x_xenpool set_world].
    + done.
    + exists p. split; [done|]. split; [done|]. split; [|done]. apply (inv_regions_memory _ _ p (x_world s)); [done|]. intros x Hx. split; [by apply HRa|by apply Hk, HRa].
    + intros b' n' [Hne Hb']%lookup_delete_Some. pose proof (A3 _ _ Hb') as HW. destruct (whole_facts _ _ _ HW) as (Pb' & Hk0 & Ha'). change PAGE_SIZE with 4096 in Hk0.
      assert (∀ x, b' ≤ x < b' + n' → acc w' x) as Ha2 by (intros x Hx; apply Hacc; split; [by apply Ha'|by eapply Hap]).
      destruct HW as [B1 B2 B3 B4 B5 B6]. split; try done.
      * intros pg Hpg. apply elem_pages in Hpg; [|done|apply B2]. pose proof (Ha2 (pg * PAGE_SIZE) Hpg) as Ha. unfold acc in Ha. by rewrite Z.div_mul in Ha.
      * rewrite Hk by (apply Ha2; unfold a_size; lia). done.
    + intros b1 n1 b2 n2 [_ H1]%lookup_delete_Some [_ H2]%lookup_delete_Some. by eapply A4.
    + intros b' n' x [_ Hb']%lookup_delete_Some. by apply A5.
    + intros x [Hx Hin]%Hacc. apply A6 in Hx as [?|[?|(b' & n' & Hb' & Hx)]]; [auto|auto|]. right; right. exists b', n'. split; [|done].
      apply lookup_delete_Some. split; [|done]. intros <-. rewrite Hb in Hb'. injection Hb' as <-. lia.
    + intros x (Hx & Hn0 & HnW)%A8. split; [apply Hacc; split; [done|by apply HnW]|]. split; [done|].
      intros b' n' [_ Hb']%lookup_delete_Some. by apply HnW.
    + intros r' n'. rewrite !lookup_delete_Some, A7. split.
      * intros [Hne [?|?]]; [auto|right; split; [unfold b; lia|done]].
      * intros [Hr'|[Hne Hr']]; [|split; [unfold b in *; intros ->; lia|auto]]. split; [|auto]. intros <-. by eapply raw_kind.
  - intros x Hx. apply Hk. assert (raw_cell B x) as HxB by (destruct Hx as (r' & n' & [_ ?]%lookup_delete_Some & ?); by exists r', n').
    apply Hacc. split; [by apply (raw_other _ _ _ _ _ _ _ HR HxB)|]. destruct Hx as (r' & n' & [Hne Hr']%lookup_delete_Some & Hx).
    assert (B !! r = Some n) as Hr by (apply A7; auto). destruct (raw_disj _ _ _ _ _ _ _ _ _ _ HR Hr Hr' Hne); unfold b; lia.
Qed.

Lemma raw_free_spec s P B r n :
  raw_inv s P B → B !! r = Some n →
  ∃ s', (let b := r - BHDR_OVERHEAD in
         let! bsize := rd (a_size b) (x_world s) in
         if PAGE_SIZE <=? bsize then
           let order := get_order_from_bytes bsize in
           BUG_ON (negb (Z.land b (Z.shiftl PAGE_SIZE order - 1) =? 0))
             (let! w1 := free_pieces free_xenheap_pages 64 0 order b (x_world s) in Ok (set_world w1 s))
         else
           deref (x_pools s !! x_xenpool s) (λ pl,
             let! (pl', w1) := xmem_pool_free putm r pl (x_world s) in
             Ok (set_pool (x_xenpool s) pl' w1 s))) = Ok s' ∧ raw_free_ok s s' P B r.
Proof using XH junk.
  intros (R & L & W & HR) Hr. destruct (raw_facts _ _ _ _ _ _ _ _ HR Hr) as (_ & _ & Hn16 & Ha & _). change BHDR_OVERHEAD with 16. cbv zeta.
  rewrite rd_ok by (apply Ha; unfold a_size; lia). cbn [mbind outcome_bind]. destruct (rr_pool _ _ _ _ _ _ HR) as (p & Hp & _ & HI & _).
  apply (rr_blocks _ _ _ _ _ _ HR) in Hr as [Hr|Hr].
  - destruct (used_header p _ R L _ _ HI Hr) as (pf & ->). pose proof (used_small p _ R L _ _ HI Hr) as Hn.
    destruct (Z.leb_spec PAGE_SIZE (enc n false pf)) as [Hle|_]; [unfold enc in Hle; destruct pf; simpl in Hle; lia|].
    rewrite Hp. cbn [deref]. destruct (xenpool_free_spec s P R L W B r n p HR Hp Hr) as (p' & w' & -> & Hok). cbn [mbind outcome_bind]. eauto.
  - pose proof (rr_whole _ _ _ _ _ _ HR _ _ Hr) as HW. rewrite (wh_header _ _ _ HW). destruct (whole_facts _ _ _ HW) as (_ & Hn & _).
    destruct (Z.leb_spec PAGE_SIZE (n + 16)); [|lia]. destruct (free_pages_spec s P R L W B r n HR Hr) as (w' & -> & Hok).
    assert (2 ^ (MAX_ORDER + 12) = 2 ^ 30) as E30 by done. destruct (wh_size _ _ _ HW) as [_ Hr30]. destruct (get_order_spec (n + 16) ltac:(lia)) as (Ho & _).
    rewrite page_shiftl by lia. replace (2 ^ (get_order_from_bytes (n + 16) + 12) - 1) with (Z.ones (get_order_from_bytes (n + 16) + 12)) by (by rewrite Z.ones_equiv, <- Z.sub_1_r).
    rewrite Z.land_ones by lia. rewrite (proj2 (Z.mod_divide (r - 16) _ (Z.pow_nonzero 2 (get_order_from_bytes (n + 16) + 12) ltac:(lia) ltac:(lia))) (wh_aligned _ _ _ HW)).
    cbn [negb Z.eqb BUG_ON mbind outcome_bind]. eauto.
Qed.
End raw.
