(* ===== verification/XmallocOps.v ===== *)
(** * What [xmalloc] and [xfree] do

    Alignment padding in front of a block is found again when it is freed. *)

From S2P Require Import Prelude BootMem PageAlloc PageAllocInv PageAllocProps.
From S2P Require Import Tlsf TlsfMap TlsfLists TlsfBlocks TlsfInv TlsfAlloc TlsfFree HeapSpec TlsfProps Xmalloc XmallocPages XmallocInv.
Local Open Scope xen_scope.

(** ** Alignment *)

Lemma pow2_check k : 0 ≤ k → Z.land (2 ^ k) (2 ^ k - 1) = 0.
Proof. intros Hk. rewrite Z.sub_1_r, <- Z.ones_equiv, Z.land_ones by done. by apply Z.mod_same, Z.pow_nonzero. Qed.

Lemma land_mask x k : 0 ≤ k → Z.land x (2 ^ k - 1) = x mod 2 ^ k.
Proof. intros Hk. by rewrite Z.sub_1_r, <- Z.ones_equiv, Z.land_ones. Qed.

(** The padding to the next multiple of [2 ^ k]. *)
Lemma padding_spec r k :
  4 ≤ k ≤ 32 → (16 | r) →
  let pad := u32 (Z.land (- r) (2 ^ k - 1)) in
  (2 ^ k | r + pad) ∧ 0 ≤ pad ≤ 2 ^ k - 16 ∧ (16 | pad) ∧ pad < 2 ^ 32.
Proof.
  intros Hk [c Hc] pad. assert (2 ^ k = 16 * 2 ^ (k - 4)) as Ek by (change 16 with (2 ^ 4); rewrite <- Z.pow_add_r by lia; f_equal; lia).
  pose proof (Z.pow_pos_nonneg 2 (k - 4) ltac:(lia) ltac:(lia)) as Hp. pose proof (Z.pow_le_mono_r 2 k 32 ltac:(lia) ltac:(lia)).
  pose proof (Z.mod_pos_bound (- r) (2 ^ k) ltac:(lia)) as Hm. assert (pad = (- r) mod 2 ^ k) as -> by (unfold pad; rewrite land_mask by lia; apply u32_small; lia).
  pose proof (Z.div_mod (- r) (2 ^ k) ltac:(lia)) as Hd. set (q := (- r) / 2 ^ k) in *. set (m := (- r) mod 2 ^ k) in *.
  assert (16 | m) as Dm by (exists (- c - 2 ^ (k - 4) * q); nia). split; [exists (- q); lia|]. split; [|split; [done|lia]].
  destruct Dm as [d ->]. split; [lia|]. assert (d < 2 ^ (k - 4)) by lia. lia.
Qed.

Lemma lor_pad pad : (16 | pad) → 0 ≤ pad → Z.lor pad 1 = pad + 1 ∧ Z.land (Z.lor pad 1) 1 = 1 ∧ Z.ldiff (Z.lor pad 1) 1 = pad.
Proof.
  intros [c Hc] Hp. assert (Z.testbit pad 0 = false) as Hb.
  { rewrite Z.bit0_odd, Hc. replace (c * 16) with (0 + 2 * (c * 8)) by lia. by rewrite Z.odd_add_mul_2. }
  split; [|split].
  - change 1 with (2 ^ 0). by rewrite lor_pow2_clear.
  - rewrite Z.land_lor_distr_l. change 1 with (2 ^ 0). apply Z.bits_inj'. intros i Hi. rewrite Z.lor_spec, !Z.land_spec.
    destruct (decide (i = 0)) as [-> |]; [by rewrite Hb|]. rewrite !Z.pow2_bits_false by lia. by rewrite !andb_false_r.
  - apply Z.bits_inj'. intros i Hi. rewrite Z.ldiff_spec, Z.lor_spec. change 1 with (2 ^ 0).
    destruct (decide (i = 0)) as [-> |]; [by rewrite Hb|]. rewrite !Z.pow2_bits_false by lia. by rewrite orb_false_r, andb_true_r.
Qed.

Section ops.
Context {H : Type} (alloc_xenheap_pages : Z → H → outcome (Z * H)) (free_xenheap_pages : Z → Z → H → outcome H)
  (near : Z → Z → Prop) (xh : H → gset Z → Prop) {XH : XenHeap alloc_xenheap_pages free_xenheap_pages near xh} (junk : H → gmap Z Z)
  (sizeof_pool : Z) (Hsizeof : 0 < sizeof_pool < 2 ^ 31).

Abbreviation rinv := (raw_inv near xh).
Abbreviation init := (tlsf_init alloc_xenheap_pages junk sizeof_pool).
Abbreviation malloc := (_xmalloc alloc_xenheap_pages free_xenheap_pages junk sizeof_pool false).

(** The address [ptr] of [size] bytes lies in the block [r]; if it is not the
    address of the block, the distance is stored in front of it. *)
Definition placed (w : world H) (B : gmap Z Z) (ptr size r : Z) : Prop :=
  ∃ n, B !! r = Some n ∧
    (ptr = r ∧ size ≤ n ∨
     r < ptr < r + 2 ^ 32 ∧ (16 | ptr - r) ∧ ptr - r + size ≤ n ∧ peek w (ptr - 8) = Z.lor (ptr - r) 1).

(** ** The first call *)

Lemma tlsf_init_spec s s1 :
  heap_ok (xh:=xh) (x_world s) → init s = Ok s1 → rinv s1 (w_held (x_world s1)) ∅ ∧ x_xenpool s1 ≠ 0.
Proof using XH Hsizeof.
  intros Hw E. unfold tlsf_init, xmem_pool_create in E. cbn [Z.eqb negb andb BUG_ON x_world x_pools x_list x_xenpool] in E.
  assert (0 ≤ pool_order sizeof_pool) as Ho.
  { unfold pool_order. destruct (roundup_size sizeof_pool ltac:(lia)) as [? ?]. destruct (get_order_spec (ROUNDUP_SIZE sizeof_pool) ltac:(lia)). lia. }
  destruct (get_pages_spec alloc_xenheap_pages free_xenheap_pages junk (pool_order sizeof_pool) (x_world s) Hw Ho) as (a & w' & Eg & Hw' & _ & Hor).
  rewrite Eg in E. cbn [mbind outcome_bind] in E. destruct (Z.eqb_spec a 0) as [-> |Ha]; cbn [mbind outcome_bind] in E; [done|].
  apply BUG_ON_inv in E as [_ [= <-]]. split; [|done]. exists ∅, ∅, ∅.
  split; cbn [x_world x_pools x_xenpool]; try done.
  - eexists. rewrite lookup_insert_eq. split; [done|]. split; [done|]. split; [|done].
    apply (pr_inv _ _ _ _ _ _ _ (new_pool_rep xenpool_sizes xenpool_granted (heap_ok (xh:=xh)) PAGE_SIZE 0 PAGE_SIZE w' Hw' eq_refl eq_refl)).
  - intros x Hx. by left.
  - intros x Hx. split; [done|]. split; [|by intros ??]. intros (? & ? & Hl & _). by rewrite lookup_empty in Hl.
  - intros r n. rewrite !lookup_empty. split; [done|]. intros [(? & l & Hl & _)|?]; [by rewrite lookup_empty in Hl|done].
Qed.

(** ** Allocation *)

Lemma set_world_id (s : xmstate (H:=H)) : set_world (x_world s) s = s.
Proof. by destruct s. Qed.

Lemma add_padding_spec s P B r n size k :
  rinv s P B → B !! r = Some n → 4 ≤ k ≤ 31 → 0 ≤ size → size + (2 ^ k - 16) ≤ n →
  ∃ q w', add_padding r (2 ^ k) (x_world s) = Ok (q, w') ∧ rinv (set_world w' s) P B ∧ (2 ^ k | q) ∧ 0 < q ∧
    placed w' B q size r ∧ ∀ x, ¬ (r ≤ x < r + n) → peek w' x = peek (x_world s) x.
Proof.
  intros HR Hr Hk Hs Hn. pose proof HR as (R & L & W & HRR). destruct (raw_facts _ _ _ _ _ _ _ _ _ _ HRR Hr) as (Dr & Hr16 & Hn16 & Ha & _).
  destruct (padding_spec r k ltac:(lia) Dr) as (Dq & Hpad & Dpad & H32). unfold add_padding. set (pad := u32 (Z.land (- r) (2 ^ k - 1))) in *.
  destruct (Z.eqb_spec pad 0) as [E|Hne]; cbn [negb].
  - exists r, (x_world s). split; [done|]. rewrite set_world_id. split; [done|]. rewrite E, Z.add_0_r in Dq. split; [done|]. split; [lia|]. split; [|done].
    exists n. split; [done|]. left. lia.
  - assert (16 ≤ pad) by (destruct Dpad as [d Hd]; lia). destruct (Z.ltb_spec r (r + pad)); [|lia]. cbn [negb BUG_ON]. unfold a_size. change BHDR_OVERHEAD with 16.
    rewrite wr_ok by (apply Ha; lia). cbn [mbind outcome_bind]. eexists _, _. split; [done|].
    assert (raw_cell B (r + pad - 16 + 8)) as Hc by (exists r, n; split; [done|lia]).
    split; [by apply raw_write|]. split; [done|]. split; [lia|]. split.
    + exists n. split; [done|]. right. replace (r + pad - r) with pad by lia. split; [lia|]. split; [done|]. split; [lia|].
      replace (r + pad - 8) with (r + pad - 16 + 8) by lia. apply peek_poke.
    + intros x Hx. apply peek_poke_ne. lia.
Qed.

(** Nothing, or an aligned address in a fresh block. *)
Definition malloc_ok (s s' : xmstate (H:=H)) (P : gset Z) (B : gmap Z Z) (size align res : Z) : Prop :=
  (∀ x, raw_cell B x → peek (x_world s') x = peek (x_world s) x) ∧
  (res = 0 ∧ rinv s' P B ∨
   ∃ r n, B !! r = None ∧ rinv s' P (<[r := n]> B) ∧ placed (x_world s') (<[r := n]> B) res size r ∧ (align | res) ∧ 0 < res).

Lemma raw_alloc_either s P B size :
  rinv s P B → 0 ≤ size < 2 ^ 62 →
  ∃ r s', (let! (p, s) := (if size <? PAGE_SIZE then xenpool_alloc alloc_xenheap_pages junk size s else Ok (0, s)) in
           if p =? 0 then let! (p, w) := xmalloc_whole_pages alloc_xenheap_pages free_xenheap_pages junk size (x_world s) in Ok (p, set_world w s)
           else Ok (p, s)) = Ok (r, s') ∧ x_xenpool s' = x_xenpool s ∧ raw_alloc_ok near xh s s' P B size r.
Proof using XH.
  intros HR Hs.
  assert (∃ p s1, (if size <? PAGE_SIZE then xenpool_alloc alloc_xenheap_pages junk size s else Ok (0, s)) = Ok (p, s1) ∧
    x_xenpool s1 = x_xenpool s ∧ raw_alloc_ok near xh s s1 P B size p) as (p & s1 & -> & E1 & Hk1 & Hor).
  { destruct (Z.ltb_spec size PAGE_SIZE); [by apply (xenpool_alloc_spec alloc_xenheap_pages free_xenheap_pages near xh junk s P B size HR); lia|].
    exists 0, s. split; [done|]. split; [done|]. split; [done|]. by left. }
  cbn [mbind outcome_bind]. destruct Hor as [[-> HR1]|(n & Hnone & Hp & Hn & HR1)].
  - cbn [Z.eqb]. destruct (xmalloc_pages_spec alloc_xenheap_pages free_xenheap_pages near xh junk s1 P B size HR1 Hs) as (r & w' & -> & Hk2 & Hor). cbn [mbind outcome_bind].
    eexists r, _. split; [done|]. split; [done|]. split; [|done]. intros x Hx. rewrite Hk2 by done. by apply Hk1.
  - rewrite (proj2 (Z.eqb_neq p 0)) by lia. exists p, s1. split; [done|]. split; [done|]. split; [done|]. right. eauto.
Qed.

Lemma raw_cell_insert B r n x : B !! r = None → raw_cell B x → raw_cell (<[r := n]> B) x.
Proof. intros Hr (r' & n' & Hr' & Hx). exists r', n'. rewrite lookup_insert_ne by congruence. done. Qed.

(** The block [r] is apart from the cells of the others. *)
Lemma raw_apart s P B r n x : rinv s P (<[r := n]> B) → B !! r = None → raw_cell B x → ¬ (r ≤ x < r + n).
Proof.
  intros (R & L & W & HR) Hr (r' & n' & Hr' & Hx) Hin. assert (r ≠ r') as Hne by congruence.
  destruct (raw_disj _ _ _ _ _ _ _ _ r n r' n' HR); [apply lookup_insert_eq|by rewrite lookup_insert_ne|done|lia|lia].
Qed.

Lemma xmalloc_spec s P B size k :
  rinv s P B → x_xenpool s ≠ 0 → 0 ≤ size ≤ 2 ^ 61 → 0 ≤ k ≤ 31 →
  ∃ res s', malloc size (2 ^ k) s = Ok (res, s') ∧ x_xenpool s' = x_xenpool s ∧ malloc_ok s s' P B size (2 ^ k) res.
Proof using XH.
  intros HR Hp Hs Hk. unfold _xmalloc. cbn [BUG_ON]. rewrite pow2_check by lia. cbn [Z.eqb negb BUG_ON]. change MEM_ALIGN with 16.
  assert (∃ j, 4 ≤ j ≤ 31 ∧ (if 2 ^ k <? 16 then 16 else 2 ^ k) = 2 ^ j ∧ (2 ^ k | 2 ^ j)) as (j & Hj & -> & Hdj).
  { destruct (Z.ltb_spec (2 ^ k) 16) as [Hlt|Hge].
    - exists 4. split; [lia|]. split; [done|]. change 16 with (2 ^ 4) in Hlt. apply Z.pow_lt_mono_r_iff in Hlt; [|lia|lia]. apply (divide_pow_le k 4); [lia|done].
    - exists k. split; [|split; [done|done]]. change 16 with (2 ^ 4) in Hge. apply Z.pow_le_mono_r_iff in Hge; lia. }
  assert (16 ≤ 2 ^ j ≤ 2 ^ 31) as Hj2 by (split; [change 16 with (2 ^ 4)|]; apply Z.pow_le_mono_r; lia).
  cbv zeta. rewrite u64_small by lia. rewrite (proj2 (Z.eqb_neq _ _) Hp). cbn [mbind outcome_bind].
  destruct (raw_alloc_either s P B (size + (2 ^ j - 16)) HR ltac:(lia)) as (r & s1 & Erun & E1 & Hk1 & Hor).
  apply Ok_bind_inv in Erun as ([p0 s0] & -> & Erun). cbn [mbind outcome_bind]. rewrite Erun. cbn [mbind outcome_bind].
  destruct Hor as [[-> HR1]|(n & Hnone & Hr & Hn & HR1)].
  - unfold add_padding. rewrite Z.opp_0, Z.land_0_l. change (u32 0) with 0. cbn [Z.eqb negb mbind outcome_bind]. rewrite Z.land_0_l. cbn [Z.eqb negb BUG_ON]. rewrite set_world_id. exists 0, s1. split; [done|]. split; [done|]. split; [done|]. by left.
  - destruct (add_padding_spec s1 P _ r n size j HR1 (lookup_insert_eq _ _ _) Hj ltac:(lia) ltac:(lia)) as (q & w' & -> & HR2 & Dq & Hq & Hpl & Hk2).
    cbn [mbind outcome_bind]. rewrite land_mask by lia. rewrite (proj2 (Z.mod_divide q (2 ^ j) ltac:(lia)) Dq). cbn [Z.eqb negb BUG_ON].
    eexists q, _. split; [done|]. split; [done|]. split.
    + intros x Hx. cbn [x_world set_world]. rewrite Hk2; [by apply Hk1|]. by eapply raw_apart.
    + right. exists r, n. split; [done|]. split; [done|]. split; [done|]. split; [|done]. by etrans.
Qed.

(** ** Clearing *)

Lemma zero_cells_spec m x s P B :
  rinv s P B → (∀ y, x ≤ y < x + 8 * Z.of_nat m → raw_cell B y) →
  ∃ w', zero_cells m x (x_world s) = Ok w' ∧ rinv (set_world w' s) P B ∧
    (∀ i, (i < m)%nat → peek w' (x + 8 * Z.of_nat i) = 0) ∧
    ∀ y, ¬ (x ≤ y < x + 8 * Z.of_nat m) → peek w' y = peek (x_world s) y.
Proof.
  revert x s. induction m as [|m IH]; intros x s HR Hc.
  { exists (x_world s). rewrite set_world_id. split; [done|]. split; [done|]. split; [lia|done]. }
  assert (raw_cell B x) as Hx by (apply Hc; lia). pose proof HR as (R & L & W & HRR). destruct (raw_other _ _ _ _ _ _ _ _ _ HRR Hx) as [_ Ha].
  cbn [zero_cells]. rewrite wr_ok by done. cbn [mbind outcome_bind].
  destruct (IH (x + 8) (set_world (poke x 0 (x_world s)) s)) as (w' & E & HR' & Hz & Hk); [by apply raw_write|intros y Hy; apply Hc; lia|].
  cbn [x_world set_world] in *. exists w'. split; [done|]. split; [done|]. split.
  - intros [|i] Hi; [rewrite Z.mul_0_r, Z.add_0_r, Hk by lia; apply peek_poke|].
    replace (x + 8 * Z.of_nat (S i)) with (x + 8 + 8 * Z.of_nat i) by lia. apply Hz. lia.
  - intros y Hy. rewrite Hk by lia. apply peek_poke_ne. lia.
Qed.

Lemma memset0_spec x size s P B :
  rinv s P B → 0 ≤ size → (∀ y, x ≤ y < x + size → raw_cell B y) →
  ∃ w', memset0 x size (x_world s) = Ok w' ∧ rinv (set_world w' s) P B ∧
    (∀ i, (i < Z.to_nat (size / 8))%nat → peek w' (x + 8 * Z.of_nat i) = 0) ∧
    ∀ y, ¬ (x ≤ y < x + size) → peek w' y = peek (x_world s) y.
Proof.
  intros HR Hs Hc. pose proof (Z.div_mod size 8 ltac:(lia)) as Hd. pose proof (Z.mod_pos_bound size 8 ltac:(lia)) as Hm.
  assert (0 ≤ size / 8) as Hq by (apply Z.div_pos; lia).
  destruct (zero_cells_spec (Z.to_nat (size / 8)) x s P B HR) as (w1 & E & HR1 & Hz & Hk); [intros y Hy; apply Hc; lia|].
  unfold memset0. rewrite E. cbn [mbind outcome_bind]. rewrite Z2Nat.id in Hk by lia. destruct (Z.eqb_spec (size mod 8) 0) as [E0|Hne].
  { exists w1. split; [done|]. split; [done|]. split; [done|]. intros y Hy. apply Hk. lia. }
  set (z := x + 8 * (size / 8)). assert (raw_cell B z) as Hcz by (apply Hc; unfold z; lia). pose proof HR1 as (R & L & W & HRR).
  destruct (raw_other _ _ _ _ _ _ _ _ _ HRR Hcz) as [_ Ha]. cbn [x_world set_world] in Ha. rewrite rd_ok by done. cbn [mbind outcome_bind]. rewrite wr_ok by done.
  eexists. split; [done|]. split; [by apply (raw_write _ _ (set_world w1 s))|]. split.
  - intros i Hi. rewrite peek_poke_ne by (unfold z; lia). by apply Hz.
  - intros y Hy. rewrite peek_poke_ne by (unfold z; lia). apply Hk. lia.
Qed.

(** ** Freeing *)

Lemma strip_padding_spec s P B ptr size r :
  rinv s P B → 0 ≤ size → placed (x_world s) B ptr size r → strip_padding ptr (x_world s) = Ok r.
Proof.
  intros (R & L & W & HR) Hs (n & Hr & Hor). destruct (raw_facts _ _ _ _ _ _ _ _ _ _ HR Hr) as (Dr & Hr16 & Hn & Ha & He).
  unfold strip_padding. change BHDR_OVERHEAD with 16. destruct Hor as [[-> _]|(Hp & Dp & Hle & Epk)].
  - rewrite rd_ok by (apply Ha; unfold a_size; lia). cbn [mbind outcome_bind]. by rewrite He.
  - destruct (lor_pad (ptr - r) Dp ltac:(lia)) as (_ & E1 & E2). assert (16 ≤ ptr - r) by (destruct Dp as [c Hc]; lia).
    rewrite rd_ok by (apply Ha; unfold a_size; lia). cbn [mbind outcome_bind]. unfold a_size in *. replace (ptr - 16 + 8) with (ptr - 8) by lia.
    rewrite Epk, E1, E2. cbn [Z.eqb negb]. replace (ptr - (ptr - r)) with r by lia.
    rewrite rd_ok by (apply Ha; lia). cbn [mbind outcome_bind]. by rewrite He.
Qed.

Lemma xfree_spec s P B ptr size r :
  rinv s P B → 0 ≤ size → placed (x_world s) B ptr size r →
  ∃ s', xfree free_xenheap_pages false ptr s = Ok s' ∧ raw_free_ok near xh s s' P B r.
Proof using XH junk.
  intros HR Hs Hpl. pose proof HR as (R & L & W & HRR). pose proof Hpl as (n & Hr & Hor).
  destruct (raw_facts _ _ _ _ _ _ _ _ _ _ HRR Hr) as (_ & Hr16 & _). unfold xfree. rewrite (proj2 (Z.eqb_neq ptr 0)) by lia. cbn [BUG_ON].
  rewrite (strip_padding_spec s P B ptr size r HR Hs Hpl). cbn [mbind outcome_bind].
  apply (raw_free_spec alloc_xenheap_pages free_xenheap_pages near xh junk s P B r n HR Hr).
Qed.
End ops.
