(* ===== verification/XmallocHeap.v ===== *)
(** * The Xen heap under [xmalloc]

    The page allocator of xen/common/page_alloc.c, with frame [n] mapped at
    [n * PAGE_SIZE], is the heap of pages [xmalloc] asks for. *)

From S2P Require Import Prelude BootMem PageAlloc PageAllocInv PageAllocOps PageAllocProps PageDomheap.
From S2P Require Import Tlsf TlsfLists TlsfInv Xmalloc XmallocPages.
Local Open Scope xen_scope.

Section heap.
Context (M : machine).

Definition xen_alloc (order : Z) (s : hstate) : outcome (Z * hstate) :=
  let! (v, s') := alloc_xenheap_pages M order 0 s in
  Ok (match v with Some pg => pg * PAGE_SIZE | None => 0 end, s').
Definition xen_free (a order : Z) (s : hstate) : outcome hstate :=
  free_xenheap_pages M (Some (a / PAGE_SIZE)) order s.

Definition same_node (x y : Z) : Prop := mfn_to_nid M x = mfn_to_nid M y.

(** A page of the Xen heap. *)
Definition xen_page (s : hstate) (x : Z) : Prop :=
  0 < x ∧ Z.log2 x < NR_ZONES ∧ mfn_valid M x = true ∧ is_Some (avail s !! mfn_to_nid M x) ∧
  ∃ p, pages s !! x = Some p ∧ count_info p = Z.lor PGC_state_inuse PGC_xen_heap.

Record xen_ok (s : hstate) (F : gset Z) : Prop := {
  xo_wf : heap_wf M s;
  xo_known : frames_known M (pages s);
  xo_tmem : opt_tmem M = false;
  xo_online : node_set (node_online_map M);
  xo_this : 0 ≤ this_node M < MAX_NUMNODES;
  xo_page x : x ∈ F → xen_page s x;
}.

Lemma xen_page_state s x : xen_page s x → ∃ p, pages s !! x = Some p ∧ page_state_is p PGC_state_free = false.
Proof. intros (_ & _ & _ & _ & p & Hp & Hc). exists p. split; [done|]. unfold page_state_is. by rewrite Hc. Qed.

(** Pages of the Xen heap stay when other pages change. *)
Lemma xen_page_keep s s' x :
  xen_page s x → (∀ n, is_Some (avail s !! n) → is_Some (avail s' !! n)) → relist_page (pages s !! x) (pages s' !! x) → xen_page s' x.
Proof.
  intros Hx Ha Hr. destruct (xen_page_state s x Hx) as (p & Hp & Hf). destruct Hx as (H1 & H2 & H3 & H4 & Hp').
  split; [done|]. split; [done|]. split; [done|]. split; [by apply Ha|]. by rewrite (relist_page_used _ _ p Hr Hp Hf).
Qed.

Lemma pages_block pg order : 0 ≤ order → pages_of (pg * PAGE_SIZE) (2 ^ (order + 12)) = block_set order pg.
Proof.
  intros Ho. apply set_eq. intros x. rewrite elem_pages, elem_of_block_set; [|by exists pg|by apply page_pow].
  unfold in_block. rewrite Z.pow_add_r by lia. change PAGE_SIZE with (2 ^ 12). lia.
Qed.

(** ** Marking pages *)

Lemma mark_pages_spec k pg f s :
  (∀ x, pages (mark_pages k pg f s) !! x =
    if decide (pg ≤ x < pg + Z.of_nat k) then (λ p, set_count (f (count_info p)) p) <$> pages s !! x else pages s !! x) ∧
  heap (mark_pages k pg f s) = heap s ∧ avail (mark_pages k pg f s) = avail s ∧
  total_avail_pages (mark_pages k pg f s) = total_avail_pages s.
Proof.
  revert pg s. induction k as [|k IH]; intros pg s; cbn [mark_pages].
  { split; [|done]. intros x. rewrite decide_False by lia. done. }
  destruct (IH (pg + 1) (upd_page pg (λ p, set_count (f (count_info p)) p) s)) as (Hp & -> & -> & ->). split; [|done].
  intros x. rewrite Hp. cbn [pages upd_page set_pages]. rewrite lookup_alter. destruct (decide (pg = x)) as [<-|Hne].
  - by rewrite decide_False, decide_True by lia.
  - destruct (decide (pg + 1 ≤ x < pg + 1 + Z.of_nat k)); [rewrite decide_True by lia|rewrite decide_False by lia]; done.
Qed.

(** Marking pages in use is not seen by the heap. *)
Lemma mark_pages_wf k pg f s :
  heap_wf M s → frames_known M (pages s) →
  (∀ x, pg ≤ x < pg + Z.of_nat k → ∃ p, pages s !! x = Some p ∧ page_state_is p PGC_state_free = false ∧
    page_state_is (set_count (f (count_info p)) p) PGC_state_free = false) →
  heap_wf M (mark_pages k pg f s) ∧ frames_known M (pages (mark_pages k pg f s)).
Proof.
  intros Hw Hk Hp. destruct (mark_pages_spec k pg f s) as (HP & Hh & Ha & Ht). split.
  - apply (heap_wf_ext M s); try done. intros x q Hq. rewrite HP. destruct (decide (pg ≤ x < pg + Z.of_nat k)) as [Hx|]; [|done].
    destruct (Hp x Hx) as (p & -> & Hf & Hf'). simpl. split; intros [= <-]; congruence.
  - intros x Hx. rewrite HP. destruct (Hk x Hx) as [p ->]. destruct (decide _); by eexists.
Qed.

(** ** Allocation *)

Lemma xenheap_search order s F :
  xen_ok s F → 0 ≤ order →
  ∃ r s', alloc_domheap_pages M None order 0 s = Ok (r, s') ∧ heap_wf M s' ∧
    match r with
    | Some pg => order ≤ MAX_ORDER ∧ Z.log2 pg < NR_ZONES ∧ allocated M order None pg s s'
    | None => s' = s
    end.
Proof.
  intros [Hw Hk Ht Hon Hth _] Ho. unfold alloc_domheap_pages. cbn [mbind outcome_bind]. cbv zeta.
  set (hi := Z.min _ _). assert (hi = NR_ZONES - 1) as -> by (by vm_compute). cbn [Z.eqb NR_ZONES].
  destruct (domheap_search M None order 0 (NR_ZONES - 1) s Hw) as (r & s' & E & Hw' & Hr); [|done|by vm_compute|].
  { split; try done. by right. }
  change (40 - 1) with (NR_ZONES - 1). rewrite E. cbn [mbind outcome_bind]. destruct r as [pg|]; eauto 10.
Qed.

Lemma xen_alloc_spec order s F :
  xen_ok s F → 0 ≤ order →
  ∃ a s', xen_alloc order s = Ok (a, s') ∧
    (a = 0 ∧ xen_ok s' F ∨
     ∃ pg, a = pg * PAGE_SIZE ∧ 0 < pg ∧ order ≤ MAX_ORDER ∧ (2 ^ order | pg) ∧ block_set order pg ## F ∧
       xen_ok s' (F ∪ block_set order pg) ∧ ∀ x y, x ∈ block_set order pg → y ∈ block_set order pg → same_node x y).
Proof.
  intros Hok Ho. pose proof Hok as [Hw Hk Ht Hon Hth Hpg]. destruct (xenheap_search order s F Hok Ho) as (r & s1 & E & Hw1 & Hr).
  unfold xen_alloc, alloc_xenheap_pages. rewrite E. cbn [mbind outcome_bind]. destruct r as [pg|]; cbn [mbind outcome_bind].
  2: { subst s1. exists 0, s. split; [done|]. by left. }
  destruct Hr as (Hm & Hz & Hal). destruct (al_aligned _ _ _ _ _ _ Hal) as [Hpos Hd]. pose proof (Z.pow_pos_nonneg 2 order ltac:(lia) Ho).
  pose proof (allocated_freeable M order None pg s s1 Hw ltac:(lia) Hz Hal) as Hfb. pose proof (allocated_known M order None pg s s1 Hk Hal) as Hk1.
  rewrite Z.shiftl_1_l. set (k := Z.to_nat (2 ^ order)). assert (∀ x, pg ≤ x < pg + Z.of_nat k ↔ in_block order pg x) as Hin by (intros x; unfold in_block, k; lia).
  destruct (mark_pages_spec k pg (λ c, Z.lor c PGC_xen_heap) s1) as (HP & Hh & Ha & Htot).
  assert (∀ x, in_block order pg x → ∃ p, pages s1 !! x = Some p ∧ count_info p = PGC_state_inuse) as Hcl.
  { intros x Hx. destruct (al_free _ _ _ _ _ _ Hal x Hx) as (p & Hp & _). exists (claimed p). by rewrite (al_page _ _ _ _ _ _ Hal x Hx), Hp. }
  destruct (mark_pages_wf k pg (λ c, Z.lor c PGC_xen_heap) s1 Hw1 Hk1) as [Hw2 Hk2].
  { intros x Hx%Hin. destruct (Hcl x Hx) as (p & Hp & Hc). exists p. split; [done|]. unfold page_state_is. cbn [count_info set_count]. by rewrite Hc. }
  eexists _, _. split; [done|]. right. exists pg. split; [done|]. split; [done|]. split; [done|]. split; [done|].
  assert (∀ x, x ∈ F → ¬ in_block order pg x) as Hout.
  { intros x Hx Hb. destruct (xen_page_state s x (Hpg x Hx)) as (p & Hp & Hf). destruct (al_free _ _ _ _ _ _ Hal x Hb) as (q & Hq & Hc & _).
    rewrite Hp in Hq. injection Hq as <-. unfold page_state_is in Hf. by rewrite Hc in Hf. }
  split; [intros x Hx%elem_of_block_set Hf; by apply (Hout x)|]. split.
  - split; try done. intros x [Hx|Hx%elem_of_block_set]%elem_of_union.
    + assert (xen_page s1 x) as Hx1 by (apply (xen_page_keep s); [by apply Hpg|apply Hal|apply Hal; by apply Hout]).
      destruct Hx1 as (G1 & G2 & G3 & G4 & G5). split; [done|]. split; [done|]. split; [done|]. rewrite Ha. split; [done|].
      rewrite HP, decide_False; [done|]. rewrite Hin. by apply Hout.
    + destruct (Hcl x Hx) as (p & Hp & Hc). destruct (al_free _ _ _ _ _ _ Hal x Hx) as (_ & _ & _ & Hv & Hn).
      split; [unfold in_block in Hx; lia|]. split; [|split; [done|]].
      { rewrite (log2_block order pg x); done. }
      rewrite Ha, Hn. split; [apply Hfb|]. rewrite HP, decide_True by (by apply Hin). rewrite Hp. simpl. eexists. split; [done|]. simpl. by rewrite Hc.
  - intros x y Hx%elem_of_block_set Hy%elem_of_block_set. unfold same_node.
    destruct (al_free _ _ _ _ _ _ Hal x Hx) as (_ & _ & _ & _ & ->), (al_free _ _ _ _ _ _ Hal y Hy) as (_ & _ & _ & _ & ->). done.
Qed.

(** ** Freeing *)

Lemma xen_free_spec pg order s F :
  xen_ok s F → 0 ≤ order ≤ MAX_ORDER → 0 < pg → (2 ^ order | pg) → block_set order pg ⊆ F →
  (∀ x y, x ∈ block_set order pg → y ∈ block_set order pg → same_node x y) →
  ∃ s', xen_free (pg * PAGE_SIZE) order s = Ok s' ∧ xen_ok s' (F ∖ block_set order pg).
Proof.
  intros [Hw Hk Ht Hon Hth Hpg] Ho Hpos Hd Hsub Hn. unfold xen_free, free_xenheap_pages. rewrite Z.div_mul by done. cbn [mbind outcome_bind].
  rewrite Z.shiftl_1_l. pose proof (Z.pow_pos_nonneg 2 order ltac:(lia) ltac:(lia)). set (k := Z.to_nat (2 ^ order)).
  assert (∀ x, pg ≤ x < pg + Z.of_nat k ↔ in_block order pg x) as Hin by (intros x; unfold in_block, k; lia).
  assert (∀ x, in_block order pg x → xen_page s x) as Hblk by (intros x Hx; apply Hpg, Hsub; by apply elem_of_block_set).
  set (s1 := mark_pages k pg _ s). destruct (mark_pages_spec k pg (λ c, Z.ldiff c PGC_xen_heap) s) as (HP & Hh & Ha & Htot). fold s1 in HP, Hh, Ha, Htot.
  destruct (mark_pages_wf k pg (λ c, Z.ldiff c PGC_xen_heap) s Hw Hk) as [Hw1 Hk1].
  { intros x Hx%Hin. destruct (Hblk x Hx) as (_ & _ & _ & _ & p & Hp & Hc). exists p. split; [done|]. unfold page_state_is. cbn [count_info set_count]. by rewrite Hc. }
  fold s1 in Hw1, Hk1. assert (in_block order pg pg) as Hhd by (apply in_block_head; lia).
  assert (freeable M order pg s1) as Hfb.
  { destruct (Hblk pg Hhd) as (_ & Hz & _ & Hav & _). split; try done; [by rewrite Ha|]. intros x Hx. destruct (Hblk x Hx) as (_ & _ & Hv & _ & p & Hp & Hc).
    eexists. rewrite HP, decide_True by (by apply Hin). rewrite Hp. split; [done|]. unfold page_state_is, is_xen_heap_page. cbn [count_info set_count]. rewrite Hc.
    split; [done|]. split; [done|]. split; [done|]. split; [done|]. apply Hn; by apply elem_of_block_set. }
  destruct (free_heap_pages_spec M order pg s1 Hw1 Hk1 Hfb) as (s' & -> & Hw' & Hfr). exists s'. split; [done|].
  split; try done; [by apply (freed_known M order pg s1)|]. intros x [Hx Hnb]%elem_of_difference. rewrite elem_of_block_set in Hnb.
  apply (xen_page_keep s1); [|apply Hfr|by apply Hfr]. destruct (Hpg x Hx) as (G1 & G2 & G3 & G4 & G5).
  split; [done|]. split; [done|]. split; [done|]. rewrite Ha. split; [done|]. rewrite HP, decide_False; [done|]. by rewrite Hin.
Qed.

(** The page allocator serves [xmalloc]. *)
#[export] Instance xen_heap : XenHeap xen_alloc xen_free same_node xen_ok.
Proof.
  split.
  - done.
  - intros order s F Hok Ho. destruct (xen_alloc_spec order s F Hok Ho) as (a & s' & E & Hor). exists a, s'. split; [done|]. rewrite page_shiftl by done.
    destruct Hor as [?|(pg & -> & Hpos & Hm & Hd & Hdis & Hok' & Hn)]; [by left|]. right. rewrite pages_block by done.
    split; [change PAGE_SIZE with 4096; lia|]. split; [done|]. split; [|done]. rewrite Z.pow_add_r by lia. by apply Z.mul_divide_mono_r.
  - intros a order s F Hok Ho Ha Hd. rewrite page_shiftl in * by lia. assert (PAGE_SIZE | a) as [pg ->] by (apply (Z.divide_trans _ (2 ^ (order + 12))); [apply page_pow; lia|done]).
    rewrite pages_block by lia. intros Hs Hn. apply xen_free_spec; try done; [change PAGE_SIZE with 4096 in Ha; lia|].
    rewrite Z.pow_add_r in Hd by lia. change PAGE_SIZE with (2 ^ 12) in Hd. by apply Z.mul_divide_cancel_r in Hd.
Qed.
End heap.
