(* ===== verification/XmallocProps.v ===== *)
(** * Theorems about [xmalloc]

    On any heap of pages, [xmalloc], [xzalloc] and [xfree] have only the
    histories of [HeapSpec], from the first call on; what was freed is not held
    any more. *)

From S2P Require Import Prelude BootMem PageAlloc PageAllocInv PageAllocProps.
From S2P Require Import Tlsf TlsfMap TlsfLists TlsfBlocks TlsfInv TlsfAlloc TlsfFree HeapSpec TlsfProps Xmalloc XmallocPages XmallocInv XmallocOps XmallocHeap.
Local Open Scope xen_scope.

Section props.
Context {H : Type} (alloc_xenheap_pages : Z → H → outcome (Z * H)) (free_xenheap_pages : Z → Z → H → outcome H)
  (near : Z → Z → Prop) (xh : H → gset Z → Prop) {XH : XenHeap alloc_xenheap_pages free_xenheap_pages near xh} (junk : H → gmap Z Z)
  (sizeof_pool : Z) (Hsizeof : 0 < sizeof_pool < 2 ^ 31).

Abbreviation rinv := (raw_inv near xh).
Abbreviation init := (tlsf_init alloc_xenheap_pages junk sizeof_pool).

(** The calls, outside interrupts. *)
Definition xm_step (op : heap_op) (s : xmstate (H:=H)) : outcome (Z * xmstate) :=
  match op with
  | HAlloc size align => _xmalloc alloc_xenheap_pages free_xenheap_pages junk sizeof_pool false size align s
  | HZalloc size align => _xzalloc alloc_xenheap_pages free_xenheap_pages junk sizeof_pool false size align s
  | HFree ptr => let! s' := xfree free_xenheap_pages false ptr s in Ok (0, s')
  | HWrite x v => let! w := wr x v (x_world s) in Ok (0, set_world w s)
  | HRead x => let! v := rd x (x_world s) in Ok (v, s)
  end.

(** Alignments are powers of two. *)
Definition xm_valid (h : aheap) (op : heap_op) : Prop :=
  heap_valid h op ∧
  match op with
  | HAlloc size align | HZalloc size align => size ≤ 2 ^ 61 ∧ ∃ k, 0 ≤ k ≤ 31 ∧ align = 2 ^ k
  | _ => True
  end.

(** The clients' blocks are those behind [xmalloc]. *)
Record xm_rep (s : xmstate) (h : aheap) (P : gset Z) (B G : gmap Z Z) : Prop := {
  xr_raw : rinv s P B;
  xr_xenpool : x_xenpool s ≠ 0;
  xr_place ptr size : ah_blocks h !! ptr = Some size → 0 ≤ size ∧ ∃ r, G !! ptr = Some r ∧ placed (x_world s) B ptr size r;
  xr_inj ptr ptr' r : G !! ptr = Some r → G !! ptr' = Some r → ptr = ptr';
  xr_dom ptr r : G !! ptr = Some r → is_Some (ah_blocks h !! ptr);
  xr_all r n : B !! r = Some n → ∃ ptr, G !! ptr = Some r;
  xr_data x v : ah_data h !! x = Some v → owned h x ∧ peek (x_world s) x = v;
}.

(** Before the first call, with memory for the pool, which makes [P] the pages
    held. *)
Definition xm_start (s : xmstate) (P : gset Z) : Prop :=
  x_xenpool s = 0 ∧ heap_ok (xh:=xh) (x_world s) ∧ ∃ s1, init s = Ok s1 ∧ P = w_held (x_world s1).

(** ** Where the clients' blocks are *)

Lemma placed_range (w : world H) B ptr size r :
  0 ≤ size → placed w B ptr size r → ∃ n, B !! r = Some n ∧ r ≤ ptr ∧ ptr + size ≤ r + n.
Proof. intros Hs (n & Hr & Hor). exists n. split; [done|]. lia. Qed.

Lemma placed_header (w : world H) B ptr size r :
  0 ≤ size → placed w B ptr size r → ptr ≠ r → raw_cell B (ptr - 8).
Proof.
  intros Hs (n & Hr & Hor) Hne. exists r, n. split; [done|]. destruct Hor as [[? _]|(? & [c Hc] & ? & _)]; [done|]. lia.
Qed.

(** A placement survives what keeps the block and the cell in front of it. *)
Lemma placed_keep (w w' : world H) B B' ptr size r :
  placed w B ptr size r → B' !! r = B !! r → (ptr ≠ r → peek w' (ptr - 8) = peek w (ptr - 8)) → placed w' B' ptr size r.
Proof.
  intros (n & Hn & Hor) Hr Hk. exists n. split; [congruence|]. destruct Hor as [?|(H1 & H2 & H3 & H4)]; [by left|].
  right. split; [done|]. split; [done|]. split; [done|]. rewrite Hk; [done|lia].
Qed.

Lemma owned_cell s h P B G x : xm_rep s h P B G → owned h x → raw_cell B x.
Proof.
  intros HR (ptr & size & Hp & Hx). destruct (xr_place _ _ _ _ _ HR _ _ Hp) as (Hs & r & Hg & Hpl).
  destruct (placed_range _ _ _ _ _ Hs Hpl) as (n & Hn & ? & ?). exists r, n. split; [done|lia].
Qed.

Lemma raw_acc s P B x : rinv s P B → raw_cell B x → acc (x_world s) x.
Proof. intros (R & L & W & HR) Hx. by apply (raw_other _ _ _ _ _ _ _ _ _ HR Hx). Qed.

(** Nobody owns the cell in front of an address. *)
Lemma header_apart s h P B G ptr size q sz :
  xm_rep s h P B G → ah_blocks h !! ptr = Some size → ah_blocks h !! q = Some sz → ¬ (q ≤ ptr - 8 < q + sz).
Proof.
  intros HR Hp Hq Hin. destruct (xr_place _ _ _ _ _ HR _ _ Hp) as (Hs & r & Hg & Hpl), (xr_place _ _ _ _ _ HR _ _ Hq) as (Hsz & r' & Hg' & Hpl').
  destruct (decide (q = ptr)) as [-> |Hne]; [lia|]. assert (r ≠ r') as Hrr by (intros ->; by apply Hne, (xr_inj _ _ _ _ _ HR q ptr r')).
  destruct (placed_range _ _ _ _ _ Hs Hpl) as (n & Hn & ? & ?), (placed_range _ _ _ _ _ Hsz Hpl') as (n' & Hn' & ? & ?).
  destruct (xr_raw _ _ _ _ _ HR) as (R & L & W & HRR). destruct (raw_disj _ _ _ _ _ _ _ _ _ _ _ _ HRR Hn Hn' Hrr); lia.
Qed.

(** ** Each call *)

Lemma xm_access_step s h P B G op :
  xm_rep s h P B G → heap_valid h op → (∃ x v, op = HWrite x v) ∨ (∃ x, op = HRead x) →
  ∃ res s', xm_step op s = Ok (res, s') ∧ heap_allows h op res ∧ xm_rep s' (heap_next h op res) P B G.
Proof.
  intros HR Hv [(x & v & ->)|(x & ->)]; destruct Hv as [_ Ho]; pose proof (owned_cell _ _ _ _ _ _ HR Ho) as Hc;
    pose proof (raw_acc _ _ _ _ (xr_raw _ _ _ _ _ HR) Hc) as Ha; cbn [xm_step].
  - rewrite wr_ok by done. cbn [mbind outcome_bind]. eexists _, _. split; [done|]. split; [done|].
    pose proof HR as [A1 A2 A3 A4 A5 A6 A7]. split; cbn [heap_next ah_blocks ah_data x_world x_xenpool set_world]; try done.
    + by apply raw_write.
    + intros ptr size Hp. destruct (A3 _ _ Hp) as (Hs & r & Hg & Hpl). split; [done|]. exists r. split; [done|].
      apply (placed_keep (x_world s) _ B); [done|done|]. intros _. apply peek_poke_ne. intros ->.
      destruct Ho as (q & sz & Hq & Hx). apply (header_apart _ _ _ _ _ _ _ _ _ HR Hp Hq). lia.
    + intros y u [[<- <-]|[Hne Hy]]%lookup_insert_Some; [split; [done|apply peek_poke]|]. rewrite peek_poke_ne by done. by apply A7.
  - rewrite rd_ok by done. cbn [mbind outcome_bind]. eexists _, _. split; [done|]. split; [|done].
    intros v Hx. by destruct (xr_data _ _ _ _ _ HR x v Hx).
Qed.

(** A block that was allocated is apart from the clients' blocks. *)
Lemma client_apart s s' h P B G ptr size r n :
  xm_rep s h P B G → ah_blocks h !! ptr = Some size → rinv s' P (<[r := n]> B) → B !! r = None →
  ∃ q m, G !! ptr = Some q ∧ q ≤ ptr ∧ ptr + size ≤ q + m ∧ (q + m ≤ r - 16 ∨ r + n ≤ q - 16).
Proof.
  intros HR Hp (R & L & W & HRR) Hr. destruct (xr_place _ _ _ _ _ HR _ _ Hp) as (Hs & q & Hg & Hpl).
  destruct (placed_range _ _ _ _ _ Hs Hpl) as (m & Hm & ? & ?). exists q, m. split; [done|]. split; [done|]. split; [done|]. assert (q ≠ r) as Hne by congruence.
  apply (raw_disj _ _ _ _ _ _ _ _ q m r n HRR); [by rewrite lookup_insert_ne|apply lookup_insert_eq|done].
Qed.

(** The clients keep what they had. *)
Lemma clients_keep (s s' : xmstate (H:=H)) h P B G B' :
  xm_rep s h P B G → (∀ r n, B !! r = Some n → B' !! r = Some n) → (∀ x, raw_cell B x → peek (x_world s') x = peek (x_world s) x) →
  (∀ ptr size, ah_blocks h !! ptr = Some size → 0 ≤ size ∧ ∃ r, G !! ptr = Some r ∧ placed (x_world s') B' ptr size r) ∧
  ∀ x v, ah_data h !! x = Some v → owned h x ∧ peek (x_world s') x = v.
Proof.
  intros HR HB Hk. split.
  - intros ptr size Hp. destruct (xr_place _ _ _ _ _ HR _ _ Hp) as (Hs & r & Hg & Hpl). split; [done|]. exists r. split; [done|].
    apply (placed_keep (x_world s) _ B); [done| |intros Hne; by eapply Hk, placed_header]. destruct Hpl as (n & Hn & _). rewrite Hn. by apply HB.
  - intros x v Hx. destruct (xr_data _ _ _ _ _ HR _ _ Hx) as [Ho <-]. split; [done|]. by eapply Hk, owned_cell.
Qed.

Lemma malloc_rep s s' h P B G size align res :
  xm_rep s h P B G → 0 ≤ size → x_xenpool s' = x_xenpool s → malloc_ok near xh s s' P B size align res →
  (res = 0 ∧ xm_rep s' h P B G) ∨
  (fresh_block h res size align ∧ ∃ B' G', xm_rep s' (mk_aheap (<[res := size]> (ah_blocks h)) (ah_data h)) P B' G' ∧
     (∀ y, res ≤ y < res + size → raw_cell B' y)).
Proof.
  intros HR Hs Exp [Hk Hor]. pose proof HR as [A1 A2 A3 A4 A5 A6 A7]. destruct Hor as [[-> HR']|(r & n & Hnone & HR' & Hpl & Hal & Hres)].
  { left. split; [done|]. destruct (clients_keep s s' h P B G B HR ltac:(done) Hk) as [K1 K2]. split; try done. congruence. }
  right. destruct (placed_range _ _ _ _ _ Hs Hpl) as (m & Hm & Hge & Hle). rewrite lookup_insert_eq in Hm. injection Hm as <-.
  pose proof HR' as (R & L & W & HRR). destruct (raw_facts _ _ _ _ _ _ _ _ r n HRR (lookup_insert_eq _ _ _)) as (Dr & Hr16 & _).
  assert (∀ q m, B !! q = Some m → <[r := n]> B !! q = Some m) as HB by (intros q m Hq; by rewrite lookup_insert_ne by congruence).
  destruct (clients_keep s s' h P B G _ HR HB Hk) as [K1 K2].
  assert (∀ ptr sz, ah_blocks h !! ptr = Some sz → 0 ≤ sz ∧ (ptr + sz ≤ r - 16 ∨ r + n ≤ ptr - 16)) as Hap.
  { intros ptr sz Hp. destruct (A3 _ _ Hp) as (Hsz & _). destruct (client_apart s s' h P B G ptr sz r n HR Hp HR' Hnone) as (q & m & _ & ? & ? & ?). lia. }
  assert (ah_blocks h !! res = None) as Hno by (destruct (ah_blocks h !! res) as [sz|] eqn:E; [apply Hap in E; lia|done]).
  assert (G !! res = None) as HnoG by (destruct (G !! res) eqn:E; [destruct (A5 _ _ E); congruence|done]).
  split.
  { split; [done|]. split; [|split; [done|split; [done|]]]; [|intros ptr sz Hp; apply Hap in Hp; lia].
    destruct Hpl as (m & _ & [[-> _]|(_ & D & _)]); [done|]. replace res with (res - r + r) by lia. by apply Z.divide_add_r. }
  exists (<[r := n]> B), (<[res := r]> G). split; [|intros y Hy; exists r, n; rewrite lookup_insert_eq; split; [done|lia]].
  split; cbn [ah_blocks ah_data]; [done|congruence| | | | |].
  - intros ptr sz [[<- <-]|[Hne Hp]]%lookup_insert_Some; [split; [done|]; exists r; by rewrite lookup_insert_eq|].
    destruct (K1 _ _ Hp) as (Hsz & q & Hg & Hq). split; [done|]. exists q. by rewrite lookup_insert_ne.
  - intros p1 p2 q [[<- <-]|[Hn1 H1]]%lookup_insert_Some [[<- ?]|[Hn2 H2]]%lookup_insert_Some; [done| | |by eapply A4].
    + destruct (A5 _ _ H2) as [sz Hsz]. destruct (A3 _ _ Hsz) as (_ & q' & Hq' & (m & Hm & _)). congruence.
    + subst q. destruct (A5 _ _ H1) as [sz Hsz]. destruct (A3 _ _ Hsz) as (_ & q' & Hq' & (m & Hm & _)). congruence.
  - intros ptr q [[<- <-]|[Hne Hg]]%lookup_insert_Some; [rewrite lookup_insert_eq; by eexists|]. rewrite lookup_insert_ne by done. by eapply A5.
  - intros q m [[<- <-]|[Hne Hq]]%lookup_insert_Some; [exists res; apply lookup_insert_eq|]. destruct (A6 _ _ Hq) as (ptr & Hg). exists ptr.
    rewrite lookup_insert_ne by congruence. done.
  - intros x v Hx. destruct (K2 _ _ Hx) as [(ptr & sz & Hp & Ho) Hv]. split; [|done]. exists ptr, sz. simpl. rewrite lookup_insert_ne by congruence. done.
Qed.

Lemma xm_malloc_step s h P B G size align :
  xm_rep s h P B G → xm_valid h (HAlloc size align) →
  ∃ res s', xm_step (HAlloc size align) s = Ok (res, s') ∧ heap_allows h (HAlloc size align) res ∧
    ∃ B' G', xm_rep s' (heap_next h (HAlloc size align) res) P B' G' ∧ (res ≠ 0 → ∀ y, res ≤ y < res + size → raw_cell B' y).
Proof using XH.
  intros HR [Hs (Hmax & k & Hk & ->)]. cbn [heap_valid] in Hs.
  destruct (xmalloc_spec alloc_xenheap_pages free_xenheap_pages near xh junk sizeof_pool s P B size k (xr_raw _ _ _ _ _ HR) (xr_xenpool _ _ _ _ _ HR) ltac:(lia) Hk)
    as (res & s' & E & Exp & Hok). exists res, s'. split; [done|]. cbn [heap_allows heap_next].
  destruct (malloc_rep s s' h P B G size (2 ^ k) res HR Hs Exp Hok) as [[-> HR']|(Hf & B' & G' & HR' & Hc)].
  - split; [by left|]. exists B, G. split; [done|]. by intros [].
  - split; [by right|]. exists B', G'. rewrite (proj2 (Z.eqb_neq res 0)) by (destruct Hf; lia). done.
Qed.

Lemma xm_zero s h P B G res size :
  xm_rep s h P B G → ah_blocks h !! res = Some size → (∀ y, res ≤ y < res + size → raw_cell B y) →
  (∀ x v, ah_data h !! x = Some v → ¬ (res ≤ x < res + size)) →
  ∃ w', memset0 res size (x_world s) = Ok w' ∧
    xm_rep (set_world w' s) (mk_aheap (ah_blocks h) (zeros (Z.to_nat (size / 8)) res ∪ ah_data h)) P B G.
Proof.
  intros HR Hres Hc Hd. destruct (xr_place _ _ _ _ _ HR _ _ Hres) as (Hs & _).
  destruct (memset0_spec near xh res size s P B (xr_raw _ _ _ _ _ HR) Hs Hc) as (w' & E & HR' & Hz & Hk). exists w'. split; [done|].
  pose proof (Z.div_mod size 8 ltac:(lia)). pose proof (Z.mod_pos_bound size 8 ltac:(lia)). assert (0 ≤ size / 8) by (apply Z.div_pos; lia).
  pose proof HR as [A1 A2 A3 A4 A5 A6 A7]. split; cbn [ah_blocks ah_data x_world x_xenpool set_world]; try done.
  - intros ptr sz Hp. destruct (A3 _ _ Hp) as (Hsz & r & Hg & Hpl). split; [done|]. exists r. split; [done|].
    apply (placed_keep (x_world s) _ B); [done|done|]. intros _. apply Hk. by apply (header_apart s h P B G ptr sz).
  - intros x v [Hx|[_ Hx]]%lookup_union_Some_raw.
    + apply zeros_lookup in Hx as (-> & Hge & Hle & [c Hcx]). rewrite Z2Nat.id in Hle by lia.
      split; [exists res, size; split; [done|lia]|]. replace x with (res + 8 * Z.of_nat (Z.to_nat c)) by lia. apply Hz. lia.
    + destruct (A7 _ _ Hx) as [Ho <-]. split; [done|]. apply Hk. by eapply Hd.
Qed.

Lemma xm_zalloc_step s h P B G size align :
  xm_rep s h P B G → xm_valid h (HZalloc size align) →
  ∃ res s', xm_step (HZalloc size align) s = Ok (res, s') ∧ heap_allows h (HZalloc size align) res ∧
    ∃ B' G', xm_rep s' (heap_next h (HZalloc size align) res) P B' G'.
Proof using XH.
  intros HR Hv. destruct (xm_malloc_step s h P B G size align HR Hv) as (res & s1 & E & Ha & B' & G' & HR' & Hc). cbn [xm_step] in E |- *. unfold _xzalloc.
  rewrite E. cbn [mbind outcome_bind heap_next] in *. destruct (Z.eqb_spec res 0) as [-> |Hne].
  - exists 0, s1. split; [done|]. split; [by left|]. by exists B', G'.
  - destruct Ha as [|Hf]; [done|]. pose proof Hf as (_ & _ & _ & _ & Hap).
    destruct (xm_zero s1 _ P B' G' res size HR' (lookup_insert_eq _ _ _) (Hc Hne)) as (w' & -> & HR2).
    { intros x v Hx Hin. cbn [ah_data] in Hx. destruct (xr_data _ _ _ _ _ HR x v Hx) as [(ptr & sz & Hp & Ho) _]. destruct (Hap _ _ Hp); lia. }
    cbn [mbind outcome_bind]. eexists res, _. split; [done|]. split; [by right|]. exists B', G'. by rewrite (proj2 (Z.eqb_neq res 0) Hne).
Qed.

Lemma xm_free_step s h P B G ptr :
  xm_rep s h P B G → heap_valid h (HFree ptr) →
  ∃ s' B' G', xm_step (HFree ptr) s = Ok (0, s') ∧ xm_rep s' (heap_next h (HFree ptr) 0) P B' G'.
Proof using XH.
  intros HR Hv. pose proof HR as [A1 A2 A3 A4 A5 A6 A7]. cbn [xm_step heap_next]. destruct (decide (ptr = 0)) as [-> |Hne].
  { exists s, B, G. split; [done|]. destruct (ah_blocks h !! 0) as [sz|] eqn:E; [|done]. destruct (A3 _ _ E) as (Hsz & r & _ & Hpl).
    destruct (placed_range _ _ _ _ _ Hsz Hpl) as (n & Hn & ? & _). destruct A1 as (R & L & W & HRR). destruct (raw_facts _ _ _ _ _ _ _ _ _ _ HRR Hn) as (_ & ? & _). lia. }
  destruct Hv as [|[size Hp]]; [done|]. rewrite Hp. destruct (A3 _ _ Hp) as (Hs & r & Hg & Hpl).
  destruct (xfree_spec alloc_xenheap_pages free_xenheap_pages near xh junk s P B ptr size r A1 Hs Hpl) as (s' & -> & Exp & HR' & Hk). cbn [mbind outcome_bind].
  exists s', (delete r B), (delete ptr G). split; [done|].
  assert (∀ q rq, G !! q = Some rq → q ≠ ptr → rq ≠ r) as Hnr by (intros q rq Hq Hqne ->; by apply Hqne, (A4 q ptr r)).
  split; cbn [ah_blocks ah_data]; [done|congruence| | | | |].
  - intros q sz [Hqne Hq]%lookup_delete_Some. destruct (A3 _ _ Hq) as (Hsz & rq & Hgq & Hplq). split; [done|]. exists rq. rewrite lookup_delete_ne by done. split; [done|].
    pose proof (Hnr q rq Hgq ltac:(congruence)) as Hrne. assert (delete r B !! rq = B !! rq) as EB by (apply lookup_delete_ne; congruence).
    apply (placed_keep (x_world s) _ B); [done|done|]. intros Hh. apply Hk. destruct (placed_header _ _ _ _ _ Hsz Hplq Hh) as (r0 & n0 & Hr0 & Hx0).
    pose proof Hplq as (nq & Hnq & Hor). exists rq, nq. split; [by rewrite EB|]. destruct Hor as [[? _]|(? & [c ?] & ? & _)]; [done|lia].
  - intros p1 p2 q [_ H1]%lookup_delete_Some [_ H2]%lookup_delete_Some. by eapply A4.
  - intros q rq [Hqne Hq]%lookup_delete_Some. rewrite lookup_delete_ne by done. by eapply A5.
  - intros q m [Hqne Hq]%lookup_delete_Some. destruct (A6 _ _ Hq) as (p' & Hp'). exists p'. rewrite lookup_delete_ne; [done|]. intros <-. congruence.
  - intros x v [Hx Hout]%map_lookup_filter_Some. cbn [fst] in Hout. destruct (A7 _ _ Hx) as [(q & sz & Hq & Ho) <-].
    assert (q ≠ ptr) as Hqne by (intros ->; rewrite Hp in Hq; injection Hq as <-; lia).
    split; [exists q, sz; simpl; by rewrite lookup_delete_ne by congruence|]. apply Hk. destruct (A3 _ _ Hq) as (Hsz & rq & Hgq & Hplq).
    destruct (placed_range _ _ _ _ _ Hsz Hplq) as (n & Hn & ? & ?). exists rq, n. split; [|lia]. rewrite lookup_delete_ne; [done|]. apply not_eq_sym. by eapply Hnr.
Qed.

(** ** Histories *)

Definition xm_inv (P : gset Z) (s : xmstate) (h : aheap) : Prop :=
  xm_start s P ∧ h = empty_heap ∨ ∃ B G, xm_rep s h P B G.

Lemma xm_rep_step P B G s h op :
  xm_rep s h P B G → xm_valid h op →
  ∃ res s', xm_step op s = Ok (res, s') ∧ heap_allows h op res ∧ xm_inv P s' (heap_next h op res).
Proof using XH.
  intros HR Hv. destruct op as [size align|size align|ptr|x v|x].
  - destruct (xm_malloc_step s h P B G size align HR Hv) as (res & s' & ? & ? & B' & G' & ? & _). exists res, s'. split; [done|]. split; [done|]. right. eauto.
  - destruct (xm_zalloc_step s h P B G size align HR Hv) as (res & s' & ? & ? & B' & G' & ?). exists res, s'. split; [done|]. split; [done|]. right. eauto.
  - destruct (xm_free_step s h P B G ptr HR (proj1 Hv)) as (s' & B' & G' & ? & ?). exists 0, s'. split; [done|]. split; [done|]. right. eauto.
  - destruct (xm_access_step s h P B G (HWrite x v) HR (proj1 Hv)) as (res & s' & ? & ? & ?); [eauto|]. exists res, s'. split; [done|]. split; [done|]. right. eauto.
  - destruct (xm_access_step s h P B G (HRead x) HR (proj1 Hv)) as (res & s' & ? & ? & ?); [eauto|]. exists res, s'. split; [done|]. split; [done|]. right. eauto.
Qed.

(** The first allocation is one after [tlsf_init]. *)
Lemma xm_first s s1 op size align :
  x_xenpool s = 0 → init s = Ok s1 → x_xenpool s1 ≠ 0 → op = HAlloc size align ∨ op = HZalloc size align → xm_step op s = xm_step op s1.
Proof.
  intros H0 Hi H1 Hop.
  assert (xm_step (HAlloc size align) s = xm_step (HAlloc size align) s1) as E.
  { cbn [xm_step]. unfold _xmalloc. rewrite H0, Z.eqb_refl, Hi, (proj2 (Z.eqb_neq _ _) H1). done. }
  destruct Hop as [-> | ->]; [done|]. cbn [xm_step] in *. unfold _xzalloc. by rewrite E.
Qed.

Lemma xm_step_spec P s h op :
  xm_inv P s h → xm_valid h op →
  ∃ res s', xm_step op s = Ok (res, s') ∧ heap_allows h op res ∧ xm_inv P s' (heap_next h op res).
Proof using XH Hsizeof.
  intros [[(H0 & Hw & s1 & Hi & ->) ->]|(B & G & HR)] Hv; [|by eapply xm_rep_step].
  destruct (tlsf_init_spec alloc_xenheap_pages free_xenheap_pages near xh junk sizeof_pool Hsizeof s s1 Hw Hi) as (HR & Hx).
  assert (xm_rep s1 empty_heap (w_held (x_world s1)) ∅ ∅) as HR1 by (split; try done; intros ?; by rewrite lookup_empty).
  destruct op as [size align|size align|ptr|x v|x].
  - rewrite (xm_first s s1 _ size align H0 Hi Hx) by auto. by eapply xm_rep_step.
  - rewrite (xm_first s s1 _ size align H0 Hi Hx) by auto. by eapply xm_rep_step.
  - destruct Hv as [[-> |[? Hp]] _]; [|by cbn [ah_blocks empty_heap] in Hp; rewrite lookup_empty in Hp]. exists 0, s. split; [done|]. split; [done|]. left. split; [|done].
    split; [done|]. split; [done|]. eauto.
  - destruct Hv as [[_ (ptr & sz & Hp & _)] _]. cbn [ah_blocks empty_heap] in Hp. by rewrite lookup_empty in Hp.
  - destruct Hv as [[_ (ptr & sz & Hp & _)] _]. cbn [ah_blocks empty_heap] in Hp. by rewrite lookup_empty in Hp.
Qed.

Lemma xm_history P s h l s' h' :
  xm_inv P s h → history xm_step xm_valid s h l s' h' → allowed h l ∧ xm_inv P s' h'.
Proof using XH Hsizeof. apply history_allowed. intros s0 h0 op. apply xm_step_spec. Qed.

(** ** The theorems *)

(** C4: [xmalloc], [xzalloc] and [xfree] are an allocator, on any heap of pages:
    from the first call on, in every history of calls and of accesses by the
    owners, blocks have the alignment asked for and never overlap, blocks from
    [xzalloc] are zero, and each block keeps what its owner wrote until it is
    freed, whether it comes from the pool or from whole pages and whatever its
    padding; no valid call fails an assertion, touches memory that is not held
    or frees pages that are not. *)
Theorem xmalloc_refines s P l s' h :
  xm_start s P → history xm_step xm_valid s empty_heap l s' h →
  allowed empty_heap l ∧
  ∀ op, xm_valid h op → ∃ res s2, xm_step op s' = Ok (res, s2) ∧ heap_allows h op res.
Proof using XH Hsizeof.
  intros Hs Hh. destruct (xm_history P s empty_heap l s' h) as [Ha Hi]; [by left|done|]. split; [done|].
  intros op Hv. destruct (xm_step_spec P s' h op Hi Hv) as (res & s2 & ? & ? & _). eauto.
Qed.

(** When every region is one page with one free block, the list of that class
    is the list of the regions. *)
Lemma one_block_list (R : regions) (l : list Z) n c :
  (∀ r bs, R !! r = Some bs → bs = [(n, true)]) → MAPPING_INSERT n = c → NoDup l →
  (∀ a, a ∈ l ↔ ∃ k, blk_at R a k true ∧ MAPPING_INSERT k = c) →
  (∀ a, a ∈ l ↔ R !! a = Some [(n, true)]) ∧ length l = size R.
Proof.
  intros Hone Hc Hnd Hl. assert (∀ a, a ∈ l ↔ R !! a = Some [(n, true)]) as Hin.
  { intros a. rewrite Hl. split.
    - intros (k & (r & bs & Hr & Hb) & _). pose proof (Hone _ _ Hr) as ->. destruct Hb as [(-> & _)|[]]. done.
    - intros Ha. exists n. split; [|done]. exists a, [(n, true)]. split; [done|]. by left. }
  split; [done|]. rewrite <- size_dom. rewrite <- (size_list_to_set (C:=gset Z)) by done. f_equal. apply set_eq. intros a.
  rewrite elem_of_list_to_set, Hin, elem_of_dom. split; [by eexists|]. intros [bs Hb]. by rewrite Hb, (Hone _ _ Hb).
Qed.

(** The pages held are [P] and one page for each region. *)
Lemma held_pages s P R L W B :
  raw_rep near xh s P R L W B → (∀ r n, ¬ B !! r = Some n) → (∀ r bs, R !! r = Some bs → rlen bs = PAGE_SIZE) →
  P ⊆ w_held (x_world s) ∧ ∀ pg, pg ∈ w_held (x_world s) ∖ P ↔ is_Some (R !! (pg * PAGE_SIZE)).
Proof.
  intros [_ (p & _ & _ & HI & _) _ _ _ A6 A8 A7] HB HR.
  assert (∀ pg, pg * PAGE_SIZE / PAGE_SIZE = pg) as Hdiv by (intros pg; by rewrite Z.div_mul).
  assert (∀ pg, in_regions R (pg * PAGE_SIZE) ↔ is_Some (R !! (pg * PAGE_SIZE))) as Hin.
  { intros pg. split.
    - intros (r & bs & Hr & Hx). rewrite (HR _ _ Hr) in Hx. destruct (rw_base _ (pi_wf _ _ _ _ _ _ HI) _ _ Hr) as [[c ->] _].
      change PAGE_SIZE with 4096 in *. replace (pg * 4096) with (c * 4096) by lia. by eexists.
    - intros [bs Hr]. exists (pg * PAGE_SIZE), bs. split; [done|]. rewrite (HR _ _ Hr). change PAGE_SIZE with 4096. lia. }
  assert (∀ pg, pg ∈ w_held (x_world s) ↔ acc (x_world s) (pg * PAGE_SIZE)) as Hacc by (intros pg; unfold acc; by rewrite Hdiv).
  split.
  - intros pg Hpg. apply Hacc, A8. by rewrite Hdiv.
  - intros pg. rewrite elem_of_difference, Hacc, <- Hin. split.
    + intros [[Hx|[Hx|(b & n & Hb & _)]]%A6 Hn]; [by rewrite Hdiv in Hx|done|].
      exfalso. apply (HB (b + 16) (n - 16)), A7. right. replace (b + 16 - 16) with b by lia. by replace (n - 16 + 16) with n by lia.
    + intros Hx. split; [by apply (pi_acc _ _ _ _ _ _ HI)|]. intros HP. rewrite <- (Hdiv pg) in HP. by destruct (A8 _ HP) as (_ & ? & _).
Qed.

(** C22: [xfree] leaks nothing: when a history has freed all it allocated, the
    pages of the pool's structure are held, and the only other pages held are
    those on the pool's list of free blocks of a page, walked from its head in
    memory, each once; the headers in each such page say that it is one free
    block followed by the sentinel, and the pool counts exactly these pages as
    its regions and their sentinels as the bytes in use. *)
Theorem xmalloc_no_leak s P l s' h :
  xm_start s P → history xm_step xm_valid s empty_heap l s' h → ah_blocks h = ∅ → x_xenpool s' ≠ 0 →
  ∃ p pages, x_pools s' !! x_xenpool s' = Some p ∧ P ⊆ w_held (x_world s') ∧
    head_of p (MAPPING_INSERT (PAGE_SIZE - 32)) = hd_or 0 pages ∧ linked (x_world s') 0 pages 0 ∧ NoDup pages ∧
    (∀ pg, pg ∈ w_held (x_world s') ∖ P ↔ pg * PAGE_SIZE ∈ pages) ∧
    (∀ a, a ∈ pages → (PAGE_SIZE | a) ∧ hdrs (x_world s') a 0 false [(PAGE_SIZE - 32, true)]) ∧
    num_regions p = u64 (Z.of_nat (length pages)) ∧
    xmem_pool_get_used_size p = u64 (BHDR_OVERHEAD * Z.of_nat (length pages)).
Proof using XH Hsizeof.
  intros Hs Hh He Hx. destruct (xm_history P s empty_heap l s' h) as [_ [[(H0 & _) _]|(B & G & HR)]]; [by left|done|done|].
  destruct (xr_raw _ _ _ _ _ HR) as (R & L & W & HRR). pose proof HRR as [_ (p & Hp & _ & HI & _) _ _ _ _ _ A7].
  assert (∀ r n, ¬ B !! r = Some n) as HB.
  { intros r n Hr. destruct (xr_all _ _ _ _ _ HR _ _ Hr) as (ptr & Hg). destruct (xr_dom _ _ _ _ _ HR _ _ Hg) as [sz Hsz]. by rewrite He, lookup_empty in Hsz. }
  destruct (free_regions R (pi_wf _ _ _ _ _ _ HI)) as [Hone Hsum].
  { intros a n Ha. apply (HB (a + 16) n), A7. left. by replace (a + 16 - 16) with a by lia. }
  assert (∀ r bs, R !! r = Some bs → rlen bs = PAGE_SIZE) as Hlen by (intros r bs Hr; apply (pi_granted _ _ _ _ _ _ HI _ _ Hr)).
  assert (∀ r bs, R !! r = Some bs → bs = [(PAGE_SIZE - 32, true)]) as Hbs.
  { intros r bs Hr. pose proof (Hlen _ _ Hr) as Hl. destruct (Hone r bs Hr) as (n & ->). unfold rlen in Hl. simpl in Hl.
    by replace n with (PAGE_SIZE - 32) by lia. }
  destruct (MAPPING_INSERT (PAGE_SIZE - 32)) as [fl sl] eqn:Ec.
  destruct (ix_list _ _ _ (inv_indexed _ _ _ _ _ _ HI) fl sl) as (pages & Hhd & Hlk & Hnd & Hel); [injection Ec as <- <-; by vm_compute|].
  destruct (one_block_list R pages (PAGE_SIZE - 32) (fl, sl) Hbs Ec Hnd Hel) as [Hin Hsz].
  destruct (held_pages s' P R L W B HRR HB Hlen) as [HP Hpg].
  exists p, pages. do 5 (split; [done|]). split; [|split; [|split]].
  - intros pg. rewrite Hpg, Hin. split; [|by eexists]. intros [bs Hr]. by rewrite Hr, (Hbs _ _ Hr).
  - intros a Ha%Hin. split; [apply (rw_base _ (pi_wf _ _ _ _ _ _ HI) _ _ Ha)|by apply (pi_hdrs _ _ _ _ _ _ HI)].
  - rewrite Hsz. apply HI.
  - unfold xmem_pool_get_used_size. by rewrite (pi_used _ _ _ _ _ _ HI), Hsum, Hsz.
Qed.



(** A large block is freed page by page. *)
Lemma xfree_whole (s : xmstate) b n :
  heap_ok (xh:=xh) (x_world s) → whole (near:=near) (x_world s) b n →
  ∃ s', xfree free_xenheap_pages false (buffer b) s = Ok s' ∧ w_held (x_world s') = w_held (x_world s) ∖ pages_of b n.
Proof using XH.
  intros Hw HW. destruct (whole_facts near _ _ _ HW) as (Pb & Hn & Ha). change PAGE_SIZE with 4096 in Hn. pose proof (wh_pos _ _ _ HW) as Hb.
  destruct (free_whole_spec alloc_xenheap_pages free_xenheap_pages b n (x_world s) Hw HW) as (w' & E & _ & Hh & _).
  assert (2 ^ (MAX_ORDER + 12) = 2 ^ 30) as E30 by done. destruct (wh_size _ _ _ HW) as [[c Hc] Hn30]. destruct (get_order_spec n ltac:(lia)) as (Ho & _).
  unfold xfree, strip_padding, buffer. change BHDR_OVERHEAD with 16. rewrite (proj2 (Z.eqb_neq _ _)) by lia. cbn [BUG_ON].
  replace (b + 16 - 16) with b by lia. rewrite rd_ok by (apply Ha; unfold a_size; lia). cbn [mbind outcome_bind]. rewrite (wh_header _ _ _ HW).
  assert (Z.land n 1 = 0) as ->.
  { change 1 with (Z.ones 1). rewrite Z.land_ones by lia. rewrite Hc. change PAGE_SIZE with (2048 * 2 ^ 1). rewrite Z.mul_assoc. by apply Z.mod_mul. }
  cbn [Z.eqb negb mbind outcome_bind]. replace (b + 16 - 16) with b by lia. rewrite rd_ok by (apply Ha; unfold a_size; lia). cbn [mbind outcome_bind].
  rewrite (wh_header _ _ _ HW). destruct (Z.leb_spec PAGE_SIZE n) as [_|Hlt]; [|change PAGE_SIZE with 4096 in Hlt; lia].
  rewrite page_shiftl, land_mask by lia. rewrite (proj2 (Z.mod_divide b _ (Z.pow_nonzero 2 (get_order_from_bytes n + 12) ltac:(lia) ltac:(lia))) (wh_aligned _ _ _ HW)).
  cbn [Z.eqb negb BUG_ON]. rewrite E. cbn [mbind outcome_bind]. by eexists.
Qed.

(** A request of a page or more takes exactly the pages it needs from the
    Xen heap, none of them held before, and [xfree] returns exactly these. *)
Theorem xmalloc_large_roundtrip s size :
  heap_ok (xh:=xh) (x_world s) → x_xenpool s ≠ 0 → PAGE_SIZE ≤ size ≤ 2 ^ 61 →
  ∃ res s1, _xmalloc alloc_xenheap_pages free_xenheap_pages junk sizeof_pool false size 16 s = Ok (res, s1) ∧
    (res = 0 ∧ w_held (x_world s1) = w_held (x_world s) ∨
     pages_of (res - 16) (PAGE_ALIGN (size + 16)) ## w_held (x_world s) ∧
     w_held (x_world s1) = w_held (x_world s) ∪ pages_of (res - 16) (PAGE_ALIGN (size + 16)) ∧
     ∃ s2, xfree free_xenheap_pages false res s1 = Ok s2 ∧ w_held (x_world s2) = w_held (x_world s)).
Proof using XH.
  clear Hsizeof. intros Hw Hx Hs. change PAGE_SIZE with 4096 in Hs. unfold _xmalloc. cbn [BUG_ON].
  change (Z.land 16 (16 - 1) =? 0) with true. change (16 <? MEM_ALIGN) with false. cbn [negb BUG_ON]. change (16 - MEM_ALIGN) with 0. rewrite Z.add_0_r, u64_small by lia.
  rewrite (proj2 (Z.eqb_neq _ _) Hx). cbn [mbind outcome_bind]. rewrite (proj2 (Z.ltb_ge size PAGE_SIZE)) by (change PAGE_SIZE with 4096; lia). cbn [mbind outcome_bind Z.eqb].
  destruct (xmalloc_whole_pages_spec alloc_xenheap_pages free_xenheap_pages junk size (x_world s) Hw ltac:(lia)) as (r & w' & -> & Hw' & _ & Hor). cbn [mbind outcome_bind x_world set_world].
  unfold add_padding. destruct Hor as [[-> Hh]|(b & -> & HW & Hdis & Hh)].
  - change (u32 (Z.land (- 0) (16 - 1))) with 0. cbn [Z.eqb negb mbind outcome_bind]. change (Z.land 0 (16 - 1)) with 0. cbn [Z.eqb negb BUG_ON].
    eexists _, _. split; [done|]. by left.
  - destruct (whole_facts near _ _ _ HW) as ([c Hc] & _). unfold buffer in *. change BHDR_OVERHEAD with 16 in *.
    assert (∀ y, (16 | y) → Z.land y (16 - 1) = 0) as H16 by (intros y Hy; change (16 - 1) with (2 ^ 4 - 1); rewrite land_mask by lia; by apply Z.mod_divide).
    assert (16 | b + 16) as D16 by (exists (c * 256 + 1); change PAGE_SIZE with 4096 in Hc; lia).
    rewrite (H16 (- (b + 16))) by (by apply Z.divide_opp_r). cbn [mbind outcome_bind]. change (u32 0 =? 0) with true. cbn [negb mbind outcome_bind].
    rewrite H16 by done. cbn [Z.eqb negb BUG_ON]. eexists _, _. split; [done|]. right. replace (b + 16 - 16) with b by lia. cbn [x_world set_world].
    split; [done|]. split; [done|].
    destruct (xfree_whole (set_world w' (set_world w' s)) b _ Hw' HW) as (s2 & E2 & Hh2). unfold buffer in E2. change BHDR_OVERHEAD with 16 in E2. exists s2. split; [done|].
    rewrite Hh2. cbn [x_world set_world]. rewrite Hh. set_solver.
Qed.
End props.

(** ** On the page allocator *)

(** C9: [xmalloc] on the page allocator: whatever fresh pages contain, every
    history of calls is allowed, the buddy heap stays well formed and every
    page [xmalloc] holds is in use there, so no block is ever on a free list of
    the heap. *)
Theorem xmalloc_on_xenheap M junk sizeof_pool s P l s' h :
  0 < sizeof_pool < 2 ^ 31 → xm_start (xen_alloc M) (xen_ok M) junk sizeof_pool s P →
  history (xm_step (xen_alloc M) (xen_free M) junk sizeof_pool) xm_valid s empty_heap l s' h →
  allowed empty_heap l ∧ heap_wf M (w_heap (x_world s')) ∧
  ∀ pg, pg ∈ w_held (x_world s') → pg ∉ free_pages (pages (w_heap (x_world s'))).
Proof.
  intros Hsz Hs Hh. destruct (xm_history (xen_alloc M) (xen_free M) (same_node M) (xen_ok M) junk sizeof_pool Hsz P s empty_heap l s' h) as [Ha Hi]; [by left|done|].
  split; [done|]. assert (xen_ok M (w_heap (x_world s')) (w_held (x_world s'))) as Hok.
  { destruct Hi as [[(_ & Hw & _) _]|(B & G & HR)]; [done|]. destruct (xr_raw _ _ _ _ _ _ _ HR) as (R & L & W & HRR). by apply HRR. }
  split; [apply Hok|]. intros pg Hpg (p & Hp & Hf)%elem_of_free_pages.
  destruct (xen_page_state M _ _ (xo_page _ _ _ Hok pg Hpg)) as (q & Hq & Hnf). congruence.
Qed.

(** ** A small machine *)

Definition xm_valid_b (h : aheap) (op : heap_op) : bool :=
  heap_valid_b h op &&
  match op with
  | HAlloc size align | HZalloc size align =>
      (size <=? 2 ^ 61) && (0 <? align) && (Z.log2 align <=? 31) && (align =? 2 ^ Z.log2 align)
  | _ => true
  end.

Lemma xm_valid_b_sound h op : xm_valid_b h op = true → xm_valid h op.
Proof.
  intros [Hv Hp]%andb_true_iff. split; [by apply heap_valid_b_sound|].
  destruct op as [size align|size align| | |]; try done; b2p; (split; [done|]); exists (Z.log2 align); pose proof (Z.log2_nonneg align); done.
Qed.

(** What is left over in fresh pages. *)
Definition demo_junk (s : hstate) : gmap Z Z := {[ 8 * 4096 + 24 := 77; 13 * 4096 + 16 := 99; 13 * 4096 + 200 := 5 ]}.
Definition demo_start : xmstate := mk_xmstate (mk_world ∅ ∅ demo_heap) ∅ [] 0.
Abbreviation demo_step := (xm_step (xen_alloc demo_machine) (xen_free demo_machine) demo_junk 6400).

(** Padded, cleared and large blocks, a failure, and a block reused. *)
Definition demo_xcalls : list (heap_op * Z) :=
  [(HFree 0, 0); (HAlloc 100 64, 53312); (HZalloc 40 16, 53440); (HRead 53448, 0); (HWrite 53448 7, 0); (HAlloc 9000 16, 32784);
   (HAlloc 5000 16, 0); (HAlloc 4000 16, 49168); (HFree 53312, 0); (HAlloc 16 16, 53216); (HRead 53448, 7); (HWrite 32784 3, 0);
   (HFree 53440, 0); (HFree 32784, 0); (HFree 49168, 0); (HFree 53216, 0)].

Lemma demo_heap_ok : xen_ok demo_machine demo_heap ∅.
Proof.
  destruct demo_heap_wf as [Hw Hk]. split; [exact Hw|exact Hk|reflexivity|exact demo_nodes|vm_compute; split; [discriminate|reflexivity]|].
  intros x Hx. by apply elem_of_empty in Hx.
Qed.

Lemma demo_init_runs : match tlsf_init (xen_alloc demo_machine) demo_junk 6400 demo_start with Ok _ => true | Bug => false end = true.
Proof. vm_compute. reflexivity. Qed.

Lemma demo_started : ∃ P, xm_start (xen_alloc demo_machine) (xen_ok demo_machine) demo_junk 6400 demo_start P.
Proof.
  pose proof demo_init_runs as Hr. destruct (tlsf_init (xen_alloc demo_machine) demo_junk 6400 demo_start) as [s1|] eqn:E; [|discriminate Hr].
  exists (w_held (x_world s1)). split; [reflexivity|]. split; [exact demo_heap_ok|]. exists s1. split; [exact E|reflexivity].
Qed.

Lemma demo_xcalls_run :
  ∃ s h, history demo_step xm_valid demo_start empty_heap demo_xcalls s h ∧ ah_blocks h = ∅ ∧ x_xenpool s ≠ 0.
Proof.
  destruct (run_test_history demo_step xm_valid xm_valid_b xm_valid_b_sound (λ s h, bool_decide (ah_blocks h = ∅) && negb (x_xenpool s =? 0))
    demo_xcalls demo_start) as (s & h & Hh & He); [vm_compute; reflexivity|].
  apply andb_true_iff in He as [He Hx]. exists s, h. split; [exact Hh|]. split; [by apply bool_decide_eq_true in He|]. b2p. done.
Qed.

Lemma demo_sizeof : 0 < 6400 < 2 ^ 31.
Proof. lia. Qed.

Lemma xmalloc_refines_witness :
  ∃ s h, allowed empty_heap demo_xcalls ∧ ∀ op, xm_valid h op → ∃ res s2, demo_step op s = Ok (res, s2) ∧ heap_allows h op res.
Proof.
  destruct demo_started as (P & Hs), demo_xcalls_run as (s & h & Hh & _). exists s, h.
  exact (xmalloc_refines (xen_alloc demo_machine) (xen_free demo_machine) (same_node demo_machine) (xen_ok demo_machine) demo_junk 6400 demo_sizeof
    demo_start P demo_xcalls s h Hs Hh).
Defined.

Lemma xmalloc_on_xenheap_witness :
  ∃ s h, history demo_step xm_valid demo_start empty_heap demo_xcalls s h ∧ heap_wf demo_machine (w_heap (x_world s)).
Proof.
  destruct demo_started as (P & Hs), demo_xcalls_run as (s & h & Hh & _). exists s, h. split; [exact Hh|].
  exact (proj1 (proj2 (xmalloc_on_xenheap demo_machine demo_junk 6400 demo_start P demo_xcalls s h demo_sizeof Hs Hh))).
Defined.

Lemma xmalloc_no_leak_witness :
  ∃ s h p P pages, history demo_step xm_valid demo_start empty_heap demo_xcalls s h ∧ x_pools s !! x_xenpool s = Some p ∧
    (∀ pg, pg ∈ w_held (x_world s) ∖ P ↔ pg * PAGE_SIZE ∈ pages) ∧ num_regions p = u64 (Z.of_nat (length pages)).
Proof.
  destruct demo_started as (P & Hs), demo_xcalls_run as (s & h & Hh & He & Hx). exists s, h.
  destruct (xmalloc_no_leak (xen_alloc demo_machine) (xen_free demo_machine) (same_node demo_machine) (xen_ok demo_machine) demo_junk 6400 demo_sizeof
    demo_start P demo_xcalls s h Hs Hh He Hx) as (p & pages & Hp & _ & _ & _ & _ & Hpg & _ & Hn & _).
  exists p, P, pages. split; [exact Hh|]. split; [exact Hp|]. split; [exact Hpg|exact Hn].
Defined.

Lemma xmalloc_large_roundtrip_witness :
  ∃ res s1, _xmalloc (xen_alloc demo_machine) (xen_free demo_machine) demo_junk 6400 false 9000 16
    (mk_xmstate (mk_world ∅ ∅ demo_heap) ∅ [] 4096) = Ok (res, s1).
Proof.
  destruct (xmalloc_large_roundtrip (xen_alloc demo_machine) (xen_free demo_machine) (same_node demo_machine) (xen_ok demo_machine) demo_junk 6400
    (mk_xmstate (mk_world ∅ ∅ demo_heap) ∅ [] 4096) 9000 demo_heap_ok) as (res & s1 & E & _).
  - discriminate.
  - change PAGE_SIZE with 4096. lia.
  - exists res, s1. exact E.
Defined.

(** ** Sizes that wrap *)

(** The array variants check the product. *)
Lemma xmalloc_array_checked {H} alloc free junk sizeof size align num (s : xmstate (H:=H)) :
  0 < size → 0 ≤ num →
  _xmalloc_array alloc free junk sizeof false size align num s =
  if size * num <=? UINT_MAX then _xmalloc alloc free junk sizeof false (size * num) align s else Ok (0, s).
Proof.
  intros Hs Hn. unfold _xmalloc_array. rewrite (proj2 (Z.eqb_neq size 0)) by lia. cbn [negb andb].
  pose proof (Z.div_mod UINT_MAX size ltac:(lia)). pose proof (Z.mod_pos_bound UINT_MAX size ltac:(lia)).
  destruct (Z.ltb_spec (UINT_MAX / size) num) as [Hlt|Hge], (Z.leb_spec (size * num) UINT_MAX) as [Hle|Hgt]; try done; [nia| |nia].
  change UINT_MAX with (2 ^ 32 - 1) in *. rewrite u64_small by nia. done.
Qed.





(** ** Destroying a pool *)

Definition demo_destroy : bool :=
  match xmem_pool_create (xen_alloc demo_machine) demo_junk 6400 PAGE_SIZE 0 PAGE_SIZE demo_start with
  | Ok (pool, s1) =>
      match x_pools s1 !! pool with
      | Some p =>
          match xmem_pool_alloc (xmalloc_pool_get (xen_alloc demo_machine) demo_junk) 5000 p (x_world s1) with
          | Ok (r, p', w') => (r =? 0) && match xmem_pool_destroy (xen_free demo_machine) 6400 pool (set_pool pool p' w' s1) with Ok _ => false | Bug => true end
          | Bug => false
          end
      | None => false
      end
  | Bug => false
  end.

Lemma demo_destroy_test : demo_destroy = true.
Proof. vm_compute. reflexivity. Qed.

(** A pool that obtained its first region for a request it could not serve
    cannot be destroyed: the assertion for pools never allocated from fails,
    since the region is there. *)
Theorem xmem_pool_destroy_asserts :
  ∃ pool s1 p p' w',
    xmem_pool_create (xen_alloc demo_machine) demo_junk 6400 PAGE_SIZE 0 PAGE_SIZE demo_start = Ok (pool, s1) ∧
    x_pools s1 !! pool = Some p ∧
    xmem_pool_alloc (xmalloc_pool_get (xen_alloc demo_machine) demo_junk) 5000 p (x_world s1) = Ok (0, p', w') ∧
    xmem_pool_destroy (xen_free demo_machine) 6400 pool (set_pool pool p' w' s1) = Bug.
Proof.
  pose proof demo_destroy_test as Ht. unfold demo_destroy in Ht.
  destruct (xmem_pool_create _ _ _ _ _ _ _) as [[pool s1]|] eqn:E1; [|done]. destruct (x_pools s1 !! pool) as [p|] eqn:E2; [|done].
  destruct (xmem_pool_alloc _ _ _ _) as [[[r p'] w']|] eqn:E3; [|done]. apply andb_true_iff in Ht as [->%Z.eqb_eq Ht].
  exists pool, s1, p, p', w'. split; [done|]. split; [done|]. split; [done|]. by destruct (xmem_pool_destroy _ _ _ _).
Qed.
