(* ===== verification/Bits.v ===== *)
(** * Bits of machine words

    Lemmas on [Z.testbit], masks and complements that the red-black trees and
    the bitmaps share. *)

From S2P Require Import Prelude.

Lemma testbit_above x k n : 0 ≤ x < 2 ^ k → k ≤ n → Z.testbit x n = false.
Proof.
  intros Hx Hn. destruct (decide (0 ≤ k)); [|rewrite Z.pow_neg_r in Hx; lia].
  rewrite <- (Z.mod_small x (2 ^ k)) by lia. by apply Z.mod_pow2_bits_high.
Qed.

Lemma testbit_u64 x n : 0 ≤ n → Z.testbit (u64 x) n = bool_decide (n < 64) && Z.testbit x n.
Proof.
  intros Hn. unfold u64. case_bool_decide; simpl.
  - by apply Z.mod_pow2_bits_low.
  - apply Z.mod_pow2_bits_high; lia.
Qed.

(** Words with the same 64 bits are equal. *)
Lemma word_ext x y :
  0 ≤ x < 2 ^ 64 → 0 ≤ y < 2 ^ 64 →
  (∀ n, 0 ≤ n < 64 → Z.testbit x n = Z.testbit y n) → x = y.
Proof.
  intros Hx Hy H. apply Z.bits_inj'. intros n Hn. destruct (decide (n < 64)); [auto with lia|].
  by rewrite !(testbit_above _ 64) by lia.
Qed.

(** A mask [~(2^k - 1)] rounds down to a multiple of [2^k]. *)
Lemma land_not_ones x k :
  0 ≤ x < 2 ^ 64 → 0 ≤ k → Z.land x (u64 (Z.lnot (Z.ones k))) = x / 2 ^ k * 2 ^ k.
Proof.
  intros Hx Hk. transitivity (Z.ldiff x (Z.ones k)).
  - apply Z.bits_inj'. intros n Hn. rewrite Z.land_spec, Z.ldiff_spec, testbit_u64 by done.
    case_bool_decide; simpl; [by rewrite Z.lnot_spec|].
    by rewrite (testbit_above x 64) by lia.
  - rewrite Z.ldiff_ones_r by lia. by rewrite Z.shiftl_mul_pow2, Z.shiftr_div_pow2 by lia.
Qed.

(** Disjoint bits: the low [k] bits [y] put below a multiple of [2^k]. *)
Lemma lor_low x y k : 0 ≤ k → (2 ^ k | x) → 0 ≤ y < 2 ^ k → Z.lor x y = x + y.
Proof.
  intros Hk [q ->] Hy. rewrite <- Z.lxor_lor.
  - rewrite Z.add_nocarry_lxor; [done|]. apply Z.bits_inj'. intros n Hn.
    rewrite Z.land_spec, Z.bits_0. destruct (decide (n < k)).
    + by rewrite Z.mul_pow2_bits_low.
    + rewrite (testbit_above y k) by lia. apply andb_false_r.
  - apply Z.bits_inj'. intros n Hn. rewrite Z.land_spec, Z.bits_0. destruct (decide (n < k)).
    + by rewrite Z.mul_pow2_bits_low.
    + rewrite (testbit_above y k) by lia. apply andb_false_r.
Qed.
