(* ===== verification/RbTree.v ===== *)
(** * Red-black trees: the definitions

    The functions of xen/common/rbtree.c and the accessors of
    xen/include/xen/rbtree.h, on a memory of nodes. A node is a key of the
    map [rb_mem], NULL is 0, and an access to a node that is not in the map is
    [Bug]. The parent pointer and the colour of a node share one word, as in
    the code. A [struct rb_root] is the pointer [rb_root_node] of the state;
    the [struct rb_node **] of [rb_link_node] is a value of [rb_link].

    Loops take fuel; [RbTreeProps] shows that one more than the nodes of the
    tree is enough. *)

From S2P Require Import Prelude.
Open Scope xen_scope.

(** ** Nodes *)

Record rb_node := mk_rb_node {
  rb_parent_color : Z;
  rb_right : Z;
  rb_left : Z;
}.

Definition RB_RED : Z := 0.
Definition RB_BLACK : Z := 1.

#[export] Instance rb_node_eq_dec : EqDecision rb_node.
Proof. solve_decision. Defined.

Record rbtree := mk_rbtree {
  rb_mem : gmap Z rb_node;
  rb_root_node : Z;
}.

(** The masks [~1] and [~3], as unsigned longs. *)
Definition not1 : Z := u64 (Z.lnot 1).
Definition not3 : Z := u64 (Z.lnot 3).

Definition node_parent (n : rb_node) : Z := Z.land (rb_parent_color n) not3.
Definition node_color (n : rb_node) : Z := Z.land (rb_parent_color n) 1.

Definition with_parent_color (pc : Z) (n : rb_node) : rb_node :=
  mk_rb_node pc (rb_right n) (rb_left n).
Definition with_right (p : Z) (n : rb_node) : rb_node :=
  mk_rb_node (rb_parent_color n) p (rb_left n).
Definition with_left (p : Z) (n : rb_node) : rb_node :=
  mk_rb_node (rb_parent_color n) (rb_right n) p.

(** ** Memory accesses *)

Definition get {A} (f : rb_node → A) (r : Z) (t : rbtree) : outcome A :=
  deref (rb_mem t !! r) (λ n, Ok (f n)).

Definition put (f : rb_node → rb_node) (r : Z) (t : rbtree) : outcome rbtree :=
  deref (rb_mem t !! r) (λ n, Ok (mk_rbtree (<[r := f n]> (rb_mem t)) (rb_root_node t))).

Definition get_left : Z → rbtree → outcome Z := get rb_left.
Definition get_right : Z → rbtree → outcome Z := get rb_right.
Definition set_left (r p : Z) : rbtree → outcome rbtree := put (with_left p) r.
Definition set_right (r p : Z) : rbtree → outcome rbtree := put (with_right p) r.
Definition set_root (p : Z) (t : rbtree) : rbtree := mk_rbtree (rb_mem t) p.

Definition rb_parent : Z → rbtree → outcome Z := get node_parent.
Definition rb_color : Z → rbtree → outcome Z := get node_color.
Definition rb_is_red : Z → rbtree → outcome bool := get (λ n, node_color n =? 0).
Definition rb_is_black : Z → rbtree → outcome bool := get (λ n, negb (node_color n =? 0)).

Definition rb_set_red : Z → rbtree → outcome rbtree :=
  put (λ n, with_parent_color (Z.land (rb_parent_color n) not1) n).

Definition rb_set_black : Z → rbtree → outcome rbtree :=
  put (λ n, with_parent_color (Z.lor (rb_parent_color n) 1) n).

Definition rb_set_parent (rb p : Z) : rbtree → outcome rbtree :=
  put (λ n, with_parent_color (Z.lor (Z.land (rb_parent_color n) 3) p) n) rb.

Definition rb_set_color (rb color : Z) : rbtree → outcome rbtree :=
  put (λ n, with_parent_color (Z.lor (Z.land (rb_parent_color n) not1) color) n) rb.

Definition RB_EMPTY_ROOT (t : rbtree) : bool := rb_root_node t =? 0.
Definition RB_EMPTY_NODE (r : Z) (t : rbtree) : outcome bool :=
  let! p := rb_parent r t in Ok (p =? r).
Definition RB_CLEAR_NODE (r : Z) : rbtree → outcome rbtree := rb_set_parent r r.

(** [!p || rb_is_black(p)] *)
Definition null_or_black (p : Z) (t : rbtree) : outcome bool :=
  if p =? 0 then Ok true else rb_is_black p t.

(** ** Linking a new node *)

Inductive rb_link := LinkRoot | LinkLeft (parent : Z) | LinkRight (parent : Z).

Definition read_link (l : rb_link) (t : rbtree) : outcome Z :=
  match l with
  | LinkRoot => Ok (rb_root_node t)
  | LinkLeft p => get_left p t
  | LinkRight p => get_right p t
  end.

Definition write_link (l : rb_link) (v : Z) (t : rbtree) : outcome rbtree :=
  match l with
  | LinkRoot => Ok (set_root v t)
  | LinkLeft p => set_left p v t
  | LinkRight p => set_right p v t
  end.

Definition rb_link_node (node parent : Z) (link : rb_link) (t : rbtree) : outcome rbtree :=
  let! t := put (with_parent_color parent) node t in
  let! t := set_right node 0 t in
  let! t := set_left node 0 t in
  write_link link node t.

(** ** Rotations *)

Definition __rb_rotate_left (node : Z) (t : rbtree) : outcome rbtree :=
  let! rchild := get_right node t in
  let! parent := rb_parent node t in
  let! rl := get_left rchild t in
  let! t := set_right node rl t in
  let! t := (if rl =? 0 then Ok t
             else let! rl := get_left rchild t in rb_set_parent rl node t) in
  let! t := set_left rchild node t in
  let! t := rb_set_parent rchild parent t in
  let! t := (if negb (parent =? 0) then
               let! pl := get_left parent t in
               if node =? pl then set_left parent rchild t
               else set_right parent rchild t
             else Ok (set_root rchild t)) in
  rb_set_parent node rchild t.

Definition __rb_rotate_right (node : Z) (t : rbtree) : outcome rbtree :=
  let! lchild := get_left node t in
  let! parent := rb_parent node t in
  let! lr := get_right lchild t in
  let! t := set_left node lr t in
  let! t := (if lr =? 0 then Ok t
             else let! lr := get_right lchild t in rb_set_parent lr node t) in
  let! t := set_right lchild node t in
  let! t := rb_set_parent lchild parent t in
  let! t := (if negb (parent =? 0) then
               let! pr := get_right parent t in
               if node =? pr then set_right parent lchild t
               else set_left parent lchild t
             else Ok (set_root lchild t)) in
  rb_set_parent node lchild t.

(** ** Insertion

    [p && rb_is_red(p)] for the uncle [p]. *)
Definition red_node (p : Z) (t : rbtree) : outcome bool :=
  if p =? 0 then Ok false else rb_is_red p t.

(** The body of the loop of [rb_insert_color] when the parent is the left
    child of the grandparent; the result is the next [node]. *)
Definition insert_color_left (node parent gparent : Z) (t : rbtree) : outcome (Z * rbtree) :=
  let! uncle := get_right gparent t in
  let! red := red_node uncle t in
  if (red : bool) then
    let! t := rb_set_black uncle t in
    let! t := rb_set_black parent t in
    let! t := rb_set_red gparent t in
    Ok (gparent, t)
  else
    let! pr := get_right parent t in
    let! (node, parent, t) :=
      (if pr =? node then
         let! t := __rb_rotate_left parent t in Ok (parent, node, t)
       else Ok (node, parent, t)) in
    let! t := rb_set_black parent t in
    let! t := rb_set_red gparent t in
    let! t := __rb_rotate_right gparent t in
    Ok (node, t).

(** The same when the parent is the right child. *)
Definition insert_color_right (node parent gparent : Z) (t : rbtree) : outcome (Z * rbtree) :=
  let! uncle := get_left gparent t in
  let! red := red_node uncle t in
  if (red : bool) then
    let! t := rb_set_black uncle t in
    let! t := rb_set_black parent t in
    let! t := rb_set_red gparent t in
    Ok (gparent, t)
  else
    let! pl := get_left parent t in
    let! (node, parent, t) :=
      (if pl =? node then
         let! t := __rb_rotate_right parent t in Ok (parent, node, t)
       else Ok (node, parent, t)) in
    let! t := rb_set_black parent t in
    let! t := rb_set_red gparent t in
    let! t := __rb_rotate_left gparent t in
    Ok (node, t).

Fixpoint insert_color_loop (fuel : nat) (node : Z) (t : rbtree) : outcome rbtree :=
  match fuel with
  | O => Bug
  | S fuel =>
      let! parent := rb_parent node t in
      let! red := red_node parent t in
      if negb red then Ok t
      else
        let! gparent := rb_parent parent t in
        let! gl := get_left gparent t in
        let! (node, t) := (if parent =? gl then insert_color_left node parent gparent t
                           else insert_color_right node parent gparent t) in
        insert_color_loop fuel node t
  end.

Definition rb_insert_color (fuel : nat) (node : Z) (t : rbtree) : outcome rbtree :=
  let! t := insert_color_loop fuel node t in
  rb_set_black (rb_root_node t) t.

(** ** Removal

    What one round of the loop of [__rb_erase_color] leads to: the next node
    and its parent, or the [break] with a node to blacken. *)
Inductive erase_next :=
| EraseContinue (node parent : Z)
| EraseBreak (node : Z).

Definition erase_color_left (parent : Z) (t : rbtree) : outcome (erase_next * rbtree) :=
  let! other := get_right parent t in
  let! red := rb_is_red other t in
  let! (other, t) :=
    (if (red : bool) then
       let! t := rb_set_black other t in
       let! t := rb_set_red parent t in
       let! t := __rb_rotate_left parent t in
       let! other := get_right parent t in
       Ok (other, t)
     else Ok (other, t)) in
  let! ol := get_left other t in
  let! olb := null_or_black ol t in
  let! both := (if (olb : bool) then let! or := get_right other t in null_or_black or t
                else Ok false) in
  if (both : bool) then
    let! t := rb_set_red other t in
    let! pp := rb_parent parent t in
    Ok (EraseContinue parent pp, t)
  else
    let! or := get_right other t in
    let! orb := null_or_black or t in
    let! (other, t) :=
      (if (orb : bool) then
         let! o_left := get_left other t in
         let! t := (if o_left =? 0 then Ok t else rb_set_black o_left t) in
         let! t := rb_set_red other t in
         let! t := __rb_rotate_right other t in
         let! other := get_right parent t in
         Ok (other, t)
       else Ok (other, t)) in
    let! c := rb_color parent t in
    let! t := rb_set_color other c t in
    let! t := rb_set_black parent t in
    let! or := get_right other t in
    let! t := (if or =? 0 then Ok t else rb_set_black or t) in
    let! t := __rb_rotate_left parent t in
    Ok (EraseBreak (rb_root_node t), t).

Definition erase_color_right (parent : Z) (t : rbtree) : outcome (erase_next * rbtree) :=
  let! other := get_left parent t in
  let! red := rb_is_red other t in
  let! (other, t) :=
    (if (red : bool) then
       let! t := rb_set_black other t in
       let! t := rb_set_red parent t in
       let! t := __rb_rotate_right parent t in
       let! other := get_left parent t in
       Ok (other, t)
     else Ok (other, t)) in
  let! ol := get_left other t in
  let! olb := null_or_black ol t in
  let! both := (if (olb : bool) then let! or := get_right other t in null_or_black or t
                else Ok false) in
  if (both : bool) then
    let! t := rb_set_red other t in
    let! pp := rb_parent parent t in
    Ok (EraseContinue parent pp, t)
  else
    let! ol := get_left other t in
    let! olb := null_or_black ol t in
    let! (other, t) :=
      (if (olb : bool) then
         let! o_right := get_right other t in
         let! t := (if o_right =? 0 then Ok t else rb_set_black o_right t) in
         let! t := rb_set_red other t in
         let! t := __rb_rotate_left other t in
         let! other := get_left parent t in
         Ok (other, t)
       else Ok (other, t)) in
    let! c := rb_color parent t in
    let! t := rb_set_color other c t in
    let! t := rb_set_black parent t in
    let! ol := get_left other t in
    let! t := (if ol =? 0 then Ok t else rb_set_black ol t) in
    let! t := __rb_rotate_right parent t in
    Ok (EraseBreak (rb_root_node t), t).

Fixpoint erase_color_loop (fuel : nat) (node parent : Z) (t : rbtree) : outcome (Z * rbtree) :=
  match fuel with
  | O => Bug
  | S fuel =>
      let! black := null_or_black node t in
      if negb (black && negb (node =? rb_root_node t)) then Ok (node, t)
      else
        let! pl := get_left parent t in
        let! (next, t) := (if pl =? node then erase_color_left parent t
                           else erase_color_right parent t) in
        match next with
        | EraseContinue node parent => erase_color_loop fuel node parent t
        | EraseBreak node => Ok (node, t)
        end
  end.

Definition __rb_erase_color (fuel : nat) (node parent : Z) (t : rbtree) : outcome rbtree :=
  let! (node, t) := erase_color_loop fuel node parent t in
  if node =? 0 then Ok t else rb_set_black node t.

(** [while ((left = node->rb_left) != NULL) node = left;] *)
Fixpoint leftmost (fuel : nat) (node : Z) (t : rbtree) : outcome Z :=
  match fuel with
  | O => Bug
  | S fuel =>
      let! lchild := get_left node t in
      if lchild =? 0 then Ok node else leftmost fuel lchild t
  end.

Fixpoint rightmost (fuel : nat) (node : Z) (t : rbtree) : outcome Z :=
  match fuel with
  | O => Bug
  | S fuel =>
      let! rchild := get_right node t in
      if rchild =? 0 then Ok node else rightmost fuel rchild t
  end.

(** [rb_erase] of a node with two children: its successor takes its place. The
    result is the child, the parent and the colour for the label [color]. *)
Definition erase_two (fuel : nat) (old : Z) (t : rbtree) : outcome (Z * Z * Z * rbtree) :=
  let! node := get_right old t in
  let! node := leftmost fuel node t in
  let! child := get_right node t in
  let! parent := rb_parent node t in
  let! color := rb_color node t in
  let! t := (if child =? 0 then Ok t else rb_set_parent child parent t) in
  let! (parent, t) :=
    (if parent =? old then
       let! t := set_right parent child t in Ok (node, t)
     else
       let! t := set_left parent child t in Ok (parent, t)) in
  let! opc := get rb_parent_color old t in
  let! t := put (with_parent_color opc) node t in
  let! oright := get_right old t in
  let! t := set_right node oright t in
  let! oleft := get_left old t in
  let! t := set_left node oleft t in
  let! oparent := rb_parent old t in
  let! t := (if negb (oparent =? 0) then
               let! opl := get_left oparent t in
               if opl =? old then set_left oparent node t
               else set_right oparent node t
             else Ok (set_root node t)) in
  let! oleft := get_left old t in
  let! t := rb_set_parent oleft node t in
  let! oright := get_right old t in
  let! t := (if oright =? 0 then Ok t else rb_set_parent oright node t) in
  Ok (child, parent, color, t).

(** [rb_erase] of a node with the one child [child], or with none. *)
Definition erase_one (node child : Z) (t : rbtree) : outcome (Z * Z * Z * rbtree) :=
  let! parent := rb_parent node t in
  let! color := rb_color node t in
  let! t := (if child =? 0 then Ok t else rb_set_parent child parent t) in
  let! t := (if negb (parent =? 0) then
               let! pl := get_left parent t in
               if pl =? node then set_left parent child t
               else set_right parent child t
             else Ok (set_root child t)) in
  Ok (child, parent, color, t).

Definition rb_erase (fuel : nat) (node : Z) (t : rbtree) : outcome rbtree :=
  let! lchild := get_left node t in
  let! rchild := get_right node t in
  let! (child, parent, color, t) :=
    (if lchild =? 0 then erase_one node rchild t
     else if rchild =? 0 then erase_one node lchild t
     else erase_two fuel node t) in
  if color =? RB_BLACK then __rb_erase_color fuel child parent t else Ok t.

(** ** Walking the tree *)

Definition rb_first (fuel : nat) (t : rbtree) : outcome Z :=
  let n := rb_root_node t in
  if n =? 0 then Ok 0 else leftmost fuel n t.

Definition rb_last (fuel : nat) (t : rbtree) : outcome Z :=
  let n := rb_root_node t in
  if n =? 0 then Ok 0 else rightmost fuel n t.

(** [while ((parent = rb_parent(node)) && node == parent->rb_right) node = parent;]
    and the final value of [parent]. *)
Fixpoint climb_right (fuel : nat) (node : Z) (t : rbtree) : outcome Z :=
  match fuel with
  | O => Bug
  | S fuel =>
      let! parent := rb_parent node t in
      if parent =? 0 then Ok parent
      else
        let! pr := get_right parent t in
        if node =? pr then climb_right fuel parent t else Ok parent
  end.

Fixpoint climb_left (fuel : nat) (node : Z) (t : rbtree) : outcome Z :=
  match fuel with
  | O => Bug
  | S fuel =>
      let! parent := rb_parent node t in
      if parent =? 0 then Ok parent
      else
        let! pl := get_left parent t in
        if node =? pl then climb_left fuel parent t else Ok parent
  end.

Definition rb_next (fuel : nat) (node : Z) (t : rbtree) : outcome Z :=
  let! p := rb_parent node t in
  if p =? node then Ok 0
  else
    let! rchild := get_right node t in
    if negb (rchild =? 0) then leftmost fuel rchild t else climb_right fuel node t.

Definition rb_prev (fuel : nat) (node : Z) (t : rbtree) : outcome Z :=
  let! p := rb_parent node t in
  if p =? node then Ok 0
  else
    let! lchild := get_left node t in
    if negb (lchild =? 0) then rightmost fuel lchild t else climb_left fuel node t.

Definition rb_replace_node (victim new : Z) (t : rbtree) : outcome rbtree :=
  let! parent := rb_parent victim t in
  let! t := (if negb (parent =? 0) then
               let! pl := get_left parent t in
               if victim =? pl then set_left parent new t
               else set_right parent new t
             else Ok (set_root new t)) in
  let! vl := get_left victim t in
  let! t := (if vl =? 0 then Ok t else rb_set_parent vl new t) in
  let! vr := get_right victim t in
  let! t := (if vr =? 0 then Ok t else rb_set_parent vr new t) in
  let! v := get id victim t in
  put (λ _, v) new t.
