(* ===== verification/RbTreeRep.v ===== *)
(** * Red-black trees: the trees that a memory represents

    Inductive trees and their contexts (a path from the root, as a list of
    frames), and the predicate [tree_at] that the nodes reachable from the root
    pointer are such a tree, with parent pointers and colours. The functions of
    [RbTree] come in mirrored pairs; [side] covers both. *)

From S2P Require Import Prelude Bits RbTree.
Open Scope xen_scope.

(** ** Trees and contexts *)

Inductive rcolor := Red | Black.

Inductive tree :=
| Leaf
| Node (c : rcolor) (l : tree) (x : Z) (r : tree).

Inductive side := L | R.

#[export] Instance rcolor_eq_dec : EqDecision rcolor.
Proof. solve_decision. Defined.
#[export] Instance side_eq_dec : EqDecision side.
Proof. solve_decision. Defined.

#[export] Instance tree_eq_dec : EqDecision tree.
Proof. solve_decision. Defined.

Definition opp (d : side) : side := match d with L => R | R => L end.

(** The node with [a] on side [d] and [b] on the other one. *)
Definition mk (d : side) (c : rcolor) (a : tree) (x : Z) (b : tree) : tree :=
  match d with L => Node c a x b | R => Node c b x a end.

Definition ptr (t : tree) : Z := match t with Leaf => 0 | Node _ _ x _ => x end.

Fixpoint inorder (t : tree) : list Z :=
  match t with Leaf => [] | Node _ l x r => inorder l ++ x :: inorder r end.

(** A frame: the hole is on side [fside] of the node [fnode]. *)
Record frame := Frame { fside : side; fcolor : rcolor; fnode : Z; fsib : tree }.

Fixpoint plug (K : list frame) (t : tree) : tree :=
  match K with
  | [] => t
  | f :: K => plug K (mk (fside f) (fcolor f) t (fnode f) (fsib f))
  end.

(** The parent of the hole. *)
Definition kpar (K : list frame) : Z := match K with [] => 0 | f :: _ => fnode f end.

(** What lies before and after the hole. *)
Fixpoint kleft (K : list frame) : list Z :=
  match K with
  | [] => []
  | Frame L _ _ _ :: K => kleft K
  | Frame R _ x s :: K => kleft K ++ inorder s ++ [x]
  end.

Fixpoint kright (K : list frame) : list Z :=
  match K with
  | [] => []
  | Frame L _ x s :: K => x :: inorder s ++ kright K
  | Frame R _ _ _ :: K => kright K
  end.

Lemma inorder_plug K t : inorder (plug K t) = kleft K ++ inorder t ++ kright K.
Proof.
  revert t. induction K as [|[[] c x s] K IH]; intros t; simpl.
  - by rewrite app_nil_r.
  - rewrite IH. simpl. by simplify_list_eq.
  - rewrite IH. simpl. by simplify_list_eq.
Qed.

(** Occurrences in a list: distinctness and membership become arithmetic. *)
Fixpoint occ (z : Z) (l : list Z) : Z :=
  match l with [] => 0 | y :: l => (if z =? y then 1 else 0) + occ z l end.

Lemma occ_nonneg z l : 0 ≤ occ z l.
Proof. induction l as [|y l IH]; simpl; [done|]. case_Z; lia. Qed.

Lemma occ_app z l k : occ z (l ++ k) = occ z l + occ z k.
Proof. induction l as [|y l IH]; simpl; lia. Qed.

Lemma elem_of_occ z l : z ∈ l ↔ 0 < occ z l.
Proof.
  induction l as [|y l IH]; simpl; [by rewrite elem_of_nil|]. rewrite elem_of_cons, IH.
  pose proof (occ_nonneg z l). case_Z; naive_solver lia.
Qed.

Lemma NoDup_occ l : NoDup l ↔ ∀ z, occ z l ≤ 1.
Proof.
  induction l as [|y l IH]; simpl.
  - split; [done|constructor].
  - rewrite NoDup_cons, IH, elem_of_occ. split.
    + intros [Hy H] z. specialize (H z). case_Z; subst; lia.
    + intros H. split; [specialize (H y); rewrite Z.eqb_refl in H; lia|].
      intros z. specialize (H z). destruct (z =? y); lia.
Qed.

(** A list without duplicates splits at an element in one way. *)
Lemma split_unique (x : Z) a b a' b' :
  NoDup (a ++ x :: b) → a ++ x :: b = a' ++ x :: b' → a = a' ∧ b = b'.
Proof.
  revert a'. induction a as [|y a IH]; intros [|y' a'] Hnd E; simplify_eq/=; [done|..].
  - apply NoDup_cons in Hnd as [Hx _]. exfalso. apply Hx. set_solver.
  - apply NoDup_cons in Hnd as [Hx _]. exfalso. apply Hx. set_solver.
  - apply NoDup_cons in Hnd as [_ Hnd]. destruct (IH a' Hnd) as [-> ->]; done.
Qed.

(** Membership and distinctness goals about the address [z]. *)
Ltac occ_at z :=
  repeat match goal with
  | H : NoDup ?l |- _ => rewrite NoDup_occ in H; specialize (H z)
  | H : context [@elem_of Z (list Z) _ _ _] |- _ => progress rewrite ?elem_of_occ in H
  end;
  rewrite ?elem_of_occ;
  repeat (rewrite ?occ_app in *; cbn [occ] in *);
  repeat match goal with
  | _ : context [occ z ?l] |- _ =>
      lazymatch goal with _ : 0 ≤ occ z l |- _ => fail | _ => pose proof (occ_nonneg z l) end
  | |- context [occ z ?l] =>
      lazymatch goal with _ : 0 ≤ occ z l |- _ => fail | _ => pose proof (occ_nonneg z l) end
  end;
  repeat match goal with
  | H : context [?a =? ?b] |- _ => destruct (Z.eqb_spec a b); try subst
  | |- context [?a =? ?b] => destruct (Z.eqb_spec a b); try subst
  end;
  try congruence; try lia.

Lemma plug_app K1 K2 t : plug (K1 ++ K2) t = plug K2 (plug K1 t).
Proof. revert t. induction K1 as [|f K1 IH]; intros t; simpl; auto. Qed.

Lemma mk_opp d c a x b : mk (opp d) c a x b = mk d c b x a.
Proof. by destruct d. Qed.

Lemma ptr_mk d c a x b : ptr (mk d c a x b) = x.
Proof. by destruct d. Qed.

(** ** The word that holds the parent and the colour *)

Definition cword (c : rcolor) : Z := match c with Red => RB_RED | Black => RB_BLACK end.

(** Addresses of nodes: nodes hold pointers, so the two low bits are clear. *)
Definition ok_ptr (p : Z) : Prop := 0 < p < 2 ^ 64 ∧ (4 | p).
Definition ok_null (p : Z) : Prop := p = 0 ∨ ok_ptr p.

Lemma not3_spec x : 0 ≤ x < 2 ^ 64 → Z.land x not3 = x / 4 * 4.
Proof. intros. by apply (land_not_ones x 2). Qed.

Lemma not1_spec x : 0 ≤ x < 2 ^ 64 → Z.land x not1 = x / 2 * 2.
Proof. intros. by apply (land_not_ones x 1). Qed.

Section word.
Context (p : Z) (c : rcolor) (Hp : ok_null p).

#[local] Lemma word_shape : ∃ q, p = 4 * q ∧ 0 ≤ q ∧ p < 2 ^ 64 - 3 ∧ 0 ≤ cword c ≤ 1.
Proof.
  assert (0 ≤ cword c ≤ 1) by (destruct c; simpl; unfold RB_RED, RB_BLACK; lia).
  destruct Hp as [->|[? [q ->]]]; [by exists 0|]. exists q.
  change (2 ^ 64) with (4 * 2 ^ 62) in *. lia.
Qed.

Lemma word_parent : Z.land (p + cword c) not3 = p.
Proof.
  destruct word_shape as (q & -> & ? & ? & ?). rewrite not3_spec by lia.
  replace ((4 * q + cword c) / 4) with q; [lia|]. apply (Z.div_unique _ _ _ (cword c)); lia.
Qed.

Lemma word_color : Z.land (p + cword c) 1 = cword c.
Proof.
  destruct word_shape as (q & -> & ? & ? & ?). change 1 with (Z.ones 1).
  rewrite Z.land_ones by lia. symmetry. apply (Z.mod_unique _ _ (2 * q)); lia.
Qed.

Lemma word_red : Z.land (p + cword c) not1 = p + cword Red.
Proof.
  destruct word_shape as (q & -> & ? & ? & ?). rewrite not1_spec by lia.
  replace ((4 * q + cword c) / 2) with (2 * q); [simpl; unfold RB_RED; lia|].
  apply (Z.div_unique _ _ _ (cword c)); lia.
Qed.

Lemma word_set_color c' : Z.lor (Z.land (p + cword c) not1) (cword c') = p + cword c'.
Proof.
  rewrite word_red. destruct word_shape as (q & -> & ? & ? & ?). simpl. unfold RB_RED.
  rewrite (lor_low _ _ 1); [lia|lia|exists (2 * q); lia|destruct c'; simpl; unfold RB_RED, RB_BLACK; lia].
Qed.

Lemma word_black : Z.lor (p + cword c) 1 = p + cword Black.
Proof.
  rewrite <- (word_set_color Black). rewrite word_red.
  destruct c; [done|]. simpl. unfold RB_RED, RB_BLACK. rewrite Z.add_0_r.
  destruct word_shape as (q & -> & ? & ? & ?). rewrite <- (lor_low _ 1 1); [|lia|exists (2 * q); lia|lia].
  by rewrite <- Z.lor_assoc, Z.lor_diag.
Qed.

Lemma word_set_parent p' : ok_null p' → Z.lor (Z.land (p + cword c) 3) p' = p' + cword c.
Proof.
  intros Hp'. destruct word_shape as (q & -> & ? & ? & ?).
  change 3 with (Z.ones 2). rewrite Z.land_ones by lia.
  replace ((4 * q + cword c) mod 2 ^ 2) with (cword c) by (apply (Z.mod_unique _ _ q); lia).
  rewrite Z.lor_comm. apply (lor_low _ _ 2); [lia| |lia].
  destruct Hp' as [->|[? ?]]; [by exists 0|done].
Qed.
End word.

(** ** Representation *)

Definition node_of (par : Z) (c : rcolor) (l r : Z) : rb_node :=
  mk_rb_node (par + cword c) r l.

Definition child_node (d : side) (par : Z) (c : rcolor) (a b : Z) : rb_node :=
  match d with L => node_of par c a b | R => node_of par c b a end.

Fixpoint rep (m : gmap Z rb_node) (par : Z) (t : tree) : Prop :=
  match t with
  | Leaf => True
  | Node c l x r =>
      m !! x = Some (node_of par c (ptr l) (ptr r)) ∧ rep m x l ∧ rep m x r
  end.

(** The nodes of a context whose hole holds a tree with root [h]. *)
Fixpoint ctx_rep (m : gmap Z rb_node) (h : Z) (K : list frame) : Prop :=
  match K with
  | [] => True
  | Frame d c x s :: K =>
      m !! x = Some (child_node d (kpar K) c h (ptr s)) ∧ rep m x s ∧ ctx_rep m x K
  end.

Fixpoint kroot (K : list frame) (h : Z) : Z :=
  match K with [] => h | f :: K => kroot K (fnode f) end.

Lemma ptr_plug K t : ptr (plug K t) = kroot K (ptr t).
Proof.
  revert t. induction K as [|[d c x s] K IH]; intros t; [done|]. simpl. by rewrite IH, ptr_mk.
Qed.

Lemma rep_mk m par d c a x b :
  rep m par (mk d c a x b) ↔
  m !! x = Some (child_node d par c (ptr a) (ptr b)) ∧ rep m x a ∧ rep m x b.
Proof. destruct d; simpl; tauto. Qed.

Lemma rb_rep_plug m K t : rep m 0 (plug K t) ↔ ctx_rep m (ptr t) K ∧ rep m (kpar K) t.
Proof.
  revert t. induction K as [|[d c x s] K IH]; intros t; simpl; [tauto|].
  rewrite IH, rep_mk, ptr_mk. tauto.
Qed.

Lemma rb_rep_ext m m' par t :
  (∀ a, a ∈ inorder t → m' !! a = m !! a) → rep m par t → rep m' par t.
Proof.
  revert par. induction t as [|c l IHl x r IHr]; intros par H; simpl; [done|].
  simpl in H. intros (Hx & Hl & Hr). rewrite H by set_solver.
  split_and!; [done|apply IHl|apply IHr]; auto; intros; apply H; set_solver.
Qed.

(** A subtree gets a new parent when the word of its root does. *)
Definition set_par (p : Z) (n : rb_node) : rb_node :=
  with_parent_color (Z.lor (Z.land (rb_parent_color n) 3) p) n.

Lemma rep_set_par m p p' t :
  ok_null p → ok_null p' → NoDup (inorder t) →
  rep m p t → rep (match t with Leaf => m | _ => alter (set_par p') (ptr t) m end) p' t.
Proof.
  intros Hp Hp' Hnd. destruct t as [|c l x r]; [done|]. simpl in *.
  apply NoDup_app in Hnd as (? & Hl & [Hr ?]%NoDup_cons).
  intros (Hx & ? & ?). split_and!.
  - rewrite lookup_alter_eq, Hx. simpl. unfold set_par, with_parent_color, node_of. simpl.
    by rewrite word_set_parent.
  - eapply rb_rep_ext; [|done]. intros a Ha. apply lookup_alter_ne. set_solver.
  - eapply rb_rep_ext; [|done]. intros a Ha. apply lookup_alter_ne. set_solver.
Qed.

(** The memory [rb_mem t] holds the tree [T], and agrees with [m0] off [D]. *)
Record tree_at (D : gset Z) (m0 : gmap Z rb_node) (t : rbtree) (T : tree) : Prop := {
  ta_root : rb_root_node t = ptr T;
  ta_rep : rep (rb_mem t) 0 T;
  ta_nodup : NoDup (inorder T);
  ta_ptr : ∀ a, a ∈ inorder T → ok_ptr a ∧ a ∈ D;
  ta_frame : ∀ a, a ∉ D → rb_mem t !! a = m0 !! a;
}.

Section at_hole.
Context {D : gset Z} {m0 : gmap Z rb_node}.

Lemma tree_at_par t K T : tree_at D m0 t (plug K T) → ok_null (kpar K).
Proof.
  intros [_ _ _ H _]. destruct K as [|[d c x s] K]; [by left|right]. simpl in *.
  apply H. rewrite inorder_plug. destruct d; simpl; set_solver.
Qed.

(** Replacing the tree in a hole. *)
Lemma tree_at_replace t t' K T T' :
  tree_at D m0 t (plug K T) →
  NoDup (inorder T') →
  (∀ a, a ∈ inorder T' → ok_ptr a ∧ a ∈ D ∧ a ∉ kleft K ∧ a ∉ kright K) →
  rep (rb_mem t') (kpar K) T' →
  (∀ a, (a ∈ kleft K ∨ a ∈ kright K) → a ≠ kpar K → rb_mem t' !! a = rb_mem t !! a) →
  (∀ a, a ∉ D → rb_mem t' !! a = rb_mem t !! a) →
  match K with
  | [] => rb_root_node t' = ptr T'
  | Frame d c x s :: K =>
      rb_root_node t' = rb_root_node t ∧
      rb_mem t' !! x = Some (child_node d (kpar K) c (ptr T') (ptr s))
  end →
  tree_at D m0 t' (plug K T').
Proof.
  intros [Hroot Hrep Hnd Hptr Hfr] Hnd' Hptr' Hrep' Hk HD Hl.
  rewrite inorder_plug in Hnd, Hptr.
  apply NoDup_app in Hnd as (Hn1 & Hn2 & (Hn3 & Hn4 & Hn5)%NoDup_app).
  apply rb_rep_plug in Hrep as [Hctx Hrep]. split.
  - destruct K as [|[d c x s] K]; [done|]. destruct Hl as [-> _]. by rewrite Hroot, !ptr_plug.
  - apply rb_rep_plug. split; [|done]. destruct K as [|[d c x s] K]; [done|].
    destruct Hl as [_ Hx], Hctx as (_ & Hs & HK). simpl in *. split_and!; [done| |].
    + eapply rb_rep_ext; [|done]. intros a Ha. apply Hk.
      * destruct d; simpl; set_solver.
      * destruct d; simpl in *; [apply NoDup_cons in Hn5 as [? ?]|
          apply NoDup_app in Hn1 as (_ & _ & (_ & ? & _)%NoDup_app)]; set_solver.
    + assert (Hd : ∀ a, (a ∈ kleft K ∨ a ∈ kright K) →
        (a ∈ kleft (Frame d c x s :: K) ∨ a ∈ kright (Frame d c x s :: K)) ∧ a ≠ x).
      { intros a Ha. destruct d; simpl in *.
        - apply NoDup_cons in Hn5 as [? _]. set_solver.
        - apply NoDup_app in Hn1 as (_ & ? & _). set_solver. }
      assert (HKm : ∀ a, (a ∈ kleft K ∨ a ∈ kright K) → rb_mem t' !! a = rb_mem t !! a)
        by (intros a [? ?]%Hd; auto).
      clear -HK HKm. revert x HK. induction K as [|[d c y u] K IH]; intros x; [done|].
      intros (Hy & Hu & HK). simpl in *. split_and!.
      * rewrite HKm; [done|]. destruct d; simpl; set_solver.
      * eapply rb_rep_ext; [|done]. intros a Ha. apply HKm. destruct d; simpl; set_solver.
      * apply IH; [|done]. intros a Ha. apply HKm. destruct d; simpl; set_solver.
  - rewrite inorder_plug. apply NoDup_app. split_and!; [done| |].
    { intros a Ha [Ha'|Ha']%elem_of_app; [by apply Hptr' in Ha' as (_ & _ & ? & _)|].
      eapply Hn2; [done|]. apply elem_of_app. auto. }
    apply NoDup_app. split_and!; [done| |done]. intros a Ha. by apply Hptr' in Ha as (_ & _ & _ & ?).
  - rewrite inorder_plug. intros a [Ha|[Ha|Ha]%elem_of_app]%elem_of_app.
    + apply Hptr. rewrite !elem_of_app. auto.
    + apply Hptr' in Ha. tauto.
    + apply Hptr. rewrite !elem_of_app. auto.
  - intros a Ha. rewrite HD; auto.
Qed.

(** The same, when the tree has the same nodes as before. *)
Lemma tree_at_reshape t t' K T T' :
  tree_at D m0 t (plug K T) →
  inorder T' = inorder T →
  rep (rb_mem t') (kpar K) T' →
  (∀ z, z ∉ inorder T → (K ≠ [] → z ≠ kpar K) → rb_mem t' !! z = rb_mem t !! z) →
  match K with
  | [] => rb_root_node t' = ptr T'
  | Frame d c x s :: K =>
      rb_root_node t' = rb_root_node t ∧
      rb_mem t' !! x = Some (child_node d (kpar K) c (ptr T') (ptr s))
  end →
  tree_at D m0 t' (plug K T').
Proof.
  intros Ht HT Hrep Hm Hl. pose proof Ht as [_ _ Hnd Hptr _]. rewrite inorder_plug in Hnd, Hptr.
  eapply tree_at_replace; [done|..]; rewrite ?HT; try done.
  - apply NoDup_app in Hnd as (_ & _ & [? _]%NoDup_app). done.
  - intros z Hz. destruct (Hptr z); [rewrite !elem_of_app; auto|]. split_and!; try done; occ_at z.
  - intros z Hz ?. apply Hm; [|done]. destruct Hz; occ_at z.
  - intros z Hz. apply Hm.
    + intros ?. apply Hz, Hptr. rewrite !elem_of_app. auto.
    + intros HK ->. apply Hz, Hptr. destruct K as [|[[] c x s] K]; simpl; [done|set_solver..].
Qed.
End at_hole.
