(* ===== verification/RbTreeOps.v ===== *)
(** * Red-black trees: reading, colouring and rotating at a position

    The accessors and the rotations of [RbTree] on a tree given as a context
    and a subtree. [get_child], [set_child] and [rotate] are the mirrored
    functions with the side as an argument. *)

From S2P Require Import Prelude Bits RbTree RbTreeRep.
Open Scope xen_scope.

Definition get_child (d : side) : Z → rbtree → outcome Z :=
  match d with L => get_left | R => get_right end.

Definition set_child (d : side) : Z → Z → rbtree → outcome rbtree :=
  match d with L => set_left | R => set_right end.

(** [rotate d] moves the child on the other side up: [rotate L] is the left
    rotation. *)
Definition rotate (d : side) : Z → rbtree → outcome rbtree :=
  match d with L => __rb_rotate_left | R => __rb_rotate_right end.

(** Both rotations, with the side as an argument. *)
Definition rotate_gen (d : side) (node : Z) (t : rbtree) : outcome rbtree :=
  let! up := get_child (opp d) node t in
  let! parent := rb_parent node t in
  let! inner := get_child d up t in
  let! t := set_child (opp d) node inner t in
  let! t := (if inner =? 0 then Ok t
             else let! inner := get_child d up t in rb_set_parent inner node t) in
  let! t := set_child d up node t in
  let! t := rb_set_parent up parent t in
  let! t := (if negb (parent =? 0) then
               let! pd := get_child d parent t in
               if node =? pd then set_child d parent up t
               else set_child (opp d) parent up t
             else Ok (set_root up t)) in
  rb_set_parent node up t.

Lemma rotate_eq d : rotate d = rotate_gen d.
Proof. by destruct d. Qed.

Definition is_red (c : rcolor) : bool := match c with Red => true | Black => false end.

(** The colour of a tree's root; a leaf is black. *)
Definition color_of (T : tree) : rcolor := match T with Leaf => Black | Node c _ _ _ => c end.

Definition is_leaf (T : tree) : bool := match T with Leaf => true | Node _ _ _ _ => false end.

Definition child_of (d : side) (n : rb_node) : Z :=
  match d with L => rb_left n | R => rb_right n end.

Definition with_child (d : side) (p : Z) (n : rb_node) : rb_node :=
  match d with L => with_left p n | R => with_right p n end.

Lemma get_child_eq d : get_child d = get (child_of d).
Proof. by destruct d. Qed.
Lemma set_child_eq d x p : set_child d x p = put (with_child d p) x.
Proof. by destruct d. Qed.

Lemma rb_set_parent_eq x p : rb_set_parent x p = put (set_par p) x.
Proof. done. Qed.

Lemma get_ok {A} (f : rb_node → A) x t n : rb_mem t !! x = Some n → get f x t = Ok (f n).
Proof. unfold get. by intros ->. Qed.

Lemma put_ok f x t n :
  rb_mem t !! x = Some n → put f x t = Ok (mk_rbtree (<[x := f n]> (rb_mem t)) (rb_root_node t)).
Proof. unfold put. by intros ->. Qed.

Lemma child_of_node d par c a b : child_of d (child_node d par c a b) = a.
Proof. by destruct d. Qed.
Lemma child_of_opp d par c a b : child_of (opp d) (child_node d par c a b) = b.
Proof. by destruct d. Qed.
Lemma with_child_node d par c a b p : with_child d p (child_node d par c a b) = child_node d par c p b.
Proof. by destruct d. Qed.
Lemma with_child_opp d par c a b p :
  with_child (opp d) p (child_node d par c a b) = child_node d par c a p.
Proof. by destruct d. Qed.
Lemma child_node_opp d par c a b : child_node (opp d) par c a b = child_node d par c b a.
Proof. by destruct d. Qed.
Lemma node_parent_node d par c a b : ok_null par → node_parent (child_node d par c a b) = par.
Proof. intros. destruct d; by apply word_parent. Qed.
Lemma set_par_node d par c a b p :
  ok_null par → ok_null p → set_par p (child_node d par c a b) = child_node d p c a b.
Proof.
  intros. destruct d; unfold set_par, with_parent_color; simpl; unfold node_of; simpl;
    by rewrite word_set_parent.
Qed.
Lemma node_color_node d par c a b : ok_null par → node_color (child_node d par c a b) = cword c.
Proof. intros. destruct d; by apply word_color. Qed.

Section at_node.
Context {D : gset Z} {m0 : gmap Z rb_node} {t : rbtree} {K : list frame}.
Context {d : side} {c : rcolor} {a : tree} {x : Z} {b : tree}.
Hypothesis Ht : tree_at D m0 t (plug K (mk d c a x b)).

Lemma node_at : rb_mem t !! x = Some (child_node d (kpar K) c (ptr a) (ptr b)).
Proof using Ht. pose proof (ta_rep _ _ _ _ Ht) as [_ [? _]%rep_mk]%rb_rep_plug. done. Qed.

#[local] Lemma par_at : ok_null (kpar K).
Proof using Ht. by eapply tree_at_par. Qed.

Lemma ok_ptr_at : ok_ptr x ∧ x ∈ D.
Proof using Ht. apply (ta_ptr _ _ _ _ Ht). rewrite inorder_plug. destruct d; set_solver. Qed.

Lemma get_child_at : get_child d x t = Ok (ptr a).
Proof using Ht. by rewrite get_child_eq, (get_ok _ _ _ _ node_at), child_of_node. Qed.

Lemma get_opp_at : get_child (opp d) x t = Ok (ptr b).
Proof using Ht. by rewrite get_child_eq, (get_ok _ _ _ _ node_at), child_of_opp. Qed.

Lemma rb_parent_at : rb_parent x t = Ok (kpar K).
Proof using Ht.
  unfold rb_parent. rewrite (get_ok _ _ _ _ node_at), node_parent_node; [done|apply par_at].
Qed.

Lemma rb_color_at : rb_color x t = Ok (cword c).
Proof using Ht.
  unfold rb_color. rewrite (get_ok _ _ _ _ node_at), node_color_node; [done|apply par_at].
Qed.

Lemma rb_is_red_at : rb_is_red x t = Ok (is_red c).
Proof using Ht.
  unfold rb_is_red. rewrite (get_ok _ _ _ _ node_at), node_color_node; [by destruct c|apply par_at].
Qed.

Lemma rb_is_black_at : rb_is_black x t = Ok (negb (is_red c)).
Proof using Ht.
  unfold rb_is_black. rewrite (get_ok _ _ _ _ node_at), node_color_node; [by destruct c|apply par_at].
Qed.


Lemma inorder_recolor c' : inorder (mk d c' a x b) = inorder (mk d c a x b).
Proof. by destruct d. Qed.

(** Changing the colour in the word of a node. *)
Lemma recolor_at f c' :
  f (child_node d (kpar K) c (ptr a) (ptr b)) = child_node d (kpar K) c' (ptr a) (ptr b) →
  ∃ t', put f x t = Ok t' ∧ tree_at D m0 t' (plug K (mk d c' a x b)).
Proof using Ht.
  intros Hf. rewrite (put_ok _ _ _ _ node_at), Hf. eexists. split; [done|].
  pose proof (ta_nodup _ _ _ _ Ht) as Hnd. rewrite inorder_plug in Hnd.
  pose proof (ta_rep _ _ _ _ Ht) as Hr. apply rb_rep_plug in Hr as [HK HT]. apply rep_mk in HT.
  eapply tree_at_reshape; [exact Ht|apply inorder_recolor|..]; simpl.
  - apply rep_mk. split_and!; [apply lookup_insert_eq|..];
      (eapply rb_rep_ext; [|apply HT]; intros z Hz; apply lookup_insert_ne; intros <-;
       destruct d; simpl in Hnd; occ_at x).
  - intros z Hz _. apply lookup_insert_ne. intros <-. destruct d; simpl in Hz; occ_at x.
  - rewrite ptr_mk. destruct K as [|[d' c1 y s] K']; [by rewrite (ta_root _ _ _ _ Ht); simpl; rewrite ptr_mk|].
    split; [done|]. simpl in HK. rewrite ptr_mk in HK. rewrite lookup_insert_ne; [by apply HK|].
    intros <-. destruct d, d'; simpl in Hnd; occ_at x.
Qed.

Lemma rb_set_red_at :
  ∃ t', rb_set_red x t = Ok t' ∧ tree_at D m0 t' (plug K (mk d Red a x b)).
Proof using Ht.
  apply recolor_at. pose proof par_at. unfold with_parent_color. destruct d; simpl; unfold node_of; simpl;
    by rewrite word_red.
Qed.

Lemma rb_set_black_at :
  ∃ t', rb_set_black x t = Ok t' ∧ tree_at D m0 t' (plug K (mk d Black a x b)).
Proof using Ht.
  apply recolor_at. pose proof par_at. unfold with_parent_color. destruct d; simpl; unfold node_of; simpl;
    by rewrite word_black.
Qed.

Lemma rb_set_color_at c' :
  ∃ t', rb_set_color x (cword c') t = Ok t' ∧ tree_at D m0 t' (plug K (mk d c' a x b)).
Proof using Ht.
  apply recolor_at. pose proof par_at. unfold with_parent_color. destruct d; simpl; unfold node_of; simpl;
    by rewrite word_set_color.
Qed.
End at_node.

(** ** The link from above to a node *)

(** [if (parent) { if (node == parent->d) parent->d = new; else parent->other = new; }
    else root->rb_node = new;] *)
Definition relink (d : side) (parent node new : Z) (t : rbtree) : outcome rbtree :=
  if negb (parent =? 0) then
    let! pd := get_child d parent t in
    if node =? pd then set_child d parent new t
    else set_child (opp d) parent new t
  else Ok (set_root new t).

(** The node above a hole points to [h]. *)
Definition linked (K : list frame) (h : Z) (t : rbtree) : Prop :=
  match K with
  | [] => True
  | Frame d c p s :: K =>
      rb_mem t !! p = Some (child_node d (kpar K) c h (ptr s)) ∧ p ≠ 0 ∧ h ≠ ptr s
  end.

Definition relinked (K : list frame) (new : Z) (t : rbtree) : rbtree :=
  match K with
  | [] => set_root new t
  | Frame d c p s :: K =>
      mk_rbtree (<[p := child_node d (kpar K) c new (ptr s)]> (rb_mem t)) (rb_root_node t)
  end.

Lemma relink_ok d K h new t :
  linked K h t → relink d (kpar K) h new t = Ok (relinked K new t).
Proof.
  unfold relink. destruct K as [|[d' c p s] K]; simpl; [done|]. intros (Hp & Hp0 & Hs).
  rewrite (proj2 (Z.eqb_neq p 0)) by done. simpl.
  rewrite get_child_eq, (get_ok _ _ _ _ Hp). cbn [mbind outcome_bind].
  destruct d, d'; cbn [child_of child_node node_of rb_left rb_right opp];
    rewrite ?Z.eqb_refl, ?(proj2 (Z.eqb_neq h (ptr s))) by done;
    rewrite set_child_eq, (put_ok _ _ _ _ Hp); done.
Qed.

Lemma relinked_ne K new t z : z ≠ kpar K ∨ K = [] → rb_mem (relinked K new t) !! z = rb_mem t !! z.
Proof.
  destruct K as [|[d c p s] K]; simpl; [done|]. intros [?|?]; [|done]. by apply lookup_insert_ne.
Qed.

Lemma ptr_notin z T : z ≠ 0 → z ∉ inorder T → z ≠ ptr T.
Proof. destruct T; simpl; [done|]. set_solver. Qed.

Lemma tree_at_linked {D m0} t K T : tree_at D m0 t (plug K T) → T ≠ Leaf → linked K (ptr T) t.
Proof.
  intros [_ Hr Hnd Hp _] HT. apply rb_rep_plug in Hr as [Hk _]. rewrite inorder_plug in Hnd, Hp.
  assert (Hin : ptr T ∈ inorder T) by (destruct T; [done|simpl; set_solver]).
  destruct K as [|[d c p s] K]; simpl in *; [done|]. split_and!; [apply Hk| |].
  - destruct (Hp p) as [[? _] _]; [|lia]. destruct d; simpl; set_solver.
  - apply ptr_notin.
    + destruct (Hp (ptr T)) as [[? _] _]; [set_solver|lia].
    + destruct d; simpl in Hnd; intros ?; occ_at (ptr T).
Qed.

Lemma rotate_relink d node t :
  rotate d node t =
  let! up := get_child (opp d) node t in
  let! parent := rb_parent node t in
  let! inner := get_child d up t in
  let! t := set_child (opp d) node inner t in
  let! t := (if inner =? 0 then Ok t
             else let! inner := get_child d up t in rb_set_parent inner node t) in
  let! t := set_child d up node t in
  let! t := rb_set_parent up parent t in
  let! t := relink d parent node up t in
  rb_set_parent node up t.
Proof. by rewrite rotate_eq. Qed.

(** ** Rotation *)

Section rotate.
Context {D : gset Z} {m0 : gmap Z rb_node} {t : rbtree} {K : list frame}.
Context {d : side} {c c2 : rcolor} {a : tree} {x : Z} {b : tree} {y : Z} {e : tree}.
Hypothesis Ht : tree_at D m0 t (plug K (mk d c a x (mk d c2 b y e))).

(** The memory after moving the inner subtree [b] to [x]. *)
Let mb : gmap Z rb_node :=
  match b with
  | Leaf => rb_mem t
  | Node _ _ _ _ => alter (set_par x) (ptr b) (rb_mem t)
  end.

Let P := kpar K.

#[local] Lemma rotate_facts :
  rb_mem t !! x = Some (child_node d P c (ptr a) y) ∧
  rb_mem t !! y = Some (child_node d x c2 (ptr b) (ptr e)) ∧
  x ≠ y ∧ x ≠ 0 ∧ y ≠ 0 ∧ (K ≠ [] → P ≠ x ∧ P ≠ y ∧ P ≠ ptr b) ∧
  ok_ptr x ∧ ok_ptr y ∧ ok_null P ∧ x ≠ ptr b ∧ y ≠ ptr b ∧ NoDup (inorder b) ∧ rep (rb_mem t) y b.
Proof using Ht.
  pose proof (ta_rep _ _ _ _ Ht) as [HK (Hx & Ha & (Hy & Hb & He)%rep_mk)%rep_mk]%rb_rep_plug.
  pose proof (ta_nodup _ _ _ _ Ht) as Hnd. rewrite inorder_plug in Hnd.
  pose proof (ta_ptr _ _ _ _ Ht) as Hp. rewrite inorder_plug in Hp.
  rewrite ptr_mk in Hx.
  assert (Hoy : ok_ptr y) by (apply Hp; destruct d; simpl; set_solver).
  assert (Hox : ok_ptr x) by (apply Hp; destruct d; simpl; set_solver).
  assert (HP : ok_null P) by (by eapply tree_at_par).
  assert (Hy0 : y ≠ 0) by (destruct Hoy; lia). assert (Hx0 : x ≠ 0) by (destruct Hox; lia).
  assert (Hnb : NoDup (inorder b)).
  { apply NoDup_occ. intros z. destruct d; simpl in Hnd; occ_at z. }
  split_and!; try done.
  - destruct d; simpl in Hnd; occ_at x.
  - intros HK0. assert (P ≠ 0 ∧ P ∉ inorder (mk d c a x (mk d c2 b y e))) as [? Hn].
    { destruct K as [|[d' c' p s] K']; [done|]. subst P. simpl. split.
      - destruct (Hp p) as [[? _] _]; [destruct d'; simpl; set_solver|lia].
      - destruct d'; simpl in Hnd; intros ?; occ_at p. }
    split_and!; [| |apply ptr_notin; [done|]]; destruct d; simpl in Hn; set_solver.
  - apply ptr_notin; [done|]. destruct d; simpl in Hnd; intros ?; occ_at x.
  - apply ptr_notin; [done|]. destruct d; simpl in Hnd; intros ?; occ_at y.
Qed.

#[local] Lemma mb_run t1 :
  rb_mem t1 = <[x := child_node d P c (ptr a) (ptr b)]> (rb_mem t) →
  (if ptr b =? 0 then Ok t1 else let! inner := get_child d y t1 in rb_set_parent inner x t1) =
  Ok (mk_rbtree (<[x := child_node d P c (ptr a) (ptr b)]> mb) (rb_root_node t1)).
Proof using Ht.
  intros Ht1. destruct rotate_facts as (Hx & Hy & Hxy & Hx0 & Hy0 & HP & Hox & Hoy & HPo & Hxb & Hyb & Hnb & Hb).
  subst mb. destruct b as [|cb bl bx br] eqn:Eb; simpl ptr in *.
  - simpl. by destruct t1; simpl in *; subst.
  - rewrite (proj2 (Z.eqb_neq bx 0)).
    2: { destruct (ta_ptr _ _ _ _ Ht bx) as [[? _] _]; [|lia]. rewrite inorder_plug.
         destruct d; simpl; set_solver. }
    rewrite get_child_eq, (get_ok _ _ _ (child_node d x c2 bx (ptr e))).
    2: { rewrite Ht1. by rewrite lookup_insert_ne. }
    cbn [mbind outcome_bind]. rewrite child_of_node, rb_set_parent_eq. destruct Hb as [Hb _].
    erewrite put_ok by (rewrite Ht1, lookup_insert_ne by done; exact Hb).
    rewrite Ht1. f_equal. f_equal. rewrite insert_insert_ne by done. f_equal.
    apply map_eq. intros z. destruct (decide (z = bx)) as [->|].
    + rewrite lookup_insert_eq, lookup_alter_eq, Hb. done.
    + by rewrite lookup_insert_ne, lookup_alter_ne.
Qed.

Lemma rotate_run :
  ∃ t', rotate d x t = Ok t' ∧
    rb_mem t' !! x = Some (child_node d y c (ptr a) (ptr b)) ∧
    rb_mem t' !! y = Some (child_node d P c2 x (ptr e)) ∧
    rb_root_node t' = match K with [] => y | _ => rb_root_node t end ∧
    match K with
    | [] => True
    | Frame d' c' p s :: K' => rb_mem t' !! p = Some (child_node d' (kpar K') c' y (ptr s))
    end ∧
    ∀ z, z ≠ x → z ≠ y → (K ≠ [] → z ≠ P) → rb_mem t' !! z = mb !! z.
Proof using Ht.
  destruct rotate_facts as (Hx & Hy & Hxy & Hx0 & Hy0 & HP & Hox & Hoy & HPo & Hxb & Hyb & Hnb & Hb).
  assert (Hl : linked K x t).
  { pose proof (tree_at_linked _ _ _ Ht) as H. rewrite ptr_mk in H. apply H. by destruct d. }
  assert (Hmy : mb !! y = rb_mem t !! y) by (subst mb; destruct b; [done|by apply lookup_alter_ne]).
  rewrite rotate_relink, !get_child_eq, (get_ok _ _ _ _ Hx), child_of_opp. cbn [mbind outcome_bind].
  unfold rb_parent. rewrite (get_ok _ _ _ _ Hx), node_parent_node by done. cbn [mbind outcome_bind].
  rewrite (get_ok _ _ _ _ Hy), child_of_node. cbn [mbind outcome_bind].
  rewrite (set_child_eq (opp d)), (put_ok _ _ _ _ Hx), with_child_opp.
  cbn [mbind outcome_bind]. rewrite <- get_child_eq, mb_run by done. cbn [mbind outcome_bind rb_root_node].
  rewrite set_child_eq. erewrite put_ok by (simpl; by rewrite lookup_insert_ne, Hmy, Hy).
  cbn [mbind outcome_bind rb_mem rb_root_node]. rewrite with_child_node, (rb_set_parent_eq y).
  erewrite put_ok by (apply lookup_insert_eq). cbn [mbind outcome_bind rb_mem rb_root_node].
  rewrite set_par_node, insert_insert_eq by (first [done|by right]).
  rewrite (relink_ok d K x y).
  2: { destruct K as [|[d' c' p s] K']; simpl in *; [done|]. destruct HP as (? & ? & ?); [done|].
       split_and!; [|apply Hl..]. rewrite !lookup_insert_ne by done. subst mb.
       destruct b; [|rewrite lookup_alter_ne by done]; apply Hl. }
  cbn [mbind outcome_bind]. rewrite rb_set_parent_eq. erewrite put_ok.
  2: { rewrite relinked_ne; [by simpl; rewrite lookup_insert_ne, lookup_insert_eq|].
       destruct K; [by right|left]. destruct HP as (? & ? & ?); [done|]. intros ->. done. }
  rewrite set_par_node by (first [done|by right]).
  eexists. split; [done|]. cbn [rb_mem rb_root_node]. split_and!.
  - apply lookup_insert_eq.
  - rewrite lookup_insert_ne by done. rewrite relinked_ne; [apply lookup_insert_eq|].
    destruct K; [by right|left]. destruct HP as (? & ? & ?); [done|]. intros ->. done.
  - by destruct K as [|[]].
  - destruct K as [|[d' c' p s] K']; [done|]. destruct HP as (? & ? & ?); [done|]. subst P. simpl in *.
    rewrite lookup_insert_ne by done. apply lookup_insert_eq.
  - intros z ? ? HzP. rewrite lookup_insert_ne by done. rewrite relinked_ne.
    + simpl. by rewrite !lookup_insert_ne.
    + destruct K; [by right|left]. by apply HzP.
Qed.

Lemma rotate_at :
  ∃ t', rotate d x t = Ok t' ∧ tree_at D m0 t' (plug K (mk d c2 (mk d c a x b) y e)).
Proof using Ht.
  destruct rotate_run as (t' & -> & Hx' & Hy' & Hroot & Hlink & Hoff). exists t'. split; [done|].
  destruct rotate_facts as (_ & _ & Hxy & Hx0 & Hy0 & HP & Hox & Hoy & HPo & Hxb & Hyb & Hnb & Hb).
  pose proof (ta_rep _ _ _ _ Ht) as [_ (_ & Ha & (_ & _ & He)%rep_mk)%rep_mk]%rb_rep_plug.
  pose proof (ta_nodup _ _ _ _ Ht) as Hnd. rewrite inorder_plug in Hnd.
  assert (Hmb : ∀ z, z ∉ inorder b → mb !! z = rb_mem t !! z).
  { intros z Hz. subst mb. destruct b; [done|]. apply lookup_alter_ne. intros <-. apply Hz. simpl. set_solver. }
  assert (HzP : ∀ z, z ∈ inorder (mk d c a x (mk d c2 b y e)) → K ≠ [] → z ≠ P).
  { intros z Hz HK ->. subst P. destruct K as [|[d' c' p s] K']; [done|]. simpl in *.
    destruct d'; simpl in Hnd; occ_at p. }
  eapply tree_at_reshape; [exact Ht|by destruct d; simpl; simplify_list_eq|..].
  - apply rep_mk. rewrite ptr_mk. split_and!; [done|apply rep_mk; split_and!; [done|..]|].
    + eapply rb_rep_ext; [|done]. intros z Hz. rewrite Hoff, Hmb; [done|..].
      all: try (apply HzP; destruct d; simpl; set_solver).
      all: destruct d; simpl in Hnd; intros ?; subst; first [solve [occ_at x]|solve [occ_at y]|solve [occ_at z]].
    + eapply rb_rep_ext; [|apply (rep_set_par (rb_mem t) y x); [by right|by right|done|exact Hb]].
      intros z Hz. apply Hoff. all: try (apply HzP; destruct d; simpl; set_solver).
      all: destruct d; simpl in Hnd; intros ->; first [solve [occ_at x]|solve [occ_at y]].
    + eapply rb_rep_ext; [|done]. intros z Hz. rewrite Hoff, Hmb; [done|..].
      all: try (apply HzP; destruct d; simpl; set_solver).
      all: destruct d; simpl in Hnd; intros ?; subst; first [solve [occ_at x]|solve [occ_at y]|solve [occ_at z]].
  - intros z Hz Hzk. rewrite Hoff, Hmb; [done|..]; try done.
    all: destruct d; simpl in Hz; set_solver.
  - rewrite ptr_mk. destruct K as [|[d' c' p s] K']; done.
Qed.
End rotate.
