(* ===== verification/RbTreeInsert.v ===== *)
(** * Red-black trees: insertion

    The colour and height rules of red-black trees ([rb_ok], and [kok] for
    contexts), and that [rb_insert_color] restores them after a red node has
    been linked in, without changing the order of the nodes. *)

From S2P Require Import Prelude Bits RbTree RbTreeRep RbTreeOps.
Open Scope xen_scope.

(** ** The rules *)

(** [rb_ok c n T]: the root of [T] has colour [c], no red node has a red child
    and every path to a leaf has [n] black nodes. *)
Inductive rb_ok : rcolor → nat → tree → Prop :=
| ok_leaf : rb_ok Black 0 Leaf
| ok_red n l x r : rb_ok Black n l → rb_ok Black n r → rb_ok Red n (Node Red l x r)
| ok_black n c1 c2 l x r :
    rb_ok c1 n l → rb_ok c2 n r → rb_ok Black (S n) (Node Black l x r).

(** [kok pc n K]: a tree with [n] black nodes on its paths fits the hole of
    [K]; if [pc] is red its root must be black. The hole at the root counts as
    one below a red node, so that the root is black. *)
Inductive kok : rcolor → nat → list frame → Prop :=
| kok_nil n : kok Red n []
| kok_red n d x s K : rb_ok Black n s → kok Black n K → kok Red n (Frame d Red x s :: K)
| kok_black n d c x s pc K :
    rb_ok c n s → kok pc (S n) K → kok Black n (Frame d Black x s :: K).

Create HintDb rb.
#[export] Hint Constructors rb_ok kok : rb.

Lemma ok_mk_red d n a x b : rb_ok Black n a → rb_ok Black n b → rb_ok Red n (mk d Red a x b).
Proof. destruct d; simpl; auto with rb. Qed.

Lemma ok_mk_black d n c1 c2 a x b :
  rb_ok c1 n a → rb_ok c2 n b → rb_ok Black (S n) (mk d Black a x b).
Proof. destruct d; simpl; eauto with rb. Qed.
#[export] Hint Resolve ok_mk_red ok_mk_black : rb.

Lemma ok_mk_inv d c n c' a x b :
  rb_ok c n (mk d c' a x b) →
  c = c' ∧
  match c' with
  | Red => rb_ok Black n a ∧ rb_ok Black n b
  | Black => ∃ n' c1 c2, n = S n' ∧ rb_ok c1 n' a ∧ rb_ok c2 n' b
  end.
Proof. intros H. destruct d; simpl in H; inversion H; subst; naive_solver. Qed.

Lemma ok_color c n T : rb_ok c n T → color_of T = c.
Proof. by destruct 1. Qed.

Lemma plug_ok c pc n K T :
  rb_ok c n T → kok pc n K → (pc = Red → c = Black) → ∃ N, rb_ok Black N (plug K T).
Proof.
  intros HT HK. revert c T HT. induction HK as [n|n d x s K Hs HK IH|n d c' x s pc K Hs HK IH];
    intros c T HT Hc; simpl.
  - rewrite Hc in HT by done. eauto.
  - rewrite Hc in HT by done. eapply IH; [by apply ok_mk_red|done].
  - eapply IH; [by eapply ok_mk_black|done].
Qed.

Lemma plug_not_leaf K T : T ≠ Leaf → plug K T ≠ Leaf.
Proof.
  revert T. induction K as [|[[] c x s] K IH]; intros T HT; simpl; [done|by apply IH..].
Qed.

(** ** The colours the code tests *)

Section tests.
Context {D : gset Z} {m0 : gmap Z rb_node} {t : rbtree} {K : list frame} {T : tree}.
Hypothesis Ht : tree_at D m0 t (plug K T).

Lemma ptr_zero_at : (ptr T =? 0) = is_leaf T.
Proof using Ht.
  destruct T as [|c l x r]; [done|]. simpl. apply Z.eqb_neq.
  pose proof (ok_ptr_at (d:=L) Ht) as [[? _] _]. lia.
Qed.

Lemma red_node_at : red_node (ptr T) t = Ok (is_red (color_of T)).
Proof using Ht.
  unfold red_node. rewrite ptr_zero_at. destruct T as [|c l x r]; [done|]. by apply (rb_is_red_at (d:=L) Ht).
Qed.

Lemma null_or_black_at : null_or_black (ptr T) t = Ok (negb (is_red (color_of T))).
Proof using Ht.
  unfold null_or_black. rewrite ptr_zero_at. destruct T as [|c l x r]; [done|]. by apply (rb_is_black_at (d:=L) Ht).
Qed.
End tests.

(** Which child of its parent a tree is. *)
Lemma side_test {D m0 t} d c p T s K :
  tree_at D m0 t (plug (Frame d c p s :: K) T) → T ≠ Leaf →
  (ptr T =? ptr (match d with L => T | R => s end)) = match d with L => true | R => false end.
Proof.
  intros Ht HT. destruct d; [apply Z.eqb_refl|]. apply Z.eqb_neq.
  by destruct (tree_at_linked _ _ _ Ht HT) as (_ & _ & ?).
Qed.

(** Unfold the frames next to the hole. *)
Ltac unplug H := cbn [plug fside fcolor fnode fsib] in H.

Lemma get_left_at {D m0 t} d c a x b K :
  tree_at D m0 t (plug K (mk d c a x b)) →
  get_left x t = Ok (ptr (match d with L => a | R => b end)).
Proof. intros H. destruct d; [exact (get_child_at H)|exact (get_opp_at H)]. Qed.

Lemma get_right_at {D m0 t} d c a x b K :
  tree_at D m0 t (plug K (mk d c a x b)) →
  get_right x t = Ok (ptr (match d with L => b | R => a end)).
Proof. intros H. destruct d; [exact (get_opp_at H)|exact (get_child_at H)]. Qed.

(** ** One round *)

Definition insert_gen (d : side) (node parent gparent : Z) (t : rbtree) : outcome (Z * rbtree) :=
  let! uncle := get_child (opp d) gparent t in
  let! red := red_node uncle t in
  if (red : bool) then
    let! t := rb_set_black uncle t in
    let! t := rb_set_black parent t in
    let! t := rb_set_red gparent t in
    Ok (gparent, t)
  else
    let! pd := get_child (opp d) parent t in
    let! (node, parent, t) :=
      (if pd =? node then
         let! t := rotate d parent t in Ok (parent, node, t)
       else Ok (node, parent, t)) in
    let! t := rb_set_black parent t in
    let! t := rb_set_red gparent t in
    let! t := rotate (opp d) gparent t in
    Ok (node, t).

Lemma insert_gen_eq node parent gparent t :
  insert_color_left node parent gparent t = insert_gen L node parent gparent t ∧
  insert_color_right node parent gparent t = insert_gen R node parent gparent t.
Proof. done. Qed.

Section insert_round.
Context {D : gset Z} {m0 : gmap Z rb_node} {t : rbtree} {K : list frame}.
Context {d e : side} {X s u : tree} {p g : Z} {c : rcolor}.
Hypothesis Ht : tree_at D m0 t (plug (Frame e Red p s :: Frame d c g u :: K) X).

(** A red uncle: the colours flip and the grandparent is next. *)
Lemma insert_gen_red x ul ux ur :
  u = Node Red ul ux ur →
  ∃ t', insert_gen d x p g t = Ok (g, t') ∧
    tree_at D m0 t' (plug K (mk d Red (mk e Black X p s) g (Node Black ul ux ur))).
Proof using Ht.
  intros ->. unfold insert_gen. pose proof Ht as Hg. unplug Hg.
  rewrite (get_opp_at Hg). cbn [mbind outcome_bind].
  assert (HU : tree_at D m0 t (plug (Frame (opp d) c g (mk e Red X p s) :: K) (Node Red ul ux ur))).
  { unplug Ht. simpl. by rewrite mk_opp. }
  rewrite (red_node_at HU). cbn [mbind outcome_bind color_of is_red ptr].
  destruct (rb_set_black_at (d:=L) HU) as (t1 & -> & H1). cbn [mbind outcome_bind mk].
  unplug H1. rewrite mk_opp in H1.
  destruct (rb_set_black_at (K:=Frame d c g (Node Black ul ux ur) :: K) (d:=e) (x:=p) H1) as (t2 & -> & H2).
  cbn [mbind outcome_bind]. unplug H2.
  destruct (rb_set_red_at H2) as (t3 & -> & H3). cbn [mbind outcome_bind]. eauto.
Qed.

(** The last rotation, with [q] above [A] and [B] (its inner subtree) on side [d]
    of the grandparent. *)
Lemma insert_gen_tail {t1 cq A q B} :
  tree_at D m0 t1 (plug (Frame d c g u :: K) (mk d cq A q B)) →
  ∃ t', (let! t := rb_set_black q t1 in
         let! t := rb_set_red g t in
         rotate (opp d) g t) = Ok t' ∧
    tree_at D m0 t' (plug K (mk d Black A q (mk d Red B g u))).
Proof.
  intros H. destruct (rb_set_black_at H) as (t2 & -> & H2). cbn [mbind outcome_bind]. unplug H2.
  destruct (rb_set_red_at H2) as (t3 & -> & H3). cbn [mbind outcome_bind].
  rewrite <- (mk_opp d Red), <- (mk_opp d Black) in H3.
  destruct (rotate_at H3) as (t4 & -> & H4). rewrite !mk_opp in H4. eauto.
Qed.

(** A black uncle: one or two rotations, after which the parent [top] of the
    next node, the root of [Y], is black. *)
Lemma insert_gen_black n :
  rb_ok Red n X → rb_ok Black n s → color_of u = Black →
  ∃ t' Y top Z, insert_gen d (ptr X) p g t = Ok (ptr Y, t') ∧
    tree_at D m0 t' (plug K (mk d Black Y top (mk d Red Z g u))) ∧
    rb_ok Red n Y ∧ rb_ok Black n Z ∧
    inorder (mk d Black Y top (mk d Red Z g u)) = inorder (mk d c (mk e Red X p s) g u).
Proof using Ht.
  intros HX Hs Hu. unfold insert_gen. pose proof Ht as Hg. unplug Hg.
  rewrite (get_opp_at Hg). cbn [mbind outcome_bind].
  assert (HU : tree_at D m0 t (plug (Frame (opp d) c g (mk e Red X p s) :: K) u)).
  { simpl. by rewrite mk_opp. }
  rewrite (red_node_at HU), Hu. cbn [mbind outcome_bind is_red].
  assert (HXn : X ≠ Leaf) by (by destruct X; inversion HX).
  assert (Hp : tree_at D m0 t (plug (Frame d c g u :: K) (mk e Red X p s))) by done.
  destruct (tree_at_linked _ _ _ Ht HXn) as (_ & _ & Hps).
  destruct (decide (e = d)) as [->|Hed].
  - rewrite (get_opp_at Hp). cbn [mbind outcome_bind].
    rewrite (proj2 (Z.eqb_neq _ _)) by (by apply not_eq_sym). cbn [mbind outcome_bind].
    destruct (insert_gen_tail Hp) as (t' & E & H'). apply Ok_bind_inv in E as (t1 & -> & E).
    apply Ok_bind_inv in E as (t2 & E1 & E2). cbn [mbind outcome_bind]. rewrite E1. cbn [mbind outcome_bind].
    rewrite E2. cbn [mbind outcome_bind]. exists t', X, p, s. split_and!; try done.
    destruct d; simpl; by simplify_list_eq.
  - assert (e = opp d) as -> by (by destruct d, e). rewrite mk_opp in Hp.
    destruct X as [|cX xl x xr]; [done|]. inversion HX; subst.
    assert (∃ A B, Node Red xl x xr = mk d Red A x B ∧ rb_ok Black n A ∧ rb_ok Black n B)
      as (A & B & EX & HA & HB) by (destruct d; [by exists xl, xr|by exists xr, xl]).
    rewrite EX in *. rewrite ptr_mk. rewrite (get_opp_at Hp), ptr_mk. cbn [mbind outcome_bind].
    rewrite Z.eqb_refl. destruct (rotate_at Hp) as (t1 & -> & H1). cbn [mbind outcome_bind].
    destruct (insert_gen_tail H1) as (t' & E & H'). apply Ok_bind_inv in E as (t2 & -> & E).
    apply Ok_bind_inv in E as (t3 & E1 & E2). cbn [mbind outcome_bind]. rewrite E1. cbn [mbind outcome_bind].
    rewrite E2. cbn [mbind outcome_bind]. exists t', (mk d Red s p A), x, B. rewrite ptr_mk.
    split_and!; auto with rb. destruct d; simpl; by simplify_list_eq.
Qed.
End insert_round.

(** ** The loop *)

Lemma insert_loop_ok {D m0} fuel t K l x r pc n :
  tree_at D m0 t (plug K (Node Red l x r)) →
  rb_ok Red n (Node Red l x r) → kok pc n K → (length K < fuel)%nat →
  ∃ t' T' c N, insert_color_loop fuel x t = Ok t' ∧ tree_at D m0 t' T' ∧
    rb_ok c N T' ∧ T' ≠ Leaf ∧ inorder T' = inorder (plug K (Node Red l x r)).
Proof.
  revert t K l x r pc n. induction fuel as [|fuel IH]; intros t K l x r pc n Ht HX HK Hf; [lia|].
  cbn [insert_color_loop]. rewrite (rb_parent_at (d:=L) Ht). cbn [mbind outcome_bind].
  destruct K as [|[e ce p s] K].
  { simpl. exists t, (Node Red l x r), Red, n. done. }
  cbn [kpar fnode]. pose proof Ht as Hp. unplug Hp.
  pose proof (red_node_at Hp) as Hr. rewrite ptr_mk in Hr. rewrite Hr.
  replace (color_of (mk e ce _ p s)) with ce by (by destruct e).
  cbn [mbind outcome_bind]. inversion HK as [|? ? ? ? ? Hs HK'|? ? cs ? ? pc' ? Hs HK']; subst; cbn [is_red negb].
  2: { destruct (plug_ok Red Black n (Frame e Black p s :: K) (Node Red l x r)) as [N HN]; [done..|].
       exists t, (plug (Frame e Black p s :: K) (Node Red l x r)), Black, N. split_and!; try done. by apply plug_not_leaf. }
  inversion HK' as [| |? d cu g u pc' K2 Hu HK2]; subst.
  rewrite (rb_parent_at Hp). cbn [mbind outcome_bind kpar fnode].
  pose proof Hp as Hg. unplug Hg. rewrite (get_left_at _ _ _ _ _ _ Hg). cbn [mbind outcome_bind].
  pose proof (side_test _ _ _ _ _ _ Hp) as Hside. rewrite ptr_mk in Hside.
  rewrite Hside by (by destruct e).
  replace (if match d with L => true | R => false end
    then insert_color_left x p g t else insert_color_right x p g t)
    with (insert_gen d x p g t) by (by destruct d).
  destruct (decide (cu = Red)) as [->|Hcu].
  - inversion Hu as [|? ul ux ur Hul Hur|]; subst.
    destruct (insert_gen_red Ht x ul ux ur) as (t' & -> & H'); [done|]. cbn [mbind outcome_bind].
    assert (∃ gl gr, mk d Red (mk e Black (Node Red l x r) p s) g (Node Black ul ux ur) = Node Red gl g gr)
      as (gl & gr & E) by (destruct d; simpl; eauto).
    rewrite E in H'. edestruct (IH t' K2 gl g gr) as (t2 & T2 & c2 & N2 & -> & HT2 & Hok & Hnl & Hin);
      [exact H'|rewrite <- E; eauto with rb|done|simpl in Hf; lia|].
    exists t2, T2, c2, N2. split_and!; try done. rewrite Hin, <- E. cbn [plug fside fcolor fnode fsib].
    rewrite !inorder_plug. f_equal. f_equal. by destruct d, e.
  - assert (cu = Black) as -> by (by destruct cu).
    destruct (insert_gen_black Ht n) as (t' & Y & top & Z & E & H' & HY & HZ & Hin);
      [done..|by eapply ok_color|]. simpl in E. rewrite E. cbn [mbind outcome_bind].
    inversion HY as [|? yl y yr ? ?|]; subst. simpl in Hf. destruct fuel as [|fuel]; [lia|].
    cbn [insert_color_loop ptr].
    assert (HY' : tree_at D m0 t' (plug (Frame d Black top (mk d Red Z g u) :: K2) (Node Red yl y yr))) by done.
    rewrite (rb_parent_at (d:=L) HY'). cbn [mbind outcome_bind kpar fnode].
    pose proof (red_node_at H') as Hr'. rewrite ptr_mk in Hr'. rewrite Hr'.
    replace (color_of (mk d Black _ _ _)) with Black by (by destruct d). cbn [mbind outcome_bind is_red negb].
    destruct (plug_ok Black pc' (S n) K2 (mk d Black (Node Red yl y yr) top (mk d Red Z g u))) as [N HN];
      [eauto with rb|done|done|].
    eexists _, _, Black, N. split_and!; [done|exact H'|done| |].
    + apply plug_not_leaf. by destruct d.
    + cbn [plug fside fcolor fnode fsib]. rewrite !inorder_plug. by rewrite Hin.
Qed.

(** ** Trees as sequences of nodes *)

(** The memory holds a red-black tree whose nodes are [l], in order. *)
Definition rb_tree (D : gset Z) (m0 : gmap Z rb_node) (t : rbtree) (l : list Z) : Prop :=
  ∃ T N, tree_at D m0 t T ∧ rb_ok Black N T ∧ inorder T = l.

(** The nodes on the longest path down from the root. *)
Fixpoint height (T : tree) : nat :=
  match T with Leaf => 0 | Node _ l _ r => S (Nat.max (height l) (height r)) end.

Lemma height_mk d c a x b : height (mk d c a x b) = S (Nat.max (height a) (height b)).
Proof. destruct d; simpl; lia. Qed.

Lemma height_plug K T : (length K + height T ≤ height (plug K T))%nat.
Proof.
  revert T. induction K as [|f K IH]; intros T; simpl; [lia|].
  specialize (IH (mk (fside f) (fcolor f) T (fnode f) (fsib f))). rewrite height_mk in IH. lia.
Qed.

Lemma height_length T : (height T ≤ length (inorder T))%nat.
Proof. induction T as [|c l IHl x r IHr]; simpl; [done|]. rewrite length_app. simpl. lia. Qed.

Lemma ok_height c n T : rb_ok c n T → (height T ≤ 2 * n + match c with Red => 1 | Black => 0 end)%nat.
Proof. induction 1 as [|n l x r _ IHl _ IHr|n c1 c2 l x r _ IHl _ IHr]; cbn [height]; [lia|lia|]. destruct c1, c2; lia. Qed.

Lemma ok_size c n T : rb_ok c n T → 2 ^ Z.of_nat n ≤ Z.of_nat (length (inorder T)) + 1.
Proof.
  induction 1 as [|n l x r _ IHl _ IHr|n c1 c2 l x r _ IHl _ IHr]; [done|..]; simpl inorder;
    rewrite length_app; simpl length.
  - lia.
  - rewrite Nat2Z.inj_succ, Z.pow_succ_r by lia. lia.
Qed.

(** A red-black tree is balanced. *)
Lemma ok_balanced n T : rb_ok Black n T → Z.of_nat (height T) ≤ 2 * Z.log2 (Z.of_nat (length (inorder T)) + 1).
Proof.
  intros H. pose proof (ok_height _ _ _ H) as Hh. pose proof (ok_size _ _ _ H) as Hs.
  apply Z.log2_le_pow2 in Hs; [|lia]. simpl in Hh. lia.
Qed.

(** The same with a tree lower than [fuel]. *)
Definition rb_fits (D : gset Z) (m0 : gmap Z rb_node) (fuel : nat) (t : rbtree) (l : list Z) : Prop :=
  ∃ T N, tree_at D m0 t T ∧ rb_ok Black N T ∧ inorder T = l ∧ (height T < fuel)%nat.

Lemma rb_tree_fits D m0 fuel t l : rb_tree D m0 t l → (length l < fuel)%nat → rb_fits D m0 fuel t l.
Proof. intros (T & N & H1 & H2 & <-) Hf. exists T, N. split_and!; try done. pose proof (height_length T). lia. Qed.

Lemma rb_tree_fits_log D m0 fuel t l :
  rb_tree D m0 t l → 2 * Z.log2 (Z.of_nat (length l) + 1) < Z.of_nat fuel → rb_fits D m0 fuel t l.
Proof. intros (T & N & H1 & H2 & <-) Hf. exists T, N. split_and!; try done. pose proof (ok_balanced _ _ H2). lia. Qed.

Lemma ok_unplug N K T :
  rb_ok Black N (plug K T) → ∃ c pc n, rb_ok c n T ∧ kok pc n K ∧ (pc = Red → c = Black).
Proof.
  revert T. induction K as [|[d c x s] K IH]; intros T HT; simpl in HT.
  { exists Black, Red, N. split_and!; auto with rb. }
  destruct (IH _ HT) as (c' & pc & n & Hmk & HK & Hpc). apply ok_mk_inv in Hmk as [-> Hmk].
  destruct c.
  - destruct Hmk as [Ha Hb]. destruct pc; [by specialize (Hpc eq_refl)|].
    exists Black, Red, n. split_and!; auto with rb.
  - destruct Hmk as (n' & c1 & c2 & -> & Ha & Hb). exists c1, Black, n'. split_and!; eauto with rb. done.
Qed.

Lemma node_plug T x : x ∈ inorder T → ∃ K c l r, T = plug K (Node c l x r).
Proof.
  induction T as [|c l IHl y r IHr]; simpl; [by rewrite elem_of_nil|].
  intros [H|[->|H]%elem_of_cons]%elem_of_app.
  - destruct (IHl H) as (K & c' & l' & r' & ->). exists (K ++ [Frame L c y r]), c', l', r'.
    by rewrite plug_app.
  - by exists [], c, l, r.
  - destruct (IHr H) as (K & c' & l' & r' & ->). exists (K ++ [Frame R c y l]), c', l', r'.
    by rewrite plug_app.
Qed.

(** The pointer that holds the hole of a context. *)
Definition link_of (K : list frame) : rb_link :=
  match K with
  | [] => LinkRoot
  | Frame L _ x _ :: _ => LinkLeft x
  | Frame R _ x _ :: _ => LinkRight x
  end.

Section link.
Context {D : gset Z} {m0 : gmap Z rb_node} {t : rbtree} {K : list frame} {x : Z}.
Hypothesis Ht : tree_at D m0 t (plug K Leaf).
Hypothesis Hx : ok_ptr x ∧ x ∈ D.
Hypothesis Hnew : x ∉ kleft K ∧ x ∉ kright K.
Hypothesis Hmem : is_Some (rb_mem t !! x).

Lemma rb_link_node_at :
  ∃ t', rb_link_node x (kpar K) (link_of K) t = Ok t' ∧
    tree_at D m0 t' (plug K (Node Red Leaf x Leaf)).
Proof using Ht Hx Hnew Hmem.
  destruct Hmem as [nx Hnx]. unfold rb_link_node. rewrite (put_ok _ _ _ _ Hnx). cbn [mbind outcome_bind].
  unfold set_right, set_left. erewrite put_ok by apply lookup_insert_eq. cbn [mbind outcome_bind].
  erewrite put_ok by apply lookup_insert_eq. cbn [mbind outcome_bind rb_mem rb_root_node].
  rewrite !insert_insert_eq.
  change (with_left 0 _) with (mk_rb_node (kpar K) 0 0).
  set (t1 := mk_rbtree (<[x := mk_rb_node (kpar K) 0 0]> (rb_mem t)) (rb_root_node t)).
  assert (Hk : K ≠ [] → kpar K ≠ x).
  { intros HK <-. destruct K as [|[d c p s] K']; [done|]. destruct Hnew as [H1 H2].
    destruct d; simpl in *; set_solver. }
  assert (∃ t', write_link (link_of K) x t1 = Ok t' ∧
    rb_mem t' !! x = Some (mk_rb_node (kpar K) 0 0) ∧
    (∀ z, z ≠ x → (K ≠ [] → z ≠ kpar K) → rb_mem t' !! z = rb_mem t !! z) ∧
    match K with
    | [] => rb_root_node t' = x
    | Frame d c p s :: K' => rb_root_node t' = rb_root_node t ∧
        rb_mem t' !! p = Some (child_node d (kpar K') c x (ptr s))
    end) as (t' & -> & Hx' & Hoff & Hl).
  { pose proof (ta_rep _ _ _ _ Ht) as [HK _]%rb_rep_plug.
    destruct K as [|[d c p s] K']; simpl in *.
    - eexists. split; [done|]. simpl. split_and!; [apply lookup_insert_eq| |done].
      intros z ? _. by apply lookup_insert_ne.
    - destruct HK as (Hp & _ & _). specialize (Hk ltac:(done)).
      assert (Hp1 : rb_mem t1 !! p = Some (child_node d (kpar K') c 0 (ptr s))) by (simpl; by rewrite lookup_insert_ne).
      exists (mk_rbtree (<[p := child_node d (kpar K') c x (ptr s)]> (rb_mem t1)) (rb_root_node t)).
      split; [|split_and!; simpl].
      + destruct d; simpl; unfold set_left, set_right; by rewrite (put_ok _ _ _ _ Hp1).
      + by rewrite lookup_insert_ne, lookup_insert_eq.
      + intros z ? Hz. rewrite !lookup_insert_ne; [done|done|apply not_eq_sym, Hz; done].
      + done.
      + apply lookup_insert_eq. }
  exists t'. split; [done|]. eapply tree_at_replace; [exact Ht|..].
  - simpl. apply NoDup_singleton.
  - intros z Hz. assert (z = x) as -> by set_solver. destruct Hx. split_and!; try done; apply Hnew.
  - simpl. split_and!; [|done..]. rewrite Hx'. unfold node_of. simpl. unfold RB_RED. by rewrite Z.add_0_r.
  - intros z Hz ?. apply Hoff; [|done]. intros ->. destruct Hnew. by destruct Hz.
  - intros z Hz. apply Hoff; [intros ->; apply Hz, Hx|]. intros HK ->. apply Hz.
    apply (ta_ptr _ _ _ _ Ht). rewrite inorder_plug. destruct K as [|[[] c p s] K']; simpl; [done|set_solver..].
  - by destruct K as [|[d c p s] K'].
Qed.
End link.

(** Linking a new node at an empty position and recolouring. *)
Lemma insert_at {D m0} t K x N fuel :
  tree_at D m0 t (plug K Leaf) → rb_ok Black N (plug K Leaf) →
  ok_ptr x ∧ x ∈ D → x ∉ kleft K ∧ x ∉ kright K → is_Some (rb_mem t !! x) →
  (length K < fuel)%nat →
  ∃ t', (let! t := rb_link_node x (kpar K) (link_of K) t in rb_insert_color fuel x t) = Ok t' ∧
    rb_tree D m0 t' (kleft K ++ x :: kright K).
Proof.
  intros Ht Hok Hx Hnew Hmem Hf. destruct (ok_unplug _ _ _ Hok) as (c & pc & n & Hl & HK & _).
  inversion Hl; subst. destruct (rb_link_node_at Ht Hx Hnew Hmem) as (t1 & -> & H1). cbn [mbind outcome_bind].
  unfold rb_insert_color.
  destruct (insert_loop_ok fuel t1 K Leaf x Leaf pc 0 H1) as (t2 & T2 & c2 & N2 & -> & H2 & Hok2 & Hnl & Hin);
    [auto with rb|done|done|]. cbn [mbind outcome_bind].
  destruct T2 as [|c2' l2 y r2]; [done|]. rewrite (ta_root _ _ _ _ H2). simpl ptr.
  destruct (rb_set_black_at (K:=[]) (d:=L) H2) as (t3 & -> & H3). exists t3. split; [done|].
  simpl in H3. assert (∃ N3, rb_ok Black N3 (Node Black l2 y r2)) as [N3 H3'].
  { inversion Hok2; subst; eauto with rb. }
  exists (Node Black l2 y r2), N3. split_and!; try done. change (inorder (Node Black l2 y r2)) with (inorder (Node c2' l2 y r2)).
  by rewrite Hin, inorder_plug.
Qed.
