(* ===== verification/RbTreeErase.v ===== *)
(** * Red-black trees: removal

    [rb_erase] takes a node out of a tree and [__rb_erase_color] restores the
    rules when a black node has gone: the order of the other nodes is kept. *)

From S2P Require Import Prelude Bits RbTree RbTreeRep RbTreeOps RbTreeInsert.
Open Scope xen_scope.

(** ** The round of [__rb_erase_color], with the side as an argument *)

(** The last part: the far child of the sibling [other] is red. *)
Definition erase_tail (d : side) (parent other : Z) (t : rbtree) : outcome (erase_next * rbtree) :=
  let! c := rb_color parent t in
  let! t := rb_set_color other c t in
  let! t := rb_set_black parent t in
  let! far := get_child (opp d) other t in
  let! t := (if far =? 0 then Ok t else rb_set_black far t) in
  let! t := rotate d parent t in
  Ok (EraseBreak (rb_root_node t), t).

(** The middle part: the sibling [other] is black. *)
Definition erase_fix (d : side) (parent other : Z) (t : rbtree) : outcome (erase_next * rbtree) :=
  let! ol := get_left other t in
  let! olb := null_or_black ol t in
  let! both := (if (olb : bool) then let! or := get_right other t in null_or_black or t
                else Ok false) in
  if (both : bool) then
    let! t := rb_set_red other t in
    let! pp := rb_parent parent t in
    Ok (EraseContinue parent pp, t)
  else
    let! far := get_child (opp d) other t in
    let! farb := null_or_black far t in
    let! (other, t) :=
      (if (farb : bool) then
         let! near := get_child d other t in
         let! t := (if near =? 0 then Ok t else rb_set_black near t) in
         let! t := rb_set_red other t in
         let! t := rotate (opp d) other t in
         let! other := get_child (opp d) parent t in
         Ok (other, t)
       else Ok (other, t)) in
    erase_tail d parent other t.

Definition erase_gen (d : side) (parent : Z) (t : rbtree) : outcome (erase_next * rbtree) :=
  let! other := get_child (opp d) parent t in
  let! red := rb_is_red other t in
  let! (other, t) :=
    (if (red : bool) then
       let! t := rb_set_black other t in
       let! t := rb_set_red parent t in
       let! t := rotate d parent t in
       let! other := get_child (opp d) parent t in
       Ok (other, t)
     else Ok (other, t)) in
  erase_fix d parent other t.

Lemma erase_gen_eq parent t :
  erase_color_left parent t = erase_gen L parent t ∧ erase_color_right parent t = erase_gen R parent t.
Proof. done. Qed.

(** ** One round *)

Section erase_round.
Context {D : gset Z} {m0 : gmap Z rb_node} {t : rbtree} {K : list frame}.
Context {d : side} {X : tree} {p : Z} {c : rcolor}.

Lemma erase_tail_at {co N o fl f fr} :
  tree_at D m0 t (plug K (mk d c X p (mk d co N o (Node Red fl f fr)))) →
  ∃ t' root, erase_tail d p o t = Ok (EraseBreak root, t') ∧ root = rb_root_node t' ∧
    tree_at D m0 t' (plug K (mk d c (mk d Black X p N) o (Node Black fl f fr))).
Proof.
  intros Ht. unfold erase_tail. rewrite (rb_color_at Ht). cbn [mbind outcome_bind].
  assert (Ho : tree_at D m0 t (plug (Frame (opp d) c p X :: K) (mk d co N o (Node Red fl f fr)))).
  { simpl. by rewrite mk_opp. }
  destruct (rb_set_color_at Ho c) as (t1 & -> & H1). cbn [mbind outcome_bind].
  unplug H1. rewrite mk_opp in H1.
  destruct (rb_set_black_at H1) as (t2 & -> & H2). cbn [mbind outcome_bind].
  assert (Ho2 : tree_at D m0 t2 (plug (Frame (opp d) Black p X :: K) (mk d c N o (Node Red fl f fr)))).
  { simpl. by rewrite mk_opp. }
  rewrite (get_opp_at Ho2). cbn [mbind outcome_bind].
  assert (Hf : tree_at D m0 t2 (plug (Frame (opp d) c o N :: Frame (opp d) Black p X :: K) (Node Red fl f fr))).
  { cbn [plug fside fcolor fnode fsib]. rewrite !mk_opp. done. }
  rewrite (ptr_zero_at Hf). cbn [is_leaf ptr].
  destruct (rb_set_black_at (d:=L) Hf) as (t3 & -> & H3). cbn [mbind outcome_bind].
  cbn [plug fside fcolor fnode fsib mk] in H3. rewrite !mk_opp in H3.
  destruct (rotate_at H3) as (t4 & -> & H4). cbn [mbind outcome_bind]. eauto.
Qed.
End erase_round.

Section sibling.
Context {D : gset Z} {m0 : gmap Z rb_node} {t : rbtree} {K : list frame}.
Context {d : side} {X : tree} {p : Z} {c : rcolor}.

(** The test of both children of the sibling. *)
Lemma both_black_at {cw A w B} :
  tree_at D m0 t (plug (Frame (opp d) c p X :: K) (mk d cw A w B)) →
  (let! ol := get_left w t in
   let! olb := null_or_black ol t in
   if (olb : bool) then let! or := get_right w t in null_or_black or t else Ok false) =
  Ok (negb (is_red (color_of A)) && negb (is_red (color_of B))).
Proof.
  intros Hw. rewrite (get_left_at _ _ _ _ _ _ Hw), (get_right_at _ _ _ _ _ _ Hw). cbn [mbind outcome_bind].
  assert (HA : tree_at D m0 t (plug (Frame d cw w B :: Frame (opp d) c p X :: K) A)) by done.
  assert (HB : tree_at D m0 t (plug (Frame (opp d) cw w A :: Frame (opp d) c p X :: K) B)).
  { cbn [plug fside fcolor fnode fsib] in *. by rewrite (mk_opp d cw). }
  destruct d; rewrite (null_or_black_at HA), (null_or_black_at HB); cbn [mbind outcome_bind];
    by destruct (color_of A), (color_of B).
Qed.

Lemma erase_fix_continue {A w B} :
  tree_at D m0 t (plug K (mk d c X p (mk d Black A w B))) →
  color_of A = Black → color_of B = Black →
  ∃ t', erase_fix d p w t = Ok (EraseContinue p (kpar K), t') ∧
    tree_at D m0 t' (plug K (mk d c X p (mk d Red A w B))).
Proof.
  intros Ht HA HB. unfold erase_fix.
  assert (Hw : tree_at D m0 t (plug (Frame (opp d) c p X :: K) (mk d Black A w B))).
  { simpl. by rewrite mk_opp. }
  pose proof (both_black_at Hw) as E. apply Ok_bind_inv in E as (ol & -> & E).
  apply Ok_bind_inv in E as (olb & E1 & E). cbn [mbind outcome_bind]. rewrite E1. cbn [mbind outcome_bind].
  rewrite E, HA, HB. cbn [mbind outcome_bind is_red negb andb].
  destruct (rb_set_red_at Hw) as (t1 & -> & H1). cbn [mbind outcome_bind].
  unplug H1. rewrite mk_opp in H1. rewrite (rb_parent_at H1). eauto.
Qed.

Lemma erase_fix_break {A w B n ca cb} :
  tree_at D m0 t (plug K (mk d c X p (mk d Black A w B))) →
  rb_ok ca n A → rb_ok cb n B → ca = Red ∨ cb = Red →
  ∃ t' root N o F cn, erase_fix d p w t = Ok (EraseBreak root, t') ∧ root = rb_root_node t' ∧
    tree_at D m0 t' (plug K (mk d c (mk d Black X p N) o F)) ∧
    rb_ok cn n N ∧ rb_ok Black (S n) F ∧
    inorder (mk d c (mk d Black X p N) o F) = inorder (mk d c X p (mk d Black A w B)).
Proof.
  intros Ht HA HB Hred. unfold erase_fix.
  assert (Hw : tree_at D m0 t (plug (Frame (opp d) c p X :: K) (mk d Black A w B))).
  { simpl. by rewrite mk_opp. }
  pose proof (both_black_at Hw) as E. apply Ok_bind_inv in E as (ol & -> & E).
  apply Ok_bind_inv in E as (olb & E1 & E). cbn [mbind outcome_bind]. rewrite E1. cbn [mbind outcome_bind].
  rewrite E, (ok_color _ _ _ HA), (ok_color _ _ _ HB). cbn [mbind outcome_bind].
  replace (negb (is_red ca) && negb (is_red cb)) with false by (destruct Hred as [->| ->]; [done|by destruct ca]).
  rewrite (get_opp_at Hw). cbn [mbind outcome_bind].
  assert (HBt : tree_at D m0 t (plug (Frame (opp d) Black w A :: Frame (opp d) c p X :: K) B)).
  { cbn [plug fside fcolor fnode fsib] in *. by rewrite (mk_opp d Black). }
  rewrite (null_or_black_at HBt), (ok_color _ _ _ HB). cbn [mbind outcome_bind].
  destruct (decide (cb = Red)) as [->|Hcb]; cbn [is_red negb].
  - inversion HB as [|? fl f fr ? ?|]; subst. cbn [mbind outcome_bind].
    destruct (erase_tail_at Ht) as (t' & root & -> & -> & H').
    eexists t', _, A, w, (Node Black fl f fr), ca. split_and!; eauto with rb.
    destruct d; simpl; by simplify_list_eq.
  - assert (cb = Black) as -> by (by destruct cb). destruct Hred as [->|?]; [|done]. cbn [is_red negb].
    inversion HA as [|? al a ar ? ?|]; subst.
    rewrite (get_child_at Hw). cbn [mbind outcome_bind ptr].
    assert (HAt : tree_at D m0 t (plug (Frame d Black w B :: Frame (opp d) c p X :: K) (Node Red al a ar))) by done.
    pose proof (ptr_zero_at HAt) as Ez. cbn [ptr is_leaf] in Ez. rewrite Ez.
    destruct (rb_set_black_at (d:=L) HAt) as (t1 & -> & H1). cbn [mbind outcome_bind].
    cbn [plug fside fcolor fnode fsib mk] in H1.
    destruct (rb_set_red_at (K:=Frame (opp d) c p X :: K) H1) as (t2 & -> & H2). cbn [mbind outcome_bind].
    assert (∃ A1 A2, Node Black al a ar = mk (opp d) Black A2 a A1 ∧ rb_ok Black n A1 ∧ rb_ok Black n A2 ∧
      Node Red al a ar = mk d Red A1 a A2) as (A1 & A2 & EA & HA1 & HA2 & EA').
    { destruct d; [by exists al, ar|by exists ar, al]. }
    rewrite <- (mk_opp d Red), EA in H2. destruct (rotate_at H2) as (t3 & -> & H3).
    cbn [mbind outcome_bind]. unplug H3. rewrite !mk_opp in H3.
    rewrite (get_opp_at H3), ptr_mk. cbn [mbind outcome_bind].
    assert (∃ fl fr, mk d Red A2 w B = Node Red fl w fr ∧ mk d Black A2 w B = Node Black fl w fr)
      as (fl & fr & EF & EF') by (destruct d; simpl; eauto).
    rewrite EF in H3. destruct (erase_tail_at H3) as (t' & root & -> & -> & H').
    eexists t', _, A1, a, (Node Black fl w fr), Black. rewrite EA'. split_and!; try done.
    + rewrite <- EF'. eauto with rb.
    + rewrite <- EF'. destruct d; simpl; by simplify_list_eq.
Qed.
End sibling.

(** ** The loop *)

Definition blacken (T : tree) : tree :=
  match T with Leaf => Leaf | Node _ l x r => Node Black l x r end.

(** The paths through the hole of [K] have one black node too few below it;
    blackening a red root of [X] makes up for it. *)
Definition deficit (n : nat) (K : list frame) (X : tree) : Prop :=
  (∃ pc, kok pc (S n) K) ∧
  match color_of X with Black => rb_ok Black n X | Red => rb_ok Black (S n) (blacken X) end.

(** The outcome of a round: the deficit moves up, or it is repaired. *)
Definition round_ok (D : gset Z) (m0 : gmap Z rb_node) (len : nat) (l : list Z)
    (r : outcome (erase_next * rbtree)) : Prop :=
  (∃ t K X n, r = Ok (EraseContinue (ptr X) (kpar K), t) ∧ tree_at D m0 t (plug K X) ∧
     inorder (plug K X) = l ∧ deficit n K X ∧ (color_of X = Red ∨ length K = len)) ∨
  (∃ t T N, r = Ok (EraseBreak (rb_root_node t), t) ∧ tree_at D m0 t T ∧
     inorder T = l ∧ rb_ok Black N T).

Lemma inorder_plug_eq K X Y : inorder X = inorder Y → inorder (plug K X) = inorder (plug K Y).
Proof. intros H. by rewrite !inorder_plug, H. Qed.

Section round.
Context {D : gset Z} {m0 : gmap Z rb_node} {t : rbtree} {K : list frame}.
Context {d : side} {X : tree} {p : Z} {c : rcolor} {n : nat} {pc : rcolor}.
Hypothesis HX : rb_ok Black n X.

(** The hole of [K] takes the node [p]; [n + 1] black nodes below [p]. *)
Lemma erase_fix_ok {A w B len} :
  tree_at D m0 t (plug K (mk d c X p (mk d Black A w B))) →
  rb_ok Black (S n) (mk d Black A w B) →
  kok pc (match c with Red => S n | Black => S (S n) end) K → (pc = Red → c = Black) →
  (c = Black → length K = len) →
  round_ok D m0 len (inorder (plug K (mk d c X p (mk d Black A w B)))) (erase_fix d p w t).
Proof using HX.
  intros Ht HW HK Hpc Hlen. apply ok_mk_inv in HW as (_ & n' & ca & cb & [= <-] & HA & HB).
  destruct (decide (ca = Red ∨ cb = Red)) as [Hred|Hblack].
  - right. destruct (erase_fix_break Ht HA HB Hred) as (t' & root & N & o & F & cn & -> & -> & H' & HN & HF & Hin).
    assert (∃ c', rb_ok c' (match c with Red => S n | Black => S (S n) end) (mk d c (mk d Black X p N) o F) ∧
      c' = c) as (c' & Hc & ->) by (destruct c; eauto with rb).
    destruct (plug_ok _ _ _ _ _ Hc HK Hpc) as [M HM].
    eexists t', _, M. split_and!; [done|exact H'|by apply inorder_plug_eq|done].
  - left. assert (ca = Black) as -> by (destruct ca; tauto). assert (cb = Black) as -> by (destruct cb; tauto).
    destruct (erase_fix_continue Ht) as (t' & -> & H'); [by eapply ok_color..|].
    exists t', K, (mk d c X p (mk d Red A w B)).
    destruct c.
    + exists n. rewrite ptr_mk. split_and!; [done|done|apply inorder_plug_eq; by destruct d| |by left; destruct d].
      split; [eauto|]. replace (color_of _) with Red by (by destruct d).
      replace (blacken _) with (mk d Black X p (mk d Red A w B)) by (by destruct d). eauto with rb.
    + exists (S n). rewrite ptr_mk. split_and!; [done|done|apply inorder_plug_eq; by destruct d| |by right; apply Hlen].
      split; [eauto|]. replace (color_of _) with Black by (by destruct d). eauto with rb.
Qed.
End round.

Section round2.
Context {D : gset Z} {m0 : gmap Z rb_node} {t : rbtree} {K : list frame}.
Context {d : side} {X W : tree} {p : Z} {c : rcolor} {n : nat} {pc : rcolor}.
Hypothesis HX : rb_ok Black n X.
Hypothesis Ht : tree_at D m0 t (plug K (mk d c X p W)).
Hypothesis HK : kok pc (S n) (Frame d c p W :: K).

Lemma erase_gen_ok :
  round_ok D m0 (length K) (inorder (plug K (mk d c X p W))) (erase_gen d p t).
Proof using HX Ht HK.
  unfold erase_gen. rewrite (get_opp_at Ht). cbn [mbind outcome_bind].
  assert (Hw : tree_at D m0 t (plug (Frame (opp d) c p X :: K) W)).
  { simpl. by rewrite mk_opp. }
  assert (∃ cw pc', rb_ok cw (S n) W ∧ (c = Red → cw = Black ∧ pc' = Black) ∧
    kok pc' (match c with Red => S n | Black => S (S n) end) K) as (cw & pc' & HW & Hc & HK').
  { inversion HK; subst; eexists _, _; split_and!; try done; eauto. }
  assert (∃ A w B, W = mk d cw A w B) as (A & w & B & ->).
  { destruct W as [|cw' wl w wr]; [inversion HW|]. apply ok_color in HW as <-.
    destruct d; [by exists wl, w, wr|by exists wr, w, wl]. }
  rewrite ptr_mk, (rb_is_red_at Hw). cbn [mbind outcome_bind]. destruct cw; cbn [is_red].
  2: { cbn [mbind outcome_bind]. eapply erase_fix_ok; [done|done|done|exact HK'| |done].
       intros ->. destruct c; [|done]. by destruct Hc. }
  destruct c; [by destruct Hc|].
  apply ok_mk_inv in HW as [_ [HA HB]].
  destruct (rb_set_black_at Hw) as (t1 & -> & H1). cbn [mbind outcome_bind].
  unplug H1. rewrite mk_opp in H1. destruct (rb_set_red_at H1) as (t2 & -> & H2). cbn [mbind outcome_bind].
  destruct (rotate_at H2) as (t3 & -> & H3). cbn [mbind outcome_bind].
  rewrite (get_opp_at (K:=Frame d Black w B :: K) H3). cbn [mbind outcome_bind].
  assert (∃ A1 a A2, A = mk d Black A1 a A2) as (A1 & a & A2 & ->).
  { destruct A as [|ca al a ar]; [inversion HA|]. apply ok_color in HA as Ha. simpl in Ha. subst ca.
    destruct d; [by exists al, a, ar|by exists ar, a, al]. }
  rewrite ptr_mk.
  erewrite (inorder_plug_eq K).
  - eapply (erase_fix_ok (pc:=Black) HX (K:=Frame d Black w B :: K) H3 HA); [eauto with rb|done|done].
  - destruct d; simpl; by simplify_list_eq.
Qed.
End round2.

Lemma root_test {D m0 t} K X :
  tree_at D m0 t (plug K X) →
  (ptr X =? rb_root_node t) = match K with [] => true | _ :: _ => false end.
Proof.
  intros Ht. rewrite (ta_root _ _ _ _ Ht). destruct K as [|f K]; [apply Z.eqb_refl|].
  apply Z.eqb_neq. intros E.
  pose proof (ta_nodup _ _ _ _ Ht) as Hnd. rewrite inorder_plug in Hnd.
  assert (Hr : ptr (plug (f :: K) X) ∈ kleft (f :: K) ++ kright (f :: K)).
  { clear. rewrite ptr_plug. cbn [kroot]. revert f. induction K as [|g K IH]; intros [[] c x s]; simpl.
    - set_solver.
    - set_solver.
    - specialize (IH g). simpl in IH. set_solver.
    - specialize (IH g). simpl in IH. set_solver. }
  rewrite <- E in Hr. destruct X as [|cx xl x xr]; simpl in Hr.
  - destruct (ta_ptr _ _ _ _ Ht 0) as [[? _] _]; [rewrite inorder_plug; simpl; set_solver|lia].
  - simpl in Hnd. occ_at x.
Qed.

Lemma erase_color_ok {D m0} fuel t K X n :
  tree_at D m0 t (plug K X) → deficit n K X →
  ((if is_red (color_of X) then 1 else length K + 2) ≤ fuel)%nat →
  ∃ t', __rb_erase_color fuel (ptr X) (kpar K) t = Ok t' ∧ rb_tree D m0 t' (inorder (plug K X)).
Proof.
  revert t K X n. induction fuel as [|fuel IH]; intros t K X n Ht [[pc HK] HX] Hf.
  { by destruct (is_red (color_of X)); lia. }
  unfold __rb_erase_color. cbn [erase_color_loop]. rewrite (null_or_black_at Ht). cbn [mbind outcome_bind].
  destruct (decide (color_of X = Red)) as [HR|HB].
  { rewrite HR in *. destruct X as [|cX l x r]; [done|]. simpl in HR. subst cX.
    cbn [is_red negb andb mbind outcome_bind ptr]. pose proof (ptr_zero_at Ht) as Ez. simpl in Ez. rewrite Ez.
    destruct (rb_set_black_at (d:=L) Ht) as (t' & -> & H'). exists t'. split; [done|].
    destruct (plug_ok _ _ _ _ _ HX HK) as [N HN]; [done|].
    exists (plug K (Node Black l x r)), N. split_and!; try done. by apply inorder_plug_eq. }
  assert (color_of X = Black) as HB' by (by destruct (color_of X)). rewrite HB' in *.
  cbn [is_red negb andb] in *. rewrite (root_test _ _ Ht).
  destruct K as [|[d c p W] K]; cbn [negb andb].
  { cbn [mbind outcome_bind]. rewrite (ptr_zero_at (K:=[]) Ht). destruct X as [|cX l x r]; cbn [is_leaf ptr].
    - exists t. split; [done|]. by exists Leaf, n.
    - simpl in HB'. subst cX. destruct (rb_set_black_at (K:=[]) (d:=L) Ht) as (t' & -> & H').
      exists t'. split; [done|]. by exists (Node Black l x r), n. }
  cbn [kpar fnode]. unplug Ht. rewrite (get_left_at _ _ _ _ _ _ Ht). cbn [mbind outcome_bind].
  assert (Hside : (ptr (match d with L => X | R => W end) =? ptr X) = match d with L => true | R => false end).
  { destruct d; [apply Z.eqb_refl|]. apply Z.eqb_neq.
    assert (Hw : tree_at D m0 t (plug (Frame L c p X :: K) W)) by done.
    destruct (tree_at_linked _ _ _ Hw) as (_ & _ & ?); [|done].
    intros ->. inversion HK as [|? ? ? ? ? Hs|? ? ? ? ? ? ? Hs]; subst; inversion Hs. }
  rewrite Hside.
  replace (if match d with L => true | R => false end then erase_color_left p t else erase_color_right p t)
    with (erase_gen d p t) by (by destruct d).
  destruct (erase_gen_ok HX Ht HK) as
    [(t' & K' & X' & n' & -> & H' & Hin & Hdef & Hlen)|(t' & T' & N & -> & H' & Hin & Hok)];
    cbn [mbind outcome_bind plug fside fcolor fnode fsib].
  - rewrite <- Hin. apply (IH t' K' X' n' H' Hdef). simpl in Hf.
    destruct (decide (color_of X' = Red)) as [->|?]; [simpl; lia|].
    destruct Hlen as [?|Hlen]; [done|]. destruct (is_red _); lia.
  - rewrite (ta_root _ _ _ _ H'), (ptr_zero_at (K:=[]) H'), <- Hin.
    destruct T' as [|cT l x r]; cbn [is_leaf ptr].
    + exists t'. split; [done|]. by exists Leaf, N.
    + destruct (rb_set_black_at (K:=[]) (d:=L) H') as (t2 & -> & H2). exists t2. split; [done|].
      inversion Hok; subst. by exists (Node Black l x r), (S n0).
Qed.

(** ** Taking a node out *)

(** [if (child) rb_set_parent(child, p)] *)
Definition spar (p : Z) (T : tree) (m : gmap Z rb_node) : gmap Z rb_node :=
  match T with Leaf => m | Node _ _ _ _ => alter (set_par p) (ptr T) m end.

Lemma spar_ne p T m z : z ∉ inorder T → spar p T m !! z = m !! z.
Proof.
  intros Hz. destruct T as [|c l x r]; [done|]. apply lookup_alter_ne. intros <-. apply Hz. simpl. set_solver.
Qed.

Lemma spar_ext p T m m' z : m !! z = m' !! z → spar p T m !! z = spar p T m' !! z.
Proof.
  intros Hz. destruct T as [|c l x r]; [done|]. simpl. destruct (decide (z = x)) as [->|].
  - by rewrite !lookup_alter_eq, Hz.
  - by rewrite !lookup_alter_ne.
Qed.

Lemma spar_run {D m0} t t1 K T p :
  tree_at D m0 t (plug K T) → is_Some (rb_mem t1 !! ptr T) ∨ T = Leaf →
  (if ptr T =? 0 then Ok t1 else rb_set_parent (ptr T) p t1) =
  Ok (mk_rbtree (spar p T (rb_mem t1)) (rb_root_node t1)).
Proof.
  intros Ht Hm. rewrite (ptr_zero_at Ht). destruct T as [|c l x r]; cbn [is_leaf].
  - by destruct t1.
  - destruct Hm as [[n Hn]|?]; [|done]. simpl in Hn. rewrite rb_set_parent_eq. simpl ptr.
    rewrite (put_ok _ _ _ _ Hn). f_equal. f_equal. simpl.
    apply map_eq. intros z. destruct (decide (z = x)) as [->|].
    + by rewrite lookup_insert_eq, lookup_alter_eq, Hn.
    + by rewrite lookup_insert_ne, lookup_alter_ne.
Qed.

Lemma rep_ptr m par T : rep m par T → T = Leaf ∨ is_Some (m !! ptr T).
Proof. destruct T; simpl; [by left|]. intros [-> _]. eauto. Qed.

Section unlink.
Context {D : gset Z} {m0 : gmap Z rb_node} {t : rbtree} {K : list frame}.
Context {d : side} {c : rcolor} {y : Z} {Y : tree}.
Hypothesis Ht : tree_at D m0 t (plug K (mk d c Leaf y Y)).

(** The memory when the only child of [y] has taken its place. *)
Definition unlinked : rbtree :=
  relinked K (ptr Y) (mk_rbtree (spar (kpar K) Y (rb_mem t)) (rb_root_node t)).

Lemma unlink_facts :
  rep (rb_mem t) y Y ∧ NoDup (inorder Y) ∧ ok_ptr y ∧ y ∈ D ∧ y ∉ inorder Y ∧ y ∉ kleft K ∧ y ∉ kright K ∧
  (K ≠ [] → kpar K ∉ inorder Y ∧ kpar K ≠ y).
Proof using Ht.
  pose proof (ta_rep _ _ _ _ Ht) as [HK (_ & _ & HY)%rep_mk]%rb_rep_plug.
  pose proof (ta_nodup _ _ _ _ Ht) as Hnd. rewrite inorder_plug in Hnd.
  destruct (ok_ptr_at Ht) as [? ?].
  assert (Hnd' : NoDup (kleft K ++ (y :: inorder Y) ++ kright K)).
  { apply NoDup_occ. intros z. destruct d; simpl in Hnd; occ_at z. }
  clear Hnd. split_and!; try done.
  - apply NoDup_occ. intros z. occ_at z.
  - occ_at y.
  - occ_at y.
  - occ_at y.
  - destruct K as [|[d' c' p s] K']; [done|]. intros _. simpl. split.
    + destruct d'; simpl in Hnd'; intros ?; occ_at p.
    + destruct d'; simpl in Hnd'; intros ->; occ_at y.
Qed.

Lemma unlink_at : tree_at D m0 unlinked (plug K Y) ∧ is_Some (rb_mem unlinked !! y).
Proof using Ht.
  destruct unlink_facts as (HY & HndY & Hoy & HyD & HyY & Hyl & Hyr & HKY).
  assert (Hl : linked K y t).
  { pose proof (tree_at_linked _ _ _ Ht) as H. rewrite ptr_mk in H. apply H. by destruct d. }
  assert (Hup : ∀ z, (K ≠ [] → z ≠ kpar K) → z ∉ inorder Y → rb_mem unlinked !! z = rb_mem t !! z).
  { intros z Hz HzY. unfold unlinked. rewrite relinked_ne; [by apply spar_ne|].
    destruct K; [by right|left]. by apply Hz. }
  assert (Hin : ∀ z, z ∈ inorder Y ∨ z ∈ kleft K ∨ z ∈ kright K → z ∈ inorder (plug K (mk d c Leaf y Y))).
  { intros z Hz. rewrite inorder_plug. destruct d; simpl; set_solver. }
  split.
  - eapply tree_at_replace; [exact Ht|done|..].
    + intros z Hz. destruct (ta_ptr _ _ _ _ Ht z) as [? ?]; [auto|].
      pose proof (ta_nodup _ _ _ _ Ht) as Hnd. rewrite inorder_plug in Hnd.
      split_and!; [done|done|..]; destruct d; simpl in Hnd; intros ?; occ_at z.
    + eapply rb_rep_ext; [|apply (rep_set_par (rb_mem t) y (kpar K)); [by right|by eapply tree_at_par|done|done]].
      intros z Hz. unfold unlinked. rewrite relinked_ne; [by destruct Y|].
      destruct K as [|f K']; [by right|left]. intros ->. by destruct HKY.
    + intros z Hz HzK. apply Hup; [done|].
      pose proof (ta_nodup _ _ _ _ Ht) as Hnd. rewrite inorder_plug in Hnd.
      destruct Hz, d; simpl in Hnd; intros ?; occ_at z.
    + intros z Hz. apply Hup; [|intros ?; apply Hz, (ta_ptr _ _ _ _ Ht); auto].
      intros HK ->. apply Hz, (ta_ptr _ _ _ _ Ht), Hin. destruct K as [|[[] ? ? ?] ?]; simpl; [done|set_solver..].
    + unfold unlinked. destruct K as [|[d' c' p s] K']; simpl; [done|]. split; [done|apply lookup_insert_eq].
  - rewrite Hup; [by rewrite (node_at Ht)|by intros HK ->; apply HKY|done].
Qed.
End unlink.

(** ** A node in the place of another one *)

Section replace.
Context {D : gset Z} {m0 : gmap Z rb_node} {t : rbtree} {K : list frame}.
Context {c : rcolor} {l : tree} {x : Z} {r : tree} {y : Z}.
Hypothesis Ht : tree_at D m0 t (plug K (Node c l x r)).
Hypothesis Hy : ok_ptr y ∧ y ∈ D.
Hypothesis Hnew : y ∉ inorder (plug K (Node c l x r)).

Lemma replace_facts :
  rep (rb_mem t) x l ∧ rep (rb_mem t) x r ∧ NoDup (inorder l) ∧ NoDup (inorder r) ∧ ok_ptr x ∧
  (∀ z, z ∈ inorder l → z ∉ inorder r) ∧ x ∉ inorder l ∧ x ∉ inorder r ∧
  (∀ z, z ∈ inorder l ∨ z ∈ inorder r → z ≠ y ∧ (K ≠ [] → z ≠ kpar K)) ∧
  (K ≠ [] → kpar K ≠ y ∧ kpar K ≠ x) ∧ x ≠ y.
Proof using Ht Hnew.
  clear Hy. pose proof (ta_rep _ _ _ _ Ht) as [HK (_ & Hl & Hr)]%rb_rep_plug.
  pose proof (ta_nodup _ _ _ _ Ht) as Hnd. rewrite inorder_plug in Hnd, Hnew. simpl in Hnd, Hnew.
  assert (Hpar : K ≠ [] → kpar K ∈ kleft K ++ kright K).
  { destruct K as [|[[] c' p s] K']; simpl; [done|set_solver..]. }
  split_and!; try done.
  - apply NoDup_occ. intros z. occ_at z.
  - apply NoDup_occ. intros z. occ_at z.
  - apply (ok_ptr_at (d:=L) Ht).
  - intros z Hz Hz'. occ_at z.
  - intros ?. occ_at x.
  - intros ?. occ_at x.
  - intros z Hz. split; [intros ->; set_solver|]. intros HK0 ->. specialize (Hpar HK0).
    destruct Hz; occ_at (kpar K).
  - intros HK0. specialize (Hpar HK0). split; intros E.
    + rewrite E in Hpar. set_solver.
    + rewrite E in Hpar. occ_at x.
  - set_solver.
Qed.

Lemma replace_at t' :
  rb_mem t' !! y = Some (node_of (kpar K) c (ptr l) (ptr r)) →
  (∀ z, z ∈ inorder l → rb_mem t' !! z = spar y l (rb_mem t) !! z) →
  (∀ z, z ∈ inorder r → rb_mem t' !! z = spar y r (rb_mem t) !! z) →
  (∀ z, z ≠ y → (K ≠ [] → z ≠ kpar K) → z ∉ inorder l → z ∉ inorder r → z ≠ x →
     rb_mem t' !! z = rb_mem t !! z) →
  match K with
  | [] => rb_root_node t' = y
  | Frame d' c' p s :: K' => rb_root_node t' = rb_root_node t ∧
      rb_mem t' !! p = Some (child_node d' (kpar K') c' y (ptr s))
  end →
  tree_at D m0 t' (plug K (Node c l y r)).
Proof using Ht Hy Hnew.
  intros Hty Htl Htr Hoff Hlink.
  destruct replace_facts as (Hl & Hr & Hnl & Hnr & Hox & Hlr & Hxl & Hxr & Hz' & Hpar & Hxy).
  pose proof (ta_nodup _ _ _ _ Ht) as Hnd. pose proof (ta_ptr _ _ _ _ Ht) as Hptr.
  rewrite inorder_plug in Hnd, Hptr, Hnew. simpl in Hnd, Hptr, Hnew.
  eapply tree_at_replace; [exact Ht|..].
  - simpl. apply NoDup_occ. intros z. assert (z = y → occ z (inorder l) ≤ 0 ∧ occ z (inorder r) ≤ 0).
    { intros ->. split; apply Z.nlt_ge; rewrite <- elem_of_occ; set_solver. }
    occ_at z; naive_solver lia.
  - simpl. intros z Hz. destruct (decide (z = y)) as [->|Hzy]; [destruct Hy; set_solver|].
    assert (z ∈ inorder l ∨ z ∈ inorder r) as Hz2 by set_solver.
    destruct (Hptr z) as [? ?]; [set_solver|]. split_and!; [done|done|..]; intros ?; destruct Hz2; occ_at z.
  - simpl. split_and!; [done|..].
    + eapply rb_rep_ext; [exact Htl|]. apply (rep_set_par (rb_mem t) x y l); [by right|right; apply Hy|done|done].
    + eapply rb_rep_ext; [exact Htr|]. apply (rep_set_par (rb_mem t) x y r); [by right|right; apply Hy|done|done].
  - intros z Hz ?. apply Hoff; [|done|..]; intros ?; subst.
    + destruct Hz; set_solver.
    + destruct Hz; occ_at z.
    + destruct Hz; occ_at z.
    + destruct Hz; occ_at x.
  - intros z Hz. apply Hoff.
    + intros ->. apply Hz, Hy.
    + intros HK ->. apply Hz, Hptr. destruct K as [|[[] ? ? ?] ?]; simpl; [done|set_solver..].
    + intros ?. apply Hz, Hptr. set_solver.
    + intros ?. apply Hz, Hptr. set_solver.
    + intros ->. apply Hz, Hptr. set_solver.
  - simpl ptr. by destruct K as [|[]].
Qed.
End replace.
