(* ===== verification/RbTreeWalk.v ===== *)
(** * Red-black trees: walking

    [rb_first], [rb_last], [rb_next] and [rb_prev] follow the order of the
    nodes, and [rb_replace_node] puts a node in the place of another one. *)

From S2P Require Import Prelude Bits RbTree RbTreeRep RbTreeOps RbTreeInsert RbTreeErase.
Open Scope xen_scope.

(** ** Down one side *)

Definition extreme (d : side) : nat → Z → rbtree → outcome Z :=
  match d with L => leftmost | R => rightmost end.

Lemma extreme_S d fuel node t :
  extreme d (S fuel) node t =
  let! c := get_child d node t in if c =? 0 then Ok node else extreme d fuel c t.
Proof. by destruct d. Qed.

(** The node [y] at the end of side [d] of a tree, and the path to it. *)
Lemma extreme_at {D m0} d fuel t K T :
  tree_at D m0 t (plug K T) → T ≠ Leaf → (height T ≤ fuel)%nat →
  ∃ Kr c y Y, T = plug Kr (mk d c Leaf y Y) ∧ Forall (λ f, fside f = d) Kr ∧
    extreme d fuel (ptr T) t = Ok y.
Proof.
  revert K T. induction fuel as [|fuel IH]; intros K T Ht HT Hf.
  { destruct T; simpl in Hf; [done|lia]. }
  assert (∃ c a x b, T = mk d c a x b) as (c & a & x & b & ->).
  { destruct T as [|c l x r]; [done|]. destruct d; [by exists c, l, x, r|by exists c, r, x, l]. }
  rewrite ptr_mk, extreme_S, (get_child_at Ht). cbn [mbind outcome_bind].
  assert (Ha : tree_at D m0 t (plug (Frame d c x b :: K) a)) by done.
  rewrite (ptr_zero_at Ha). destruct a as [|ca al ax ar] eqn:Ea; cbn [is_leaf].
  - exists [], c, x, b. split_and!; [done|constructor|done].
  - destruct (IH _ _ Ha) as (Kr & c' & y & Y & HT' & Hs & E); [done| |].
    { rewrite height_mk in Hf. lia. }
    exists (Kr ++ [Frame d c x b]), c', y, Y. rewrite plug_app, <- HT'. split_and!; [done| |exact E].
    apply Forall_app. split; [done|by constructor].
Qed.

Lemma spine_left Kr : Forall (λ f, fside f = L) Kr → kleft Kr = [].
Proof. induction 1 as [|[[] c x s] K H HK IH]; simpl; done. Qed.

Lemma spine_right Kr : Forall (λ f, fside f = R) Kr → kright Kr = [].
Proof. induction 1 as [|[[] c x s] K H HK IH]; simpl; done. Qed.

Lemma leftmost_at {D m0} fuel t K T :
  tree_at D m0 t (plug K T) → T ≠ Leaf → (height T ≤ fuel)%nat →
  ∃ y, leftmost fuel (ptr T) t = Ok y ∧ head (inorder T) = Some y.
Proof.
  intros Ht HT Hf. destruct (extreme_at L fuel t K T Ht HT Hf) as (Kr & c & y & Y & -> & Hs & E).
  exists y. split; [done|]. by rewrite inorder_plug, (spine_left _ Hs).
Qed.

Lemma rightmost_at {D m0} fuel t K T :
  tree_at D m0 t (plug K T) → T ≠ Leaf → (height T ≤ fuel)%nat →
  ∃ y, rightmost fuel (ptr T) t = Ok y ∧ last (inorder T) = Some y.
Proof.
  intros Ht HT Hf. destruct (extreme_at R fuel t K T Ht HT Hf) as (Kr & c & y & Y & -> & Hs & E).
  exists y. split; [done|]. rewrite inorder_plug, (spine_right _ Hs). simpl. by rewrite app_nil_r, app_assoc, last_snoc.
Qed.

(** ** Up *)

Lemma climb_right_at {D m0} fuel t K T :
  tree_at D m0 t (plug K T) → T ≠ Leaf → (length K < fuel)%nat →
  climb_right fuel (ptr T) t = Ok (default 0 (head (kright K))).
Proof.
  revert K T. induction fuel as [|fuel IH]; intros K T Ht HT Hf; [lia|]. cbn [climb_right].
  assert (rb_parent (ptr T) t = Ok (kpar K)) as ->.
  { destruct T as [|c l x r]; [done|]. by apply (rb_parent_at (d:=L) Ht). }
  cbn [mbind outcome_bind]. destruct (tree_at_par _ _ _ Ht) as [E|Hp].
  { destruct K as [|[d c p s] K]; [by rewrite E|]. destruct (tree_at_linked _ _ _ Ht HT) as (_ & ? & _). done. }
  destruct Hp as [Hp _]. rewrite (proj2 (Z.eqb_neq (kpar K) 0)) by lia.
  destruct K as [|[d c p s] K]; [simpl in Hp; lia|]. unplug Ht. cbn [kpar fnode].
  rewrite (get_right_at _ _ _ _ _ _ Ht). cbn [mbind outcome_bind].
  destruct (tree_at_linked t (Frame d c p s :: K) T Ht HT) as (_ & _ & Hs). destruct d.
  - by rewrite (proj2 (Z.eqb_neq _ _)).
  - rewrite Z.eqb_refl. pose proof (IH K _ Ht) as H. rewrite ptr_mk in H. apply H; [done|]. simpl in Hf. lia.
Qed.

Lemma climb_left_at {D m0} fuel t K T :
  tree_at D m0 t (plug K T) → T ≠ Leaf → (length K < fuel)%nat →
  climb_left fuel (ptr T) t = Ok (default 0 (last (kleft K))).
Proof.
  revert K T. induction fuel as [|fuel IH]; intros K T Ht HT Hf; [lia|]. cbn [climb_left].
  assert (rb_parent (ptr T) t = Ok (kpar K)) as ->.
  { destruct T as [|c l x r]; [done|]. by apply (rb_parent_at (d:=L) Ht). }
  cbn [mbind outcome_bind]. destruct (tree_at_par _ _ _ Ht) as [E|Hp].
  { destruct K as [|[d c p s] K]; [by rewrite E|]. destruct (tree_at_linked _ _ _ Ht HT) as (_ & ? & _). done. }
  destruct Hp as [Hp _]. rewrite (proj2 (Z.eqb_neq (kpar K) 0)) by lia.
  destruct K as [|[d c p s] K]; [simpl in Hp; lia|]. unplug Ht. cbn [kpar fnode].
  rewrite (get_left_at _ _ _ _ _ _ Ht). cbn [mbind outcome_bind].
  destruct (tree_at_linked t (Frame d c p s :: K) T Ht HT) as (_ & _ & Hs). destruct d.
  - rewrite Z.eqb_refl. pose proof (IH K _ Ht) as H. rewrite ptr_mk in H. apply H; [done|]. simpl in Hf. lia.
  - rewrite (proj2 (Z.eqb_neq _ _)) by done. simpl. by rewrite app_assoc, last_snoc.
Qed.

(** ** The walks on a tree given by its sequence of nodes *)

Section walks.
Context {D : gset Z} {m0 : gmap Z rb_node} {t : rbtree} {l : list Z} {fuel : nat}.
Hypothesis Hf : rb_fits D m0 fuel t l.

Lemma rb_first_seq : rb_first fuel t = Ok (default 0 (head l)).
Proof using Hf.
  destruct Hf as (T & N & HT & _ & <- & Hh). unfold rb_first. rewrite (ta_root _ _ _ _ HT), (ptr_zero_at (K:=[]) HT).
  destruct T as [|c a x b] eqn:E; [done|]. cbn [is_leaf]. rewrite <- E in *.
  destruct (leftmost_at fuel t [] T HT) as (y & -> & ->); [by subst|lia|done].
Qed.

Lemma rb_last_seq : rb_last fuel t = Ok (default 0 (last l)).
Proof using Hf.
  destruct Hf as (T & N & HT & _ & <- & Hh). unfold rb_last. rewrite (ta_root _ _ _ _ HT), (ptr_zero_at (K:=[]) HT).
  destruct T as [|c a x b] eqn:E; [done|]. cbn [is_leaf]. rewrite <- E in *.
  destruct (rightmost_at fuel t [] T HT) as (y & -> & ->); [by subst|lia|done].
Qed.

(** A node of the tree, with what comes before and after it. *)
Lemma rb_tree_node a x b :
  l = a ++ x :: b →
  ∃ K c A B N, tree_at D m0 t (plug K (Node c A x B)) ∧ rb_ok Black N (plug K (Node c A x B)) ∧
    a = kleft K ++ inorder A ∧ b = inorder B ++ kright K ∧ kpar K ≠ x ∧ (height (plug K (Node c A x B)) < fuel)%nat.
Proof using Hf.
  intros El. destruct Hf as (T & N & HT & Hok & Hin & Hh). destruct (node_plug T x) as (K & c & A & B & ->).
  { rewrite Hin, El. set_solver. }
  pose proof (ta_nodup _ _ _ _ HT) as Hnd. rewrite Hin, El in Hnd.
  rewrite inorder_plug, El in Hin. simpl in Hin. symmetry in Hin.
  rewrite <- app_assoc in Hin. simpl in Hin. rewrite app_assoc in Hin.
  destruct (split_unique _ _ _ _ _ Hnd Hin) as [-> ->]. exists K, c, A, B, N. split_and!; try done.
  - intros E. destruct (tree_at_par _ _ _ HT) as [E0|_].
    + destruct (ok_ptr_at (d:=L) HT) as [[? _] _]. lia.
    + destruct K as [|[d c' p s] K']; [simpl in E; destruct (ok_ptr_at (d:=L) HT) as [[? _] _]; lia|].
      simpl in E. subst p. destruct d; simpl in Hnd; occ_at x.
Qed.

Lemma rb_next_seq a x b : l = a ++ x :: b → rb_next fuel x t = Ok (default 0 (head b)).
Proof using Hf.
  intros El. destruct (rb_tree_node a x b El) as (K & c & A & B & N & HT & _ & -> & -> & HK & HlK).
  pose proof (height_plug K (Node c A x B)) as Hp. simpl in Hp.
  unfold rb_next. rewrite (rb_parent_at (d:=L) HT). cbn [mbind outcome_bind].
  rewrite (proj2 (Z.eqb_neq _ _)) by done. rewrite (get_right_at L _ _ _ _ _ HT). cbn [mbind outcome_bind].
  assert (HB : tree_at D m0 t (plug (Frame R c x A :: K) B)) by done.
  rewrite (ptr_zero_at HB). destruct B as [|cb bl bx br] eqn:EB; cbn [is_leaf negb].
  - apply (climb_right_at fuel t K _ HT); [done|lia].
  - rewrite <- EB in *. destruct (leftmost_at fuel t _ _ HB) as (y & -> & Hy); [by subst| |].
    + lia.
    + by destruct (inorder B); simplify_eq/=.
Qed.

Lemma rb_prev_seq a x b : l = a ++ x :: b → rb_prev fuel x t = Ok (default 0 (last a)).
Proof using Hf.
  intros El. destruct (rb_tree_node a x b El) as (K & c & A & B & N & HT & _ & -> & -> & HK & HlK).
  pose proof (height_plug K (Node c A x B)) as Hp. simpl in Hp.
  unfold rb_prev. rewrite (rb_parent_at (d:=L) HT). cbn [mbind outcome_bind].
  rewrite (proj2 (Z.eqb_neq _ _)) by done. rewrite (get_left_at L _ _ _ _ _ HT). cbn [mbind outcome_bind].
  assert (HA : tree_at D m0 t (plug (Frame L c x B :: K) A)) by done.
  rewrite (ptr_zero_at HA). destruct A as [|ca al ax ar] eqn:EA; cbn [is_leaf negb].
  - simpl. rewrite app_nil_r. apply (climb_left_at fuel t K _ HT); [done|lia].
  - rewrite <- EA in *. destruct (rightmost_at fuel t _ _ HA) as (y & -> & Hy); [by subst| |].
    + lia.
    + by rewrite last_app, Hy.
Qed.
End walks.
