(* ===== verification/RbTreeRemove.v ===== *)
(** * Red-black trees: [rb_replace_node] and [rb_erase] *)

From S2P Require Import Prelude Bits RbTree RbTreeRep RbTreeOps RbTreeInsert RbTreeErase RbTreeWalk.
Open Scope xen_scope.

Section replace_node.
Context {D : gset Z} {m0 : gmap Z rb_node} {t : rbtree} {K : list frame}.
Context {c : rcolor} {l : tree} {x : Z} {r : tree} {y : Z}.
Hypothesis Ht : tree_at D m0 t (plug K (Node c l x r)).
Hypothesis Hy : ok_ptr y ∧ y ∈ D.
Hypothesis Hnew : y ∉ inorder (plug K (Node c l x r)).
Hypothesis Hmem : is_Some (rb_mem t !! y).

#[local] Lemma linked_x : linked K x t.
Proof using Ht. pose proof (tree_at_linked _ _ _ Ht) as H. by apply H. Qed.

(** The children of [x] made children of [y], in a memory that agrees with
    [t] on them. *)
Lemma reparent_run t1 :
  (∀ z, z ∈ inorder l ∨ z ∈ inorder r ∨ z = x → rb_mem t1 !! z = rb_mem t !! z) →
  ∃ t2, (let! vl := get_left x t1 in
         let! t := (if vl =? 0 then Ok t1 else rb_set_parent vl y t1) in
         let! vr := get_right x t in
         (if vr =? 0 then Ok t else rb_set_parent vr y t)) = Ok t2 ∧
    rb_mem t2 = spar y r (spar y l (rb_mem t1)) ∧ rb_root_node t2 = rb_root_node t1.
Proof using Ht Hnew.
  clear Hy Hmem. intros H1. destruct (replace_facts Ht Hnew) as (Hl & Hr & Hnl & Hnr & Hox & Hlr & Hxl & Hxr & Hz' & Hpar & Hxy).
  pose proof (node_at (d:=L) Ht) as Hx. cbn [child_node] in Hx.
  assert (Hx1 : rb_mem t1 !! x = Some (node_of (kpar K) c (ptr l) (ptr r))) by (rewrite H1; auto).
  unfold get_left. rewrite (get_ok _ _ _ _ Hx1). cbn [mbind outcome_bind node_of rb_left].
  assert (Hlt : tree_at D m0 t (plug (Frame L c x r :: K) l)) by done.
  assert (Hrt : tree_at D m0 t (plug (Frame R c x l :: K) r)) by done.
  assert (Hptr : ∀ T, T ≠ Leaf → ptr T ∈ inorder T) by (intros [] ?; simpl; set_solver).
  rewrite (spar_run t t1 _ l y Hlt).
  2: { destruct (rep_ptr _ _ _ Hl) as [?|Hs]; [by right|]. destruct l eqn:El; [by right|left]. rewrite <- El in *.
       rewrite H1; [done|]. left. apply Hptr. by subst. }
  cbn [mbind outcome_bind]. unfold get_right.
  rewrite (get_ok _ _ _ (node_of (kpar K) c (ptr l) (ptr r))) by (simpl; by rewrite spar_ne).
  cbn [mbind outcome_bind node_of rb_right].
  rewrite (spar_run t _ _ r y Hrt).
  2: { destruct (rep_ptr _ _ _ Hr) as [?|Hs]; [by right|]. destruct r eqn:Er; [by right|left]. rewrite <- Er in *.
       assert (ptr r ∈ inorder r) by (apply Hptr; by subst). simpl. rewrite spar_ne; [|intros ?; by eapply Hlr].
       rewrite H1; auto. }
  eauto.
Qed.

Lemma rb_replace_node_at :
  ∃ t', rb_replace_node x y t = Ok t' ∧ tree_at D m0 t' (plug K (Node c l y r)).
Proof using Ht Hy Hnew Hmem.
  destruct (replace_facts Ht Hnew) as (Hl & Hr & Hnl & Hnr & Hox & Hlr & Hxl & Hxr & Hz' & Hpar & Hxy).
  unfold rb_replace_node. rewrite (rb_parent_at (d:=L) Ht). cbn [mbind outcome_bind].
  pose proof (relink_ok L K x y t linked_x) as Hrl. unfold relink in Hrl.
  cbn [get_child set_child opp] in Hrl. rewrite Hrl. cbn [mbind outcome_bind].
  set (t1 := relinked K y t) in *.
  assert (H1 : ∀ z, (K ≠ [] → z ≠ kpar K) → rb_mem t1 !! z = rb_mem t !! z).
  { intros z Hz. apply relinked_ne. destruct K; [by right|left; by apply Hz]. }
  destruct (reparent_run t1) as (t2 & E & Hm2 & Hr2).
  { intros z Hz. apply H1. intros HK ->. destruct Hz as [Hz|[Hz|Hz]].
    - destruct (Hz' (kpar K)) as [_ Hne]; [by left|by apply Hne].
    - destruct (Hz' (kpar K)) as [_ Hne]; [by right|by apply Hne].
    - by destruct (Hpar HK). }
  apply Ok_bind_inv in E as (vl & -> & E). cbn [mbind outcome_bind].
  apply Ok_bind_inv in E as (t3 & -> & E). cbn [mbind outcome_bind].
  apply Ok_bind_inv in E as (vr & -> & E). cbn [mbind outcome_bind]. rewrite E. cbn [mbind outcome_bind].
  assert (Hx2 : rb_mem t2 !! x = Some (node_of (kpar K) c (ptr l) (ptr r))).
  { rewrite Hm2, !spar_ne by done. rewrite H1 by (intros HK E'; by destruct (Hpar HK)).
    exact (node_at (d:=L) Ht). }
  rewrite (get_ok _ _ _ _ Hx2). cbn [mbind outcome_bind id].
  assert (Hy2 : is_Some (rb_mem t2 !! y)).
  { rewrite Hm2, !spar_ne by (intros ?; destruct (Hz' y) as [? _]; auto).
    rewrite H1 by (intros HK E'; by destruct (Hpar HK)). done. }
  destruct Hy2 as [ny Hny]. rewrite (put_ok _ _ _ _ Hny). eexists. split; [done|].
  eapply (replace_at Ht Hy Hnew); cbn [rb_mem rb_root_node].
  - apply lookup_insert_eq.
  - intros z Hz. destruct (Hz' z) as [? HzK]; [by left|].
    rewrite lookup_insert_ne by done. rewrite Hm2, spar_ne by (by apply Hlr).
    apply spar_ext, H1, HzK.
  - intros z Hz. destruct (Hz' z) as [? HzK]; [by right|].
    rewrite lookup_insert_ne by done. rewrite Hm2. apply spar_ext.
    rewrite spar_ne by (intros ?; by eapply Hlr). by apply H1.
  - intros z ? ? ? ? ?. rewrite lookup_insert_ne by done. rewrite Hm2, !spar_ne by done. by apply H1.
  - rewrite Hr2. subst t1. destruct K as [|[d' c' p s] K']; [done|]. split; [done|].
    destruct (Hpar ltac:(done)) as [? ?]. cbn [kpar fnode] in *.
    rewrite lookup_insert_ne by done. rewrite Hm2, !spar_ne.
    + apply lookup_insert_eq.
    + intros Hp. destruct (Hz' p) as [_ HzK]; [by left|]. by apply HzK.
    + intros Hp. destruct (Hz' p) as [_ HzK]; [by right|]. by apply HzK.
Qed.
End replace_node.

(** ** [rb_erase] *)

(** Run the goal along a run [E] of its first statements. *)
Ltac replay E :=
  repeat (let v := fresh "v" in let Hv := fresh "Hv" in
          apply Ok_bind_inv in E as (v & Hv & E); rewrite Hv; clear Hv; cbn [mbind outcome_bind]);
  rewrite E; cbn [mbind outcome_bind].

Lemma get_left_ok x t n : rb_mem t !! x = Some n → get_left x t = Ok (rb_left n).
Proof. apply get_ok. Qed.
Lemma get_right_ok x t n : rb_mem t !! x = Some n → get_right x t = Ok (rb_right n).
Proof. apply get_ok. Qed.
Lemma set_left_ok x p t n :
  rb_mem t !! x = Some n →
  set_left x p t = Ok (mk_rbtree (<[x := with_left p n]> (rb_mem t)) (rb_root_node t)).
Proof. apply put_ok. Qed.
Lemma set_right_ok x p t n :
  rb_mem t !! x = Some n →
  set_right x p t = Ok (mk_rbtree (<[x := with_right p n]> (rb_mem t)) (rb_root_node t)).
Proof. apply put_ok. Qed.
Lemma rb_parent_ok x t n : rb_mem t !! x = Some n → rb_parent x t = Ok (node_parent n).
Proof. apply get_ok. Qed.

Lemma relink_sym parent node new t :
  (if negb (parent =? 0) then
     let! pl := get_left parent t in
     if pl =? node then set_left parent new t else set_right parent new t
   else Ok (set_root new t)) = relink L parent node new t.
Proof.
  unfold relink. destruct (parent =? 0); [done|]. simpl. destruct (get_left parent t); [|done].
  simpl. by rewrite Z.eqb_sym.
Qed.

Lemma unlink_run {D m0 t K d c y Y} :
  tree_at D m0 t (plug K (mk d c Leaf y Y)) →
  (if ptr Y =? 0 then Ok t else rb_set_parent (ptr Y) (kpar K) t) =
    Ok (mk_rbtree (spar (kpar K) Y (rb_mem t)) (rb_root_node t)) ∧
  linked K y (mk_rbtree (spar (kpar K) Y (rb_mem t)) (rb_root_node t)).
Proof.
  intros Ht. destruct (unlink_facts Ht) as (HY & _ & _ & _ & HyY & _ & _ & HKY). split.
  - apply (spar_run (D:=D) (m0:=m0) t t (Frame (opp d) c y Leaf :: K)); [simpl; by rewrite mk_opp|].
    destruct (rep_ptr _ _ _ HY); auto.
  - pose proof (tree_at_linked _ _ _ Ht) as H. rewrite ptr_mk in H.
    specialize (H ltac:(by destruct d)). destruct K as [|[d' c' p s] K']; [done|]. destruct H as (Hp & ? & ?).
    split_and!; try done. simpl. rewrite spar_ne; [done|]. by apply HKY.
Qed.

Lemma erase_one_at {D m0 t K d c y Y} :
  tree_at D m0 t (plug K (mk d c Leaf y Y)) →
  erase_one y (ptr Y) t = Ok (ptr Y, kpar K, cword c, unlinked (t:=t) (K:=K) (Y:=Y)).
Proof.
  intros Ht. unfold erase_one. rewrite (rb_parent_at Ht). cbn [mbind outcome_bind].
  rewrite (rb_color_at Ht). cbn [mbind outcome_bind]. destruct (unlink_run Ht) as [-> Hl].
  cbn [mbind outcome_bind]. by rewrite relink_sym, (relink_ok L K y _ _ Hl).
Qed.

Section erase_two.
Context {D : gset Z} {m0 : gmap Z rb_node} {t : rbtree} {K : list frame}.
Context {c : rcolor} {l : tree} {x : Z} {Kr : list frame} {cy : rcolor} {y : Z} {Y : tree}.
Hypothesis Hl : l ≠ Leaf.
Hypothesis Hs : Forall (λ f, fside f = L) Kr.
Hypothesis Ht : tree_at D m0 t (plug K (Node c l x (plug Kr (Node cy Leaf y Y)))).

Let K1 := Kr ++ Frame R c x l :: K.
Let t1 := unlinked (t:=t) (K:=K1) (Y:=Y).

#[local] Lemma at_K1 : tree_at D m0 t (plug K1 (mk L cy Leaf y Y)).
Proof using Ht. subst K1. by rewrite plug_app. Qed.

#[local] Lemma erase_two_kpar : kpar K1 = match Kr with [] => x | f :: _ => fnode f end.
Proof using. unfold K1. by case Kr. Qed.

#[local] Lemma erase_two_notx : match Kr with [] => True | f :: _ => fnode f ≠ x end.
Proof using Ht Hs.
  pose proof (ta_nodup _ _ _ _ at_K1) as Hnd. rewrite inorder_plug in Hnd.
  subst K1. destruct Kr as [|[d c' p s] Kr']; [done|]. simpl. intros ->.
  assert (Hx : x ∈ kleft (Kr' ++ Frame R c x l :: K)).
  { clear. induction Kr' as [|[[] ? ? ?] K' IH]; simpl; set_solver. }
  destruct d; simpl in Hnd; occ_at x.
Qed.

(** The successor's child takes its place. *)
#[local] Lemma erase_two_unlink :
  ∃ p', (if kpar K1 =? x then let! t := set_right (kpar K1) (ptr Y)
           (mk_rbtree (spar (kpar K1) Y (rb_mem t)) (rb_root_node t)) in Ok (y, t)
         else let! t := set_left (kpar K1) (ptr Y)
           (mk_rbtree (spar (kpar K1) Y (rb_mem t)) (rb_root_node t)) in Ok (kpar K1, t)) =
  Ok (p', t1) ∧ p' = kpar (Kr ++ Frame R c y l :: K).
Proof using Ht Hs.
  destruct (unlink_run at_K1) as [_ Hlk]. rewrite erase_two_kpar. pose proof erase_two_notx as Hnx.
  subst t1 K1. destruct Kr as [|[d c' p s] Kr']; simpl in *.
  - rewrite Z.eqb_refl. destruct Hlk as (Hp & _ & _). unfold set_right.
    erewrite put_ok by exact Hp. by exists y.
  - rewrite (proj2 (Z.eqb_neq _ _)) by done. inversion Hs; subst. simpl in *. subst d.
    destruct Hlk as (Hp & _ & _). unfold set_left. erewrite put_ok by exact Hp. by exists p.
Qed.

#[local] Lemma at_t1 : tree_at D m0 t1 (plug K (Node c l x (plug Kr Y))) ∧ is_Some (rb_mem t1 !! y) ∧
  (ok_ptr y ∧ y ∈ D) ∧ y ∉ inorder (plug K (Node c l x (plug Kr Y))).
Proof using Ht.
  clear Hl Hs. destruct (unlink_facts at_K1) as (_ & _ & ? & ? & HyY & Hyl & Hyr & _).
  destruct (unlink_at at_K1) as [H1 H2]. subst K1. rewrite plug_app in H1. split_and!; try done.
  change (plug K (Node c l x (plug Kr Y))) with (plug (Frame R c x l :: K) (plug Kr Y)).
  rewrite <- plug_app, inorder_plug. set_solver.
Qed.

(** The successor [y] takes over the links of [x], in a memory where [x] is
    still in the tree and [y] is not. *)
Lemma take_over_at {t2 : rbtree} {R' : tree} :
  tree_at D m0 t2 (plug K (Node c l x R')) → is_Some (rb_mem t2 !! y) → ok_ptr y ∧ y ∈ D →
  y ∉ inorder (plug K (Node c l x R')) →
  ∃ t', (let! opc := get rb_parent_color x t2 in
         let! t := put (with_parent_color opc) y t2 in
         let! oright := get_right x t in
         let! t := set_right y oright t in
         let! oleft := get_left x t in
         let! t := set_left y oleft t in
         let! oparent := rb_parent x t in
         let! t := (if negb (oparent =? 0) then
                      let! opl := get_left oparent t in
                      if opl =? x then set_left oparent y t
                      else set_right oparent y t
                    else Ok (set_root y t)) in
         let! oleft := get_left x t in
         let! t := rb_set_parent oleft y t in
         let! oright := get_right x t in
         (if oright =? 0 then Ok t else rb_set_parent oright y t)) = Ok t' ∧
    tree_at D m0 t' (plug K (Node c l y R')).
Proof using Hl.
  clear t1 K1 Ht Hs. intros H2 [ny Hny] Hy Hnew.
  destruct (replace_facts H2 Hnew) as (HL & HR & Hnl & Hnr & Hox & Hlr & Hxl & Hxr & Hz' & Hpar & Hxy).
  pose proof (node_at (d:=L) H2) as Hx. cbn [child_node] in Hx.
  set (n := node_of (kpar K) c (ptr l) (ptr R')) in *.
  rewrite (get_ok _ _ _ _ Hx). cbn [mbind outcome_bind]. rewrite (put_ok _ _ _ _ Hny). cbn [mbind outcome_bind].
  erewrite (get_right_ok x) by (simpl; rewrite lookup_insert_ne by done; exact Hx).
  cbn [mbind outcome_bind]. erewrite (set_right_ok y) by apply lookup_insert_eq.
  cbn [mbind outcome_bind rb_mem rb_root_node]. rewrite insert_insert_eq.
  erewrite (get_left_ok x) by (simpl; rewrite lookup_insert_ne by done; exact Hx).
  cbn [mbind outcome_bind]. erewrite (set_left_ok y) by apply lookup_insert_eq.
  cbn [mbind outcome_bind rb_mem rb_root_node]. rewrite insert_insert_eq.
  change (with_left _ _) with n. set (t3 := mk_rbtree (<[y:=n]> (rb_mem t2)) (rb_root_node t2)).
  erewrite (rb_parent_ok x) by (simpl; rewrite lookup_insert_ne by done; exact Hx).
  cbn [mbind outcome_bind].
  replace (node_parent n) with (kpar K)
    by (symmetry; apply (node_parent_node L (kpar K)); by eapply tree_at_par).
  rewrite relink_sym.
  assert (H3 : ∀ z, z ≠ y → rb_mem t3 !! z = rb_mem t2 !! z) by (intros z ?; by apply lookup_insert_ne).
  rewrite (relink_ok L K x).
  2: { pose proof (tree_at_linked _ _ _ H2 ltac:(done)) as Hlk. destruct K as [|[d' c' p s] K']; [done|].
       destruct Hlk as (Hp & ? & ?). split_and!; try done. rewrite H3; [done|]. by apply Hpar. }
  cbn [mbind outcome_bind]. set (t4 := relinked K y t3).
  assert (H4 : ∀ z, z ≠ y → (K ≠ [] → z ≠ kpar K) → rb_mem t4 !! z = rb_mem t2 !! z).
  { intros z ? Hz. unfold t4. rewrite relinked_ne; [by apply H3|]. destruct K; [by right|left; by apply Hz]. }
  assert (H4' : ∀ z, z ∈ inorder l ∨ z ∈ inorder R' ∨ z = x → rb_mem t4 !! z = rb_mem t2 !! z).
  { intros z Hz. assert (z ≠ y ∧ (K ≠ [] → z ≠ kpar K)) as [? ?]; [|by apply H4].
    destruct Hz as [Hz|[Hz|Hz]]; [apply Hz'; auto..|]. subst z. split; [done|]. intros HK E. by destruct (Hpar HK). }
  destruct (reparent_run H2 Hnew t4 H4') as (t5 & E & Hm5 & Hr5).
  rewrite (get_left_ok x t4 n) in * by (rewrite H4'; auto). cbn [mbind outcome_bind n node_of rb_left] in *.
  assert (Hlt : tree_at D m0 t2 (plug (Frame L c x R' :: K) l)) by done.
  rewrite (ptr_zero_at Hlt) in E. replace (is_leaf l) with false in E by (by destruct l).
  apply Ok_bind_inv in E as (t6 & -> & E). cbn [mbind outcome_bind]. rewrite E.
  exists t5. split; [done|]. eapply (replace_at H2 Hy Hnew).
  - rewrite Hm5, !spar_ne by (intros ?; destruct (Hz' y) as [? _]; auto).
    unfold t4. rewrite relinked_ne; [apply lookup_insert_eq|]. destruct K; [by right|left].
    intros E'. by destruct (Hpar ltac:(done)).
  - intros z Hz. rewrite Hm5, spar_ne by (by apply Hlr). apply spar_ext, H4'. auto.
  - intros z Hz. rewrite Hm5. apply spar_ext. rewrite spar_ne by (intros ?; by eapply Hlr). apply H4'. auto.
  - intros z ? ? ? ? ?. rewrite Hm5, !spar_ne by done. by apply H4.
  - rewrite Hr5. unfold t4. destruct K as [|[d' c' p s] K']; [done|]. split; [done|].
    rewrite Hm5, !spar_ne; [apply lookup_insert_eq|..].
    + intros Hp. destruct (Hz' p) as [_ HzK]; [by left|]. by apply HzK.
    + intros Hp. destruct (Hz' p) as [_ HzK]; [by right|]. by apply HzK.
Qed.

Lemma erase_two_at fuel :
  leftmost fuel (ptr (plug Kr (Node cy Leaf y Y))) t = Ok y →
  ∃ t', erase_two fuel x t = Ok (ptr Y, kpar (Kr ++ Frame R c y l :: K), cword cy, t') ∧
    tree_at D m0 t' (plug (Kr ++ Frame R c y l :: K) Y).
Proof using Hl Hs Ht.
  intros Hlm. unfold erase_two. rewrite (get_right_at L _ _ _ _ _ Ht). cbn [mbind outcome_bind].
  rewrite Hlm. cbn [mbind outcome_bind]. rewrite (get_right_at L _ _ _ _ _ at_K1). cbn [mbind outcome_bind].
  rewrite (rb_parent_at at_K1). cbn [mbind outcome_bind]. rewrite (rb_color_at at_K1). cbn [mbind outcome_bind].
  destruct (unlink_run at_K1) as [-> _]. cbn [mbind outcome_bind].
  destruct erase_two_unlink as (p' & -> & ->). cbn [mbind outcome_bind].
  destruct at_t1 as (H1 & Hm & Hy & Hnew). destruct (take_over_at H1 Hm Hy Hnew) as (t' & E & H').
  replay E. exists t'. split; [done|]. by rewrite plug_app.
Qed.
End erase_two.

(** Giving another name to the node of a frame. *)
Lemma kok_rename pc n Kr d c x y s K :
  kok pc n (Kr ++ Frame d c x s :: K) → kok pc n (Kr ++ Frame d c y s :: K).
Proof.
  revert pc n. induction Kr as [|f Kr IH]; intros pc n H; simpl in *.
  - inversion H; subst; eauto with rb.
  - inversion H; subst; eauto with rb.
Qed.

(** After [y] has gone from below [K], its child [Y] is recoloured if needed. *)
Lemma erase_finish {D m0} fuel t K d cy y Y N :
  tree_at D m0 t (plug K Y) → rb_ok Black N (plug K (mk d cy Leaf y Y)) →
  (length K + 2 ≤ fuel)%nat →
  ∃ t', (if cword cy =? RB_BLACK then __rb_erase_color fuel (ptr Y) (kpar K) t else Ok t) = Ok t' ∧
    rb_tree D m0 t' (inorder (plug K Y)).
Proof.
  intros Ht Hok Hf. destruct (ok_unplug _ _ _ Hok) as (c & pc & n & Hmk & HK & Hpc).
  apply ok_mk_inv in Hmk as [-> Hmk]. destruct cy; simpl.
  - destruct Hmk as [_ HY]. destruct (plug_ok _ _ _ _ _ HY HK) as [M HM]; [done|].
    exists t. split; [done|]. by eexists _, M.
  - destruct Hmk as (n' & c1 & c2 & -> & _ & HY).
    apply (erase_color_ok fuel t K Y n' Ht); [|destruct (is_red _); lia].
    split; [eauto|]. rewrite (ok_color _ _ _ HY). destruct c2; [|done].
    inversion HY; subst. simpl. eauto with rb.
Qed.

Section erase.
Context {D : gset Z} {m0 : gmap Z rb_node} {t : rbtree} {fuel : nat} {K : list frame}.
Context {c : rcolor} {A : tree} {x : Z} {B : tree} {N : nat}.
Hypothesis Ht : tree_at D m0 t (plug K (Node c A x B)).
Hypothesis Hok : rb_ok Black N (plug K (Node c A x B)).
Hypothesis Hf : (height (plug K (Node c A x B)) < fuel)%nat.

#[local] Lemma erase_height : (length K + S (Nat.max (height A) (height B)) < fuel)%nat.
Proof using Hf. pose proof (height_plug K (Node c A x B)) as H. simpl in H. lia. Qed.

Lemma erase_one_ok d Y :
  Node c A x B = mk d c Leaf x Y →
  ∃ t', (let! (child, parent, color, t) := erase_one x (ptr Y) t in
         if color =? RB_BLACK then __rb_erase_color fuel child parent t else Ok t) = Ok t' ∧
    rb_tree D m0 t' (inorder (plug K Y)).
Proof using Ht Hok Hf.
  intros E. pose proof erase_height as Hlen. rewrite E in *. rewrite (erase_one_at Ht). cbn [mbind outcome_bind].
  apply (erase_finish fuel _ K d c x Y N); [by apply (unlink_at Ht)|done|lia].
Qed.

Lemma erase_two_ok :
  A ≠ Leaf → B ≠ Leaf →
  ∃ t', (let! (child, parent, color, t) := erase_two fuel x t in
         if color =? RB_BLACK then __rb_erase_color fuel child parent t else Ok t) = Ok t' ∧
    rb_tree D m0 t' (kleft K ++ inorder A ++ inorder B ++ kright K).
Proof using Ht Hok Hf.
  intros HA HB. pose proof erase_height as Hlen.
  destruct (extreme_at L fuel t (Frame R c x A :: K) B Ht HB) as (Kr & cy & y & Y & -> & Hs & E); [lia|].
  simpl in E, Ht, Hok.
  destruct (erase_two_at HA Hs Ht fuel) as (t1 & -> & H1); [done|].
  cbn [mbind outcome_bind].
  assert (∃ N', rb_ok Black N' (plug (Kr ++ Frame R c y A :: K) (mk L cy Leaf y Y))) as [N' Hok'].
  { change (plug K (Node c A x (plug Kr (Node cy Leaf y Y))))
      with (plug (Frame R c x A :: K) (plug Kr (Node cy Leaf y Y))) in Hok.
    rewrite <- plug_app in Hok. destruct (ok_unplug _ _ _ Hok) as (c' & pc & n & Hmk & HK & Hpc).
    eapply plug_ok; [exact Hmk|by eapply kok_rename|done]. }
  destruct (erase_finish fuel t1 _ L cy y Y N' H1 Hok') as (t' & -> & H').
  { rewrite length_app. simpl. pose proof (height_plug Kr (mk L cy Leaf y Y)) as Hp. rewrite height_mk in Hp. simpl in Hp, Hlen. lia. }
  exists t'. split; [done|]. revert H'. rewrite plug_app. cbn [plug fside fcolor fnode fsib mk].
  rewrite !inorder_plug. simpl. rewrite !inorder_plug, (spine_left _ Hs). simpl. by simplify_list_eq.
Qed.

Lemma rb_erase_at :
  ∃ t', rb_erase fuel x t = Ok t' ∧ rb_tree D m0 t' (kleft K ++ inorder A ++ inorder B ++ kright K).
Proof using Ht Hok Hf.
  unfold rb_erase. rewrite (get_left_at L _ _ _ _ _ Ht). cbn [mbind outcome_bind].
  rewrite (get_right_at L _ _ _ _ _ Ht). cbn [mbind outcome_bind].
  assert (HA : tree_at D m0 t (plug (Frame L c x B :: K) A)) by done.
  assert (HB : tree_at D m0 t (plug (Frame R c x A :: K) B)) by done.
  rewrite (ptr_zero_at HA), (ptr_zero_at HB).
  destruct (decide (A = Leaf)) as [EA|HA0].
  - destruct (erase_one_ok L B) as (t' & E & H'); [by rewrite EA|].
    rewrite EA. cbn [is_leaf]. rewrite E. exists t'. split; [done|]. by rewrite inorder_plug in H'.
  - replace (is_leaf A) with false by (by destruct A).
    destruct (decide (B = Leaf)) as [EB|HB0].
    + destruct (erase_one_ok R A) as (t' & E & H'); [by rewrite EB|].
      rewrite EB. cbn [is_leaf]. rewrite E. exists t'. split; [done|]. by rewrite inorder_plug in H'.
    + replace (is_leaf B) with false by (by destruct B). by apply erase_two_ok.
Qed.
End erase.
