(* ===== verification/RbTreeProps.v ===== *)
(** * Red-black trees: the theorems

    Histories of insertions, removals and replacements against sequences of
    nodes, the walks, the depth of a tree and the rounds of the loops. *)

From S2P Require Import Prelude Bits RbTree RbTreeRep RbTreeOps RbTreeInsert RbTreeErase RbTreeWalk RbTreeRemove.
Open Scope xen_scope.

(** ** Commands on a tree and on the sequence of its nodes *)

Inductive rb_cmd :=
| CInsert (x : Z) (link : rb_link)
| CErase (x : Z)
| CReplace (x y : Z).

Definition link_parent (link : rb_link) : Z :=
  match link with LinkRoot => 0 | LinkLeft p | LinkRight p => p end.

Definition rb_exec (fuel : nat) (cmd : rb_cmd) (t : rbtree) : outcome rbtree :=
  match cmd with
  | CInsert x link =>
      let! t := rb_link_node x (link_parent link) link t in rb_insert_color fuel x t
  | CErase x => rb_erase fuel x t
  | CReplace x y => rb_replace_node x y t
  end.

Fixpoint insert_before (p x : Z) (l : list Z) : list Z :=
  match l with
  | [] => []
  | z :: l => if z =? p then x :: z :: l else z :: insert_before p x l
  end.

Fixpoint insert_after (p x : Z) (l : list Z) : list Z :=
  match l with
  | [] => []
  | z :: l => if z =? p then z :: x :: l else z :: insert_after p x l
  end.

Definition seq_exec (cmd : rb_cmd) (l : list Z) : list Z :=
  match cmd with
  | CInsert x LinkRoot => x :: l
  | CInsert x (LinkLeft p) => insert_before p x l
  | CInsert x (LinkRight p) => insert_after p x l
  | CErase x => filter (λ z, z ≠ x) l
  | CReplace x y => (λ z, if z =? x then y else z) <$> l
  end.

(** The commands a user of the tree may give: new nodes are allocated and not
    in the tree, and are linked where the tree has no child. *)
Definition new_node (D : gset Z) (t : rbtree) (l : list Z) (x : Z) : bool :=
  bool_decide (0 < x < 2 ^ 64) && bool_decide (x mod 4 = 0) && bool_decide (x ∈ D) &&
  bool_decide (x ∉ l) && bool_decide (is_Some (rb_mem t !! x)).

Definition legal (D : gset Z) (cmd : rb_cmd) (t : rbtree) (l : list Z) : bool :=
  match cmd with
  | CInsert x link =>
      new_node D t l x && bool_decide (read_link link t = Ok 0) &&
      match link with LinkRoot => true | LinkLeft p | LinkRight p => bool_decide (p ∈ l) end
  | CErase x => bool_decide (x ∈ l)
  | CReplace x y => bool_decide (x ∈ l) && new_node D t l y
  end.

(** A history: [None] if a command is not legal. *)
Fixpoint rb_run (D : gset Z) (fuel : nat) (cmds : list rb_cmd) (t : rbtree) (l : list Z) :
    option (outcome (rbtree * list Z)) :=
  match cmds with
  | [] => Some (Ok (t, l))
  | cmd :: cmds =>
      if legal D cmd t l then
        match rb_exec fuel cmd t with
        | Ok t => rb_run D fuel cmds t (seq_exec cmd l)
        | Bug => Some Bug
        end
      else None
  end.

Lemma insert_before_split p x a b : p ∉ a → insert_before p x (a ++ p :: b) = a ++ x :: p :: b.
Proof.
  induction a as [|z a IH]; intros Hp; simpl; [by rewrite Z.eqb_refl|].
  rewrite (proj2 (Z.eqb_neq z p)) by set_solver. f_equal. apply IH. set_solver.
Qed.

Lemma insert_after_split p x a b : p ∉ a → insert_after p x (a ++ p :: b) = a ++ p :: x :: b.
Proof.
  induction a as [|z a IH]; intros Hp; simpl; [by rewrite Z.eqb_refl|].
  rewrite (proj2 (Z.eqb_neq z p)) by set_solver. f_equal. apply IH. set_solver.
Qed.

Lemma filter_split (x : Z) a b :
  x ∉ a → x ∉ b → filter (λ z, z ≠ x) (a ++ x :: b) = a ++ b.
Proof.
  assert (Hid : ∀ l : list Z, x ∉ l → filter (λ z, z ≠ x) l = l).
  { intros l Hl. induction l as [|z l IH]; [done|]. rewrite filter_cons_True, IH; set_solver. }
  intros Ha Hb. rewrite filter_app, filter_cons_False by (intros []; done). by rewrite !Hid.
Qed.

Lemma rename_split (x y : Z) a b :
  x ∉ a → x ∉ b → (λ z, if z =? x then y else z) <$> (a ++ x :: b) = a ++ y :: b.
Proof.
  assert (Hid : ∀ l : list Z, x ∉ l → (λ z, if z =? x then y else z) <$> l = l).
  { intros l Hl. induction l as [|z l IH]; [done|]. rewrite fmap_cons, IH by set_solver.
    by rewrite (proj2 (Z.eqb_neq z x)) by set_solver. }
  intros Ha Hb. rewrite fmap_app, fmap_cons, !Hid, Z.eqb_refl by done. done.
Qed.

Lemma new_node_spec D t l x :
  new_node D t l x = true → ok_ptr x ∧ x ∈ D ∧ x ∉ l ∧ is_Some (rb_mem t !! x).
Proof.
  unfold new_node. intros H. b2p. split_and!; try done. split; [done|].
  apply Z.mod_divide; [lia|done].
Qed.

Section step.
Context {D : gset Z} {m0 : gmap Z rb_node} {t : rbtree} {l : list Z} {fuel : nat}.
Hypothesis Hf : rb_fits D m0 fuel t l.

#[local] Lemma seq_nodup : NoDup l.
Proof using Hf. destruct Hf as (T & N & HT & _ & El & _). rewrite <- El. apply (ta_nodup _ _ _ _ HT). Qed.

#[local] Lemma seq_split x : x ∈ l → ∃ a b, l = a ++ x :: b ∧ x ∉ a ∧ x ∉ b.
Proof using Hf.
  intros (a & b & El)%list_elem_of_split. exists a, b. split; [done|].
  pose proof seq_nodup as Hnd. rewrite El in Hnd. split; intros ?; occ_at x.
Qed.

(** A free child of the node [p], on side [d]. *)
#[local] Lemma free_slot d p a b :
  l = a ++ p :: b → get_child d p t = Ok 0 →
  ∃ K N, tree_at D m0 t (plug K Leaf) ∧ rb_ok Black N (plug K Leaf) ∧ kpar K = p ∧
    link_of K = match d with L => LinkLeft p | R => LinkRight p end ∧
    kleft K = match d with L => a | R => a ++ [p] end ∧
    kright K = match d with L => p :: b | R => b end ∧ (length K < fuel)%nat.
Proof using Hf.
  intros El Hg. destruct (rb_tree_node Hf a p b El) as (K & c & A & B & N & HT & Hok & -> & -> & _ & HK).
  pose proof (height_plug K (Node c A p B)) as Hp. simpl in Hp. destruct d; simpl in Hg.
  - rewrite (get_left_at L _ _ _ _ _ HT) in Hg. injection Hg as Hz.
    assert (HA : tree_at D m0 t (plug (Frame L c p B :: K) A)) by done.
    pose proof (ptr_zero_at HA) as E. rewrite Hz in E. destruct A; [|done].
    exists (Frame L c p B :: K), N. split_and!; try done; simpl; [by rewrite app_nil_r|lia].
  - rewrite (get_right_at L _ _ _ _ _ HT) in Hg. injection Hg as Hz.
    assert (HB : tree_at D m0 t (plug (Frame R c p A :: K) B)) by done.
    pose proof (ptr_zero_at HB) as E. rewrite Hz in E. destruct B; [|done].
    exists (Frame R c p A :: K), N. split_and!; try done; simpl; [by simplify_list_eq|lia].
Qed.

(** Inserting at the hole of a context. *)
#[local] Lemma insert_hole K N x :
  tree_at D m0 t (plug K Leaf) → rb_ok Black N (plug K Leaf) → l = kleft K ++ kright K →
  new_node D t l x = true → (length K < fuel)%nat →
  ∃ t', (let! t := rb_link_node x (kpar K) (link_of K) t in rb_insert_color fuel x t) = Ok t' ∧
    rb_tree D m0 t' (kleft K ++ x :: kright K).
Proof using.
  clear Hf. intros HT Hok -> (? & ? & Hx & ?)%new_node_spec HK.
  apply (insert_at t K x N fuel HT Hok); [done|set_solver|done|done].
Qed.

Lemma exec_insert x link :
  legal D (CInsert x link) t l = true →
  ∃ t', rb_exec fuel (CInsert x link) t = Ok t' ∧ rb_tree D m0 t' (seq_exec (CInsert x link) l).
Proof using Hf.
  simpl. intros Hleg. b2p. match goal with H : new_node _ _ _ _ = true |- _ => rename H into Hnew end.
  destruct link as [|p|p].
  - destruct Hf as (T & N & HT & Hok & HTl & Hh). simpl in *. rewrite (ta_root _ _ _ _ HT) in *.
    assert (T = Leaf) as ->.
    { pose proof (ptr_zero_at (K:=[]) HT) as E. destruct T; [done|]. simpl in *. simplify_eq. }
    destruct (insert_hole [] N x HT Hok) as (t' & E & H'); [by rewrite <- HTl|done|simpl; lia|].
    exists t'. split; [exact E|]. by rewrite <- HTl.
  - b2p. destruct (seq_split p) as (a & b & El & Ha & Hb); [done|].
    destruct (free_slot L p a b El) as (K & N & HT & Hok & Hk & Hlk & Hkl & Hkr & HlK); [done|].
    destruct (insert_hole K N x) as (t' & E & H'); [done|done|by rewrite Hkl, Hkr|done|done|].
    rewrite Hk, Hlk in E. rewrite Hkl, Hkr in H'. exists t'. split; [done|].
    by rewrite El, insert_before_split.
  - b2p. destruct (seq_split p) as (a & b & El & Ha & Hb); [done|].
    destruct (free_slot R p a b El) as (K & N & HT & Hok & Hk & Hlk & Hkl & Hkr & HlK); [done|].
    destruct (insert_hole K N x) as (t' & E & H'); [done|done|rewrite Hkl, Hkr; by simplify_list_eq|done|done|].
    rewrite Hk, Hlk in E. rewrite Hkl, Hkr, <- app_assoc in H'. exists t'. split; [done|].
    by rewrite El, insert_after_split.
Qed.

Lemma exec_erase x :
  x ∈ l → ∃ t', rb_erase fuel x t = Ok t' ∧ rb_tree D m0 t' (filter (λ z, z ≠ x) l).
Proof using Hf.
  intros Hx. destruct (seq_split x) as (a & b & El & Ha & Hb); [done|].
  destruct (rb_tree_node Hf a x b El) as (K & c & A & B & N & HT & Hok & Ea & Eb & _ & Hh).
  destruct (rb_erase_at HT Hok Hh) as (t' & E & H').
  exists t'. split; [done|]. rewrite El, filter_split by done. by rewrite Ea, Eb, <- app_assoc.
Qed.

Lemma exec_replace x y :
  x ∈ l → new_node D t l y = true →
  ∃ t', rb_replace_node x y t = Ok t' ∧
    rb_tree D m0 t' ((λ z, if z =? x then y else z) <$> l).
Proof using Hf.
  intros Hx Hnew. destruct (seq_split x) as (a & b & El & Ha & Hb); [done|].
  destruct (rb_tree_node Hf a x b El) as (K & c & A & B & N & HT & Hok & Ea & Eb & _ & _).
  destruct (new_node_spec _ _ _ _ Hnew) as (? & ? & Hy & ?).
  destruct (rb_replace_node_at (y:=y) HT) as (t' & E & H'); [done| |done|].
  { rewrite inorder_plug. simpl. rewrite El, Ea, Eb in Hy. set_solver. }
  exists t'. split; [done|]. exists (plug K (Node c A y B)).
  destruct (ok_unplug _ _ _ Hok) as (c' & pc & n & Hn & HK & Hpc).
  assert (rb_ok c' n (Node c A y B)) as Hn' by (inversion Hn; subst; eauto with rb).
  destruct (plug_ok _ _ _ _ _ Hn' HK Hpc) as [M HM]. exists M. split_and!; try done.
  rewrite El, rename_split by done. rewrite inorder_plug, Ea, Eb. simpl. by simplify_list_eq.
Qed.

Lemma rb_exec_ok cmd :
  legal D cmd t l = true →
  ∃ t', rb_exec fuel cmd t = Ok t' ∧ rb_tree D m0 t' (seq_exec cmd l).
Proof using Hf.
  destruct cmd as [x link|x|x y]; [apply exec_insert|..]; simpl; intros Hl; b2p;
    [by apply exec_erase|by apply exec_replace].
Qed.
End step.

Lemma seq_exec_length cmd l : (length (seq_exec cmd l) ≤ S (length l))%nat.
Proof.
  destruct cmd as [x [|p|p]|x|x y]; simpl; [done|..].
  - induction l as [|z l IH]; simpl; [lia|]. case_Z; simpl; lia.
  - induction l as [|z l IH]; simpl; [lia|]. case_Z; simpl; lia.
  - pose proof (length_filter (λ z, z ≠ x) l). lia.
  - rewrite length_fmap. lia.
Qed.

(** The fuel need only exceed the height of the trees. *)
Lemma rb_run_fits D m0 fuel (fits : nat → Prop) cmds t l o :
  (∀ t l, rb_tree D m0 t l → fits (length l) → rb_fits D m0 fuel t l) → (∀ m n, (m ≤ n)%nat → fits n → fits m) →
  rb_tree D m0 t l → fits (length l + length cmds)%nat → rb_run D fuel cmds t l = Some o →
  ∃ t' l', o = Ok (t', l') ∧ rb_tree D m0 t' l' ∧ fits (length l').
Proof.
  intros Hfit Hmono. revert t l. induction cmds as [|cmd cmds IH]; intros t l Ht Hf; simpl in *.
  { intros [= <-]. exists t, l. split_and!; [done|done|]. eapply Hmono, Hf. lia. }
  destruct (legal D cmd t l) eqn:Hl; [|done].
  destruct (rb_exec_ok (Hfit t l Ht ltac:(eapply Hmono, Hf; lia)) cmd Hl) as (t1 & -> & H1).
  apply IH; [done|]. eapply Hmono, Hf. pose proof (seq_exec_length cmd l). lia.
Qed.

Lemma rb_run_ok D m0 fuel cmds t l o :
  rb_tree D m0 t l → (length l + length cmds < fuel)%nat → rb_run D fuel cmds t l = Some o →
  ∃ t' l', o = Ok (t', l') ∧ rb_tree D m0 t' l' ∧ (length l' < fuel)%nat.
Proof. apply (rb_run_fits D m0 fuel (λ n, n < fuel)%nat); [intros; by apply rb_tree_fits|lia]. Qed.

(** ** Depth *)

(** The parent pointers from a node to the root. *)
Fixpoint rb_depth (fuel : nat) (x : Z) (t : rbtree) : outcome Z :=
  match fuel with
  | O => Bug
  | S fuel =>
      let! p := rb_parent x t in
      if p =? 0 then Ok 0 else let! k := rb_depth fuel p t in Ok (k + 1)
  end.

Lemma rb_depth_at {D m0} fuel t K T :
  tree_at D m0 t (plug K T) → T ≠ Leaf → (length K < fuel)%nat →
  rb_depth fuel (ptr T) t = Ok (Z.of_nat (length K)).
Proof.
  revert K T. induction fuel as [|fuel IH]; intros K T Ht HT Hf; [lia|]. cbn [rb_depth].
  assert (rb_parent (ptr T) t = Ok (kpar K)) as ->.
  { destruct T as [|c l x r]; [done|]. by apply (rb_parent_at (d:=L) Ht). }
  cbn [mbind outcome_bind]. destruct K as [|[d c p s] K]; [done|]. cbn [kpar fnode].
  destruct (tree_at_linked _ _ _ Ht HT) as (_ & ? & _). rewrite (proj2 (Z.eqb_neq p 0)) by done.
  pose proof (IH K _ Ht) as H'. rewrite ptr_mk in H'. simpl in Hf. cbn [fnode] in H'.
  rewrite H' by (first [by destruct d|lia]). cbn [mbind outcome_bind length]. f_equal. lia.
Qed.

Lemma rb_depth_fits {D m0} fuel t l a x b :
  rb_fits D m0 fuel t l → l = a ++ x :: b →
  ∃ d, rb_depth fuel x t = Ok d ∧ d < 2 * Z.log2 (Z.of_nat (length l) + 1).
Proof.
  intros Hft El. destruct (rb_tree_node Hft a x b El) as (K & c & A & B & N & HT & Hok & Ea & Eb & _ & Hh).
  pose proof (height_plug K (Node c A x B)) as Hp. cbn [height] in Hp.
  exists (Z.of_nat (length K)). split; [apply (rb_depth_at fuel t K _ HT); [done|lia]|].
  pose proof (ok_balanced _ _ Hok) as Hb.
  assert (Hl : length (inorder (plug K (Node c A x B))) = length l).
  { rewrite El, Ea, Eb, inorder_plug, !length_app. simpl. rewrite !length_app. simpl. rewrite ?length_app. lia. }
  rewrite Hl in Hb. lia.
Qed.

(** ** The properties *)

(** C10: every history of legal insertions, removals and replacements runs to
    its end without touching a node it should not ([Bug] does not occur, and
    the nodes outside [D] keep their contents), and the memory then holds a
    red-black tree with the nodes of the same history on sequences: an
    insertion left or right of a node puts the new one just before or after
    it, a removal drops the node and keeps the order of the others. The fuel of
    the loops need only exceed the number of nodes. *)
Theorem rb_history_refines D m0 fuel cmds t l o :
  rb_tree D m0 t l → (length l + length cmds < fuel)%nat → rb_run D fuel cmds t l = Some o →
  ∃ t' l', o = Ok (t', l') ∧ rb_tree D m0 t' l'.
Proof. intros Ht Hf Ho. destruct (rb_run_ok _ _ _ _ _ _ _ Ht Hf Ho) as (t' & l' & ? & ? & _). eauto. Qed.

(** Ten free nodes, and a history that exercises every case of the code. *)
Definition demo_nodes : list Z := [8; 16; 24; 32; 40; 48; 56; 64; 72; 80].
Definition demo_set : gset Z := list_to_set demo_nodes.
Definition demo_mem : gmap Z rb_node := list_to_map ((λ x, (x, mk_rb_node 0 0 0)) <$> demo_nodes).
Definition demo_tree : rbtree := mk_rbtree demo_mem 0.
Definition demo_cmds : list rb_cmd :=
  [CInsert 8 LinkRoot; CInsert 16 (LinkRight 8); CInsert 24 (LinkRight 16); CInsert 32 (LinkRight 24);
   CInsert 40 (LinkLeft 32); CInsert 48 (LinkLeft 8); CInsert 56 (LinkRight 48); CErase 16; CErase 48;
   CReplace 24 72; CInsert 64 (LinkRight 32); CErase 8; CErase 72].

Lemma demo_empty : rb_tree demo_set demo_mem demo_tree [].
Proof.
  exists Leaf, 0%nat. split_and!; [|constructor|done].
  split; [done|done|constructor|by intros a ?%elem_of_nil|done].
Qed.

Definition demo_test (fuel : nat) : bool :=
  match rb_run demo_set fuel demo_cmds demo_tree [] with
  | Some (Ok (_, l)) => bool_decide (l = [56; 40; 32; 64])
  | _ => false
  end.

Lemma demo_test_run fuel :
  demo_test fuel = true → ∃ t', rb_run demo_set fuel demo_cmds demo_tree [] = Some (Ok (t', [56; 40; 32; 64])).
Proof.
  unfold demo_test. intros H. destruct (rb_run demo_set fuel demo_cmds demo_tree []) as [[[t' l]|]|]; [|discriminate..].
  apply bool_decide_eq_true in H. subst l. by exists t'.
Qed.

Lemma demo_run :
  ∃ t', rb_run demo_set 20 demo_cmds demo_tree [] = Some (Ok (t', [56; 40; 32; 64])).
Proof. apply demo_test_run. vm_compute. reflexivity. Qed.

(** Seven rounds are enough for its thirteen commands. *)
Lemma demo_run_log :
  ∃ t', rb_run demo_set 7 demo_cmds demo_tree [] = Some (Ok (t', [56; 40; 32; 64])).
Proof. apply demo_test_run. vm_compute. reflexivity. Qed.

Lemma rb_history_refines_witness :
  ∃ t', rb_run demo_set 20 demo_cmds demo_tree [] = Some (Ok (t', [56; 40; 32; 64])) ∧
    rb_tree demo_set demo_mem t' [56; 40; 32; 64].
Proof.
  destruct demo_run as [t' E]. exists t'. split; [exact E|].
  destruct (rb_history_refines demo_set demo_mem 20 demo_cmds demo_tree [] _ demo_empty ltac:(simpl; lia) E)
    as (t2 & l2 & [= <- <-] & Ht). exact Ht.
Defined.

(** Forward and backward walks, as the users of a tree write them. *)
Fixpoint walk_next (n fuel : nat) (node : Z) (t : rbtree) : outcome (list Z) :=
  match n with
  | O => Bug
  | S n =>
      if node =? 0 then Ok []
      else let! next := rb_next fuel node t in
           let! rest := walk_next n fuel next t in Ok (node :: rest)
  end.

Fixpoint walk_prev (n fuel : nat) (node : Z) (t : rbtree) : outcome (list Z) :=
  match n with
  | O => Bug
  | S n =>
      if node =? 0 then Ok []
      else let! prev := rb_prev fuel node t in
           let! rest := walk_prev n fuel prev t in Ok (node :: rest)
  end.

Lemma rb_tree_nonzero D m0 t l x : rb_tree D m0 t l → x ∈ l → x ≠ 0.
Proof. intros (T & N & HT & _ & <-) Hx. destruct (ta_ptr _ _ _ _ HT x Hx) as [[? _] _]. lia. Qed.

Lemma walk_next_ok {D m0 t l fuel} n a b :
  rb_tree D m0 t l → (length l < fuel)%nat → l = a ++ b → (length b < n)%nat →
  walk_next n fuel (default 0 (head b)) t = Ok b.
Proof.
  intros Ht Hf%(rb_tree_fits _ _ _ _ _ Ht). revert a b. induction n as [|n IH]; intros a b El Hn; [lia|]. cbn [walk_next].
  destruct b as [|x b]; [done|]. change (default 0 (head (x :: b))) with x.
  rewrite (proj2 (Z.eqb_neq x 0)) by (eapply rb_tree_nonzero; [done|subst; set_solver]).
  rewrite (rb_next_seq Hf a x b El). cbn [mbind outcome_bind].
  rewrite (IH (a ++ [x]) b); [done|by rewrite <- app_assoc|]. simpl in Hn. lia.
Qed.

Lemma walk_prev_ok {D m0 t l fuel} n a b :
  rb_tree D m0 t l → (length l < fuel)%nat → l = a ++ b → (length a < n)%nat →
  walk_prev n fuel (default 0 (last a)) t = Ok (reverse a).
Proof.
  intros Ht Hf%(rb_tree_fits _ _ _ _ _ Ht). revert a b. induction n as [|n IH]; intros a b El Hn; [lia|]. cbn [walk_prev].
  destruct a as [|x a _] using rev_ind; [done|]. rewrite last_snoc. change (default 0 (Some x)) with x.
  rewrite (proj2 (Z.eqb_neq x 0)) by (eapply rb_tree_nonzero; [done|subst; set_solver]).
  rewrite (rb_prev_seq Hf a x b) by (by rewrite El, <- app_assoc). cbn [mbind outcome_bind].
  rewrite length_app in Hn. simpl in Hn.
  rewrite (IH a (x :: b)); [by rewrite reverse_snoc|by rewrite El, <- app_assoc|lia].
Qed.

(** C34: walking a tree with [rb_first] and [rb_next] visits its nodes in order,
    each once, and ends; [rb_last] and [rb_prev] visit them in the opposite
    order. *)
Theorem rb_walk_enumerates D m0 fuel t l :
  rb_tree D m0 t l → (length l < fuel)%nat →
  (let! n := rb_first fuel t in walk_next fuel fuel n t) = Ok l ∧
  (let! n := rb_last fuel t in walk_prev fuel fuel n t) = Ok (reverse l).
Proof.
  intros Ht Hf. pose proof (rb_tree_fits _ _ _ _ _ Ht Hf) as Hft. rewrite (rb_first_seq Hft), (rb_last_seq Hft). cbn [mbind outcome_bind]. split.
  - by apply (walk_next_ok fuel [] l Ht Hf).
  - apply (walk_prev_ok fuel l [] Ht Hf); [by rewrite app_nil_r|done].
Qed.

(** The tree at the end of the history of [demo_cmds]. *)
Lemma demo_final : ∃ t', rb_tree demo_set demo_mem t' [56; 40; 32; 64].
Proof.
  destruct demo_run as [t' E]. exists t'.
  destruct (rb_run_ok demo_set demo_mem 20 demo_cmds demo_tree [] _ demo_empty ltac:(simpl; lia) E)
    as (t2 & l2 & [= <- <-] & Ht & _). exact Ht.
Qed.

Lemma rb_walk_enumerates_witness :
  ∃ t', (let! n := rb_first 20 t' in walk_next 20 20 n t') = Ok [56; 40; 32; 64] ∧
    (let! n := rb_last 20 t' in walk_prev 20 20 n t') = Ok [64; 32; 40; 56].
Proof.
  destruct demo_final as [t' Ht]. exists t'.
  apply (rb_walk_enumerates demo_set demo_mem 20 t' [56; 40; 32; 64] Ht). simpl. lia.
Defined.

(** C35: from the empty tree on, every history of [m] legal insertions, removals
    and replacements runs to its end with any fuel above [2 log2 (m + 1)]: no
    loop of the code, neither the recolouring after an insertion or a removal
    nor the search for the successor, needs more rounds. On the tree of [n]
    nodes that it leads to, the first and the last node and the neighbours of
    each node are found within [2 log2 (n + 1) + 1] rounds, and every node is
    less than [2 log2 (n + 1)] parent pointers below the root. *)
Theorem rb_loops_logarithmic D m0 fuel cmds t o :
  rb_tree D m0 t [] → 2 * Z.log2 (Z.of_nat (length cmds) + 1) < Z.of_nat fuel → rb_run D fuel cmds t [] = Some o →
  ∃ t' l, o = Ok (t', l) ∧ rb_tree D m0 t' l ∧
    ∀ k, 2 * Z.log2 (Z.of_nat (length l) + 1) < Z.of_nat k →
      rb_first k t' = Ok (default 0 (head l)) ∧ rb_last k t' = Ok (default 0 (last l)) ∧
      ∀ a x b, l = a ++ x :: b →
        rb_next k x t' = Ok (default 0 (head b)) ∧ rb_prev k x t' = Ok (default 0 (last a)) ∧
        ∃ d, rb_depth k x t' = Ok d ∧ d < 2 * Z.log2 (Z.of_nat (length l) + 1).
Proof.
  intros Ht Hf Ho.
  destruct (rb_run_fits D m0 fuel (λ n, 2 * Z.log2 (Z.of_nat n + 1) < Z.of_nat fuel) cmds t [] o) as (t' & l & -> & Ht' & _); try done.
  { intros ? ? ? ?. by apply rb_tree_fits_log. }
  { intros m n Hmn Hn. pose proof (Z.log2_le_mono (Z.of_nat m + 1) (Z.of_nat n + 1) ltac:(lia)). lia. }
  exists t', l. split; [done|]. split; [done|]. intros k Hk. pose proof (rb_tree_fits_log _ _ _ _ _ Ht' Hk) as Hft.
  split; [apply (rb_first_seq Hft)|]. split; [apply (rb_last_seq Hft)|]. intros a x b El.
  split; [apply (rb_next_seq Hft a x b El)|]. split; [apply (rb_prev_seq Hft a x b El)|].
  by apply (rb_depth_fits k t' l a x b Hft).
Qed.

Lemma rb_loops_logarithmic_witness :
  ∃ t', rb_run demo_set 7 demo_cmds demo_tree [] = Some (Ok (t', [56; 40; 32; 64])) ∧
    rb_next 5 40 t' = Ok 32 ∧ ∃ d, rb_depth 5 64 t' = Ok d ∧ d < 4.
Proof.
  destruct demo_run_log as [t' E]. exists t'. split; [exact E|].
  destruct (rb_loops_logarithmic demo_set demo_mem 7 demo_cmds demo_tree _ demo_empty eq_refl E) as (t2 & l2 & [= <- <-] & _ & Hk).
  destruct (Hk 5%nat eq_refl) as (_ & _ & Hx). split.
  - exact (proj1 (Hx [56] 40 [32; 64] eq_refl)).
  - exact (proj2 (proj2 (Hx [56; 40; 32] 64 [] eq_refl))).
Defined.
