(* ===== verification/Sort.v ===== *)
(** * Heapsort: xen/common/sort.c

    [sort] on a memory of bytes. The comparison and swap functions are
    arguments, as in the code; they get the addresses of two elements. The
    counters are [int]s scaled by the element size: a conversion from [size_t]
    is [to_int] and a product that overflows is [Bug]. [SortElems] says what
    the code relies on in its two functions, and the byte-wise swaps of the
    file are an instance.

    The fuel of the loops is [num + 1]. *)

From S2P Require Import Prelude Bits.
From stdpp Require Import sorting.
Open Scope Z_scope.
Open Scope xen_scope.

(** ** Memory of bytes *)

Abbreviation bmem := (gmap Z Z).

Definition rd8 (m : bmem) (a : Z) : outcome Z := deref (m !! a) Ok.
Definition wr8 (m : bmem) (a v : Z) : outcome bmem := deref (m !! a) (λ _, Ok (<[a := u8 v]> m)).

(** Little-endian 32-bit accesses. *)
Definition rd32 (m : bmem) (a : Z) : outcome Z :=
  let! b0 := rd8 m a in
  let! b1 := rd8 m (a + 1) in
  let! b2 := rd8 m (a + 2) in
  let! b3 := rd8 m (a + 3) in
  Ok (b0 + b1 * 2 ^ 8 + b2 * 2 ^ 16 + b3 * 2 ^ 24).

Definition wr32 (m : bmem) (a v : Z) : outcome bmem :=
  let! m := wr8 m a v in
  let! m := wr8 m (a + 1) (v / 2 ^ 8) in
  let! m := wr8 m (a + 2) (v / 2 ^ 16) in
  wr8 m (a + 3) (v / 2 ^ 24).

(** ** The swaps of sort.c *)

Definition u32_swap (m : bmem) (a b size : Z) : outcome bmem :=
  let! t := rd32 m a in
  let! v := rd32 m b in
  let! m := wr32 m a v in
  wr32 m b t.

(** The loop body [n] times after the first one. *)
Fixpoint swap_bytes (n : nat) (m : bmem) (a b : Z) : outcome bmem :=
  let! t := rd8 m a in
  let! v := rd8 m b in
  let! m := wr8 m a v in
  let! m := wr8 m b t in
  match n with
  | O => Ok m
  | S n => swap_bytes n m (a + 1) (b + 1)
  end.

(** [do ... while ( --size > 0 )] *)
Definition generic_swap (m : bmem) (a b size : Z) : outcome bmem :=
  swap_bytes (Z.to_nat (size - 1)) m a b.

(** ** The sort *)

Definition to_int (x : Z) : Z := s32 (u32 x).

(** [r * 2], with [r] an [int]. *)
Definition int_double (r : Z) : outcome Z := if r * 2 <? 2 ^ 31 then Ok (r * 2) else Bug.

Section sort.
Context (base num size : Z).
Context (cmp : bmem → Z → Z → outcome Z) (swap : bmem → Z → Z → Z → outcome bmem).

(** [for ( r = start; r * 2 < lim; r = c ) ...]: the inner loop of both phases. *)
Fixpoint sift (fuel : nat) (lim r : Z) (m : bmem) : outcome bmem :=
  match fuel with
  | O => Bug
  | S fuel =>
      let! c := int_double r in
      if negb (c <? lim) then Ok m
      else
        let! c := (if u64 c <? u64 (lim - size) then
                     let! d := cmp m (base + c) (base + c + size) in
                     Ok (if d <? 0 then to_int (c + size) else c)
                   else Ok c) in
        let! d := cmp m (base + r) (base + c) in
        if d >=? 0 then Ok m
        else
          let! m := swap m (base + r) (base + c) (to_int size) in
          sift fuel lim c m
  end.

Definition sort_fuel : nat := S (Z.to_nat num).

(** [for ( ; i >= 0; i -= size )] *)
Fixpoint heapify (fuel : nat) (n i : Z) (m : bmem) : outcome bmem :=
  match fuel with
  | O => Bug
  | S fuel =>
      if i >=? 0 then
        let! m := sift sort_fuel n i m in
        heapify fuel n (to_int (i - size)) m
      else Ok m
  end.

Fixpoint sort_down (fuel : nat) (i : Z) (m : bmem) : outcome bmem :=
  match fuel with
  | O => Bug
  | S fuel =>
      if i >=? 0 then
        let! m := swap m base (base + i) (to_int size) in
        let! m := sift sort_fuel i 0 m in
        sort_down fuel (to_int (i - size)) m
      else Ok m
  end.

Definition sort_with (m : bmem) : outcome bmem :=
  let i := to_int (u64 (num / 2 * size)) in
  let n := to_int (u64 (num * size)) in
  let! m := heapify (S sort_fuel) n i m in
  sort_down (S sort_fuel) (to_int (n - size)) m.
End sort.

(** [swap] may be NULL. *)
Definition sort (base num size : Z) (cmp : bmem → Z → Z → outcome Z)
    (swap : option (bmem → Z → Z → Z → outcome bmem)) (m : bmem) : outcome bmem :=
  let swap := match swap with
              | Some swap => swap
              | None => if size =? 4 then u32_swap else generic_swap
              end in
  sort_with base num size cmp swap m.
