(* ===== verification/SortProps.v ===== *)
(** * Heapsort: what it computes

    [SortElems] is the interface between [sort] and the functions it is given;
    against it, [sort_with] sorts. Children of position [k] are [2k] and
    [2k + 1] in the code, so that position 0 has the one child 1. *)

From stdpp Require Import sorting.
From S2P Require Import Prelude Bits Sort.
Open Scope Z_scope.
Open Scope xen_scope.

(** ** The interface

    In the memories [se_ok], the element at index [k] has the value [se_elt];
    [cmp] computes [se_key], which orders values, and [swap] exchanges two
    elements. *)
Class SortElems (base num size : Z) (cmp : bmem → Z → Z → outcome Z)
    (swap : bmem → Z → Z → Z → outcome bmem) (A : Type) := {
  se_ok : bmem → Prop;
  se_elt : bmem → Z → A;
  se_key : A → A → Z;
  se_cmp m i j : se_ok m → 0 ≤ i < num → 0 ≤ j < num →
    cmp m (base + i * size) (base + j * size) = Ok (se_key (se_elt m i) (se_elt m j));
  se_swap m i j : se_ok m → 0 ≤ i < num → 0 ≤ j < num →
    ∃ m', swap m (base + i * size) (base + j * size) size = Ok m' ∧ se_ok m' ∧
      ∀ k, 0 ≤ k < num →
        se_elt m' k = if decide (k = i) then se_elt m j else if decide (k = j) then se_elt m i else se_elt m k;
  se_refl a : 0 ≤ se_key a a;
  se_trans a b c : 0 ≤ se_key a b → 0 ≤ se_key b c → 0 ≤ se_key a c;
  se_total a b : se_key a b < 0 → 0 ≤ se_key b a;
}.

(** Linear arithmetic with halves. *)
Ltac dlia := Z.to_euclidean_division_equations; lia.

(** ** Exchanging two entries of a list is a permutation *)

Lemma swap_Permutation {A} (l : list A) i j x y :
  l !! i = Some x → l !! j = Some y → <[i := y]> (<[j := x]> l) ≡ₚ l.
Proof.
  assert (Hlt : ∀ (i j : nat) x y, l !! i = Some x → l !! j = Some y → (i < j)%nat →
    <[i := y]> (<[j := x]> l) ≡ₚ l).
  { clear. intros i j x y Hi Hj Hij. apply split_at_lookup in Hj as (a & c & -> & <-).
    rewrite lookup_app_l in Hi by done. apply split_at_lookup in Hi as (a1 & b & -> & <-).
    rewrite insert_split_at. rewrite <- !app_assoc. simpl. rewrite insert_split_at.
    apply Permutation_app_head. rewrite !(Permutation_app_comm b), <- !app_comm_cons.
    apply Permutation_swap. }
  intros Hi Hj. destruct (lt_eq_lt_dec i j) as [[?| ->]|?]; [by apply Hlt| |].
  - rewrite Hi in Hj. injection Hj as ->. by rewrite list_insert_insert_eq, list_insert_id.
  - rewrite list_insert_insert_ne by lia. by apply Hlt.
Qed.

Lemma sorted_of_lookup {A} (R : A → A → Prop) (l : list A) :
  (∀ i j x y, (i < j)%nat → l !! i = Some x → l !! j = Some y → R x y) → StronglySorted R l.
Proof.
  induction l as [|x l IH]; intros H; [constructor|]. apply StronglySorted_cons. split.
  - apply Forall_lookup. intros i y Hy. apply (H 0%nat (S i)); [lia|done|done].
  - apply IH. intros i j y z Hij Hy Hz. apply (H (S i) (S j)); [lia|done|done].
Qed.

Lemma sorted_lookup {A} (R : A → A → Prop) (l : list A) i j x y :
  StronglySorted R l → (i < j)%nat → l !! i = Some x → l !! j = Some y → R x y.
Proof.
  intros Hs. revert i j. induction Hs as [|z l Hs IH Hz]; intros i j Hij; [done|].
  destruct i as [|i], j as [|j]; simpl; try lia.
  - intros [= <-] Hy. eapply Forall_lookup_1; eauto.
  - apply IH. lia.
Qed.

Lemma sorted_impl {A} (R R' : A → A → Prop) l :
  (∀ x y, R x y → R' x y) → StronglySorted R l → StronglySorted R' l.
Proof. intros H. induction 1; constructor; [done|]. eapply Forall_impl; eauto. Qed.

Section elems.
Context {base num size : Z} {cmp : bmem → Z → Z → outcome Z}.
Context {swap : bmem → Z → Z → Z → outcome bmem} {A : Type}.
Context `{!SortElems base num size cmp swap A}.
Hypothesis Hnum : 0 ≤ num.
Hypothesis Hsize : 0 < size.
Hypothesis Hmax : num * size < 2 ^ 30.

Definition ge (a b : A) : Prop := 0 ≤ se_key a b.

(** The values of all elements. *)
Definition elts (m : bmem) : list A := se_elt m <$> seqZ 0 num.

Lemma lookup_elts m (i : nat) : Z.of_nat i < num → elts m !! i = Some (se_elt m (Z.of_nat i)).
Proof.
  intros Hi. unfold elts. rewrite list_lookup_fmap, lookup_seqZ_lt by lia. done.
Qed.

Lemma length_elts m : length (elts m) = Z.to_nat num.
Proof. unfold elts. by rewrite length_fmap, length_seqZ. Qed.

(** What every step of the sort does: elements from [lim] on stay, the others
    are moved among themselves. *)
Definition moved (lim : Z) (m m' : bmem) : Prop :=
  elts m' ≡ₚ elts m ∧
  (∀ k, lim ≤ k < num → se_elt m' k = se_elt m k) ∧
  (∀ k, 0 ≤ k < lim → k < num → ∃ j, 0 ≤ j < lim ∧ j < num ∧ se_elt m' k = se_elt m j).

Lemma same_elems_refl lim m : moved lim m m.
Proof. split_and!; [done|done|]. intros k ? ?. exists k. done. Qed.

Lemma same_elems_trans lim m m1 m2 : moved lim m m1 → moved lim m1 m2 → moved lim m m2.
Proof.
  intros (P1 & S1 & M1) (P2 & S2 & M2). split_and!.
  - by etransitivity.
  - intros k Hk. rewrite S2, S1; done.
  - intros k Hk Hk'. destruct (M2 k Hk Hk') as (j & Hj & Hj' & ->).
    destruct (M1 j Hj Hj') as (i & Hi & Hi' & ->). eauto.
Qed.

Lemma moved_mono lim lim' m m' : lim ≤ lim' → moved lim m m' → moved lim' m m'.
Proof.
  intros Hl (P & S & M). split_and!; [done|intros; apply S; lia|].
  intros k Hk Hk'. destruct (decide (k < lim)).
  - destruct (M k) as (j & ? & ? & ?); [lia..|]. exists j. split_and!; [lia..|done].
  - exists k. split_and!; [lia..|]. apply S. lia.
Qed.

Lemma swap_moved lim m i j :
  se_ok m → 0 ≤ i < num → 0 ≤ j < num → i < lim → j < lim →
  ∃ m', swap m (base + i * size) (base + j * size) size = Ok m' ∧ se_ok m' ∧ moved lim m m' ∧
    ∀ k, 0 ≤ k < num →
      se_elt m' k = if decide (k = i) then se_elt m j else if decide (k = j) then se_elt m i else se_elt m k.
Proof using Hnum.
  intros Hok Hi Hj Hil Hjl. destruct (se_swap m i j Hok Hi Hj) as (m' & E & Hok' & Hm).
  exists m'. split_and!; try done.
  assert (Hsw : elts m' = <[Z.to_nat i := se_elt m j]> (<[Z.to_nat j := se_elt m i]> (elts m))).
  { apply list_eq. intros k. destruct (decide (Z.of_nat k < num)) as [Hk|Hk].
    - rewrite lookup_elts by done. rewrite Hm by lia. destruct (decide (Z.of_nat k = i)) as [Ek|Ek].
      + replace (Z.to_nat i) with k by lia. rewrite list_lookup_insert_eq; [done|].
        rewrite length_insert, length_elts. lia.
      + rewrite list_lookup_insert_ne by lia. destruct (decide (Z.of_nat k = j)) as [Ek'|Ek'].
        * replace (Z.to_nat j) with k by lia. rewrite list_lookup_insert_eq; [done|]. rewrite length_elts. lia.
        * rewrite list_lookup_insert_ne by lia. by rewrite lookup_elts.
    - rewrite !lookup_ge_None_2; [done|..]; rewrite ?length_insert, length_elts; lia. }
  split_and!.
  - rewrite Hsw. apply swap_Permutation; rewrite lookup_elts by lia; by rewrite Z2Nat.id by lia.
  - intros k Hk. rewrite Hm by lia. by rewrite !decide_False by lia.
  - intros k Hk Hk'. rewrite Hm by lia. repeat case_decide; [exists j|exists i|exists k]; split_and!; try done; lia.
Qed.

(** ** Heaps *)

Definition heap (lo n : Z) (m : bmem) : Prop :=
  ∀ k, 1 ≤ k < n → lo ≤ k / 2 → ge (se_elt m (k / 2)) (se_elt m k).

(** A heap but for the position [r], whose element may be too small. *)
Definition almost (lo n r : Z) (m : bmem) : Prop :=
  (∀ k, 1 ≤ k < n → lo ≤ k / 2 → k / 2 ≠ r → ge (se_elt m (k / 2)) (se_elt m k)) ∧
  (∀ k, 1 ≤ k < n → k / 2 = r → 1 ≤ r → lo ≤ r / 2 → ge (se_elt m (r / 2)) (se_elt m k)).

Lemma almost_heap lo n r m :
  almost lo n r m → (∀ k, 1 ≤ k < n → k / 2 = r → ge (se_elt m r) (se_elt m k)) → heap lo n m.
Proof.
  intros [H _] Hr k Hk Hlo. destruct (decide (k / 2 = r)) as [E|E]; [rewrite E; auto|auto].
Qed.

(** The child that the code picks: the greatest. *)
Definition best_child (n r c : Z) (m : bmem) : Prop :=
  0 ≤ c < n ∧ (c = 2 * r ∨ c = 2 * r + 1) ∧
  ∀ k, 1 ≤ k < n → k / 2 = r → ge (se_elt m c) (se_elt m k).

Lemma pick_child n r m :
  se_ok m → 0 ≤ r → 2 * r < n → n ≤ num →
  ∃ c, (if u64 (r * size * 2) <? u64 (n * size - size) then
          let! d := cmp m (base + r * size * 2) (base + r * size * 2 + size) in
          Ok (if d <? 0 then to_int (r * size * 2 + size) else r * size * 2)
        else Ok (r * size * 2)) = Ok (c * size) ∧ best_child n r c m.
Proof using Hnum Hsize Hmax.
  intros Hok Hr Hn Hnum'. assert (n * size < 2 ^ 30) by nia.
  rewrite !u64_small by nia. replace (r * size * 2) with ((2 * r) * size) by lia.
  destruct (Z.ltb_spec (2 * r * size) (n * size - size)) as [Hc|Hc].
  - assert (2 * r + 1 < n) by nia.
    replace (base + 2 * r * size + size) with (base + (2 * r + 1) * size) by lia.
    rewrite se_cmp by (first [done|lia]). cbn [mbind outcome_bind].
    destruct (Z.ltb_spec (se_key (se_elt m (2 * r)) (se_elt m (2 * r + 1))) 0) as [Hk|Hk].
    + exists (2 * r + 1). split.
      { f_equal. unfold to_int. rewrite u32_small, s32_small by nia. lia. }
      split_and!; [lia..|]. intros k Hk1 Hk2. assert (k = 2 * r ∨ k = 2 * r + 1) as [-> | ->] by dlia.
      * by apply se_total.
      * apply se_refl.
    + exists (2 * r). split; [done|]. split_and!; [lia..|]. intros k Hk1 Hk2.
      assert (k = 2 * r ∨ k = 2 * r + 1) as [-> | ->] by dlia; [apply se_refl|done].
  - assert (n = 2 * r + 1) by nia. exists (2 * r). split; [done|]. split_and!; [lia..|].
    intros k Hk1 Hk2. assert (k = 2 * r) as -> by dlia. apply se_refl.
Qed.

(** One exchange moves the gap from [r] to its child [c]. *)
Lemma almost_down lo n r c m m' :
  0 ≤ lo ≤ r → n ≤ num → best_child n r c m → c ≠ r →
  almost lo n r m → ge (se_elt m c) (se_elt m r) →
  (∀ k, 0 ≤ k < num →
     se_elt m' k = if decide (k = r) then se_elt m c else if decide (k = c) then se_elt m r else se_elt m k) →
  almost lo n c m'.
Proof.
  intros Hlo Hn (Hc & Hc2 & Hbest) Hcr [H1 H2] Hge Hm'. assert (1 ≤ c ∧ c / 2 = r) as [Hc1 Hcp] by dlia.
  split.
  - intros k Hk Hlok Hkc. rewrite !Hm' by dlia. rewrite (decide_False (P:=k / 2 = c)) by done.
    destruct (decide (k / 2 = r)) as [E|E].
    + rewrite (decide_False (P:=k = r)) by dlia. case_decide; [done|]. by apply Hbest.
    + destruct (decide (k = r)) as [->|].
      * apply H2; [dlia|done|dlia|done].
      * rewrite decide_False by (intros ->; dlia). by apply H1.
  - intros k Hk Hkc _ Hl. rewrite !Hm' by dlia. rewrite Hcp, (decide_True (P:=r = r)) by done.
    rewrite !decide_False by dlia. rewrite <- Hkc. apply H1; dlia.
Qed.

Lemma sift_ok fuel lo n r m :
  se_ok m → 0 ≤ lo ≤ r → r ≤ num → n ≤ num → almost lo n r m → (Z.to_nat (num - r) < fuel)%nat →
  ∃ m', sift base size cmp swap fuel (n * size) (r * size) m = Ok m' ∧ se_ok m' ∧
    heap lo n m' ∧ moved n m m'.
Proof using Hnum Hsize Hmax.
  revert r m. induction fuel as [|fuel IH]; intros r m Hok Hlo Hr Hn Ha Hf; [lia|]. cbn [sift].
  unfold int_double. rewrite (proj2 (Z.ltb_lt _ _)) by nia. cbn [mbind outcome_bind].
  destruct (Z.ltb_spec (r * size * 2) (n * size)) as [Hlt|Hlt]; cbn [negb].
  2: { exists m. split_and!; [done|done| |apply same_elems_refl]. eapply almost_heap; [done|].
       intros k Hk E. assert (n ≤ 2 * r) by nia. dlia. }
  assert (2 * r < n) by nia. destruct (pick_child n r m Hok) as (c & -> & Hbest); [lia..|].
  cbn [mbind outcome_bind]. pose proof Hbest as (Hc & Hc2 & Hmax').
  rewrite se_cmp by (first [done|lia]). cbn [mbind outcome_bind].
  destruct (Z.geb_spec (se_key (se_elt m r) (se_elt m c)) 0) as [Hge|Hlt'].
  { exists m. split_and!; [done|done| |apply same_elems_refl]. eapply almost_heap; [done|].
    intros k Hk E. eapply se_trans; [exact Hge|]. by apply Hmax'. }
  assert (c ≠ r) by (intros ->; pose proof (se_refl (se_elt m r)); lia).
  assert (to_int size = size) as -> by (unfold to_int; rewrite u32_small, s32_small by nia; done).
  destruct (swap_moved n m r c Hok) as (m1 & -> & Hok1 & Hmv & Hm1); [lia..|]. cbn [mbind outcome_bind].
  destruct (IH c m1) as (m' & -> & Hok' & Hheap & Hmv'); [done|lia|lia|done| |lia|].
  - eapply almost_down; [exact Hlo|done|exact Hbest|done|done|by apply se_total|done].
  - exists m'. split_and!; try done. by eapply same_elems_trans.
Qed.

Hypothesis Hsize' : size < 2 ^ 31.

Lemma to_int_small x : 0 ≤ x < 2 ^ 31 → to_int x = x.
Proof using. intros. unfold to_int. by rewrite u32_small, s32_small by lia. Qed.

(** The counter of the outer loops goes down by one element. *)
Lemma to_int_pred i : 0 ≤ i ≤ num → to_int (i * size - size) = (i - 1) * size.
Proof using Hnum Hsize Hmax Hsize'.
  intros Hi. destruct (decide (i = 0)) as [->|].
  - unfold to_int, u32, s32. replace ((0 * size - size) mod 2 ^ 32) with (2 ^ 32 - size).
    + case_Z; lia.
    + apply (Z.mod_unique _ _ (-1)); lia.
  - rewrite to_int_small by nia. lia.
Qed.

Lemma heapify_ok fuel i m :
  se_ok m → -1 ≤ i ≤ num → heap (i + 1) num m → (Z.to_nat (i + 1) < fuel)%nat →
  ∃ m', heapify base num size cmp swap fuel (num * size) (i * size) m = Ok m' ∧ se_ok m' ∧
    heap 0 num m' ∧ moved num m m'.
Proof using Hnum Hsize Hmax Hsize'.
  revert i m. induction fuel as [|fuel IH]; intros i m Hok Hi Hh Hf; [lia|]. cbn [heapify].
  destruct (decide (i = -1)) as [->|Hi1].
  { rewrite Z.geb_leb, (proj2 (Z.leb_gt 0 _)) by lia. exists m. split_and!; [done|done|done|apply same_elems_refl]. }
  rewrite Z.geb_leb, (proj2 (Z.leb_le 0 _)) by nia.
  destruct (sift_ok (sort_fuel num) i num i m) as (m1 & -> & Hok1 & Hh1 & Hmv1);
    [done|lia|lia|lia| |unfold sort_fuel; lia|].
  { split; [intros k Hk Hlo Hne; apply Hh; [done|lia]|]. intros k Hk Hki Hi0 Hlo. dlia. }
  cbn [mbind outcome_bind]. rewrite to_int_pred by lia.
  destruct (IH (i - 1) m1) as (m' & -> & Hok' & Hh' & Hmv'); [done|lia| |lia|].
  - by replace (i - 1 + 1) with i by lia.
  - exists m'. split_and!; try done. by eapply same_elems_trans.
Qed.

Lemma heap_root n m k : n ≤ num → heap 0 n m → 0 ≤ k < n → ge (se_elt m 0) (se_elt m k).
Proof using.
  intros Hn Hh. induction (Z.lt_wf 0 k) as [k _ IH]. intros Hk.
  destruct (decide (k = 0)) as [->|]; [apply se_refl|].
  eapply se_trans; [apply (IH (k / 2)); dlia|]. apply Hh; dlia.
Qed.

(** The elements after [i] are in order and not below the others. *)
Definition settled (i : Z) (m : bmem) : Prop :=
  ∀ j k, 0 ≤ j ≤ k → i < k < num → ge (se_elt m k) (se_elt m j).

Lemma settled_step i m m1 m2 :
  0 ≤ i < num → heap 0 (i + 1) m → settled i m →
  (∀ k, 0 ≤ k < num →
     se_elt m1 k = if decide (k = 0) then se_elt m i else if decide (k = i) then se_elt m 0 else se_elt m k) →
  moved i m1 m2 → settled (i - 1) m2.
Proof using.
  intros Hi Hh Hs Hm1 (_ & Hst & Hmv) j k Hj Hk.
  (* every element up to [i] was one of those before *)
  assert (Hold : ∀ j, 0 ≤ j ≤ i → ∃ j', 0 ≤ j' ≤ i ∧ se_elt m2 j = se_elt m j').
  { intros j0 Hj0. assert (∃ j1, 0 ≤ j1 ≤ i ∧ se_elt m2 j0 = se_elt m1 j1) as (j1 & Hj1 & ->).
    { destruct (decide (j0 = i)) as [->|]; [exists i; split; [lia|apply Hst; lia]|].
      destruct (Hmv j0) as (j1 & ? & ? & ?); [lia..|]. exists j1. split; [lia|done]. }
    rewrite Hm1 by lia. repeat case_decide; eexists; (split; [|done]); lia. }
  rewrite (Hst k) by lia. rewrite Hm1 by lia. destruct (decide (k = i)) as [->|Hki].
  - destruct (Hold j) as (j' & Hj' & ->); [lia|].
    assert (ge (se_elt m 0) (se_elt m j')) by (apply (heap_root (i + 1)); [lia|done|lia]).
    case_decide; by subst.
  - rewrite !decide_False by lia. destruct (decide (j ≤ i)) as [Hji|Hji].
    + destruct (Hold j) as (j' & Hj' & ->); [lia|]. apply Hs; lia.
    + rewrite (Hst j) by lia. rewrite Hm1 by lia. rewrite !decide_False by lia. apply Hs; lia.
Qed.

Lemma sort_down_ok fuel i m :
  se_ok m → -1 ≤ i < num → heap 0 (i + 1) m → settled i m → (Z.to_nat (i + 1) < fuel)%nat →
  ∃ m', sort_down base num size cmp swap fuel (i * size) m = Ok m' ∧ se_ok m' ∧
    settled (-1) m' ∧ moved num m m'.
Proof using Hnum Hsize Hmax Hsize'.
  revert i m. induction fuel as [|fuel IH]; intros i m Hok Hi Hh Hs Hf; [lia|]. cbn [sort_down].
  destruct (decide (i = -1)) as [->|Hi1].
  { rewrite Z.geb_leb, (proj2 (Z.leb_gt 0 _)) by lia. exists m. split_and!; [done|done|done|apply same_elems_refl]. }
  rewrite Z.geb_leb, (proj2 (Z.leb_le 0 _)) by nia. rewrite (to_int_small size) by lia.
  destruct (swap_moved (i + 1) m 0 i Hok) as (m1 & E & Hok1 & Hmv1 & Hm1); [lia..|].
  rewrite Z.mul_0_l, Z.add_0_r in E. rewrite E. cbn [mbind outcome_bind].
  change 0 with (0 * size) at 1.
  destruct (sift_ok (sort_fuel num) 0 i 0 m1) as (m2 & -> & Hok2 & Hh2 & Hmv2);
    [done|lia|lia|lia| |unfold sort_fuel; lia|].
  { split; [|intros; lia]. intros k Hk Hlo Hne. rewrite !Hm1 by dlia. rewrite !decide_False by dlia. apply Hh; dlia. }
  cbn [mbind outcome_bind]. rewrite to_int_pred by lia.
  destruct (IH (i - 1) m2) as (m' & -> & Hok' & Hs' & Hmv'); [done|lia| |by apply (settled_step i m m1 m2); [lia|..]|lia|].
  - by replace (i - 1 + 1) with i by lia.
  - exists m'. split_and!; try done. eapply same_elems_trans; [|done].
    eapply same_elems_trans; [by eapply (moved_mono (i + 1)); [lia|]|by eapply (moved_mono i); [lia|]].
Qed.

Lemma sort_with_ok m :
  se_ok m →
  ∃ m', sort_with base num size cmp swap m = Ok m' ∧ se_ok m' ∧
    StronglySorted (λ a b, ge b a) (elts m') ∧ elts m' ≡ₚ elts m.
Proof using Hnum Hsize Hmax Hsize'.
  intros Hok. unfold sort_with.
  assert (num / 2 ≤ num) by dlia. assert (0 ≤ num / 2) by dlia.
  rewrite !u64_small, (to_int_small (num * size)), (to_int_small (num / 2 * size)) by nia.
  destruct (heapify_ok (S (sort_fuel num)) (num / 2) m) as (m1 & -> & Hok1 & Hh1 & (P1 & _ & _));
    [done|lia| |unfold sort_fuel; lia|].
  { intros k Hk Hlo. dlia. }
  cbn [mbind outcome_bind]. rewrite to_int_pred by lia.
  destruct (sort_down_ok (S (sort_fuel num)) (num - 1) m1) as (m2 & -> & Hok2 & Hs2 & (P2 & _ & _));
    [done|lia| | |unfold sort_fuel; lia|].
  { by replace (num - 1 + 1) with num by lia. }
  { intros j k Hj Hk. lia. }
  exists m2. split_and!; [done|done| |by etransitivity].
  apply sorted_of_lookup. intros i j x y Hij Hx Hy.
  assert (Hj : (j < Z.to_nat num)%nat) by (apply lookup_lt_Some in Hy; by rewrite length_elts in Hy).
  rewrite lookup_elts in Hx, Hy by lia. simplify_eq. apply Hs2; lia.
Qed.
End elems.
