(* ===== verification/SortBytes.v ===== *)
(** * Heapsort: the byte-wise swaps, and 32-bit accesses

    [generic_swap] and [u32_swap] exchange the bytes of two elements, so that
    with either of them [sort] sorts an array of elements of any size. *)

From stdpp Require Import sorting.
From S2P Require Import Prelude Bits Sort SortProps.
Open Scope Z_scope.
Open Scope xen_scope.

(** ** Bytes *)

(** The bytes from [a] on, [n] of them, are there. *)
Definition has_bytes (m : bmem) (a n : Z) : Prop :=
  ∀ x, a ≤ x < a + n → ∃ v, m !! x = Some v ∧ 0 ≤ v < 2 ^ 8.

Lemma rd8_ok m a n x : has_bytes m a n → a ≤ x < a + n → ∃ v, rd8 m x = Ok v ∧ m !! x = Some v ∧ 0 ≤ v < 2 ^ 8.
Proof. intros H Hx. destruct (H x Hx) as (v & E & ?). exists v. unfold rd8. by rewrite E. Qed.

Lemma wr8_ok m x v : is_Some (m !! x) → wr8 m x v = Ok (<[x := u8 v]> m).
Proof. intros [w E]. unfold wr8. by rewrite E. Qed.

Lemma u8_small x : 0 ≤ x < 2 ^ 8 → u8 x = x.
Proof. apply Z.mod_small. Qed.

Lemma u8_byte_range x : 0 ≤ u8 x < 2 ^ 8.
Proof. apply Z.mod_pos_bound. lia. Qed.

(** The exchange of [n] bytes at [a] with those at [b]. *)
Definition exchanged (n a b : Z) (m m' : bmem) : Prop :=
  ∀ x, m' !! x = if decide (a ≤ x < a + n) then m !! (x - a + b)
                 else if decide (b ≤ x < b + n) then m !! (x - b + a) else m !! x.

Lemma exchange_byte {A} (k : bmem → outcome A) m a b :
  has_bytes m a 1 → has_bytes m b 1 →
  ∃ m', (let! t := rd8 m a in
         let! v := rd8 m b in
         let! m := wr8 m a v in
         let! m := wr8 m b t in k m) = k m' ∧ exchanged 1 a b m m'.
Proof.
  intros Ha Hb. destruct (rd8_ok m a 1 a Ha) as (va & Ea & Ema & Hva); [lia|].
  destruct (rd8_ok m b 1 b Hb) as (vb & Eb & Emb & Hvb); [lia|].
  rewrite Ea, Eb. cbn [mbind outcome_bind].
  rewrite wr8_ok by eauto. cbn [mbind outcome_bind]. rewrite wr8_ok.
  2: { destruct (decide (a = b)) as [->|]; [by rewrite lookup_insert_eq|by rewrite lookup_insert_ne, Emb]. }
  rewrite !u8_small by done. eexists. split; [done|]. intros x.
  destruct (decide (x = b)) as [->|]; [rewrite lookup_insert_eq|rewrite lookup_insert_ne by done].
  - destruct (decide (a ≤ b < a + 1)).
    + by replace (b - a + b) with a by lia.
    + rewrite decide_True by lia. by replace (b - b + a) with a by lia.
  - destruct (decide (x = a)) as [->|]; [rewrite lookup_insert_eq|rewrite lookup_insert_ne by done].
    + rewrite decide_True by lia. by replace (a - a + b) with b by lia.
    + by rewrite !decide_False by lia.
Qed.

Lemma exchanged_bytes n a b m m' c k :
  exchanged n a b m m' → has_bytes m a n → has_bytes m b n → has_bytes m c k → has_bytes m' c k.
Proof.
  intros Hx Ha Hb Hc x Hxc. rewrite Hx. repeat case_decide; [apply Hb; lia|apply Ha; lia|by apply Hc].
Qed.

Lemma swap_bytes_ok n m a b :
  let N := Z.of_nat (S n) in
  has_bytes m a N → has_bytes m b N → a = b ∨ a + N ≤ b ∨ b + N ≤ a →
  ∃ m', swap_bytes n m a b = Ok m' ∧ exchanged N a b m m'.
Proof.
  revert m a b. induction n as [|n IH]; intros m a b N Ha Hb Hd; subst N; cbn [swap_bytes].
  - destruct (exchange_byte Ok m a b Ha Hb) as (m' & -> & H'). eauto.
  - assert (Ha1 : has_bytes m a 1) by (intros x ?; apply Ha; lia).
    assert (Hb1 : has_bytes m b 1) by (intros x ?; apply Hb; lia).
    destruct (exchange_byte (λ m, swap_bytes n m (a + 1) (b + 1)) m a b Ha1 Hb1) as (m1 & -> & H1).
    destruct (IH m1 (a + 1) (b + 1)) as (m' & -> & H').
    + eapply exchanged_bytes; [done..|]. intros x ?. apply Ha. lia.
    + eapply exchanged_bytes; [done..|]. intros x ?. apply Hb. lia.
    + lia.
    + exists m'. split; [done|]. intros x. rewrite H', !H1.
      repeat case_decide; try lia; f_equal; lia.
Qed.

(** ** 32-bit accesses *)

Definition byte_of (v k : Z) : Z := u8 (v / 2 ^ (8 * k)).

Lemma rd32_ok m a :
  has_bytes m a 4 → ∃ v, rd32 m a = Ok v ∧ 0 ≤ v < 2 ^ 32 ∧
    ∀ k, 0 ≤ k < 4 → m !! (a + k) = Some (byte_of v k).
Proof.
  intros H. destruct (rd8_ok m a 4 a H) as (b0 & E0 & M0 & H0); [lia|].
  destruct (rd8_ok m a 4 (a + 1) H) as (b1 & E1 & M1 & H1); [lia|].
  destruct (rd8_ok m a 4 (a + 2) H) as (b2 & E2 & M2 & H2); [lia|].
  destruct (rd8_ok m a 4 (a + 3) H) as (b3 & E3 & M3 & H3); [lia|].
  unfold rd32. rewrite E0, E1, E2, E3. cbn [mbind outcome_bind]. eexists. split_and!; [done|lia|lia|].
  intros k Hk. unfold byte_of, u8.
  assert (k = 0 ∨ k = 1 ∨ k = 2 ∨ k = 3) as [-> |[-> |[-> | ->]]] by lia.
  - rewrite Z.add_0_r, M0. f_equal. simpl (2 ^ _). dlia.
  - rewrite M1. f_equal. simpl (2 ^ _). dlia.
  - rewrite M2. f_equal. simpl (2 ^ _). dlia.
  - rewrite M3. f_equal. simpl (2 ^ _). dlia.
Qed.

Lemma wr32_ok m a v :
  has_bytes m a 4 → ∃ m', wr32 m a v = Ok m' ∧
    (∀ k, 0 ≤ k < 4 → m' !! (a + k) = Some (byte_of v k)) ∧
    (∀ x, x < a ∨ a + 4 ≤ x → m' !! x = m !! x).
Proof.
  intros H. unfold wr32. assert (Hs : ∀ k, 0 ≤ k < 4 → is_Some (m !! (a + k))).
  { intros k Hk. destruct (H (a + k)) as (w & -> & _); [lia|eauto]. }
  rewrite wr8_ok by (specialize (Hs 0); rewrite Z.add_0_r in Hs; apply Hs; lia). cbn [mbind outcome_bind].
  rewrite wr8_ok by (rewrite lookup_insert_ne by lia; apply Hs; lia). cbn [mbind outcome_bind].
  rewrite wr8_ok by (rewrite !lookup_insert_ne by lia; apply Hs; lia). cbn [mbind outcome_bind].
  rewrite wr8_ok by (rewrite !lookup_insert_ne by lia; apply Hs; lia).
  eexists. split_and!; [done| |].
  - intros k Hk. unfold byte_of. assert (k = 0 ∨ k = 1 ∨ k = 2 ∨ k = 3) as [-> |[-> |[-> | ->]]] by lia.
    + rewrite !lookup_insert_ne, Z.add_0_r, lookup_insert_eq by lia. simpl (2 ^ _). by rewrite Z.div_1_r.
    + by rewrite !lookup_insert_ne, lookup_insert_eq by lia.
    + by rewrite !lookup_insert_ne, lookup_insert_eq by lia.
    + by rewrite lookup_insert_eq by lia.
  - intros x Hx. by rewrite !lookup_insert_ne by lia.
Qed.

Lemma rd32_bytes m a v :
  (∀ k, 0 ≤ k < 4 → m !! (a + k) = Some (byte_of v k)) → rd32 m a = Ok (u32 v).
Proof.
  intros H. unfold rd32, rd8. rewrite <- (Z.add_0_r a) at 1. rewrite !H by lia. cbn [deref mbind outcome_bind].
  f_equal. unfold byte_of, u8, u32. simpl (2 ^ _). dlia.
Qed.

Lemma byte_of_range v k : 0 ≤ byte_of v k < 2 ^ 8.
Proof. apply u8_byte_range. Qed.

Lemma has_bytes_other m m' a n c k :
  (∀ x, x < a ∨ a + n ≤ x → m' !! x = m !! x) → has_bytes m' a n → has_bytes m c k → has_bytes m' c k.
Proof.
  intros Ho Ha Hc x Hx. destruct (decide (a ≤ x < a + n)); [by apply Ha|]. rewrite Ho by lia. by apply Hc.
Qed.

Lemma has_bytes_32 m a v :
  (∀ k, 0 ≤ k < 4 → m !! (a + k) = Some (byte_of v k)) → has_bytes m a 4.
Proof.
  intros H x Hx. exists (byte_of v (x - a)). rewrite <- H by lia. split; [f_equal; lia|apply byte_of_range].
Qed.

Lemma u32_swap_ok m a b size :
  has_bytes m a 4 → has_bytes m b 4 → a = b ∨ a + 4 ≤ b ∨ b + 4 ≤ a →
  ∃ m', u32_swap m a b size = Ok m' ∧ exchanged 4 a b m m'.
Proof.
  intros Ha Hb Hd. unfold u32_swap.
  destruct (rd32_ok m a Ha) as (va & -> & _ & Hva). destruct (rd32_ok m b Hb) as (vb & -> & _ & Hvb).
  cbn [mbind outcome_bind]. destruct (wr32_ok m a vb Ha) as (m1 & -> & H1 & H1'). cbn [mbind outcome_bind].
  assert (Hb1 : has_bytes m1 b 4).
  { eapply (has_bytes_other m m1 a 4); [done| |done]. by eapply has_bytes_32. }
  destruct (wr32_ok m1 b va Hb1) as (m2 & -> & H2 & H2'). exists m2. split; [done|]. intros x.
  destruct (decide (b ≤ x < b + 4)) as [Hxb|Hxb].
  - assert (m2 !! x = m !! (x - b + a)) as ->.
    { replace x with (b + (x - b)) at 1 by lia. rewrite H2 by lia.
      replace (x - b + a) with (a + (x - b)) by lia. by rewrite Hva by lia. }
    case_decide; [f_equal; lia|done].
  - rewrite H2' by lia. destruct (decide (a ≤ x < a + 4)); [|by apply H1'; lia].
    replace x with (a + (x - a)) at 1 by lia. rewrite H1 by lia.
    replace (x - a + b) with (b + (x - a)) by lia. by rewrite Hvb by lia.
Qed.

(** ** Arrays of elements *)

(** The [size] bytes at [a]. *)
Definition bytes (m : bmem) (size a : Z) : list Z := (λ j, default 0 (m !! (a + j))) <$> seqZ 0 size.

(** An array of [num] elements. *)
Definition array (m : bmem) (base num size : Z) : list (list Z) :=
  (λ k, bytes m size (base + k * size)) <$> seqZ 0 num.

Lemma bytes_ext m m' size a b :
  (∀ j, 0 ≤ j < size → m' !! (a + j) = m !! (b + j)) → bytes m' size a = bytes m size b.
Proof.
  intros H. unfold bytes. apply list_fmap_ext. intros i j Hj. apply lookup_seqZ in Hj as [-> Hj].
  by rewrite H by lia.
Qed.

Section byte_elems.
Context (base num size : Z) (cmp : bmem → Z → Z → outcome Z) (key : list Z → list Z → Z) (m0 : bmem).
Hypothesis Hsize : 0 < size.
Hypothesis Hcmp : ∀ m a b, has_bytes m a size → has_bytes m b size →
  cmp m a b = Ok (key (bytes m size a) (bytes m size b)).
Hypothesis Hrefl : ∀ a, 0 ≤ key a a.
Hypothesis Htrans : ∀ a b c, 0 ≤ key a b → 0 ≤ key b c → 0 ≤ key a c.
Hypothesis Htotal : ∀ a b, key a b < 0 → 0 ≤ key b a.

(** The memories during the sort: nothing outside the array has changed. *)
Definition array_ok (m : bmem) : Prop :=
  has_bytes m base (num * size) ∧ ∀ x, x < base ∨ base + num * size ≤ x → m !! x = m0 !! x.

Definition default_swap : bmem → Z → Z → Z → outcome bmem :=
  if size =? 4 then u32_swap else generic_swap.

Lemma default_swap_ok m a b :
  has_bytes m a size → has_bytes m b size → a = b ∨ a + size ≤ b ∨ b + size ≤ a →
  ∃ m', default_swap m a b size = Ok m' ∧ exchanged size a b m m'.
Proof using Hsize.
  intros Ha Hb Hd. unfold default_swap. destruct (Z.eqb_spec size 4) as [E|_].
  - rewrite E in Ha, Hb, Hd |- *. by apply u32_swap_ok.
  - unfold generic_swap. assert (E : Z.of_nat (S (Z.to_nat (size - 1))) = size) by lia.
    pose proof (swap_bytes_ok (Z.to_nat (size - 1)) m a b) as H. cbv zeta in H. rewrite E in H. by apply H.
Qed.

Lemma array_swap_ok m i j :
  array_ok m → 0 ≤ i < num → 0 ≤ j < num →
  ∃ m', default_swap m (base + i * size) (base + j * size) size = Ok m' ∧ array_ok m' ∧
    ∀ k, 0 ≤ k < num → bytes m' size (base + k * size) =
      if decide (k = i) then bytes m size (base + j * size)
      else if decide (k = j) then bytes m size (base + i * size) else bytes m size (base + k * size).
Proof using Hsize.
  intros [Hb Ho] Hi Hj. assert (Hin : ∀ k, 0 ≤ k < num → has_bytes m (base + k * size) size).
  { intros k Hk x Hx. apply Hb. nia. }
  assert (Hd : ∀ i j, i ≠ j → base + i * size + size ≤ base + j * size ∨ base + j * size + size ≤ base + i * size).
  { intros i' j' ?. destruct (decide (i' < j')); [left|right]; nia. }
  destruct (default_swap_ok m (base + i * size) (base + j * size)) as (m' & -> & Hx); [by apply Hin..| |].
  { destruct (decide (i = j)) as [->|]; [by left|right; by apply Hd]. }
  exists m'. split; [done|]. split.
  - split; [by eapply exchanged_bytes; [done|apply Hin|apply Hin|]|].
    intros x Hxo. rewrite Hx. rewrite !decide_False by nia. by apply Ho.
  - intros k Hk. repeat case_decide; apply bytes_ext; intros t Ht; rewrite Hx; subst.
    + rewrite decide_True by lia. f_equal. lia.
    + pose proof (Hd i j ltac:(done)). rewrite decide_False, decide_True by lia. f_equal. lia.
    + pose proof (Hd i k ltac:(done)). pose proof (Hd j k ltac:(done)). by rewrite !decide_False by lia.
Qed.

#[local] Lemma array_cmp_ok m i j :
  array_ok m → 0 ≤ i < num → 0 ≤ j < num →
  cmp m (base + i * size) (base + j * size) =
  Ok (key (bytes m size (base + i * size)) (bytes m size (base + j * size))).
Proof using Hcmp Hsize.
  intros [Hb _] Hi Hj. apply Hcmp; intros x Hx; apply Hb; nia.
Qed.

(** Elements of any size with a comparison of their bytes. *)
#[local] Instance byte_elems : SortElems base num size cmp default_swap (list Z) := {
  se_ok := array_ok;
  se_elt m k := bytes m size (base + k * size);
  se_key := key;
  se_cmp := array_cmp_ok;
  se_swap := array_swap_ok;
  se_refl := Hrefl;
  se_trans := Htrans;
  se_total := Htotal;
}.

Lemma sort_bytes_ok :
  0 ≤ num → num * size < 2 ^ 30 → size < 2 ^ 31 → has_bytes m0 base (num * size) →
  ∃ m', sort base num size cmp None m0 = Ok m' ∧
    StronglySorted (λ a b, 0 ≤ key b a) (array m' base num size) ∧
    array m' base num size ≡ₚ array m0 base num size ∧
    ∀ x, x < base ∨ base + num * size ≤ x → m' !! x = m0 !! x.
Proof using Hsize Hcmp Hrefl Htrans Htotal.
  intros Hn Hmax Hs Hb. destruct (sort_with_ok Hn Hsize Hmax Hs m0) as (m' & E & [Hok Ho] & Hsorted & HP).
  { by split. }
  exists m'. split_and!; [exact E|exact Hsorted|exact HP|exact Ho].
Qed.
End byte_elems.

(** ** The properties *)

(** C19: [sort] with no swap function of the caller's sorts an array of elements
    of any size, for every comparison that orders the elements by their bytes
    (any preorder): it returns, the elements are a permutation of those before
    and ascending, and no byte outside the array has changed. The array is
    smaller than 2^30 bytes, so that the [int] counters do not overflow. *)
Theorem sort_correct base num size cmp key m0 :
  0 < size < 2 ^ 31 → 0 ≤ num → num * size < 2 ^ 30 →
  (∀ m a b, has_bytes m a size → has_bytes m b size →
     cmp m a b = Ok (key (bytes m size a) (bytes m size b))) →
  (∀ a, 0 ≤ key a a) → (∀ a b c, 0 ≤ key a b → 0 ≤ key b c → 0 ≤ key a c) →
  (∀ a b, key a b < 0 → 0 ≤ key b a) →
  has_bytes m0 base (num * size) →
  ∃ m', sort base num size cmp None m0 = Ok m' ∧
    StronglySorted (λ a b, 0 ≤ key b a) (array m' base num size) ∧
    array m' base num size ≡ₚ array m0 base num size ∧
    ∀ x, x < base ∨ base + num * size ≤ x → m' !! x = m0 !! x.
Proof.
  intros [Hs Hs'] Hn Hmax Hcmp Hr Ht Htot Hb.
  by apply (sort_bytes_ok base num size cmp key m0 Hs Hcmp Hr Ht Htot).
Qed.

(** Five elements of three bytes, compared by their first byte. *)
Definition demo_key (a b : list Z) : Z := default 0 (head a) - default 0 (head b).
Definition demo_cmp (m : bmem) (a b : Z) : outcome Z :=
  let! x := rd8 m a in let! y := rd8 m b in Ok (x - y).
Definition demo_bytes : list Z := [7; 0; 1; 3; 0; 2; 9; 0; 3; 3; 0; 4; 1; 0; 5].
Definition demo_array : bmem := list_to_map (zip (seqZ 1000 15) demo_bytes).
Definition demo_sorted : list (list Z) := [[1; 0; 5]; [3; 0; 2]; [3; 0; 4]; [7; 0; 1]; [9; 0; 3]].

Lemma demo_cmp_ok m a b :
  has_bytes m a 3 → has_bytes m b 3 → demo_cmp m a b = Ok (demo_key (bytes m 3 a) (bytes m 3 b)).
Proof.
  intros Ha Hb. unfold demo_cmp, demo_key.
  destruct (rd8_ok m a 3 a Ha) as (x & -> & Ex & _); [lia|].
  destruct (rd8_ok m b 3 b Hb) as (y & -> & Ey & _); [lia|]. cbn [mbind outcome_bind].
  unfold bytes. simpl. by rewrite !Z.add_0_r, Ex, Ey.
Qed.

Definition demo_sort_test : bool :=
  match sort 1000 5 3 demo_cmp None demo_array with
  | Ok m' => bool_decide (array m' 1000 5 3 = demo_sorted)
  | Bug => false
  end.

Lemma sort_correct_witness :
  ∃ m', sort 1000 5 3 demo_cmp None demo_array = Ok m' ∧ array m' 1000 5 3 = demo_sorted ∧
    StronglySorted (λ a b, 0 ≤ demo_key b a) demo_sorted ∧ demo_sorted ≡ₚ array demo_array 1000 5 3.
Proof.
  destruct (sort_correct 1000 5 3 demo_cmp demo_key demo_array) as (m' & E & Hs & Hp & _);
    [lia|lia|lia|exact demo_cmp_ok|unfold demo_key; lia|unfold demo_key; lia|unfold demo_key; lia| |].
  { intros x Hx. assert (Hall : forallb (λ x, match demo_array !! x with
      | Some v => bool_decide (0 ≤ v < 2 ^ 8) | None => false end) (seqZ 1000 15) = true) by (vm_compute; reflexivity).
    rewrite forallb_forall in Hall. specialize (Hall x). rewrite <- list_elem_of_In in Hall.
    rewrite elem_of_seqZ in Hall. specialize (Hall Hx). destruct (demo_array !! x) as [v|]; [|done].
    apply bool_decide_eq_true in Hall. eauto. }
  assert (Ht : demo_sort_test = true) by (vm_compute; reflexivity). unfold demo_sort_test in Ht.
  rewrite E in Ht. apply bool_decide_eq_true in Ht. exists m'. rewrite Ht in Hs, Hp.
  split; [exact E|]. split; [exact Ht|]. split; [exact Hs|exact Hp].
Defined.
