(* ===== verification/Extable.v ===== *)
(** * The exception tables: xen/arch/x86/extable.c

    An entry gives the address of an instruction that may fault and the
    address to continue at, each as a 32-bit offset from the place it is stored
    at (the 64-bit build). The tables are sorted once at boot, with a swap that
    corrects the offsets, and searched by bisection at a fault. The bounds of
    the tables, which the linker sets, are arguments. *)

From stdpp Require Import sorting.
From S2P Require Import Prelude Bits Sort SortProps SortBytes.
Open Scope Z_scope.
Open Scope xen_scope.

(** [sizeof(struct exception_table_entry)]: two [s32] fields. *)
Definition entry_size : Z := 8.

(** Conversion of an [unsigned long] to [long]. *)
Definition s64 (x : Z) : Z := if x <? 2 ^ 63 then x else x - 2 ^ 64.

Definition rd_s32 (m : bmem) (a : Z) : outcome Z := let! v := rd32 m a in Ok (s32 v).

Definition ex_addr (m : bmem) (x : Z) : outcome Z := let! v := rd_s32 m x in Ok (u64 (x + v)).
Definition ex_cont (m : bmem) (x : Z) : outcome Z := let! v := rd_s32 m (x + 4) in Ok (u64 (x + 4 + v)).

Definition cmp_ex (m : bmem) (a b : Z) : outcome Z :=
  let! lip := ex_addr m a in
  let! rip := ex_addr m b in
  Ok (if lip >? rip then 1 else if lip <? rip then -1 else 0).

Definition swap_ex (m : bmem) (a b size : Z) : outcome bmem :=
  let delta := b - a in
  let! tmp_addr := rd_s32 m a in
  let! tmp_cont := rd_s32 m (a + 4) in
  let! r_addr := rd_s32 m b in
  let! m := wr32 m a (r_addr + delta) in
  let! r_cont := rd_s32 m (b + 4) in
  let! m := wr32 m (a + 4) (r_cont + delta) in
  let! m := wr32 m b (tmp_addr - delta) in
  wr32 m (b + 4) (tmp_cont - delta).

Definition sort_exception_tables (start stop pre_start pre_stop : Z) (m : bmem) : outcome bmem :=
  let! m := sort start ((stop - start) / entry_size) entry_size cmp_ex (Some swap_ex) m in
  sort pre_start ((pre_stop - pre_start) / entry_size) entry_size cmp_ex (Some swap_ex) m.

Fixpoint search_one_table (fuel : nat) (m : bmem) (first last value : Z) : outcome Z :=
  match fuel with
  | O => Bug
  | S fuel =>
      if first <=? last then
        let mid := (last - first) / entry_size / 2 * entry_size + first in
        let! ip := ex_addr m mid in
        let diff := s64 (u64 (ip - value)) in
        if diff =? 0 then ex_cont m mid
        else if diff <? 0 then search_one_table fuel m (mid + entry_size) last value
        else search_one_table fuel m first (mid - entry_size) value
      else Ok 0
  end.

(** The fuel is one more than the entries. *)
Definition search_fuel (start stop : Z) : nat := S (Z.to_nat ((stop - start) / entry_size)).

Definition search_exception_table (start stop addr : Z) (m : bmem) : outcome Z :=
  search_one_table (search_fuel start stop) m start (stop - entry_size) addr.

(** The search at a fault taken before the stack is set up; [eip] is the field
    of [regs]. The message and the counter are left out. *)
Definition search_pre_exception_table (pre_start pre_stop eip : Z) (m : bmem) : outcome Z :=
  let addr := u64 eip in
  search_one_table (search_fuel pre_start pre_stop) m pre_start (pre_stop - entry_size) addr.
