(* ===== verification/ExtableProps.v ===== *)
(** * The exception tables: sorting and searching find the fixups

    The table in memory stands for a list of pairs, an instruction and its
    fixup. [swap_ex] exchanges two pairs, so [cmp_ex] and [swap_ex] are an
    instance of [SortElems], and bisection on the sorted table finds the pair
    of an instruction. *)

From stdpp Require Import sorting.
From S2P Require Import Prelude Bits Sort SortProps SortBytes Extable.
Open Scope Z_scope.
Open Scope xen_scope.

(** ** Offsets and targets *)

Definition off (m : bmem) (a : Z) : Z := match rd_s32 m a with Ok v => v | Bug => 0 end.

(** The address that the field at [a] stands for. *)
Definition target (m : bmem) (a : Z) : Z := a + off m a.

Lemma s32_u32 v : - 2 ^ 31 ≤ v < 2 ^ 31 → s32 (u32 v) = v.
Proof.
  intros Hv. unfold s32, u32. destruct (decide (0 ≤ v)).
  - rewrite Z.mod_small by lia. case_Z; lia.
  - replace (v mod 2 ^ 32) with (v + 2 ^ 32) by (apply (Z.mod_unique _ _ (-1)); lia). case_Z; lia.
Qed.

Lemma rd_s32_ok m a : has_bytes m a 4 → rd_s32 m a = Ok (off m a) ∧ - 2 ^ 31 ≤ off m a < 2 ^ 31.
Proof.
  intros H. unfold off, rd_s32. destruct (rd32_ok m a H) as (v & -> & Hv & _). cbn [mbind outcome_bind].
  split; [done|]. unfold s32. case_Z; lia.
Qed.

Lemma off_ext m m' a : (∀ x, a ≤ x < a + 4 → m' !! x = m !! x) → off m' a = off m a.
Proof. intros H. unfold off, rd_s32, rd32, rd8. by rewrite !H by lia. Qed.

(** A write of an offset. *)
Lemma wr_off m a v :
  has_bytes m a 4 → ∃ m', wr32 m a v = Ok m' ∧ (- 2 ^ 31 ≤ v < 2 ^ 31 → off m' a = v) ∧
    (∀ x, x < a ∨ a + 4 ≤ x → m' !! x = m !! x) ∧ (∀ c k, has_bytes m c k → has_bytes m' c k) ∧
    (∀ c, c + 4 ≤ a ∨ a + 4 ≤ c → off m' c = off m c).
Proof.
  intros H. destruct (wr32_ok m a v H) as (m' & E & Hw & Ho). exists m'. split; [done|]. split_and!.
  - intros Hv. unfold off, rd_s32. rewrite (rd32_bytes m' a v Hw). cbn [mbind outcome_bind]. by apply s32_u32.
  - done.
  - intros c k. apply (has_bytes_other m m' a 4); [done|]. by eapply has_bytes_32.
  - intros c Hc. apply off_ext. intros x Hx. apply Ho. lia.
Qed.

(** ** The swap *)

Section swap.
Context (m : bmem) (a b : Z).
Hypothesis Ha : has_bytes m a 8.
Hypothesis Hb : has_bytes m b 8.
Hypothesis Hd : a = b ∨ a + 8 ≤ b ∨ b + 8 ≤ a.
(** The offsets stay representable. *)
Hypothesis Hra : - 2 ^ 31 ≤ off m b + (b - a) < 2 ^ 31.
Hypothesis Hrc : - 2 ^ 31 ≤ off m (b + 4) + (b - a) < 2 ^ 31.
Hypothesis Hla : - 2 ^ 31 ≤ off m a - (b - a) < 2 ^ 31.
Hypothesis Hlc : - 2 ^ 31 ≤ off m (a + 4) - (b - a) < 2 ^ 31.

Lemma swap_ex_ok size :
  ∃ m', swap_ex m a b size = Ok m' ∧
    target m' a = target m b ∧ target m' (a + 4) = target m (b + 4) ∧
    target m' b = target m a ∧ target m' (b + 4) = target m (a + 4) ∧
    (∀ x, (x < a ∨ a + 8 ≤ x) → (x < b ∨ b + 8 ≤ x) → m' !! x = m !! x) ∧
    (∀ c k, has_bytes m c k → has_bytes m' c k).
Proof using Ha Hb Hd Hra Hrc Hla Hlc.
  assert (Hw : ∀ c, has_bytes m c 8 → has_bytes m c 4 ∧ has_bytes m (c + 4) 4).
  { intros c Hc. split; intros x Hx; apply Hc; lia. }
  destruct (Hw a Ha) as [Ha1 Ha2], (Hw b Hb) as [Hb1 Hb2]. unfold swap_ex.
  rewrite (proj1 (rd_s32_ok m a Ha1)). cbn [mbind outcome_bind].
  rewrite (proj1 (rd_s32_ok m (a + 4) Ha2)). cbn [mbind outcome_bind].
  rewrite (proj1 (rd_s32_ok m b Hb1)). cbn [mbind outcome_bind].
  destruct (wr_off m a (off m b + (b - a)) Ha1) as (m1 & -> & V1 & O1 & B1 & W1). specialize (V1 Hra).
  cbn [mbind outcome_bind]. rewrite (proj1 (rd_s32_ok m1 (b + 4) (B1 _ _ Hb2))). cbn [mbind outcome_bind].
  assert (E1 : off m1 (b + 4) = off m (b + 4)) by (apply W1; lia). rewrite E1.
  destruct (wr_off m1 (a + 4) (off m (b + 4) + (b - a)) (B1 _ _ Ha2)) as (m2 & -> & V2 & O2 & B2 & W2).
  specialize (V2 Hrc). cbn [mbind outcome_bind].
  destruct (wr_off m2 b (off m a - (b - a)) (B2 _ _ (B1 _ _ Hb1))) as (m3 & -> & V3 & O3 & B3 & W3).
  specialize (V3 Hla). cbn [mbind outcome_bind].
  destruct (wr_off m3 (b + 4) (off m (a + 4) - (b - a)) (B3 _ _ (B2 _ _ (B1 _ _ Hb2)))) as (m4 & -> & V4 & O4 & B4 & W4).
  specialize (V4 Hlc). exists m4. split; [done|].
  assert (off m4 b = off m a - (b - a)) by (by rewrite (W4 b) by lia).
  assert (a ≠ b → off m4 a = off m b + (b - a)).
  { intros ?. by rewrite (W4 a), (W3 a), (W2 a) by lia. }
  assert (a ≠ b → off m4 (a + 4) = off m (b + 4) + (b - a)).
  { intros ?. by rewrite (W4 (a + 4)), (W3 (a + 4)) by lia. }
  unfold target. split_and!.
  - destruct (decide (a = b)) as [<-|]; lia.
  - destruct (decide (a = b)) as [<-|]; lia.
  - lia.
  - lia.
  - intros x Hxa Hxb. rewrite O4, O3, O2, O1 by lia. done.
  - intros c k Hc. auto.
Qed.
End swap.

(** ** A table *)

Section table.
Context (base num lo : Z) (m0 : bmem).
Hypothesis Hnum : 0 ≤ num.
(** The table and all that it refers to lie within 2 GB. *)
Hypothesis Hlo : 0 ≤ lo.
Hypothesis Hhi : lo + 2 ^ 31 ≤ 2 ^ 64.
Hypothesis Hbase : lo ≤ base.
Hypothesis Hend : base + num * 8 ≤ lo + 2 ^ 31.

(** Instruction and fixup of the entry at [x]. *)
Definition entry (m : bmem) (x : Z) : Z * Z := (target m x, target m (x + 4)).

Definition in_window (x : Z) : Prop := lo ≤ x < lo + 2 ^ 31.

Definition table_ok (m : bmem) : Prop :=
  has_bytes m base (num * 8) ∧
  (∀ k, 0 ≤ k < num → in_window (target m (base + k * 8)) ∧ in_window (target m (base + k * 8 + 4))) ∧
  (∀ x, x < base ∨ base + num * 8 ≤ x → m !! x = m0 !! x).

Definition key_ex (p q : Z * Z) : Z :=
  if p.1 >? q.1 then 1 else if p.1 <? q.1 then -1 else 0.

Lemma key_ex_ge p q : 0 ≤ key_ex p q ↔ q.1 ≤ p.1.
Proof. unfold key_ex. case_Z; lia. Qed.

Lemma ex_addr_ok m k :
  table_ok m → 0 ≤ k < num → ex_addr m (base + k * 8) = Ok (target m (base + k * 8)).
Proof using Hlo Hhi.
  intros (Hb & Hw & _) Hk. unfold ex_addr. rewrite (proj1 (rd_s32_ok m (base + k * 8) ltac:(intros x ?; apply Hb; lia))).
  cbn [mbind outcome_bind]. destruct (Hw k Hk) as [[? ?] _]. unfold target in *. by rewrite u64_small by lia.
Qed.

Lemma ex_cont_ok m k :
  table_ok m → 0 ≤ k < num → ex_cont m (base + k * 8) = Ok (target m (base + k * 8 + 4)).
Proof using Hlo Hhi.
  intros (Hb & Hw & _) Hk. unfold ex_cont.
  rewrite (proj1 (rd_s32_ok m (base + k * 8 + 4) ltac:(intros x ?; apply Hb; lia))).
  cbn [mbind outcome_bind]. destruct (Hw k Hk) as [_ [? ?]]. unfold target in *. by rewrite u64_small by lia.
Qed.

Lemma table_cmp m i j :
  table_ok m → 0 ≤ i < num → 0 ≤ j < num →
  cmp_ex m (base + i * 8) (base + j * 8) = Ok (key_ex (entry m (base + i * 8)) (entry m (base + j * 8))).
Proof using Hlo Hhi.
  intros Hok Hi Hj. unfold cmp_ex. rewrite !ex_addr_ok by done. done.
Qed.

Lemma table_swap m i j :
  table_ok m → 0 ≤ i < num → 0 ≤ j < num →
  ∃ m', swap_ex m (base + i * 8) (base + j * 8) 8 = Ok m' ∧ table_ok m' ∧
    ∀ k, 0 ≤ k < num → entry m' (base + k * 8) =
      if decide (k = i) then entry m (base + j * 8)
      else if decide (k = j) then entry m (base + i * 8) else entry m (base + k * 8).
Proof using Hbase Hend.
  intros (Hb & Hw & Ho) Hi Hj. destruct (Hw i Hi) as [Wi Wi'], (Hw j Hj) as [Wj Wj']. unfold in_window in *.
  destruct (swap_ex_ok m (base + i * 8) (base + j * 8)) with (size := 8)
    as (m' & -> & T1 & T2 & T3 & T4 & Hoff & Hbytes);
    [intros x ?; apply Hb; lia|intros x ?; apply Hb; lia|lia|unfold target in *; lia..|].
  assert (Hk : ∀ k, 0 ≤ k < num → entry m' (base + k * 8) =
    if decide (k = i) then entry m (base + j * 8)
    else if decide (k = j) then entry m (base + i * 8) else entry m (base + k * 8)).
  { intros k Hk. unfold entry. repeat case_decide; subst; [congruence|congruence|].
    unfold target. rewrite !(off_ext m m'); [done|..]; intros x Hx; apply Hoff; lia. }
  exists m'. split; [done|]. split; [|done]. split_and!.
  - by apply Hbytes.
  - intros k Hk'.
    assert (∃ k', 0 ≤ k' < num ∧ entry m' (base + k * 8) = entry m (base + k' * 8)) as (k' & Hk2 & E).
    { rewrite Hk by done. repeat case_decide; eauto. }
    injection E as -> ->. by apply Hw.
  - intros x Hx. rewrite Hoff by lia. by apply Ho.
Qed.

#[local] Instance table_elems : SortElems base num entry_size cmp_ex swap_ex (Z * Z).
Proof using Hlo Hhi Hbase Hend m0.
  refine {| se_ok := table_ok; se_elt m k := entry m (base + k * 8); se_key := key_ex;
            se_cmp := table_cmp; se_swap := table_swap |}.
  - intros a. by apply key_ex_ge.
  - intros a b c. rewrite !key_ex_ge. lia.
  - intros a b. rewrite key_ex_ge. unfold key_ex. case_Z; lia.
Defined.

(** The pairs of a table, in order. *)
Definition pairs (m : bmem) : list (Z * Z) := (λ k, entry m (base + k * 8)) <$> seqZ 0 num.

Lemma sort_table_ok m :
  table_ok m → num * 8 < 2 ^ 30 →
  ∃ m', sort base num entry_size cmp_ex (Some swap_ex) m = Ok m' ∧ table_ok m' ∧
    StronglySorted (λ p q, p.1 ≤ q.1) (pairs m') ∧ pairs m' ≡ₚ pairs m.
Proof using Hnum Hlo Hhi Hbase Hend.
  intros Hok Hmax. destruct (sort_with_ok (size:=entry_size) Hnum ltac:(done) Hmax ltac:(done) m Hok)
    as (m' & E & Hok' & Hs & HP).
  exists m'. split_and!; [exact E|exact Hok'| |exact HP].
  eapply sorted_impl; [|exact Hs]. intros p q H. by apply key_ex_ge.
Qed.

(** ** The search *)

(** The difference that the search tests. *)
Lemma diff_zero ip value :
  0 ≤ ip < 2 ^ 64 → 0 ≤ value < 2 ^ 64 → s64 (u64 (ip - value)) = 0 ↔ ip = value.
Proof using.
  intros Hi Hv. unfold s64, u64. split; [|intros ->; by rewrite Z.sub_diag].
  pose proof (Z.mod_pos_bound (ip - value) (2 ^ 64) ltac:(lia)). case_Z; intros E.
  - apply Z.mod_divide in E as [q Hq]; [|lia]. assert (q = 0) by nia. lia.
  - lia.
Qed.

Lemma diff_near ip value :
  - 2 ^ 31 < ip - value < 2 ^ 31 → s64 (u64 (ip - value)) = ip - value.
Proof using.
  intros H. unfold s64, u64. destruct (decide (0 ≤ ip - value)).
  - rewrite Z.mod_small by lia. case_Z; lia.
  - replace ((ip - value) mod 2 ^ 64) with (ip - value + 2 ^ 64) by (apply (Z.mod_unique _ _ (-1)); lia).
    case_Z; lia.
Qed.

Context (m : bmem) (value : Z).
Hypothesis Hok : table_ok m.
Hypothesis Hv : 0 ≤ value < 2 ^ 64.

(** A round of the search, on indices. *)
Lemma search_round fuel f l :
  0 ≤ f → l < num → f ≤ l →
  search_one_table (S fuel) m (base + f * 8) (base + l * 8) value =
    let k := (l - f) / 2 + f in
    let diff := s64 (u64 (target m (base + k * 8) - value)) in
    if diff =? 0 then Ok (target m (base + k * 8 + 4))
    else if diff <? 0 then search_one_table fuel m (base + (k + 1) * 8) (base + l * 8) value
    else search_one_table fuel m (base + f * 8) (base + (k - 1) * 8) value.
Proof using Hok Hv Hlo Hhi.
  intros Hf Hl Hfl. cbn [search_one_table]. rewrite (proj2 (Z.leb_le _ _)) by lia. unfold entry_size.
  replace (base + l * 8 - (base + f * 8)) with ((l - f) * 8) by lia. rewrite Z.div_mul by done.
  replace ((l - f) / 2 * 8 + (base + f * 8)) with (base + ((l - f) / 2 + f) * 8) by lia.
  set (k := (l - f) / 2 + f). assert (0 ≤ k < num) by (subst k; dlia).
  rewrite ex_addr_ok by done. cbn [mbind outcome_bind]. cbv zeta. rewrite ex_cont_ok by done.
  replace (base + (k + 1) * 8) with (base + k * 8 + 8) by lia.
  by replace (base + (k - 1) * 8) with (base + k * 8 - 8) by lia.
Qed.

Lemma search_absent fuel f l :
  0 ≤ f → l < num → (∀ k, f ≤ k ≤ l → target m (base + k * 8) ≠ value) →
  (Z.to_nat (l - f + 1) < fuel)%nat →
  search_one_table fuel m (base + f * 8) (base + l * 8) value = Ok 0.
Proof using Hok Hv Hlo Hhi.
  revert f l. induction fuel as [|fuel IH]; intros f l Hf Hl Hno Hfu; [lia|].
  destruct (decide (f ≤ l)) as [Hfl|Hfl].
  2: { cbn [search_one_table]. by rewrite (proj2 (Z.leb_gt _ _)) by lia. }
  rewrite search_round by done. cbv zeta. set (k := (l - f) / 2 + f). assert (f ≤ k ≤ l) by (subst k; dlia).
  destruct Hok as (_ & Hw & _). destruct (Hw k) as [[? ?] _]; [lia|].
  destruct (Z.eqb_spec (s64 (u64 (target m (base + k * 8) - value))) 0) as [E|_].
  { destruct (Hno k); [lia|]. by apply (diff_zero (target m (base + k * 8)) value); [lia|..]. }
  case_Z; apply IH; try lia; intros; apply Hno; lia.
Qed.

Hypothesis Hsorted : ∀ j k, 0 ≤ j ≤ k → k < num → target m (base + j * 8) ≤ target m (base + k * 8).

Lemma search_present fuel f l i :
  0 ≤ f → l < num → f ≤ i ≤ l → target m (base + i * 8) = value →
  (Z.to_nat (l - f + 1) < fuel)%nat →
  ∃ k, f ≤ k ≤ l ∧ target m (base + k * 8) = value ∧
    search_one_table fuel m (base + f * 8) (base + l * 8) value = Ok (target m (base + k * 8 + 4)).
Proof using Hok Hv Hlo Hhi Hsorted.
  revert f l. induction fuel as [|fuel IH]; intros f l Hf Hl Hi Ei Hfu; [lia|].
  rewrite search_round by lia. cbv zeta. set (k := (l - f) / 2 + f). assert (f ≤ k ≤ l) by (subst k; dlia).
  destruct Hok as (_ & Hw & _). destruct (Hw k) as [[? ?] _]; [lia|]. destruct (Hw i) as [[? ?] _]; [lia|].
  rewrite diff_near by lia. destruct (Z.eqb_spec (target m (base + k * 8) - value) 0) as [E|Hne].
  { exists k. split_and!; [lia|lia|lia|done]. }
  destruct (Z.ltb_spec (target m (base + k * 8) - value) 0) as [Hlt|Hge].
  - assert (k < i).
    { destruct (decide (k < i)); [done|]. pose proof (Hsorted i k). lia. }
    destruct (IH (k + 1) l) as (j & ? & ? & ->); [lia..|]. exists j. split_and!; [lia|lia|done|done].
  - assert (i < k).
    { destruct (decide (i < k)); [done|]. pose proof (Hsorted k i). lia. }
    destruct (IH f (k - 1)) as (j & ? & ? & ->); [lia..|]. exists j. split_and!; [lia|lia|done|done].
Qed.
End table.

(** ** The whole *)

(** The fixup of an instruction in a list of pairs; 0 if it has none. *)
Fixpoint fixup (value : Z) (l : list (Z * Z)) : Z :=
  match l with
  | [] => 0
  | (ip, fx) :: l => if ip =? value then fx else fixup value l
  end.

Lemma fixup_absent value l : value ∉ l.*1 → fixup value l = 0.
Proof.
  induction l as [|[ip fx] l IH]; simpl; [done|]. intros Hn.
  rewrite (proj2 (Z.eqb_neq ip value)) by set_solver. apply IH. set_solver.
Qed.

Lemma fixup_present value fx l : NoDup l.*1 → (value, fx) ∈ l → fixup value l = fx.
Proof.
  induction l as [|[ip fy] l IH]; simpl; [by intros _ ?%elem_of_nil|].
  intros [Hn Hnd]%NoDup_cons [E|Hin]%elem_of_cons; simplify_eq; [by rewrite Z.eqb_refl|].
  rewrite (proj2 (Z.eqb_neq ip value)); [by apply IH|]. intros ->. apply Hn.
  apply list_elem_of_fmap. by exists (value, fx).
Qed.

Lemma elem_of_pairs base num m p :
  p ∈ pairs base num m ↔ ∃ k, 0 ≤ k < num ∧ p = entry m (base + k * 8).
Proof.
  unfold pairs. rewrite list_elem_of_fmap. split.
  - intros (k & -> & Hk). apply elem_of_seqZ in Hk. exists k. split; [lia|done].
  - intros (k & Hk & ->). exists k. split; [done|]. apply elem_of_seqZ. lia.
Qed.

Lemma pairs_sorted base num m :
  StronglySorted (λ p q, p.1 ≤ q.1) (pairs base num m) →
  ∀ j k, 0 ≤ j ≤ k → k < num → target m (base + j * 8) ≤ target m (base + k * 8).
Proof.
  intros Hs j k Hj Hk. destruct (decide (j = k)) as [->|]; [done|].
  assert (Hl : ∀ i, 0 ≤ i < num → pairs base num m !! Z.to_nat i = Some (entry m (base + i * 8))).
  { intros i Hi. unfold pairs. rewrite list_lookup_fmap, lookup_seqZ_lt by lia. simpl. by rewrite Z2Nat.id by lia. }
  apply (sorted_lookup _ _ (Z.to_nat j) (Z.to_nat k) _ _ Hs ltac:(lia) (Hl j ltac:(lia)) (Hl k ltac:(lia))).
Qed.

(** Searching a sorted table gives the fixup of its list of pairs. *)
Lemma search_table_ok base num lo m0 m value :
  0 ≤ num → 0 ≤ lo → lo + 2 ^ 31 ≤ 2 ^ 64 → table_ok base num lo m0 m → 0 ≤ value < 2 ^ 64 →
  StronglySorted (λ p q, p.1 ≤ q.1) (pairs base num m) → NoDup (pairs base num m).*1 →
  search_exception_table base (base + num * 8) value m = Ok (fixup value (pairs base num m)).
Proof.
  intros Hn Hlo Hhi Hok Hv Hs Hnd. unfold search_exception_table, search_fuel, entry_size.
  replace (base + num * 8 - base) with (num * 8) by lia. rewrite Z.div_mul by done.
  replace (base + num * 8 - 8) with (base + (num - 1) * 8) by lia.
  replace base with (base + 0 * 8) at 1 by lia.
  destruct (decide (value ∈ (pairs base num m).*1)) as [Hin|Hno].
  - apply list_elem_of_fmap in Hin as (p & -> & (i & Hi & ->)%elem_of_pairs).
    destruct (search_present base num lo m0 Hlo Hhi m _ Hok Hv (pairs_sorted _ _ _ Hs)
      (S (Z.to_nat num)) 0 (num - 1) i) as (k & Hk & Ek & ->); [lia..|done|lia|].
    f_equal. symmetry. apply fixup_present; [done|]. apply elem_of_pairs. exists k. split; [lia|].
    unfold entry. by rewrite Ek.
  - rewrite (search_absent base num lo m0 Hlo Hhi m value Hok Hv); [by rewrite fixup_absent|lia|lia| |lia].
    intros k Hk E. apply Hno. apply list_elem_of_fmap. exists (entry m (base + k * 8)).
    split; [done|]. apply elem_of_pairs. exists k. split; [lia|done].
Qed.

Lemma fixup_Permutation value l l' : NoDup l.*1 → l' ≡ₚ l → fixup value l' = fixup value l.
Proof.
  intros Hnd HP. assert (Hnd' : NoDup l'.*1) by (by rewrite HP).
  destruct (decide (value ∈ l.*1)) as [Hin|Hno].
  - apply list_elem_of_fmap in Hin as ([ip fx] & -> & Hin). simpl.
    rewrite (fixup_present ip fx l) by done. apply fixup_present; [done|]. by rewrite HP.
  - rewrite (fixup_absent value l) by done. apply fixup_absent. by rewrite HP.
Qed.

(** What the linker provides: a table of [num] entries at [base], within 2 GB of
    the code it refers to, which starts at [lo], with one entry per
    instruction. *)
Record table_wf (base num lo : Z) (m : bmem) : Prop := {
  tw_num : 0 ≤ num;
  tw_lo : 0 ≤ lo ∧ lo + 2 ^ 31 ≤ 2 ^ 64;
  tw_base : lo ≤ base ∧ base + num * 8 ≤ lo + 2 ^ 31;
  tw_size : num * 8 < 2 ^ 30;
  tw_bytes : has_bytes m base (num * 8);
  tw_window k : 0 ≤ k < num → in_window lo (target m (base + k * 8)) ∧ in_window lo (target m (base + k * 8 + 4));
  tw_unique : NoDup (pairs base num m).*1;
}.

Lemma table_wf_ok base num lo m : table_wf base num lo m → table_ok base num lo m m.
Proof. intros [????? Hw _]. split_and!; [done|exact Hw|done]. Qed.

(** Sorting one table, and what it leaves elsewhere. *)
Lemma sort_table_wf base num lo m :
  table_wf base num lo m →
  ∃ m', sort base ((base + num * 8 - base) / entry_size) entry_size cmp_ex (Some swap_ex) m = Ok m' ∧
    (∀ x, x < base ∨ base + num * 8 ≤ x → m' !! x = m !! x) ∧
    ∀ m2, (∀ x, base ≤ x < base + num * 8 → m2 !! x = m' !! x) →
    ∀ value, 0 ≤ value < 2 ^ 64 →
      search_exception_table base (base + num * 8) value m2 = Ok (fixup value (pairs base num m)).
Proof.
  intros Hwf. pose proof Hwf as [Hn [Hlo Hhi] [Hb He] Hsz Hby Hw Hu].
  replace (base + num * 8 - base) with (num * 8) by lia. unfold entry_size. rewrite Z.div_mul by done.
  destruct (sort_table_ok base num lo m Hn Hlo Hhi Hb He m (table_wf_ok _ _ _ _ Hwf) Hsz)
    as (m' & E & (Hby' & Hw' & Ho) & Hs & HP).
  exists m'. split; [exact E|]. split; [done|]. intros m2 H2 value Hv.
  assert (Hpairs : pairs base num m2 = pairs base num m').
  { unfold pairs. apply list_fmap_ext. intros i k Hk. apply lookup_seqZ in Hk as [-> Hk].
    unfold entry, target. rewrite !(off_ext m' m2); [done|..]; intros x Hx; apply H2; lia. }
  rewrite <- (fixup_Permutation value _ _ Hu HP), <- Hpairs.
  apply (search_table_ok base num lo m2 m2); try done.
  - split_and!; [|..|done].
    + intros x Hx. rewrite H2 by done. by apply Hby'.
    + intros k Hk. assert (E2 : entry m2 (base + k * 8) = entry m' (base + k * 8)).
      { unfold entry, target. rewrite !(off_ext m' m2); [done|..]; intros x Hx; apply H2; lia. }
      injection E2 as -> ->. by apply Hw'.
  - by rewrite Hpairs.
  - by rewrite Hpairs, HP.
Qed.

(** C20: after [sort_exception_tables], looking up an instruction in either table
    gives its fixup in the table that was linked in, and 0 when the table has
    no entry for it: the sort loses and changes no entry although the offsets
    are relative to their place, and the search needs only as many rounds as
    there are entries. *)
Theorem exception_tables_correct base num pre_base pre_num lo m :
  table_wf base num lo m → table_wf pre_base pre_num lo m →
  base + num * 8 ≤ pre_base ∨ pre_base + pre_num * 8 ≤ base →
  ∃ m', sort_exception_tables base (base + num * 8) pre_base (pre_base + pre_num * 8) m = Ok m' ∧
    ∀ value, 0 ≤ value < 2 ^ 64 →
      search_exception_table base (base + num * 8) value m' = Ok (fixup value (pairs base num m)) ∧
      search_pre_exception_table pre_base (pre_base + pre_num * 8) value m' =
        Ok (fixup value (pairs pre_base pre_num m)).
Proof.
  intros Hwf Hpre Hd. pose proof (tw_num _ _ _ _ Hwf). pose proof (tw_num _ _ _ _ Hpre).
  unfold sort_exception_tables.
  destruct (sort_table_wf _ _ _ _ Hwf) as (m1 & -> & Ho1 & Hs1). cbn [mbind outcome_bind].
  assert (Hsame : ∀ x, pre_base ≤ x < pre_base + pre_num * 8 → m1 !! x = m !! x) by (intros; apply Ho1; lia).
  assert (Hent : ∀ k, 0 ≤ k < pre_num → entry m1 (pre_base + k * 8) = entry m (pre_base + k * 8)).
  { intros k Hk. unfold entry, target. rewrite !(off_ext m m1); [done|..]; intros x Hx; apply Hsame; lia. }
  assert (Hpairs : pairs pre_base pre_num m1 = pairs pre_base pre_num m).
  { apply list_fmap_ext. intros i k Hk. apply lookup_seqZ in Hk as [-> Hk]. apply Hent. lia. }
  assert (Hpre1 : table_wf pre_base pre_num lo m1).
  { destruct Hpre as [???? Hby Hw Hu]. split; try done.
    - intros x Hx. rewrite Hsame by done. by apply Hby.
    - intros k Hk. pose proof (Hent k Hk) as E. injection E as -> ->. by apply Hw.
    - by rewrite Hpairs. }
  destruct (sort_table_wf _ _ _ _ Hpre1) as (m2 & -> & Ho2 & Hs2). exists m2. split; [done|].
  intros value Hv. split.
  - apply Hs1; [|done]. intros x Hx. apply Ho2. lia.
  - unfold search_pre_exception_table. rewrite u64_small by done. rewrite <- Hpairs. by apply Hs2.
Qed.

(** A table of three entries and one of one entry. *)
Definition word_bytes (a v : Z) : list (Z * Z) := (λ k, (a + k, byte_of v k)) <$> [0; 1; 2; 3].
Definition entry_bytes (a : Z) (p : Z * Z) : list (Z * Z) :=
  word_bytes a (p.1 - a) ++ word_bytes (a + 4) (p.2 - (a + 4)).
Definition demo_ex : bmem := list_to_map (
  entry_bytes 8589938688 (8589935200, 8589935900) ++ entry_bytes 8589938696 (8589934700, 8589935800) ++
  entry_bytes 8589938704 (8589935000, 8589935700) ++ entry_bytes 8589938752 (8589934650, 8589935600)).

Definition demo_ex_check (base num : Z) : bool :=
  forallb (λ x, match demo_ex !! x with Some v => bool_decide (0 ≤ v < 2 ^ 8) | None => false end)
    (seqZ base (num * 8)) &&
  forallb (λ k, forallb (λ x, (8589934592 <=? x) && (x <? 8589934592 + 2 ^ 31))
    [target demo_ex (base + k * 8); target demo_ex (base + k * 8 + 4)]) (seqZ 0 num) &&
  bool_decide (NoDup (pairs base num demo_ex).*1).

Lemma demo_ex_wf base num :
  0 ≤ num → num * 8 < 2 ^ 30 → 8589934592 ≤ base → base + num * 8 ≤ 8589934592 + 2 ^ 31 →
  demo_ex_check base num = true → table_wf base num 8589934592 demo_ex.
Proof.
  intros Hn Hs Hb He [[H1 H2]%andb_prop H3]%andb_prop. split; try done.
  - intros x Hx. rewrite forallb_forall in H1. specialize (H1 x). rewrite <- list_elem_of_In, elem_of_seqZ in H1.
    specialize (H1 Hx). destruct (demo_ex !! x) as [v|]; [|discriminate]. apply bool_decide_eq_true in H1. eauto.
  - intros k Hk. rewrite forallb_forall in H2. specialize (H2 k). rewrite <- list_elem_of_In, elem_of_seqZ in H2.
    specialize (H2 ltac:(lia)). cbn [forallb] in H2. b2p. unfold in_window. lia.
  - by apply bool_decide_eq_true in H3.
Qed.

Lemma exception_tables_correct_witness :
  ∃ m', sort_exception_tables 8589938688 8589938712 8589938752 8589938760 demo_ex = Ok m' ∧
    search_exception_table 8589938688 8589938712 8589935000 m' = Ok 8589935700 ∧
    search_pre_exception_table 8589938752 8589938760 77 m' = Ok 0.
Proof.
  destruct (exception_tables_correct 8589938688 3 8589938752 1 8589934592 demo_ex) as (m' & E & H').
  - apply demo_ex_wf; [lia|lia|lia|lia|vm_compute; reflexivity].
  - apply demo_ex_wf; [lia|lia|lia|lia|vm_compute; reflexivity].
  - left. lia.
  - exists m'. split; [exact E|]. destruct (H' 8589935000) as [H1 _]; [lia|].
    destruct (H' 77) as [_ H2]; [lia|]. split.
    + refine (eq_trans H1 _). f_equal.
    + refine (eq_trans H2 _). f_equal.
Defined.
