(* ===== verification/Bitmap.v ===== *)
(** * Bitmaps: xen/common/bitmap.c and xen/include/xen/bitmap.h

    A bitmap is an array of [unsigned long]s. The arrays live in a store and
    are named by their pointers, so that the operations may be given the same
    bitmap as source and destination. An access outside an array is [Bug].
    Loops over the words are structural in their number. *)

From S2P Require Import Prelude Bits.
Open Scope xen_scope.

Definition BITS_PER_LONG : Z := 64.
Definition BITS_TO_LONGS (bits : Z) : Z := (bits + BITS_PER_LONG - 1) / BITS_PER_LONG.

(** ** Words *)

Definition lnot64 (x : Z) : Z := u64 (Z.lnot x).

(** Shifts of an [unsigned long]; the processor takes the count modulo 64. *)
Definition shl64 (x n : Z) : Z := u64 (Z.shiftl x (n mod 64)).
Definition shr64 (x n : Z) : Z := Z.shiftr x (n mod 64).

Definition BITMAP_LAST_WORD_MASK (nbits : Z) : Z :=
  if negb (nbits mod BITS_PER_LONG =? 0) then u64 (shl64 1 (nbits mod BITS_PER_LONG) - 1)
  else lnot64 0.

Definition generic_hweight64 (w : Z) : Z :=
  let res := u64 (Z.land w 0x5555555555555555 + Z.land (shr64 w 1) 0x5555555555555555) in
  let res := u64 (Z.land res 0x3333333333333333 + Z.land (shr64 res 2) 0x3333333333333333) in
  let res := u64 (Z.land res 0x0F0F0F0F0F0F0F0F + Z.land (shr64 res 4) 0x0F0F0F0F0F0F0F0F) in
  let res := u64 (Z.land res 0x00FF00FF00FF00FF + Z.land (shr64 res 8) 0x00FF00FF00FF00FF) in
  let res := u64 (Z.land res 0x0000FFFF0000FFFF + Z.land (shr64 res 16) 0x0000FFFF0000FFFF) in
  u64 (Z.land res 0x00000000FFFFFFFF + Z.land (shr64 res 32) 0x00000000FFFFFFFF).

(** ** Arrays of words *)

Abbreviation wstore := (gmap Z (list Z)).

Definition ld (st : wstore) (p k : Z) : outcome Z :=
  deref (st !! p) (λ ws, if k <? 0 then Bug else deref (ws !! Z.to_nat k) Ok).

Definition sto (st : wstore) (p k v : Z) : outcome wstore :=
  deref (st !! p) (λ ws,
    if (0 <=? k) && (k <? Z.of_nat (length ws)) then Ok (<[p := <[Z.to_nat k := v]> ws]> st) else Bug).

(** [for (k = 0; k < n; ++k) if (test(k)) return ...;] *)
Fixpoint any_word (n : nat) (k : Z) (test : Z → outcome bool) : outcome bool :=
  match n with
  | O => Ok false
  | S n => let! b := test k in if (b : bool) then Ok true else any_word n (k + 1) test
  end.

(** [for (k = 0; k < n; ++k) dst[k] = f(k);] *)
Fixpoint each_word (n : nat) (k : Z) (dst : Z) (f : Z → wstore → outcome Z) (st : wstore) : outcome wstore :=
  match n with
  | O => Ok st
  | S n =>
      let! w := f k st in
      let! st := sto st dst k w in
      each_word n (k + 1) dst f st
  end.

(** [memset(&dst[from], 0, n * sizeof(unsigned long))] *)
Definition memset_words (n : Z) (from dst : Z) (st : wstore) : outcome wstore :=
  each_word (Z.to_nat n) from dst (λ _ _, Ok 0) st.

(** ** Tests *)

(** [if (bits % BITS_PER_LONG) if (w & BITMAP_LAST_WORD_MASK(bits)) return ...;] *)
Definition last_word (bits : Z) (w : Z → outcome Z) : outcome bool :=
  if negb (bits mod BITS_PER_LONG =? 0) then
    let! w := w (bits / BITS_PER_LONG) in
    Ok (negb (Z.land w (BITMAP_LAST_WORD_MASK bits) =? 0))
  else Ok false.

Definition __bitmap_empty (st : wstore) (bitmap bits : Z) : outcome Z :=
  let lim := bits / BITS_PER_LONG in
  let! b := any_word (Z.to_nat lim) 0 (λ k, let! w := ld st bitmap k in Ok (negb (w =? 0))) in
  if (b : bool) then Ok 0
  else
    let! b := last_word bits (ld st bitmap) in
    if (b : bool) then Ok 0 else Ok 1.

Definition __bitmap_full (st : wstore) (bitmap bits : Z) : outcome Z :=
  let lim := bits / BITS_PER_LONG in
  let! b := any_word (Z.to_nat lim) 0 (λ k, let! w := ld st bitmap k in Ok (negb (lnot64 w =? 0))) in
  if (b : bool) then Ok 0
  else
    let! b := last_word bits (λ k, let! w := ld st bitmap k in Ok (lnot64 w)) in
    if (b : bool) then Ok 0 else Ok 1.

Definition __bitmap_equal (st : wstore) (bitmap1 bitmap2 bits : Z) : outcome Z :=
  let lim := bits / BITS_PER_LONG in
  let! b := any_word (Z.to_nat lim) 0 (λ k,
              let! w1 := ld st bitmap1 k in let! w2 := ld st bitmap2 k in Ok (negb (w1 =? w2))) in
  if (b : bool) then Ok 0
  else
    let! b := last_word bits (λ k,
                let! w1 := ld st bitmap1 k in let! w2 := ld st bitmap2 k in Ok (Z.lxor w1 w2)) in
    if (b : bool) then Ok 0 else Ok 1.

Definition __bitmap_intersects (st : wstore) (bitmap1 bitmap2 bits : Z) : outcome Z :=
  let lim := bits / BITS_PER_LONG in
  let! b := any_word (Z.to_nat lim) 0 (λ k,
              let! w1 := ld st bitmap1 k in let! w2 := ld st bitmap2 k in Ok (negb (Z.land w1 w2 =? 0))) in
  if (b : bool) then Ok 1
  else
    let! b := last_word bits (λ k,
                let! w1 := ld st bitmap1 k in let! w2 := ld st bitmap2 k in Ok (Z.land w1 w2)) in
    if (b : bool) then Ok 1 else Ok 0.

Definition __bitmap_subset (st : wstore) (bitmap1 bitmap2 bits : Z) : outcome Z :=
  let lim := bits / BITS_PER_LONG in
  let! b := any_word (Z.to_nat lim) 0 (λ k,
              let! w1 := ld st bitmap1 k in let! w2 := ld st bitmap2 k in
              Ok (negb (Z.land w1 (lnot64 w2) =? 0))) in
  if (b : bool) then Ok 0
  else
    let! b := last_word bits (λ k,
                let! w1 := ld st bitmap1 k in let! w2 := ld st bitmap2 k in Ok (Z.land w1 (lnot64 w2))) in
    if (b : bool) then Ok 0 else Ok 1.

(** [for (k = 0; k < n; k++) w += hweight64(bitmap[k]);] *)
Fixpoint sum_weights (n : nat) (k : Z) (st : wstore) (bitmap w : Z) : outcome Z :=
  match n with
  | O => Ok w
  | S n => let! x := ld st bitmap k in sum_weights n (k + 1) st bitmap (w + generic_hweight64 x)
  end.

Definition __bitmap_weight (st : wstore) (bitmap bits : Z) : outcome Z :=
  let lim := bits / BITS_PER_LONG in
  let! w := sum_weights (Z.to_nat lim) 0 st bitmap 0 in
  if negb (bits mod BITS_PER_LONG =? 0) then
    let! x := ld st bitmap lim in
    Ok (w + generic_hweight64 (Z.land x (BITMAP_LAST_WORD_MASK bits)))
  else Ok w.

(** ** Logical operations *)

Definition __bitmap_complement (dst src bits : Z) (st : wstore) : outcome wstore :=
  let lim := bits / BITS_PER_LONG in
  let! st := each_word (Z.to_nat lim) 0 dst (λ k st, let! w := ld st src k in Ok (lnot64 w)) st in
  if negb (bits mod BITS_PER_LONG =? 0) then
    let! w := ld st src lim in
    sto st dst lim (Z.land (lnot64 w) (BITMAP_LAST_WORD_MASK bits))
  else Ok st.

Definition __bitmap_and (dst bitmap1 bitmap2 bits : Z) (st : wstore) : outcome wstore :=
  each_word (Z.to_nat (BITS_TO_LONGS bits)) 0 dst (λ k st,
    let! w1 := ld st bitmap1 k in let! w2 := ld st bitmap2 k in Ok (Z.land w1 w2)) st.

Definition __bitmap_or (dst bitmap1 bitmap2 bits : Z) (st : wstore) : outcome wstore :=
  each_word (Z.to_nat (BITS_TO_LONGS bits)) 0 dst (λ k st,
    let! w1 := ld st bitmap1 k in let! w2 := ld st bitmap2 k in Ok (Z.lor w1 w2)) st.

Definition __bitmap_xor (dst bitmap1 bitmap2 bits : Z) (st : wstore) : outcome wstore :=
  each_word (Z.to_nat (BITS_TO_LONGS bits)) 0 dst (λ k st,
    let! w1 := ld st bitmap1 k in let! w2 := ld st bitmap2 k in Ok (Z.lxor w1 w2)) st.

Definition __bitmap_andnot (dst bitmap1 bitmap2 bits : Z) (st : wstore) : outcome wstore :=
  each_word (Z.to_nat (BITS_TO_LONGS bits)) 0 dst (λ k st,
    let! w1 := ld st bitmap1 k in let! w2 := ld st bitmap2 k in Ok (Z.land w1 (lnot64 w2))) st.

(** ** Shifts *)

(** The value stored to [dst[k]] by [__bitmap_shift_right], before the last mask. *)
Definition shift_right_word (src lim left off rem mask k : Z) (st : wstore) : outcome Z :=
  let! upper := (if (rem =? 0) || (off + k + 1 >=? lim) then Ok 0
                 else
                   let! upper := ld st src (off + k + 1) in
                   Ok (if (off + k + 1 =? lim - 1) && negb (left =? 0) then Z.land upper mask else upper)) in
  let! lower := ld st src (off + k) in
  let lower := if negb (left =? 0) && (off + k =? lim - 1) then Z.land lower mask else lower in
  Ok (Z.lor (shl64 upper (BITS_PER_LONG - rem)) (shr64 lower rem)).

Definition __bitmap_shift_right (dst src shift bits : Z) (st : wstore) : outcome wstore :=
  let lim := BITS_TO_LONGS bits in
  let left := bits mod BITS_PER_LONG in
  let off := shift / BITS_PER_LONG in
  let rem := shift mod BITS_PER_LONG in
  let mask := u64 (shl64 1 left - 1) in
  let! st := each_word (Z.to_nat (lim - off)) 0 dst (λ k st,
    let! w := shift_right_word src lim left off rem mask k st in
    Ok (if negb (left =? 0) && (k =? lim - 1) then Z.land w mask else w)) st in
  if off =? 0 then Ok st else memset_words off (lim - off) dst st.

(** [for (k = n - 1; k >= 0; --k) dst[k + off] = f(k);] *)
Fixpoint each_word_down (n : nat) (off dst : Z) (f : Z → wstore → outcome Z) (st : wstore) : outcome wstore :=
  match n with
  | O => Ok st
  | S n =>
      let k := Z.of_nat n in
      let! w := f k st in
      let! st := sto st dst (k + off) w in
      each_word_down n off dst f st
  end.

Definition shift_left_word (src lim left rem k : Z) (st : wstore) : outcome Z :=
  let! lower := (if negb (rem =? 0) && (k >? 0) then ld st src (k - 1) else Ok 0) in
  let! upper := ld st src k in
  let upper := if negb (left =? 0) && (k =? lim - 1) then Z.land upper (u64 (shl64 1 left - 1)) else upper in
  Ok (Z.lor (shr64 lower (BITS_PER_LONG - rem)) (shl64 upper rem)).

Definition __bitmap_shift_left (dst src shift bits : Z) (st : wstore) : outcome wstore :=
  let lim := BITS_TO_LONGS bits in
  let left := bits mod BITS_PER_LONG in
  let off := shift / BITS_PER_LONG in
  let rem := shift mod BITS_PER_LONG in
  let! st := each_word_down (Z.to_nat (lim - off)) off dst (λ k st,
    let! w := shift_left_word src lim left rem k st in
    Ok (if negb (left =? 0) && (k + off =? lim - 1) then Z.land w (u64 (shl64 1 left - 1)) else w)) st in
  if off =? 0 then Ok st else memset_words off 0 dst st.

(** The inline versions shift a bitmap of one word themselves. *)
Definition bitmap_shift_right (dst src n nbits : Z) (st : wstore) : outcome wstore :=
  if nbits <=? BITS_PER_LONG then
    let! w := ld st src 0 in sto st dst 0 (shr64 w n)
  else __bitmap_shift_right dst src n nbits st.

Definition bitmap_shift_left (dst src n nbits : Z) (st : wstore) : outcome wstore :=
  if nbits <=? BITS_PER_LONG then
    let! w := ld st src 0 in sto st dst 0 (Z.land (shl64 w n) (BITMAP_LAST_WORD_MASK nbits))
  else __bitmap_shift_left dst src n nbits st.

(** ** Regions *)

(** [mask = 1ul << (pages - 1); mask += mask - 1;] *)
Definition region_mask (pages : Z) : Z :=
  let mask := shl64 1 (pages - 1) in u64 (mask + (mask - 1)).

(** The loop; [n] bounds the number of rounds. *)
Fixpoint find_free_loop (n : nat) (bitmap bits pages mask i : Z) (st : wstore) : outcome (Z * wstore) :=
  match n with
  | O => Bug
  | S n =>
      if i <? bits then
        let index := i / BITS_PER_LONG in
        let offset := i - index * BITS_PER_LONG in
        let! w := ld st bitmap index in
        if Z.land w (shl64 mask offset) =? 0 then
          let! st := sto st bitmap index (Z.lor w (shl64 mask offset)) in Ok (i, st)
        else find_free_loop n bitmap bits pages mask (i + pages) st
      else Ok (- ENOMEM, st)
  end.

(** [order] is below 31, so that [1 << order] is an [int]. *)
Definition bitmap_find_free_region (bitmap bits order : Z) (st : wstore) : outcome (Z * wstore) :=
  let pages := Z.shiftl 1 order in
  if pages >? BITS_PER_LONG then Ok (- EINVAL, st)
  else find_free_loop (S (Z.to_nat bits)) bitmap bits pages (region_mask pages) 0 st.

Definition bitmap_release_region (bitmap pos order : Z) (st : wstore) : outcome wstore :=
  let pages := Z.shiftl 1 order in
  let index := pos / BITS_PER_LONG in
  let offset := pos - index * BITS_PER_LONG in
  let mask := region_mask pages in
  let! w := ld st bitmap index in
  sto st bitmap index (Z.land w (lnot64 (shl64 mask offset))).

Definition bitmap_allocate_region (bitmap pos order : Z) (st : wstore) : outcome (Z * wstore) :=
  let pages := Z.shiftl 1 order in
  let index := pos / BITS_PER_LONG in
  let offset := pos - index * BITS_PER_LONG in
  BUG_ON (pages >? BITS_PER_LONG) (
  let mask := region_mask pages in
  let! w := ld st bitmap index in
  if negb (Z.land w (shl64 mask offset) =? 0) then Ok (- EBUSY, st)
  else
    let! st := sto st bitmap index (Z.lor w (shl64 mask offset)) in
    Ok (0, st)).

(** ** The inline versions of bitmap.h, for bitmaps of one word *)

Definition bitmap_empty (st : wstore) (src nbits : Z) : outcome Z :=
  if nbits <=? BITS_PER_LONG then
    let! w := ld st src 0 in Ok (if Z.land w (BITMAP_LAST_WORD_MASK nbits) =? 0 then 1 else 0)
  else __bitmap_empty st src nbits.

Definition bitmap_full (st : wstore) (src nbits : Z) : outcome Z :=
  if nbits <=? BITS_PER_LONG then
    let! w := ld st src 0 in Ok (if Z.land (lnot64 w) (BITMAP_LAST_WORD_MASK nbits) =? 0 then 1 else 0)
  else __bitmap_full st src nbits.

Definition bitmap_equal (st : wstore) (src1 src2 nbits : Z) : outcome Z :=
  if nbits <=? BITS_PER_LONG then
    let! w1 := ld st src1 0 in
    let! w2 := ld st src2 0 in
    Ok (if Z.land (Z.lxor w1 w2) (BITMAP_LAST_WORD_MASK nbits) =? 0 then 1 else 0)
  else __bitmap_equal st src1 src2 nbits.

Definition bitmap_intersects (st : wstore) (src1 src2 nbits : Z) : outcome Z :=
  if nbits <=? BITS_PER_LONG then
    let! w1 := ld st src1 0 in
    let! w2 := ld st src2 0 in
    Ok (if Z.land (Z.land w1 w2) (BITMAP_LAST_WORD_MASK nbits) =? 0 then 0 else 1)
  else __bitmap_intersects st src1 src2 nbits.

Definition bitmap_subset (st : wstore) (src1 src2 nbits : Z) : outcome Z :=
  if nbits <=? BITS_PER_LONG then
    let! w1 := ld st src1 0 in
    let! w2 := ld st src2 0 in
    Ok (if Z.land (Z.land w1 (lnot64 w2)) (BITMAP_LAST_WORD_MASK nbits) =? 0 then 1 else 0)
  else __bitmap_subset st src1 src2 nbits.

(** [memcpy(dst, src, n * sizeof(unsigned long))] *)
Definition memcpy_words (n : Z) (dst src : Z) (st : wstore) : outcome wstore :=
  each_word (Z.to_nat n) 0 dst (λ k st, ld st src k) st.

Definition bitmap_zero (dst nbits : Z) (st : wstore) : outcome wstore :=
  if nbits <=? BITS_PER_LONG then sto st dst 0 0
  else memset_words (BITS_TO_LONGS nbits) 0 dst st.

Definition bitmap_fill (dst nbits : Z) (st : wstore) : outcome wstore :=
  let nlongs := BITS_TO_LONGS nbits in
  let! st := (if nlongs >? 1 then each_word (Z.to_nat (nlongs - 1)) 0 dst (λ _ _, Ok (lnot64 0)) st
              else Ok st) in
  sto st dst (nlongs - 1) (BITMAP_LAST_WORD_MASK nbits).

Definition bitmap_copy (dst src nbits : Z) (st : wstore) : outcome wstore :=
  if nbits <=? BITS_PER_LONG then let! w := ld st src 0 in sto st dst 0 w
  else memcpy_words (BITS_TO_LONGS nbits) dst src st.

Definition bitmap_and (dst src1 src2 nbits : Z) (st : wstore) : outcome wstore :=
  if nbits <=? BITS_PER_LONG then
    let! w1 := ld st src1 0 in
    let! w2 := ld st src2 0 in
    sto st dst 0 (Z.land w1 w2)
  else __bitmap_and dst src1 src2 nbits st.

Definition bitmap_or (dst src1 src2 nbits : Z) (st : wstore) : outcome wstore :=
  if nbits <=? BITS_PER_LONG then
    let! w1 := ld st src1 0 in
    let! w2 := ld st src2 0 in
    sto st dst 0 (Z.lor w1 w2)
  else __bitmap_or dst src1 src2 nbits st.

Definition bitmap_xor (dst src1 src2 nbits : Z) (st : wstore) : outcome wstore :=
  if nbits <=? BITS_PER_LONG then
    let! w1 := ld st src1 0 in
    let! w2 := ld st src2 0 in
    sto st dst 0 (Z.lxor w1 w2)
  else __bitmap_xor dst src1 src2 nbits st.

Definition bitmap_andnot (dst src1 src2 nbits : Z) (st : wstore) : outcome wstore :=
  if nbits <=? BITS_PER_LONG then
    let! w1 := ld st src1 0 in
    let! w2 := ld st src2 0 in
    sto st dst 0 (Z.land w1 (lnot64 w2))
  else __bitmap_andnot dst src1 src2 nbits st.

Definition bitmap_complement (dst src nbits : Z) (st : wstore) : outcome wstore :=
  if nbits <=? BITS_PER_LONG then
    let! w := ld st src 0 in
    sto st dst 0 (Z.land (lnot64 w) (BITMAP_LAST_WORD_MASK nbits))
  else __bitmap_complement dst src nbits st.

Definition bitmap_weight (st : wstore) (src nbits : Z) : outcome Z := __bitmap_weight st src nbits.
