(* ===== verification/BitmapWords.v ===== *)
(** * Bitmaps: words and loops over words

    The bits of a word and of an array of words, and what the loops of
    [Bitmap] compute, in terms of bits. *)

From S2P Require Import Prelude Bits Bitmap.
Open Scope xen_scope.

Definition word_ok (w : Z) : Prop := 0 ≤ w < 2 ^ 64.

(** Linear arithmetic with words and positions in words. *)
Ltac word_lia := unfold BITS_TO_LONGS, BITS_PER_LONG in *; Z.to_euclidean_division_equations; lia.

(** ** Bits of words *)

Lemma lnot64_ok w : word_ok (lnot64 w).
Proof. apply u64_range. Qed.

Lemma shl64_ok w n : word_ok (shl64 w n).
Proof. apply u64_range. Qed.

Lemma land_ok a b : word_ok a → 0 ≤ b → word_ok (Z.land a b).
Proof.
  intros Ha Hb. split; [apply Z.land_nonneg; left; apply Ha|].
  destruct (decide (Z.land a b = 0)) as [->|]; [lia|]. apply Z.log2_lt_pow2.
  - assert (0 ≤ Z.land a b) by (apply Z.land_nonneg; left; apply Ha). lia.
  - eapply Z.le_lt_trans; [apply Z.log2_land; [apply Ha|done]|].
    apply Z.min_lt_iff. left. destruct (decide (a = 0)) as [->|]; [done|].
    apply Z.log2_lt_pow2; destruct Ha; lia.
Qed.

Lemma word_of_bits w : 0 ≤ w → (∀ n, 64 ≤ n → Z.testbit w n = false) → word_ok w.
Proof.
  intros H0 H. split; [done|]. destruct (decide (w = 0)) as [->|]; [done|]. apply Z.log2_lt_pow2; [lia|].
  destruct (decide (Z.log2 w < 64)); [done|]. exfalso.
  pose proof (Z.bit_log2 w ltac:(lia)) as E. rewrite H in E by lia. done.
Qed.

Lemma lor_ok a b : word_ok a → word_ok b → word_ok (Z.lor a b).
Proof.
  intros Ha Hb. apply word_of_bits; [apply Z.lor_nonneg; split; [apply Ha|apply Hb]|].
  intros n Hn. rewrite Z.lor_spec, !(testbit_above _ 64) by done. done.
Qed.

Lemma lxor_ok a b : word_ok a → word_ok b → word_ok (Z.lxor a b).
Proof.
  intros [Ha Ha'] [Hb Hb']. apply word_of_bits; [apply Z.lxor_nonneg; tauto|].
  intros n Hn. rewrite Z.lxor_spec, !(testbit_above _ 64) by done. done.
Qed.

Lemma shr64_ok w n : word_ok w → word_ok (shr64 w n).
Proof.
  intros [H0 H1]. unfold shr64. pose proof (Z.mod_pos_bound n 64 ltac:(lia)).
  rewrite Z.shiftr_div_pow2 by lia. assert (0 < 2 ^ (n mod 64)) by (apply Z.pow_pos_nonneg; lia).
  split; [apply Z.div_pos; lia|]. apply Z.div_lt_upper_bound; nia.
Qed.

Lemma testbit_lnot64 w n : 0 ≤ n < 64 → Z.testbit (lnot64 w) n = negb (Z.testbit w n).
Proof. intros. unfold lnot64. rewrite testbit_u64, bool_decide_true, Z.lnot_spec by lia. done. Qed.

Lemma testbit_shl64 w s n :
  word_ok w → 0 ≤ s < 64 → 0 ≤ n < 64 →
  Z.testbit (shl64 w s) n = bool_decide (s ≤ n) && Z.testbit w (n - s).
Proof.
  intros Hw Hs Hn. unfold shl64. rewrite (Z.mod_small s 64), testbit_u64, bool_decide_true by lia. simpl.
  rewrite Z.shiftl_spec by lia. case_bool_decide; [done|]. by rewrite Z.testbit_neg_r by lia.
Qed.

Lemma testbit_shr64 w s n :
  word_ok w → 0 ≤ s < 64 → 0 ≤ n < 64 →
  Z.testbit (shr64 w s) n = bool_decide (n + s < 64) && Z.testbit w (n + s).
Proof.
  intros Hw Hs Hn. unfold shr64. rewrite (Z.mod_small s 64), Z.shiftr_spec by lia.
  case_bool_decide; [done|]. by rewrite (testbit_above w 64) by (done || lia).
Qed.

(** The mask of the low [n] bits, as the code computes it. *)
Lemma low_mask n : 0 ≤ n < 64 → u64 (shl64 1 n - 1) = Z.ones n.
Proof.
  intros Hn. unfold shl64. rewrite (Z.mod_small n 64), Z.shiftl_1_l by lia.
  assert (2 ^ n < 2 ^ 64) by (apply Z.pow_lt_mono_r; lia). assert (0 < 2 ^ n) by (apply Z.pow_pos_nonneg; lia).
  rewrite !u64_small by (rewrite ?u64_small; lia). rewrite Z.ones_equiv. lia.
Qed.

Lemma testbit_ones k n : 0 ≤ k → 0 ≤ n → Z.testbit (Z.ones k) n = bool_decide (n < k).
Proof.
  intros Hk Hn. case_bool_decide; [by apply Z.ones_spec_low|apply Z.ones_spec_high; lia].
Qed.

Lemma ones_nonneg n : 0 ≤ n → 0 ≤ Z.ones n.
Proof.
  intros Hn. rewrite Z.ones_equiv. assert (0 < 2 ^ n) by (apply Z.pow_pos_nonneg; lia). lia.
Qed.

Lemma last_mask bits :
  bits mod 64 ≠ 0 → BITMAP_LAST_WORD_MASK bits = Z.ones (bits mod 64).
Proof.
  intros H. unfold BITMAP_LAST_WORD_MASK, BITS_PER_LONG. rewrite (proj2 (Z.eqb_neq _ _)) by done. simpl.
  apply low_mask. apply Z.mod_pos_bound. lia.
Qed.

(** A word is zero when all its bits are. *)
Lemma word_zero w : word_ok w → (w =? 0) = negb (existsb (Z.testbit w) (seqZ 0 64)).
Proof.
  intros Hw. destruct (existsb (Z.testbit w) (seqZ 0 64)) eqn:E; simpl.
  - apply existsb_exists in E as (n & _ & Hn). apply Z.eqb_neq. intros ->. by rewrite Z.bits_0 in Hn.
  - apply Z.eqb_eq. apply (word_ext w 0 Hw); [done|]. intros n Hn. rewrite Z.bits_0.
    destruct (Z.testbit w n) eqn:En; [|done]. rewrite <- E. symmetry. apply existsb_exists.
    exists n. split; [|done]. apply list_elem_of_In, elem_of_seqZ. lia.
Qed.

(** ** Bits of arrays *)

Definition bit (st : wstore) (p i : Z) : bool :=
  match st !! p with
  | Some ws => match ws !! Z.to_nat (i / 64) with Some w => Z.testbit w (i mod 64) | None => false end
  | None => false
  end.

(** The array [p] has at least [n] words. *)
Definition arr (st : wstore) (p n : Z) : Prop :=
  ∃ ws, st !! p = Some ws ∧ n ≤ Z.of_nat (length ws) ∧ Forall word_ok ws.

Lemma arr_mono st p n n' : n' ≤ n → arr st p n → arr st p n'.
Proof. intros H (ws & ? & ? & ?). exists ws. split_and!; try done. lia. Qed.

Lemma ld_ok st p n k :
  arr st p n → 0 ≤ k < n →
  ∃ w, ld st p k = Ok w ∧ word_ok w ∧ ∀ j, 0 ≤ j < 64 → Z.testbit w j = bit st p (64 * k + j).
Proof.
  intros (ws & E & Hl & Hw) Hk. unfold ld, bit. rewrite E. cbn [deref].
  rewrite (proj2 (Z.ltb_ge k 0)) by lia.
  destruct (lookup_lt_is_Some_2 ws (Z.to_nat k)) as [w Ew]; [lia|]. rewrite Ew. exists w. split; [done|]. split.
  - exact (Forall_lookup_1 _ _ _ _ Hw Ew).
  - intros j Hj. replace ((64 * k + j) / 64) with k by word_lia. rewrite Ew. f_equal. word_lia.
Qed.

Lemma sto_ok st p n k v :
  arr st p n → 0 ≤ k < n → word_ok v →
  ∃ st', sto st p k v = Ok st' ∧
    (∀ q i, 0 ≤ i → bit st' q i = if decide (q = p ∧ i / 64 = k) then Z.testbit v (i mod 64) else bit st q i) ∧
    (∀ q n', arr st q n' → arr st' q n').
Proof.
  intros (ws & E & Hl & Hw) Hk Hv. unfold sto. rewrite E. cbn [deref].
  rewrite (proj2 (Z.leb_le 0 k)), (proj2 (Z.ltb_lt k _)) by lia. simpl. eexists. split; [done|]. split.
  - intros q i Hi. unfold bit. destruct (decide (q = p)) as [->|Hq].
    + rewrite lookup_insert_eq, E. destruct (decide (i / 64 = k)) as [Ei|Ei].
      * rewrite decide_True by done. rewrite Ei, list_lookup_insert_eq by lia. done.
      * rewrite decide_False by (intros [_ ?]; done). rewrite list_lookup_insert_ne; [done|].
        assert (0 ≤ i / 64) by word_lia. lia.
    + rewrite lookup_insert_ne by done. by rewrite decide_False by (intros [? _]; done).
  - intros q n' (ws' & E' & Hl' & Hw'). unfold arr. destruct (decide (q = p)) as [->|Hq].
    + rewrite lookup_insert_eq. eexists. split; [done|]. rewrite length_insert. rewrite E in E'. simplify_eq.
      split; [done|]. by apply Forall_insert.
    + rewrite lookup_insert_ne by done. eauto.
Qed.

(** ** Loops that set words *)

(** The loop sets the words [k0 ... k0 + n - 1] of [dst] to the bits [target],
    provided the value of word [k] depends only on words that are not yet set. *)
Lemma each_word_ok n k0 dst f st target nw :
  arr st dst nw → 0 ≤ k0 → k0 + Z.of_nat n ≤ nw →
  (∀ k st', k0 ≤ k < k0 + Z.of_nat n →
     (∀ q i, 0 ≤ i → ¬ (q = dst ∧ k0 ≤ i / 64 < k) → bit st' q i = bit st q i) →
     (∀ q n, arr st q n → arr st' q n) →
     ∃ w, f k st' = Ok w ∧ word_ok w ∧ ∀ j, 0 ≤ j < 64 → Z.testbit w j = target (64 * k + j)) →
  ∃ st', each_word n k0 dst f st = Ok st' ∧
    (∀ q i, 0 ≤ i → bit st' q i =
       if decide (q = dst ∧ k0 ≤ i / 64 < k0 + Z.of_nat n) then target i else bit st q i) ∧
    (∀ q n, arr st q n → arr st' q n).
Proof.
  revert k0 st. induction n as [|n IH]; intros k0 st Ha Hk Hn Hf.
  { exists st. split_and!; [done| |done]. intros q i Hi. by rewrite decide_False by lia. }
  cbn [each_word]. destruct (Hf k0 st) as (w & -> & Hw & Hbits); [lia|done|done|]. cbn [mbind outcome_bind].
  destruct (sto_ok st dst nw k0 w Ha) as (st1 & -> & Hb1 & Ha1); [lia|done|]. cbn [mbind outcome_bind].
  assert (Hw1 : ∀ i, 0 ≤ i → i / 64 = k0 → Z.testbit w (i mod 64) = target i).
  { intros i Hi Ei. rewrite Hbits by word_lia. f_equal. word_lia. }
  destruct (IH (k0 + 1) st1) as (st' & -> & Hb' & Ha'); [by apply Ha1|lia|lia| |].
  - intros k st2 Hk2 Hag Harr. apply Hf; [lia| |].
    + intros q i Hi Hq. rewrite Hag; [|done|intros [E ?]; apply Hq; lia].
      rewrite Hb1 by done. rewrite decide_False; [done|]. intros [E ?]. apply Hq. lia.
    + intros q n' Hq. by apply Harr, Ha1.
  - exists st'. split_and!; [done| |].
    + intros q i Hi. rewrite Hb', Hb1 by done. destruct (decide (q = dst)) as [->|Hq].
      * destruct (decide (i / 64 = k0)) as [Ei|Ei].
        -- rewrite (decide_False (P:=dst = dst ∧ k0 + 1 ≤ i / 64 < _)) by lia.
           rewrite !decide_True by lia. auto.
        -- destruct (decide (k0 ≤ i / 64 < k0 + Z.of_nat (S n))).
           ++ rewrite decide_True by lia. by rewrite decide_True by lia.
           ++ rewrite !decide_False by lia. done.
      * by rewrite !decide_False by (intros [? _]; done).
    + intros q n' Hq. by apply Ha', Ha1.
Qed.

(** The same downwards: word [k + off] is set for [k = n - 1 ... 0]. *)
Lemma each_word_down_ok n off dst f st target nw :
  arr st dst nw → 0 ≤ off → Z.of_nat n + off ≤ nw →
  (∀ k st', 0 ≤ k < Z.of_nat n →
     (∀ q i, 0 ≤ i → ¬ (q = dst ∧ k + off < i / 64 < Z.of_nat n + off) → bit st' q i = bit st q i) →
     (∀ q n, arr st q n → arr st' q n) →
     ∃ w, f k st' = Ok w ∧ word_ok w ∧ ∀ j, 0 ≤ j < 64 → Z.testbit w j = target (64 * (k + off) + j)) →
  ∃ st', each_word_down n off dst f st = Ok st' ∧
    (∀ q i, 0 ≤ i → bit st' q i =
       if decide (q = dst ∧ off ≤ i / 64 < Z.of_nat n + off) then target i else bit st q i) ∧
    (∀ q n, arr st q n → arr st' q n).
Proof.
  revert st. induction n as [|n IH]; intros st Ha Ho Hn Hf.
  { exists st. split_and!; [done| |done]. intros q i Hi. by rewrite decide_False by lia. }
  cbn [each_word_down]. destruct (Hf (Z.of_nat n) st) as (w & -> & Hw & Hbits); [lia|done|done|].
  cbn [mbind outcome_bind].
  destruct (sto_ok st dst nw (Z.of_nat n + off) w Ha) as (st1 & -> & Hb1 & Ha1); [lia|done|]. cbn [mbind outcome_bind].
  assert (Hw1 : ∀ i, 0 ≤ i → i / 64 = Z.of_nat n + off → Z.testbit w (i mod 64) = target i).
  { intros i Hi Ei. rewrite Hbits by word_lia. f_equal. word_lia. }
  destruct (IH st1) as (st' & -> & Hb' & Ha'); [by apply Ha1|lia|lia| |].
  - intros k st2 Hk2 Hag Harr. apply Hf; [lia| |].
    + intros q i Hi Hq. rewrite Hag; [|done|intros [E ?]; apply Hq; lia].
      rewrite Hb1 by done. rewrite decide_False; [done|]. intros [E ?]. apply Hq. lia.
    + intros q n' Hq. by apply Harr, Ha1.
  - exists st'. split_and!; [done| |].
    + intros q i Hi. rewrite Hb', Hb1 by done. destruct (decide (q = dst)) as [->|Hq].
      * destruct (decide (i / 64 = Z.of_nat n + off)) as [Ei|Ei].
        -- rewrite (decide_False (P:=dst = dst ∧ off ≤ i / 64 < _)) by lia.
           rewrite !decide_True by lia. auto.
        -- destruct (decide (off ≤ i / 64 < Z.of_nat (S n) + off)).
           ++ rewrite decide_True by lia. by rewrite decide_True by lia.
           ++ rewrite !decide_False by lia. done.
      * by rewrite !decide_False by (intros [? _]; done).
    + intros q n' Hq. by apply Ha', Ha1.
Qed.

Lemma memset_words_ok n from dst st nw :
  arr st dst nw → 0 ≤ from → 0 ≤ n → from + n ≤ nw →
  ∃ st', memset_words n from dst st = Ok st' ∧
    (∀ q i, 0 ≤ i → bit st' q i = if decide (q = dst ∧ from ≤ i / 64 < from + n) then false else bit st q i) ∧
    (∀ q n, arr st q n → arr st' q n).
Proof.
  intros Ha Hf Hn Hl. unfold memset_words.
  destruct (each_word_ok (Z.to_nat n) from dst (λ _ _, Ok 0) st (λ _, false) nw) as (st' & -> & Hb & Ha'); [done|lia|lia| |].
  - intros k st' _ _ _. exists 0. split; [done|]. split; [done|]. intros j Hj. apply Z.bits_0.
  - exists st'. rewrite Z2Nat.id in Hb by lia. done.
Qed.

(** ** Loops that test words *)

Lemma any_word_ok n k0 test g :
  (∀ k, k0 ≤ k < k0 + Z.of_nat n → test k = Ok (g k)) →
  any_word n k0 test = Ok (existsb g (seqZ k0 (Z.of_nat n))).
Proof.
  revert k0. induction n as [|n IH]; intros k0 H; [done|]. cbn [any_word].
  rewrite H by lia. cbn [mbind outcome_bind]. rewrite seqZ_cons by lia. cbn [existsb].
  destruct (g k0); [done|]. simpl. rewrite (IH (k0 + 1)) by (intros; apply H; lia). f_equal.
  by replace (Z.pred (Z.of_nat (S n))) with (Z.of_nat n) by lia.
Qed.

Lemma existsb_seqZ P a n : existsb P (seqZ a n) = true ↔ ∃ k, a ≤ k < a + n ∧ P k = true.
Proof.
  rewrite existsb_exists. split.
  - intros (k & Hk & HP). apply list_elem_of_In, elem_of_seqZ in Hk. eauto.
  - intros (k & Hk & HP). exists k. split; [|done]. by apply list_elem_of_In, elem_of_seqZ.
Qed.

(** The scan that all tests share: is a bit set in one of the words [W]? *)
Lemma scan_ok {A} bits test w W (r1 r2 : A) :
  0 ≤ bits →
  (∀ k, 0 ≤ k < BITS_TO_LONGS bits → w k = Ok (W k) ∧ word_ok (W k) ∧ test k = Ok (negb (W k =? 0))) →
  (let! b := any_word (Z.to_nat (bits / BITS_PER_LONG)) 0 test in
   if (b : bool) then Ok r1
   else let! b := last_word bits w in if (b : bool) then Ok r1 else Ok r2) =
  Ok (if existsb (λ i, Z.testbit (W (i / 64)) (i mod 64)) (seqZ 0 bits) then r1 else r2).
Proof.
  intros Hb HW. assert (Hlim : 0 ≤ bits / BITS_PER_LONG) by word_lia.
  rewrite (any_word_ok _ _ _ (λ k, negb (W k =? 0))); rewrite ?Z2Nat.id by done.
  2: { intros k Hk. apply HW. word_lia. }
  cbn [mbind outcome_bind].
  set (E := existsb (λ i, Z.testbit (W (i / 64)) (i mod 64)) (seqZ 0 bits)).
  destruct (existsb (λ k, negb (W k =? 0)) (seqZ 0 (bits / BITS_PER_LONG))) eqn:E1.
  - apply existsb_seqZ in E1 as (k & Hk & Hw). destruct (HW k) as (_ & Hok & _); [word_lia|].
    rewrite word_zero, negb_involutive in Hw by done. apply existsb_seqZ in Hw as (j & Hj & Hj').
    assert (E = true) as ->; [|done]. apply existsb_seqZ. exists (64 * k + j). split; [word_lia|].
    replace ((64 * k + j) / 64) with k by word_lia. by replace ((64 * k + j) mod 64) with j by word_lia.
  - assert (Hno : ∀ k j, 0 ≤ k < bits / 64 → 0 ≤ j < 64 → Z.testbit (W k) j = false).
    { intros k j Hk Hj. destruct (Z.testbit (W k) j) eqn:Ej; [|done]. exfalso.
      assert (true = false); [|done]. rewrite <- E1. symmetry. apply existsb_seqZ. exists k. split; [done|].
      destruct (HW k) as (_ & Hok & _); [word_lia|]. rewrite word_zero, negb_involutive by done.
      apply existsb_seqZ. exists j. done. }
    unfold last_word. destruct (Z.eqb_spec (bits mod BITS_PER_LONG) 0) as [Er|Er]; cbn [negb].
    + assert (E = false) as ->; [|done]. apply not_true_iff_false. intros (i & Hi & Hi')%existsb_seqZ.
      rewrite Hno in Hi' by word_lia. done.
    + destruct (HW (bits / BITS_PER_LONG)) as (-> & Hok & _); [word_lia|]. cbn [mbind outcome_bind].
      rewrite last_mask by done. set (w0 := W (bits / BITS_PER_LONG)) in *.
      assert (Hones : 0 ≤ Z.ones (bits mod 64)) by (apply ones_nonneg; word_lia).
      rewrite word_zero, negb_involutive by (by apply land_ok).
      assert (existsb (Z.testbit (Z.land w0 (Z.ones (bits mod 64)))) (seqZ 0 64) = E) as ->; [|by destruct E].
      apply eq_true_iff_eq. subst E. rewrite !existsb_seqZ. split.
      * intros (j & Hj & Hj'). rewrite Z.land_spec, testbit_ones in Hj' by word_lia.
        apply andb_true_iff in Hj' as [Hj1 Hj2%bool_decide_eq_true].
        exists (64 * (bits / 64) + j). split; [word_lia|].
        replace ((64 * (bits / 64) + j) / 64) with (bits / 64) by word_lia.
        by replace ((64 * (bits / 64) + j) mod 64) with j by word_lia.
      * intros (i & Hi & Hi'). destruct (decide (i / 64 < bits / 64)).
        { rewrite Hno in Hi' by word_lia. done. }
        exists (i mod 64). split; [word_lia|]. rewrite Z.land_spec, testbit_ones by word_lia.
        apply andb_true_iff. split; [|apply bool_decide_eq_true; word_lia].
        subst w0. by replace (bits / BITS_PER_LONG) with (i / 64) by word_lia.
Qed.
