(* ===== verification/BitmapWeight.v ===== *)
(** * Bitmaps: counting the bits

    [generic_hweight64] adds up bits in parallel within a word; it is the number
    of bits set. The first three steps work on each byte by itself, which is
    checked for all 256 bytes; the last three add the bytes. *)

From S2P Require Import Prelude Bits Bitmap BitmapWords.
Open Scope xen_scope.

(** The number of positions from [a] on, [n] of them, where [P] holds. *)
Fixpoint count (P : Z → bool) (a : Z) (n : nat) : Z :=
  match n with O => 0 | S n => Z.b2z (P a) + count P (a + 1) n end.

Lemma count_app P a n k : count P a (n + k) = count P a n + count P (a + Z.of_nat n) k.
Proof.
  revert a. induction n as [|n IH]; intros a; simpl; [by rewrite Z.add_0_r|].
  rewrite IH. replace (a + 1 + Z.of_nat n) with (a + Z.of_nat (S n)) by lia. lia.
Qed.

Lemma count_ext P Q a b n :
  (∀ j, 0 ≤ j < Z.of_nat n → P (a + j) = Q (b + j)) → count P a n = count Q b n.
Proof.
  revert a b. induction n as [|n IH]; intros a b H; simpl; [done|]. f_equal.
  - specialize (H 0). rewrite !Z.add_0_r in H. rewrite H by lia. done.
  - apply IH. intros j Hj. specialize (H (j + 1)).
    replace (a + (j + 1)) with (a + 1 + j) in H by lia. replace (b + (j + 1)) with (b + 1 + j) in H by lia. auto with lia.
Qed.

(** ** Words as lists of bytes *)

Definition byte_ok (b : Z) : Prop := 0 ≤ b < 2 ^ 8.

Fixpoint W (l : list Z) : Z := match l with [] => 0 | b :: l => b + 2 ^ 8 * W l end.

Fixpoint bytes_of (n : nat) (w : Z) : list Z :=
  match n with O => [] | S n => w mod 2 ^ 8 :: bytes_of n (w / 2 ^ 8) end.

Lemma bytes_of_spec n w : 0 ≤ w < 2 ^ (8 * Z.of_nat n) → W (bytes_of n w) = w.
Proof.
  revert w. induction n as [|n IH]; intros w Hw; cbn [W bytes_of]; [simpl in Hw; lia|]. rewrite IH.
  - pose proof (Z.div_mod w (2 ^ 8) ltac:(lia)). lia.
  - replace (8 * Z.of_nat (S n)) with (8 + 8 * Z.of_nat n) in Hw by lia.
    rewrite Z.pow_add_r in Hw by lia. split; [apply Z.div_pos; lia|]. apply Z.div_lt_upper_bound; lia.
Qed.

Lemma bytes_of_ok n w : Forall byte_ok (bytes_of n w) ∧ length (bytes_of n w) = n.
Proof.
  revert w. induction n as [|n IH]; intros w; simpl; [done|]. destruct (IH (w / 2 ^ 8)) as [? ->]. split; [|done].
  constructor; [|done]. apply Z.mod_pos_bound. lia.
Qed.

Lemma W_nonneg l : Forall byte_ok l → 0 ≤ W l.
Proof. induction 1 as [|b l [??] _ IH]; cbn [W]; lia. Qed.

Lemma W_bound l : Forall byte_ok l → W l < 2 ^ (8 * Z.of_nat (length l)).
Proof.
  induction 1 as [|b l [??] _ IH]; cbn [W length]; [done|].
  replace (8 * Z.of_nat (S (length l))) with (8 + 8 * Z.of_nat (length l)) by lia.
  rewrite Z.pow_add_r by lia. lia.
Qed.

Lemma testbit_byte_cons b x n :
  byte_ok b → 0 ≤ x → 0 ≤ n → Z.testbit (b + 2 ^ 8 * x) n = if decide (n < 8) then Z.testbit b n else Z.testbit x (n - 8).
Proof.
  intros Hb Hx Hn. rewrite Z.add_comm, <- (lor_low (2 ^ 8 * x) b 8); [|lia|by exists x; lia|done].
  rewrite Z.lor_spec, (Z.mul_comm (2 ^ 8)). case_decide.
  - by rewrite Z.mul_pow2_bits_low.
  - rewrite Z.mul_pow2_bits by lia. rewrite (testbit_above b 8) by (done || lia). apply orb_false_r.
Qed.

Lemma testbit_W l n :
  Forall byte_ok l → 0 ≤ n →
  Z.testbit (W l) n = match l !! Z.to_nat (n / 8) with Some b => Z.testbit b (n mod 8) | None => false end.
Proof.
  intros Hl. revert n. induction Hl as [|b l Hb Hl IH]; intros n Hn; simpl; [apply Z.bits_0|].
  rewrite testbit_byte_cons by (done || by apply W_nonneg). case_decide.
  - replace (Z.to_nat (n / 8)) with 0%nat by word_lia. simpl. f_equal. word_lia.
  - rewrite IH by lia. replace (Z.to_nat (n / 8)) with (S (Z.to_nat ((n - 8) / 8))) by word_lia. simpl.
    by replace ((n - 8) mod 8) with (n mod 8) by word_lia.
Qed.

(** ** Steps within bytes *)

Lemma byte_of_bits b : 0 ≤ b → (∀ n, 8 ≤ n → Z.testbit b n = false) → byte_ok b.
Proof.
  intros H0 H. split; [done|]. destruct (decide (b = 0)) as [->|]; [done|]. apply Z.log2_lt_pow2; [lia|].
  destruct (decide (Z.log2 b < 8)); [done|]. exfalso.
  pose proof (Z.bit_log2 b ltac:(lia)) as E. rewrite H in E by lia. done.
Qed.

Lemma byte_land a c : 0 ≤ a → byte_ok c → byte_ok (Z.land a c).
Proof.
  intros Ha Hc. apply byte_of_bits; [apply Z.land_nonneg; by left|]. intros n Hn.
  rewrite Z.land_spec, (testbit_above c 8) by done. apply andb_false_r.
Qed.

Lemma W_fmap_ok (f : Z → Z) l : Forall byte_ok l → (∀ b, byte_ok b → byte_ok (f b)) → Forall byte_ok (f <$> l).
Proof. intros Hl Hf. apply Forall_fmap. eapply Forall_impl; [exact Hl|]. auto. Qed.

Lemma replicate_ok n c : byte_ok c → Forall byte_ok (replicate n c).
Proof. intros. by apply Forall_replicate. Qed.

(** Masking after a shift by less than a byte, when the mask hides the bits that
    come from the next byte. *)
Lemma W_shift_mask s c l :
  Forall byte_ok l → 0 ≤ s < 8 → 0 ≤ c < 2 ^ (8 - s) →
  Z.land (Z.shiftr (W l) s) (W (replicate (length l) c)) = W ((λ b, Z.land (Z.shiftr b s) c) <$> l).
Proof.
  intros Hl Hs Hc.
  assert (Hc8 : byte_ok c).
  { split; [lia|]. eapply Z.lt_le_trans; [apply Hc|]. apply Z.pow_le_mono_r; lia. }
  assert (Hf : Forall byte_ok ((λ b, Z.land (Z.shiftr b s) c) <$> l)).
  { apply W_fmap_ok; [done|]. intros b Hb. apply byte_land; [|done]. apply Z.shiftr_nonneg, Hb. }
  apply Z.bits_inj'. intros n Hn. rewrite Z.land_spec, Z.shiftr_spec by done.
  assert (0 ≤ n / 8) by word_lia. rewrite !testbit_W by (done || lia || by apply replicate_ok). rewrite list_lookup_fmap.
  destruct (decide (n / 8 < Z.of_nat (length l))) as [Hlt|Hge].
  - destruct (lookup_lt_is_Some_2 l (Z.to_nat (n / 8))) as [b Eb]; [lia|].
    rewrite lookup_replicate_2 by lia. rewrite Eb. simpl. rewrite Z.land_spec, Z.shiftr_spec by word_lia.
    destruct (decide (n mod 8 + s < 8)) as [Hin|Hout].
    + replace ((n + s) / 8) with (n / 8) by word_lia. rewrite Eb. do 2 f_equal. word_lia.
    + rewrite (testbit_above c (8 - s)) by (done || lia). by rewrite !andb_false_r.
  - rewrite (lookup_ge_None_2 (replicate _ _)) by (rewrite length_replicate; lia).
    rewrite (lookup_ge_None_2 l (Z.to_nat (n / 8))) by lia. apply andb_false_r.
Qed.

Lemma W_add (f g : Z → Z) l : W (f <$> l) + W (g <$> l) = W ((λ b, f b + g b) <$> l).
Proof. induction l as [|b l IH]; cbn [W fmap list_fmap]; [done|]. rewrite <- IH. lia. Qed.

(** One step on a byte. *)
Definition byte_step (s c b : Z) : Z := Z.land b c + Z.land (Z.shiftr b s) c.

(** What each step makes of a byte, for all bytes. *)
Definition pop8 (b : Z) : Z := count (Z.testbit b) 0 8.

Lemma byte_steps b :
  byte_ok b →
  byte_ok (byte_step 1 0x55 b) ∧ byte_ok (byte_step 2 0x33 (byte_step 1 0x55 b)) ∧
  byte_step 4 0x0F (byte_step 2 0x33 (byte_step 1 0x55 b)) = pop8 b ∧ 0 ≤ pop8 b ≤ 8.
Proof.
  intros Hb. assert (H : forallb (λ b,
    let x := byte_step 1 0x55 b in let y := byte_step 2 0x33 x in
    (0 <=? x) && (x <? 256) && (0 <=? y) && (y <? 256) && (byte_step 4 0x0F y =? pop8 b) &&
    (0 <=? pop8 b) && (pop8 b <=? 8)) (seqZ 0 256) = true) by (vm_compute; reflexivity).
  rewrite forallb_forall in H. specialize (H b). rewrite <- list_elem_of_In, elem_of_seqZ in H.
  specialize (H Hb). cbv zeta in H. b2p. unfold byte_ok. change (2 ^ 8) with 256. lia.
Qed.

Lemma W_step s c l :
  Forall byte_ok l → length l = 8%nat → 0 ≤ s < 8 → 0 ≤ c < 2 ^ (8 - s) →
  Forall byte_ok (byte_step s c <$> l) →
  u64 (Z.land (W l) (W (replicate 8 c)) + Z.land (shr64 (W l) s) (W (replicate 8 c))) = W (byte_step s c <$> l).
Proof.
  intros Hl Hlen Hs Hc Hok. unfold shr64. rewrite Z.mod_small by lia. rewrite <- Hlen.
  assert (0 ≤ c < 2 ^ (8 - 0)).
  { split; [lia|]. eapply Z.lt_le_trans; [apply Hc|]. apply Z.pow_le_mono_r; lia. }
  pose proof (W_shift_mask 0 c l Hl ltac:(lia) ltac:(done)) as E0. rewrite Z.shiftr_0_r in E0.
  rewrite E0, W_shift_mask, W_add by done.
  assert (E : (λ b, Z.land (Z.shiftr b 0) c + Z.land (Z.shiftr b s) c) <$> l = byte_step s c <$> l).
  { apply list_fmap_ext. intros i b _. unfold byte_step. by rewrite Z.shiftr_0_r. }
  rewrite E. apply u64_small.
  split; [by apply W_nonneg|]. pose proof (W_bound _ Hok) as Hb. rewrite length_fmap, Hlen in Hb. exact Hb.
Qed.

(** ** Adding the bytes *)

Lemma W_land l m :
  Forall byte_ok l → Forall byte_ok m → length l = length m → Z.land (W l) (W m) = W (zip_with Z.land l m).
Proof.
  intros Hl. revert m. induction Hl as [|b l Hb Hl IH]; intros [|c m] Hm Hlen; try done.
  apply Forall_cons in Hm as [Hc Hm]. injection Hlen as Hlen. cbn [W zip_with]. rewrite <- IH by done.
  assert (Hbc : byte_ok (Z.land b c)) by (apply byte_land; [apply Hb|done]).
  apply Z.bits_inj'. intros n Hn. rewrite Z.land_spec.
  rewrite !testbit_byte_cons by (done || by apply W_nonneg || by apply Z.land_nonneg; left; apply W_nonneg).
  case_decide; by rewrite Z.land_spec.
Qed.

(** [ws] and [cs] as words of eight bytes: the bytes of [ws] where [cs] is all
    ones, zero where it is zero. *)
Lemma W_select l m :
  Forall byte_ok l → Forall (λ c, c = 0 ∨ c = 255) m → length l = length m →
  Z.land (W l) (W m) = W (zip_with (λ b c, if decide (c = 0) then 0 else b) l m).
Proof.
  intros Hl Hm Hlen. rewrite W_land; [|done| |done].
  - f_equal. revert m Hm Hlen. induction Hl as [|b l Hb Hl IH]; intros [|c m] Hm Hlen; try done.
    apply Forall_cons in Hm as [Hc Hm]. injection Hlen as Hlen. cbn [zip_with]. f_equal; [|by apply IH].
    destruct Hc as [-> | ->]; simpl; [apply Z.land_0_r|]. change 255 with (Z.ones 8). rewrite Z.land_ones by done.
    by apply Z.mod_small.
  - eapply Forall_impl; [exact Hm|]. intros c [-> | ->]; done.
Qed.

Lemma W_tail b l : byte_ok b → Z.shiftr (W (b :: l)) 8 = W l.
Proof.
  intros Hb. unfold byte_ok in Hb. cbn [W]. rewrite Z.shiftr_div_pow2, (Z.mul_comm (2 ^ 8)), Z.div_add by lia.
  rewrite Z.div_small by lia. lia.
Qed.

Ltac bytes := repeat (constructor; [split; [lia|change (2 ^ 8) with 256; lia]|]); try constructor.

(** A sum of selected bytes of a word and of the word shifted by [8 * k] bits. *)
Lemma W_fold l m k :
  Forall byte_ok l → length l = 8%nat → Forall (λ c, c = 0 ∨ c = 255) m → length m = 8%nat → (k < 8)%nat →
  Z.land (W l) (W m) + Z.land (shr64 (W l) (8 * Z.of_nat k)) (W m)
  = W (zip_with (λ b c, if decide (c = 0) then 0 else b) l m) +
    W (zip_with (λ b c, if decide (c = 0) then 0 else b) (drop k l ++ replicate k 0) m).
Proof.
  intros Hl Hlen Hm Hlm Hk. unfold shr64. rewrite Z.mod_small by lia.
  assert (Hz : ∀ k l, W (l ++ replicate k 0) = W l).
  { clear. intros k l. induction l as [|b l IH]; cbn [W app]; [|by rewrite IH].
    induction k as [|k IH]; cbn [W replicate]; lia. }
  assert (Hs : ∀ k l, Forall byte_ok l → Z.shiftr (W l) (8 * Z.of_nat k) = W (drop k l)).
  { clear. intros k l Hl. revert l Hl. induction k as [|k IH]; intros l Hl; [by rewrite Z.shiftr_0_r|].
    destruct Hl as [|b l Hb Hl]; [apply Z.shiftr_0_l|]. cbn [drop]. rewrite <- IH, <- (W_tail b l) by done.
    rewrite Z.shiftr_shiftr by lia.
    f_equal. lia. }
  rewrite Hs, <- (Hz k (drop k l)) by done.
  rewrite (W_select l), (W_select (drop k l ++ _)); try (done || congruence).
  - apply Forall_app. split; [by apply Forall_drop|]. by apply replicate_ok.
  - rewrite length_app, length_drop, length_replicate. lia.
Qed.

Ltac pick := repeat (constructor; [first [by left|by right]|]); constructor.

Lemma add_bytes b0 b1 b2 b3 b4 b5 b6 b7 :
  let l := [b0; b1; b2; b3; b4; b5; b6; b7] in
  Forall (λ b, 0 ≤ b ≤ 8) l →
  (let res := W l in
   let res := u64 (Z.land res 0x00FF00FF00FF00FF + Z.land (shr64 res 8) 0x00FF00FF00FF00FF) in
   let res := u64 (Z.land res 0x0000FFFF0000FFFF + Z.land (shr64 res 16) 0x0000FFFF0000FFFF) in
   u64 (Z.land res 0x00000000FFFFFFFF + Z.land (shr64 res 32) 0x00000000FFFFFFFF))
  = b0 + b1 + b2 + b3 + b4 + b5 + b6 + b7.
Proof.
  intros l Hl. subst l. rewrite !Forall_cons in Hl. destruct Hl as (?&?&?&?&?&?&?&?&_). cbv zeta.
  change 0x00FF00FF00FF00FF with (W [255; 0; 255; 0; 255; 0; 255; 0]).
  change 0x0000FFFF0000FFFF with (W [255; 255; 0; 0; 255; 255; 0; 0]).
  change 0x00000000FFFFFFFF with (W [255; 255; 255; 255; 0; 0; 0; 0]).
  rewrite (W_fold _ _ 1); [|bytes|done|pick|done|lia]. simpl zip_with.
  replace (W _ + W _) with (W [b0 + b1; 0; b2 + b3; 0; b4 + b5; 0; b6 + b7; 0]) by (cbn [W]; lia).
  rewrite (u64_small (W _)) by (cbn [W]; lia).
  rewrite (W_fold _ _ 2); [|bytes|done|pick|done|lia]. simpl zip_with.
  replace (W _ + W _) with (W [b0 + b1 + (b2 + b3); 0; 0; 0; b4 + b5 + (b6 + b7); 0; 0; 0]) by (cbn [W]; lia).
  rewrite (u64_small (W _)) by (cbn [W]; lia).
  rewrite (W_fold _ _ 4); [|bytes|done|pick|done|lia]. simpl zip_with. cbn [W].
  rewrite u64_small by lia. lia.
Qed.

(** ** The weight of a word and of a bitmap *)

Lemma count_W l :
  Forall byte_ok l → count (Z.testbit (W l)) 0 (8 * length l) = foldr (λ b s, pop8 b + s) 0 l.
Proof.
  induction 1 as [|b l Hb Hl IH]; [done|]. cbn [length foldr].
  replace (8 * S (length l))%nat with (8 + 8 * length l)%nat by lia. rewrite count_app, <- IH. unfold pop8. f_equal.
  - apply count_ext. intros j Hj. cbn [W]. rewrite testbit_byte_cons by (done || lia || by apply W_nonneg).
    rewrite decide_True by lia. done.
  - apply count_ext. intros j Hj. cbn [W]. rewrite testbit_byte_cons by (done || lia || by apply W_nonneg).
    rewrite decide_False by lia. f_equal. lia.
Qed.

Lemma generic_hweight64_ok w : word_ok w → generic_hweight64 w = count (Z.testbit w) 0 64.
Proof.
  intros Hw. rewrite <- (bytes_of_spec 8 w) by exact Hw. destruct (bytes_of_ok 8 w) as [Hl Hlen].
  set (l := bytes_of 8 w) in *. clearbody l. unfold generic_hweight64.
  change 0x5555555555555555 with (W (replicate 8 0x55)).
  change 0x3333333333333333 with (W (replicate 8 0x33)).
  change 0x0F0F0F0F0F0F0F0F with (W (replicate 8 0x0F)).
  assert (Hst : ∀ b, b ∈ l → byte_ok b) by (by apply Forall_forall).
  set (l1 := byte_step 1 0x55 <$> l). set (l2 := byte_step 2 0x33 <$> l1).
  assert (H1 : Forall byte_ok l1) by (apply W_fmap_ok; [done|]; intros b Hb; apply (byte_steps b Hb)).
  assert (H2 : Forall byte_ok l2).
  { unfold l2, l1. rewrite <- list_fmap_compose. apply W_fmap_ok; [done|]. intros b Hb. apply (byte_steps b Hb). }
  assert (E3 : byte_step 4 0x0F <$> l2 = pop8 <$> l).
  { unfold l2, l1. rewrite <- !list_fmap_compose. apply list_fmap_ext. intros i b Hb%list_elem_of_lookup_2.
    apply (byte_steps b). auto. }
  assert (H3 : Forall (λ b, 0 ≤ b ≤ 8) (pop8 <$> l)).
  { apply Forall_fmap, Forall_forall. intros b Hb. apply (byte_steps b). auto. }
  assert (H3' : Forall byte_ok (pop8 <$> l)).
  { eapply Forall_impl; [exact H3|]. intros b Hb. cbv beta in Hb. split; [|change (2 ^ 8) with 256]; lia. }
  assert (length l1 = 8%nat ∧ length l2 = 8%nat) as [? ?] by (unfold l2, l1; rewrite !length_fmap; done).
  rewrite (W_step 1 0x55 l) by (done || lia). fold l1.
  rewrite (W_step 2 0x33 l1) by (done || lia). fold l2.
  rewrite (W_step 4 0x0F l2) by (done || lia || by rewrite E3). rewrite E3.
  pose proof (count_W l Hl) as Hc. rewrite Hlen in Hc. change (8 * 8)%nat with 64%nat in Hc. rewrite Hc. clear -Hlen H3.
  do 9 (destruct l as [|? l]; try done). cbn [fmap list_fmap foldr] in *.
  etrans; [exact (add_bytes _ _ _ _ _ _ _ _ H3)|]. lia.
Qed.

Lemma count_none P a n : (∀ j, 0 ≤ j < Z.of_nat n → P (a + j) = false) → count P a n = 0.
Proof.
  revert a. induction n as [|n IH]; intros a H; simpl; [done|].
  pose proof (H 0 ltac:(lia)) as H0. rewrite Z.add_0_r in H0. rewrite H0. simpl. apply IH.
  intros j Hj. rewrite <- Z.add_assoc. apply H. lia.
Qed.

Lemma sum_weights_ok n k st p w nw :
  arr st p nw → 0 ≤ k → k + Z.of_nat n ≤ nw →
  sum_weights n k st p w = Ok (w + count (bit st p) (64 * k) (64 * n)).
Proof.
  revert k w. induction n as [|n IH]; intros k w Ha Hk Hn; cbn [sum_weights]; [by rewrite Z.add_0_r|].
  destruct (ld_ok st p nw k Ha) as (x & -> & Hx & Hb); [lia|]. cbn [mbind outcome_bind].
  rewrite IH by (done || lia). f_equal. rewrite generic_hweight64_ok by done.
  replace (64 * S n)%nat with (64 + 64 * n)%nat by lia. rewrite count_app, Z.add_assoc. f_equal; [f_equal|].
  - apply count_ext. intros j Hj. apply Hb. lia.
  - f_equal. lia.
Qed.

Lemma __bitmap_weight_ok st p bits :
  0 ≤ bits → arr st p (BITS_TO_LONGS bits) →
  __bitmap_weight st p bits = Ok (count (bit st p) 0 (Z.to_nat bits)).
Proof.
  intros Hb Ha. unfold __bitmap_weight. assert (Hlim : 0 ≤ bits / BITS_PER_LONG ≤ BITS_TO_LONGS bits) by word_lia.
  rewrite (sum_weights_ok _ _ _ _ _ (BITS_TO_LONGS bits)) by (done || lia). cbn [mbind outcome_bind].
  rewrite Z.mul_0_r, Z.add_0_l. destruct (Z.eqb_spec (bits mod BITS_PER_LONG) 0) as [Er|Er]; cbn [negb].
  { do 2 f_equal. word_lia. }
  destruct (ld_ok st p _ (bits / BITS_PER_LONG) Ha) as (x & -> & Hx & Hbit); [word_lia|]. cbn [mbind outcome_bind].
  rewrite last_mask by done. assert (Hones : 0 ≤ Z.ones (bits mod 64)) by (apply ones_nonneg; word_lia).
  rewrite generic_hweight64_ok by (by apply land_ok). f_equal.
  replace (Z.to_nat bits) with (64 * Z.to_nat (bits / BITS_PER_LONG) + Z.to_nat (bits mod 64))%nat by word_lia.
  rewrite count_app. f_equal.
  replace 64%nat with (Z.to_nat (bits mod 64) + (64 - Z.to_nat (bits mod 64)))%nat at 1 by word_lia.
  rewrite count_app, (count_none _ (0 + _)), Z.add_0_r.
  - apply count_ext. intros j Hj. rewrite Z.land_spec, testbit_ones, bool_decide_true, andb_true_r by word_lia.
    rewrite Hbit by word_lia. f_equal. word_lia.
  - intros j Hj. rewrite Z.land_spec, testbit_ones, bool_decide_false by word_lia. apply andb_false_r.
Qed.
