(* ===== verification/BitmapWrites.v ===== *)
(** * Bitmaps: operations that write

    The logical operations and the shifts, bit by bit. The destination may be
    one of the sources: every word is read before it is overwritten. *)

From S2P Require Import Prelude Bits Bitmap BitmapWords.
Open Scope xen_scope.

(** The operation sets the first [n] words of [dst] to the bits [target], and
    changes nothing else. *)
Definition writes (o : outcome wstore) (st : wstore) (dst n : Z) (target : Z → bool) : Prop :=
  ∃ st', o = Ok st' ∧
    (∀ q i, 0 ≤ i → bit st' q i = if decide (q = dst ∧ i / 64 < n) then target i else bit st q i) ∧
    (∀ q n, arr st q n → arr st' q n).

Lemma writes_ext o st dst n t t' :
  writes o st dst n t → (∀ i, 0 ≤ i → i / 64 < n → t i = t' i) → writes o st dst n t'.
Proof.
  intros (st' & Ho & Hb & Ha) H. exists st'. split_and!; [done| |done]. intros q i Hi. rewrite Hb by done.
  case_decide as E; [|done]. apply H; [done|apply E].
Qed.

Lemma store_first st dst n w t :
  arr st dst n → 1 ≤ n → word_ok w → (∀ j, 0 ≤ j < 64 → Z.testbit w j = t j) → writes (sto st dst 0 w) st dst 1 t.
Proof.
  intros Ha Hn Hw Ht. destruct (sto_ok st dst n 0 w Ha) as (st' & Hst & Hb & Ha'); [lia|done|].
  exists st'. split_and!; [done| |done]. intros q i Hi. rewrite Hb by done.
  destruct (decide (q = dst ∧ i / 64 = 0)) as [[-> Ei]|Hno].
  - rewrite decide_True by lia. rewrite Ht by word_lia. f_equal. word_lia.
  - rewrite decide_False; [done|]. intros [-> ?]. apply Hno. split; [done|]. word_lia.
Qed.

Lemma one_long bits : 1 ≤ bits ≤ 64 → BITS_TO_LONGS bits = 1.
Proof. intros. word_lia. Qed.

(** ** Word by word *)

Section words.
Context (st : wstore) (dst bits : Z).
Hypothesis (Hb : 1 ≤ bits) (Hd : arr st dst (BITS_TO_LONGS bits)).

#[local] Lemma longs_pos : 1 ≤ BITS_TO_LONGS bits.
Proof using Hb. word_lia. Qed.

Lemma each_long f t :
  (∀ k st', 0 ≤ k < BITS_TO_LONGS bits →
     (∀ q i, 0 ≤ i → k ≤ i / 64 → bit st' q i = bit st q i) →
     (∀ q n, arr st q n → arr st' q n) →
     ∃ w, f k st' = Ok w ∧ word_ok w ∧ ∀ j, 0 ≤ j < 64 → Z.testbit w j = t (64 * k + j)) →
  writes (each_word (Z.to_nat (BITS_TO_LONGS bits)) 0 dst f st) st dst (BITS_TO_LONGS bits) t.
Proof using Hb Hd.
  intros Hf. pose proof longs_pos. destruct (each_word_ok (Z.to_nat (BITS_TO_LONGS bits)) 0 dst f st t (BITS_TO_LONGS bits))
    as (st' & Hst & Hbit & Ha); [done|lia|lia| |].
  - intros k st' Hk Hag Harr. apply Hf; [lia| |done]. intros q i Hi Hk'. apply Hag; [done|]. lia.
  - exists st'. split_and!; [done| |done]. intros q i Hi. rewrite Hbit by done. assert (0 ≤ i / 64) by word_lia.
    destruct (decide (q = dst ∧ i / 64 < BITS_TO_LONGS bits)); [rewrite decide_True by lia|rewrite decide_False by lia]; done.
Qed.

(** A bitwise function of two arrays. *)
Lemma pairwise (p q : Z) (f : Z → Z → Z) (g : bool → bool → bool) :
  arr st p (BITS_TO_LONGS bits) → arr st q (BITS_TO_LONGS bits) →
  (∀ a b, word_ok a → word_ok b → word_ok (f a b) ∧
     ∀ j, 0 ≤ j < 64 → Z.testbit (f a b) j = g (Z.testbit a j) (Z.testbit b j)) →
  writes (if bits <=? BITS_PER_LONG then
            let! w1 := ld st p 0 in let! w2 := ld st q 0 in sto st dst 0 (f w1 w2)
          else each_word (Z.to_nat (BITS_TO_LONGS bits)) 0 dst (λ k st,
                 let! w1 := ld st p k in let! w2 := ld st q k in Ok (f w1 w2)) st)
    st dst (BITS_TO_LONGS bits) (λ i, g (bit st p i) (bit st q i)).
Proof using Hb Hd.
  intros Hp Hq Hf. pose proof longs_pos. destruct (Z.leb_spec bits BITS_PER_LONG) as [Hs|Hs].
  - destruct (ld_ok st p _ 0 Hp) as (w1 & -> & Hw1 & Hb1); [lia|]. destruct (ld_ok st q _ 0 Hq) as (w2 & -> & Hw2 & Hb2); [lia|].
    cbn [mbind outcome_bind]. destruct (Hf w1 w2 Hw1 Hw2) as [Hw Hbw].
    rewrite one_long by (unfold BITS_PER_LONG in Hs; lia). eapply store_first; [exact Hd|lia|done|].
    intros j Hj. rewrite Hbw, Hb1, Hb2 by done. done.
  - apply each_long. intros k st' Hk Hag Harr.
    destruct (ld_ok st' p _ k (Harr _ _ Hp) Hk) as (w1 & -> & Hw1 & Hb1). destruct (ld_ok st' q _ k (Harr _ _ Hq) Hk) as (w2 & -> & Hw2 & Hb2).
    cbn [mbind outcome_bind]. destruct (Hf w1 w2 Hw1 Hw2) as [Hw Hbw]. eexists. split; [done|]. split; [done|].
    intros j Hj. rewrite Hbw, Hb1, Hb2, !Hag by (done || word_lia). done.
Qed.

Lemma bitmap_zero_ok : writes (bitmap_zero dst bits st) st dst (BITS_TO_LONGS bits) (λ _, false).
Proof using Hb Hd.
  unfold bitmap_zero. pose proof longs_pos. destruct (Z.leb_spec bits BITS_PER_LONG) as [Hs|Hs].
  - rewrite one_long by (unfold BITS_PER_LONG in Hs; lia). eapply store_first; [exact Hd|lia|done|].
    intros j Hj. apply Z.bits_0.
  - apply each_long. intros k st' _ _ _. exists 0. split; [done|]. split; [done|]. intros. apply Z.bits_0.
Qed.

Lemma bitmap_copy_ok src :
  arr st src (BITS_TO_LONGS bits) → writes (bitmap_copy dst src bits st) st dst (BITS_TO_LONGS bits) (bit st src).
Proof using Hb Hd.
  intros Hs'. unfold bitmap_copy. pose proof longs_pos. destruct (Z.leb_spec bits BITS_PER_LONG) as [Hs|Hs].
  - destruct (ld_ok st src _ 0 Hs') as (w & -> & Hw & Hbw); [lia|]. cbn [mbind outcome_bind].
    rewrite one_long by (unfold BITS_PER_LONG in Hs; lia). eapply store_first; [exact Hd|lia|done|exact Hbw].
  - apply each_long. intros k st' Hk Hag Harr. destruct (ld_ok st' src _ k (Harr _ _ Hs') Hk) as (w & -> & Hw & Hbw).
    exists w. split; [done|]. split; [done|]. intros j Hj. rewrite Hbw, Hag by (done || word_lia). done.
Qed.

End words.

(** ** The last word *)

Lemma ones_ok n : 0 ≤ n ≤ 64 → word_ok (Z.ones n).
Proof.
  intros Hn. apply word_of_bits; [apply ones_nonneg; lia|]. intros j Hj. rewrite testbit_ones by lia.
  apply bool_decide_false. lia.
Qed.

Lemma last_mask_ok bits : word_ok (BITMAP_LAST_WORD_MASK bits).
Proof.
  destruct (decide (bits mod 64 = 0)) as [E|E].
  - unfold BITMAP_LAST_WORD_MASK, BITS_PER_LONG. rewrite E. apply lnot64_ok.
  - rewrite last_mask by done. apply ones_ok. word_lia.
Qed.

Lemma last_mask_bit bits j :
  1 ≤ bits → 0 ≤ j < 64 →
  Z.testbit (BITMAP_LAST_WORD_MASK bits) j = bool_decide (64 * (BITS_TO_LONGS bits - 1) + j < bits).
Proof.
  intros Hb Hj. destruct (decide (bits mod 64 = 0)) as [E|E].
  - unfold BITMAP_LAST_WORD_MASK, BITS_PER_LONG. rewrite E. simpl. rewrite testbit_lnot64, Z.bits_0 by done.
    symmetry. apply bool_decide_true. word_lia.
  - rewrite last_mask, testbit_ones by word_lia. apply bool_decide_ext. word_lia.
Qed.

(** All words but the last are set by a loop, the last one by itself. *)
Lemma all_but_last st dst bits f w t :
  1 ≤ bits → arr st dst (BITS_TO_LONGS bits) →
  (∀ k st', 0 ≤ k < BITS_TO_LONGS bits - 1 →
     (∀ q i, 0 ≤ i → k ≤ i / 64 → bit st' q i = bit st q i) →
     (∀ q n, arr st q n → arr st' q n) →
     ∃ w, f k st' = Ok w ∧ word_ok w ∧ ∀ j, 0 ≤ j < 64 → Z.testbit w j = t (64 * k + j)) →
  (∀ st', (∀ q i, 0 ≤ i → BITS_TO_LONGS bits - 1 ≤ i / 64 → bit st' q i = bit st q i) →
     (∀ q n, arr st q n → arr st' q n) →
     ∃ v, w st' = Ok v ∧ word_ok v ∧ ∀ j, 0 ≤ j < 64 → Z.testbit v j = t (64 * (BITS_TO_LONGS bits - 1) + j)) →
  writes (let! st := each_word (Z.to_nat (BITS_TO_LONGS bits - 1)) 0 dst f st in
          let! v := w st in sto st dst (BITS_TO_LONGS bits - 1) v) st dst (BITS_TO_LONGS bits) t.
Proof.
  intros Hb Hd Hf Hw. assert (Hn : 1 ≤ BITS_TO_LONGS bits) by word_lia. set (n := BITS_TO_LONGS bits) in *.
  destruct (each_word_ok (Z.to_nat (n - 1)) 0 dst f st t n) as (st1 & -> & Hb1 & Ha1); [done|lia|lia| |].
  { intros k st' Hk Hag Harr. apply Hf; [lia| |done]. intros q i Hi Hk'. apply Hag; [done|]. lia. }
  cbn [mbind outcome_bind]. rewrite Z2Nat.id in Hb1 by lia.
  destruct (Hw st1) as (v & -> & Hv & Hbv); [|done|].
  { intros q i Hi Hk. rewrite Hb1 by done. rewrite decide_False by lia. done. }
  cbn [mbind outcome_bind]. destruct (sto_ok st1 dst n (n - 1) v) as (st' & -> & Hb' & Ha'); [auto|lia|done|].
  exists st'. split_and!; [done| |auto]. intros q i Hi. rewrite Hb', Hb1 by done. assert (0 ≤ i / 64) by word_lia.
  destruct (decide (q = dst)) as [->|]; [|by rewrite !decide_False by (intros [? _]; done)].
  destruct (decide (i / 64 = n - 1)) as [E|E].
  - rewrite !decide_True by lia. rewrite Hbv by word_lia. f_equal. word_lia.
  - rewrite (decide_False (P:=_ ∧ _ = n - 1)) by lia.
    destruct (decide (i / 64 < n)); [rewrite !decide_True by lia|rewrite !decide_False by lia]; done.
Qed.

Lemma bitmap_fill_ok st dst bits :
  1 ≤ bits → arr st dst (BITS_TO_LONGS bits) →
  writes (bitmap_fill dst bits st) st dst (BITS_TO_LONGS bits) (λ i, bool_decide (i < bits)).
Proof.
  intros Hb Hd. assert (Hn : 1 ≤ BITS_TO_LONGS bits) by word_lia.
  assert (E : bitmap_fill dst bits st =
    let! st := each_word (Z.to_nat (BITS_TO_LONGS bits - 1)) 0 dst (λ _ _, Ok (lnot64 0)) st in
    let! v := Ok (BITMAP_LAST_WORD_MASK bits) in sto st dst (BITS_TO_LONGS bits - 1) v).
  { unfold bitmap_fill. destruct (Z.gtb_spec (BITS_TO_LONGS bits) 1); [done|].
    by replace (BITS_TO_LONGS bits) with 1 by lia. }
  rewrite E. apply (all_but_last st dst bits _ (λ _, Ok (BITMAP_LAST_WORD_MASK bits))); [done|done| |].
  - intros k st' Hk _ _. eexists. split; [done|]. split; [apply lnot64_ok|]. intros j Hj.
    rewrite testbit_lnot64, Z.bits_0 by done. symmetry. apply bool_decide_true. word_lia.
  - intros st' _ _. eexists. split; [done|]. split; [apply last_mask_ok|]. intros j Hj. by apply last_mask_bit.
Qed.

Section complement.
Context (st : wstore) (dst src bits : Z).
Hypothesis (Hb : 1 ≤ bits) (Hd : arr st dst (BITS_TO_LONGS bits)) (Hs : arr st src (BITS_TO_LONGS bits)).

Let t (i : Z) : bool := negb (bit st src i) && bool_decide (i < bits).

#[local] Lemma complement_last w :
  word_ok w → (∀ j, 0 ≤ j < 64 → Z.testbit w j = bit st src (64 * (BITS_TO_LONGS bits - 1) + j)) →
  word_ok (Z.land (lnot64 w) (BITMAP_LAST_WORD_MASK bits)) ∧
  ∀ j, 0 ≤ j < 64 → Z.testbit (Z.land (lnot64 w) (BITMAP_LAST_WORD_MASK bits)) j = t (64 * (BITS_TO_LONGS bits - 1) + j).
Proof using Hb.
  intros Hw Hbw. split; [apply land_ok; [apply lnot64_ok|apply last_mask_ok]|]. intros j Hj.
  rewrite Z.land_spec, testbit_lnot64, last_mask_bit, Hbw by done. done.
Qed.

#[local] Lemma complement_word k st' :
  0 ≤ k < BITS_TO_LONGS bits → 64 * k + 63 < bits →
  (∀ q i, 0 ≤ i → k ≤ i / 64 → bit st' q i = bit st q i) → (∀ q n, arr st q n → arr st' q n) →
  ∃ w, (let! w := ld st' src k in Ok (lnot64 w)) = Ok w ∧ word_ok w ∧ ∀ j, 0 ≤ j < 64 → Z.testbit w j = t (64 * k + j).
Proof using Hs.
  intros Hk Hin Hag Harr. destruct (ld_ok st' src _ k (Harr _ _ Hs) Hk) as (w & -> & Hw & Hbw). cbn [mbind outcome_bind].
  eexists. split; [done|]. split; [apply lnot64_ok|]. intros j Hj. unfold t.
  rewrite testbit_lnot64, Hbw, Hag, bool_decide_true, andb_true_r by (done || word_lia). done.
Qed.

Lemma __bitmap_complement_ok : writes (__bitmap_complement dst src bits st) st dst (BITS_TO_LONGS bits) t.
Proof using Hb Hd Hs.
  unfold __bitmap_complement. destruct (Z.eqb_spec (bits mod BITS_PER_LONG) 0) as [Er|Er]; cbn [negb].
  - replace (bits / BITS_PER_LONG) with (BITS_TO_LONGS bits) by word_lia.
    assert (Hid : ∀ o : outcome wstore, (let! st := o in Ok st) = o) by (by intros []). rewrite Hid.
    apply each_long; [done|done|]. intros k st' Hk. apply complement_word; [done|word_lia].
  - replace (bits / BITS_PER_LONG) with (BITS_TO_LONGS bits - 1) by word_lia.
    pose proof (all_but_last st dst bits (λ k st, let! w := ld st src k in Ok (lnot64 w)) (λ st,
      let! w := ld st src (BITS_TO_LONGS bits - 1) in Ok (Z.land (lnot64 w) (BITMAP_LAST_WORD_MASK bits))) t Hb Hd) as H.
    eapply eq_ind with (P := λ o, writes o _ _ _ _); [apply H|].
    + intros k st' Hk. apply complement_word; word_lia.
    + intros st' Hag Harr. destruct (ld_ok st' src _ (BITS_TO_LONGS bits - 1) (Harr _ _ Hs)) as (w & -> & Hw & Hbw); [word_lia|].
      cbn [mbind outcome_bind]. eexists. split; [done|]. apply complement_last; [done|].
      intros j Hj. rewrite Hbw, Hag by (done || word_lia). done.
    + destruct (each_word _ _ _ _ _) as [st1|]; [|done]. cbn [mbind outcome_bind]. by destruct (ld st1 _ _).
Qed.

Lemma bitmap_complement_ok : writes (bitmap_complement dst src bits st) st dst (BITS_TO_LONGS bits) t.
Proof using Hb Hd Hs.
  unfold bitmap_complement. destruct (Z.leb_spec bits BITS_PER_LONG) as [Hsm|Hsm]; [|exact __bitmap_complement_ok].
  unfold BITS_PER_LONG in Hsm. pose proof (one_long bits ltac:(lia)) as E1. rewrite E1 in Hs, Hd |- *.
  destruct (ld_ok st src _ 0 Hs) as (w & -> & Hw & Hbw); [lia|]. cbn [mbind outcome_bind].
  destruct (complement_last w Hw) as [Hok Hbit]; [by rewrite E1|]. rewrite E1 in Hbit.
  eapply store_first; [exact Hd|lia|done|]. exact Hbit.
Qed.

End complement.

(** ** Shifts *)

(** The last word of a bitmap is read through the mask of its valid bits. *)
Lemma clip_ok bits k w (last : bool) :
  1 ≤ bits → 0 ≤ k < BITS_TO_LONGS bits → (last = true ↔ k = BITS_TO_LONGS bits - 1) → word_ok w →
  let left := bits mod BITS_PER_LONG in
  let v := if negb (left =? 0) && last then Z.land w (u64 (shl64 1 left - 1)) else w in
  word_ok v ∧ ∀ j, 0 ≤ j < 64 → Z.testbit v j = Z.testbit w j && bool_decide (64 * k + j < bits).
Proof.
  intros Hb Hk Hl Hw. cbv zeta. unfold BITS_PER_LONG. destruct (Z.eqb_spec (bits mod 64) 0) as [E|E]; cbn [negb andb].
  - split; [done|]. intros j Hj. rewrite bool_decide_true by word_lia. by rewrite andb_true_r.
  - rewrite low_mask by word_lia. destruct last.
    + assert (k = BITS_TO_LONGS bits - 1) by (by apply Hl). split; [apply land_ok; [done|apply ones_nonneg; word_lia]|].
      intros j Hj. rewrite Z.land_spec, testbit_ones by word_lia. f_equal. apply bool_decide_ext. word_lia.
    + split; [done|]. assert (k ≠ BITS_TO_LONGS bits - 1) by (intros ?%Hl; done).
      intros j Hj. rewrite bool_decide_true by word_lia. by rewrite andb_true_r.
Qed.

Section shifts.
Context (st : wstore) (dst src shift bits : Z).
Hypothesis (Hb : 1 ≤ bits) (Hsh : 0 ≤ shift).
Hypothesis (Hd : arr st dst (BITS_TO_LONGS bits)) (Hs : arr st src (BITS_TO_LONGS bits)).

Let lim : Z := BITS_TO_LONGS bits.
Let left : Z := bits mod BITS_PER_LONG.
Let off : Z := shift / BITS_PER_LONG.
Let rem : Z := shift mod BITS_PER_LONG.
Let mask : Z := u64 (shl64 1 left - 1).

(** Word [k] of the source as the shifts read it. *)
#[local] Lemma read_clipped st' k (last : bool) :
  arr st' src lim → 0 ≤ k < lim → (last = true ↔ k = lim - 1) →
  (∀ i, 0 ≤ i → i / 64 = k → bit st' src i = bit st src i) →
  ∃ w, ld st' src k = Ok w ∧
    let v := if negb (left =? 0) && last then Z.land w mask else w in
    word_ok v ∧ ∀ j, 0 ≤ j < 64 → Z.testbit v j = bit st src (64 * k + j) && bool_decide (64 * k + j < bits).
Proof using All.
  intros Ha Hk Hl Hag. destruct (ld_ok st' src lim k Ha Hk) as (w & Hw & Hok & Hbit). exists w. split; [done|].
  destruct (clip_ok bits k w last Hb Hk Hl Hok) as [Hv Hbv]. split; [exact Hv|].
  intros j Hj. fold left mask in Hbv. rewrite Hbv, Hbit, Hag by (done || word_lia). done.
Qed.

Let tr (i : Z) : bool := bit st src (i + shift) && bool_decide (i + shift < bits).

#[local] Lemma shift_right_upper st' k :
  arr st' src lim → 0 ≤ k → off + k < lim → (∀ i, 0 ≤ i → k ≤ i / 64 → bit st' src i = bit st src i) →
  ∃ u, (if (rem =? 0) || (off + k + 1 >=? lim) then Ok 0
        else
          let! upper := ld st' src (off + k + 1) in
          Ok (if (off + k + 1 =? lim - 1) && negb (left =? 0) then Z.land upper mask else upper)) = Ok u ∧
    word_ok u ∧ (rem = 0 → u = 0) ∧ ∀ j, 0 ≤ j < 64 → 64 ≤ rem + j → Z.testbit u (rem + j - 64) = tr (64 * k + j).
Proof using All.
  intros Ha Hk Hlt Hag. assert (Hoff : 0 ≤ off) by (unfold off; word_lia).
  assert (Hrem : 0 ≤ rem < 64 ∧ shift = 64 * off + rem) by (unfold rem, off; word_lia).
  destruct (Z.eqb_spec rem 0) as [E|E]; cbn [orb].
  { exists 0. split; [done|]. split; [done|]. split; [done|]. intros j Hj Hj'. lia. }
  destruct (Z.geb_spec (off + k + 1) lim) as [Hge|Hlt'].
  { exists 0. split; [done|]. split; [done|]. split; [done|]. intros j Hj Hj'. rewrite Z.bits_0. unfold tr.
    rewrite bool_decide_false, andb_false_r; [done|]. unfold lim in Hge. word_lia. }
  destruct (read_clipped st' (off + k + 1) (off + k + 1 =? lim - 1)) as (w & -> & Hok & Hbit); [done|lia|apply Z.eqb_eq| |].
  { intros i Hi Ei. apply Hag; [done|lia]. }
  cbn [mbind outcome_bind]. rewrite andb_comm. eexists. split; [done|]. split; [exact Hok|]. split; [done|].
  intros j Hj Hj'. rewrite Hbit by lia. unfold tr. f_equal; [f_equal; lia|apply bool_decide_ext; lia].
Qed.

#[local] Lemma shift_right_word_ok st' k :
  arr st' src lim → 0 ≤ k → off + k < lim → (∀ i, 0 ≤ i → k ≤ i / 64 → bit st' src i = bit st src i) →
  ∃ w, shift_right_word src lim left off rem mask k st' = Ok w ∧ word_ok w ∧
    ∀ j, 0 ≤ j < 64 → Z.testbit w j = tr (64 * k + j).
Proof using All.
  intros Ha Hk Hlt Hag. assert (Hoff : 0 ≤ off) by (unfold off; word_lia).
  assert (Hrem : 0 ≤ rem < 64 ∧ shift = 64 * off + rem) by (unfold rem, off; word_lia).
  unfold shift_right_word. destruct (shift_right_upper st' k Ha Hk Hlt Hag) as (u & -> & Hu & Hu0 & Hbu). cbn [mbind outcome_bind].
  destruct (read_clipped st' (off + k) (off + k =? lim - 1)) as (w & -> & Hok & Hbit); [done|lia|apply Z.eqb_eq| |].
  { intros i Hi Ei. apply Hag; [done|lia]. }
  cbn [mbind outcome_bind]. eexists. split; [done|].
  split; [apply lor_ok; [apply shl64_ok|by apply shr64_ok]|]. intros j Hj. rewrite Z.lor_spec.
  rewrite testbit_shr64 by (done || lia). destruct (decide (rem = 0)) as [E|E].
  - rewrite Hu0 by done. unfold shl64. rewrite Z.shiftl_0_l, Z.bits_0. cbn [orb].
    rewrite bool_decide_true, Hbit by lia. unfold tr. cbn [andb]. f_equal; [f_equal; lia|apply bool_decide_ext; lia].
  - rewrite testbit_shl64 by (done || unfold BITS_PER_LONG; lia). unfold BITS_PER_LONG.
    destruct (decide (j + rem < 64)) as [Hlo|Hhi].
    + rewrite bool_decide_false, bool_decide_true, Hbit by lia. unfold tr. cbn [orb andb].
      f_equal; [f_equal; lia|apply bool_decide_ext; lia].
    + rewrite bool_decide_true, bool_decide_false by lia. cbn [andb]. rewrite orb_false_r, <- Hbu by lia. f_equal. lia.
Qed.

Lemma __bitmap_shift_right_ok : off ≤ lim → writes (__bitmap_shift_right dst src shift bits st) st dst lim tr.
Proof using All.
  intros Hol. assert (Hoff : 0 ≤ off) by (unfold off; word_lia).
  assert (Hrem : 0 ≤ rem < 64 ∧ shift = 64 * off + rem) by (unfold rem, off; word_lia).
  unfold __bitmap_shift_right. fold lim left off rem. fold mask.
  destruct (each_word_ok (Z.to_nat (lim - off)) 0 dst (λ k st,
    let! w := shift_right_word src lim left off rem mask k st in
    Ok (if negb (left =? 0) && (k =? lim - 1) then Z.land w mask else w)) st tr lim) as (st1 & -> & Hb1 & Ha1); [done|lia|lia| |].
  - intros k st' Hk Hag Harr. destruct (shift_right_word_ok st' k) as (w & -> & Hw & Hbw); [auto|lia|lia| |].
    { intros i Hi Hki. apply Hag; [done|]. lia. }
    cbn [mbind outcome_bind]. destruct (clip_ok bits k w (k =? lim - 1) Hb) as [Hv Hbv]; [lia|apply Z.eqb_eq|done|].
    eexists. split; [done|]. split; [exact Hv|]. intros j Hj. fold left mask in Hbv. rewrite Hbv, Hbw by done.
    unfold tr. case_bool_decide; [|by rewrite andb_false_r]. rewrite (bool_decide_true (_ < bits)) by lia. by rewrite andb_true_r.
  - cbn [mbind outcome_bind]. rewrite Z2Nat.id in Hb1 by lia. destruct (Z.eqb_spec off 0) as [E|E].
    + exists st1. split_and!; [done| |done]. intros q i Hi. rewrite Hb1 by done. assert (0 ≤ i / 64) by word_lia.
      destruct (decide (q = dst ∧ i / 64 < lim)); [rewrite decide_True by lia|rewrite decide_False by lia]; done.
    + destruct (memset_words_ok off (lim - off) dst st1 lim) as (st' & -> & Hb' & Ha'); [auto|lia..|].
      exists st'. split_and!; [done| |auto]. intros q i Hi. rewrite Hb', Hb1 by done. assert (0 ≤ i / 64) by word_lia.
      destruct (decide (q = dst)) as [->|]; [|by rewrite !decide_False by (intros [? _]; done)].
      destruct (decide (lim - off ≤ i / 64 < lim)).
      * rewrite !decide_True by lia. unfold tr. rewrite bool_decide_false, andb_false_r; [done|]. unfold lim in *. word_lia.
      * rewrite (decide_False (P:=_ ∧ lim - off ≤ _ < _)) by lia.
        destruct (decide (i / 64 < lim)); [rewrite !decide_True by lia|rewrite !decide_False by lia]; done.
Qed.

Let pl (i : Z) : bool := bit st src (i - shift) && bool_decide (0 ≤ i - shift < bits).
Let tl (i : Z) : bool := bit st src (i - shift) && bool_decide (shift ≤ i < bits).

#[local] Lemma shift_left_lower st' k :
  arr st' src lim → 0 ≤ k → k + off < lim → (∀ i, 0 ≤ i → i / 64 ≤ k + off → bit st' src i = bit st src i) →
  ∃ u, (if negb (rem =? 0) && (k >? 0) then ld st' src (k - 1) else Ok 0) = Ok u ∧
    word_ok u ∧ (rem = 0 → u = 0) ∧
    ∀ j, 0 ≤ j < rem → Z.testbit u (j + (64 - rem)) = pl (64 * (k + off) + j).
Proof using All.
  intros Ha Hk Hlt Hag. assert (Hoff : 0 ≤ off) by (unfold off; word_lia).
  assert (Hrem : 0 ≤ rem < 64 ∧ shift = 64 * off + rem) by (unfold rem, off; word_lia).
  destruct (Z.eqb_spec rem 0) as [E|E]; cbn [negb andb].
  { exists 0. split; [done|]. split; [done|]. split; [done|]. intros j Hj. lia. }
  destruct (Z.gtb_spec k 0) as [Hpos|Hz].
  - destruct (ld_ok st' src lim (k - 1) Ha) as (w & -> & Hw & Hbw); [lia|]. exists w. split; [done|].
    split; [done|]. split; [done|]. intros j Hj. rewrite Hbw, Hag by word_lia. unfold pl, lim in *.
    rewrite bool_decide_true, andb_true_r by word_lia. f_equal. lia.
  - exists 0. split; [done|]. split; [done|]. split; [done|]. intros j Hj. rewrite Z.bits_0. unfold pl.
    rewrite bool_decide_false by lia. by rewrite andb_false_r.
Qed.

#[local] Lemma shift_left_word_ok st' k :
  arr st' src lim → 0 ≤ k → k + off < lim → (∀ i, 0 ≤ i → i / 64 ≤ k + off → bit st' src i = bit st src i) →
  ∃ w, shift_left_word src lim left rem k st' = Ok w ∧ word_ok w ∧
    ∀ j, 0 ≤ j < 64 → Z.testbit w j = pl (64 * (k + off) + j).
Proof using All.
  intros Ha Hk Hlt Hag. assert (Hoff : 0 ≤ off) by (unfold off; word_lia).
  assert (Hrem : 0 ≤ rem < 64 ∧ shift = 64 * off + rem) by (unfold rem, off; word_lia).
  unfold shift_left_word. destruct (shift_left_lower st' k Ha Hk Hlt Hag) as (u & -> & Hu & Hu0 & Hbu). cbn [mbind outcome_bind].
  destruct (read_clipped st' k (k =? lim - 1)) as (w & -> & Hok & Hbit); [done|lia|apply Z.eqb_eq| |].
  { intros i Hi Ei. apply Hag; [done|lia]. }
  cbn [mbind outcome_bind]. fold mask. eexists. split; [done|].
  split; [apply lor_ok; [by apply shr64_ok|apply shl64_ok]|]. intros j Hj. rewrite Z.lor_spec.
  rewrite testbit_shl64 by (done || lia). destruct (decide (j < rem)) as [Hlo|Hhi].
  - rewrite testbit_shr64, (bool_decide_false (rem ≤ j)), bool_decide_true by (done || unfold BITS_PER_LONG; lia).
    cbn [andb]. rewrite orb_false_r. apply Hbu. lia.
  - assert (Z.testbit (shr64 u (BITS_PER_LONG - rem)) j = false) as ->.
    { destruct (decide (rem = 0)) as [E|E]; [rewrite Hu0 by done; unfold shr64; by rewrite Z.shiftr_0_l, Z.bits_0|].
      rewrite testbit_shr64, bool_decide_false by (done || unfold BITS_PER_LONG; lia). done. }
    rewrite bool_decide_true by lia. cbn [orb andb]. rewrite Hbit by lia. unfold pl.
    f_equal; [f_equal; lia|apply bool_decide_ext; lia].
Qed.

Lemma __bitmap_shift_left_ok : off ≤ lim → writes (__bitmap_shift_left dst src shift bits st) st dst lim tl.
Proof using All.
  intros Hol. assert (Hoff : 0 ≤ off) by (unfold off; word_lia).
  assert (Hrem : 0 ≤ rem < 64 ∧ shift = 64 * off + rem) by (unfold rem, off; word_lia).
  unfold __bitmap_shift_left. fold lim left off rem. fold mask.
  destruct (each_word_down_ok (Z.to_nat (lim - off)) off dst (λ k st,
    let! w := shift_left_word src lim left rem k st in
    Ok (if negb (left =? 0) && (k + off =? lim - 1) then Z.land w mask else w)) st tl lim) as (st1 & -> & Hb1 & Ha1); [done|lia|lia| |].
  - intros k st' Hk Hag Harr. destruct (shift_left_word_ok st' k) as (w & -> & Hw & Hbw); [auto|lia|lia| |].
    { intros i Hi Hki. apply Hag; [done|]. lia. }
    cbn [mbind outcome_bind]. destruct (clip_ok bits (k + off) w (k + off =? lim - 1) Hb) as [Hv Hbv]; [lia|apply Z.eqb_eq|done|].
    eexists. split; [done|]. split; [exact Hv|]. intros j Hj. fold left mask in Hbv. rewrite Hbv, Hbw by done.
    unfold tl, pl. rewrite <- andb_assoc. f_equal. rewrite <- bool_decide_and. apply bool_decide_ext. lia.
  - cbn [mbind outcome_bind]. rewrite Z2Nat.id in Hb1 by lia. destruct (Z.eqb_spec off 0) as [E|E].
    + exists st1. split_and!; [done| |done]. intros q i Hi. rewrite Hb1 by done. assert (0 ≤ i / 64) by word_lia.
      destruct (decide (q = dst ∧ i / 64 < lim)); [rewrite decide_True by lia|rewrite decide_False by lia]; done.
    + destruct (memset_words_ok off 0 dst st1 lim) as (st' & -> & Hb' & Ha'); [auto|lia..|].
      exists st'. split_and!; [done| |auto]. intros q i Hi. rewrite Hb', Hb1 by done. assert (0 ≤ i / 64) by word_lia.
      destruct (decide (q = dst)) as [->|]; [|by rewrite !decide_False by (intros [? _]; done)].
      destruct (decide (0 ≤ i / 64 < 0 + off)).
      * rewrite !decide_True by lia. unfold tl. rewrite bool_decide_false, andb_false_r; [done|]. word_lia.
      * rewrite (decide_False (P:=_ ∧ 0 ≤ _ < _)) by lia.
        destruct (decide (i / 64 < lim)); [rewrite !decide_True by lia|rewrite !decide_False by lia]; done.
Qed.

End shifts.
