(* ===== verification/BitmapProps.v ===== *)
(** * Bitmaps: what the operations compute

    The operations of bitmap.c and bitmap.h bit by bit: tests and counts see
    exactly the valid bits, the logical operations and the shifts compute every
    bit of the destination and change no other array, also when the destination
    is one of the sources, and the region functions claim and release aligned
    blocks of free bits. *)

From S2P Require Import Prelude Bits Bitmap BitmapWords BitmapWeight BitmapWrites.
Open Scope xen_scope.

(** ** Tests *)

Lemma existsb_ext_seqZ P Q n : (∀ i, 0 ≤ i < n → P i = Q i) → existsb P (seqZ 0 n) = existsb Q (seqZ 0 n).
Proof.
  intros H. apply eq_true_iff_eq. rewrite !existsb_seqZ.
  split; intros (k & Hk & HP); exists k; (split; [done|]); rewrite <- HP; [symmetry|]; apply H; lia.
Qed.

(** The word [k] of the array as the list has it. *)
Definition word (st : wstore) (p k : Z) : Z :=
  match st !! p with Some ws => ws !!! Z.to_nat k | None => 0 end.

Lemma ld_word st p n k : arr st p n → 0 ≤ k < n → ld st p k = Ok (word st p k) ∧ word_ok (word st p k).
Proof.
  intros (ws & E & Hl & Hw) Hk. unfold ld, word. rewrite E. cbn [deref]. rewrite (proj2 (Z.ltb_ge k 0)) by lia.
  destruct (lookup_lt_is_Some_2 ws (Z.to_nat k)) as [w Ew]; [lia|]. rewrite Ew.
  rewrite (list_lookup_total_correct _ _ _ Ew). split; [done|]. exact (Forall_lookup_1 _ _ _ _ Hw Ew).
Qed.

Lemma word_bit st p n i : arr st p n → 0 ≤ i → i / 64 < n → Z.testbit (word st p (i / 64)) (i mod 64) = bit st p i.
Proof.
  intros (ws & E & Hl & Hw) Hi Hk. unfold word, bit. rewrite E. assert (0 ≤ i / 64) by word_lia.
  destruct (lookup_lt_is_Some_2 ws (Z.to_nat (i / 64))) as [w Ew]; [lia|]. by rewrite Ew, (list_lookup_total_correct _ _ _ Ew).
Qed.

(** One scan of a word-wise combination [f] of one or two arrays, whose bits are
    the bitwise combination [g]. *)
Lemma scan_bits {A} bits test w W g (r1 r2 : A) :
  0 ≤ bits →
  (∀ k, 0 ≤ k < BITS_TO_LONGS bits → w k = Ok (W k) ∧ word_ok (W k) ∧ test k = Ok (negb (W k =? 0))) →
  (∀ i, 0 ≤ i < bits → Z.testbit (W (i / 64)) (i mod 64) = g i) →
  (let! b := any_word (Z.to_nat (bits / BITS_PER_LONG)) 0 test in
   if (b : bool) then Ok r1
   else let! b := last_word bits w in if (b : bool) then Ok r1 else Ok r2) =
  Ok (if existsb g (seqZ 0 bits) then r1 else r2).
Proof.
  intros Hb HW Hg. rewrite (scan_ok bits test w W r1 r2 Hb HW). by rewrite (existsb_ext_seqZ _ _ _ Hg).
Qed.

(** The single word of the inline versions. *)
Lemma one_word bits w g :
  1 ≤ bits ≤ 64 → word_ok w → (∀ i, 0 ≤ i < bits → Z.testbit w i = g i) →
  (Z.land w (BITMAP_LAST_WORD_MASK bits) =? 0) = negb (existsb g (seqZ 0 bits)).
Proof.
  intros Hb Hw Hg. rewrite <- (existsb_ext_seqZ _ _ _ Hg).
  destruct (decide (bits = 64)) as [->|].
  - change (BITMAP_LAST_WORD_MASK 64) with (Z.ones 64). rewrite Z.land_ones, Z.mod_small by (done || apply Hw).
    by apply word_zero.
  - assert (Em : bits mod 64 = bits) by (apply Z.mod_small; lia).
    rewrite last_mask, Em by (rewrite Em; lia).
    rewrite word_zero by (apply land_ok; [done|apply ones_nonneg; lia]). f_equal.
    apply eq_true_iff_eq. rewrite !existsb_seqZ. split; intros (k & Hk & HP); exists k.
    + rewrite Z.land_spec, testbit_ones in HP by lia. apply andb_true_iff in HP as [? ?%bool_decide_eq_true]. auto with lia.
    + rewrite Z.land_spec, testbit_ones, bool_decide_true, andb_true_r by lia. auto with lia.
Qed.

Section queries.
Context (st : wstore) (p q bits : Z).
Hypothesis (Hb : 1 ≤ bits) (Hp : arr st p (BITS_TO_LONGS bits)) (Hq : arr st q (BITS_TO_LONGS bits)).


#[local] Lemma bit_word r i : arr st r (BITS_TO_LONGS bits) → 0 ≤ i < bits → Z.testbit (word st r (i / 64)) (i mod 64) = bit st r i.
Proof using Type. intros Hr Hi. apply (word_bit _ _ _ _ Hr); word_lia. Qed.

#[local] Lemma bit_word0 r i : bits ≤ 64 → arr st r (BITS_TO_LONGS bits) → 0 ≤ i < bits → Z.testbit (word st r 0) i = bit st r i.
Proof using Type.
  intros Hs Hr Hi. rewrite <- bit_word by done. by rewrite Z.div_small, Z.mod_small by lia.
Qed.

#[local] Lemma word_at r k : arr st r (BITS_TO_LONGS bits) → 0 ≤ k < BITS_TO_LONGS bits → ld st r k = Ok (word st r k) ∧ word_ok (word st r k).
Proof using Type. apply ld_word. Qed.

#[local] Lemma first_word r : arr st r (BITS_TO_LONGS bits) → ld st r 0 = Ok (word st r 0) ∧ word_ok (word st r 0).
Proof using Hb. intros Hr. apply word_at; [done|word_lia]. Qed.

Lemma bitmap_empty_ok : bitmap_empty st p bits = Ok (if existsb (bit st p) (seqZ 0 bits) then 0 else 1).
Proof using Hb Hp.
  unfold bitmap_empty. destruct (Z.leb_spec bits BITS_PER_LONG) as [Hs|Hs].
  - destruct (first_word p Hp) as [-> Hw]. cbn [mbind outcome_bind].
    rewrite (one_word bits _ (bit st p)); [by destruct (existsb _ _)|done|done|]. intros. by apply bit_word0.
  - apply (scan_bits bits _ _ (word st p)); [lia| |intros; by apply bit_word].
    intros k Hk. destruct (word_at p k Hp Hk) as [-> Hw]. done.
Qed.

Lemma bitmap_full_ok :
  bitmap_full st p bits = Ok (if existsb (λ i, negb (bit st p i)) (seqZ 0 bits) then 0 else 1).
Proof using Hb Hp.
  unfold bitmap_full. destruct (Z.leb_spec bits BITS_PER_LONG) as [Hs|Hs].
  - destruct (first_word p Hp) as [-> Hw]. cbn [mbind outcome_bind].
    rewrite (one_word bits _ (λ i, negb (bit st p i))); [by destruct (existsb _ _)|done|apply lnot64_ok|].
    intros i Hi. rewrite testbit_lnot64, bit_word0 by (done || word_lia). done.
  - apply (scan_bits bits _ _ (λ k, lnot64 (word st p k))); [lia| |].
    + intros k Hk. destruct (word_at p k Hp Hk) as [-> Hw]. split_and!; [done|apply lnot64_ok..|done].
    + intros i Hi. rewrite testbit_lnot64, bit_word by (done || word_lia). done.
Qed.

Lemma lxor_zero a b : negb (a =? b) = negb (Z.lxor a b =? 0).
Proof using Type.
  f_equal. destruct (Z.eqb_spec a b) as [->|Hn]; [by rewrite Z.lxor_nilpotent|]. symmetry. apply Z.eqb_neq.
  intros ?%Z.lxor_eq. done.
Qed.

Lemma bitmap_equal_ok :
  bitmap_equal st p q bits = Ok (if existsb (λ i, xorb (bit st p i) (bit st q i)) (seqZ 0 bits) then 0 else 1).
Proof using Hb Hp Hq.
  unfold bitmap_equal. destruct (Z.leb_spec bits BITS_PER_LONG) as [Hs|Hs].
  - destruct (first_word p Hp) as [-> Hw], (first_word q Hq) as [-> Hv]. cbn [mbind outcome_bind].
    rewrite (one_word bits _ (λ i, xorb (bit st p i) (bit st q i))); [by destruct (existsb _ _)|done|by apply lxor_ok|].
    intros i Hi. rewrite Z.lxor_spec, !bit_word0 by done. done.
  - apply (scan_bits bits _ _ (λ k, Z.lxor (word st p k) (word st q k))); [lia| |].
    + intros k Hk. destruct (word_at p k Hp Hk) as [-> Hw], (word_at q k Hq Hk) as [-> Hv].
      cbn [mbind outcome_bind]. rewrite lxor_zero. split_and!; [done|by apply lxor_ok..|done].
    + intros i Hi. rewrite Z.lxor_spec, !bit_word by done. done.
Qed.

Lemma bitmap_intersects_ok :
  bitmap_intersects st p q bits = Ok (if existsb (λ i, bit st p i && bit st q i) (seqZ 0 bits) then 1 else 0).
Proof using Hb Hp Hq.
  unfold bitmap_intersects. destruct (Z.leb_spec bits BITS_PER_LONG) as [Hs|Hs].
  - destruct (first_word p Hp) as [-> Hw], (first_word q Hq) as [-> Hv]. cbn [mbind outcome_bind].
    rewrite (one_word bits _ (λ i, bit st p i && bit st q i));
      [by destruct (existsb _ _)|done|apply land_ok; [done|apply Hv]|].
    intros i Hi. rewrite Z.land_spec, !bit_word0 by done. done.
  - apply (scan_bits bits _ _ (λ k, Z.land (word st p k) (word st q k))); [lia| |].
    + intros k Hk. destruct (word_at p k Hp Hk) as [-> Hw], (word_at q k Hq Hk) as [-> Hv].
      cbn [mbind outcome_bind]. split_and!; [done|apply land_ok; [done|apply Hv]..|done].
    + intros i Hi. rewrite Z.land_spec, !bit_word by done. done.
Qed.

Lemma bitmap_subset_ok :
  bitmap_subset st p q bits = Ok (if existsb (λ i, bit st p i && negb (bit st q i)) (seqZ 0 bits) then 0 else 1).
Proof using Hb Hp Hq.
  unfold bitmap_subset. destruct (Z.leb_spec bits BITS_PER_LONG) as [Hs|Hs].
  - destruct (first_word p Hp) as [-> Hw], (first_word q Hq) as [-> Hv]. cbn [mbind outcome_bind].
    rewrite (one_word bits _ (λ i, bit st p i && negb (bit st q i)));
      [by destruct (existsb _ _)|done|apply land_ok; [done|apply lnot64_ok]|].
    intros i Hi. rewrite Z.land_spec, testbit_lnot64, !bit_word0 by (done || word_lia). done.
  - apply (scan_bits bits _ _ (λ k, Z.land (word st p k) (lnot64 (word st q k)))); [lia| |].
    + intros k Hk. destruct (word_at p k Hp Hk) as [-> Hw], (word_at q k Hq Hk) as [-> Hv].
      cbn [mbind outcome_bind]. split_and!; [done|apply land_ok; [done|apply lnot64_ok]..|done].
    + intros i Hi. rewrite Z.land_spec, testbit_lnot64, !bit_word by (done || word_lia). done.
Qed.

End queries.

(** The operation returns 1 when [P] holds and 0 when it does not. *)
Definition answers (o : outcome Z) (P : Prop) : Prop := ∃ r, o = Ok r ∧ (r = 0 ∨ r = 1) ∧ (r = 1 ↔ P).

Lemma answers_no f n P :
  (P ↔ ∀ i, 0 ≤ i < n → f i = false) → answers (Ok (if existsb f (seqZ 0 n) then 0 else 1)) P.
Proof.
  intros HP. eexists. split; [done|]. destruct (existsb f (seqZ 0 n)) eqn:E; (split; [by (left + right)|]); rewrite HP.
  - apply existsb_seqZ in E as (i & Hi & Hf). split; [done|]. intros H. rewrite H in Hf by lia. done.
  - split; [|done]. intros _ i Hi. apply not_true_iff_false. intros Hf. apply not_true_iff_false in E.
    apply E, existsb_seqZ. eauto.
Qed.

Lemma answers_yes f n P :
  (P ↔ ∃ i, 0 ≤ i < n ∧ f i = true) → answers (Ok (if existsb f (seqZ 0 n) then 1 else 0)) P.
Proof.
  intros HP. eexists. split; [done|]. destruct (existsb f (seqZ 0 n)) eqn:E; (split; [by (left + right)|]); rewrite HP.
  - apply existsb_seqZ in E. done.
  - split; [done|]. intros Hx. apply (existsb_seqZ f 0 n) in Hx. congruence.
Qed.

Lemma count_filter P n a : count P a n = Z.of_nat (length (filter (λ i, P i = true) (seqZ a (Z.of_nat n)))).
Proof.
  revert a. induction n as [|n IH]; intros a; [done|]. rewrite seqZ_cons by lia. cbn [count].
  replace (Z.pred (Z.of_nat (S n))) with (Z.of_nat n) by lia. rewrite IH. change (Z.succ a) with (a + 1).
  destruct (P a) eqn:E; simpl; rewrite ?filter_cons_True, ?filter_cons_False by congruence; simpl; lia.
Qed.

(** C25: The tests of bitmap.h, with the routines of bitmap.c they call for more
    than one word, answer exactly the question their name asks of the valid bits,
    whatever the unused bits of the last word hold; the weight is the number of
    valid bits set. *)
Theorem bitmap_queries_correct (st : wstore) (p q bits : Z)
  (Hb : 1 ≤ bits) (Hp : arr st p (BITS_TO_LONGS bits)) (Hq : arr st q (BITS_TO_LONGS bits)) :
  answers (bitmap_empty st p bits) (∀ i, 0 ≤ i < bits → bit st p i = false) ∧
  answers (bitmap_full st p bits) (∀ i, 0 ≤ i < bits → bit st p i = true) ∧
  answers (bitmap_equal st p q bits) (∀ i, 0 ≤ i < bits → bit st p i = bit st q i) ∧
  answers (bitmap_intersects st p q bits) (∃ i, 0 ≤ i < bits ∧ bit st p i = true ∧ bit st q i = true) ∧
  answers (bitmap_subset st p q bits) (∀ i, 0 ≤ i < bits → bit st p i = true → bit st q i = true) ∧
  bitmap_weight st p bits = Ok (Z.of_nat (length (filter (λ i, bit st p i = true) (seqZ 0 bits)))).
Proof.
  rewrite bitmap_empty_ok, bitmap_full_ok, bitmap_equal_ok, bitmap_intersects_ok, bitmap_subset_ok by done.
  split_and!; [apply answers_no|apply answers_no|apply answers_no|apply answers_yes|apply answers_no|].
  - done.
  - by setoid_rewrite negb_false_iff.
  - split; intros H i Hi; specialize (H i Hi); destruct (bit st p i), (bit st q i); done.
  - by setoid_rewrite andb_true_iff.
  - split; intros H i Hi; specialize (H i Hi); destruct (bit st p i), (bit st q i); naive_solver.
  - unfold bitmap_weight. rewrite __bitmap_weight_ok, count_filter, Z2Nat.id by (done || lia). done.
Qed.

(** A store of two arrays for the witnesses. *)
Definition two_maps : wstore := {[ 100 := [0xFF00; 0xF000000000000001]; 200 := [0x0F00; 0x7000000000000001] ]}.

Lemma arr_two p : p = 100 ∨ p = 200 → arr two_maps p 2.
Proof. intros [-> | ->]; eexists; (split; [reflexivity|]); (split; [done|]); repeat constructor; done. Qed.

Lemma bitmap_queries_correct_witness :
  bitmap_weight two_maps 100 70 = Ok 9 ∧ answers (bitmap_subset two_maps 200 100 70) True.
Proof.
  pose proof (bitmap_queries_correct two_maps 200 100 70 ltac:(lia) (arr_two 200 (or_intror eq_refl)) (arr_two 100 (or_introl eq_refl))) as (_ & _ & _ & _ & Hs & _).
  split; [vm_compute; reflexivity|]. destruct Hs as (r & Hr & H01 & _). exists r. split; [exact Hr|].
  split; [exact H01|]. split; [done|]. intros _. vm_compute in Hr. congruence.
Defined.

(** ** Logical operations *)

(** C26: Each operation of bitmap.h that writes a bitmap, with the routine of
    bitmap.c it calls for more than one word, sets every bit of the words of the
    destination to the operation's bit and changes nothing else; destination and
    sources may be the same array. The complement and the filled bitmap have
    their unused bits clear. *)
Theorem bitmap_operations_correct (st : wstore) (dst p q bits : Z) (n := BITS_TO_LONGS bits)
  (Hb : 1 ≤ bits) (Hd : arr st dst n) (Hp : arr st p n) (Hq : arr st q n) :
  writes (bitmap_and dst p q bits st) st dst n (λ i, bit st p i && bit st q i) ∧
  writes (bitmap_or dst p q bits st) st dst n (λ i, bit st p i || bit st q i) ∧
  writes (bitmap_xor dst p q bits st) st dst n (λ i, xorb (bit st p i) (bit st q i)) ∧
  writes (bitmap_andnot dst p q bits st) st dst n (λ i, bit st p i && negb (bit st q i)) ∧
  writes (bitmap_complement dst p bits st) st dst n (λ i, negb (bit st p i) && bool_decide (i < bits)) ∧
  writes (bitmap_zero dst bits st) st dst n (λ _, false) ∧
  writes (bitmap_fill dst bits st) st dst n (λ i, bool_decide (i < bits)) ∧
  writes (bitmap_copy dst p bits st) st dst n (bit st p).
Proof.
  subst n. split_and!.
  - apply (pairwise st dst bits Hb Hd p q Z.land andb Hp Hq). intros a b Ha Hb'.
    split; [apply land_ok; [done|apply Hb']|]. intros j _. apply Z.land_spec.
  - apply (pairwise st dst bits Hb Hd p q Z.lor orb Hp Hq). intros a b Ha Hb'.
    split; [by apply lor_ok|]. intros j _. apply Z.lor_spec.
  - apply (pairwise st dst bits Hb Hd p q Z.lxor xorb Hp Hq). intros a b Ha Hb'.
    split; [by apply lxor_ok|]. intros j _. apply Z.lxor_spec.
  - apply (pairwise st dst bits Hb Hd p q (λ a b, Z.land a (lnot64 b)) (λ a b, a && negb b) Hp Hq). intros a b Ha Hb'.
    split; [apply land_ok; [done|apply lnot64_ok]|]. intros j Hj. rewrite Z.land_spec, testbit_lnot64 by done. done.
  - by apply bitmap_complement_ok.
  - by apply bitmap_zero_ok.
  - by apply bitmap_fill_ok.
  - by apply bitmap_copy_ok.
Qed.

Lemma bitmap_operations_correct_witness :
  writes (bitmap_xor 100 100 200 70 two_maps) two_maps 100 2 (λ i, xorb (bit two_maps 100 i) (bit two_maps 200 i)) ∧
  bitmap_xor 100 100 200 70 two_maps = Ok (<[100 := [0xF000; 0x8000000000000000]]> two_maps).
Proof.
  split; [|vm_compute; reflexivity].
  apply (bitmap_operations_correct two_maps 100 100 200 70); try lia; apply arr_two; auto.
Defined.

(** ** Shifts *)

(** C27: The shifts move bit [i + shift] (right) or [i - shift] (left) to bit
    [i], take zeros from outside the valid bits, leave the unused bits of the
    destination clear and change nothing else, also when the destination is the
    source; any count up to the number of words is allowed. A left shift within
    one word agrees. *)
Theorem bitmap_shifts_correct (st : wstore) (dst src shift bits : Z) (n := BITS_TO_LONGS bits)
  (Hb : 1 ≤ bits) (Hs : 0 ≤ shift) (Hoff : shift / 64 ≤ n) (Hd : arr st dst n) (Hp : arr st src n) :
  writes (__bitmap_shift_right dst src shift bits st) st dst n
    (λ i, bit st src (i + shift) && bool_decide (i + shift < bits)) ∧
  writes (__bitmap_shift_left dst src shift bits st) st dst n
    (λ i, bit st src (i - shift) && bool_decide (shift ≤ i < bits)) ∧
  (64 < bits ∨ shift < 64 →
   writes (bitmap_shift_left dst src shift bits st) st dst n
     (λ i, bit st src (i - shift) && bool_decide (shift ≤ i < bits))).
Proof.
  subst n. pose proof (__bitmap_shift_left_ok st dst src shift bits Hb Hs Hd Hp Hoff) as HL.
  split_and!; [by apply __bitmap_shift_right_ok|done|]. intros Hc.
  unfold bitmap_shift_left. destruct (Z.leb_spec bits BITS_PER_LONG) as [Hsm|]; [|done]. unfold BITS_PER_LONG in Hsm.
  rewrite one_long in * by lia. destruct (ld_ok st src _ 0 Hp) as (w & -> & Hw & Hbw); [lia|]. cbn [mbind outcome_bind].
  eapply store_first; [exact Hd|lia|apply land_ok; [apply shl64_ok|apply last_mask_ok]|].
  intros j Hj. rewrite Z.land_spec, testbit_shl64, last_mask_bit, one_long by (done || lia).
  destruct (decide (shift ≤ j)).
  - rewrite bool_decide_true, Hbw by lia. cbn [andb]. apply f_equal2; [f_equal; lia|apply bool_decide_ext; lia].
  - rewrite (bool_decide_false (shift ≤ j)), (bool_decide_false (shift ≤ j < bits)) by lia. by rewrite andb_false_r.
Qed.

Lemma bitmap_shifts_correct_witness :
  writes (__bitmap_shift_right 100 100 9 70 two_maps) two_maps 100 2
    (λ i, bit two_maps 100 (i + 9) && bool_decide (i + 9 < 70)) ∧
  __bitmap_shift_right 100 100 9 70 two_maps = Ok (<[100 := [0x8000000000007F; 0]]> two_maps).
Proof.
  split; [|vm_compute; reflexivity].
  apply (bitmap_shifts_correct two_maps 100 100 9 70); try lia; try done; apply arr_two; auto.
Defined.

(** The right shift of a bitmap of one word lets unused bits in: for every
    count and every size below a full word there are two stores whose source
    bitmaps agree on all valid bits and whose results differ in a valid bit,
    against the rule at the top of bitmap.c. *)
Theorem bitmap_shift_right_unused (shift bits : Z) (Hs : 1 ≤ shift < 64) (Hb : 1 ≤ bits < 64) :
  ∃ (st1 st2 st1' st2' : wstore) (i : Z),
    arr st1 1 1 ∧ arr st2 1 1 ∧ (∀ j, 0 ≤ j < bits → bit st1 1 j = bit st2 1 j) ∧
    bitmap_shift_right 2 1 shift bits st1 = Ok st1' ∧ bitmap_shift_right 2 1 shift bits st2 = Ok st2' ∧
    0 ≤ i < bits ∧ bit st1' 2 i ≠ bit st2' 2 i.
Proof.
  set (m := Z.max shift bits). assert (Hm : word_ok (2 ^ m)).
  { split; [apply Z.pow_nonneg; lia|]. apply Z.pow_lt_mono_r; lia. }
  exists {[1 := [0]; 2 := [0]]}, {[1 := [2 ^ m]; 2 := [0]]}.
  assert (E : (bits <=? BITS_PER_LONG) = true) by (apply Z.leb_le; unfold BITS_PER_LONG; lia).
  unfold bitmap_shift_right. rewrite E. do 2 eexists. exists (m - shift). split_and!.
  - eexists. split; [reflexivity|]. split; [done|]. constructor; [done|constructor].
  - eexists. split; [reflexivity|]. split; [done|]. constructor; [done|constructor].
  - intros j Hj. unfold bit. rewrite !lookup_insert_eq. rewrite Z.div_small, Z.mod_small by lia. simpl.
    rewrite Z.bits_0, Z.pow2_bits_false by lia. done.
  - reflexivity.
  - reflexivity.
  - lia.
  - lia.
  - unfold bit. rewrite !lookup_insert_eq. rewrite Z.div_small, Z.mod_small by lia. simpl.
    rewrite !testbit_shr64, Z.bits_0, bool_decide_true by (done || lia).
    replace (m - shift + shift) with m by lia. rewrite Z.pow2_bits_true by lia. done.
Qed.

Lemma bitmap_shift_right_unused_witness :
  ∃ (st1 st2 st1' st2' : wstore) (i : Z),
    arr st1 1 1 ∧ arr st2 1 1 ∧ (∀ j, 0 ≤ j < 5 → bit st1 1 j = bit st2 1 j) ∧
    bitmap_shift_right 2 1 1 5 st1 = Ok st1' ∧ bitmap_shift_right 2 1 1 5 st2 = Ok st2' ∧
    0 ≤ i < 5 ∧ bit st1' 2 i ≠ bit st2' 2 i.
Proof. apply (bitmap_shift_right_unused 1 5); lia. Defined.
