(* ===== verification/BitmapRegions.v ===== *)
(** * Bitmaps: regions

    [bitmap_find_free_region], [bitmap_allocate_region] and
    [bitmap_release_region] hand out aligned blocks of [2 ^ order] bits. *)

From S2P Require Import Prelude Bits Bitmap BitmapWords.
Open Scope xen_scope.

Lemma region_mask_ones pages : 1 ≤ pages ≤ 64 → region_mask pages = Z.ones pages.
Proof.
  intros H. unfold region_mask, shl64. rewrite (Z.mod_small (pages - 1) 64), Z.shiftl_1_l by lia.
  assert (E : 2 ^ pages = 2 * 2 ^ (pages - 1)).
  { replace pages with (1 + (pages - 1)) at 1 by lia. by rewrite Z.pow_add_r by lia. }
  assert (0 < 2 ^ (pages - 1)) by (apply Z.pow_pos_nonneg; lia).
  assert (2 ^ pages ≤ 2 ^ 64) by (apply Z.pow_le_mono_r; lia).
  rewrite (u64_small (2 ^ (pages - 1))) by lia. rewrite u64_small by lia. rewrite Z.ones_equiv. lia.
Qed.

(** The region of [2 ^ order] bits at [pos]. *)
Definition in_region (pos order i : Z) : Prop := pos ≤ i < pos + 2 ^ order.

#[global] Instance in_region_dec pos order i : Decision (in_region pos order i).
Proof. unfold in_region. apply _. Defined.

(** An aligned position; no region crosses a word. *)
Definition aligned (pos order : Z) : Prop := 0 ≤ pos ∧ pos mod 2 ^ order = 0.

Lemma pages_range order : 0 ≤ order ≤ 6 → 1 ≤ 2 ^ order ≤ 64 ∧ (2 ^ order | 64).
Proof.
  intros Ho.
  assert (order = 0 ∨ order = 1 ∨ order = 2 ∨ order = 3 ∨ order = 4 ∨ order = 5 ∨ order = 6) as H by lia.
  destruct H as [-> | [-> | [-> | [-> | [-> | [-> | ->]]]]]]; (split; [lia|]).
  - by exists 64. - by exists 32. - by exists 16. - by exists 8. - by exists 4. - by exists 2. - by exists 1.
Qed.

Section region.
Context (pos order : Z).
Hypothesis (Ho : 0 ≤ order ≤ 6) (Hpos : aligned pos order).

(** A region lies within its word. *)
Lemma region_within : pos mod 64 + 2 ^ order ≤ 64.
Proof using Ho Hpos.
  destruct (pages_range order Ho) as [Hp [c Hc]], Hpos as [H0 Hm]. set (P := 2 ^ order) in *.
  pose proof (Z.div_mod pos P ltac:(lia)) as E. rewrite Hm in E.
  pose proof (Z.div_mod pos 64 ltac:(lia)) as E64. pose proof (Z.mod_pos_bound pos 64 ltac:(lia)).
  assert (pos mod 64 = P * (pos / P - c * (pos / 64))) as Er by nia.
  assert (pos / P - c * (pos / 64) < c) by nia. nia.
Qed.

Lemma region_bits j :
  0 ≤ j < 64 →
  Z.testbit (shl64 (region_mask (2 ^ order)) (pos - pos / 64 * 64)) j = bool_decide (in_region pos order (64 * (pos / 64) + j)).
Proof using Ho Hpos.
  intros Hj. pose proof region_within as Hw. destruct (pages_range order Ho) as [Hp _].
  pose proof (Z.div_mod pos 64 ltac:(lia)) as E64. pose proof (Z.mod_pos_bound pos 64 ltac:(lia)) as Hm64.
  assert (Hpow : 0 < 2 ^ 2 ^ order) by (apply Z.pow_pos_nonneg; lia).
  rewrite region_mask_ones by lia. rewrite testbit_shl64; [| |lia|done].
  - unfold in_region. destruct (decide (pos - pos / 64 * 64 ≤ j)).
    + rewrite (bool_decide_true (_ ≤ j)), testbit_ones by lia. apply bool_decide_ext. lia.
    + rewrite (bool_decide_false (_ ≤ j)) by lia. symmetry. apply bool_decide_false. lia.
  - split; [apply ones_nonneg; lia|]. rewrite Z.ones_equiv.
    assert (2 ^ 2 ^ order ≤ 2 ^ 64) by (apply Z.pow_le_mono_r; lia). lia.
Qed.

Lemma in_region_word i : 0 ≤ i → in_region pos order i → i / 64 = pos / 64.
Proof using Ho Hpos.
  intros Hi Hr. pose proof region_within. unfold in_region in Hr. set (P := 2 ^ order) in *. word_lia.
Qed.

End region.

(** ** The three operations *)

(** No bit of the region is set. *)
Definition free (st : wstore) (p pos order : Z) : Prop := ∀ i, in_region pos order i → bit st p i = false.

(** [st'] is [st] with the bits of the region set to [b]. *)
Definition marks (st st' : wstore) (p pos order : Z) (b : bool) : Prop :=
  (∀ q i, 0 ≤ i → bit st' q i = if decide (q = p ∧ in_region pos order i) then b else bit st q i) ∧
  (∀ q n, arr st q n → arr st' q n).

Section ops.
Context (st : wstore) (p pos order n : Z).
Hypothesis (Ho : 0 ≤ order ≤ 6) (Hpos : aligned pos order) (Ha : arr st p n) (Hn : pos / 64 < n).

Let m : Z := shl64 (region_mask (2 ^ order)) (pos - pos / 64 * 64).

#[local] Lemma m_ok : word_ok m.
Proof using Type. apply shl64_ok. Qed.

#[local] Lemma region_word :
  ∃ w, ld st p (pos / 64) = Ok w ∧ word_ok w ∧
    (∀ j, 0 ≤ j < 64 → Z.testbit w j = bit st p (64 * (pos / 64) + j)) ∧
    (Z.land w m =? 0 = true ↔ free st p pos order).
Proof using All.
  destruct Hpos as [H0 _]. destruct (ld_ok st p n (pos / 64) Ha) as (w & -> & Hw & Hb); [word_lia|].
  exists w. split_and!; try done; try apply Hw. rewrite word_zero by (apply land_ok; [done|apply m_ok]).
  rewrite negb_true_iff, <- not_true_iff_false, existsb_seqZ. split.
  - intros Hno i Hi. apply not_true_iff_false. intros Hbit. apply Hno. exists (i mod 64).
    assert (0 ≤ i) by (unfold in_region in Hi; lia). pose proof (in_region_word pos order Ho Hpos i ltac:(done) Hi) as Ew.
    assert (Ei : 64 * (pos / 64) + i mod 64 = i) by word_lia.
    split; [word_lia|]. rewrite Z.land_spec, Hb by word_lia. unfold m. rewrite region_bits, Ei by (done || word_lia).
    by rewrite Hbit, bool_decide_true.
  - intros Hf (j & Hj & Hbit). rewrite Z.land_spec, Hb in Hbit by lia. unfold m in Hbit. rewrite region_bits in Hbit by (done || lia).
    apply andb_true_iff in Hbit as [Hbit Hr%bool_decide_eq_true]. rewrite (Hf _ Hr) in Hbit. done.
Qed.

(** Storing the word with the region set or cleared. *)
#[local] Lemma mark_word w v b :
  (∀ j, 0 ≤ j < 64 → Z.testbit w j = bit st p (64 * (pos / 64) + j)) → word_ok v →
  (∀ j, 0 ≤ j < 64 → Z.testbit v j = if Z.testbit m j then b else Z.testbit w j) →
  ∃ st', sto st p (pos / 64) v = Ok st' ∧ marks st st' p pos order b.
Proof using All.
  intros Hw Hv Hvb. destruct Hpos as [H0 _]. destruct (sto_ok st p n (pos / 64) v Ha) as (st' & -> & Hb & Ha'); [word_lia|done|].
  exists st'. split; [done|]. split; [|done]. intros q i Hi. rewrite Hb by done.
  destruct (decide (q = p)) as [Eq|Eq]; [|by rewrite !decide_False by (intros [? _]; done)].
  destruct (decide (i / 64 = pos / 64)) as [E|E].
  - assert (Ei : 64 * (pos / 64) + i mod 64 = i) by word_lia.
    rewrite decide_True by done. rewrite Hvb by word_lia. unfold m. rewrite region_bits, Ei by (done || word_lia).
    destruct (decide (in_region pos order i)) as [Hr|Hr].
    + by rewrite bool_decide_true, decide_True by done.
    + rewrite bool_decide_false, decide_False by (done || intros [_ ?]; done). rewrite Hw, Ei by word_lia. by rewrite Eq.
  - rewrite !decide_False; [done| |].
    + intros [_ Hr]. apply E. by apply (in_region_word pos order).
    + intros [_ ?]. done.
Qed.

Lemma set_region w :
  word_ok w → (∀ j, 0 ≤ j < 64 → Z.testbit w j = bit st p (64 * (pos / 64) + j)) →
  ∃ st', sto st p (pos / 64) (Z.lor w m) = Ok st' ∧ marks st st' p pos order true.
Proof using All.
  intros Hok Hw. apply (mark_word w); [done|apply lor_ok; [done|apply m_ok]|].
  intros j Hj. rewrite Z.lor_spec. destruct (Z.testbit m j); [apply orb_true_r|apply orb_false_r].
Qed.

Lemma bitmap_release_region_ok :
  ∃ st', bitmap_release_region p pos order st = Ok st' ∧ marks st st' p pos order false.
Proof using All.
  unfold bitmap_release_region, BITS_PER_LONG. rewrite Z.shiftl_1_l.
  destruct region_word as (w & -> & Hok & Hw & _). cbn [mbind outcome_bind]. fold m. apply (mark_word w); [done| |].
  - apply land_ok; [done|apply lnot64_ok].
  - intros j Hj. rewrite Z.land_spec, testbit_lnot64 by done.
    destruct (Z.testbit m j); [apply andb_false_r|apply andb_true_r].
Qed.

Lemma bitmap_allocate_region_ok :
  (free st p pos order ∧ ∃ st', bitmap_allocate_region p pos order st = Ok (0, st') ∧ marks st st' p pos order true) ∨
  (¬ free st p pos order ∧ bitmap_allocate_region p pos order st = Ok (- EBUSY, st)).
Proof using All.
  unfold bitmap_allocate_region, BITS_PER_LONG. rewrite Z.shiftl_1_l.
  destruct (pages_range order Ho) as [Hp _]. destruct (Z.gtb_spec (2 ^ order) 64); [lia|]. cbn [BUG_ON].
  destruct region_word as (w & -> & Hok & Hw & Hf). cbn [mbind outcome_bind]. fold m.
  destruct (Z.land w m =? 0) eqn:E; cbn [negb].
  - left. split; [by apply Hf|]. destruct (set_region w Hok Hw) as (st' & -> & Hst). exists st'. done.
  - right. split; [|done]. intros Hfree%Hf. done.
Qed.

End ops.

(** ** The search *)

Section search.
Context (st : wstore) (p bits order : Z).
Hypothesis (Ho : 0 ≤ order ≤ 6) (Ha : arr st p (BITS_TO_LONGS bits)).

(** The first free aligned region that starts in the bitmap, or none. *)
Definition found (o : outcome (Z * wstore)) : Prop :=
  (∃ pos st', o = Ok (pos, st') ∧ aligned pos order ∧ pos < bits ∧ free st p pos order ∧
     (∀ pos', aligned pos' order → pos' < pos → ¬ free st p pos' order) ∧ marks st st' p pos order true) ∨
  (o = Ok (- ENOMEM, st) ∧ ∀ pos, aligned pos order → pos < bits → ¬ free st p pos order).

#[local] Lemma next_aligned i j :
  aligned i order → aligned j order → i < j → i + 2 ^ order ≤ j.
Proof using Ho.
  destruct (pages_range order Ho) as [Hp _]. intros [? Hi] [? Hj] Hlt. set (P := 2 ^ order) in *.
  pose proof (Z.div_mod i P ltac:(lia)) as Ei. pose proof (Z.div_mod j P ltac:(lia)) as Ej. rewrite Hi in Ei. rewrite Hj in Ej.
  assert (i / P + 1 ≤ j / P) by nia. nia.
Qed.

#[local] Lemma find_free_loop_ok n i :
  aligned i order → Z.max 0 (bits - i) < Z.of_nat n → (∀ pos', aligned pos' order → pos' < i → ¬ free st p pos' order) →
  found (find_free_loop n p bits (2 ^ order) (region_mask (2 ^ order)) i st).
Proof using Ho Ha.
  destruct (pages_range order Ho) as [Hp _]. revert i.
  induction n as [|n IH]; intros i Hi Hn Hno; cbn [find_free_loop]; unfold BITS_PER_LONG.
  { lia. }
  destruct (Z.ltb_spec i bits) as [Hlt|Hge].
  - assert (Hi64 : i / 64 < BITS_TO_LONGS bits) by (destruct Hi; word_lia).
    destruct (region_word st p i order _ Ho Hi Ha Hi64) as (w & -> & Hok & Hw & Hf). cbn [mbind outcome_bind].
    destruct (Z.land w _ =? 0) eqn:E.
    + left. destruct (set_region st p i order _ Ho Hi Ha Hi64 w Hok Hw) as (st' & -> & Hst). cbn [mbind outcome_bind].
      exists i, st'. split_and!; try done; try apply Hi; try apply Hst. by apply Hf.
    + apply IH; [|lia|].
      * destruct Hi as [? Em]. split; [lia|]. rewrite Z.add_mod, Em, Z_mod_same_full, Z.add_0_l, Z.mod_0_l; lia.
      * intros pos' Hpos' Hlt'. destruct (decide (pos' < i)); [by apply Hno|].
        destruct (decide (pos' = i)) as [->|]; [intros Hfr%Hf; done|].
        pose proof (next_aligned i pos' Hi Hpos' ltac:(lia)). lia.
  - right. split; [done|]. intros pos Hpos Hlt. apply Hno; [done|lia].
Qed.

Lemma bitmap_find_free_region_ok : found (bitmap_find_free_region p bits order st).
Proof using Ho Ha.
  destruct (pages_range order Ho) as [Hp _]. unfold bitmap_find_free_region. rewrite Z.shiftl_1_l.
  destruct (Z.gtb_spec (2 ^ order) BITS_PER_LONG) as [Hgt|_]; [unfold BITS_PER_LONG in Hgt; lia|].
  apply find_free_loop_ok; [split; [done|apply Z.mod_0_l; lia]|lia|]. intros pos' [? _] ?. lia.
Qed.

End search.

(** ** Users of a bitmap *)

Inductive request := Find (order : Z) | Claim (pos order : Z) | Release (pos order : Z).

(** The regions a user holds, with the region of each successful request added
    and each released one removed. *)
Fixpoint give_back (r : Z * Z) (live : list (Z * Z)) : list (Z * Z) :=
  match live with [] => [] | s :: live => if decide (s = r) then live else s :: give_back r live end.

Definition serve (p bits : Z) (r : request) (s : wstore * list (Z * Z)) : outcome (wstore * list (Z * Z)) :=
  let '(st, live) := s in
  match r with
  | Find order =>
      let! (pos, st) := bitmap_find_free_region p bits order st in
      Ok (st, if pos <? 0 then live else (pos, order) :: live)
  | Claim pos order =>
      let! (rc, st) := bitmap_allocate_region p pos order st in
      Ok (st, if rc =? 0 then (pos, order) :: live else live)
  | Release pos order =>
      let! st := bitmap_release_region p pos order st in
      Ok (st, give_back (pos, order) live)
  end.

(** A user asks for orders a word can hold, claims aligned regions that start in
    the bitmap and releases only what it holds. *)
Definition polite (bits : Z) (r : request) (live : list (Z * Z)) : Prop :=
  match r with
  | Find order => 0 ≤ order ≤ 6
  | Claim pos order => 0 ≤ order ≤ 6 ∧ aligned pos order ∧ pos < bits
  | Release pos order => (pos, order) ∈ live
  end.

Inductive served (p bits : Z) : list request → wstore * list (Z * Z) → wstore * list (Z * Z) → Prop :=
| served_nil s : served p bits [] s s
| served_cons r rs s s1 s2 :
    polite bits r s.2 → serve p bits r s = Ok s1 → served p bits rs s1 s2 → served p bits (r :: rs) s s2.

(** How many of the regions held contain [i]. *)
Fixpoint holders (live : list (Z * Z)) (i : Z) : Z :=
  match live with
  | [] => 0
  | (pos, order) :: live => (if decide (in_region pos order i) then 1 else 0) + holders live i
  end.

(** The bits set are exactly those of the regions held, and no two regions held
    share a bit. *)
Definition held_ok (p bits : Z) (s : wstore * list (Z * Z)) : Prop :=
  arr s.1 p (BITS_TO_LONGS bits) ∧
  Forall (λ r, 0 ≤ r.2 ≤ 6 ∧ aligned r.1 r.2 ∧ r.1 < bits) s.2 ∧
  ∀ i, 0 ≤ i → holders s.2 i = Z.b2z (bit s.1 p i).

Lemma holders_nonneg live i : 0 ≤ holders live i.
Proof. induction live as [|[pos order] live IH]; cbn [holders]; [done|]. case_decide; lia. Qed.

Lemma holders_give_back pos order live i :
  (pos, order) ∈ live →
  holders (give_back (pos, order) live) i = holders live i - (if decide (in_region pos order i) then 1 else 0).
Proof.
  induction live as [|[pos' order'] live IH]; intros Hin; [by apply elem_of_nil in Hin|]. cbn [give_back holders].
  destruct (decide ((pos', order') = (pos, order))) as [E|E]; [simplify_eq; lia|].
  cbn [holders]. rewrite IH; [lia|]. apply elem_of_cons in Hin as [?|?]; congruence.
Qed.

Lemma give_back_subset r live s : s ∈ give_back r live → s ∈ live.
Proof.
  induction live as [|t live IH]; cbn [give_back]; [done|]. case_decide; rewrite !elem_of_cons; naive_solver.
Qed.

Section serve.
Context (p bits : Z) (st : wstore) (live : list (Z * Z)).
Hypothesis (Hs : held_ok p bits (st, live)).

#[local] Lemma take_ok st' pos order :
  0 ≤ order ≤ 6 → aligned pos order → pos < bits → free st p pos order → marks st st' p pos order true →
  held_ok p bits (st', (pos, order) :: live).
Proof using Hs.
  intros Ho Hp Hlt Hf [Hb Ha]. destruct Hs as (Harr & Hl & Hh). simpl in *. split_and!; [by apply Ha|by constructor|].
  intros i Hi. cbn [fst snd holders]. rewrite Hh, Hb by done. destruct (decide (in_region pos order i)) as [Hr|Hr].
  - rewrite decide_True by done. by rewrite (Hf i Hr).
  - rewrite decide_False by (intros [_ ?]; done). lia.
Qed.

Lemma serve_ok r : polite bits r live → ∃ s, serve p bits r (st, live) = Ok s ∧ held_ok p bits s.
Proof using Hs.
  intros Hr. destruct Hs as (Harr & Hl & Hh). simpl in Harr, Hl. destruct r as [order|pos order|pos order]; cbn [serve polite] in *.
  - destruct (bitmap_find_free_region_ok st p bits order Hr Harr) as [(pos & st' & -> & Hp & Hlt & Hf & _ & Hm)|[-> _]];
      cbn [mbind outcome_bind].
    + destruct (Z.ltb_spec pos 0); [destruct Hp; lia|]. eexists. split; [done|]. by apply take_ok.
    + eexists. done.
  - destruct Hr as (Ho & Hp & Hlt). assert (Hn : pos / 64 < BITS_TO_LONGS bits) by (destruct Hp; word_lia).
    destruct (bitmap_allocate_region_ok st p pos order _ Ho Hp Harr Hn) as [(Hf & st' & -> & Hm)|[_ ->]]; cbn [mbind outcome_bind].
    + eexists. split; [done|]. by apply take_ok.
    + eexists. done.
  - pose proof (proj1 (Forall_forall _ _) Hl _ Hr) as (Ho & Hp & Hlt). simpl in Ho, Hp, Hlt.
    assert (Hn : pos / 64 < BITS_TO_LONGS bits) by (destruct Hp; word_lia).
    destruct (bitmap_release_region_ok st p pos order _ Ho Hp Harr Hn) as (st' & -> & Hb & Ha). cbn [mbind outcome_bind].
    eexists. split; [done|]. split_and!; cbn [fst snd]; [by apply Ha| |].
    + apply Forall_forall. intros s Hin%give_back_subset. by apply (proj1 (Forall_forall _ _) Hl).
    + intros i Hi. rewrite holders_give_back, Hb by done. specialize (Hh i Hi). cbn [fst snd] in Hh.
      destruct (decide (in_region pos order i)) as [Hri|Hri].
      * rewrite decide_True by done. simpl. pose proof (holders_nonneg (give_back (pos, order) live) i) as Hnn.
        rewrite holders_give_back, decide_True in Hnn by done. destruct (bit st p i); simpl in Hh; lia.
      * rewrite decide_False by (intros [_ ?]; done). lia.
Qed.

End serve.

(** C24: Over any sequence of searches, claims and releases by a user that
    releases only what it holds, from a bitmap whose set bits are the regions
    held, the bits set are exactly the bits of the regions held and no two
    regions held overlap; every further request is served. *)
Theorem bitmap_regions_disjoint (p bits : Z) (rs : list request) (s s' : wstore * list (Z * Z))
  (Hs : held_ok p bits s) (Hr : served p bits rs s s') :
  held_ok p bits s' ∧ ∀ r, polite bits r s'.2 → ∃ s'', serve p bits r s' = Ok s''.
Proof.
  induction Hr as [s|r rs [st live] s1 s2 Hp Hst _ IH].
  - split; [done|]. intros r Hp. destruct s as [st live]. destruct (serve_ok p bits st live Hs r Hp) as (s'' & ? & _). eauto.
  - apply IH. destruct (serve_ok p bits st live Hs r Hp) as (s'' & E & ?). rewrite Hst in E. by simplify_eq.
Qed.

Definition no_regions : wstore * list (Z * Z) := ({[ 1 := [0; 0] ]}, []).

Lemma no_regions_ok : held_ok 1 100 no_regions.
Proof.
  split_and!; [|constructor|].
  - eexists. split; [reflexivity|]. split; [done|]. repeat (constructor; [done|]). constructor.
  - intros i Hi. cbn. unfold bit. rewrite lookup_singleton_eq.
    destruct (Z.to_nat (i / 64)) as [|[|k]]; cbn; by rewrite ?Z.bits_0.
Qed.

(** One request of a concrete sequence. *)
Ltac one_request := eapply served_cons; [cbn; unfold aligned; (repeat split; lia || reflexivity) || set_solver|vm_compute; reflexivity|].

Lemma bitmap_regions_disjoint_witness :
  ∃ st, served 1 100 [Find 0; Find 5; Claim 64 5; Release 32 5; Claim 32 2; Claim 32 1] no_regions
          (st, [(32, 2); (64, 5); (0, 0)]) ∧
    held_ok 1 100 (st, [(32, 2); (64, 5); (0, 0)]).
Proof.
  assert (H : ∃ st, served 1 100 [Find 0; Find 5; Claim 64 5; Release 32 5; Claim 32 2; Claim 32 1] no_regions
          (st, [(32, 2); (64, 5); (0, 0)])).
  { eexists. do 6 one_request. apply served_nil. }
  destruct H as [st Hst]. exists st. split; [exact Hst|].
  exact (proj1 (bitmap_regions_disjoint 1 100 _ _ _ no_regions_ok Hst)).
Defined.

(** When the size is not a multiple of the region's and no region inside the
    bitmap is free but the bits from the last multiple on are, the search returns
    a region that reaches past the end and sets a bit that is not of the bitmap,
    instead of [-ENOMEM]. *)
Theorem bitmap_find_free_region_overrun (st : wstore) (p bits order : Z) (pos := bits / 2 ^ order * 2 ^ order)
  (Ho : 0 ≤ order ≤ 6) (Hb : 0 ≤ bits) (Ha : arr st p (BITS_TO_LONGS bits)) (Hm : bits mod 2 ^ order ≠ 0)
  (Hno : ∀ pos', aligned pos' order → pos' + 2 ^ order ≤ bits → ¬ free st p pos' order)
  (Hf : free st p pos order) :
  ∃ st', bitmap_find_free_region p bits order st = Ok (pos, st') ∧ bits < pos + 2 ^ order ∧ bit st' p bits = true.
Proof.
  destruct (pages_range order Ho) as [Hp _]. set (P := 2 ^ order) in *.
  pose proof (Z.div_mod bits P ltac:(lia)) as E. pose proof (Z.mod_pos_bound bits P ltac:(lia)) as Hmod.
  assert (Hal : aligned pos order).
  { split; [subst pos; apply Z.mul_nonneg_nonneg; [apply Z.div_pos|]; lia|]. fold P. subst pos. apply Z.mod_mul. lia. }
  assert (Hpos : pos < bits < pos + P) by (subst pos; lia).
  destruct (bitmap_find_free_region_ok st p bits order Ho Ha) as [(pos' & st' & Hst & Hal' & Hlt & Hf' & Hmin & Hbit & _)|[_ Hnone]].
  - assert (pos' = pos) as ->.
    { destruct (decide (pos' < pos)) as [Hc|Hc].
      - exfalso. apply (Hno pos' Hal'); [|done]. pose proof (next_aligned order Ho pos' pos Hal' Hal Hc). fold P in H. lia.
      - destruct (decide (pos < pos')) as [Hc'|]; [|lia]. exfalso. exact (Hmin pos Hal Hc' Hf). }
    exists st'. split; [done|]. split; [lia|]. rewrite Hbit, decide_True; [done|split; [done|]|lia]. split; fold P; lia.
  - exfalso. apply (Hnone pos Hal); [lia|done].
Qed.

Lemma bitmap_find_free_region_overrun_witness :
  ∃ st', bitmap_find_free_region 1 10 2 {[ 1 := [0xFF] ]} = Ok (8, st') ∧ 10 < 8 + 4 ∧ bit st' 1 10 = true.
Proof.
  apply (bitmap_find_free_region_overrun {[ 1 := [0xFF] ]} 1 10 2); [lia|lia| |done| |].
  - eexists. split; [reflexivity|]. split; [done|]. constructor; [done|constructor].
  - intros pos' [H0 Hm] Hle Hf. specialize (Hf pos'). change (2 ^ 2) with 4 in *. assert (pos' = 0 ∨ pos' = 4) as [-> | ->] by word_lia.
    + discriminate Hf. split; lia.
    + discriminate Hf. split; lia.
  - intros i Hi. change (8 ≤ i < 12) in Hi. assert (i = 8 ∨ i = 9 ∨ i = 10 ∨ i = 11) as H by lia.
    destruct H as [-> | [-> | [-> | ->]]]; reflexivity.
Defined.
