(* ===== verification/Rcu.v ===== *)
(** * Read-copy-update: xen/common/rcupdate.c

    The state is one memory: the callback structures [struct rcu_head] by
    address, the [struct rcu_data] of each CPU, the control block shared by
    all CPUs, the map of CPUs online and the softirqs raised. A list of
    callbacks is a pointer to its first element and a pointer to the cell that
    ends it, as in the code; the cells are named by [cell]. NULL is 0.

    CPUs interleave. Everything between two accesses to shared memory is one
    atomic step: [pc] says where a CPU is in [__rcu_process_callbacks] or in
    [rcu_offline_cpu], and [rcu_step] executes its next step. A step that has
    to wait for the lock of the control block leaves the state as it is. A
    callback runs in one step, with what it does as other events of the CPU.

    Longs are unbounded: batch numbers start at -300 and grow by one with each
    grace period. *)

From S2P Require Import Prelude.
Open Scope xen_scope.

(** ** Data *)

Record rcu_head := mk_rcu_head { next : Z; func : Z }.

(** Where a pointer to a pointer of a list can point. *)
Inductive cell :=
| NxtCell (cpu : Z)
| CurCell (cpu : Z)
| DoneCell (cpu : Z)
| NextCell (head : Z).

Record rcu_ctrlblk := mk_rcu_ctrlblk {
  cur : Z;
  completed : Z;
  next_pending : Z;
  lock : option Z;  (* the CPU that holds it *)
  cpumask : gset Z;
}.

Record rcu_data := mk_rcu_data {
  quiescbatch : Z;
  qs_pending : Z;
  batch : Z;
  nxtlist : Z;
  nxttail : cell;
  qlen : Z;
  curlist : Z;
  curtail : cell;
  donelist : Z;
  donetail : cell;
  rd_blimit : Z;
  rd_cpu : Z;
  last_rs_qlen : Z;
}.

(** Where a CPU is: the comments name the lines of rcupdate.c that come next. *)
Inductive after := InCallbacks | InQuiesce | InOffline (cpu : Z).

Inductive pc :=
| Idle
| PDoneList                        (* 319 *)
| PNextList                        (* 326 *)
| PBatch                           (* 339 *)
| PPending                         (* 345 *)
| PLock                            (* 347 *)
| PSetPending                      (* 348 *)
| SBCheck (k : after)              (* 248, rcu_start_batch *)
| SBInc (k : after)                (* 256 *)
| SBMask (k : after)               (* 258 *)
| PUnlock (k : after)              (* 350, 309, 431 *)
| PQuiesce                         (* 285 *)
| PNote                            (* 287 *)
| QLock                            (* 301 *)
| QCheck                           (* 306 *)
| CQClear (cpu : Z) (k : after)    (* 269, cpu_quiet *)
| CQComplete (k : after)           (* 272 *)
| PInvoke                          (* 356 *)
| BLoop (list count : Z)           (* 207, rcu_do_batch *)
| BCount (list count : Z)          (* 211 *)
| BEnd                             (* 215 *)
| OLock (cpu : Z)                  (* 428, rcu_offline_cpu *)
| OCheck (cpu : Z)                 (* 429 *)
| OMoveDone (cpu : Z)              (* 433 *)
| OMoveCur (cpu : Z)               (* 434 *)
| OMoveNxt (cpu : Z)               (* 435 *)
| OQlen (cpu : Z).                 (* 438 *)

Record rcu_machine := mk_machine {
  heads : gmap Z rcu_head;
  rcu_data_of : gmap Z rcu_data;
  rcp : rcu_ctrlblk;
  cpu_online_map : gset Z;
  pending : gset (Z * Z);      (* softirq_pending: (cpu, nr) *)
  pcs : gmap Z pc;
}.

Definition blimit : Z := 10.
Definition qhimark : Z := 10000.
Definition qlowmark : Z := 100.
Definition rsinterval : Z := 1000.
Definition INT_MAX : Z := 2 ^ 31 - 1.
Definition SCHEDULE_SOFTIRQ : Z := 1.
Definition RCU_SOFTIRQ : Z := 3.

(** ** Updates *)

Definition upd_heads (f : gmap Z rcu_head → gmap Z rcu_head) (m : rcu_machine) : rcu_machine :=
  mk_machine (f (heads m)) (rcu_data_of m) (rcp m) (cpu_online_map m) (pending m) (pcs m).
Definition upd_rcp (f : rcu_ctrlblk → rcu_ctrlblk) (m : rcu_machine) : rcu_machine :=
  mk_machine (heads m) (rcu_data_of m) (f (rcp m)) (cpu_online_map m) (pending m) (pcs m).
Definition upd_online (f : gset Z → gset Z) (m : rcu_machine) : rcu_machine :=
  mk_machine (heads m) (rcu_data_of m) (rcp m) (f (cpu_online_map m)) (pending m) (pcs m).
Definition goto (c : Z) (p : pc) (m : rcu_machine) : rcu_machine :=
  mk_machine (heads m) (rcu_data_of m) (rcp m) (cpu_online_map m) (pending m) (<[c := p]> (pcs m)).
Definition put_rdp (c : Z) (d : rcu_data) (m : rcu_machine) : rcu_machine :=
  mk_machine (heads m) (<[c := d]> (rcu_data_of m)) (rcp m) (cpu_online_map m) (pending m) (pcs m).
Definition raise (s : gset (Z * Z)) (m : rcu_machine) : rcu_machine :=
  mk_machine (heads m) (rcu_data_of m) (rcp m) (cpu_online_map m) (s ∪ pending m) (pcs m).

Definition get_rdp (c : Z) (m : rcu_machine) : outcome rcu_data := deref (rcu_data_of m !! c) Ok.

Definition upd_rdp (c : Z) (f : rcu_data → rcu_data) (m : rcu_machine) : outcome rcu_machine :=
  let! d := get_rdp c m in Ok (put_rdp c (f d) m).

Definition set_cur (v : Z) (r : rcu_ctrlblk) := mk_rcu_ctrlblk v (completed r) (next_pending r) (lock r) (cpumask r).
Definition set_completed (v : Z) (r : rcu_ctrlblk) := mk_rcu_ctrlblk (cur r) v (next_pending r) (lock r) (cpumask r).
Definition set_next_pending (v : Z) (r : rcu_ctrlblk) := mk_rcu_ctrlblk (cur r) (completed r) v (lock r) (cpumask r).
Definition set_lock (v : option Z) (r : rcu_ctrlblk) := mk_rcu_ctrlblk (cur r) (completed r) (next_pending r) v (cpumask r).
Definition set_cpumask (v : gset Z) (r : rcu_ctrlblk) := mk_rcu_ctrlblk (cur r) (completed r) (next_pending r) (lock r) v.

Definition set_quiesc (b qs : Z) (d : rcu_data) : rcu_data :=
  mk_rcu_data b qs (batch d) (nxtlist d) (nxttail d) (qlen d) (curlist d) (curtail d) (donelist d) (donetail d)
    (rd_blimit d) (rd_cpu d) (last_rs_qlen d).
Definition set_batch (b : Z) (d : rcu_data) : rcu_data :=
  mk_rcu_data (quiescbatch d) (qs_pending d) b (nxtlist d) (nxttail d) (qlen d) (curlist d) (curtail d) (donelist d)
    (donetail d) (rd_blimit d) (rd_cpu d) (last_rs_qlen d).
Definition set_nxt (p : Z) (t : cell) (d : rcu_data) : rcu_data :=
  mk_rcu_data (quiescbatch d) (qs_pending d) (batch d) p t (qlen d) (curlist d) (curtail d) (donelist d) (donetail d)
    (rd_blimit d) (rd_cpu d) (last_rs_qlen d).
Definition set_curl (p : Z) (t : cell) (d : rcu_data) : rcu_data :=
  mk_rcu_data (quiescbatch d) (qs_pending d) (batch d) (nxtlist d) (nxttail d) (qlen d) p t (donelist d) (donetail d)
    (rd_blimit d) (rd_cpu d) (last_rs_qlen d).
Definition set_done (p : Z) (t : cell) (d : rcu_data) : rcu_data :=
  mk_rcu_data (quiescbatch d) (qs_pending d) (batch d) (nxtlist d) (nxttail d) (qlen d) (curlist d) (curtail d) p t
    (rd_blimit d) (rd_cpu d) (last_rs_qlen d).
Definition set_qlen (q : Z) (d : rcu_data) : rcu_data :=
  mk_rcu_data (quiescbatch d) (qs_pending d) (batch d) (nxtlist d) (nxttail d) q (curlist d) (curtail d) (donelist d)
    (donetail d) (rd_blimit d) (rd_cpu d) (last_rs_qlen d).
Definition set_blimit (l : Z) (d : rcu_data) : rcu_data :=
  mk_rcu_data (quiescbatch d) (qs_pending d) (batch d) (nxtlist d) (nxttail d) (qlen d) (curlist d) (curtail d)
    (donelist d) (donetail d) l (rd_cpu d) (last_rs_qlen d).
Definition set_last_rs (l : Z) (d : rcu_data) : rcu_data :=
  mk_rcu_data (quiescbatch d) (qs_pending d) (batch d) (nxtlist d) (nxttail d) (qlen d) (curlist d) (curtail d)
    (donelist d) (donetail d) (rd_blimit d) (rd_cpu d) l.

(** [*p = v] for a pointer [p] to a cell. *)
Definition store (p : cell) (v : Z) (m : rcu_machine) : outcome rcu_machine :=
  match p with
  | NxtCell c => upd_rdp c (λ d, set_nxt v (nxttail d) d) m
  | CurCell c => upd_rdp c (λ d, set_curl v (curtail d) d) m
  | DoneCell c => upd_rdp c (λ d, set_done v (donetail d) d) m
  | NextCell h => deref (heads m !! h) (λ x, Ok (upd_heads <[h := mk_rcu_head v (func x)]> m))
  end.

(** ** Queueing callbacks *)

Definition rcu_batch_before (a b : Z) : bool := a - b <? 0.
Definition rcu_batch_after (a b : Z) : bool := a - b >? 0.

(** [cpumask_raise_softirq] sends no event for a softirq already raised; the
    events are not modelled. *)
Definition cpumask_raise_softirq (mask : gset Z) (nr : Z) (m : rcu_machine) : rcu_machine :=
  raise (set_map (λ c, (c, nr)) mask) m.

Definition raise_softirq (c nr : Z) (m : rcu_machine) : rcu_machine := raise {[ (c, nr) ]} m.

Definition force_quiescent_state (c : Z) (m : rcu_machine) : outcome rcu_machine :=
  let m := raise_softirq c SCHEDULE_SOFTIRQ m in
  let! d := get_rdp c m in
  if qlen d - last_rs_qlen d >? rsinterval then
    let m := put_rdp c (set_last_rs (qlen d) d) m in
    Ok (cpumask_raise_softirq (cpumask (rcp m) ∖ {[ rd_cpu d ]}) SCHEDULE_SOFTIRQ m)
  else Ok m.

(** [call_rcu(head, f)] on CPU [c], with interrupts off. *)
Definition call_rcu (c head f : Z) (m : rcu_machine) : outcome rcu_machine :=
  let m := upd_heads <[head := mk_rcu_head 0 f]> m in
  let! d := get_rdp c m in
  let! m := store (nxttail d) head m in
  let! d := get_rdp c m in
  let m := put_rdp c (set_qlen (qlen d + 1) (set_nxt (nxtlist d) (NextCell head) d)) m in
  if qlen d + 1 >? qhimark then
    let! m := upd_rdp c (set_blimit INT_MAX) m in
    force_quiescent_state c m
  else Ok m.

(** ** Steps of rcu_start_batch and cpu_quiet, with the lock held *)

(** The step continues after the critical section. *)
Definition unlocked (k : after) : pc :=
  match k with
  | InCallbacks => PQuiesce
  | InQuiesce => PInvoke
  | InOffline c => OMoveDone c
  end.

(** [spin_lock(&rcp->lock)]; the CPU stays where it is while another holds it. *)
Definition take_lock (c : Z) (p : pc) (m : rcu_machine) : rcu_machine :=
  match lock (rcp m) with
  | None => goto c p (upd_rcp (set_lock (Some c)) m)
  | Some _ => m
  end.

Definition rcu_start_batch_check (c : Z) (k : after) (m : rcu_machine) : rcu_machine :=
  let r := rcp m in
  if negb (next_pending r =? 0) && (completed r =? cur r) then
    goto c (SBInc k) (upd_rcp (set_next_pending 0) m)
  else goto c (PUnlock k) m.

Definition rcu_start_batch_inc (c : Z) (k : after) (m : rcu_machine) : rcu_machine :=
  goto c (SBMask k) (upd_rcp (set_cur (cur (rcp m) + 1)) m).

Definition rcu_start_batch_mask (c : Z) (k : after) (m : rcu_machine) : rcu_machine :=
  goto c (PUnlock k) (upd_rcp (set_cpumask (cpu_online_map m)) m).

Definition cpu_quiet_clear (c cpu : Z) (k : after) (m : rcu_machine) : rcu_machine :=
  let m := upd_rcp (λ r, set_cpumask (cpumask r ∖ {[ cpu ]}) r) m in
  if decide (cpumask (rcp m) = ∅) then goto c (CQComplete k) m else goto c (PUnlock k) m.

Definition cpu_quiet_complete (c : Z) (k : after) (m : rcu_machine) : rcu_machine :=
  goto c (SBCheck k) (upd_rcp (λ r, set_completed (cur r) r) m).

(** ** Steps of rcu_check_quiescent_state *)

Definition check_quiescbatch (c : Z) (m : rcu_machine) : outcome rcu_machine :=
  let! d := get_rdp c m in
  if negb (quiescbatch d =? cur (rcp m)) then Ok (goto c PNote m)
  else if qs_pending d =? 0 then Ok (goto c PInvoke m)
  else Ok (goto c QLock (put_rdp c (set_quiesc (quiescbatch d) 0 d) m)).

(** [rdp->qs_pending = 1; rdp->quiescbatch = rcp->cur;] *)
Definition note_batch (c : Z) (m : rcu_machine) : outcome rcu_machine :=
  let! m := upd_rdp c (set_quiesc (cur (rcp m)) 1) m in Ok (goto c PInvoke m).

Definition check_in_sync (c : Z) (m : rcu_machine) : outcome rcu_machine :=
  let! d := get_rdp c m in
  if quiescbatch d =? cur (rcp m) then Ok (goto c (CQClear (rd_cpu d) InQuiesce) m)
  else Ok (goto c (PUnlock InQuiesce) m).

(** ** Steps of __rcu_process_callbacks *)

(** [if (rdp->curlist && !rcu_batch_before(rcp->completed, rdp->batch))] *)
Definition finish_curlist (c : Z) (m : rcu_machine) : outcome rcu_machine :=
  let! d := get_rdp c m in
  if negb (curlist d =? 0) && negb (rcu_batch_before (completed (rcp m)) (batch d)) then
    let! m := store (donetail d) (curlist d) m in
    let! d := get_rdp c m in
    let m := put_rdp c (set_curl 0 (CurCell c) (set_done (donelist d) (curtail d) d)) m in
    Ok (goto c PNextList m)
  else Ok (goto c PNextList m).

(** [if (rdp->nxtlist && !rdp->curlist)], with interrupts off. *)
Definition take_nxtlist (c : Z) (m : rcu_machine) : outcome rcu_machine :=
  let! d := get_rdp c m in
  if negb (nxtlist d =? 0) && (curlist d =? 0) then
    let m := put_rdp c (set_nxt 0 (NxtCell c) (set_curl (nxtlist d) (nxttail d) d)) m in
    Ok (goto c PBatch m)
  else Ok (goto c PQuiesce m).

Definition number_batch (c : Z) (m : rcu_machine) : outcome rcu_machine :=
  let! m := upd_rdp c (set_batch (cur (rcp m) + 1)) m in Ok (goto c PPending m).

Definition check_next_pending (c : Z) (m : rcu_machine) : rcu_machine :=
  if next_pending (rcp m) =? 0 then goto c PLock m else goto c PQuiesce m.

Definition mark_next_pending (c : Z) (m : rcu_machine) : rcu_machine :=
  goto c (SBCheck InCallbacks) (upd_rcp (set_next_pending 1) m).

(** ** Steps of rcu_do_batch *)

Definition start_invoking (c : Z) (m : rcu_machine) : outcome rcu_machine :=
  let! d := get_rdp c m in
  if donelist d =? 0 then Ok (goto c Idle m) else Ok (goto c (BLoop (donelist d) 0) m).

(** [next = rdp->donelist = list->next; list->func(list);]: the callback may
    free or reuse the structure. *)
Definition invoke_one (c list count : Z) (m : rcu_machine) : outcome (rcu_machine * option (Z * Z)) :=
  if list =? 0 then Ok (goto c BEnd m, None)
  else
    deref (heads m !! list) (λ x,
      let! m := upd_rdp c (λ d, set_done (next x) (donetail d) d) m in
      Ok (goto c (BCount (next x) count) (upd_heads (delete list) m), Some (list, func x))).

(** [list = next; rdp->qlen--; if (++count >= rdp->blimit) break;] *)
Definition count_one (c list count : Z) (m : rcu_machine) : outcome rcu_machine :=
  let! d := get_rdp c m in
  let m := put_rdp c (set_qlen (qlen d - 1) d) m in
  if count + 1 >=? rd_blimit d then Ok (goto c BEnd m) else Ok (goto c (BLoop list (count + 1)) m).

Definition end_batch (c : Z) (m : rcu_machine) : outcome rcu_machine :=
  let! d := get_rdp c m in
  let d := if (rd_blimit d =? INT_MAX) && (qlen d <=? qlowmark) then set_blimit blimit d else d in
  if donelist d =? 0 then Ok (goto c Idle (put_rdp c (set_done (donelist d) (DoneCell c) d) m))
  else Ok (goto c Idle (raise_softirq c RCU_SOFTIRQ (put_rdp c d m))).

(** ** Steps of rcu_offline_cpu: CPU [c] takes over from [cpu] *)

Definition offline_check (c cpu : Z) (m : rcu_machine) : outcome rcu_machine :=
  let! d := get_rdp cpu m in
  if negb (cur (rcp m) =? completed (rcp m)) then Ok (goto c (CQClear (rd_cpu d) (InOffline cpu)) m)
  else Ok (goto c (PUnlock (InOffline cpu)) m).

Definition rcu_move_batch (c list : Z) (tail : cell) (m : rcu_machine) : outcome rcu_machine :=
  let! d := get_rdp c m in
  let! m := store (nxttail d) list m in
  if list =? 0 then Ok m else upd_rdp c (λ d, set_nxt (nxtlist d) tail d) m.

Definition offline_qlen (c cpu : Z) (m : rcu_machine) : outcome rcu_machine :=
  let! d := get_rdp cpu m in
  let! m := upd_rdp c (λ this, set_qlen (qlen this + qlen d) this) m in
  Ok (goto c Idle m).

(** ** One step of a CPU *)

Definition silent (o : outcome rcu_machine) : outcome (rcu_machine * option (Z * Z)) := let! m := o in Ok (m, None).

(** The second component is the callback the step ran, with its function. *)
Definition rcu_step (c : Z) (m : rcu_machine) : outcome (rcu_machine * option (Z * Z)) :=
  match default Idle (pcs m !! c) with
  | Idle => Ok (m, None)
  | PDoneList => silent (finish_curlist c m)
  | PNextList => silent (take_nxtlist c m)
  | PBatch => silent (number_batch c m)
  | PPending => Ok (check_next_pending c m, None)
  | PLock => Ok (take_lock c PSetPending m, None)
  | PSetPending => Ok (mark_next_pending c m, None)
  | SBCheck k => Ok (rcu_start_batch_check c k m, None)
  | SBInc k => Ok (rcu_start_batch_inc c k m, None)
  | SBMask k => Ok (rcu_start_batch_mask c k m, None)
  | PUnlock k => Ok (goto c (unlocked k) (upd_rcp (set_lock None) m), None)
  | PQuiesce => silent (check_quiescbatch c m)
  | PNote => silent (note_batch c m)
  | QLock => Ok (take_lock c QCheck m, None)
  | QCheck => silent (check_in_sync c m)
  | CQClear cpu k => Ok (cpu_quiet_clear c cpu k m, None)
  | CQComplete k => Ok (cpu_quiet_complete c k m, None)
  | PInvoke => silent (start_invoking c m)
  | BLoop list count => invoke_one c list count m
  | BCount list count => silent (count_one c list count m)
  | BEnd => silent (end_batch c m)
  | OLock cpu => Ok (take_lock c (OCheck cpu) m, None)
  | OCheck cpu => silent (offline_check c cpu m)
  | OMoveDone cpu => silent (let! d := get_rdp cpu m in
      let! m := rcu_move_batch c (donelist d) (donetail d) m in Ok (goto c (OMoveCur cpu) m))
  | OMoveCur cpu => silent (let! d := get_rdp cpu m in
      let! m := rcu_move_batch c (curlist d) (curtail d) m in Ok (goto c (OMoveNxt cpu) m))
  | OMoveNxt cpu => silent (let! d := get_rdp cpu m in
      let! m := rcu_move_batch c (nxtlist d) (nxttail d) m in Ok (goto c (OQlen cpu) m))
  | OQlen cpu => silent (offline_qlen c cpu m)
  end.

(** ** The rest of the file *)

Definition __rcu_pending (r : rcu_ctrlblk) (d : rcu_data) : bool :=
  (negb (curlist d =? 0) && negb (rcu_batch_before (completed r) (batch d))) ||
  ((curlist d =? 0) && negb (nxtlist d =? 0)) ||
  negb (donelist d =? 0) ||
  (negb (quiescbatch d =? cur r) || negb (qs_pending d =? 0)).

Definition rcu_pending (cpu : Z) (m : rcu_machine) : outcome bool :=
  let! d := get_rdp cpu m in Ok (__rcu_pending (rcp m) d).

Definition rcu_needs_cpu (cpu : Z) (m : rcu_machine) : outcome bool :=
  let! d := get_rdp cpu m in
  let! p := rcu_pending cpu m in
  Ok (negb (curlist d =? 0) || p).

Definition rcu_check_callbacks (cpu : Z) (m : rcu_machine) : rcu_machine := raise_softirq cpu RCU_SOFTIRQ m.

Definition rcu_init_percpu_data (cpu : Z) (m : rcu_machine) : rcu_machine :=
  put_rdp cpu (mk_rcu_data (completed (rcp m)) 0 0 0 (NxtCell cpu) 0 0 (CurCell cpu) 0 (DoneCell cpu) blimit cpu 0) m.

(** A CPU that runs the RCU softirq, or the notifier of a CPU that went away. *)
Definition rcu_process_callbacks (c : Z) (m : rcu_machine) : rcu_machine := goto c PDoneList m.
Definition rcu_offline_cpu (c cpu : Z) (m : rcu_machine) : rcu_machine := goto c (OLock cpu) m.

(** The control block before the first CPU is up. *)
Definition rcu_ctrlblk_init : rcu_ctrlblk := mk_rcu_ctrlblk (-300) (-300) 0 None ∅.
