(* ===== verification/RcuList.v ===== *)
(** * Read-copy-update: the lists of callbacks

    The linked lists of [struct rcu_head] with their tail pointers stand for
    sequences of callbacks; queueing, joining and popping are the operations on
    sequences. *)

From S2P Require Import Prelude Rcu.
Open Scope xen_scope.

(** ** Chains *)

Fixpoint chain (hs : gmap Z rcu_head) (p : Z) (l : list Z) : Prop :=
  match l with
  | [] => p = 0
  | h :: l => p = h ∧ h ≠ 0 ∧ ∃ x, hs !! h = Some x ∧ chain hs (next x) l
  end.

Lemma chain_ext hs hs' p l : (∀ h, h ∈ l → hs' !! h = hs !! h) → chain hs p l → chain hs' p l.
Proof.
  revert p. induction l as [|h l IH]; intros p Hag Hc; [done|]. destruct Hc as (-> & Hn & x & Hx & Hc).
  split; [done|]. split; [done|]. exists x. rewrite Hag by set_solver. split; [done|]. apply IH; set_solver.
Qed.

Lemma chain_empty hs p l : chain hs p l → p = 0 ↔ l = [].
Proof. destruct l; simpl; [done|]. intros (-> & Hn & _). split; [done|]. intros. done. Qed.

Lemma chain_in hs p l h : chain hs p l → h ∈ l → ∃ x, hs !! h = Some x.
Proof.
  revert p. induction l as [|h' l IH]; intros p Hc Hin; [by apply elem_of_nil in Hin|].
  destruct Hc as (_ & _ & x & Hx & Hc). apply elem_of_cons in Hin as [->|Hin]; eauto.
Qed.

(** The cell that ends the sequence [l] that starts in the cell [first]. *)
Definition end_cell (first : cell) (l : list Z) : cell :=
  match last l with None => first | Some h => NextCell h end.

Lemma end_cell_snoc first l h : end_cell first (l ++ [h]) = NextCell h.
Proof. unfold end_cell. by rewrite last_snoc. Qed.

Lemma end_cell_app first first' l l' : l' ≠ [] → end_cell first (l ++ l') = end_cell first' l'.
Proof.
  intros H. destruct l' as [|h l' _] using rev_ind; [done|]. by rewrite app_assoc, !end_cell_snoc.
Qed.

(** Setting the [next] of the last element joins two chains. *)
Lemma chain_join hs p l h x q l' :
  chain hs p (l ++ [h]) → NoDup (l ++ [h]) → hs !! h = Some x → chain hs q l' → h ∉ l' →
  chain (<[h := mk_rcu_head q (func x)]> hs) p ((l ++ [h]) ++ l').
Proof.
  intros Hc Hnd Hx Hq Hnin. revert p Hc Hnd. induction l as [|h' l IH]; intros p Hc Hnd.
  - destruct Hc as (-> & Hn & y & Hy & _). split; [done|]. split; [done|].
    exists (mk_rcu_head q (func x)). rewrite lookup_insert_eq. split; [done|].
    apply (chain_ext hs); [|done]. intros z Hz. rewrite lookup_insert_ne; [done|]. intros ->. done.
  - destruct Hc as (-> & Hn & y & Hy & Hc). apply NoDup_cons in Hnd as [Hnin' Hnd]. split; [done|]. split; [done|].
    exists y. rewrite lookup_insert_ne by set_solver. split; [done|]. by apply IH.
Qed.

(** ** The three lists of a CPU *)

Inductive kind := Nxt | Cur | Done.

#[export] Instance kind_eq_dec : EqDecision kind.
Proof. solve_decision. Defined.

#[export] Instance kind_countable : Countable kind.
Proof.
  apply (inj_countable' (λ k, match k with Nxt => 0%nat | Cur => 1%nat | Done => 2%nat end)
           (λ n, match n with O => Nxt | S O => Cur | _ => Done end)). by intros [].
Defined.

Definition first_cell (c : Z) (k : kind) : cell :=
  match k with Nxt => NxtCell c | Cur => CurCell c | Done => DoneCell c end.

Definition ptr_of (k : kind) (d : rcu_data) : Z :=
  match k with Nxt => nxtlist d | Cur => curlist d | Done => donelist d end.

Definition tail_of (k : kind) (d : rcu_data) : cell :=
  match k with Nxt => nxttail d | Cur => curtail d | Done => donetail d end.

(** The list [k] of CPU [c] holds the callbacks [l]; the tail pointer of the list
    of done callbacks is stale while [rcu_do_batch] empties it. *)
Definition invoking (p : pc) : bool :=
  match p with BLoop _ _ | BCount _ _ | BEnd => true | _ => false end.

Definition pc_of (m : rcu_machine) (c : Z) : pc := default Idle (pcs m !! c).

Definition seg (m : rcu_machine) (c : Z) (k : kind) (l : list Z) : Prop :=
  ∃ d, rcu_data_of m !! c = Some d ∧ chain (heads m) (ptr_of k d) l ∧
    (k = Done ∧ l = [] ∧ invoking (pc_of m c) = true ∨ tail_of k d = end_cell (first_cell c k) l).

(** The lists in use, by CPU and kind. *)
Abbreviation lists := (gmap (Z * kind) (list Z)).

(** All callbacks are in exactly one place of one list. *)
Definition placed (hs : gmap Z rcu_head) (S : lists) : Prop :=
  (∀ i l, S !! i = Some l → NoDup l) ∧
  (∀ i j l l' h, S !! i = Some l → S !! j = Some l' → h ∈ l → h ∈ l' → i = j) ∧
  (∀ h, is_Some (hs !! h) ↔ ∃ i l, S !! i = Some l ∧ h ∈ l).

Definition rep (m : rcu_machine) (S : lists) : Prop :=
  (∀ c k l, S !! (c, k) = Some l → seg m c k l) ∧ placed (heads m) S.

(** [T] is [S] without the list [i]. *)
Definition without (S T : lists) (i : Z * kind) : Prop :=
  (∀ j, j ≠ i → T !! j = S !! j) ∧ (∀ l, T !! i = Some l → l = []).

Lemma without_clear S i : without S (<[i := []]> S) i.
Proof. split; [intros j Hj; by rewrite lookup_insert_ne|]. intros l. rewrite lookup_insert_eq. congruence. Qed.

Lemma without_delete S i : without S (delete i S) i.
Proof. split; [intros j Hj; by rewrite lookup_delete_ne|]. intros l. by rewrite lookup_delete_eq. Qed.

(** Moving all of one list behind another. *)
Lemma placed_move hs hs' S T i j li lj :
  placed hs S → (∀ h, is_Some (hs' !! h) ↔ is_Some (hs !! h)) → without S T i → i ≠ j → S !! i = Some li → S !! j = Some lj →
  placed hs' (<[j := lj ++ li]> T).
Proof.
  intros (Hnd & Hdis & Hdom) Hhs [HT HTi] Hij Hi Hj.
  assert (HTS : ∀ x l h, T !! x = Some l → h ∈ l → S !! x = Some l).
  { intros x l h Hx Hh. destruct (decide (x = i)) as [->|Hx']; [|by rewrite <- HT].
    rewrite (HTi _ Hx) in Hh. by apply elem_of_nil in Hh. }
  assert (Hx : ∀ x l h, <[j := lj ++ li]> T !! x = Some l → h ∈ l →
    ∃ y ly, S !! y = Some ly ∧ h ∈ ly ∧ (x = j ∧ (y = i ∨ y = j) ∨ x = y ∧ y ≠ i ∧ y ≠ j)).
  { intros x l h Hx Hh. destruct (decide (x = j)) as [->|Hxj].
    - rewrite lookup_insert_eq in Hx. injection Hx as <-. apply elem_of_app in Hh as [Hh|Hh]; eauto 10.
    - rewrite lookup_insert_ne in Hx by done. assert (x ≠ i).
      { intros ->. rewrite (HTi _ Hx) in Hh. by apply elem_of_nil in Hh. }
      exists x, l. split; [by eapply HTS|]. naive_solver. }
  split_and!.
  - intros x l. destruct (decide (x = j)) as [->|Hxj].
    + rewrite lookup_insert_eq. intros [= <-]. apply NoDup_app. split; [eauto|]. split; [|eauto].
      intros h Hh Hh'. apply Hij. exact (Hdis i j _ _ h Hi Hj Hh' Hh).
    + rewrite lookup_insert_ne by done. intros Hxl. destruct (decide (x = i)) as [->|]; [|rewrite HT in Hxl by done; eauto].
      rewrite (HTi _ Hxl). constructor.
  - intros x y l l' h Hxl Hyl Hh Hh'. destruct (Hx x l h Hxl Hh) as (u & lu & Hu & Hhu & Hcu).
    destruct (Hx y l' h Hyl Hh') as (v & lv & Hv & Hhv & Hcv). pose proof (Hdis u v _ _ h Hu Hv Hhu Hhv). naive_solver.
  - intros h. rewrite Hhs, Hdom. split.
    + intros (x & l & Hxl & Hh). destruct (decide (x = i ∨ x = j)) as [Hxij|Hxij].
      * exists j, (lj ++ li). rewrite lookup_insert_eq. split; [done|]. apply elem_of_app. naive_solver.
      * exists x, l. rewrite lookup_insert_ne by naive_solver. rewrite HT by naive_solver. done.
    + intros (x & l & Hxl & Hh). destruct (Hx x l h Hxl Hh) as (y & ly & Hy & Hhy & _). eauto.
Qed.

Lemma placed_add hs S j lj h x :
  placed hs S → hs !! h = None → S !! j = Some lj → placed (<[h := x]> hs) (<[j := lj ++ [h]]> S).
Proof.
  intros (Hnd & Hdis & Hdom) Hh Hj.
  assert (Hnew : ∀ y l, S !! y = Some l → h ∉ l).
  { intros y l Hy Hin. assert (is_Some (hs !! h)) as [? E] by (apply Hdom; eauto). congruence. }
  split_and!.
  - intros y l. destruct (decide (y = j)) as [->|]; [|rewrite lookup_insert_ne by done; eauto].
    rewrite lookup_insert_eq. intros [= <-]. apply NoDup_app. split; [eauto|]. split; [|apply NoDup_singleton].
    intros z Hz. rewrite list_elem_of_singleton. intros ->. by eapply Hnew.
  - assert (Hx : ∀ y l z, <[j := lj ++ [h]]> S !! y = Some l → z ∈ l → z = h ∧ y = j ∨ ∃ l', S !! y = Some l' ∧ z ∈ l').
    { intros y l z. destruct (decide (y = j)) as [->|]; [|rewrite lookup_insert_ne by done; eauto].
      rewrite lookup_insert_eq. intros [= <-]. rewrite elem_of_app, list_elem_of_singleton. naive_solver. }
    intros y y' l l' z Hy Hy' Hz Hz'. destruct (Hx y l z Hy Hz) as [[Ez Ey]|(k & Hk & Hzk)];
      destruct (Hx y' l' z Hy' Hz') as [[Ez' Ey']|(k' & Hk' & Hzk')]; subst; try done.
    + exfalso. by eapply Hnew.
    + exfalso. by eapply Hnew.
    + by eapply Hdis.
  - intros z. rewrite lookup_insert_is_Some. split.
    + intros [->|[_ Hz]].
      * exists j, (lj ++ [z]). rewrite lookup_insert_eq. set_solver.
      * apply Hdom in Hz as (y & l & Hy & Hz). destruct (decide (y = j)) as [->|].
        -- exists j, (lj ++ [h]). rewrite lookup_insert_eq. set_solver.
        -- exists y, l. by rewrite lookup_insert_ne.
    + intros (y & l & Hy & Hz). destruct (decide (h = z)) as [->|Hne]; [by left|right]. split; [done|]. apply Hdom.
      destruct (decide (y = j)) as [->|]; [|rewrite lookup_insert_ne in Hy by done; eauto].
      rewrite lookup_insert_eq in Hy. injection Hy as <-. exists j, lj. split; [done|]. set_solver.
Qed.

Lemma placed_pop hs S j h l :
  placed hs S → S !! j = Some (h :: l) → placed (delete h hs) (<[j := l]> S).
Proof.
  intros (Hnd & Hdis & Hdom) Hj. pose proof (Hnd _ _ Hj) as Hjnd. apply NoDup_cons in Hjnd as [Hnin Hl].
  assert (Hx : ∀ y k z, <[j := l]> S !! y = Some k → z ∈ k → z ≠ h ∧ ∃ k', S !! y = Some k' ∧ z ∈ k').
  { intros y k z. destruct (decide (y = j)) as [->|Hy].
    - rewrite lookup_insert_eq. intros [= <-] Hz. split; [set_solver|]. exists (h :: l). set_solver.
    - rewrite lookup_insert_ne by done. intros Hyk Hz. split; [|eauto]. intros ->. apply Hy.
      eapply Hdis; [exact Hyk|exact Hj|done|set_solver]. }
  split_and!.
  - intros y k. destruct (decide (y = j)) as [->|]; [|rewrite lookup_insert_ne by done; eauto].
    rewrite lookup_insert_eq. by intros [= <-].
  - intros y y' k k' z Hy Hy' Hz Hz'. destruct (Hx y k z Hy Hz) as (_ & ? & ? & ?), (Hx y' k' z Hy' Hz') as (_ & ? & ? & ?). by eapply Hdis.
  - intros z. rewrite lookup_delete_is_Some, Hdom. split.
    + intros [Hne (y & k & Hy & Hz)]. destruct (decide (y = j)) as [->|].
      * exists j, l. rewrite lookup_insert_eq. set_solver.
      * exists y, k. by rewrite lookup_insert_ne.
    + intros (y & k & Hy & Hz). destruct (Hx y k z Hy Hz) as (Hne & k' & Hk' & Hz'). eauto.
Qed.

(** ** Storing at the end of a list *)

(** [m'] is [m] up to the links of the lists: [q] was stored in the cell that
    ended the list [l] of kind [k] of CPU [c]. *)
Definition scalars (d : rcu_data) := (quiescbatch d, qs_pending d, batch d, qlen d, rd_blimit d, rd_cpu d, last_rs_qlen d).

Definition joined (c : Z) (k : kind) (l : list Z) (q : Z) (d : rcu_data) (m m' : rcu_machine) (d' : rcu_data) : Prop :=
  rcu_data_of m' = <[c := d']> (rcu_data_of m) ∧ scalars d' = scalars d ∧
  (∀ k', tail_of k' d' = tail_of k' d) ∧ (∀ k', k' ≠ k → ptr_of k' d' = ptr_of k' d) ∧
  (∀ h, h ∉ l → heads m' !! h = heads m !! h) ∧
  (∀ h, is_Some (heads m' !! h) ↔ is_Some (heads m !! h)) ∧
  rcp m' = rcp m ∧ cpu_online_map m' = cpu_online_map m ∧ pcs m' = pcs m ∧
  (∀ l', chain (heads m) q l' → (∀ h, h ∈ l → h ∉ l') → chain (heads m') (ptr_of k d') (l ++ l')).

Lemma rcu_store_first c k q d m :
  rcu_data_of m !! c = Some d → ∃ m' d', store (first_cell c k) q m = Ok m' ∧ joined c k [] q d m m' d'.
Proof.
  intros Hd. destruct k; cbn [first_cell store]; unfold upd_rdp, get_rdp; rewrite Hd; cbn [mbind outcome_bind deref].
  - do 2 eexists. split; [done|]. split_and!; try done; by intros [].
  - do 2 eexists. split; [done|]. split_and!; try done; by intros [].
  - do 2 eexists. split; [done|]. split_and!; try done; by intros [].
Qed.

Lemma store_end c k l q d m :
  rcu_data_of m !! c = Some d → chain (heads m) (ptr_of k d) l → NoDup l →
  ∃ m' d', store (end_cell (first_cell c k) l) q m = Ok m' ∧ joined c k l q d m m' d'.
Proof.
  intros Hd Hc Hnd. destruct l as [|h l _] using rev_ind; [by apply rcu_store_first|].
  rewrite end_cell_snoc. cbn [store].
  destruct (chain_in _ _ _ h Hc) as [x Hx]; [set_solver|]. rewrite Hx. cbn [deref].
  eexists _, d. split; [done|]. split_and!; try done.
  - symmetry. by apply insert_id.
  - intros h' Hh'. cbn. rewrite lookup_insert_ne; [done|]. intros ->. set_solver.
  - intros h'. cbn. rewrite lookup_insert_is_Some. split; [intros [->|[_ ?]]; eauto|].
    destruct (decide (h = h')); eauto.
  - intros l' Hl' Hdis. cbn. apply chain_join; try done. apply Hdis. set_solver.
Qed.

(** A step that moves no callback. *)
Lemma rep_frame m m' S :
  rep m S → heads m' = heads m →
  (∀ c d, rcu_data_of m !! c = Some d → ∃ d', rcu_data_of m' !! c = Some d' ∧
     ∀ k, ptr_of k d' = ptr_of k d ∧ (tail_of k d' = tail_of k d ∨ S !! (c, k) = Some [] ∧ tail_of k d' = first_cell c k)) →
  (∀ c, S !! (c, Done) = Some [] → invoking (pc_of m c) = true → invoking (pc_of m' c) = true ∨
     ∃ d', rcu_data_of m' !! c = Some d' ∧ donetail d' = DoneCell c) →
  rep m' S.
Proof.
  intros [Hseg Hpl] Hh Hd Hpc. split; [|by rewrite Hh]. intros c k l Hl.
  destruct (Hseg c k l Hl) as (d & Hdc & Hch & Ht). destruct (Hd c d Hdc) as (d' & Hd' & Hk).
  exists d'. split; [done|]. destruct (Hk k) as [-> Et]. rewrite Hh. split; [done|].
  destruct Et as [Et|[E0 Et]].
  - destruct Ht as [(-> & -> & Hinv)|Ht]; [|right; congruence].
    destruct (Hpc c Hl Hinv) as [?|(d'' & Hd'' & Ht)]; [by left|]. right. simplify_eq. done.
  - right. assert (l = []) as -> by congruence. done.
Qed.

Lemma rep_chain m S c k l :
  rep m S → S !! (c, k) = Some l →
  ∃ d, rcu_data_of m !! c = Some d ∧ chain (heads m) (ptr_of k d) l ∧ NoDup l ∧
    (k = Done ∧ l = [] ∧ invoking (pc_of m c) = true ∨ tail_of k d = end_cell (first_cell c k) l).
Proof. intros [Hseg (Hnd & _)] Hl. destruct (Hseg _ _ _ Hl) as (d & ? & ? & ?). exists d. split_and!; eauto. Qed.

(** A step that moves the callbacks [li] of one list behind those of another,
    where [q] was stored in the cell that ended the latter. *)
Lemma rep_join m m1 m' S T c k i li lj q d d1 d' :
  rep m S → S !! i = Some li → S !! (c, k) = Some lj → i ≠ (c, k) → without S T i →
  rcu_data_of m !! c = Some d → chain (heads m) q li → joined c k lj q d m m1 d1 →
  heads m' = heads m1 → (∀ x, x ≠ c → rcu_data_of m' !! x = rcu_data_of m1 !! x) → rcu_data_of m' !! c = Some d' →
  ptr_of k d' = ptr_of k d1 → tail_of k d' = end_cell (first_cell c k) (lj ++ li) →
  (∀ k', k' ≠ k → i ≠ (c, k') → ptr_of k' d' = ptr_of k' d1 ∧ tail_of k' d' = tail_of k' d1) →
  (∀ l, T !! i = Some l → ∃ k', i = (c, k') ∧ ptr_of k' d' = 0 ∧ tail_of k' d' = first_cell c k') →
  (∀ x, invoking (pc_of m x) = true → invoking (pc_of m' x) = true) →
  rep m' (<[(c, k) := lj ++ li]> T).
Proof.
  intros [Hseg Hpl] Hi Hj Hij HT Hd Hq Hjo Hh Hx Hdc Hp Ht Hk HTi Hpc.
  destruct Hjo as (Ed & _ & Htl & Hptr & Hhs & Hdom & _ & _ & _ & Hch). split.
  2: { eapply placed_move; [exact Hpl| |exact HT|exact Hij|exact Hi|exact Hj]. intros h. by rewrite Hh. }
  destruct Hpl as (_ & Hdis & _). intros x k' l. destruct (decide ((x, k') = (c, k))) as [[= -> ->]|Hne].
  { rewrite lookup_insert_eq. intros [= <-]. exists d'. split; [done|]. split; [|by right]. rewrite Hh, Hp.
    apply Hch; [done|]. intros h Hhj Hhi. apply Hij. symmetry. exact (Hdis _ _ _ _ h Hj Hi Hhj Hhi). }
  rewrite lookup_insert_ne by done. intros Hl. destruct (decide ((x, k') = i)) as [E|Hni].
  { destruct HT as [_ HT0]. rewrite E in Hl. pose proof (HT0 _ Hl) as ->. destruct (HTi _ Hl) as (k2 & E2 & Hp2 & Ht2).
    rewrite E2 in E. simplify_eq. exists d'. split; [done|]. split; [done|]. by right. }
  destruct HT as [HT _]. rewrite HT in Hl by done. destruct (Hseg x k' l Hl) as (dx & Hdx & Hchx & Htx).
  assert (Hag : chain (heads m') (ptr_of k' dx) l).
  { rewrite Hh. apply (chain_ext (heads m)); [|done]. intros h Hin. apply Hhs. intros Hinj. apply Hne.
    exact (Hdis _ _ _ _ h Hl Hj Hin Hinj). }
  destruct (decide (x = c)) as [->|Hxc].
  - rewrite Hd in Hdx. injection Hdx as <-. exists d'. split; [done|].
    destruct (Hk k') as [-> Et]; [congruence|done|]. rewrite Hptr, Et, Htl by congruence. split; [done|].
    destruct Htx as [(?&?&?)|?]; [left|right]; auto.
  - exists dx. rewrite Hx, Ed, lookup_insert_ne by done. split; [done|]. split; [done|].
    destruct Htx as [(?&?&?)|?]; [left|right]; auto.
Qed.
