(* ===== verification/RcuSpec.v ===== *)
(** * Read-copy-update on sequences

    The steps of rcupdate.c with the lists of callbacks as sequences: the same
    control flow, no pointers and no lengths. Where the number of callbacks run
    in a row depends on [blimit], the step takes the answer as an argument. *)

From stdpp Require Import functions.
From S2P Require Import Prelude Rcu RcuList.
Open Scope xen_scope.

Record spec := mk_spec {
  s_rcp : rcu_ctrlblk;
  s_online : gset Z;
  s_pc : Z → pc;
  s_quiesc : Z → Z;
  s_qs : Z → Z;
  s_batch : Z → Z;
  s_lists : lists;
}.

Definition s_list (A : spec) (c : Z) (k : kind) : list Z := default [] (s_lists A !! (c, k)).

Definition s_upd_rcp (f : rcu_ctrlblk → rcu_ctrlblk) (A : spec) : spec :=
  mk_spec (f (s_rcp A)) (s_online A) (s_pc A) (s_quiesc A) (s_qs A) (s_batch A) (s_lists A).
Definition s_goto (c : Z) (p : pc) (A : spec) : spec :=
  mk_spec (s_rcp A) (s_online A) (<[c := p]> (s_pc A)) (s_quiesc A) (s_qs A) (s_batch A) (s_lists A).
Definition s_upd_quiesc (c b qs : Z) (A : spec) : spec :=
  mk_spec (s_rcp A) (s_online A) (s_pc A) (<[c := b]> (s_quiesc A)) (<[c := qs]> (s_qs A)) (s_batch A) (s_lists A).
Definition s_upd_batch (c b : Z) (A : spec) : spec :=
  mk_spec (s_rcp A) (s_online A) (s_pc A) (s_quiesc A) (s_qs A) (<[c := b]> (s_batch A)) (s_lists A).
Definition s_upd_lists (f : lists → lists) (A : spec) : spec :=
  mk_spec (s_rcp A) (s_online A) (s_pc A) (s_quiesc A) (s_qs A) (s_batch A) (f (s_lists A)).
Definition s_upd_online (f : gset Z → gset Z) (A : spec) : spec :=
  mk_spec (s_rcp A) (f (s_online A)) (s_pc A) (s_quiesc A) (s_qs A) (s_batch A) (s_lists A).

Definition s_lock (c : Z) (p : pc) (A : spec) : spec :=
  match lock (s_rcp A) with
  | None => s_goto c p (s_upd_rcp (set_lock (Some c)) A)
  | Some _ => A
  end.

(** The list [k] of [c'] goes behind the next list of [c]. *)
Definition s_take (c c' : Z) (k : kind) (A : spec) : spec :=
  s_upd_lists (λ S, <[(c, Nxt) := s_list A c Nxt ++ s_list A c' k]> (delete (c', k) S)) A.

(** [stop]: the limit of callbacks in a row is reached. *)
Definition spec_step (c : Z) (stop : bool) (A : spec) : spec * option Z :=
  let r := s_rcp A in
  match s_pc A c with
  | Idle => (A, None)
  | PDoneList =>
      (s_goto c PNextList
         (if decide (s_list A c Cur ≠ [] ∧ s_batch A c ≤ completed r) then
            s_upd_lists (λ S, <[(c, Done) := s_list A c Done ++ s_list A c Cur]> (<[(c, Cur) := []]> S)) A
          else A), None)
  | PNextList =>
      (if decide (s_list A c Nxt ≠ [] ∧ s_list A c Cur = []) then
         s_goto c PBatch (s_upd_lists (λ S, <[(c, Cur) := s_list A c Nxt]> (<[(c, Nxt) := []]> S)) A)
       else s_goto c PQuiesce A, None)
  | PBatch => (s_goto c PPending (s_upd_batch c (cur r + 1) A), None)
  | PPending => (if decide (next_pending r = 0) then s_goto c PLock A else s_goto c PQuiesce A, None)
  | PLock => (s_lock c PSetPending A, None)
  | PSetPending => (s_goto c (SBCheck InCallbacks) (s_upd_rcp (set_next_pending 1) A), None)
  | SBCheck k =>
      (if decide (next_pending r ≠ 0 ∧ completed r = cur r) then
         s_goto c (SBInc k) (s_upd_rcp (set_next_pending 0) A)
       else s_goto c (PUnlock k) A, None)
  | SBInc k => (s_goto c (SBMask k) (s_upd_rcp (set_cur (cur r + 1)) A), None)
  | SBMask k => (s_goto c (PUnlock k) (s_upd_rcp (set_cpumask (s_online A)) A), None)
  | PUnlock k => (s_goto c (unlocked k) (s_upd_rcp (set_lock None) A), None)
  | PQuiesce =>
      (if decide (s_quiesc A c ≠ cur r) then s_goto c PNote A
       else if decide (s_qs A c = 0) then s_goto c PInvoke A
       else s_goto c QLock (s_upd_quiesc c (s_quiesc A c) 0 A), None)
  | PNote => (s_goto c PInvoke (s_upd_quiesc c (cur r) 1 A), None)
  | QLock => (s_lock c QCheck A, None)
  | QCheck =>
      (if decide (s_quiesc A c = cur r) then s_goto c (CQClear c InQuiesce) A
       else s_goto c (PUnlock InQuiesce) A, None)
  | CQClear x k =>
      (if decide (cpumask r ∖ {[ x ]} = ∅) then
         s_goto c (CQComplete k) (s_upd_rcp (set_cpumask (cpumask r ∖ {[ x ]})) A)
       else s_goto c (PUnlock k) (s_upd_rcp (set_cpumask (cpumask r ∖ {[ x ]})) A), None)
  | CQComplete k => (s_goto c (SBCheck k) (s_upd_rcp (set_completed (cur r)) A), None)
  | PInvoke =>
      (if decide (s_list A c Done = []) then s_goto c Idle A
       else s_goto c (BLoop (hd 0 (s_list A c Done)) 0) A, None)
  | BLoop _ n =>
      match s_list A c Done with
      | [] => (s_goto c BEnd A, None)
      | h :: l => (s_goto c (BCount (hd 0 l) n) (s_upd_lists <[(c, Done) := l]> A), Some h)
      end
  | BCount h n => (if stop then s_goto c BEnd A else s_goto c (BLoop h (n + 1)) A, None)
  | BEnd => (s_goto c Idle A, None)
  | OLock x => (s_lock c (OCheck x) A, None)
  | OCheck x =>
      (if decide (cur r ≠ completed r) then s_goto c (CQClear x (InOffline x)) A
       else s_goto c (PUnlock (InOffline x)) A, None)
  | OMoveDone x => (s_goto c (OMoveCur x) (s_take c x Done A), None)
  | OMoveCur x => (s_goto c (OMoveNxt x) (s_take c x Cur A), None)
  | OMoveNxt x => (s_goto c (OQlen x) (s_take c x Nxt A), None)
  | OQlen x => (s_goto c Idle A, None)
  end.

Definition spec_call (c h : Z) (A : spec) : spec :=
  s_upd_lists <[(c, Nxt) := s_list A c Nxt ++ [h]]> A.

Definition spec_up (c : Z) (A : spec) : spec :=
  mk_spec (s_rcp A) (s_online A) (<[c := Idle]> (s_pc A)) (<[c := completed (s_rcp A)]> (s_quiesc A))
    (<[c := 0]> (s_qs A)) (<[c := 0]> (s_batch A))
    (<[(c, Nxt) := []]> (<[(c, Cur) := []]> (<[(c, Done) := []]> (s_lists A)))).
