(* ===== verification/RcuSim.v ===== *)
(** * Read-copy-update: the code refines the steps on sequences *)

From stdpp Require Import functions.
From S2P Require Import Prelude Rcu RcuList RcuSpec.
Open Scope xen_scope.

Record sim (live : gset Z) (m : rcu_machine) (A : spec) : Prop := {
  sim_rcp : rcp m = s_rcp A;
  sim_online : cpu_online_map m = s_online A;
  sim_pc : ∀ c, pc_of m c = s_pc A c;
  sim_data : ∀ c d, rcu_data_of m !! c = Some d →
    quiescbatch d = s_quiesc A c ∧ qs_pending d = s_qs A c ∧ batch d = s_batch A c ∧ rd_cpu d = c;
  sim_live : ∀ c, c ∈ live → is_Some (rcu_data_of m !! c);
  sim_rep : rep m (s_lists A);
  sim_ptr : ∀ c h n, s_pc A c = BLoop h n ∨ s_pc A c = BCount h n → h = hd 0 (s_list A c Done);
}.

(** What a step needs: the lists of the CPU, and of the CPU it takes over from. *)
Definition step_ready (live : gset Z) (c : Z) (A : spec) : Prop :=
  c ∈ live ∧ (∀ k, is_Some (s_lists A !! (c, k))) ∧
  match s_pc A c with
  | OCheck x | OQlen x => x ∈ live
  | OMoveDone x => x ≠ c ∧ invoking (s_pc A x) = false ∧ is_Some (s_lists A !! (x, Done))
  | OMoveCur x => x ≠ c ∧ invoking (s_pc A x) = false ∧ is_Some (s_lists A !! (x, Cur))
  | OMoveNxt x => x ≠ c ∧ invoking (s_pc A x) = false ∧ is_Some (s_lists A !! (x, Nxt))
  | _ => True
  end.

Lemma s_list_eq A c k : is_Some (s_lists A !! (c, k)) → s_lists A !! (c, k) = Some (s_list A c k).
Proof. intros [l H]. unfold s_list. by rewrite H. Qed.

Lemma pc_of_goto m c p x : pc_of (goto c p m) x = if decide (x = c) then p else pc_of m x.
Proof.
  unfold pc_of, goto; simpl. destruct (decide (x = c)) as [->|]; [by rewrite lookup_insert_eq|by rewrite lookup_insert_ne].
Qed.

Lemma fn_insert_at {V} (f : Z → V) c v x : <[c := v]> f x = if decide (x = c) then v else f x.
Proof. destruct (decide (x = c)) as [->|]; [by rewrite fn_lookup_insert|by rewrite fn_lookup_insert_ne]. Qed.

Section sim.
Context (live : gset Z).

(** ** Steps on the control block *)

Lemma sim_goto_batch m A c p :
  sim live m A → (invoking (s_pc A c) = true → invoking p = true) →
  (∀ h n, p = BLoop h n ∨ p = BCount h n → h = hd 0 (s_list A c Done)) → sim live (goto c p m) (s_goto c p A).
Proof.
  intros [H1 H2 H3 H4 H5 H6 H7] Hc Hp. constructor; try done.
  - intros x. rewrite pc_of_goto. simpl. by rewrite fn_insert_at, H3.
  - apply (rep_frame m); try done; [intros x d Hd; exists d; split; [done|]; intros k; eauto|].
    intros x _ Hx. left. rewrite pc_of_goto. case_decide; [|done]. subst x. rewrite H3 in Hx. auto.
  - intros x h n. simpl. rewrite fn_insert_at. case_decide; [|apply H7]. subst x. apply Hp.
Qed.

Lemma sim_goto m A c p :
  sim live m A → invoking (s_pc A c) = false → invoking p = false → sim live (goto c p m) (s_goto c p A).
Proof. intros H Hc Hp. apply sim_goto_batch; [done|congruence|]. by intros h n [-> | ->]. Qed.

Lemma sim_upd_rcp m A f : sim live m A → sim live (upd_rcp f m) (s_upd_rcp f A).
Proof. intros [H1 H2 H3 H4 H5 H6 H7]. constructor; try done. simpl. by rewrite H1. Qed.

Lemma sim_lock m A c p :
  sim live m A → invoking (s_pc A c) = false → invoking p = false → sim live (take_lock c p m) (s_lock c p A).
Proof.
  intros H Hc Hp. unfold take_lock, s_lock. rewrite (sim_rcp _ _ _ H). destruct (lock _); [done|].
  apply sim_goto; [by apply sim_upd_rcp|done|done].
Qed.

(** ** Steps on the fields of a CPU *)

Lemma get_rdp_sim m A c : sim live m A → c ∈ live →
  ∃ d, rcu_data_of m !! c = Some d ∧ get_rdp c m = Ok d ∧
    quiescbatch d = s_quiesc A c ∧ qs_pending d = s_qs A c ∧ batch d = s_batch A c ∧ rd_cpu d = c.
Proof.
  intros H Hc. destruct (sim_live _ _ _ H c Hc) as [d Hd]. exists d. split; [done|]. unfold get_rdp. rewrite Hd.
  split; [done|]. exact (sim_data _ _ _ H c d Hd).
Qed.

(** The links of the lists are as before, the other fields match [A']. *)
Lemma sim_put m A A' c d d' :
  sim live m A → rcu_data_of m !! c = Some d →
  (∀ k, ptr_of k d' = ptr_of k d ∧ tail_of k d' = tail_of k d) →
  s_rcp A' = s_rcp A → s_online A' = s_online A → s_pc A' = s_pc A → s_lists A' = s_lists A →
  (∀ x, x ≠ c → s_quiesc A' x = s_quiesc A x ∧ s_qs A' x = s_qs A x ∧ s_batch A' x = s_batch A x) →
  quiescbatch d' = s_quiesc A' c ∧ qs_pending d' = s_qs A' c ∧ batch d' = s_batch A' c ∧ rd_cpu d' = c →
  sim live (put_rdp c d' m) A'.
Proof.
  intros [H1 H2 H3 H4 H5 H6 H7] Hd Hl E1 E2 E3 E4 Hx Hd'. constructor; simpl.
  - congruence.
  - congruence.
  - intros x. rewrite E3, <- H3. done.
  - intros x dx. destruct (decide (x = c)) as [->|Hne].
    + rewrite lookup_insert_eq. by intros [= <-].
    + rewrite lookup_insert_ne by done. intros Hdx. destruct (Hx x Hne) as (-> & -> & ->). by apply H4.
  - intros x Hxl. apply lookup_insert_is_Some. destruct (decide (c = x)); eauto.
  - rewrite E4. apply (rep_frame m); try done; [|eauto]. intros x dx Hdx. simpl. destruct (decide (x = c)) as [->|Hne].
    + rewrite lookup_insert_eq. exists d'. split; [done|]. simplify_eq. intros k. destruct (Hl k). eauto.
    + rewrite lookup_insert_ne by done. exists dx. split; [done|]. eauto.
  - rewrite E3. unfold s_list. rewrite E4. exact H7.
Qed.

Lemma sim_put_same m A c d d' :
  sim live m A → rcu_data_of m !! c = Some d →
  (∀ k, ptr_of k d' = ptr_of k d ∧ tail_of k d' = tail_of k d) →
  quiescbatch d' = quiescbatch d ∧ qs_pending d' = qs_pending d ∧ batch d' = batch d ∧ rd_cpu d' = rd_cpu d →
  sim live (put_rdp c d' m) A.
Proof.
  intros H Hd Hl (E1 & E2 & E3 & E4). apply (sim_put m A A c d d'); try done.
  rewrite E1, E2, E3, E4. by apply (sim_data _ _ _ H).
Qed.

(** ** Steps that move callbacks *)

(** [m'] differs from [m] in the lists and the place of [c] only. *)
Lemma sim_moved m m' A f p c d' (S := f (s_lists A)) :
  sim live m A → c ∈ live → rep m' S →
  rcp m' = rcp m → cpu_online_map m' = cpu_online_map m → pcs m' = <[c := p]> (pcs m) → 
  (∀ x, x ≠ c → rcu_data_of m' !! x = rcu_data_of m !! x) → rcu_data_of m' !! c = Some d' →
  quiescbatch d' = s_quiesc A c ∧ qs_pending d' = s_qs A c ∧ batch d' = s_batch A c ∧ rd_cpu d' = c →
  (∀ x, x ≠ c → invoking (s_pc A x) = true → S !! (x, Done) = s_lists A !! (x, Done)) →
  (∀ h n, p = BLoop h n ∨ p = BCount h n → h = hd 0 (default [] (S !! (c, Done)))) →
  sim live m' (s_goto c p (s_upd_lists f A)).
Proof.
  subst S. set (S := f (s_lists A)). intros [H1 H2 H3 H4 H5 H6 H7] Hc Hrep E1 E2 E3 Hx Hd Hm Hdone Hp. constructor; simpl; try (exact Hrep || congruence).
  - intros x. unfold pc_of. rewrite E3. rewrite fn_insert_at. destruct (decide (x = c)) as [->|Hne].
    + by rewrite lookup_insert_eq.
    + rewrite lookup_insert_ne by done. apply H3.
  - intros x dx. destruct (decide (x = c)) as [->|Hne]; [rewrite Hd; intros [= <-]; done|]. rewrite Hx by done. apply H4.
  - intros x Hxl. destruct (decide (x = c)) as [->|Hne]; [eauto|]. rewrite Hx by done. by apply H5.
  - intros x h n. rewrite fn_insert_at. unfold s_list. simpl. destruct (decide (x = c)) as [->|Hne]; [apply Hp|].
    intros Hpc. rewrite Hdone; [exact (H7 x h n Hpc)|done|]. by destruct Hpc as [-> | ->].
Qed.

Lemma finish_curlist_sim m A c :
  sim live m A → c ∈ live → (∀ k, is_Some (s_lists A !! (c, k))) → s_pc A c = PDoneList →
  ∃ m', finish_curlist c m = Ok m' ∧ sim live m' (spec_step c false A).1.
Proof.
  intros H Hc Hk Hp. unfold finish_curlist, spec_step. rewrite Hp.
  destruct (get_rdp_sim m A c H Hc) as (d & Hd & -> & Hm). cbn [mbind outcome_bind].
  pose proof (sim_rep _ _ _ H) as Hrep.
  destruct (rep_chain m _ c Cur _ Hrep (s_list_eq _ _ _ (Hk Cur))) as (d0 & Hd0 & Hcur & Hnd & Htcur).
  rewrite Hd in Hd0. injection Hd0 as <-. destruct Htcur as [(? & _)|Htcur]; [done|].
  destruct (rep_chain m _ c Done _ Hrep (s_list_eq _ _ _ (Hk Done))) as (d0 & Hd0 & Hdone & Hndd & Htd).
  rewrite Hd in Hd0. injection Hd0 as <-.
  destruct Htd as [(_ & _ & Hinv)|Htd]; [rewrite (sim_pc _ _ _ H), Hp in Hinv; done|].
  rewrite (sim_rcp _ _ _ H). destruct Hm as (Hm1 & Hm2 & Hm3 & Hm4). rewrite Hm3. unfold rcu_batch_before.
  pose proof (chain_empty _ _ _ Hcur) as Hce. cbn [ptr_of] in Hce.
  destruct (decide (s_list A c Cur ≠ [] ∧ s_batch A c ≤ completed (s_rcp A))) as [[Hne Hle]|Hno]; cbn [fst].
  - destruct (Z.eqb_spec (curlist d) 0) as [E|_]; [by apply Hce in E|]. destruct (Z.ltb_spec (completed (s_rcp A) - s_batch A c) 0); [lia|].
    cbn [negb andb tail_of] in *. rewrite Htd.
    destruct (store_end c Done (s_list A c Done) (curlist d) d m Hd Hdone Hndd) as (m1 & d1 & -> & Hj).
    cbn [mbind outcome_bind]. pose proof Hj as (Ed & Esc & Etl & Eptr & _ & _ & Er & Eo & Epc & _).
    unfold get_rdp. rewrite Ed, lookup_insert_eq. cbn [deref mbind outcome_bind].
    set (d2 := set_curl 0 (CurCell c) (set_done (donelist d1) (curtail d1) d1)). eexists. split; [done|].
    eapply (sim_moved m _ A _ PNextList c d2); try done; simpl.
    + eapply (rep_join m m1 _ _ _ c Done (c, Cur) _ _ (curlist d) d d1 d2); try done.
      * by apply s_list_eq.
      * by apply s_list_eq.
      * apply without_clear.
      * simpl. intros x Hx. by rewrite lookup_insert_ne.
      * simpl. by rewrite lookup_insert_eq.
      * simpl. pose proof (Etl Cur) as Et. cbn [tail_of] in Et. rewrite Et, Htcur. symmetry. by apply end_cell_app.
      * intros [] ??; done.
      * intros l _. exists Cur. done.
      * intros x. rewrite pc_of_goto. unfold pc_of. simpl. rewrite Epc. case_decide; [|done]. subst x.
        pose proof (sim_pc _ _ _ H c) as E. unfold pc_of in E. by rewrite E, Hp.
    + by rewrite Epc.
    + intros x Hx. rewrite Ed. by rewrite !lookup_insert_ne.
    + by rewrite lookup_insert_eq.
    + simpl. unfold scalars in Esc. injection Esc as -> -> -> _ _ -> _. done.
    + intros x Hx _. rewrite !lookup_insert_ne by congruence. done.
    + by intros h n [? | ?].
  - assert (negb (curlist d =? 0) && negb (completed (s_rcp A) - s_batch A c <? 0) = false) as ->.
    { destruct (Z.eqb_spec (curlist d) 0) as [E|E]; [done|]. destruct (Z.ltb_spec (completed (s_rcp A) - s_batch A c) 0); [done|].
      exfalso. apply Hno. split; [|lia]. intros Hl. apply E. by apply Hce. }
    eexists. split; [done|]. apply sim_goto; [done|by rewrite Hp|done].
Qed.

Lemma take_nxtlist_sim m A c :
  sim live m A → c ∈ live → (∀ k, is_Some (s_lists A !! (c, k))) → s_pc A c = PNextList →
  ∃ m', take_nxtlist c m = Ok m' ∧ sim live m' (spec_step c false A).1.
Proof.
  intros H Hc Hk Hp. unfold take_nxtlist, spec_step. rewrite Hp.
  destruct (get_rdp_sim m A c H Hc) as (d & Hd & -> & Hm). cbn [mbind outcome_bind].
  pose proof (sim_rep _ _ _ H) as Hrep.
  destruct (rep_chain m _ c Cur _ Hrep (s_list_eq _ _ _ (Hk Cur))) as (d0 & Hd0 & Hcur & _ & _).
  rewrite Hd in Hd0. injection Hd0 as <-.
  destruct (rep_chain m _ c Nxt _ Hrep (s_list_eq _ _ _ (Hk Nxt))) as (d0 & Hd0 & Hnxt & _ & Htn).
  rewrite Hd in Hd0. injection Hd0 as <-. destruct Htn as [(? & _)|Htn]; [done|].
  pose proof (chain_empty _ _ _ Hcur) as Hce. pose proof (chain_empty _ _ _ Hnxt) as Hne. cbn [ptr_of tail_of] in *.
  destruct (decide (s_list A c Nxt ≠ [] ∧ s_list A c Cur = [])) as [[Hn1 Hc1]|Hno]; cbn [fst].
  - destruct (Z.eqb_spec (nxtlist d) 0) as [E|_]; [by apply Hne in E|].
    destruct (Z.eqb_spec (curlist d) 0) as [_|E]; [|by destruct E; apply Hce]. cbn [negb andb].
    set (d2 := set_nxt 0 (NxtCell c) (set_curl (nxtlist d) (nxttail d) d)). eexists. split; [done|].
    eapply (sim_moved m _ A _ PBatch c d2); try done; simpl.
    + pose proof (rep_join m (put_rdp c (set_curl (nxtlist d) (curtail d) d) m) (goto c PBatch (put_rdp c d2 m))
        (s_lists A) (<[(c, Nxt) := []]> (s_lists A)) c Cur (c, Nxt) (s_list A c Nxt) [] (nxtlist d) d
        (set_curl (nxtlist d) (curtail d) d) d2) as HJ.
      apply HJ; try done.
      * by apply s_list_eq.
      * by rewrite s_list_eq, Hc1.
      * apply without_clear.
      * split_and!; try done; by intros [].
      * simpl. intros x Hx. by rewrite !lookup_insert_ne.
      * simpl. by rewrite lookup_insert_eq.
      * simpl. rewrite Htn. destruct (s_list A c Nxt) as [|h l]; [done|]. apply (end_cell_app _ _ []); done.
      * intros [] ??; done.
      * intros l _. exists Nxt. done.
      * intros x. rewrite pc_of_goto. case_decide; [|done]. subst x. by rewrite (sim_pc _ _ _ H), Hp.
    + intros x Hx. by rewrite !lookup_insert_ne.
    + by rewrite lookup_insert_eq.
    + intros x Hx _. rewrite !lookup_insert_ne by congruence. done.
    + by intros h n [? | ?].
  - assert (negb (nxtlist d =? 0) && (curlist d =? 0) = false) as ->.
    { destruct (Z.eqb_spec (nxtlist d) 0) as [E|E]; [done|]. destruct (Z.eqb_spec (curlist d) 0) as [E'|]; [|done].
      exfalso. apply Hno. split; [intros Hl; apply E; by apply Hne|by apply Hce]. }
    eexists. split; [done|]. apply sim_goto; [done|by rewrite Hp|done].
Qed.

Lemma invoke_one_sim m A c h n stop :
  sim live m A → c ∈ live → (∀ k, is_Some (s_lists A !! (c, k))) → s_pc A c = BLoop h n →
  ∃ m' e, invoke_one c h n m = Ok (m', e) ∧ sim live m' (spec_step c stop A).1 ∧ fst <$> e = (spec_step c stop A).2.
Proof.
  intros H Hc Hk Hp. unfold invoke_one, spec_step. rewrite Hp.
  destruct (get_rdp_sim m A c H Hc) as (d & Hd & Hg & Hm).
  pose proof (sim_rep _ _ _ H) as Hrep. pose proof (sim_ptr _ _ _ H c h n (or_introl Hp)) as Hh.
  destruct (rep_chain m _ c Done _ Hrep (s_list_eq _ _ _ (Hk Done))) as (d0 & Hd0 & Hdn & Hnd & Htd).
  rewrite Hd in Hd0. injection Hd0 as <-. cbn [ptr_of tail_of] in *.
  destruct (s_list A c Done) as [|h' l] eqn:El; simpl in Hh; subst h; cbn [fst snd].
  - destruct (Z.eqb_spec 0 0); [|done]. eexists _, _. split; [done|]. split; [|done].
    destruct H as [H1 H2 H3 H4 H5 H6 H7]. constructor; try done.
    + intros x. rewrite pc_of_goto. simpl. by rewrite fn_insert_at, H3.
    + apply (rep_frame m); try done; [intros x dx Hdx; exists dx; split; [done|]; intros k; eauto|].
      intros x _ Hx. left. rewrite pc_of_goto. by case_decide.
    + intros x h0 n0. simpl. rewrite fn_insert_at. case_decide; [|apply H7]. by intros [? | ?].
  - destruct Hdn as (Ep & Hn0 & x & Hx & Hch). destruct (Z.eqb_spec h' 0); [done|]. rewrite Hx. cbn [deref].
    unfold upd_rdp. rewrite Hg. cbn [mbind outcome_bind]. eexists _, _. split; [done|]. split; [|done].
    apply NoDup_cons in Hnd as [Hnin Hnd].
    assert (En : next x = hd 0 l) by (destruct l; simpl in Hch |- *; [done|by destruct Hch as [-> _]]). rewrite En in Hch |- *.
    set (d2 := set_done (hd 0 l) (donetail d) d).
    assert (HSd : s_lists A !! (c, Done) = Some (h' :: l)) by (rewrite s_list_eq by done; by rewrite El).
    eapply (sim_moved m _ A _ (BCount (hd 0 l) n) c d2); try done; simpl.
    + split.
      2: { apply placed_pop with (h := h'); [apply Hrep|done]. }
      intros y k l' Hl'. destruct Hrep as [Hseg (_ & Hdis & _)]. destruct (decide ((y, k) = (c, Done))) as [[= -> ->]|Hne].
      * rewrite lookup_insert_eq in Hl'. injection Hl' as <-. exists d2. simpl. rewrite lookup_insert_eq. split; [done|].
        split; [|].
        -- apply (chain_ext (heads m)); [|done]. intros z Hz. rewrite lookup_delete_ne; [done|]. intros ->. done.
        -- destruct l as [|h2 l2]; [left; split_and!; try done; rewrite pc_of_goto; by rewrite decide_True|right].
           destruct Htd as [(_ & ? & _)|Htd]; [done|]. rewrite Htd. by apply (end_cell_app _ _ [h']).
      * rewrite lookup_insert_ne in Hl' by done. destruct (Hseg y k l' Hl') as (dy & Hdy & Hchy & Hty).
        assert (Hchy' : chain (delete h' (heads m)) (ptr_of k dy) l').
        { apply (chain_ext (heads m)); [|done]. intros z Hz. rewrite lookup_delete_ne; [done|]. intros ->.
          apply Hne. symmetry. refine (Hdis _ _ _ _ _ HSd Hl' _ Hz). left. }
        assert (Hpcy : invoking (pc_of m y) = true → invoking (pc_of (goto c (BCount (hd 0 l) n) (upd_heads (delete h') (put_rdp c d2 m))) y) = true).
        { rewrite pc_of_goto. by case_decide. }
        destruct (decide (y = c)) as [->|Hyc].
        -- rewrite Hd in Hdy. injection Hdy as <-. exists d2. simpl. rewrite lookup_insert_eq. split; [done|].
           destruct k; try done; (split; [done|]); destruct Hty as [(?&?&?)|?]; try done; by right.
        -- exists dy. simpl. rewrite lookup_insert_ne by done. split; [done|]. split; [done|].
           destruct Hty as [(?&?&?)|?]; [left; auto|by right].
    + intros y Hy. by rewrite lookup_insert_ne.
    + by rewrite lookup_insert_eq.
    + intros y Hy _. by rewrite lookup_insert_ne by congruence.
    + intros h0 n1. rewrite lookup_insert_eq. simpl. by intros [? | [= <- <-]].
Qed.

Lemma end_batch_sim m A c stop :
  sim live m A → c ∈ live → (∀ k, is_Some (s_lists A !! (c, k))) → s_pc A c = BEnd →
  ∃ m', end_batch c m = Ok m' ∧ sim live m' (spec_step c stop A).1.
Proof.
  intros H Hc Hk Hp. unfold end_batch, spec_step. rewrite Hp.
  destruct (get_rdp_sim m A c H Hc) as (d & Hd & -> & Hm). cbn [mbind outcome_bind fst].
  pose proof (sim_rep _ _ _ H) as Hrep.
  destruct (rep_chain m _ c Done _ Hrep (s_list_eq _ _ _ (Hk Done))) as (d0 & Hd0 & Hdn & _ & Htd).
  rewrite Hd in Hd0. injection Hd0 as <-. pose proof (chain_empty _ _ _ Hdn) as Hde. cbn [ptr_of tail_of] in *.
  set (d1 := if (rd_blimit d =? INT_MAX) && (qlen d <=? qlowmark) then set_blimit blimit d else d).
  assert (Hd1 : donelist d1 = donelist d ∧ (∀ k, ptr_of k d1 = ptr_of k d ∧ tail_of k d1 = tail_of k d) ∧
    quiescbatch d1 = quiescbatch d ∧ qs_pending d1 = qs_pending d ∧ batch d1 = batch d ∧ rd_cpu d1 = rd_cpu d).
  { unfold d1. destruct (_ && _); split_and!; try done; by intros []. }
  clearbody d1. destruct Hd1 as (Edl & Elinks & E1 & E2 & E3 & E4).
  assert (HA : s_goto c Idle A = s_goto c Idle (s_upd_lists id A)) by done. rewrite HA.
  assert (Hend : ∀ d2, (∀ k, ptr_of k d2 = ptr_of k d ∧ (tail_of k d2 = tail_of k d ∨ s_lists A !! (c, k) = Some [] ∧ tail_of k d2 = first_cell c k)) →
    donetail d2 = end_cell (DoneCell c) (s_list A c Done) →
    quiescbatch d2 = s_quiesc A c ∧ qs_pending d2 = s_qs A c ∧ batch d2 = s_batch A c ∧ rd_cpu d2 = c →
    ∀ pend, sim live (goto c Idle (mk_machine (heads m) (<[c := d2]> (rcu_data_of m)) (rcp m) (cpu_online_map m) pend (pcs m)))
      (s_goto c Idle (s_upd_lists id A))).
  { intros d2 Hl Ht Hs pend. eapply (sim_moved m _ A id Idle c d2); try done; simpl.
    - apply (rep_frame m); try done.
      + intros x dx Hdx. simpl. destruct (decide (x = c)) as [->|]; [rewrite lookup_insert_eq|rewrite lookup_insert_ne by done; eauto 10].
        simplify_eq. exists d2. eauto.
      + intros x Hx Hinv. destruct (decide (x = c)) as [->|].
        * right. exists d2. simpl. rewrite lookup_insert_eq. split; [done|]. rewrite Ht.
          rewrite s_list_eq in Hx by done. by injection Hx as ->.
        * left. rewrite pc_of_goto, decide_False by done. done.
    - intros x Hx. by rewrite lookup_insert_ne.
    - by rewrite lookup_insert_eq.
    - by intros h n [? | ?]. }
  rewrite Edl. destruct (Z.eqb_spec (donelist d) 0) as [E0|E0].
  - apply Hde in E0. eexists. split; [done|]. apply Hend.
    + intros k. destruct (Elinks k) as [Ep Et]. destruct k; try (split; [exact Ep|left; exact Et]).
      split; [done|]. right. split; [|done]. rewrite s_list_eq by done. by rewrite E0.
    + by rewrite E0.
    + simpl. rewrite E1, E2, E3, E4. exact Hm.
  - eexists. split; [done|]. apply Hend.
    + intros k. destruct (Elinks k) as [Ep Et]. eauto.
    + destruct (Elinks Done) as [_ Et]. cbn [tail_of] in Et. rewrite Et.
      destruct Htd as [(_ & Hl & _)|Htd]; [by apply Hde in Hl|done].
    + rewrite E1, E2, E3, E4. exact Hm.
Qed.

Lemma rcu_move_batch_sim m A c x k p :
  sim live m A → c ∈ live → is_Some (s_lists A !! (c, Nxt)) → is_Some (s_lists A !! (x, k)) → x ≠ c →
  invoking (s_pc A c) = false → invoking p = false → invoking (s_pc A x) = false →
  ∃ d m', get_rdp x m = Ok d ∧ rcu_move_batch c (ptr_of k d) (tail_of k d) m = Ok m' ∧
    sim live (goto c p m') (s_goto c p (s_take c x k A)).
Proof.
  intros H Hc Hn Hx Hne Hpc Hp Hpx. pose proof (sim_rep _ _ _ H) as Hrep.
  destruct (rep_chain m _ x k _ Hrep (s_list_eq _ _ _ Hx)) as (dx & Hdx & Hcx & _ & Htx).
  destruct (rep_chain m _ c Nxt _ Hrep (s_list_eq _ _ _ Hn)) as (d & Hd & Hcn & Hnd & Htn).
  destruct Htn as [(? & _)|Htn]; [done|]. exists dx. unfold rcu_move_batch, get_rdp. rewrite Hdx, Hd. cbn [deref mbind outcome_bind].
  cbn [tail_of] in Htn. rewrite Htn. cbn [first_cell] in *. 
  destruct (store_end c Nxt (s_list A c Nxt) (ptr_of k dx) d m Hd Hcn Hnd) as (m1 & d1 & E1 & Hj). cbn [first_cell] in E1. rewrite E1.
  cbn [mbind outcome_bind]. pose proof Hj as (Ed & Esc & Etl & Eptr & _ & _ & Er & Eo & Epc & _).
  pose proof (chain_empty _ _ _ Hcx) as Hxe. pose proof (sim_data _ _ _ H c d Hd) as Hm.
  set (d2 := if ptr_of k dx =? 0 then d1 else set_nxt (nxtlist d1) (tail_of k dx) d1).
  set (m2 := if ptr_of k dx =? 0 then m1 else put_rdp c d2 m1).
  assert (Em : (if ptr_of k dx =? 0 then Ok m1 else upd_rdp c (λ d, set_nxt (nxtlist d) (tail_of k dx) d) m1) = Ok m2).
  { unfold m2, d2, upd_rdp, get_rdp. rewrite Ed, lookup_insert_eq. by destruct (ptr_of k dx =? 0). }
  assert (E2 : heads m2 = heads m1 ∧ (∀ y, y ≠ c → rcu_data_of m2 !! y = rcu_data_of m1 !! y) ∧ rcu_data_of m2 !! c = Some d2 ∧
    rcp m2 = rcp m1 ∧ cpu_online_map m2 = cpu_online_map m1 ∧ pcs m2 = pcs m1 ∧ scalars d2 = scalars d1 ∧
    (∀ k, ptr_of k d2 = ptr_of k d1) ∧ (∀ k, k ≠ Nxt → tail_of k d2 = tail_of k d1) ∧
    tail_of Nxt d2 = end_cell (NxtCell c) (s_list A c Nxt ++ s_list A x k)).
  { unfold m2, d2. destruct (Z.eqb_spec (ptr_of k dx) 0) as [E0|E0].
    - apply Hxe in E0. rewrite E0, app_nil_r, (Etl Nxt). split_and!; try done. rewrite Ed. by rewrite lookup_insert_eq.
    - split_and!; try done; try (by intros []).
      + intros y Hy. simpl. by rewrite lookup_insert_ne.
      + simpl. by rewrite lookup_insert_eq.
      + cbn [tail_of set_nxt nxttail]. destruct Htx as [(_ & Hl & _)|Htx]; [by apply Hxe in Hl|]. rewrite Htx.
        symmetry. apply end_cell_app. intros Hl. by apply Hxe in Hl. }
  clearbody d2 m2. destruct E2 as (F1 & F2 & F3 & F4 & F5 & F6 & F7 & F8 & F9 & F10).
  exists m2. split; [done|]. split; [exact Em|]. unfold s_take.
  eapply (sim_moved m _ A _ p c d2); try done; simpl.
  - eapply (rep_join m m1 _ (s_lists A) (delete (x, k) (s_lists A)) c Nxt (x, k) (s_list A x k) _ (ptr_of k dx) d d1 d2); try done.
    + by apply s_list_eq.
    + by apply s_list_eq.
    + congruence.
    + apply without_delete.
    + intros k' Hk' _. split; [apply F8|by apply F9].
    + intros l. by rewrite lookup_delete_eq.
    + intros y. rewrite pc_of_goto. unfold pc_of. rewrite F6, Epc. case_decide; [|done]. subst y.
      pose proof (sim_pc _ _ _ H c) as E. unfold pc_of in E. by rewrite E, Hpc.
  - congruence.
  - congruence.
  - by rewrite F6, Epc.
  - intros y Hy. rewrite F2, Ed by done. by rewrite lookup_insert_ne.
  - unfold scalars in F7, Esc. injection F7 as -> -> -> _ _ -> _. injection Esc as -> -> -> _ _ -> _. exact Hm.
  - intros y Hy Hinv. rewrite lookup_insert_ne by congruence. rewrite lookup_delete_ne; [done|]. intros [= -> ->]. congruence.
  - intros h n [-> | ->]; done.
Qed.

(** ** Queueing *)

Lemma append_rep m A c h f d m1 d1 d2 pend :
  sim live m A → s_lists A !! (c, Nxt) = Some (s_list A c Nxt) → h ≠ 0 → heads m !! h = None →
  rcu_data_of m !! c = Some d → 
  joined c Nxt (s_list A c Nxt) h d (upd_heads <[h := mk_rcu_head 0 f]> m) m1 d1 →
  (∀ k, ptr_of k d2 = ptr_of k d1) → (∀ k, k ≠ Nxt → tail_of k d2 = tail_of k d1) → nxttail d2 = NextCell h →
  rep (mk_machine (heads m1) (<[c := d2]> (rcu_data_of m)) (rcp m) (cpu_online_map m) pend (pcs m))
    (<[(c, Nxt) := s_list A c Nxt ++ [h]]> (s_lists A)).
Proof.
  intros H Hn Hh0 Hh Hd (Ed & _ & Etl & Eptr & Ehs & Edom & _ & _ & _ & Hch) Hp2 Ht2 Htn.
  pose proof (sim_rep _ _ _ H) as [Hseg Hpl].
  assert (Hnew : ∀ y l, s_lists A !! y = Some l → h ∉ l).
  { intros y l Hy Hin. destruct Hpl as (_ & _ & Hdom). assert (is_Some (heads m !! h)) as [? ?] by (apply Hdom; eauto). congruence. }
  split.
  2: { pose proof (placed_add _ _ (c, Nxt) _ h (mk_rcu_head 0 f) Hpl Hh Hn) as (P1 & P2 & P3).
       split_and!; [done|done|]. simpl. intros z. rewrite Edom. apply P3. }
  intros x k l. destruct (decide ((x, k) = (c, Nxt))) as [[= -> ->]|Hne].
  - rewrite lookup_insert_eq. intros [= <-]. exists d2. cbn [rcu_data_of heads]. rewrite lookup_insert_eq. split; [done|]. split.
    + rewrite Hp2. apply Hch; [|intros z Hz; rewrite list_elem_of_singleton; intros ->; by eapply Hnew].
      split; [done|]. split; [done|]. eexists. simpl. rewrite lookup_insert_eq. done.
    + right. cbn [tail_of]. rewrite Htn. by rewrite end_cell_snoc.
  - rewrite lookup_insert_ne by done. intros Hl. destruct (Hseg x k l Hl) as (dx & Hdx & Hcx & Htx).
    assert (Hag : chain (heads m1) (ptr_of k dx) l).
    { apply (chain_ext (heads m)); [|done]. intros z Hz. rewrite Ehs.
      - simpl. rewrite lookup_insert_ne; [done|]. intros ->. by eapply Hnew.
      - intros Hz'. apply Hne. destruct Hpl as (_ & Hdis & _). exact (Hdis _ _ _ _ z Hl Hn Hz Hz'). }
    destruct (decide (x = c)) as [->|Hxc].
    + rewrite Hd in Hdx. injection Hdx as <-. exists d2. cbn [rcu_data_of heads]. rewrite lookup_insert_eq. split; [done|].
      rewrite Hp2, Eptr by congruence. split; [done|]. rewrite Ht2, Etl by congruence. exact Htx.
    + exists dx. cbn [rcu_data_of heads]. rewrite lookup_insert_ne by done. done.
Qed.

Lemma call_rcu_sim m A c h f :
  sim live m A → c ∈ live → is_Some (s_lists A !! (c, Nxt)) → h ≠ 0 → heads m !! h = None →
  ∃ m', call_rcu c h f m = Ok m' ∧ sim live m' (spec_call c h A).
Proof.
  intros H Hc Hn Hh0 Hh. pose proof (sim_rep _ _ _ H) as Hrep. apply s_list_eq in Hn.
  destruct (rep_chain m _ c Nxt _ Hrep Hn) as (d & Hd & Hcn & Hnd & Htn). destruct Htn as [(? & _)|Htn]; [done|].
  cbn [tail_of ptr_of] in *. unfold call_rcu. set (m0 := upd_heads <[h := mk_rcu_head 0 f]> m).
  assert (Hc0 : chain (heads m0) (nxtlist d) (s_list A c Nxt)).
  { apply (chain_ext (heads m)); [|done]. intros z Hz. simpl. rewrite lookup_insert_ne; [done|]. intros ->.
    destruct (chain_in _ _ _ z Hcn Hz) as [? ?]. congruence. }
  assert (Hd0 : rcu_data_of m0 !! c = Some d) by done.
  destruct (store_end c Nxt _ h d m0 Hd0 Hc0 Hnd) as (m1 & d1 & E1 & Hj). pose proof Hj as (Ed & Esc & Etl & Eptr & Ehs & _ & Er & Eo & Epc & _).
  unfold get_rdp. rewrite Hd0. cbn [deref mbind outcome_bind]. rewrite Htn, E1. cbn [mbind outcome_bind].
  rewrite Ed, lookup_insert_eq. cbn [deref mbind outcome_bind].
  pose proof (sim_data _ _ _ H c d Hd) as Hm. unfold scalars in Esc. injection Esc as Q1 Q2 Q3 Q4 _ Q5 _.
  assert (Hfin : ∀ d2 pend, (∀ k, ptr_of k d2 = ptr_of k d1) → (∀ k, k ≠ Nxt → tail_of k d2 = tail_of k d1) → nxttail d2 = NextCell h →
    quiescbatch d2 = quiescbatch d1 ∧ qs_pending d2 = qs_pending d1 ∧ batch d2 = batch d1 ∧ rd_cpu d2 = rd_cpu d1 →
    sim live (mk_machine (heads m1) (<[c := d2]> (rcu_data_of m)) (rcp m) (cpu_online_map m) pend (pcs m)) (spec_call c h A)).
  { intros d2 pend Hp2 Ht2 Hn2 (S1 & S2 & S3 & S4). pose proof (append_rep m A c h f d m1 d1 d2 pend H Hn Hh0 Hh Hd Hj Hp2 Ht2 Hn2) as Hr.
    destruct H as [H1 H2 H3 H4 H5 H6 H7]. constructor; try done; simpl.
    - intros x dx. destruct (decide (x = c)) as [->|Hne]; [|rewrite lookup_insert_ne by done; apply H4].
      rewrite lookup_insert_eq. intros [= <-]. rewrite S1, S2, S3, S4, Q1, Q2, Q3, Q5. exact Hm.
    - intros x Hx. apply lookup_insert_is_Some. destruct (decide (c = x)); eauto.
    - intros x h' n Hpc. unfold s_list. simpl. rewrite lookup_insert_ne by congruence. by apply (H7 x h' n). }
  assert (Hfin' : ∀ M d2, heads M = heads m1 → rcu_data_of M = <[c := d2]> (rcu_data_of m1) → rcp M = rcp m1 →
    cpu_online_map M = cpu_online_map m1 → pcs M = pcs m1 →
    (∀ k, ptr_of k d2 = ptr_of k d1) → (∀ k, k ≠ Nxt → tail_of k d2 = tail_of k d1) → nxttail d2 = NextCell h →
    quiescbatch d2 = quiescbatch d1 ∧ qs_pending d2 = qs_pending d1 ∧ batch d2 = batch d1 ∧ rd_cpu d2 = rd_cpu d1 →
    sim live M (spec_call c h A)).
  { intros [hs rd r o pe ps] d2 F1 F2 F3 F4 F5 G1 G2 G3 G4. simpl in *. subst. rewrite Ed, insert_insert_eq, Er, Eo, Epc. by apply Hfin. }
  clear Hfin. set (d2 := set_qlen (qlen d1 + 1) (set_nxt (nxtlist d1) (NextCell h) d1)).
  assert (Hd2 : (∀ k, ptr_of k d2 = ptr_of k d1) ∧ (∀ k, k ≠ Nxt → tail_of k d2 = tail_of k d1)) by (split; by intros []).
  destruct Hd2 as [G1 G2]. destruct (qlen d1 + 1 >? qhimark).
  2: { eexists. split; [done|]. by apply (Hfin' _ d2). }
  unfold upd_rdp, get_rdp. simpl. rewrite lookup_insert_eq. cbn [deref mbind outcome_bind].
  unfold force_quiescent_state, get_rdp. simpl. rewrite lookup_insert_eq. cbn [deref mbind outcome_bind].
  destruct (_ >? rsinterval).
  - eexists. split; [done|]. eapply (Hfin' _ (set_last_rs _ (set_blimit INT_MAX d2))); try done; simpl; [by rewrite !insert_insert_eq|by intros []..].
  - eexists. split; [done|]. eapply (Hfin' _ (set_blimit INT_MAX d2)); try done; simpl; [by rewrite !insert_insert_eq|by intros []..].
Qed.

(** ** All steps *)

(** The place of the CPU is known from [E]. *)
Ltac pcs E := first [done | simpl; rewrite E; done].

(** Steps that only look at and change the control block. *)
#[local] Lemma control_sim m A c m' :
  sim live m A → c ∈ live →
  match s_pc A c with
  | PPending => m' = check_next_pending c m
  | PLock => m' = take_lock c PSetPending m
  | PSetPending => m' = mark_next_pending c m
  | SBCheck k => m' = rcu_start_batch_check c k m
  | SBInc k => m' = rcu_start_batch_inc c k m
  | SBMask k => m' = rcu_start_batch_mask c k m
  | PUnlock k => m' = goto c (unlocked k) (upd_rcp (set_lock None) m)
  | QLock => m' = take_lock c QCheck m
  | CQClear x k => m' = cpu_quiet_clear c x k m
  | CQComplete k => m' = cpu_quiet_complete c k m
  | OLock x => m' = take_lock c (OCheck x) m
  | _ => False
  end →
  sim live m' (spec_step c false A).1 ∧ (spec_step c false A).2 = None.
Proof.
  intros H Hc Hp. unfold spec_step. pose proof (sim_rcp _ _ _ H) as Er. pose proof (sim_online _ _ _ H) as Eo.
  destruct (s_pc A c) eqn:E; try done; subst m'; cbn [fst snd]; (split; [|done]).
  - unfold check_next_pending. rewrite Er. destruct (Z.eqb_spec (next_pending (s_rcp A)) 0) as [E0|E0];
      [rewrite decide_True by done|rewrite decide_False by done]; apply sim_goto; pcs E.
  - apply sim_lock; pcs E.
  - apply sim_goto; [by apply sim_upd_rcp|pcs E..].
  - unfold rcu_start_batch_check. rewrite Er.
    destruct (Z.eqb_spec (next_pending (s_rcp A)) 0) as [E0|E0]; cbn [negb andb].
    { rewrite decide_False by (intros [? _]; done). apply sim_goto; pcs E. }
    destruct (Z.eqb_spec (completed (s_rcp A)) (cur (s_rcp A))) as [E1|E1].
    + rewrite decide_True by done. apply sim_goto; [by apply sim_upd_rcp|pcs E..].
    + rewrite decide_False by (intros [_ ?]; done). apply sim_goto; pcs E.
  - unfold rcu_start_batch_inc. rewrite Er. apply sim_goto; [by apply sim_upd_rcp|pcs E..].
  - unfold rcu_start_batch_mask. rewrite Eo. apply sim_goto; [by apply sim_upd_rcp|pcs E..].
  - apply sim_goto; [by apply sim_upd_rcp|pcs E|by destruct k].
  - apply sim_lock; pcs E.
  - unfold cpu_quiet_clear. cbn [rcp upd_rcp]. rewrite Er. cbn [cpumask set_cpumask].
    assert (sim live (upd_rcp (λ r, set_cpumask (cpumask r ∖ {[cpu]}) r) m) (s_upd_rcp (set_cpumask (cpumask (s_rcp A) ∖ {[cpu]})) A)).
    { pose proof (sim_upd_rcp m A (λ r, set_cpumask (cpumask r ∖ {[cpu]}) r) H) as H'. exact H'. }
    case_decide; apply sim_goto; pcs E.
  - unfold cpu_quiet_complete. apply sim_goto; [|pcs E..].
    exact (sim_upd_rcp m A (λ r, set_completed (cur r) r) H).
  - apply sim_lock; pcs E.
Qed.

(** Steps on the fields of the CPU's own data. *)
#[local] Lemma fields_sim m A c :
  sim live m A → c ∈ live →
  match s_pc A c with
  | PBatch => ∃ m', number_batch c m = Ok m' ∧ sim live m' (spec_step c false A).1
  | PQuiesce => ∃ m', check_quiescbatch c m = Ok m' ∧ sim live m' (spec_step c false A).1
  | PNote => ∃ m', note_batch c m = Ok m' ∧ sim live m' (spec_step c false A).1
  | QCheck => ∃ m', check_in_sync c m = Ok m' ∧ sim live m' (spec_step c false A).1
  | BCount h n => ∃ stop m', count_one c h n m = Ok m' ∧ sim live m' (spec_step c stop A).1
  | _ => True
  end.
Proof.
  intros H Hc. destruct (get_rdp_sim m A c H Hc) as (d & Hd & Hg & Hm1 & Hm2 & Hm3 & Hm4). unfold spec_step.
  pose proof (sim_rcp _ _ _ H) as Er. destruct (s_pc A c) eqn:E; try done; cbn [fst].
  - unfold number_batch, upd_rdp. rewrite Hg, Er. cbn [mbind outcome_bind]. eexists. split; [done|].
    apply sim_goto; [|pcs E..]. apply (sim_put m A _ c d); try done.
    + intros x Hx. simpl. by rewrite fn_lookup_insert_ne.
    + simpl. by rewrite fn_lookup_insert.
  - unfold check_quiescbatch. rewrite Hg, Er. cbn [mbind outcome_bind]. rewrite Hm1, Hm2.
    destruct (Z.eqb_spec (s_quiesc A c) (cur (s_rcp A))) as [E0|E0]; cbn [negb].
    + rewrite decide_False by (intros ?; done). destruct (Z.eqb_spec (s_qs A c) 0) as [E1|E1].
      * rewrite decide_True by done. eexists. split; [done|]. apply sim_goto; pcs E.
      * rewrite decide_False by done. eexists. split; [done|]. apply sim_goto; [|pcs E..].
        apply (sim_put m A _ c d); try done.
        -- intros x Hx. simpl. by rewrite !fn_lookup_insert_ne.
        -- simpl. by rewrite !fn_lookup_insert.
    + rewrite decide_True by done. eexists. split; [done|]. apply sim_goto; pcs E.
  - unfold note_batch, upd_rdp. rewrite Hg, Er. cbn [mbind outcome_bind]. eexists. split; [done|].
    apply sim_goto; [|pcs E..]. apply (sim_put m A _ c d); try done.
    + intros x Hx. simpl. by rewrite !fn_lookup_insert_ne.
    + simpl. by rewrite !fn_lookup_insert.
  - unfold check_in_sync. rewrite Hg, Er. cbn [mbind outcome_bind]. rewrite Hm1, Hm4.
    destruct (Z.eqb_spec (s_quiesc A c) (cur (s_rcp A))) as [E0|E0];
      [rewrite decide_True by done|rewrite decide_False by done]; (eexists; split; [done|]); apply sim_goto; pcs E.
  - unfold count_one. rewrite Hg. cbn [mbind outcome_bind]. exists (count + 1 >=? rd_blimit d).
    assert (Hs : sim live (put_rdp c (set_qlen (qlen d - 1) d) m) A) by (apply (sim_put_same m A c d); try done; by intros []).
    destruct (count + 1 >=? rd_blimit d); (eexists; split; [done|]).
    + apply sim_goto_batch; [done|done|by intros h' n [? | ?]].
    + apply sim_goto_batch; [done|done|]. intros h' n [[= <- _] | ?]; [|done]. exact (sim_ptr _ _ _ H c _ _ (or_intror E)).
Qed.

#[local] Lemma data_sim m A c :
  sim live m A → step_ready live c A →
  match s_pc A c with
  | PInvoke => ∃ m', start_invoking c m = Ok m' ∧ sim live m' (spec_step c false A).1
  | OCheck x => ∃ m', offline_check c x m = Ok m' ∧ sim live m' (spec_step c false A).1
  | OQlen x => ∃ m', offline_qlen c x m = Ok m' ∧ sim live m' (spec_step c false A).1
  | _ => True
  end.
Proof.
  intros H (Hc & Hk & Hr). unfold spec_step. pose proof (sim_rcp _ _ _ H) as Er.
  destruct (get_rdp_sim m A c H Hc) as (d & Hd & Hg & _).
  destruct (s_pc A c) eqn:E; try done; cbn [fst].
  - unfold start_invoking. rewrite Hg. cbn [mbind outcome_bind].
    destruct (rep_chain m _ c Done _ (sim_rep _ _ _ H) (s_list_eq _ _ _ (Hk Done))) as (d0 & Hd0 & Hdn & _ & _).
    rewrite Hd in Hd0. injection Hd0 as <-. pose proof (chain_empty _ _ _ Hdn) as Hde. cbn [ptr_of] in *.
    destruct (Z.eqb_spec (donelist d) 0) as [E0|E0].
    + rewrite decide_True by (by apply Hde). eexists. split; [done|]. apply sim_goto; pcs E.
    + rewrite decide_False by (intros ?; by apply E0, Hde). eexists. split; [done|].
      assert (donelist d = hd 0 (s_list A c Done)) as ->.
      { destruct (s_list A c Done); simpl in Hdn |- *; [done|]. by destruct Hdn as [-> _]. }
      apply sim_goto_batch; [done|done|]. by intros h n [[= -> _] | ?].
  - destruct (get_rdp_sim m A cpu H Hr) as (dx & _ & Hgx & _ & _ & _ & Hcpu). unfold offline_check. rewrite Hgx, Er.
    cbn [mbind outcome_bind]. rewrite Hcpu. destruct (Z.eqb_spec (cur (s_rcp A)) (completed (s_rcp A))) as [E0|E0]; cbn [negb].
    + rewrite decide_False by (intros ?; done). eexists. split; [done|]. apply sim_goto; pcs E.
    + rewrite decide_True by done. eexists. split; [done|]. apply sim_goto; pcs E.
  - destruct (get_rdp_sim m A cpu H Hr) as (dx & _ & Hgx & _). unfold offline_qlen, upd_rdp. rewrite Hgx.
    cbn [mbind outcome_bind]. rewrite Hg. cbn [mbind outcome_bind]. eexists. split; [done|].
    apply sim_goto; [|pcs E..]. apply (sim_put_same m A c d); try done; by intros [].
Qed.

Theorem rcu_step_sim m A c :
  sim live m A → step_ready live c A →
  ∃ stop m' e, rcu_step c m = Ok (m', e) ∧ sim live m' (spec_step c stop A).1 ∧ fst <$> e = (spec_step c stop A).2.
Proof.
  intros H Hr. pose proof (data_sim m A c H Hr) as Hds. destruct Hr as (Hc & Hk & Hr). unfold rcu_step. change (default Idle (pcs m !! c)) with (pc_of m c). rewrite (sim_pc _ _ _ H).
  assert (Hq : ∀ stop o, (∃ m', o = Ok m' ∧ sim live m' (spec_step c stop A).1) → (spec_step c stop A).2 = None →
    ∃ stop m' e, silent o = Ok (m', e) ∧ sim live m' (spec_step c stop A).1 ∧ fst <$> e = (spec_step c stop A).2).
  { intros stop o (m' & -> & Hs) E. exists stop, m', None. split; [done|]. split; [done|]. by rewrite E. }
  assert (Hctl : ∀ m', (sim live m' (spec_step c false A).1 ∧ (spec_step c false A).2 = None) →
    ∃ stop m'' (e : option (Z * Z)), Ok (m', None) = Ok (m'', e) ∧ sim live m'' (spec_step c stop A).1 ∧ fst <$> e = (spec_step c stop A).2).
  { intros m' [Hs E]. exists false, m', None. split; [done|]. split; [done|]. by rewrite E. }
  pose proof (fields_sim m A c H Hc) as Hf. pose proof (λ m', control_sim m A c m' H Hc) as Hctl'.
  assert (Hn : ∀ stop, (match s_pc A c with BLoop _ _ => False | _ => True end) → (spec_step c stop A).2 = None).
  { intros stop. unfold spec_step. destruct (s_pc A c); try done; repeat case_decide; done. }
  assert (Hmv : ∀ x k p, x ≠ c ∧ invoking (s_pc A x) = false ∧ is_Some (s_lists A !! (x, k)) →
    invoking (s_pc A c) = false → invoking p = false → ∃ m', (let! d := get_rdp x m in
      let! m := rcu_move_batch c (ptr_of k d) (tail_of k d) m in Ok (goto c p m)) = Ok m' ∧ sim live m' (s_goto c p (s_take c x k A))).
  { intros x k p (Hx & Hix & Hxk) Hpc Hp. destruct (rcu_move_batch_sim m A c x k p) as (d & m' & -> & E & Hs); try done.
    cbn [mbind outcome_bind]. rewrite E. eauto. }
  destruct (s_pc A c) eqn:Hp.
  - apply Hctl. split; [|by apply Hn]. unfold spec_step. by rewrite Hp.
  - apply (Hq false); [by apply finish_curlist_sim|by apply Hn].
  - apply (Hq false); [by apply take_nxtlist_sim|by apply Hn].
  - apply (Hq false); [done|by apply Hn].
  - by apply Hctl, Hctl'.
  - by apply Hctl, Hctl'.
  - by apply Hctl, Hctl'.
  - by apply Hctl, Hctl'.
  - by apply Hctl, Hctl'.
  - by apply Hctl, Hctl'.
  - by apply Hctl, Hctl'.
  - apply (Hq false); [done|by apply Hn].
  - apply (Hq false); [done|by apply Hn].
  - by apply Hctl, Hctl'.
  - apply (Hq false); [done|by apply Hn].
  - by apply Hctl, Hctl'.
  - by apply Hctl, Hctl'.
  - apply (Hq false); [done|by apply Hn].
  - exists false. by apply invoke_one_sim.
  - destruct Hf as (stop & Hf). apply (Hq stop); [done|by apply Hn].
  - apply (Hq false); [by apply end_batch_sim|by apply Hn].
  - by apply Hctl, Hctl'.
  - apply (Hq false); [done|by apply Hn].
  - apply (Hq false); [|by apply Hn]. unfold spec_step. rewrite Hp. by apply (Hmv cpu Done).
  - apply (Hq false); [|by apply Hn]. unfold spec_step. rewrite Hp. by apply (Hmv cpu Cur).
  - apply (Hq false); [|by apply Hn]. unfold spec_step. rewrite Hp. by apply (Hmv cpu Nxt).
  - apply (Hq false); [done|by apply Hn].
Qed.

End sim.
