(* ===== verification/RcuInv.v ===== *)
(** * Read-copy-update: readers, events and the invariant

    Around the code stand the CPUs' read-side critical sections and the
    hot-plug of CPUs. The ghost state records, for each callback queued, the
    CPUs whose read-side section was open when it was queued and has not ended
    since. The invariant is kept by every step of [RcuSpec]. *)

From stdpp Require Import functions.
From S2P Require Import Prelude Rcu RcuList RcuSpec RcuSim.
Open Scope xen_scope.

(** ** Readers *)

Record ghost := mk_ghost {
  nest : Z → nat;                (* depth of the read-side sections of a CPU *)
  waiting : Z → gset Z;          (* by callback: CPUs in a section since it was queued *)
  live : gset Z;                 (* CPUs whose data is set up *)
  leaving : option (Z * Z);      (* the CPU that runs [rcu_offline_cpu], and for which *)
}.

Definition set_nest (f : Z → nat) (g : ghost) : ghost := mk_ghost f (waiting g) (live g) (leaving g).
Definition set_waiting (f : Z → gset Z) (g : ghost) : ghost := mk_ghost (nest g) f (live g) (leaving g).
Definition set_live (s : gset Z) (g : ghost) : ghost := mk_ghost (nest g) (waiting g) s (leaving g).
Definition set_leaving (o : option (Z * Z)) (g : ghost) : ghost := mk_ghost (nest g) (waiting g) (live g) o.

(** The CPUs in a read-side section. *)
Definition readers (online : gset Z) (g : ghost) : gset Z := filter (λ c, nest g c ≠ O) online.

Definition ghost_call (online : gset Z) (h : Z) (g : ghost) : ghost :=
  set_waiting (<[h := readers online g]> (waiting g)) g.

Definition ghost_unlock (c : Z) (g : ghost) : ghost :=
  let g := set_nest (<[c := (nest g c - 1)%nat]> (nest g)) g in
  if decide (nest g c = O) then set_waiting (λ h, waiting g h ∖ {[ c ]}) g else g.

(** After the last step of [rcu_offline_cpu] the CPU is forgotten. *)
Definition ghost_step (p : pc) (g : ghost) : ghost :=
  match p with
  | OQlen x => set_leaving None (set_live (live g ∖ {[ x ]}) g)
  | _ => g
  end.

(** ** The invariant *)

Definition holds (p : pc) : bool :=
  match p with
  | PSetPending | SBCheck _ | SBInc _ | SBMask _ | PUnlock _ | QCheck | CQClear _ _ | CQComplete _ | OCheck _ => true
  | _ => false
  end.

Definition off_after (k : after) : option Z := match k with InOffline x => Some x | _ => None end.

(** The CPU that the step takes over from. *)
Definition off (p : pc) : option Z :=
  match p with
  | SBCheck k | SBInc k | SBMask k | PUnlock k | CQClear _ k | CQComplete k => off_after k
  | OLock x | OCheck x | OMoveDone x | OMoveCur x | OMoveNxt x | OQlen x => Some x
  | _ => None
  end.

(** The lists it has already taken. *)
Definition moved (p : pc) (k : kind) : bool :=
  match p, k with
  | OMoveCur _, Done | OMoveNxt _, (Done | Cur) | OQlen _, _ => true
  | _, _ => false
  end.

Record control_inv (A : spec) (g : ghost) : Prop := {
  ci_lock : ∀ c, holds (s_pc A c) = bool_decide (lock (s_rcp A) = Some c);
  ci_off : ∀ c, off (s_pc A c) = match leaving g with Some (d, x) => if decide (c = d) then Some x else None | None => None end;
  ci_leaving : ∀ d x, leaving g = Some (d, x) → d ∈ s_online A ∧ x ∈ live g ∧ x ∉ s_online A;
  ci_online : s_online A ⊆ live g;
  ci_idle : ∀ c, c ∉ s_online A → s_pc A c = Idle;
  ci_lists : ∀ c k, is_Some (s_lists A !! (c, k)) ↔
    c ∈ live g ∧ match leaving g with Some (d, x) => if decide (c = x) then moved (s_pc A d) k = false else True | None => True end;
  ci_nest : ∀ c, nest g c ≠ O → c ∈ s_online A;
}.

Record batch_inv (A : spec) (g : ghost) : Prop := {
  bi_cur : completed (s_rcp A) ≤ cur (s_rcp A) ≤ completed (s_rcp A) + 1;
  bi_inc : ∀ c k, s_pc A c = SBInc k → completed (s_rcp A) = cur (s_rcp A);
  bi_mask : ∀ c k, s_pc A c = SBMask k → cur (s_rcp A) = completed (s_rcp A) + 1;
  bi_complete : ∀ c k, s_pc A c = CQComplete k → cpumask (s_rcp A) = ∅;
  bi_clear : ∀ c x k, s_pc A c = CQClear x k →
    k = InQuiesce ∧ x = c ∧ s_quiesc A c = cur (s_rcp A) ∨ k = InOffline x;
  bi_quiesc : ∀ c, c ∈ live g → s_quiesc A c ≤ cur (s_rcp A);
  bi_batch : ∀ c, s_list A c Cur ≠ [] → s_pc A c ≠ PBatch → s_batch A c ≤ cur (s_rcp A) + 1;
}.

(** No CPU that a callback waits for has let the callback's batch pass. *)
Definition unpassed (A : spec) (b c : Z) : Prop :=
  completed (s_rcp A) < b ∧
  (cur (s_rcp A) = b → s_quiesc A c ≠ b ∧ ((∃ x k, s_pc A x = SBMask k) ∨ c ∈ cpumask (s_rcp A))).

Record safe_inv (A : spec) (g : ghost) : Prop := {
  si_waiting : ∀ h c, c ∈ waiting g h → nest g c ≠ O;
  si_cur : ∀ c h c', h ∈ s_list A c Cur → s_pc A c ≠ PBatch → c' ∈ waiting g h → unpassed A (s_batch A c) c';
  si_done : ∀ c h, h ∈ s_list A c Done → waiting g h = ∅;
}.

(** ** Control *)

(** A step that keeps the lists a CPU has, and its part in taking over. *)
Lemma control_goto A A' g c p :
  control_inv A g → s_pc A c ≠ Idle →
  s_pc A' = <[c := p]> (s_pc A) → s_online A' = s_online A →
  (∀ x k, is_Some (s_lists A' !! (x, k)) ↔ is_Some (s_lists A !! (x, k))) →
  off p = off (s_pc A c) → (∀ k, moved p k = moved (s_pc A c) k) →
  (lock (s_rcp A') = lock (s_rcp A) ∧ holds p = holds (s_pc A c) ∨
   lock (s_rcp A) = None ∧ lock (s_rcp A') = Some c ∧ holds p = true ∨
   holds (s_pc A c) = true ∧ lock (s_rcp A') = None ∧ holds p = false) →
  control_inv A' g.
Proof.
  intros [H1 H2 H3 H4 H5 H6 H7] Hc Ep Eo El Eoff Emv Hl. constructor; rewrite ?Eo; try done.
  - intros x. rewrite Ep, fn_insert_at. pose proof (H1 x) as Hx. pose proof (H1 c) as Hcc.
    destruct Hl as [[-> Eh]|[(E0 & -> & Eh)|(E0 & -> & Eh)]].
    + destruct (decide (x = c)) as [->|]; [congruence|done].
    + destruct (decide (x = c)) as [->|]; [by rewrite Eh, bool_decide_true|]. rewrite Hx, E0, !bool_decide_false by congruence. done.
    + destruct (decide (x = c)) as [->|]; [by rewrite Eh, bool_decide_false|]. rewrite E0 in Hcc. symmetry in Hcc. apply bool_decide_eq_true in Hcc.
      rewrite Hx, Hcc, !bool_decide_false by congruence. done.
  - intros x. rewrite Ep, fn_insert_at. case_decide; [|apply H2]. subst x. by rewrite Eoff.
  - intros x Hx. rewrite Ep, fn_insert_at. case_decide; [|by apply H5]. subst x. by apply H5 in Hx.
  - intros x k. rewrite El, H6. destruct (leaving g) as [[d y]|]; [|done]. rewrite Ep, fn_insert_at.
    destruct (decide (d = c)) as [->|]; [|done]. by rewrite Emv.
Qed.

(** [rcu_offline_cpu] takes the list [k] of [x]. *)
Lemma control_take A g c x k p :
  control_inv A g → off (s_pc A c) = Some x → off p = Some x → holds p = holds (s_pc A c) →
  moved (s_pc A c) k = false → (∀ k', moved p k' = bool_decide (k' = k) || moved (s_pc A c) k') →
  control_inv (s_goto c p (s_take c x k A)) g.
Proof.
  intros [H1 H2 H3 H4 H5 H6 H7] Hoff Hp Hh Hmk Hm. pose proof (H2 c) as H2c. rewrite Hoff in H2c.
  destruct (leaving g) as [[d y]|] eqn:Eg; [|done]. case_decide; [|done]. injection H2c as <-. subst d.
  destruct (H3 c x eq_refl) as (Hco & Hxl & Hxo). constructor; simpl; rewrite ?Eg; try done.
  - intros z. rewrite fn_insert_at. destruct (decide (z = c)) as [->|]; [rewrite Hh|]; apply H1.
  - intros z. rewrite fn_insert_at. destruct (decide (z = c)) as [->|]; [done|]. rewrite H2, decide_False by done. done.
  - intros z Hz. rewrite fn_insert_at, decide_False by (intros ->; done). by apply H5.
  - intros z k'. rewrite fn_lookup_insert. destruct (decide ((z, k') = (c, Nxt))) as [[= -> ->]|Hne].
    + rewrite lookup_insert_eq. split; [|eauto]. intros _. split; [by apply H4|]. by rewrite decide_False by (intros ->; done).
    + rewrite lookup_insert_ne by done. rewrite lookup_delete_is_Some, H6.
      destruct (decide (z = x)) as [->|Hzx].
      * rewrite Hm. destruct (decide (k' = k)) as [->|Hk].
        -- rewrite bool_decide_true by done. simpl. naive_solver.
        -- rewrite bool_decide_false by done. simpl. split; [intros (_ & ? & ?)|intros [? ?]; split; [congruence|]]; auto.
      * split; [intros (_ & ? & _)|intros [? _]; split; [congruence|]]; auto.
Qed.

Lemma lists_insert2 (S : lists) i j li lj x :
  is_Some (S !! i) → is_Some (S !! j) → is_Some (<[i := li]> (<[j := lj]> S) !! x) ↔ is_Some (S !! x).
Proof. intros Hi Hj. rewrite !lookup_insert_is_Some. destruct (decide (i = x)) as [->|], (decide (j = x)) as [->|]; naive_solver. Qed.

Lemma control_own A g c k : control_inv A g → s_pc A c ≠ Idle → is_Some (s_lists A !! (c, k)).
Proof.
  intros [H1 H2 H3 H4 H5 H6 H7] Hc. assert (Hco : c ∈ s_online A).
  { destruct (decide (c ∈ s_online A)); [done|]. exfalso. by apply Hc, H5. }
  apply H6. split; [by apply H4|]. destruct (leaving g) as [[d x]|] eqn:Eg; [|done].
  rewrite decide_False; [done|]. intros ->. by destruct (H3 d x eq_refl) as (_ & _ & ?).
Qed.

Lemma control_step A g c stop :
  control_inv A g → s_pc A c ≠ Idle → control_inv (spec_step c stop A).1 (ghost_step (s_pc A c) g).
Proof.
  intros H Hc. pose proof (λ k, control_own A g c k H Hc) as Hown. unfold spec_step.
  destruct (s_pc A c) eqn:E; try done; cbn [fst ghost_step];
    try (repeat case_decide; unfold s_lock; try destruct (lock (s_rcp A)) eqn:El; try done;
         (eapply control_goto; [exact H|rewrite E; done|reflexivity|reflexivity|done|rewrite E; try done|rewrite E; try done|rewrite E; auto]); done).
  - case_decide; (eapply control_goto; [exact H|by rewrite E|reflexivity|done| |by rewrite E|by rewrite E|by left; rewrite E]); [|done].
    intros x k. simpl. by apply lists_insert2.
  - case_decide; (eapply control_goto; [exact H|by rewrite E|reflexivity|done| |by rewrite E|by rewrite E|by left; rewrite E]); [|done].
    intros x k. simpl. by apply lists_insert2.
  - eapply control_goto; [exact H|by rewrite E|reflexivity|done|done| | |right; right; rewrite E]; destruct k; rewrite ?E; done.
  - destruct (s_list A c Done) as [|h l]; (eapply control_goto; [exact H|by rewrite E|reflexivity|done| |by rewrite E|by rewrite E|by left; rewrite E]); [done|].
    intros x k. simpl. rewrite lookup_insert_is_Some. destruct (decide ((c, Done) = (x, k))) as [<-|]; naive_solver.
  - destruct stop; (eapply control_goto; [exact H|by rewrite E|reflexivity|done|done|by rewrite E|by rewrite E|by left; rewrite E]).
  - eapply control_take; rewrite ?E; try done. by intros [].
  - eapply control_take; rewrite ?E; try done. by intros [].
  - eapply control_take; rewrite ?E; try done. by intros [].
  - destruct H as [H1 H2 H3 H4 H5 H6 H7]. pose proof (H2 c) as H2c. rewrite E in H2c. simpl in H2c.
    destruct (leaving g) as [[d y]|] eqn:Eg; [|done]. case_decide; [|done]. injection H2c as <-. subst d.
    destruct (H3 c cpu eq_refl) as (Hco & Hxl & Hxo). constructor; simpl; try done.
    + intros z. rewrite fn_insert_at. pose proof (H1 c) as Hcc. rewrite E in Hcc. simpl in Hcc.
      destruct (decide (z = c)) as [->|]; [done|apply H1].
    + intros z. rewrite fn_insert_at. destruct (decide (z = c)); [done|]. by rewrite H2, decide_False.
    + set_solver.
    + intros z Hz. rewrite fn_insert_at. destruct (decide (z = c)); [done|by apply H5].
    + intros z k. rewrite H6, E. simpl. destruct (decide (z = cpu)) as [->|]; [|set_solver]. destruct k; set_solver.
Qed.

(** ** Batches *)

Lemma lock_unique A g x y : control_inv A g → holds (s_pc A x) = true → holds (s_pc A y) = true → x = y.
Proof.
  intros H Hx Hy. rewrite (ci_lock _ _ H) in Hx, Hy. apply bool_decide_eq_true in Hx, Hy. congruence.
Qed.

(** A step that leaves the current batch and the CPUs it waits for. *)
Lemma batch_frame A A' g c p :
  batch_inv A g → s_pc A' = <[c := p]> (s_pc A) →
  cur (s_rcp A') = cur (s_rcp A) → completed (s_rcp A') = completed (s_rcp A) → cpumask (s_rcp A') = cpumask (s_rcp A) →
  (∀ x, x ≠ c → s_quiesc A' x = s_quiesc A x ∧ s_batch A' x = s_batch A x ∧
     (s_list A' x Cur = s_list A x Cur ∨ s_list A' x Cur = [])) →
  (c ∈ live g → s_quiesc A' c ≤ cur (s_rcp A)) → (s_list A' c Cur ≠ [] → p ≠ PBatch → s_batch A' c ≤ cur (s_rcp A) + 1) →
  (match p with
   | SBInc _ => completed (s_rcp A) = cur (s_rcp A)
   | SBMask _ | CQComplete _ => False
   | CQClear x k => k = InQuiesce ∧ x = c ∧ s_quiesc A' c = cur (s_rcp A) ∨ k = InOffline x
   | _ => True
   end) →
  batch_inv A' g.
Proof.
  intros [B1 B2 B3 B4 B5 B6 B7] Ep E1 E2 E3 Hx Hq Hb Hp. constructor; rewrite ?E1, ?E2, ?E3; try done.
  - intros x k. rewrite Ep, fn_insert_at. destruct (decide (x = c)); [|apply B2]. by intros ->.
  - intros x k. rewrite Ep, fn_insert_at. destruct (decide (x = c)); [|apply B3]. by intros ->.
  - intros x k. rewrite Ep, fn_insert_at. destruct (decide (x = c)); [|apply B4]. by intros ->.
  - intros x y k. rewrite Ep, fn_insert_at. destruct (decide (x = c)) as [->|Hne].
    + by intros ->.
    + intros Hpc. destruct (Hx x Hne) as (-> & _ & _). exact (B5 x y k Hpc).
  - intros x Hl. destruct (decide (x = c)) as [->|Hne]; [auto|]. destruct (Hx x Hne) as (-> & _ & _). auto.
  - intros x. rewrite Ep, fn_insert_at. destruct (decide (x = c)) as [->|Hne]; [done|].
    destruct (Hx x Hne) as (_ & -> & [-> | ->]); [apply B7|done].
Qed.

(** A step of the holder of the lock on the batch itself. *)
Lemma batch_locked A A' g c p :
  control_inv A g → batch_inv A g → holds (s_pc A c) = true → s_pc A' = <[c := p]> (s_pc A) →
  s_quiesc A' = s_quiesc A → s_batch A' = s_batch A → s_lists A' = s_lists A →
  completed (s_rcp A') ≤ cur (s_rcp A') ≤ completed (s_rcp A') + 1 → cur (s_rcp A) ≤ cur (s_rcp A') →
  (match p with
   | SBInc _ => completed (s_rcp A') = cur (s_rcp A')
   | SBMask _ => cur (s_rcp A') = completed (s_rcp A') + 1
   | CQComplete _ => cpumask (s_rcp A') = ∅
   | CQClear _ _ | PBatch => False
   | _ => True
   end) →
  batch_inv A' g.
Proof.
  intros Hci [B1 B2 B3 B4 B5 B6 B7] Hh Ep Eq Eb El Hc Hle Hp.
  assert (Hother : ∀ x q, x ≠ c → s_pc A x = q → holds q = true → False).
  { intros x q Hne <- Hx. apply Hne. exact (lock_unique A g x c Hci Hx Hh). }
  constructor; try done.
  - intros x k. rewrite Ep, fn_insert_at. destruct (decide (x = c)); [by intros ->|].
    intros E. exfalso. by eapply Hother.
  - intros x k. rewrite Ep, fn_insert_at. destruct (decide (x = c)); [by intros ->|].
    intros E. exfalso. by eapply Hother.
  - intros x k. rewrite Ep, fn_insert_at. destruct (decide (x = c)); [by intros ->|].
    intros E. exfalso. by eapply Hother.
  - intros x y k. rewrite Ep, fn_insert_at. destruct (decide (x = c)); [by intros ->|].
    intros E. exfalso. by eapply Hother.
  - intros x Hl. rewrite Eq. specialize (B6 x Hl). lia.
  - intros x. rewrite Ep, fn_insert_at, Eb. unfold s_list. rewrite El. intros Hne Hpc.
    assert (s_batch A x ≤ cur (s_rcp A) + 1); [|lia]. apply B7; [done|]. destruct (decide (x = c)) as [->|]; [|done].
    intros E. by rewrite E in Hh.
Qed.

Lemma batch_ctrl A A' g c p :
  batch_inv A g → s_pc A c ≠ PBatch → s_pc A' = <[c := p]> (s_pc A) →
  cur (s_rcp A') = cur (s_rcp A) → completed (s_rcp A') = completed (s_rcp A) → cpumask (s_rcp A') = cpumask (s_rcp A) →
  s_quiesc A' = s_quiesc A → s_batch A' = s_batch A → (∀ x, s_list A' x Cur = s_list A x Cur ∨ s_list A' x Cur = []) →
  (match p with
   | SBInc _ => completed (s_rcp A) = cur (s_rcp A)
   | SBMask _ | CQComplete _ => False
   | CQClear x k => k = InQuiesce ∧ x = c ∧ s_quiesc A c = cur (s_rcp A) ∨ k = InOffline x
   | _ => True
   end) →
  batch_inv A' g.
Proof.
  intros Hbi Hc Ep E1 E2 E3 Eq Eb El Hp. apply (batch_frame A A' g c p); try done; rewrite ?Eq, ?Eb; try done.
  - by apply (bi_quiesc _ _ Hbi).
  - destruct (El c) as [-> | ->]; [|done]. intros ? _. by apply (bi_batch _ _ Hbi).
Qed.

Lemma s_list_upd A f x k l : f (s_lists A) !! (x, k) = Some l → s_list (s_upd_lists f A) x k = l.
Proof. intros H. unfold s_list, s_upd_lists; simpl. by rewrite H. Qed.

Lemma s_list_same A f x k : f (s_lists A) !! (x, k) = s_lists A !! (x, k) → s_list (s_upd_lists f A) x k = s_list A x k.
Proof. intros H. unfold s_list, s_upd_lists; simpl. by rewrite H. Qed.

Lemma batch_step A g c stop :
  control_inv A g → batch_inv A g → s_pc A c ≠ Idle → batch_inv (spec_step c stop A).1 (ghost_step (s_pc A c) g).
Proof.
  intros Hci Hbi Hc.
  assert (Hg : ∀ A', batch_inv A' g → batch_inv A' (ghost_step (s_pc A c) g)).
  { intros A' HA'. destruct (s_pc A c); try done. simpl. destruct HA'. constructor; try done. simpl. intros x Hx. set_solver. }
  apply Hg. clear Hg. pose proof Hbi as [B1 B2 B3 B4 B5 B6 B7]. unfold spec_step.
  destruct (s_pc A c) eqn:E; try done; cbn [fst].
  all: try (repeat case_decide; unfold s_lock; try destruct (lock (s_rcp A)) eqn:El; try done;
    by (eapply batch_ctrl; [exact Hbi|by rewrite E|reflexivity|reflexivity|reflexivity|reflexivity|reflexivity|reflexivity|by left|first [done|by left|by right]])).
  - case_decide; (eapply batch_ctrl; [exact Hbi|by rewrite E|reflexivity|reflexivity|reflexivity|reflexivity|reflexivity|reflexivity| |done]).
    + intros x. destruct (decide (x = c)) as [->|]; [right; apply s_list_upd|left; apply s_list_same];
        by rewrite ?lookup_insert_ne, ?lookup_insert_eq by congruence.
    + by left.
  - case_decide; [|eapply batch_ctrl; try done; [by rewrite E|by left]].
    eapply batch_frame; [exact Hbi|reflexivity..| |apply B6|done|done]. intros x Hx. split_and!; try done.
    left. apply s_list_same. by rewrite !lookup_insert_ne by congruence.
  - eapply batch_frame; [exact Hbi|reflexivity..| |apply B6| |done].
    + intros x Hx. simpl. rewrite fn_lookup_insert_ne by done. split_and!; try done. by left.
    + intros _ _. simpl. rewrite fn_lookup_insert. lia.
  - case_decide as Hd; (eapply batch_ctrl; [exact Hbi|by rewrite E|reflexivity..|by left|]); [apply Hd|done].
  - eapply batch_locked; [exact Hci|exact Hbi|by rewrite E|reflexivity..| | |]; simpl; pose proof (B2 c k E); lia.
  - eapply batch_locked; [exact Hci|exact Hbi|by rewrite E|reflexivity..| | |]; simpl; try done; lia.
  - eapply batch_ctrl; [exact Hbi|by rewrite E|reflexivity..|by left|by destruct k].
  - repeat case_decide; try (eapply batch_ctrl; [exact Hbi|by rewrite E|reflexivity..|by left|done]).
    eapply batch_frame; [exact Hbi|reflexivity..| | | |done].
    + intros x Hx. simpl. rewrite fn_lookup_insert_ne by done. split_and!; try done. by left.
    + simpl. rewrite fn_lookup_insert. apply B6.
    + intros ? _. apply (B7 c); [done|by rewrite E].
  - eapply batch_frame; [exact Hbi|reflexivity..| | | |done].
    + intros x Hx. simpl. rewrite fn_lookup_insert_ne by done. split_and!; try done. by left.
    + simpl. rewrite fn_lookup_insert. lia.
    + intros ? _. apply (B7 c); [done|by rewrite E].
  - case_decide; (eapply batch_locked; [exact Hci|exact Hbi|by rewrite E|reflexivity..| | |]; simpl; try done; lia).
  - eapply batch_locked; [exact Hci|exact Hbi|by rewrite E|reflexivity..| | |]; simpl; try done; lia.
  - destruct (s_list A c Done) as [|h l]; (eapply batch_ctrl; [exact Hbi|by rewrite E|reflexivity..| |done]); [by left|].
    intros x. left. apply s_list_same. by rewrite lookup_insert_ne by congruence.
  - destruct stop; (eapply batch_ctrl; [exact Hbi|by rewrite E|reflexivity..|by left|done]).
  - eapply batch_ctrl; [exact Hbi|by rewrite E|reflexivity..| |done]. intros x. left. apply s_list_same.
    by rewrite lookup_insert_ne, lookup_delete_ne by congruence.
  - eapply batch_ctrl; [exact Hbi|by rewrite E|reflexivity..| |done]. intros x. unfold s_list; simpl.
    rewrite lookup_insert_ne by congruence. destruct (decide (x = cpu)) as [->|]; [right|left].
    + by rewrite lookup_delete_eq.
    + by rewrite lookup_delete_ne by congruence.
  - eapply batch_ctrl; [exact Hbi|by rewrite E|reflexivity..| |done]. intros x. left. apply s_list_same.
    by rewrite lookup_insert_ne, lookup_delete_ne by congruence.
Qed.

(** ** Safety *)

(** A step that leaves the current batch and the CPUs it waits for. *)
Lemma safe_frame A A' g c p :
  safe_inv A g → s_pc A' = <[c := p]> (s_pc A) → (∀ k, s_pc A c ≠ SBMask k) →
  cur (s_rcp A') = cur (s_rcp A) → completed (s_rcp A') = completed (s_rcp A) → cpumask (s_rcp A') = cpumask (s_rcp A) →
  (∀ x, nest g x ≠ O → s_quiesc A' x = s_quiesc A x) →
  (∀ x h, h ∈ s_list A' x Cur → s_pc A' x ≠ PBatch →
     h ∈ s_list A x Cur ∧ s_pc A x ≠ PBatch ∧ s_batch A' x = s_batch A x ∨
     completed (s_rcp A) < s_batch A' x ∧ cur (s_rcp A) ≠ s_batch A' x) →
  (∀ x h, h ∈ s_list A' x Done → h ∈ s_list A x Done ∨ waiting g h = ∅) →
  safe_inv A' g.
Proof.
  intros [S1 S2 S3] Ep Hm E1 E2 E3 Hq Hc Hd. constructor; [done| |].
  - intros x h c' Hh Hp Hw. unfold unpassed. rewrite E1, E2, E3, Hq by (by eapply S1).
    destruct (Hc x h Hh Hp) as [(Hh' & Hp' & ->)|[? ?]]; [|done]. destruct (S2 x h c' Hh' Hp' Hw) as [Hlt Hcur].
    split; [done|]. intros E. destruct (Hcur E) as [? [(y & k & Hy)|?]]; [|by auto]. split; [done|]. left.
    exists y, k. rewrite Ep, fn_insert_at. destruct (decide (y = c)) as [->|]; [|done]. by destruct (Hm k).
  - intros x h Hh. destruct (Hd x h Hh); [by eapply S3|done].
Qed.

(** Steps that move no callback and no batch. *)
Lemma safe_ctrl A A' g c p :
  safe_inv A g → s_pc A' = <[c := p]> (s_pc A) → (∀ k, s_pc A c ≠ SBMask k) → s_pc A c ≠ PBatch →
  cur (s_rcp A') = cur (s_rcp A) → completed (s_rcp A') = completed (s_rcp A) → cpumask (s_rcp A') = cpumask (s_rcp A) →
  s_quiesc A' = s_quiesc A → s_batch A' = s_batch A → s_lists A' = s_lists A → safe_inv A' g.
Proof.
  intros Hs Ep Hm Hb E1 E2 E3 Eq Eb El. eapply safe_frame; try done; [by rewrite Eq| |].
  - intros x h. rewrite Ep, fn_insert_at, Eb. unfold s_list. rewrite El. intros Hh Hp. left. split_and!; try done.
    destruct (decide (x = c)) as [->|]; done.
  - intros x h. unfold s_list. rewrite El. by left.
Qed.

(** A step of the holder of the lock on the batch itself. *)
Lemma safe_locked A A' g c p :
  safe_inv A g → s_pc A' = <[c := p]> (s_pc A) → s_pc A c ≠ PBatch →
  s_quiesc A' = s_quiesc A → s_batch A' = s_batch A → s_lists A' = s_lists A →
  (∀ x h c', h ∈ s_list A x Cur → s_pc A x ≠ PBatch → c' ∈ waiting g h → unpassed A (s_batch A x) c' → unpassed A' (s_batch A x) c') →
  safe_inv A' g.
Proof.
  intros [S1 S2 S3] Ep Hb Eq Eb El Hu. constructor; [done| |].
  - intros x h c'. unfold s_list. rewrite El, Eb, Ep, fn_insert_at. intros Hh Hp Hw.
    assert (Hp' : s_pc A x ≠ PBatch) by (destruct (decide (x = c)) as [->|]; done).
    apply (Hu x h c' Hh Hp' Hw). by eapply S2.
  - intros x h. unfold s_list. rewrite El. apply S3.
Qed.

Lemma mask_other A g c x k :
  control_inv A g → holds (s_pc A c) = true → (∀ k, s_pc A c ≠ SBMask k) → s_pc A x = SBMask k → False.
Proof.
  intros Hci Hc Hm Hx. assert (x = c) as ->; [|by apply (Hm k)]. apply (lock_unique A g); [done|by rewrite Hx|done].
Qed.

Lemma s_take_list A c y k0 x k h : k ≠ Nxt → h ∈ s_list (s_take c y k0 A) x k → h ∈ s_list A x k.
Proof.
  intros Hk. unfold s_list, s_take; simpl. rewrite lookup_insert_ne by congruence.
  destruct (decide ((y, k0) = (x, k))) as [<-|Hne]; [rewrite lookup_delete_eq; intros Hh; by apply elem_of_nil in Hh|].
  by rewrite lookup_delete_ne.
Qed.

Lemma safe_take A g c y k0 p :
  safe_inv A g → (∀ k, s_pc A c ≠ SBMask k) → s_pc A c ≠ PBatch → safe_inv (s_goto c p (s_take c y k0 A)) g.
Proof.
  intros Hs Hm Hb. eapply safe_frame; [exact Hs|reflexivity|done|reflexivity..| |].
  - intros x h Hh Hp. left. split_and!; try done; [by eapply (s_take_list A c y k0)|].
    simpl in Hp. rewrite fn_insert_at in Hp. destruct (decide (x = c)) as [->|]; done.
  - intros x h Hh. left. by eapply (s_take_list A c y k0).
Qed.

Lemma safe_step A g c stop :
  control_inv A g → batch_inv A g → safe_inv A g → s_pc A c ≠ Idle → nest g c = O →
  safe_inv (spec_step c stop A).1 (ghost_step (s_pc A c) g).
Proof.
  intros Hci Hbi Hsi Hc Hn.
  assert (Hg : ∀ A', safe_inv A' g → safe_inv A' (ghost_step (s_pc A c) g)).
  { intros A' HA'. destruct (s_pc A c); try done. simpl. by destruct HA'. }
  apply Hg. clear Hg. pose proof Hbi as [B1 B2 B3 B4 B5 B6 B7]. pose proof Hsi as [S1 S2 S3]. unfold spec_step.
  destruct (s_pc A c) eqn:E; try done; cbn [fst].
  all: try (repeat case_decide; unfold s_lock; try destruct (lock (s_rcp A)) eqn:El; try destruct stop; try done;
    by (eapply safe_ctrl; [exact Hsi|reflexivity|by rewrite E|by rewrite E|reflexivity..])).
  - case_decide as Hd; [|eapply safe_ctrl; [exact Hsi|reflexivity|by rewrite E|by rewrite E|reflexivity..]].
    eapply safe_frame; [exact Hsi|reflexivity|by rewrite E|reflexivity..| |].
    + intros x h. unfold s_list; simpl. rewrite lookup_insert_ne by congruence. rewrite fn_insert_at.
      destruct (decide (x = c)) as [->|]; [rewrite lookup_insert_eq; intros Hh; by apply elem_of_nil in Hh|].
      rewrite lookup_insert_ne by congruence. by left.
    + intros x h. unfold s_list at 1; simpl. destruct (decide (x = c)) as [->|].
      * rewrite lookup_insert_eq. intros [Hh|Hh]%elem_of_app; [by left|right]. apply set_eq. intros c'.
        split; [|by intros ?%elem_of_empty]. intros Hw. exfalso. destruct (S2 c h c' Hh) as [? _]; [by rewrite E|done|lia].
      * rewrite !lookup_insert_ne by congruence. by left.
  - case_decide as Hd; [|eapply safe_ctrl; [exact Hsi|reflexivity|by rewrite E|by rewrite E|reflexivity..]].
    eapply safe_frame; [exact Hsi|reflexivity|by rewrite E|reflexivity..| |].
    + intros x h. unfold s_list; simpl. rewrite fn_insert_at. destruct (decide (x = c)) as [->|]; [by intros _|].
      rewrite !lookup_insert_ne by congruence. by left.
    + intros x h. unfold s_list; simpl. rewrite !lookup_insert_ne by congruence. by left.
  - eapply safe_frame; [exact Hsi|reflexivity|by rewrite E|reflexivity..| |by left].
    intros x h Hh. simpl. rewrite !fn_insert_at. destruct (decide (x = c)) as [->|]; [right; lia|by left].
  - eapply safe_locked; [exact Hsi|reflexivity|by rewrite E|reflexivity..|]. intros x h c' Hh Hp Hw [Hlt _].
    split; [done|]. simpl. intros Hcur. split; [|left; exists c, k; simpl; by rewrite fn_lookup_insert].
    assert (c' ∈ live g) as Hl by (apply (ci_online _ _ Hci), (ci_nest _ _ Hci); by eapply S1). specialize (B6 c' Hl). lia.
  - eapply safe_locked; [exact Hsi|reflexivity|by rewrite E|reflexivity..|]. intros x h c' Hh Hp Hw [Hlt Hcur].
    split; [done|]. simpl. intros Ec. destruct (Hcur Ec) as [? _]. split; [done|]. right.
    apply (ci_nest _ _ Hci). by eapply S1.
  - repeat case_decide; try (eapply safe_ctrl; [exact Hsi|reflexivity|by rewrite E|by rewrite E|reflexivity..]).
    eapply safe_frame; [exact Hsi|reflexivity|by rewrite E|reflexivity..| | |by left].
    + intros x Hx. simpl. rewrite fn_insert_at. destruct (decide (x = c)) as [->|]; done.
    + intros x h Hh Hp. left. split_and!; try done. simpl in Hp. rewrite fn_insert_at in Hp. destruct (decide (x = c)) as [->|]; [by rewrite E|done].
  - eapply safe_frame; [exact Hsi|reflexivity|by rewrite E|reflexivity..| | |by left].
    + intros x Hx. simpl. rewrite fn_insert_at. destruct (decide (x = c)) as [->|]; [by destruct Hx|done].
    + intros x h Hh Hp. left. split_and!; try done. simpl in Hp. rewrite fn_insert_at in Hp. destruct (decide (x = c)) as [->|]; [by rewrite E|done].
  - assert (Hu : ∀ A', s_rcp A' = set_cpumask (cpumask (s_rcp A) ∖ {[cpu]}) (s_rcp A) → s_quiesc A' = s_quiesc A →
      ∀ x h c', h ∈ s_list A x Cur → s_pc A x ≠ PBatch → c' ∈ waiting g h → unpassed A (s_batch A x) c' → unpassed A' (s_batch A x) c').
    { intros A' Er Eq x h c' Hh Hp Hw [Hlt Hcur]. unfold unpassed. rewrite Er, Eq. simpl. split; [done|]. intros Ec.
      destruct (Hcur Ec) as [Hq Hm]. split; [done|]. right. destruct Hm as [(y & k' & Hy)|Hm].
      { exfalso. eapply (mask_other A g c y k' Hci); [by rewrite E|by rewrite E|done]. }
      assert (Hnc : nest g c' ≠ O) by (by eapply S1). apply elem_of_difference. split; [done|]. rewrite elem_of_singleton.
      intros ->. destruct (B5 c cpu k E) as [(-> & -> & Hqc)|Ek]; [by apply Hnc|].
      pose proof (ci_off _ _ Hci c) as Ho. rewrite E, Ek in Ho. simpl in Ho. destruct (leaving g) as [[d y]|] eqn:Eg; [|done].
      case_decide; [|done]. injection Ho as <-. destruct (ci_leaving _ _ Hci d cpu Eg) as (_ & _ & Hoff).
      apply Hoff. by apply (ci_nest _ _ Hci). }
    case_decide; (eapply safe_locked; [exact Hsi|reflexivity|by rewrite E|reflexivity..|]); by apply Hu.
  - eapply safe_locked; [exact Hsi|reflexivity|by rewrite E|reflexivity..|]. intros x h c' Hh Hp Hw [Hlt Hcur].
    assert (cur (s_rcp A) ≠ s_batch A x); [|split; simpl; [lia|done]]. intros Ec. destruct (Hcur Ec) as [_ [(y & k' & Hy)|Hm]].
    + eapply (mask_other A g c y k' Hci); [by rewrite E|by rewrite E|done].
    + rewrite (B4 c k E) in Hm. set_solver.
  - destruct (s_list A c Done) as [|h l] eqn:El; cbn [fst]; [eapply safe_ctrl; [exact Hsi|reflexivity|by rewrite E|by rewrite E|reflexivity..]|].
    eapply safe_frame; [exact Hsi|reflexivity|by rewrite E|reflexivity..| |].
    + intros x h'. unfold s_list; simpl. rewrite lookup_insert_ne by congruence. rewrite fn_insert_at. intros Hh Hp. left.
      split_and!; try done. destruct (decide (x = c)) as [->|]; [by rewrite E|done].
    + intros x h'. unfold s_list at 1; simpl. destruct (decide (x = c)) as [->|].
      * rewrite lookup_insert_eq. intros Hh. left. rewrite El. by right.
      * rewrite lookup_insert_ne by congruence. by left.
  - apply safe_take; [done|by rewrite E..].
  - apply safe_take; [done|by rewrite E..].
  - apply safe_take; [done|by rewrite E..].
Qed.
