(* ===== verification/RcuWorld.v ===== *)
(** * Read-copy-update: all events keep the invariant *)

From stdpp Require Import functions.
From S2P Require Import Prelude Rcu RcuList RcuSpec RcuSim RcuInv.
Open Scope xen_scope.

Inductive event :=
| ECall (c h f : Z)      (* CPU [c] calls [call_rcu] for the structure [h] *)
| ESoftirq (c : Z)       (* [c] starts to run the RCU softirq *)
| EStep (c : Z)          (* the next step of [c] *)
| ELock (c : Z)          (* [rcu_read_lock] *)
| EUnlock (c : Z)        (* [rcu_read_unlock] *)
| EUp (c : Z)            (* CPU_UP_PREPARE *)
| EOnline (c : Z)        (* [c] enters [cpu_online_map] *)
| EOffline (c : Z)       (* [c] leaves it *)
| EDead (d c : Z).       (* CPU_DEAD or CPU_UP_CANCELED of [c], on CPU [d] *)

Definition rcu_world : Type := rcu_machine * ghost.

Definition clear_softirq (c nr : Z) (m : rcu_machine) : rcu_machine :=
  mk_machine (heads m) (rcu_data_of m) (rcp m) (cpu_online_map m) (pending m ∖ {[ (c, nr) ]}) (pcs m).

Definition exec (e : event) (w : rcu_world) : outcome (rcu_world * option (Z * Z)) :=
  let '(m, g) := w in
  match e with
  | ECall c h f => let! m' := call_rcu c h f m in Ok ((m', ghost_call (cpu_online_map m) h g), None)
  | ESoftirq c => Ok ((rcu_process_callbacks c (clear_softirq c RCU_SOFTIRQ m), g), None)
  | EStep c => let! (m', ran) := rcu_step c m in Ok ((m', ghost_step (pc_of m c) g), ran)
  | ELock c => Ok ((m, set_nest (<[c := S (nest g c)]> (nest g)) g), None)
  | EUnlock c => Ok ((m, ghost_unlock c g), None)
  | EUp c => Ok ((rcu_init_percpu_data c m, set_live ({[ c ]} ∪ live g) g), None)
  | EOnline c => Ok ((upd_online (λ s, {[ c ]} ∪ s) m, g), None)
  | EOffline c => Ok ((upd_online (λ s, s ∖ {[ c ]}) m, g), None)
  | EDead d c => Ok ((rcu_offline_cpu d c m, set_leaving (Some (d, c)) g), None)
  end.

(** What the rest of the hypervisor keeps to: a structure is not queued twice;
    softirqs run, and RCU code goes on, only outside read-side sections
    ([do_softirq] asserts this, and interrupts return before the interrupted
    code goes on); sections are of CPUs online; hot-plug operations are
    serialised, and a CPU leaves when it runs neither RCU code nor a section. *)
Definition allowed (e : event) (w : rcu_world) : Prop :=
  let '(m, g) := w in
  match e with
  | ECall c h _ => c ∈ live g ∧ (∀ d x, leaving g = Some (d, x) → c ≠ x) ∧ h ≠ 0 ∧ heads m !! h = None
  | ESoftirq c => c ∈ cpu_online_map m ∧ pc_of m c = Idle ∧ nest g c = O
  | EStep c => pc_of m c ≠ Idle ∧ nest g c = O
  | ELock c => c ∈ cpu_online_map m
  | EUnlock c => nest g c ≠ O
  | EUp c => leaving g = None ∧ c ∉ live g
  | EOnline c => leaving g = None ∧ c ∈ live g
  | EOffline c => leaving g = None ∧ c ∈ cpu_online_map m ∧ pc_of m c = Idle ∧ nest g c = O
  | EDead d c => leaving g = None ∧ d ∈ cpu_online_map m ∧ pc_of m d = Idle ∧ nest g d = O ∧ c ∈ live g ∧ c ∉ cpu_online_map m
  end.

(** The same events on sequences. *)
Definition spec_exec (e : event) (stop : bool) (A : spec) : spec * option Z :=
  match e with
  | ECall c h _ => (spec_call c h A, None)
  | ESoftirq c => (s_goto c PDoneList A, None)
  | EStep c => spec_step c stop A
  | ELock _ | EUnlock _ => (A, None)
  | EUp c => (spec_up c A, None)
  | EOnline c => (s_upd_online (λ s, {[ c ]} ∪ s) A, None)
  | EOffline c => (s_upd_online (λ s, s ∖ {[ c ]}) A, None)
  | EDead d c => (s_goto d (OLock c) A, None)
  end.

Definition ghost_exec (e : event) (A : spec) (g : ghost) : ghost :=
  match e with
  | ECall c h _ => ghost_call (s_online A) h g
  | ESoftirq _ | EOnline _ | EOffline _ => g
  | EStep c => ghost_step (s_pc A c) g
  | ELock c => set_nest (<[c := S (nest g c)]> (nest g)) g
  | EUnlock c => ghost_unlock c g
  | EUp c => set_live ({[ c ]} ∪ live g) g
  | EDead d c => set_leaving (Some (d, c)) g
  end.

Record inv (A : spec) (g : ghost) : Prop := {
  inv_control : control_inv A g;
  inv_batch : batch_inv A g;
  inv_safe : safe_inv A g;
}.

(** ** Events keep the invariant *)

Definition s_allowed (e : event) (A : spec) (g : ghost) : Prop :=
  match e with
  | ECall c h _ => c ∈ live g ∧ (∀ d x, leaving g = Some (d, x) → c ≠ x) ∧ (∀ i l, s_lists A !! i = Some l → h ∉ l)
  | ESoftirq c => c ∈ s_online A ∧ s_pc A c = Idle ∧ nest g c = O
  | EStep c => s_pc A c ≠ Idle ∧ nest g c = O
  | ELock c => c ∈ s_online A
  | EUnlock c => nest g c ≠ O
  | EUp c => leaving g = None ∧ c ∉ live g
  | EOnline c => leaving g = None ∧ c ∈ live g
  | EOffline c => leaving g = None ∧ c ∈ s_online A ∧ s_pc A c = Idle ∧ nest g c = O
  | EDead d c => leaving g = None ∧ d ∈ s_online A ∧ s_pc A d = Idle ∧ nest g d = O ∧ c ∈ live g ∧ c ∉ s_online A
  end.

Lemma call_inv A g c h f : inv A g → s_allowed (ECall c h f) A g → inv (spec_call c h A) (ghost_call (s_online A) h g).
Proof.
  intros [[C1 C2 C3 C4 C5 C6 C7] [B1 B2 B3 B4 B5 B6 B7] [S1 S2 S3]] (Hc & Hl & Hh). split.
  - constructor; try done. intros x k. simpl. rewrite lookup_insert_is_Some, C6.
    destruct (decide ((c, Nxt) = (x, k))) as [[= <- <-]|]; [|naive_solver]. split; [|eauto]. intros _. split; [done|].
    destruct (leaving g) as [[d y]|]; [|done]. rewrite decide_False; [done|]. by eapply Hl.
  - constructor; try done. intros x. unfold s_list; simpl. by rewrite lookup_insert_ne by congruence; apply B7.
  - assert (Hn : ∀ x k, h ∉ s_list A x k).
    { intros x k. unfold s_list. destruct (s_lists A !! (x, k)) eqn:E; [by eapply Hh|]. apply not_elem_of_nil. }
    constructor; simpl.
    + intros h' c'. rewrite fn_insert_at. destruct (decide (h' = h)); [|apply S1]. unfold readers. rewrite elem_of_filter. naive_solver.
    + intros x h' c'. assert (Hs : s_list (spec_call c h A) x Cur = s_list A x Cur).
      { unfold s_list; simpl. by rewrite lookup_insert_ne by congruence. }
      rewrite Hs. intros Hh' Hp. rewrite fn_insert_at, decide_False by (intros ->; by eapply Hn). by apply S2.
    + intros x h'. assert (Hs : s_list (spec_call c h A) x Done = s_list A x Done).
      { unfold s_list; simpl. by rewrite lookup_insert_ne by congruence. }
      rewrite Hs. intros Hh'. rewrite fn_insert_at, decide_False by (intros ->; by eapply Hn). by eapply S3.
Qed.

Lemma softirq_inv A g c : inv A g → s_allowed (ESoftirq c) A g → inv (s_goto c PDoneList A) g.
Proof.
  intros [[C1 C2 C3 C4 C5 C6 C7] Hb Hs] (Hc & Hp & Hn). split.
  - pose proof (C1 c) as C1c. pose proof (C2 c) as C2c. rewrite Hp in C1c, C2c. simpl in C1c, C2c. constructor; simpl; try done.
    + intros x. rewrite fn_insert_at. destruct (decide (x = c)) as [->|]; [done|apply C1].
    + intros x. rewrite fn_insert_at. destruct (decide (x = c)) as [->|]; [done|apply C2].
    + intros x Hx. rewrite fn_insert_at, decide_False by (intros ->; done). by apply C5.
    + intros x k. rewrite C6. destruct (leaving g) as [[d y]|]; [|done]. rewrite fn_insert_at.
      destruct (decide (d = c)) as [->|]; [|done]. by rewrite Hp.
  - eapply batch_ctrl; [exact Hb|by rewrite Hp|reflexivity..|by left|done].
  - eapply safe_ctrl; [exact Hs|reflexivity|by rewrite Hp|by rewrite Hp|reflexivity..].
Qed.

Lemma dead_inv A g d c : inv A g → s_allowed (EDead d c) A g → inv (s_goto d (OLock c) A) (set_leaving (Some (d, c)) g).
Proof.
  intros [[C1 C2 C3 C4 C5 C6 C7] Hb Hs] (Hl & Hd & Hp & Hn & Hc & Hco). rewrite Hl in C2, C6. split.
  - pose proof (C1 d) as C1d. rewrite Hp in C1d. simpl in C1d. constructor; simpl; try done.
    + intros x. rewrite fn_insert_at. destruct (decide (x = d)) as [->|]; [done|apply C1].
    + intros x. rewrite fn_insert_at. destruct (decide (x = d)) as [->|]; [done|apply C2].
    + by intros ?? [= <- <-].
    + intros x Hx. rewrite fn_insert_at, decide_False by (intros ->; done). by apply C5.
    + intros x k. rewrite C6, fn_lookup_insert. simpl.
      destruct (decide (x = c)); naive_solver.
  - assert (batch_inv (s_goto d (OLock c) A) g) as [] by
      (eapply batch_ctrl; [exact Hb|by rewrite Hp|reflexivity..|by left|done]). by constructor.
  - assert (safe_inv (s_goto d (OLock c) A) g) as [] by
      (eapply safe_ctrl; [exact Hs|reflexivity|by rewrite Hp|by rewrite Hp|reflexivity..]). by constructor.
Qed.

Lemma lock_inv A g c : inv A g → s_allowed (ELock c) A g → inv A (set_nest (<[c := S (nest g c)]> (nest g)) g).
Proof.
  intros [[C1 C2 C3 C4 C5 C6 C7] [] [S1 S2 S3]] Hc. split; constructor; simpl; try done.
  - intros x. rewrite fn_insert_at. destruct (decide (x = c)) as [->|]; [done|apply C7].
  - intros h x Hx. rewrite fn_insert_at. destruct (decide (x = c)); [done|by eapply S1].
Qed.

Lemma unlock_inv A g c : inv A g → s_allowed (EUnlock c) A g → inv A (ghost_unlock c g).
Proof.
  intros [[C1 C2 C3 C4 C5 C6 C7] [] [S1 S2 S3]] Hc. simpl in Hc.
  assert (Hn : ∀ x, <[c := (nest g c - 1)%nat]> (nest g) x ≠ O → nest g x ≠ O).
  { intros x. rewrite fn_insert_at. destruct (decide (x = c)) as [->|]; [lia|done]. }
  unfold ghost_unlock. simpl. rewrite fn_lookup_insert. destruct (decide (nest g c - 1 = 0)%nat) as [E|E]; split; constructor; simpl; try done.
  - intros x Hx. by apply C7, Hn.
  - intros h x [Hx Hne]%elem_of_difference. rewrite fn_insert_at, decide_False by set_solver. by eapply S1.
  - intros x h c' Hh Hp [Hx _]%elem_of_difference. by apply (S2 x h c').
  - intros x h Hh. rewrite (S3 x h Hh). set_solver.
  - intros x Hx. by apply C7, Hn.
  - intros h x Hx. rewrite fn_insert_at. destruct (decide (x = c)); [done|by eapply S1].
Qed.

Lemma online_inv A g c : inv A g → s_allowed (EOnline c) A g → inv (s_upd_online (λ s, {[ c ]} ∪ s) A) g.
Proof.
  intros [[C1 C2 C3 C4 C5 C6 C7] [] [S1 S2 S3]] [Hl Hc]. split; constructor; simpl; try done.
  - intros d x. by rewrite Hl.
  - set_solver.
  - intros x Hx. apply C5. set_solver.
  - intros x Hx. apply C7 in Hx. set_solver.
Qed.

Lemma offline_inv A g c : inv A g → s_allowed (EOffline c) A g → inv (s_upd_online (λ s, s ∖ {[ c ]}) A) g.
Proof.
  intros [[C1 C2 C3 C4 C5 C6 C7] [] [S1 S2 S3]] (Hl & Hc & Hp & Hn). split; constructor; simpl; try done.
  - intros d x. by rewrite Hl.
  - set_solver.
  - intros x Hx. destruct (decide (x = c)) as [->|]; [done|]. apply C5. set_solver.
  - intros x Hx. apply elem_of_difference. split; [by apply C7|]. rewrite elem_of_singleton. intros ->. done.
Qed.

Lemma spec_up_list A c x k : s_list (spec_up c A) x k = if decide (x = c) then [] else s_list A x k.
Proof.
  unfold s_list, spec_up; simpl. destruct (decide (x = c)) as [->|].
  - destruct k; by rewrite ?lookup_insert_eq, ?lookup_insert_ne, ?lookup_insert_eq by congruence.
  - by rewrite !lookup_insert_ne by congruence.
Qed.

Lemma up_inv A g c : inv A g → s_allowed (EUp c) A g → inv (spec_up c A) (set_live ({[ c ]} ∪ live g) g).
Proof.
  intros [[C1 C2 C3 C4 C5 C6 C7] [B1 B2 B3 B4 B5 B6 B7] [S1 S2 S3]] [Hl Hc].
  assert (Hco : c ∉ s_online A) by (intros ?%C4; done). pose proof (C5 c Hco) as Hp.
  assert (Hpc : ∀ x, <[c := Idle]> (s_pc A) x = s_pc A x).
  { intros x. rewrite fn_insert_at. destruct (decide (x = c)) as [->|]; done. }
  split; constructor; simpl; try (setoid_rewrite Hpc); try done.
  - intros d x. by rewrite Hl.
  - set_solver.
  - intros x k. rewrite Hl in C6 |- *. rewrite !lookup_insert_is_Some, C6, elem_of_union, elem_of_singleton.
    destruct (decide (x = c)) as [->|Hne]; [|naive_solver]. split; [by auto|]. intros _.
    destruct k; [by left|right; split; [congruence|]; by left|right; split; [congruence|]; right; split; [congruence|]; by left].
  - intros x y k Hx. rewrite fn_insert_at. destruct (decide (x = c)) as [->|]; [congruence|]. by apply B5.
  - intros x Hx. rewrite fn_insert_at. destruct (decide (x = c)) as [->|]; [lia|]. apply B6. set_solver.
  - intros x. rewrite spec_up_list, fn_insert_at. destruct (decide (x = c)); [done|apply B7].
  - intros x h c'. rewrite spec_up_list, fn_insert_at. destruct (decide (x = c)) as [->|]; [intros Hh; by apply elem_of_nil in Hh|].
    intros Hh Hpx Hw. destruct (S2 x h c' Hh Hpx Hw) as [Hlt Hcur]. split; [done|]. simpl. intros Ec.
    destruct (Hcur Ec) as [? Hm]. rewrite fn_insert_at, decide_False.
    + split; [done|]. destruct Hm as [(y & k & Hy)|]; [left; exists y, k; by rewrite Hpc|by right].
    + intros ->. apply Hco, C7. by eapply S1.
  - intros x h. rewrite spec_up_list. destruct (decide (x = c)) as [->|]; [intros Hh; by apply elem_of_nil in Hh|apply S3].
Qed.

Lemma exec_inv A g e stop : inv A g → s_allowed e A g → inv (spec_exec e stop A).1 (ghost_exec e A g).
Proof.
  intros H Ha. destruct e; simpl.
  - by eapply call_inv.
  - by apply softirq_inv.
  - destruct H as [Hc Hb Hs], Ha as [Hp Hn]. split; [by apply control_step|by apply batch_step|by apply safe_step].
  - by apply lock_inv.
  - by apply unlock_inv.
  - by apply up_inv.
  - by apply online_inv.
  - by apply offline_inv.
  - by apply dead_inv.
Qed.

(** ** The code follows *)

Lemma sim_mono live live' m A : live' ⊆ live → sim live m A → sim live' m A.
Proof. intros Hs []. constructor; auto. Qed.

Lemma init_sim live m A c :
  sim live m A → (∀ k, s_lists A !! (c, k) = None) → s_pc A c = Idle →
  sim ({[ c ]} ∪ live) (rcu_init_percpu_data c m) (spec_up c A).
Proof.
  intros [H1 H2 H3 H4 H5 [Hseg Hpl] H7] Hl Hp. constructor; simpl; try done.
  - intros x. rewrite fn_insert_at. destruct (decide (x = c)) as [->|]; [|apply H3]. rewrite <- Hp. apply H3.
  - intros x d. rewrite !fn_insert_at. destruct (decide (x = c)) as [->|]; [|rewrite lookup_insert_ne by done; apply H4].
    rewrite lookup_insert_eq, H1. by intros [= <-].
  - intros x. rewrite elem_of_union, elem_of_singleton, lookup_insert_is_Some. destruct (decide (c = x)); naive_solver.
  - assert (Hup : ∀ x k l, s_lists (spec_up c A) !! (x, k) = Some l → x = c ∧ l = [] ∨ x ≠ c ∧ s_lists A !! (x, k) = Some l).
    { intros x k l. simpl. destruct (decide (x = c)) as [->|]; [|rewrite !lookup_insert_ne by congruence; auto].
      intros Hx. left. split; [done|]. destruct k; rewrite ?lookup_insert_eq, ?lookup_insert_ne, ?lookup_insert_eq in Hx by congruence; congruence. }
    assert (Hin : ∀ i l h, s_lists (spec_up c A) !! i = Some l → h ∈ l → s_lists A !! i = Some l).
    { intros [x k] l h Hx Hh. destruct (Hup x k l Hx) as [[_ ->]|[_ ?]]; [by apply elem_of_nil in Hh|done]. }
    split.
    + intros x k l Hx. destruct (Hup x k l Hx) as [[-> ->]|[Hne Hx']].
      * eexists. simpl. rewrite lookup_insert_eq. split; [done|]. split; [by destruct k|]. right. by destruct k.
      * destruct (Hseg x k l Hx') as (d & Hd & ?). exists d. simpl. by rewrite lookup_insert_ne.
    + destruct Hpl as (P1 & P2 & P3). split_and!.
      * intros [x k] l Hx. destruct (Hup x k l Hx) as [[_ ->]|[_ ?]]; [constructor|eauto].
      * intros i j l l' h Hi Hj Hh Hh'. eapply P2; [by eapply Hin|by eapply Hin|done|done].
      * intros h. rewrite P3. split; intros (i & l & Hi & Hh); exists i, l; (split; [|done]).
        -- destruct i as [x k]. assert (x ≠ c) by (intros ->; rewrite Hl in Hi; done). simpl. by rewrite !lookup_insert_ne by congruence.
        -- by eapply Hin.
  - intros x h n. rewrite fn_insert_at, spec_up_list. destruct (decide (x = c)) as [->|]; [by intros [? | ?]|apply H7].
Qed.

Lemma sim_live_off m A g c k : sim (live g) m A → control_inv A g → c ∉ live g → s_lists A !! (c, k) = None.
Proof.
  intros _ Hci Hc. destruct (s_lists A !! (c, k)) eqn:E; [|done]. exfalso. apply Hc. apply (ci_lists _ _ Hci c k). eauto.
Qed.

Lemma step_ready_inv A g c : inv A g → s_pc A c ≠ Idle → step_ready (live g) c A.
Proof.
  intros [Hci _ _] Hc. assert (Hco : c ∈ s_online A).
  { destruct (decide (c ∈ s_online A)); [done|]. exfalso. by apply Hc, (ci_idle _ _ Hci). }
  split; [by apply (ci_online _ _ Hci)|]. split; [intros k; by eapply control_own|].
  pose proof (ci_off _ _ Hci c) as Ho.
  assert (Hx : ∀ x, off (s_pc A c) = Some x → x ∈ live g ∧ x ≠ c ∧ invoking (s_pc A x) = false ∧
    ∀ k, moved (s_pc A c) k = false → is_Some (s_lists A !! (x, k))).
  { intros x E. rewrite E in Ho. destruct (leaving g) as [[d y]|] eqn:Eg; [|done]. case_decide; [|done]. injection Ho as <-. subst d.
    destruct (ci_leaving _ _ Hci c x Eg) as (_ & Hxl & Hxo). split_and!; [done|by intros ->| |].
    - by rewrite (ci_idle _ _ Hci x Hxo).
    - intros k Hk. apply (ci_lists _ _ Hci). split; [done|]. rewrite Eg. by rewrite decide_True by done. }
  destruct (s_pc A c); try done; destruct (Hx cpu eq_refl) as (? & ? & ? & Hk); try done; (split; [done|]); (split; [done|]); by apply Hk.
Qed.

Theorem exec_sim m A g e :
  sim (live g) m A → inv A g → allowed e (m, g) →
  s_allowed e A g ∧
  ∃ stop m' ran, exec e (m, g) = Ok ((m', ghost_exec e A g), ran) ∧
    sim (live (ghost_exec e A g)) m' (spec_exec e stop A).1 ∧ fst <$> ran = (spec_exec e stop A).2.
Proof.
  intros H Hi Ha. pose proof (sim_pc _ _ _ H) as Hpc. pose proof (sim_online _ _ _ H) as Ho.
  assert (Hs : s_allowed e A g).
  { destruct e; cbn [allowed s_allowed] in *; rewrite <- ?Hpc, <- ?Ho; try done.
    destruct Ha as (Hc & Hl & _ & Hh). split_and!; [done|done|]. intros i l Hil Hin.
    destruct (sim_rep _ _ _ H) as [_ (_ & _ & Hdom)]. assert (is_Some (heads m !! h)) as [? ?] by (apply Hdom; eauto). congruence. }
  split; [exact Hs|]. destruct e; cbn [exec spec_exec ghost_exec fst snd].
  - destruct Ha as (Hc & Hl & Hh0 & Hh). destruct (call_rcu_sim (live g) m A c h f) as (m' & -> & Hm'); try done.
    { apply (ci_lists _ _ (inv_control _ _ Hi)). split; [done|]. destruct (leaving g) as [[d x]|]; [|done].
      rewrite decide_False; [done|]. by eapply Hl. }
    exists false, m', None. cbn [mbind outcome_bind]. rewrite Ho. done.
  - exists false. eexists _, None. split; [done|]. split; [|done]. destruct Ha as (_ & Hp & _).
    apply sim_goto; [by destruct H|by rewrite <- Hpc, Hp|done].
  - destruct Ha as [Hp Hn]. rewrite Hpc in Hp. destruct (rcu_step_sim (live g) m A c H) as (stop & m' & ran & -> & Hm' & Er).
    { by apply step_ready_inv. }
    exists stop, m', ran. cbn [mbind outcome_bind]. rewrite Hpc. split; [done|]. split; [|done].
    eapply sim_mono; [|exact Hm']. destruct (s_pc A c); try done. simpl. set_solver.
  - exists false, m, None. done.
  - exists false, m, None. split; [done|]. split; [|done]. unfold ghost_unlock. simpl. by case_decide.
  - destruct Ha as [_ Hc]. exists false. eexists _, None. split; [done|]. split; [|done]. simpl. apply init_sim; [done| |].
    + intros k. by eapply sim_live_off; [|apply Hi|].
    + apply (ci_idle _ _ (inv_control _ _ Hi)). intros Hin. by apply Hc, (ci_online _ _ (inv_control _ _ Hi)).
  - exists false. eexists _, None. split; [done|]. split; [|done]. destruct H. constructor; try done. simpl. congruence.
  - exists false. eexists _, None. split; [done|]. split; [|done]. destruct H. constructor; try done. simpl. congruence.
  - destruct Ha as (_ & _ & Hp & _). exists false. eexists _, None. split; [done|]. split; [|done].
    apply sim_goto; [done|by rewrite <- Hpc, Hp|done].
Qed.
