(* ===== verification/RcuProg.v ===== *)
(** * Read-copy-update: no batch is lost

    A batch that callbacks wait for is registered or running, a running batch
    waits for CPUs that still have to report, and each of these has not yet
    used up its report. *)

From stdpp Require Import functions.
From S2P Require Import Prelude Rcu RcuList RcuSpec RcuSim RcuInv RcuWorld.
Open Scope xen_scope.

(** The CPU has taken callbacks and not yet registered their batch. *)
Definition numbering (p : pc) : bool :=
  match p with PBatch | PPending | PLock | PSetPending => true | _ => false end.

(** The CPU is about to report. *)
Definition quieting (p : pc) : bool :=
  match p with QLock | QCheck | CQClear _ InQuiesce => true | _ => false end.

(** The report of the CPU that left is done. *)
Definition reported (p : pc) : option Z :=
  match p with
  | OMoveDone x | OMoveCur x | OMoveNxt x | OQlen x => Some x
  | SBCheck k | SBInc k | SBMask k | PUnlock k | CQComplete k => off_after k
  | _ => None
  end.

Record prog_inv (A : spec) (g : ghost) : Prop := {
  pi_registered : ∀ c, s_list A c Cur ≠ [] → numbering (s_pc A c) = false → s_batch A c = cur (s_rcp A) + 1 →
    next_pending (s_rcp A) ≠ 0 ∨ ∃ x k, s_pc A x = SBInc k;
  pi_started : next_pending (s_rcp A) ≠ 0 → completed (s_rcp A) = cur (s_rcp A) → ∃ x k, s_pc A x = SBCheck k;
  pi_none : completed (s_rcp A) = cur (s_rcp A) → cpumask (s_rcp A) = ∅;
  pi_some : completed (s_rcp A) ≠ cur (s_rcp A) → cpumask (s_rcp A) ≠ ∅ ∨ ∃ x k, s_pc A x = SBMask k ∨ s_pc A x = CQComplete k;
  pi_live : cpumask (s_rcp A) ⊆ live g;
  pi_member : ∀ x, x ∈ live g → (x ∈ cpumask (s_rcp A) ∨ ∃ y k, s_pc A y = SBMask k) →
    s_quiesc A x = cur (s_rcp A) → s_qs A x ≠ 0 ∨ quieting (s_pc A x) = true;
  pi_left : ∀ d x, reported (s_pc A d) = Some x → x ∉ cpumask (s_rcp A);
}.

(** A step that changes neither the batch nor who has to report. *)
Lemma prog_frame A A' g c p :
  prog_inv A g → s_pc A' = <[c := p]> (s_pc A) →
  (match s_pc A c with SBInc _ | SBMask _ | CQComplete _ | SBCheck _ => False | _ => True end) →
  cur (s_rcp A') = cur (s_rcp A) → completed (s_rcp A') = completed (s_rcp A) → cpumask (s_rcp A') = cpumask (s_rcp A) →
  next_pending (s_rcp A') = next_pending (s_rcp A) →
  (∀ x, x ≠ c → s_quiesc A' x = s_quiesc A x ∧ s_qs A' x = s_qs A x ∧ s_batch A' x = s_batch A x ∧
     (s_list A' x Cur = s_list A x Cur ∨ s_list A' x Cur = [])) →
  (s_list A' c Cur ≠ [] → numbering p = false → s_batch A' c = cur (s_rcp A) + 1 →
     next_pending (s_rcp A) ≠ 0 ∨ s_list A c Cur ≠ [] ∧ numbering (s_pc A c) = false ∧ s_batch A c = cur (s_rcp A) + 1) →
  (s_quiesc A' c = cur (s_rcp A) → s_qs A' c ≠ 0 ∨ quieting p = true ∨
     s_quiesc A c = cur (s_rcp A) ∧ s_qs A' c = s_qs A c ∧ quieting (s_pc A c) = false) →
  (∀ x, reported p = Some x → reported (s_pc A c) = Some x ∨ x ∉ cpumask (s_rcp A)) →
  (∀ k, p ≠ SBMask k) → prog_inv A' g.
Proof.
  intros [P1 P2 P3 P4 P5 P6 P7] Ep Hc E1 E2 E3 E4 Hx Hb Hq Hr Hm.
  assert (Hk : ∀ y q, s_pc A y = q → match q with SBInc _ | SBMask _ | CQComplete _ | SBCheck _ => True | _ => False end → s_pc A' y = q).
  { intros y q <- Hy. rewrite Ep, fn_insert_at. destruct (decide (y = c)) as [->|]; [|done]. by destruct (s_pc A c). }
  constructor; rewrite ?E1, ?E2, ?E3, ?E4; try done.
  - intros x. rewrite Ep, fn_insert_at. destruct (decide (x = c)) as [->|Hne].
    + intros H1 H2 H3. destruct (Hb H1 H2 H3) as [?|(H4 & H5 & H6)]; [by left|].
      destruct (P1 c H4 H5 H6) as [?|(y & k & Hy)]; [by left|right]. exists y, k. rewrite <- ?Ep; by apply Hk.
    + destruct (Hx x Hne) as (_ & _ & -> & Hl). intros H1 H2 H3. destruct Hl as [El|El]; [|done]. rewrite El in H1.
      destruct (P1 x H1 H2 H3) as [?|(y & k & Hy)]; [by left|right]. exists y, k. rewrite <- ?Ep; by apply Hk.
  - intros H1 H2. destruct (P2 H1 H2) as (y & k & Hy). exists y, k. rewrite <- ?Ep; by apply Hk.
  - intros H1. destruct (P4 H1) as [?|(y & k & Hy)]; [by left|right]. exists y, k. destruct Hy as [Hy|Hy]; [left|right]; rewrite <- ?Ep; by apply Hk.
  - intros x Hl Hmem. assert (Hmem' : x ∈ cpumask (s_rcp A) ∨ ∃ y k, s_pc A y = SBMask k).
    { destruct Hmem as [?|(y & k & Hy)]; [by left|right]. exists y, k. rewrite Ep, fn_insert_at in Hy.
      destruct (decide (y = c)) as [->|]; [|done]. by destruct (Hm k). }
    rewrite Ep, fn_insert_at. destruct (decide (x = c)) as [->|Hne].
    + intros Hqc. destruct (Hq Hqc) as [?|[?|(Hq1 & -> & Hq2)]]; [by left|by right|].
      destruct (P6 c Hl Hmem' Hq1) as [?|?]; [by left|congruence].
    + destruct (Hx x Hne) as (-> & -> & _). by apply P6.
  - intros d x. rewrite Ep, fn_insert_at. destruct (decide (d = c)) as [->|]; [|apply P7]. intros H1.
    destruct (Hr x H1); [by eapply P7|done].
Qed.

Lemma prog_ctrl A A' g c p :
  prog_inv A g → s_pc A' = <[c := p]> (s_pc A) →
  (match s_pc A c with SBInc _ | SBMask _ | CQComplete _ | SBCheck _ => False | _ => True end) →
  cur (s_rcp A') = cur (s_rcp A) → completed (s_rcp A') = completed (s_rcp A) → cpumask (s_rcp A') = cpumask (s_rcp A) →
  next_pending (s_rcp A') = next_pending (s_rcp A) → s_quiesc A' = s_quiesc A → s_qs A' = s_qs A → s_batch A' = s_batch A →
  (∀ x, s_list A' x Cur = s_list A x Cur ∨ s_list A' x Cur = []) →
  (numbering (s_pc A c) = false ∨ numbering p = true) → (quieting (s_pc A c) = false ∨ quieting p = true) →
  (reported p = None ∨ reported p = reported (s_pc A c)) → (∀ k, p ≠ SBMask k) → prog_inv A' g.
Proof.
  intros Hp Ep Hc E1 E2 E3 E4 Eq Es Eb El Hn Hq Hr Hm. apply (prog_frame A A' g c p); try done.
  - intros x _. by rewrite Eq, Es, Eb.
  - intros H1 H2. rewrite Eb. intros H3. right. destruct (El c) as [E|E]; [|done]. rewrite E in H1. split_and!; try done.
    destruct Hn; congruence.
  - rewrite Eq, Es. intros H1. destruct (quieting p) eqn:E; [by auto|]. destruct Hq; [by auto|done].
  - intros x Hx. destruct Hr as [Hr|Hr]; [congruence|]. left. congruence.
Qed.

(** A step of the holder of the lock on the batch itself. *)
Lemma prog_locked A A' g c p :
  prog_inv A g → s_pc A' = <[c := p]> (s_pc A) →
  s_quiesc A' = s_quiesc A → s_qs A' = s_qs A → s_batch A' = s_batch A → s_lists A' = s_lists A →
  (∀ x, s_list A x Cur ≠ [] → x = c ∨ numbering (s_pc A x) = false → s_batch A x = cur (s_rcp A') + 1 →
     next_pending (s_rcp A') ≠ 0 ∨ ∃ k, p = SBInc k) →
  (next_pending (s_rcp A') ≠ 0 → completed (s_rcp A') = cur (s_rcp A') → ∃ k, p = SBCheck k) →
  (completed (s_rcp A') = cur (s_rcp A') → cpumask (s_rcp A') = ∅) →
  (completed (s_rcp A') ≠ cur (s_rcp A') → cpumask (s_rcp A') ≠ ∅ ∨ ∃ k, p = SBMask k ∨ p = CQComplete k) →
  cpumask (s_rcp A') ⊆ live g →
  (∀ x, x ∈ live g → (x ∈ cpumask (s_rcp A') ∨ ∃ y k, s_pc A' y = SBMask k) → s_quiesc A x = cur (s_rcp A') →
     s_qs A x ≠ 0 ∨ quieting (s_pc A' x) = true) →
  (∀ d x, reported (s_pc A' d) = Some x → x ∉ cpumask (s_rcp A')) → prog_inv A' g.
Proof.
  intros Hp Ep Eq Es Eb El H1 H2 H3 H4 H5 H6 H7.
  assert (Hpc : s_pc A' c = p) by (rewrite Ep; apply fn_lookup_insert).
  constructor; rewrite ?Eq, ?Es, ?Eb; try done.
  - intros x. unfold s_list at 1. rewrite El. intros Hx Hn Hbx. destruct (H1 x Hx) as [?|[k Hk]]; [|done|by left|].
    + rewrite Ep, fn_insert_at in Hn. destruct (decide (x = c)); auto.
    + right. exists c, k. congruence.
  - intros Hn Hc. destruct (H2 Hn Hc) as [k Hk]. exists c, k. congruence.
  - intros Hc. destruct (H4 Hc) as [?|[k [Hk|Hk]]]; [by left| |]; right; exists c, k; rewrite Hpc; auto.
Qed.

Lemma prog_only A g c : control_inv A g → holds (s_pc A c) = true →
  ∀ x p, s_pc A x = p → holds p = true → x = c.
Proof. intros Hci Hc x p <- Hx. exact (lock_unique A g x c Hci Hx Hc). Qed.

(** The CPU that leaves is not online. *)
Lemma reported_off A g d x : control_inv A g → reported (s_pc A d) = Some x → x ∉ s_online A.
Proof.
  intros Hci Hr. pose proof (ci_off _ _ Hci d) as Ho. assert (E : off (s_pc A d) = Some x) by (by destruct (s_pc A d)).
  rewrite E in Ho. destruct (leaving g) as [[d' y]|] eqn:Eg; [|done]. case_decide; [|done]. injection Ho as <-.
  by destruct (ci_leaving _ _ Hci d' x Eg) as (_ & _ & ?).
Qed.

Lemma prog_set_pending A g c : control_inv A g → prog_inv A g → s_pc A c = PSetPending →
  prog_inv (s_goto c (SBCheck InCallbacks) (s_upd_rcp (set_next_pending 1) A)) g.
Proof.
  intros Hci Hp E. assert (Hone := prog_only A g c Hci). rewrite E in Hone. pose proof Hp as [P1 P2 P3 P4 P5 P6 P7].
  eapply (prog_locked A); [exact Hp|reflexivity..| | | | | | |]; simpl; try done.
  - by left.
  - by exists InCallbacks.
  - intros Hc. destruct (P4 Hc) as [?|(x & k & [Hx|Hx])]; [by left| |];
      pose proof (Hone eq_refl x _ Hx eq_refl) as ->; congruence.
  - intros x Hl Hm Hq. rewrite fn_insert_at. destruct (P6 x Hl) as [?|Hqt]; [|done|by left|].
    + destruct Hm as [?|(y & k & Hy)]; [by left|]. rewrite fn_insert_at in Hy. destruct (decide (y = c)); [done|]. eauto.
    + destruct (decide (x = c)) as [->|]; [by rewrite E in Hqt|by right].
  - intros d x. rewrite fn_insert_at. destruct (decide (d = c)); [done|apply P7].
Qed.

Lemma prog_start A g c k :
  control_inv A g → batch_inv A g → prog_inv A g → s_pc A c = SBCheck k → completed (s_rcp A) = cur (s_rcp A) →
  prog_inv (s_goto c (SBInc k) (s_upd_rcp (set_next_pending 0) A)) g.
Proof.
  intros Hci Hbi Hp E Hc. pose proof Hp as [P1 P2 P3 P4 P5 P6 P7].
  eapply (prog_locked A); [exact Hp|reflexivity..| | | | | | |]; simpl; try done.
  - by right; eauto.
  - intros x Hl [Hm|(y & k' & Hy)] Hq; [by rewrite (P3 Hc) in Hm|]. exfalso. rewrite fn_insert_at in Hy.
    destruct (decide (y = c)); [done|]. pose proof (bi_mask _ _ Hbi y k' Hy). lia.
  - intros d x. rewrite fn_insert_at. rewrite (P3 Hc). set_solver.
Qed.

Lemma prog_nostart A g c k :
  control_inv A g → batch_inv A g → prog_inv A g → s_pc A c = SBCheck k →
  ~ (next_pending (s_rcp A) ≠ 0 ∧ completed (s_rcp A) = cur (s_rcp A)) → prog_inv (s_goto c (PUnlock k) A) g.
Proof.
  intros Hci Hbi Hp E Hno. pose proof Hp as [P1 P2 P3 P4 P5 P6 P7].
  assert (Hone := prog_only A g c Hci). rewrite E in Hone.
  eapply (prog_locked A); [exact Hp|reflexivity..| | | | | | |]; simpl; try done.
  - intros y Hy Hn Hb. assert (Hn' : numbering (s_pc A y) = false) by (destruct Hn as [->|]; [by rewrite E|done]).
    destruct (P1 y Hy Hn' Hb) as [?|(z & k' & Hz)]; [by left|]. pose proof (Hone eq_refl z _ Hz eq_refl) as ->. congruence.
  - intros Hn Hc. by destruct Hno.
  - intros Hc. destruct (P4 Hc) as [?|(x & k' & [Hx|Hx])]; [by left| |];
      pose proof (Hone eq_refl x _ Hx eq_refl) as ->; congruence.
  - intros x Hl Hm Hq. rewrite fn_insert_at. destruct (P6 x Hl) as [?|Hqt]; [|done|by left|].
    + destruct Hm as [?|(y & k' & Hy)]; [by left|]. rewrite fn_insert_at in Hy. destruct (decide (y = c)); [done|]. eauto.
    + destruct (decide (x = c)) as [->|]; [by rewrite E in Hqt|by right].
  - intros d x. rewrite fn_insert_at. destruct (decide (d = c)) as [->|]; [|apply P7].
    intros Hr. apply (P7 c x). by rewrite E.
Qed.

Lemma prog_inc A g c k :
  control_inv A g → batch_inv A g → prog_inv A g → s_pc A c = SBInc k →
  prog_inv (s_goto c (SBMask k) (s_upd_rcp (set_cur (cur (s_rcp A) + 1)) A)) g.
Proof.
  intros Hci Hbi Hp E. pose proof Hp as [P1 P2 P3 P4 P5 P6 P7]. pose proof (bi_inc _ _ Hbi c k E) as Hc.
  eapply (prog_locked A); [exact Hp|reflexivity..| | | | | | |]; simpl; try done.
  - intros x Hx Hn Hbx. exfalso. assert (s_batch A x ≤ cur (s_rcp A) + 1); [|lia]. apply (bi_batch _ _ Hbi); [done|].
    destruct Hn as [->|Hn]; [by rewrite E|]. by intros Ex; rewrite Ex in Hn.
  - lia.
  - lia.
  - right. eauto.
  - intros x Hl _ Hq. pose proof (bi_quiesc _ _ Hbi x Hl). lia.
  - intros d x. rewrite (P3 Hc). set_solver.
Qed.

Lemma prog_mask A g c k :
  control_inv A g → batch_inv A g → prog_inv A g → s_pc A c = SBMask k → s_online A ≠ ∅ →
  prog_inv (s_goto c (PUnlock k) (s_upd_rcp (set_cpumask (s_online A)) A)) g.
Proof.
  intros Hci Hbi Hp E Hne. pose proof Hp as [P1 P2 P3 P4 P5 P6 P7]. pose proof (bi_mask _ _ Hbi c k E) as Hc.
  assert (Hone := prog_only A g c Hci). rewrite E in Hone.
  eapply (prog_locked A); [exact Hp|reflexivity..| | | | | | |]; simpl; try done.
  - intros x Hx Hn Hbx. assert (Hn' : numbering (s_pc A x) = false) by (destruct Hn as [->|]; [by rewrite E|done]).
    destruct (P1 x Hx Hn' Hbx) as [?|(y & k' & Hy)]; [by left|]. pose proof (Hone eq_refl y _ Hy eq_refl) as ->. congruence.
  - lia.
  - lia.
  - by left.
  - apply (ci_online _ _ Hci).
  - intros x Hl _ Hq. rewrite fn_insert_at. destruct (P6 x Hl) as [?|Hqt]; [by eauto|done|by left|].
    destruct (decide (x = c)) as [->|]; [by rewrite E in Hqt|by right].
  - intros d x. rewrite fn_insert_at. destruct (decide (d = c)) as [->|]; [|by eapply reported_off].
    intros Hr. apply (reported_off A g c x Hci). by rewrite E.
Qed.

Lemma prog_clear A g c x k p :
  control_inv A g → batch_inv A g → prog_inv A g → s_pc A c = CQClear x k →
  p = (if decide (cpumask (s_rcp A) ∖ {[ x ]} = ∅) then CQComplete k else PUnlock k) →
  prog_inv (s_goto c p (s_upd_rcp (set_cpumask (cpumask (s_rcp A) ∖ {[ x ]})) A)) g.
Proof.
  intros Hci Hbi Hp E Ep. pose proof Hp as [P1 P2 P3 P4 P5 P6 P7]. pose proof (bi_clear _ _ Hbi c x k E) as Hk.
  assert (Hone := prog_only A g c Hci). rewrite E in Hone.
  assert (Hrep : ∀ y, reported p = Some y → y = x).
  { intros y. rewrite Ep. destruct Hk as [(-> & _)| ->]; case_decide; simpl; congruence. }
  eapply (prog_locked A); [exact Hp|reflexivity..| | | | | | |]; simpl; try done.
  - intros y Hy Hn Hb. assert (Hn' : numbering (s_pc A y) = false) by (destruct Hn as [->|]; [by rewrite E|done]).
    destruct (P1 y Hy Hn' Hb) as [?|(z & k' & Hz)]; [by left|]. pose proof (Hone eq_refl z _ Hz eq_refl) as ->. congruence.
  - intros Hn Hc. destruct (P2 Hn Hc) as (z & k' & Hz). pose proof (Hone eq_refl z _ Hz eq_refl) as ->. congruence.
  - intros Hc. rewrite (P3 Hc). set_solver.
  - intros _. rewrite Ep. case_decide; [right; eauto|by left].
  - set_solver.
  - intros y Hl Hm Hq. rewrite fn_insert_at. destruct Hm as [Hm|(z & k' & Hz)].
    + apply elem_of_difference in Hm as [Hm Hne]. destruct (P6 y Hl (or_introl Hm) Hq) as [?|Hqt]; [by left|].
      destruct (decide (y = c)) as [->|]; [|by right]. rewrite E in Hqt. destruct Hk as [(_ & -> & _)| ->]; [set_solver|done].
    + rewrite fn_insert_at, Ep in Hz. destruct (decide (z = c)); [by case_decide|].
      pose proof (Hone eq_refl z _ Hz eq_refl). congruence.
  - intros d y. rewrite fn_insert_at. destruct (decide (d = c)) as [->|]; [intros ->%Hrep; set_solver|].
    intros Hr. specialize (P7 d y Hr). set_solver.
Qed.

Lemma prog_complete A g c k :
  control_inv A g → batch_inv A g → prog_inv A g → s_pc A c = CQComplete k →
  prog_inv (s_goto c (SBCheck k) (s_upd_rcp (set_completed (cur (s_rcp A))) A)) g.
Proof.
  intros Hci Hbi Hp E. pose proof Hp as [P1 P2 P3 P4 P5 P6 P7]. pose proof (bi_complete _ _ Hbi c k E) as Hm0.
  assert (Hone := prog_only A g c Hci). rewrite E in Hone.
  eapply (prog_locked A); [exact Hp|reflexivity..| | | | | | |]; simpl; try done.
  - intros y Hy Hn Hb. assert (Hn' : numbering (s_pc A y) = false) by (destruct Hn as [->|]; [by rewrite E|done]).
    destruct (P1 y Hy Hn' Hb) as [?|(z & k' & Hz)]; [by left|]. pose proof (Hone eq_refl z _ Hz eq_refl) as ->. congruence.
  - by eauto.
  - intros y Hl [Hm|(z & k' & Hz)] _; [by rewrite Hm0 in Hm|]. rewrite fn_insert_at in Hz.
    destruct (decide (z = c)); [done|]. pose proof (Hone eq_refl z _ Hz eq_refl). congruence.
  - intros d y _. rewrite Hm0. set_solver.
Qed.

Lemma s_take_cur A c y k x : s_list (s_take c y k A) x Cur = s_list A x Cur ∨ s_list (s_take c y k A) x Cur = [].
Proof.
  unfold s_list, s_take; simpl. rewrite lookup_insert_ne by congruence. destruct (decide ((y, k) = (x, Cur))) as [[= -> ->]|].
  - right. by rewrite lookup_delete_eq.
  - left. by rewrite lookup_delete_ne.
Qed.

Lemma prog_step A g c stop :
  control_inv A g → batch_inv A g → prog_inv A g → s_pc A c ≠ Idle →
  prog_inv (spec_step c stop A).1 (ghost_step (s_pc A c) g).
Proof.
  intros Hci Hbi Hp Hc. pose proof Hp as [P1 P2 P3 P4 P5 P6 P7].
  assert (Hg : ∀ A', prog_inv A' g → cpumask (s_rcp A') = cpumask (s_rcp A) ∨ (∀ x, s_pc A c ≠ OQlen x) → prog_inv A' (ghost_step (s_pc A c) g)).
  { intros A' [Q1 Q2 Q3 Q4 Q5 Q6 Q7] Hm. destruct (s_pc A c) eqn:E; try done. simpl. constructor; try done; simpl.
    - destruct Hm as [Hm|Hm]; [|by destruct (Hm cpu)]. rewrite Hm in Q5 |- *. specialize (P7 c cpu). rewrite E in P7.
      specialize (P7 eq_refl). set_solver.
    - intros x Hx. apply Q6. set_solver. }
  apply Hg; [|unfold spec_step; destruct (s_pc A c); (try by right); by left]. clear Hg. unfold spec_step.
  destruct (s_pc A c) eqn:E; try done; cbn [fst].
  all: try (repeat case_decide; unfold s_lock; try destruct (lock (s_rcp A)) eqn:El; try destruct stop; try done;
    by (eapply (prog_ctrl A); [exact Hp|reflexivity|by rewrite E|reflexivity..|by left|
         first [by left; rewrite E|by right]|first [by left; rewrite E|by right]|first [by left|by right; rewrite E]|done])).
  - case_decide; (eapply (prog_ctrl A); [exact Hp|reflexivity|by rewrite E|reflexivity..| |by left; rewrite E|by left; rewrite E|by left|done]).
    + intros x. destruct (decide (x = c)) as [->|]; [right; apply s_list_upd|left; apply s_list_same];
        by rewrite ?lookup_insert_ne, ?lookup_insert_eq by congruence.
    + by left.
  - case_decide; [|by (eapply (prog_ctrl A); [exact Hp|reflexivity|by rewrite E|reflexivity..|by left|by left; rewrite E|by left; rewrite E|by left|done])].
    eapply (prog_frame A); [exact Hp|reflexivity|by rewrite E|reflexivity..| |done| |done|done].
    + intros x Hx. split_and!; try done. left. apply s_list_same. by rewrite !lookup_insert_ne by congruence.
    + rewrite E. by auto.
  - eapply (prog_frame A); [exact Hp|reflexivity|by rewrite E|reflexivity..| |done| |done|done].
    + intros x Hx. simpl. rewrite fn_lookup_insert_ne by done. split_and!; try done. by left.
    + rewrite E. by auto.
  - case_decide; (eapply (prog_frame A); [exact Hp|reflexivity|by rewrite E|reflexivity..|by auto| | |done|done]); rewrite ?E; auto; done.
  - by apply prog_set_pending.
  - case_decide as Hd; [destruct Hd; by apply prog_start|by apply prog_nostart].
  - by apply prog_inc.
  - apply prog_mask; try done. intros Ho. by rewrite (ci_idle _ _ Hci c) in E by (rewrite Ho; set_solver).
  - eapply (prog_ctrl A); [exact Hp|reflexivity|by rewrite E|reflexivity..|by left| | | |]; rewrite ?E; destruct k; auto; done.
  - repeat case_decide; try (by (eapply (prog_ctrl A); [exact Hp|reflexivity|by rewrite E|reflexivity..|by left|by left; rewrite E|by left; rewrite E|by left|done])).
    eapply (prog_frame A); [exact Hp|reflexivity|by rewrite E|reflexivity..| | |by auto|done|done].
    + intros x Hx. simpl. rewrite !fn_lookup_insert_ne by done. by auto.
    + rewrite E. by auto.
  - eapply (prog_frame A); [exact Hp|reflexivity|by rewrite E|reflexivity..| | | |done|done].
    + intros x Hx. simpl. rewrite !fn_lookup_insert_ne by done. by auto.
    + rewrite E. by auto.
    + intros _. left. simpl. by rewrite fn_lookup_insert.
  - case_decide; (eapply (prog_frame A); [exact Hp|reflexivity|by rewrite E|reflexivity..|by auto|rewrite E; by auto|by auto|done|done]).
  - case_decide; by (apply (prog_clear A g c cpu k); rewrite ?decide_True, ?decide_False by done).
  - by apply prog_complete.
  - destruct (s_list A c Done) as [|h l]; (eapply (prog_ctrl A); [exact Hp|reflexivity|by rewrite E|reflexivity..| |by left; rewrite E|by left; rewrite E|by left|done]); [by left|].
    intros x. left. apply s_list_same. by rewrite lookup_insert_ne by congruence.
  - case_decide as Hd.
    + eapply (prog_ctrl A); [exact Hp|reflexivity|by rewrite E|reflexivity..|by left|by left; rewrite E|by left; rewrite E|by left|done].
    + eapply (prog_frame A); [exact Hp|reflexivity|by rewrite E|reflexivity..|by auto|rewrite E; by auto|rewrite E; by auto| |done].
      intros x _. right. rewrite P3 by (destruct (decide (cur (s_rcp A) = completed (s_rcp A))); [done|by destruct Hd]). set_solver.
  - eapply (prog_ctrl A); [exact Hp|reflexivity|by rewrite E|reflexivity..|apply s_take_cur|by left; rewrite E|by left; rewrite E|by right; rewrite E|done].
  - eapply (prog_ctrl A); [exact Hp|reflexivity|by rewrite E|reflexivity..|apply s_take_cur|by left; rewrite E|by left; rewrite E|by right; rewrite E|done].
  - eapply (prog_ctrl A); [exact Hp|reflexivity|by rewrite E|reflexivity..|apply s_take_cur|by left; rewrite E|by left; rewrite E|by right; rewrite E|done].
Qed.

(** ** The other events *)

Lemma prog_idle A g c p :
  prog_inv A g → s_pc A c = Idle → numbering p = false → reported p = None → (∀ k, p ≠ SBMask k) → prog_inv (s_goto c p A) g.
Proof.
  intros Hp E Hn Hr Hm. by (eapply (prog_ctrl A); [exact Hp|reflexivity|by rewrite E|reflexivity..|by left|by left; rewrite E|by left; rewrite E|by left|done]).
Qed.

Lemma prog_up A g c : control_inv A g → batch_inv A g → prog_inv A g → c ∉ live g → prog_inv (spec_up c A) (set_live ({[ c ]} ∪ live g) g).
Proof.
  intros Hci Hbi [P1 P2 P3 P4 P5 P6 P7] Hc. assert (Hp : s_pc A c = Idle).
  { apply (ci_idle _ _ Hci). intros Hin. by apply Hc, (ci_online _ _ Hci). }
  assert (Hpc : ∀ x, <[c := Idle]> (s_pc A) x = s_pc A x).
  { intros x. rewrite fn_insert_at. destruct (decide (x = c)) as [->|]; done. }
  constructor; simpl; try (setoid_rewrite Hpc); try done.
  - intros x. rewrite spec_up_list, fn_insert_at. destruct (decide (x = c)); [done|apply P1].
  - set_solver.
  - intros x Hx Hm. rewrite !fn_insert_at. destruct (decide (x = c)) as [->|]; [|apply P6; [set_solver|done]].
    destruct Hm as [Hm|(y & k & Hy)]; [by apply P5 in Hm|]. pose proof (bi_mask _ _ Hbi y k Hy). lia.
Qed.

Lemma prog_exec A g e stop : inv A g → prog_inv A g → s_allowed e A g → prog_inv (spec_exec e stop A).1 (ghost_exec e A g).
Proof.
  intros Hi Hp Ha. destruct Hi as [Hci Hbi _]. pose proof Hp as [P1 P2 P3 P4 P5 P6 P7]. destruct e; simpl.
  - constructor; try done. intros x. unfold s_list at 1; simpl. rewrite lookup_insert_ne by congruence. apply P1.
  - apply prog_idle; try done. by destruct Ha as (_ & ? & _).
  - apply prog_step; try done. by destruct Ha.
  - done.
  - unfold ghost_unlock. simpl. by case_decide.
  - apply prog_up; try done. by destruct Ha.
  - done.
  - done.
  - assert (prog_inv (s_goto d (OLock c) A) g) as [] by (apply prog_idle; try done; by destruct Ha as (_ & _ & ? & _)).
    by constructor.
Qed.
