(* ===== verification/RcuProps.v ===== *)
(** * Read-copy-update: what the code guarantees

    From the state in which no CPU is up, whatever the CPUs do in whatever order
    ([reachable]): no callback runs before the readers it waits for are gone,
    each CPU's callbacks run in the order they were queued and none is lost,
    and the work that is left is always noticed. *)

From stdpp Require Import functions.
From S2P Require Import Prelude Rcu RcuList RcuSpec RcuSim RcuInv RcuWorld RcuProg.
Open Scope xen_scope.

(** ** Reachable states *)

Definition rcu_boot : rcu_world :=
  (mk_machine ∅ ∅ rcu_ctrlblk_init ∅ ∅ ∅, mk_ghost (λ _, O) (λ _, ∅) ∅ None).

Inductive runs : rcu_world → list event → rcu_world → Prop :=
| runs_nil w : runs w [] w
| runs_cons w e w' ran es w'' : allowed e w → exec e w = Ok (w', ran) → runs w' es w'' → runs w (e :: es) w''.

Definition reachable (w : rcu_world) : Prop := ∃ es, runs rcu_boot es w.

#[export] Instance after_eq_dec : EqDecision after.
Proof. solve_decision. Defined.

#[export] Instance pc_eq_dec : EqDecision pc.
Proof. solve_decision. Defined.

#[export] Instance allowed_dec e w : Decision (allowed e w).
Proof.
  destruct w as [m g]. destruct e; simpl; try apply _.
  assert (Decision (∀ d x, leaving g = Some (d, x) → c ≠ x)); [|apply _].
  destruct (leaving g) as [[d x]|]; [|left; done]. destruct (decide (c = x)) as [->|Hne]; [right|left].
  - intros H. by apply (H d x).
  - by intros ?? [= <- <-].
Defined.

(** Executing events one after the other. *)
Fixpoint play (es : list event) (w : rcu_world) : option rcu_world :=
  match es with
  | [] => Some w
  | e :: es => if decide (allowed e w) then match exec e w with Ok (w', _) => play es w' | Bug => None end else None
  end.

Definition played (es : list event) (w : rcu_world) : rcu_world := default w (play es w).

Lemma play_runs es w w' : play es w = Some w' → runs w es w'.
Proof.
  revert w. induction es as [|e es IH]; intros w; simpl; [intros [= ->]; constructor|].
  case_decide; [|done]. destruct (exec e w) as [[w1 ran]|] eqn:E; [|done]. intros Hp. econstructor; eauto.
Qed.

Lemma played_runs es w : is_Some (play es w) → runs w es (played es w).
Proof. unfold played. intros [w' E]. rewrite E. by apply play_runs. Qed.

(** What is known of a reachable state. *)
Definition sound (w : rcu_world) (A : spec) : Prop :=
  sim (live w.2) w.1 A ∧ inv A w.2 ∧ prog_inv A w.2.

Definition spec_boot : spec := mk_spec rcu_ctrlblk_init ∅ (λ _, Idle) (λ _, 0) (λ _, 0) (λ _, 0) ∅.

Lemma boot_sound : sound rcu_boot spec_boot.
Proof.
  assert (Hl : ∀ c k, s_list spec_boot c k = []) by done. split_and!.
  - constructor; try done.
    + split; [done|]. split_and!; try done. intros h. split; [by intros []|]. by intros (i & l & ? & _).
    + intros c h n. by intros [? | ?].
  - split.
    + constructor; try done. intros c k. split; [by intros []|]. by intros [?%elem_of_empty _].
    + by constructor.
    + constructor; try done; intros c h; rewrite Hl; intros; by destruct (not_elem_of_nil (A:=Z) h).
  - constructor; try done; simpl; intros *; try set_solver.
Qed.

Lemma exec_sound w A e :
  sound w A → allowed e w →
  ∃ stop w' ran, exec e w = Ok (w', ran) ∧ s_allowed e A w.2 ∧ w'.2 = ghost_exec e A w.2 ∧
    sound w' (spec_exec e stop A).1 ∧ fst <$> ran = (spec_exec e stop A).2.
Proof.
  destruct w as [m g]. intros (Hs & Hi & Hp) Ha. destruct (exec_sim m A g e Hs Hi Ha) as (Hsa & stop & m' & ran & He & Hs' & Er).
  eexists stop, _, ran. split_and!; [exact He|done|done| |done]. split_and!; [done|by apply exec_inv|by apply prog_exec].
Qed.

Lemma runs_sound w es w' A : sound w A → runs w es w' → ∃ A', sound w' A'.
Proof.
  intros HA Hr. revert A HA. induction Hr as [|w e w1 ran es w2 Ha He _ IH]; intros A HA; [eauto|].
  destruct (exec_sound w A e HA Ha) as (stop & w' & ran' & He' & _ & _ & Hs & _).
  rewrite He in He'. injection He' as <- <-. by eapply IH.
Qed.

Lemma reachable_sound w : reachable w → ∃ A, sound w A.
Proof. intros [es Hr]. exact (runs_sound rcu_boot es w _ boot_sound Hr). Qed.

(** ** Queues *)

Fixpoint walk (fuel : nat) (hs : gmap Z rcu_head) (p : Z) : list Z :=
  match fuel with
  | O => []
  | S fuel => match hs !! p with Some x => p :: walk fuel hs (next x) | None => [] end
  end.

(** The callbacks in the list [k] of CPU [c]; a list that [rcu_offline_cpu] has
    taken is no more [c]'s. *)
Definition rcu_list (w : rcu_world) (c : Z) (k : kind) : list Z :=
  let '(m, g) := w in
  let taken := match leaving g with Some (d, x) => bool_decide (c = x) && moved (pc_of m d) k | None => false end in
  match rcu_data_of m !! c with
  | Some d => if bool_decide (c ∈ live g) && negb taken then walk (size (heads m)) (heads m) (ptr_of k d) else []
  | None => []
  end.

(** All callbacks of [c], in the order in which they are due. *)
Definition rcu_queue (w : rcu_world) (c : Z) : list Z := rcu_list w c Done ++ rcu_list w c Cur ++ rcu_list w c Nxt.

Definition s_queue (A : spec) (c : Z) : list Z := s_list A c Done ++ s_list A c Cur ++ s_list A c Nxt.

Lemma walk_chain hs fuel p l : hs !! 0 = None → chain hs p l → (length l ≤ fuel)%nat → walk fuel hs p = l.
Proof.
  intros H0. revert p l. induction fuel as [|n IH]; intros p l Hc Hl; [by destruct l; [|simpl in Hl; lia]|].
  destruct l as [|h l]; simpl in *; [subst p; by rewrite H0|]. destruct Hc as (-> & _ & x & Hx & Hc). rewrite Hx. f_equal. apply IH; [done|lia].
Qed.

Lemma chain_nonzero hs p l : chain hs p l → 0 ∉ l.
Proof.
  revert p. induction l as [|h l IH]; intros p Hc; [apply not_elem_of_nil|]. destruct Hc as (_ & Hn & x & _ & Hc).
  apply not_elem_of_cons. split; [congruence|by eapply IH].
Qed.

Lemma sim_null live m A : sim live m A → heads m !! 0 = None.
Proof.
  intros H. destruct (sim_rep _ _ _ H) as [Hseg (_ & _ & Hdom)]. destruct (heads m !! 0) eqn:E; [|done]. exfalso.
  destruct (Hdom 0) as [Hd _]. destruct Hd as ([c k] & l & Hl & Hin); [by eauto|].
  destruct (Hseg c k l Hl) as (d & _ & Hc & _). by apply (chain_nonzero _ _ _ Hc).
Qed.

Lemma placed_length hs S i l : placed hs S → S !! i = Some l → (length l ≤ size hs)%nat.
Proof.
  intros (Hnd & _ & Hdom) Hl. rewrite <- (size_list_to_set (C:=gset Z) l) by by eapply Hnd.
  rewrite <- (size_dom (D:=gset Z)). apply subseteq_size. intros h Hh%elem_of_list_to_set.
  apply elem_of_dom, Hdom. eauto.
Qed.

Lemma rcu_list_spec m g A c k : sound (m, g) A → rcu_list (m, g) c k = s_list A c k.
Proof.
  intros (Hs & [Hci _ _] & _). simpl in *. unfold rcu_list, s_list.
  pose proof (ci_lists _ _ Hci c k) as Hk. destruct (s_lists A !! (c, k)) as [l|] eqn:E; simpl.
  - destruct Hk as [Hk _]. destruct Hk as [Hl Ht]; [by eauto|].
    destruct (rep_chain _ _ _ _ _ (sim_rep _ _ _ Hs) E) as (d & -> & Hch & _). rewrite bool_decide_true by done. simpl.
    assert (Hw : walk (size (heads m)) (heads m) (ptr_of k d) = l).
    { apply walk_chain; [by eapply sim_null|done|]. eapply placed_length; [|exact E]. apply (sim_rep _ _ _ Hs). }
    destruct (leaving g) as [[d' x]|]; [|done]. destruct (decide (c = x)) as [->|].
    + by rewrite (sim_pc _ _ _ Hs), Ht, andb_false_r.
    + by rewrite bool_decide_false by done.
  - destruct (rcu_data_of m !! c); [|done]. destruct (bool_decide_reflect (c ∈ live g)) as [Hl|]; [simpl|done].
    destruct Hk as [_ Hk]. destruct (leaving g) as [[d' x]|]; [|destruct Hk; done].
    destruct (decide (c = x)) as [->|]; [|destruct Hk; done]. rewrite bool_decide_true by done. simpl.
    rewrite (sim_pc _ _ _ Hs). destruct (moved (s_pc A d') k); [done|destruct Hk; done].
Qed.

Lemma rcu_queue_spec m g A c : sound (m, g) A → rcu_queue (m, g) c = s_queue A c.
Proof. intros H. unfold rcu_queue, s_queue. by rewrite !(rcu_list_spec m g A). Qed.

Definition same_queues (A A' : spec) (P : Z → Prop) : Prop := ∀ x, P x → s_queue A' x = s_queue A x.

Lemma take_queue A c x k :
  x ≠ c → (match k with Done => True | Cur => s_list A x Done = [] | Nxt => s_list A x Done = [] ∧ s_list A x Cur = [] end) →
  let A' := s_take c x k A in
  (∃ l, s_queue A' c = s_queue A c ++ l ∧ s_queue A x = l ++ s_queue A' x) ∧ same_queues A A' (λ y, y ≠ c ∧ y ≠ x).
Proof.
  intros Hne Hk A'.
  assert (Hl : ∀ y k', s_list A' y k' = if decide ((y, k') = (c, Nxt)) then s_list A c Nxt ++ s_list A x k
    else if decide ((y, k') = (x, k)) then [] else s_list A y k').
  { intros y k'. unfold A', s_take, s_list; simpl. case_decide as E1; [simplify_eq; by rewrite lookup_insert_eq|].
    rewrite lookup_insert_ne by congruence. case_decide as E2; [simplify_eq; by rewrite lookup_delete_eq|].
    by rewrite lookup_delete_ne by congruence. }
  split; [exists (s_list A x k)|intros y [? ?]]; unfold s_queue; rewrite !Hl.
  - destruct k; repeat (case_decide; try congruence); [destruct Hk as [-> ->]|rewrite Hk|];
      by rewrite ?app_nil_r, ?app_nil_l, ?app_assoc.
  - by repeat (case_decide; [congruence|]).
Qed.

Lemma default_insert (S : lists) i j l :
  default [] (<[i := l]> S !! j) = if decide (i = j) then l else default [] (S !! j).
Proof. destruct (decide (i = j)) as [->|]; [by rewrite lookup_insert_eq|by rewrite lookup_insert_ne]. Qed.

(** What a step does to the queues. *)
Lemma queue_step A g c stop :
  control_inv A g → s_pc A c ≠ Idle →
  let A' := (spec_step c stop A).1 in
  match (spec_step c stop A).2, off (s_pc A c) with
  | Some h, _ => s_queue A c = h :: s_queue A' c ∧ same_queues A A' (λ x, x ≠ c)
  | None, None => same_queues A A' (λ _, True)
  | None, Some x => (∃ l, s_queue A' c = s_queue A c ++ l ∧ s_queue A x = l ++ s_queue A' x) ∧
      same_queues A A' (λ y, y ≠ c ∧ y ≠ x)
  end.
Proof.
  intros Hci Hc. unfold spec_step.
  assert (Hoff : ∀ x, off (s_pc A c) = Some x → x ≠ c ∧ ∀ k, moved (s_pc A c) k = true → s_list A x k = []).
  { intros x E. pose proof (ci_off _ _ Hci c) as Ho. rewrite E in Ho. destruct (leaving g) as [[d y]|] eqn:Eg; [|done].
    case_decide; [|done]. injection Ho as <-. subst d. destruct (ci_leaving _ _ Hci c x Eg) as (Hco & _ & Hxo).
    split; [by intros ->|]. intros k Hk. unfold s_list. destruct (s_lists A !! (x, k)) eqn:El; [|done]. exfalso.
    destruct (ci_lists _ _ Hci x k) as [Hi _]. destruct Hi as [_ Hi]; [by eauto|]. rewrite Eg, decide_True in Hi by done. congruence. }
  assert (Hid : ∀ A' x, s_lists A' = s_lists A → s_queue A' x = s_queue A x).
  { intros A' x E. unfold s_queue, s_list. by rewrite E. }
  assert (Hsame : ∀ A' P, s_lists A' = s_lists A → same_queues A A' P) by (intros A' P E x _; by apply Hid).
  assert (Hnil : ∀ A' x, s_lists A' = s_lists A → (∃ l, s_queue A' c = s_queue A c ++ l ∧ s_queue A x = l ++ s_queue A' x) ∧
    same_queues A A' (λ y, y ≠ c ∧ y ≠ x)).
  { intros A' x E. split; [|by apply Hsame]. exists []. by rewrite !(Hid A'), app_nil_r. }
  destruct (s_pc A c) eqn:E; cbn [fst snd off]; try (destruct k; cbn [fst snd off off_after]).
  all: try (repeat case_decide; unfold s_lock; try destruct (lock (s_rcp A)) eqn:El; try destruct stop; try done;
    first [by apply Hsame|by apply Hnil]).
  - case_decide; [|by apply Hsame]. intros x _. unfold s_queue, s_list; simpl. rewrite !default_insert.
    repeat (case_decide; simplify_eq); try done. by rewrite <- app_assoc.
  - case_decide as Hd; [|by apply Hsame]. intros x _. destruct Hd as [_ Hd]. unfold s_queue, s_list in *; simpl. rewrite !default_insert.
    repeat (case_decide; simplify_eq); try done. by rewrite Hd, app_nil_r.
  - destruct (s_list A c Done) as [|h l] eqn:El; cbn [fst snd]; [by apply Hsame|]. split; [|intros x Hx];
      unfold s_queue, s_list in *; simpl; rewrite !default_insert, ?El; repeat (case_decide; simplify_eq); done.
  - destruct (Hoff cpu eq_refl) as [Hne _]. by apply (take_queue A c cpu Done).
  - destruct (Hoff cpu eq_refl) as [Hne Hm]. apply (take_queue A c cpu Cur); [done|by apply Hm].
  - destruct (Hoff cpu eq_refl) as [Hne Hm]. apply (take_queue A c cpu Nxt); [done|]. split; by apply Hm.
Qed.

(** ** The functions of the callbacks *)

Definition funcs (m : rcu_machine) : gmap Z Z := func <$> heads m.

Lemma deref_inv {A B} (o : option A) (k : A → outcome B) b : deref o k = Ok b → ∃ a, o = Some a ∧ k a = Ok b.
Proof. destruct o; simpl; [eauto|done]. Qed.

Lemma upd_rdp_funcs c f m m' : upd_rdp c f m = Ok m' → funcs m' = funcs m.
Proof. unfold upd_rdp, get_rdp, deref. destruct (rcu_data_of m !! c); [|done]. by intros [= <-]. Qed.

Lemma store_funcs p v m m' : store p v m = Ok m' → funcs m' = funcs m.
Proof.
  destruct p; simpl; try apply upd_rdp_funcs. intros (x & Hx & [= <-])%deref_inv. unfold funcs; simpl.
  rewrite fmap_insert. simpl. apply insert_id. by rewrite lookup_fmap, Hx.
Qed.

Ltac undo :=
  repeat match goal with
  | H : mbind _ _ = Ok _ |- _ => apply Ok_bind_inv in H as (? & ? & H)
  | H : (if ?b then _ else _) = Ok _ |- _ => destruct b
  | H : Ok _ = Ok _ |- _ => injection H; clear H; intros; subst
  | H : upd_rdp _ _ _ = Ok _ |- _ => apply upd_rdp_funcs in H
  | H : store _ _ _ = Ok _ |- _ => apply store_funcs in H
  | p : _ * _ |- _ => destruct p
  end.

Lemma call_rcu_funcs c h f m m' : call_rcu c h f m = Ok m' → funcs m' = <[h := f]> (funcs m).
Proof.
  unfold call_rcu, force_quiescent_state. intros H. undo; unfold funcs in *; simpl in *; rewrite ?fmap_insert in *; simpl in *; congruence.
Qed.

Lemma rcu_step_funcs c m m' ran :
  rcu_step c m = Ok (m', ran) →
  match ran with
  | Some (h, f) => funcs m !! h = Some f ∧ funcs m' = delete h (funcs m)
  | None => funcs m' = funcs m
  end.
Proof.
  unfold rcu_step, silent, finish_curlist, take_nxtlist, number_batch, check_next_pending, take_lock, mark_next_pending, rcu_start_batch_check,
    check_quiescbatch, note_batch, check_in_sync, cpu_quiet_clear, start_invoking, count_one, end_batch, offline_check, rcu_move_batch, offline_qlen.
  destruct (default Idle (pcs m !! c)); intros H; undo; try (unfold funcs in *; simpl in *; congruence).
  all: try (repeat (case_decide || case_match); reflexivity).
  unfold invoke_one in H. destruct (list =? 0); [by undo|]. apply deref_inv in H as (x & Hx & H). undo.
  match goal with H : funcs _ = funcs _ |- _ => unfold funcs in *; simpl in *; rewrite ?fmap_delete, H end.
  by rewrite lookup_fmap, Hx.
Qed.

(** ** Theorems *)

Lemma exec_waiting w A e w' ran h x :
  sound w A → allowed e w → exec e w = Ok (w', ran) → (∀ c f, e ≠ ECall c h f) → x ∈ waiting w.2 h →
  x ∈ waiting w'.2 h ∨ nest w'.2 x = O.
Proof.
  intros Hs Ha He Hne Hx. destruct (exec_sound w A e Hs Ha) as (stop & w1 & ran1 & He1 & _ & Eg & _).
  rewrite He in He1. injection He1 as <- <-. rewrite Eg. destruct e; simpl; try by left.
  - rewrite fn_insert_at, decide_False; [by left|]. intros ->. by eapply Hne.
  - destruct (s_pc A c); by left.
  - unfold ghost_unlock; simpl. case_decide as Hd; simpl; [|by left]. destruct (decide (x = c)) as [->|]; [by right|left]. set_solver.
Qed.

Lemma runs_waiting w es w' A h x :
  sound w A → runs w es w' → (∀ c f, ECall c h f ∉ es) → x ∈ waiting w.2 h → x ∉ waiting w'.2 h →
  ∃ es1 es2 w1, es = es1 ++ es2 ∧ runs w es1 w1 ∧ runs w1 es2 w' ∧ nest w1.2 x = O.
Proof.
  intros HA Hr. revert A HA. induction Hr as [|w e w1 ran es w2 Ha He Hr IH]; intros A HA Hn Hx Hx'; [done|].
  destruct (exec_waiting w A e w1 ran h x) as [Hw|Hz]; try done.
  { intros c f ->. apply (Hn c f). by left. }
  - destruct (exec_sound w A e HA Ha) as (stop & w' & ran' & He' & _ & _ & Hs & _). rewrite He in He'. injection He' as <- <-.
    destruct (IH _ Hs) as (es1 & es2 & w3 & -> & H1 & H2 & H3); [|done|done|].
    { intros c f Hin. apply (Hn c f). by right. }
    exists (e :: es1), es2, w3. split_and!; [done| |done|done]. by econstructor.
  - exists [e], es, w1. split_and!; [done| |done|done]. econstructor; [done|done|constructor].
Qed.

Lemma step_ran A g c stop h : inv A g → (spec_step c stop A).2 = Some h → waiting g h = ∅.
Proof.
  intros Hi. unfold spec_step. destruct (s_pc A c); try done. destruct (s_list A c Done) as [|h' l] eqn:E; [done|].
  intros [= <-]. eapply (si_done _ _ (inv_safe _ _ Hi) c). rewrite E. by left.
Qed.

(** C2: the grace period. Between the [call_rcu] that queues a callback and the
    step that runs it, every CPU that was in a read-side critical section when
    it was queued has left all its sections: the structure the callback frees
    is reachable by no reader. This holds for every interleaving of the CPUs'
    steps, of readers, and of CPUs coming and going. *)
Theorem rcu_grace_period w0 c h f w1 es w2 d w3 f' x :
  reachable w0 → allowed (ECall c h f) w0 → exec (ECall c h f) w0 = Ok (w1, None) →
  runs w1 es w2 → (∀ c' f'', ECall c' h f'' ∉ es) →
  allowed (EStep d) w2 → exec (EStep d) w2 = Ok (w3, Some (h, f')) →
  nest w0.2 x ≠ O →
  ∃ es1 es2 w, es = es1 ++ es2 ∧ runs w1 es1 w ∧ runs w es2 w2 ∧ nest w.2 x = O.
Proof.
  intros H0 Ha He Hr Hn Hd Hed Hx. destruct (reachable_sound w0 H0) as (A & HA).
  destruct (exec_sound w0 A _ HA Ha) as (stop & w1' & ran & He' & _ & Eg & HA1 & _). rewrite He in He'. injection He' as <- <-.
  destruct (runs_sound _ _ _ _ HA1 Hr) as (A2 & HA2).
  eapply (runs_waiting w1 es w2 _ h x HA1 Hr Hn).
  - rewrite Eg. simpl. rewrite fn_lookup_insert. unfold readers. apply elem_of_filter. split; [done|].
    by apply (ci_nest _ _ (inv_control _ _ (proj1 (proj2 HA)))).
  - destruct (exec_sound w2 A2 _ HA2 Hd) as (stop2 & w3' & ran2 & He2 & _ & _ & _ & Er). rewrite Hed in He2. injection He2 as <- <-.
    symmetry in Er. rewrite (step_ran A2 w2.2 d stop2 h); [set_solver|apply HA2|done].
Qed.

(** Two CPUs are up; CPU 1 is in a read-side section when CPU 0 queues a
    callback, and leaves it before it first runs the softirq. *)
Definition two_cpus : list event := [EUp 0; EOnline 0; EUp 1; EOnline 1].
Definition softirq (c : Z) (n : nat) : list event := ESoftirq c :: replicate n (EStep c).
Definition grace : list event :=
  softirq 0 13 ++ [EUnlock 1] ++ softirq 1 5 ++ softirq 0 8 ++ softirq 1 10 ++ softirq 0 4.

Definition before_call : rcu_world := played (two_cpus ++ [ELock 1]) rcu_boot.
Definition after_call : rcu_world := played [ECall 0 8 7] before_call.
Definition before_run : rcu_world := played grace after_call.
Definition after_run : rcu_world := played [EStep 0] before_run.

Lemma rcu_grace_period_witness :
  ∃ es1 es2 w, grace = es1 ++ es2 ∧ runs after_call es1 w ∧ runs w es2 before_run ∧ nest w.2 1 = O.
Proof.
  apply (rcu_grace_period before_call 0 8 7 after_call grace before_run 0 after_run 7 1).
  - exists (two_cpus ++ [ELock 1]). apply played_runs. vm_compute. eauto.
  - refine (bool_decide_unpack _ _). vm_compute. exact I.
  - vm_compute. reflexivity.
  - apply played_runs. vm_compute. eauto.
  - intros c f. cbv [grace softirq replicate app]. repeat (apply not_elem_of_cons; split; [discriminate|]). apply not_elem_of_nil.
  - refine (bool_decide_unpack _ _). vm_compute. exact I.
  - vm_compute. reflexivity.
  - vm_compute. discriminate.
Defined.

(** What an event does to the queues: queueing appends, running takes the first;
    a CPU that takes over appends the front of the other's queue to its own. *)
Definition fifo (e : event) (ran : option (Z * Z)) (w w' : rcu_world) : Prop :=
  let same P := ∀ x, P x → rcu_queue w' x = rcu_queue w x in
  match e, ran with
  | ECall c h _, _ => rcu_queue w' c = rcu_queue w c ++ [h] ∧ same (λ x, x ≠ c)
  | EStep c, Some (h, _) => rcu_queue w c = h :: rcu_queue w' c ∧ same (λ x, x ≠ c)
  | EStep c, None =>
      match off (pc_of w.1 c) with
      | Some x => (∃ l, rcu_queue w' c = rcu_queue w c ++ l ∧ rcu_queue w x = l ++ rcu_queue w' x) ∧ same (λ y, y ≠ c ∧ y ≠ x)
      | None => same (λ _, True)
      end
  | _, _ => same (λ _, True)
  end.

(** Only queueing adds a callback and only running it removes it, with the
    function it was queued with. *)
Definition kept (e : event) (ran : option (Z * Z)) (m m' : rcu_machine) : Prop :=
  match e, ran with
  | ECall _ h f, _ => funcs m' = <[h := f]> (funcs m)
  | _, Some (h, f) => funcs m !! h = Some f ∧ funcs m' = delete h (funcs m)
  | _, None => funcs m' = funcs m
  end.

Lemma exec_kept e w w' ran : exec e w = Ok (w', ran) → kept e ran w.1 w'.1.
Proof.
  destruct w as [m g]. destruct e; simpl; intros H; undo; try done.
  - by eapply call_rcu_funcs.
  - by eapply rcu_step_funcs.
Qed.

Lemma queue_placed w A : sound w A →
  (∀ c, NoDup (rcu_queue w c)) ∧ (∀ c c' h, h ∈ rcu_queue w c → h ∈ rcu_queue w c' → c = c') ∧
  (∀ h, is_Some (heads w.1 !! h) ↔ ∃ c, h ∈ rcu_queue w c).
Proof.
  destruct w as [m g]. intros HA. destruct (sim_rep _ _ _ (proj1 HA)) as [_ (Hnd & Hu & Hdom)]. simpl in *.
  assert (Hl : ∀ c k h, h ∈ s_list A c k → s_lists A !! (c, k) = Some (s_list A c k)).
  { intros c k h. unfold s_list. destruct (s_lists A !! (c, k)); [done|]. intros Hin. by apply elem_of_nil in Hin. }
  assert (Hn : ∀ c k, NoDup (s_list A c k)).
  { intros c k. unfold s_list. destruct (s_lists A !! (c, k)) eqn:E; [by eapply Hnd|constructor]. }
  assert (Hk : ∀ c k c' k' h, h ∈ s_list A c k → h ∈ s_list A c' k' → (c, k) = (c', k')).
  { intros c k c' k' h H1 H2. eapply Hu; [by eapply Hl|by eapply Hl|done|done]. }
  assert (Hq : ∀ c h, h ∈ s_queue A c ↔ ∃ k, h ∈ s_list A c k).
  { intros c h. unfold s_queue. rewrite !elem_of_app. split; [intros [?|[?|?]]; eauto|]. intros [[] ?]; auto. }
  setoid_rewrite (rcu_queue_spec m g A); [|done..]. split_and!.
  - intros c. unfold s_queue. apply NoDup_app. split; [done|]. split; [|apply NoDup_app; split; [done|]; split; [|done]].
    + intros h H1 [H2|H2]%elem_of_app; by specialize (Hk _ _ _ _ _ H1 H2).
    + intros h H1 H2; by specialize (Hk _ _ _ _ _ H1 H2).
  - intros c c' h. rewrite !Hq. intros [k H1] [k' H2]. by specialize (Hk _ _ _ _ _ H1 H2) as [= ->].
  - intros h. rewrite Hdom. split.
    + intros ([c k] & l & E & Hin). exists c. apply Hq. exists k. unfold s_list. by rewrite E.
    + intros (c & (k & Hin)%Hq). eauto.
Qed.

Lemma exec_fifo w A e stop w' ran :
  sound w A → s_allowed e A w.2 → exec e w = Ok (w', ran) → sound w' (spec_exec e stop A).1 →
  fst <$> ran = (spec_exec e stop A).2 → fifo e ran w w'.
Proof.
  destruct w as [m g], w' as [m' g']. intros HA Hs He HA' Er. unfold fifo.
  assert (Hq : ∀ x, rcu_queue (m, g) x = s_queue A x) by (intros x; by apply rcu_queue_spec).
  assert (Hq' : ∀ x, rcu_queue (m', g') x = s_queue (spec_exec e stop A).1 x) by (intros x; by apply rcu_queue_spec).
  destruct e; simpl in Er; try (destruct ran; done); try (by intros x _; rewrite Hq, Hq').
  - rewrite Hq, Hq'. split; [|intros x Hx; rewrite Hq, Hq'].
    + unfold s_queue, s_list; simpl. rewrite !default_insert. repeat (case_decide; [congruence|] || case_decide); [|done].
      by rewrite !app_assoc.
    + unfold s_queue, s_list; simpl. rewrite !default_insert. by repeat (case_decide; [congruence|]).
  - pose proof (queue_step A g c stop (inv_control _ _ (proj1 (proj2 HA))) (proj1 Hs)) as Hst.
    cbn [spec_exec] in Hq'. rewrite <- Er in Hst. cbn [fst]. rewrite (sim_pc _ _ _ (proj1 HA)).
    destruct ran as [[h f]|]; simpl in Hst.
    + rewrite Hq, Hq'. destruct Hst as [? Hst]. split; [done|]. intros x Hx. rewrite Hq, Hq'. by apply Hst.
    + destruct (off (s_pc A c)) as [x|].
      * rewrite !Hq, !Hq'. destruct Hst as [? Hst]. split; [done|]. intros y Hy. rewrite Hq, Hq'. by apply Hst.
      * intros x Hx. rewrite Hq, Hq'. by apply Hst.
  - intros x _. rewrite Hq, Hq'. simpl. unfold s_queue. rewrite !spec_up_list. case_decide; [subst x|done].
    destruct Hs as [_ Hc]. assert (Hn : ∀ k, s_list A c k = []); [|by rewrite !Hn].
    intros k. unfold s_list. by rewrite (sim_live_off m A g) by (try apply HA; done).
Qed.

(** C3: the callbacks. Every event the rest of the hypervisor may cause is
    executed without a fault. The queues of the CPUs hold every callback queued
    and not yet run, each exactly once; each CPU's queue is first in, first out
    (taking over from a CPU that left keeps the order); a callback runs with
    the function it was queued with, and only running it removes it. *)
Theorem rcu_callbacks_kept w e :
  reachable w → allowed e w →
  ∃ w' ran, exec e w = Ok (w', ran) ∧ fifo e ran w w' ∧ kept e ran w.1 w'.1 ∧
    (∀ c, NoDup (rcu_queue w' c)) ∧ (∀ c c' h, h ∈ rcu_queue w' c → h ∈ rcu_queue w' c' → c = c') ∧
    (∀ h, is_Some (heads w'.1 !! h) ↔ ∃ c, h ∈ rcu_queue w' c).
Proof.
  intros Hr Ha. destruct (reachable_sound w Hr) as (A & HA).
  destruct (exec_sound w A e HA Ha) as (stop & w' & ran & He & Hs & _ & HA' & Er).
  exists w', ran. split; [done|]. split; [by eapply exec_fifo|]. split; [by apply exec_kept|by eapply queue_placed].
Qed.

Lemma rcu_callbacks_kept_witness :
  ∃ w' ran, exec (EStep 0) before_run = Ok (w', ran) ∧ fifo (EStep 0) ran before_run w' ∧ kept (EStep 0) ran before_run.1 w'.1 ∧
    (∀ c, NoDup (rcu_queue w' c)) ∧ (∀ c c' h, h ∈ rcu_queue w' c → h ∈ rcu_queue w' c' → c = c') ∧
    (∀ h, is_Some (heads w'.1 !! h) ↔ ∃ c, h ∈ rcu_queue w' c).
Proof.
  apply rcu_callbacks_kept.
  - exists (two_cpus ++ [ELock 1] ++ [ECall 0 8 7] ++ grace). apply play_runs. vm_compute. reflexivity.
  - refine (bool_decide_unpack _ _). vm_compute. exact I.
Defined.

(** ** No work is forgotten *)

Definition s_pending (A : spec) (c : Z) : bool :=
  (negb (bool_decide (s_list A c Cur = [])) && negb (rcu_batch_before (completed (s_rcp A)) (s_batch A c))) ||
  (bool_decide (s_list A c Cur = []) && negb (bool_decide (s_list A c Nxt = []))) ||
  negb (bool_decide (s_list A c Done = [])) ||
  (negb (s_quiesc A c =? cur (s_rcp A)) || negb (s_qs A c =? 0)).

Lemma ptr_empty live m A c d k :
  sim live m A → rcu_data_of m !! c = Some d → is_Some (s_lists A !! (c, k)) → (ptr_of k d =? 0) = bool_decide (s_list A c k = []).
Proof.
  intros Hs Hd Hl. apply s_list_eq in Hl. destruct (rep_chain _ _ _ _ _ (sim_rep _ _ _ Hs) Hl) as (d' & Hd' & Hch & _).
  rewrite Hd in Hd'. injection Hd' as <-. apply chain_empty in Hch. destruct (Z.eqb_spec (ptr_of k d) 0); symmetry; [apply bool_decide_true|apply bool_decide_false]; tauto.
Qed.

Lemma rcu_pending_spec m g A c : sound (m, g) A → c ∈ live g → leaving g = None → rcu_pending c m = Ok (s_pending A c).
Proof.
  intros HA Hc Hl. pose proof (proj1 HA) as Hs. simpl in Hs. destruct (sim_live _ _ _ Hs c Hc) as [d Hd].
  destruct (sim_data _ _ _ Hs c d Hd) as (Eq & Es & Eb & _).
  assert (Hk : ∀ k, (ptr_of k d =? 0) = bool_decide (s_list A c k = [])).
  { intros k. eapply ptr_empty; [done|done|]. apply (ci_lists _ _ (inv_control _ _ (proj1 (proj2 HA)))). simpl. by rewrite Hl. }
  unfold rcu_pending, get_rdp, deref. rewrite Hd. cbn [mbind outcome_bind]. f_equal. unfold __rcu_pending, s_pending.
  rewrite (Hk Cur : (curlist d =? 0) = _), (Hk Nxt : (nxtlist d =? 0) = _), (Hk Done : (donelist d =? 0) = _).
  by rewrite Eq, Es, Eb, (sim_rcp _ _ _ Hs).
Qed.

Lemma s_pending_false A c :
  s_pending A c = false →
  (s_list A c Cur ≠ [] → completed (s_rcp A) < s_batch A c) ∧ (s_list A c Cur = [] → s_list A c Nxt = []) ∧
  s_list A c Done = [] ∧ s_quiesc A c = cur (s_rcp A) ∧ s_qs A c = 0.
Proof.
  unfold s_pending, rcu_batch_before. intros (((H1 & H2)%orb_false_elim & H3)%orb_false_elim & (H4 & H5)%orb_false_elim)%orb_false_elim.
  apply negb_false_iff in H3, H4, H5. apply bool_decide_eq_true in H3. split_and!; [| |done|lia|lia].
  - intros Hne. rewrite (bool_decide_false _ Hne) in H1. simpl in H1. lia.
  - intros He. rewrite (bool_decide_true _ He) in H2. simpl in H2. apply negb_false_iff, bool_decide_eq_true in H2. done.
Qed.

(** Nothing is pending anywhere: nothing is queued. *)
Lemma nothing_pending A g :
  inv A g → prog_inv A g → (∀ c, c ∈ live g → s_pc A c = Idle ∧ s_pending A c = false) → leaving g = None →
  ∀ c k, s_list A c k = [].
Proof.
  intros [Hci Hbi _] [P1 P2 P3 P4 P5 P6 P7] Hn Hl.
  assert (Hidle : ∀ x, s_pc A x = Idle).
  { intros x. destruct (decide (x ∈ live g)); [by apply Hn|]. apply (ci_idle _ _ Hci). intros Hx. by apply (ci_online _ _ Hci) in Hx. }
  assert (Hmask : cpumask (s_rcp A) = ∅).
  { apply set_eq. intros x. split; [|set_solver]. intros Hx. exfalso. pose proof (P5 x Hx) as Hxl.
    destruct (Hn x Hxl) as [_ (_ & _ & _ & Hq & Hqs)%s_pending_false]. destruct (P6 x Hxl (or_introl Hx) Hq) as [?|Hqt]; [done|by rewrite Hidle in Hqt]. }
  assert (Hc : completed (s_rcp A) = cur (s_rcp A)).
  { destruct (decide (completed (s_rcp A) = cur (s_rcp A))); [done|]. destruct P4 as [?|(x & k & Hx)]; [done|done|].
    rewrite Hidle in Hx. by destruct Hx. }
  assert (Hcur : ∀ c, c ∈ live g → s_list A c Cur = []).
  { intros c Hcl. destruct (decide (s_list A c Cur = [])) as [|Hne]; [done|exfalso].
    destruct (Hn c Hcl) as [_ (Hb & _)%s_pending_false]. specialize (Hb Hne).
    assert (s_batch A c ≤ cur (s_rcp A) + 1) by (apply (bi_batch _ _ Hbi); [done|by rewrite Hidle]).
    assert (Hnp : next_pending (s_rcp A) ≠ 0).
    { destruct (P1 c) as [?|(x & k & Hx)]; [done|by rewrite Hidle|lia|done|by rewrite Hidle in Hx]. }
    destruct (P2 Hnp Hc) as (x & k & Hx). by rewrite Hidle in Hx. }
  intros c k. destruct (decide (c ∈ live g)) as [Hcl|Hcl].
  - destruct (Hn c Hcl) as [_ (_ & Hnx & Hd & _)%s_pending_false]. destruct k; auto.
  - unfold s_list. destruct (s_lists A !! (c, k)) eqn:E; [|done]. exfalso. apply Hcl. apply (ci_lists _ _ Hci c k). eauto.
Qed.
