(* ===== verification/RcuDrain.v ===== *)
(** * Read-copy-update: all callbacks run in the end

    Once the readers are gone and nothing new is queued, CPUs that have RCU work
    pending and run it, in any order, come to the end of all of it: each such
    run makes progress ([work] decreases), and when no CPU has work pending no
    callback is left. *)

From stdpp Require Import functions.
From S2P Require Import Prelude Rcu RcuList RcuSpec RcuSim RcuInv RcuWorld RcuProg RcuProps.
Open Scope xen_scope.

(** ** The measure *)

Definition lex {A B} (R : A → A → Prop) (T : B → B → Prop) (p q : A * B) : Prop :=
  R p.1 q.1 ∨ p.1 = q.1 ∧ T p.2 q.2.

Lemma lex_wf {A B} (R : A → A → Prop) (T : B → B → Prop) : well_founded R → well_founded T → well_founded (lex R T).
Proof.
  intros HR HT [a b]. revert b. induction (HR a) as [a _ IHa]. intros b. induction (HT b) as [b _ IHb].
  constructor. intros [a' b'] [Hlt|[Heq Hlt]]; simpl in *; [by apply IHa|]. subst a'. by apply IHb.
Qed.

Lemma lex_trans {A B} (R : A → A → Prop) (T : B → B → Prop) : Transitive R → Transitive T → Transitive (lex R T).
Proof. intros HR HT x y z [H1|[E1 H1]] [H2|[E2 H2]]; [left; by etrans|left; congruence|left; congruence|right; split; [congruence|by etrans]]. Qed.

(** Callbacks weigh the more the further they are from being run; a CPU that has
    still to register its batch counts too. *)
Definition weight (A : spec) (x : Z) : nat :=
  2 * (3 * length (s_list A x Nxt) + 2 * length (s_list A x Cur) + length (s_list A x Done)) +
  (if numbering (s_pc A x) then 1 else 0).

Definition starts (p : pc) : bool := match p with SBInc _ => true | _ => false end.

(** What a CPU still owes to the current batch. *)
Definition owing (A : spec) (x : Z) : nat :=
  if s_quiesc A x =? cur (s_rcp A) then if s_qs A x =? 0 then 0 else 1 else 2.

Definition work (L : list Z) (A : spec) : nat * (nat * nat) :=
  (sum_list_with (weight A) L,
   ((2 * if (next_pending (s_rcp A) =? 0)%Z then 0 else 1) + (if existsb (λ x, starts (s_pc A x)) L then 1 else 0),
    sum_list_with (owing A) L))%nat.

Definition less : nat * (nat * nat) → nat * (nat * nat) → Prop := lex lt (lex lt lt).

Lemma less_wf : well_founded less.
Proof. apply lex_wf; [|apply lex_wf]; apply lt_wf. Qed.

Lemma less_trans : Transitive less.
Proof. apply lex_trans; [|apply lex_trans]; intros ???; lia. Qed.

Lemma sum_eq (f f' : Z → nat) L : (∀ x, f' x = f x) → sum_list_with f' L = sum_list_with f L.
Proof. intros H. induction L; simpl; auto. Qed.

Lemma existsb_eq (f f' : Z → bool) L : (∀ x, f' x = f x) → existsb f' L = existsb f L.
Proof. intros H. induction L as [|x L IH]; simpl; [done|]. by rewrite H, IH. Qed.

Lemma sum_le (f f' : Z → nat) L : (∀ x, (f' x ≤ f x)%nat) → (sum_list_with f' L ≤ sum_list_with f L)%nat.
Proof. intros H. induction L as [|x L IH]; simpl; [done|]. specialize (H x). lia. Qed.

Lemma sum_lt (f f' : Z → nat) L c :
  c ∈ L → (∀ x, x ≠ c → f' x = f x) → (f' c < f c)%nat → (sum_list_with f' L < sum_list_with f L)%nat.
Proof.
  intros Hc Hx Hlt. assert (Hle : ∀ x, (f' x ≤ f x)%nat).
  { intros x. destruct (decide (x = c)) as [->|Hne]; [lia|by rewrite Hx]. }
  induction L as [|x L IH]; [by apply elem_of_nil in Hc|]. simpl. apply elem_of_cons in Hc as [<-|Hc].
  - pose proof (sum_le f f' L Hle). lia.
  - specialize (IH Hc). specialize (Hle x). lia.
Qed.

(** Where a CPU is on its way. *)
Definition stage (k : after) : nat := match k with InCallbacks => 21 | InQuiesce => 11 | InOffline _ => 31 end.

Definition rank (p : pc) : nat :=
  match p with
  | Idle => 0 | PDoneList => 30 | PNextList => 29 | PBatch => 28 | PPending => 27 | PLock => 26 | PSetPending => 25
  | SBCheck k => stage k + 3 | SBInc k => stage k + 2 | SBMask k => stage k + 1 | PUnlock k => stage k
  | PQuiesce => 20 | PNote => 19 | QLock => 18 | QCheck => 17 | CQClear _ k => stage k + 5 | CQComplete k => stage k + 4
  | PInvoke => 10 | BCount _ _ => 9 | BLoop _ _ => 8 | BEnd => 7
  | OLock _ | OCheck _ | OMoveDone _ | OMoveCur _ | OMoveNxt _ | OQlen _ => 0
  end.

(** The run will still do something. *)
Definition todo (A : spec) (c : Z) : Prop :=
  match s_pc A c with
  | PDoneList => s_pending A c = true
  | PNextList => s_list A c Cur = [] ∧ s_list A c Nxt ≠ [] ∨ s_list A c Done ≠ [] ∨ s_quiesc A c ≠ cur (s_rcp A) ∨ s_qs A c ≠ 0
  | PQuiesce => s_list A c Done ≠ [] ∨ s_quiesc A c ≠ cur (s_rcp A) ∨ s_qs A c ≠ 0
  | PNote => True
  | PInvoke | BLoop _ _ => s_list A c Done ≠ []
  | _ => False
  end.

(** A step of the only CPU that runs RCU code makes progress. *)
Definition advances (L : list Z) (c : Z) (A A' : spec) : Prop :=
  less (work L A') (work L A) ∨
  work L A' = work L A ∧ (rank (s_pc A' c) < rank (s_pc A c))%nat ∧ (todo A c → todo A' c).

Lemma weight_same A A' c p x :
  s_pc A' = <[c := p]> (s_pc A) → s_lists A' = s_lists A → numbering p = numbering (s_pc A c) → weight A' x = weight A x.
Proof.
  intros Ep El En. unfold weight, s_list. rewrite El, Ep, fn_insert_at. destruct (decide (x = c)) as [->|]; [by rewrite En|done].
Qed.

Lemma weight_step A A' L c p :
  c ∈ L → s_pc A' = <[c := p]> (s_pc A) → (∀ x k, x ≠ c → s_list A' x k = s_list A x k) →
  (weight A' c < weight A c)%nat → less (work L A') (work L A).
Proof.
  intros Hc Ep Hx Hlt. left. simpl. eapply sum_lt; [done| |done]. intros x Hne. unfold weight.
  rewrite !Hx, Ep by done. by rewrite fn_lookup_insert_ne by done.
Qed.

Lemma owing_step A A' L c p :
  c ∈ L → s_pc A' = <[c := p]> (s_pc A) → s_lists A' = s_lists A → numbering p = numbering (s_pc A c) → starts p = starts (s_pc A c) →
  s_rcp A' = s_rcp A → (∀ x, x ≠ c → owing A' x = owing A x) → (owing A' c < owing A c)%nat → less (work L A') (work L A).
Proof.
  intros Hc Ep El En Es Er Hx Hlt. right. split; [apply sum_eq; intros x; by eapply weight_same|]. right. simpl. rewrite Er. split.
  - erewrite existsb_eq; [done|]. intros x. simpl. rewrite Ep, fn_insert_at. destruct (decide (x = c)) as [->|]; done.
  - by eapply sum_lt.
Qed.

Lemma quiet_step A A' L c p :
  s_pc A' = <[c := p]> (s_pc A) → s_lists A' = s_lists A → numbering p = numbering (s_pc A c) → starts p = starts (s_pc A c) →
  next_pending (s_rcp A') = next_pending (s_rcp A) → cur (s_rcp A') = cur (s_rcp A) → s_quiesc A' = s_quiesc A → s_qs A' = s_qs A →
  (rank p < rank (s_pc A c))%nat → (todo A c → todo A' c) → advances L c A A'.
Proof.
  intros Ep El En Es Enp Ecur Eq Eqs Hr Ht. right. split_and!; [|by rewrite Ep, fn_lookup_insert|done].
  unfold work. f_equal; [apply sum_eq; intros x; by eapply weight_same|]. rewrite Enp. f_equal; [|apply sum_eq; intros x].
  - erewrite existsb_eq; [done|]. intros x. simpl. rewrite Ep, fn_insert_at. destruct (decide (x = c)) as [->|]; done.
  - unfold owing. by rewrite Eq, Eqs, Ecur.
Qed.

(** A batch begins. *)
Lemma start_step A A' L c k :
  c ∈ L → s_pc A' = <[c := SBInc k]> (s_pc A) → s_lists A' = s_lists A → s_pc A c = SBCheck k →
  next_pending (s_rcp A) ≠ 0 → next_pending (s_rcp A') = 0 → less (work L A') (work L A).
Proof.
  intros Hc Ep El E Hn Hn'. right. split; [apply sum_eq; intros x; eapply weight_same; [done|done|by rewrite E]|]. left. simpl.
  rewrite Hn', (proj2 (Z.eqb_neq _ _) Hn). simpl. repeat case_match; lia.
Qed.

Lemma inc_step A A' g L c k :
  control_inv A g → c ∈ L → s_pc A' = <[c := SBMask k]> (s_pc A) → s_lists A' = s_lists A → s_pc A c = SBInc k →
  next_pending (s_rcp A') = next_pending (s_rcp A) → less (work L A') (work L A).
Proof.
  intros Hci Hc Ep El E Hn. right. split; [apply sum_eq; intros x; eapply weight_same; [done|done|by rewrite E]|]. left. simpl.
  rewrite Hn. assert (existsb (λ x, starts (s_pc A x)) L = true) as ->.
  { apply existsb_exists. exists c. rewrite E. split; [by apply list_elem_of_In|done]. }
  assert (existsb (λ x, starts (s_pc A' x)) L = false) as ->; [|lia].
  apply not_true_is_false. intros (x & _ & Hx)%existsb_exists. rewrite Ep, fn_insert_at in Hx.
  destruct (decide (x = c)) as [->|Hne]; [done|]. apply Hne. apply (lock_unique A g x c Hci); [|by rewrite E]. by destruct (s_pc A x).
Qed.

Lemma pending_cases A c :
  s_pending A c = true →
  s_list A c Cur ≠ [] ∧ s_batch A c ≤ completed (s_rcp A) ∨
  s_list A c Cur = [] ∧ s_list A c Nxt ≠ [] ∨ s_list A c Done ≠ [] ∨ s_quiesc A c ≠ cur (s_rcp A) ∨ s_qs A c ≠ 0.
Proof.
  unfold s_pending, rcu_batch_before. rewrite !orb_true_iff, !andb_true_iff, !negb_true_iff, !bool_decide_eq_false, bool_decide_eq_true.
  rewrite Z.ltb_ge, !Z.eqb_neq. intros [[[[? ?]|?]|?]|?]; auto. left. split; [done|lia].
Qed.

Lemma length_pos {A} (l : list A) : l ≠ [] → (0 < length l)%nat.
Proof. destruct l; simpl; [done|lia]. Qed.



(** Steps that change only where the CPU is. *)
Ltac quiet E :=
  (eapply (quiet_step _); [reflexivity|reflexivity|rewrite E; reflexivity|rewrite E; reflexivity|reflexivity..| |]);
  unfold todo; simpl; rewrite ?fn_lookup_insert, E; simpl; first [done|lia|idtac].

Ltac other_lists :=
  let x := fresh in let k := fresh in let H := fresh in
  intros x k H; unfold s_list; simpl; rewrite ?default_insert; repeat (case_decide; [congruence|]); done.

Lemma advance_step A g c stop L :
  control_inv A g → c ∈ L → s_pc A c ≠ Idle → off (s_pc A c) = None → (∀ x, x ≠ c → s_pc A x = Idle) →
  (s_pc A c = PNote → s_quiesc A c ≠ cur (s_rcp A)) →
  advances L c A (spec_step c stop A).1.
Proof.
  intros Hci Hc Hi Ho Hal Hnote.
  assert (Hlock : holds (s_pc A c) = false → lock (s_rcp A) = None).
  { intros Hh. destruct (lock (s_rcp A)) as [y|] eqn:El; [|done]. exfalso. pose proof (ci_lock _ _ Hci y) as Hy.
    rewrite El, bool_decide_true in Hy by done. destruct (decide (y = c)) as [->|Hne]; [congruence|]. by rewrite (Hal y Hne) in Hy. }
  unfold spec_step. destruct (s_pc A c) eqn:E; try done; cbn [fst].
  all: try (repeat case_decide; unfold s_lock; rewrite ?Hlock by done; try destruct stop;
    quiet E; fail).
  - case_decide as Hd.
    + left. eapply weight_step; [exact Hc|reflexivity|other_lists|]. destruct Hd as [Hd%length_pos _].
      unfold weight; simpl. rewrite fn_lookup_insert, E. unfold s_list in *; simpl. rewrite !default_insert.
      repeat (case_decide; simplify_eq). rewrite length_app. simpl. lia.
    + quiet E. intros [?|?]%pending_cases; done.
  - case_decide as Hd.
    + left. eapply weight_step; [exact Hc|reflexivity|other_lists|]. destruct Hd as [Hd%length_pos Hd0].
      unfold weight; simpl. rewrite fn_lookup_insert, E. unfold s_list in *; simpl. rewrite !default_insert.
      repeat (case_decide; simplify_eq). rewrite Hd0. simpl. lia.
    + quiet E. intros [?|?]; [|done]. naive_solver.
  - case_decide as Hd; [by quiet E|]. left. eapply weight_step; [exact Hc|reflexivity|done|].
    unfold weight; simpl. rewrite fn_lookup_insert, E. simpl. unfold s_list; simpl. lia.
  - left. eapply weight_step; [exact Hc|reflexivity|done|].
    unfold weight; simpl. rewrite fn_lookup_insert, E. simpl. unfold s_list; simpl. lia.
  - case_decide as Hd; [|by quiet E]. left. destruct Hd. by eapply start_step.
  - left. by eapply (inc_step A _ g).
  - destruct k; [by quiet E..|done].
  - case_decide as Hq; [by quiet E|]. case_decide as Hs; [quiet E; naive_solver|]. left.
    eapply owing_step; [exact Hc|reflexivity|done|by rewrite E|by rewrite E|done| |]; unfold owing; simpl.
    + intros x Hx. by rewrite !fn_lookup_insert_ne.
    + rewrite !fn_lookup_insert, Hq, Z.eqb_refl, (proj2 (Z.eqb_neq _ _) Hs). simpl. lia.
  - left. eapply owing_step; [exact Hc|reflexivity|done|by rewrite E|by rewrite E|done| |]; unfold owing; simpl.
    + intros x Hx. by rewrite !fn_lookup_insert_ne.
    + rewrite !fn_lookup_insert, Z.eqb_refl, (proj2 (Z.eqb_neq _ _) (Hnote eq_refl)). simpl. lia.
  - destruct (s_list A c Done) as [|h l] eqn:El; [by quiet E; rewrite El|].
    left. cbn [fst]. eapply weight_step; [exact Hc|reflexivity|other_lists|].
    unfold weight; simpl. rewrite fn_lookup_insert, E, El. unfold s_list; simpl. rewrite !default_insert.
    repeat (case_decide; simplify_eq). simpl. lia.
Qed.

(** ** A run of the softirq *)

(** Only CPU [c] runs RCU code, and no CPU is being taken over. *)
Record alone (c : Z) (A : spec) (g : ghost) : Prop := {
  al_online : c ∈ s_online A;
  al_idle : ∀ x, x ≠ c → s_pc A x = Idle;
  al_leaving : leaving g = None;
  al_nest : nest g c = O;
  al_note : s_pc A c = PNote → s_quiesc A c ≠ cur (s_rcp A);
}.

Lemma step_pc A c stop x : x ≠ c → s_pc (spec_step c stop A).1 x = s_pc A x.
Proof.
  intros Hx. unfold spec_step, s_lock. destruct (s_pc A c); cbn [fst]; repeat (case_decide || case_match); cbn [fst]; simpl;
    try done; by rewrite fn_lookup_insert_ne.
Qed.

Lemma step_online A c stop : s_online (spec_step c stop A).1 = s_online A.
Proof. unfold spec_step, s_lock. destruct (s_pc A c); cbn [fst]; repeat (case_decide || case_match); done. Qed.

Lemma step_note A c stop :
  s_pc A c ≠ PNote → s_pc (spec_step c stop A).1 c = PNote →
  s_quiesc (spec_step c stop A).1 c ≠ cur (s_rcp (spec_step c stop A).1).
Proof.
  intros Hn. unfold spec_step, s_lock. destruct (s_pc A c) eqn:E; cbn [fst]; repeat (case_decide || case_match); cbn [fst]; simpl;
    rewrite ?fn_lookup_insert, ?E; try done. by destruct k.
Qed.

Lemma alone_off c A g : inv A g → alone c A g → off (s_pc A c) = None.
Proof. intros [Hci _ _] Hal. by rewrite (ci_off _ _ Hci), (al_leaving _ _ _ Hal). Qed.

Lemma off_ghost p g : off p = None → ghost_step p g = g.
Proof. by destruct p. Qed.

Lemma alone_step c A g stop :
  inv A g → alone c A g → s_pc A c ≠ Idle → alone c (spec_step c stop A).1 g.
Proof.
  intros Hi Hal Hp. pose proof Hal as [H1 H2 H3 H4 H5]. constructor; try done.
  - by rewrite step_online.
  - intros x Hx. rewrite step_pc by done. by apply H2.
  - destruct (decide (s_pc A c = PNote)) as [E|E]; [|by apply step_note].
    unfold spec_step. rewrite E. simpl. by rewrite fn_lookup_insert.
Qed.

(** The CPU comes to the end of its run, and has done something if there was
    something to do. *)
Lemma run_finishes c L w A :
  sound w A → alone c A w.2 → c ∈ L →
  ∃ es w' A', runs w es w' ∧ (∀ e, e ∈ es → e = EStep c) ∧ sound w' A' ∧ w'.2 = w.2 ∧ alone c A' w'.2 ∧ s_pc A' c = Idle ∧
    s_online A' = s_online A ∧ (less (work L A') (work L A) ∨ work L A' = work L A ∧ ~ todo A c).
Proof.
  assert (Hwf : well_founded (lex less lt)) by (apply lex_wf; [apply less_wf|apply lt_wf]).
  remember (work L A, rank (s_pc A c)) as t eqn:Et. revert w A Et. induction (Hwf t) as [t _ IH]. intros w A -> HA Hal Hc.
  destruct (decide (s_pc A c = Idle)) as [E|E].
  { exists [], w, A. split_and!; try done; [constructor|by intros e ?%elem_of_nil|]. right. split; [done|]. unfold todo. rewrite E. tauto. }
  assert (Ha : allowed (EStep c) w).
  { destruct w as [m g]. simpl. rewrite (sim_pc _ _ _ (proj1 HA)). split; [done|apply Hal]. }
  pose proof (proj1 (proj2 HA)) as Hi. pose proof (alone_off _ _ _ Hi Hal) as Ho.
  destruct (exec_sound w A _ HA Ha) as (stop & w1 & ran & He & _ & Eg & HA1 & _). cbn [spec_exec] in HA1.
  cbn [ghost_exec] in Eg. rewrite off_ghost in Eg by done.
  pose proof (alone_step c A w.2 stop Hi Hal E) as Hal1.
  pose proof (advance_step A w.2 c stop L (inv_control _ _ Hi) Hc E Ho (al_idle _ _ _ Hal) (al_note _ _ _ Hal)) as Hadv.
  set (A1 := (spec_step c stop A).1) in *.
  destruct (IH (work L A1, rank (s_pc A1 c))) with (w := w1) (A := A1) as (es & w2 & A2 & Hr & Hes & HA2 & Eg2 & Hal2 & Hp2 & Ho2 & Hw); try done.
  { destruct Hadv as [?|(? & ? & _)]; [by left|by right]. }
  { by rewrite Eg. }
  exists (EStep c :: es), w2, A2. split_and!; try done; [by econstructor| |congruence| |].
  - by intros e [->|?]%elem_of_cons; [|apply Hes].
  - rewrite Ho2. unfold A1. by rewrite step_online.
  - destruct Hadv as [Hlt|(Heq & _ & Htodo)]; [left|].
    + destruct Hw as [?|[-> _]]; [|done]. by eapply less_trans.
    + rewrite <- Heq. destruct Hw as [?|[? Hn]]; [by left|right]. split; [done|]. intros Ht. by apply Hn, Htodo.
Qed.

(** ** Turns *)

(** No CPU runs RCU code or is in a read-side section, and none comes or goes. *)
Definition resting (w : rcu_world) : Prop :=
  (∀ c, pc_of w.1 c = Idle) ∧ (∀ c, nest w.2 c = O) ∧ leaving w.2 = None ∧ live w.2 = cpu_online_map w.1.

(** A CPU with work pending runs the softirq to its end. *)
Definition turn (w w' : rcu_world) : Prop :=
  ∃ c es, rcu_pending c w.1 = Ok true ∧ runs w (ESoftirq c :: es) w' ∧ (∀ e, e ∈ es → e = EStep c) ∧ pc_of w'.1 c = Idle.

Lemma runs_inv_cons w e es w'' :
  runs w (e :: es) w'' → ∃ w' ran, allowed e w ∧ exec e w = Ok (w', ran) ∧ runs w' es w''.
Proof. intros H. inversion H; subst. eauto 10. Qed.

Lemma softirq_start w A c :
  sound w A → resting w → c ∈ live w.2 →
  ∃ w1, allowed (ESoftirq c) w ∧ exec (ESoftirq c) w = Ok (w1, None) ∧ sound w1 (s_goto c PDoneList A) ∧ w1.2 = w.2 ∧
    alone c (s_goto c PDoneList A) w1.2 ∧ (∀ L, work L (s_goto c PDoneList A) = work L A) ∧
    (todo (s_goto c PDoneList A) c ↔ s_pending A c = true).
Proof.
  intros HA (Hp & Hn & Hl & Ho) Hc. assert (Hidle : ∀ x, s_pc A x = Idle).
  { intros x. rewrite <- (sim_pc _ _ _ (proj1 HA)). apply Hp. }
  assert (Ha : allowed (ESoftirq c) w) by (destruct w; simpl in *; rewrite <- Ho; auto).
  destruct (exec_sound w A _ HA Ha) as (stop & w1 & ran & He & _ & Eg & HA1 & Er). exists w1.
  assert (ran = None) as -> by (by destruct ran). split_and!; try done.
  - constructor; simpl; rewrite ?Eg; try done.
    + rewrite <- (sim_online _ _ _ (proj1 HA)), <- Ho. done.
    + intros x Hx. by rewrite fn_lookup_insert_ne.
    + by rewrite fn_lookup_insert.
  - intros L. unfold work. f_equal; [|f_equal].
    + apply sum_eq. intros x. apply (weight_same A _ c PDoneList); [done|done|by rewrite Hidle].
    + erewrite existsb_eq; [done|]. intros x. simpl. rewrite fn_insert_at. destruct (decide (x = c)) as [->|]; [by rewrite Hidle|done].
  - unfold todo. simpl. by rewrite fn_lookup_insert.
Qed.

Lemma runs_advance c L w A es w' :
  sound w A → alone c A w.2 → c ∈ L → runs w es w' → (∀ e, e ∈ es → e = EStep c) →
  ∃ A', sound w' A' ∧ w'.2 = w.2 ∧ alone c A' w'.2 ∧ s_online A' = s_online A ∧
    (less (work L A') (work L A) ∨ work L A' = work L A ∧ (todo A c → todo A' c)).
Proof.
  intros HA Hal Hc Hr. revert A HA Hal. induction Hr as [w|w e w1 ran es w2 Ha He Hr IH]; intros A HA Hal Hes.
  { exists A. split_and!; try done. by right. }
  assert (e = EStep c) as -> by (apply Hes; by left).
  destruct (exec_sound w A _ HA Ha) as (stop & w1' & ran' & He' & [Hp _] & Eg & HA1 & _). rewrite He in He'. injection He' as <- <-.
  pose proof (proj1 (proj2 HA)) as Hi. pose proof (alone_off _ _ _ Hi Hal) as Ho.
  cbn [spec_exec ghost_exec] in HA1, Eg. rewrite off_ghost in Eg by done.
  pose proof (alone_step c A w.2 stop Hi Hal Hp) as Hal1.
  pose proof (advance_step A w.2 c stop L (inv_control _ _ Hi) Hc Hp Ho (al_idle _ _ _ Hal) (al_note _ _ _ Hal)) as Hadv.
  set (A1 := (spec_step c stop A).1) in *. rewrite <- Eg in Hal1.
  destruct (IH A1 HA1 Hal1) as (A2 & HA2 & Eg2 & Hal2 & Eo & Hw).
  { intros e He'. apply Hes. by right. }
  exists A2. split_and!; try done; [congruence| |].
  - rewrite Eo. unfold A1. apply step_online.
  - destruct Hadv as [Hlt|(Heq & _ & Htodo)]; [left|].
    + destruct Hw as [?|[-> _]]; [by eapply less_trans|done].
    + rewrite <- Heq. destruct Hw as [?|[? ?]]; auto.
Qed.

Lemma sound_resting w c A g0 :
  sound w A → alone c A w.2 → s_pc A c = Idle → w.2 = g0 → (∀ x, nest g0 x = O) → live g0 = s_online A → resting w.
Proof.
  intros HA Hal Hp <- Hn Hl. split_and!; [|done|apply Hal|].
  - intros x. rewrite (sim_pc _ _ _ (proj1 HA)). destruct (decide (x = c)) as [->|]; [done|by apply (al_idle _ _ _ Hal)].
  - by rewrite (sim_online _ _ _ (proj1 HA)).
Qed.

Lemma pending_live w A c : sound w A → resting w → rcu_pending c w.1 = Ok true → c ∈ live w.2 → s_pending A c = true.
Proof.
  destruct w as [m g]. intros HA (_ & _ & Hl & _) Hp Hc. cbn [fst snd] in *. rewrite (rcu_pending_spec m g A c) in Hp by done. congruence.
Qed.

Lemma turn_less w w' A :
  sound w A → resting w → turn w w' →
  ∃ A', sound w' A' ∧ resting w' ∧ live w'.2 = live w.2 ∧ less (work (elements (live w.2)) A') (work (elements (live w.2)) A).
Proof.
  intros HA Hrest (c & es & Hpend & Hr & Hes & Hidle). apply runs_inv_cons in Hr as (w1 & ran & Ha & He & Hr).
  assert (Hc : c ∈ live w.2) by (destruct w as [m g], Hrest as (_ & _ & _ & ->); apply Ha).
  destruct (softirq_start w A c HA Hrest Hc) as (w1' & _ & He' & HA1 & Eg & Hal1 & Hwork & Htodo).
  rewrite He in He'. injection He' as <- _.
  destruct (runs_advance c (elements (live w.2)) w1 _ es w' HA1 Hal1) as (A' & HA' & Eg' & Hal' & Eo & Hw); [by apply elem_of_elements|done|done|].
  assert (Hpi : s_pc A' c = Idle) by (rewrite <- (sim_pc _ _ _ (proj1 HA')); done).
  exists A'. split_and!; [done| |congruence|].
  - destruct Hrest as (_ & Hn & _ & Ho). apply (sound_resting w' c A' w.2); try done; [congruence|].
    by rewrite Eo, Ho, (sim_online _ _ _ (proj1 HA)).
  - rewrite Hwork in Hw. destruct Hw as [?|[_ Hw]]; [done|]. exfalso.
    assert (Ht : todo A' c) by (apply Hw, Htodo; by eapply pending_live). unfold todo in Ht. by rewrite Hpi in Ht.
Qed.

Lemma turn_wf w A : sound w A → resting w → Acc (λ w' w, turn w w') w.
Proof.
  remember (work (elements (live w.2)) A) as t eqn:Et. revert w A Et. induction (less_wf t) as [t _ IH]. intros w A -> HA Hr.
  constructor. intros w' Ht. destruct (turn_less w w' A HA Hr Ht) as (A' & HA' & Hr' & El & Hlt).
  eapply (IH (work (elements (live w.2)) A')); [done|by rewrite El|done|done].
Qed.

Lemma turn_possible w A c : sound w A → resting w → c ∈ live w.2 → rcu_pending c w.1 = Ok true → ∃ w', turn w w'.
Proof.
  intros HA Hr Hc Hp. destruct (softirq_start w A c HA Hr Hc) as (w1 & Ha & He & HA1 & _ & Hal1 & _).
  destruct (run_finishes c [c] w1 _ HA1 Hal1) as (es & w2 & A2 & Hrun & Hes & HA2 & _ & _ & Hp2 & _); [by left|].
  exists w2, c, es. split_and!; [done|by econstructor|done|]. by rewrite (sim_pc _ _ _ (proj1 HA2)).
Qed.

(** The callbacks are gone, or some CPU notices that it has something to do. *)
Lemma work_noticed w A :
  sound w A → resting w → heads w.1 = ∅ ∨ ∃ c, c ∈ live w.2 ∧ rcu_pending c w.1 = Ok true.
Proof.
  intros HA Hr. pose proof Hr as (Hp & _ & Hl & _). destruct w as [m g]. cbn [fst snd] in *.
  destruct (decide (Exists (λ c, s_pending A c = true) (elements (live g)))) as [He|Hne].
  - right. apply Exists_exists in He as (c & Hc%elem_of_elements & Hpc). exists c. split; [done|].
    rewrite (rcu_pending_spec m g A c HA Hc Hl). by rewrite Hpc.
  - left. assert (Hnil : ∀ c k, s_list A c k = []).
    { apply (nothing_pending A g); [apply HA|apply HA| |done]. intros c Hc. split; [rewrite <- (sim_pc _ _ _ (proj1 HA)); apply Hp|].
      apply not_true_is_false. intros Hpc. apply Hne, Exists_exists. exists c. by rewrite elem_of_elements. }
    apply map_empty. intros h. destruct (heads m !! h) eqn:E; [exfalso|done].
    destruct (queue_placed (m, g) A HA) as (_ & _ & Hd). destruct (Hd h) as [Hd1 _]. destruct Hd1 as [c Hc]; [by eauto|].
    rewrite (rcu_queue_spec m g A) in Hc by done. unfold s_queue in Hc. rewrite !Hnil in Hc. by apply elem_of_nil in Hc.
Qed.

(** C11: progress. When nothing more is queued and no reader is left, the CPUs
    that have RCU work pending ([rcu_pending]) and run it, one after the other in
    whatever order, can do so only finitely often; whenever callbacks are left
    some CPU has work pending; and the end is reached with every callback run. *)
Theorem rcu_drains w :
  reachable w → resting w →
  Acc (λ w' w, turn w w') w ∧
  (∀ w', rtc turn w w' → heads w'.1 = ∅ ∨ ∃ c w'', rcu_pending c w'.1 = Ok true ∧ turn w' w'') ∧
  ∃ w', rtc turn w w' ∧ heads w'.1 = ∅.
Proof.
  intros Hreach Hr. destruct (reachable_sound w Hreach) as (A & HA).
  assert (Hstep : ∀ w, (∃ A, sound w A) → resting w → heads w.1 = ∅ ∨ ∃ c w', rcu_pending c w.1 = Ok true ∧ turn w w').
  { intros w1 [A1 HA1] Hr1. destruct (work_noticed w1 A1 HA1 Hr1) as [?|(c & Hc & Hp)]; [by left|right].
    destruct (turn_possible w1 A1 c HA1 Hr1 Hc Hp) as [w2 ?]. eauto. }
  pose proof (turn_wf w A HA Hr) as Hacc. split; [done|]. split.
  - intros w' Hrtc. clear Hacc Hreach. revert A HA Hr. induction Hrtc as [w|w w1 w2 Ht _ IH]; intros A HA Hr; [by eauto|].
    destruct (turn_less w w1 A HA Hr Ht) as (A1 & HA1 & Hr1 & _). by eapply IH.
  - clear Hreach. revert A HA Hr. induction Hacc as [w _ IH]. intros A HA Hr.
    destruct (Hstep w) as [?|(c & w1 & _ & Ht)]; [eauto|done|by exists w|].
    destruct (turn_less w w1 A HA Hr Ht) as (A1 & HA1 & Hr1 & _). destruct (IH w1 Ht A1 HA1 Hr1) as (w2 & ? & ?).
    exists w2. split; [|done]. by eapply rtc_l.
Qed.

(** Two callbacks queued on two CPUs. *)
Definition two_queued : rcu_world := played (two_cpus ++ [ECall 0 8 7; ECall 1 16 7]) rcu_boot.

Lemma rcu_drains_witness : ∃ w', rtc turn two_queued w' ∧ heads w'.1 = ∅.
Proof.
  refine (proj2 (proj2 (rcu_drains two_queued _ _))).
  - exists (two_cpus ++ [ECall 0 8 7; ECall 1 16 7]). apply played_runs. vm_compute. eauto.
  - split_and!; [|by intros c|done|].
    + intros c. unfold pc_of. replace (pcs two_queued.1) with (∅ : gmap Z pc) by (vm_compute; reflexivity). by rewrite lookup_empty.
    + vm_compute. reflexivity.
Defined.
