(* ===== verification/RcuBarrier.v ===== *)
(** * Read-copy-update: rcu_barrier

    [rcu_barrier] makes every CPU online queue a callback that counts, with CPU
    hot-plug locked out, and waits until the count is the number of CPUs online.
    By then every callback queued before has run. *)

From stdpp Require Import functions.
From S2P Require Import Prelude Rcu RcuList RcuSpec RcuSim RcuInv RcuWorld RcuProg RcuProps.
Open Scope xen_scope.

Section Barrier.
(** The function of the callback, and [data.head] on the stack of each CPU. *)
Context (cb : Z) (data : Z → Z).

(** [atomic_inc(data->cpu_count)] *)
Definition rcu_barrier_callback (cpu_count : Z) : Z := cpu_count + 1.

(** What a CPU does first in [rcu_barrier_action]: [call_rcu(&data.head, rcu_barrier_callback)]. *)
Definition rcu_barrier_action (c : Z) : event := ECall c (data c) cb.

(** The condition of the loop in which it runs softirqs. *)
Definition rcu_barrier_waits (w : rcu_world) (cpu_count : Z) : bool :=
  negb (cpu_count =? Z.of_nat (size (cpu_online_map w.1))).

(** Events, with the count of callbacks of the barrier that have run. *)
Definition barrier_exec (e : event) (s : rcu_world * Z) : outcome (rcu_world * Z) :=
  let '(w, n) := s in
  let! (w', ran) := exec e w in
  Ok (w', match ran with Some (_, f) => if f =? cb then rcu_barrier_callback n else n | None => n end).

(** While the barrier waits no CPU comes or goes (stop_machine_run holds the CPU
    maps), a CPU queues the barrier's callback at most once, and only so. *)
Definition during (called : gset Z) (e : event) : Prop :=
  match e with
  | ECall c h f => f = cb → h = data c ∧ c ∉ called
  | EUp _ | EOnline _ | EOffline _ | EDead _ _ => False
  | _ => True
  end.

Definition called_by (e : event) : gset Z :=
  match e with ECall c _ f => if f =? cb then {[ c ]} else ∅ | _ => ∅ end.

Inductive barrier_runs : rcu_world * Z → gset Z → list event → rcu_world * Z → Prop :=
| barrier_nil s called : barrier_runs s called [] s
| barrier_cons s called e s' es s'' :
    allowed e s.1 → during called e → barrier_exec e s = Ok s' →
    barrier_runs s' (called_by e ∪ called) es s'' → barrier_runs s called (e :: es) s''.

(** ** The invariant *)

(** The callbacks [old], queued before, are in front of the barrier's own. *)
Record barrier_inv (old : Z → list Z) (w : rcu_world) (n : Z) (called ran : gset Z) : Prop := {
  br_count : n = Z.of_nat (size ran);
  br_ran : ran ⊆ called;
  br_called : called ⊆ cpu_online_map w.1;
  br_hotplug : leaving w.2 = None ∧ live w.2 = cpu_online_map w.1;
  br_queued : ∀ c, c ∈ called → c ∉ ran →
    funcs w.1 !! data c = Some cb ∧ ∃ p q, rcu_queue w c = p ++ data c :: q ∧ ∀ h, h ∈ old c → h ∉ q;
  br_over : ∀ c h, c ∈ ran → h ∈ old c → h ∉ rcu_queue w c;
  br_home : ∀ c c' h, h ∈ old c → h ∈ rcu_queue w c' → c' = c;
  br_funcs : ∀ h, funcs w.1 !! h = Some cb → ∃ c, h = data c ∧ c ∈ called ∧ c ∉ ran;
}.

Lemma queue_live w c h : h ∈ rcu_queue w c → c ∈ live w.2.
Proof.
  destruct w as [m g]. unfold rcu_queue. simpl. intros Hin. destruct (decide (c ∈ live g)); [done|exfalso].
  rewrite !bool_decide_false in Hin by done. destruct (rcu_data_of m !! c); by apply elem_of_nil in Hin.
Qed.

(** What an event does to the parts of the state the invariant is about. *)
Lemma exec_frame w A e called :
  sound w A → allowed e w → during called e → leaving w.2 = None →
  ∃ w' ran A', exec e w = Ok (w', ran) ∧ sound w' A' ∧ fifo e ran w w' ∧ kept e ran w.1 w'.1 ∧
    cpu_online_map w'.1 = cpu_online_map w.1 ∧ leaving w'.2 = None ∧ live w'.2 = live w.2.
Proof.
  intros HA Ha Hd Hl. destruct (exec_sound w A e HA Ha) as (stop & w' & ran & He & Hs & Eg & HA' & Er).
  exists w', ran, (spec_exec e stop A).1. split_and!; [done|done|by eapply exec_fifo|by apply exec_kept| | |].
  - rewrite (sim_online _ _ _ (proj1 HA')), (sim_online _ _ _ (proj1 HA)). destruct e; try done.
    simpl. unfold spec_step, s_lock. destruct (s_pc A c); cbn [fst]; repeat (case_decide || case_match); done.
  - rewrite Eg. destruct e; simpl in *; try done; [by destruct (s_pc A c)|]. unfold ghost_unlock. simpl. by case_decide.
  - rewrite Eg. destruct e; simpl in *; try done; [|unfold ghost_unlock; simpl; by case_decide].
    pose proof (ci_off _ _ (inv_control _ _ (proj1 (proj2 HA))) c) as Ho. rewrite Hl in Ho. by destruct (s_pc A c).
Qed.

(** An event that touches neither queues nor callbacks. *)
Lemma barrier_same old w w' n called ran :
  barrier_inv old w n called ran → cpu_online_map w'.1 = cpu_online_map w.1 → leaving w'.2 = None → live w'.2 = live w.2 →
  (∀ x, rcu_queue w' x = rcu_queue w x) → funcs w'.1 = funcs w.1 → barrier_inv old w' n called ran.
Proof.
  intros [B1 B2 B3 [B4 B5] B6 B7 B9 B8] E1 E2 E3 Eq Ef. constructor; try done; rewrite ?E1, ?E2, ?E3, ?Ef; try done.
  - intros c. rewrite Eq. apply B6.
  - intros c h. rewrite Eq. apply B7.
  - intros c c' h. rewrite Eq. apply B9.
Qed.

Lemma barrier_call old w w' n called ran c h f :
  barrier_inv old w n called ran → c ∈ live w.2 → heads w.1 !! h = None → during called (ECall c h f) → (∀ x, h ∉ old x) →
  cpu_online_map w'.1 = cpu_online_map w.1 → leaving w'.2 = None → live w'.2 = live w.2 →
  rcu_queue w' c = rcu_queue w c ++ [h] → (∀ x, x ≠ c → rcu_queue w' x = rcu_queue w x) → funcs w'.1 = <[h := f]> (funcs w.1) →
  barrier_inv old w' n (called_by (ECall c h f) ∪ called) ran.
Proof.
  intros [B1 B2 B3 [B4 B5] B6 B7 B9 B8] Hc Hh Hd Hold E1 E2 E3 Eq Eqo Ef. simpl in *.
  assert (Hnf : funcs w.1 !! h = None) by (unfold funcs; by rewrite lookup_fmap, Hh).
  assert (Hkeep : ∀ x, x ∈ called → x ∉ ran → funcs w'.1 !! data x = Some cb ∧
    ∃ p q, rcu_queue w' x = p ++ data x :: q ∧ ∀ h, h ∈ old x → h ∉ q).
  { intros x H1 H2. destruct (B6 x H1 H2) as (Hf & p & q & Hpq & Hq). split.
    - rewrite Ef, lookup_insert_ne; [done|]. intros ->. congruence.
    - destruct (decide (x = c)) as [->|]; [|exists p, q; by rewrite Eqo]. exists p, (q ++ [h]). rewrite Eq, Hpq.
      split; [by rewrite <- app_assoc|]. intros y Hy. rewrite elem_of_app, list_elem_of_singleton. intros [?| ->]; [by eapply Hq|by eapply Hold]. }
  assert (Hover : ∀ x y, x ∈ ran → y ∈ old x → y ∉ rcu_queue w' x).
  { intros x y H1 H2. destruct (decide (x = c)) as [->|]; [|rewrite Eqo by done; by apply B7]. rewrite Eq, elem_of_app, list_elem_of_singleton.
    intros [?| ->]; [by eapply B7|by eapply Hold]. }
  assert (Hhome : ∀ x x' y, y ∈ old x → y ∈ rcu_queue w' x' → x' = x).
  { intros x x' y H1. destruct (decide (x' = c)) as [->|]; [|rewrite Eqo by done; by apply B9].
    rewrite Eq, elem_of_app, list_elem_of_singleton. intros [?| ->]; [by eapply B9|by destruct (Hold x)]. }
  destruct (Z.eqb_spec f cb) as [->|Hne].
  - destruct (Hd eq_refl) as [-> Hnc]. constructor; rewrite ?E1, ?E2, ?E3; try done; [set_solver|set_solver| |].
    + intros x [->%elem_of_singleton|H1]%elem_of_union H2; [|by apply Hkeep]. split; [by rewrite Ef, lookup_insert_eq|].
      exists (rcu_queue w c), []. split; [done|]. intros y _. apply not_elem_of_nil.
    + intros y. rewrite Ef. destruct (decide (y = data c)) as [->|]; [exists c; set_solver|]. rewrite lookup_insert_ne by done.
      intros (x & -> & ? & ?)%B8. exists x. set_solver.
  - rewrite union_empty_l_L. constructor; rewrite ?E1, ?E2, ?E3; try done. intros y. rewrite Ef.
    destruct (decide (y = h)) as [->|]; [by rewrite lookup_insert_eq; intros [= ?]|rewrite lookup_insert_ne by done; apply B8].
Qed.

Lemma barrier_run old w w' n called ran c h f :
  barrier_inv old w n called ran → Inj (=) (=) data → (∀ c, NoDup (rcu_queue w c)) →
  (∀ c c' h, h ∈ rcu_queue w c → h ∈ rcu_queue w c' → c = c') →
  cpu_online_map w'.1 = cpu_online_map w.1 → leaving w'.2 = None → live w'.2 = live w.2 →
  rcu_queue w c = h :: rcu_queue w' c → (∀ x, x ≠ c → rcu_queue w' x = rcu_queue w x) →
  funcs w.1 !! h = Some f → funcs w'.1 = delete h (funcs w.1) →
  ∃ ran', barrier_inv old w' (if f =? cb then rcu_barrier_callback n else n) called ran'.
Proof.
  intros [B1 B2 B3 [B4 B5] B6 B7 B9 B8] Hinj Hnd Hu E1 E2 E3 Eq Eqo Hf Ef.
  assert (Hother : ∀ x, x ≠ c → x ∈ called → x ∉ ran → funcs w'.1 !! data x = Some cb ∧
    ∃ p q, rcu_queue w' x = p ++ data x :: q ∧ ∀ h, h ∈ old x → h ∉ q).
  { intros x Hx H1 H2. destruct (B6 x H1 H2) as (Hfx & p & q & Hpq & Hq). split; [|exists p, q; by rewrite Eqo].
    rewrite Ef, lookup_delete_ne; [done|]. intros ->. apply Hx. apply (Hu x c (data x)); [rewrite Hpq; set_solver|rewrite Eq; by left]. }
  assert (Hover : ∀ x y, x ∈ ran → y ∈ old x → y ∉ rcu_queue w' x).
  { intros x y H1 H2 H3. apply (B7 x y H1 H2). destruct (decide (x = c)) as [->|]; [rewrite Eq; by right|by rewrite <- Eqo]. }
  assert (Hhome : ∀ x x' y, y ∈ old x → y ∈ rcu_queue w' x' → x' = x).
  { intros x x' y H1 H2. apply (B9 x x' y H1). destruct (decide (x' = c)) as [->|]; [rewrite Eq; by right|by rewrite <- Eqo]. }
  destruct (Z.eqb_spec f cb) as [->|Hne].
  - destruct (B8 h Hf) as (x & -> & H1 & H2). destruct (B6 x H1 H2) as (_ & p & q & Hpq & Hq).
    assert (x = c) as -> by (apply (Hu x c (data x)); [rewrite Hpq; set_solver|rewrite Eq; by left]).
    assert (Hq' : rcu_queue w' c = q).
    { pose proof (Hnd c) as Hn. rewrite Eq in Hpq, Hn. destruct p as [|y p]; [by injection Hpq|injection Hpq as _ Hpq].
      apply NoDup_cons in Hn as [Hn _]. exfalso. apply Hn. rewrite Hpq. set_solver. }
    exists ({[ c ]} ∪ ran). constructor; rewrite ?E1, ?E2, ?E3; try done.
    + rewrite size_union, size_singleton by set_solver. unfold rcu_barrier_callback. lia.
    + set_solver.
    + intros x Hx [Hx1 Hx2]%not_elem_of_union. apply Hother; set_solver.
    + intros x y [->%elem_of_singleton|?]%elem_of_union Hy; [rewrite Hq'; by apply Hq|by apply Hover].
    + intros y. rewrite Ef. intros (Hne & Hy)%lookup_delete_Some. destruct (B8 y Hy) as (x & -> & ? & ?). exists x. set_solver.
  - exists ran. constructor; rewrite ?E1, ?E2, ?E3; try done.
    + intros x H1 H2. destruct (decide (x = c)) as [->|]; [|by apply Hother]. destruct (B6 c H1 H2) as (Hfx & p & q & Hpq & Hq).
      split; [rewrite Ef, lookup_delete_ne; [done|]; congruence|]. rewrite Eq in Hpq. destruct p as [|y p]; simplify_eq/=. by exists p, q.
    + intros y. rewrite Ef. intros (_ & Hy)%lookup_delete_Some. by apply B8.
Qed.

Lemma barrier_step old w A n called ran e s' :
  sound w A → barrier_inv old w n called ran → Inj (=) (=) data → allowed e w → during called e →
  (∀ c h f x, e = ECall c h f → h ∉ old x) → barrier_exec e (w, n) = Ok s' →
  ∃ A' ran', sound s'.1 A' ∧ barrier_inv old s'.1 s'.2 (called_by e ∪ called) ran'.
Proof.
  intros HA HB Hinj Ha Hd Hold He. destruct (br_hotplug _ _ _ _ _ HB) as [Hl Hlive].
  destruct (exec_frame w A e called HA Ha Hd Hl) as (w' & ran0 & A' & Hex & HA' & Hfifo & Hkept & Eo & El & Elive).
  unfold barrier_exec in He. rewrite Hex in He. cbn [mbind outcome_bind] in He. injection He as <-. exists A'. simpl.
  destruct (queue_placed w A HA) as (Hnd & Hu & _).
  assert (Hsame : (∀ x, rcu_queue w' x = rcu_queue w x) → funcs w'.1 = funcs w.1 → called_by e = ∅ → ran0 = None →
    ∃ ran', sound w' A' ∧ barrier_inv old w' (match ran0 with Some (_, f) => if f =? cb then rcu_barrier_callback n else n | None => n end) (called_by e ∪ called) ran').
  { intros Hq Hf -> ->. exists ran. split; [done|]. rewrite union_empty_l_L. by eapply barrier_same. }
  assert (Hquiet : ∀ e, exec e w = Ok (w', ran0) → (match e with ECall _ _ _ | EStep _ => False | _ => True end) → ran0 = None).
  { intros e0. destruct w as [m g]. destruct e0; simpl; try done; congruence. }
  destruct e; try done; try (pose proof (Hquiet _ Hex I) as ->; apply Hsame; [intros x; by apply Hfifo|done..]).
  - exists ran. split; [done|]. destruct w as [m g]. simpl in Hex. undo. destruct Ha as (Hc & _ & _ & Hh), Hfifo as [Hf1 Hf2].
    apply (barrier_call old (m, g)); try done. intros ?. by eapply Hold.
  - destruct ran0 as [[h f]|].
    + destruct Hfifo as [Hf1 Hf2], Hkept as [Hk1 Hk2].
      destruct (barrier_run old w w' n called ran c h f) as (ran' & ?); try done. exists ran'. split; [done|]. cbn [called_by]. by rewrite union_empty_l_L.
    + simpl in Hfifo. destruct w as [m g]. cbn [fst] in Hfifo. rewrite (sim_pc _ _ _ (proj1 HA)) in Hfifo.
      rewrite (ci_off _ _ (inv_control _ _ (proj1 (proj2 HA)))) in Hfifo. cbn [snd] in Hl, Hfifo. rewrite Hl in Hfifo.
      apply Hsame; [|done..]. intros x. by apply Hfifo.
Qed.

Lemma barrier_runs_inv old s called es s' A ran :
  barrier_runs s called es s' → Inj (=) (=) data → (∀ c h f x, ECall c h f ∈ es → h ∉ old x) →
  sound s.1 A → barrier_inv old s.1 s.2 called ran →
  ∃ A' called' ran', sound s'.1 A' ∧ barrier_inv old s'.1 s'.2 called' ran'.
Proof.
  intros Hr Hinj. revert A ran. induction Hr as [|[w n] called e s1 es s2 Ha Hd He _ IH]; intros A ran Hold HA HB; [by eauto|].
  destruct (barrier_step old w A n called ran e s1) as (A1 & ran1 & HA1 & HB1); try done.
  { intros c h f x ->. apply (Hold c h f). by left. }
  apply (IH A1 ran1); [|done|done]. intros c h f x Hin. apply (Hold c h f). by right.
Qed.
End Barrier.

(** C12: the barrier. Every CPU online queues the barrier's callback once; while
    they wait anything but hot-plug can happen. When the count has reached the
    number of CPUs online, so that [rcu_barrier_action] returns, every callback
    that was queued when the barrier began has run, on whichever CPU it was. *)
Theorem rcu_barrier_complete cb data w0 es w n h :
  reachable w0 → leaving w0.2 = None → live w0.2 = cpu_online_map w0.1 → (∀ h', funcs w0.1 !! h' ≠ Some cb) → Inj (=) (=) data →
  barrier_runs cb data (w0, 0) ∅ es (w, n) → rcu_barrier_waits w n = false →
  is_Some (heads w0.1 !! h) → (∀ c f, ECall c h f ∉ es) → heads w.1 !! h = None.
Proof.
  intros Hr Hl Hlive Hcb Hinj Hruns Hdone Hh Hnot. destruct (reachable_sound w0 Hr) as (A & HA).
  destruct (queue_placed w0 A HA) as (Hnd & Hu & Hdom). apply Hdom in Hh as [c0 Hc0].
  set (old := λ x, if decide (x = c0) then [h] else []).
  assert (Hin : ∀ x y, y ∈ old x → x = c0 ∧ y = h).
  { intros x y. unfold old. case_decide; [rewrite list_elem_of_singleton; auto|by intros ?%elem_of_nil]. }
  destruct (barrier_runs_inv cb data old (w0, 0) ∅ es (w, n) A ∅ Hruns Hinj) as (A' & called & ran & HA' & HB); [|done| |].
  { intros c y f x Hec Hy. destruct (Hin x y Hy) as [_ ->]. by apply (Hnot c f). }
  { constructor; simpl; try done.
    - intros c c' y Hy Hq. destruct (Hin c y Hy) as [-> ->]. by apply (Hu c' c0 h).
    - intros y Hy. by destruct (Hcb y). }
  simpl in *. destruct HB as [B1 B2 B3 [B4 B5] B6 B7 B9 B8].
  assert (Hall : ran = cpu_online_map w.1).
  { apply set_subseteq_size_eq; [set_solver|]. unfold rcu_barrier_waits in Hdone. apply negb_false_iff in Hdone. lia. }
  destruct (queue_placed w A' HA') as (_ & _ & Hdom'). destruct (heads w.1 !! h) eqn:E; [exfalso|done].
  destruct (proj1 (Hdom' h)) as [c Hc]; [by eauto|]. assert (Hold : h ∈ old c0) by (unfold old; rewrite decide_True by done; by left).
  pose proof (B9 c0 c h Hold Hc) as ->. apply (B7 c0 h); [|done|done]. rewrite Hall.
  rewrite <- B5. by eapply queue_live.
Qed.

(** ** Executing a barrier *)

#[export] Instance during_dec cb data called e : Decision (during cb data called e).
Proof. destruct e; simpl; apply _. Defined.

Fixpoint barrier_play (cb : Z) (data : Z → Z) (called : gset Z) (es : list event) (s : rcu_world * Z) : option (rcu_world * Z) :=
  match es with
  | [] => Some s
  | e :: es =>
      if decide (allowed e s.1 ∧ during cb data called e) then
        match barrier_exec cb e s with Ok s' => barrier_play cb data (called_by cb e ∪ called) es s' | Bug => None end
      else None
  end.

Lemma barrier_play_runs cb data called es s s' :
  barrier_play cb data called es s = Some s' → barrier_runs cb data s called es s'.
Proof.
  revert called s. induction es as [|e es IH]; intros called s; simpl; [intros [= ->]; constructor|].
  case_decide as Hd; [|done]. destruct (barrier_exec cb e s) as [s1|] eqn:E; [|done]. destruct Hd. intros Hp. econstructor; eauto.
Qed.

(** Callbacks of two CPUs, then the barrier. *)
Definition barrier_data (c : Z) : Z := 32 + 8 * c.
Definition before_barrier : rcu_world := played (two_cpus ++ [ECall 0 8 7; ECall 1 16 7]) rcu_boot.
Definition barrier_events : list event :=
  [rcu_barrier_action 9 barrier_data 0; rcu_barrier_action 9 barrier_data 1] ++
  softirq 0 13 ++ softirq 1 11 ++ softirq 0 8 ++ softirq 1 12 ++ softirq 0 11 ++ softirq 1 5 ++
  softirq 0 8 ++ softirq 1 10 ++ softirq 0 4 ++ softirq 1 10.
Definition after_barrier : rcu_world * Z :=
  default (before_barrier, 0) (barrier_play 9 barrier_data ∅ barrier_events (before_barrier, 0)).

Lemma rcu_barrier_complete_witness : heads after_barrier.1.1 !! 16 = None.
Proof.
  apply (rcu_barrier_complete 9 barrier_data before_barrier barrier_events after_barrier.1 2 16).
  - exists (two_cpus ++ [ECall 0 8 7; ECall 1 16 7]). apply played_runs. vm_compute. eauto.
  - vm_compute. reflexivity.
  - vm_compute. reflexivity.
  - intros h. replace (funcs before_barrier.1) with (<[8 := 7]> (<[16 := 7]> (∅ : gmap Z Z))) by (vm_compute; reflexivity).
    rewrite !lookup_insert. repeat case_decide; try discriminate.
  - intros x y. unfold barrier_data. lia.
  - apply barrier_play_runs. vm_compute. reflexivity.
  - vm_compute. reflexivity.
  - vm_compute. eauto.
  - intros c f. cbv [barrier_events rcu_barrier_action softirq replicate app].
    repeat (apply not_elem_of_cons; split; [discriminate|]). apply not_elem_of_nil.
Defined.
