(* ===== verification/ListHead.v ===== *)
(** * Doubly linked lists: xen/include/xen/list.h

    Memory maps the address of a [struct list_head] to its two pointers. A list
    with head [h] stands for a sequence of entries when following [next] from
    [h] goes through them and back to [h], and [prev] the other way round. *)

From S2P Require Import Prelude.
Open Scope xen_scope.

Record list_head := mk_list_head { lh_next : Z; lh_prev : Z }.

Abbreviation links := (gmap Z list_head).

Definition LIST_POISON1 : Z := 0x00100100.
Definition LIST_POISON2 : Z := 0x00200200.

(** ** Operations *)

(** [a->next = v] and [a->prev = v] *)
Definition set_next (a v : Z) (m : links) : outcome links :=
  deref (m !! a) (λ x, Ok (<[a := mk_list_head v (lh_prev x)]> m)).
Definition set_prev (a v : Z) (m : links) : outcome links :=
  deref (m !! a) (λ x, Ok (<[a := mk_list_head (lh_next x) v]> m)).

Definition INIT_LIST_HEAD (a : Z) (m : links) : outcome links :=
  let! m := set_next a a m in set_prev a a m.

Definition __list_add (new prev next : Z) (m : links) : outcome links :=
  let! m := set_prev next new m in
  let! m := set_next new next m in
  let! m := set_prev new prev m in
  set_next prev new m.

Definition list_add (new head : Z) (m : links) : outcome links :=
  deref (m !! head) (λ x, __list_add new head (lh_next x) m).

Definition list_add_tail (new head : Z) (m : links) : outcome links :=
  deref (m !! head) (λ x, __list_add new (lh_prev x) head m).

Definition __list_del (prev next : Z) (m : links) : outcome links :=
  let! m := set_prev next prev m in set_next prev next m.

Definition list_del (entry : Z) (m : links) : outcome links :=
  deref (m !! entry) (λ x,
    deref (m !! lh_next x) (λ y,
      BUG_ON (negb (lh_prev y =? entry)) (
        deref (m !! lh_prev x) (λ z,
          BUG_ON (negb (lh_next z =? entry)) (
            let! m := __list_del (lh_prev x) (lh_next x) m in
            let! m := set_next entry LIST_POISON1 m in
            set_prev entry LIST_POISON2 m))))).

Definition list_del_init (entry : Z) (m : links) : outcome links :=
  deref (m !! entry) (λ x,
    let! m := __list_del (lh_prev x) (lh_next x) m in INIT_LIST_HEAD entry m).

Definition list_empty (head : Z) (m : links) : outcome bool :=
  deref (m !! head) (λ x, Ok (lh_next x =? head)).

(** ** Sequences *)

Definition nxt (m : links) (a : Z) : option Z := lh_next <$> m !! a.
Definition prv (m : links) (a : Z) : option Z := lh_prev <$> m !! a.

(** [l] is between [a] and [b]. *)
Fixpoint between (m : links) (a : Z) (l : list Z) (b : Z) : Prop :=
  match l with
  | [] => nxt m a = Some b ∧ prv m b = Some a
  | x :: l => nxt m a = Some x ∧ prv m x = Some a ∧ between m x l b
  end.

Definition ring (m : links) (h : Z) (l : list Z) : Prop := between m h l h ∧ NoDup (h :: l).

Lemma between_app m a l x l' b : between m a (l ++ x :: l') b ↔ between m a l x ∧ between m x l' b.
Proof. revert a. induction l as [|y l IH]; intros a; simpl; [tauto|]. rewrite IH. tauto. Qed.

Lemma between_ext m m' a l b :
  nxt m' a = nxt m a → (∀ x, x ∈ l → nxt m' x = nxt m x ∧ prv m' x = prv m x) → prv m' b = prv m b →
  between m a l b → between m' a l b.
Proof.
  revert a. induction l as [|y l IH]; intros a Ha Hl Hb; simpl; [by rewrite Ha, Hb|]. intros (H1 & H2 & H3).
  destruct (Hl y) as [Hn Hp]; [by left|]. rewrite Ha, Hp. split_and!; try done. apply IH; try done. intros x Hx. apply Hl. by right.
Qed.

Lemma ring_ext m m' h l : (∀ x, x ∈ h :: l → m' !! x = m !! x) → ring m h l → ring m' h l.
Proof.
  intros He [Hb Hn]. split; [|done]. unfold nxt, prv in *. eapply between_ext; [..|exact Hb]; unfold nxt, prv.
  - by rewrite He by left.
  - intros x Hx. by rewrite He by (by right).
  - by rewrite He by left.
Qed.

(** What the writes do to the fields. *)
Lemma nxt_insert m a x b : nxt (<[a := x]> m) b = if decide (b = a) then Some (lh_next x) else nxt m b.
Proof. unfold nxt. destruct (decide (b = a)) as [->|]; [by rewrite lookup_insert_eq|by rewrite lookup_insert_ne]. Qed.

Lemma prv_insert m a x b : prv (<[a := x]> m) b = if decide (b = a) then Some (lh_prev x) else prv m b.
Proof. unfold prv. destruct (decide (b = a)) as [->|]; [by rewrite lookup_insert_eq|by rewrite lookup_insert_ne]. Qed.

Lemma set_next_spec a v m : is_Some (m !! a) → ∃ m', set_next a v m = Ok m' ∧
  (∀ b, nxt m' b = if decide (b = a) then Some v else nxt m b) ∧ (∀ b, prv m' b = prv m b) ∧
  (∀ b, b ≠ a → m' !! b = m !! b) ∧ (∀ b, is_Some (m' !! b) ↔ is_Some (m !! b)).
Proof.
  intros [x Hx]. unfold set_next. rewrite Hx. eexists. split; [done|]. split_and!.
  - intros b. by rewrite nxt_insert.
  - intros b. rewrite prv_insert. case_decide; [|done]. subst b. unfold prv. by rewrite Hx.
  - intros b Hb. by rewrite lookup_insert_ne.
  - intros b. rewrite lookup_insert_is_Some. destruct (decide (a = b)) as [->|]; naive_solver.
Qed.

Lemma set_prev_spec a v m : is_Some (m !! a) → ∃ m', set_prev a v m = Ok m' ∧
  (∀ b, prv m' b = if decide (b = a) then Some v else prv m b) ∧ (∀ b, nxt m' b = nxt m b) ∧
  (∀ b, b ≠ a → m' !! b = m !! b) ∧ (∀ b, is_Some (m' !! b) ↔ is_Some (m !! b)).
Proof.
  intros [x Hx]. unfold set_prev. rewrite Hx. eexists. split; [done|]. split_and!.
  - intros b. by rewrite prv_insert.
  - intros b. rewrite nxt_insert. case_decide; [|done]. subst b. unfold nxt. by rewrite Hx.
  - intros b Hb. by rewrite lookup_insert_ne.
  - intros b. rewrite lookup_insert_is_Some. destruct (decide (a = b)) as [->|]; naive_solver.
Qed.

Lemma list_add_fields new p n m :
  is_Some (m !! new) → is_Some (m !! p) → is_Some (m !! n) → new ≠ p → new ≠ n →
  ∃ m', __list_add new p n m = Ok m' ∧
    (∀ x, nxt m' x = if decide (x = p) then Some new else if decide (x = new) then Some n else nxt m x) ∧
    (∀ x, prv m' x = if decide (x = new) then Some p else if decide (x = n) then Some new else prv m x) ∧
    (∀ x, x ≠ new → x ≠ p → x ≠ n → m' !! x = m !! x) ∧ (∀ x, is_Some (m' !! x) ↔ is_Some (m !! x)).
Proof.
  intros Hnew Hp Hn H1 H2. unfold __list_add.
  destruct (set_prev_spec n new m Hn) as (m1 & -> & P1 & N1 & K1 & S1). cbn [mbind outcome_bind].
  destruct (set_next_spec new n m1) as (m2 & -> & N2 & P2 & K2 & S2); [by apply S1|]. cbn [mbind outcome_bind].
  destruct (set_prev_spec new p m2) as (m3 & -> & P3 & N3 & K3 & S3); [by apply S2, S1|]. cbn [mbind outcome_bind].
  destruct (set_next_spec p new m3) as (m4 & -> & N4 & P4 & K4 & S4); [by apply S3, S2, S1|].
  exists m4. split; [done|]. split_and!; intros x.
  - by rewrite N4, N3, N2, N1.
  - by rewrite P4, P3, P2, P1.
  - intros Hx Hx1 Hx2. by rewrite K4, K3, K2, K1.
  - by rewrite S4, S3, S2, S1.
Qed.

Lemma list_unlink_fields p n m :
  is_Some (m !! p) → is_Some (m !! n) →
  ∃ m', __list_del p n m = Ok m' ∧
    (∀ x, nxt m' x = if decide (x = p) then Some n else nxt m x) ∧ (∀ x, prv m' x = if decide (x = n) then Some p else prv m x) ∧
    (∀ x, x ≠ p → x ≠ n → m' !! x = m !! x) ∧ (∀ x, is_Some (m' !! x) ↔ is_Some (m !! x)).
Proof.
  intros Hp Hn. unfold __list_del. destruct (set_prev_spec n p m Hn) as (m1 & -> & P1 & N1 & K1 & S1). cbn [mbind outcome_bind].
  destruct (set_next_spec p n m1) as (m2 & -> & N2 & P2 & K2 & S2); [by apply S1|].
  exists m2. split; [done|]. split_and!; intros x.
  - by rewrite N2, N1.
  - by rewrite P2, P1.
  - intros Hx1 Hx2. by rewrite K2, K1.
  - by rewrite S2, S1.
Qed.

(** ** Operations on lists *)

Lemma between_next m a l b : between m a l b → nxt m a = Some (hd b l).
Proof. destruct l; simpl; tauto. Qed.

Lemma last_shift (x a : Z) l : List.last (x :: l) a = List.last l x.
Proof. revert x a. induction l as [|y l IH]; intros x a; [done|]. change (List.last (y :: l) a = List.last (y :: l) x). by rewrite !IH. Qed.

Lemma between_prev m a l b : between m a l b → prv m b = Some (List.last l a).
Proof. revert a. induction l as [|x l IH]; intros a; simpl; [tauto|]. intros (_ & _ & H). rewrite (IH x H). f_equal. symmetry. apply last_shift. Qed.

Lemma between_some m a l b x : between m a l b → x ∈ a :: l ++ [b] → is_Some (m !! x).
Proof.
  revert a. induction l as [|y l IH]; intros a Hb Hx; simpl in *.
  - destruct Hb as [Hn Hp]. unfold nxt, prv in *. destruct (m !! a) eqn:Ea, (m !! b) eqn:Eb; try done.
    apply elem_of_cons in Hx as [->|Hx]; [eauto|]. apply list_elem_of_singleton in Hx as ->. eauto.
  - destruct Hb as (Hn & _ & Hb). apply elem_of_cons in Hx as [->|Hx]; [|by eapply IH]. unfold nxt in Hn. destruct (m !! a) eqn:E; [eauto|done].
Qed.

Lemma ring_some m h l x : ring m h l → x ∈ h :: l → is_Some (m !! x).
Proof. intros [Hb _] Hx. eapply between_some; [exact Hb|]. set_solver. Qed.

Lemma field_next m a v : nxt m a = Some v → ∃ x, m !! a = Some x ∧ lh_next x = v.
Proof. unfold nxt. destruct (m !! a); [|done]. intros [= <-]. eauto. Qed.

Lemma field_prev m a v : prv m a = Some v → ∃ x, m !! a = Some x ∧ lh_prev x = v.
Proof. unfold prv. destruct (m !! a); [|done]. intros [= <-]. eauto. Qed.

Lemma init_list_head_ring m a :
  is_Some (m !! a) →
  ∃ m', INIT_LIST_HEAD a m = Ok m' ∧ ring m' a [] ∧ (∀ x, x ≠ a → m' !! x = m !! x) ∧ (∀ x, is_Some (m' !! x) ↔ is_Some (m !! x)).
Proof.
  intros Ha. unfold INIT_LIST_HEAD. destruct (set_next_spec a a m Ha) as (m1 & -> & N1 & P1 & K1 & S1). cbn [mbind outcome_bind].
  destruct (set_prev_spec a a m1) as (m2 & -> & P2 & N2 & K2 & S2); [by apply S1|].
  exists m2. split; [done|]. split_and!.
  - split; [|apply NoDup_singleton]. simpl. by rewrite N2, N1, P2, !decide_True.
  - intros y Hy. by rewrite K2, K1.
  - intros y. by rewrite S2, S1.
Qed.

Lemma list_empty_ring m h l : ring m h l → list_empty h m = Ok (bool_decide (l = [])).
Proof.
  intros [Hb Hn]. destruct (field_next _ _ _ (between_next _ _ _ _ Hb)) as (x & Hx & Ex). unfold list_empty. rewrite Hx. simpl. f_equal.
  rewrite Ex. destruct l as [|y l]; simpl; [by rewrite Z.eqb_refl|]. apply Z.eqb_neq. apply NoDup_cons in Hn as [Hn _]. set_solver.
Qed.

Lemma list_add_tail_ring m h l new :
  ring m h l → new ∉ h :: l → is_Some (m !! new) →
  ∃ m', list_add_tail new h m = Ok m' ∧ ring m' h (l ++ [new]) ∧ (∀ x, x ∉ new :: h :: l → m' !! x = m !! x) ∧
    (∀ x, is_Some (m' !! x) ↔ is_Some (m !! x)).
Proof.
  intros Hr Hnew Hs. pose proof Hr as [Hb Hn].
  destruct (field_prev _ _ _ (between_prev _ _ _ _ Hb)) as (y & Hy & Ey). unfold list_add_tail. rewrite Hy. cbn [deref]. rewrite Ey.
  assert (Hlast : List.last l h ∈ h :: l).
  { destruct l as [|p l _] using rev_ind; [by left|]. rewrite List.last_last. set_solver. }
  destruct (list_add_fields new (List.last l h) h m) as (m' & -> & N & P & K & S); [done|by eapply ring_some|by eauto|set_solver|set_solver|].
  exists m'. split; [done|]. split_and!; [|intros x Hx; apply K; set_solver|done]. split.
  - destruct l as [|p l _] using rev_ind; simpl.
    + rewrite !N, !P. assert (h ≠ new) by set_solver. repeat case_decide; done.
    + rewrite List.last_last in *. apply between_app in Hb as [Hb1 Hb2]. rewrite <- app_assoc. simpl. apply between_app.
      apply NoDup_cons in Hn as [Hhl Hn]. apply NoDup_app in Hn as (Hnl & Hpl & _).
      assert (h ≠ new ∧ p ≠ new ∧ p ≠ h) as (? & ? & ?) by set_solver. split.
      * eapply between_ext; [..|exact Hb1]; rewrite ?N, ?P; repeat case_decide; try done.
        intros x Hx. assert (x ≠ p ∧ x ≠ new ∧ x ≠ h) as (? & ? & ?) by set_solver. rewrite N, P. repeat case_decide; done.
      * simpl. rewrite !N, !P. repeat case_decide; done.
  - rewrite app_comm_cons. apply NoDup_app. split; [done|]. split; [set_solver|]. apply NoDup_singleton.
Qed.

(** Taking [e] out of a list. *)
Lemma unlink_ring m m' h l1 e l2 :
  ring m h (l1 ++ e :: l2) →
  (∀ x, nxt m' x = if decide (x = List.last l1 h) then Some (hd h l2) else nxt m x) →
  (∀ x, prv m' x = if decide (x = hd h l2) then Some (List.last l1 h) else prv m x) → ring m' h (l1 ++ l2).
Proof.
  intros [Hb Hn] N P. apply between_app in Hb as [Hb1 Hb2].
  apply NoDup_cons in Hn as [Hh Hn]. apply NoDup_app in Hn as (Hn1 & Hd & Hn2). apply NoDup_cons in Hn2 as [He Hn2].
  split; [|apply NoDup_cons; split; [set_solver|]; apply NoDup_app; split_and!; [done|set_solver|done]].
  assert (Hl1 : ∀ l p, l1 = l ++ [p] → between m' h l p).
  { intros l p ->. rewrite List.last_last in N, P. apply between_app in Hb1 as [Hb1 _]. apply NoDup_app in Hn1 as (_ & Hp & _).
    eapply between_ext; [..|exact Hb1]; rewrite ?N, ?P.
    - rewrite decide_False by set_solver. done.
    - intros x Hx. rewrite N, P. destruct l2 as [|n l2]; simpl; rewrite !decide_False by set_solver; done.
    - rewrite decide_False; [done|]. destruct l2 as [|n l2]; simpl; set_solver. }
  assert (Hl2 : ∀ n l, l2 = n :: l → between m' n l h).
  { intros n l ->. simpl in N, P. destruct Hb2 as (_ & _ & Hb2). apply NoDup_cons in Hn2 as [Hnl _].
    eapply between_ext; [..|exact Hb2]; rewrite ?N, ?P.
    - rewrite decide_False; [done|]. destruct l1 as [|p l1 _] using rev_ind; [simpl; set_solver|rewrite List.last_last; set_solver].
    - intros x Hx. rewrite N, P. destruct l1 as [|p l1 _] using rev_ind; [simpl|rewrite List.last_last]; rewrite !decide_False by set_solver; done.
    - rewrite decide_False by set_solver. done. }
  destruct l1 as [|p l1 _] using rev_ind; destruct l2 as [|n l2]; simpl in *; rewrite ?List.last_last in *; rewrite ?app_nil_r.
  - by rewrite N, P, !decide_True.
  - rewrite N, P, !decide_True by done. split_and!; try done. by apply Hl2.
  - apply between_app. split; [by apply Hl1|]. simpl. by rewrite N, P, !decide_True.
  - rewrite <- app_assoc. apply between_app. split; [by apply Hl1|]. simpl. rewrite N, P, !decide_True by done. split_and!; try done. by apply Hl2.
Qed.

Lemma ring_member m h l1 e l2 :
  ring m h (l1 ++ e :: l2) →
  ∃ x, m !! e = Some x ∧ lh_prev x = List.last l1 h ∧ lh_next x = hd h l2 ∧
    nxt m (List.last l1 h) = Some e ∧ prv m (hd h l2) = Some e ∧
    e ≠ List.last l1 h ∧ e ≠ hd h l2 ∧ List.last l1 h ∈ h :: l1 ∧ hd h l2 ∈ h :: l2.
Proof.
  intros [Hb Hn]. apply between_app in Hb as [Hb1 Hb2]. apply NoDup_cons in Hn as [Hh Hn]. apply NoDup_app in Hn as (Hn1 & Hd & Hn2).
  apply NoDup_cons in Hn2 as [He Hn2].
  destruct (field_prev _ _ _ (between_prev _ _ _ _ Hb1)) as (x & Hx & Ep). exists x.
  destruct (field_next _ _ _ (between_next _ _ _ _ Hb2)) as (x' & Hx' & En). rewrite Hx in Hx'. injection Hx' as <-.
  assert (Hp : List.last l1 h ∈ h :: l1).
  { destruct l1 as [|p l1 _] using rev_ind; [by left|]. rewrite List.last_last. set_solver. }
  assert (Hnx : hd h l2 ∈ h :: l2) by (destruct l2; set_solver).
  split_and!; try done; [| |set_solver|set_solver].
  - destruct l1 as [|p l1 _] using rev_ind; simpl in *; [tauto|]. rewrite List.last_last. apply between_app in Hb1 as [_ Hb1]. apply Hb1.
  - destruct l2; simpl in *; tauto.
Qed.

Lemma ring_gone m h l1 e l2 : ring m h (l1 ++ e :: l2) → e ∈ h :: l1 ++ l2 → False.
Proof.
  intros [_ Hnd]. apply NoDup_cons in Hnd as [? Hnd]. apply NoDup_app in Hnd as (_ & ? & Hnd). apply NoDup_cons in Hnd as [? _]. set_solver.
Qed.

Lemma list_del_ring m h l1 e l2 :
  ring m h (l1 ++ e :: l2) →
  ∃ m', list_del e m = Ok m' ∧ ring m' h (l1 ++ l2) ∧ (∀ x, x ∉ h :: l1 ++ e :: l2 → m' !! x = m !! x) ∧
    (∀ x, is_Some (m' !! x) ↔ is_Some (m !! x)).
Proof.
  intros Hr. destruct (ring_member _ _ _ _ _ Hr) as (x & Hx & Ep & En & Np & Pn & H1 & H2 & Hp & Hn).
  destruct (field_next _ _ _ Np) as (xp & Hxp & Exp), (field_prev _ _ _ Pn) as (xn & Hxn & Exn).
  unfold list_del. rewrite Hx. cbn [deref]. rewrite En, Hxn. cbn [deref]. rewrite Exn, Z.eqb_refl. cbn [negb BUG_ON].
  rewrite Ep, Hxp. cbn [deref]. rewrite Exp, Z.eqb_refl. cbn [negb BUG_ON].
  destruct (list_unlink_fields (List.last l1 h) (hd h l2) m) as (m1 & -> & N1 & P1 & K1 & S1); [by eauto..|]. cbn [mbind outcome_bind].
  destruct (set_next_spec e LIST_POISON1 m1) as (m2 & -> & N2 & P2 & K2 & S2); [by apply S1; eauto|]. cbn [mbind outcome_bind].
  destruct (set_prev_spec e LIST_POISON2 m2) as (m3 & -> & P3 & N3 & K3 & S3); [by apply S2, S1; eauto|].
  exists m3. split; [done|]. split_and!.
  - apply (ring_ext m1).
    + intros y Hy. assert (y ≠ e); [|by rewrite K3, K2]. intros ->. by eapply ring_gone.
    + by apply (unlink_ring m m1 h l1 e l2).
  - intros y Hy. rewrite K3, K2, K1 by set_solver. done.
  - intros y. by rewrite S3, S2, S1.
Qed.

Lemma list_del_init_ring m h l1 e l2 :
  ring m h (l1 ++ e :: l2) →
  ∃ m', list_del_init e m = Ok m' ∧ ring m' h (l1 ++ l2) ∧ ring m' e [] ∧ (∀ x, x ∉ h :: l1 ++ e :: l2 → m' !! x = m !! x) ∧
    (∀ x, is_Some (m' !! x) ↔ is_Some (m !! x)).
Proof.
  intros Hr. destruct (ring_member _ _ _ _ _ Hr) as (x & Hx & Ep & En & Np & Pn & H1 & H2 & Hp & Hn).
  destruct (field_next _ _ _ Np) as (xp & Hxp & Exp), (field_prev _ _ _ Pn) as (xn & Hxn & Exn).
  unfold list_del_init. rewrite Hx. cbn [deref]. rewrite En, Ep.
  destruct (list_unlink_fields (List.last l1 h) (hd h l2) m) as (m1 & -> & N1 & P1 & K1 & S1); [by eauto..|]. cbn [mbind outcome_bind].
  destruct (init_list_head_ring m1 e) as (m2 & -> & Hr2 & K2 & S2); [by apply S1; eauto|].
  exists m2. split; [done|]. split_and!; [|done| |].
  - apply (ring_ext m1); [|by apply (unlink_ring m m1 h l1 e l2)]. intros y Hy. apply K2. intros ->. by eapply ring_gone.
  - intros y Hy. rewrite K2, K1 by set_solver. done.
  - intros y. by rewrite S2, S1.
Qed.

(** An entry in no list. *)
Lemma list_del_alone m e :
  ring m e [] →
  ∃ m', list_del e m = Ok m' ∧ (∀ x, x ≠ e → m' !! x = m !! x) ∧ (∀ x, is_Some (m' !! x) ↔ is_Some (m !! x)).
Proof.
  intros [[Hn Hp] _]. destruct (field_next _ _ _ Hn) as (x & Hx & En). pose proof Hp as Ep. unfold prv in Ep. rewrite Hx in Ep. injection Ep as Ep.
  unfold list_del. rewrite Hx. cbn [deref]. rewrite En, Hx. cbn [deref]. rewrite Ep, Z.eqb_refl. cbn [negb BUG_ON].
  rewrite Hx. cbn [deref]. rewrite En, Z.eqb_refl. cbn [negb BUG_ON].
  destruct (list_unlink_fields e e m) as (m1 & -> & N1 & P1 & K1 & S1); [by eauto..|]. cbn [mbind outcome_bind].
  destruct (set_next_spec e LIST_POISON1 m1) as (m2 & -> & N2 & P2 & K2 & S2); [by apply S1; eauto|]. cbn [mbind outcome_bind].
  destruct (set_prev_spec e LIST_POISON2 m2) as (m3 & -> & P3 & N3 & K3 & S3); [by apply S2, S1; eauto|].
  exists m3. split; [done|]. split; intros y; [intros Hy; by rewrite K3, K2, K1|by rewrite S3, S2, S1].
Qed.

Lemma list_del_init_alone m e :
  ring m e [] →
  ∃ m', list_del_init e m = Ok m' ∧ ring m' e [] ∧ (∀ x, x ≠ e → m' !! x = m !! x) ∧ (∀ x, is_Some (m' !! x) ↔ is_Some (m !! x)).
Proof.
  intros [[Hn Hp] _]. destruct (field_next _ _ _ Hn) as (x & Hx & En). pose proof Hp as Ep. unfold prv in Ep. rewrite Hx in Ep. injection Ep as Ep.
  unfold list_del_init. rewrite Hx. cbn [deref]. rewrite En, Ep.
  destruct (list_unlink_fields e e m) as (m1 & -> & N1 & P1 & K1 & S1); [by eauto..|]. cbn [mbind outcome_bind].
  destruct (init_list_head_ring m1 e) as (m2 & -> & Hr & K2 & S2); [by apply S1; eauto|].
  exists m2. split_and!; [done|done|intros y Hy; by rewrite K2, K1|intros y; by rewrite S2, S1].
Qed.

Lemma list_add_ring m h l new :
  ring m h l → new ∉ h :: l → is_Some (m !! new) →
  ∃ m', list_add new h m = Ok m' ∧ ring m' h (new :: l) ∧ (∀ x, x ∉ new :: h :: l → m' !! x = m !! x) ∧
    (∀ x, is_Some (m' !! x) ↔ is_Some (m !! x)).
Proof.
  intros Hr Hnew Hs. pose proof Hr as [Hb Hn].
  destruct (field_next _ _ _ (between_next _ _ _ _ Hb)) as (y & Hy & Ey). unfold list_add. rewrite Hy. cbn [deref]. rewrite Ey.
  assert (Hhd : hd h l ∈ h :: l) by (destruct l; set_solver).
  destruct (list_add_fields new h (hd h l) m) as (m' & -> & N & P & K & S); [done|by eauto|by eapply ring_some|set_solver|set_solver|].
  exists m'. split; [done|]. split_and!; [|intros x Hx; apply K; set_solver|done].
  assert (h ≠ new) by set_solver. split.
  - destruct l as [|n l]; simpl in *.
    + rewrite !N, !P. repeat case_decide; done.
    + apply NoDup_cons in Hn as [Hhl Hn]. apply NoDup_cons in Hn as [Hnl _]. assert (n ≠ new ∧ n ≠ h) as [? ?] by set_solver.
      destruct Hb as (Hb1 & Hb2 & Hb3). rewrite !N, !P. repeat case_decide; try done. split_and!; try done.
      eapply between_ext; [..|exact Hb3]; rewrite ?N, ?P; repeat case_decide; try done.
      intros x Hx. assert (x ≠ n ∧ x ≠ new ∧ x ≠ h) as (? & ? & ?) by set_solver. rewrite N, P. repeat case_decide; done.
  - apply NoDup_cons in Hn as [Hhl Hn]. apply NoDup_cons. split; [set_solver|]. apply NoDup_cons. split; [set_solver|done].
Qed.
