(* ===== verification/ListHeadProps.v ===== *)
(** * Doubly linked lists: every history is one on sequences

    The entries and heads of any number of lists share one memory. The abstract
    state has the sequence of each head, the entries in no list that are linked
    to themselves, and those that [list_del] left with poisoned pointers. *)

From S2P Require Import Prelude ListHead.
Open Scope xen_scope.

Record lists_state := mk_lists {
  l_lists : gmap Z (list Z);
  l_loose : gset Z;
  l_dead : gset Z;
}.

Inductive list_op :=
| LInit (a : Z)
| LAdd (new head : Z)
| LAddTail (new head : Z)
| LDel (entry : Z)
| LDelInit (entry : Z)
| LEmpty (head : Z).

(** The code, with the answer of a test. *)
Definition list_exec (o : list_op) (m : links) : outcome (links * option bool) :=
  match o with
  | LInit a => let! m := INIT_LIST_HEAD a m in Ok (m, None)
  | LAdd new h => let! m := list_add new h m in Ok (m, None)
  | LAddTail new h => let! m := list_add_tail new h m in Ok (m, None)
  | LDel e => let! m := list_del e m in Ok (m, None)
  | LDelInit e => let! m := list_del_init e m in Ok (m, None)
  | LEmpty h => let! b := list_empty h m in Ok (m, Some b)
  end.

Definition add_to (f : list Z → list Z) (new h : Z) (s : lists_state) : lists_state :=
  mk_lists (alter f h (l_lists s)) (l_loose s ∖ {[ new ]}) (l_dead s ∖ {[ new ]}).

Definition drop_from (e : Z) (s : lists_state) : gmap Z (list Z) := filter (.≠ e) <$> l_lists s.

(** The same operations on sequences. *)
Definition list_spec (o : list_op) (s : lists_state) : lists_state * option bool :=
  match o with
  | LInit a => (mk_lists (l_lists s) ({[ a ]} ∪ l_loose s) (l_dead s ∖ {[ a ]}), None)
  | LAdd new h => (add_to (cons new) new h s, None)
  | LAddTail new h => (add_to (λ l, l ++ [new]) new h s, None)
  | LDel e => (mk_lists (drop_from e s) (l_loose s ∖ {[ e ]}) ({[ e ]} ∪ l_dead s), None)
  | LDelInit e => (mk_lists (drop_from e s) ({[ e ]} ∪ l_loose s) (l_dead s), None)
  | LEmpty h => (s, Some (bool_decide (l_lists s !! h = Some [])))
  end.

Definition listed (e : Z) (s : lists_state) : Prop := ∃ h l, l_lists s !! h = Some l ∧ e ∈ l.

(** What the users of the lists keep to: an entry is added when it is in no
    list, and removed when it is in one or linked to itself. *)
Definition list_ok (o : list_op) (s : lists_state) : Prop :=
  match o with
  | LInit a => a ∈ l_loose s ∪ l_dead s
  | LAdd new h | LAddTail new h => new ∈ l_loose s ∪ l_dead s ∧ is_Some (l_lists s !! h)
  | LDel e | LDelInit e => e ∈ l_loose s ∨ listed e s
  | LEmpty h => is_Some (l_lists s !! h)
  end.

Record lists_rep (m : links) (s : lists_state) : Prop := {
  lr_ring : ∀ h l, l_lists s !! h = Some l → ring m h l;
  lr_loose : ∀ e, e ∈ l_loose s → ring m e [];
  lr_dead : ∀ e, e ∈ l_dead s → is_Some (m !! e);
  lr_lists : ∀ h h' l l' x, l_lists s !! h = Some l → l_lists s !! h' = Some l' → x ∈ h :: l → x ∈ h' :: l' → h = h';
  lr_out : ∀ h l x, l_lists s !! h = Some l → x ∈ h :: l → x ∉ l_loose s ∧ x ∉ l_dead s;
  lr_disj : l_loose s ## l_dead s;
}.

(** An operation that changes the cells of one list and of one entry. *)
Lemma rep_change m m' s s' h l l' e :
  lists_rep m s → l_lists s !! h = Some l → (e ∈ l ∨ e ∈ l_loose s ∪ l_dead s) →
  ring m' h l' → (∀ x, x ∉ e :: h :: l → m' !! x = m !! x) → (∀ x, is_Some (m' !! x) ↔ is_Some (m !! x)) →
  l_lists s' = <[h := l']> (l_lists s) → (∀ x, x ∈ l' → x ∈ l ∨ x = e) →
  (∀ x, x ≠ e → x ∈ l_loose s' ↔ x ∈ l_loose s) → (∀ x, x ≠ e → x ∈ l_dead s' ↔ x ∈ l_dead s) →
  (e ∈ l_loose s' → ring m' e []) → (e ∈ l' → e ∉ l_loose s' ∧ e ∉ l_dead s') → ¬ (e ∈ l_loose s' ∧ e ∈ l_dead s') →
  lists_rep m' s'.
Proof.
  intros [R1 R2 R3 R4 R5 R6] Hl He Hr Hm Hs El Hin Hlo Hde Hel Hin' Hex.
  assert (Hown : ∀ h' k, h' ≠ h → l_lists s !! h' = Some k → ∀ x, x ∈ h' :: k → x ∉ e :: h :: l).
  { intros h' k Hne Hk x Hx Hx'. apply elem_of_cons in Hx' as [->|Hx']; [|apply Hne; by eapply R4].
    destruct He as [He|He]; [apply Hne; eapply R4; [done|done|exact Hx|by right]|]. destruct (R5 h' k e Hk Hx). set_solver. }
  assert (Hout : ∀ x, x ∈ h :: l' → x = e ∨ x ∈ h :: l).
  { intros x [->|Hx]%elem_of_cons; [right; by left|]. destruct (Hin x Hx); [right; by right|by left]. }
  assert (Hhe : h ≠ e).
  { intros ->. destruct He as [He|He]; [|destruct (R5 e l e Hl); set_solver]. destruct (R1 e l Hl) as [_ Hnd]. by apply NoDup_cons in Hnd as [? _]. }
  constructor.
  - intros h' k. rewrite El. destruct (decide (h' = h)) as [->|Hne]; [rewrite lookup_insert_eq; by intros [= <-]|].
    rewrite lookup_insert_ne by done. intros Hk. apply (ring_ext m); [|by apply R1]. intros x Hx. apply Hm. by eapply Hown.
  - intros x Hx. destruct (decide (x = e)) as [->|Hne]; [by apply Hel|]. apply Hlo in Hx; [|done]. apply (ring_ext m); [|by apply R2].
    intros y ->%list_elem_of_singleton. apply Hm. intros [?|Hy]%elem_of_cons; [done|]. by destruct (R5 h l x Hl Hy).
  - intros x Hx. apply Hs. destruct (decide (x = e)) as [->|Hne]; [|by apply R3, Hde].
    destruct He as [He|He]; [eapply ring_some; [by apply R1|by right]|]. apply elem_of_union in He as [He|He]; [|by apply R3].
    eapply ring_some; [by apply R2|by left].
  - intros h1 h2 l1 l2 x. rewrite El. destruct (decide (h1 = h)) as [->|N1], (decide (h2 = h)) as [->|N2];
      rewrite ?lookup_insert_eq, ?lookup_insert_ne by done; try done.
    + intros [= <-] H2 Hx1 Hx2. destruct (Hout x Hx1) as [->|Hx1']; [|by eapply (R4 h h2)].
      exfalso. apply (Hown h2 l2 N2 H2 e Hx2). by left.
    + intros H1 [= <-] Hx1 Hx2. destruct (Hout x Hx2) as [->|Hx2']; [|by eapply (R4 h1 h)].
      exfalso. apply (Hown h1 l1 N1 H1 e Hx1). by left.
    + apply R4.
  - intros h' k x. rewrite El. destruct (decide (h' = h)) as [->|Hne].
    + rewrite lookup_insert_eq. intros [= <-] Hx. destruct (decide (x = e)) as [->|Hxe].
      * apply elem_of_cons in Hx as [?|Hx]; [by destruct Hhe|]. by apply Hin'.
      * rewrite Hlo, Hde by done. destruct (Hout x Hx) as [?|Hx']; [done|]. by apply (R5 h l).
    + rewrite lookup_insert_ne by done. intros Hk Hx. rewrite Hlo, Hde; [by apply (R5 h' k)|..];
        intros ->; apply (Hown h' k Hne Hk e Hx); by left.
  - intros x H1 H2. destruct (decide (x = e)) as [->|Hne]; [by apply Hex|]. apply (R6 x); [by apply Hlo|by apply Hde].
Qed.

(** An operation that changes one entry that is in no list. *)
Lemma rep_entry m m' s s' e :
  lists_rep m s → e ∈ l_loose s ∪ l_dead s → (∀ x, x ≠ e → m' !! x = m !! x) → (∀ x, is_Some (m' !! x) ↔ is_Some (m !! x)) →
  l_lists s' = l_lists s → (∀ x, x ≠ e → x ∈ l_loose s' ↔ x ∈ l_loose s) → (∀ x, x ≠ e → x ∈ l_dead s' ↔ x ∈ l_dead s) →
  (e ∈ l_loose s' → ring m' e []) → ¬ (e ∈ l_loose s' ∧ e ∈ l_dead s') → lists_rep m' s'.
Proof.
  intros [R1 R2 R3 R4 R5 R6] He Hm Hs El Hlo Hde Hel Hex.
  assert (Hown : ∀ h k x, l_lists s !! h = Some k → x ∈ h :: k → x ≠ e).
  { intros h k x Hk Hx ->. destruct (R5 h k e Hk Hx). set_solver. }
  constructor; rewrite ?El; try done.
  - intros h k Hk. apply (ring_ext m); [|by apply R1]. intros x Hx. apply Hm. by eapply Hown.
  - intros x Hx. destruct (decide (x = e)) as [->|Hne]; [by apply Hel|]. apply Hlo in Hx; [|done]. apply (ring_ext m); [|by apply R2].
    intros y ->%list_elem_of_singleton. by apply Hm.
  - intros x Hx. apply Hs. destruct (decide (x = e)) as [->|Hne]; [|by apply R3, Hde].
    apply elem_of_union in He as [He|He]; [|by apply R3]. eapply ring_some; [by apply R2|by left].
  - intros h k x Hk Hx. pose proof (Hown h k x Hk Hx). rewrite Hlo, Hde by done. by eapply R5.
  - intros x H1 H2. destruct (decide (x = e)) as [->|Hne]; [by apply Hex|]. apply (R6 x); [by apply Hlo|by apply Hde].
Qed.

(** ** Histories *)

Lemma filter_absent (e : Z) (l : list Z) : e ∉ l → filter (.≠ e) l = l.
Proof. induction l as [|x l IH]; [done|]. intros [Hx Hl]%not_elem_of_cons. rewrite filter_cons_True by done. by rewrite IH. Qed.

Lemma drop_loose m s e : lists_rep m s → e ∈ l_loose s → drop_from e s = l_lists s.
Proof.
  intros [R1 R2 R3 R4 R5 R6] He. unfold drop_from. apply map_eq. intros h. rewrite lookup_fmap. destruct (l_lists s !! h) as [l|] eqn:E; [|done].
  simpl. f_equal. apply filter_absent. intros Hin. destruct (R5 h l e E); [by right|done].
Qed.

Lemma drop_listed m s e h l1 l2 :
  lists_rep m s → l_lists s !! h = Some (l1 ++ e :: l2) → drop_from e s = <[h := l1 ++ l2]> (l_lists s).
Proof.
  intros [R1 R2 R3 R4 R5 R6] Hl. unfold drop_from. apply map_eq. intros h'. rewrite lookup_fmap. destruct (decide (h' = h)) as [->|Hne].
  - rewrite Hl, lookup_insert_eq. simpl. f_equal. destruct (R1 _ _ Hl) as [_ Hn]. apply NoDup_cons in Hn as [_ Hn].
    apply NoDup_app in Hn as (_ & Hd & Hn). apply NoDup_cons in Hn as [Hn _].
    rewrite filter_app, filter_cons_False by tauto. by rewrite !filter_absent by set_solver.
  - rewrite lookup_insert_ne by done. destruct (l_lists s !! h') as [l|] eqn:E; [|done]. simpl. f_equal. apply filter_absent.
    intros Hin. apply Hne. eapply R4; [exact E|exact Hl|by right|set_solver].
Qed.

Lemma outside_some m s e : lists_rep m s → e ∈ l_loose s ∪ l_dead s → is_Some (m !! e).
Proof. intros [R1 R2 R3 R4 R5 R6] [He|He]%elem_of_union; [eapply ring_some; [by apply R2|by left]|by apply R3]. Qed.

Lemma outside_list m s e h l : lists_rep m s → e ∈ l_loose s ∪ l_dead s → l_lists s !! h = Some l → e ∉ h :: l.
Proof. intros Hr He Hl Hin. destruct (lr_out _ _ Hr h l e Hl Hin). set_solver. Qed.

Lemma add_rep m m' s new h l f :
  lists_rep m s → new ∈ l_loose s ∪ l_dead s → l_lists s !! h = Some l → ring m' h (f l) →
  (∀ x, x ∈ f l ↔ x = new ∨ x ∈ l) → (∀ x, x ∉ new :: h :: l → m' !! x = m !! x) → (∀ x, is_Some (m' !! x) ↔ is_Some (m !! x)) →
  lists_rep m' (add_to f new h s).
Proof.
  intros Hr Hnew Hl Hr' Hf Hm Hs. pose proof (elem_of_difference (C:=gset Z)) as Hdiff.
  apply (rep_change m m' s _ h l (f l) new); try done; simpl.
  - by right.
  - apply map_eq. intros h'. destruct (decide (h' = h)) as [->|]; [by rewrite lookup_alter_eq, Hl, lookup_insert_eq|].
    by rewrite lookup_alter_ne, lookup_insert_ne.
  - intros x. rewrite Hf. tauto.
  - intros x Hx. rewrite Hdiff, elem_of_singleton. tauto.
  - intros x Hx. rewrite Hdiff, elem_of_singleton. tauto.
  - rewrite Hdiff, elem_of_singleton. tauto.
  - rewrite !Hdiff, elem_of_singleton. tauto.
  - rewrite !Hdiff, elem_of_singleton. tauto.
Qed.

(** Entries that are in no list, or in one, are taken out. *)
Lemma del_rep m s e :
  lists_rep m s → list_ok (LDel e) s →
  ∃ m', list_del e m = Ok m' ∧ lists_rep m' (list_spec (LDel e) s).1.
Proof.
  intros Hr [He|(h & l & Hl & Hin)].
  - destruct (list_del_alone m e) as (m' & E & Hm & Hs); [by apply (lr_loose _ _ Hr)|]. exists m'. split; [done|].
    apply (rep_entry m m' s _ e); simpl; try done; [set_solver|by eapply drop_loose|set_solver..].
  - apply list_elem_of_split in Hin as (l1 & l2 & ->). pose proof (lr_ring _ _ Hr _ _ Hl) as Hring.
    destruct (list_del_ring m h l1 e l2 Hring) as (m' & E & Hr' & Hm & Hs). exists m'. split; [done|].
    assert (Hout := ring_gone _ _ _ _ _ Hring). destruct (lr_out _ _ Hr h _ e Hl) as [Ho1 Ho2]; [set_solver|].
    apply (rep_change m m' s _ h (l1 ++ e :: l2) (l1 ++ l2) e); simpl; try done; [set_solver|set_solver|by eapply drop_listed|set_solver..].
Qed.

Lemma del_init_rep m s e :
  lists_rep m s → list_ok (LDelInit e) s →
  ∃ m', list_del_init e m = Ok m' ∧ lists_rep m' (list_spec (LDelInit e) s).1.
Proof.
  intros Hr [He|(h & l & Hl & Hin)].
  - destruct (list_del_init_alone m e) as (m' & E & Hre & Hm & Hs); [by apply (lr_loose _ _ Hr)|]. exists m'. split; [done|].
    pose proof (lr_disj _ _ Hr). apply (rep_entry m m' s _ e); simpl; try done; [set_solver|by eapply drop_loose|set_solver..].
  - apply list_elem_of_split in Hin as (l1 & l2 & ->). pose proof (lr_ring _ _ Hr _ _ Hl) as Hring.
    destruct (list_del_init_ring m h l1 e l2 Hring) as (m' & E & Hr' & Hre & Hm & Hs). exists m'. split; [done|].
    assert (Hout := ring_gone _ _ _ _ _ Hring). destruct (lr_out _ _ Hr h _ e Hl) as [Ho1 Ho2]; [set_solver|].
    apply (rep_change m m' s _ h (l1 ++ e :: l2) (l1 ++ l2) e); simpl; try done; [set_solver|set_solver|by eapply drop_listed|set_solver..].
Qed.

Lemma list_exec_rep m s o :
  lists_rep m s → list_ok o s →
  ∃ m', list_exec o m = Ok (m', (list_spec o s).2) ∧ lists_rep m' (list_spec o s).1.
Proof.
  intros Hr Ho. destruct o as [a|new h|new h|e|e|h]; simpl in Ho; cbn [list_exec].
  - destruct (init_list_head_ring m a) as (m' & -> & Ha & Hm & Hs); [by eapply outside_some|]. exists m'. split; [done|].
    apply (rep_entry m m' s _ a); simpl; try done; set_solver.
  - destruct Ho as [Hnew [l Hl]]. destruct (list_add_ring m h l new) as (m' & -> & Hr' & Hm & Hs);
      [by apply (lr_ring _ _ Hr)|by eapply outside_list|by eapply outside_some|].
    exists m'. split; [done|]. apply (add_rep m m' s new h l (cons new)); try done. intros x. by rewrite elem_of_cons.
  - destruct Ho as [Hnew [l Hl]]. destruct (list_add_tail_ring m h l new) as (m' & -> & Hr' & Hm & Hs);
      [by apply (lr_ring _ _ Hr)|by eapply outside_list|by eapply outside_some|].
    exists m'. split; [done|]. apply (add_rep m m' s new h l (λ l, l ++ [new])); try done. intros x. set_solver.
  - destruct (del_rep m s e Hr Ho) as (m' & -> & ?). by exists m'.
  - destruct (del_init_rep m s e Hr Ho) as (m' & -> & ?). by exists m'.
  - destruct Ho as [l Hl]. rewrite (list_empty_ring m h l) by by apply (lr_ring _ _ Hr). exists m. split; [|done]. simpl. rewrite Hl.
    repeat f_equal. apply bool_decide_ext. split; congruence.
Qed.

Fixpoint list_execs (os : list list_op) (m : links) : outcome (links * list (option bool)) :=
  match os with
  | [] => Ok (m, [])
  | o :: os =>
      let! (m, a) := list_exec o m in
      let! (m, answers) := list_execs os m in
      Ok (m, a :: answers)
  end.

Fixpoint list_specs (os : list list_op) (s : lists_state) : lists_state * list (option bool) :=
  match os with
  | [] => (s, [])
  | o :: os => let '(s, a) := list_spec o s in let '(s, answers) := list_specs os s in (s, a :: answers)
  end.

Fixpoint list_oks (os : list list_op) (s : lists_state) : Prop :=
  match os with
  | [] => True
  | o :: os => list_ok o s ∧ list_oks os (list_spec o s).1
  end.

(** C28: lists. Every history of initialisations, additions at either end,
    removals and tests of any number of lists in one memory returns, none of the
    assertions of [list_del] fails, and it has the effect and the answers of the
    same history on sequences; an entry that is removed leaves its list as it
    was without it. *)
Theorem list_history_refines os m s :
  lists_rep m s → list_oks os s →
  ∃ m', list_execs os m = Ok (m', (list_specs os s).2) ∧ lists_rep m' (list_specs os s).1.
Proof.
  revert m s. induction os as [|o os IH]; intros m s Hr Ho; [by exists m|]. destruct Ho as [Ho Hos].
  destruct (list_exec_rep m s o Hr Ho) as (m1 & E1 & Hr1). destruct (IH m1 _ Hr1 Hos) as (m2 & E2 & Hr2).
  exists m2. cbn [list_execs list_specs]. rewrite E1. cbn [mbind outcome_bind]. rewrite E2. cbn [mbind outcome_bind].
  destruct (list_spec o s) as [s1 a]. simpl in *. by destruct (list_specs os s1).
Qed.

(** Two heads and two entries. *)
Definition four_cells : links :=
  {[ 16 := mk_list_head 16 16; 32 := mk_list_head 32 32; 48 := mk_list_head 48 48; 64 := mk_list_head 0 0 ]}.
Definition two_lists : lists_state := mk_lists {[ 16 := []; 32 := [] ]} {[ 48 ]} {[ 64 ]}.
Definition some_moves : list list_op :=
  [LAddTail 48 16; LInit 64; LAdd 64 16; LEmpty 32; LDel 48; LAddTail 48 32; LDelInit 64; LEmpty 16].

Lemma list_history_refines_witness :
  ∃ m', list_execs some_moves four_cells = Ok (m', (list_specs some_moves two_lists).2) ∧ lists_rep m' (list_specs some_moves two_lists).1.
Proof.
  apply (list_history_refines some_moves four_cells two_lists).
  - assert (Hl : ∀ h l, l_lists two_lists !! h = Some l → l = [] ∧ (h = 16 ∨ h = 32)).
    { intros h l. unfold two_lists; simpl. rewrite lookup_insert_Some, lookup_singleton_Some. naive_solver. }
    constructor.
    + intros h l [-> [-> | ->]]%Hl; (split; [done|apply NoDup_singleton]).
    + simpl; intros e ->%elem_of_singleton. split; [done|apply NoDup_singleton].
    + simpl; intros e ->%elem_of_singleton. vm_compute. eauto.
    + intros h h' l l' x [-> _]%Hl [-> _]%Hl. rewrite !list_elem_of_singleton. congruence.
    + intros h l x [-> Hh]%Hl ->%list_elem_of_singleton. simpl. rewrite !elem_of_singleton. lia.
    + simpl. set_solver.
  - cbv [some_moves list_oks list_ok]. split_and!; try exact I; try (refine (bool_decide_unpack _ _); vm_compute; exact I).
Defined.
